(* ===== verification/_CoqProject ===== *)
-Q . S2P
Prelude.v
Bytes.v
Text.v
Errors.v
Keys.v
Records.v
Kv.v
Redb.v
ShardedRedb.v
Prog.v
Wp.v
Effects.v
Scan.v
Pagination.v
Update.v
Artifact.v
Blob.v
Repo.v
Directory.v
UpdateWorker.v
Ingest.v
Inflight.v
Cache.v
Proxy.v
Accounts.v
Tasks.v
TaskManager.v
Auth.v
Settings.v
EventBus.v
StateScanner.v
Cluster.v
Reaper.v
BloomFilter.v
Batches.v
BulkDelete.v
TreeRebuild.v
Check.v
CheckScan.v
CheckSafety.v
CheckFixes.v
Cleanup.v
DockerGc.v
GcPass.v
GcSafety.v
GcSchedule.v
ApiHelpers.v
SettingsUse.v
Package.v
Golang.v
Docker.v
DockerUpload.v
Promote.v
DockerPull.v
Json.v
Cargo.v
Npm.v
Pypi.v
