(* ===== verification/Prelude.v ===== *)
(** * Artifact Depot: a verification library

    Artifact Depot is a repository manager: clients upload and download
    packages over HTTP, the server keeps records in a key-value store and
    contents in blob stores, and background workers keep derived data and
    storage in order.  This library models the core of the server in Rocq and
    proves what the parts promise.  File names below are relative to [src/].

    ** How the program is put together, and where its parts are modelled

    - Foundations.  [Prelude] (this file): results, machine integers, lists.
      [Bytes] and [Text]: strings as byte sequences and the functions of the Rust
      standard library on them, sorting included.  [Errors] (core/src/error.rs).  [Keys]
      (core/src/store/keys.rs): tables, shards, paths, the keys of the browse
      tree.  [Records] (core/src/store/kv/records.rs, metadata.rs): the stored
      records, and serialisation as the class [Serde].
    - Storage.  [Kv] (core/src/store/kv/trait_def.rs): the [KvStore] trait as a
      class of step functions, and its specification [spec_store], a finite map
      from (table, partition key, sort key) to a value and a version.  [Redb]
      (kv/redb/src/redb_kv.rs) and [ShardedRedb] (kv/redb/src/sharded_redb.rs)
      are the backends; both are proved to refine the specification
      ([KvRefines]), so that what is proved of a service over the specification
      holds over either.
    - Programs.  [Prog]: async functions as trees of effects on a [world]
      (store, blobs, clock, random ids, events sent), run alone ([run]) or
      interleaved in a pool ([step]).  [Wp]: weakest preconditions and frames.
      [Effects]: which calls a program can make at all, and what then holds at
      every moment of any interleaving, also when calls on the stores fail.
      [Scan] (core/src/service/scan.rs, typed.rs) and [Batches]: the loops that
      walk a partition.
    - Services (core/src/service/).  [Pagination], [Artifact], [Blob], [Repo],
      [Directory], [Accounts], [Tasks], and the events they send ([Update],
      core/src/update.rs).
    - Repositories (core/src/repo/).  [Ingest] (uploads and hosted
      repositories), [Inflight] (core/src/inflight.rs, coalescing of
      downloads), [Cache] and [Proxy].
    - The server (server/src/server/).  [Auth] (auth/: identities, permissions,
      tokens), [Settings] (config/settings.rs, infra/rate_limit.rs: the shared
      settings, their validation, the limiter), [SettingsUse] (what valid settings
      guarantee to the components that read them), [TaskManager] (infra/task.rs:
      the life of a task and its progress bridge), [EventBus]
      (infra/event_bus.rs, event_stream.rs, worker/materializer.rs: events, the
      model that instances show, the stream of a client), [StateScanner]
      (worker/state_scanner.rs: what changed in the store, as events),
      [Cluster] (worker/cluster.rs: instances and leases), [Reaper]
      (worker/cleanup.rs: what a clean-up tick does), and the other workers:
      [UpdateWorker] and [TreeRebuild] (worker/update.rs: directory counts,
      access times, store statistics; the rebuild of the browse tree),
      [BulkDelete] (worker/bulk_delete.rs), the integrity check (worker/check.rs)
      with its model in [Check], the effect of its scans in [CheckScan], what it
      leaves alone in [CheckSafety] and what its fixes do in [CheckFixes], and
      the collector of worker/blob_reaper/: [BloomFilter], [Cleanup], [DockerGc], [GcPass],
      [GcSafety], [GcSchedule].
    - Package formats (format/).  [ApiHelpers] (core/src/api_helpers.rs): what a
      handler does first, and the origin of a request.  [Package]: what the
      stores of the formats have in common, putting a file under a path with
      its blob, with lemmas that compose.  [Golang] (format/golang/): Go modules.
      [Docker] (format/docker/src/store.rs): layers, manifests and tags;
      [DockerUpload] (format/docker/src/api/): the handlers that write, with the
      sessions of uploads in chunks.  [DockerPull] (format/docker/src/api/): the
      handlers that read, caches, proxies and listings.  [Promote]
      (format/docker/src/promote.rs): copies and moves of tags.  [Json]: JSON
      values.  [Cargo] (format/cargo/): crates and their index.  [Npm]
      (format/npm/): packages, documents and dist-tags.  [Pypi] (format/pypi/):
      Python packages and the pages that list them.

    Handlers call the repositories, these call the services, and the services
    call the store through [kv].  Writers tell the update worker about changes
    through channels ([ESend]), and the worker maintains the directory entries
    that listings read; a rebuild recomputes them from the artifacts.  The
    collector removes the blobs that no record uses.  Handlers publish events
    on the bus of their instance, the scanner publishes what other instances
    did, and the materializer folds both into the model that is shown.

    ** What the theorems show

    - Storage: both backends implement the specification on every operation,
      failures included; a batch is atomic; keys are injective, and prefix
      ranges are exact.
    - Services: listings are complete and duplicate-free across pages and
      shards; put, get and delete of artifacts behave as a map; concurrent
      claims of a hash agree on one blob and count it once; the walk of a
      partition visits every entry once and terminates.
    - Repositories: a stored record always refers to a blob with the recorded
      hash, for uploads and for downloads; a proxy answers with the first hit
      and terminates on circular configurations, unless a cache among its members
      waits for a notification that was lost; a path has one downloader.
    - Package formats: what has been uploaded is what the client of the format
      is served, under every name the format gives it; Docker uploads in chunks
      are assembled in order and checked against the digest; a copied tag has
      everything that its manifest reaches.
    - Workers: what the update worker adds up is what a recount would find, for
      deltas that never empty a directory; a rebuild brings the browse tree to
      what the artifacts determine; the scanner and the materializer keep the
      model equal to the store; the end of a task is never undone; a clean-up
      tick removes what it should; an integrity check writes nothing in a dry
      run, and in fix mode, as long as the stores answer, changes what it
      announces and nothing that is in order; a collection never deletes a blob
      that one of the repositories it lists uses, and deletes nothing at first
      sight; leases change hands only after they expire, or are released;
      authorisation caches never grant more than the records do; settings that
      pass validation are usable by the components that read them.
    - Behaviour that is surprising is stated as a theorem as well: each of
      those says what the code does, and where it differs from a comment or a
      document.

    ** Modelling choices

    Strings and byte vectors are [string], compared bytewise as Rust does.
    Integers are [Z] with the wrap-around of [u64] and [i64] written out where
    the code computes with them; instants are nanoseconds since the epoch, not
    bounded.  Mutable shared state is in the [world]; the atomic steps of an
    interleaving are the awaited calls, or, in [Inflight], the operations on
    shared memory.  A fan-out over shards runs its parts one after the other in
    the order in which they complete, which is a parameter (a list of shards,
    or the class [Scheduler]); iteration over a hash map is in an arbitrary
    order in the same way.  A stream of chunks is written in one call.  A panic
    and a loop without end are both [Spin].

    Loops that are not structural take fuel, and the theorems say how much is
    enough: a walk needs one round more than the partition has entries, the
    update worker one pass more than the deepest directory has segments, a
    proxy the depth limit of the code (10), the retry loops the bounds of the
    code.  A theorem never assumes that a program returns.

    Code from outside is a parameter with the laws the program relies on: redb,
    blake3, rmp_serde, serde_json, base64, the Unicode tables, uuid, chrono,
    moka, argon2, jsonwebtoken, bloomfilter, the upstream behind reqwest.  Each
    law holds of a small instance that the witnesses compute with.

    ** What is not modelled

    I/O failures of the stores inside the services, as far as the theorems over
    [run] and [step] go: there a call on the key-value store fails only where
    the specification says so (a conflict of versions is an answer, not a
    failure), and a call on a blob store never does.  The programs have the
    branches for a failing call all the same, and the theorems about the calls
    that a program may make ([Effects.issues], for instance
    [CheckSafety.check_dry_run_readonly] and the rotation of the signing secret
    in [SettingsUse]) hold under any failures ([Effects.fstep]).  The failures
    of the key-value backends themselves are part of [Redb] and [ShardedRedb].
    The wait of a caller for another one's download has no effect on the world;
    whether it ends is a parameter ([Cache.download_claim]).

    The HTTP handlers of the API and the router (glue over the services), the
    formats APT and Yum, most of Helm, configuration and start-up, the web
    interface, the benchmark client; the file, S3 and DynamoDB backends and LDAP, which are
    input and output or calls of an SDK; the timer loops around the workers
    (their decisions are modelled, not their sleeping); metrics and logs. *)

From stdpp Require Export prelude strings gmap sorting pretty.
From Stdlib Require Export ZArith Lia Ascii.

#[export] Set Default Proof Using "Type".

Declare Scope depot_scope.
Delimit Scope depot_scope with depot.
Open Scope depot_scope.

(** ** Errors (core/src/error.rs) *)

(** Whether a storage error is likely transient and safe to retry. *)
(** core/src/error.rs:11-17 *)
Inductive Retryability : Type :=
| Permanent
| Transient.

(** The error enum of the whole program.  A boxed source error is represented
    by the text it displays. *)
(** core/src/error.rs:20-53 *)
Inductive DepotError : Type :=
| Storage (source : string) (r : Retryability)
| BadRequest (msg : string)
| Unauthorized (msg : string)
| Forbidden (msg : string)
| Conflict (msg : string)
| NotFound (msg : string)
| NotAllowed (msg : string)
| Upstream (msg : string)
| DataIntegrity (msg : string)
| Internal (msg : string).

#[export] Instance Retryability_eq_dec : EqDecision Retryability.
Proof. solve_decision. Defined.
#[export] Instance DepotError_eq_dec : EqDecision DepotError.
Proof. solve_decision. Defined.

(** [error::Result<T>]. *)
(** core/src/error.rs:55-55 *)
Inductive result (A : Type) : Type :=
| Ok (a : A)
| Err (e : DepotError).
Arguments Ok {A} a.
Arguments Err {A} e.

#[export] Instance result_eq_dec `{EqDecision A} : EqDecision (result A).
Proof. solve_decision. Defined.

(** The [?] operator on a pure result. *)
Definition result_bind {A B : Type} (r : result A) (k : A → result B) : result B :=
  match r with
  | Ok a => k a
  | Err e => Err e
  end.

Definition result_map {A B : Type} (f : A → B) (r : result A) : result B :=
  match r with
  | Ok a => Ok (f a)
  | Err e => Err e
  end.

Definition is_ok {A : Type} (r : result A) : bool :=
  match r with Ok _ => true | Err _ => false end.

(** [Result::ok]. *)
Definition result_ok {A : Type} (r : result A) : option A :=
  match r with Ok a => Some a | Err _ => None end.

(** [Option::ok_or_else]. *)
Definition ok_or {A : Type} (o : option A) (e : DepotError) : result A :=
  match o with Some a => Ok a | None => Err e end.

Notation "'let?' x := r 'in' k" := (result_bind r (λ x, k))
  (at level 10, x name, r at level 100, k at level 200) : depot_scope.

(** ** Machine integers

    Byte counts, versions and sequence numbers are [u64]; deltas are [i64].
    Both are represented by [Z].  The release profile compiles arithmetic
    without overflow checks, so [+] wraps. *)

Definition u64_modulus : Z := 2 ^ 64.
Definition u64_wrap (z : Z) : Z := z mod 2 ^ 64.
Definition u64_add (a b : Z) : Z := u64_wrap (a + b).
Definition u64_ok (z : Z) : Prop := (0 ≤ z < 2 ^ 64)%Z.

(** Two's complement reinterpretation: [x as i64]. *)
Definition i64_wrap (z : Z) : Z := ((z + 2 ^ 63) mod 2 ^ 64 - 2 ^ 63)%Z.
Definition i64_add (a b : Z) : Z := i64_wrap (a + b).
Definition i64_neg (a : Z) : Z := i64_wrap (- a).
Definition i64_ok (z : Z) : Prop := (- 2 ^ 63 ≤ z < 2 ^ 63)%Z.

#[export] Instance u64_ok_dec z : Decision (u64_ok z).
Proof. unfold u64_ok; apply _. Defined.
#[export] Instance i64_ok_dec z : Decision (i64_ok z).
Proof. unfold i64_ok; apply _. Defined.

Lemma u64_wrap_ok z : u64_ok (u64_wrap z).
Proof. apply Z.mod_pos_bound; lia. Qed.

Lemma u64_wrap_id z : u64_ok z → u64_wrap z = z.
Proof. apply Z.mod_small. Qed.

Lemma u64_add_ok a b : u64_ok (u64_add a b).
Proof. apply u64_wrap_ok. Qed.

Lemma u64_add_wrap a b : u64_add (u64_wrap a) b = u64_wrap (a + b)%Z.
Proof. unfold u64_add, u64_wrap. apply Z.add_mod_idemp_l. lia. Qed.

Lemma u64_add_wrap_wrap a b : u64_add (u64_wrap a) (u64_wrap b) = u64_wrap (a + b)%Z.
Proof. rewrite u64_add_wrap. unfold u64_wrap. apply Z.add_mod_idemp_r. lia. Qed.

Lemma i64_wrap_ok z : i64_ok (i64_wrap z).
Proof.
  unfold i64_ok, i64_wrap.
  pose proof (Z.mod_pos_bound (z + 2 ^ 63) (2 ^ 64)). lia.
Qed.

Lemma i64_wrap_id z : i64_ok z → i64_wrap z = z.
Proof. unfold i64_ok, i64_wrap; intros. rewrite Z.mod_small; lia. Qed.

Lemma i64_wrap_add_l a b : i64_wrap (i64_wrap a + b) = i64_wrap (a + b).
Proof.
  unfold i64_wrap. f_equal.
  replace ((a + 2 ^ 63) `mod` 2 ^ 64 - 2 ^ 63 + b + 2 ^ 63)%Z
    with ((a + 2 ^ 63) `mod` 2 ^ 64 + b)%Z by lia.
  rewrite Z.add_mod_idemp_l by lia. f_equal; lia.
Qed.

(** ** Proof automation *)

(** Case analysis on the scrutinee of a [match] in the goal or a hypothesis. *)
Ltac case_match_all :=
  repeat (case_match; simplify_eq/=; try done).

(** Destruct pairs bound by [let '(_, _) := _]. *)
Ltac split_pairs :=
  repeat match goal with
  | |- context [let '(_, _) := ?p in _] => destruct p eqn:?
  | H : context [let '(_, _) := ?p in _] |- _ => destruct p eqn:?
  end; simplify_eq/=.

(** A closed decidable proposition, by computation. *)
Ltac by_decide := apply (bool_decide_unpack _); vm_compute; exact I.

Create HintDb depot discriminated.
#[export] Hint Resolve u64_wrap_ok u64_add_ok i64_wrap_ok : depot.

(** ** Lists *)

Section lists.
Context {A B : Type}.
Implicit Types l : list A.

Lemma filter_all (P : A → Prop) `{∀ x, Decision (P x)} l :
  Forall P l → filter P l = l.
Proof.
  induction 1; [done|]. rewrite filter_cons_True by done. by f_equal.
Qed.

Lemma filter_none (P : A → Prop) `{∀ x, Decision (P x)} l :
  Forall (λ x, ¬ P x) l → filter P l = [].
Proof.
  induction 1; [done|]. by rewrite filter_cons_False.
Qed.

Lemma filter_fmap_comm (f : A → B) (P : B → Prop) `{∀ x, Decision (P x)} l :
  filter P (f <$> l) = f <$> filter (λ x, P (f x)) l.
Proof.
  induction l as [|x l IH]; [done|]. rewrite fmap_cons, !filter_cons.
  case_decide; [rewrite fmap_cons|]; by rewrite IH.
Qed.

Lemma StronglySorted_filter (R : relation A) (P : A → Prop) `{∀ x, Decision (P x)} l :
  StronglySorted R l → StronglySorted R (filter P l).
Proof.
  induction 1 as [|x l Hs IH Hall]; [constructor|].
  rewrite filter_cons. case_decide; [|done].
  constructor; [done|]. rewrite Forall_forall in Hall |- *.
  intros y [_ Hy]%list_elem_of_filter. auto.
Qed.

Lemma StronglySorted_impl (R R' : relation A) l :
  (∀ x y, R x y → R' x y) → StronglySorted R l → StronglySorted R' l.
Proof.
  intros HR. induction 1; constructor; [done|]. by eapply Forall_impl; [|intros; apply HR].
Qed.

Lemma StronglySorted_fmap (R : relation B) (f : A → B) l :
  StronglySorted (λ x y, R (f x) (f y)) l → StronglySorted R (f <$> l).
Proof.
  induction 1; simpl; constructor; [done|]. by apply Forall_fmap.
Qed.

(** Two strongly sorted lists with the same elements are equal, for a strict
    order. *)
Lemma StronglySorted_ext (R : relation A) l1 l2 :
  Irreflexive R → Transitive R →
  StronglySorted R l1 → StronglySorted R l2 →
  (∀ x, x ∈ l1 ↔ x ∈ l2) → l1 = l2.
Proof.
  intros Hirr Htr Hs1. revert l2.
  induction Hs1 as [|x l1 Hs1 IH Hx]; intros l2 Hs2 Heq.
  - destruct l2 as [|y l2]; [done|].
    destruct (not_elem_of_nil y). apply Heq. left.
  - destruct l2 as [|y l2].
    { destruct (not_elem_of_nil x). apply Heq. left. }
    apply StronglySorted_inv in Hs2 as [Hs2 Hy].
    rewrite Forall_forall in Hx. rewrite Forall_forall in Hy.
    assert (x = y) as ->.
    { pose proof (proj1 (Heq x) ltac:(left)) as Hxy.
      pose proof (proj2 (Heq y) ltac:(left)) as Hyx.
      apply elem_of_cons in Hxy as [|Hxy]; [done|].
      apply elem_of_cons in Hyx as [|Hyx]; [done|].
      destruct (Hirr x). transitivity y; auto. }
    f_equal. apply IH; [done|]. intros z. split; intros Hz.
    + pose proof (proj1 (Heq z) ltac:(by right)) as Hz2.
      apply elem_of_cons in Hz2 as [->|]; [|done]. destruct (Hirr y). auto.
    + pose proof (proj2 (Heq z) ltac:(by right)) as Hz2.
      apply elem_of_cons in Hz2 as [->|]; [|done]. destruct (Hirr y). auto.
Qed.
End lists.
