(* ===== verification/Bytes.v ===== *)
(** * Strings and byte vectors

    Rust's [str] and [Vec<u8>] are both represented by [string], a sequence of
    bytes.  [str]'s [Ord] is the bytewise lexicographic order, which is
    [String.compare].  This file holds the standard-library string functions
    the program calls ([trim_matches], [rfind], [rsplit_once], [starts_with],
    [from_utf8] ...) and the lemmas on the order that every range scan rests
    on. *)

From S2P Require Import Prelude.

Abbreviation bytes := string (only parsing).

(** stdpp never unfolds [String.append]; here it computes on a constructor. *)
#[global] Arguments String.append !s1 s2 : simpl nomatch.

(** ** The byte ['\0'] *)

Definition NUL : ascii := "000"%char.
Definition SLASH : ascii := "/"%char.

(** [s] contains the byte [c]. *)
Fixpoint has_char (c : ascii) (s : string) : bool :=
  match s with
  | EmptyString => false
  | String a s' => bool_decide (a = c) || has_char c s'
  end.

Definition singleton_str (c : ascii) : string := String c EmptyString.

(** ** [str] methods *)

(** [&s[n..]] and [&s[..n]], for [n] at most the length. *)
Fixpoint str_drop (n : nat) (s : string) : string :=
  match n, s with
  | S n', String _ s' => str_drop n' s'
  | _, _ => s
  end.

Fixpoint str_take (n : nat) (s : string) : string :=
  match n, s with
  | S n', String c s' => String c (str_take n' s')
  | _, _ => EmptyString
  end.

(** [s.starts_with(p)]. *)
Fixpoint starts_with (s p : string) : bool :=
  match p, s with
  | EmptyString, _ => true
  | String a p', String b s' => bool_decide (a = b) && starts_with s' p'
  | String _ _, EmptyString => false
  end.

(** [s.strip_prefix(p)]. *)
Fixpoint strip_prefix (s p : string) : option string :=
  match p, s with
  | EmptyString, _ => Some s
  | String a p', String b s' => if decide (a = b) then strip_prefix s' p' else None
  | String _ _, EmptyString => None
  end.

(** [s.contains(p)] for a string pattern. *)
Fixpoint contains (s p : string) : bool :=
  starts_with s p ||
  match s with
  | EmptyString => false
  | String _ s' => contains s' p
  end.

(** [s.rsplit_once(c)]: the parts before and after the last [c]. *)
Fixpoint rsplit_once (c : ascii) (s : string) : option (string * string) :=
  match s with
  | EmptyString => None
  | String a s' =>
      match rsplit_once c s' with
      | Some (x, y) => Some (String a x, y)
      | None => if decide (a = c) then Some (EmptyString, s') else None
      end
  end.

(** [s.split_once(c)]: the parts before and after the first [c]. *)
Fixpoint split_once (c : ascii) (s : string) : option (string * string) :=
  match s with
  | EmptyString => None
  | String a s' =>
      if decide (a = c) then Some (EmptyString, s')
      else match split_once c s' with
           | Some (x, y) => Some (String a x, y)
           | None => None
           end
  end.

(** [s.rsplit_once(p)] for a string pattern. *)
Fixpoint rsplit_once_str (p s : string) : option (string * string) :=
  match s with
  | EmptyString => if decide (p = EmptyString) then Some (EmptyString, EmptyString) else None
  | String a s' =>
      match rsplit_once_str p s' with
      | Some (x, y) => Some (String a x, y)
      | None =>
          match strip_prefix s p with
          | Some y => Some (EmptyString, y)
          | None => None
          end
      end
  end.

(** [s.trim_start_matches(c)]. *)
Fixpoint trim_start (c : ascii) (s : string) : string :=
  match s with
  | String a s' => if decide (a = c) then trim_start c s' else s
  | EmptyString => s
  end.

(** [s.trim_end_matches(c)]. *)
Fixpoint trim_end (c : ascii) (s : string) : string :=
  match s with
  | EmptyString => EmptyString
  | String a s' =>
      match trim_end c s' with
      | EmptyString => if decide (a = c) then EmptyString else String a EmptyString
      | r => String a r
      end
  end.

(** [s.trim_matches(c)]. *)
Definition trim_matches (c : ascii) (s : string) : string := trim_end c (trim_start c s).

(** [s.ends_with(p)]. *)
Fixpoint ends_with (s p : string) : bool :=
  bool_decide (s = p) ||
  match s with
  | EmptyString => false
  | String _ s' => ends_with s' p
  end.

(** ** UTF-8 validity ([core::str::from_utf8]) *)

Definition in_bytes (lo hi : N) (c : ascii) : bool :=
  (lo <=? N_of_ascii c)%N && (N_of_ascii c <=? hi)%N.

Definition cont_byte : ascii → bool := in_bytes 128 191.

Fixpoint valid_utf8 (s : string) : bool :=
  match s with
  | EmptyString => true
  | String a r =>
      if in_bytes 0 127 a then valid_utf8 r
      else match r with
      | EmptyString => false
      | String b r2 =>
          if in_bytes 194 223 a then cont_byte b && valid_utf8 r2
          else match r2 with
          | EmptyString => false
          | String c r3 =>
              if in_bytes 224 239 a then
                (if in_bytes 224 224 a then in_bytes 160 191 b
                 else if in_bytes 237 237 a then in_bytes 128 159 b
                 else cont_byte b)
                && cont_byte c && valid_utf8 r3
              else match r3 with
              | EmptyString => false
              | String d r4 =>
                  in_bytes 240 244 a
                  && (if in_bytes 240 240 a then in_bytes 144 191 b
                      else if in_bytes 244 244 a then in_bytes 128 143 b
                      else cont_byte b)
                  && cont_byte c && cont_byte d && valid_utf8 r4
              end
          end
      end
  end.

(** [String::from_utf8(b).ok()]. *)
Definition from_utf8 (b : bytes) : option string :=
  if valid_utf8 b then Some b else None.

(** ** The lexicographic order *)

Definition str_lt (s1 s2 : string) : Prop := String.ltb s1 s2 = true.
Definition str_le (s1 s2 : string) : Prop := String.leb s1 s2 = true.

#[export] Instance str_lt_dec : RelDecision str_lt.
Proof. unfold RelDecision, str_lt. intros. apply _. Defined.
#[export] Instance str_le_dec : RelDecision str_le.
Proof. unfold RelDecision, str_le. intros. apply _. Defined.

Lemma ascii_compare_lt a b : Ascii.compare a b = Lt ↔ (N_of_ascii a < N_of_ascii b)%N.
Proof. unfold Ascii.compare. apply N.compare_lt_iff. Qed.

Lemma N_of_ascii_inj a b : N_of_ascii a = N_of_ascii b → a = b.
Proof. intros H. by rewrite <-(ascii_N_embedding a), H, ascii_N_embedding. Qed.

Lemma ascii_compare_refl a : Ascii.compare a a = Eq.
Proof. unfold Ascii.compare. apply N.compare_refl. Qed.

Lemma str_lt_cons a s b t :
  str_lt (String a s) (String b t) ↔
  (N_of_ascii a < N_of_ascii b)%N ∨ (a = b ∧ str_lt s t).
Proof.
  unfold str_lt, String.ltb. simpl. unfold Ascii.compare.
  destruct (N.compare_spec (N_of_ascii a) (N_of_ascii b)) as [H|H|H].
  - apply N_of_ascii_inj in H as ->.
    split; [intros; right; done|]. intros [?|[_ ?]]; [lia|done].
  - split; [intros; by left|done].
  - split; [done|]. intros [?|[-> ?]]; lia.
Qed.

Lemma str_lt_nil_cons b t : str_lt "" (String b t).
Proof. done. Qed.
Lemma str_lt_nil_r s : ¬ str_lt s "".
Proof. by destruct s. Qed.

Lemma str_lt_irrefl s : ¬ str_lt s s.
Proof. induction s; [done|]. rewrite str_lt_cons. intros [?|[_ ?]]; [lia|done]. Qed.

Lemma str_lt_trans s1 s2 s3 : str_lt s1 s2 → str_lt s2 s3 → str_lt s1 s3.
Proof.
  revert s2 s3. induction s1 as [|a s1 IH]; intros [|b s2] [|c s3] H1 H2;
    try done; try by destruct (str_lt_nil_r _ H1).
  rewrite str_lt_cons in *.
  destruct H1 as [?|[-> ?]], H2 as [?|[-> ?]]; [left; lia|left; lia|left; lia|].
  right. eauto.
Qed.

#[export] Instance str_lt_strict : StrictOrder str_lt.
Proof. split; [exact str_lt_irrefl|exact str_lt_trans]. Qed.

Lemma str_lt_trichotomy s1 s2 : str_lt s1 s2 ∨ s1 = s2 ∨ str_lt s2 s1.
Proof.
  revert s2. induction s1 as [|a s1 IH]; intros [|b s2]; [right; by left|by left|right; by right|].
  rewrite !str_lt_cons.
  destruct (N.lt_trichotomy (N_of_ascii a) (N_of_ascii b)) as [?|[H|?]]; [by auto| |by auto].
  apply N_of_ascii_inj in H as ->.
  destruct (IH s2) as [?|[->|?]]; auto.
Qed.

Lemma str_le_lt_eq s1 s2 : str_le s1 s2 ↔ str_lt s1 s2 ∨ s1 = s2.
Proof.
  unfold str_le, str_lt, String.leb, String.ltb.
  destruct (String.compare s1 s2) eqn:E; split; auto.
  - intros _. right. by apply String.compare_eq_iff.
  - intros [?| ->]; [done|].
    exfalso. pose proof (String.compare_antisym s2 s2) as H. by rewrite E in H.
Qed.

Lemma str_le_nlt s1 s2 : str_le s1 s2 ↔ ¬ str_lt s2 s1.
Proof.
  rewrite str_le_lt_eq. destruct (str_lt_trichotomy s1 s2) as [H|[->|H]].
  - split; [intros _ H2; by destruct (str_lt_irrefl s1); etrans|auto].
  - split; [intros _; apply str_lt_irrefl|auto].
  - split; [|done]. intros [H2| ->] _; [by destruct (str_lt_irrefl s1); etrans|].
    by destruct (str_lt_irrefl s2).
Qed.

Lemma str_lt_nle s1 s2 : str_lt s1 s2 ↔ ¬ str_le s2 s1.
Proof. rewrite str_le_nlt. split; [auto|]. intros H. by apply dec_stable. Qed.

Lemma str_le_refl s : str_le s s.
Proof. apply str_le_lt_eq; auto. Qed.

Lemma str_le_trans s1 s2 s3 : str_le s1 s2 → str_le s2 s3 → str_le s1 s3.
Proof.
  rewrite !str_le_lt_eq. intros [?| ->] [?| ->]; auto. left. by etrans.
Qed.

Lemma str_le_lt_trans s1 s2 s3 : str_le s1 s2 → str_lt s2 s3 → str_lt s1 s3.
Proof. rewrite str_le_lt_eq. intros [?| ->]; [|done]. by etrans. Qed.

Lemma str_lt_le_trans s1 s2 s3 : str_lt s1 s2 → str_le s2 s3 → str_lt s1 s3.
Proof. rewrite str_le_lt_eq. intros ? [?| ->]; [|done]. by etrans. Qed.

Lemma str_lt_le s1 s2 : str_lt s1 s2 → str_le s1 s2.
Proof. rewrite str_le_lt_eq; auto. Qed.

Lemma str_le_cases s1 s2 : str_le s1 s2 ∨ str_lt s2 s1.
Proof. rewrite str_le_lt_eq. destruct (str_lt_trichotomy s1 s2) as [|[|]]; auto. Qed.

Lemma str_le_nil s : str_le "" s.
Proof. destruct s; done. Qed.

#[export] Instance str_le_preorder : PreOrder str_le.
Proof. split; [exact str_le_refl|exact str_le_trans]. Qed.
#[export] Instance str_le_total : Total str_le.
Proof. intros x y. destruct (str_le_cases x y); auto using str_lt_le. Qed.
#[export] Instance str_le_antisymm : AntiSymm (=) str_le.
Proof.
  intros x y. rewrite !str_le_lt_eq. intros [H1| ->] [H2| ?]; try done.
  destruct (str_lt_irrefl x). by etrans.
Qed.

(** ** Concatenation *)

Lemma str_app_assoc (s1 s2 s3 : string) : (s1 +:+ s2) +:+ s3 = s1 +:+ (s2 +:+ s3).
Proof. induction s1 as [|a s1 IH]; simpl; [done|]. by f_equal. Qed.

Lemma str_app_nil_r (s : string) : s +:+ "" = s.
Proof. induction s as [|a s IH]; simpl; [done|]. by f_equal. Qed.

Lemma str_lt_app_same p s t : str_lt (p +:+ s) (p +:+ t) ↔ str_lt s t.
Proof.
  induction p as [|a p IH]; simpl; [done|]. rewrite str_lt_cons, IH.
  split; [intros [?|[_ ?]]; [lia|done]|auto].
Qed.

Lemma str_le_app_same p s t : str_le (p +:+ s) (p +:+ t) ↔ str_le s t.
Proof. by rewrite !str_le_nlt, str_lt_app_same. Qed.

(** [format!("{}\0", s)] is the immediate successor of [s]: a scan that resumes
    there neither repeats [s] nor skips a key. *)
Lemma str_succ_nul s x : str_le (s +:+ singleton_str NUL) x ↔ str_lt s x.
Proof.
  revert x. induction s as [|a s IH]; intros x; simpl.
  - destruct x as [|b x]; [done|]. split; [done|]. intros _.
    unfold singleton_str. rewrite str_le_nlt, str_lt_cons.
    intros [H|[_ H]]; [change (N_of_ascii NUL) with 0%N in H; lia|].
    by apply str_lt_nil_r in H.
  - destruct x as [|b x]; [done|].
    rewrite str_le_lt_eq, !str_lt_cons, <-IH, str_le_lt_eq.
    split.
    + intros [[?|[-> ?]]|?]; simplify_eq; auto.
    + intros [?|[-> [?|?]]]; subst; auto.
Qed.

(** ** Prefixes *)

Lemma starts_with_spec s p : starts_with s p = true ↔ ∃ t, s = p +:+ t.
Proof.
  revert s. induction p as [|a p IH]; intros s; simpl.
  - destruct s; split; eauto.
  - destruct s as [|b s]; simpl.
    { split; [done|]. intros [t ?]; done. }
    rewrite andb_true_iff, bool_decide_eq_true, IH. split.
    + intros [-> [t ->]]. by exists t.
    + intros [t ?]; simplify_eq. eauto.
Qed.

Lemma strip_prefix_spec s p t : strip_prefix s p = Some t ↔ s = p +:+ t.
Proof.
  revert s. induction p as [|a p IH]; intros [|b s]; simpl; try (split; intros; by simplify_eq).
  case_decide; [subst; rewrite IH|]; split; intros; by simplify_eq.
Qed.

Lemma starts_with_app p t : starts_with (p +:+ t) p = true.
Proof. apply starts_with_spec; eauto. Qed.

Lemma starts_with_nil s : starts_with s "" = true.
Proof. by destruct s. Qed.

Lemma starts_with_le s p : starts_with s p = true → str_le p s.
Proof.
  rewrite starts_with_spec. intros [t ->].
  rewrite <-(str_app_nil_r p) at 1. apply str_le_app_same, str_le_nil.
Qed.

#[export] Hint Resolve str_le_refl str_le_nil str_lt_le : depot.

(** ** Splitting at a byte *)

Lemma has_char_app c s t : has_char c (s +:+ t) = has_char c s || has_char c t.
Proof. induction s as [|a s IH]; simpl; [done|]. by rewrite IH, orb_assoc. Qed.

Lemma rsplit_once_None c s : rsplit_once c s = None ↔ has_char c s = false.
Proof.
  induction s as [|a s IH]; simpl; [done|].
  destruct (rsplit_once c s) as [[x y]|] eqn:E.
  - split; [done|]. rewrite orb_false_iff. intros [_ H]. by apply IH in H.
  - rewrite orb_false_iff, bool_decide_eq_false. destruct IH as [IH _].
    case_decide; split; [done|by intros []|auto|done].
Qed.

Lemma rsplit_once_Some c s x y :
  rsplit_once c s = Some (x, y) ↔ s = x +:+ String c y ∧ has_char c y = false.
Proof.
  revert x y. induction s as [|a s IH]; intros x y; simpl.
  { split; [done|]. intros [H _]. by destruct x. }
  destruct (rsplit_once c s) as [[x' y']|] eqn:E.
  - destruct (proj1 (IH x' y') eq_refl) as [-> Hy']. split.
    + intros ?; simplify_eq. done.
    + intros [H Hy]. destruct x as [|a' x]; simplify_eq/=.
      * rewrite has_char_app in Hy. simpl in Hy.
        rewrite bool_decide_true, orb_true_r in Hy by done. done.
      * assert (Some (x', y') = Some (x, y)) as [= -> ->]; [|done].
        apply IH. auto.
  - apply rsplit_once_None in E. split.
    + case_decide; [|done]. intros; simplify_eq. done.
    + intros [H Hy]. destruct x as [|a' x]; simplify_eq/=.
      * by rewrite decide_True.
      * rewrite has_char_app in E. simpl in E.
        rewrite bool_decide_true, orb_true_r in E by done. done.
Qed.

Lemma split_once_Some c s x y :
  split_once c s = Some (x, y) ↔ s = x +:+ String c y ∧ has_char c x = false.
Proof.
  revert x y. induction s as [|a s IH]; intros x y; simpl.
  { split; [done|]. intros [H _]. by destruct x. }
  case_decide as Ha.
  - subst. split; [intros; by simplify_eq|].
    intros [H Hx]. destruct x as [|a' x]; simplify_eq/=; [done|].
    by rewrite bool_decide_true in Hx.
  - destruct (split_once c s) as [[x' y']|] eqn:E.
    + destruct (proj1 (IH x' y') eq_refl) as [-> Hx'].
      split; [intros; simplify_eq/=; by rewrite bool_decide_false|].
      intros [H Hx]. destruct x as [|a' x]; simplify_eq/=; [].
      rewrite orb_false_iff in Hx. destruct Hx as [_ Hx].
      by assert (Some (x', y') = Some (x, y)) as [= -> ->] by (apply IH; auto).
    + split; [done|]. intros [H Hx]. destruct x as [|a' x]; simplify_eq/=; [].
      rewrite orb_false_iff in Hx. destruct Hx as [_ Hx].
      assert (None = Some (x, y)); [|done]. apply IH. auto.
Qed.

Lemma str_drop_app s t : str_drop (String.length s) (s +:+ t) = t.
Proof. induction s; simpl; [by destruct t|done]. Qed.

Lemma str_take_app s t : str_take (String.length s) (s +:+ t) = s.
Proof. induction s as [|c s IH]; simpl; [by destruct t|]. by rewrite IH. Qed.

Lemma str_length_app s t : String.length (s +:+ t) = String.length s + String.length t.
Proof. induction s; simpl; auto. Qed.

(** ** Little-endian integers *)

(** The [n] low bytes of [z], least significant first ([to_le_bytes]). *)
Fixpoint to_le_bytes (n : nat) (z : Z) : bytes :=
  match n with
  | O => EmptyString
  | S n' => String (ascii_of_N (Z.to_N (z `mod` 256))) (to_le_bytes n' (z / 256))
  end.

(** [from_le_bytes]. *)
Fixpoint from_le_bytes (s : bytes) : Z :=
  match s with
  | EmptyString => 0
  | String c s' => Z.of_N (N_of_ascii c) + 256 * from_le_bytes s'
  end.

Lemma to_le_bytes_length n z : String.length (to_le_bytes n z) = n.
Proof. revert z. induction n; intros; simpl; auto. Qed.

Lemma from_to_le_bytes n z : (0 ≤ z < 256 ^ Z.of_nat n)%Z → from_le_bytes (to_le_bytes n z) = z.
Proof.
  revert z. induction n as [|n IH]; intros z Hz.
  { simpl in *. lia. }
  rewrite Nat2Z.inj_succ, Z.pow_succ_r in Hz by lia. simpl.
  pose proof (Z.mod_pos_bound z 256) as Hm.
  rewrite N_ascii_embedding by lia. rewrite Z2N.id by lia.
  rewrite IH; [pose proof (Z.div_mod z 256); lia|].
  split; [apply Z.div_pos; lia|apply Z.div_lt_upper_bound; lia].
Qed.

(** ** Hexadecimal *)

Definition hex_digit (n : N) : ascii := ascii_of_N (if decide (n < 10)%N then 48 + n else 87 + n).

(** [format!("{b:02x}")]. *)
Definition hex_byte (c : ascii) : string :=
  let n := N_of_ascii c in
  String (hex_digit (n / 16)) (String (hex_digit (n mod 16)) EmptyString).

(** Lowercase hexadecimal. *)
Fixpoint to_hex (b : bytes) : string :=
  match b with
  | EmptyString => EmptyString
  | String c b => hex_byte c +:+ to_hex b
  end.

(** [b.is_ascii_digit() || (b'a'..=b'f').contains(&b)]. *)
Definition is_lower_hex (c : ascii) : bool := in_bytes 48 57 c || in_bytes 97 102 c.

(** [s.bytes().all(f)]. *)
Fixpoint all_bytes (f : ascii → bool) (s : string) : bool :=
  match s with
  | EmptyString => true
  | String c s => f c && all_bytes f s
  end.

Lemma all_bytes_app f s1 s2 : all_bytes f (s1 +:+ s2) = all_bytes f s1 && all_bytes f s2.
Proof. induction s1 as [|c s1 IH]; cbn; [done|]. rewrite IH. apply andb_assoc. Qed.

Lemma hex_digit_lower n : (n < 16)%N → is_lower_hex (hex_digit n) = true.
Proof.
  intros Hn. rewrite <-(N2Nat.id n). assert (N.to_nat n < 16) as Hm by lia. revert Hm.
  generalize (N.to_nat n). intros m Hm. do 16 (destruct m as [|m]; [reflexivity|]). lia.
Qed.

Lemma N_of_ascii_lt c : (N_of_ascii c < 256)%N.
Proof. apply N_ascii_bounded. Qed.

Lemma to_hex_lower b : all_bytes is_lower_hex (to_hex b) = true.
Proof.
  induction b as [|c b IH]; [done|]. cbn [to_hex]. rewrite all_bytes_app, IH, andb_true_r.
  pose proof (N_of_ascii_lt c). unfold hex_byte. cbn [all_bytes].
  rewrite !hex_digit_lower; [done|apply N.mod_lt; lia|apply N.Div0.div_lt_upper_bound; lia].
Qed.

Lemma to_hex_length b : String.length (to_hex b) = 2 * String.length b.
Proof. induction b as [|c b IH]; [done|]. cbn [to_hex]. rewrite str_length_app, IH. cbn. lia. Qed.

(** [s.trim()] of an ASCII string. *)
Definition is_ascii_space (c : ascii) : bool := in_bytes 9 13 c || in_bytes 32 32 c.

Fixpoint trim_start_by (f : ascii → bool) (s : string) : string :=
  match s with
  | String a s' => if f a then trim_start_by f s' else s
  | EmptyString => s
  end.

Fixpoint trim_end_by (f : ascii → bool) (s : string) : string :=
  match s with
  | EmptyString => EmptyString
  | String a s' =>
      match trim_end_by f s' with
      | EmptyString => if f a then EmptyString else String a EmptyString
      | r => String a r
      end
  end.

Definition trim (s : string) : string := trim_end_by is_ascii_space (trim_start_by is_ascii_space s).

Lemma trim_id f s : all_bytes (λ c, negb (f c)) s = true → trim_end_by f (trim_start_by f s) = s.
Proof.
  intros Hs. assert (trim_start_by f s = s) as ->.
  { destruct s as [|c s]; [done|]. cbn in *. by destruct (f c). }
  induction s as [|c s IH]; [done|]. cbn in *. apply andb_true_iff in Hs as [Hc Hs].
  rewrite (IH Hs). destruct s; [|done]. by destruct (f c).
Qed.

(** [s.parse::<u64>()]: an optional sign, at least one digit, no overflow. *)
Fixpoint parse_digits (s : string) (acc : Z) : option Z :=
  match s with
  | EmptyString => Some acc
  | String c s =>
      if in_bytes 48 57 c then
        let acc := (acc * 10 + (Z.of_N (N_of_ascii c) - 48))%Z in
        if decide (acc < 2 ^ 64)%Z then parse_digits s acc else None
      else None
  end.

Definition parse_u64 (s : string) : option Z :=
  match s with
  | EmptyString => None
  | String "+" EmptyString => None
  | String "+" s => parse_digits s 0
  | s => parse_digits s 0
  end.
