(* ===== verification/Text.v ===== *)
(** * More functions of the standard library on strings

    What the package formats use beside the functions of [Bytes]: suffixes,
    splitting, ASCII case, and the stable sort of slices. *)

From S2P Require Import Prelude Bytes.
From Stdlib Require Import Sorting.Permutation.

(** [s.strip_suffix(p)]. *)
Definition strip_suffix (s p : string) : option string :=
  if ends_with s p then Some (str_take (String.length s - String.length p) s) else None.

(** ** Trimming of Unicode white space *)

(** The characters with the property [White_Space], in UTF-8. *)
Definition white_spaces : list string :=
  let c2 := String (ascii_of_N 194) in
  let e1 := String (ascii_of_N 225) in
  let e2 := String (ascii_of_N 226) in
  let e3 := String (ascii_of_N 227) in
  let b := λ n s, String (ascii_of_N n) s in
  [b 9%N ""; b 10%N ""; b 11%N ""; b 12%N ""; b 13%N ""; " "; c2 (b 133%N ""); c2 (b 160%N "");
   e1 (b 154%N (b 128%N "")); e2 (b 129%N (b 159%N "")); e2 (b 128%N (b 168%N "")); e2 (b 128%N (b 169%N ""));
   e2 (b 128%N (b 175%N "")); e3 (b 128%N (b 128%N ""))] ++
  ((λ n, e2 (b 128%N (b (128 + N.of_nat n)%N ""))) <$> seq 0 11).

Fixpoint strip_space (spaces : list string) (s : string) : option string :=
  match spaces with
  | [] => None
  | x :: spaces => match strip_prefix s x with Some s' => Some s' | None => strip_space spaces s end
  end.

(** [s.trim_start()], a character at a time. *)
Fixpoint trim_start_ws (n : nat) (s : string) : string :=
  match n with
  | O => s
  | S n => match strip_space white_spaces s with Some s' => trim_start_ws n s' | None => s end
  end.

(** [s.trim_end()]: up to the first suffix that is all white space. *)
Fixpoint trim_end_ws (s : string) : string :=
  match s with
  | EmptyString => ""
  | String c s' =>
      if decide (trim_start_ws (String.length s) s = "") then "" else String c (trim_end_ws s')
  end.

Definition trim_ws (s : string) : string := trim_end_ws (trim_start_ws (String.length s) s).

(** [s.split_once(p)] for a string pattern. *)
Fixpoint split_once_str (p s : string) : option (string * string) :=
  match strip_prefix s p with
  | Some rest => Some (EmptyString, rest)
  | None =>
      match s with
      | EmptyString => None
      | String c s' =>
          match split_once_str p s' with
          | Some (x, y) => Some (String c x, y)
          | None => None
          end
      end
  end.

(** [s.splitn(n, c)]. *)
Fixpoint splitn (n : nat) (c : ascii) (s : string) : list string :=
  match n with
  | O => []
  | S O => [s]
  | S n =>
      match split_once c s with
      | Some (x, y) => x :: splitn n c y
      | None => [s]
      end
  end.

(** The last piece of [s.rsplit(c)]: [s.rsplit(c).next()]. *)
Definition rsplit_last (c : ascii) (s : string) : string :=
  match rsplit_once c s with Some (_, y) => y | None => s end.

(** [c.to_ascii_lowercase()] and [c.to_ascii_uppercase()]; a byte outside ASCII
    is not changed, so they act on UTF-8 byte by byte. *)
Definition is_ascii_uppercase : ascii → bool := in_bytes 65 90.
Definition is_ascii_lowercase : ascii → bool := in_bytes 97 122.
Definition to_ascii_lowercase (c : ascii) : ascii :=
  if is_ascii_uppercase c then ascii_of_N (N_of_ascii c + 32) else c.
Definition to_ascii_uppercase (c : ascii) : ascii :=
  if is_ascii_lowercase c then ascii_of_N (N_of_ascii c - 32) else c.

(** [l.join(sep)]. *)
Fixpoint join (sep : string) (l : list string) : string :=
  match l with
  | [] => ""
  | [x] => x
  | x :: l => x +:+ sep +:+ join sep l
  end.

(** [s.split(c)]. *)
Fixpoint split_char (c : ascii) (s : string) : list string :=
  match s with
  | EmptyString => [""]
  | String d s =>
      if decide (c = d) then "" :: split_char c s
      else match split_char c s with
           | x :: l => (singleton_str d +:+ x) :: l
           | [] => [singleton_str d]
           end
  end.

(** [s.replace(a, b)] for characters. *)
Fixpoint replace_char (a b : ascii) (s : string) : string :=
  match s with
  | EmptyString => EmptyString
  | String c s => String (if decide (c = a) then b else c) (replace_char a b s)
  end.

(** [s.replace(c, r)] for a character, and [s.replace(p, r)] for a string that
    is not empty; [skip] bytes belong to the last match. *)
Fixpoint replace_with (a : ascii) (r : string) (s : string) : string :=
  match s with
  | EmptyString => EmptyString
  | String c s => if decide (c = a) then r +:+ replace_with a r s else String c (replace_with a r s)
  end.

Fixpoint replace_from (p r : string) (skip : nat) (s : string) : string :=
  match s with
  | EmptyString => EmptyString
  | String c s' =>
      match skip with
      | S skip => replace_from p r skip s'
      | O => if starts_with s p then r +:+ replace_from p r (String.length p - 1) s' else String c (replace_from p r 0 s')
      end
  end.

Definition replace_str (p r s : string) : string := replace_from p r 0 s.

(** [s.get(a..b)]: none when an end is past the string or inside a character. *)
Definition char_boundary (s : string) (i : nat) : bool :=
  bool_decide (i = String.length s) ||
  match String.get i s with Some c => negb (cont_byte c) | None => false end.

Definition str_get (a b : nat) (s : string) : option string :=
  if decide (a ≤ b ∧ b ≤ String.length s ∧ char_boundary s a = true ∧ char_boundary s b = true) then Some (str_take (b - a) (str_drop a s))
  else None.

(** [l.sort_by(..)]: a stable sort, for an order [le] that may have ties. *)
Section sort.
Context {A : Type} (le : A → A → bool).

Fixpoint insert_by (x : A) (l : list A) : list A :=
  match l with
  | [] => [x]
  | y :: l => if le x y then x :: y :: l else y :: insert_by x l
  end.

Fixpoint sort_by (l : list A) : list A :=
  match l with
  | [] => []
  | x :: l => insert_by x (sort_by l)
  end.

Lemma insert_by_perm x l : insert_by x l ≡ₚ x :: l.
Proof.
  induction l as [|y l IH]; cbn [insert_by]; [done|]. destruct (le x y); [done|].
  rewrite IH. apply Permutation_swap.
Qed.

Lemma sort_by_perm l : sort_by l ≡ₚ l.
Proof. induction l as [|x l IH]; cbn [sort_by]; [done|]. by rewrite insert_by_perm, IH. Qed.

Context (le_total : ∀ x y, le x y = true ∨ le y x = true) (le_trans : ∀ x y z, le x y = true → le y z = true → le x z = true).

Lemma insert_by_sorted x l : StronglySorted (λ a b, le a b = true) l → StronglySorted (λ a b, le a b = true) (insert_by x l).
Proof using le_total le_trans.
  induction 1 as [|y l Hs IH Hall]; cbn [insert_by]; [by repeat constructor|].
  destruct (le x y) eqn:Hle.
  - constructor; [by constructor|]. constructor; [done|]. eapply Forall_impl; [exact Hall|]. intros z Hz. by eapply le_trans.
  - constructor; [done|]. rewrite insert_by_perm. constructor; [|done]. destruct (le_total x y); congruence.
Qed.

Lemma sort_by_sorted l : StronglySorted (λ a b, le a b = true) (sort_by l).
Proof using le_total le_trans. induction l as [|x l IH]; cbn [sort_by]; [constructor|by apply insert_by_sorted]. Qed.

(** The last element of the sorted list is a maximum. *)
Lemma sort_by_last l x : last (sort_by l) = Some x → x ∈ l ∧ ∀ y, y ∈ l → le y x = true.
Proof using le_total le_trans.
  intros Hlast. pose proof (sort_by_sorted l) as Hs. apply last_Some in Hlast as [l' Heq]. rewrite Heq in Hs.
  assert (∀ y, y ∈ l ↔ y ∈ l' ∨ y = x) as Hin.
  { intros y. rewrite <-(sort_by_perm l), Heq, elem_of_app, list_elem_of_singleton. done. }
  split; [apply Hin; by right|]. intros y [Hy| ->]%Hin; [|by destruct (le_total x x)].
  clear Heq Hin. induction l' as [|z l' IH]; [by apply elem_of_nil in Hy|]. cbn in Hs. apply StronglySorted_inv in Hs as [Hs Hall].
  apply elem_of_cons in Hy as [->|Hy]; [|by apply IH]. rewrite Forall_forall in Hall. apply Hall.
  apply elem_of_app. right. by left.
Qed.
End sort.

(** ** Lemmas *)

Lemma ends_with_app s p : ends_with (s +:+ p) p = true.
Proof.
  induction s as [|c s IH]; cbn.
  - destruct p; [done|]. cbn. by rewrite bool_decide_true.
  - by rewrite IH, orb_true_r.
Qed.

Lemma ends_with_spec s p : ends_with s p = true ↔ ∃ t, s = t +:+ p.
Proof.
  split; [|intros [t ->]; apply ends_with_app].
  induction s as [|c s IH]; cbn; rewrite orb_true_iff, bool_decide_eq_true.
  - intros [<-|?]; [by exists ""|done].
  - intros [<-|Hs]; [by exists ""|]. destruct (IH Hs) as [t ->]. by exists (String c t).
Qed.

Lemma strip_suffix_app s p : strip_suffix (s +:+ p) p = Some s.
Proof.
  unfold strip_suffix. rewrite ends_with_app, str_length_app.
  replace (String.length s + String.length p - String.length p) with (String.length s) by lia. by rewrite str_take_app.
Qed.

Lemma strip_suffix_Some s p t : strip_suffix s p = Some t ↔ s = t +:+ p.
Proof.
  split; [|intros ->; apply strip_suffix_app]. unfold strip_suffix. destruct (ends_with s p) eqn:He; [|done].
  apply ends_with_spec in He as [t' ->]. rewrite str_length_app.
  replace (String.length t' + String.length p - String.length p) with (String.length t') by lia. rewrite str_take_app. by intros [= ->].
Qed.

Lemma strip_suffix_None s p : strip_suffix s p = None ↔ ends_with s p = false.
Proof. unfold strip_suffix. by destruct (ends_with s p). Qed.

(** Two suffixes of one string are comparable. *)
Lemma ends_with_both s p q : ends_with s p = true → ends_with s q = true → String.length p ≤ String.length q → ends_with q p = true.
Proof.
  intros [t ->]%ends_with_spec [u Hu]%ends_with_spec Hlen. revert u Hu. induction t as [|c t IH]; intros u Hu; cbn in Hu.
  - destruct u as [|a u]; cbn in Hu; [subst; by apply (ends_with_app "")|]. subst p. cbn in Hlen. rewrite str_length_app in Hlen. lia.
  - destruct u as [|a u]; cbn in Hu; [subst q; by apply (ends_with_app (String c t))|]. injection Hu as _ Hu. by apply (IH u).
Qed.

Lemma split_once_str_spec p s x y : split_once_str p s = Some (x, y) → s = x +:+ p +:+ y.
Proof.
  revert x. induction s as [|c s IH]; intros x; cbn.
  - destruct p; cbn; [|done]. by intros [= <- <-].
  - destruct p as [|a p]; cbn; [by intros [= <- <-]|]. destruct (decide (a = c)) as [->|Hne].
    + destruct (strip_prefix s p) as [r|] eqn:Hp.
      * intros [= <- <-]. apply strip_prefix_spec in Hp as ->. done.
      * destruct (split_once_str (String c p) s) as [ [x' y']|] eqn:Hs; [|done]. intros [= <- <-]. cbn. f_equal. by apply IH.
    + destruct (split_once_str (String a p) s) as [ [x' y']|] eqn:Hs; [|done]. intros [= <- <-]. cbn. f_equal. by apply IH.
Qed.

Lemma to_ascii_case c : is_ascii_uppercase c = true → to_ascii_uppercase (to_ascii_lowercase c) = c.
Proof. destruct c as [ [] [] [] [] [] [] [] [] ]; vm_compute; done. Qed.

Lemma to_ascii_case' c : is_ascii_lowercase c = true → to_ascii_lowercase (to_ascii_uppercase c) = c.
Proof. destruct c as [ [] [] [] [] [] [] [] [] ]; vm_compute; done. Qed.

Lemma to_ascii_uppercase_up c : is_ascii_lowercase c = true → is_ascii_uppercase (to_ascii_uppercase c) = true.
Proof. destruct c as [ [] [] [] [] [] [] [] [] ]; vm_compute; done. Qed.

Lemma to_ascii_lowercase_low c : is_ascii_uppercase c = true → is_ascii_lowercase (to_ascii_lowercase c) = true.
Proof. destruct c as [ [] [] [] [] [] [] [] [] ]; vm_compute; done. Qed.

(** ** Searching *)

(** The search for [p] does not stop in [x] when [t] follows. *)
Definition skips (p x t : string) : Prop := split_once_str p (x +:+ t) = prod_map (String.append x) id <$> split_once_str p t.

Lemma skips_nil p t : skips p "" t.
Proof. unfold skips. cbn. by destruct (split_once_str p t) as [ [x y]|]. Qed.

Lemma skips_app p x y t : skips p x (y +:+ t) → skips p y t → skips p (x +:+ y) t.
Proof.
  unfold skips. intros Hx Hy. rewrite str_app_assoc, Hx, Hy. destruct (split_once_str p t) as [ [a b]|]; [|done]. cbn. by rewrite str_app_assoc.
Qed.

Lemma split_once_str_cons p c s : strip_prefix (String c s) p = None →
  split_once_str p (String c s) = prod_map (String c) id <$> split_once_str p s.
Proof. intros Hp. cbn [split_once_str]. rewrite Hp. by destruct (split_once_str p s) as [ [x y]|]. Qed.

Lemma skips_cons p c x t : strip_prefix (String c (x +:+ t)) p = None → skips p x t → skips p (String c x) t.
Proof.
  unfold skips. intros Hp Hx. change (String c x +:+ t) with (String c (x +:+ t)). rewrite split_once_str_cons, Hx by done.
  by destruct (split_once_str p t) as [ [a b]|].
Qed.

(** No occurrence begins in [x], which does not have the first character. *)
Lemma skips_head a p x t : has_char a x = false → skips (String a p) x t.
Proof.
  induction x as [|c x IH]; [intros _; apply skips_nil|]. cbn [has_char]. intros [Hc Hx]%orb_false_iff. apply skips_cons; [|by apply IH].
  cbn [strip_prefix]. apply bool_decide_eq_false in Hc. by rewrite decide_False by congruence.
Qed.

(** An occurrence would have to pass [q] before it comes to [d]. *)
Lemma skips_before d q p1 p2 x t : has_char d x = false → q ≠ d → p1 ≠ "" → has_char q p1 = false →
  skips (p1 +:+ String d p2) (x +:+ singleton_str q) t.
Proof.
  intros Hx Hq Hne Hp1.
  assert (∀ x' p', has_char d x' = false → has_char q p' = false → strip_prefix (x' +:+ String q t) (p' +:+ String d p2) = None) as Hno.
  { induction x' as [|c x' IH]; intros [|a p'] Hx' Hp'; cbn [has_char String.append strip_prefix] in *.
    - by rewrite decide_False by congruence.
    - apply orb_false_iff in Hp' as [Ha _]. apply bool_decide_eq_false in Ha. by rewrite decide_False by congruence.
    - apply orb_false_iff in Hx' as [Hc _]. apply bool_decide_eq_false in Hc. by rewrite decide_False by congruence.
    - apply orb_false_iff in Hx' as [_ Hx']. apply orb_false_iff in Hp' as [_ Hp']. case_decide; [by apply IH|done]. }
  induction x as [|c x IH]; cbn [String.append].
  - apply skips_cons; [|apply skips_nil]. by apply (Hno "").
  - apply skips_cons; [|apply IH; cbn [has_char] in Hx; by apply orb_false_iff in Hx as [_ ?] ].
    pose proof (Hno (String c x) p1 Hx Hp1) as Hs. cbn [String.append] in Hs. by rewrite str_app_assoc.
Qed.

(** An occurrence after what is skipped is the first. *)
Lemma split_at_str p x t : p ≠ "" → skips p x (p +:+ t) → split_once_str p (x +:+ p +:+ t) = Some (x, t).
Proof.
  unfold skips. intros Hp ->. assert (strip_prefix (p +:+ t) p = Some t) as Hs by (by apply strip_prefix_spec).
  destruct p as [|c p]; [done|]. cbn [String.append split_once_str] in *. rewrite Hs. cbn. by rewrite str_app_nil_r.
Qed.

Lemma skips_none p x : skips p x "" → p ≠ "" → split_once_str p x = None.
Proof. unfold skips. rewrite str_app_nil_r. intros ->. by destruct p. Qed.

Lemma split_at_char c x t : has_char c x = false → split_once c (x +:+ String c t) = Some (x, t).
Proof. intros Hx. by apply split_once_Some. Qed.

Lemma split_at_slash a rest : has_char SLASH a = false → split_once SLASH (a +:+ "/" +:+ rest) = Some (a, rest).
Proof. intros Ha. by apply split_once_Some. Qed.

(** Nothing is replaced. *)
Lemma replace_str_id a p r s : has_char a s = false → replace_str (String a p) r s = s.
Proof.
  unfold replace_str. induction s as [|c s IH]; [done|]. cbn [has_char]. intros [Hc Hs]%orb_false_iff. cbn [replace_from starts_with].
  apply bool_decide_eq_false in Hc. rewrite bool_decide_false by congruence. cbn. by rewrite IH.
Qed.

Lemma has_char_replace c a r s : has_char c r = false → has_char c (replace_with a r s) = true → has_char c s = true ∧ c ≠ a.
Proof.
  intros Hr. induction s as [|d s IH]; [done|]. cbn [replace_with has_char]. case_decide as Hd.
  - subst d. rewrite has_char_app, Hr. cbn. intros [? ?]%IH. split; [|done]. apply orb_true_iff. by right.
  - cbn [has_char]. rewrite !orb_true_iff, bool_decide_eq_true. intros [<-|[? ?]%IH]; [split; [by left|done]|split; [by right|done] ].
Qed.

(** ** Sorted sets *)

(** A set of strings as a sorted vector. *)
Definition sorted_vec (s : gset string) : list string := merge_sort str_le (elements s).

#[export] Instance str_le_total : Total str_le.
Proof. intros x y. destruct (str_le_cases x y) as [|?%str_lt_le]; [by left|by right]. Qed.
#[export] Instance str_le_transitive : Transitive str_le.
Proof. intros x y z. apply str_le_trans. Qed.

Lemma elem_of_sorted_vec s x : x ∈ sorted_vec s ↔ x ∈ s.
Proof. unfold sorted_vec. rewrite merge_sort_Permutation. apply elem_of_elements. Qed.

Lemma sorted_vec_sorted s : StronglySorted str_lt (sorted_vec s).
Proof.
  assert (NoDup (sorted_vec s)) as Hnd by (unfold sorted_vec; rewrite merge_sort_Permutation; apply NoDup_elements).
  assert (StronglySorted str_le (sorted_vec s)) as Hs by (apply Sorted_StronglySorted; [apply _|apply Sorted_merge_sort; apply _]).
  induction Hs as [|x l Hs IH Hall]; [constructor|]. apply NoDup_cons in Hnd as [Hni Hnd]. constructor; [by apply IH|].
  rewrite Forall_forall in Hall |- *. intros y Hy. destruct (proj1 (str_le_lt_eq x y) (Hall y Hy)) as [|<-]; [done|by destruct Hni].
Qed.
