(* ===== verification/Errors.v ===== *)
(** * Errors (core/src/error.rs)

    Classification of errors: the machine-readable code, whether a retry may
    help, the conversions from other error types, and the HTTP response an
    error becomes. *)

From S2P Require Import Prelude Bytes.

(** core/src/error.rs:72-85 *)
Definition error_code (e : DepotError) : string :=
  match e with
  | Storage _ _ => "STORAGE_ERROR"
  | BadRequest _ => "BAD_REQUEST"
  | Unauthorized _ => "UNAUTHORIZED"
  | Forbidden _ => "FORBIDDEN"
  | Conflict _ => "CONFLICT"
  | NotFound _ => "NOT_FOUND"
  | NotAllowed _ => "NOT_ALLOWED"
  | Upstream _ => "UPSTREAM_ERROR"
  | DataIntegrity _ => "DATA_INTEGRITY_ERROR"
  | Internal _ => "INTERNAL_ERROR"
  end.

(** core/src/error.rs:87-91 *)
Definition is_transient (e : DepotError) : bool :=
  match e with
  | Storage _ Transient => true
  | _ => false
  end.

(** core/src/error.rs:93-98 *)
Definition storage_permanent (e : string) : DepotError := Storage e Permanent.

(** core/src/error.rs:100-103 *)
Definition storage_transient (e : string) : DepotError := Storage e Transient.

(** core/src/error.rs:105-108 *)
Definition upstream (e : string) : DepotError := Upstream e.

(** [Display for DepotError], from the [#[error]] attributes. *)
(** core/src/error.rs:19-53 *)
Definition display_error (e : DepotError) : string :=
  match e with
  | Storage source _ => "storage error: " +:+ source
  | BadRequest m | Unauthorized m | Forbidden m | Conflict m | NotFound m | NotAllowed m => m
  | Upstream m => "upstream error: " +:+ m
  | DataIntegrity m => "data integrity error: " +:+ m
  | Internal m => "internal error: " +:+ m
  end.

(** core/src/error.rs:57-62 *)
Record ErrorBody : Type := mkErrorBody { code : string; message : string }.

(** core/src/error.rs:64-68 *)
Record ErrorResponse : Type := mkErrorResponse { error : ErrorBody }.

(** The status codes of [axum::http::StatusCode] an error maps to. *)
(** core/src/error.rs:115-127 *)
Definition error_status (e : DepotError) : nat :=
  match e with
  | Storage _ Transient => 503
  | Storage _ Permanent | DataIntegrity _ | Internal _ => 500
  | BadRequest _ => 400
  | Unauthorized _ => 401
  | Forbidden _ => 403
  | Conflict _ => 409
  | NotFound _ => 404
  | NotAllowed _ => 405
  | Upstream _ => 502
  end.

(** core/src/error.rs:113-138 *)
Definition into_response (e : DepotError) : nat * ErrorResponse :=
  (error_status e, mkErrorResponse (mkErrorBody (error_code e) (display_error e))).

(** The kinds of [std::io::Error] the classification names; [OtherKind] stands
    for the rest. *)
Inductive ErrorKind : Type :=
| ConnectionReset | ConnectionAborted | TimedOut | Interrupted | BrokenPipe | WouldBlock
| OtherKind (name : string).

(** core/src/error.rs:143-154 *)
Definition io_retryability (k : ErrorKind) : Retryability :=
  match k with
  | ConnectionReset | ConnectionAborted | TimedOut | Interrupted | BrokenPipe | WouldBlock =>
      Transient
  | _ => Permanent
  end.

(** core/src/error.rs:158-163 *)
Definition from_io_error (k : ErrorKind) (text : string) : DepotError :=
  Storage text (io_retryability k).

(** The conversions of encoder, decoder and join errors. *)
(** core/src/error.rs:165-173 *)
Definition from_storage_error (text : string) : DepotError := Storage text Permanent.

(** The status of the response and the retry classification agree: a
    503 answer is given exactly for the errors a caller may retry, every
    other error is either a client error (4xx) or a 500 or 502, and the code
    in the body determines the status up to that distinction. *)
Theorem into_response_classifies e :
  ((into_response e).1 = 503 ↔ is_transient e = true) ∧
  (is_transient e = false → 400 ≤ (into_response e).1 ≤ 502) ∧
  ∀ e', is_transient e = is_transient e' →
    code (error (into_response e).2) = code (error (into_response e').2) →
    (into_response e).1 = (into_response e').1.
Proof.
  split; [|split].
  - by destruct e as [? [] | | | | | | | | |].
  - destruct e as [? [] | | | | | | | | |]; simpl; intros; first [done | lia].
  - intros e'. by destruct e as [? [] | | | | | | | | |], e' as [? [] | | | | | | | | |].
Qed.
