(* ===== verification/Keys.v ===== *)
(** * Table, partition and sort keys (core/src/store/keys.rs)

    The key layout of every table: the hash-sharded partition keys of the large
    tables, the single partition of the administrative tables, the normal form
    of paths, the composite sort keys of the browse tree, and the exclusive
    upper bound of a prefix scan.  [blake3] is a parameter: the code relies on
    its output having at least two bytes. *)

From S2P Require Import Prelude Bytes.

(** The [blake3] crate: a hash function with 32-byte output. *)
Class Blake3 := {
  blake3_hash : bytes → bytes;
  blake3_hash_len : ∀ s, String.length (blake3_hash s) = 32;
}.

(** ** Table names *)

(** core/src/store/keys.rs:15-15 *)
Definition TABLE_REPOS := "repos".
(** core/src/store/keys.rs:16-16 *)
Definition TABLE_ARTIFACTS := "artifacts".
(** core/src/store/keys.rs:17-17 *)
Definition TABLE_BLOBS := "blobs".
(** core/src/store/keys.rs:18-18 *)
Definition TABLE_USERS := "users".
(** core/src/store/keys.rs:19-19 *)
Definition TABLE_ROLES := "roles".
(** core/src/store/keys.rs:20-20 *)
Definition TABLE_META := "meta".
(** core/src/store/keys.rs:21-21 *)
Definition TABLE_STORES := "stores".
(** core/src/store/keys.rs:22-22 *)
Definition TABLE_DIR_ENTRIES := "dir_entries".
(** core/src/store/keys.rs:23-23 *)
Definition TABLE_UPLOAD_SESSIONS := "upload_sessions".
(** core/src/store/keys.rs:24-24 *)
Definition TABLE_LEASES := "leases".
(** core/src/store/keys.rs:25-25 *)
Definition TABLE_TASKS := "tasks".
(** core/src/store/keys.rs:26-26 *)
Definition TABLE_TASK_EVENTS := "task_events".

(** core/src/store/keys.rs:28-42 *)
Definition ALL_TABLES : list string :=
  [ TABLE_REPOS; TABLE_ARTIFACTS; TABLE_BLOBS; TABLE_USERS; TABLE_ROLES;
    TABLE_META; TABLE_STORES; TABLE_DIR_ENTRIES; TABLE_UPLOAD_SESSIONS;
    TABLE_LEASES; TABLE_TASKS; TABLE_TASK_EVENTS ].

(** The table, the partition key and the sort key (keys.rs, line 48). *)
Abbreviation KeyTriple := (string * string * string)%type (only parsing).

(** ** Shards *)

(** core/src/store/keys.rs:52-52 *)
Definition NUM_SHARDS : N := 256.

(** The byte at index [i], as a number ([bytes[i]]; in range by the length of
    the hash). *)
Definition byte_at (i : nat) (s : bytes) : N :=
  match String.get i s with
  | Some c => N_of_ascii c
  | None => 0
  end.

(** [format!("{}", n)] for an unsigned integer. *)
Definition show_uint (n : N) : string := pretty n.

Section shards.
Context `{Blake3}.

(** core/src/store/keys.rs:54-59 *)
Definition shard_of (sk : string) : N :=
  let h := blake3_hash sk in
  ((byte_at 0 h * 256 + byte_at 1 h) mod NUM_SHARDS)%N.

(** core/src/store/keys.rs:61-67 *)
Definition sharded_pk (scope sk : string) : string :=
  let shard := shard_of sk in
  scope +:+ "/" +:+ show_uint shard.
End shards.

(** [0..NUM_SHARDS]. *)
Definition shard_range : list N := N.of_nat <$> seq 0 (N.to_nat NUM_SHARDS).

(** core/src/store/keys.rs:69-78 *)
Definition all_sharded_pks (scope : string) : list string :=
  (λ s, scope +:+ "/" +:+ show_uint s) <$> shard_range.

(** core/src/store/keys.rs:80-81 *)
Definition SINGLE_PK := "0".

(** ** Paths *)

(** The loop over the characters of the slow path; [prev_slash] is the loop
    variable. *)
(** core/src/store/keys.rs:129-141 *)
Fixpoint collapse_slashes (prev_slash : bool) (s : string) : string :=
  match s with
  | EmptyString => EmptyString
  | String ch s' =>
      if decide (ch = SLASH) then
        if prev_slash then collapse_slashes true s'
        else String SLASH (collapse_slashes true s')
      else String ch (collapse_slashes false s')
  end.

(** core/src/store/keys.rs:120-143 *)
Definition normalize_path (path : string) : string :=
  let trimmed := trim_matches SLASH path in
  if negb (contains trimmed "//") then trimmed
  else collapse_slashes false trimmed.

Section artifact_keys.
Context `{Blake3}.

(** core/src/store/keys.rs:85-93 *)
Definition artifact_key (repo path : string) : KeyTriple :=
  let clean := normalize_path path in
  (TABLE_ARTIFACTS, sharded_pk repo clean, clean).

(** core/src/store/keys.rs:102-109 *)
Definition blob_key (store hash : string) : KeyTriple :=
  (TABLE_BLOBS, sharded_pk store hash, hash).
End artifact_keys.

(** core/src/store/keys.rs:95-100 *)
Definition artifact_shard_pk (repo : string) (shard : N) : string :=
  repo +:+ "/" +:+ show_uint shard.

(** core/src/store/keys.rs:111-116 *)
Definition blob_shard_pk (store : string) (shard : N) : string :=
  store +:+ "/" +:+ show_uint shard.

(** ** The browse tree *)

(** core/src/store/keys.rs:147-148 *)
Definition ROOT_PARENT := "_root".

(** core/src/store/keys.rs:150-152 *)
Definition TREE_SK_SEP : ascii := NUL.

(** core/src/store/keys.rs:154-165 *)
Definition tree_parent (path : string) : string :=
  if decide (path = "") then ROOT_PARENT
  else match rsplit_once SLASH path with
       | Some (before, _) => before
       | None => ""
       end.

(** core/src/store/keys.rs:167-175 *)
Definition tree_name (path : string) : string :=
  if decide (path = "") then ""
  else match rsplit_once SLASH path with
       | Some (_, after) => after
       | None => path
       end.

(** core/src/store/keys.rs:177-190 *)
Definition tree_sort_key (path : string) : string :=
  let parent := tree_parent path in
  let name := tree_name path in
  parent +:+ String TREE_SK_SEP name.

(** core/src/store/keys.rs:192-200 *)
Definition tree_sk_name (sk : string) : string :=
  match rsplit_once TREE_SK_SEP sk with
  | Some (_, name) => name
  | None => sk
  end.

(** core/src/store/keys.rs:219-227 *)
Definition tree_children_sk_prefix (parent_path : string) : string :=
  parent_path +:+ singleton_str TREE_SK_SEP.

(** core/src/store/keys.rs:229-234 *)
Definition tree_shard_pk (repo : string) (shard : N) : string :=
  repo +:+ "/" +:+ show_uint shard.

Section tree_keys.
Context `{Blake3}.

(** core/src/store/keys.rs:202-212 *)
Definition tree_entry_key (repo path : string) : KeyTriple :=
  let clean := normalize_path path in
  (TABLE_DIR_ENTRIES, sharded_pk repo (tree_parent clean), tree_sort_key clean).

(** core/src/store/keys.rs:214-217 *)
Definition tree_children_pk (repo parent_path : string) : string :=
  sharded_pk repo parent_path.
End tree_keys.

(** ** Single-partition keys *)

(** core/src/store/keys.rs:238-241 *)
Definition repo_key (name : string) : KeyTriple := (TABLE_REPOS, SINGLE_PK, name).
(** core/src/store/keys.rs:243-250 *)
Definition user_key (username : string) : KeyTriple := (TABLE_USERS, SINGLE_PK, username).
(** core/src/store/keys.rs:252-255 *)
Definition role_key (name : string) : KeyTriple := (TABLE_ROLES, SINGLE_PK, name).
(** core/src/store/keys.rs:257-260 *)
Definition meta_key (key : string) : KeyTriple := (TABLE_META, SINGLE_PK, key).
(** core/src/store/keys.rs:262-265 *)
Definition store_key (name : string) : KeyTriple := (TABLE_STORES, SINGLE_PK, name).
(** core/src/store/keys.rs:267-274 *)
Definition store_stats_key (name : string) : KeyTriple :=
  (TABLE_META, SINGLE_PK, "store_stats/" +:+ name).
(** core/src/store/keys.rs:276-283 *)
Definition upload_session_key (uuid : string) : KeyTriple :=
  (TABLE_UPLOAD_SESSIONS, SINGLE_PK, uuid).
(** core/src/store/keys.rs:285-288 *)
Definition lease_key (name : string) : KeyTriple := (TABLE_LEASES, SINGLE_PK, name).
(** core/src/store/keys.rs:290-293 *)
Definition task_key (id : string) : KeyTriple := (TABLE_TASKS, SINGLE_PK, id).

(** [format!("{:0w$}", n)]: the decimal digits, padded on the left with ['0']
    to width [w]. *)
Definition pad_zero (w : nat) (s : string) : string :=
  String.string_of_list_ascii (replicate (w - String.length s) "0"%char) +:+ s.

(** core/src/store/keys.rs:295-303 *)
Definition task_event_key (task_id : string) (seq : N) : KeyTriple :=
  (TABLE_TASK_EVENTS, task_id, pad_zero 20 (show_uint seq)).

(** core/src/store/keys.rs:305-308 *)
Definition task_event_pk (task_id : string) : string := task_id.

(** ** Prefix ranges *)

(** The loop that pops trailing [0xFF] bytes; the vector is held in reverse,
    its last byte first. *)
(** core/src/store/keys.rs:315-323 *)
Fixpoint prefix_end_loop (rev_bytes : list ascii) : option (list ascii) :=
  match rev_bytes with
  | [] => None
  | last :: rest =>
      if (N_of_ascii last <? 255)%N
      then Some (reverse (ascii_of_N (N_of_ascii last + 1) :: rest))
      else prefix_end_loop rest
  end.

(** core/src/store/keys.rs:312-324 *)
Definition prefix_end (prefix : bytes) : option bytes :=
  String.string_of_list_ascii <$>
    prefix_end_loop (reverse (String.list_ascii_of_string prefix)).

(** ** Reference definitions of paths *)

(** [s.split('/')]. *)
Fixpoint split_slash (s : string) : list string :=
  match s with
  | EmptyString => [EmptyString]
  | String c s' =>
      if decide (c = SLASH) then EmptyString :: split_slash s'
      else match split_slash s' with
           | x :: r => String c x :: r
           | [] => [singleton_str c]
           end
  end.

(** The non-empty components of a path. *)
Definition segments (s : string) : list string := filter (λ x, x ≠ "") (split_slash s).

(** The components joined by single slashes. *)
Fixpoint join_slash (l : list string) : string :=
  match l with
  | [] => ""
  | [x] => x
  | x :: r => x +:+ String SLASH (join_slash r)
  end.

Definition segment_ok (x : string) : Prop := x ≠ "" ∧ has_char SLASH x = false.

(** A path in normal form. *)
Definition canonical (p : string) : Prop := normalize_path p = p.

(** Reference definition: drop trailing [0xFF] bytes and increment the last
    byte that remains, by structural recursion. *)
Fixpoint prefix_end_ref (p : bytes) : option bytes :=
  match p with
  | EmptyString => None
  | String a p' =>
      match prefix_end_ref p' with
      | Some q => Some (String a q)
      | None =>
          if (N_of_ascii a <? 255)%N
          then Some (singleton_str (ascii_of_N (N_of_ascii a + 1)))
          else None
      end
  end.

(** The last [w] decimal digits of [n]. *)
Fixpoint fixed_dec (w : nat) (n : N) : string :=
  match w with
  | O => ""
  | S w' => fixed_dec w' (n / 10) +:+ singleton_str (pretty_N_char (n mod 10))
  end.

(** ** Shards *)

Section shard_facts.
Context `{Blake3}.

Lemma shard_of_lt sk : (shard_of sk < NUM_SHARDS)%N.
Proof. unfold shard_of. apply N.mod_lt. done. Qed.

Lemma elem_of_shard_range n : n ∈ shard_range ↔ (n < NUM_SHARDS)%N.
Proof.
  unfold shard_range. rewrite list_elem_of_fmap. setoid_rewrite elem_of_seq. split.
  - intros [k [-> ?]]. lia.
  - intros. exists (N.to_nat n). lia.
Qed.

Lemma shard_of_in_range sk : shard_of sk ∈ shard_range.
Proof. apply elem_of_shard_range, shard_of_lt. Qed.
End shard_facts.

Lemma NoDup_shard_range : NoDup shard_range.
Proof. apply NoDup_fmap_2; [apply _|apply NoDup_seq]. Qed.

Lemma pretty_N_go_no_char c x s :
  (∀ n, pretty_N_char n ≠ c) → has_char c s = false → has_char c (pretty_N_go x s) = false.
Proof.
  intros Hc. revert s. induction (N.lt_wf_0 x) as [x _ IH]; intros s Hs.
  assert (x = 0 ∨ 0 < x)%N as [->|?] by lia; [done|].
  rewrite pretty_N_go_step by done. apply IH; [by apply N.div_lt|].
  simpl. rewrite Hs, bool_decide_false by apply Hc. done.
Qed.

Lemma pretty_N_char_ne c n : (N_of_ascii c < 48 ∨ 57 < N_of_ascii c)%N → pretty_N_char n ≠ c.
Proof. intros Hc <-. destruct n as [|[[[[]|[]|]|[[]|[]|]|]|[[[]|[]|]|[[]|[]|]|]|]]; cbn in Hc; lia. Qed.

Lemma show_uint_no_char c n :
  (N_of_ascii c < 48 ∨ 57 < N_of_ascii c)%N → has_char c (show_uint n) = false.
Proof.
  intros Hc. unfold show_uint, pretty, pretty_N. case_decide.
  - simpl. rewrite bool_decide_false; [done|]. intros <-. cbn in Hc. lia.
  - apply pretty_N_go_no_char; [|done]. intros. by apply pretty_N_char_ne.
Qed.

Lemma scoped_pk_inj scope1 scope2 n1 n2 :
  scope1 +:+ "/" +:+ show_uint n1 = scope2 +:+ "/" +:+ show_uint n2 →
  scope1 = scope2 ∧ n1 = n2.
Proof.
  intros Heq.
  assert (∀ sc n, rsplit_once SLASH (sc +:+ "/" +:+ show_uint n) = Some (sc, show_uint n)) as Hs.
  { intros. apply rsplit_once_Some. split; [done|]. apply show_uint_no_char. cbn. lia. }
  pose proof (Hs scope1 n1) as H1. rewrite Heq, Hs in H1.
  simplify_eq. split; [done|]. by apply (inj pretty).
Qed.

(** ** Paths in normal form *)

Lemma split_slash_cons c s : c ≠ SLASH →
  ∃ x r, split_slash s = x :: r ∧ split_slash (String c s) = String c x :: r.
Proof.
  intros Hc. simpl. rewrite decide_False by done.
  assert (∃ x r, split_slash s = x :: r) as (x & r & ->); [|eauto].
  destruct s as [|d s]; simpl; [eauto|]. case_decide; [eauto|].
  destruct (split_slash s); eauto.
Qed.

Lemma segments_slash s : segments (String SLASH s) = segments s.
Proof. unfold segments. simpl. rewrite filter_cons_False by naive_solver. done. Qed.

Lemma segments_cons_slash c s : c ≠ SLASH →
  segments (String c (String SLASH s)) = singleton_str c :: segments s.
Proof.
  intros. unfold segments. simpl. rewrite decide_False by done.
  rewrite filter_cons_True by done. done.
Qed.

Lemma segments_cons c d s : c ≠ SLASH → d ≠ SLASH →
  ∃ x r, segments (String d s) = x :: r ∧ segments (String c (String d s)) = String c x :: r.
Proof.
  intros Hc Hd. destruct (split_slash_cons d s Hd) as (x & r & Hs & Hds).
  destruct (split_slash_cons c (String d s) Hc) as (x' & r' & Hs' & Hcs).
  rewrite Hds in Hs'. simplify_eq. unfold segments. rewrite Hds, Hcs.
  rewrite !filter_cons_True by done. eauto.
Qed.

Lemma segments_trim_start s : segments (trim_start SLASH s) = segments s.
Proof.
  induction s as [|c s IH]; simpl; [done|]. case_decide; [|done].
  subst. by rewrite IH, segments_slash.
Qed.

Lemma trim_end_nil s : trim_end SLASH s = "" → segments s = [].
Proof.
  induction s as [|c s IH]; simpl; [done|].
  destruct (trim_end SLASH s); [|done]. case_decide; [|done].
  subst. rewrite segments_slash. auto.
Qed.

Lemma trim_end_head s c s' : trim_end SLASH s = String c s' → ∃ s0, s = String c s0.
Proof.
  destruct s as [|d s]; simpl; [done|].
  destruct (trim_end SLASH s); [case_decide|]; intros; simplify_eq; eauto.
Qed.

Lemma segments_trim_end s : segments (trim_end SLASH s) = segments s.
Proof.
  induction s as [|c s IH]; simpl; [done|].
  destruct (trim_end SLASH s) as [|d r] eqn:E.
  - pose proof (trim_end_nil s E) as Hnil. case_decide.
    + subst. by rewrite segments_slash.
    + destruct (split_slash_cons c s) as (x & rr & Hs & Hcs); [done|].
      unfold segments in *. rewrite Hcs. rewrite Hs in Hnil. simpl.
      rewrite decide_False by done. rewrite !filter_cons_True by done.
      destruct (decide (x = "")) as [->|Hx].
      * rewrite filter_cons_False in Hnil by naive_solver. by rewrite Hnil.
      * by rewrite filter_cons_True in Hnil.
  - destruct (decide (c = SLASH)) as [->|Hc].
    { by rewrite !segments_slash. }
    destruct (split_slash_cons c (String d r)) as (x & l & Hs & Hcs); [done|].
    destruct (split_slash_cons c s) as (x' & l' & Hs' & Hcs'); [done|].
    unfold segments in *. rewrite Hcs, Hcs'. rewrite Hs, Hs' in IH.
    (* the first component is empty on both sides or on neither *)
    rewrite !filter_cons_True by done.
    destruct (decide (d = SLASH)) as [->|Hd].
    + assert (x = "") as -> by (simpl in Hs; simplify_eq; done).
      assert (x' = "") as ->.
      { apply trim_end_head in E as [s0 ->]. simpl in Hs'. by simplify_eq. }
      rewrite !filter_cons_False in IH by naive_solver. by rewrite IH.
    + assert (x ≠ "") as Hx.
      { intros ->. simpl in Hs. rewrite decide_False in Hs by done.
        destruct (split_slash r); done. }
      assert (x' ≠ "") as Hx'.
      { intros ->. apply trim_end_head in E as [s0 ->]. simpl in Hs'.
        rewrite decide_False in Hs' by done. destruct (split_slash s0); simplify_eq. }
      rewrite !filter_cons_True in IH by done. injection IH as -> ->. done.
Qed.

Lemma segments_trim_matches s : segments (trim_matches SLASH s) = segments s.
Proof. unfold trim_matches. by rewrite segments_trim_end, segments_trim_start. Qed.

Lemma trim_end_idemp s : trim_end SLASH (trim_end SLASH s) = trim_end SLASH s.
Proof.
  induction s as [|c s IH]; simpl; [done|].
  destruct (trim_end SLASH s) as [|d r] eqn:E.
  - case_decide; [done|]. simpl. by rewrite decide_False.
  - change (trim_end SLASH (String c (String d r)))
      with (match trim_end SLASH (String d r) with
            | EmptyString => if decide (c = SLASH) then EmptyString else String c EmptyString
            | r => String c r end).
    by rewrite IH.
Qed.

Lemma trim_end_inv c s : trim_end SLASH (String c s) = String c s → trim_end SLASH s = s.
Proof.
  simpl. destruct (trim_end SLASH s) as [|d r]; [case_decide|]; intros; by simplify_eq.
Qed.

Lemma trim_start_head s c s' : trim_start SLASH s = String c s' → c ≠ SLASH.
Proof. induction s as [|d s IH]; simpl; [done|]. case_decide; [done|]. intros; by simplify_eq. Qed.

Lemma trim_matches_head s c s' : trim_matches SLASH s = String c s' → c ≠ SLASH.
Proof.
  unfold trim_matches. intros H. pose proof H as H2. apply trim_end_head in H2 as [s0 H2].
  by eapply trim_start_head.
Qed.

(** The slow path joins the components, whether or not a slash precedes. *)
Lemma collapse_slashes_spec s : trim_end SLASH s = s →
  collapse_slashes true s = join_slash (segments s) ∧
  (∀ c s', s = String c s' → c ≠ SLASH → collapse_slashes false s = join_slash (segments s)).
Proof.
  induction s as [|c s IH]; [done|]. intros Ht.
  destruct (IH (trim_end_inv c s Ht)) as [IH1 IH2].
  destruct (decide (c = SLASH)) as [->|Hc].
  { simpl. rewrite segments_slash. split; [done|]. intros; by simplify_eq. }
  assert (String c (collapse_slashes false s) = join_slash (segments (String c s))) as Hgoal.
  { destruct s as [|d s].
    { simpl. unfold segments. simpl. by rewrite decide_False. }
    destruct (decide (d = SLASH)) as [->|Hd].
    - simpl in *. rewrite IH1, segments_slash, segments_cons_slash by done.
      destruct (segments s) as [|x r] eqn:Hseg; [|done].
      (* a path that ends in a slash is not trimmed *)
      exfalso. clear -Ht Hseg.
      assert (∀ s, segments s = [] → trim_end SLASH s = "") as Hnil.
      { clear. induction s as [|e s IH]; [done|]. intros Hs.
        destruct (decide (e = SLASH)) as [->|He].
        - rewrite segments_slash in Hs. simpl. by rewrite IH.
        - destruct (split_slash_cons e s He) as (x & r & _ & Hes).
          unfold segments in Hs. by rewrite Hes in Hs. }
      rewrite Hnil in Ht by done. destruct (decide (c = SLASH)); done.
    - destruct (segments_cons c d s) as (x & r & Hs & Hcs); [done..|].
      rewrite Hcs, (IH2 d s), Hs by done. destruct r; done. }
  simpl. rewrite !decide_False by done. split; [done|]. intros; by simplify_eq.
Qed.

Lemma collapse_slashes_id prev s :
  contains s "//" = false → (prev = true → ∀ s', s ≠ String SLASH s') →
  collapse_slashes prev s = s.
Proof.
  revert prev. induction s as [|c s IH]; intros prev Hn Hprev; [done|].
  simpl in Hn. rewrite !orb_false_iff in Hn. destruct Hn as [Hn1 Hn2]. simpl.
  destruct (decide (c = SLASH)) as [->|Hc]; [|f_equal; by apply IH].
  destruct prev; [by destruct (Hprev eq_refl s)|].
  f_equal. apply IH; [done|]. intros _ s' ->. by destruct s'.
Qed.

Lemma normalize_path_collapse p :
  normalize_path p = collapse_slashes false (trim_matches SLASH p).
Proof.
  unfold normalize_path. destruct (contains (trim_matches SLASH p) "//") eqn:E; [done|].
  simpl. symmetry. by apply collapse_slashes_id.
Qed.

Lemma normalize_path_join p : normalize_path p = join_slash (segments p).
Proof.
  rewrite normalize_path_collapse, <-segments_trim_matches.
  destruct (trim_matches SLASH p) as [|c s] eqn:E; [done|].
  eapply (collapse_slashes_spec (String c s)); [|done|by eapply trim_matches_head].
  rewrite <-E. apply trim_end_idemp.
Qed.

Lemma split_slash_app x s : has_char SLASH x = false →
  split_slash (x +:+ String SLASH s) = x :: split_slash s.
Proof.
  induction x as [|c x IH]; intros Hx; [done|]. simpl in Hx.
  rewrite orb_false_iff, bool_decide_eq_false in Hx. destruct Hx as [Hc Hx].
  simpl. rewrite decide_False by done. by rewrite IH.
Qed.

Lemma split_slash_nonempty s : split_slash s ≠ [].
Proof. destruct s as [|c s]; [done|]. cbn. case_decide; [done|]. by destruct (split_slash s). Qed.

Lemma split_slash_at s s' : split_slash (s +:+ String SLASH s') = split_slash s ++ split_slash s'.
Proof.
  induction s as [|c s IH]; [done|]. cbn [String.append split_slash]. case_decide; [by rewrite IH|]. rewrite IH.
  destruct (split_slash s) as [|x r] eqn:Hs; [|done]. by destruct (split_slash_nonempty s).
Qed.

Lemma segments_app s s' : segments (s +:+ String SLASH s') = segments s ++ segments s'.
Proof. unfold segments. by rewrite split_slash_at, filter_app. Qed.

Lemma split_slash_no_slash x : has_char SLASH x = false → split_slash x = [x].
Proof.
  induction x as [|c x IH]; intros Hx; [done|]. simpl in Hx.
  rewrite orb_false_iff, bool_decide_eq_false in Hx. destruct Hx as [Hc Hx].
  simpl. rewrite decide_False by done. by rewrite IH.
Qed.

Lemma split_slash_ok s : Forall (λ x, has_char SLASH x = false) (split_slash s).
Proof.
  induction s as [|c s IH]; simpl; [repeat constructor|].
  case_decide as Hc; [by constructor|].
  destruct IH as [|x r Hx IH]; constructor; simpl; try done;
    by rewrite bool_decide_false.
Qed.

Lemma segments_ok s : Forall segment_ok (segments s).
Proof.
  apply Forall_forall. intros x [Hne Hin]%list_elem_of_filter. split; [done|].
  pose proof (split_slash_ok s) as Hall. rewrite Forall_forall in Hall. auto.
Qed.

Lemma segments_join l : Forall segment_ok l → segments (join_slash l) = l.
Proof.
  unfold segments. induction 1 as [|x l [Hne Hx] Hl IH]; [done|].
  destruct l as [|y l].
  - simpl. rewrite split_slash_no_slash by done. by rewrite filter_cons_True.
  - change (join_slash (x :: y :: l)) with (x +:+ String SLASH (join_slash (y :: l))).
    rewrite split_slash_app, filter_cons_True, IH by done. done.
Qed.

Lemma normalize_path_canonical p : canonical (normalize_path p).
Proof.
  unfold canonical. rewrite !normalize_path_join, segments_join by apply segments_ok. done.
Qed.

Lemma segments_normalize p : segments (normalize_path p) = segments p.
Proof. by rewrite normalize_path_join, segments_join by apply segments_ok. Qed.

(** A canonical path is either the root or its parent's path followed by its
    name. *)
Lemma join_slash_snoc l x : l ≠ [] →
  join_slash (l ++ [x]) = join_slash l +:+ String SLASH x.
Proof.
  induction l as [|y l IH]; [done|]. intros _. destruct l as [|z l]; [done|].
  change (join_slash ((y :: z :: l) ++ [x]))
    with (y +:+ String SLASH (join_slash ((z :: l) ++ [x]))).
  rewrite IH by done. simpl. by rewrite str_app_assoc.
Qed.

Lemma join_slash_nonempty l : Forall segment_ok l → l ≠ [] → join_slash l ≠ "".
Proof. intros [|x l' [Hx _] _]; [done|]. intros _. by destruct l', x. Qed.

Lemma tree_parent_name_join l x : Forall segment_ok (l ++ [x]) →
  tree_parent (join_slash (l ++ [x])) = join_slash l ∧
  tree_name (join_slash (l ++ [x])) = x.
Proof.
  intros Hok. pose proof (join_slash_nonempty _ Hok ltac:(by destruct l)) as Hne.
  apply Forall_app in Hok as [Hl [[Hxne Hx] _]%Forall_cons].
  unfold tree_parent, tree_name. rewrite !decide_False by done.
  destruct (decide (l = [])) as [->|Hlne].
  - simpl. rewrite (proj2 (rsplit_once_None SLASH x)) by done. done.
  - rewrite join_slash_snoc by done.
    by rewrite (proj2 (rsplit_once_Some SLASH _ (join_slash l) x)).
Qed.

Lemma canonical_cases p : canonical p →
  p = "" ∨ ∃ l x, Forall segment_ok (l ++ [x]) ∧ p = join_slash (l ++ [x]).
Proof.
  intros Hp. rewrite <-Hp, normalize_path_join.
  pose proof (segments_ok p) as Hok.
  destruct (segments p) as [|l x _] using rev_ind; [by left|]. right; eauto.
Qed.

Lemma tree_parent_canonical p : canonical p → p ≠ "" → canonical (tree_parent p).
Proof.
  intros [->|(l & x & Hok & ->)]%canonical_cases Hne; [done|].
  rewrite (proj1 (tree_parent_name_join l x Hok)).
  apply Forall_app in Hok as [Hl _].
  unfold canonical. by rewrite normalize_path_join, segments_join.
Qed.

(** ** Tree sort keys *)

Lemma rsplit_tree_sort_key p : has_char NUL p = false →
  rsplit_once NUL (tree_sort_key p) = Some (tree_parent p, tree_name p).
Proof.
  intros Hr. apply rsplit_once_Some. split; [done|].
  unfold tree_name. case_decide; [done|].
  destruct (rsplit_once SLASH p) as [[x y]|] eqn:E; [|done].
  apply rsplit_once_Some in E as [-> _]. rewrite has_char_app in Hr.
  rewrite !orb_false_iff in Hr. simpl in Hr. tauto.
Qed.

Lemma tree_sk_name_sort_key p : has_char NUL p = false → tree_sk_name (tree_sort_key p) = tree_name p.
Proof. intros Hp. unfold tree_sk_name. change TREE_SK_SEP with NUL. by rewrite rsplit_tree_sort_key. Qed.

Lemma tree_sort_key_split p q :
  has_char NUL p = false → has_char NUL q = false →
  tree_sort_key p = tree_sort_key q → tree_parent p = tree_parent q ∧ tree_name p = tree_name q.
Proof.
  intros Hp Hq Heq. pose proof (rsplit_tree_sort_key p Hp) as H1.
  rewrite Heq, (rsplit_tree_sort_key q Hq) in H1. by simplify_eq.
Qed.

(** The path of a child. *)
Definition child_path (d x : string) : string := join_slash (segments d ++ [x]).

Lemma child_path_canonical d x : segment_ok x → canonical (child_path d x).
Proof.
  intros Hx. unfold canonical, child_path. rewrite normalize_path_join, segments_join; [done|].
  apply Forall_app. split; [apply segments_ok|by constructor].
Qed.

Lemma child_path_parent_name d x : canonical d → segment_ok x →
  tree_parent (child_path d x) = d ∧ tree_name (child_path d x) = x.
Proof.
  intros Hd Hx. unfold canonical in Hd. rewrite normalize_path_join in Hd. unfold child_path.
  destruct (tree_parent_name_join (segments d) x) as [Hp Hn]; [|by rewrite Hp, Hn, Hd].
  apply Forall_app. split; [apply segments_ok|by constructor].
Qed.

(** A canonical path other than the root is the child of its parent. *)
Lemma canonical_child c : canonical c → c ≠ "" →
  segment_ok (tree_name c) ∧ c = child_path (tree_parent c) (tree_name c).
Proof.
  intros [->|(l & x & Hok & ->)]%canonical_cases Hne; [done|].
  destruct (tree_parent_name_join l x Hok) as [-> ->]. apply Forall_app in Hok as [Hl [Hx _]%Forall_cons].
  split; [done|]. unfold child_path. by rewrite segments_join.
Qed.

Lemma tree_name_nonempty p : canonical p → p ≠ "" → tree_name p ≠ "".
Proof.
  intros [->|(l & x & Hok & ->)]%canonical_cases Hne; [done|].
  rewrite (proj2 (tree_parent_name_join l x Hok)).
  by apply Forall_app in Hok as [_ [[? _] _]%Forall_cons].
Qed.

Lemma tree_parent_name_inj p q : canonical p → canonical q → p ≠ "" → q ≠ "" →
  tree_parent p = tree_parent q → tree_name p = tree_name q → p = q.
Proof.
  intros [->|(l & x & Hl & ->)]%canonical_cases; [done|].
  intros [->|(l' & x' & Hl' & ->)]%canonical_cases; [done|]. intros _ _.
  destruct (tree_parent_name_join l x Hl) as [-> ->].
  destruct (tree_parent_name_join l' x' Hl') as [-> ->]. intros Hj ->.
  apply Forall_app in Hl as [Hl _]. apply Forall_app in Hl' as [Hl' _].
  apply (f_equal segments) in Hj. rewrite !segments_join in Hj by done. by subst.
Qed.

(** ** Prefix ranges *)

Lemma prefix_end_loop_app l a :
  prefix_end_loop (l ++ [a]) =
  match prefix_end_loop l with
  | Some q => Some (a :: q)
  | None => if (N_of_ascii a <? 255)%N then Some [ascii_of_N (N_of_ascii a + 1)] else None
  end.
Proof.
  induction l as [|b l IH]; simpl; [done|].
  destruct (N_of_ascii b <? 255)%N; [|done].
  f_equal. by rewrite !reverse_cons, reverse_snoc.
Qed.

Lemma prefix_end_eq_ref p : prefix_end p = prefix_end_ref p.
Proof.
  unfold prefix_end. induction p as [|a p IH]; simpl; [done|].
  rewrite reverse_cons, prefix_end_loop_app, <-IH.
  destruct (prefix_end_loop _); simpl; [done|]. by case_match.
Qed.

(** The strings that start with [p] are exactly those of the range
    [[p, prefix_end p)], or of [[p, ∞)] when there is no upper bound. *)
Lemma prefix_end_range p s :
  starts_with s p = true ↔
  str_le p s ∧ match prefix_end p with Some e => str_lt s e | None => True end.
Proof.
  rewrite prefix_end_eq_ref. revert s. induction p as [|a p IH]; intros s.
  { rewrite starts_with_nil. split; [|done]. split; [apply str_le_nil|done]. }
  destruct s as [|b s].
  { simpl. split; [done|]. intros [H _]. by rewrite str_le_nlt in H. }
  simpl. rewrite andb_true_iff, bool_decide_eq_true, IH, !str_le_lt_eq, str_lt_cons.
  pose proof (N_ascii_bounded a) as Ha. pose proof (N_ascii_bounded b) as Hb.
  destruct (prefix_end_ref p) as [q|].
  - rewrite str_lt_cons. split.
    + intros [-> [Hle ?]]. split; [|by right].
      destruct Hle as [?| ->]; auto.
    + intros [[[?|[-> ?] ] | ?] [?|[? ?] ] ]; simplify_eq; auto; lia.
  - destruct (N.ltb_spec (N_of_ascii a) 255) as [Hlt|Hge].
    + unfold singleton_str. rewrite str_lt_cons, N_ascii_embedding by lia. split.
      * intros [-> [Hle _]]. split; [|left; lia]. destruct Hle as [?| ->]; auto.
      * intros [[[?|[-> ?] ] | ?] [?|[? Hn] ] ]; simplify_eq; auto;
          try lia; by apply str_lt_nil_r in Hn.
    + split.
      * intros [-> [Hle _]]. split; [|done]. destruct Hle as [?| ->]; auto.
      * intros [[[?|[-> ?] ] | ?] _]; simplify_eq; auto; lia.
Qed.

(** ** Event sort keys *)

Lemma fixed_dec_length w n : String.length (fixed_dec w n) = w.
Proof.
  revert n. induction w as [|w IH]; intros n; [done|]. simpl.
  assert (∀ s c, String.length (s +:+ singleton_str c) = S (String.length s)) as ->.
  { clear. induction s; intros; simpl; auto. }
  by rewrite IH.
Qed.

Lemma str_lt_snoc s t c d : String.length s = String.length t →
  str_lt (s +:+ singleton_str c) (t +:+ singleton_str d) ↔
  str_lt s t ∨ (s = t ∧ (N_of_ascii c < N_of_ascii d)%N).
Proof.
  revert t. induction s as [|a s IH]; intros [|b t] Hlen; simplify_eq/=.
  - unfold singleton_str. rewrite str_lt_cons. split.
    + intros [?|[_ H]]; [by right|]. by apply str_lt_nil_r in H.
    + intros [H|[_ ?]]; [by apply str_lt_nil_r in H|by left].
  - rewrite !str_lt_cons, IH by done. split.
    + intros [?|[-> [?|[-> ?] ] ] ]; auto.
    + intros [ [?|[-> ?] ]|[? ?] ]; simplify_eq; auto.
Qed.

Lemma pretty_N_char_lt a b : (a < 10)%N → (b < 10)%N →
  (N_of_ascii (pretty_N_char a) < N_of_ascii (pretty_N_char b))%N ↔ (a < b)%N.
Proof.
  assert (∀ a, (a < 10)%N → N_of_ascii (pretty_N_char a) = 48 + a)%N as Hc.
  { intros c Hc. assert (c ∈ N.of_nat <$> seq 0 10) as Hin.
    { apply list_elem_of_fmap. exists (N.to_nat c). rewrite elem_of_seq. lia. }
    repeat (apply elem_of_cons in Hin as [->|Hin]; [done|]). by apply elem_of_nil in Hin. }
  intros. rewrite !Hc by done. lia.
Qed.

Lemma dec_split_lt a b :
  ((a / 10 < b / 10)%N ∨ ((a / 10 = b / 10)%N ∧ (a mod 10 < b mod 10)%N)) ↔ (a < b)%N.
Proof.
  pose proof (N.div_mod' a 10) as Ha. pose proof (N.div_mod' b 10) as Hb.
  pose proof (N.mod_lt a 10 ltac:(done)) as Ha'. pose proof (N.mod_lt b 10 ltac:(done)) as Hb'.
  revert Ha Hb Ha' Hb'. generalize (a / 10)%N (b / 10)%N (a mod 10)%N (b mod 10)%N.
  intros x y z w Ha Hb Ha' Hb'. split.
  - intros [?|[? ?] ]; lia.
  - intros ?. destruct (N.lt_trichotomy x y) as [?|[?|?] ]; [by left| |lia].
    right. split; [done|lia].
Qed.

Lemma fixed_dec_lt w a b : (a < 10 ^ N.of_nat w)%N → (b < 10 ^ N.of_nat w)%N →
  str_lt (fixed_dec w a) (fixed_dec w b) ↔ (a < b)%N.
Proof.
  revert a b. induction w as [|w IH]; intros a b Ha Hb.
  { simpl in *. split; [done|lia]. }
  rewrite Nat2N.inj_succ, N.pow_succ_r' in Ha, Hb. simpl.
  assert (∀ n, n < 10 * 10 ^ N.of_nat w → n / 10 < 10 ^ N.of_nat w)%N as Hd.
  { intros. by apply N.Div0.div_lt_upper_bound. }
  assert (∀ c d, c < 10 ^ N.of_nat w → d < 10 ^ N.of_nat w →
    fixed_dec w c = fixed_dec w d → c = d)%N as Hinj.
  { intros c d Hc Hdd Heq. destruct (N.lt_trichotomy c d) as [H|[H|H]]; [|done|];
      apply IH in H; try done; rewrite Heq in H; by apply str_lt_irrefl in H. }
  rewrite str_lt_snoc by (by rewrite !fixed_dec_length).
  rewrite IH by auto. rewrite pretty_N_char_lt by (by apply N.mod_lt).
  rewrite <-(dec_split_lt a b). split; (intros [?|[Heq ?] ]; [by left|right; split; [|done] ]).
  - by apply Hinj in Heq; auto.
  - by rewrite Heq.
Qed.

Lemma fixed_dec_zeros w : fixed_dec w 0 = String.string_of_list_ascii (replicate w "0"%char).
Proof.
  induction w as [|w IH]; [done|]. simpl. change (0 / 10)%N with 0%N. rewrite IH.
  clear IH. induction w as [|w IH]; [done|]. simpl. by rewrite IH.
Qed.

Lemma pretty_N_go_fixed w n s : (n < 10 ^ N.of_nat w)%N →
  pad_zero (w + String.length s) (pretty_N_go n s) = fixed_dec w n +:+ s.
Proof.
  revert n s. induction w as [|w IH]; intros n s Hn.
  { simpl in Hn. assert (n = 0%N) as -> by lia. rewrite pretty_N_go_0.
    unfold pad_zero. simpl. by rewrite Nat.sub_diag. }
  rewrite Nat2N.inj_succ, N.pow_succ_r' in Hn.
  destruct (decide (n = 0%N)) as [->|Hne].
  - rewrite pretty_N_go_0, fixed_dec_zeros. unfold pad_zero. by rewrite Nat.add_sub.
  - rewrite pretty_N_go_step by lia.
    replace (S w + String.length s) with
      (w + String.length (String (pretty_N_char (n mod 10)) s)) by (simpl; lia).
    rewrite IH by (by apply N.Div0.div_lt_upper_bound). simpl. by rewrite str_app_assoc.
Qed.

Lemma pad_zero_fixed w n : (0 < w) → (n < 10 ^ N.of_nat w)%N →
  pad_zero w (show_uint n) = fixed_dec w n.
Proof.
  intros Hw Hn. unfold show_uint, pretty, pretty_N. case_decide.
  - subst. rewrite fixed_dec_zeros. unfold pad_zero. simpl.
    destruct w as [|w]; [lia|]. simpl. rewrite Nat.sub_0_r. clear.
    induction w as [|w IH]; [done|]. simpl. by rewrite IH.
  - pose proof (pretty_N_go_fixed w n "" Hn) as H0. simpl in H0.
    by rewrite Nat.add_0_r, str_app_nil_r in H0.
Qed.

(** ** Path bytes *)

Lemma has_char_trim_start c d s : has_char c (trim_start d s) = true → has_char c s = true.
Proof.
  induction s as [|a s IH]; simpl; [done|]. case_decide; [|done].
  intros H1. rewrite IH by done. apply orb_true_r.
Qed.

Lemma has_char_trim_end c d s : has_char c (trim_end d s) = true → has_char c s = true.
Proof.
  induction s as [|a s IH]; simpl; [done|].
  destruct (trim_end d s) as [|b r].
  - case_decide; simpl; [done|]. rewrite orb_false_r. by intros ->.
  - simpl in *. rewrite !orb_true_iff in *. tauto.
Qed.

Lemma has_char_collapse c prev s : has_char c (collapse_slashes prev s) = true → has_char c s = true.
Proof.
  revert prev. induction s as [|a s IH]; intros prev; simpl; [done|].
  rewrite orb_true_iff. case_decide; [destruct prev|]; simpl; rewrite ?orb_true_iff; subst; naive_solver.
Qed.

(** A path keeps its freedom from a byte under normalisation. *)
Lemma normalize_path_no_char c p : has_char c p = false → has_char c (normalize_path p) = false.
Proof.
  rewrite normalize_path_collapse, <-!not_true_iff_false. intros Hp Hn. apply Hp.
  apply has_char_collapse in Hn. unfold trim_matches in Hn.
  by apply has_char_trim_end, has_char_trim_start in Hn.
Qed.

Lemma has_char_tree_parent p : has_char NUL p = false → has_char NUL (tree_parent p) = false.
Proof.
  intros Hp. unfold tree_parent. case_decide; [done|].
  destruct (rsplit_once SLASH p) as [[x y]|] eqn:E; [|done].
  apply rsplit_once_Some in E as [-> _]. rewrite has_char_app in Hp. by apply orb_false_iff in Hp as [? _].
Qed.

Lemma starts_with_sep x y a b :
  has_char NUL x = false → has_char NUL a = false →
  starts_with (a +:+ String NUL b) (x +:+ String NUL y) = true → a = x.
Proof.
  revert a. induction x as [|c x IH]; intros [|d a] Hx Ha; simpl in *; [done| | |].
  - rewrite andb_true_iff, bool_decide_eq_true. intros [<- _]. by rewrite bool_decide_true in Ha.
  - rewrite andb_true_iff, bool_decide_eq_true. intros [-> _]. by rewrite bool_decide_true in Hx.
  - rewrite !orb_false_iff in *. rewrite andb_true_iff, bool_decide_eq_true.
    intros [-> ?]. f_equal. apply IH; tauto.
Qed.

Lemma normalize_path_eq p q : normalize_path p = normalize_path q ↔ segments p = segments q.
Proof.
  split; intros Heq.
  - by rewrite <-(segments_normalize p), Heq, segments_normalize.
  - by rewrite !normalize_path_join, Heq.
Qed.

(** The parent of a canonical path, in terms of components. *)
Lemma tree_parent_segments p d : canonical p → canonical d → p ≠ "" →
  tree_parent p = d ↔ ∃ x, segments p = segments d ++ [x].
Proof.
  intros [->|(l & x & Hok & ->)]%canonical_cases Hd Hne; [done|].
  rewrite (proj1 (tree_parent_name_join l x Hok)), segments_join by done.
  pose proof Hok as Hok'. apply Forall_app in Hok' as [Hl _]. split.
  - intros <-. exists x. by rewrite segments_join.
  - intros [y Hy]. apply app_inj_tail in Hy as [-> _]. by rewrite <-normalize_path_join.
Qed.

(** A toy hash for the witnesses: the input cut or padded to 32 bytes. *)
Fixpoint take_pad (n : nat) (s : string) : string :=
  match n with
  | O => EmptyString
  | S n' =>
      match s with
      | EmptyString => String "p"%char (take_pad n' EmptyString)
      | String c s' => String c (take_pad n' s')
      end
  end.

Lemma take_pad_length n s : String.length (take_pad n s) = n.
Proof. revert s. induction n; intros [|c s]; simpl; auto. Qed.

Definition toy_blake3 : Blake3 := {|
  blake3_hash := take_pad 32;
  blake3_hash_len := take_pad_length 32;
|}.

(** ** Properties *)

(** Path normalisation is total and canonical: the fast path and the
    slash-collapsing slow path both return the non-empty components of the
    input joined by single slashes, the result is a fixed point, and no
    component is lost. *)
Theorem normalize_path_spec p :
  normalize_path p = join_slash (segments p) ∧
  canonical (normalize_path p) ∧
  segments (normalize_path p) = segments p.
Proof.
  split; [apply normalize_path_join|]. split; [apply normalize_path_canonical|].
  apply segments_normalize.
Qed.

(** Two artifacts share a key exactly when they are in the same repository
    and their paths have the same components; in particular the shard suffix
    of the partition key never confuses two repositories. *)
Theorem artifact_key_inj `{Blake3} r1 p1 r2 p2 :
  artifact_key r1 p1 = artifact_key r2 p2 ↔ r1 = r2 ∧ segments p1 = segments p2.
Proof.
  unfold artifact_key, sharded_pk. rewrite <-normalize_path_eq. split.
  - intros [= [-> _]%scoped_pk_inj ->]. done.
  - by intros [-> ->].
Qed.

(** The composite key of the browse tree (partition by parent, sort key
    parent NUL name) is injective on NUL-free paths, the root entry included. *)
Theorem tree_entry_key_inj `{Blake3} r1 p1 r2 p2 :
  has_char NUL p1 = false → has_char NUL p2 = false →
  tree_entry_key r1 p1 = tree_entry_key r2 p2 ↔ r1 = r2 ∧ segments p1 = segments p2.
Proof.
  intros H1%normalize_path_no_char H2%normalize_path_no_char.
  pose proof (normalize_path_canonical p1) as C1. pose proof (normalize_path_canonical p2) as C2.
  rewrite <-normalize_path_eq. unfold tree_entry_key, sharded_pk. split; [|by intros [-> ->] ].
  intros [= [-> _]%scoped_pk_inj [Hp Hn]%tree_sort_key_split]; try done. split; [done|].
  destruct (decide (normalize_path p1 = "")) as [E1|E1];
    destruct (decide (normalize_path p2 = "")) as [E2|E2]; [congruence| | |].
  - apply tree_name_nonempty in E2; [|done]. by rewrite <-Hn, E1 in E2.
  - apply tree_name_nonempty in E1; [|done]. by rewrite Hn, E2 in E1.
  - by apply tree_parent_name_inj.
Qed.

Lemma tree_entry_key_inj_witness :
  let _ := toy_blake3 in
  tree_entry_key "pypi" "/a//b/" = tree_entry_key "pypi" "a/b" ∧ segments "/a//b/" = ["a"; "b"].
Proof.
  intros ?. split; [|reflexivity].
  apply (tree_entry_key_inj "pypi" "/a//b/" "pypi" "a/b" eq_refl eq_refl). split; reflexivity.
Defined.

(** Listing a directory by the prefix "parent NUL" in the parent's shard
    sees exactly the entries whose path is the parent's plus one component,
    for every NUL-free parent that is not the reserved name of the root's
    parent; neither siblings that share a string prefix nor deeper
    descendants are listed. *)
Theorem tree_children_exact `{Blake3} r d c :
  has_char NUL c = false → has_char NUL d = false → canonical d → d ≠ ROOT_PARENT →
  let '(_, pk, sk) := tree_entry_key r c in
  (pk = tree_children_pk r d ∧ starts_with sk (tree_children_sk_prefix d) = true) ↔
  ∃ x, segments c = segments d ++ [x].
Proof.
  intros Hc%normalize_path_no_char Hd Hcan Hroot. unfold tree_entry_key.
  rewrite <-(segments_normalize c). pose proof (normalize_path_canonical c) as Hcc.
  revert Hc Hcc. generalize (normalize_path c). clear c. intros c Hc Hcc.
  destruct (decide (c = "")) as [->|Hne].
  { split; [|by intros [x Hx%(f_equal length)]; rewrite length_app in Hx; simpl in Hx; lia].
    intros [_ Hsw]. apply (starts_with_sep d "" (tree_parent "") "") in Hsw; done. }
  rewrite <-(tree_parent_segments c d) by done. split.
  - intros [_ Hsw]. by apply starts_with_sep in Hsw; [|done|by apply has_char_tree_parent].
  - intros <-. split; [done|]. unfold tree_sort_key, tree_children_sk_prefix, singleton_str.
    change (String TREE_SK_SEP (tree_name c)) with (singleton_str TREE_SK_SEP +:+ tree_name c).
    rewrite <-str_app_assoc. apply starts_with_spec. by eexists.
Qed.

Lemma tree_children_exact_witness :
  let _ := toy_blake3 in
  let '(_, pk, sk) := tree_entry_key "r" "a/b/c.txt" in
  pk = tree_children_pk "r" "a/b" ∧ starts_with sk (tree_children_sk_prefix "a/b") = true.
Proof.
  intros ?. apply (tree_children_exact "r" "a/b" "a/b/c.txt" eq_refl eq_refl eq_refl).
  - discriminate.
  - exists "c.txt". reflexivity.
Defined.

(** The reserved parent name of the root is not excluded from user paths:
    the root's own entry is found by the listing of a directory named
    "_root", where it shows up as a child with an empty name. *)
Theorem tree_root_listed_under_reserved_name `{Blake3} r :
  let '(_, pk, sk) := tree_entry_key r "" in
  pk = tree_children_pk r "_root" ∧
  starts_with sk (tree_children_sk_prefix "_root") = true ∧
  tree_sk_name sk = "" ∧
  segments "_root" = ["_root"].
Proof. done. Qed.

(** The exclusive upper bound of a prefix scan is exact: the strings that
    start with the prefix are the ones from the prefix up to [prefix_end], and
    all the ones from the prefix on when there is no bound (an empty or
    all-0xFF prefix). *)
Theorem prefix_end_exact p s :
  starts_with s p = true ↔
  str_le p s ∧ match prefix_end p with Some e => str_lt s e | None => True end.
Proof. apply prefix_end_range. Qed.

(** The byte order of task event keys is the numeric order of their
    sequence numbers, over the whole [u64] range. *)
Theorem task_event_key_order t a b :
  (a < 2 ^ 64)%N → (b < 2 ^ 64)%N →
  str_lt (task_event_key t a).2 (task_event_key t b).2 ↔ (a < b)%N.
Proof.
  assert (∀ n, n < 2 ^ 64 → n < 10 ^ N.of_nat 20)%N as Hlt.
  { intros n Hn. eapply N.lt_trans; [exact Hn|reflexivity]. }
  intros Ha%Hlt Hb%Hlt. change (str_lt (pad_zero 20 (show_uint a)) (pad_zero 20 (show_uint b)) ↔ (a < b)%N).
  rewrite (pad_zero_fixed 20 a), (pad_zero_fixed 20 b); [|apply Nat.lt_0_succ|exact Hb|apply Nat.lt_0_succ|exact Ha].
  by apply fixed_dec_lt.
Qed.

Lemma task_event_key_order_witness :
  str_lt (task_event_key "t" 9).2 (task_event_key "t" 10).2.
Proof. apply (task_event_key_order "t" 9 10); reflexivity. Defined.
