(* ===== verification/Records.v ===== *)
(** * Stored records (core/src/store/kv/records.rs, metadata.rs, core/src/task.rs)

    The records of the tables, field for field, with their accessors.  All
    integers are [Z]; times are nanoseconds since the Unix epoch.  [rmp_serde]
    is a parameter ([Serde]): what the code relies on is that a value that was
    serialised is read back, up to the fields serde is told to skip. *)

From S2P Require Import Prelude Bytes Errors Keys.

(** [chrono::DateTime<Utc>], in nanoseconds since the epoch. *)
Definition DateTime : Type := Z.
#[export] Instance DateTime_eq_dec : EqDecision DateTime := Z.eq_dec.

(** [DateTime::UNIX_EPOCH]. *)
Definition UNIX_EPOCH : DateTime := 0%Z.

(** [(a - b).num_seconds()]: whole seconds, rounded towards zero. *)
Definition num_seconds_between (a b : DateTime) : Z := Z.quot (a - b) 1000000000.

(** core/src/store/kv/records.rs:11-11 *)
Definition CURRENT_RECORD_VERSION : Z := 5.

(** ** Format metadata *)

(** core/src/store/kv/metadata.rs:7-24 *)
Record AptPackageMeta : Type := mkAptPackageMeta {
  apt_package : string;
  apt_version : string;
  apt_architecture : string;
  apt_distribution : string;
  apt_component : string;
  apt_maintainer : string;
  apt_depends : string;
  apt_section : string;
  apt_priority : string;
  apt_installed_size : string;
  apt_description : string;
  apt_sha256 : string;
  apt_control : string;
}.

#[export] Instance AptPackageMeta_eq_dec : EqDecision AptPackageMeta.
Proof. solve_decision. Defined.

(** core/src/store/kv/metadata.rs:26-36 *)
Record PypiPackageMeta : Type := mkPypiPackageMeta {
  pypi_name : string;
  pypi_version : string;
  pypi_filename : string;
  pypi_filetype : string;
  pypi_sha256 : string;
  pypi_requires_python : option string;
  pypi_summary : option string;
  pypi_upstream_url : option string;
}.

#[export] Instance PypiPackageMeta_eq_dec : EqDecision PypiPackageMeta.
Proof. solve_decision. Defined.

(** core/src/store/kv/metadata.rs:38-45 *)
Record GoModuleMeta : Type := mkGoModuleMeta {
  go_module : string;
  go_version : string;
  go_file_type : string;
  go_sha256 : string;
  go_upstream_url : option string;
}.

#[export] Instance GoModuleMeta_eq_dec : EqDecision GoModuleMeta.
Proof. solve_decision. Defined.

(** core/src/store/kv/metadata.rs:47-61 *)
Record HelmChartMeta : Type := mkHelmChartMeta {
  helm_name : string;
  helm_version : string;
  helm_app_version : string;
  helm_description : string;
  helm_api_version : string;
  helm_chart_type : string;
  helm_keywords : list string;
  helm_home : string;
  helm_sources : list string;
  helm_icon : string;
  helm_deprecated : bool;
  helm_sha256 : string;
}.

#[export] Instance HelmChartMeta_eq_dec : EqDecision HelmChartMeta.
Proof. solve_decision. Defined.

(** core/src/store/kv/metadata.rs:78-89 *)
Record CrateDep : Type := mkCrateDep {
  dep_name : string;
  dep_req : string;
  dep_features : list string;
  dep_optional : bool;
  dep_default_features : bool;
  dep_target : option string;
  dep_kind : string;
  dep_registry : option string;
  dep_package : option string;
}.

#[export] Instance CrateDep_eq_dec : EqDecision CrateDep.
Proof. solve_decision. Defined.

(** core/src/store/kv/metadata.rs:63-76 *)
Record CrateVersionMeta : Type := mkCrateVersionMeta {
  crate_name : string;
  crate_vers : string;
  crate_deps : list CrateDep;
  crate_cksum : string;
  crate_features : string;
  crate_features2 : option string;
  crate_yanked : bool;
  crate_links : option string;
  crate_rust_version : option string;
}.

#[export] Instance CrateVersionMeta_eq_dec : EqDecision CrateVersionMeta.
Proof. solve_decision. Defined.

(** core/src/store/kv/metadata.rs:133-140 *)
Record RpmDep : Type := mkRpmDep {
  rdep_name : string;
  rdep_flags : string;
  rdep_epoch : string;
  rdep_ver : string;
  rdep_rel : string;
}.

#[export] Instance RpmDep_eq_dec : EqDecision RpmDep.
Proof. solve_decision. Defined.

(** core/src/store/kv/metadata.rs:120-124 *)
Record RpmFileEntry : Type := mkRpmFileEntry {
  rfile_path : string;
  rfile_file_type : string;
}.

#[export] Instance RpmFileEntry_eq_dec : EqDecision RpmFileEntry.
Proof. solve_decision. Defined.

(** core/src/store/kv/metadata.rs:126-131 *)
Record RpmChangelog : Type := mkRpmChangelog {
  rlog_author : string;
  rlog_timestamp : Z;
  rlog_text : string;
}.

#[export] Instance RpmChangelog_eq_dec : EqDecision RpmChangelog.
Proof. solve_decision. Defined.

(** core/src/store/kv/metadata.rs:91-118 *)
Record RpmPackageMeta : Type := mkRpmPackageMeta {
  rpm_name : string;
  rpm_epoch : Z;
  rpm_version : string;
  rpm_release : string;
  rpm_arch : string;
  rpm_summary : string;
  rpm_description : string;
  rpm_url : string;
  rpm_license : string;
  rpm_vendor : string;
  rpm_group : string;
  rpm_buildhost : string;
  rpm_buildtime : Z;
  rpm_packager : string;
  rpm_installed_size : Z;
  rpm_archive_size : Z;
  rpm_sha256 : string;
  rpm_requires : list RpmDep;
  rpm_provides : list RpmDep;
  rpm_conflicts : list RpmDep;
  rpm_obsoletes : list RpmDep;
  rpm_files : list RpmFileEntry;
  rpm_changelogs : list RpmChangelog;
}.

#[export] Instance RpmPackageMeta_eq_dec : EqDecision RpmPackageMeta.
Proof. solve_decision. Defined.

(** core/src/store/kv/metadata.rs:142-150 *)
Record NpmPackageMeta : Type := mkNpmPackageMeta {
  npm_name : string;
  npm_version : string;
  npm_filename : string;
  npm_sha1 : string;
  npm_sha512 : string;
  npm_upstream_url : option string;
}.

#[export] Instance NpmPackageMeta_eq_dec : EqDecision NpmPackageMeta.
Proof. solve_decision. Defined.

(** core/src/store/kv/metadata.rs:160-168 *)
Record PypiProjectLink : Type := mkPypiProjectLink {
  plink_filename : string;
  plink_version : string;
  plink_upstream_url : string;
  plink_sha256 : option string;
  plink_requires_python : option string;
}.

#[export] Instance PypiProjectLink_eq_dec : EqDecision PypiProjectLink.
Proof. solve_decision. Defined.

(** core/src/store/kv/metadata.rs:152-158 *)
Record PypiProjectIndex : Type := mkPypiProjectIndex {
  pindex_links : list PypiProjectLink;
}.

#[export] Instance PypiProjectIndex_eq_dec : EqDecision PypiProjectIndex.
Proof. solve_decision. Defined.

(** ** Stores *)

(** core/src/store/kv/records.rs:13-15 *)
Definition default_io_size : Z := 1024.

(** core/src/store/kv/records.rs:34-67 *)
Inductive StoreKind : Type :=
| StoreFile (root : string) (sync : bool) (io_size : Z) (direct_io : bool)
| StoreS3 (bucket : string) (endpoint : option string) (region : string) (prefix : option string)
    (access_key secret_key : option string) (max_retries connect_timeout_secs read_timeout_secs : Z)
    (retry_mode : string).

#[export] Instance StoreKind_eq_dec : EqDecision StoreKind.
Proof. solve_decision. Defined.

(** core/src/store/kv/records.rs:69-77 *)
Definition type_name (k : StoreKind) : string :=
  match k with
  | StoreFile _ _ _ _ => "file"
  | StoreS3 _ _ _ _ _ _ _ _ _ _ => "s3"
  end.

(** core/src/store/kv/records.rs:79-87 *)
Record StoreRecord : Type := mkStoreRecord {
  sr_schema_version : Z;
  sr_name : string;
  sr_kind : StoreKind;
  sr_created_at : DateTime;
}.

#[export] Instance StoreRecord_eq_dec : EqDecision StoreRecord.
Proof. solve_decision. Defined.

(** core/src/store/kv/records.rs:89-97 *)
Record StoreStatsRecord : Type := mkStoreStatsRecord {
  ss_blob_count : Z;
  ss_total_bytes : Z;
  ss_updated_at : DateTime;
}.

#[export] Instance StoreStatsRecord_eq_dec : EqDecision StoreStatsRecord.
Proof. solve_decision. Defined.

(** ** Artifacts *)

(** core/src/store/kv/records.rs:145-166 *)
Inductive ArtifactKind : Type :=
| KRaw
| KDockerBlob (docker_digest : string)
| KDockerManifest (docker_digest : string)
| KDockerTag (digest tag : string)
| KAptPackage (apt : AptPackageMeta)
| KAptMetadata
| KPypiPackage (pypi : PypiPackageMeta)
| KGoModule (golang : GoModuleMeta)
| KHelmChart (helm : HelmChartMeta)
| KHelmMetadata
| KCargoCrate (cargo : CrateVersionMeta)
| KYumPackage (rpm : RpmPackageMeta)
| KYumMetadata
| KNpmPackage (npm : NpmPackageMeta)
| KNpmMetadata.

#[export] Instance ArtifactKind_eq_dec : EqDecision ArtifactKind.
Proof. solve_decision. Defined.

(** core/src/store/kv/records.rs:99-130 *)
Record ArtifactRecord : Type := mkArtifactRecord {
  ar_schema_version : Z;
  ar_id : string;
  ar_size : Z;
  ar_content_type : string;
  ar_created_at : DateTime;
  ar_updated_at : DateTime;
  ar_last_accessed_at : DateTime;
  ar_path : string;
  ar_kind : ArtifactKind;
  ar_internal : bool;
  ar_blob_id : option string;
  ar_content_hash : option string;
  ar_etag : option string;
}.

#[export] Instance ArtifactRecord_eq_dec : EqDecision ArtifactRecord.
Proof. solve_decision. Defined.

(** [o.filter(|s| !s.is_empty())]. *)
Definition non_empty (o : option string) : option string :=
  match o with
  | Some s => if decide (s = "") then None else Some s
  | None => None
  end.

(** [o.or_else(|| p)]. *)
Definition or_else {A} (o p : option A) : option A :=
  match o with Some _ => o | None => p end.

(** core/src/store/kv/records.rs:132-143 *)
Definition effective_etag (r : ArtifactRecord) : option string :=
  or_else (or_else (non_empty (ar_etag r)) (non_empty (ar_content_hash r)))
    (non_empty (ar_blob_id r)).

(** ** Browse tree *)

(** core/src/store/kv/records.rs:168-177 *)
Record DirEntry : Type := mkDirEntry {
  de_schema_version : Z;
  de_artifact_count : Z;
  de_total_bytes : Z;
  de_last_modified_at : DateTime;
  de_last_accessed_at : DateTime;
}.

#[export] Instance DirEntry_eq_dec : EqDecision DirEntry.
Proof. solve_decision. Defined.

(** core/src/store/kv/records.rs:190-207 *)
Inductive TreeEntryKind : Type :=
| TDir (artifact_count total_bytes : Z)
| TFile (size : Z) (content_type : string) (artifact_kind : ArtifactKind)
    (blob_id content_hash : option string) (created_at : DateTime).

#[export] Instance TreeEntryKind_eq_dec : EqDecision TreeEntryKind.
Proof. solve_decision. Defined.

(** core/src/store/kv/records.rs:179-188 *)
Record TreeEntry : Type := mkTreeEntry {
  te_kind : TreeEntryKind;
  te_last_modified_at : DateTime;
  te_last_accessed_at : DateTime;
}.

#[export] Instance TreeEntry_eq_dec : EqDecision TreeEntry.
Proof. solve_decision. Defined.

(** core/src/store/kv/records.rs:209-210 *)
Definition ChildrenResult : Type := list (string * DirEntry) * list (string * TreeEntry).

(** core/src/store/kv/records.rs:212-217 *)
Record RepoStats : Type := mkRepoStats {
  rs_artifact_count : Z;
  rs_total_bytes : Z;
}.

#[export] Instance RepoStats_eq_dec : EqDecision RepoStats.
Proof. solve_decision. Defined.

(** core/src/store/kv/records.rs:219-233 *)
Record BlobRecord : Type := mkBlobRecord {
  br_schema_version : Z;
  br_blob_id : string;
  br_hash : string;
  br_size : Z;
  br_created_at : DateTime;
  br_store : string;
}.

#[export] Instance BlobRecord_eq_dec : EqDecision BlobRecord.
Proof. solve_decision. Defined.

(** core/src/store/kv/records.rs:235-254 *)
Record UploadSessionRecord : Type := mkUploadSessionRecord {
  us_uuid : string;
  us_repo : string;
  us_image : option string;
  us_blob_id : string;
  us_store : string;
  us_size : Z;
  us_chunk_blob_ids : list string;
  us_created_at : DateTime;
  us_updated_at : DateTime;
}.

#[export] Instance UploadSessionRecord_eq_dec : EqDecision UploadSessionRecord.
Proof. solve_decision. Defined.

(** core/src/store/kv/records.rs:256-266 *)
Record LeaseRecord : Type := mkLeaseRecord {
  lr_holder : string;
  lr_renewed_at : DateTime;
  lr_ttl_secs : Z;
}.

#[export] Instance LeaseRecord_eq_dec : EqDecision LeaseRecord.
Proof. solve_decision. Defined.

(** ** Tasks *)

(** core/src/task.rs:12-27 *)
Record TaskProgress : Type := mkTaskProgress {
  tp_total_repos : Z;
  tp_completed_repos : Z;
  tp_total_blobs : Z;
  tp_checked_blobs : Z;
  tp_failed_blobs : Z;
  tp_bytes_read : Z;
  tp_total_bytes : Z;
  tp_total_artifacts : Z;
  tp_checked_artifacts : Z;
  tp_phase : string;
}.

#[export] Instance TaskProgress_eq_dec : EqDecision TaskProgress.
Proof. solve_decision. Defined.

(** core/src/task.rs:29-38 *)
Inductive TaskStatus : Type := Pending | Running | Completed | Failed | Cancelled.

(** core/src/task.rs:40-50 *)
Inductive TaskKind : Type :=
| TKCheck
| TKBlobGc
| TKRepoClean (repo : string)
| TKRebuildDirEntries
| TKBulkDelete (repo prefix : string)
| TKRepoClone (source target : string).

#[export] Instance TaskStatus_eq_dec : EqDecision TaskStatus.
Proof. solve_decision. Defined.
#[export] Instance TaskKind_eq_dec : EqDecision TaskKind.
Proof. solve_decision. Defined.

(** core/src/task.rs:52-63 *)
Record CheckFinding : Type := mkCheckFinding {
  cf_repo : option string;
  cf_path : string;
  cf_expected_hash : string;
  cf_actual_hash : option string;
  cf_error : option string;
  cf_fixed : bool;
}.

#[export] Instance CheckFinding_eq_dec : EqDecision CheckFinding.
Proof. solve_decision. Defined.

(** core/src/task.rs:65-82 *)
Record CheckResult : Type := mkCheckResult {
  cr_total_blobs : Z;
  cr_passed : Z;
  cr_mismatched : Z;
  cr_missing : Z;
  cr_errors : Z;
  cr_findings : list CheckFinding;
  cr_bytes_read : Z;
  cr_dry_run : bool;
  cr_fixed : Z;
}.

#[export] Instance CheckResult_eq_dec : EqDecision CheckResult.
Proof. solve_decision. Defined.

(** core/src/task.rs:84-100 *)
Record GcResult : Type := mkGcResult {
  gr_drained_repos : Z;
  gr_cleaned_upload_sessions : Z;
  gr_scanned_artifacts : Z;
  gr_expired_artifacts : Z;
  gr_docker_deleted : Z;
  gr_scanned_blobs : Z;
  gr_deleted_dedup_refs : Z;
  gr_orphaned_blobs_deleted : Z;
  gr_orphaned_blob_bytes_deleted : Z;
  gr_elapsed_ns : Z;
  gr_dry_run : bool;
}.

#[export] Instance GcResult_eq_dec : EqDecision GcResult.
Proof. solve_decision. Defined.

(** core/src/task.rs:102-110 *)
Record RepoCleanResult : Type := mkRepoCleanResult {
  rcr_repo : string;
  rcr_scanned_artifacts : Z;
  rcr_expired_artifacts : Z;
  rcr_docker_deleted : Z;
  rcr_elapsed_ns : Z;
}.

#[export] Instance RepoCleanResult_eq_dec : EqDecision RepoCleanResult.
Proof. solve_decision. Defined.

(** core/src/task.rs:112-119 *)
Record RebuildDirEntriesResult : Type := mkRebuildDirEntriesResult {
  rdr_repos : Z;
  rdr_entries_updated : Z;
  rdr_stores_updated : Z;
  rdr_elapsed_ns : Z;
}.

#[export] Instance RebuildDirEntriesResult_eq_dec : EqDecision RebuildDirEntriesResult.
Proof. solve_decision. Defined.

(** core/src/task.rs:121-129 *)
Record RepoCloneResult : Type := mkRepoCloneResult {
  rclr_source : string;
  rclr_target : string;
  rclr_copied_artifacts : Z;
  rclr_copied_entries : Z;
  rclr_elapsed_ns : Z;
}.

#[export] Instance RepoCloneResult_eq_dec : EqDecision RepoCloneResult.
Proof. solve_decision. Defined.

(** core/src/task.rs:131-139 *)
Record BulkDeleteResult : Type := mkBulkDeleteResult {
  bdr_repo : string;
  bdr_prefix : string;
  bdr_deleted_artifacts : Z;
  bdr_deleted_bytes : Z;
  bdr_elapsed_ns : Z;
}.

#[export] Instance BulkDeleteResult_eq_dec : EqDecision BulkDeleteResult.
Proof. solve_decision. Defined.

(** core/src/task.rs:141-151 *)
Inductive TaskResult : Type :=
| TRCheck (r : CheckResult)
| TRBlobGc (r : GcResult)
| TRRepoClean (r : RepoCleanResult)
| TRRebuildDirEntries (r : RebuildDirEntriesResult)
| TRBulkDelete (r : BulkDeleteResult)
| TRRepoClone (r : RepoCloneResult).

#[export] Instance TaskResult_eq_dec : EqDecision TaskResult.
Proof. solve_decision. Defined.

(** core/src/task.rs:153-159 *)
Record TaskLogEntry : Type := mkTaskLogEntry {
  tle_timestamp : DateTime;
  tle_message : string;
}.

#[export] Instance TaskLogEntry_eq_dec : EqDecision TaskLogEntry.
Proof. solve_decision. Defined.

(** core/src/store/kv/records.rs:268-307 *)
Record TaskRecord : Type := mkTaskRecord {
  tr_schema_version : Z;
  tr_id : string;
  tr_kind : TaskKind;
  tr_status : TaskStatus;
  tr_created_at : DateTime;
  tr_started_at : option DateTime;
  tr_completed_at : option DateTime;
  tr_updated_at : DateTime;
  tr_progress : TaskProgress;
  tr_result : option TaskResult;
  tr_error : option string;
  tr_summary : string;
  tr_owner_instance_id : string;
  tr_deleting : bool;
  tr_event_seq : Z;
}.

#[export] Instance TaskRecord_eq_dec : EqDecision TaskRecord.
Proof. solve_decision. Defined.

(** core/src/store/kv/records.rs:309-320 *)
Record TaskEventRecord : Type := mkTaskEventRecord {
  ter_schema_version : Z;
  ter_task_id : string;
  ter_seq : Z;
  ter_timestamp : DateTime;
  ter_message : string;
}.

#[export] Instance TaskEventRecord_eq_dec : EqDecision TaskEventRecord.
Proof. solve_decision. Defined.

(** ** Repositories *)

(** core/src/store/kv/records.rs:322-328 *)
Record UpstreamAuth : Type := mkUpstreamAuth {
  ua_username : string;
  ua_password : option string;
}.

#[export] Instance UpstreamAuth_eq_dec : EqDecision UpstreamAuth.
Proof. solve_decision. Defined.

(** core/src/store/kv/records.rs:506-513 *)
Inductive RepoType : Type := RTHosted | RTCache | RTProxy.

(** core/src/store/kv/records.rs:515-531 *)
Inductive ArtifactFormat : Type :=
| FRaw | FDocker | FPyPI | FApt | FGolang | FHelm | FCargo | FYum | FNpm.

#[export] Instance RepoType_eq_dec : EqDecision RepoType.
Proof. solve_decision. Defined.
#[export] Instance ArtifactFormat_eq_dec : EqDecision ArtifactFormat.
Proof. solve_decision. Defined.

(** core/src/store/kv/records.rs:330-348 *)
Inductive RepoKind : Type :=
| Hosted
| Cache (upstream_url : string) (cache_ttl_secs : Z) (upstream_auth : option UpstreamAuth)
| Proxy (members : list string) (write_member : option string).

#[export] Instance RepoKind_eq_dec : EqDecision RepoKind.
Proof. solve_decision. Defined.

(** core/src/store/kv/records.rs:350-358 *)
Definition kind_repo_type (k : RepoKind) : RepoType :=
  match k with
  | Hosted => RTHosted
  | Cache _ _ _ => RTCache
  | Proxy _ _ => RTProxy
  end.

(** core/src/store/kv/records.rs:360-367 *)
Inductive ContentDisposition : Type := Attachment | Inline.

#[export] Instance ContentDisposition_eq_dec : EqDecision ContentDisposition.
Proof. solve_decision. Defined.

(** core/src/store/kv/records.rs:369-413 *)
Inductive FormatConfig : Type :=
| CRaw (content_disposition : option ContentDisposition)
| CDocker (listen : option string) (cleanup_untagged_manifests : option bool)
| CPyPI
| CApt (apt_components : option (list string))
| CGolang
| CHelm
| CCargo
| CYum (repodata_depth : option Z)
| CNpm.

#[export] Instance FormatConfig_eq_dec : EqDecision FormatConfig.
Proof. solve_decision. Defined.

(** core/src/store/kv/records.rs:416-429 *)
Definition artifact_format (c : FormatConfig) : ArtifactFormat :=
  match c with
  | CRaw _ => FRaw
  | CDocker _ _ => FDocker
  | CPyPI => FPyPI
  | CApt _ => FApt
  | CGolang => FGolang
  | CHelm => FHelm
  | CCargo => FCargo
  | CYum _ => FYum
  | CNpm => FNpm
  end.

(** core/src/store/kv/records.rs:431-437 *)
Definition config_listen (c : FormatConfig) : option string :=
  match c with CDocker listen _ => listen | _ => None end.

(** core/src/store/kv/records.rs:439-448 *)
Definition config_cleanup_untagged_manifests (c : FormatConfig) : bool :=
  match c with CDocker _ (Some true) => true | _ => false end.

(** core/src/store/kv/records.rs:450-457 *)
Definition config_repodata_depth (c : FormatConfig) : Z :=
  match c with CYum depth => default 0%Z depth | _ => 0%Z end.

(** core/src/store/kv/records.rs:459-468 *)
Definition config_content_disposition (c : FormatConfig) : ContentDisposition :=
  match c with CRaw d => default Attachment d | _ => Attachment end.

(** core/src/store/kv/records.rs:471-492 *)
Record RepoConfig : Type := mkRepoConfig {
  rc_schema_version : Z;
  rc_name : string;
  rc_kind : RepoKind;
  rc_format_config : FormatConfig;
  rc_store : string;
  rc_created_at : DateTime;
  rc_cleanup_max_unaccessed_days : option Z;
  rc_cleanup_max_age_days : option Z;
  rc_deleting : bool;
}.

#[export] Instance RepoConfig_eq_dec : EqDecision RepoConfig.
Proof. solve_decision. Defined.

(** core/src/store/kv/records.rs:495-498 *)
Definition repo_type (c : RepoConfig) : RepoType := kind_repo_type (rc_kind c).

(** core/src/store/kv/records.rs:500-503 *)
Definition repo_format (c : RepoConfig) : ArtifactFormat := artifact_format (rc_format_config c).

(** core/src/store/kv/records.rs:533-541 *)
Definition display_repo_type (t : RepoType) : string :=
  match t with RTHosted => "hosted" | RTCache => "cache" | RTProxy => "proxy" end.

(** core/src/store/kv/records.rs:543-557 *)
Definition display_format (f : ArtifactFormat) : string :=
  match f with
  | FRaw => "raw" | FDocker => "docker" | FPyPI => "pypi" | FApt => "apt" | FGolang => "golang"
  | FHelm => "helm" | FCargo => "cargo" | FYum => "yum" | FNpm => "npm"
  end.

(** ** Users and roles *)

(** core/src/store/kv/records.rs:560-562 *)
Definition default_auth_source : string := "builtin".

(** core/src/store/kv/records.rs:564-585 *)
Record UserRecord : Type := mkUserRecord {
  ur_schema_version : Z;
  ur_username : string;
  ur_password_hash : string;
  ur_roles : list string;
  ur_auth_source : string;
  ur_token_secret : bytes;
  ur_must_change_password : bool;
  ur_created_at : DateTime;
  ur_updated_at : DateTime;
}.

#[export] Instance UserRecord_eq_dec : EqDecision UserRecord.
Proof. solve_decision. Defined.

(** core/src/store/kv/records.rs:587-595 *)
Inductive Capability : Type := CapRead | CapWrite | CapDelete.

#[export] Instance Capability_eq_dec : EqDecision Capability.
Proof. solve_decision. Defined.

(** core/src/store/kv/records.rs:597-603 *)
Record CapabilityGrant : Type := mkCapabilityGrant {
  cg_capability : Capability;
  cg_repo : string;
}.

#[export] Instance CapabilityGrant_eq_dec : EqDecision CapabilityGrant.
Proof. solve_decision. Defined.

(** core/src/store/kv/records.rs:605-615 *)
Record RoleRecord : Type := mkRoleRecord {
  rr_schema_version : Z;
  rr_name : string;
  rr_description : string;
  rr_capabilities : list CapabilityGrant;
  rr_created_at : DateTime;
  rr_updated_at : DateTime;
}.

#[export] Instance RoleRecord_eq_dec : EqDecision RoleRecord.
Proof. solve_decision. Defined.

(** ** Pagination *)

(** core/src/store/kv/records.rs:617-623 *)
Record Pagination : Type := mkPagination {
  pg_cursor : option string;
  pg_offset : nat;
  pg_limit : nat;
}.

(** core/src/store/kv/records.rs:625-633 *)
Definition default_Pagination : Pagination := mkPagination None 0 1000.

(** core/src/store/kv/records.rs:635-640 *)
Record PaginatedResult (T : Type) : Type := mkPaginatedResult {
  pr_items : list T;
  pr_next_cursor : option string;
}.
Arguments mkPaginatedResult {T} _ _.
Arguments pr_items {T} _.
Arguments pr_next_cursor {T} _.

(** ** Serialisation *)

(** The [rmp_serde] crate at a type: [wire] is what a serialised value is read
    back as (the value itself, but for the fields marked [skip_serializing]). *)
Class Serde (A : Type) := {
  to_vec : A → string + bytes;
  to_vec_named : A → string + bytes;
  from_slice : bytes → string + A;
  wire : A → A;
  from_to_vec : ∀ a b, to_vec a = inr b → from_slice b = inr (wire a);
  from_to_vec_named : ∀ a b, to_vec_named a = inr b → from_slice b = inr (wire a);
}.

(** No field of the type is skipped. *)
Class SerdeExact (A : Type) `{Serde A} : Prop := wire_id : ∀ a : A, wire a = a.

(** [rmp_serde::to_vec(x)?] and the like. *)
Definition serde_result {A} (r : string + A) : result A :=
  match r with inl e => Err (from_storage_error e) | inr a => Ok a end.

(** A serialiser for the witnesses: it knows the values of a list and encodes
    each as its position. *)
Definition table_to_vec {A} `{EqDecision A} (l : list A) (a : A) : string + bytes :=
  match list_find (λ x, x = a) l with
  | Some (i, _) => inr (show_uint (N.of_nat i))
  | None => inl "unknown value"
  end.

Fixpoint table_lookup {A} (i : N) (l : list A) (b : bytes) : string + A :=
  match l with
  | [] => inl "invalid data"
  | a :: l => if decide (b = show_uint i) then inr a else table_lookup (i + 1) l b
  end.

Lemma table_lookup_spec {A} (l : list A) i j a :
  l !! j = Some a → table_lookup i l (show_uint (i + N.of_nat j)) = inr a.
Proof.
  revert i j. induction l as [|x l IH]; intros i [|j] Hj; simplify_eq/=.
  - rewrite decide_True; [done|]. by rewrite N.add_0_r.
  - rewrite decide_False.
    + rewrite <-(IH (i + 1)%N j Hj). do 2 f_equal. lia.
    + intros Heq%(inj pretty). lia.
Qed.

Lemma table_round_trip {A} `{EqDecision A} (l : list A) a b :
  table_to_vec l a = inr b → table_lookup 0 l b = inr a.
Proof.
  unfold table_to_vec. destruct (list_find _ l) as [[i x]|] eqn:E; [|done].
  intros [= <-]. apply list_find_Some in E as (Hi & -> & _).
  apply (table_lookup_spec l 0 i a Hi).
Qed.

Definition table_serde {A} `{EqDecision A} (l : list A) : Serde A := {|
  to_vec := table_to_vec l;
  to_vec_named := table_to_vec l;
  from_slice := table_lookup 0 l;
  wire := id;
  from_to_vec := table_round_trip l;
  from_to_vec_named := table_round_trip l;
|}.

Lemma table_serde_exact {A} `{EqDecision A} (l : list A) : @SerdeExact A (table_serde l).
Proof. done. Qed.

(** A degenerate serialiser for the witnesses that need every value to
    serialise: all values are written, and read back, as one. *)
Definition constant_serde {A} (a : A) : Serde A := {|
  to_vec := λ _, inr "c";
  to_vec_named := λ _, inr "c";
  from_slice := λ _, inr a;
  wire := λ _, a;
  from_to_vec := λ _ _ _, eq_refl;
  from_to_vec_named := λ _ _ _, eq_refl;
|}.

(** Positive numbers as strings of bits. *)
Fixpoint pos_bits (p : positive) : string :=
  match p with
  | xH => ""
  | xO p => String "0" (pos_bits p)
  | xI p => String "1" (pos_bits p)
  end.

Fixpoint bits_pos (s : string) : positive :=
  match s with
  | EmptyString => xH
  | String c s => if decide (c = "0"%char) then xO (bits_pos s) else xI (bits_pos s)
  end.

Lemma bits_pos_bits p : bits_pos (pos_bits p) = p.
Proof. induction p; cbn; [by f_equal|by f_equal|done]. Qed.

(** A serialiser of the values that [f] represents in a countable type. *)
Definition code {A B} `{Countable B} (f : A → option B) (a : A) : string + bytes :=
  match f a with Some b => inr (pos_bits (encode b)) | None => inl "not representable" end.

Definition uncode {A B} `{Countable B} (g : B → A) (s : bytes) : string + A :=
  match decode (bits_pos s) with Some b => inr (g b) | None => inl "invalid data" end.

Lemma uncode_code {A B} `{Countable B} (f : A → option B) (g : B → A) :
  (∀ a b, f a = Some b → g b = a) → ∀ a s, code f a = inr s → uncode g s = inr a.
Proof.
  intros Hfg a s. unfold code, uncode. destruct (f a) as [b|] eqn:Hf; [|done]. intros [= <-].
  rewrite bits_pos_bits, decode_encode. f_equal. by apply Hfg.
Qed.

(** A serialiser of all values of a countable type. *)
Lemma uncode_code_all {A} `{Countable A} (a : A) (s : bytes) : code Some a = inr s → uncode id s = inr a.
Proof. apply (uncode_code Some id). by intros ?? [= ->]. Qed.

Definition countable_serde {A} `{Countable A} : Serde A := {|
  to_vec := code Some;
  to_vec_named := code Some;
  from_slice := uncode id;
  wire := id;
  from_to_vec := uncode_code_all;
  from_to_vec_named := uncode_code_all;
|}.
