(* ===== verification/Kv.v ===== *)
(** * The key-value interface (core/src/store/kv/trait_def.rs)

    The operations of the [KvStore] trait as a data type [kv_op] with the type
    of their answers, the trait as a type class of step functions, the default
    methods, and the abstract specification: a finite map from (table,
    partition key, sort key) to a value and its version.  A backend is correct
    when it simulates the specification ([KvRefines]). *)

From S2P Require Import Prelude Bytes Keys.

(** core/src/store/kv/trait_def.rs:10-15 *)
Record ScanResult : Type := mkScanResult {
  items : list (string * bytes);
  done_ : bool;
}.

#[export] Instance ScanResult_eq_dec : EqDecision ScanResult.
Proof. solve_decision. Defined.

(** The methods of the trait, with their arguments. *)
(** core/src/store/kv/trait_def.rs:28-177 *)
Inductive kv_op : Type :=
| Get (table pk sk : string)
| GetVersioned (table pk sk : string)
| Put (table pk sk : string) (value : bytes)
| PutIfVersion (table pk sk : string) (value : bytes) (expected_version : option Z)
| PutIfAbsent (table pk sk : string) (value : bytes)
| Delete (table pk sk : string)
| DeleteIfVersion (table pk sk : string) (expected_version : Z)
| DeleteReturning (table pk sk : string)
| ScanPrefix (table pk sk_prefix : string) (limit : nat)
| ScanRange (table pk sk_start : string) (sk_end : option string) (limit : nat)
| GetConsistent (table pk sk : string)
| DeleteBatch (table : string) (keys : list (string * string))
| PutBatch (table : string) (entries : list (string * string * bytes)).

(** The type a method returns, inside [Result]. *)
Definition kv_ret (o : kv_op) : Type :=
  match o with
  | Get _ _ _ | GetConsistent _ _ _ | DeleteReturning _ _ _ => option bytes
  | GetVersioned _ _ _ => option (bytes * Z)
  | Put _ _ _ _ | PutBatch _ _ => unit
  | PutIfVersion _ _ _ _ _ | PutIfAbsent _ _ _ _ => bool
  | Delete _ _ _ | DeleteIfVersion _ _ _ _ => bool
  | ScanPrefix _ _ _ _ | ScanRange _ _ _ _ _ => ScanResult
  | DeleteBatch _ _ => list bool
  end.

(** An implementation: the effect of each method on the store. *)
Class KvStore (S : Type) := kv_step : ∀ o : kv_op, S → result (kv_ret o) * S.

(** ** Default methods

    The trait's default bodies, over the methods they call. *)

Section defaults.
Context {S : Type}.

(** core/src/store/kv/trait_def.rs:73-81 *)
Definition put_if_absent_default
    (put_if_version : string → string → string → bytes → option Z → S → result bool * S)
    (table pk sk : string) (value : bytes) : S → result bool * S :=
  put_if_version table pk sk value None.

(** core/src/store/kv/trait_def.rs:133-140 *)
Definition get_consistent_default
    (get : string → string → string → S → result (option bytes) * S)
    (table pk sk : string) : S → result (option bytes) * S :=
  get table pk sk.

(** The loop over the keys; [results] is the vector built so far. *)
Fixpoint delete_batch_loop
    (delete : string → string → string → S → result bool * S) (table : string)
    (keys : list (string * string)) (results : list bool) (s : S) : result (list bool) * S :=
  match keys with
  | [] => (Ok results, s)
  | (pk, sk) :: keys =>
      match delete table pk sk s with
      | (Ok b, s) => delete_batch_loop delete table keys (results ++ [b]) s
      | (Err e, s) => (Err e, s)
      end
  end.

(** core/src/store/kv/trait_def.rs:144-153 *)
Definition delete_batch_default
    (delete : string → string → string → S → result bool * S)
    (table : string) (keys : list (string * string)) : S → result (list bool) * S :=
  delete_batch_loop delete table keys [].

(** core/src/store/kv/trait_def.rs:157-163 *)
Fixpoint put_batch_default
    (put : string → string → string → bytes → S → result unit * S) (table : string)
    (entries : list (string * string * bytes)) (s : S) : result unit * S :=
  match entries with
  | [] => (Ok tt, s)
  | (pk, sk, value) :: entries =>
      match put table pk sk value s with
      | (Ok _, s) => put_batch_default put table entries s
      | (Err e, s) => (Err e, s)
      end
  end.
End defaults.

(** ** The specification *)

(** The abstract store: each key has a value and a version. *)
Abbreviation kvmap := (gmap (string * string * string) (bytes * Z)).

Definition sk_le {A : Type} (x y : string * A) : Prop := str_le x.1 y.1.

#[export] Instance sk_le_dec {A} (x y : string * A) : Decision (sk_le x y).
Proof. unfold sk_le. apply _. Defined.
#[export] Instance sk_le_total {A} : Total (@sk_le A).
Proof. intros x y. unfold sk_le. apply (total str_le). Qed.
#[export] Instance sk_le_trans {A} : Transitive (@sk_le A).
Proof. intros x y z. unfold sk_le. apply transitivity. Qed.

(** The entries of a partition, in sort-key order. *)
Definition part (m : kvmap) (table pk : string) : list (string * (bytes * Z)) :=
  merge_sort sk_le
    (omap (λ '((t, p, sk), v), if decide (t = table ∧ p = pk) then Some (sk, v) else None)
       (map_to_list m)).

(** The answer of a scan over the entries that satisfy [P]. *)
Definition scan_of (l : list (string * (bytes * Z))) (limit : nat) : ScanResult :=
  mkScanResult (prod_map id fst <$> take limit l) (bool_decide (length l ≤ limit)).

Definition in_range (lo : string) (hi : option string) (sk : string) : Prop :=
  str_le lo sk ∧ match hi with Some e => str_lt sk e | None => True end.

#[export] Instance in_range_dec lo hi sk : Decision (in_range lo hi sk).
Proof. unfold in_range. destruct hi; apply _. Defined.

(** The current version of a key, 0 when it is absent. *)
Definition version_of (o : option (bytes * Z)) : Z := default 0%Z (snd <$> o).

Definition spec_put (k : string * string * string) (v : bytes) (m : kvmap) : kvmap :=
  <[k := (v, u64_add (version_of (m !! k)) 1)]> m.

Definition spec_put_if_version (k : string * string * string) (v : bytes) (e : option Z)
    (m : kvmap) : bool * kvmap :=
  if decide (e = snd <$> m !! k)
  then (true, <[k := (v, u64_add (default 0%Z e) 1)]> m)
  else (false, m).

Definition spec_delete_batch (table : string) (keys : list (string * string)) (m : kvmap) :
    list bool * kvmap :=
  foldl (λ '(bs, m) '(pk, sk),
    (bs ++ [bool_decide (is_Some (m !! (table, pk, sk)))], delete (table, pk, sk) m)) ([], m) keys.

Definition spec_put_batch (table : string) (entries : list (string * string * bytes)) (m : kvmap) :
    kvmap :=
  foldl (λ m '(pk, sk, v), spec_put (table, pk, sk) v m) m entries.

(** What every method promises. *)
#[export] Instance spec_store : KvStore kvmap := λ o m,
  match o with
  | Get t pk sk => (Ok (fst <$> m !! (t, pk, sk)), m)
  | GetVersioned t pk sk => (Ok (m !! (t, pk, sk)), m)
  | Put t pk sk v => (Ok tt, spec_put (t, pk, sk) v m)
  | PutIfVersion t pk sk v e =>
      let '(b, m') := spec_put_if_version (t, pk, sk) v e m in (Ok b, m')
  | PutIfAbsent t pk sk v =>
      let '(b, m') := spec_put_if_version (t, pk, sk) v None m in (Ok b, m')
  | Delete t pk sk => (Ok (bool_decide (is_Some (m !! (t, pk, sk)))), delete (t, pk, sk) m)
  | DeleteIfVersion t pk sk e =>
      if decide (Some e = snd <$> m !! (t, pk, sk))
      then (Ok true, delete (t, pk, sk) m) else (Ok false, m)
  | DeleteReturning t pk sk => (Ok (fst <$> m !! (t, pk, sk)), delete (t, pk, sk) m)
  | ScanPrefix t pk p limit =>
      (Ok (scan_of (filter (λ x, starts_with x.1 p = true) (part m t pk)) limit), m)
  | ScanRange t pk lo hi limit =>
      (Ok (scan_of (filter (λ x, in_range lo hi x.1) (part m t pk)) limit), m)
  | GetConsistent t pk sk => (Ok (fst <$> m !! (t, pk, sk)), m)
  | DeleteBatch t keys => let '(bs, m') := spec_delete_batch t keys m in (Ok bs, m')
  | PutBatch t entries => (Ok tt, spec_put_batch t entries m)
  end.

(** ** Correct backends *)

(** [kv_sim R P s m] : the store [s] and the map [m] are related, and stay so
    with equal answers under every operation that satisfies [P]. *)
Class KvRefines {S : Type} (impl : KvStore S) (R : S → kvmap → Prop) (P : kv_op → Prop) : Prop :=
  kv_refines : ∀ s m o, R s m → P o →
    (kv_step o s).1 = (spec_store o m).1 ∧ R (kv_step o s).2 (spec_store o m).2.

#[export] Instance spec_kv_refines (P : kv_op → Prop) : KvRefines spec_store eq P.
Proof. by intros s m o -> _. Qed.

(** ** Well-formed calls *)

Definition key_ok (pk sk : string) : Prop := has_char NUL pk = false ∧ valid_utf8 sk = true.

(** The calls the program makes: known tables, NUL-free partition keys, sort
    keys that are valid UTF-8 (every Rust [str] is), ranges that are not
    inverted. *)
Definition op_ok (o : kv_op) : Prop :=
  match o with
  | Get t pk sk | GetVersioned t pk sk | Put t pk sk _ | PutIfAbsent t pk sk _
  | Delete t pk sk | DeleteReturning t pk sk | GetConsistent t pk sk =>
      t ∈ ALL_TABLES ∧ key_ok pk sk
  | PutIfVersion t pk sk _ e => t ∈ ALL_TABLES ∧ key_ok pk sk ∧ from_option u64_ok True e
  | DeleteIfVersion t pk sk e => t ∈ ALL_TABLES ∧ key_ok pk sk ∧ u64_ok e
  | ScanPrefix t pk _ _ => t ∈ ALL_TABLES ∧ has_char NUL pk = false
  | ScanRange t pk lo hi _ =>
      t ∈ ALL_TABLES ∧ has_char NUL pk = false ∧ from_option (str_le lo) True hi
  | DeleteBatch t keys => t ∈ ALL_TABLES ∧ Forall (λ x, key_ok x.1 x.2) keys
  | PutBatch t entries => t ∈ ALL_TABLES ∧ Forall (λ x, key_ok x.1.1 x.1.2) entries
  end.

#[export] Instance op_ok_dec o : Decision (op_ok o).
Proof.
  destruct o; simpl; unfold key_ok; try destruct expected_version; try destruct sk_end; simpl; apply _.
Defined.

(** ** Facts on partitions *)

Lemma elem_of_part m t pk sk v : (sk, v) ∈ part m t pk ↔ m !! (t, pk, sk) = Some v.
Proof.
  unfold part. rewrite merge_sort_Permutation, list_elem_of_omap. split.
  - intros ([[[t' p'] sk'] v'] & Hin & Hd). case_decide as Ht; [|done].
    destruct Ht; simplify_eq. by apply elem_of_map_to_list.
  - intros Hm%elem_of_map_to_list. exists ((t, pk, sk), v). by rewrite decide_True.
Qed.

Lemma NoDup_omap_fst (l : list (string * string * string * (bytes * Z))) t pk :
  NoDup l.*1 →
  NoDup (omap (λ '((t', p, sk), v), if decide (t' = t ∧ p = pk) then Some (sk, v) else None) l).*1.
Proof.
  induction l as [|[[[t' p'] sk'] v'] l IH]; simpl; [constructor|].
  intros [Hn Hl]%NoDup_cons. case_decide as Hd; [|by apply IH]. destruct Hd as [-> ->].
  simpl. constructor; [|by apply IH]. intros Hin. apply Hn.
  apply list_elem_of_fmap in Hin as ([sk v] & -> & Hin). simpl in *.
  apply list_elem_of_omap in Hin as ([[[t2 p2] sk2] v2] & Hin & Hd).
  case_decide as Ht; [|done]. destruct Ht; simplify_eq.
  apply list_elem_of_fmap. by exists (t, pk, sk, v).
Qed.

Definition sk_lt {A : Type} (x y : string * A) : Prop := str_lt x.1 y.1.

#[export] Instance sk_lt_irrefl {A} : Irreflexive (@sk_lt A).
Proof. intros x H. by apply str_lt_irrefl in H. Qed.
#[export] Instance sk_lt_trans {A} : Transitive (@sk_lt A).
Proof. intros x y z. unfold sk_lt. apply transitivity. Qed.

Lemma sorted_le_lt {A} (l : list (string * A)) :
  NoDup l.*1 → StronglySorted sk_le l → StronglySorted sk_lt l.
Proof.
  induction 2 as [|x l Hs IH Hx]; [constructor|].
  apply NoDup_cons in H as [Hn Hl]. constructor; [by apply IH|].
  rewrite Forall_forall in Hx |- *. intros y Hy. specialize (Hx y Hy).
  unfold sk_le, sk_lt in *. apply str_le_lt_eq in Hx as [?|Heq]; [done|].
  destruct Hn. rewrite Heq. by apply list_elem_of_fmap_2.
Qed.

Lemma part_sorted m t pk : StronglySorted sk_lt (part m t pk).
Proof.
  apply sorted_le_lt.
  - unfold part. rewrite merge_sort_Permutation. apply NoDup_omap_fst, NoDup_fst_map_to_list.
  - unfold part. apply Sorted_StronglySorted; [apply _|]. apply Sorted_merge_sort. apply _.
Qed.

(** A partition is determined by its entries. *)
Lemma part_unique m t pk l :
  StronglySorted sk_lt l → (∀ sk v, (sk, v) ∈ l ↔ m !! (t, pk, sk) = Some v) → l = part m t pk.
Proof.
  intros Hl Hin. apply (StronglySorted_ext sk_lt); [apply _|apply _|done|apply part_sorted|].
  intros [sk v]. by rewrite Hin, elem_of_part.
Qed.

Lemma part_ext m m' t pk :
  (∀ sk, m !! (t, pk, sk) = m' !! (t, pk, sk)) → part m t pk = part m' t pk.
Proof.
  intros Hm. apply part_unique; [apply part_sorted|]. intros. by rewrite elem_of_part, Hm.
Qed.

(** ** Locality

    An operation on one partition reads and writes that partition only. *)

Definition op_pk (o : kv_op) : option string :=
  match o with
  | Get _ pk _ | GetVersioned _ pk _ | Put _ pk _ _ | PutIfVersion _ pk _ _ _
  | PutIfAbsent _ pk _ _ | Delete _ pk _ | DeleteIfVersion _ pk _ _ | DeleteReturning _ pk _
  | ScanPrefix _ pk _ _ | ScanRange _ pk _ _ _ | GetConsistent _ pk _ => Some pk
  | DeleteBatch _ _ | PutBatch _ _ => None
  end.

(** The two maps agree on the keys whose partition key satisfies [P]. *)
Definition agree (P : string → Prop) (m m' : kvmap) : Prop :=
  ∀ t pk sk, P pk → m !! (t, pk, sk) = m' !! (t, pk, sk).

Lemma agree_refl P m : agree P m m.
Proof. done. Qed.

Lemma agree_trans P m1 m2 m3 : agree P m1 m2 → agree P m2 m3 → agree P m1 m3.
Proof. intros H1 H2 t pk sk HP. by rewrite H1, H2. Qed.

Lemma agree_insert (P : string → Prop) k x m m' :
  agree P m m' → agree P (<[k := x]> m) (<[k := x]> m').
Proof.
  intros H t pk sk HP. destruct (decide (k = (t, pk, sk))) as [->|].
  - by rewrite !lookup_insert_eq.
  - rewrite !lookup_insert_ne by done. auto.
Qed.

Lemma agree_delete (P : string → Prop) k m m' : agree P m m' → agree P (delete k m) (delete k m').
Proof.
  intros H t pk sk HP. destruct (decide (k = (t, pk, sk))) as [->|].
  - by rewrite !lookup_delete_eq.
  - rewrite !lookup_delete_ne by done. auto.
Qed.

Lemma agree_insert_out (P : string → Prop) k x m : ¬ P k.1.2 → agree P (<[k := x]> m) m.
Proof. intros Hk t pk sk HP. apply lookup_insert_ne. by intros ->. Qed.

Lemma agree_delete_out (P : string → Prop) k m : ¬ P k.1.2 → agree P (delete k m) m.
Proof. intros Hk t pk sk HP. apply lookup_delete_ne. by intros ->. Qed.

Lemma agree_part (P : string → Prop) m m' t pk : agree P m m' → P pk → part m t pk = part m' t pk.
Proof. intros H HP. apply part_ext. auto. Qed.

(** The answer and the effect on the partitions of [P] depend on these
    partitions only, and others are left alone. *)
Lemma spec_store_local (P : string → Prop) o pk m m' :
  op_pk o = Some pk → P pk → agree P m m' →
  (spec_store o m).1 = (spec_store o m').1 ∧ agree P (spec_store o m).2 (spec_store o m').2.
Proof.
  intros Hop HP Ha. destruct o; simplify_eq/=;
    try (rewrite (Ha _ _ _ HP)); try (rewrite (agree_part _ _ _ _ _ Ha HP)); try done.
  - split; [done|]. unfold spec_put. rewrite (Ha _ _ _ HP). by apply agree_insert.
  - unfold spec_put_if_version. rewrite (Ha _ _ _ HP). case_decide; [|done].
    split; [done|]. by apply agree_insert.
  - unfold spec_put_if_version. rewrite (Ha _ _ _ HP). case_decide; [|done].
    split; [done|]. by apply agree_insert.
  - split; [done|]. by apply agree_delete.
  - case_decide; [|done]. split; [done|]. by apply agree_delete.
  - split; [done|]. by apply agree_delete.
Qed.

Lemma spec_store_frame (P : string → Prop) o pk m :
  op_pk o = Some pk → ¬ P pk → agree P (spec_store o m).2 m.
Proof.
  intros Hop HP. destruct o; simplify_eq/=; try done;
    unfold spec_put, spec_put_if_version; try case_decide; simpl;
    first [by apply agree_insert_out|by apply agree_delete_out|apply agree_refl].
Qed.

(** ** Batches of deletes and puts, one element at a time *)

Fixpoint delete_bools (t : string) (keys : list (string * string)) (m : kvmap) : list bool :=
  match keys with
  | [] => []
  | (pk, sk) :: keys =>
      bool_decide (is_Some (m !! (t, pk, sk))) :: delete_bools t keys (delete (t, pk, sk) m)
  end.

Lemma spec_delete_batch_acc t keys acc m :
  foldl (λ '(bs, m) '(pk, sk),
    (bs ++ [bool_decide (is_Some (m !! (t, pk, sk)))], delete (t, pk, sk) m)) (acc, m) keys =
  (acc ++ delete_bools t keys m, foldl (λ m '(pk, sk), delete (t, pk, sk) m) m keys).
Proof.
  revert acc m. induction keys as [|[pk sk] keys IH]; intros; simpl; [by rewrite app_nil_r|].
  by rewrite IH, <-app_assoc.
Qed.

Lemma spec_delete_batch_eq t keys m :
  spec_delete_batch t keys m =
    (delete_bools t keys m, foldl (λ m '(pk, sk), delete (t, pk, sk) m) m keys).
Proof. apply spec_delete_batch_acc. Qed.

Lemma delete_bools_length t keys m : length (delete_bools t keys m) = length keys.
Proof. revert m. induction keys as [|[pk sk] keys IH]; intros; simpl; auto. Qed.

Lemma delete_all_lookup (t : string) (keys : list (string * string)) (m : kvmap) (t' pk sk : string) :
  foldl (λ m '(pk, sk), delete (t, pk, sk) m) m keys !! (t', pk, sk) =
    if decide (t' = t ∧ (pk, sk) ∈ keys) then None else m !! (t', pk, sk).
Proof.
  revert m. induction keys as [|[pk0 sk0] keys IH]; intros m; simpl.
  { rewrite decide_False; [done|]. intros [_ H]. by apply elem_of_nil in H. }
  rewrite IH. case_decide as Hd.
  - rewrite decide_True; [done|]. destruct Hd. split; [done|by right].
  - destruct (decide ((t, pk0, sk0) = (t', pk, sk))) as [Heq|Hne].
    + simplify_eq. rewrite lookup_delete_eq, decide_True; [done|]. split; [done|left].
    + rewrite lookup_delete_ne by done. rewrite decide_False; [done|].
      intros [-> Hin]. apply elem_of_cons in Hin as [?|?]; [simplify_eq|]; tauto.
Qed.

(** ** Versions *)

(** The operations that may remove a key, and how often an operation may
    write one. *)
Definition removes (k : string * string * string) (o : kv_op) : Prop :=
  match o with
  | Delete t pk sk | DeleteReturning t pk sk | DeleteIfVersion t pk sk _ => (t, pk, sk) = k
  | DeleteBatch t keys => k.1.1 = t ∧ (k.1.2, k.2) ∈ keys
  | _ => False
  end.

Definition writes (k : string * string * string) (o : kv_op) : nat :=
  match o with
  | Put t pk sk _ | PutIfVersion t pk sk _ _ | PutIfAbsent t pk sk _ =>
      if decide ((t, pk, sk) = k) then 1 else 0
  | PutBatch t entries => length (filter (λ x, (t, x.1.1, x.1.2) = k) entries)
  | _ => 0
  end.

(** The store after a sequence of operations, of any clients. *)
Definition run_ops (ops : list kv_op) (m : kvmap) : kvmap := foldl (λ m o, (spec_store o m).2) m ops.

(** From one state to a later one, the version grows with each write, and a
    version that is the same means a value that is. *)
Definition version_step (k : string * string * string) (n : nat) (m m' : kvmap) : Prop :=
  (version_of (m !! k) ≤ version_of (m' !! k) ≤ version_of (m !! k) + Z.of_nat n)%Z ∧
  (version_of (m' !! k) = version_of (m !! k) → m' !! k = m !! k).

Lemma version_step_same (k : string * string * string) (n : nat) (m m' : kvmap) : m' !! k = m !! k → version_step k n m m'.
Proof. intros Hk. unfold version_step. rewrite Hk. split; [lia|done]. Qed.

Lemma version_step_trans (k : string * string * string) (n1 n2 : nat) (m1 m2 m3 : kvmap) :
  version_step k n1 m1 m2 → version_step k n2 m2 m3 → version_step k (n1 + n2) m1 m3.
Proof.
  intros [Hb1 He1] [Hb2 He2]. split; [lia|]. intros Heq. rewrite He2, He1; [done|lia|lia].
Qed.

Lemma version_step_put (k : string * string * string) (v : bytes) (m : kvmap) :
  (0 ≤ version_of (m !! k) < 2 ^ 64 - 1)%Z → version_step k 1 m (spec_put k v m).
Proof.
  intros Hv. unfold version_step, spec_put. rewrite lookup_insert_eq.
  assert (∀ z, version_of (Some (v, z)) = z) as -> by done.
  unfold u64_add. rewrite u64_wrap_id by (unfold u64_ok; lia). split; [lia|]. intros. lia.
Qed.

Lemma version_step_put_batch (t : string) (entries : list (string * string * bytes)) (k : string * string * string) (m : kvmap) :
  let n := length (filter (λ x, (t, x.1.1, x.1.2) = k) entries) in
  (0 ≤ version_of (m !! k) ∧ version_of (m !! k) + Z.of_nat n < 2 ^ 64)%Z →
  version_step k n m (spec_put_batch t entries m).
Proof.
  intros n. subst n. revert m. induction entries as [|[ [pk sk] v] entries IH]; intros m Hv.
  { by apply version_step_same. }
  rewrite filter_cons in Hv |- *. cbn [fst snd] in Hv |- *.
  change (spec_put_batch t ((pk, sk, v) :: entries) m)
    with (spec_put_batch t entries (spec_put (t, pk, sk) v m)).
  case_decide as Hk.
  - subst k. cbn [length] in Hv |- *.
    assert (version_step (t, pk, sk) 1 m (spec_put (t, pk, sk) v m)) as Hs by (apply version_step_put; lia).
    apply (version_step_trans _ 1 _ _ _ _ Hs). apply IH. destruct Hs as [Hb _]. lia.
  - assert (spec_put (t, pk, sk) v m !! k = m !! k) as Hsame by by apply lookup_insert_ne.
    rewrite <-Hsame in Hv. pose proof (IH _ Hv) as Hs.
    apply (version_step_trans _ 0 _ m (spec_put (t, pk, sk) v m)); [by apply version_step_same|exact Hs].
Qed.

Lemma version_step_op (k : string * string * string) (o : kv_op) (m : kvmap) :
  ¬ removes k o → (0 ≤ version_of (m !! k) ∧ version_of (m !! k) + Z.of_nat (writes k o) < 2 ^ 64)%Z →
  version_step k (writes k o) m (spec_store o m).2.
Proof.
  intros Hr Hv. destruct o; simpl in *; try by apply version_step_same.
  - case_decide as Hk; [subst k; apply version_step_put; lia|].
    apply version_step_same. by apply lookup_insert_ne.
  - unfold spec_put_if_version.
    destruct (decide (expected_version = snd <$> m !! (table, pk, sk))) as [He|]; [|by apply version_step_same].
    cbn [snd]. case_decide as Hk; [|apply version_step_same; by apply lookup_insert_ne].
    subst k. rewrite He. apply version_step_put. lia.
  - unfold spec_put_if_version.
    destruct (decide (None = snd <$> m !! (table, pk, sk))) as [He|]; [|by apply version_step_same].
    cbn [snd]. case_decide as Hk; [|apply version_step_same; by apply lookup_insert_ne].
    subst k. pose proof (version_step_put (table, pk, sk) value m) as Hp. unfold spec_put, version_of in Hp.
    rewrite <-He in Hp. apply Hp. unfold version_of in Hv. rewrite <-He in Hv. lia.
  - apply version_step_same. by apply lookup_delete_ne.
  - case_decide; [|by apply version_step_same]. apply version_step_same. by apply lookup_delete_ne.
  - apply version_step_same. by apply lookup_delete_ne.
  - apply version_step_same. rewrite spec_delete_batch_eq. simpl.
    destruct k as [ [t pk] sk]. rewrite delete_all_lookup. by rewrite decide_False.
  - by apply version_step_put_batch.
Qed.

Lemma version_step_ops (k : string * string * string) (ops : list kv_op) (m : kvmap) :
  Forall (λ o, ¬ removes k o) ops →
  (0 ≤ version_of (m !! k) ∧ version_of (m !! k) + Z.of_nat (sum_list_with (writes k) ops) < 2 ^ 64)%Z →
  version_step k (sum_list_with (writes k) ops) m (run_ops ops m).
Proof.
  intros Hr. revert m. induction Hr as [|o ops Ho Hr IH]; intros m Hv; [by apply version_step_same|].
  cbn [sum_list_with] in Hv |- *.
  assert (version_step k (writes k o) m (spec_store o m).2) as Hs by (apply version_step_op; [done|lia]).
  apply (version_step_trans _ _ _ _ _ _ Hs). apply IH. destruct Hs as [Hb _]. lia.
Qed.

(** ** Properties *)

(** Optimistic concurrency detects every change but a deletion.  After a
    client has read a key, let any other clients perform any operations that
    do not remove the key (and fewer than wrap the version): if the client's
    conditional write under the version it read succeeds, the key still had
    the value it read, so no update is lost. *)
Theorem conditional_write_detects_change (k : string * string * string) (b : bytes) (v : Z) (x : bytes) (ops : list kv_op) (m : kvmap) :
  m !! k = Some (b, v) → Forall (λ o, ¬ removes k o) ops →
  (0 ≤ v ∧ v + Z.of_nat (sum_list_with (writes k) ops) < 2 ^ 64)%Z →
  (spec_store (PutIfVersion k.1.1 k.1.2 k.2 x (Some v)) (run_ops ops m)).1 = Ok true →
  run_ops ops m !! k = Some (b, v).
Proof.
  destruct k as [ [t pk] sk]. intros Hm Hr Hv. simpl. unfold spec_put_if_version.
  case_decide as He; [|done]. intros _.
  destruct (version_step_ops (t, pk, sk) ops m Hr) as [_ Hsame]; [by rewrite Hm|].
  rewrite <-Hm. apply Hsame. rewrite Hm. simpl.
  destruct (run_ops ops m !! (t, pk, sk)) as [ [b' v']|]; simplify_eq/=. done.
Qed.

Lemma conditional_write_detects_change_witness :
  let k := (TABLE_TASKS, SINGLE_PK, "t") in
  let m := {[k := ("running", 1%Z)]} in
  (spec_store (PutIfVersion TABLE_TASKS SINGLE_PK "t" "stale" (Some 1%Z))
    (run_ops [Put TABLE_TASKS SINGLE_PK "u" "other"] m)).1 = Ok true ∧
  run_ops [Put TABLE_TASKS SINGLE_PK "u" "other"] m !! k = Some ("running", 1%Z).
Proof.
  intros k m. split; [vm_compute; reflexivity|].
  apply (conditional_write_detects_change k "running" 1 "stale" [Put TABLE_TASKS SINGLE_PK "u" "other"] m).
  - reflexivity.
  - repeat constructor. intros [].
  - vm_compute. split; [discriminate|reflexivity].
  - vm_compute. reflexivity.
Defined.

(** Versions restart after a deletion: a key that is deleted and written
    again has version 1 like a key written for the first time, so that a
    conditional write under a version read before the deletion succeeds and
    overwrites the new value. *)
Theorem version_reused_after_delete (t pk sk : string) (b b2 x : bytes) (m : kvmap) :
  m !! (t, pk, sk) = Some (b, 1%Z) →
  let m' := run_ops [Delete t pk sk; Put t pk sk b2] m in
  m' !! (t, pk, sk) = Some (b2, 1%Z) ∧
  (spec_store (PutIfVersion t pk sk x (Some 1%Z)) m').1 = Ok true.
Proof.
  intros Hm m'. assert (m' !! (t, pk, sk) = Some (b2, 1%Z)) as Hm'.
  { subst m'. simpl. unfold spec_put. by rewrite lookup_delete_eq, lookup_insert_eq. }
  split; [done|]. simpl. unfold spec_put_if_version. by rewrite Hm', decide_True.
Qed.

Lemma version_reused_after_delete_witness :
  (spec_store (PutIfVersion "t" "p" "s" "old" (Some 1%Z))
    (run_ops [Delete "t" "p" "s"; Put "t" "p" "s" "new"] {[("t", "p", "s") := ("old", 1%Z)]})).1 = Ok true.
Proof.
  refine (proj2 (version_reused_after_delete "t" "p" "s" "old" "new" "old"
    {[("t", "p", "s") := ("old", 1%Z)]} _)).
  vm_compute. reflexivity.
Defined.
