(* ===== verification/Redb.v ===== *)
(** * The redb backend (kv/redb/src/redb_kv.rs)

    One redb file: flat keys (partition key, NUL, sort key), values in an
    envelope that carries the version, a writer task that runs batches of
    write operations in one transaction, and range scans.  The [redb] crate is
    a parameter ([RedbCrate]) with the documented behaviour of an ordered
    transactional table store as laws; every call of it may fail, and the
    model follows the code on each failure. *)

From S2P Require Import Prelude Bytes Errors Keys Kv.

(** ** The redb crate *)

(** Tables of a database: by name, then by key. *)
Abbreviation tables := (gmap string (gmap bytes bytes)).

(** The entries of a table in a half-open key range, in key order. *)
Definition table_range (m : gmap bytes bytes) (lo : bytes) (hi : option bytes) :
    list (bytes * bytes) :=
  filter (λ x, in_range lo hi x.1) (merge_sort sk_le (map_to_list m)).

Definition table_of (ts : tables) (t : string) : gmap bytes bytes := default ∅ (ts !! t).

(** The operations of the crate the code calls.  A failed call returns the
    text of its error.  [db_tables], [w_tables] and [r_tables] are ghost
    views used by the laws only. *)
Class RedbCrate := {
  Database : Type;
  WriteTxn : Type;
  ReadTxn : Type;
  db_create : string → nat → string + Database;
  db_upgrade : Database → (string + bool) * Database;
  begin_write : Database → string + WriteTxn;
  w_open : WriteTxn → string → (string + unit) * WriteTxn;
  w_get : WriteTxn → string → bytes → string + option bytes;
  w_insert : WriteTxn → string → bytes → bytes → (string + unit) * WriteTxn;
  w_remove : WriteTxn → string → bytes → (string + option bytes) * WriteTxn;
  commit : Database → WriteTxn → (string + unit) * Database;
  begin_read : Database → string + ReadTxn;
  r_open : ReadTxn → string → string + unit;
  r_get : ReadTxn → string → bytes → string + option bytes;
  r_range : ReadTxn → string → bytes → option bytes → string + list (string + bytes * bytes);
  db_compact : Database → string + (string + bool) * Database;

  db_tables : Database → tables;
  w_tables : WriteTxn → tables;
  r_tables : ReadTxn → tables;

  db_upgrade_law : ∀ db, db_tables (db_upgrade db).2 = db_tables db;
  begin_write_law : ∀ db w, begin_write db = inr w → w_tables w = db_tables db;
  w_open_law : ∀ w t u, (w_open w t).1 = inr u →
    w_tables (w_open w t).2 = <[t := table_of (w_tables w) t]> (w_tables w);
  w_get_law : ∀ w t k o, w_get w t k = inr o → o = table_of (w_tables w) t !! k;
  w_insert_law : ∀ w t k v u, (w_insert w t k v).1 = inr u →
    w_tables (w_insert w t k v).2 = <[t := <[k := v]> (table_of (w_tables w) t)]> (w_tables w);
  w_remove_law : ∀ w t k o, (w_remove w t k).1 = inr o →
    o = table_of (w_tables w) t !! k ∧
    w_tables (w_remove w t k).2 = <[t := delete k (table_of (w_tables w) t)]> (w_tables w);
  commit_law : ∀ db w u, (commit db w).1 = inr u → db_tables (commit db w).2 = w_tables w;
  commit_abort_law : ∀ db w e, (commit db w).1 = inl e → db_tables (commit db w).2 = db_tables db;
  begin_read_law : ∀ db r, begin_read db = inr r → r_tables r = db_tables db;
  r_get_law : ∀ r t k o, r_get r t k = inr o → o = table_of (r_tables r) t !! k;
  r_range_law : ∀ r t lo hi l,
    match hi with Some e => str_le lo e | None => True end →
    r_range r t lo hi = inr l → ∀ xs, l = inr <$> xs → xs = table_range (table_of (r_tables r) t) lo hi;
  db_compact_law : ∀ db c db', db_compact db = inr (c, db') → db_tables db' = db_tables db;
}.

(** No call fails: the machine has disk space and the file is readable. *)
Class RedbFaultless (C : RedbCrate) : Prop := {
  begin_write_ok : ∀ db, ∃ x, (begin_write db) = inr x;
  w_open_ok : ∀ w t, (w_open w t).1 = inr tt;
  w_get_ok : ∀ w t k, t ∈ dom (w_tables w) → ∃ x, (w_get w t k) = inr x;
  w_insert_ok : ∀ w t k v, t ∈ dom (w_tables w) → (w_insert w t k v).1 = inr tt;
  w_remove_ok : ∀ w t k, t ∈ dom (w_tables w) → ∃ x, (w_remove w t k).1 = inr x;
  commit_ok : ∀ db w, (commit db w).1 = inr tt;
  begin_read_ok : ∀ db, ∃ x, (begin_read db) = inr x;
  r_open_ok : ∀ r t, t ∈ dom (r_tables r) → r_open r t = inr tt;
  r_get_ok : ∀ r t k, t ∈ dom (r_tables r) → ∃ x, (r_get r t k) = inr x;
  r_range_ok : ∀ r t lo hi, t ∈ dom (r_tables r) →
    match hi with Some e => str_le lo e | None => True end →
    ∃ xs, r_range r t lo hi = inr (inr <$> xs);
}.

(** ** Envelopes *)

(** kv/redb/src/redb_kv.rs:16-16 *)
Definition BATCH_CAP : nat := 64.
(** kv/redb/src/redb_kv.rs:19-19 *)
Definition ENVELOPE_V1 : ascii := "001"%char.
(** kv/redb/src/redb_kv.rs:21-21 *)
Definition ENVELOPE_HEADER_SIZE : nat := 9.

(** kv/redb/src/redb_kv.rs:535-542 *)
Definition wrap_envelope (version : Z) (payload : bytes) : bytes :=
  String ENVELOPE_V1 (to_le_bytes 8 version +:+ payload).

(** kv/redb/src/redb_kv.rs:546-557 *)
Definition unwrap_envelope (raw : bytes) : bytes * Z :=
  if decide (ENVELOPE_HEADER_SIZE ≤ String.length raw ∧ String.get 0 raw = Some ENVELOPE_V1)
  then (str_drop ENVELOPE_HEADER_SIZE raw, from_le_bytes (str_take 8 (str_drop 1 raw)))
  else (raw, 0%Z).

(** kv/redb/src/redb_kv.rs:560-562 *)
Definition read_version (raw : bytes) : Z := (unwrap_envelope raw).2.

(** ** Flat keys *)

(** kv/redb/src/redb_kv.rs:507-513 *)
Definition flat_key (pk sk : string) : bytes := pk +:+ String NUL sk.

(** kv/redb/src/redb_kv.rs:516-521 *)
Definition partition_prefix (pk : string) : bytes := pk +:+ singleton_str NUL.

(** kv/redb/src/redb_kv.rs:526-529 *)
Definition extract_sk (flat : bytes) (prefix_len : nat) : string :=
  default "" (from_utf8 (str_drop prefix_len flat)).

(** ** Write operations *)

(** The reply channel of each operation is its position in the batch. *)
(** kv/redb/src/redb_kv.rs:27-67 *)
Inductive WriteOp : Type :=
| WPut (table : string) (key value : bytes)
| WPutIfVersion (table : string) (key value : bytes) (expected_version : option Z)
| WDelete (table : string) (key : bytes)
| WDeleteReturning (table : string) (key : bytes)
| WDeleteIfVersion (table : string) (key : bytes) (expected_version : Z)
| WDeleteBatch (table : string) (keys : list bytes)
| WPutBatch (table : string) (entries : list (bytes * bytes)).

(** kv/redb/src/redb_kv.rs:451-456 *)
Inductive OpResult : Type :=
| OUnit (r : string + unit)
| OBool (r : string + bool)
| OBools (r : string + list bool)
| OOptBytes (r : string + option bytes).

(** What a caller receives. *)
Inductive Reply : Type :=
| RUnit (r : result unit)
| RBool (r : result bool)
| RBools (r : result (list bool))
| ROptBytes (r : result (option bytes)).

(** kv/redb/src/redb_kv.rs:458-460 *)
Definition storage_err (msg : string) : DepotError := Storage msg Permanent.

(** kv/redb/src/redb_kv.rs:466-471 *)
Definition db_missing : DepotError :=
  Storage "redb database unavailable (compaction in progress)" Transient.

(** [r.map_err(storage_err)]. *)
Definition map_err {A : Type} (f : string → DepotError) (r : string + A) : result A :=
  match r with inl e => Err (f e) | inr a => Ok a end.

(** kv/redb/src/redb_kv.rs:473-499 *)
Definition send_errors (batch : list WriteOp) (err_msg : string) : list (option Reply) :=
  (λ op, Some match op with
    | WPut _ _ _ | WPutBatch _ _ => RUnit (Err (storage_err err_msg))
    | WPutIfVersion _ _ _ _ | WDelete _ _ | WDeleteIfVersion _ _ _ =>
        RBool (Err (storage_err err_msg))
    | WDeleteReturning _ _ => ROptBytes (Err (storage_err err_msg))
    | WDeleteBatch _ _ => RBools (Err (storage_err err_msg))
    end) <$> batch.

Section redb.
Context {C : RedbCrate}.

(** [insert] as the arms use it: its result and the transaction after. *)
Definition insert_unit (w : WriteTxn) (t : string) (k v : bytes) : OpResult * WriteTxn :=
  match w_insert w t k v with
  | (inr _, w) => (OUnit (inr tt), w)
  | (inl e, w) => (OUnit (inl e), w)
  end.

(** kv/redb/src/redb_kv.rs:265-284 *)
Definition exec_put (w : WriteTxn) (t : string) (key value : bytes) : OpResult * WriteTxn :=
  match w_get w t key with
  | inl e => (OUnit (inl e), w)
  | inr o =>
      let current_version := match o with Some v => read_version v | None => 0%Z end in
      insert_unit w t key (wrap_envelope (u64_add current_version 1) value)
  end.

(** kv/redb/src/redb_kv.rs:285-321 *)
Definition exec_put_if_version (w : WriteTxn) (t : string) (key value : bytes)
    (expected_version : option Z) : OpResult * WriteTxn :=
  match w_get w t key with
  | inl e => (OBool (inl e), w)
  | inr o =>
      let current_version := read_version <$> o in
      let ok := match expected_version, current_version with
                | None, None => true
                | None, Some _ => false
                | Some exp, Some act => bool_decide (exp = act)
                | Some _, None => false
                end in
      if ok then
        let new_version := u64_add (default 0%Z expected_version) 1 in
        match w_insert w t key (wrap_envelope new_version value) with
        | (inr _, w) => (OBool (inr true), w)
        | (inl e, w) => (OBool (inl e), w)
        end
      else (OBool (inr false), w)
  end.

(** kv/redb/src/redb_kv.rs:322-329 *)
Definition exec_delete (w : WriteTxn) (t : string) (key : bytes) : OpResult * WriteTxn :=
  match w_remove w t key with
  | (inr guard, w) => (OBool (inr (bool_decide (is_Some guard))), w)
  | (inl e, w) => (OBool (inl e), w)
  end.

(** kv/redb/src/redb_kv.rs:330-354 *)
Definition exec_delete_if_version (w : WriteTxn) (t : string) (key : bytes)
    (expected_version : Z) : OpResult * WriteTxn :=
  match w_get w t key with
  | inl e => (OBool (inl e), w)
  | inr o =>
      let current_version := read_version <$> o in
      if decide (current_version ≠ Some expected_version) then (OBool (inr false), w)
      else exec_delete w t key
  end.

(** kv/redb/src/redb_kv.rs:355-367 *)
Definition exec_delete_returning (w : WriteTxn) (t : string) (key : bytes) : OpResult * WriteTxn :=
  match w_remove w t key with
  | (inr (Some raw), w) => (OOptBytes (inr (Some (unwrap_envelope raw).1)), w)
  | (inr None, w) => (OOptBytes (inr None), w)
  | (inl e, w) => (OOptBytes (inl e), w)
  end.

(** The loop over the keys; [existed] is the vector built so far. *)
(** kv/redb/src/redb_kv.rs:370-384 *)
Fixpoint exec_delete_batch (w : WriteTxn) (t : string) (keys : list bytes) (existed : list bool) :
    OpResult * WriteTxn :=
  match keys with
  | [] => (OBools (inr existed), w)
  | key :: keys =>
      match w_remove w t key with
      | (inr guard, w) => exec_delete_batch w t keys (existed ++ [bool_decide (is_Some guard)])
      | (inl e, w) => (OBools (inl e), w)
      end
  end.

(** kv/redb/src/redb_kv.rs:388-408 *)
Fixpoint exec_put_batch (w : WriteTxn) (t : string) (entries : list (bytes * bytes)) :
    OpResult * WriteTxn :=
  match entries with
  | [] => (OUnit (inr tt), w)
  | (key, value) :: entries =>
      match w_get w t key with
      | inl e => (OUnit (inl e), w)
      | inr o =>
          let current_version := match o with Some v => read_version v | None => 0%Z end in
          match w_insert w t key (wrap_envelope (u64_add current_version 1) value) with
          | (inl e, w) => (OUnit (inl e), w)
          | (inr _, w) => exec_put_batch w t entries
          end
      end
  end.

(** One arm of the loop, the macro [open_table!] first. *)
(** kv/redb/src/redb_kv.rs:251-411 *)
Definition exec_op (w : WriteTxn) (op : WriteOp) : OpResult * WriteTxn :=
  let open_table (t : string) (err : string → OpResult) (k : WriteTxn → OpResult * WriteTxn) :=
    match w_open w t with
    | (inr _, w) => k w
    | (inl e, w) => (err e, w)
    end in
  match op with
  | WPut t key value => open_table t (λ e, OUnit (inl e)) (λ w, exec_put w t key value)
  | WPutIfVersion t key value ev =>
      open_table t (λ e, OBool (inl e)) (λ w, exec_put_if_version w t key value ev)
  | WDelete t key => open_table t (λ e, OBool (inl e)) (λ w, exec_delete w t key)
  | WDeleteIfVersion t key ev =>
      open_table t (λ e, OBool (inl e)) (λ w, exec_delete_if_version w t key ev)
  | WDeleteReturning t key =>
      open_table t (λ e, OOptBytes (inl e)) (λ w, exec_delete_returning w t key)
  | WDeleteBatch t keys => open_table t (λ e, OBools (inl e)) (λ w, exec_delete_batch w t keys [])
  | WPutBatch t entries => open_table t (λ e, OUnit (inl e)) (λ w, exec_put_batch w t entries)
  end.

(** kv/redb/src/redb_kv.rs:263-412 *)
Fixpoint exec_ops (w : WriteTxn) (batch : list WriteOp) : list OpResult * WriteTxn :=
  match batch with
  | [] => ([], w)
  | op :: batch =>
      let '(r, w) := exec_op w op in
      let '(rs, w) := exec_ops w batch in
      (r :: rs, w)
  end.

(** The reply to one operation; [None] is a mismatched pair, which is logged
    and not answered. *)
(** kv/redb/src/redb_kv.rs:421-448 *)
Definition send_result (op : WriteOp) (r : OpResult) : option Reply :=
  match op, r with
  | WPut _ _ _, OUnit r => Some (RUnit (map_err storage_err r))
  | WPutIfVersion _ _ _ _, OBool r => Some (RBool (map_err storage_err r))
  | WDelete _ _, OBool r => Some (RBool (map_err storage_err r))
  | WDeleteIfVersion _ _ _, OBool r => Some (RBool (map_err storage_err r))
  | WDeleteReturning _ _, OOptBytes r => Some (ROptBytes (map_err storage_err r))
  | WDeleteBatch _ _, OBools r => Some (RBools (map_err storage_err r))
  | WPutBatch _ _, OUnit r => Some (RUnit (map_err storage_err r))
  | _, _ => None
  end.

(** kv/redb/src/redb_kv.rs:236-449 *)
Definition execute_batch (db : Database) (batch : list WriteOp) : list (option Reply) * Database :=
  match begin_write db with
  | inl e => (send_errors batch e, db)
  | inr txn =>
      let '(results, txn) := exec_ops txn batch in
      match commit db txn with
      | (inl e, db) => (send_errors batch e, db)
      | (inr _, db) => (zip_with send_result batch results, db)
      end
  end.

(** The writer task on the operations queued in its channel: the first
    operation and what else is there, up to [BATCH_CAP], in one transaction,
    until the channel is empty.  Each round takes at least one operation, so
    the length of the queue is enough fuel. *)
(** kv/redb/src/redb_kv.rs:209-233 *)
Fixpoint writer_task (fuel : nat) (db : Database) (rx : list WriteOp) :
    list (option Reply) * Database :=
  match fuel, rx with
  | S fuel, first :: rx =>
      let batch := first :: take (BATCH_CAP - 1) rx in
      let '(replies, db) := execute_batch db batch in
      let '(rest, db) := writer_task fuel db (drop (BATCH_CAP - 1) rx) in
      (replies ++ rest, db)
  | _, _ => ([], db)
  end.

(** ** The store *)

(** [db] is [Inner::db]; [writer_open] says that [write_tx] holds a sender
    whose writer task is alive. *)
(** kv/redb/src/redb_kv.rs:69-88 *)
Record RedbKvStore : Type := mkRedbKvStore {
  db : option Database;
  writer_open : bool;
}.

(** Opens every known table in one transaction. *)
(** kv/redb/src/redb_kv.rs:137-143 *)
Fixpoint open_tables (w : WriteTxn) (names : list string) : result WriteTxn :=
  match names with
  | [] => Ok w
  | name :: names =>
      match w_open w name with
      | (inr _, w) => open_tables w names
      | (inl e, _) => Err (storage_permanent e)
      end
  end.

(** kv/redb/src/redb_kv.rs:110-160 *)
Definition open_with_cache (path : string) (cache_bytes : nat) : result RedbKvStore :=
  let? db := map_err storage_permanent (db_create path cache_bytes) in
  match db_upgrade db with
  | (inl e, _) => Err (storage_permanent e)
  | (inr _, db) =>
      let? txn := map_err storage_permanent (begin_write db) in
      let? txn := open_tables txn ALL_TABLES in
      match commit db txn with
      | (inl e, _) => Err (storage_permanent e)
      | (inr _, db) => Ok (mkRedbKvStore (Some db) true)
      end
  end.

(** kv/redb/src/redb_kv.rs:106-108 *)
Definition open_ (path : string) : result RedbKvStore := open_with_cache path 0.

(** kv/redb/src/redb_kv.rs:165-173 *)
Definition close (s : RedbKvStore) : RedbKvStore := mkRedbKvStore (db s) false.

(** The reply to the one operation of a caller that waits for it: the writer
    task runs it, alone in its batch when no other caller is waiting.  A
    missing reply or database is the dropped end of the channel. *)
(** kv/redb/src/redb_kv.rs:182-198 *)
Definition send_write {A : Type} (op : WriteOp) (sel : Reply → option (result A))
    (s : RedbKvStore) : result A * RedbKvStore :=
  if writer_open s then
    match db s with
    | Some d =>
        let '(replies, d) := writer_task 1 d [op] in
        (match replies with
         | Some r :: _ => default (Err (storage_err "writer dropped")) (sel r)
         | _ => Err (storage_err "writer dropped")
         end, mkRedbKvStore (Some d) true)
    | None => (Err (storage_err "writer dropped"), s)
    end
  else (Err (Storage "redb writer channel full or closed" Permanent), s).

Definition sel_unit (r : Reply) : option (result unit) :=
  match r with RUnit r => Some r | _ => None end.
Definition sel_bool (r : Reply) : option (result bool) :=
  match r with RBool r => Some r | _ => None end.
Definition sel_bools (r : Reply) : option (result (list bool)) :=
  match r with RBools r => Some r | _ => None end.
Definition sel_opt_bytes (r : Reply) : option (result (option bytes)) :=
  match r with ROptBytes r => Some r | _ => None end.

(** The prologue of every read: a read transaction with the table open. *)
Definition with_table {A : Type} (s : RedbKvStore) (t : string) (k : ReadTxn → result A) : result A :=
  let? d := ok_or (db s) db_missing in
  let? txn := map_err storage_permanent (begin_read d) in
  let? _ := map_err storage_permanent (r_open txn t) in
  k txn.

(** kv/redb/src/redb_kv.rs:570-588 *)
Definition redb_get (t pk sk : string) (s : RedbKvStore) : result (option bytes) * RedbKvStore :=
  (let key := flat_key pk sk in
   with_table s t (λ txn,
     let? o := map_err storage_permanent (r_get txn t key) in
     Ok ((λ v, (unwrap_envelope v).1) <$> o)), s).

(** kv/redb/src/redb_kv.rs:590-611 *)
Definition redb_get_versioned (t pk sk : string) (s : RedbKvStore) :
    result (option (bytes * Z)) * RedbKvStore :=
  (let key := flat_key pk sk in
   with_table s t (λ txn,
     let? o := map_err storage_permanent (r_get txn t key) in
     Ok (unwrap_envelope <$> o)), s).

(** kv/redb/src/redb_kv.rs:613-630 *)
Definition redb_put (t pk sk : string) (value : bytes) : RedbKvStore → result unit * RedbKvStore :=
  send_write (WPut t (flat_key pk sk) value) sel_unit.

(** kv/redb/src/redb_kv.rs:632-651 *)
Definition redb_put_if_version (t pk sk : string) (value : bytes) (expected_version : option Z) :
    RedbKvStore → result bool * RedbKvStore :=
  send_write (WPutIfVersion t (flat_key pk sk) value expected_version) sel_bool.

(** kv/redb/src/redb_kv.rs:653-658 *)
Definition redb_delete (t pk sk : string) : RedbKvStore → result bool * RedbKvStore :=
  send_write (WDelete t (flat_key pk sk)) sel_bool.

(** kv/redb/src/redb_kv.rs:660-676 *)
Definition redb_delete_if_version (t pk sk : string) (expected_version : Z) :
    RedbKvStore → result bool * RedbKvStore :=
  send_write (WDeleteIfVersion t (flat_key pk sk) expected_version) sel_bool.

(** kv/redb/src/redb_kv.rs:678-688 *)
Definition redb_delete_returning (t pk sk : string) :
    RedbKvStore → result (option bytes) * RedbKvStore :=
  send_write (WDeleteReturning t (flat_key pk sk)) sel_opt_bytes.

(** kv/redb/src/redb_kv.rs:690-702 *)
Definition redb_delete_batch (t : string) (keys : list (string * string)) (s : RedbKvStore) :
    result (list bool) * RedbKvStore :=
  match keys with
  | [] => (Ok [], s)
  | _ => send_write (WDeleteBatch t ((λ '(pk, sk), flat_key pk sk) <$> keys)) sel_bools s
  end.

(** kv/redb/src/redb_kv.rs:704-719 *)
Definition redb_put_batch (t : string) (entries : list (string * string * bytes)) (s : RedbKvStore) :
    result unit * RedbKvStore :=
  match entries with
  | [] => (Ok tt, s)
  | _ => send_write (WPutBatch t ((λ '(pk, sk, v), (flat_key pk sk, v)) <$> entries)) sel_unit s
  end.

(** The loops over the range iterator; [results] is the vector built so far
    and [hit_limit] of the result is the negation of its [done] flag. *)
(** kv/redb/src/redb_kv.rs:750-767 *)
Fixpoint scan_prefix_loop (prefix : bytes) (part_prefix_len limit : nat)
    (range : list (string + bytes * bytes)) (results : list (string * bytes)) : result ScanResult :=
  match range with
  | [] => Ok (mkScanResult results true)
  | entry :: range =>
      if decide (limit ≤ length results) then Ok (mkScanResult results false)
      else match entry with
           | inl e => Err (storage_permanent e)
           | inr (flat, v) =>
               if negb (starts_with flat prefix) then Ok (mkScanResult results true)
               else scan_prefix_loop prefix part_prefix_len limit range
                      (results ++ [(extract_sk flat part_prefix_len, (unwrap_envelope v).1)])
           end
  end.

(** kv/redb/src/redb_kv.rs:802-815 *)
Fixpoint scan_range_loop (part_prefix_len limit : nat)
    (range : list (string + bytes * bytes)) (results : list (string * bytes)) : result ScanResult :=
  match range with
  | [] => Ok (mkScanResult results true)
  | entry :: range =>
      if decide (limit ≤ length results) then Ok (mkScanResult results false)
      else match entry with
           | inl e => Err (storage_permanent e)
           | inr (flat, v) =>
               scan_range_loop part_prefix_len limit range
                 (results ++ [(extract_sk flat part_prefix_len, (unwrap_envelope v).1)])
           end
  end.

(** kv/redb/src/redb_kv.rs:721-768 *)
Definition redb_scan_prefix (t pk sk_prefix : string) (limit : nat) (s : RedbKvStore) :
    result ScanResult * RedbKvStore :=
  (let prefix := partition_prefix pk +:+ sk_prefix in
   let part_prefix_len := String.length (partition_prefix pk) in
   with_table s t (λ txn,
     let? range := map_err storage_permanent (r_range txn t prefix (prefix_end prefix)) in
     scan_prefix_loop prefix part_prefix_len limit range []), s).

(** kv/redb/src/redb_kv.rs:770-816 *)
Definition redb_scan_range (t pk sk_start : string) (sk_end : option string) (limit : nat)
    (s : RedbKvStore) : result ScanResult * RedbKvStore :=
  (let start := flat_key pk sk_start in
   let part_prefix_len := String.length (partition_prefix pk) in
   let end_ := match sk_end with
               | Some end_str => Some (flat_key pk end_str)
               | None => prefix_end (partition_prefix pk)
               end in
   with_table s t (λ txn,
     let? range := map_err storage_permanent (r_range txn t start end_) in
     scan_range_loop part_prefix_len limit range []), s).

(** kv/redb/src/redb_kv.rs:818-820 *)
Definition redb_is_single_node : bool := true.

(** The write lock excludes readers and writers, so the transition is atomic.
    The writer task is stopped first and restarted at the end; an early
    return leaves the store closed and without a database. *)
(** kv/redb/src/redb_kv.rs:822-880 *)
Definition redb_compact (s : RedbKvStore) : result bool * RedbKvStore :=
  match db s with
  | None => (Err db_missing, mkRedbKvStore None false)
  | Some d =>
      match db_compact d with
      | inl e => (Err (storage_err ("compact task panicked: " +:+ e)), mkRedbKvStore None false)
      | inr (compact_res, d) =>
          let s := mkRedbKvStore (Some d) true in
          match compact_res with
          | inl e => (Err (Storage ("redb compact failed: " +:+ e) Transient), s)
          | inr compacted => (Ok compacted, s)
          end
      end
  end.

(** kv/redb/src/redb_kv.rs:569-816 *)
#[export] Instance redb_store : KvStore RedbKvStore := λ o,
  match o with
  | Get t pk sk => redb_get t pk sk
  | GetVersioned t pk sk => redb_get_versioned t pk sk
  | Put t pk sk v => redb_put t pk sk v
  | PutIfVersion t pk sk v e => redb_put_if_version t pk sk v e
  | PutIfAbsent t pk sk v => put_if_absent_default redb_put_if_version t pk sk v
  | Delete t pk sk => redb_delete t pk sk
  | DeleteIfVersion t pk sk e => redb_delete_if_version t pk sk e
  | DeleteReturning t pk sk => redb_delete_returning t pk sk
  | ScanPrefix t pk p limit => redb_scan_prefix t pk p limit
  | ScanRange t pk lo hi limit => redb_scan_range t pk lo hi limit
  | GetConsistent t pk sk => get_consistent_default redb_get t pk sk
  | DeleteBatch t keys => redb_delete_batch t keys
  | PutBatch t entries => redb_put_batch t entries
  end.
End redb.

(** ** Envelopes and flat keys: facts *)

Lemma unwrap_wrap_envelope v p : u64_ok v → unwrap_envelope (wrap_envelope v p) = (p, v).
Proof.
  intros Hv. unfold unwrap_envelope. rewrite decide_True.
  - f_equal. change (from_le_bytes (to_le_bytes 8 v) = v). by apply from_to_le_bytes.
  - split; [|done]. unfold wrap_envelope, ENVELOPE_HEADER_SIZE.
    cbn [String.length]. rewrite str_length_app, to_le_bytes_length. lia.
Qed.

Lemma flat_key_split pk sk : has_char NUL pk = false → split_once NUL (flat_key pk sk) = Some (pk, sk).
Proof. intros. by apply split_once_Some. Qed.

Lemma flat_key_inj pk sk pk' sk' : has_char NUL pk = false → has_char NUL pk' = false →
  flat_key pk sk = flat_key pk' sk' → pk = pk' ∧ sk = sk'.
Proof.
  intros H1 H2 Heq. pose proof (flat_key_split pk sk H1) as Hs.
  rewrite Heq, flat_key_split in Hs by done. by simplify_eq.
Qed.

Lemma flat_key_prefix pk sk : flat_key pk sk = partition_prefix pk +:+ sk.
Proof. unfold flat_key, partition_prefix. by rewrite str_app_assoc. Qed.

Lemma flat_key_lt pk s t : str_lt (flat_key pk s) (flat_key pk t) ↔ str_lt s t.
Proof. rewrite !flat_key_prefix. apply str_lt_app_same. Qed.

Lemma flat_key_le pk s t : str_le (flat_key pk s) (flat_key pk t) ↔ str_le s t.
Proof. rewrite !flat_key_prefix. apply str_le_app_same. Qed.

Lemma extract_flat_key pk sk : valid_utf8 sk = true →
  extract_sk (flat_key pk sk) (String.length (partition_prefix pk)) = sk.
Proof.
  intros Hv. unfold extract_sk. rewrite flat_key_prefix, str_drop_app.
  unfold from_utf8. by rewrite Hv.
Qed.

Lemma flat_key_starts_with pk sk pk' p : has_char NUL pk = false → has_char NUL pk' = false →
  starts_with (flat_key pk sk) (partition_prefix pk' +:+ p) = true ↔
  pk = pk' ∧ starts_with sk p = true.
Proof.
  intros H1 H2. rewrite !starts_with_spec. split.
  - intros [t Ht]. rewrite str_app_assoc, <-flat_key_prefix in Ht.
    apply flat_key_inj in Ht as [-> ->]; eauto.
  - intros [-> [t ->] ]. exists t. by rewrite flat_key_prefix, str_app_assoc.
Qed.

(** Between two keys of a partition there are only keys of the partition. *)
Lemma flat_range_prefix pk lo hi k :
  str_le (flat_key pk lo) k → str_lt k (flat_key pk hi) → starts_with k (partition_prefix pk) = true.
Proof.
  intros Hlo Hhi. apply prefix_end_range. split.
  - eapply str_le_trans; [|exact Hlo]. rewrite flat_key_prefix.
    apply starts_with_le, starts_with_app.
  - pose proof (starts_with_app (partition_prefix pk) hi) as Hp.
    rewrite <-flat_key_prefix, prefix_end_range in Hp. destruct Hp as [_ Hp].
    destruct (prefix_end _); [|done]. by etrans.
Qed.

#[global] Arguments wrap_envelope : simpl never.
#[global] Arguments unwrap_envelope : simpl never.
#[global] Arguments read_version : simpl never.

(** ** The representation relation *)

Definition envelope (x : bytes * Z) : bytes := wrap_envelope x.2 x.1.

(** The tables [ts] hold the map [m]: every known table exists, each entry of
    the map is under its flat key in an envelope, and every key of a table is
    the flat key of an entry. *)
Record tab_repr (ts : tables) (m : kvmap) : Prop := {
  repr_tables : ∀ t, t ∈ ALL_TABLES → t ∈ dom ts;
  repr_lookup : ∀ t pk sk, has_char NUL pk = false →
    table_of ts t !! flat_key pk sk = envelope <$> m !! (t, pk, sk);
  repr_keys : ∀ t k v, table_of ts t !! k = Some v →
    ∃ pk sk, has_char NUL pk = false ∧ k = flat_key pk sk;
  repr_wf : ∀ t pk sk p v, m !! (t, pk, sk) = Some (p, v) →
    has_char NUL pk = false ∧ valid_utf8 sk = true ∧ u64_ok v;
}.

Lemma table_of_insert ts t m t' :
  table_of (<[t := m]> ts) t' = if decide (t = t') then m else table_of ts t'.
Proof.
  unfold table_of. destruct (decide (t = t')) as [->|].
  - by rewrite lookup_insert_eq.
  - by rewrite lookup_insert_ne.
Qed.

Lemma repr_open ts m t : tab_repr ts m → tab_repr (<[t := table_of ts t]> ts) m.
Proof.
  assert (∀ t', table_of (<[t := table_of ts t]> ts) t' = table_of ts t') as Ht.
  { intros. rewrite table_of_insert. by case_decide; subst. }
  intros [H1 H2 H3 H4]. split; try done.
  - intros t' Ht'. rewrite dom_insert. apply elem_of_union. right; auto.
  - intros. rewrite Ht. auto.
  - intros t' k v. rewrite Ht. apply H3.
Qed.

Lemma repr_insert ts m t pk sk p v : tab_repr ts m → key_ok pk sk → u64_ok v →
  tab_repr (<[t := <[flat_key pk sk := wrap_envelope v p]> (table_of ts t)]> ts)
    (<[(t, pk, sk) := (p, v)]> m).
Proof.
  intros [H1 H2 H3 H4] [Hpk Hsk] Hv. split.
  - intros t' Ht'. rewrite dom_insert. apply elem_of_union. right; auto.
  - intros t' pk' sk' Hpk'. rewrite table_of_insert. destruct (decide (t = t')) as [<-|Hne].
    + destruct (decide (flat_key pk sk = flat_key pk' sk')) as [Heq|Hne].
      * apply flat_key_inj in Heq as [<- <-]; [|done..]. by rewrite !lookup_insert_eq.
      * rewrite !lookup_insert_ne by congruence. auto.
    + rewrite lookup_insert_ne by congruence. auto.
  - intros t' k v'. rewrite table_of_insert. case_decide; [subst|by apply H3].
    destruct (decide (flat_key pk sk = k)) as [<-|Hne]; [eauto|].
    rewrite lookup_insert_ne by done. apply H3.
  - intros t' pk' sk' p' v'. destruct (decide ((t, pk, sk) = (t', pk', sk'))) as [Heq|Hne].
    + rewrite Heq, lookup_insert_eq. intros. by simplify_eq.
    + rewrite lookup_insert_ne by done. apply H4.
Qed.

Lemma repr_delete ts m t pk sk : tab_repr ts m → has_char NUL pk = false →
  tab_repr (<[t := delete (flat_key pk sk) (table_of ts t)]> ts) (delete (t, pk, sk) m).
Proof.
  intros [H1 H2 H3 H4] Hpk. split.
  - intros t' Ht'. rewrite dom_insert. apply elem_of_union. right; auto.
  - intros t' pk' sk' Hpk'. rewrite table_of_insert. destruct (decide (t = t')) as [<-|Hne].
    + destruct (decide (flat_key pk sk = flat_key pk' sk')) as [Heq|Hne].
      * apply flat_key_inj in Heq as [<- <-]; [|done..]. by rewrite !lookup_delete_eq.
      * rewrite !lookup_delete_ne by congruence. auto.
    + rewrite lookup_delete_ne by congruence. auto.
  - intros t' k v'. rewrite table_of_insert. case_decide; [subst|by apply H3].
    destruct (decide (flat_key pk sk = k)) as [<-|Hne]; [by rewrite lookup_delete_eq|].
    rewrite lookup_delete_ne by done. apply H3.
  - intros t' pk' sk' p' v' [_ Hl]%lookup_delete_Some. by eapply H4.
Qed.

(** ** The sequential specification of a batch *)

(** The operation a caller sends for a method that writes. *)
Definition write_of (o : kv_op) : option WriteOp :=
  match o with
  | Put t pk sk v => Some (WPut t (flat_key pk sk) v)
  | PutIfVersion t pk sk v e => Some (WPutIfVersion t (flat_key pk sk) v e)
  | PutIfAbsent t pk sk v => Some (WPutIfVersion t (flat_key pk sk) v None)
  | Delete t pk sk => Some (WDelete t (flat_key pk sk))
  | DeleteIfVersion t pk sk e => Some (WDeleteIfVersion t (flat_key pk sk) e)
  | DeleteReturning t pk sk => Some (WDeleteReturning t (flat_key pk sk))
  | DeleteBatch t keys => Some (WDeleteBatch t ((λ '(pk, sk), flat_key pk sk) <$> keys))
  | PutBatch t entries => Some (WPutBatch t ((λ '(pk, sk, v), (flat_key pk sk, v)) <$> entries))
  | _ => None
  end.

Definition out_of (o : kv_op) : kv_ret o → OpResult :=
  match o return kv_ret o → OpResult with
  | Put _ _ _ _ | PutBatch _ _ => λ r, OUnit (inr r)
  | PutIfVersion _ _ _ _ _ | PutIfAbsent _ _ _ _ => λ r, OBool (inr r)
  | Delete _ _ _ | DeleteIfVersion _ _ _ _ => λ r, OBool (inr r)
  | DeleteReturning _ _ _ => λ r, OOptBytes (inr r)
  | DeleteBatch _ _ => λ r, OBools (inr r)
  | _ => λ _, OUnit (inr tt)
  end.

Definition reply_of (o : kv_op) : result (kv_ret o) → option Reply :=
  match o return result (kv_ret o) → option Reply with
  | Put _ _ _ _ | PutBatch _ _ => λ r, Some (RUnit r)
  | PutIfVersion _ _ _ _ _ | PutIfAbsent _ _ _ _ => λ r, Some (RBool r)
  | Delete _ _ _ | DeleteIfVersion _ _ _ _ => λ r, Some (RBool r)
  | DeleteReturning _ _ _ => λ r, Some (ROptBytes r)
  | DeleteBatch _ _ => λ r, Some (RBools r)
  | _ => λ _, None
  end.

(** The operations one after the other on the specification. *)
Fixpoint spec_seq (os : list kv_op) (m : kvmap) : list (option Reply) * kvmap :=
  match os with
  | [] => ([], m)
  | o :: os =>
      let '(r, m) := spec_store o m in
      let '(rs, m) := spec_seq os m in
      (reply_of o r :: rs, m)
  end.

Section refinement.
Context {C : RedbCrate} {F : RedbFaultless C}.
Implicit Types w : WriteTxn.

Definition w_repr w (t : string) (m : kvmap) : Prop :=
  t ∈ dom (w_tables w) ∧ tab_repr (w_tables w) m.

(** The calls on an open transaction, in terms of the map. *)
Lemma w_open_repr w m t : tab_repr (w_tables w) m →
  ∃ w', w_open w t = (inr tt, w') ∧ w_repr w' t m.
Proof using F.
  intros Hr. pose proof (w_open_ok w t) as Ho. pose proof (w_open_law w t tt Ho) as Hl.
  destruct (w_open w t) as [x w'] eqn:E. simpl in *. subst x. exists w'. split; [done|].
  unfold w_repr. rewrite Hl. split; [rewrite dom_insert; set_solver|by apply repr_open].
Qed.

Lemma w_get_repr w m t pk sk : w_repr w t m → has_char NUL pk = false →
  w_get w t (flat_key pk sk) = inr (envelope <$> m !! (t, pk, sk)).
Proof using F.
  intros [Ht Hr] Hpk. destruct (w_get_ok w t (flat_key pk sk) Ht) as [o Ho].
  rewrite Ho. apply w_get_law in Ho as ->. by rewrite (repr_lookup _ _ Hr).
Qed.

Lemma w_insert_repr w m t pk sk p v : w_repr w t m → key_ok pk sk → u64_ok v →
  ∃ w', w_insert w t (flat_key pk sk) (wrap_envelope v p) = (inr tt, w') ∧
    w_repr w' t (<[(t, pk, sk) := (p, v)]> m).
Proof using F.
  intros [Ht Hr] Hk Hv.
  pose proof (w_insert_ok w t (flat_key pk sk) (wrap_envelope v p) Ht) as Ho.
  pose proof (w_insert_law _ _ _ _ _ Ho) as Hl.
  destruct (w_insert w t _ _) as [x w']. simpl in *. subst x. exists w'. split; [done|].
  unfold w_repr. rewrite Hl. split; [rewrite dom_insert; set_solver|by apply repr_insert].
Qed.

Lemma w_remove_repr w m t pk sk : w_repr w t m → has_char NUL pk = false →
  ∃ w', w_remove w t (flat_key pk sk) = (inr (envelope <$> m !! (t, pk, sk)), w') ∧
    w_repr w' t (delete (t, pk, sk) m).
Proof using F.
  intros [Ht Hr] Hpk.
  destruct (w_remove_ok w t (flat_key pk sk) Ht) as [o Ho].
  destruct (w_remove_law _ _ _ _ Ho) as [-> Hl].
  rewrite (repr_lookup _ _ Hr) in Ho by done.
  destruct (w_remove w t _) as [x w']. simpl in *. subst x. exists w'. split; [done|].
  unfold w_repr. rewrite Hl. split; [rewrite dom_insert; set_solver|by apply repr_delete].
Qed.

Lemma read_version_envelope ts m t pk sk : tab_repr ts m →
  read_version <$> (envelope <$> m !! (t, pk, sk)) = snd <$> m !! (t, pk, sk).
Proof.
  intros Hr. destruct (m !! (t, pk, sk)) as [[p v]|] eqn:E; [|done]. simpl. f_equal.
  apply (repr_wf _ _ Hr) in E as (_ & _ & Hv). unfold read_version, envelope.
  by rewrite unwrap_wrap_envelope.
Qed.

Lemma unwrap_envelope_map ts m t pk sk : tab_repr ts m →
  unwrap_envelope <$> (envelope <$> m !! (t, pk, sk)) = m !! (t, pk, sk).
Proof.
  intros Hr. destruct (m !! (t, pk, sk)) as [[p v]|] eqn:E; [|done]. simpl. f_equal.
  apply (repr_wf _ _ Hr) in E as (_ & _ & Hv). by apply unwrap_wrap_envelope.
Qed.

Lemma version_envelope ts m t pk sk : tab_repr ts m →
  match envelope <$> m !! (t, pk, sk) with Some v => read_version v | None => 0%Z end =
  version_of (m !! (t, pk, sk)).
Proof.
  intros Hr. pose proof (read_version_envelope ts m t pk sk Hr) as H.
  destruct (m !! (t, pk, sk)) as [[p v]|]; [|done]. simpl in *. by injection H.
Qed.

(** ** One operation *)

Lemma version_of_ok ts m t pk sk : tab_repr ts m → u64_ok (version_of (m !! (t, pk, sk))).
Proof.
  intros Hr. destruct (m !! (t, pk, sk)) as [[p v]|] eqn:E; [by eapply repr_wf|done].
Qed.

Lemma exec_put_spec w m t pk sk p : w_repr w t m → key_ok pk sk →
  ∃ w', exec_put w t (flat_key pk sk) p = (OUnit (inr tt), w') ∧
    w_repr w' t (spec_put (t, pk, sk) p m).
Proof using F.
  intros Hw Hk. unfold exec_put.
  rewrite (w_get_repr w m) by (done || apply Hk).
  rewrite (version_envelope _ _ _ _ _ (proj2 Hw)).
  destruct (w_insert_repr w m t pk sk p (u64_add (version_of (m !! (t, pk, sk))) 1))
    as (w' & Hi & Hr); [done|done|apply u64_add_ok|].
  exists w'. unfold insert_unit. by rewrite Hi.
Qed.

Lemma exec_put_if_version_spec w m t pk sk p e : w_repr w t m → key_ok pk sk →
  ∃ w', exec_put_if_version w t (flat_key pk sk) p e =
      (OBool (inr (spec_put_if_version (t, pk, sk) p e m).1), w') ∧
    w_repr w' t (spec_put_if_version (t, pk, sk) p e m).2.
Proof using F.
  intros Hw Hk. unfold exec_put_if_version, spec_put_if_version.
  rewrite (w_get_repr w m) by (done || apply Hk).
  rewrite (read_version_envelope _ _ _ _ _ (proj2 Hw)).
  assert (match e, snd <$> m !! (t, pk, sk) with
    | None, None => true | None, Some _ => false
    | Some exp, Some act => bool_decide (exp = act) | Some _, None => false
    end = bool_decide (e = snd <$> m !! (t, pk, sk))) as ->.
  { destruct e, (m !! (t, pk, sk)) as [[? ?]|]; simpl; [|done..].
    apply bool_decide_ext. split; [by intros ->|congruence]. }
  case_bool_decide as He.
  - rewrite decide_True by done.
    destruct (w_insert_repr w m t pk sk p (u64_add (default 0%Z e) 1)) as (w' & Hi & Hr);
      [done|done|apply u64_add_ok|]. exists w'. by rewrite Hi.
  - rewrite decide_False by done. by exists w.
Qed.

Lemma exec_delete_spec w m t pk sk : w_repr w t m → has_char NUL pk = false →
  ∃ w', exec_delete w t (flat_key pk sk) =
      (OBool (inr (bool_decide (is_Some (m !! (t, pk, sk))))), w') ∧
    w_repr w' t (delete (t, pk, sk) m).
Proof using F.
  intros Hw Hpk. destruct (w_remove_repr w m t pk sk) as (w' & Hi & Hr); [done..|].
  exists w'. unfold exec_delete. rewrite Hi. split; [|done]. do 3 f_equal.
  apply bool_decide_ext. by rewrite fmap_is_Some.
Qed.

Lemma exec_delete_if_version_spec w m t pk sk e : w_repr w t m → key_ok pk sk →
  ∃ w', exec_delete_if_version w t (flat_key pk sk) e =
      (OBool (inr (bool_decide (Some e = snd <$> m !! (t, pk, sk)))), w') ∧
    w_repr w' t (if decide (Some e = snd <$> m !! (t, pk, sk)) then delete (t, pk, sk) m else m).
Proof using F.
  intros Hw Hk. unfold exec_delete_if_version.
  rewrite (w_get_repr w m) by (done || apply Hk).
  rewrite (read_version_envelope _ _ _ _ _ (proj2 Hw)).
  destruct (decide (Some e = snd <$> m !! (t, pk, sk))) as [He|He].
  - rewrite <-He, decide_False by (intros Hn; done).
    destruct (exec_delete_spec w m t pk sk Hw (proj1 Hk)) as (w' & Hd & Hr).
    exists w'. rewrite Hd. split; [|done]. do 3 f_equal. rewrite bool_decide_true, bool_decide_true; try done.
    destruct (m !! (t, pk, sk)); [done|discriminate].
  - rewrite decide_True by congruence. exists w. by rewrite bool_decide_false.
Qed.

Lemma exec_delete_returning_spec w m t pk sk : w_repr w t m → has_char NUL pk = false →
  ∃ w', exec_delete_returning w t (flat_key pk sk) =
      (OOptBytes (inr (fst <$> m !! (t, pk, sk))), w') ∧
    w_repr w' t (delete (t, pk, sk) m).
Proof using F.
  intros Hw Hpk. destruct (w_remove_repr w m t pk sk) as (w' & Hi & Hr); [done..|].
  exists w'. unfold exec_delete_returning. rewrite Hi. split; [|done].
  by destruct (m !! (t, pk, sk)) as [[p v]|].
Qed.

Lemma exec_delete_batch_spec w m t keys acc :
  w_repr w t m → Forall (λ x, key_ok x.1 x.2) keys →
  ∃ w', exec_delete_batch w t ((λ '(pk, sk), flat_key pk sk) <$> keys) acc =
      (OBools (inr (acc ++ (spec_delete_batch t keys m).1)), w') ∧
    w_repr w' t (spec_delete_batch t keys m).2.
Proof using F.
  assert (∀ keys acc m, foldl (λ '(bs, m) '(pk, sk),
      (bs ++ [bool_decide (is_Some (m !! (t, pk, sk)))], delete (t, pk, sk) m)) (acc, m) keys =
    (acc ++ (spec_delete_batch t keys m).1, (spec_delete_batch t keys m).2)) as Hacc.
  { clear. induction keys as [|[pk sk] keys IH]; intros acc m; simpl.
    { by rewrite app_nil_r. }
    unfold spec_delete_batch. simpl. rewrite !IH. simpl. by rewrite <-app_assoc. }
  revert w m acc. induction keys as [|[pk sk] keys IH]; intros w m acc Hw Hall; simpl.
  { exists w. unfold spec_delete_batch. simpl. by rewrite app_nil_r. }
  apply Forall_cons in Hall as [[Hpk Hsk] Hall]. simpl in *.
  destruct (w_remove_repr w m t pk sk) as (w' & Hi & Hr); [done..|]. rewrite Hi.
  destruct (IH w' (delete (t, pk, sk) m)
    (acc ++ [bool_decide (is_Some (envelope <$> m !! (t, pk, sk)))]) Hr Hall) as (w2 & He & Hr2).
  exists w2. unfold spec_delete_batch at 1 2. simpl. rewrite Hacc. simpl.
  split; [etrans; [exact He|]|done]. do 3 f_equal. rewrite <-app_assoc. do 2 f_equal. simpl. f_equal.
  apply bool_decide_ext. by rewrite fmap_is_Some.
Qed.

Lemma exec_put_batch_spec w m t entries :
  w_repr w t m → Forall (λ x, key_ok x.1.1 x.1.2) entries →
  ∃ w', exec_put_batch w t ((λ '(pk, sk, v), (flat_key pk sk, v)) <$> entries) =
      (OUnit (inr tt), w') ∧ w_repr w' t (spec_put_batch t entries m).
Proof using F.
  revert w m. induction entries as [|[[pk sk] v] entries IH]; intros w m Hw Hall; simpl.
  { by exists w. }
  apply Forall_cons in Hall as [Hk Hall]. simpl in Hk.
  rewrite (w_get_repr w m) by (done || apply Hk).
  rewrite (version_envelope _ _ _ _ _ (proj2 Hw)).
  destruct (w_insert_repr w m t pk sk v (u64_add (version_of (m !! (t, pk, sk))) 1))
    as (w' & Hi & Hr); [done|done|apply u64_add_ok|].
  rewrite Hi. apply (IH w' _ Hr Hall).
Qed.

(** Each write operation acts on the transaction as its method does on the
    specification. *)
Lemma exec_op_spec w m o op :
  write_of o = Some op → op_ok o → tab_repr (w_tables w) m →
  ∃ r w', spec_store o m = (Ok r, (spec_store o m).2) ∧
    exec_op w op = (out_of o r, w') ∧ tab_repr (w_tables w') (spec_store o m).2.
Proof using F.
  intros Hop Hok Hr. destruct o; simplify_eq/=; destruct Hok as [Ht Hk];
    destruct (w_open_repr w m table Hr) as (w1 & -> & Hw1).
  - destruct (exec_put_spec w1 m table pk sk value Hw1 Hk) as (w2 & -> & Hw2).
    exists tt, w2. split_and!; [done..|apply Hw2].
  - destruct (exec_put_if_version_spec w1 m table pk sk value expected_version Hw1 (proj1 Hk))
      as (w2 & -> & Hw2). destruct (spec_put_if_version _ _ _ _) as [b m'] eqn:E.
    exists b, w2. split_and!; [done..|apply Hw2].
  - destruct (exec_put_if_version_spec w1 m table pk sk value None Hw1 Hk)
      as (w2 & -> & Hw2). destruct (spec_put_if_version _ _ _ _) as [b m'] eqn:E.
    exists b, w2. split_and!; [done..|apply Hw2].
  - destruct (exec_delete_spec w1 m table pk sk Hw1 (proj1 Hk)) as (w2 & -> & Hw2).
    eexists _, w2. split_and!; [done..|apply Hw2].
  - destruct (exec_delete_if_version_spec w1 m table pk sk expected_version Hw1 (proj1 Hk))
      as (w2 & -> & Hw2). exists (bool_decide (Some expected_version = snd <$> m !! (table, pk, sk))), w2.
    destruct (decide _) as [He|He].
    + rewrite bool_decide_true by done. split_and!; [done..|apply Hw2].
    + rewrite bool_decide_false by done. split_and!; [done..|apply Hw2].
  - destruct (exec_delete_returning_spec w1 m table pk sk Hw1 (proj1 Hk)) as (w2 & -> & Hw2).
    eexists _, w2. split_and!; [done..|apply Hw2].
  - destruct (exec_delete_batch_spec w1 m table keys [] Hw1 Hk) as (w2 & -> & Hw2).
    destruct (spec_delete_batch table keys m) as [bs m'] eqn:E.
    exists bs, w2. split_and!; [done..|apply Hw2].
  - destruct (exec_put_batch_spec w1 m table entries Hw1 Hk) as (w2 & -> & Hw2).
    exists tt, w2. split_and!; [done..|apply Hw2].
Qed.

(** ** Batches *)

Lemma send_result_out o op (r : kv_ret o) :
  write_of o = Some op → send_result op (out_of o r) = reply_of o (Ok r).
Proof. destruct o; intros; by simplify_eq/=. Qed.

Lemma exec_ops_spec w m os batch :
  Forall2 (λ o op, write_of o = Some op) os batch → Forall op_ok os →
  tab_repr (w_tables w) m →
  ∃ rs w', exec_ops w batch = (rs, w') ∧
    zip_with send_result batch rs = (spec_seq os m).1 ∧
    tab_repr (w_tables w') (spec_seq os m).2.
Proof using F.
  intros Hall. revert w m. induction Hall as [|o op os batch Hop Hall IH]; intros w m Hok Hr; simpl.
  { by exists [], w. }
  apply Forall_cons in Hok as [Hok Hoks].
  destruct (exec_op_spec w m o op Hop Hok Hr) as (r & w1 & Hs & -> & Hr1).
  rewrite Hs. destruct (spec_store o m) as [r' m1]. simpl in *.
  destruct (IH w1 m1 Hoks Hr1) as (rs & w2 & -> & Hz & Hr2).
  destruct (spec_seq os m1) as [rs' m2] eqn:E. simpl in *.
  exists (out_of o r :: rs), w2. split; [done|]. simpl.
  by rewrite Hz, (send_result_out o op r Hop).
Qed.

Lemma execute_batch_spec d m os batch :
  Forall2 (λ o op, write_of o = Some op) os batch → Forall op_ok os →
  tab_repr (db_tables d) m →
  ∃ d', execute_batch d batch = ((spec_seq os m).1, d') ∧ tab_repr (db_tables d') (spec_seq os m).2.
Proof using F.
  intros Hall Hok Hr. unfold execute_batch. destruct (begin_write_ok d) as [w Hw]. rewrite Hw.
  apply begin_write_law in Hw. rewrite <-Hw in Hr.
  destruct (exec_ops_spec w m os batch Hall Hok Hr) as (rs & w' & -> & Hz & Hr').
  pose proof (commit_ok d w') as Hc. pose proof (commit_law _ _ _ Hc) as Hl.
  destruct (commit d w') as [x d']. simpl in *. subst x. exists d'. by rewrite Hz, Hl.
Qed.

Lemma spec_seq_app os1 os2 m :
  spec_seq (os1 ++ os2) m =
    ((spec_seq os1 m).1 ++ (spec_seq os2 (spec_seq os1 m).2).1, (spec_seq os2 (spec_seq os1 m).2).2).
Proof.
  revert m. induction os1 as [|o os1 IH]; intros m; simpl; [by destruct (spec_seq os2 m)|].
  destruct (spec_store o m) as [r m1]. rewrite IH. by destruct (spec_seq os1 m1).
Qed.

Lemma writer_task_spec fuel d m os rx :
  Forall2 (λ o op, write_of o = Some op) os rx → Forall op_ok os → length rx ≤ fuel →
  tab_repr (db_tables d) m →
  ∃ d', writer_task fuel d rx = ((spec_seq os m).1, d') ∧ tab_repr (db_tables d') (spec_seq os m).2.
Proof using F.
  revert d m os rx. induction fuel as [|fuel IH]; intros d m os rx Hall Hok Hlen Hr.
  { destruct rx; [|simpl in Hlen; lia]. apply Forall2_nil_inv_r in Hall as ->. by exists d. }
  destruct rx as [|op rx].
  { apply Forall2_nil_inv_r in Hall as ->. by exists d. }
  apply Forall2_cons_inv_r in Hall as (o & os' & Hop & Hall & ->).
  cbn [writer_task]. set (n := BATCH_CAP - 1). clearbody n.
  assert (o :: os' = (o :: take n os') ++ drop n os') as Hos by (simpl; by rewrite take_drop).
  rewrite Hos in Hok |- *. apply Forall_app in Hok as [Hok1 Hok2]. rewrite spec_seq_app.
  destruct (execute_batch_spec d m (o :: take n os') (op :: take n rx)) as (d1 & -> & Hr1);
    [constructor; [done|by apply Forall2_take]|done|done|].
  destruct (IH d1 (spec_seq (o :: take n os') m).2 (drop n os') (drop n rx)) as (d2 & -> & Hr2);
    [by apply Forall2_drop|done| |done|by exists d2].
  rewrite length_drop. simpl in Hlen. lia.
Qed.

(** ** Stores *)

(** The store is open and its file holds the map. *)
Definition store_repr (s : RedbKvStore) (m : kvmap) : Prop :=
  ∃ d, s = mkRedbKvStore (Some d) true ∧ tab_repr (db_tables d) m.

Lemma send_write_spec {A} o op (sel : Reply → option (result A)) (r : result A) s m :
  write_of o = Some op → op_ok o → store_repr s m →
  (reply_of o (spec_store o m).1 ≫= sel) = Some r →
  (send_write op sel s).1 = r ∧ store_repr (send_write op sel s).2 (spec_store o m).2.
Proof using F.
  intros Hop Hok (d & -> & Hr) Hsel. unfold send_write. simpl writer_open. cbv iota. simpl db.
  destruct (writer_task_spec 1 d m [o] [op]) as (d' & -> & Hr');
    [by repeat constructor|by repeat constructor|done|done|].
  simpl in *. destruct (spec_store o m) as [ro m']. simpl in *. split; [|by exists d'].
  destruct (reply_of o ro) as [rep|]; [|done]. simpl in Hsel. by rewrite Hsel.
Qed.

(** The prologue of a read finds the table. *)
Lemma with_table_spec {A} s m t (k : ReadTxn → result A) : store_repr s m → t ∈ ALL_TABLES →
  ∃ txn, with_table s t k = k txn ∧ t ∈ dom (r_tables txn) ∧ tab_repr (r_tables txn) m.
Proof using F.
  intros (d & -> & Hr) Ht. unfold with_table. simpl.
  destruct (begin_read_ok d) as [txn Hb]. rewrite Hb. apply begin_read_law in Hb.
  rewrite <-Hb in Hr. pose proof (repr_tables _ _ Hr _ Ht) as Hd.
  exists txn. simpl. by rewrite r_open_ok.
Qed.

Lemma r_get_repr txn m t pk sk : t ∈ dom (r_tables txn) → tab_repr (r_tables txn) m →
  has_char NUL pk = false → r_get txn t (flat_key pk sk) = inr (envelope <$> m !! (t, pk, sk)).
Proof using F.
  intros Ht Hr Hpk. destruct (r_get_ok txn t (flat_key pk sk) Ht) as [o Ho]. rewrite Ho.
  apply r_get_law in Ho as ->. by rewrite (repr_lookup _ _ Hr).
Qed.

Lemma redb_get_spec s m t pk sk : store_repr s m → t ∈ ALL_TABLES → key_ok pk sk →
  redb_get t pk sk s = (Ok (fst <$> m !! (t, pk, sk)), s).
Proof using F.
  intros Hs Ht [Hpk _]. unfold redb_get. f_equal.
  edestruct (with_table_spec (A:=option bytes)) as (txn & Hw & Hd & Hr); [done|done|].
  etrans; [exact Hw|]. cbv beta. rewrite (r_get_repr txn m) by done. cbn -[fmap].
  rewrite <-(unwrap_envelope_map _ m t pk sk Hr), <-!option_fmap_compose. done.
Qed.

Lemma redb_get_versioned_spec s m t pk sk : store_repr s m → t ∈ ALL_TABLES → key_ok pk sk →
  redb_get_versioned t pk sk s = (Ok (m !! (t, pk, sk)), s).
Proof using F.
  intros Hs Ht [Hpk _]. unfold redb_get_versioned. f_equal.
  edestruct (with_table_spec (A:=option (bytes * Z))) as (txn & Hw & Hd & Hr); [done|done|].
  etrans; [exact Hw|]. cbv beta. rewrite (r_get_repr txn m) by done. cbn -[fmap].
  by rewrite (unwrap_envelope_map _ m t pk sk Hr).
Qed.

(** ** Scans *)

Definition flat_entry (pk : string) (x : string * (bytes * Z)) : bytes * bytes :=
  (flat_key pk x.1, envelope x.2).

Lemma table_range_sorted (tb : gmap bytes bytes) lo hi : StronglySorted sk_lt (table_range tb lo hi).
Proof.
  apply StronglySorted_filter, sorted_le_lt.
  - rewrite merge_sort_Permutation. apply NoDup_fst_map_to_list.
  - apply Sorted_StronglySorted; [apply _|]. apply Sorted_merge_sort. apply _.
Qed.

(** A key range that is a set [P] of sort keys of a partition lists these
    entries of the partition, in order. *)
Lemma table_range_part ts m t pk lo hi (P : string → Prop) `{∀ x, Decision (P x)} :
  tab_repr ts m → has_char NUL pk = false →
  (∀ pk' sk, has_char NUL pk' = false →
     in_range lo hi (flat_key pk' sk) ↔ pk' = pk ∧ P sk) →
  table_range (table_of ts t) lo hi = flat_entry pk <$> filter (λ x, P x.1) (part m t pk).
Proof.
  intros Hr Hpk Hrange.
  apply (StronglySorted_ext sk_lt); [apply _|apply _|apply table_range_sorted| |].
  - apply StronglySorted_fmap, StronglySorted_filter.
    eapply StronglySorted_impl; [|apply part_sorted]. intros x y Hxy.
    unfold sk_lt, flat_entry. simpl. by apply flat_key_lt.
  - intros [k v]. unfold table_range.
    rewrite list_elem_of_filter, merge_sort_Permutation, elem_of_map_to_list, list_elem_of_fmap.
    simpl. split.
    + intros [Hin Hl]. destruct (repr_keys _ _ Hr _ _ _ Hl) as (pk' & sk & Hpk' & ->).
      apply Hrange in Hin as [-> HP]; [|done].
      rewrite (repr_lookup _ _ Hr), fmap_Some in Hl by done. destruct Hl as (x & Hx & ->).
      exists (sk, x). split; [done|]. by rewrite list_elem_of_filter, elem_of_part.
    + intros ([sk x] & Heq & Hin). unfold flat_entry in Heq. simplify_eq/=.
      rewrite list_elem_of_filter, elem_of_part in Hin. destruct Hin as [HP Hm]. split.
      * by apply Hrange.
      * by rewrite (repr_lookup _ _ Hr), Hm.
Qed.

Definition entries_ok (l : list (string * (bytes * Z))) : Prop :=
  Forall (λ x, valid_utf8 x.1 = true ∧ u64_ok x.2.2) l.

Lemma part_entries_ok ts m t pk (P : string * (bytes * Z) → Prop) `{∀ x, Decision (P x)} :
  tab_repr ts m → entries_ok (filter P (part m t pk)).
Proof.
  intros Hr. apply Forall_forall. intros [sk [p v] ] [_ Hin]%list_elem_of_filter.
  apply elem_of_part in Hin. by apply (repr_wf _ _ Hr) in Hin as (_ & ? & ?).
Qed.

Lemma scan_range_loop_spec pk limit l acc :
  entries_ok l → length acc ≤ limit →
  scan_range_loop (String.length (partition_prefix pk)) limit (inr <$> (flat_entry pk <$> l)) acc =
    Ok (mkScanResult (acc ++ (prod_map id fst <$> take (limit - length acc) l))
          (bool_decide (length acc + length l ≤ limit))).
Proof.
  intros Hok. revert acc. induction Hok as [|[sk [p v] ] l [Hsk Hv] Hok IH]; intros acc Hacc.
  { simpl. rewrite take_nil, app_nil_r, bool_decide_true; [done|lia]. }
  cbn -[take]. case_decide as Hd.
  - replace (limit - length acc) with 0 by lia. simpl. rewrite app_nil_r, bool_decide_false; [done|].
    simpl in *. lia.
  - etrans; [apply IH; rewrite length_app; simpl; lia|]. simpl in Hsk, Hv.
    rewrite extract_flat_key by done.
    rewrite length_app. simpl. replace (limit - length acc) with (S (limit - (length acc + 1))) by lia.
    simpl. rewrite <-app_assoc. do 2 f_equal. apply bool_decide_ext. lia.
Qed.

Lemma scan_prefix_loop_spec pk prefix limit l acc :
  Forall (λ x, starts_with (flat_key pk x.1) prefix = true) l →
  scan_prefix_loop prefix (String.length (partition_prefix pk)) limit
      (inr <$> (flat_entry pk <$> l)) acc =
    scan_range_loop (String.length (partition_prefix pk)) limit (inr <$> (flat_entry pk <$> l)) acc.
Proof.
  intros Hl. revert acc. induction Hl as [|x l Hx Hl IH]; intros acc; [done|].
  cbn. case_decide; [done|]. rewrite Hx. simpl. apply IH.
Qed.

Lemma prefix_le_end p e : prefix_end p = Some e → str_le p e.
Proof.
  intros He. pose proof (starts_with_app p "") as Hp. rewrite str_app_nil_r in Hp.
  apply prefix_end_range in Hp as [_ Hp]. rewrite He in Hp. by apply str_lt_le.
Qed.

Lemma in_range_prefix p s : in_range p (prefix_end p) s ↔ starts_with s p = true.
Proof. by rewrite prefix_end_range. Qed.

Lemma redb_scan_prefix_spec s m t pk p limit :
  store_repr s m → t ∈ ALL_TABLES → has_char NUL pk = false →
  redb_scan_prefix t pk p limit s =
    (Ok (scan_of (filter (λ x, starts_with x.1 p = true) (part m t pk)) limit), s).
Proof using F.
  intros Hs Ht Hpk. unfold redb_scan_prefix. f_equal. cbv zeta.
  edestruct (with_table_spec (A:=ScanResult)) as (txn & Hw & Hd & Hr); [done|done|].
  etrans; [exact Hw|]. cbv beta. clear Hw. set (prefix := partition_prefix pk +:+ p).
  assert (match prefix_end prefix with Some e => str_le prefix e | None => True end) as Hle.
  { destruct (prefix_end prefix) eqn:E; [|done]. by apply prefix_le_end. }
  destruct (r_range_ok txn t prefix (prefix_end prefix) Hd Hle) as [xs Hxs].
  pose proof (r_range_law _ _ _ _ _ Hle Hxs xs eq_refl) as Hl.
  rewrite Hxs. simpl. rewrite Hl.
  rewrite (table_range_part _ m t pk _ _ (λ sk, starts_with sk p = true) Hr Hpk).
  - rewrite scan_prefix_loop_spec.
    + rewrite scan_range_loop_spec; [by rewrite Nat.sub_0_r|by eapply part_entries_ok|simpl; lia].
    + apply Forall_forall. intros x [Hx _]%list_elem_of_filter. by apply flat_key_starts_with.
  - intros pk' sk Hpk'. rewrite in_range_prefix. by apply flat_key_starts_with.
Qed.

Lemma flat_in_range pk lo hi pk' sk : has_char NUL pk = false → has_char NUL pk' = false →
  in_range (flat_key pk lo)
    match hi with Some e => Some (flat_key pk e) | None => prefix_end (partition_prefix pk) end
    (flat_key pk' sk) ↔ pk' = pk ∧ in_range lo hi sk.
Proof.
  intros Hpk Hpk'.
  assert (starts_with (flat_key pk' sk) (partition_prefix pk) = true ↔ pk' = pk) as Hp.
  { pose proof (flat_key_starts_with pk' sk pk "" Hpk' Hpk) as H. rewrite str_app_nil_r in H.
    rewrite H, starts_with_nil. tauto. }
  destruct hi as [hi|].
  - split.
    + intros [Hlo Hhi]. pose proof (flat_range_prefix _ _ _ _ Hlo Hhi) as Hs.
      apply Hp in Hs as ->. split; [done|].
      split; [by apply flat_key_le in Hlo|by apply flat_key_lt in Hhi].
    + intros [-> [Hlo Hhi] ]. split; [by apply flat_key_le|by apply flat_key_lt].
  - split.
    + intros [Hlo Hhi]. assert (in_range (partition_prefix pk) (prefix_end (partition_prefix pk)) (flat_key pk' sk)) as Hin.
      { split; [|done]. eapply str_le_trans; [|exact Hlo]. rewrite flat_key_prefix.
        apply starts_with_le, starts_with_app. }
      rewrite in_range_prefix, Hp in Hin. subst. split; [done|]. split; [|done].
      by apply flat_key_le in Hlo.
    + intros [-> [Hlo _] ]. pose proof (proj2 Hp eq_refl) as Hin. rewrite <-in_range_prefix in Hin.
      split; [by apply flat_key_le|by destruct Hin].
Qed.

Lemma redb_scan_range_spec s m t pk lo hi limit :
  store_repr s m → t ∈ ALL_TABLES → has_char NUL pk = false → from_option (str_le lo) True hi →
  redb_scan_range t pk lo hi limit s =
    (Ok (scan_of (filter (λ x, in_range lo hi x.1) (part m t pk)) limit), s).
Proof using F.
  intros Hs Ht Hpk Hlohi. unfold redb_scan_range. f_equal. cbv zeta.
  edestruct (with_table_spec (A:=ScanResult)) as (txn & Hw & Hd & Hr); [done|done|].
  etrans; [exact Hw|]. cbv beta. clear Hw.
  set (e := match hi with Some _ => _ | None => _ end).
  assert (match e with Some e => str_le (flat_key pk lo) e | None => True end) as Hle.
  { subst e. destruct hi as [hi|]; [by apply flat_key_le|].
    destruct (prefix_end (partition_prefix pk)) eqn:E; [|done]. apply str_lt_le.
    pose proof (starts_with_app (partition_prefix pk) lo) as Hp.
    rewrite <-flat_key_prefix, prefix_end_range in Hp. rewrite E in Hp. tauto. }
  destruct (r_range_ok txn t (flat_key pk lo) e Hd Hle) as [xs Hxs].
  pose proof (r_range_law _ _ _ _ _ Hle Hxs xs eq_refl) as Hl.
  rewrite Hxs. simpl. rewrite Hl.
  rewrite (table_range_part _ m t pk _ _ (in_range lo hi) Hr Hpk).
  - rewrite scan_range_loop_spec; [by rewrite Nat.sub_0_r|by eapply part_entries_ok|simpl; lia].
  - intros pk' sk Hpk'. by apply flat_in_range.
Qed.
End refinement.

(** ** A concrete crate

    Tables held in memory; [begin_write] fails when [fault] is given and no
    other call does.  The laws of [RedbCrate] are consistent. *)

#[program] Definition fault_crate (fault : option string) : RedbCrate := {|
  Database := tables;
  WriteTxn := tables;
  ReadTxn := tables;
  db_create _ _ := inr ∅;
  db_upgrade d := (inr false, d);
  begin_write d := match fault with Some e => inl e | None => inr d end;
  w_open w t := (inr tt, <[t := table_of w t]> w);
  w_get w t k := inr (table_of w t !! k);
  w_insert w t k v := (inr tt, <[t := <[k := v]> (table_of w t)]> w);
  w_remove w t k := (inr (table_of w t !! k), <[t := delete k (table_of w t)]> w);
  commit _ w := (inr tt, w);
  begin_read d := inr d;
  r_open r t := match r !! t with Some _ => inr tt | None => inl ("no table " +:+ t) end;
  r_get r t k := inr (table_of r t !! k);
  r_range r t lo hi := inr (inr <$> table_range (table_of r t) lo hi);
  db_compact d := inr (inr true, d);
  db_tables d := d;
  w_tables w := w;
  r_tables r := r;
|}.
Solve Obligations with (intros; try case_match; simplify_eq/=; done).

Definition map_crate : RedbCrate := fault_crate None.

#[export] Instance map_crate_faultless : RedbFaultless map_crate.
Proof.
  split; try done; simpl; eauto.
  intros r t [x Hx]%elem_of_dom. by rewrite Hx.
Qed.

(** A new file after [open]: every table is there and the map is empty. *)
Lemma tab_repr_empty ts : (∀ t, t ∈ ALL_TABLES → ts !! t = Some ∅) →
  (∀ t, t ∉ ALL_TABLES → ts !! t = None) → tab_repr ts ∅.
Proof.
  intros H1 H2. assert (∀ t, table_of ts t = ∅) as Ht.
  { intros t. unfold table_of. destruct (decide (t ∈ ALL_TABLES)).
    - by rewrite H1.
    - by rewrite H2. }
  split.
  - intros t Hin. apply elem_of_dom. rewrite H1; eauto.
  - intros. by rewrite Ht, !lookup_empty.
  - intros t k v. by rewrite Ht, lookup_empty.
  - intros t pk sk p v. by rewrite lookup_empty.
Qed.

Definition empty_redb : @RedbKvStore map_crate :=
  match @open_ map_crate "kv.redb" with
  | Ok s => s
  | Err _ => @mkRedbKvStore map_crate None false
  end.

Lemma empty_redb_repr : @store_repr map_crate empty_redb ∅.
Proof.
  eexists. split; [reflexivity|]. apply tab_repr_empty.
  - intros t Hin. unfold ALL_TABLES in Hin.
    repeat (apply elem_of_cons in Hin as [->|Hin]; [vm_compute; reflexivity|]).
    by apply elem_of_nil in Hin.
  - intros t Hin. apply not_elem_of_dom. intros Hd. apply Hin. revert Hd. clear Hin.
    cbn. rewrite !dom_insert_L. unfold ALL_TABLES. set_solver.
Qed.

Lemma redb_step_refines {C : RedbCrate} {F : RedbFaultless C} s m o :
  store_repr s m → op_ok o →
  (redb_store o s).1 = (spec_store o m).1 ∧ store_repr (redb_store o s).2 (spec_store o m).2.
Proof.
  intros Hs Hok. pose proof Hok as Hok'.
  destruct o; simpl in Hok; try destruct Hok as [Ht Hk].
  - by rewrite (redb_get_spec s m table pk sk Hs Ht Hk : redb_store (Get table pk sk) s = _).
  - by rewrite (redb_get_versioned_spec s m table pk sk Hs Ht Hk : redb_store (GetVersioned table pk sk) s = _).
  - by apply (send_write_spec (Put table pk sk value)).
  - eapply (send_write_spec (PutIfVersion table pk sk value expected_version)); try done.
    all: simpl; by destruct (spec_put_if_version _ _ _ _).
  - eapply (send_write_spec (PutIfAbsent table pk sk value)); try done.
    all: simpl; by destruct (spec_put_if_version _ _ _ _).
  - by apply (send_write_spec (Delete table pk sk)).
  - eapply (send_write_spec (DeleteIfVersion table pk sk expected_version)); try done.
    all: simpl; by case_decide.
  - by apply (send_write_spec (DeleteReturning table pk sk)).
  - by rewrite (redb_scan_prefix_spec s m table pk sk_prefix limit Hs Ht Hk
      : redb_store (ScanPrefix table pk sk_prefix limit) s = _).
  - destruct Hk. by rewrite (redb_scan_range_spec s m table pk sk_start sk_end limit ltac:(done) ltac:(done) ltac:(done) ltac:(done)
      : redb_store (ScanRange table pk sk_start sk_end limit) s = _).
  - by rewrite (redb_get_spec s m table pk sk Hs Ht Hk : redb_store (GetConsistent table pk sk) s = _).
  - destruct keys as [|k keys]; [done|].
    eapply (send_write_spec (DeleteBatch table (k :: keys))); try done.
    all: simpl; by destruct (spec_delete_batch _ _ _).
  - destruct entries as [|e entries]; [done|].
    by apply (send_write_spec (PutBatch table (e :: entries))).
Qed.

#[export] Instance redb_kv_refines {C : RedbCrate} {F : RedbFaultless C} :
  KvRefines redb_store store_repr op_ok.
Proof. intros s m o. apply redb_step_refines. Qed.

(** ** Properties *)

(** C33: Whenever the crate reports no error, the redb store behaves exactly as
    the specification of the [KvStore] trait on every call with a known table,
    a NUL-free partition key and a range that is not inverted: the same
    answers (values, versions, existence flags, scan items in sort-key order
    and [done] flags) and a state that still represents the same map. *)
Theorem redb_refines {C : RedbCrate} {F : RedbFaultless C} s m o :
  store_repr s m → op_ok o →
  (redb_store o s).1 = (spec_store o m).1 ∧ store_repr (redb_store o s).2 (spec_store o m).2.
Proof. apply redb_step_refines. Qed.

Lemma redb_refines_witness :
  (@redb_store map_crate (PutIfAbsent TABLE_REPOS SINGLE_PK "pypi" "cfg") empty_redb).1 = Ok true.
Proof.
  refine (eq_trans (proj1 (@redb_refines map_crate map_crate_faultless empty_redb ∅
    (PutIfAbsent TABLE_REPOS SINGLE_PK "pypi" "cfg") empty_redb_repr _)) _).
  - split; [by left|done].
  - vm_compute. reflexivity.
Defined.

(** Batching is invisible: whatever operations the callers have queued, the
    writer task answers each of them, in the order of the queue, as the
    specification does when it runs them one after the other, and the queue
    is drained in rounds of at most 64 operations. *)
Theorem writer_task_sequential {C : RedbCrate} {F : RedbFaultless C} d m os rx fuel :
  Forall2 (λ o op, write_of o = Some op) os rx → Forall op_ok os → length rx ≤ fuel →
  tab_repr (db_tables d) m →
  (writer_task fuel d rx).1 = (spec_seq os m).1 ∧
  tab_repr (db_tables (writer_task fuel d rx).2) (spec_seq os m).2.
Proof.
  intros Hall Hok Hlen Hr.
  destruct (writer_task_spec fuel d m os rx Hall Hok Hlen Hr) as (d' & -> & Hd). done.
Qed.

(** A batch is all or nothing with respect to the transaction: when the
    transaction cannot be started or the commit fails, the file is unchanged
    and every caller of the batch, whatever its operation, gets a permanent
    storage error. *)
Theorem execute_batch_atomic {C : RedbCrate} d batch e :
  begin_write d = inl e ∨
  (∃ w, begin_write d = inr w ∧ (commit d (exec_ops w batch).2).1 = inl e) →
  (execute_batch d batch).1 = send_errors batch e ∧
  db_tables (execute_batch d batch).2 = db_tables d ∧
  Forall (λ r, ∃ k, r = Some k ∧
    (k = RUnit (Err (Storage e Permanent)) ∨ k = RBool (Err (Storage e Permanent)) ∨
     k = RBools (Err (Storage e Permanent)) ∨ k = ROptBytes (Err (Storage e Permanent))))
    (execute_batch d batch).1.
Proof.
  intros H. assert ((execute_batch d batch).1 = send_errors batch e ∧
    db_tables (execute_batch d batch).2 = db_tables d) as [-> ->].
  { unfold execute_batch. destruct H as [->|(w & -> & Hc)]; [done|].
    destruct (exec_ops w batch) as [rs w']. simpl in Hc.
    pose proof (commit_abort_law d w' e Hc) as Hl.
    destruct (commit d w') as [x d']. simpl in *. by subst x. }
  split_and!; [done..|]. unfold send_errors. apply Forall_fmap, Forall_forall.
  intros op _. destruct op; simpl; eauto 10.
Qed.

Lemma execute_batch_atomic_witness :
  let C := fault_crate (Some "disk full") in
  (@execute_batch C ∅ [WDelete TABLE_REPOS "k"]).1 =
    [Some (RBool (Err (Storage "disk full" Permanent)))].
Proof.
  intros C. refine (proj1 (@execute_batch_atomic C ∅ [WDelete TABLE_REPOS "k"] "disk full" _)).
  left. reflexivity.
Defined.

Lemma writer_task_sequential_witness :
  let d := default ∅ (@db map_crate empty_redb) in
  let os := [PutIfAbsent TABLE_REPOS "0" "a" "v1"; Put TABLE_REPOS "0" "a" "v2";
             PutIfVersion TABLE_REPOS "0" "a" "v3" (Some 1%Z); DeleteReturning TABLE_REPOS "0" "a"] in
  (@writer_task map_crate 4 d (omap write_of os)).1 =
    [Some (RBool (Ok true)); Some (RUnit (Ok tt)); Some (RBool (Ok false));
     Some (ROptBytes (Ok (Some "v2")))].
Proof.
  intros d os.
  refine (eq_trans (proj1 (@writer_task_sequential map_crate map_crate_faultless d ∅ os
    (omap write_of os) 4 _ _ _ _)) _).
  - repeat constructor.
  - by_decide.
  - apply Nat.le_refl.
  - destruct empty_redb_repr as (d0 & Hd0 & Hr). subst d. by rewrite Hd0.
  - vm_compute. reflexivity.
Defined.

(** The envelope of a value round-trips: a version in the [u64] range and
    an arbitrary payload, the empty one and one that itself looks like an
    envelope included, are read back unchanged, and the header costs nine
    bytes. *)
Theorem envelope_roundtrip v p :
  u64_ok v →
  unwrap_envelope (wrap_envelope v p) = (p, v) ∧
  String.length (wrap_envelope v p) = ENVELOPE_HEADER_SIZE + String.length p.
Proof.
  intros Hv. split; [by apply unwrap_wrap_envelope|].
  unfold wrap_envelope. cbn [String.length]. by rewrite str_length_app, to_le_bytes_length.
Qed.

Lemma envelope_roundtrip_witness :
  unwrap_envelope (wrap_envelope 18446744073709551615 (wrap_envelope 1 "x")) =
    (wrap_envelope 1 "x", 18446744073709551615%Z).
Proof. apply (envelope_roundtrip 18446744073709551615 (wrap_envelope 1 "x")). split; reflexivity || discriminate. Defined.

(** Compaction keeps the contents, whether redb reports success or
    failure, and restarts the writer; only a panic of the compaction task
    leaves the store without a database, after which every write is refused
    and every read reports a transient error. *)
Theorem redb_compact_preserves {C : RedbCrate} s m :
  store_repr s m →
  store_repr (redb_compact s).2 m ∨
  (∃ e, (redb_compact s).1 = Err (storage_err ("compact task panicked: " +:+ e)) ∧
    let s' := (redb_compact s).2 in
    ∀ t pk sk v,
      (redb_put t pk sk v s').1 = Err (Storage "redb writer channel full or closed" Permanent) ∧
      (redb_get t pk sk s').1 = Err db_missing).
Proof.
  intros (d & -> & Hr). unfold redb_compact. simpl.
  destruct (db_compact d) as [e|[c d'] ] eqn:E; [right; by exists e|left].
  apply db_compact_law in E. exists d'. rewrite E. by destruct c.
Qed.

Lemma redb_compact_preserves_witness :
  @store_repr map_crate (@redb_compact map_crate empty_redb).2 ∅.
Proof.
  destruct (@redb_compact_preserves map_crate empty_redb ∅ empty_redb_repr) as [H|(e & He & _)].
  - exact H.
  - exfalso. revert He. vm_compute. discriminate.
Defined.
