(* ===== verification/ShardedRedb.v ===== *)
(** * The sharded redb backend (kv/redb/src/sharded_redb.rs)

    A power-of-two number of redb stores; every call goes to the store its
    partition key hashes to, batches are split by store and their answers put
    back in the callers' order.  The theorems are proved for shards that
    implement the [KvStore] interface, whatever they are, and instantiated
    with the redb store. *)

From S2P Require Import Prelude Bytes Errors Keys Kv Redb.

(** kv/redb/src/sharded_redb.rs:12-15 *)
Record ShardedRedbKvStore (S : Type) : Type := mkSharded {
  shards : list S;
  mask : Z;
}.
Arguments mkSharded {S} _ _.
Arguments shards {S} _.
Arguments mask {S} _.

(** An index out of the bounds of a vector panics. *)
Definition index_panic : DepotError := Internal "index out of bounds".

Section sharded.
Context `{Blake3} {S : Type} `{KvStore S}.
Implicit Types st : ShardedRedbKvStore S.

(** kv/redb/src/sharded_redb.rs:68-74 *)
Definition shard_index (mask : Z) (pk : string) : nat :=
  let buf := str_take 8 (blake3_hash pk) in
  Z.to_nat (Z.land (from_le_bytes buf) mask).

(** [self.shards[idx].method(...)]. *)
Definition on_shard {A : Type} (idx : nat) (f : S → result A * S) (st : ShardedRedbKvStore S) :
    result A * ShardedRedbKvStore S :=
  match shards st !! idx with
  | Some s => let '(r, s) := f s in (r, mkSharded (<[idx := s]> (shards st)) (mask st))
  | None => (Err index_panic, st)
  end.

(** kv/redb/src/sharded_redb.rs:80-88 *)
Definition sharded_get (t pk sk : string) st : result (option bytes) * ShardedRedbKvStore S :=
  on_shard (shard_index (mask st) pk) (kv_step (Get t pk sk)) st.

(** kv/redb/src/sharded_redb.rs:90-98 *)
Definition sharded_get_versioned (t pk sk : string) st :
    result (option (bytes * Z)) * ShardedRedbKvStore S :=
  on_shard (shard_index (mask st) pk) (kv_step (GetVersioned t pk sk)) st.

(** kv/redb/src/sharded_redb.rs:100-109 *)
Definition sharded_put (t pk sk : string) (v : bytes) st : result unit * ShardedRedbKvStore S :=
  on_shard (shard_index (mask st) pk) (kv_step (Put t pk sk v)) st.

(** kv/redb/src/sharded_redb.rs:111-123 *)
Definition sharded_put_if_version (t pk sk : string) (v : bytes) (e : option Z) st :
    result bool * ShardedRedbKvStore S :=
  on_shard (shard_index (mask st) pk) (kv_step (PutIfVersion t pk sk v e)) st.

(** kv/redb/src/sharded_redb.rs:125-128 *)
Definition sharded_delete (t pk sk : string) st : result bool * ShardedRedbKvStore S :=
  on_shard (shard_index (mask st) pk) (kv_step (Delete t pk sk)) st.

(** kv/redb/src/sharded_redb.rs:130-141 *)
Definition sharded_delete_if_version (t pk sk : string) (e : Z) st :
    result bool * ShardedRedbKvStore S :=
  on_shard (shard_index (mask st) pk) (kv_step (DeleteIfVersion t pk sk e)) st.

(** kv/redb/src/sharded_redb.rs:143-151 *)
Definition sharded_delete_returning (t pk sk : string) st :
    result (option bytes) * ShardedRedbKvStore S :=
  on_shard (shard_index (mask st) pk) (kv_step (DeleteReturning t pk sk)) st.

(** The positions of a batch, grouped by shard; [idxs] holds the shard of each
    position from [i] on. *)
(** kv/redb/src/sharded_redb.rs:167-171 *)
Fixpoint group_by_shard (i : nat) (idxs : list nat) (per_shard : list (list nat)) :
    list (list nat) :=
  match idxs with
  | [] => per_shard
  | idx :: idxs =>
      group_by_shard (1 + i) idxs (alter (λ l, l ++ [i]) idx per_shard)
  end.

(** [output[orig_idx] = *result] for the results of one shard. *)
(** kv/redb/src/sharded_redb.rs:182-184 *)
Definition scatter (output : list bool) (results : list bool) (indices : list nat) : list bool :=
  foldl (λ output '(result, orig_idx), <[orig_idx := result]> output) output (zip results indices).

(** The loop over the shards. *)
(** kv/redb/src/sharded_redb.rs:174-186 *)
Fixpoint delete_batch_shards (t : string) (keys : list (string * string))
    (shard_idx : nat) (per_shard : list (list nat)) (output : list bool) st :
    result (list bool) * ShardedRedbKvStore S :=
  match per_shard with
  | [] => (Ok output, st)
  | indices :: per_shard =>
      match indices with
      | [] => delete_batch_shards t keys (1 + shard_idx) per_shard output st
      | _ =>
          let sub_keys := omap (λ orig, keys !! orig) indices in
          match on_shard shard_idx (kv_step (DeleteBatch t sub_keys)) st with
          | (Ok results, st) =>
              delete_batch_shards t keys (1 + shard_idx) per_shard (scatter output results indices) st
          | (Err e, st) => (Err e, st)
          end
      end
  end.

(** kv/redb/src/sharded_redb.rs:153-187 *)
Definition sharded_delete_batch (t : string) (keys : list (string * string)) st :
    result (list bool) * ShardedRedbKvStore S :=
  match keys with
  | [] => (Ok [], st)
  | key0 :: _ =>
      let first_shard := shard_index (mask st) key0.1 in
      let all_same := forallb (λ k, bool_decide (shard_index (mask st) k.1 = first_shard)) keys in
      if all_same then on_shard first_shard (kv_step (DeleteBatch t keys)) st
      else
        let per_shard := group_by_shard 0 ((λ k, shard_index (mask st) k.1) <$> keys)
                           (replicate (length (shards st)) []) in
        delete_batch_shards t keys 0 per_shard (replicate (length keys) false) st
  end.

(** kv/redb/src/sharded_redb.rs:209-219 *)
Fixpoint put_batch_shards (t : string) (entries : list (string * string * bytes))
    (shard_idx : nat) (per_shard : list (list nat)) st : result unit * ShardedRedbKvStore S :=
  match per_shard with
  | [] => (Ok tt, st)
  | indices :: per_shard =>
      match indices with
      | [] => put_batch_shards t entries (1 + shard_idx) per_shard st
      | _ =>
          let sub_entries := omap (λ i, entries !! i) indices in
          match on_shard shard_idx (kv_step (PutBatch t sub_entries)) st with
          | (Ok _, st) => put_batch_shards t entries (1 + shard_idx) per_shard st
          | (Err e, st) => (Err e, st)
          end
      end
  end.

(** kv/redb/src/sharded_redb.rs:189-220 *)
Definition sharded_put_batch (t : string) (entries : list (string * string * bytes)) st :
    result unit * ShardedRedbKvStore S :=
  match entries with
  | [] => (Ok tt, st)
  | entry0 :: _ =>
      let first_shard := shard_index (mask st) entry0.1.1 in
      let all_same := forallb (λ e, bool_decide (shard_index (mask st) e.1.1 = first_shard)) entries in
      if all_same then on_shard first_shard (kv_step (PutBatch t entries)) st
      else
        let per_shard := group_by_shard 0 ((λ e, shard_index (mask st) e.1.1) <$> entries)
                           (replicate (length (shards st)) []) in
        put_batch_shards t entries 0 per_shard st
  end.

(** kv/redb/src/sharded_redb.rs:222-233 *)
Definition sharded_scan_prefix (t pk sk_prefix : string) (limit : nat) st :
    result ScanResult * ShardedRedbKvStore S :=
  on_shard (shard_index (mask st) pk) (kv_step (ScanPrefix t pk sk_prefix limit)) st.

(** kv/redb/src/sharded_redb.rs:235-247 *)
Definition sharded_scan_range (t pk lo : string) (hi : option string) (limit : nat) st :
    result ScanResult * ShardedRedbKvStore S :=
  on_shard (shard_index (mask st) pk) (kv_step (ScanRange t pk lo hi limit)) st.

(** kv/redb/src/sharded_redb.rs:249-251 *)
Definition sharded_is_single_node : bool := true.

(** The shards compact independently; a failure is logged and ignored. *)
(** kv/redb/src/sharded_redb.rs:253-277 *)
Definition sharded_compact (compact : S → result bool * S) st :
    result bool * ShardedRedbKvStore S :=
  let results := compact <$> shards st in
  let any := foldl (λ any res, match res with Ok c => any || c | Err _ => any end) false results.*1 in
  (Ok any, mkSharded results.*2 (mask st)).

(** kv/redb/src/sharded_redb.rs:62-65 *)
Definition sharded_close (close : S → S) st : ShardedRedbKvStore S :=
  mkSharded (close <$> shards st) (mask st).

(** kv/redb/src/sharded_redb.rs:79-247 *)
#[export] Instance sharded_store : KvStore (ShardedRedbKvStore S) := λ o,
  match o with
  | Get t pk sk => sharded_get t pk sk
  | GetVersioned t pk sk => sharded_get_versioned t pk sk
  | Put t pk sk v => sharded_put t pk sk v
  | PutIfVersion t pk sk v e => sharded_put_if_version t pk sk v e
  | PutIfAbsent t pk sk v => put_if_absent_default sharded_put_if_version t pk sk v
  | Delete t pk sk => sharded_delete t pk sk
  | DeleteIfVersion t pk sk e => sharded_delete_if_version t pk sk e
  | DeleteReturning t pk sk => sharded_delete_returning t pk sk
  | ScanPrefix t pk p limit => sharded_scan_prefix t pk p limit
  | ScanRange t pk lo hi limit => sharded_scan_range t pk lo hi limit
  | GetConsistent t pk sk => get_consistent_default sharded_get t pk sk
  | DeleteBatch t keys => sharded_delete_batch t keys
  | PutBatch t entries => sharded_put_batch t entries
  end.
End sharded.

(** The stores of the shards, opened in index order; the first error wins. *)
(** kv/redb/src/sharded_redb.rs:45-54 *)
Fixpoint open_shards {C : RedbCrate} (dir : string) (cache i n : nat) : result (list RedbKvStore) :=
  match n with
  | O => Ok []
  | Datatypes.S n =>
      let? store := open_with_cache (dir +:+ "/shard_" +:+ show_uint (N.of_nat i) +:+ ".redb") cache in
      let? stores := open_shards dir cache (1 + i) n in
      Ok (store :: stores)
  end.

(** [create_dir_all] is the file system's answer: the error, if any. *)
(** kv/redb/src/sharded_redb.rs:22-59 *)
Definition sharded_open {C : RedbCrate} (create_dir_all : string → option string) (dir : string)
    (scaling_factor total_cache_bytes : nat) : result (ShardedRedbKvStore RedbKvStore) :=
  match create_dir_all dir with
  | Some e =>
      Err (Storage ("failed to create redb directory " +:+ dir +:+ ": " +:+ e) Permanent)
  | None =>
      let per_shard_cache :=
        if decide (0 < total_cache_bytes) then total_cache_bytes / scaling_factor else 0 in
      let? shards := open_shards dir per_shard_cache 0 scaling_factor in
      Ok (mkSharded shards (Z.of_nat scaling_factor - 1))
  end.

(** ** Grouping by shard *)

(** The positions of a batch that go to shard [s], from position [i] on. *)
Fixpoint positions (s i : nat) (idxs : list nat) : list nat :=
  match idxs with
  | [] => []
  | idx :: idxs => if decide (idx = s) then i :: positions s (1 + i) idxs else positions s (1 + i) idxs
  end.

Lemma elem_of_positions s i idxs j :
  j ∈ positions s i idxs ↔ ∃ k, j = i + k ∧ idxs !! k = Some s.
Proof.
  revert i. induction idxs as [|idx idxs IH]; intros i; simpl.
  - rewrite elem_of_nil. split; [done|]. intros (k & _ & Hk). by rewrite lookup_nil in Hk.
  - assert (j ∈ positions s (1 + i) idxs ↔ ∃ k, j = i + S k ∧ idxs !! k = Some s) as Hr.
    { rewrite IH. split; intros (k & ? & ?); exists k; split; (done || lia). }
    case_decide as Hd; [rewrite elem_of_cons|]; rewrite Hr; split.
    + intros [->|(k & ? & ?)]; [exists 0; split; [lia|simpl; by subst]|by exists (S k)].
    + intros ([|k] & Hj & Hk); [left; lia|right; by exists k].
    + intros (k & ? & ?). by exists (S k).
    + intros ([|k] & Hj & Hk); [simplify_eq/=|by exists k].
Qed.

Lemma group_by_shard_positions i idxs per_shard :
  group_by_shard i idxs per_shard = imap (λ s l, l ++ positions s i idxs) per_shard.
Proof.
  revert i per_shard. induction idxs as [|idx idxs IH]; intros i per_shard; simpl.
  - apply list_eq. intros s. rewrite list_lookup_imap. destruct (per_shard !! s); simpl; [|done].
    by rewrite app_nil_r.
  - rewrite IH. apply list_eq. intros s. rewrite !list_lookup_imap.
    destruct (decide (idx = s)) as [->|Hne].
    + rewrite list_lookup_alter_eq. destruct (per_shard !! s); simpl; [|done].
      by rewrite <-app_assoc.
    + by rewrite list_lookup_alter_ne.
Qed.

Lemma group_by_shard_lookup idxs n s :
  group_by_shard 0 idxs (replicate n []) !! s =
    if decide (s < n) then Some (positions s 0 idxs) else None.
Proof.
  rewrite group_by_shard_positions, list_lookup_imap. case_decide as Hs.
  - by rewrite lookup_replicate_2.
  - by rewrite (proj2 (lookup_ge_None _ _)) by (rewrite length_replicate; lia).
Qed.

Lemma group_by_shard_length i idxs per_shard :
  length (group_by_shard i idxs per_shard) = length per_shard.
Proof. by rewrite group_by_shard_positions, length_imap. Qed.

Lemma lookup_middle {A} (pre l : list A) x : (pre ++ x :: l) !! length pre = Some x.
Proof. by rewrite list_lookup_middle. Qed.

(** The elements at the positions of a shard are the elements of the shard,
    in order. *)
Lemma omap_positions_app {A} (f : A → nat) s (pre l : list A) :
  omap (λ i, (pre ++ l) !! i) (positions s (length pre) (f <$> l)) = filter (λ x, f x = s) l.
Proof.
  revert pre. induction l as [|x l IH]; intros pre; [done|].
  rewrite fmap_cons. cbn [positions]. specialize (IH (pre ++ [x])).
  rewrite length_app, <-app_assoc in IH. simpl in IH. rewrite Nat.add_comm in IH.
  rewrite filter_cons. case_decide as Hd; [|exact IH].
  cbn. rewrite lookup_middle. f_equal. exact IH.
Qed.

Lemma omap_positions {A} (f : A → nat) s (l : list A) :
  omap (λ i, l !! i) (positions s 0 (f <$> l)) = filter (λ x, f x = s) l.
Proof. apply (omap_positions_app f s []). Qed.

Lemma scatter_length out rs ixs : length (scatter out rs ixs) = length out.
Proof.
  unfold scatter. revert out ixs. induction rs as [|r rs IH]; intros out [|ix ixs]; try done.
  simpl. rewrite IH. apply length_insert.
Qed.

Lemma scatter_lookup out bs ixs j :
  Forall (λ i, i < length out ∧ i < length bs) ixs →
  scatter out (omap (λ i, bs !! i) ixs) ixs !! j = if decide (j ∈ ixs) then bs !! j else out !! j.
Proof.
  revert out. induction ixs as [|ix ixs IH]; intros out Hall; [done|].
  apply Forall_cons in Hall as [ [Ho Hb] Hall].
  destruct (lookup_lt_is_Some_2 bs ix Hb) as [b Hbs].
  cbn [omap list_omap]. rewrite Hbs. unfold scatter. simpl. fold (scatter (<[ix:=b]> out)).
  change (foldl _ (<[ix:=b]> out) (zip ?l ixs)) with (scatter (<[ix:=b]> out) l ixs).
  rewrite IH by (by rewrite length_insert). destruct (decide (j ∈ ixs)) as [Hj|Hj].
  - rewrite decide_True; [done|by right].
  - destruct (decide (j = ix)) as [->|Hne].
    + rewrite decide_True by left. by rewrite list_lookup_insert_eq.
    + rewrite decide_False by (rewrite elem_of_cons; tauto). by rewrite list_lookup_insert_ne.
Qed.

(** ** Batches, split by shard *)

Section batches.
Context (f : string → nat) (t : string).
Implicit Types (m mi : kvmap) (keys : list (string * string)).

Definition on_s (s : nat) : string → Prop := λ pk, f pk = s.

(** The part of a delete batch that goes to a shard has the answers of the
    whole batch at its positions. *)
Lemma delete_bools_shard s keys m mi pre :
  agree (on_s s) mi m →
  delete_bools t (filter (λ k, f k.1 = s) keys) mi =
    omap (λ i, (pre ++ delete_bools t keys m) !! i)
      (positions s (length pre) ((λ k, f k.1) <$> keys)).
Proof.
  revert m mi pre. induction keys as [|[pk sk] keys IH]; intros m mi pre Ha; [done|].
  rewrite fmap_cons. cbn [positions delete_bools]. set (b := bool_decide _).
  assert (pre ++ b :: delete_bools t keys (delete (t, pk, sk) m) =
    (pre ++ [b]) ++ delete_bools t keys (delete (t, pk, sk) m)) as Happ by by rewrite <-app_assoc.
  rewrite filter_cons. simpl. case_decide as Hd.
  - cbn. rewrite lookup_middle. rewrite Happ.
    f_equal; [by rewrite (Ha _ _ _ Hd)|]. 
    rewrite (IH (delete (t, pk, sk) m) _ (pre ++ [b])) by (by apply agree_delete).
    by rewrite length_app, Nat.add_comm.
  - rewrite Happ. rewrite (IH (delete (t, pk, sk) m) mi (pre ++ [b])).
    + by rewrite length_app, Nat.add_comm.
    + eapply agree_trans; [exact Ha|]. intros t' pk' sk' HP. symmetry.
      by apply (agree_delete_out (on_s s)).
Qed.

Lemma delete_bools_all s keys m mi :
  Forall (λ k, f k.1 = s) keys → agree (on_s s) mi m → delete_bools t keys mi = delete_bools t keys m.
Proof.
  intros Hall. revert m mi. induction Hall as [|[pk sk] keys Hd Hall IH]; intros m mi Ha; [done|].
  simpl in *. rewrite (Ha _ _ _ Hd). f_equal. by apply IH, agree_delete.
Qed.

Lemma delete_fold_shard s keys m mi : agree (on_s s) mi m →
  agree (on_s s) (foldl (λ m '(pk, sk), delete (t, pk, sk) m) mi (filter (λ k, f k.1 = s) keys))
    (foldl (λ m '(pk, sk), delete (t, pk, sk) m) m keys).
Proof.
  revert m mi. induction keys as [|[pk sk] keys IH]; intros m mi Ha; [done|].
  rewrite filter_cons. simpl. case_decide as Hd; simpl; apply IH.
  - by apply agree_delete.
  - eapply agree_trans; [exact Ha|]. intros t' pk' sk' HP. symmetry.
    by apply (agree_delete_out (on_s s)).
Qed.

Lemma put_fold_shard s entries m mi : agree (on_s s) mi m →
  agree (on_s s) (spec_put_batch t (filter (λ e, f e.1.1 = s) entries) mi) (spec_put_batch t entries m).
Proof.
  unfold spec_put_batch. revert m mi. induction entries as [|[[pk sk] v] entries IH]; intros m mi Ha; [done|].
  rewrite filter_cons. simpl. case_decide as Hd; simpl; apply IH.
  - unfold spec_put. rewrite (Ha t pk sk Hd). by apply agree_insert.
  - eapply agree_trans; [exact Ha|]. intros t' pk' sk' HP. symmetry.
    by apply (agree_insert_out (on_s s)).
Qed.
End batches.

Section refinement.
Context {B : Blake3} {S : Type} {impl : KvStore S} (R : S → kvmap → Prop).
Context {HR : KvRefines impl R op_ok}.
Implicit Types st : ShardedRedbKvStore S.

(** The number of shards is a power of two that fits the hash, the mask is one
    less, and each shard holds the keys that hash to it. *)
Definition shards_repr st (ms : list kvmap) : Prop :=
  (∃ n : nat, n ≤ 63 ∧ Z.of_nat (length (shards st)) = (2 ^ Z.of_nat n)%Z ∧
    mask st = (2 ^ Z.of_nat n - 1)%Z) ∧
  Forall2 R (shards st) ms.

Definition sharded_repr st (m : kvmap) : Prop :=
  ∃ ms, shards_repr st ms ∧
    ∀ i mi, ms !! i = Some mi → agree (on_s (shard_index (mask st)) i) mi m.

Lemma shard_index_lt st ms pk : shards_repr st ms → shard_index (mask st) pk < length (shards st).
Proof.
  intros [(n & Hn & Hlen & ->) _]. unfold shard_index.
  replace (2 ^ Z.of_nat n - 1)%Z with (Z.ones (Z.of_nat n)) by (rewrite Z.ones_equiv; lia).
  rewrite Z.land_ones by lia.
  pose proof (Z.mod_pos_bound (from_le_bytes (str_take 8 (blake3_hash pk))) (2 ^ Z.of_nat n)). lia.
Qed.

Lemma on_shard_spec st ms idx mi o : shards_repr st ms → ms !! idx = Some mi → op_ok o →
  ∃ st', on_shard idx (kv_step o) st = ((spec_store o mi).1, st') ∧
    shards_repr st' (<[idx := (spec_store o mi).2]> ms) ∧ mask st' = mask st.
Proof using HR.
  intros [Hm Hall] Hidx Hok. unfold on_shard.
  destruct (Forall2_lookup_r _ _ _ _ _ Hall Hidx) as (s & Hs & Hr). rewrite Hs.
  destruct (kv_refines s mi o Hr Hok) as [Hres Hst].
  destruct (kv_step o s) as [r s']. simpl in *. subst r. eexists. split; [done|].
  split; [|done]. split; simpl.
  - rewrite length_insert. exact Hm.
  - by apply Forall2_insert.
Qed.

Lemma sharded_single st m o pk : sharded_repr st m → op_ok o → op_pk o = Some pk →
  let r := on_shard (shard_index (mask st) pk) (kv_step o) st in
  r.1 = (spec_store o m).1 ∧ sharded_repr r.2 (spec_store o m).2.
Proof using HR.
  intros (ms & Hms & Ha) Hok Hpk. set (idx := shard_index (mask st) pk).
  pose proof (shard_index_lt st ms pk Hms) as Hlt.
  rewrite (Forall2_length _ _ _ (proj2 Hms)) in Hlt.
  destruct (lookup_lt_is_Some_2 ms _ Hlt) as [mi Hmi].
  destruct (on_shard_spec st ms idx mi o Hms Hmi Hok) as (st' & -> & Hms' & Hmask). simpl.
  destruct (spec_store_local (on_s (shard_index (mask st)) idx) o pk mi m) as [Hres Hag];
    [done|done|by apply Ha|]. split; [done|].
  exists (<[idx := (spec_store o mi).2]> ms). split; [done|].
  rewrite Hmask. intros i mj. destruct (decide (i = idx)) as [->|Hne].
  - rewrite list_lookup_insert_eq by done. intros. by simplify_eq.
  - rewrite list_lookup_insert_ne by done. intros Hj%Ha.
    eapply agree_trans; [exact Hj|]. intros t' pk' sk' HP. symmetry.
    apply (spec_store_frame (on_s (shard_index (mask st)) i) o pk); [done| |done].
    unfold on_s. fold idx. congruence.
Qed.

(** The answers the loop over the shards collects. *)
Fixpoint gather (t : string) (keys : list (string * string)) (per_shard : list (list nat))
    (ms : list kvmap) (output : list bool) : list bool :=
  match per_shard, ms with
  | ixs :: per_shard, mi :: ms =>
      gather t keys per_shard ms
        (scatter output (delete_bools t (omap (λ i, keys !! i) ixs) mi) ixs)
  | _, _ => output
  end.

Definition sub_delete (t : string) (keys : list (string * string)) (ixs : list nat) (mi : kvmap) :=
  foldl (λ m '(pk, sk), delete (t, pk, sk) m) mi (omap (λ i, keys !! i) ixs).

Lemma Forall_omap_lookup {A} (P : A → Prop) (l : list A) (ixs : list nat) :
  Forall P l → Forall P (omap (λ i, l !! i) ixs).
Proof.
  intros Hl. apply Forall_forall. intros x (i & _ & Hi)%list_elem_of_omap.
  by eapply Forall_lookup_1.
Qed.

Lemma delete_batch_shards_spec t keys per_shard ms1 ms2 output st :
  shards_repr st (ms1 ++ ms2) → length per_shard = length ms2 → op_ok (DeleteBatch t keys) →
  ∃ st', delete_batch_shards t keys (length ms1) per_shard output st =
      (Ok (gather t keys per_shard ms2 output), st') ∧
    shards_repr st' (ms1 ++ zip_with (sub_delete t keys) per_shard ms2) ∧ mask st' = mask st.
Proof using HR.
  intros Hms Hlen [Ht Hk]. revert ms1 ms2 output st Hms Hlen.
  induction per_shard as [|ixs per_shard IH]; intros ms1 [|mi ms2] output st Hms Hlen; simplify_eq/=.
  { by exists st. }
  assert (ms1 ++ mi :: ms2 = (ms1 ++ [mi]) ++ ms2) as Happ by by rewrite <-app_assoc.
  destruct ixs as [|ix ixs].
  - rewrite Happ in Hms. destruct (IH _ _ output st Hms Hlen) as (st' & He & Hr & Hm).
    rewrite length_app, Nat.add_comm in He. exists st'. split_and!; [exact He| |done].
    by rewrite <-app_assoc in Hr.
  - set (sub := omap (λ i, keys !! i) (ix :: ixs)).
    destruct (on_shard_spec st _ (length ms1) mi (DeleteBatch t sub) Hms) as (st1 & Hs & Hr1 & Hm1).
    { apply lookup_middle. }
    { split; [done|]. by apply Forall_omap_lookup. }
    simpl in Hs. rewrite spec_delete_batch_eq in Hs. 
    simpl in Hr1. rewrite spec_delete_batch_eq in Hr1. simpl in Hr1.
    rewrite insert_app_r_alt, Nat.sub_diag in Hr1 by done. simpl in Hr1.
    rewrite (assoc_L (++) ms1 [_] ms2 : ms1 ++ _ :: ms2 = _) in Hr1.
    change (omap (λ orig, keys !! orig) (ix :: ixs)) with sub.
    destruct (IH _ _ (scatter output (delete_bools t sub mi) (ix :: ixs)) st1 Hr1 Hlen)
      as (st2 & He & Hr & Hm2).
    rewrite length_app, Nat.add_comm in He. exists st2.
    rewrite Hs. split_and!; [exact He| |by rewrite Hm2]. by rewrite <-app_assoc in Hr.
Qed.

Lemma put_batch_shards_spec t entries per_shard ms1 ms2 st :
  shards_repr st (ms1 ++ ms2) → length per_shard = length ms2 → op_ok (PutBatch t entries) →
  ∃ st', put_batch_shards t entries (length ms1) per_shard st = (Ok tt, st') ∧
    shards_repr st' (ms1 ++ zip_with (λ ixs mi, spec_put_batch t (omap (λ i, entries !! i) ixs) mi)
      per_shard ms2) ∧ mask st' = mask st.
Proof using HR.
  intros Hms Hlen [Ht Hk]. revert ms1 ms2 st Hms Hlen.
  induction per_shard as [|ixs per_shard IH]; intros ms1 [|mi ms2] st Hms Hlen; simplify_eq/=.
  { by exists st. }
  assert (ms1 ++ mi :: ms2 = (ms1 ++ [mi]) ++ ms2) as Happ by by rewrite <-app_assoc.
  destruct ixs as [|ix ixs].
  - rewrite Happ in Hms. destruct (IH _ _ st Hms Hlen) as (st' & He & Hr & Hm).
    rewrite length_app, Nat.add_comm in He. exists st'. split_and!; [exact He| |done].
    by rewrite <-app_assoc in Hr.
  - set (sub := omap (λ i, entries !! i) (ix :: ixs)).
    destruct (on_shard_spec st _ (length ms1) mi (PutBatch t sub) Hms) as (st1 & Hs & Hr1 & Hm1).
    { apply lookup_middle. }
    { split; [done|]. by apply Forall_omap_lookup. }
    simpl in Hs, Hr1.
    rewrite insert_app_r_alt, Nat.sub_diag in Hr1 by done. simpl in Hr1.
    rewrite (assoc_L (++) ms1 [_] ms2 : ms1 ++ _ :: ms2 = _) in Hr1.
    destruct (IH _ _ st1 Hr1 Hlen) as (st2 & He & Hr & Hm2).
    rewrite length_app, Nat.add_comm in He. exists st2.
    rewrite Hs. split_and!; [exact He| |by rewrite Hm2]. by rewrite <-app_assoc in Hr.
Qed.

Lemma gather_length t keys per_shard ms output :
  length (gather t keys per_shard ms output) = length output.
Proof.
  revert ms output. induction per_shard as [|ixs per_shard IH]; intros [|mi ms] output; simpl; try done.
  by rewrite IH, scatter_length.
Qed.

Lemma group_by_shard_seq idxs n :
  group_by_shard 0 idxs (replicate n []) = (λ s, positions s 0 idxs) <$> seq 0 n.
Proof.
  apply list_eq. intros s. rewrite group_by_shard_lookup, list_lookup_fmap. case_decide.
  - by rewrite lookup_seq_lt.
  - by rewrite lookup_seq_ge by lia.
Qed.

(** The answer at each position is the answer of the whole batch, once the
    shard of its key has been visited. *)
Lemma gather_lookup (f : string → nat) t keys m n k ms output j key :
  length ms = n → length output = length keys →
  (∀ i mi, ms !! i = Some mi → agree (on_s f (k + i)) mi m) → keys !! j = Some key →
  gather t keys ((λ s, positions s 0 ((λ x, f x.1) <$> keys)) <$> seq k n) ms output !! j =
    if decide (k ≤ f key.1 < k + n) then delete_bools t keys m !! j else output !! j.
Proof.
  intros Hlen Hout Ha Hj. revert k ms output Hlen Hout Ha.
  induction n as [|n IH]; intros k ms output Hlen Hout Ha.
  { simpl. rewrite decide_False by lia. done. }
  destruct ms as [|mi ms]; [done|]. injection Hlen as Hlen.
  assert (agree (on_s f k) mi m) as Hmi.
  { rewrite <-(Nat.add_0_r k). by apply Ha. }
  cbn [seq fmap list_fmap gather].
  etrans; [apply (IH (1 + k) ms); [done|by rewrite scatter_length|]|].
  { intros i mj Hi. replace (1 + k + i) with (k + Datatypes.S i) by lia. by apply Ha. }
  rewrite (omap_positions (λ x, f x.1)), (delete_bools_shard f t k keys m mi [] Hmi).
  rewrite scatter_lookup.
  - assert (j ∈ positions k 0 ((λ x, f x.1) <$> keys) ↔ f key.1 = k) as Hin.
    { rewrite elem_of_positions. split.
      - intros (i & -> & Hi). simpl in Hj. rewrite list_lookup_fmap, Hj in Hi. by simplify_eq/=.
      - intros <-. exists j. by rewrite list_lookup_fmap, Hj. }
    destruct (decide (f key.1 = k)) as [Hk|Hk].
    + rewrite (decide_True (P:=k ≤ _ < k + Datatypes.S n)) by lia. rewrite decide_False by lia.
      by rewrite decide_True by by apply Hin.
    + rewrite (decide_False (P:=j ∈ _)) by (by rewrite Hin).
      apply decide_ext. lia.
  - apply Forall_forall. intros i (i' & -> & Hi)%elem_of_positions.
    apply lookup_lt_Some in Hi. rewrite length_fmap in Hi.
    simpl. rewrite delete_bools_length, Hout. lia.
Qed.

Lemma sharded_delete_batch_repr st m t keys : sharded_repr st m → op_ok (DeleteBatch t keys) →
  let r := sharded_delete_batch t keys st in
  r.1 = (spec_store (DeleteBatch t keys) m).1 ∧
  sharded_repr r.2 (spec_store (DeleteBatch t keys) m).2.
Proof using HR.
  intros (ms & Hms & Ha) Hok. simpl. rewrite spec_delete_batch_eq. unfold sharded_delete_batch.
  destruct keys as [|key0 keys0]; [by split; [|exists ms]|]. remember (key0 :: keys0) as keys eqn:Hkeys. clear Hkeys.
  set (f := shard_index (mask st)) in *.
  pose proof (Forall2_length _ _ _ (proj2 Hms)) as Hlen.
  destruct (forallb _ keys) eqn:Hsame.
  - pose proof (shard_index_lt st ms key0.1 Hms) as Hlt. fold f in Hlt.
    rewrite Hlen in Hlt. destruct (lookup_lt_is_Some_2 ms _ Hlt) as [mi Hmi].
    destruct (on_shard_spec st ms (f key0.1) mi _ Hms Hmi Hok) as (st' & -> & Hms' & Hm).
    simpl in *. rewrite spec_delete_batch_eq in *. simpl in *.
    assert (Forall (λ k, f k.1 = f key0.1) keys) as Hall.
    { apply Forall_forall. intros k Hk. rewrite forallb_forall in Hsame.
      apply (bool_decide_eq_true (f k.1 = f key0.1)), Hsame. by apply list_elem_of_In. }
    split; [by rewrite (delete_bools_all f t (f key0.1) keys m mi) by eauto|].
    exists (<[f key0.1:=foldl (λ m '(pk, sk), delete (t, pk, sk) m) mi keys]> ms). split; [done|].
    rewrite Hm. fold f. intros i mj. destruct (decide (i = f key0.1)) as [->|Hne].
    + rewrite list_lookup_insert_eq by done. intros. simplify_eq.
      rewrite <-(filter_all _ keys Hall) at 1. by apply delete_fold_shard, Ha.
    + rewrite list_lookup_insert_ne by done. intros Hj%Ha.
      pose proof (delete_fold_shard f t i keys m mj Hj) as Hag.
      rewrite filter_none in Hag; [exact Hag|]. eapply Forall_impl; [exact Hall|]. simpl. congruence.
  - rewrite group_by_shard_seq.
    destruct (delete_batch_shards_spec t keys
      ((λ s, positions s 0 ((λ x, f x.1) <$> keys)) <$> seq 0 (length (shards st)))
      [] ms (replicate (length keys) false) st Hms) as (st' & He & Hr & Hm); [|done|].
    { by rewrite length_fmap, length_seq. }
    simpl length in He. rewrite He. clear He. simpl. simpl app in Hr. split.
    + f_equal. apply list_eq_same_length with (n := length keys).
      { by rewrite delete_bools_length. }
      { by rewrite gather_length, length_replicate. }
      intros j x y Hj Hx Hy. destruct (lookup_lt_is_Some_2 keys j Hj) as [key Hkey].
      rewrite (gather_lookup f t keys m (length (shards st)) 0 ms _ j key) in Hx;
        [|done|by rewrite length_replicate|exact Ha|done].
      pose proof (shard_index_lt st ms key.1 Hms) as Hlt. fold f in Hlt.
      rewrite decide_True in Hx by lia. congruence.
    + exists (zip_with (sub_delete t keys)
        ((λ s, positions s 0 ((λ x, f x.1) <$> keys)) <$> seq 0 (length (shards st))) ms).
      split; [done|]. rewrite Hm. fold f. intros i mj Hj.
      apply lookup_zip_with_Some in Hj as (ixs & mi & -> & Hixs & Hmi).
      rewrite list_lookup_fmap, fmap_Some in Hixs. destruct Hixs as (s & Hs & ->).
      apply lookup_seq in Hs as [-> _]. unfold sub_delete.
      rewrite (omap_positions (λ x, f x.1)). by apply delete_fold_shard, Ha.
Qed.

Lemma sharded_put_batch_repr st m t entries : sharded_repr st m → op_ok (PutBatch t entries) →
  let r := sharded_put_batch t entries st in
  r.1 = (spec_store (PutBatch t entries) m).1 ∧
  sharded_repr r.2 (spec_store (PutBatch t entries) m).2.
Proof using HR.
  intros (ms & Hms & Ha) Hok. simpl. unfold sharded_put_batch.
  destruct entries as [|e0 entries0]; [by split; [|exists ms]|]. remember (e0 :: entries0) as entries eqn:Hent. clear Hent.
  set (f := shard_index (mask st)) in *.
  pose proof (Forall2_length _ _ _ (proj2 Hms)) as Hlen.
  destruct (forallb _ entries) eqn:Hsame.
  - pose proof (shard_index_lt st ms e0.1.1 Hms) as Hlt. fold f in Hlt.
    rewrite Hlen in Hlt. destruct (lookup_lt_is_Some_2 ms _ Hlt) as [mi Hmi].
    destruct (on_shard_spec st ms (f e0.1.1) mi _ Hms Hmi Hok) as (st' & -> & Hms' & Hm).
    simpl in *. split; [done|].
    assert (Forall (λ e, f e.1.1 = f e0.1.1) entries) as Hall.
    { apply Forall_forall. intros k Hk. rewrite forallb_forall in Hsame.
      apply (bool_decide_eq_true (f k.1.1 = f e0.1.1)), Hsame. by apply list_elem_of_In. }
    exists (<[f e0.1.1:=spec_put_batch t entries mi]> ms). split; [done|].
    rewrite Hm. fold f. intros i mj. destruct (decide (i = f e0.1.1)) as [->|Hne].
    + rewrite list_lookup_insert_eq by done. intros. simplify_eq.
      rewrite <-(filter_all _ entries Hall) at 1. by apply put_fold_shard, Ha.
    + rewrite list_lookup_insert_ne by done. intros Hj%Ha.
      pose proof (put_fold_shard f t i entries m mj Hj) as Hag.
      rewrite filter_none in Hag; [exact Hag|]. eapply Forall_impl; [exact Hall|]. simpl. congruence.
  - rewrite group_by_shard_seq.
    destruct (put_batch_shards_spec t entries
      ((λ s, positions s 0 ((λ x, f x.1.1) <$> entries)) <$> seq 0 (length (shards st)))
      [] ms st Hms) as (st' & He & Hr & Hm); [|done|].
    { by rewrite length_fmap, length_seq. }
    simpl length in He. rewrite He. clear He. simpl. simpl app in Hr. split; [done|].
    eexists. split; [exact Hr|]. rewrite Hm. fold f. intros i mj Hj.
    apply lookup_zip_with_Some in Hj as (ixs & mi & -> & Hixs & Hmi).
    rewrite list_lookup_fmap, fmap_Some in Hixs. destruct Hixs as (s & Hs & ->).
    apply lookup_seq in Hs as [-> _].
    rewrite (omap_positions (λ x, f x.1.1)). by apply put_fold_shard, Ha.
Qed.

Lemma sharded_step_refines st m o : sharded_repr st m → op_ok o →
  (sharded_store o st).1 = (spec_store o m).1 ∧ sharded_repr (sharded_store o st).2 (spec_store o m).2.
Proof using HR.
  intros Hr Hok. destruct o; try (by eapply (sharded_single st m _ pk Hr Hok eq_refl)).
  - apply (sharded_single st m (PutIfVersion table pk sk value None) pk Hr); [|done].
    destruct Hok. by split_and!.
  - by apply (sharded_single st m (Get table pk sk) pk Hr).
  - by apply sharded_delete_batch_repr.
  - by apply sharded_put_batch_repr.
Qed.
End refinement.

#[export] Instance sharded_kv_refines `{Blake3} {S} (impl : KvStore S) (R : S → kvmap → Prop)
  `{!KvRefines impl R op_ok} : KvRefines sharded_store (sharded_repr R) op_ok.
Proof. intros st m o. by apply sharded_step_refines. Qed.

(** ** Properties *)

(** C2: Sharding over redb files is invisible: whenever the crate reports no
    error, a store of any power-of-two number of redb files behaves as the
    specification of the [KvStore] trait over one map.  Calls on one partition
    are routed to the file that holds it; a batch, whether it takes the fast
    path or is split by file, returns its answers in the caller's order and
    has the effect of its elements one after the other, duplicates included;
    no index is out of bounds. *)
Theorem sharded_redb_refines {B : Blake3} {C : RedbCrate} {F : RedbFaultless C}
    (st : ShardedRedbKvStore RedbKvStore) (m : kvmap) (o : kv_op) :
  sharded_repr store_repr st m → op_ok o →
  (sharded_store o st).1 = (spec_store o m).1 ∧
  sharded_repr store_repr (sharded_store o st).2 (spec_store o m).2.
Proof. intros. by apply (sharded_step_refines store_repr). Qed.

Definition two_shards : ShardedRedbKvStore (@RedbKvStore map_crate) :=
  mkSharded [empty_redb; empty_redb] 1.

Lemma two_shards_repr : @sharded_repr toy_blake3 _ (@store_repr map_crate) two_shards ∅.
Proof.
  exists [∅; ∅]. split; [split|].
  - exists 1. split; [lia|done].
  - repeat constructor; apply empty_redb_repr.
  - intros [|[|i] ] mi Hi; simplify_eq/=; apply agree_refl.
Qed.

Lemma sharded_redb_refines_witness :
  let st := (@sharded_store toy_blake3 _ redb_store (PutBatch TABLE_BLOBS
      [("a/1", "k", "v"); ("b/2", "k", "w"); ("a/1", "l", "x")]) two_shards).2 in
  (@sharded_store toy_blake3 _ redb_store (DeleteBatch TABLE_BLOBS
      [("b/2", "k"); ("a/1", "l"); ("b/2", "k"); ("a/1", "none")]) st).1 =
    Ok [true; true; false; false].
Proof.
  intros st.
  refine (eq_trans (proj1 (@sharded_redb_refines toy_blake3 map_crate map_crate_faultless st
    (spec_store (PutBatch TABLE_BLOBS
      [("a/1", "k", "v"); ("b/2", "k", "w"); ("a/1", "l", "x")]) ∅).2
    (DeleteBatch TABLE_BLOBS [("b/2", "k"); ("a/1", "l"); ("b/2", "k"); ("a/1", "none")]) _ _)) _).
  - refine (proj2 (@sharded_redb_refines toy_blake3 map_crate map_crate_faultless two_shards ∅
      (PutBatch TABLE_BLOBS [("a/1", "k", "v"); ("b/2", "k", "w"); ("a/1", "l", "x")])
      two_shards_repr _)). by_decide.
  - by_decide.
  - vm_compute. reflexivity.
Defined.
