(* ===== verification/Prog.v ===== *)
(** * Effectful programs

    The services are async functions over shared state.  A function is modelled
    as a tree of effects ([prog]): each [await] on the key-value store, the blob
    stores, the clock, the random source and the update channels is a node, and
    the code between two awaits is the pure continuation.  [run] executes a
    program alone; [step] interleaves a pool of programs, one effect at a time,
    which is the granularity at which concurrent requests can affect each
    other.  [Spin] marks a loop that ran out of fuel.

    Parallel fan-outs over shards are modelled sequentially in a given order
    (the completion order), which is a parameter of the functions that use
    them.

    Every call on a store has a [result], and a program says what it does with
    an [Err].  The worlds of this file answer each call: in [run] and [step] a
    call on the key-value store fails only where its contract says so, and a
    call on a blob store never does.  A theorem over [run] or [step] is about
    executions in which no store breaks down.  The executions in which a call
    may fail at any moment are the [fstep]s of [Effects]. *)

From S2P Require Import Prelude Bytes Errors Keys Records Kv.

(** ** Effects *)

(** The calls on a blob store that the services make.  [BScan] collects the
    stream of a shard, given as the ids that belong to it. *)
(** core/src/store/blob.rs:47-108 *)
Inductive blob_op : Type :=
| BPut (blob_id : string) (data : bytes)
| BGet (blob_id : string)
| BExists (blob_id : string)
| BDelete (blob_id : string)
| BScan (shard : string → bool).

Definition blob_ret (o : blob_op) : Type :=
  match o with
  | BPut _ _ => Z
  | BGet _ => option bytes
  | BExists _ => bool
  | BDelete _ => unit
  | BScan _ => list (string * Z)
  end.

(** Events of the update worker and the task progress channel. *)
(** core/src/update.rs:31-40 *)
Record DirDelta : Type := mkDirDelta {
  dd_repo : string;
  dd_pk : string;
  dd_dir_path : string;
  dd_count_delta : Z;
  dd_bytes_delta : Z;
  dd_timestamp : DateTime;
}.

(** core/src/update.rs:42-47 *)
Record StoreDelta : Type := mkStoreDelta {
  sd_store : string;
  sd_count_delta : Z;
  sd_bytes_delta : Z;
}.

(** core/src/update.rs:49-54 *)
Record AtimeEvent : Type := mkAtimeEvent {
  ae_repo : string;
  ae_path : string;
  ae_timestamp : DateTime;
}.

Inductive event : Type :=
| EvDir (d : DirDelta)
| EvStore (d : StoreDelta)
| EvAtime (a : AtimeEvent)
| EvProgress (p : TaskProgress → TaskProgress).

Inductive eff : Type :=
| EKv (o : kv_op)
| EBlob (store : string) (o : blob_op)
| EStoreGet (name : string)
| ENow
| EUuid
| ESend (e : event)
| ECancelled.

Definition eff_ret (e : eff) : Type :=
  match e with
  | EKv o => result (kv_ret o)
  | EBlob _ o => result (blob_ret o)
  | EStoreGet _ => bool
  | ENow => DateTime
  | EUuid => string
  | ESend _ => unit
  | ECancelled => bool
  end.

(** ** Programs *)

Inductive prog (A : Type) : Type :=
| Ret (a : A)
| Vis (e : eff) (k : eff_ret e → prog A)
| Spin.
Arguments Ret {A} a.
Arguments Vis {A} e k.
Arguments Spin {A}.

Fixpoint bind {A B : Type} (p : prog A) (f : A → prog B) : prog B :=
  match p with
  | Ret a => f a
  | Vis e k => Vis e (λ r, bind (k r) f)
  | Spin => Spin
  end.

Definition call (e : eff) : prog (eff_ret e) := Vis e Ret.
Definition kv (o : kv_op) : prog (result (kv_ret o)) := call (EKv o).
Definition blob (store : string) (o : blob_op) : prog (result (blob_ret o)) := call (EBlob store o).

(** [let x = p.await; k]. *)
Notation "'let*' x := p 'in' k" := (bind p (λ x, k))
  (at level 10, x name, p at level 100, k at level 200) : depot_scope.

(** [let x = p.await?; k]. *)
Definition bind_ok {A B : Type} (p : prog (result A)) (f : A → prog (result B)) : prog (result B) :=
  bind p (λ r, match r with Ok a => f a | Err e => Ret (Err e) end).

Notation "'let*?' x := p 'in' k" := (bind_ok p (λ x, k))
  (at level 10, x name, p at level 100, k at level 200) : depot_scope.

(** [let x = r?; k] in a program. *)
Definition try_ {A B : Type} (r : result A) (f : A → prog (result B)) : prog (result B) :=
  match r with Ok a => f a | Err e => Ret (Err e) end.

Notation "'let!' x := r 'in' k" := (try_ r (λ x, k))
  (at level 10, x name, r at level 100, k at level 200) : depot_scope.

(** The calls of a list, one after the other, until the first error:
    [stream::iter(l).map(f).buffer_unordered(n).try_collect()] in the
    completion order [l]. *)
Fixpoint try_for {X A : Type} (l : list X) (f : X → prog (result A)) : prog (result (list A)) :=
  match l with
  | [] => Ret (Ok [])
  | x :: l =>
      let*? a := f x in
      let*? r := try_for l f in
      Ret (Ok (a :: r))
  end.

(** A loop over a list that carries state and stops at the first error. *)
Fixpoint try_fold {X A : Type} (l : list X) (f : A → X → prog (result A)) (a : A) : prog (result A) :=
  match l with
  | [] => Ret (Ok a)
  | x :: l => let*? a := f a x in try_fold l f a
  end.

(** ** Worlds *)

(** The orders in which the tasks of a fan-out complete and in which a hash
    map is iterated; [nat] tells the sites apart. *)
Class Scheduler := {
  arrange : ∀ {A : Type}, nat → list A → list A;
  arrange_perm : ∀ (A : Type) (site : nat) (l : list A), arrange site l ≡ₚ l;
}.

(** Nothing overtakes. *)
Definition in_order : Scheduler := {| arrange := λ _ _ l, l; arrange_perm := λ _ _ l, reflexivity l |}.

(** The random source: [uuid::Uuid::new_v4] as a function of the number of
    calls so far. *)
Class UuidGen := new_v4 : nat → string.

(** The state the effects act on, over a key-value store [K].  Blobs are by
    store and blob id; [w_sent] is what went through the channels, latest
    first. *)
Record world (K : Type) : Type := mkWorld {
  w_kv : K;
  w_blobs : gmap (string * string) bytes;
  w_stores : gset string;
  w_now : DateTime;
  w_uuids : nat;
  w_sent : list event;
  w_cancelled : bool;
}.
Arguments mkWorld {K} _ _ _ _ _ _ _.
Arguments w_kv {K} _.
Arguments w_blobs {K} _.
Arguments w_stores {K} _.
Arguments w_now {K} _.
Arguments w_uuids {K} _.
Arguments w_sent {K} _.
Arguments w_cancelled {K} _.

Section worlds.
Context {K : Type}.
Implicit Types w : world K.

Definition set_kv {K'} (k : K') w : world K' :=
  mkWorld k (w_blobs w) (w_stores w) (w_now w) (w_uuids w) (w_sent w) (w_cancelled w).
Definition set_blobs b w : world K :=
  mkWorld (w_kv w) b (w_stores w) (w_now w) (w_uuids w) (w_sent w) (w_cancelled w).
Definition bump_uuid w : world K :=
  mkWorld (w_kv w) (w_blobs w) (w_stores w) (w_now w) (S (w_uuids w)) (w_sent w) (w_cancelled w).
Definition push_sent e w : world K :=
  mkWorld (w_kv w) (w_blobs w) (w_stores w) (w_now w) (w_uuids w) (e :: w_sent w) (w_cancelled w).

(** The contract of the blob store trait (core/src/store/blob.rs) on a store
    that works: no call fails.  Programs match on the [result] all the same,
    and [Effects.answers] adds the calls that fail. *)
Definition blob_step (store : string) (o : blob_op) w : result (blob_ret o) * world K :=
  match o with
  | BPut id data =>
      (Ok (Z.of_nat (String.length data)), set_blobs (<[(store, id) := data]> (w_blobs w)) w)
  | BGet id => (Ok (w_blobs w !! (store, id)), w)
  | BExists id => (Ok (bool_decide (is_Some (w_blobs w !! (store, id)))), w)
  | BDelete id => (Ok tt, set_blobs (delete (store, id) (w_blobs w)) w)
  | BScan shard =>
      (Ok (omap (λ '((s, id), data), if decide (s = store ∧ shard id = true)
          then Some (id, Z.of_nat (String.length data)) else None) (map_to_list (w_blobs w))), w)
  end.

Context `{UuidGen} `{KvStore K}.

Definition handle (e : eff) (w : world K) : eff_ret e * world K :=
  match e with
  | EKv o => let '(r, k) := kv_step o (w_kv w) in (r, set_kv k w)
  | EBlob store o => blob_step store o w
  | EStoreGet name => (bool_decide (name ∈ w_stores w), w)
  | ENow => (w_now w, w)
  | EUuid => (new_v4 (w_uuids w), bump_uuid w)
  | ESend ev => (tt, push_sent ev w)
  | ECancelled => (w_cancelled w, w)
  end.

(** A program that runs alone. *)
Fixpoint run {A : Type} (p : prog A) (w : world K) : option A * world K :=
  match p with
  | Ret a => (Some a, w)
  | Vis e k => let '(r, w) := handle e w in run (k r) w
  | Spin => (None, w)
  end.

Lemma run_bind {A B} (p : prog A) (f : A → prog B) w :
  run (bind p f) w =
    match run p w with
    | (Some a, w) => run (f a) w
    | (None, w) => (None, w)
    end.
Proof.
  revert w. induction p as [a|e k IH|]; intros w; simpl; [done| |done].
  destruct (handle e w) as [r w']. apply IH.
Qed.

Lemma run_bind_ok {A B} (p : prog (result A)) (f : A → prog (result B)) w :
  run (bind_ok p f) w =
    match run p w with
    | (Some (Ok a), w) => run (f a) w
    | (Some (Err e), w) => (Some (Err e), w)
    | (None, w) => (None, w)
    end.
Proof.
  unfold bind_ok. rewrite run_bind. by destruct (run p w) as [ [ [a|e]|] w'].
Qed.

Lemma run_kv o w :
  run (kv o) w = (Some (kv_step o (w_kv w)).1, set_kv (kv_step o (w_kv w)).2 w).
Proof. simpl. by destruct (kv_step o (w_kv w)). Qed.

(** ** Pools *)

(** One effect of one program of the pool. *)
Inductive step {A : Type} : list (prog A) * world K → list (prog A) * world K → Prop :=
| step_vis ps1 e k ps2 w :
    step (ps1 ++ Vis e k :: ps2, w)
         (ps1 ++ k (handle e w).1 :: ps2, (handle e w).2).

(** The effect of one program. *)
Definition prog_step {A : Type} (p : prog A) (w : world K) : option (prog A * world K) :=
  match p with
  | Vis e k => Some (k (handle e w).1, (handle e w).2)
  | _ => None
  end.

(** A step of the pool is a step of one of its programs. *)
Lemma step_inv {A} (ps ps' : list (prog A)) w w' :
  step (ps, w) (ps', w') ↔
    ∃ i p p', ps !! i = Some p ∧ prog_step p w = Some (p', w') ∧ ps' = <[i := p']> ps.
Proof.
  split.
  - inversion 1; subst. exists (length ps1), (Vis e k), (k (handle e w).1).
    rewrite list_lookup_middle by done. split_and!; [done|done|].
    by rewrite insert_app_r_alt, Nat.sub_diag.
  - intros (i & p & p' & Hi & Hp & ->). destruct p as [|e k|]; simplify_eq/=.
    apply list_elem_of_split_length in Hi as (ps1 & ps2 & -> & ->).
    rewrite insert_app_r_alt, Nat.sub_diag by done. simpl. constructor.
Qed.

Definition steps {A : Type} : relation (list (prog A) * world K) := rtc step.

(** One step of a given program, then the rest of the run. *)
Lemma steps_call {A} (i : nat) (ps : list (prog A)) p p' w w' c :
  ps !! i = Some p → prog_step p w = Some (p', w') → steps (<[i := p']> ps, w') c → steps (ps, w) c.
Proof. intros Hi Hp Hs. eapply rtc_l; [|done]. apply step_inv. by exists i, p, p'. Qed.

(** The pool under a schedule of program indices. *)
Fixpoint pool_run {A : Type} (schedule : list nat) (c : list (prog A) * world K) :
    list (prog A) * world K :=
  match schedule with
  | [] => c
  | i :: schedule =>
      pool_run schedule
        match c.1 !! i ≫= λ p, prog_step p c.2 with
        | Some (p, w) => (<[i := p]> c.1, w)
        | None => c
        end
  end.

Lemma pool_run_steps {A} schedule (c : list (prog A) * world K) : steps c (pool_run schedule c).
Proof.
  revert c. induction schedule as [|i schedule IH]; intros [ps w]; simpl; [apply rtc_refl|].
  destruct (ps !! i) as [p|] eqn:Hi; simpl; [|apply IH].
  destruct (prog_step p w) as [ [p' w']|] eqn:Hp; [|apply IH].
  eapply rtc_l; [|apply IH]. apply step_inv. by exists i, p, p'.
Qed.

(** An invariant of the pool that every step preserves holds of every
    reachable state. *)
Lemma steps_invariant {A} (I : list (prog A) * world K → Prop) c c' :
  (∀ c c', I c → step c c' → I c') → I c → steps c c' → I c'.
Proof. intros HI Hc Hs. induction Hs; eauto. Qed.
End worlds.

(** ** Change of backend

    A program that runs on a store that refines the specification behaves as
    it does on the specification, as long as each of its calls is one for
    which the refinement holds. *)

Definition world_rel {K} (R : K → kvmap → Prop) (w : world K) (m : world kvmap) : Prop :=
  R (w_kv w) (w_kv m) ∧ m = set_kv (w_kv m) w.

Fixpoint trace_ok {A : Type} `{UuidGen} (P : kv_op → Prop) (p : prog A) (m : world kvmap) : Prop :=
  match p with
  | Vis e k =>
      (match e with EKv o => P o | _ => True end) ∧
      trace_ok P (k (handle e m).1) (handle e m).2
  | _ => True
  end.

Lemma run_refines_spec {K A : Type} `{UuidGen} (impl : KvStore K) (R : K → kvmap → Prop) (P : kv_op → Prop)
    `{!KvRefines impl R P} (p : prog A) w m :
  world_rel R w m → trace_ok P p m →
  (run p w).1 = (run p m).1 ∧ world_rel R (run p w).2 (run p m).2.
Proof.
  revert w m. induction p as [a|e k IH|]; intros w m Hw Ht; simpl in *; [done| |done].
  destruct Ht as [Hop Ht]. destruct Hw as [HR Hm].
  assert ((handle e w).1 = (handle e m).1 ∧ world_rel R (handle e w).2 (handle e m).2) as [Hr Hw'].
  { destruct e; simpl.
    - destruct (kv_refines (w_kv w) (w_kv m) o HR Hop) as [Hres HR'].
      destruct (kv_step o (w_kv w)) as [r1 k1]. change (kv_step o (w_kv m)) with (spec_store o (w_kv m)).
      destruct (spec_store o (w_kv m)) as [r2 k2]. simpl in *. split; [done|].
      split; [done|]. rewrite Hm. by destruct w.
    - rewrite Hm. destruct o, w; (split; [done|]); split; done.
    - rewrite Hm. by destruct w.
    - rewrite Hm. by destruct w.
    - rewrite Hm. by destruct w.
    - rewrite Hm. by destruct w.
    - rewrite Hm. by destruct w. }
  destruct (handle e w) as [r1 w1], (handle e m) as [r2 m2]. simpl in *. subst r2.
  by apply IH.
Qed.

(** A world for the witnesses. *)
Definition world_of (m : kvmap) : world kvmap := mkWorld m ∅ ∅ 0%Z 0 [] false.

Definition toy_uuid : UuidGen := λ n, "uuid-" +:+ show_uint (N.of_nat n).

Lemma world_rel_refl (m : world kvmap) : world_rel eq m m.
Proof. split; [done|]. by destruct m. Qed.

(** ** Running on the specification *)

Section run_spec.
Context `{UuidGen}.
Implicit Types w : world kvmap.

Lemma run_kv_spec o w :
  run (kv o) w = (Some (spec_store o (w_kv w)).1, set_kv (spec_store o (w_kv w)).2 w).
Proof. apply run_kv. Qed.

Lemma set_kv_id w : set_kv (w_kv w) w = w.
Proof. by destruct w. Qed.

Lemma set_kv_twice (k1 k2 : kvmap) w : set_kv k2 (set_kv k1 w) = set_kv k2 w.
Proof. done. Qed.
(** Reads in a row. *)
Lemma run_try_for_pure {X A} (f : X → prog (result A)) (g : X → A) (xs : list X) w :
  (∀ x, x ∈ xs → run (f x) w = (Some (Ok (g x)), w)) →
  run (try_for xs f) w = (Some (Ok (g <$> xs)), w).
Proof.
  induction xs as [|x xs IH]; intros Hf; [done|]. cbn [try_for].
  rewrite run_bind_ok, (Hf x) by by left.
  rewrite run_bind_ok, IH by (intros; apply Hf; by right). done.
Qed.
End run_spec.

(** One effect of a program that runs on the specification. *)
Ltac run_cbn := cbn [run spec_store fst snd w_kv set_kv try_ serde_result].
Ltac run_kv_step :=
  first [rewrite run_kv_spec | rewrite (run_kv_spec (Put _ _ _ _))
        | rewrite (run_kv_spec (PutBatch _ _)) | rewrite (run_kv_spec (Delete _ _ _))
        | rewrite (run_kv_spec (PutIfAbsent _ _ _ _)) | rewrite (run_kv_spec (PutIfVersion _ _ _ _ _))
        | rewrite (run_kv_spec (DeleteBatch _ _)) ].
Ltac run_step := first [rewrite run_bind_ok | rewrite run_bind | run_kv_step]; run_cbn.
Ltac run_steps := run_cbn; repeat run_step; rewrite ?set_kv_id, ?set_kv_twice.
