(* ===== verification/Wp.v ===== *)
(** * Weakest preconditions

    [wp p w Q]: the program [p], run alone on the specification from the world
    [w], returns a value and a world that satisfy [Q].  It is a statement of
    total correctness: a program that runs out of fuel has no weakest
    precondition.  The rules follow the constructs of the programs. *)

From S2P Require Import Prelude Bytes Errors Keys Records Kv Prog.

Section wp.
Context `{UuidGen}.
Implicit Types (w : world kvmap).

Definition wp {A : Type} (p : prog A) (w : world kvmap) (Q : A → world kvmap → Prop) : Prop :=
  match run p w with
  | (Some a, w') => Q a w'
  | (None, _) => False
  end.

Lemma wp_run {A} (p : prog A) w (Q : A → world kvmap → Prop) : wp p w Q → ∃ a w', run p w = (Some a, w') ∧ Q a w'.
Proof. unfold wp. destruct (run p w) as [ [a|] w']; [|done]. by eauto. Qed.

Lemma wp_intro {A} (p : prog A) w (a : A) w' (Q : A → world kvmap → Prop) :
  run p w = (Some a, w') → Q a w' → wp p w Q.
Proof. unfold wp. by intros ->. Qed.

Lemma wp_mono {A} (p : prog A) w (Q Q' : A → world kvmap → Prop) :
  wp p w Q → (∀ a w', Q a w' → Q' a w') → wp p w Q'.
Proof. unfold wp. destruct (run p w) as [ [a|] w']; auto. Qed.

Lemma wp_ret {A} (a : A) w (Q : A → world kvmap → Prop) : Q a w → wp (Ret a) w Q.
Proof. done. Qed.

Lemma wp_bind {A B} (p : prog A) (f : A → prog B) w (Q : B → world kvmap → Prop) :
  wp p w (λ a w', wp (f a) w' Q) → wp (bind p f) w Q.
Proof. unfold wp. rewrite run_bind. by destruct (run p w) as [ [a|] w']. Qed.

Lemma wp_bind_ok {A B} (p : prog (result A)) (f : A → prog (result B)) w (Q : result B → world kvmap → Prop) :
  wp p w (λ r w', match r with Ok a => wp (f a) w' Q | Err e => Q (Err e) w' end) →
  wp (bind_ok p f) w Q.
Proof. unfold wp. rewrite run_bind_ok. by destruct (run p w) as [ [ [a|e]|] w']. Qed.

Lemma wp_try {A B} (r : result A) (f : A → prog (result B)) w (Q : result B → world kvmap → Prop) :
  (∀ a, r = Ok a → wp (f a) w Q) → (∀ e, r = Err e → Q (Err e) w) → wp (try_ r f) w Q.
Proof. destruct r as [a|e]; cbn [try_]; intros Ha He; [by apply Ha|by apply He]. Qed.

Lemma wp_kv o w (Q : result (kv_ret o) → world kvmap → Prop) :
  Q (spec_store o (w_kv w)).1 (set_kv (spec_store o (w_kv w)).2 w) → wp (kv o) w Q.
Proof. intros HQ. eapply wp_intro; [apply run_kv_spec|done]. Qed.

Lemma wp_call e w (Q : eff_ret e → world kvmap → Prop) : Q (handle e w).1 (handle e w).2 → wp (call e) w Q.
Proof. unfold wp. cbn [call run]. by destruct (handle e w). Qed.

(** Answers of the reading calls of the specification. *)
Lemma wp_read o w (Q : result (kv_ret o) → world kvmap → Prop) :
  (spec_store o (w_kv w)).2 = w_kv w → Q (spec_store o (w_kv w)).1 w → wp (kv o) w Q.
Proof. intros Hw HQ. apply wp_kv. by rewrite Hw, set_kv_id. Qed.

(** ** Loops over lists *)

(** An invariant of a loop that carries state: [I l a w], with [l] the
    elements that are left. *)
Lemma wp_try_fold {X A} (f : A → X → prog (result A)) (I : list X → A → world kvmap → Prop) (l : list X) (a : A) w
    (Q : result A → world kvmap → Prop) :
  I l a w →
  (∀ (x : X) (l : list X) (a : A) w, I (x :: l) a w →
     wp (f a x) w (λ r w', match r with Ok a' => I l a' w' | Err e => Q (Err e) w' end)) →
  (∀ (a : A) w, I [] a w → Q (Ok a) w) →
  wp (try_fold l f a) w Q.
Proof.
  intros Hi Hstep Hend. revert a w Hi. induction l as [|x l IH]; intros a w Hi; cbn [try_fold].
  - by apply wp_ret, Hend.
  - apply wp_bind_ok. eapply wp_mono; [by apply Hstep|]. intros [a'|e] w' Hr; [by apply IH|done].
Qed.

Lemma wp_try_for {X A} (f : X → prog (result A)) (I : list X → list A → world kvmap → Prop) (l : list X) w
    (Q : result (list A) → world kvmap → Prop) :
  I l [] w →
  (∀ (x : X) (l : list X) (acc : list A) w, I (x :: l) acc w →
     wp (f x) w (λ r w', match r with Ok a => I l (acc ++ [a]) w' | Err e => Q (Err e) w' end)) →
  (∀ (acc : list A) w, I [] acc w → Q (Ok acc) w) →
  wp (try_for l f) w Q.
Proof.
  intros Hi Hstep Hend.
  cut (∀ (acc : list A) w, I l acc w → wp (try_for l f) w (λ r w', match r with
    | Ok xs => Q (Ok (acc ++ xs)) w' | Err e => Q (Err e) w' end)).
  { intros Hcut. eapply wp_mono; [by apply (Hcut [])|]. by intros [xs|e] w'. }
  clear Hi. revert Hstep. induction l as [|x l IH]; intros Hstep acc w' Hi; cbn [try_for].
  - apply wp_ret. rewrite app_nil_r. by apply Hend.
  - apply wp_bind_ok. eapply wp_mono; [by apply Hstep|]. intros [a|e] w2 Hr; [|done].
    apply wp_bind_ok. eapply wp_mono; [by apply IH|]. intros [xs|e] w3 H3; [|done].
    apply wp_ret. by rewrite <-(assoc_L (++)) in H3.
Qed.
End wp.

(** ** Frames

    What a program may change of the world.  A frame is a preorder on worlds;
    a program within a frame also terminates. *)

Section frames.
Context `{UuidGen}.
Implicit Types (w : world kvmap).

Definition within {A : Type} (F : relation (world kvmap)) (p : prog A) : Prop :=
  ∀ w, wp p w (λ _ w', F w w').

Context (F : relation (world kvmap)) `{!PreOrder F}.

Lemma within_ret {A} (a : A) : within F (Ret a).
Proof using PreOrder0. intros w. by apply wp_ret. Qed.

Lemma within_bind {A B} (p : prog A) (f : A → prog B) :
  within F p → (∀ a, within F (f a)) → within F (bind p f).
Proof using PreOrder0.
  intros Hp Hf w. apply wp_bind. eapply wp_mono; [apply Hp|]. intros a w1 H1.
  eapply wp_mono; [apply Hf|]. intros b w2 H2. by transitivity w1.
Qed.

Lemma within_bind_ok {A B} (p : prog (result A)) (f : A → prog (result B)) :
  within F p → (∀ a, within F (f a)) → within F (bind_ok p f).
Proof using PreOrder0.
  intros Hp Hf w. apply wp_bind_ok. eapply wp_mono; [apply Hp|]. intros [a|e] w1 H1; [|done].
  eapply wp_mono; [apply Hf|]. intros b w2 H2. by transitivity w1.
Qed.

Lemma within_try {A B} (r : result A) (f : A → prog (result B)) :
  (∀ a, within F (f a)) → within F (try_ r f).
Proof using PreOrder0. intros Hf. destruct r; cbn [try_]; [apply Hf|apply within_ret]. Qed.

Lemma within_call e : (∀ w, F w (handle e w).2) → within F (call e).
Proof. intros He w. by apply wp_call. Qed.

Lemma within_kv o : (∀ w, F w (set_kv (spec_store o (w_kv w)).2 w)) → within F (kv o).
Proof. intros He w. by apply wp_kv. Qed.

Lemma within_try_for {X A} (f : X → prog (result A)) l :
  (∀ x, within F (f x)) → within F (try_for l f).
Proof using PreOrder0.
  intros Hf. induction l as [|x l IH]; cbn [try_for]; [apply within_ret|].
  apply within_bind_ok; [apply Hf|]. intros a. apply within_bind_ok; [apply IH|]. intros r. apply within_ret.
Qed.

Lemma within_try_fold {X A} (f : A → X → prog (result A)) l a :
  (∀ a x, within F (f a x)) → within F (try_fold l f a).
Proof using PreOrder0.
  intros Hf. revert a. induction l as [|x l IH]; intros a; cbn [try_fold]; [apply within_ret|].
  apply within_bind_ok; [apply Hf|]. intros a'. apply IH.
Qed.
End frames.

Lemma within_weaken `{UuidGen} {A : Type} (F F' : relation (world kvmap)) (p : prog A) :
  within F p → (∀ w w', F w w' → F' w w') → within F' p.
Proof. intros Hp HF w. eapply wp_mono; [apply Hp|]. auto. Qed.

(** Runs of the straight-line constructs. *)
Create HintDb frame.
#[export] Hint Resolve within_ret within_bind within_bind_ok within_try within_try_for
  within_try_fold : frame.
