(* ===== verification/Effects.v ===== *)
(** * What a program may do

    [issues P p]: whatever the answers are, each effect of [p] satisfies [P].
    It is a property of the text of the program: it holds under any
    interleaving and at every moment, also when the stores fail ([fstep]).
    [always I p w Q]: run alone on the specification from [w], [p] keeps the
    invariant [I] at every moment, and when it returns then [Q] holds.
    [ensures Q p]: whatever the answers are, what [p] returns satisfies [Q]. *)

From S2P Require Import Prelude Bytes Errors Keys Records Kv Prog Wp.

(** ** Effects by form *)

Fixpoint issues {A : Type} (P : eff → Prop) (p : prog A) : Prop :=
  match p with
  | Ret _ | Spin => True
  | Vis e k => P e ∧ ∀ r, issues P (k r)
  end.

Section issues.
Context (P : eff → Prop).

Lemma issues_ret {A} (a : A) : issues P (Ret a).
Proof. done. Qed.

Lemma issues_call e : P e → issues P (call e).
Proof. done. Qed.

Lemma issues_kv o : P (EKv o) → issues P (kv o).
Proof. done. Qed.

Lemma issues_blob store o : P (EBlob store o) → issues P (blob store o).
Proof. done. Qed.

Lemma issues_bind {A B} (p : prog A) (f : A → prog B) :
  issues P p → (∀ a, issues P (f a)) → issues P (bind p f).
Proof.
  intros Hp Hf. induction p as [a|e k IH|]; cbn in *; [apply Hf| |done].
  destruct Hp as [He Hk]. split; [done|]. intros r. by apply IH.
Qed.

Lemma issues_bind_ok {A B} (p : prog (result A)) (f : A → prog (result B)) :
  issues P p → (∀ a, issues P (f a)) → issues P (bind_ok p f).
Proof. intros Hp Hf. apply issues_bind; [done|]. by intros [a|e]. Qed.

Lemma issues_try {A B} (r : result A) (f : A → prog (result B)) : (∀ a, issues P (f a)) → issues P (try_ r f).
Proof. destruct r; cbn; auto. Qed.

Lemma issues_try_for {X A} (f : X → prog (result A)) l : (∀ x, issues P (f x)) → issues P (try_for l f).
Proof.
  intros Hf. induction l as [|x l IH]; cbn [try_for]; [done|].
  apply issues_bind_ok; [done|]. intros a. by apply issues_bind_ok.
Qed.

Lemma issues_try_fold {X A} (f : A → X → prog (result A)) l a : (∀ a x, issues P (f a x)) → issues P (try_fold l f a).
Proof.
  intros Hf. revert a. induction l as [|x l IH]; intros a; cbn [try_fold]; [done|].
  apply issues_bind_ok; [done|]. intros a'. apply IH.
Qed.

(** A relation that every effect respects is respected by the pool. *)
Lemma issues_steps {K A} `{UuidGen} `{KvStore K} (F : relation (world K)) `{!PreOrder F}
    (ps ps' : list (prog A)) (w w' : world K) :
  (∀ e w, P e → F w (handle e w).2) → Forall (issues P) ps → steps (ps, w) (ps', w') → F w w'.
Proof.
  intros HF Hps Hs.
  enough (Forall (issues P) ps' ∧ F w w') by tauto.
  apply (steps_invariant (λ c, Forall (issues P) c.1 ∧ F w c.2) (ps, w) (ps', w')); [|done|done].
  intros [ps1 w1] [ps2 w2] [H1' H2'] (i & p & p' & Hi & Hp & ->)%step_inv. cbn [fst snd] in *.
  rewrite Forall_lookup in H1'. pose proof (H1' i p Hi) as Hip. destruct p as [|e k|]; simplify_eq/=.
  destruct Hip as [He Hk]. split; [|by etrans; [|apply HF]].
  apply Forall_insert; [|by apply Hk]. by apply Forall_lookup.
Qed.
End issues.

(** ** Stores that fail

    [handle] answers every call as the contract of the store says.  The calls
    of the traits (core/src/store/kv/trait_def.rs, core/src/store/blob.rs)
    return a [Result], and an I/O error may come at any time: in
    [answers] a call on a store may return any error, and then each entry that
    it was to change is as it was or as it should have become, so that a batch
    may have been applied in part. *)

Inductive answers `{UuidGen} (w : world kvmap) : ∀ e : eff, eff_ret e → world kvmap → Prop :=
| answer_done (e : eff) : answers w e (handle e w).1 (handle e w).2
| answer_kv_failed (o : kv_op) (err : DepotError) (m : kvmap) :
    (∀ k, m !! k = w_kv w !! k ∨ m !! k = (spec_store o (w_kv w)).2 !! k) →
    answers w (EKv o) (Err err) (set_kv m w)
| answer_blob_failed (store : string) (o : blob_op) (err : DepotError) (b : gmap (string * string) bytes) :
    b = w_blobs w ∨ b = w_blobs (blob_step store o w).2 →
    answers w (EBlob store o) (Err err) (set_blobs b w).

(** One call of one program of the pool, answered or failed. *)
Inductive fstep `{UuidGen} {A : Type} : list (prog A) * world kvmap → list (prog A) * world kvmap → Prop :=
| fstep_vis ps1 e k ps2 w r w' :
    answers w e r w' → fstep (ps1 ++ Vis e k :: ps2, w) (ps1 ++ k r :: ps2, w').

Definition fsteps `{UuidGen} {A : Type} : relation (list (prog A) * world kvmap) := rtc fstep.

(** What happens without failures is among what may happen. *)
Lemma step_fstep `{UuidGen} {A : Type} (c c' : list (prog A) * world kvmap) : step c c' → fstep c c'.
Proof. inversion 1; subst. constructor. constructor. Qed.

Lemma steps_fsteps `{UuidGen} {A : Type} (c c' : list (prog A) * world kvmap) : steps c c' → fsteps c c'.
Proof. intros Hs. eapply rtc_subrel; [|exact Hs]. apply step_fstep. Qed.

(** A relation that every effect respects, failed or not, is respected by the
    pool: [issues] ranges over all answers. *)
Lemma issues_fsteps (P : eff → Prop) {A : Type} `{UuidGen} (F : relation (world kvmap)) `{!PreOrder F}
    (ps ps' : list (prog A)) (w w' : world kvmap) :
  (∀ e w r w', P e → answers w e r w' → F w w') → Forall (issues P) ps → fsteps (ps, w) (ps', w') → F w w'.
Proof.
  intros HF Hps Hs. enough (Forall (issues P) ps' ∧ F w w') by tauto.
  remember (ps, w) as c eqn:Hc. remember (ps', w') as c' eqn:Hc'. revert ps w Hc Hps.
  induction Hs as [c|c c1 c' Hstep _ IH]; intros ps w Hc Hps; subst; [by simplify_eq|].
  inversion Hstep as [ps1 e k ps2 w0 r w1 Ha]; simplify_eq.
  apply Forall_app in Hps as [Hps1 [ [He Hk] Hps2]%Forall_cons].
  destruct (IH eq_refl (ps1 ++ k r :: ps2) w1 eq_refl) as [? ?].
  { apply Forall_app. split; [done|]. by constructor. }
  split; [done|]. etrans; [by eapply HF|done].
Qed.

Lemma issues_mono {A} (P Q : eff → Prop) (p : prog A) : (∀ e, P e → Q e) → issues P p → issues Q p.
Proof. intros HPQ. induction p as [a|e k IH|]; cbn; [done| |done]. intros [He Hk]. split; auto. Qed.

Create HintDb issues.
#[export] Hint Resolve issues_ret issues_bind issues_bind_ok issues_try issues_try_for issues_try_fold : issues.

(** [may_change o k]: the operation may change the entry [k]. *)
Definition may_change (o : kv_op) (k : string * string * string) : Prop :=
  match o with
  | Put t pk sk _ | PutIfVersion t pk sk _ _ | PutIfAbsent t pk sk _ | Delete t pk sk
  | DeleteIfVersion t pk sk _ | DeleteReturning t pk sk => k = (t, pk, sk)
  | DeleteBatch t keys => k.1.1 = t ∧ (k.1.2, k.2) ∈ keys
  | PutBatch t entries => k.1.1 = t ∧ (k.1.2, k.2) ∈ entries.*1
  | _ => False
  end.

Lemma spec_put_ne (k k' : string * string * string) (v : bytes) (m : kvmap) : k' ≠ k → spec_put k v m !! k' = m !! k'.
Proof. intros Hne. unfold spec_put. by apply lookup_insert_ne. Qed.

Lemma spec_store_unchanged (o : kv_op) (k : string * string * string) (m : kvmap) : ¬ may_change o k → (spec_store o m).2 !! k = m !! k.
Proof.
  intros Hc. destruct o; cbn [spec_store snd may_change] in *; try done.
  - by apply spec_put_ne.
  - unfold spec_put_if_version. repeat case_match; simplify_eq/=; [by apply lookup_insert_ne|done].
  - unfold spec_put_if_version. repeat case_match; simplify_eq/=; [by apply lookup_insert_ne|done].
  - by apply lookup_delete_ne.
  - repeat case_match; simplify_eq/=; try done. by apply lookup_delete_ne.
  - by apply lookup_delete_ne.
  - rewrite spec_delete_batch_eq. cbn [snd]. clear -Hc. revert m Hc. induction keys as [|[pk sk] keys IH]; intros m Hc; [done|].
    cbn [foldl]. rewrite IH.
    + apply lookup_delete_ne. intros <-. apply Hc. split; [done|by left].
    + intros [? ?]. apply Hc. split; [done|by right].
  - revert m Hc. induction entries as [|[ [pk sk] v] entries IH]; intros m Hc; [done|].
    change (spec_put_batch table ((pk, sk, v) :: entries) m) with (spec_put_batch table entries (spec_put (table, pk, sk) v m)).
    rewrite IH.
    + apply spec_put_ne. intros ->. apply Hc. split; [done|by left].
    + intros [? ?]. apply Hc. split; [done|by right].
Qed.

(** An insertion that only succeeds when the key is free leaves what is there. *)
Lemma spec_put_if_absent_present (t pk sk : string) (v : bytes) (k : string * string * string) (x : bytes * Z) (m : kvmap) :
  m !! k = Some x → (spec_store (PutIfAbsent t pk sk v) m).2 !! k = Some x.
Proof.
  intros Hk. destruct (decide (k = (t, pk, sk))) as [->|Hne]; [|by rewrite spec_store_unchanged].
  cbn [spec_store]. unfold spec_put_if_version. by rewrite Hk.
Qed.

(** ** Keys that are written *)

(** The effect writes no key outside [W] and no blob, sends no event and
    draws no id. *)
Definition within_keys (W : string * string * string → Prop) (e : eff) : Prop :=
  match e with
  | EKv o => ∀ k, may_change o k → W k
  | EBlob _ (BPut _ _) | EBlob _ (BDelete _) | EUuid | ESend _ => False
  | _ => True
  end.

(** One construct of a program, then its parts. *)
Ltac issues_step :=
  lazymatch goal with
  | |- issues _ (Ret _) => exact Logic.I
  | |- issues _ Spin => exact Logic.I
  | |- issues _ (bind _ _) => apply issues_bind; [|intros ?]
  | |- issues _ (bind_ok _ _) => apply issues_bind_ok; [|intros ?]
  | |- issues _ (try_ _ _) => apply issues_try; intros ?
  | |- issues _ (call _) => apply issues_call
  | |- issues _ (kv _) => apply issues_kv
  | |- issues _ (blob _ _) => apply issues_blob
  | |- issues _ (try_for _ _) => apply issues_try_for; intros ?
  | |- issues _ (try_fold _ _ _) => apply issues_try_fold; intros ? ?
  | |- issues _ (match ?x with _ => _ end) => destruct x
  | |- issues _ (let '_ := ?x in _) => destruct x
  end.

Ltac issues_tac := repeat (first [issues_step | solve [eauto with issues] ]); try (intros ?; cbn; tauto); try done.

(** Effects that only ask. *)
Abbreviation reads := (within_keys (λ _, False)).

Lemma handle_reads `{UuidGen} (e : eff) (w : world kvmap) : reads e → (handle e w).2 = w.
Proof.
  intros He. destruct e as [o|store o| | | |ev|]; cbn [handle]; try done; [|by destruct o].
  change (kv_step o (w_kv w)) with (spec_store o (w_kv w)).
  assert ((spec_store o (w_kv w)).2 = w_kv w) as Hm.
  { apply map_eq. intros k. apply spec_store_unchanged. exact (He k). }
  destruct (spec_store o (w_kv w)) as [r m']. cbn [snd] in *. rewrite Hm. by destruct w.
Qed.

Lemma run_reads `{UuidGen} {A} (p : prog A) (w : world kvmap) : issues reads p → (run p w).2 = w.
Proof.
  revert w. induction p as [a|e k IH|]; intros w Hp; cbn [run]; [done| |done]. destruct Hp as [He Hk].
  pose proof (handle_reads e w He) as Hw. destruct (handle e w) as [r w']. cbn [snd] in Hw. subst w'. by apply IH.
Qed.

(** A failed call of a program that only asks changes nothing either. *)
Lemma answers_reads `{UuidGen} (e : eff) (w : world kvmap) (r : eff_ret e) (w' : world kvmap) :
  reads e → answers w e r w' → w' = w.
Proof.
  intros He Ha. pose proof (handle_reads e w He) as Hw. destruct Ha as [e|o err m Hm|store o err b Hb]; [done| |].
  - cbn [handle] in Hw. change (kv_step o (w_kv w)) with (spec_store o (w_kv w)) in Hw.
    destruct (spec_store o (w_kv w)) as [r0 m0] eqn:Hs. cbn [snd] in Hw, Hm.
    assert (m0 = w_kv w) as -> by exact (f_equal w_kv Hw).
    assert (m = w_kv w) as -> by (apply map_eq; intros k; by destruct (Hm k)). by destruct w.
  - assert (w_blobs (blob_step store o w).2 = w_blobs w) as Hb' by exact (f_equal w_blobs Hw).
    rewrite Hb' in Hb. destruct Hb as [-> | ->]; by destruct w.
Qed.

Lemma within_keys_mono (W W' : string * string * string → Prop) (e : eff) :
  (∀ k, W k → W' k) → within_keys W e → within_keys W' e.
Proof. intros HW He. destruct e as [o|? []| | | | |]; try done. intros k Hk. by apply HW, He. Qed.

(** ** What a program returns *)

Fixpoint ensures {A : Type} (Q : A → Prop) (p : prog A) : Prop :=
  match p with
  | Ret a => Q a
  | Vis e k => ∀ r, ensures Q (k r)
  | Spin => True
  end.

Lemma ensures_mono {A : Type} (Q Q' : A → Prop) (p : prog A) : (∀ a, Q a → Q' a) → ensures Q p → ensures Q' p.
Proof. intros HQ. induction p as [a|e k IH|]; cbn; [apply HQ| |done]. intros Hk r. by apply IH. Qed.

Lemma ensures_any {A : Type} (p : prog A) : ensures (λ _, True) p.
Proof. by induction p. Qed.

Lemma ensures_bind {A B : Type} (p : prog B) (f : B → prog A) (Q : A → Prop) : ensures (λ b, ensures Q (f b)) p → ensures Q (bind p f).
Proof. induction p as [b|e k IH|]; cbn; [done| |done]. intros Hk r. by apply IH. Qed.

(** The next step, about whose answer nothing is known. *)
Lemma ensures_then {A B : Type} (p : prog B) (f : B → prog A) (Q : A → Prop) : (∀ b, ensures Q (f b)) → ensures Q (bind p f).
Proof. intros Hf. apply ensures_bind. eapply ensures_mono; [|apply ensures_any]. intros b _. apply Hf. Qed.

Lemma ensures_run `{UuidGen} {A : Type} (Q : A → Prop) (p : prog A) (w w' : world kvmap) (a : A) : ensures Q p → run p w = (Some a, w') → Q a.
Proof.
  revert w. induction p as [b|e k IH|]; intros w Hp Hr; cbn [run] in Hr; [by simplify_eq| |done].
  destruct (handle e w) as [r w1]. by eapply IH.
Qed.

Lemma wp_ensures `{UuidGen} {A : Type} (Q : A → Prop) (p : prog A) (w : world kvmap) (Q' : A → world kvmap → Prop) :
  ensures Q p → wp p w Q' → wp p w (λ a w', Q a ∧ Q' a w').
Proof.
  unfold wp. intros Hp Hw. destruct (run p w) as [ [a|] w'] eqn:Hr; [|done]. split; [|done]. by eapply ensures_run.
Qed.

(** ** Invariants at every moment *)

Section always.
Context `{UuidGen} (I : world kvmap → Prop).
Implicit Types (w : world kvmap).

Fixpoint always {A : Type} (p : prog A) (w : world kvmap) (Q : A → world kvmap → Prop) : Prop :=
  I w ∧ match p with
        | Ret a => Q a w
        | Vis e k => always (k (handle e w).1) (handle e w).2 Q
        | Spin => True
        end.

Lemma always_here {A} (p : prog A) w Q : always p w Q → I w.
Proof. by destruct p; intros [? _]. Qed.

Lemma always_ret {A} (a : A) w (Q : A → world kvmap → Prop) : I w → Q a w → always (Ret a) w Q.
Proof. done. Qed.

Lemma always_mono {A} (p : prog A) w (Q Q' : A → world kvmap → Prop) :
  always p w Q → (∀ a w', I w' → Q a w' → Q' a w') → always p w Q'.
Proof.
  intros Hp HQ. revert w Hp. induction p as [a|e k IH|]; intros w [HI Hp]; (split; [done|]); [by apply HQ|by apply IH|done].
Qed.

Lemma always_bind {A B} (p : prog A) (f : A → prog B) w Q :
  always p w (λ a w', always (f a) w' Q) → always (bind p f) w Q.
Proof.
  revert w. induction p as [a|e k IH|]; intros w [HI Hp]; cbn [bind]; [done| |done].
  split; [done|]. by apply IH.
Qed.

Lemma always_bind_ok {A B} (p : prog (result A)) (f : A → prog (result B)) w Q :
  always p w (λ r w', match r with Ok a => always (f a) w' Q | Err e => Q (Err e) w' end) →
  always (bind_ok p f) w Q.
Proof.
  intros Hp. apply always_bind. eapply always_mono; [exact Hp|]. by intros [a|e] w' HI HQ.
Qed.

Lemma always_call e w (Q : eff_ret e → world kvmap → Prop) :
  I w → I (handle e w).2 → Q (handle e w).1 (handle e w).2 → always (call e) w Q.
Proof. by cbn. Qed.

(** A program whose effects keep the invariant. *)
Lemma always_issues {A} (P : eff → Prop) (p : prog A) w :
  (∀ e w, P e → I w → I (handle e w).2) → issues P p → I w → always p w (λ _ _, True).
Proof.
  intros HP. revert w. induction p as [a|e k IH|]; intros w Hp HI; (split; [done|]); [done| |done].
  destruct Hp as [He Hk]. apply IH; [done|by apply HP].
Qed.

(** The run may be stopped anywhere. *)
Lemma always_steps {A} (p : prog A) w Q ps w' : always p w Q → steps ([p], w) (ps, w') → I w'.
Proof.
  intros Hp Hs.
  enough (∃ p', ps = [p'] ∧ always p' w' Q) as (p' & _ & Hp') by by eapply always_here.
  apply (steps_invariant (λ c, ∃ p', c.1 = [p'] ∧ always p' c.2 Q) ([p], w) (ps, w')); [|by exists p|done].
  intros [ps1 w1] [ps2 w2] (p1 & Heq & Hp1) (i & p2 & p' & Hi & Hstep & ->)%step_inv. cbn [fst snd] in *. subst ps1.
  apply list_lookup_singleton_Some in Hi as [-> ->]. destruct p2 as [|e k|]; simplify_eq/=.
  eexists. split; [done|]. by destruct Hp1 as [_ ?].
Qed.

(** With the run: what it ends with. *)
Lemma always_run {A} (p : prog A) w Q : always p w Q →
  match run p w with (Some a, w') => I w' ∧ Q a w' | (None, w') => I w' end.
Proof.
  revert w. induction p as [a|e k IH|]; intros w [HI Hp]; cbn [run]; [done| |done].
  specialize (IH _ _ Hp). by destruct (handle e w).
Qed.

Lemma always_wp {A} (p : prog A) w Q Q' : always p w Q → wp p w Q' → always p w (λ a w', Q a w' ∧ Q' a w').
Proof.
  unfold wp. revert w. induction p as [a|e k IH|]; intros w [HI Hp] Hq; cbn [run] in Hq; [done| |done].
  split; [done|]. apply IH; [done|]. by destruct (handle e w).
Qed.
End always.

Lemma always_reads `{UuidGen} (I : world kvmap → Prop) {A} (p : prog A) (w : world kvmap) (Q : A → world kvmap → Prop) :
  issues reads p → I w → (∀ a, run p w = (Some a, w) → Q a w) → always I p w Q.
Proof.
  intros Hp HI HQ. pose proof (run_reads p w Hp) as Hrun. revert HQ Hrun. induction p as [a|e k IH|]; intros HQ Hrun; cbn [always run] in *.
  - split; [done|]. by apply HQ.
  - split; [done|]. destruct Hp as [He Hk]. pose proof (handle_reads e w He) as Hw.
    destruct (handle e w) as [r w'] eqn:Hh. cbn [fst snd] in *. subst w'. by apply IH.
  - done.
Qed.
