(* ===== verification/Scan.v ===== *)
(** * Batched scans and typed access (core/src/service/scan.rs, typed.rs)

    The loop that walks a partition in batches with a cursor, and the helpers
    that serialise records on the way to the store. *)

From S2P Require Import Prelude Bytes Errors Keys Records Kv Prog.

(** core/src/service/scan.rs:14-14 *)
Definition SCAN_BATCH_SIZE : nat := Z.to_nat 1000.
(** core/src/service/scan.rs:17-17 *)
Definition SHARD_CONCURRENCY : nat := 64.
(** core/src/service/scan.rs:21-21 *)
Definition BG_SHARD_CONCURRENCY : nat := 8.
(** core/src/service/scan.rs:24-24 *)
Definition ADMIN_ENTITY_CAP : nat := Z.to_nat 10000.

(** core/src/service/scan.rs:29-31 *)
Definition per_shard_batch (limit : nat) : nat :=
  Nat.max (limit / N.to_nat NUM_SHARDS + 1) 4 * 2.

(** core/src/service/scan.rs:90-92 *)
Definition str_prefix_end (prefix : string) : option string :=
  match prefix_end prefix with
  | Some b => from_utf8 b
  | None => None
  end.

(** [Vec::last]. *)
Definition last_sk {A} (items : list (string * A)) : option string := fst <$> last items.

(** The callback's outcome on a batch: [inl r] ends the whole loop with [r],
    [inr st] goes on with the state [st]. *)
Definition batch_outcome (St : Type) : Type := result St + St.

Section for_each.
Context {St : Type} (callback : St → string → bytes → result (bool * St)).

(** The loop over the items of a batch. *)
(** core/src/service/scan.rs:64-71 *)
Fixpoint batch_loop (sk_prefix : string) (items : list (string * bytes)) (st : St) : batch_outcome St :=
  match items with
  | [] => inr st
  | (sk, value) :: items =>
      if bool_decide (sk_prefix ≠ "") && negb (starts_with sk sk_prefix) then inl (Ok st)
      else match callback st sk value with
           | Err e => inl (Err e)
           | Ok (false, st) => inl (Ok st)
           | Ok (true, st) => batch_loop sk_prefix items st
           end
  end.

(** The loop over the batches; [cursor] is the loop variable. *)
(** core/src/service/scan.rs:49-86 *)
Fixpoint for_each_loop (fuel : nat) (table pk sk_prefix : string) (sk_end : option string)
    (batch_size : nat) (cursor : option string) (st : St) : prog (result St) :=
  match fuel with
  | O => Spin
  | S fuel =>
      let start := default sk_prefix cursor in
      let*? result := kv (ScanRange table pk start sk_end batch_size) in
      match batch_loop sk_prefix (items result) st with
      | inl r => Ret r
      | inr st =>
          if done_ result then Ret (Ok st)
          else match last_sk (items result) with
               | Some last_sk =>
                   for_each_loop fuel table pk sk_prefix sk_end batch_size
                     (Some (last_sk +:+ singleton_str NUL)) st
               | None => Ret (Ok st)
               end
      end
  end.

(** core/src/service/scan.rs:35-87 *)
Definition for_each_in_partition (fuel : nat) (table pk sk_prefix : string) (batch_size : nat)
    (st : St) : prog (result St) :=
  for_each_loop fuel table pk sk_prefix (str_prefix_end sk_prefix) batch_size None st.

(** Reference: the callback on every entry in order, until it stops or fails. *)
Fixpoint fold_until (l : list (string * bytes)) (st : St) : result St :=
  match l with
  | [] => Ok st
  | (sk, value) :: l =>
      match callback st sk value with
      | Err e => Err e
      | Ok (false, st) => Ok st
      | Ok (true, st) => fold_until l st
      end
  end.
End for_each.

(** ** Typed access *)

Section typed.
Context {T : Type} `{Serde T}.

(** core/src/service/typed.rs:18-29 *)
Definition typed_get (table pk sk : string) : prog (result (option T)) :=
  let*? o := kv (Get table pk sk) in
  match o with
  | Some bytes => let! x := serde_result (from_slice bytes) in Ret (Ok (Some x))
  | None => Ret (Ok None)
  end.

(** core/src/service/typed.rs:31-41 *)
Definition typed_put (table pk sk : string) (record : T) : prog (result unit) :=
  let! bytes := serde_result (to_vec_named record) in
  kv (Put table pk sk bytes).

(** core/src/service/typed.rs:43-54 *)
Definition typed_get_versioned (table pk sk : string) : prog (result (option (T * Z))) :=
  let*? o := kv (GetVersioned table pk sk) in
  match o with
  | Some (bytes, version) =>
      let! x := serde_result (from_slice bytes) in Ret (Ok (Some (x, version)))
  | None => Ret (Ok None)
  end.

(** core/src/service/typed.rs:56-67 *)
Definition typed_put_if_absent (table pk sk : string) (record : T) : prog (result bool) :=
  let! bytes := serde_result (to_vec_named record) in
  kv (PutIfAbsent table pk sk bytes).

(** [items.iter().map(|(_, v)| Ok(from_slice(v)?)).collect()]. *)
Fixpoint decode_all (items : list (string * bytes)) : result (list T) :=
  match items with
  | [] => Ok []
  | (_, v) :: items =>
      let? x := serde_result (from_slice v) in
      let? r := decode_all items in
      Ok (x :: r)
  end.

(** core/src/service/typed.rs:69-83 *)
Definition typed_list (table pk sk_prefix : string) (limit : nat) : prog (result (list T)) :=
  let*? result := kv (ScanPrefix table pk sk_prefix limit) in
  Ret (decode_all (items result)).
End typed.

(** ** The partition walk on the specification *)

(** The entries of a partition whose sort key has the prefix, in order. *)
Definition entries (m : kvmap) (table pk sk_prefix : string) : list (string * bytes) :=
  prod_map id fst <$> filter (λ x, starts_with x.1 sk_prefix = true) (part m table pk).

(** Past the last key of a batch there is what the batch left. *)
Lemma sorted_past_last {B : Type} (l : list (string * B)) n x :
  StronglySorted sk_lt l → last (take n l) = Some x →
  filter (λ y, str_le (x.1 +:+ singleton_str NUL) y.1) l = drop n l.
Proof.
  intros Hs Hx. apply last_Some in Hx as [l' Hl'].
  assert (l = (l' ++ [x]) ++ drop n l) as Hl by by rewrite <-Hl', take_drop.
  revert Hl. generalize (drop n l). intros l2 ->.
  apply StronglySorted_app in Hs as (Hlt & Hs & _).
  apply StronglySorted_app in Hs as (Hlt' & _ & _).
  rewrite filter_app, filter_none, filter_all; [done| |].
  - apply Forall_forall. intros y Hy. apply str_succ_nul.
    apply (Hlt x y); [|done]. apply elem_of_app. right. by left.
  - apply Forall_forall. intros y Hy. rewrite str_succ_nul. intros Hxy.
    apply elem_of_app in Hy as [Hy|Hy%list_elem_of_singleton].
    + pose proof (Hlt' y x Hy ltac:(by left)) as Hyx.
      by apply (str_lt_irrefl y.1), (transitivity Hyx).
    + subst. by apply str_lt_irrefl in Hxy.
Qed.

Lemma filter_filter_and {B : Type} (P Q : B → Prop) `{∀ x, Decision (P x)} `{∀ x, Decision (Q x)}
    (l : list B) : filter P (filter Q l) = filter (λ x, P x ∧ Q x) l.
Proof.
  induction l as [|x l IH]; [done|]. rewrite (filter_cons Q), (filter_cons (λ x, P x ∧ Q x)).
  destruct (decide (Q x)).
  - rewrite filter_cons, IH. repeat case_decide; tauto || done.
  - rewrite IH. case_decide; tauto || done.
Qed.

Lemma filter_ext_in {B : Type} (P Q : B → Prop) `{∀ x, Decision (P x)} `{∀ x, Decision (Q x)}
    (l : list B) : (∀ x, x ∈ l → P x ↔ Q x) → filter P l = filter Q l.
Proof.
  induction l as [|x l IH]; intros HPQ; [done|]. rewrite !filter_cons.
  pose proof (HPQ x ltac:(by left)). rewrite IH by (intros; apply HPQ; by right).
  repeat case_decide; tauto || done.
Qed.

(** The part of a sorted list from its end of batch on. *)
Lemma in_range_next (m : kvmap) t pk lo hi n x :
  last (take n (filter (λ y, in_range lo hi y.1) (part m t pk))) = Some x →
  filter (λ y, in_range (x.1 +:+ singleton_str NUL) hi y.1) (part m t pk) =
    drop n (filter (λ y, in_range lo hi y.1) (part m t pk)).
Proof.
  intros Hx. rewrite <-(sorted_past_last _ n x); [|apply StronglySorted_filter, part_sorted|done].
  rewrite filter_filter_and. apply filter_ext_in. intros y _. unfold in_range.
  assert (str_le lo x.1) as Hlo.
  { apply last_Some in Hx as [l' Hx].
    assert (x ∈ take n (filter (λ y, in_range lo hi y.1) (part m t pk))) as Hin.
    { rewrite Hx. apply elem_of_app. right. by left. }
    apply elem_of_take in Hin as (i & Hin & _).
    apply list_elem_of_lookup_2, list_elem_of_filter in Hin. by destruct Hin as [ [? _] _]. }
  split; [|tauto]. intros [Hy Hhi]. split; [done|]. split; [|done].
  apply str_succ_nul in Hy. apply str_lt_le. by eapply str_le_lt_trans.
Qed.

Section for_each_spec.
Context {St : Type} (callback : St → string → bytes → result (bool * St)).
Context `{UuidGen}.
Implicit Types w : world kvmap.

(** The loop without batches. *)
Definition walk (prefix : string) (l : list (string * bytes)) (st : St) : result St :=
  match batch_loop callback prefix l st with
  | inl r => r
  | inr st => Ok st
  end.

Lemma batch_loop_app prefix l1 l2 st :
  batch_loop callback prefix (l1 ++ l2) st =
    match batch_loop callback prefix l1 st with
    | inl r => inl r
    | inr st => batch_loop callback prefix l2 st
    end.
Proof.
  revert st. induction l1 as [|[sk v] l1 IH]; intros st; simpl; [done|].
  destruct (_ && _); [done|]. destruct (callback st sk v) as [ [[] st']|e]; [apply IH|done..].
Qed.

Lemma walk_fold prefix l1 l2 st :
  Forall (λ x, starts_with x.1 prefix = true) l1 →
  (∀ x, head l2 = Some x → starts_with x.1 prefix = false) →
  walk prefix (l1 ++ l2) st = fold_until callback l1 st.
Proof.
  intros Hl1 Hl2. unfold walk. revert st. induction Hl1 as [|[sk v] l1 Hx Hl1 IH]; intros st; simpl.
  - destruct l2 as [|[sk v] l2]; [done|]. simpl. specialize (Hl2 _ eq_refl). simpl in Hl2.
    rewrite Hl2, bool_decide_true; [done|]. intros ->. by rewrite starts_with_nil in Hl2.
  - simpl in Hx. rewrite Hx, andb_false_r.
    destruct (callback st sk v) as [ [[] st']|e]; [apply IH|done..].
Qed.

(** The batches cover the range, whatever the batch size. *)
Lemma for_each_loop_spec fuel t pk prefix hi n cursor st w :
  let l := filter (λ x, in_range (default prefix cursor) hi x.1) (part (w_kv w) t pk) in
  0 < n → length l < fuel →
  run (for_each_loop callback fuel t pk prefix hi n cursor st) w =
    (Some (walk prefix (prod_map id fst <$> l) st), w).
Proof.
  intros l Hn Hfuel. subst l. revert cursor st Hfuel.
  induction fuel as [|fuel IH]; intros cursor st Hfuel; [lia|].
  cbn [for_each_loop]. rewrite run_bind_ok, run_kv.
  set (l := filter _ (part _ t pk)) in *.
  change (kv_step ?o ?m) with (spec_store o m). simpl spec_store. fold l. simpl.
  assert (set_kv (w_kv w) w = w) as -> by by destruct w.
  unfold walk. rewrite <-(take_drop n l) at 2. rewrite fmap_app, batch_loop_app.
  destruct (batch_loop callback prefix (prod_map id fst <$> take n l) st) as [r|st'] eqn:Hb; [done|].
  case_bool_decide as Hlen.
  { by rewrite drop_ge by done. }
  unfold last_sk. rewrite fmap_last. destruct (last (take n l)) as [x|] eqn:Hlast.
  - simpl. pose proof (in_range_next (w_kv w) t pk (default prefix cursor) hi n x Hlast) as Hnext.
    fold l in Hnext. rewrite <-Hnext.
    change (id x.1) with x.1.
    rewrite IH; [done|]. simpl. rewrite Hnext, length_drop. lia.
  - apply last_None in Hlast. apply (f_equal length) in Hlast. rewrite length_take in Hlast.
    simpl in Hlast. lia.
Qed.

Lemma str_prefix_end_range prefix s :
  (starts_with s prefix = true → in_range prefix (str_prefix_end prefix) s).
Proof.
  rewrite prefix_end_range. intros [Hle He]. split; [done|].
  unfold str_prefix_end. destruct (prefix_end prefix) as [e|]; [|done].
  unfold from_utf8. by destruct (valid_utf8 e).
Qed.

(** In key order, the keys with the prefix come first from the prefix on. *)
Lemma prefix_first prefix (l : list (string * (bytes * Z))) :
  StronglySorted sk_lt l → Forall (λ x, str_le prefix x.1) l →
  ∃ l2, l = filter (λ x, starts_with x.1 prefix = true) l ++ l2 ∧
    ∀ x, head l2 = Some x → starts_with x.1 prefix = false.
Proof.
  induction 1 as [|x l Hs IH Hx]; intros Hall; [by exists []|].
  apply Forall_cons in Hall as [Hpx Hall]. rewrite filter_cons.
  destruct (starts_with x.1 prefix) eqn:Hsw.
  - rewrite decide_True by done. destruct (IH Hall) as (l2 & Hl & Hl2).
    exists l2. split; [|done]. simpl. by f_equal.
  - exists (x :: l). rewrite decide_False by done.
    rewrite filter_none; [by split; [|intros y [= <-] ]|].
    rewrite Forall_forall in Hx |- *. intros y Hy Hyp.
    apply (not_true_iff_false (starts_with x.1 prefix)) in Hsw. apply Hsw.
    rewrite prefix_end_range in Hyp |- *. destruct Hyp as [_ Hyp]. split; [done|].
    destruct (prefix_end prefix); [|done]. by transitivity y.1; [apply Hx|].
Qed.

Lemma for_each_spec fuel t pk prefix n st w :
  0 < n → length (part (w_kv w) t pk) < fuel →
  run (for_each_in_partition callback fuel t pk prefix n st) w =
    (Some (fold_until callback (entries (w_kv w) t pk prefix) st), w).
Proof.
  intros Hn Hfuel. unfold for_each_in_partition. rewrite for_each_loop_spec; [|done|].
  - simpl. set (l := filter _ (part _ t pk)).
    destruct (prefix_first prefix l) as (l2 & Hl & Hl2).
    { apply StronglySorted_filter, part_sorted. }
    { apply Forall_forall. intros x [ [? _] _]%list_elem_of_filter. done. }
    do 2 f_equal. rewrite Hl, fmap_app. rewrite walk_fold.
    + unfold entries. do 2 f_equal. subst l. rewrite filter_filter_and. apply filter_ext_in.
      intros x _. split; [tauto|]. intros. split; [done|]. by apply str_prefix_end_range.
    + apply Forall_fmap, Forall_forall. by intros x [? _]%list_elem_of_filter.
    + destruct l2 as [|x l2]; [done|]. intros y [= <-]. by apply (Hl2 x).
  - eapply Nat.le_lt_trans; [|exact Hfuel]. simpl.
    apply length_filter.
Qed.

(** Every call of the loop is well formed. *)
Lemma for_each_loop_ok fuel t pk prefix hi n cursor st w :
  t ∈ ALL_TABLES → has_char NUL pk = false →
  from_option (str_le (default prefix cursor)) True hi →
  trace_ok op_ok (for_each_loop callback fuel t pk prefix hi n cursor st) w.
Proof.
  intros Ht Hpk. revert cursor st w. induction fuel as [|fuel IH]; intros cursor st w Hle; [done|].
  simpl. split; [done|].
  set (l := filter _ (part _ t pk)).
  destruct (batch_loop _ _ _ _) as [r|st']; [done|]. case_bool_decide; [done|].
  unfold last_sk. rewrite fmap_last. destruct (last (take n l)) as [x|] eqn:Hlast; [|done].
  simpl. apply IH. simpl. destruct hi as [hi|]; [|done]. simpl. apply str_succ_nul.
  apply last_Some in Hlast as [l' Hlast].
  assert (x ∈ take n l) as Hin by (rewrite Hlast; apply elem_of_app; right; by left).
  apply elem_of_take in Hin as (i & Hin & _).
  apply list_elem_of_lookup_2, list_elem_of_filter in Hin. by destruct Hin as [ [_ ?] _].
Qed.

Lemma for_each_ok fuel t pk prefix n st w :
  t ∈ ALL_TABLES → has_char NUL pk = false →
  trace_ok op_ok (for_each_in_partition callback fuel t pk prefix n st) w.
Proof.
  intros Ht Hpk. apply for_each_loop_ok; [done|done|]. simpl.
  pose proof (str_prefix_end_range prefix prefix) as Hr.
  destruct (str_prefix_end prefix) as [e|]; [|done]. simpl. apply str_lt_le.
  destruct Hr as [_ Hr]; [|done]. apply starts_with_spec. exists "". by rewrite str_app_nil_r.
Qed.
End for_each_spec.

(** ** Properties *)

(** On every backend that implements the [KvStore] specification, walking
    a partition in batches calls the callback on exactly the entries whose
    sort key has the prefix, once each and in sort-key order, stops when the
    callback stops or fails and returns its state or error, changes nothing,
    and terminates: one more round than the partition has entries is enough,
    whatever the (non-zero) batch size. *)
Theorem for_each_in_partition_visits {K St : Type} `{UuidGen} (impl : KvStore K)
    (R : K → kvmap → Prop) `{!KvRefines impl R op_ok}
    (callback : St → string → bytes → result (bool * St)) fuel t pk prefix n st w m :
  world_rel R w m → t ∈ ALL_TABLES → has_char NUL pk = false →
  0 < n → length (part (w_kv m) t pk) < fuel →
  (run (for_each_in_partition callback fuel t pk prefix n st) w).1 =
    Some (fold_until callback (entries (w_kv m) t pk prefix) st) ∧
  world_rel R (run (for_each_in_partition callback fuel t pk prefix n st) w).2 m.
Proof.
  intros Hw Ht Hpk Hn Hfuel.
  destruct (run_refines_spec impl R op_ok (for_each_in_partition callback fuel t pk prefix n st) w m Hw)
    as [Hres Hw']; [by apply for_each_ok|].
  rewrite for_each_spec in Hres, Hw' by done. done.
Qed.

Lemma for_each_in_partition_visits_witness :
  let m := (spec_store (PutBatch TABLE_BLOBS
    [("s/1", "a/1", "x"); ("s/1", "b/1", "y"); ("s/1", "a/0", "z"); ("s/2", "a/2", "u")]) ∅).2 in
  (@run kvmap toy_uuid spec_store _ (for_each_in_partition
    (λ st sk v, Ok (true, st ++ [sk +:+ "=" +:+ v])) 4 TABLE_BLOBS "s/1" "a/" 1 []) (world_of m)).1 =
  Some (Ok ["a/0=z"; "a/1=x"]).
Proof.
  intros m.
  refine (eq_trans (proj1 (@for_each_in_partition_visits kvmap _ toy_uuid spec_store eq _
    (λ st sk v, Ok (true, st ++ [sk +:+ "=" +:+ v])) 4 TABLE_BLOBS "s/1" "a/" 1 []
    (world_of m) (world_of m) _ _ _ _ _)) _).
  - apply world_rel_refl.
  - by_decide.
  - reflexivity.
  - apply Nat.lt_0_1.
  - by_decide.
  - vm_compute. reflexivity.
Defined.
