(* ===== verification/Pagination.v ===== *)
(** * Pagination over shards (core/src/service/pagination.rs)

    A listing reads the shards of a repository as lazy sorted streams and
    merges them with a min-heap.  The heap of the standard library is a
    multiset with the least element on top.  The theorem says that the merge
    is the sorted sequence of all the entries, cut to a page. *)

From S2P Require Import Prelude Bytes Errors Keys Records Kv Prog Scan.

(** [base64::engine::general_purpose::STANDARD]. *)
Class Base64 := {
  b64_encode : bytes → string;
  b64_decode : string → option bytes;
  b64_round_trip : ∀ b, b64_decode (b64_encode b) = Some b;
}.

(** Unicode conversions of the standard library that depend on tables:
    [str::to_lowercase] and [String::from_utf8_lossy]. *)
Class Unicode := {
  to_lowercase : string → string;
  from_utf8_lossy : bytes → string;
  from_utf8_lossy_valid : ∀ b, valid_utf8 b = true → from_utf8_lossy b = b;
}.

(** core/src/service/pagination.rs:21-31 *)
Record ShardStream : Type := mkShardStream {
  st_pk : string;
  st_sk_prefix : string;
  st_sk_end : option string;
  st_buffer : list (string * bytes);
  st_buf_idx : nat;
  st_next_start : string;
  st_exhausted : bool;
  st_filter : option string;
  st_batch_size : nat;
}.

(** core/src/service/pagination.rs:34-53 *)
Definition new_stream (pk sk_prefix scan_start : string) (flt : option string) (batch_size : nat) :
    ShardStream :=
  let sk_end := str_prefix_end sk_prefix in
  mkShardStream pk sk_prefix sk_end [] 0 scan_start false flt batch_size.

(** core/src/service/pagination.rs:102-110 *)
Definition peek (s : ShardStream) : option (string * bytes) := st_buffer s !! st_buf_idx s.

(** core/src/service/pagination.rs:112-114 *)
Definition advance (s : ShardStream) : ShardStream :=
  mkShardStream (st_pk s) (st_sk_prefix s) (st_sk_end s) (st_buffer s) (st_buf_idx s + 1)
    (st_next_start s) (st_exhausted s) (st_filter s) (st_batch_size s).

(** core/src/service/pagination.rs:119-123 *)
Record HeapEntry : Type := mkHeapEntry {
  he_sk : string;
  he_stream_idx : nat;
}.

(** core/src/service/pagination.rs:125-137 *)
Definition heap_le (x y : HeapEntry) : Prop :=
  str_lt (he_sk x) (he_sk y) ∨ (he_sk x = he_sk y ∧ he_stream_idx x ≤ he_stream_idx y).

#[export] Instance heap_le_dec x y : Decision (heap_le x y).
Proof. unfold heap_le. apply _. Defined.

(** [BinaryHeap::pop] on [Reverse] entries: a least element and the rest. *)
Fixpoint heap_pop (heap : list HeapEntry) : option (HeapEntry * list HeapEntry) :=
  match heap with
  | [] => None
  | x :: heap =>
      match heap_pop heap with
      | None => Some (x, [])
      | Some (y, rest) => if decide (heap_le x y) then Some (x, y :: rest) else Some (y, x :: rest)
      end
  end.

Section pagination.
Context `{Unicode}.

(** The loop over the items of a batch: the entries that match, and whether
    the prefix was left. *)
(** core/src/service/pagination.rs:78-93 *)
Fixpoint filter_batch (sk_prefix : string) (flt : option string) (items : list (string * bytes)) :
    list (string * bytes) * bool :=
  match items with
  | [] => ([], false)
  | (sk, v) :: items =>
      if bool_decide (sk_prefix ≠ "") && negb (starts_with sk sk_prefix) then ([], true)
      else
        let '(filtered, past_prefix) := filter_batch sk_prefix flt items in
        match flt with
        | Some query => if negb (contains (to_lowercase sk) query) then (filtered, past_prefix)
                        else ((sk, v) :: filtered, past_prefix)
        | None => ((sk, v) :: filtered, past_prefix)
        end
  end.

(** core/src/service/pagination.rs:58-100 *)
Fixpoint ensure_buffered (fuel : nat) (table : string) (s : ShardStream) : prog (result ShardStream) :=
  match fuel with
  | O => Spin
  | S fuel =>
      if decide (length (st_buffer s) ≤ st_buf_idx s ∧ st_exhausted s = false) then
        let*? result := kv (ScanRange table (st_pk s) (st_next_start s) (st_sk_end s) (st_batch_size s)) in
        let next_start := match last_sk (items result) with
                          | Some last_sk => last_sk +:+ singleton_str NUL
                          | None => st_next_start s
                          end in
        let '(filtered, past_prefix) := filter_batch (st_sk_prefix s) (st_filter s) (items result) in
        ensure_buffered fuel table
          (mkShardStream (st_pk s) (st_sk_prefix s) (st_sk_end s) filtered 0 next_start
             (done_ result || past_prefix) (st_filter s) (st_batch_size s))
      else Ret (Ok s)
  end.

Context {T : Type} `{Serde T}.

(** The heap of the streams' current keys. *)
(** core/src/service/pagination.rs:158-167 *)
Definition initial_heap (streams : list ShardStream) : list HeapEntry :=
  omap (λ x, x) (imap (λ i s, (λ x, mkHeapEntry x.1 i) <$> peek s) streams).

(** core/src/service/pagination.rs:172-217 *)
Fixpoint merge_loop (fuel efuel : nat) (table : string) (streams : list ShardStream)
    (heap : list HeapEntry) (cursor_path : option string) (skip skipped limit : nat)
    (results : list (string * T)) : prog (result (list (string * T))) :=
  match fuel with
  | O => Spin
  | S fuel =>
      match heap_pop heap with
      | None => Ret (Ok results)
      | Some (entry, heap) =>
          let idx := he_stream_idx entry in
          match streams !! idx ≫= λ s, (λ x, (s, x)) <$> peek s with
          | None => merge_loop fuel efuel table streams heap cursor_path skip skipped limit results
          | Some (s, (path, value)) =>
              let*? s := ensure_buffered efuel table (advance s) in
              let streams := <[idx := s]> streams in
              let heap := match peek s with
                          | Some (next_sk, _) => mkHeapEntry next_sk idx :: heap
                          | None => heap
                          end in
              let continue := merge_loop fuel efuel table streams heap cursor_path skip in
              if match cursor_path with Some cp => bool_decide (str_le path cp) | None => false end
              then continue skipped limit results
              else if decide (skipped < skip) then continue (skipped + 1) limit results
              else
                let! record := serde_result (from_slice value) in
                let results := results ++ [(path, record)] in
                if decide (limit < length results) then Ret (Ok results)
                else continue skipped limit results
          end
      end
  end.

(** The buffer is allocated with [Vec::with_capacity(limit + 1)]; [limit] is a
    number here, so the overflow of that sum for [usize::MAX] is not modelled. *)
(** core/src/service/pagination.rs:142-220 *)
Definition k_way_merge (fuel : nat) (table : string) (streams : list ShardStream)
    (cursor_path : option string) (skip limit : nat) : prog (result (list (string * T))) :=
  let*? streams := try_for streams (ensure_buffered fuel table) in
  let heap := initial_heap streams in
  merge_loop fuel fuel table streams heap cursor_path skip 0 limit [].

Context `{Base64}.

(** core/src/service/pagination.rs:222-232 *)
Definition decode_cursor (cursor : option string) : option string :=
  (λ c, from_utf8_lossy (default "" (b64_decode c))) <$> cursor.

(** core/src/service/pagination.rs:234-242 *)
Definition paginate_results (items : list (string * T)) (limit : nat) : PaginatedResult (string * T) :=
  let next_cursor :=
    if decide (limit < length items)
    then (λ x, b64_encode x.1) <$> items !! (limit - 1) else None in
  mkPaginatedResult (take limit items) next_cursor.
End pagination.

(** ** The heap *)

Lemma heap_le_refl x : heap_le x x.
Proof. right. by split. Qed.

Lemma heap_le_trans x y z : heap_le x y → heap_le y z → heap_le x z.
Proof.
  unfold heap_le. intros [Hxy|[-> Hxy] ] [Hyz|[<- Hyz] ]; auto.
  - left. by etrans.
  - right. split; [done|lia].
Qed.

Lemma heap_le_total x y : heap_le x y ∨ heap_le y x.
Proof.
  unfold heap_le. destruct (str_lt_trichotomy (he_sk x) (he_sk y)) as [?|[Heq|?] ]; auto.
  rewrite Heq. destruct (Nat.le_ge_cases (he_stream_idx x) (he_stream_idx y)); auto.
Qed.

Lemma heap_pop_None h : heap_pop h = None → h = [].
Proof. destruct h as [|x h]; simpl; [done|]. repeat case_match; done. Qed.

(** A popped entry is a least one, and the rest is the rest. *)
Lemma heap_pop_Some h x rest : heap_pop h = Some (x, rest) →
  h ≡ₚ x :: rest ∧ Forall (heap_le x) rest.
Proof.
  revert x rest. induction h as [|y h IH]; intros x rest; simpl; [done|].
  destruct (heap_pop h) as [ [z rest']|] eqn:E.
  - destruct (IH z rest' eq_refl) as [Hp Hall]. case_decide as Hd; intros; simplify_eq.
    + split; [by rewrite Hp|]. constructor; [done|].
      eapply Forall_impl; [exact Hall|]. intros. by eapply heap_le_trans.
    + split; [by rewrite Hp, Permutation_swap|]. constructor; [|done].
      by destruct (heap_le_total x y).
  - intros. simplify_eq. apply heap_pop_None in E as ->. done.
Qed.

(** ** Streams *)

Section streams.
Context `{Unicode} `{UuidGen}.
Implicit Types (m : kvmap) (s : ShardStream) (w : world kvmap).

(** The raw entries a stream has not scanned yet. *)
Definition unscanned m (table : string) s : list (string * (bytes * Z)) :=
  filter (λ y, in_range (st_next_start s) (st_sk_end s) y.1) (part m table (st_pk s)).

(** What a stream will still yield. *)
Definition content m (table : string) s : list (string * bytes) :=
  drop (st_buf_idx s) (st_buffer s) ++
  if st_exhausted s then []
  else (filter_batch (st_sk_prefix s) (st_filter s) (prod_map id fst <$> unscanned m table s)).1.

(** The buffer is empty only when the stream is. *)
Definition ready m (table : string) s : Prop := peek s = head (content m table s).

Lemma filter_batch_app prefix flt l1 l2 :
  filter_batch prefix flt (l1 ++ l2) =
    let '(f1, p1) := filter_batch prefix flt l1 in
    if p1 then (f1, true)
    else let '(f2, p2) := filter_batch prefix flt l2 in (f1 ++ f2, p2).
Proof.
  induction l1 as [|[sk v] l1 IH]; simpl; [by destruct (filter_batch _ _ l2)|].
  destruct (_ && _); [done|]. rewrite IH.
  destruct (filter_batch _ _ l1) as [f1 [] ], (filter_batch _ _ l2) as [f2 p2], flt as [q|];
    simpl; try case_match; done.
Qed.

Lemma peek_drop s : peek s = head (drop (st_buf_idx s) (st_buffer s)).
Proof. unfold peek. rewrite <-(Nat.add_0_r (st_buf_idx s)) at 1. rewrite <-lookup_drop. by destruct (drop _ _). Qed.

(** Fetching keeps what the stream yields and the shape of the stream, and
    makes it ready; each round takes at least one raw entry. *)
Lemma ensure_buffered_spec fuel table s w :
  0 < st_batch_size s →
  (if st_exhausted s then 0 else S (length (unscanned (w_kv w) table s))) < fuel →
  ∃ s', run (ensure_buffered fuel table s) w = (Some (Ok s'), w) ∧
    content (w_kv w) table s' = content (w_kv w) table s ∧ ready (w_kv w) table s' ∧
    st_pk s' = st_pk s ∧ 0 < st_batch_size s'.
Proof.
  revert s. induction fuel as [|fuel IH]; intros s Hb Hfuel; [lia|]. cbn [ensure_buffered].
  case_decide as Hd.
  - destruct Hd as [Hempty Hex]. rewrite Hex in Hfuel.
    rewrite run_bind_ok, run_kv. change (kv_step ?o ?m) with (spec_store o m).
    simpl spec_store. fold (unscanned (w_kv w) table s).
    set (l := unscanned (w_kv w) table s) in *. simpl.
    assert (set_kv (w_kv w) w = w) as -> by by destruct w.
    destruct (filter_batch _ _ (prod_map id fst <$> take (st_batch_size s) l))
      as [f p] eqn:Ef.
    set (s1 := mkShardStream _ _ _ _ _ _ _ _ _).
    assert (content (w_kv w) table s1 = content (w_kv w) table s) as Hc.
    { unfold content, s1. simpl. rewrite Hex, (drop_ge (st_buffer s)) by done. simpl.
      fold l. replace (filter_batch (st_sk_prefix s) (st_filter s) (prod_map id fst <$> l))
        with (filter_batch (st_sk_prefix s) (st_filter s)
          (prod_map id fst <$> (take (st_batch_size s) l ++ drop (st_batch_size s) l)))
        by by rewrite take_drop.
      rewrite fmap_app, filter_batch_app, Ef. destruct p; simpl.
      { by rewrite orb_true_r, app_nil_r. }
      rewrite orb_false_r. case_bool_decide as Hlen.
      - rewrite (drop_ge l) by done. simpl. by rewrite drop_0.
      - rewrite drop_0. destruct (filter_batch _ _ (prod_map id fst <$> drop _ l)) as [f2 p2] eqn:Ef2. simpl.
        f_equal. unfold unscanned at 1. simpl. unfold last_sk. rewrite fmap_last.
        destruct (last (take (st_batch_size s) l)) as [x|] eqn:Hl.
        + simpl. change (id x.1) with x.1.
          pose proof (in_range_next (w_kv w) table (st_pk s) (st_next_start s) (st_sk_end s)
            (st_batch_size s) x Hl) as Hn. rewrite Hn. fold (unscanned (w_kv w) table s). fold l.
          by rewrite Ef2.
        + apply last_None, (f_equal length) in Hl. rewrite length_take in Hl. simpl in Hl. lia. }
    destruct (IH s1) as (s' & Hr & Hc' & Hready & Hpk & Hb'); [done| |].
    { unfold s1. simpl. case_bool_decide as Hlen; simpl; [lia|]. destruct p; [lia|].
      unfold unscanned. simpl. unfold last_sk. rewrite fmap_last.
      destruct (last (take (st_batch_size s) l)) as [x|] eqn:Hl.
      - simpl. change (id x.1) with x.1.
        pose proof (in_range_next (w_kv w) table (st_pk s) (st_next_start s) (st_sk_end s)
          (st_batch_size s) x Hl) as Hn. rewrite Hn. fold (unscanned (w_kv w) table s). fold l.
        rewrite length_drop. lia.
      - apply last_None, (f_equal length) in Hl. rewrite length_take in Hl. simpl in Hl. lia. }
    exists s'. split_and!; [done|by rewrite Hc'|done|done|done].
  - exists s. split_and!; try done. unfold ready, content. rewrite peek_drop.
    destruct (drop (st_buf_idx s) (st_buffer s)) as [|x l] eqn:Ed; [|done].
    destruct (st_exhausted s); [done|]. exfalso. apply Hd. split; [|done].
    apply (f_equal length) in Ed. rewrite length_drop in Ed. simpl in Ed. lia.
Qed.
End streams.

(** ** The merge *)

Section merge.
Context `{Unicode} `{UuidGen}.
Implicit Types (m : kvmap) (s : ShardStream) (w : world kvmap).

Lemma initial_heap_middle ss1 s ss2 :
  initial_heap (ss1 ++ s :: ss2) ≡ₚ
    option_list ((λ x, mkHeapEntry x.1 (length ss1)) <$> peek s) ++
    initial_heap ss1 ++
    omap (λ x, x) (imap (λ i s, (λ x, mkHeapEntry x.1 (length ss1 + S i)) <$> peek s) ss2).
Proof.
  unfold initial_heap. rewrite imap_app, omap_app. cbn [imap omap list_omap].
  rewrite Nat.add_0_r.
  destruct (peek s); simpl; [|done]. by rewrite Permutation_middle.
Qed.

Lemma elem_of_initial_heap x ss : x ∈ initial_heap ss →
  ∃ ss1 s ss2 p, ss = ss1 ++ s :: ss2 ∧ peek s = Some p ∧ x = mkHeapEntry p.1 (length ss1).
Proof.
  unfold initial_heap. rewrite list_elem_of_omap. intros (o & Ho & ->).
  apply list_elem_of_lookup in Ho as [i Hi]. rewrite list_lookup_imap in Hi.
  apply fmap_Some in Hi as (s & Hs & Hx). symmetry in Hx. apply fmap_Some in Hx as (p & Hp & ->).
  apply list_elem_of_split_length in Hs as (ss1 & ss2 & -> & ->). by exists ss1, s, ss2, p.
Qed.

Lemma elem_of_concat_middle {A} (l1 l2 : list (list A)) l : concat (l1 ++ l :: l2) ≡ₚ l ++ concat (l1 ++ l2).
Proof.
  rewrite !concat_app. simpl. rewrite !(assoc_L (++)). apply Permutation_app_tail, Permutation_app_comm.
Qed.

(** The least head comes first in the sorted concatenation. *)
Lemma merged_pop {A} (cs1 cs2 : list (list (string * A))) x l :
  Forall (StronglySorted sk_lt) (cs1 ++ (x :: l) :: cs2) →
  NoDup (concat (cs1 ++ (x :: l) :: cs2)).*1 →
  (∀ y l', y :: l' ∈ cs1 ++ cs2 → str_le x.1 y.1) →
  merge_sort sk_le (concat (cs1 ++ (x :: l) :: cs2)) =
    x :: merge_sort sk_le (concat (cs1 ++ l :: cs2)).
Proof.
  intros Hs Hnd Hle.
  assert (concat (cs1 ++ (x :: l) :: cs2) ≡ₚ x :: concat (cs1 ++ l :: cs2)) as Hp.
  { by rewrite !elem_of_concat_middle. }
  rewrite Hp in Hnd. simpl in Hnd. apply NoDup_cons in Hnd as [Hx Hnd].
  assert (∀ B (l : list (string * B)), NoDup l.*1 → StronglySorted sk_lt (merge_sort sk_le l)) as Hms.
  { intros B l0 Hl0. apply sorted_le_lt; [by rewrite merge_sort_Permutation|].
    apply Sorted_StronglySorted; [apply _|]. apply Sorted_merge_sort. apply _. }
  apply (StronglySorted_ext sk_lt); [apply _|apply _| | |].
  - apply Hms. rewrite Hp. by constructor.
  - constructor; [by apply Hms|]. apply Forall_forall. intros y.
    rewrite merge_sort_Permutation, elem_of_concat_middle. intros Hy.
    assert (x.1 ≠ y.1) as Hne.
    { intros Heq. apply Hx. rewrite Heq. apply list_elem_of_fmap_2. by rewrite elem_of_concat_middle. }
    apply elem_of_app in Hy as [Hy|Hy].
    + rewrite Forall_forall in Hs. assert (StronglySorted sk_lt (x :: l)) as Hxl.
      { apply Hs, elem_of_app. right. by left. }
      apply StronglySorted_inv in Hxl as [_ Hxl]. rewrite Forall_forall in Hxl. by apply Hxl.
    + apply list_elem_of_In, in_concat in Hy as (c & Hc & Hyc).
      apply list_elem_of_In in Hc. apply list_elem_of_In in Hyc.
      destruct c as [|z c]; [by apply elem_of_nil in Hyc|].
      assert (str_le x.1 z.1) as Hxz by by eapply Hle.
      assert (str_le z.1 y.1) as Hzy.
      { apply elem_of_cons in Hyc as [->|Hyc]; [apply str_le_refl|]. apply str_lt_le.
        rewrite Forall_forall in Hs. assert (StronglySorted sk_lt (z :: c)) as Hzc.
        { apply Hs. apply elem_of_app in Hc. rewrite elem_of_app, elem_of_cons. tauto. }
        apply StronglySorted_inv in Hzc as [_ Hzc]. rewrite Forall_forall in Hzc. by apply Hzc. }
      unfold sk_lt. assert (str_le x.1 y.1) as Hxy by by etrans.
      apply str_le_lt_eq in Hxy as [?|?]; done.
  - intros y. rewrite elem_of_cons, !merge_sort_Permutation. by rewrite Hp, elem_of_cons.
Qed.

Context {T : Type} `{Serde T}.

(** The loop on a sequence of entries. *)
Fixpoint page (cursor_path : option string) (skip skipped limit : nat)
    (l : list (string * bytes)) (results : list (string * T)) : result (list (string * T)) :=
  match l with
  | [] => Ok results
  | (path, value) :: l =>
      if match cursor_path with Some cp => bool_decide (str_le path cp) | None => false end
      then page cursor_path skip skipped limit l results
      else if decide (skipped < skip) then page cursor_path skip (skipped + 1) limit l results
      else
        let? record := serde_result (from_slice value) in
        let results := results ++ [(path, record)] in
        if decide (limit < length results) then Ok results
        else page cursor_path skip skipped limit l results
  end.

(** A stream the loop can use: it is ready and its yield is sorted. *)
Definition stream_ok m (table : string) (efuel : nat) s : Prop :=
  ready m table s ∧ StronglySorted sk_lt (content m table s) ∧ 0 < st_batch_size s ∧
  S (length (part m table (st_pk s))) < efuel.

Lemma content_advance m table s p :
  peek s = Some p → content m table s = p :: content m table (advance s).
Proof.
  unfold content, advance, unscanned. simpl. intros Hp.
  unfold peek in Hp. rewrite Nat.add_1_r. by rewrite (drop_S _ p).
Qed.

Lemma stream_ok_advance m table efuel s p w : w_kv w = m → stream_ok m table efuel s →
  peek s = Some p → ∃ s', run (ensure_buffered efuel table (advance s)) w = (Some (Ok s'), w) ∧
    stream_ok m table efuel s' ∧ content m table s = p :: content m table s'.
Proof.
  intros <- (Hready & Hs & Hb & Hf) Hp.
  destruct (ensure_buffered_spec efuel table (advance s) w) as (s' & Hr & Hc & Hready' & Hpk & Hb'); [done| |].
  { unfold advance, unscanned. simpl. destruct (st_exhausted s); [lia|].
    eapply Nat.le_lt_trans; [|exact Hf]. apply le_n_S, length_filter. }
  exists s'. split; [done|]. rewrite (content_advance _ _ s p Hp) in Hs |- *.
  apply StronglySorted_inv in Hs as [Hs _]. rewrite Hc. split; [|done].
  repeat split; [done|by rewrite Hc|done|]. by rewrite Hpk.
Qed.

(** The popped key is at most the head of every other stream. *)
Lemma popped_least m table efuel ss1 s ss2 p rest :
  Forall (stream_ok m table efuel) (ss1 ++ s :: ss2) → peek s = Some p →
  initial_heap (ss1 ++ s :: ss2) ≡ₚ mkHeapEntry p.1 (length ss1) :: rest →
  Forall (heap_le (mkHeapEntry p.1 (length ss1))) rest →
  ∀ y l', y :: l' ∈ (content m table <$> ss1) ++ (content m table <$> ss2) → str_le p.1 y.1.
Proof.
  intros Hss Hpeek Hp Hmin y l' Hy. rewrite <-fmap_app in Hy.
  apply list_elem_of_fmap in Hy as (s2 & Hy & Hs2).
  assert (ready m table s2) as Hready2.
  { rewrite Forall_forall in Hss. apply Hss. rewrite elem_of_app in Hs2 |- *.
    rewrite elem_of_cons. tauto. }
  unfold ready in Hready2. rewrite <-Hy in Hready2. simpl in Hready2.
  rewrite initial_heap_middle, Hpeek in Hp. simpl in Hp. apply Permutation_cons_inv in Hp.
  assert (∃ i, mkHeapEntry y.1 i ∈ rest) as [i Hi].
  { setoid_rewrite <-Hp. setoid_rewrite elem_of_app. apply elem_of_app in Hs2 as [Hs2|Hs2];
      apply list_elem_of_lookup in Hs2 as [i Hi].
    - exists i. left. unfold initial_heap. apply list_elem_of_omap. eexists. split; [|done].
      apply list_elem_of_lookup. exists i. by rewrite list_lookup_imap, Hi; simpl; rewrite Hready2.
    - exists (length ss1 + S i). right. apply list_elem_of_omap. eexists. split; [|done].
      apply list_elem_of_lookup. exists i. by rewrite list_lookup_imap, Hi; simpl; rewrite Hready2. }
  rewrite Forall_forall in Hmin. apply Hmin in Hi.
  destruct Hi as [Hi|[Hi _] ]; simpl in Hi; [by apply str_lt_le|rewrite Hi; apply str_le_refl].
Qed.

Lemma initial_heap_nil m table efuel ss :
  Forall (stream_ok m table efuel) ss → initial_heap ss = [] →
  concat (content m table <$> ss) = [].
Proof.
  intros Hss Hh. assert (Forall (λ s, content m table s = []) ss) as Hnil.
  { apply Forall_lookup. intros i s Hi. pose proof (Forall_lookup_1 _ _ _ _ Hss Hi) as [Hready _].
    unfold ready in Hready. destruct (peek s) as [p|] eqn:Hp.
    - assert (mkHeapEntry p.1 i ∈ initial_heap ss) as Hin.
      { unfold initial_heap. apply list_elem_of_omap. eexists. split; [|done].
        apply list_elem_of_lookup. exists i. by rewrite list_lookup_imap, Hi; simpl; rewrite Hp. }
      rewrite Hh in Hin. by apply elem_of_nil in Hin.
    - by destruct (content m table s). }
  clear Hss Hh. induction Hnil as [|s ss Hs Hnil IH]; [done|]. simpl. rewrite Hs. exact IH.
Qed.

Lemma merge_loop_spec fuel efuel table ss heap cursor skip skipped limit results w :
  Forall (stream_ok (w_kv w) table efuel) ss →
  NoDup (concat (content (w_kv w) table <$> ss)).*1 →
  heap ≡ₚ initial_heap ss →
  length (concat (content (w_kv w) table <$> ss)) < fuel →
  run (merge_loop (T:=T) fuel efuel table ss heap cursor skip skipped limit results) w =
    (Some (page cursor skip skipped limit
       (merge_sort sk_le (concat (content (w_kv w) table <$> ss))) results), w).
Proof.
  revert ss heap skipped results. induction fuel as [|fuel IH];
    intros ss heap skipped results Hss Hnd Hheap Hfuel; [lia|].
  cbn [merge_loop]. destruct (heap_pop heap) as [ [entry rest]|] eqn:Epop.
  2:{ apply heap_pop_None in Epop as ->. symmetry in Hheap. apply Permutation_nil_r in Hheap.
      by rewrite (initial_heap_nil _ _ _ _ Hss Hheap). }
  apply heap_pop_Some in Epop as [Hp Hmin]. rewrite Hheap in Hp.
  assert (entry ∈ initial_heap ss) as Hin by (rewrite Hp; by left).
  apply elem_of_initial_heap in Hin as (ss1 & s & ss2 & [path value] & -> & Hpeek & ->).
  simpl he_stream_idx. rewrite list_lookup_middle by done. simpl. rewrite Hpeek. simpl.
  pose proof Hss as Hall. apply Forall_app in Hall as [Hss1 Hall].
  apply Forall_cons in Hall as [Hs Hss2].
  destruct (stream_ok_advance _ _ _ _ _ w eq_refl Hs Hpeek) as (s' & Hr & Hs' & Hc).
  rewrite run_bind_ok, Hr. rewrite insert_app_r_alt, Nat.sub_diag by done. simpl.
  pose proof (popped_least _ _ _ _ _ _ _ _ Hss Hpeek Hp Hmin) as Hleast.
  assert (Forall (StronglySorted sk_lt) (content (w_kv w) table <$> ss1 ++ s :: ss2)) as Hsorted.
  { apply Forall_fmap. eapply Forall_impl; [exact Hss|]. by intros ? (_ & ? & _). }
  rewrite fmap_app, fmap_cons, Hc in Hnd, Hfuel, Hsorted |- *.
  rewrite merged_pop by done. simpl in Hleast.
  rewrite elem_of_concat_middle in Hnd, Hfuel. simpl in Hnd, Hfuel. apply NoDup_cons in Hnd as [_ Hnd].
  match goal with |- run (if _ then merge_loop _ _ _ _ ?h _ _ _ _ _ else _) _ = _ => set (heap' := h) end.
  assert (∀ skipped results,
    run (merge_loop (T:=T) fuel efuel table (ss1 ++ s' :: ss2) heap' cursor skip skipped limit results) w =
    (Some (page cursor skip skipped limit (merge_sort sk_le
      (concat ((content (w_kv w) table <$> ss1) ++ content (w_kv w) table s' ::
        (content (w_kv w) table <$> ss2)))) results), w)) as Hgo.
  { intros sk rs. rewrite IH; [by rewrite fmap_app| | | |].
    - by apply Forall_app; split; [|constructor].
    - rewrite fmap_app, fmap_cons, elem_of_concat_middle. done.
    - rewrite initial_heap_middle in Hp |- *. rewrite Hpeek in Hp. simpl in Hp.
      apply Permutation_cons_inv in Hp. subst heap'. rewrite Hp.
      destruct (peek s') as [ [k v]|]; done.
    - rewrite fmap_app, fmap_cons, elem_of_concat_middle. lia. }
  cbn [page]. destruct (match cursor with Some cp => _ | None => _ end); [apply Hgo|].
  case_decide; [apply Hgo|]. destruct (serde_result (from_slice value)) as [rec|e]; [|done].
  simpl. case_decide; [done|apply Hgo].
Qed.

(** ** The page *)

(** Decodes the values in order, up to the first that fails. *)
Fixpoint decode_pairs (l : list (string * bytes)) : result (list (string * T)) :=
  match l with
  | [] => Ok []
  | (sk, v) :: l =>
      let? x := serde_result (from_slice v) in
      let? r := decode_pairs l in
      Ok ((sk, x) :: r)
  end.

Definition after_cursor (cursor : option string) (sk : string) : Prop :=
  match cursor with Some cp => str_lt cp sk | None => True end.

#[export] Instance after_cursor_dec c sk : Decision (after_cursor c sk).
Proof. unfold after_cursor. destruct c; apply _. Defined.

Lemma page_closed cursor skip skipped limit l results :
  skipped ≤ skip → length results ≤ limit →
  page cursor skip skipped limit l results =
    result_map (app results) (decode_pairs (take (S limit - length results)
      (drop (skip - skipped) (filter (λ x, after_cursor cursor x.1) l)))).
Proof.
  revert skipped results. induction l as [|[path value] l IH]; intros skipped results Hsk Hlen.
  { cbn [page]. rewrite filter_nil, drop_nil, take_nil. simpl. by rewrite app_nil_r. }
  cbn [page]. rewrite filter_cons.
  assert (match cursor with Some cp => bool_decide (str_le path cp) | None => false end =
    negb (bool_decide (after_cursor cursor path))) as ->.
  { destruct cursor as [cp|]; simpl; [|done]. rewrite <-bool_decide_not. apply bool_decide_ext.
    apply str_le_nlt. }
  simpl. case_bool_decide as Ha; simpl.
  - rewrite (decide_True (P:=after_cursor cursor path)) by done. case_decide as Hs.
    + replace (skip - skipped) with (S (skip - (skipped + 1))) by lia. simpl. apply IH; lia.
    + replace (skip - skipped) with 0 by lia. rewrite drop_0. 
      replace (S limit - length results) with (S (limit - length results)) by lia. simpl.
      destruct (serde_result (from_slice value)) as [rec|e]; simpl; [|done].
      rewrite length_app. simpl. case_decide as Hl.
      * replace (limit - length results) with 0 by lia. done.
      * rewrite IH by (try rewrite length_app; simpl; lia).
        replace (skip - skipped) with 0 by lia. rewrite drop_0, length_app. simpl.
        replace (S limit - (length results + 1)) with (limit - length results) by lia.
        destruct (decode_pairs _); simpl; [|done]. by rewrite <-app_assoc.
  - rewrite decide_False by done. by apply IH.
Qed.

Lemma try_for_ensure fuel table ss w :
  Forall (λ s, 0 < st_batch_size s ∧ S (length (part (w_kv w) table (st_pk s))) < fuel ∧
    StronglySorted sk_lt (content (w_kv w) table s)) ss →
  ∃ ss', run (try_for ss (ensure_buffered fuel table)) w = (Some (Ok ss'), w) ∧
    Forall (stream_ok (w_kv w) table fuel) ss' ∧
    content (w_kv w) table <$> ss' = content (w_kv w) table <$> ss.
Proof.
  induction 1 as [|s ss (Hb & Hf & Hs) Hss IH]; [by exists []|]. cbn [try_for].
  destruct (ensure_buffered_spec fuel table s w) as (s' & Hr & Hc & Hready & Hpk & Hb'); [done| |].
  { destruct (st_exhausted s); [lia|]. eapply Nat.le_lt_trans; [|exact Hf].
    apply le_n_S, length_filter. }
  destruct IH as (ss' & Hr2 & Hok & Hc2).
  exists (s' :: ss'). rewrite run_bind_ok, Hr, run_bind_ok, Hr2. split_and!; [done| |].
  - constructor; [|done]. repeat split; [done|by rewrite Hc|done|by rewrite Hpk].
  - rewrite !fmap_cons. by rewrite Hc, Hc2.
Qed.

(** The merge is the page of the sorted union of the streams. *)
Lemma k_way_merge_spec fuel table ss cursor skip limit w :
  Forall (λ s, 0 < st_batch_size s ∧ S (length (part (w_kv w) table (st_pk s))) < fuel ∧
    StronglySorted sk_lt (content (w_kv w) table s)) ss →
  NoDup (concat (content (w_kv w) table <$> ss)).*1 →
  length (concat (content (w_kv w) table <$> ss)) < fuel →
  run (k_way_merge (T:=T) fuel table ss cursor skip limit) w =
    (Some (decode_pairs (take (S limit) (drop skip (filter (λ x, after_cursor cursor x.1)
       (merge_sort sk_le (concat (content (w_kv w) table <$> ss))))))), w).
Proof.
  intros Hss Hnd Hlen. unfold k_way_merge.
  destruct (try_for_ensure fuel table ss w Hss) as (ss' & Hr & Hok & Hc).
  rewrite run_bind_ok, Hr. rewrite merge_loop_spec by (rewrite ?Hc; done).
  rewrite Hc, page_closed by (simpl; lia). simpl length. rewrite !Nat.sub_0_r.
  by destruct (decode_pairs _).
Qed.
End merge.

(** ** What a fresh stream yields *)

Section fresh.
Context `{Unicode}.

Definition query_matches (flt : option string) (sk : string) : Prop :=
  match flt with Some q => contains (to_lowercase sk) q = true | None => True end.

#[export] Instance query_matches_dec flt sk : Decision (query_matches flt sk).
Proof. unfold query_matches. destruct flt; apply _. Defined.

Lemma filter_batch_prefix prefix flt l :
  Forall (λ x, starts_with x.1 prefix = true) l →
  filter_batch prefix flt l = (filter (λ x, query_matches flt x.1) l, false).
Proof.
  induction 1 as [|[sk v] l Hx Hl IH]; [done|]. simpl in Hx |- *.
  rewrite Hx, andb_false_r, IH, filter_cons. simpl.
  destruct (decide (query_matches flt sk)) as [Hq|Hq]; destruct flt as [q|]; simpl in Hq |- *; try done.
  - by rewrite Hq.
  - by destruct (contains (to_lowercase sk) q).
Qed.

Lemma new_stream_content m table pk prefix start flt n :
  str_le prefix start →
  content m table (new_stream pk prefix start flt n) =
    filter (λ x, str_le start x.1 ∧ query_matches flt x.1) (entries m table pk prefix).
Proof.
  intros Hstart. unfold content, new_stream, unscanned. simpl.
  set (l := filter _ (part m table pk)).
  destruct (prefix_first prefix l) as (l2 & Hl & Hl2).
  { apply StronglySorted_filter, part_sorted. }
  { apply Forall_forall. intros x [ [? _] _]%list_elem_of_filter. by etrans. }
  rewrite Hl, fmap_app, filter_batch_app, filter_batch_prefix.
  2:{ apply Forall_fmap, Forall_forall. by intros x [? _]%list_elem_of_filter. }
  assert (filter_batch prefix flt (prod_map id fst <$> l2) = ([], bool_decide (l2 ≠ []))) as ->.
  { destruct l2 as [|x l2]; [done|]. simpl. specialize (Hl2 x eq_refl).
    destruct x as [sk v]. simpl in *. rewrite Hl2, bool_decide_true; [done|].
    intros ->. by rewrite starts_with_nil in Hl2. }
  simpl. rewrite app_nil_r. unfold entries. subst l.
  rewrite filter_filter_and. rewrite !filter_fmap_comm, !filter_filter_and.
  f_equal. apply filter_ext_in. intros [sk [v ver] ] _. simpl. unfold in_range.
  split; [tauto|]. intros [ [? ?] Hs]. split; [done|]. split; [done|]. split; [done|].
  by apply str_prefix_end_range in Hs as [_ ?].
Qed.

Lemma entries_sorted m table pk prefix : StronglySorted sk_lt (entries m table pk prefix).
Proof.
  unfold entries. apply StronglySorted_fmap.
  eapply StronglySorted_impl; [|apply StronglySorted_filter, part_sorted].
  done.
Qed.
End fresh.

(** ** Sorted unions *)

Definition union_sorted {A} (l : list (string * A)) : list (string * A) := merge_sort sk_le l.

Lemma union_sorted_strict {A} (l : list (string * A)) :
  NoDup l.*1 → StronglySorted sk_lt (union_sorted l).
Proof.
  intros Hl. apply sorted_le_lt; [by unfold union_sorted; rewrite merge_sort_Permutation|].
  apply Sorted_StronglySorted; [apply _|]. apply Sorted_merge_sort. apply _.
Qed.

Lemma elem_of_union_sorted {A} (l : list (string * A)) x : x ∈ union_sorted l ↔ x ∈ l.
Proof. unfold union_sorted. by rewrite merge_sort_Permutation. Qed.

Lemma NoDup_fst_sublist {A} (l1 l2 : list (string * A)) :
  sublist l1 l2 → NoDup l2.*1 → NoDup l1.*1.
Proof.
  intros Hs. assert (sublist l1.*1 l2.*1) as Hs' by (induction Hs; simpl; by constructor).
  intros Hnd. by eapply sublist_NoDup.
Qed.

Lemma filter_union_sorted {A} (P : string * A → Prop) `{∀ x, Decision (P x)} l :
  NoDup l.*1 → filter P (union_sorted l) = union_sorted (filter P l).
Proof.
  intros Hl. apply (StronglySorted_ext sk_lt); [apply _|apply _| | |].
  - apply StronglySorted_filter. by apply union_sorted_strict.
  - apply union_sorted_strict. eapply NoDup_fst_sublist; [apply sublist_filter|done].
  - intros x. by rewrite elem_of_union_sorted, !list_elem_of_filter, elem_of_union_sorted.
Qed.

Lemma filter_concat {A} (P : A → Prop) `{∀ x, Decision (P x)} (ls : list (list A)) :
  filter P (concat ls) = concat (filter P <$> ls).
Proof. induction ls as [|l ls IH]; [done|]. simpl. by rewrite filter_app, IH. Qed.

Lemma sorted_NoDup_fst {A} (l : list (string * A)) : StronglySorted sk_lt l → NoDup l.*1.
Proof.
  induction 1 as [|x l Hs IH Hx]; [constructor|]. simpl. constructor; [|done].
  intros (y & Heq & Hy)%list_elem_of_fmap. rewrite Forall_forall in Hx.
  specialize (Hx y Hy). unfold sk_lt in Hx. rewrite Heq in Hx. by apply str_lt_irrefl in Hx.
Qed.

Lemma elem_of_concat_fmap {X A} (f : X → list A) xs y :
  y ∈ concat (f <$> xs) ↔ ∃ x, x ∈ xs ∧ y ∈ f x.
Proof.
  induction xs as [|x xs IH]; simpl.
  - rewrite elem_of_nil. split; [done|]. intros (x & Hx & _). by apply elem_of_nil in Hx.
  - rewrite elem_of_app, IH. setoid_rewrite elem_of_cons. naive_solver.
Qed.

(** Keys that determine their shard are distinct over the shards. *)
Lemma NoDup_concat_keyed {X A} (g : string → X) (xs : list X) (f : X → list (string * A)) :
  NoDup xs → (∀ x, x ∈ xs → NoDup (f x).*1) → (∀ x y, x ∈ xs → y ∈ f x → g y.1 = x) →
  NoDup (concat (f <$> xs)).*1.
Proof.
  induction 1 as [|x xs Hx Hxs IH]; intros Hf Hg; [constructor|]. simpl. rewrite fmap_app.
  apply NoDup_app. split_and!.
  - apply Hf. by left.
  - intros k (y & -> & Hy)%list_elem_of_fmap (z & Heq & Hz)%list_elem_of_fmap.
    apply elem_of_concat_fmap in Hz as (x' & Hx' & Hz).
    pose proof (Hg x y ltac:(by left) Hy) as H1. pose proof (Hg x' z ltac:(by right) Hz) as H2.
    rewrite Heq in H1. congruence.
  - apply IH; intros; [apply Hf|apply Hg]; try done; by right.
Qed.

(** ** Following the cursors

    What a client sees that asks for one page after the other. *)

Section cursors.
Context {T : Type} `{Serde T}.

Lemma decode_pairs_app (l1 l2 : list (string * bytes)) :
  decode_pairs (T:=T) (l1 ++ l2) =
    let? r1 := decode_pairs l1 in let? r2 := decode_pairs l2 in Ok (r1 ++ r2).
Proof.
  induction l1 as [|[sk v] l1 IH]; simpl; [by destruct (decode_pairs l2)|].
  destruct (serde_result (from_slice v)); simpl; [|done]. rewrite IH.
  destruct (decode_pairs l1); simpl; [|done]. by destruct (decode_pairs l2).
Qed.

Lemma decode_pairs_keys (l : list (string * bytes)) (r : list (string * T)) :
  decode_pairs l = Ok r → r.*1 = l.*1.
Proof.
  revert r. induction l as [|[sk v] l IH]; intros r; simpl; [by intros [= <-]|].
  destruct (serde_result (from_slice v)); simpl; [|done].
  destruct (decode_pairs l); simpl; [|done]. intros [= <-]. simpl. f_equal. by apply IH.
Qed.

Lemma decode_pairs_length (l : list (string * bytes)) (r : list (string * T)) :
  decode_pairs l = Ok r → length r = length l.
Proof. intros Hl%decode_pairs_keys%(f_equal length). by rewrite !length_fmap in Hl. Qed.

Lemma decode_pairs_take_drop n (l : list (string * bytes)) (r : list (string * T)) :
  decode_pairs l = Ok r →
  decode_pairs (take n l) = Ok (take n r) ∧ decode_pairs (drop n l) = Ok (drop n r).
Proof.
  intros Hl. rewrite <-(take_drop n l), decode_pairs_app in Hl.
  destruct (decode_pairs (take n l)) as [r1|] eqn:E1; [|done].
  destruct (decode_pairs (drop n l)) as [r2|] eqn:E2; [|done]. simplify_eq/=.
  pose proof (decode_pairs_length _ _ E1) as H1. pose proof (decode_pairs_length _ _ E2) as H2.
  rewrite length_take in H1. rewrite length_drop in H2.
  destruct (decide (n ≤ length l)).
  - rewrite take_app_length', drop_app_length' by lia. done.
  - assert (r2 = []) as -> by (apply length_zero_iff_nil; lia). rewrite app_nil_r, take_ge, drop_ge by lia. done.
Qed.

Lemma decode_pairs_lookup (l : list (string * bytes)) (r : list (string * T)) i x :
  decode_pairs l = Ok r → r !! i = Some x → ∃ v, l !! i = Some (x.1, v).
Proof.
  intros Hk%decode_pairs_keys Hx. apply (f_equal (λ l, l !! i)) in Hk.
  rewrite !list_lookup_fmap, Hx in Hk. simpl in Hk. symmetry in Hk.
  apply fmap_Some in Hk as ([sk v] & Hl & ->). by exists v.
Qed.

(** Past a key of a sorted list there is what follows it. *)
Lemma filter_after_key {A} (l1 : list (string * A)) x l2 :
  StronglySorted sk_lt (l1 ++ x :: l2) → filter (λ y, str_lt x.1 y.1) (l1 ++ x :: l2) = l2.
Proof.
  intros Hs. apply StronglySorted_app in Hs as (Hlt & _ & Hs).
  apply StronglySorted_inv in Hs as [_ Hs]. rewrite filter_app, filter_none.
  - rewrite filter_cons_False by apply str_lt_irrefl. apply filter_all.
    rewrite Forall_forall in Hs |- *. exact Hs.
  - apply Forall_forall. intros y Hy Hxy.
    pose proof (Hlt y x Hy ltac:(by left)) as Hyx. by apply (str_lt_irrefl x.1); etrans.
Qed.

(** The entries after the last one of a page are the rest. *)
Lemma filter_after_page {A} (l : list (string * A)) cursor n x :
  StronglySorted sk_lt l →
  let rest := filter (λ y, after_cursor cursor y.1) l in
  rest !! n = Some x → filter (λ y, after_cursor (Some x.1) y.1) l = drop (S n) rest.
Proof.
  intros Hs rest Hx. pose proof (list_elem_of_lookup_2 _ _ _ Hx) as Hin.
  apply list_elem_of_filter in Hin as [Hafter _].
  assert (filter (λ y, after_cursor (Some x.1) y.1) l = filter (λ y, str_lt x.1 y.1) rest) as ->.
  { unfold rest. rewrite filter_filter_and. apply filter_ext_in. intros y _. simpl.
    split; [|tauto]. intros Hxy. split; [done|]. destruct cursor as [c|]; [|done]. simpl in *. by etrans. }
  assert (StronglySorted sk_lt rest) as Hsr by by apply StronglySorted_filter.
  pose proof (take_drop_middle _ _ _ Hx) as Hr. rewrite <-Hr in Hsr |- * at 1.
  by apply filter_after_key.
Qed.
End cursors.
