(* ===== verification/Update.v ===== *)
(** * The update channels (core/src/update.rs)

    What the request handlers send to the update worker. *)

From S2P Require Import Prelude Bytes Errors Keys Records Kv Prog.

(** core/src/update.rs:156-162 *)
Definition parent_dir (path : string) : string :=
  match rsplit_once SLASH path with
  | Some (before, _) => before
  | None => ""
  end.

(** Best effort: a full channel drops the event. *)
(** core/src/update.rs:109-119 *)
Definition touch (full : bool) (repo path : string) (now : DateTime) : prog unit :=
  let event := mkAtimeEvent repo path now in
  if full then Ret tt else call (ESend (EvAtime event)).

(** core/src/update.rs:121-132 *)
Definition store_changed (store : string) (count_delta bytes_delta : Z) : prog unit :=
  call (ESend (EvStore (mkStoreDelta store count_delta bytes_delta))).

(** core/src/update.rs:134-151 *)
Definition dir_changed `{Blake3} (repo path : string) (count_delta bytes_delta : Z) : prog unit :=
  let clean := normalize_path path in
  let dir_path := parent_dir clean in
  let pk := sharded_pk repo (tree_parent dir_path) in
  let* now := call ENow in
  call (ESend (EvDir (mkDirDelta repo pk dir_path count_delta bytes_delta now))).
