(* ===== verification/Artifact.v ===== *)
(** * Artifacts (core/src/service/artifact.rs)

    Creation, lookup, deletion, listing and access tracking of artifact
    records and of their file entries in the browse tree. *)

From S2P Require Import Prelude Bytes Errors Keys Records Kv Prog Scan Pagination.

(** The record with its id, access time and path filled in. *)
Definition ar_prepared (r : ArtifactRecord) (id : string) (accessed : DateTime) (path : string) :
    ArtifactRecord :=
  mkArtifactRecord (ar_schema_version r) id (ar_size r) (ar_content_type r) (ar_created_at r)
    (ar_updated_at r) accessed path (ar_kind r) (ar_internal r) (ar_blob_id r)
    (ar_content_hash r) (ar_etag r).

(** core/src/service/artifact.rs:48-48 *)
Definition PUT_ARTIFACT_MAX_RETRIES : nat := 3.

Section artifact.
Context `{Blake3} `{Serde ArtifactRecord} `{Serde TreeEntry}.

(** core/src/service/artifact.rs:21-32 *)
Definition tree_file_of (r : ArtifactRecord) : TreeEntry :=
  mkTreeEntry
    (TFile (ar_size r) (ar_content_type r) (ar_kind r) (ar_blob_id r) (ar_content_hash r)
       (ar_created_at r))
    (ar_updated_at r) (ar_last_accessed_at r).

(** core/src/service/artifact.rs:20-37 *)
Definition upsert_tree_file (repo path : string) (record : ArtifactRecord) : prog unit :=
  let entry := tree_file_of record in
  match to_vec entry with
  | inr bytes =>
      let '(table, pk, sk) := tree_entry_key repo path in
      let* _ := kv (Put table pk sk bytes) in
      Ret tt
  | inl _ => Ret tt
  end.

(** core/src/service/artifact.rs:40-43 *)
Definition delete_tree_file (repo path : string) : prog unit :=
  let '(table, pk, sk) := tree_entry_key repo path in
  let* _ := kv (Delete table pk sk) in
  Ret tt.

(** core/src/service/artifact.rs:71-79 *)
Definition prepare_record (path : string) (record : ArtifactRecord) : prog ArtifactRecord :=
  let* id := if decide (ar_id record = "") then call EUuid else Ret (ar_id record) in
  let accessed := if decide (ar_last_accessed_at record = UNIX_EPOCH)
                  then ar_created_at record else ar_last_accessed_at record in
  Ret (ar_prepared record id accessed path).

(** The attempts that are left. *)
(** core/src/service/artifact.rs:61-103 *)
Fixpoint put_artifact_loop (attempts : nat) (repo path : string) (record : ArtifactRecord) :
    prog (result (option ArtifactRecord)) :=
  match attempts with
  | O =>
      Ret (Err (Conflict ("put_artifact failed after " +:+
        show_uint (N.of_nat PUT_ARTIFACT_MAX_RETRIES) +:+
        " retries due to concurrent writes: " +:+ repo +:+ "/" +:+ path)))
  | S attempts =>
      let '(table, pk, sk) := artifact_key repo path in
      let*? old := typed_get_versioned table pk sk in
      let '(old_record, expected_version) :=
        match old with
        | Some (rec, version) => (Some rec, Some version)
        | None => (None, None)
        end in
      let* prepared := prepare_record path record in
      let! bytes := serde_result (to_vec prepared) in
      let*? written := kv (PutIfVersion table pk sk bytes expected_version) in
      if (written : bool) then
        let* _ := upsert_tree_file repo path prepared in
        Ret (Ok old_record)
      else put_artifact_loop attempts repo path record
  end.

(** core/src/service/artifact.rs:51-104 *)
Definition put_artifact (repo path : string) (record : ArtifactRecord) :
    prog (result (option ArtifactRecord)) :=
  if decide (path = "") then Ret (Err (BadRequest "empty artifact path"))
  else put_artifact_loop PUT_ARTIFACT_MAX_RETRIES repo path record.

(** core/src/service/artifact.rs:106-130 *)
Definition put_artifact_if_absent (repo path : string) (record : ArtifactRecord) :
    prog (result bool) :=
  let '(table, pk, sk) := artifact_key repo path in
  let* record := prepare_record path record in
  let! bytes := serde_result (to_vec record) in
  let*? written := kv (PutIfAbsent table pk sk bytes) in
  let* _ := if (written : bool) then upsert_tree_file repo path record else Ret tt in
  Ret (Ok written).

(** core/src/service/artifact.rs:132-140 *)
Definition get_artifact (repo path : string) : prog (result (option ArtifactRecord)) :=
  let '(table, pk, sk) := artifact_key repo path in
  typed_get table pk sk.

(** core/src/service/artifact.rs:142-156 *)
Definition delete_artifact (repo path : string) : prog (result (option ArtifactRecord)) :=
  let '(table, pk, sk) := artifact_key repo path in
  let*? o := kv (DeleteReturning table pk sk) in
  match o with
  | Some bytes =>
      let* _ := delete_tree_file repo path in
      let! r := serde_result (from_slice bytes) in
      Ret (Ok (Some r))
  | None => Ret (Ok None)
  end.

(** The "ghost" count is logged only. *)
(** core/src/service/artifact.rs:158-256 *)
Definition delete_artifacts_paired_batch (repo : string) (paths : list string) : prog (result unit) :=
  match paths with
  | [] => Ret (Ok tt)
  | _ =>
      let artifact_keys := (λ path, let '(_, pk, sk) := artifact_key repo path in (pk, sk)) <$> paths in
      let*? record_hits := kv (DeleteBatch TABLE_ARTIFACTS artifact_keys) in
      let tree_keys := (λ path, let '(_, pk, sk) := tree_entry_key repo path in (pk, sk)) <$> paths in
      let* _ := kv (DeleteBatch TABLE_DIR_ENTRIES tree_keys) in
      Ret (Ok tt)
  end.

(** core/src/service/artifact.rs:349-379 *)
Definition touch_artifact (repo path : string) (now : DateTime) : prog (result unit) :=
  let '(_, pk, sk) := tree_entry_key repo path in
  let*? o := kv (GetVersioned TABLE_DIR_ENTRIES pk sk) in
  match o with
  | None => Ret (Ok tt)
  | Some (bytes, version) =>
      let! te := serde_result (from_slice bytes) in
      if decide (num_seconds_between now (te_last_accessed_at te) < 60)%Z then Ret (Ok tt)
      else
        let te := mkTreeEntry (te_kind te) (te_last_modified_at te) now in
        let! new_bytes := serde_result (to_vec te) in
        let*? _ := kv (PutIfVersion TABLE_DIR_ENTRIES pk sk new_bytes (Some version)) in
        Ret (Ok tt)
  end.

Context `{Unicode} `{Base64}.

(** core/src/service/artifact.rs:260-298 *)
Definition list_artifacts (fuel : nat) (repo prefix : string) (pagination : Pagination) :
    prog (result (PaginatedResult (string * ArtifactRecord))) :=
  let cursor_path := decode_cursor (pg_cursor pagination) in
  let per_shard := per_shard_batch (pg_limit pagination) in
  let streams := (λ shard,
    let pk := artifact_shard_pk repo shard in
    let start := match cursor_path with
                 | Some cp => if decide (str_lt prefix cp) then cp else prefix
                 | None => prefix
                 end in
    new_stream pk prefix start None per_shard) <$> shard_range in
  let skip := if cursor_path is Some _ then 0 else pg_offset pagination in
  let*? items := k_way_merge fuel TABLE_ARTIFACTS streams cursor_path skip (pg_limit pagination) in
  Ret (Ok (paginate_results items (pg_limit pagination))).

(** core/src/service/artifact.rs:300-345 *)
Definition search_artifacts (fuel : nat) (repo query : string) (pagination : Pagination) :
    prog (result (PaginatedResult (string * ArtifactRecord))) :=
  let query_lower := to_lowercase query in
  let cursor_path := decode_cursor (pg_cursor pagination) in
  let per_shard := per_shard_batch (pg_limit pagination) in
  let streams := (λ shard,
    let pk := artifact_shard_pk repo shard in
    let start := match cursor_path with Some cp => cp | None => "" end in
    new_stream pk "" start (Some query_lower) per_shard) <$> shard_range in
  let skip := if cursor_path is Some _ then 0 else pg_offset pagination in
  let*? items := k_way_merge fuel TABLE_ARTIFACTS streams cursor_path skip (pg_limit pagination) in
  Ret (Ok (paginate_results items (pg_limit pagination))).

Context {St : Type}.

(** The fold of one shard. *)
(** core/src/service/artifact.rs:406-423 *)
Definition fold_shard (fuel : nat) (repo prefix : string) (init : St)
    (fold : St → string → ArtifactRecord → result St) (shard : N) : prog (result St) :=
  let pk := artifact_shard_pk repo shard in
  for_each_in_partition (λ state sk v,
    let? record := serde_result (from_slice v) in
    let? state := fold state sk record in
    Ok (true, state)) fuel TABLE_ARTIFACTS pk prefix SCAN_BATCH_SIZE init.

(** [into_iter().reduce(merge).unwrap_or_else(init)]. *)
Definition reduce_or (merge : St → St → St) (init : St) (l : list St) : St :=
  match l with
  | [] => init
  | x :: l => foldl merge x l
  end.

(** [schedule] is the order in which the shards complete. *)
(** core/src/service/artifact.rs:388-432 *)
Definition fold_all_artifacts (schedule : list N) (fuel : nat) (repo prefix : string) (init : St)
    (fold : St → string → ArtifactRecord → result St) (merge : St → St → St) : prog (result St) :=
  let*? shard_states := try_for schedule (fold_shard fuel repo prefix init fold) in
  Ret (Ok (reduce_or merge init shard_states)).
End artifact.

(** ** Single-caller behaviour *)

Section spec.
Context `{Blake3} `{Serde ArtifactRecord} `{Serde TreeEntry} `{UuidGen}.
Implicit Types w : world kvmap.

(** The record that is stored: its id drawn when empty, its access time
    defaulted. *)
Definition stored_record (w : world kvmap) (path : string) (r : ArtifactRecord) : ArtifactRecord :=
  ar_prepared r (if decide (ar_id r = "") then new_v4 (w_uuids w) else ar_id r)
    (if decide (ar_last_accessed_at r = UNIX_EPOCH) then ar_created_at r else ar_last_accessed_at r)
    path.

Definition after_prepare (w : world kvmap) (r : ArtifactRecord) : world kvmap :=
  if decide (ar_id r = "") then bump_uuid w else w.

Lemma run_prepare w path r :
  run (prepare_record path r) w = (Some (stored_record w path r), after_prepare w r).
Proof. unfold prepare_record, stored_record, after_prepare. by case_decide. Qed.

Lemma w_kv_after_prepare w r : w_kv (after_prepare w r) = w_kv w.
Proof. unfold after_prepare. by case_decide. Qed.

(** The state after the browse-tree write. *)
Definition tree_put (repo path : string) (r : ArtifactRecord) (m : kvmap) : kvmap :=
  match to_vec (tree_file_of r) with
  | inr b => spec_put (tree_entry_key repo path) b m
  | inl _ => m
  end.

Lemma run_upsert w repo path r :
  run (upsert_tree_file repo path r) w = (Some tt, set_kv (tree_put repo path r (w_kv w)) w).
Proof.
  unfold upsert_tree_file, tree_put. destruct (to_vec (tree_file_of r)) as [e|b].
  - by rewrite set_kv_id.
  - by destruct (tree_entry_key repo path) as [ [t pk] sk].
Qed.

(** What the record under a key was, if it can be read. *)
Definition old_of (m : kvmap) (k : string * string * string) : string + option ArtifactRecord :=
  match m !! k with
  | Some (b, _) => match from_slice b with inr r => inr (Some r) | inl e => inl e end
  | None => inr None
  end.

Lemma run_put_artifact_loop n w repo path r b old :
  to_vec (stored_record w path r) = inr b →
  old_of (w_kv w) (artifact_key repo path) = inr old →
  run (put_artifact_loop (S n) repo path r) w =
    (Some (Ok old),
     set_kv (tree_put repo path (stored_record w path r)
       (<[artifact_key repo path :=
          (b, u64_add (version_of (w_kv w !! artifact_key repo path)) 1)]> (w_kv w)))
       (after_prepare w r)).
Proof.
  intros Hb Hold. cbn [put_artifact_loop]. unfold old_of in Hold.
  destruct (artifact_key repo path) as [ [t pk] sk]. unfold typed_get_versioned. run_steps.
  assert (∀ e : option Z, e = snd <$> w_kv w !! (t, pk, sk) →
    run (let* prepared := prepare_record path r in
         let! bytes := serde_result (to_vec prepared) in
         let*? written := kv (PutIfVersion t pk sk bytes e) in
         if (written : bool) then
           let* _ := upsert_tree_file repo path prepared in Ret (Ok old)
         else put_artifact_loop n repo path r) w =
    (Some (Ok old), set_kv (tree_put repo path (stored_record w path r)
       (<[(t, pk, sk) := (b, u64_add (version_of (w_kv w !! (t, pk, sk))) 1)]> (w_kv w)))
       (after_prepare w r))) as Hgo.
  { intros e He. run_step. rewrite run_prepare, Hb. run_steps. rewrite w_kv_after_prepare.
    unfold spec_put_if_version. rewrite decide_True by done. cbn [fst snd].
    run_steps. rewrite run_upsert. cbn [w_kv set_kv]. subst e.
    by destruct (w_kv w !! (t, pk, sk)) as [ [? ?]|]. }
  revert Hold Hgo. destruct (w_kv w !! (t, pk, sk)) as [ [b0 v0]|] eqn:El; intros Hold Hgo.
  - destruct (from_slice b0) as [e|rec]; simplify_eq/=. by apply Hgo.
  - simplify_eq/=. by apply Hgo.
Qed.

Lemma run_put_artifact w repo path r b old :
  path ≠ "" → to_vec (stored_record w path r) = inr b →
  old_of (w_kv w) (artifact_key repo path) = inr old →
  run (put_artifact repo path r) w =
    (Some (Ok old),
     set_kv (tree_put repo path (stored_record w path r)
       (<[artifact_key repo path :=
          (b, u64_add (version_of (w_kv w !! artifact_key repo path)) 1)]> (w_kv w)))
       (after_prepare w r)).
Proof.
  intros Hp Hb Hold. unfold put_artifact. rewrite decide_False by done.
  by apply run_put_artifact_loop.
Qed.

Lemma run_get_artifact w repo path :
  run (get_artifact repo path) w =
    (Some (match old_of (w_kv w) (artifact_key repo path) with
           | inr o => Ok o
           | inl e => Err (from_storage_error e)
           end), w).
Proof.
  unfold get_artifact, old_of. destruct (artifact_key repo path) as [ [t pk] sk].
  unfold typed_get. run_steps. destruct (w_kv w !! (t, pk, sk)) as [ [b v]|]; [|done]. simpl.
  by destruct (from_slice b).
Qed.

Lemma tree_put_lookup repo path r m k :
  k ≠ tree_entry_key repo path → tree_put repo path r m !! k = m !! k.
Proof.
  unfold tree_put. intros Hk. destruct (to_vec _); [done|]. by apply lookup_insert_ne.
Qed.

Lemma artifact_key_table repo path : (artifact_key repo path).1.1 = TABLE_ARTIFACTS.
Proof. done. Qed.

Lemma artifact_tree_key_ne repo path repo' path' :
  artifact_key repo path ≠ tree_entry_key repo' path'.
Proof. intros Heq. by apply (f_equal (λ k, k.1.1)) in Heq. Qed.

Lemma run_delete_artifact w repo path :
  run (delete_artifact repo path) w =
    (Some (match old_of (w_kv w) (artifact_key repo path) with
           | inr o => Ok o
           | inl e => Err (from_storage_error e)
           end),
     match w_kv w !! artifact_key repo path with
     | Some _ => set_kv (delete (tree_entry_key repo path) (delete (artifact_key repo path) (w_kv w))) w
     | None => w
     end).
Proof.
  unfold delete_artifact, delete_tree_file, old_of.
  destruct (artifact_key repo path) as [ [t pk] sk]. destruct (tree_entry_key repo path) as [ [t' pk'] sk'].
  run_steps. destruct (w_kv w !! (t, pk, sk)) as [ [b v]|] eqn:E; cbn [fmap option_fmap option_map fst].
  - run_steps. by destruct (from_slice b).
  - by rewrite delete_id, set_kv_id.
Qed.
End spec.

(** ** Listings *)

Section listing.
Context `{Blake3} `{Serde ArtifactRecord} `{Serde TreeEntry} `{UuidGen} `{Unicode} `{Base64}.
Implicit Types (m : kvmap) (w : world kvmap).

(** Every record is in the shard of its path, where [artifact_key] puts it. *)
Definition placed m (repo : string) : Prop :=
  ∀ shard sk v, shard ∈ shard_range →
    m !! (TABLE_ARTIFACTS, artifact_shard_pk repo shard, sk) = Some v → shard_of sk = shard.

(** The records of a repository under a prefix, in path order. *)
Definition repo_listing m (repo prefix : string) : list (string * bytes) :=
  union_sorted (concat ((λ shard,
    entries m TABLE_ARTIFACTS (artifact_shard_pk repo shard) prefix) <$> shard_range)).

Definition repo_size m (repo : string) : nat :=
  length (concat ((λ shard, part m TABLE_ARTIFACTS (artifact_shard_pk repo shard)) <$> shard_range)).

Lemma elem_of_entries m t pk prefix sk v :
  (sk, v) ∈ entries m t pk prefix ↔
    starts_with sk prefix = true ∧ ∃ ver, m !! (t, pk, sk) = Some (v, ver).
Proof.
  unfold entries. rewrite list_elem_of_fmap. split.
  - intros ([sk' [v' ver] ] & [= -> ->] & [Hsw Hin]%list_elem_of_filter).
    split; [done|]. exists ver. by apply elem_of_part.
  - intros (Hsw & ver & Hm). exists (sk, (v, ver)). split; [done|].
    apply list_elem_of_filter. split; [done|]. by apply elem_of_part.
Qed.

Lemma NoDup_repo_entries m repo prefix : placed m repo →
  NoDup (concat ((λ shard,
    entries m TABLE_ARTIFACTS (artifact_shard_pk repo shard) prefix) <$> shard_range)).*1.
Proof.
  intros Hm. apply (NoDup_concat_keyed shard_of).
  - apply NoDup_shard_range.
  - intros shard _. apply sorted_NoDup_fst, entries_sorted.
  - intros shard [sk v] Hs (_ & ver & Hin)%elem_of_entries. by apply (Hm _ _ (v, ver)).
Qed.

Lemma repo_listing_sorted m repo prefix : placed m repo →
  StronglySorted sk_lt (repo_listing m repo prefix).
Proof. intros Hm. by apply union_sorted_strict, NoDup_repo_entries. Qed.

Lemma elem_of_repo_listing m repo prefix sk v : placed m repo →
  (sk, v) ∈ repo_listing m repo prefix ↔
    starts_with sk prefix = true ∧
    ∃ ver, m !! (TABLE_ARTIFACTS, sharded_pk repo sk, sk) = Some (v, ver).
Proof.
  intros Hm. unfold repo_listing. rewrite elem_of_union_sorted, elem_of_concat_fmap. split.
  - intros (shard & Hs & (Hsw & ver & Hin)%elem_of_entries). split; [done|]. exists ver.
    unfold sharded_pk. rewrite (Hm _ _ _ Hs Hin). done.
  - intros (Hsw & ver & Hin). exists (shard_of sk). split; [apply shard_of_in_range|].
    apply elem_of_entries. split; [done|]. by exists ver.
Qed.

Lemma length_concat_le {X A B} (f : X → list A) (g : X → list B) xs :
  (∀ x, length (f x) ≤ length (g x)) → length (concat (f <$> xs)) ≤ length (concat (g <$> xs)).
Proof.
  intros Hle. induction xs as [|x xs IH]; simpl; [done|]. rewrite !length_app.
  specialize (Hle x). unfold fmap in IH. lia.
Qed.

Lemma length_concat_elem {X A} (f : X → list A) xs x :
  x ∈ xs → length (f x) ≤ length (concat (f <$> xs)).
Proof.
  induction 1 as [x xs|x y xs Hx IH]; simpl; rewrite length_app; [lia|]. unfold fmap in IH. lia.
Qed.

(** The page of a set of streams whose contents are the filtered partitions. *)
Lemma merge_page fuel repo prefix start flt n cursor skip limit w :
  placed (w_kv w) repo → str_le prefix start → 0 < n → S (repo_size (w_kv w) repo) < fuel →
  run (k_way_merge fuel TABLE_ARTIFACTS
    ((λ shard, new_stream (artifact_shard_pk repo shard) prefix start flt n) <$> shard_range)
    cursor skip limit) w =
  (Some (decode_pairs (T:=ArtifactRecord) (take (S limit) (drop skip
     (filter (λ x, after_cursor cursor x.1)
       (filter (λ x, str_le start x.1 ∧ query_matches flt x.1)
         (repo_listing (w_kv w) repo prefix)))))), w).
Proof.
  intros Hm Hstart Hn Hfuel.
  assert (content (w_kv w) TABLE_ARTIFACTS <$>
      ((λ shard, new_stream (artifact_shard_pk repo shard) prefix start flt n) <$> shard_range) =
    (λ shard, filter (λ x, str_le start x.1 ∧ query_matches flt x.1)
      (entries (w_kv w) TABLE_ARTIFACTS (artifact_shard_pk repo shard) prefix)) <$> shard_range) as Hc.
  { rewrite <-list_fmap_compose. apply list_fmap_ext. intros i shard _. by apply new_stream_content. }
  assert (concat ((λ shard, filter (λ x, str_le start x.1 ∧ query_matches flt x.1)
      (entries (w_kv w) TABLE_ARTIFACTS (artifact_shard_pk repo shard) prefix)) <$> shard_range) =
    filter (λ x, str_le start x.1 ∧ query_matches flt x.1)
      (concat ((λ shard, entries (w_kv w) TABLE_ARTIFACTS (artifact_shard_pk repo shard) prefix) <$> shard_range)))
    as Hcf.
  { by rewrite filter_concat, <-list_fmap_compose. }
  rewrite k_way_merge_spec; rewrite ?Hc, ?Hcf.
  - do 6 f_equal. unfold repo_listing. symmetry. apply filter_union_sorted. by apply NoDup_repo_entries.
  - apply Forall_fmap, Forall_forall. intros shard Hs. simpl. split_and!; [done| |].
    + eapply Nat.le_lt_trans; [|exact Hfuel]. apply le_n_S.
      by apply (length_concat_elem (λ shard, part (w_kv w) TABLE_ARTIFACTS (artifact_shard_pk repo shard))).
    + rewrite new_stream_content by done. apply StronglySorted_filter, entries_sorted.
  - eapply NoDup_fst_sublist; [apply sublist_filter|]. by apply NoDup_repo_entries.
  - eapply Nat.le_lt_trans; [apply length_filter|]. eapply Nat.le_lt_trans; [|exact Hfuel].
    apply Nat.le_le_succ_r, length_concat_le. intros shard. unfold entries.
    rewrite length_fmap. apply length_filter.
Qed.
End listing.

(** ** Pages *)

Section pages.
Context `{Blake3} `{Serde ArtifactRecord} `{Serde TreeEntry} `{UuidGen} `{Unicode} `{Base64}.
Implicit Types (m : kvmap) (w : world kvmap).

(** The entries a request skips by offset: none with a cursor. *)
Definition page_skip (pg : Pagination) : nat :=
  match decode_cursor (pg_cursor pg) with Some _ => 0 | None => pg_offset pg end.

(** The page of a listing that a request selects. *)
Definition page_of (pg : Pagination) (l : list (string * bytes)) :
    result (PaginatedResult (string * ArtifactRecord)) :=
  result_map (λ items, paginate_results items (pg_limit pg))
    (decode_pairs (take (S (pg_limit pg)) (drop (page_skip pg)
      (filter (λ x, after_cursor (decode_cursor (pg_cursor pg)) x.1) l)))).

Lemma elem_of_listing_prefix m repo prefix x : x ∈ repo_listing m repo prefix → str_le prefix x.1.
Proof.
  unfold repo_listing. rewrite elem_of_union_sorted, elem_of_concat_fmap. destruct x as [sk v].
  intros (shard & _ & (Hsw & _)%elem_of_entries). by apply starts_with_le.
Qed.

Lemma run_list_artifacts fuel repo prefix pg w :
  placed (w_kv w) repo → S (repo_size (w_kv w) repo) < fuel →
  run (list_artifacts fuel repo prefix pg) w =
    (Some (page_of pg (repo_listing (w_kv w) repo prefix)), w).
Proof.
  intros Hm Hfuel. unfold list_artifacts. rewrite run_bind_ok.
  set (start := match decode_cursor _ with Some cp => _ | None => prefix end).
  assert (str_le prefix start) as Hstart.
  { unfold start. destruct (decode_cursor _) as [cp|]; [|apply str_le_refl].
    case_decide; [by apply str_lt_le|apply str_le_refl]. }
  rewrite merge_page; [|done|done|unfold per_shard_batch; lia|done].
  unfold page_of, page_skip. rewrite filter_filter_and.
  rewrite (filter_ext_in _ (λ x, after_cursor (decode_cursor (pg_cursor pg)) x.1)).
  { destruct (decode_cursor (pg_cursor pg)); by destruct (decode_pairs _). }
  intros x Hx. simpl. split; [tauto|]. intros Hafter. split; [done|]. split; [|done].
  unfold start. apply elem_of_listing_prefix in Hx.
  destruct (decode_cursor _) as [cp|]; [|done]. case_decide; [|done]. by apply str_lt_le.
Qed.

Lemma run_search_artifacts fuel repo query pg w :
  placed (w_kv w) repo → S (repo_size (w_kv w) repo) < fuel →
  run (search_artifacts fuel repo query pg) w =
    (Some (page_of pg (filter (λ x, contains (to_lowercase x.1) (to_lowercase query) = true)
      (repo_listing (w_kv w) repo ""))), w).
Proof.
  intros Hm Hfuel. unfold search_artifacts. rewrite run_bind_ok.
  set (start := match decode_cursor _ with Some cp => cp | None => "" end).
  rewrite merge_page; [|done|apply str_le_nil|unfold per_shard_batch; lia|done].
  unfold page_of, page_skip. rewrite !filter_filter_and.
  rewrite (filter_ext_in _ (λ x, after_cursor (decode_cursor (pg_cursor pg)) x.1 ∧
    contains (to_lowercase x.1) (to_lowercase query) = true)).
  { destruct (decode_cursor (pg_cursor pg)); by destruct (decode_pairs _). }
  intros x Hx. simpl. split; [tauto|]. intros [Hafter Hq]. split; [done|]. split; [|done].
  unfold start. destruct (decode_cursor _) as [cp|]; [|apply str_le_nil]. by apply str_lt_le.
Qed.

(** A client that follows [next_cursor]; [rounds] bounds its requests. *)
Fixpoint follow_cursors (rounds fuel : nat) (repo prefix : string) (pg : Pagination) :
    prog (result (list (string * ArtifactRecord))) :=
  match rounds with
  | O => Spin
  | S rounds =>
      let*? page := list_artifacts fuel repo prefix pg in
      match pr_next_cursor page with
      | None => Ret (Ok (pr_items page))
      | Some c =>
          let*? rest := follow_cursors rounds fuel repo prefix
            (mkPagination (Some c) (pg_offset pg) (pg_limit pg)) in
          Ret (Ok (pr_items page ++ rest))
      end
  end.

(** The keys are readable text, as the keys of paths are. *)
Definition keys_utf8 m (repo : string) : Prop :=
  Forall (λ x, valid_utf8 x.1 = true) (repo_listing m repo "").

Lemma listing_utf8 m repo prefix x :
  placed m repo → keys_utf8 m repo → x ∈ repo_listing m repo prefix → valid_utf8 x.1 = true.
Proof.
  intros Hm Hu Hx. unfold keys_utf8 in Hu. rewrite Forall_forall in Hu. apply Hu.
  destruct x as [sk v]. apply elem_of_repo_listing in Hx as (_ & Hx); [|done].
  apply elem_of_repo_listing; [done|]. split; [apply starts_with_nil|done].
Qed.

Lemma decode_cursor_encoded sk : valid_utf8 sk = true → decode_cursor (Some (b64_encode sk)) = Some sk.
Proof.
  intros Hv. unfold decode_cursor. simpl. rewrite b64_round_trip. simpl.
  by rewrite from_utf8_lossy_valid.
Qed.

(** What the requests from a page on will see. *)
Definition from_page m (repo prefix : string) (pg : Pagination) : list (string * bytes) :=
  drop (page_skip pg) (filter (λ x, after_cursor (decode_cursor (pg_cursor pg)) x.1)
    (repo_listing m repo prefix)).

(** The next page starts where the page ends. *)
Lemma from_next_page m repo prefix pg (items : list (string * ArtifactRecord)) sk r :
  placed m repo → keys_utf8 m repo → 0 < pg_limit pg →
  decode_pairs (take (S (pg_limit pg)) (from_page m repo prefix pg)) = Ok items →
  items !! (pg_limit pg - 1) = Some (sk, r) →
  from_page m repo prefix (mkPagination (Some (b64_encode sk)) (pg_offset pg) (pg_limit pg)) =
    drop (pg_limit pg) (from_page m repo prefix pg).
Proof.
  intros Hm Hu Hl Hd Hsk. destruct (decode_pairs_lookup _ _ _ _ Hd Hsk) as [v Hv]. simpl in Hv.
  rewrite lookup_take_lt in Hv by lia. unfold from_page in Hv |- * at 2. rewrite lookup_drop in Hv.
  pose proof (filter_after_page _ _ _ _ (repo_listing_sorted _ _ prefix Hm) Hv) as Hnext.
  apply list_elem_of_lookup_2, list_elem_of_filter in Hv as [_ Hin].
  unfold from_page, page_skip at 1. cbn [pg_cursor].
  rewrite decode_cursor_encoded by by apply (listing_utf8 _ _ _ _ Hm Hu Hin).
  rewrite drop_0. simpl in Hnext |- *. rewrite Hnext, drop_drop. f_equal. lia.
Qed.

(** The pages from one on are what is left of the listing. *)
Lemma run_follow_from rounds fuel repo prefix pg w all :
  placed (w_kv w) repo → keys_utf8 (w_kv w) repo → S (repo_size (w_kv w) repo) < fuel →
  0 < pg_limit pg → length (from_page (w_kv w) repo prefix pg) < rounds →
  decode_pairs (from_page (w_kv w) repo prefix pg) = Ok all →
  run (follow_cursors rounds fuel repo prefix pg) w = (Some (Ok all), w).
Proof.
  intros Hm Hu Hf. revert pg all. induction rounds as [|rounds IH]; intros pg all Hl Hr Hall; [lia|].
  cbn [follow_cursors]. rewrite run_bind_ok, run_list_artifacts by done.
  unfold page_of. fold (from_page (w_kv w) repo prefix pg).
  destruct (decode_pairs_take_drop (S (pg_limit pg)) _ _ Hall) as [Ht _]. rewrite Ht.
  cbn [result_map]. pose proof (decode_pairs_length _ _ Hall) as Hlen.
  unfold paginate_results. rewrite take_take, Nat.min_l by lia. rewrite length_take.
  case_decide as Hc; cbn [pr_next_cursor pr_items].
  - destruct (lookup_lt_is_Some_2 (take (S (pg_limit pg)) all) (pg_limit pg - 1)) as [ [sk r] Hsk].
    { rewrite length_take. lia. }
    rewrite Hsk. cbn [fmap option_fmap option_map fst].
    pose proof (from_next_page _ _ _ _ _ _ _ Hm Hu Hl Ht Hsk) as Hnext.
    destruct (decode_pairs_take_drop (pg_limit pg) _ _ Hall) as [_ Hd].
    rewrite run_bind_ok, (IH _ (drop (pg_limit pg) all)); [|done| |by rewrite Hnext].
    + cbn [run]. by rewrite take_drop.
    + rewrite Hnext, length_drop. lia.
  - cbn [run]. rewrite take_ge by lia. done.
Qed.
End pages.

(** ** Folding over a repository *)

Section folding.
Context `{Blake3} `{Serde ArtifactRecord} `{Serde TreeEntry} `{UuidGen}.
Context {St : Type}.
Implicit Types (m : kvmap) (w : world kvmap).

(** The fold of a list of entries when no step fails. *)
Definition fold_entries (init : St) (step : St → string → ArtifactRecord → St)
    (l : list (string * ArtifactRecord)) : St :=
  foldl (λ st x, step st x.1 x.2) init l.

Lemma run_fold_shard fuel repo prefix init step shard w l :
  length (part (w_kv w) TABLE_ARTIFACTS (artifact_shard_pk repo shard)) < fuel →
  decode_pairs (entries (w_kv w) TABLE_ARTIFACTS (artifact_shard_pk repo shard) prefix) = Ok l →
  run (fold_shard fuel repo prefix init (λ st sk r, Ok (step st sk r)) shard) w =
    (Some (Ok (fold_entries init step l)), w).
Proof.
  intros Hf Hl. unfold fold_shard. rewrite for_each_spec; [|unfold SCAN_BATCH_SIZE; lia|done].
  do 2 f_equal. revert init l Hl.
  generalize (entries (w_kv w) TABLE_ARTIFACTS (artifact_shard_pk repo shard) prefix) as es.
  induction es as [|[sk v] es IH]; intros init l Hl; simpl in Hl |- *; [by simplify_eq|].
  destruct (serde_result (from_slice v)) as [r|]; simpl in *; [|done].
  destruct (decode_pairs es) as [l'|] eqn:E; simplify_eq/=. by apply IH.
Qed.

(** The records of one shard. *)
Definition shard_records m (repo prefix : string) (shard : N) : list (string * ArtifactRecord) :=
  match decode_pairs (entries m TABLE_ARTIFACTS (artifact_shard_pk repo shard) prefix) with
  | Ok l => l
  | Err _ => []
  end.

Definition all_decode m (repo prefix : string) : Prop :=
  ∀ shard, shard ∈ shard_range →
    is_ok (decode_pairs (T:=ArtifactRecord)
      (entries m TABLE_ARTIFACTS (artifact_shard_pk repo shard) prefix)) = true.

Lemma reduce_fold_entries (merge : St → St → St) init step (ls : list (list (string * ArtifactRecord))) :
  (∀ l1 l2, fold_entries init step (l1 ++ l2) =
    merge (fold_entries init step l1) (fold_entries init step l2)) →
  reduce_or merge init (fold_entries init step <$> ls) = fold_entries init step (concat ls).
Proof.
  intros Hhom. destruct ls as [|l ls]; [done|]. simpl. revert l.
  induction ls as [|l2 ls IH]; intros l; simpl; [by rewrite app_nil_r|].
  rewrite <-Hhom. etrans; [exact (IH (l ++ l2))|]. by rewrite (assoc_L (++)).
Qed.
End folding.

(** ** Properties *)

Section properties.
Context `{Blake3} `{Serde ArtifactRecord} `{Serde TreeEntry} `{UuidGen} `{Unicode} `{Base64}.
Implicit Types (m : kvmap) (w : world kvmap).

(** Storing an artifact and reading it back.  A non-empty path whose record
    serialises is stored in one round when nobody interferes: the caller gets
    the record it replaced, every spelling of the path reads the stored record
    (id drawn when empty, access time defaulted, path filled in), its version
    grows by one, the browse tree gets the matching file entry, and no other
    key of the store changes. *)
Theorem put_then_get_artifact w repo path r b old :
  path ≠ "" → to_vec (stored_record w path r) = inr b →
  old_of (w_kv w) (artifact_key repo path) = inr old →
  ∃ w', run (put_artifact repo path r) w = (Some (Ok old), w') ∧
    (∀ path', segments path' = segments path →
      run (get_artifact repo path') w' = (Some (Ok (Some (wire (stored_record w path r)))), w')) ∧
    w_kv w' !! artifact_key repo path =
      Some (b, u64_add (version_of (w_kv w !! artifact_key repo path)) 1) ∧
    (∀ tb, to_vec (tree_file_of (stored_record w path r)) = inr tb →
      fst <$> w_kv w' !! tree_entry_key repo path = Some tb) ∧
    (∀ k, k ≠ artifact_key repo path → k ≠ tree_entry_key repo path →
      w_kv w' !! k = w_kv w !! k).
Proof.
  intros Hp Hb Hold. eexists. split; [by apply run_put_artifact|]. cbn [w_kv set_kv].
  assert (∀ m : kvmap, tree_put repo path (stored_record w path r) m !! artifact_key repo path =
    m !! artifact_key repo path) as Hat.
  { intros m. apply tree_put_lookup, artifact_tree_key_ne. }
  split_and!.
  - intros path' Hseg. rewrite run_get_artifact. do 2 f_equal. unfold old_of. cbn [w_kv set_kv].
    assert (artifact_key repo path' = artifact_key repo path) as -> by (unfold artifact_key; by rewrite <-normalize_path_eq in Hseg; rewrite Hseg).
    rewrite Hat, lookup_insert_eq. by rewrite (from_to_vec _ _ Hb).
  - by rewrite Hat, lookup_insert_eq.
  - intros tb Htb. unfold tree_put. rewrite Htb. unfold spec_put. by rewrite lookup_insert_eq.
  - intros k Hk1 Hk2. rewrite tree_put_lookup by done. by rewrite lookup_insert_ne.
Qed.

(** Deleting an artifact returns the record it had, removes the record and
    its browse-tree entry for every spelling of the path, and nothing else;
    deleting an absent artifact changes nothing. *)
Theorem delete_artifact_removes w repo path :
  let '(res, w') := run (delete_artifact repo path) w in
  res = Some (match old_of (w_kv w) (artifact_key repo path) with
              | inr o => Ok o
              | inl e => Err (from_storage_error e)
              end) ∧
  (∀ path', segments path' = segments path →
    run (get_artifact repo path') w' = (Some (Ok None), w')) ∧
  (is_Some (w_kv w !! artifact_key repo path) → w_kv w' !! tree_entry_key repo path = None) ∧
  (w_kv w !! artifact_key repo path = None → w' = w) ∧
  (∀ k, k ≠ artifact_key repo path → k ≠ tree_entry_key repo path → w_kv w' !! k = w_kv w !! k).
Proof.
  rewrite run_delete_artifact. split; [done|].
  assert (∀ path', segments path' = segments path → artifact_key repo path' = artifact_key repo path) as Hkey.
  { intros path' Hseg. unfold artifact_key. by rewrite <-normalize_path_eq in Hseg; rewrite Hseg. }
  destruct (w_kv w !! artifact_key repo path) as [x|] eqn:E.
  - cbn [w_kv set_kv]. split_and!; [|by rewrite lookup_delete_eq|done|].
    + intros path' Hseg. rewrite run_get_artifact, (Hkey _ Hseg). unfold old_of. cbn [w_kv set_kv].
      rewrite lookup_delete_ne by (intros Hk; symmetry in Hk; by apply artifact_tree_key_ne in Hk).
      by rewrite lookup_delete_eq.
    + intros k Hk1 Hk2. by rewrite !lookup_delete_ne.
  - split_and!; [|by intros [? ?]|done|done].
    intros path' Hseg. rewrite run_get_artifact, (Hkey _ Hseg). unfold old_of. by rewrite E.
Qed.

(** The effect of a bulk deletion on the store. *)
Definition purged (repo : string) (paths : list string) (m m' : kvmap) : Prop :=
  ∀ k, m' !! k = if decide (k ∈ artifact_key repo <$> paths ∨ k ∈ tree_entry_key repo <$> paths)
                 then None else m !! k.

Lemma key_batch_elem (f : string → KeyTriple) t0 t pk sk (paths : list string) :
  (∀ x, (f x).1.1 = t0) →
  (t = t0 ∧ (pk, sk) ∈ (λ path, let '(_, pk, sk) := f path in (pk, sk)) <$> paths) ↔
  (t, pk, sk) ∈ f <$> paths.
Proof.
  intros Ht0. rewrite !list_elem_of_fmap. split.
  - intros [-> (x & Hx & Hin)]. exists x. split; [|done]. rewrite <-(Ht0 x).
    by destruct (f x) as [ [? ?] ?]; simplify_eq/=.
  - intros (x & Hx & Hin). split; [by rewrite <-(Ht0 x), <-Hx|]. exists x. by rewrite <-Hx.
Qed.

Lemma run_delete_paired w repo paths :
  ∃ m', run (delete_artifacts_paired_batch repo paths) w = (Some (Ok tt), set_kv m' w) ∧
    purged repo paths (w_kv w) m'.
Proof.
  destruct paths as [|p ps].
  { exists (w_kv w). rewrite set_kv_id. split; [done|]. intros k. rewrite decide_False; [done|].
    by intros [Hk|Hk]; apply elem_of_nil in Hk. }
  unfold delete_artifacts_paired_batch. run_steps. rewrite !spec_delete_batch_eq. run_steps.
  rewrite ?spec_delete_batch_eq. cbn [run fst snd w_kv set_kv]. eexists. split; [done|].
  intros [ [t pk] sk]. rewrite !delete_all_lookup.
  pose proof (key_batch_elem (artifact_key repo) TABLE_ARTIFACTS t pk sk (p :: ps) (λ _, eq_refl)) as H1'.
  pose proof (key_batch_elem (tree_entry_key repo) TABLE_DIR_ENTRIES t pk sk (p :: ps) (λ _, eq_refl)) as H2'.
  repeat case_decide; tauto || done.
Qed.

(** Bulk deletion is ordered: on any backend, when the batch on the records
    fails its error is returned and the browse tree is not touched, and when
    it succeeds a failure of the browse-tree batch is swallowed.  On a correct
    backend all the records and their tree entries are gone and every other
    key keeps its value. *)
Theorem delete_artifacts_paired_batch_ordered {K} (impl : KvStore K) (v : world K) w repo paths :
  paths ≠ [] →
  let artifact_keys := (λ path, ((artifact_key repo path).1.2, (artifact_key repo path).2)) <$> paths in
  let tree_keys := (λ path, ((tree_entry_key repo path).1.2, (tree_entry_key repo path).2)) <$> paths in
  run (delete_artifacts_paired_batch repo paths) v =
    (match kv_step (DeleteBatch TABLE_ARTIFACTS artifact_keys) (w_kv v) with
     | (Err e, k) => (Some (Err e), set_kv k v)
     | (Ok _, k) => (Some (Ok tt), set_kv (kv_step (DeleteBatch TABLE_DIR_ENTRIES tree_keys) k).2 v)
     end) ∧
  ∀ k, w_kv (run (delete_artifacts_paired_batch repo paths) w).2 !! k =
    if decide (k ∈ artifact_key repo <$> paths ∨ k ∈ tree_entry_key repo <$> paths)
    then None else w_kv w !! k.
Proof.
  intros Hne artifact_keys tree_keys. destruct paths as [|p ps]; [done|]. split.
  - unfold delete_artifacts_paired_batch. rewrite run_bind_ok, run_kv.
    change ((λ path, let '(_, pk, sk) := artifact_key repo path in (pk, sk)) <$> p :: ps) with artifact_keys.
    destruct (kv_step (DeleteBatch TABLE_ARTIFACTS artifact_keys) (w_kv v)) as [ [bs|e] k] eqn:E; [|done].
    cbn [fst snd]. rewrite run_bind, run_kv. done.
  - destruct (run_delete_paired w repo (p :: ps)) as (m' & -> & Hm'). apply Hm'.
Qed.
(** C6: Following the cursors of a listing visits everything.  For every limit
    of at least one, a client that asks for the first page and then for the
    page at each [next_cursor] gets, after finitely many requests, exactly the
    records of the repository whose path has the prefix, each once, in strict
    path order over all shards; no request changes the store. *)
Theorem list_artifacts_cursors_complete rounds fuel repo prefix limit w all :
  placed (w_kv w) repo → keys_utf8 (w_kv w) repo → S (repo_size (w_kv w) repo) < fuel →
  0 < limit → length (repo_listing (w_kv w) repo prefix) < rounds →
  decode_pairs (repo_listing (w_kv w) repo prefix) = Ok all →
  run (follow_cursors rounds fuel repo prefix (mkPagination None 0 limit)) w = (Some (Ok all), w) ∧
  StronglySorted sk_lt all ∧
  ∀ path, path ∈ all.*1 ↔ starts_with path prefix = true ∧
    is_Some (w_kv w !! (TABLE_ARTIFACTS, sharded_pk repo path, path)).
Proof.
  intros Hm Hu Hf Hl Hr Hall.
  assert (from_page (w_kv w) repo prefix (mkPagination None 0 limit) = repo_listing (w_kv w) repo prefix) as Hp.
  { unfold from_page, page_skip. simpl. by rewrite drop_0, filter_all by by apply Forall_true. }
  pose proof (decode_pairs_keys _ _ Hall) as Hk. split_and!.
  - apply run_follow_from; try done; by rewrite Hp.
  - pose proof (repo_listing_sorted _ _ prefix Hm) as Hs. revert Hk Hs. clear.
    generalize (repo_listing (w_kv w) repo prefix) as l. intros l Hk Hs.
    assert (StronglySorted str_lt l.*1) as Hs' by by apply StronglySorted_fmap.
    rewrite <-Hk in Hs'. clear Hk Hs. induction all as [|x all IH]; [constructor|].
    simpl in Hs'. apply StronglySorted_inv in Hs' as [? Hx]. constructor; [by apply IH|].
    by rewrite Forall_fmap in Hx.
  - intros path. rewrite Hk, list_elem_of_fmap. split.
    + intros ([sk v] & -> & (Hsw & ver & Hin)%elem_of_repo_listing); [|done]. split; [done|]. by eexists.
    + intros [Hsw [ [v ver] Hin] ]. exists (path, v). split; [done|].
      apply elem_of_repo_listing; [done|]. split; [done|]. by exists ver.
Qed.

(** A listing with limit 0 gives no item but still a cursor, at the first
    entry it did not return: the client that follows it never sees that
    entry. *)
Theorem list_artifacts_limit_zero_skips fuel repo prefix w sk v rest (r : ArtifactRecord) :
  placed (w_kv w) repo → S (repo_size (w_kv w) repo) < fuel →
  repo_listing (w_kv w) repo prefix = (sk, v) :: rest → from_slice v = inr r →
  valid_utf8 sk = true →
  run (list_artifacts fuel repo prefix (mkPagination None 0 0)) w =
    (Some (Ok (mkPaginatedResult [] (Some (b64_encode sk)))), w) ∧
  ∀ limit, run (list_artifacts fuel repo prefix (mkPagination (Some (b64_encode sk)) 0 limit)) w =
    (Some (result_map (λ items, paginate_results items limit)
       (decode_pairs (T:=ArtifactRecord) (take (S limit) rest))), w).
Proof.
  intros Hm Hf Hl Hv Hu. split.
  - rewrite run_list_artifacts by done. unfold page_of, page_skip. rewrite Hl.
    rewrite filter_cons_True by done. cbn.
    by rewrite Hv, take_0.
  - intros limit. rewrite run_list_artifacts by done. unfold page_of, page_skip.
    cbn [pg_cursor pg_limit]. rewrite decode_cursor_encoded by done. rewrite drop_0.
    pose proof (repo_listing_sorted _ _ prefix Hm) as Hs. rewrite Hl in Hs |- *.
    pose proof (filter_after_key [] (sk, v) rest Hs) as Hk. simpl in Hk |- *. by rewrite Hk.
Qed.

(** A search page is the page of the whole repository's records, in path
    order, whose lower-cased path contains the lower-cased query. *)
Theorem search_artifacts_page fuel repo query pg w :
  placed (w_kv w) repo → S (repo_size (w_kv w) repo) < fuel →
  run (search_artifacts fuel repo query pg) w =
    (Some (page_of pg (filter (λ x, contains (to_lowercase x.1) (to_lowercase query) = true)
      (repo_listing (w_kv w) repo ""))), w).
Proof. apply run_search_artifacts. Qed.

(** A parallel fold over the shards does not depend on the order in which
    they complete: for a fold that is a homomorphism into a commutative merge
    (counters, sets), every schedule gives the fold of the whole repository,
    and the store is only read. *)
Theorem fold_all_artifacts_schedule {St : Type} (schedule : list N) fuel repo prefix (init : St)
    (step : St → string → ArtifactRecord → St) (merge : St → St → St) w :
  (∀ l1 l2, fold_entries init step (l1 ++ l2) =
    merge (fold_entries init step l1) (fold_entries init step l2)) →
  (∀ l1 l2, l1 ≡ₚ l2 → fold_entries init step l1 = fold_entries init step l2) →
  schedule ≡ₚ shard_range →
  all_decode (w_kv w) repo prefix → repo_size (w_kv w) repo < fuel →
  run (fold_all_artifacts schedule fuel repo prefix init (λ st sk r, Ok (step st sk r)) merge) w =
    (Some (Ok (fold_entries init step
       (concat (shard_records (w_kv w) repo prefix <$> shard_range)))), w).
Proof.
  intros Hhom Hperm Hsched Hdec Hf. unfold fold_all_artifacts.
  rewrite run_bind_ok, (run_try_for_pure _
    (λ shard, fold_entries init step (shard_records (w_kv w) repo prefix shard))).
  - cbn [run].
    change (λ shard, fold_entries init step (shard_records (w_kv w) repo prefix shard))
      with (fold_entries init step ∘ shard_records (w_kv w) repo prefix).
    rewrite list_fmap_compose, reduce_fold_entries by done. do 3 f_equal. apply Hperm.
    by rewrite Hsched.
  - intros shard Hs. rewrite Hsched in Hs. apply run_fold_shard.
    + eapply Nat.le_lt_trans; [|exact Hf].
      by apply (length_concat_elem (λ shard, part (w_kv w) TABLE_ARTIFACTS (artifact_shard_pk repo shard))).
    + unfold shard_records. specialize (Hdec _ Hs). by destruct (decode_pairs _).
Qed.

(** Optimistic concurrency gives up after [PUT_ARTIFACT_MAX_RETRIES] lost
    races: on any backend on which each conditional write finds that the
    record changed since it was read, [put_artifact] ends with a conflict,
    never an unbounded retry, and it has not written the browse tree. *)
Theorem put_artifact_gives_up {K} (impl : KvStore K) (v : world K) repo path r (tree : K → option bytes) :
  path ≠ "" →
  (∀ id accessed, is_ok (serde_result (to_vec (ar_prepared r id accessed path))) = true) →
  (∀ t pk sk k, ∃ o, (kv_step (GetVersioned t pk sk) k).1 = Ok o ∧
     from_option (λ x, is_ok (serde_result (from_slice (A:=ArtifactRecord) x.1)) = true) True o) →
  (∀ t pk sk x e k, (kv_step (PutIfVersion t pk sk x e) k).1 = Ok false) →
  (∀ t pk sk k, tree (kv_step (GetVersioned t pk sk) k).2 = tree k) →
  (∀ t pk sk x e k, tree (kv_step (PutIfVersion t pk sk x e) k).2 = tree k) →
  ∃ v', run (put_artifact repo path r) v =
    (Some (Err (Conflict ("put_artifact failed after 3 retries due to concurrent writes: " +:+
       repo +:+ "/" +:+ path))), v') ∧ tree (w_kv v') = tree (w_kv v).
Proof.
  intros Hp Hser Hget Hput Htg Htp. unfold put_artifact. rewrite decide_False by done.
  generalize PUT_ARTIFACT_MAX_RETRIES at 1 as n. intros n. revert v. induction n as [|n IH]; intros v.
  { by exists v. }
  cbn [put_artifact_loop]. destruct (artifact_key repo path) as [ [t pk] sk].
  unfold typed_get_versioned. rewrite !run_bind_ok, run_kv.
  destruct (Hget t pk sk (w_kv v)) as (o & Ho & Hdec). rewrite Ho, <-(Htg t pk sk (w_kv v)).
  change (tree ((kv_step (GetVersioned t pk sk) (w_kv v)).2))
    with (tree (w_kv (set_kv (kv_step (GetVersioned t pk sk) (w_kv v)).2 v))).
  generalize (set_kv (kv_step (GetVersioned t pk sk) (w_kv v)).2 v) as v1. clear Ho.
  assert (∀ old e v1, ∃ v', run (let* prepared := prepare_record path r in
      let! bytes := serde_result (to_vec prepared) in
      let*? written := kv (PutIfVersion t pk sk bytes e) in
      if (written : bool) then
        let* _ := upsert_tree_file repo path prepared in Ret (Ok old)
      else put_artifact_loop n repo path r) v1 =
    (Some (Err (Conflict ("put_artifact failed after 3 retries due to concurrent writes: " +:+
       repo +:+ "/" +:+ path))), v') ∧ tree (w_kv v') = tree (w_kv v1)) as Hgo.
  { intros old e v1. rewrite run_bind.
    assert (∃ id acc v2, run (prepare_record path r) v1 = (Some (ar_prepared r id acc path), v2) ∧
      w_kv v2 = w_kv v1) as (id & acc & v2 & -> & Hv2).
    { unfold prepare_record. case_decide; by do 3 eexists. }
    specialize (Hser id acc). destruct (serde_result (to_vec _)) as [b|]; [|done].
    cbn [try_]. rewrite run_bind_ok, run_kv, Hput.
    edestruct IH as (v' & Hr & Ht). exists v'. split; [exact Hr|]. rewrite Ht. cbn [w_kv set_kv].
    by rewrite Htp, Hv2. }
  intros v1. destruct o as [ [b ver]|]; [|apply Hgo]. simpl in Hdec.
  destruct (serde_result (from_slice b)); [|done]. cbn [try_ run]. apply Hgo.
Qed.
(** Access times are debounced: touching a file within sixty seconds of its
    recorded access changes nothing; later it rewrites the browse-tree entry
    with the new access time only, under the version that was read; a path
    without an entry is left alone. *)
Theorem touch_artifact_debounced w repo path now te b v :
  w_kv w !! tree_entry_key repo path = Some (b, v) → from_slice b = inr te →
  let te' := mkTreeEntry (te_kind te) (te_last_modified_at te) now in
  ∀ b', to_vec te' = inr b' →
  run (touch_artifact repo path now) w =
    (Some (Ok tt),
     if decide (now - te_last_accessed_at te < 60 * 1000000000)%Z then w
     else set_kv (<[tree_entry_key repo path := (b', u64_add v 1)]> (w_kv w)) w).
Proof.
  intros Hm Hb te' b' Hb'. unfold touch_artifact.
  destruct (tree_entry_key repo path) as [ [t pk] sk] eqn:Ek.
  assert (t = TABLE_DIR_ENTRIES) as -> by by injection Ek.
  run_steps. rewrite Hm. cbn [run]. rewrite Hb. run_steps.
  assert ((num_seconds_between now (te_last_accessed_at te) < 60)%Z ↔
    (now - te_last_accessed_at te < 60 * 1000000000)%Z) as Hiff.
  { unfold num_seconds_between. Z.to_euclidean_division_equations. lia. }
  destruct (decide (num_seconds_between now (te_last_accessed_at te) < 60)%Z) as [Hd|Hd].
  - rewrite decide_True by tauto. done.
  - rewrite (decide_False (P := (_ < 60 * _)%Z)) by tauto. fold te'. rewrite Hb'. run_steps.
    unfold spec_put_if_version. rewrite Hm, decide_True by done. done.
Qed.
End properties.

(** ** Witnesses *)

(** A map whose artifact partitions are the ones of their keys is placed. *)
Lemma placed_check `{Blake3} (m : kvmap) repo :
  map_Forall (λ k _, k.1.2 = sharded_pk repo k.2) m → placed m repo.
Proof.
  intros Hm shard sk v _ Hin. specialize (Hm _ _ Hin). simpl in Hm.
  unfold sharded_pk, artifact_shard_pk in Hm. apply scoped_pk_inj in Hm as [_ Hm]. done.
Qed.

Definition toy_base64 : Base64 := {|
  b64_encode := λ b, b; b64_decode := Some; b64_round_trip := λ b, eq_refl |}.
Definition toy_unicode : Unicode := {|
  to_lowercase := λ s, s; from_utf8_lossy := λ b, b; from_utf8_lossy_valid := λ b _, eq_refl |}.

Definition toy_artifact (path : string) (size : Z) : ArtifactRecord :=
  mkArtifactRecord 5 "id" size "text/plain" 7%Z 7%Z 7%Z path KRaw false (Some "blob") None None.

Definition toy_artifacts : list ArtifactRecord :=
  [toy_artifact "a/x" 1; toy_artifact "a/y" 2; toy_artifact "a/z" 3; toy_artifact "b" 4]%Z.

Definition toy_ar_serde : Serde ArtifactRecord := table_serde toy_artifacts.
Definition toy_te_serde : Serde TreeEntry :=
  let _ := toy_blake3 in table_serde ((tree_file_of <$> toy_artifacts) ++
    [let te := tree_file_of (toy_artifact "b" 4) in
     mkTreeEntry (te_kind te) (te_last_modified_at te) 100000000000%Z]).

(** The repository "r" with the toy artifacts and their tree entries. *)
Definition toy_store : kvmap :=
  let _ := toy_blake3 in let _ := toy_ar_serde in let _ := toy_te_serde in
  list_to_map (flat_map (λ a,
    match to_vec a, to_vec (tree_file_of a) with
    | inr b, inr tb =>
        [(artifact_key "r" (ar_path a), (b, 1%Z)); (tree_entry_key "r" (ar_path a), (tb, 1%Z))]
    | _, _ => []
    end) toy_artifacts).

Definition toy_world : world kvmap := world_of toy_store.

Lemma toy_placed : @placed toy_blake3 toy_store "r".
Proof.
  intros shard sk v _ Hin. change (@shard_of toy_blake3 sk = shard).
  assert (map_Forall (λ (k : string * string * string) _,
    k.1.1 = TABLE_ARTIFACTS → k.1.2 = @sharded_pk toy_blake3 "r" k.2) toy_store) as Hall by by_decide.
  specialize (Hall _ _ Hin eq_refl). simpl in Hall. unfold sharded_pk, artifact_shard_pk in Hall.
  by apply scoped_pk_inj in Hall as [_ Hall].
Qed.

Lemma put_then_get_artifact_witness :
  let _ := toy_blake3 in let _ := toy_ar_serde in let _ := toy_te_serde in let _ := toy_uuid in
  ∃ w', run (put_artifact "r" "b" (toy_artifact "b" 4)) toy_world =
    (Some (Ok (Some (toy_artifact "b" 4))), w') ∧
  run (get_artifact "r" "//b/") w' = (Some (Ok (Some (toy_artifact "b" 4))), w').
Proof.
  intros ? ? ? ?.
  destruct (@put_then_get_artifact toy_blake3 toy_ar_serde toy_te_serde toy_uuid
    toy_world "r" "b" (toy_artifact "b" 4) "3" (Some (toy_artifact "b" 4)))
    as (w' & Hr & Hget & _); [discriminate|vm_compute; reflexivity..|].
  exists w'. split; [exact Hr|]. apply Hget. reflexivity.
Defined.

Lemma delete_artifacts_paired_batch_ordered_witness :
  let _ := toy_blake3 in let _ := toy_ar_serde in let _ := toy_te_serde in let _ := toy_uuid in
  w_kv (run (delete_artifacts_paired_batch "r" ["a/x"; "b"]) toy_world).2 !! artifact_key "r" "b" = None.
Proof.
  intros ? ? ? ?.
  pose proof (proj2 (@delete_artifacts_paired_batch_ordered toy_blake3 toy_uuid
    kvmap spec_store toy_world toy_world "r" ["a/x"; "b"] ltac:(discriminate)) (artifact_key "r" "b")) as Hd.
  refine (eq_trans Hd _). vm_compute. reflexivity.
Defined.

Lemma list_artifacts_cursors_complete_witness :
  let _ := toy_blake3 in let _ := toy_ar_serde in let _ := toy_te_serde in let _ := toy_uuid in
  let _ := toy_unicode in let _ := toy_base64 in
  run (follow_cursors 4 6 "r" "a/" (mkPagination None 0 2)) toy_world =
    (Some (Ok ((λ a, (ar_path a, a)) <$> take 3 toy_artifacts)), toy_world).
Proof.
  intros ? ? ? ? ? ?.
  refine (proj1 (list_artifacts_cursors_complete 4 6 "r" "a/" 2 toy_world _ _ _ _ _ _ _)).
  - apply toy_placed.
  - by_decide.
  - by_decide.
  - lia.
  - by_decide.
  - vm_compute. reflexivity.
Defined.

Lemma list_artifacts_limit_zero_skips_witness :
  let _ := toy_blake3 in let _ := toy_ar_serde in let _ := toy_te_serde in let _ := toy_uuid in
  let _ := toy_unicode in let _ := toy_base64 in
  run (list_artifacts 6 "r" "a/" (mkPagination None 0 0)) toy_world =
    (Some (Ok (mkPaginatedResult [] (Some "a/x"))), toy_world).
Proof.
  intros ? ? ? ? ? ?.
  refine (proj1 (list_artifacts_limit_zero_skips 6 "r" "a/" toy_world "a/x" "0"
    [("a/y", "1"); ("a/z", "2")] (toy_artifact "a/x" 1) _ _ _ _ _)).
  - apply toy_placed.
  - by_decide.
  - vm_compute. reflexivity.
  - vm_compute. reflexivity.
  - reflexivity.
Defined.

Lemma search_artifacts_page_witness :
  let _ := toy_blake3 in let _ := toy_ar_serde in let _ := toy_te_serde in let _ := toy_uuid in
  let _ := toy_unicode in let _ := toy_base64 in
  run (search_artifacts 6 "r" "y" (mkPagination None 0 5)) toy_world =
    (Some (Ok (mkPaginatedResult [("a/y", toy_artifact "a/y" 2)] None)), toy_world).
Proof.
  intros ? ? ? ? ? ?.
  refine (eq_trans (search_artifacts_page 6 "r" "y" (mkPagination None 0 5) toy_world _ _) _).
  - apply toy_placed.
  - by_decide.
  - apply (f_equal (λ p, (Some p, toy_world))). vm_compute. reflexivity.
Defined.

Lemma fold_all_artifacts_schedule_witness :
  let _ := toy_blake3 in let _ := toy_ar_serde in let _ := toy_te_serde in let _ := toy_uuid in
  run (fold_all_artifacts (reverse shard_range) 5 "r" "a/" 0%Z (λ st _ r, Ok (st + ar_size r)%Z) Z.add)
    toy_world = (Some (Ok 6%Z), toy_world).
Proof.
  intros ? ? ? ?.
  assert (∀ a l, foldl (λ st (x : string * ArtifactRecord), (st + ar_size x.2)%Z) a l =
    (a + foldr (λ (x : string * ArtifactRecord) s, (ar_size x.2 + s)%Z) 0%Z l)%Z) as Hf.
  { intros a l. revert a. induction l as [|x l IH]; intros a; simpl; [lia|]. rewrite IH. lia. }
  refine (eq_trans (fold_all_artifacts_schedule (reverse shard_range) 5 "r" "a/" 0%Z
    (λ st _ r, (st + ar_size r)%Z) Z.add toy_world _ _ _ _ _) _).
  - intros l1 l2. unfold fold_entries. rewrite foldl_app, Hf. f_equal. rewrite Hf. lia.
  - intros l1 l2 Hp. unfold fold_entries. rewrite !Hf. f_equal.
    induction Hp; simpl; lia.
  - apply reverse_Permutation.
  - intros shard Hs. apply elem_of_shard_range in Hs.
    assert (Forall (λ shard, is_ok (@decode_pairs ArtifactRecord toy_ar_serde
      (entries toy_store TABLE_ARTIFACTS (artifact_shard_pk "r" shard) "a/")) = true) shard_range) as Hall by by_decide.
    rewrite Forall_forall in Hall. apply Hall. by apply elem_of_shard_range.
  - by_decide.
  - apply (f_equal (λ p, (Some p, toy_world))). vm_compute. reflexivity.
Defined.

(** A store on which every conditional write loses its race. *)
Definition losing_store : KvStore kvmap := λ o m,
  match o with
  | PutIfVersion _ _ _ _ _ => (Ok false, m)
  | o => spec_store o m
  end.

Lemma put_artifact_gives_up_witness :
  let _ := toy_blake3 in let _ := toy_te_serde in let _ := toy_uuid in
  let _ := constant_serde (toy_artifact "b" 4) in
  ∃ v', @run kvmap toy_uuid losing_store _ (put_artifact "r" "b" (toy_artifact "b" 4)) toy_world =
    (Some (Err (Conflict ("put_artifact failed after 3 retries due to concurrent writes: " +:+
      "r" +:+ "/" +:+ "b"))), v') ∧
    fst <$> w_kv v' !! tree_entry_key "r" "b" = fst <$> toy_store !! tree_entry_key "r" "b".
Proof.
  intros ? ? ? ?.
  apply (put_artifact_gives_up losing_store toy_world "r" "b" (toy_artifact "b" 4)
    (λ m, fst <$> m !! tree_entry_key "r" "b")).
  - discriminate.
  - reflexivity.
  - intros t2 pk sk k. exists (k !! (t2, pk, sk)). split; [reflexivity|].
    destruct (k !! (t2, pk, sk)); [reflexivity|exact I].
  - reflexivity.
  - reflexivity.
  - reflexivity.
Defined.

Lemma touch_artifact_debounced_witness :
  let _ := toy_blake3 in let _ := toy_te_serde in let _ := toy_uuid in
  run (touch_artifact "r" "b" 100000000000%Z) toy_world =
    (Some (Ok tt), set_kv (<[tree_entry_key "r" "b" := ("4", 2%Z)]> toy_store) toy_world).
Proof.
  intros ? ? ?. apply (touch_artifact_debounced toy_world "r" "b" 100000000000%Z
    (tree_file_of (toy_artifact "b" 4)) "3" 1%Z) with (b' := "4").
  - vm_compute. reflexivity.
  - vm_compute. reflexivity.
  - vm_compute. reflexivity.
Defined.
