(* ===== verification/Blob.v ===== *)
(** * Blob records and stores (core/src/service/blob.rs, core/src/service/store.rs)

    The content-addressed mapping from a hash to the id of the blob that holds
    it, the claim of a hash by a freshly written blob, the per-store counters
    and their reconciliation, and the configuration records of the stores. *)

From S2P Require Import Prelude Bytes Errors Keys Records Kv Prog Scan Update.

(** ** Store configuration *)

Section stores.
Context `{Serde StoreRecord} `{Serde StoreStatsRecord}.

(** core/src/service/store.rs:16-19 *)
Definition put_store (record : StoreRecord) : prog (result unit) :=
  let '(table, pk, sk) := store_key (sr_name record) in
  typed_put table pk sk record.

(** core/src/service/store.rs:21-24 *)
Definition get_store (name : string) : prog (result (option StoreRecord)) :=
  let '(table, pk, sk) := store_key name in
  typed_get table pk sk.

(** core/src/service/store.rs:26-35 *)
Definition list_stores : prog (result (list StoreRecord)) :=
  typed_list TABLE_STORES SINGLE_PK "" ADMIN_ENTITY_CAP.

(** core/src/service/store.rs:37-40 *)
Definition delete_store (name : string) : prog (result bool) :=
  let '(table, pk, sk) := store_key name in
  kv (Delete table pk sk).

(** core/src/service/store.rs:44-51 *)
Definition put_store_stats (name : string) (stats : StoreStatsRecord) : prog (result unit) :=
  let '(table, pk, sk) := store_stats_key name in
  typed_put table pk sk stats.

(** core/src/service/store.rs:53-59 *)
Definition get_store_stats (name : string) : prog (result (option StoreStatsRecord)) :=
  let '(table, pk, sk) := store_stats_key name in
  typed_get table pk sk.

(** core/src/service/store.rs:61-64 *)
Definition delete_store_stats (name : string) : prog (result bool) :=
  let '(table, pk, sk) := store_stats_key name in
  kv (Delete table pk sk).
End stores.

(** ** Blob records *)

Section blobs.
Context `{Blake3} `{Serde BlobRecord}.

(** [rec.store = store]. *)
Definition br_in_store (store : string) (r : BlobRecord) : BlobRecord :=
  mkBlobRecord (br_schema_version r) (br_blob_id r) (br_hash r) (br_size r) (br_created_at r) store.

(** core/src/service/blob.rs:15-20 *)
Definition put_blob (store : string) (record : BlobRecord) : prog (result unit) :=
  let rec := br_in_store store record in
  let '(table, pk, sk) := blob_key store (br_hash rec) in
  typed_put table pk sk rec.

(** core/src/service/blob.rs:22-29 *)
Definition get_blob (store hash : string) : prog (result (option BlobRecord)) :=
  let '(table, pk, sk) := blob_key store hash in
  typed_get table pk sk.

(** core/src/service/blob.rs:42-71 *)
Definition put_dedup_record (store : string) (record : BlobRecord) :
    prog (result (option string)) :=
  let rec := br_in_store store record in
  let '(table, pk, sk) := blob_key store (br_hash rec) in
  let! bytes := serde_result (to_vec rec) in
  let*? new := kv (PutIfAbsent table pk sk bytes) in
  if (new : bool) then Ret (Ok None)
  else
    let*? existing := typed_get (T:=BlobRecord) table pk sk in
    match existing with
    | Some existing_rec => Ret (Ok (Some (br_blob_id existing_rec)))
    | None =>
        let*? _ := kv (Put table pk sk bytes) in
        Ret (Ok None)
    end.

(** The end of both claims: the duplicate file is dropped, best effort. *)
(** core/src/service/blob.rs:88-102 *)
Definition reuse_existing (blobs : string) (record : BlobRecord) (existing : option string) :
    prog (result string) :=
  match existing with
  | Some existing_blob_id =>
      if decide (existing_blob_id ≠ br_blob_id record) then
        let* _ := blob blobs (BDelete (br_blob_id record)) in
        Ret (Ok existing_blob_id)
      else Ret (Ok (br_blob_id record))
  | None => Ret (Ok (br_blob_id record))
  end.

(** core/src/service/blob.rs:82-103 *)
Definition claim_or_reuse_blob (blobs store : string) (record : BlobRecord) : prog (result string) :=
  let*? existing := put_dedup_record store record in
  reuse_existing blobs record existing.

(** core/src/service/blob.rs:105-108 *)
Definition delete_blob (store hash : string) : prog (result bool) :=
  let '(table, pk, sk) := blob_key store hash in
  kv (Delete table pk sk).

(** core/src/service/blob.rs:115-129 *)
Definition delete_blob_counted (store hash : string) : prog (result bool) :=
  let*? o := get_blob store hash in
  let size := br_size <$> o in
  let*? deleted := delete_blob store hash in
  let* _ := match (deleted : bool), size with
            | true, Some sz => store_changed store (-1) (i64_neg (i64_wrap sz))
            | _, _ => Ret tt
            end in
  Ret (Ok deleted).

(** core/src/service/blob.rs:139-150 *)
Definition put_dedup_record_counted (store : string) (record : BlobRecord) :
    prog (result (option string)) :=
  let*? existing := put_dedup_record store record in
  let* _ := match existing with
            | None => store_changed store 1 (i64_wrap (br_size record))
            | Some _ => Ret tt
            end in
  Ret (Ok existing).

(** core/src/service/blob.rs:161-183 *)
Definition claim_or_reuse_blob_counted (blobs store : string) (record : BlobRecord) :
    prog (result string) :=
  let*? existing := put_dedup_record_counted store record in
  reuse_existing blobs record existing.

Definition br_hash_le (a b : BlobRecord) : Prop := str_le (br_hash a) (br_hash b).

#[export] Instance br_hash_le_dec a b : Decision (br_hash_le a b).
Proof. unfold br_hash_le. apply _. Defined.

Context {St : Type} `{Serde StoreRecord}.

(** The fold of one partition. *)
(** core/src/service/blob.rs:207-221 *)
Definition fold_blob_partition (fuel : nat) (init : St) (fold : St → BlobRecord → result St)
    (pk : string) : prog (result St) :=
  for_each_in_partition (λ state _ v,
    let? record := serde_result (from_slice v) in
    let? state := fold state record in
    Ok (true, state)) fuel TABLE_BLOBS pk "" SCAN_BATCH_SIZE init.

(** [schedule] permutes the partitions into their completion order. *)
(** core/src/service/blob.rs:189-228 *)
Definition fold_all_blobs (schedule : list string → list string) (fuel : nat) (init : St)
    (fold : St → BlobRecord → result St) (merge : St → St → St) : prog (result St) :=
  let*? stores := list_stores in
  let pks := flat_map (λ s, blob_shard_pk (sr_name s) <$> shard_range) stores in
  let*? shard_states := try_for (schedule pks) (fold_blob_partition fuel init fold) in
  Ret (Ok (match shard_states with
           | [] => init
           | x :: l => foldl merge x l
           end)).

(** core/src/service/blob.rs:231-259 *)
Definition list_blobs_for_store (schedule : list N) (fuel : nat) (store : string) (offset limit : nat) :
    prog (result (list BlobRecord * nat)) :=
  let*? shard_vecs := try_for schedule (λ shard,
    let pk := blob_shard_pk store shard in
    for_each_in_partition (λ blobs _ v,
      let? record := serde_result (from_slice (A:=BlobRecord) v) in
      Ok (true, blobs ++ [record])) fuel TABLE_BLOBS pk "" SCAN_BATCH_SIZE []) in
  let all := merge_sort br_hash_le (concat shard_vecs) in
  let total := length all in
  let page := take limit (drop offset all) in
  Ret (Ok (page, total)).

(** core/src/service/blob.rs:262-279 *)
Definition count_blobs_for_store (schedule : list N) (fuel : nat) (store : string) :
    prog (result nat) :=
  let*? counts := try_for schedule (λ shard,
    let pk := blob_shard_pk store shard in
    for_each_in_partition (λ count _ _, Ok (true, count + 1)) fuel TABLE_BLOBS pk ""
      SCAN_BATCH_SIZE 0) in
  Ret (Ok (sum_list counts)).
End blobs.

(** ** Reconciliation of the counters *)

(** [HashMap<String, (u64, u64)>]. *)
Abbreviation tallies := (gmap string (Z * Z)).

Section reconcile.
Context `{Blake3} `{Serde BlobRecord} `{Serde StoreRecord} `{Serde StoreStatsRecord}.

Definition tally_of (acc : tallies) (store : string) : Z * Z := default (0%Z, 0%Z) (acc !! store).

Definition bump_tally (store : string) (c bytes : Z) (acc : tallies) : tallies :=
  <[store := (u64_add (tally_of acc store).1 c, u64_add (tally_of acc store).2 bytes)]> acc.

(** core/src/service/store.rs:84-89 *)
Definition count_blob (acc : tallies) (rec : BlobRecord) : tallies :=
  bump_tally (br_store rec) 1 (br_size rec) acc.

(** core/src/service/store.rs:90-97 *)
Definition merge_tallies (a b : tallies) : tallies :=
  map_fold (λ store cb a, bump_tally store cb.1 cb.2 a) a b.

(** core/src/service/store.rs:105-115 *)
Definition write_stats (t : tallies) (now : DateTime) (store : StoreRecord) :
    prog (result (string * StoreStatsRecord)) :=
  let '(blob_count, total_bytes) := tally_of t (sr_name store) in
  let stats := mkStoreStatsRecord blob_count total_bytes now in
  let*? _ := put_store_stats (sr_name store) stats in
  Ret (Ok (sr_name store, stats)).

(** core/src/service/store.rs:75-116 *)
Definition reconcile_store_stats (schedule : list string → list string) (fuel : nat) :
    prog (result (list (string * StoreStatsRecord))) :=
  let*? t := fold_all_blobs schedule fuel ∅ (λ acc rec, Ok (count_blob acc rec)) merge_tallies in
  let* now := call ENow in
  let*? stores := list_stores in
  try_for stores (write_stats t now).
End reconcile.

(** ** Claims *)

Section claims.
Context `{Blake3} `{Serde BlobRecord} `{UuidGen}.
Implicit Types (m : kvmap) (w : world kvmap).

Lemma run_claim_fresh blobs store r b w :
  to_vec (br_in_store store r) = inr b → w_kv w !! blob_key store (br_hash r) = None →
  run (claim_or_reuse_blob_counted blobs store r) w =
    (Some (Ok (br_blob_id r)),
     push_sent (EvStore (mkStoreDelta store 1 (i64_wrap (br_size r))))
       (set_kv (<[blob_key store (br_hash r) := (b, 1%Z)]> (w_kv w)) w)).
Proof.
  intros Hb Hm. unfold claim_or_reuse_blob_counted, put_dedup_record_counted, put_dedup_record.
  change (br_hash (br_in_store store r)) with (br_hash r).
  destruct (blob_key store (br_hash r)) as [ [t pk] sk]. rewrite Hb. run_steps.
  unfold spec_put_if_version. rewrite Hm, decide_True by done. done.
Qed.

Lemma run_claim_hit blobs store r b w b0 v e :
  to_vec (br_in_store store r) = inr b →
  w_kv w !! blob_key store (br_hash r) = Some (b0, v) → from_slice b0 = inr e →
  run (claim_or_reuse_blob_counted blobs store r) w =
    (Some (Ok (br_blob_id e)),
     if decide (br_blob_id e = br_blob_id r) then w
     else set_blobs (delete (blobs, br_blob_id r) (w_blobs w)) w).
Proof.
  intros Hb Hm He. unfold claim_or_reuse_blob_counted, put_dedup_record_counted, put_dedup_record.
  change (br_hash (br_in_store store r)) with (br_hash r).
  destruct (blob_key store (br_hash r)) as [ [t pk] sk]. rewrite Hb. run_steps.
  unfold spec_put_if_version. rewrite Hm, decide_False by done. run_steps. unfold typed_get. run_steps.
  rewrite Hm. cbn [fmap option_fmap option_map fst]. rewrite He. run_steps.
  unfold reuse_existing. destruct (decide (br_blob_id e = br_blob_id r)) as [->|Hne].
  - by rewrite decide_False by auto.
  - by rewrite decide_True.
Qed.

(** *** Concurrent claims of one hash *)

Context (blobs store hash : string).

(** The program after it has won the conditional write. *)
Definition claim_won (r : BlobRecord) : prog (result string) :=
  Vis (ESend (EvStore (mkStoreDelta store 1 (i64_wrap (br_size r))))) (λ _, Ret (Ok (br_blob_id r))).

(** The program after it has lost it. *)
Definition claim_lost (r : BlobRecord) (b : bytes) : prog (result string) :=
  let '(t, pk, sk) := blob_key store hash in
  let*? existing := (
    let*? existing := (
      let*? existing := typed_get (T:=BlobRecord) t pk sk in
      match existing with
      | Some existing_rec => Ret (Ok (Some (br_blob_id existing_rec)))
      | None => let*? _ := kv (Put t pk sk b) in Ret (Ok None)
      end) in
    let* _ := match existing with
              | None => store_changed store 1 (i64_wrap (br_size r))
              | Some _ => Ret tt
              end in
    Ret (Ok existing)) in
  reuse_existing blobs r existing.

(** The program once it knows the winner. *)
Definition claim_cleanup (r : BlobRecord) (id : string) : prog (result string) :=
  Vis (EBlob blobs (BDelete (br_blob_id r))) (λ _, Ret (Ok id)).

(** One client: its record, which serialises, is for the hash. *)
Definition client (r : BlobRecord) (b : bytes) : Prop :=
  br_hash r = hash ∧ to_vec (br_in_store store r) = inr b.

Lemma claim_start r b : client r b →
  ∃ k, claim_or_reuse_blob_counted blobs store r =
    (let '(t, pk, sk) := blob_key store hash in Vis (EKv (PutIfAbsent t pk sk b)) (k t pk sk)) ∧
    (∀ t pk sk, blob_key store hash = (t, pk, sk) →
      k t pk sk (Ok true) = claim_won r ∧ k t pk sk (Ok false) = claim_lost r b).
Proof.
  intros [Hh Hb]. unfold claim_or_reuse_blob_counted, put_dedup_record_counted, put_dedup_record, claim_lost.
  change (br_hash (br_in_store store r)) with (br_hash r). rewrite Hh.
  destruct (blob_key store hash) as [ [t pk] sk]. rewrite Hb. cbn.
  eexists (λ t pk sk, _). split; [done|]. intros ? ? ? [= <- <- <-]. done.
Qed.

(** Where a client can be, once client [j] with id [id] has won. *)
Inductive client_at (j : nat) (id : string) (i : nat) (r : BlobRecord) (b : bytes) :
    prog (result string) → Prop :=
| at_start : i ≠ j → client_at j id i r b (claim_or_reuse_blob_counted blobs store r)
| at_won : i = j → client_at j id i r b (claim_won r)
| at_lost : i ≠ j → client_at j id i r b (claim_lost r b)
| at_cleanup : i ≠ j → client_at j id i r b (claim_cleanup r id)
| at_done : client_at j id i r b (Ret (Ok id)).

Context (clients : list (BlobRecord * bytes)).

(** The configurations of the clients after a claim was won by client [j]: its
    mapping stands, its file is untouched, and its credit is sent once. *)
Definition claimed (w0 : world kvmap) (c : list (prog (result string)) * world kvmap) j r b : Prop :=
  clients !! j = Some (r, b) ∧
  (∃ v, w_kv c.2 !! blob_key store hash = Some (b, v)) ∧
  w_blobs c.2 !! (blobs, br_blob_id r) = w_blobs w0 !! (blobs, br_blob_id r) ∧
  (c.1 !! j = Some (claim_won r) ∧ w_sent c.2 = w_sent w0 ∨
   c.1 !! j = Some (Ret (Ok (br_blob_id r))) ∧
   w_sent c.2 = EvStore (mkStoreDelta store 1 (i64_wrap (br_size r))) :: w_sent w0) ∧
  ∀ i x p, clients !! i = Some x → c.1 !! i = Some p → client_at j (br_blob_id r) i x.1 x.2 p.

Definition unclaimed (w0 : world kvmap) (c : list (prog (result string)) * world kvmap) : Prop :=
  c.1 = (λ x, claim_or_reuse_blob_counted blobs store x.1) <$> clients ∧
  w_kv c.2 !! blob_key store hash = None ∧ w_sent c.2 = w_sent w0 ∧ w_blobs c.2 = w_blobs w0.

Definition claims_inv (w0 : world kvmap) (c : list (prog (result string)) * world kvmap) : Prop :=
  length c.1 = length clients ∧ (unclaimed w0 c ∨ ∃ j r b, claimed w0 c j r b).

Hypothesis clients_ok : Forall (λ x, client x.1 x.2) clients.
Hypothesis clients_ids : NoDup ((λ x, br_blob_id x.1) <$> clients).

Lemma client_lookup i r b : clients !! i = Some (r, b) → client r b.
Proof using clients_ok. intros Hi. by apply (Forall_lookup_1 _ _ _ _ clients_ok Hi). Qed.

Lemma clients_inj i j x y :
  clients !! i = Some x → clients !! j = Some y → br_blob_id x.1 = br_blob_id y.1 → i = j.
Proof using clients_ids.
  intros Hi Hj Heq. apply (NoDup_lookup _ i j (br_blob_id x.1) clients_ids).
  - by rewrite list_lookup_fmap, Hi.
  - by rewrite list_lookup_fmap, Hj, Heq.
Qed.

(** The winner's write. *)
Lemma claim_first_step w0 ps w i r b p' w' :
  clients !! i = Some (r, b) → unclaimed w0 (ps, w) →
  prog_step (claim_or_reuse_blob_counted blobs store r) w = Some (p', w') →
  claimed w0 (<[i := p']> ps, w') i r b.
Proof using clients_ok.
  intros Hi (Hps & Hm & Hs & Hf) Hstep. simpl in *.
  destruct (claim_start r b (client_lookup _ _ _ Hi)) as (k & Hk & Hk').
  destruct (blob_key store hash) as [ [t pk] sk] eqn:Ek. specialize (Hk' t pk sk eq_refl) as [Hk' _].
  rewrite Hk in Hstep. cbn in Hstep. unfold spec_put_if_version in Hstep.
  rewrite Hm, decide_True in Hstep by done. injection Hstep as <- <-. rewrite Hk'.
  assert (i < length ps) as Hlt.
  { subst ps. rewrite length_fmap. by eapply lookup_lt_Some. }
  split_and!; [done| | | |].
  - exists 1%Z. rewrite Ek. simpl. by rewrite lookup_insert_eq.
  - simpl. by rewrite Hf.
  - left. split; [by apply list_lookup_insert_eq|done].
  - intros i' x p Hx Hp. simpl in Hp. destruct (decide (i = i')) as [<-|Hne].
    + rewrite list_lookup_insert_eq in Hp by done. simplify_eq/=. by apply at_won.
    + rewrite list_lookup_insert_ne in Hp by done. subst ps.
      rewrite list_lookup_fmap, Hx in Hp. simplify_eq/=. apply at_start. auto.
Qed.
Context {blob_exact : SerdeExact BlobRecord}.

(** A loser reads the winner's id. *)
Lemma claim_lost_step r b rj bj v w :
  client rj bj → w_kv w !! blob_key store hash = Some (bj, v) → br_blob_id rj ≠ br_blob_id r →
  prog_step (claim_lost r b) w = Some (claim_cleanup r (br_blob_id rj), w).
Proof using blob_exact.
  intros [_ Hj] Hm Hne. unfold claim_lost. destruct (blob_key store hash) as [ [t pk] sk].
  cbn. rewrite Hm. cbn. rewrite (from_to_vec _ _ Hj), wire_id. cbn.
  rewrite decide_True by done. rewrite set_kv_id. done.
Qed.

(** The steps of a client after the claim was won. *)
Lemma claim_next_step w0 ps w j r b i x p p' w' :
  length ps = length clients → claimed w0 (ps, w) j r b →
  clients !! i = Some x → ps !! i = Some p → prog_step p w = Some (p', w') →
  claimed w0 (<[i := p']> ps, w') j r b.
Proof using All.
  intros Hlen (Hj & (v & Hm) & Hf & Hs & Hat) Hi Hp Hstep. simpl in *.
  assert (i < length ps) as Hlt by by eapply lookup_lt_Some.
  pose proof (Hat i x p Hi Hp) as Hx. destruct x as [ri bi].
  assert (i ≠ j → br_blob_id r ≠ br_blob_id ri) as Hids.
  { intros Hne Heq. apply Hne. symmetry. by apply (clients_inj j i (r, b) (ri, bi)). }
  assert (client_at j (br_blob_id r) i ri bi p' ∧ w_kv w' = w_kv w ∧
    w_blobs w' !! (blobs, br_blob_id r) = w_blobs w !! (blobs, br_blob_id r) ∧
    if decide (i = j)
    then p = claim_won r ∧ p' = Ret (Ok (br_blob_id r)) ∧
         w_sent w' = EvStore (mkStoreDelta store 1 (i64_wrap (br_size r))) :: w_sent w
    else w_sent w' = w_sent w) as (Hat' & Hkv & Hf' & Hs').
  { inversion Hx; subst p; cbn [fst snd] in *.
    - rewrite decide_False by done.
      destruct (claim_start ri bi (client_lookup _ _ _ Hi)) as (k & Hk & Hk').
      destruct (blob_key store hash) as [ [t pk] sk]. specialize (Hk' t pk sk eq_refl) as [_ Hk'].
      rewrite Hk in Hstep. cbn in Hstep. unfold spec_put_if_version in Hstep.
      rewrite Hm, decide_False in Hstep by done. injection Hstep as <- <-.
      split_and!; [|done..]. cbn. rewrite Hk'. by apply at_lost.
    - subst j. rewrite decide_True by done. assert (ri = r ∧ bi = b) as [-> ->] by by simplify_eq.
      cbn in Hstep. injection Hstep as <- <-. split_and!; [constructor|done..].
    - rewrite decide_False by done.
      rewrite (claim_lost_step _ _ r b v) in Hstep; [|by eapply client_lookup|done|by auto].
      injection Hstep as <- <-. split_and!; [|done..]. by apply at_cleanup.
    - rewrite decide_False by done. cbn in Hstep. injection Hstep as <- <-.
      split_and!; [apply at_done|done| |done]. simpl. apply lookup_delete_ne.
      intros [= Heq]. by apply Hids.
    - done. }
  split_and!; [done|by exists v; rewrite <-Hkv in Hm|simpl; congruence| |].
  - simpl. case_decide as Hij.
    + subst i. destruct Hs' as (-> & -> & ->). right.
      rewrite list_lookup_insert_eq by done. split; [done|].
      destruct Hs as [ [_ ->]|[Hd _] ]; [done|]. rewrite Hp in Hd. done.
    + rewrite list_lookup_insert_ne by done. by rewrite Hs'.
  - simpl. intros i' x' q Hi' Hq. destruct (decide (i = i')) as [<-|Hne].
    + rewrite list_lookup_insert_eq in Hq by done. simplify_eq/=. done.
    + rewrite list_lookup_insert_ne in Hq by done. by apply Hat.
Qed.

Lemma claims_inv_steps w0 c :
  w_kv w0 !! blob_key store hash = None →
  steps ((λ x, claim_or_reuse_blob_counted blobs store x.1) <$> clients, w0) c → claims_inv w0 c.
Proof using All.
  intros Hm Hs. refine (steps_invariant (claims_inv w0) _ _ _ _ Hs).
  - clear c Hs. intros [ps w] [ps' w'] [Hlen Hinv] (i & p & p' & Hp & Hstep & ->)%step_inv.
    simpl in Hlen. split; [simpl; by rewrite length_insert|]. right.
    destruct (lookup_lt_is_Some_2 clients i) as [x Hi]; [rewrite <-Hlen; by eapply lookup_lt_Some|].
    destruct Hinv as [Hu|(j & r & b & Hc)].
    + exists i, x.1, x.2. eapply claim_first_step; [by destruct x|done|].
      destruct Hu as [Hps _]. simpl in Hps. subst ps.
      rewrite list_lookup_fmap, Hi in Hp. simpl in Hp. by injection Hp as <-.
    + exists j, r, b. by eapply claim_next_step.
  - split; [cbn [fst]; by rewrite length_fmap|]. left. done.
Qed.
End claims.

(** ** Reconciliation *)

Section reconciled.
Context `{Blake3} `{Serde BlobRecord} `{Serde StoreRecord} `{Serde StoreStatsRecord} `{UuidGen}.
Implicit Types (m : kvmap) (w : world kvmap).

(** The blobs of a list that are recorded for a store, and their bytes. *)
Definition blob_count (store : string) (l : list BlobRecord) : Z :=
  Z.of_nat (length (filter (λ r, br_store r = store) l)).

Definition blob_bytes (store : string) (l : list BlobRecord) : Z :=
  foldr (λ r z, if decide (br_store r = store) then br_size r + z else z)%Z 0%Z l.

Lemma blob_count_app store l1 l2 :
  blob_count store (l1 ++ l2) = (blob_count store l1 + blob_count store l2)%Z.
Proof. unfold blob_count. rewrite filter_app, length_app. lia. Qed.

Lemma blob_bytes_app store l1 l2 :
  blob_bytes store (l1 ++ l2) = (blob_bytes store l1 + blob_bytes store l2)%Z.
Proof. induction l1 as [|r l1 IH]; simpl; [done|]. rewrite IH. case_decide; lia. Qed.

Lemma blob_count_perm store l1 l2 : l1 ≡ₚ l2 → blob_count store l1 = blob_count store l2.
Proof. intros Hp. unfold blob_count. by rewrite Hp. Qed.

Lemma blob_bytes_perm store l1 l2 : l1 ≡ₚ l2 → blob_bytes store l1 = blob_bytes store l2.
Proof. induction 1; simpl; repeat case_decide; lia. Qed.

(** The tally of a store, modulo the width of the counters. *)
Definition tally_is (acc : tallies) (store : string) (c b : Z) : Prop :=
  tally_of acc store = (u64_wrap c, u64_wrap b).

Lemma tally_of_bump acc s s' c b :
  tally_of (bump_tally s c b acc) s' =
    if decide (s = s') then (u64_add (tally_of acc s').1 c, u64_add (tally_of acc s').2 b)
    else tally_of acc s'.
Proof.
  unfold bump_tally. case_decide as Hs; unfold tally_of.
  - subst. by rewrite lookup_insert_eq.
  - by rewrite lookup_insert_ne.
Qed.

Lemma tally_fold store acc c b l :
  tally_is acc store c b →
  tally_is (foldl count_blob acc l) store (c + blob_count store l) (b + blob_bytes store l).
Proof.
  revert acc c b. induction l as [|r l IH]; intros acc c b Hacc.
  { unfold blob_count. simpl. by rewrite !Z.add_0_r. }
  cbn [foldl]. unfold blob_count. rewrite filter_cons. cbn [blob_bytes foldr]. case_decide as Hr.
  - replace (c + Z.of_nat (length (r :: filter (λ r, br_store r = store) l)))%Z
      with ((c + 1) + blob_count store l)%Z by (unfold blob_count; simpl length; lia).
    fold (blob_bytes store l).
    replace (b + (br_size r + blob_bytes store l))%Z with ((b + br_size r) + blob_bytes store l)%Z by lia.
    apply IH. unfold tally_is, count_blob. rewrite tally_of_bump, decide_True by done.
    unfold tally_is in Hacc. rewrite Hacc. simpl. by rewrite !u64_add_wrap.
  - apply IH. unfold tally_is, count_blob. by rewrite tally_of_bump, decide_False.
Qed.

Lemma tally_merge store a b c1 b1 c2 b2 :
  tally_is a store c1 b1 → tally_is b store c2 b2 →
  tally_is (merge_tallies a b) store (c1 + c2) (b1 + b2).
Proof.
  unfold tally_is, merge_tallies. intros Ha Hb.
  assert (∀ n, tally_of (map_fold (λ store cb a, bump_tally store cb.1 cb.2 a) a b) n =
    match b !! n with
    | Some cb => (u64_add (tally_of a n).1 cb.1, u64_add (tally_of a n).2 cb.2)
    | None => tally_of a n
    end) as Hm.
  { apply (map_fold_weak_ind (λ r b, ∀ n, tally_of r n =
      match b !! n with
      | Some cb => (u64_add (tally_of a n).1 cb.1, u64_add (tally_of a n).2 cb.2)
      | None => tally_of a n
      end)); [done|]. intros i x m' r Hi IH n. rewrite tally_of_bump, IH. case_decide as Hn.
    - subst i. by rewrite Hi, lookup_insert_eq.
    - by rewrite lookup_insert_ne. }
  rewrite Hm. unfold tally_of in Hb. destruct (b !! store) as [cb|]; simpl in Hb.
  - subst cb. rewrite Ha. simpl. by rewrite !u64_add_wrap_wrap.
  - injection Hb as Hc2 Hb2. rewrite Ha. unfold u64_wrap in *. f_equal;
    [rewrite (Zplus_mod c1), <-Hc2|rewrite (Zplus_mod b1), <-Hb2]; by rewrite Z.add_0_r, Zmod_mod.
Qed.

Lemma tally_reduce store (ls : list (list BlobRecord)) :
  tally_is (match foldl count_blob ∅ <$> ls with [] => ∅ | x :: l => foldl merge_tallies x l end) store
    (blob_count store (concat ls)) (blob_bytes store (concat ls)).
Proof.
  assert (∀ l, tally_is (foldl count_blob ∅ l) store (blob_count store l) (blob_bytes store l)) as H0l.
  { intros l. apply (tally_fold store ∅ 0 0 l). reflexivity. }
  destruct ls as [|l ls]; [reflexivity|]. simpl.
  assert (∀ acc c b, tally_is acc store c b →
    tally_is (foldl merge_tallies acc (foldl count_blob ∅ <$> ls)) store
      (c + blob_count store (concat ls)) (b + blob_bytes store (concat ls))) as Hgo.
  { induction ls as [|l2 ls IH]; intros acc c b Hacc.
    - unfold blob_count. simpl. by rewrite !Z.add_0_r.
    - simpl. rewrite blob_count_app, blob_bytes_app, !Z.add_assoc. apply IH. by apply tally_merge. }
  rewrite blob_count_app, blob_bytes_app. by apply Hgo.
Qed.

(** The stores as [list_stores] reads them. *)
Definition stored_stores m : result (list StoreRecord) :=
  decode_all (items (scan_of (filter (λ x, starts_with x.1 "" = true)
    (part m TABLE_STORES SINGLE_PK)) ADMIN_ENTITY_CAP)).

Lemma run_list_stores w : run list_stores w = (Some (stored_stores (w_kv w)), w).
Proof. unfold list_stores, typed_list. run_steps. done. Qed.

Definition blob_pks (stores : list StoreRecord) : list string :=
  flat_map (λ s, blob_shard_pk (sr_name s) <$> shard_range) stores.

(** The blob records of a partition. *)
Definition partition_blobs m (pk : string) : list BlobRecord :=
  match decode_all (entries m TABLE_BLOBS pk "") with Ok l => l | Err _ => [] end.

(** The records of a partition are readable and the fuel covers it. *)
Definition partition_ok m (fuel : nat) (pk : string) : Prop :=
  is_ok (decode_all (T:=BlobRecord) (entries m TABLE_BLOBS pk "")) = true ∧
  length (part m TABLE_BLOBS pk) < fuel.

Lemma run_fold_blob_partition {St} fuel (init : St) (step : St → BlobRecord → St) pk w :
  partition_ok (w_kv w) fuel pk →
  run (fold_blob_partition fuel init (λ s r, Ok (step s r)) pk) w =
    (Some (Ok (foldl step init (partition_blobs (w_kv w) pk))), w).
Proof.
  intros [Hdec Hf]. unfold fold_blob_partition, partition_blobs.
  rewrite for_each_spec; [|unfold SCAN_BATCH_SIZE; lia|done]. do 2 f_equal.
  revert init Hdec. generalize (entries (w_kv w) TABLE_BLOBS pk "") as es.
  induction es as [|[sk v] es IH]; intros init Hdec; simpl in *; [done|].
  destruct (serde_result (from_slice v)) as [r|]; simpl in *; [|done].
  destruct (decode_all es) as [l|]; simpl in *; [|done]. by apply IH.
Qed.

(** Writing the records of the stores. *)
Lemma run_write_stats t now stores w (enc : StoreRecord → bytes) :
  (∀ s, s ∈ stores → to_vec_named (let '(c, b) := tally_of t (sr_name s) in
    mkStoreStatsRecord c b now) = inr (enc s)) →
  (∀ s s', sr_name s = sr_name s' → enc s = enc s') →
  ∃ m', run (try_for stores (write_stats t now)) w =
    (Some (Ok ((λ s, (sr_name s, let '(c, b) := tally_of t (sr_name s) in
       mkStoreStatsRecord c b now)) <$> stores)), set_kv m' w) ∧
    (∀ s, s ∈ stores → fst <$> m' !! store_stats_key (sr_name s) = Some (enc s)) ∧
    ∀ k, (∀ s, s ∈ stores → k ≠ store_stats_key (sr_name s)) → m' !! k = w_kv w !! k.
Proof.
  intros Henc Hname. revert w. induction stores as [|s stores IH]; intros w.
  { exists (w_kv w). simpl. rewrite set_kv_id. split_and!; [done| |done].
    intros s Hs. by apply elem_of_nil in Hs. }
  specialize (IH ltac:(intros; apply Henc; by right)).
  cbn [try_for fmap list_fmap]. rewrite run_bind_ok.
  pose proof (Henc s ltac:(by left)) as Hs. unfold write_stats at 1, put_store_stats.
  destruct (tally_of t (sr_name s)) as [c b] eqn:Et. unfold typed_put.
  rewrite Hs. cbn [store_stats_key serde_result try_].
  rewrite run_bind_ok, (run_kv_spec (Put _ _ _ _)). cbn [spec_store fst snd run].
  rewrite run_bind_ok.
  change (TABLE_META, SINGLE_PK, "store_stats/" +:+ sr_name s) with (store_stats_key (sr_name s)).
  destruct (IH (set_kv (spec_put (store_stats_key (sr_name s)) (enc s) (w_kv w)) w))
    as (m' & Hr & Hin & Hout).
  rewrite Hr. exists m'. split_and!.
  - done.
  - intros s' [->|Hs']%elem_of_cons; [|by apply Hin].
    destruct (decide (sr_name s ∈ sr_name <$> stores)) as [(s2 & Heq & Hs2)%list_elem_of_fmap|Hn].
    + rewrite Heq, Hin by done. f_equal. by apply Hname.
    + rewrite Hout.
      * cbn [w_kv set_kv]. unfold spec_put. by rewrite lookup_insert_eq.
      * intros s2 Hs2 Heq. apply Hn. apply list_elem_of_fmap. exists s2. split; [|done].
        unfold store_stats_key in Heq. simplify_eq. done.
  - intros k Hne. rewrite Hout by (intros; apply Hne; by right). cbn [w_kv set_kv]. unfold spec_put.
    rewrite lookup_insert_ne; [done|]. intros Heq. by apply (Hne s ltac:(by left)).
Qed.
End reconciled.

(** ** Properties *)

(** Claiming a content hash for a freshly written blob.  When the hash is
    new, the mapping is recorded, the store is credited with one blob and its
    size, and the caller gets its own id back; when another blob already holds
    the content, the mapping and the counters are left alone, the duplicate
    file, and only it, is deleted, and the caller gets the id of the existing
    blob; claiming again with the same id deletes nothing. *)
Theorem claim_or_reuse_blob_counted_spec `{Blake3} `{Serde BlobRecord} `{UuidGen}
    (blobs store : string) (r : BlobRecord) (b : bytes) (w : world kvmap) :
  to_vec (br_in_store store r) = inr b →
  match w_kv w !! blob_key store (br_hash r) with
  | None =>
      run (claim_or_reuse_blob_counted blobs store r) w =
        (Some (Ok (br_blob_id r)),
         push_sent (EvStore (mkStoreDelta store 1 (i64_wrap (br_size r))))
           (set_kv (<[blob_key store (br_hash r) := (b, 1%Z)]> (w_kv w)) w))
  | Some (b0, _) =>
      ∀ e, from_slice b0 = inr e →
      run (claim_or_reuse_blob_counted blobs store r) w =
        (Some (Ok (br_blob_id e)),
         if decide (br_blob_id e = br_blob_id r) then w
         else set_blobs (delete (blobs, br_blob_id r) (w_blobs w)) w)
  end.
Proof.
  intros Hb. destruct (w_kv w !! blob_key store (br_hash r)) as [ [b0 v]|] eqn:Hm.
  - intros e He. by eapply run_claim_hit.
  - by apply run_claim_fresh.
Qed.

(** C10: Concurrent claims of one hash agree.  In every interleaving of any
    number of clients that claim the same new hash with distinct, freshly
    written blobs, there is a single winner: every client that has finished
    returned the winner's id, the mapping is the winner's, the winner's file
    has not been deleted, and once the winner is done the store has been
    credited exactly once, whatever the losers do. *)
Theorem concurrent_claims_agree `{Blake3} `{Serde BlobRecord} `{UuidGen} {blob_exact : SerdeExact BlobRecord}
    (blobs store hash : string) (clients : list (BlobRecord * bytes)) (w : world kvmap) ps w' :
  Forall (λ x, client store hash x.1 x.2) clients →
  NoDup ((λ x, br_blob_id x.1) <$> clients) →
  w_kv w !! blob_key store hash = None →
  steps ((λ x, claim_or_reuse_blob_counted blobs store x.1) <$> clients, w) (ps, w') →
  (∃ i r, ps !! i = Some (Ret r)) →
  ∃ j rec b, clients !! j = Some (rec, b) ∧
    (∀ i r, ps !! i = Some (Ret r) → r = Ok (br_blob_id rec)) ∧
    fst <$> w_kv w' !! blob_key store hash = Some b ∧
    w_blobs w' !! (blobs, br_blob_id rec) = w_blobs w !! (blobs, br_blob_id rec) ∧
    w_sent w' = (if ps !! j is Some (Ret _)
                 then [EvStore (mkStoreDelta store 1 (i64_wrap (br_size rec)))] else []) ++ w_sent w.
Proof.
  intros Hok Hids Hm Hs Hdone.
  destruct (claims_inv_steps blobs store hash clients Hok Hids w _ Hm Hs) as [Hlen [Hu|(j & rec & b & Hc)] ].
  { destruct Hu as [Hps _]. destruct Hdone as (i & r & Hi). simpl in Hps. subst ps.
    rewrite list_lookup_fmap in Hi. destruct (clients !! i) as [x|] eqn:Hx; simplify_eq/=.
    pose proof (Forall_lookup_1 _ _ _ _ Hok Hx) as Hcl.
    destruct (claim_start blobs store hash x.1 x.2 Hcl) as (k & Hk & _). rewrite Hk in Hi.
    by destruct (blob_key store hash) as [ [? ?] ?]. }
  destruct Hc as (Hj & (v & Hv) & Hf & Hsent & Hat). simpl in *. exists j, rec, b. split_and!; [done| | |done|].
  - intros i r Hi. destruct (lookup_lt_is_Some_2 clients i) as [x Hx].
    { rewrite <-Hlen. by eapply lookup_lt_Some. }
    pose proof (Hat i x _ Hx Hi) as Hst. inversion Hst as [Hne Heq|? Heq|Hne Heq|Hne Heq|Heq]; [|done].
    pose proof (Forall_lookup_1 _ _ _ _ Hok Hx) as Hcl.
    destruct (claim_start blobs store hash x.1 x.2 Hcl) as (k & Hk & _). rewrite Hk in Heq.
    by destruct (blob_key store hash) as [ [? ?] ?].
  - by rewrite Hv.
  - destruct Hsent as [ [-> ->]|[-> ->] ]; done.
Qed.

(** Reconciliation recomputes the truth.  Whatever the recorded counters
    and the order in which the partitions are scanned, the counters written
    for each configured store are the number of blob records stored for it
    and the sum of their sizes (modulo the width of the counters), zero for an
    emptied store; they read back afterwards, and only these counters change. *)
Theorem reconcile_store_stats_exact `{Blake3} `{Serde BlobRecord} `{Serde StoreRecord}
    `{Serde StoreStatsRecord} `{UuidGen} (schedule : list string → list string) (fuel : nat)
    (w : world kvmap) (stores : list StoreRecord) (enc : StoreRecord → bytes) :
  stored_stores (w_kv w) = Ok stores →
  schedule (blob_pks stores) ≡ₚ blob_pks stores →
  Forall (partition_ok (w_kv w) fuel) (blob_pks stores) →
  let records := concat (partition_blobs (w_kv w) <$> blob_pks stores) in
  let stats s := mkStoreStatsRecord (u64_wrap (blob_count (sr_name s) records))
    (u64_wrap (blob_bytes (sr_name s) records)) (w_now w) in
  (∀ s, s ∈ stores → to_vec_named (stats s) = inr (enc s)) →
  (∀ s s', sr_name s = sr_name s' → enc s = enc s') →
  ∃ w', run (reconcile_store_stats schedule fuel) w =
      (Some (Ok ((λ s, (sr_name s, stats s)) <$> stores)), w') ∧
    (∀ s, s ∈ stores →
      run (get_store_stats (sr_name s)) w' = (Some (Ok (Some (wire (stats s)))), w')) ∧
    ∀ k, (∀ s, s ∈ stores → k ≠ store_stats_key (sr_name s)) → w_kv w' !! k = w_kv w !! k.
Proof.
  intros Hst Hperm Hpok records stats Henc Hname. unfold reconcile_store_stats, fold_all_blobs.
  rewrite !run_bind_ok, run_list_stores, Hst. cbv beta zeta iota. fold (blob_pks stores).
  rewrite run_bind_ok, (run_try_for_pure _ (λ pk, foldl count_blob ∅ (partition_blobs (w_kv w) pk))).
  2:{ intros pk Hpk. rewrite Hperm in Hpk. apply run_fold_blob_partition.
      rewrite Forall_forall in Hpok. by apply Hpok. }
  cbn [run]. rewrite run_bind. cbn [call run handle fst snd].
  rewrite run_bind_ok, run_list_stores, Hst. cbv beta iota.
  change (λ pk, foldl count_blob ∅ (partition_blobs (w_kv w) pk))
    with (foldl count_blob ∅ ∘ partition_blobs (w_kv w)). rewrite list_fmap_compose.
  set (t := match foldl count_blob ∅ <$> _ with [] => ∅ | x :: l => _ end).
  assert (∀ s, tally_of t (sr_name s) = (u64_wrap (blob_count (sr_name s) records),
    u64_wrap (blob_bytes (sr_name s) records))) as Ht.
  { intros s. unfold t. rewrite tally_reduce. unfold records.
    assert (concat (partition_blobs (w_kv w) <$> schedule (blob_pks stores)) ≡ₚ
      concat (partition_blobs (w_kv w) <$> blob_pks stores)) as Hp by by rewrite Hperm.
    by rewrite (blob_count_perm _ _ _ Hp), (blob_bytes_perm _ _ _ Hp). }
  destruct (run_write_stats t (w_now w) stores w enc) as (m' & Hr & Hin & Hout); [|done|].
  { intros s Hs. rewrite Ht. by apply Henc. }
  rewrite Hr. exists (set_kv m' w). split_and!.
  - do 3 f_equal. apply list_fmap_ext. intros i s _. by rewrite Ht.
  - intros s Hs. unfold get_store_stats. cbn [store_stats_key].
    specialize (Hin s Hs). unfold typed_get. run_steps. unfold store_stats_key in Hin. rewrite Hin. run_cbn.
    by rewrite (from_to_vec_named _ _ (Henc s Hs)).
  - exact Hout.
Qed.

(** ** Witnesses *)

Definition toy_blob (id : string) (store hash : string) (size : Z) : BlobRecord :=
  mkBlobRecord 5 id hash size 7%Z store.

Definition toy_blobs : list BlobRecord :=
  [toy_blob "b1" "s" "h" 10; toy_blob "b2" "s" "h" 10; toy_blob "b3" "s" "k" 4]%Z.

Definition toy_br_serde : Serde BlobRecord := table_serde toy_blobs.

Definition toy_blob_world : world kvmap :=
  mkWorld ∅ {[("s", "b1") := "data"; ("s", "b2") := "data"]} {["s"]} 0%Z 0 [] false.

Lemma claim_or_reuse_blob_counted_spec_witness :
  let _ := toy_blake3 in let _ := toy_br_serde in let _ := toy_uuid in
  let w := set_kv {[blob_key "s" "h" := ("0", 1%Z)]} toy_blob_world in
  run (claim_or_reuse_blob_counted "s" "s" (toy_blob "b2" "s" "h" 10)) w =
    (Some (Ok "b1"), set_blobs (delete ("s", "b2") (w_blobs w)) w).
Proof.
  intros ? ? ? w.
  exact (claim_or_reuse_blob_counted_spec "s" "s" (toy_blob "b2" "s" "h" 10) "1" w eq_refl
    (toy_blob "b1" "s" "h" 10) eq_refl).
Defined.

Lemma concurrent_claims_agree_witness :
  let _ := toy_blake3 in let _ := toy_br_serde in let _ := toy_uuid in
  let clients := [(toy_blob "b1" "s" "h" 10, "0"); (toy_blob "b2" "s" "h" 10, "1")]%Z in
  let c := pool_run [1; 0; 0; 1; 0]
    ((λ x, claim_or_reuse_blob_counted "s" "s" x.1) <$> clients, toy_blob_world) in
  ∃ j rec b, clients !! j = Some (rec, b) ∧
    (∀ i r, c.1 !! i = Some (Ret r) → r = Ok (br_blob_id rec)) ∧
    fst <$> w_kv c.2 !! blob_key "s" "h" = Some b.
Proof.
  intros ? ? ? clients c.
  destruct (@concurrent_claims_agree toy_blake3 toy_br_serde toy_uuid (table_serde_exact _)
    "s" "s" "h" clients toy_blob_world c.1 c.2) as (j & rec & b & Hj & Hr & Hb & _).
  - repeat constructor.
  - by_decide.
  - reflexivity.
  - rewrite <-surjective_pairing. apply pool_run_steps.
  - exists 1, (Ok "b2"). vm_compute. reflexivity.
  - exists j, rec, b. split; [exact Hj|]. split; [exact Hr|exact Hb].
Defined.

Definition toy_store_record : StoreRecord := mkStoreRecord 5 "s" (StoreFile "/b" true 1024 false) 0%Z.
Definition toy_sr_serde : Serde StoreRecord := table_serde [toy_store_record].
Definition toy_ss_serde : Serde StoreStatsRecord := table_serde [mkStoreStatsRecord 2 14 0]%Z.

Definition toy_recon_world : world kvmap :=
  let _ := toy_blake3 in
  world_of (list_to_map [(store_key "s", ("0", 1%Z));
    (blob_key "s" "h", ("0", 1%Z)); (blob_key "s" "k", ("2", 1%Z))]).

Lemma reconcile_store_stats_exact_witness :
  let _ := toy_blake3 in let _ := toy_br_serde in let _ := toy_uuid in
  let _ := toy_sr_serde in let _ := toy_ss_serde in
  ∃ w', run (reconcile_store_stats reverse 3) toy_recon_world =
    (Some (Ok [("s", mkStoreStatsRecord 2 14 0%Z)]), w').
Proof.
  intros ? ? ? ? ?.
  destruct (@reconcile_store_stats_exact toy_blake3 toy_br_serde toy_sr_serde toy_ss_serde toy_uuid
    reverse 3 toy_recon_world [toy_store_record] (λ _, "0")) as (w' & Hr & _).
  - vm_compute. reflexivity.
  - apply reverse_Permutation.
  - apply Forall_forall. intros pk Hpk.
    assert (Forall (λ pk, is_ok (@decode_all BlobRecord toy_br_serde
      (entries (w_kv toy_recon_world) TABLE_BLOBS pk "")) = true ∧
      length (part (w_kv toy_recon_world) TABLE_BLOBS pk) < 3) (blob_pks [toy_store_record])) as Hall by by_decide.
    rewrite Forall_forall in Hall. by apply Hall.
  - intros s2 Hs2. apply list_elem_of_singleton in Hs2 as ->. vm_compute. reflexivity.
  - reflexivity.
  - exists w'. refine (eq_trans Hr (f_equal (λ r, (Some (Ok r), w')) _)). vm_compute. reflexivity.
Defined.
