(* ===== verification/Repo.v ===== *)
(** * Repositories (core/src/service/repo.rs)

    The configuration records with their deletion mark, the propagation of
    staleness flags to the ancestor proxies, cloning, and the drain of a
    repository that is being deleted. *)

From S2P Require Import Prelude Bytes Errors Keys Records Kv Prog Scan Pagination Artifact.

(** core/src/service/repo.rs:139-148 *)
Definition stale_kind_for_format (format : ArtifactFormat) : ArtifactKind :=
  match format with
  | FApt => KAptMetadata
  | FYum => KYumMetadata
  | FHelm => KHelmMetadata
  | FNpm => KNpmMetadata
  | _ => KRaw
  end.

(** [config.deleting = b]. *)
Definition rc_set_deleting (b : bool) (c : RepoConfig) : RepoConfig :=
  mkRepoConfig (rc_schema_version c) (rc_name c) (rc_kind c) (rc_format_config c) (rc_store c)
    (rc_created_at c) (rc_cleanup_max_unaccessed_days c) (rc_cleanup_max_age_days c) b.

Section repos.
Context `{Blake3} `{Serde RepoConfig}.

(** core/src/service/repo.rs:16-19 *)
Definition put_repo (config : RepoConfig) : prog (result unit) :=
  let '(table, pk, sk) := repo_key (rc_name config) in
  typed_put table pk sk config.

(** core/src/service/repo.rs:32-35 *)
Definition get_repo_raw (name : string) : prog (result (option RepoConfig)) :=
  let '(table, pk, sk) := repo_key name in
  typed_get table pk sk.

(** core/src/service/repo.rs:23-28 *)
Definition get_repo (name : string) : prog (result (option RepoConfig)) :=
  let*? o := get_repo_raw name in
  match o with
  | Some config => if rc_deleting config then Ret (Ok None) else Ret (Ok (Some config))
  | None => Ret (Ok None)
  end.

(** core/src/service/repo.rs:50-59 *)
Definition list_repos_raw : prog (result (list RepoConfig)) :=
  typed_list TABLE_REPOS SINGLE_PK "" ADMIN_ENTITY_CAP.

(** core/src/service/repo.rs:37-47 *)
Definition list_repos : prog (result (list RepoConfig)) :=
  let*? repos := typed_list TABLE_REPOS SINGLE_PK "" ADMIN_ENTITY_CAP in
  Ret (Ok (filter (λ r, rc_deleting r = false) repos)).

(** core/src/service/repo.rs:152-169 *)
Definition delete_repo (name : string) : prog (result bool) :=
  let '(table, pk, sk) := repo_key name in
  let*? o := typed_get_versioned (T:=RepoConfig) table pk sk in
  match o with
  | None => Ret (Ok false)
  | Some (config, version) =>
      if rc_deleting config then Ret (Ok true)
      else
        let config := rc_set_deleting true config in
        let! new_bytes := serde_result (to_vec config) in
        kv (PutIfVersion table pk sk new_bytes (Some version))
  end.

(** *** Staleness *)

(** The parents of each member: the proxies of the format that list it, in
    listing order. *)
(** core/src/service/repo.rs:76-89 *)
Definition member_to_proxies (format : ArtifactFormat) (repos : list RepoConfig) :
    gmap string (list string) :=
  foldl (λ acc config,
    if decide (repo_format config ≠ format) then acc
    else match rc_kind config with
         | Proxy members _ =>
             foldl (λ acc member, <[member := default [] (acc !! member) ++ [rc_name config]]> acc)
               acc members
         | _ => acc
         end) ∅ repos.

(** core/src/service/repo.rs:92-107 *)
Definition stale_flag (format : ArtifactFormat) (now : DateTime) : ArtifactRecord :=
  mkArtifactRecord CURRENT_RECORD_VERSION "" 0 "text/plain" now now now ""
    (stale_kind_for_format format) true None None None.

Context `{Serde ArtifactRecord} `{Serde TreeEntry}.

(** The loop over the parents of one repository; the state is the visited set
    and the queue. *)
(** core/src/service/repo.rs:120-129 *)
Fixpoint visit_parents (stale_path : string) (flag : ArtifactRecord) (parents : list string)
    (visited : gset string) (queue : list string) : prog (gset string * list string) :=
  match parents with
  | [] => Ret (visited, queue)
  | parent :: parents =>
      if decide (parent ∈ visited) then visit_parents stale_path flag parents visited queue
      else
        let* _ := put_artifact_if_absent parent stale_path flag in
        visit_parents stale_path flag parents ({[parent]} ∪ visited) (queue ++ [parent])
  end.

(** The loop over one level of the search. *)
(** core/src/service/repo.rs:115-131 *)
Fixpoint visit_level (level_size : nat) (proxies : gmap string (list string)) (stale_path : string)
    (flag : ArtifactRecord) (visited : gset string) (queue : list string) :
    prog (gset string * list string) :=
  match level_size, queue with
  | S level_size, name :: queue =>
      let* st := match proxies !! name with
                 | Some parents => visit_parents stale_path flag parents visited queue
                 | None => Ret (visited, queue)
                 end in
      visit_level level_size proxies stale_path flag st.1 st.2
  | _, _ => Ret (visited, queue)
  end.

(** [levels] counts [depth] down from [max_depth]. *)
(** core/src/service/repo.rs:109-133 *)
Fixpoint visit_levels (levels : nat) (proxies : gmap string (list string)) (stale_path : string)
    (flag : ArtifactRecord) (visited : gset string) (queue : list string) : prog unit :=
  match levels, queue with
  | S levels, _ :: _ =>
      let* st := visit_level (length queue) proxies stale_path flag visited queue in
      visit_levels levels proxies stale_path flag st.1 st.2
  | _, _ => Ret tt
  end.

(** core/src/service/repo.rs:66-136 *)
Definition propagate_staleness (source_repo : string) (format : ArtifactFormat)
    (stale_path : string) : prog (result unit) :=
  let*? repos := list_repos in
  let proxies := member_to_proxies format repos in
  let* now := call ENow in
  let flag := stale_flag format now in
  let max_depth := 8 in
  let* _ := visit_levels max_depth proxies stale_path flag ∅ [source_repo] in
  Ret (Ok tt).
End repos.

(** ** Cloning *)

(** core/src/service/repo.rs:171-175 *)
Record CloneStats : Type := mkCloneStats {
  copied_artifacts : Z;
  copied_entries : Z;
}.

(** [tx.send_modify(f)] when there is a progress channel. *)
Definition send_progress (progress_tx : bool) (f : TaskProgress → TaskProgress) : prog unit :=
  if progress_tx then call (ESend (EvProgress f)) else Ret tt.

(** [cancel.is_some_and(|c| c.is_cancelled())]. *)
Definition is_cancelled (cancel : bool) : prog bool :=
  if cancel then call ECancelled else Ret false.

Definition tp_set_total_phase (total : Z) (phase : string) (p : TaskProgress) : TaskProgress :=
  mkTaskProgress (tp_total_repos p) (tp_completed_repos p) (tp_total_blobs p) (tp_checked_blobs p)
    (tp_failed_blobs p) (tp_bytes_read p) (tp_total_bytes p) total (tp_checked_artifacts p) phase.
Definition tp_set_checked (n : Z) (p : TaskProgress) : TaskProgress :=
  mkTaskProgress (tp_total_repos p) (tp_completed_repos p) (tp_total_blobs p) (tp_checked_blobs p)
    (tp_failed_blobs p) (tp_bytes_read p) (tp_total_bytes p) (tp_total_artifacts p) n (tp_phase p).
Definition tp_set_phase (phase : string) (p : TaskProgress) : TaskProgress :=
  mkTaskProgress (tp_total_repos p) (tp_completed_repos p) (tp_total_blobs p) (tp_checked_blobs p)
    (tp_failed_blobs p) (tp_bytes_read p) (tp_total_bytes p) (tp_total_artifacts p)
    (tp_checked_artifacts p) phase.

(** The loop over the batches of a partition; [st] is the state of the
    [on_batch] callback. *)
(** core/src/service/repo.rs:276-317 *)
Fixpoint copy_partition {St : Type} (fuel : nat) (table src_pk dst_pk : string)
    (on_batch : St → Z → prog St) (cursor : option string) (st : St) : prog (result St) :=
  match fuel with
  | O => Spin
  | S fuel =>
      let start := default "" cursor in
      let*? batch := kv (ScanRange table src_pk start None SCAN_BATCH_SIZE) in
      if decide (items batch = []) then Ret (Ok st)
      else
        let count := Z.of_nat (length (items batch)) in
        let entries := (λ '(sk, v), (dst_pk, sk, v)) <$> items batch in
        let*? _ := kv (PutBatch table entries) in
        let* st := on_batch st count in
        if done_ batch then Ret (Ok st)
        else
          let cursor := match last_sk (items batch) with
                        | Some last_sk => Some (last_sk +:+ singleton_str NUL)
                        | None => cursor
                        end in
          copy_partition fuel table src_pk dst_pk on_batch cursor st
  end.

Section clone.
Context `{Serde RepoConfig}.

(** [new_config] of the clone. *)
Definition rc_clone (source : RepoConfig) (new_name : string) (now : DateTime) : RepoConfig :=
  mkRepoConfig (rc_schema_version source) new_name (rc_kind source) (rc_format_config source)
    (rc_store source) now (rc_cleanup_max_unaccessed_days source) (rc_cleanup_max_age_days source)
    false.

(** The copy of one artifact shard, with the shared counter. *)
(** core/src/service/repo.rs:216-233 *)
Definition clone_artifact_shard (fuel : nat) (cancel progress_tx : bool) (source new_name : string)
    (counter : Z) (shard : N) : prog (result Z) :=
  let* cancelled := is_cancelled cancel in
  if (cancelled : bool) then Ret (Ok counter)
  else
    let src_pk := artifact_shard_pk source shard in
    let dst_pk := artifact_shard_pk new_name shard in
    copy_partition fuel TABLE_ARTIFACTS src_pk dst_pk (λ counter n,
      let total := u64_add counter n in
      let* _ := send_progress progress_tx (tp_set_checked total) in
      Ret total) None counter.

(** core/src/service/repo.rs:252-264 *)
Definition clone_tree_shard (fuel : nat) (cancel : bool) (source new_name : string)
    (counter : Z) (shard : N) : prog (result Z) :=
  let* cancelled := is_cancelled cancel in
  if (cancelled : bool) then Ret (Ok counter)
  else
    let src_pk := tree_shard_pk source shard in
    let dst_pk := tree_shard_pk new_name shard in
    copy_partition fuel TABLE_DIR_ENTRIES src_pk dst_pk (λ counter n,
      Ret (u64_add counter n)) None counter.

(** [schedule1] and [schedule2] are the orders in which the shards complete. *)
(** core/src/service/repo.rs:185-274 *)
Definition clone_repo (schedule1 schedule2 : list N) (fuel : nat) (source : RepoConfig)
    (new_name : string) (total_artifacts : Z) (cancel progress_tx : bool) :
    prog (result (option CloneStats)) :=
  let* now := call ENow in
  let new_config := rc_clone source new_name now in
  let '(table, pk, sk) := repo_key new_name in
  let*? created := typed_put_if_absent table pk sk new_config in
  if negb created then Ret (Ok None)
  else
    let* _ := send_progress progress_tx (tp_set_total_phase total_artifacts "Copying artifacts") in
    let*? artifact_counter := try_fold schedule1
      (clone_artifact_shard fuel cancel progress_tx (rc_name source) new_name) 0%Z in
    let* cancelled := is_cancelled cancel in
    if (cancelled : bool) then Ret (Err (Internal "Clone cancelled"))
    else
      let* _ := send_progress progress_tx (tp_set_phase "Copying directory entries") in
      let*? entry_counter := try_fold schedule2
        (clone_tree_shard fuel cancel (rc_name source) new_name) 0%Z in
      Ret (Ok (Some (mkCloneStats artifact_counter entry_counter))).
End clone.

(** ** Draining *)

(** The loop that empties one partition. *)
(** core/src/service/repo.rs:328-347 *)
Fixpoint drain_partition (fuel : nat) (table pk : string) : prog (result unit) :=
  match fuel with
  | O => Spin
  | S fuel =>
      let*? result := kv (ScanPrefix table pk "" SCAN_BATCH_SIZE) in
      if decide (items result = []) then Ret (Ok tt)
      else
        let del_keys := (λ '(sk, _), (pk, sk)) <$> items result in
        let*? _ := kv (DeleteBatch table del_keys) in
        drain_partition fuel table pk
  end.

(** core/src/service/repo.rs:321-386 *)
Definition drain_deleting_repo (schedule1 schedule2 : list N) (fuel : nat) (name : string) :
    prog (result unit) :=
  let*? _ := try_for schedule1 (λ shard,
    drain_partition fuel TABLE_ARTIFACTS (artifact_shard_pk name shard)) in
  let*? _ := try_for schedule2 (λ shard,
    drain_partition fuel TABLE_DIR_ENTRIES (tree_shard_pk name shard)) in
  let '(table, pk, sk) := repo_key name in
  let*? _ := kv (Delete table pk sk) in
  Ret (Ok tt).

(** ** Emptying a partition *)

Section drain.
Context `{UuidGen}.
Implicit Types (m : kvmap) (w : world kvmap).

(** The entries left after the deletion of the first ones. *)
Lemma part_delete_take m t pk n :
  part (foldl (λ (m : kvmap) '(pk, sk), delete (t, pk, sk) m) m
    ((λ x, (pk, x.1)) <$> take n (part m t pk))) t pk = drop n (part m t pk).
Proof.
  symmetry. pose proof (part_sorted m t pk) as Hs. apply part_unique.
  { rewrite <-(take_drop n (part m t pk)) in Hs. by apply StronglySorted_app in Hs as (_ & _ & Hs). }
  intros sk v. rewrite delete_all_lookup.
  assert ((pk, sk) ∈ (λ x : string * (bytes * Z), (pk, x.1)) <$> take n (part m t pk) ↔
    sk ∈ (take n (part m t pk)).*1) as Hiff.
  { rewrite !list_elem_of_fmap. split; intros (x & Heq & Hx); exists x; by simplify_eq. }
  apply sorted_NoDup_fst in Hs. rewrite <-(take_drop n (part m t pk)), fmap_app in Hs.
  apply NoDup_app in Hs as (_ & Hdisj & Hd). case_decide as Hc.
  - destruct Hc as [_ Hc]. rewrite Hiff in Hc. split; [|done]. intros Hin. destruct (Hdisj sk Hc).
    by apply (list_elem_of_fmap_2 fst _ (sk, v)).
  - rewrite <-elem_of_part. split; intros Hin.
    + rewrite <-(take_drop n (part m t pk)). apply elem_of_app. by right.
    + rewrite <-(take_drop n (part m t pk)) in Hin. apply elem_of_app in Hin as [Hin|]; [|done].
      destruct Hc. split; [done|]. apply Hiff. by apply (list_elem_of_fmap_2 fst _ (sk, v)).
Qed.

Lemma part_nil m t pk : part m t pk = [] ↔ ∀ sk, m !! (t, pk, sk) = None.
Proof.
  split.
  - intros Hp sk. apply eq_None_not_Some. intros [v Hv%elem_of_part]. rewrite Hp in Hv.
    by apply elem_of_nil in Hv.
  - intros Hm. destruct (part m t pk) as [|[sk v] l] eqn:E; [done|].
    assert ((sk, v) ∈ part m t pk) as Hin by (rewrite E; left). apply elem_of_part in Hin.
    by rewrite Hm in Hin.
Qed.

Lemma take_batch_nil {A} (l : list A) : take SCAN_BATCH_SIZE l = [] → l = [].
Proof.
  intros Hl%(f_equal length). rewrite length_take in Hl. cbn [length] in Hl.
  apply length_zero_iff_nil. unfold SCAN_BATCH_SIZE in Hl. lia.
Qed.

(** Draining empties the partition and nothing else. *)
Definition drained (P : string * string → Prop) m m' : Prop :=
  ∀ t pk sk, (P (t, pk) → m' !! (t, pk, sk) = None) ∧
    (¬ P (t, pk) → m' !! (t, pk, sk) = m !! (t, pk, sk)).

Lemma drain_partition_spec fuel t pk w :
  length (part (w_kv w) t pk) < fuel →
  ∃ m', run (drain_partition fuel t pk) w = (Some (Ok tt), set_kv m' w) ∧
    drained (λ x, x = (t, pk)) (w_kv w) m'.
Proof.
  revert w. induction fuel as [|fuel IH]; intros w Hf; [lia|]. cbn [drain_partition].
  rewrite run_bind_ok, run_kv_spec. cbn [spec_store fst snd]. rewrite set_kv_id.
  rewrite filter_all by (apply Forall_forall; intros; apply starts_with_nil).
  case_decide as Hnil; cbn [items scan_of] in Hnil.
  - exists (w_kv w). rewrite set_kv_id. split; [done|]. intros t' pk' sk. split; [|done].
    intros [= -> ->]. apply part_nil. by apply fmap_nil_inv, take_batch_nil in Hnil.
  - cbn [items scan_of].
    replace ((λ '(sk, _), (pk, sk)) <$> (prod_map id fst <$> take SCAN_BATCH_SIZE (part (w_kv w) t pk)))
      with ((λ x, (pk, x.1)) <$> take SCAN_BATCH_SIZE (part (w_kv w) t pk))
      by (rewrite <-list_fmap_compose; apply list_fmap_ext; by intros ? [? [? ?] ] _).
    rewrite run_bind_ok, (run_kv_spec (DeleteBatch _ _)). cbn [spec_store].
    rewrite spec_delete_batch_eq. cbn [fst snd].
    set (m1 := foldl _ _ _). destruct (IH (set_kv m1 w)) as (m' & Hr & Hd).
    + cbn [w_kv set_kv]. unfold m1. rewrite part_delete_take, length_drop.
      assert (length (part (w_kv w) t pk) ≠ 0).
      { intros Hz%length_zero_iff_nil. by rewrite Hz in Hnil. }
      unfold SCAN_BATCH_SIZE. lia.
    + exists m'. split; [done|]. intros t' pk' sk. destruct (Hd t' pk' sk) as [Hin Hout].
      split; [done|]. intros Hne. rewrite Hout by done. cbn [w_kv set_kv]. unfold m1.
      rewrite delete_all_lookup, decide_False; [done|]. intros [-> (x & [= -> _] & _)%list_elem_of_fmap].
      by destruct Hne.
Qed.

Lemma drain_shards_spec fuel t (f : N → string) (shards : list N) w :
  Forall (λ shard, length (part (w_kv w) t (f shard)) < fuel) shards →
  ∃ m', run (try_for shards (λ shard, drain_partition fuel t (f shard))) w =
      (Some (Ok ((λ _, tt) <$> shards)), set_kv m' w) ∧
    drained (λ x, ∃ shard, shard ∈ shards ∧ x = (t, f shard)) (w_kv w) m'.
Proof.
  revert w. induction shards as [|shard shards IH]; intros w Hall.
  { exists (w_kv w). simpl. rewrite set_kv_id. split; [done|]. intros t' pk sk. split; [|done].
    intros (? & Hin & _). by apply elem_of_nil in Hin. }
  apply Forall_cons in Hall as [Hf Hall].
  cbn [try_for fmap list_fmap]. rewrite run_bind_ok.
  destruct (drain_partition_spec fuel t (f shard) w Hf) as (m1 & Hr1 & Hd1). rewrite Hr1.
  destruct (IH (set_kv m1 w)) as (m2 & Hr2 & Hd2).
  { eapply Forall_impl; [exact Hall|]. intros s Hs. cbn [w_kv set_kv].
    destruct (decide (f s = f shard)) as [Heq|Hne].
    - assert (part m1 t (f s) = []) as ->; [|simpl; lia]. apply part_nil. intros sk.
      apply (Hd1 t (f s) sk). by rewrite Heq.
    - rewrite (part_ext m1 (w_kv w)); [done|]. intros sk. apply (Hd1 t (f s) sk). congruence. }
  rewrite run_bind_ok, Hr2. exists m2. split; [done|]. intros t' pk sk.
  destruct (Hd2 t' pk sk) as [Hin2 Hout2]. destruct (Hd1 t' pk sk) as [Hin1 Hout1].
  cbn [w_kv set_kv] in Hout2.
  destruct (decide (Exists (λ s, (t', pk) = (t, f s)) shards)) as [He|He];
    rewrite Exists_exists in He; (split; [intros (s & Hs & Heq)|intros Hne]).
  - apply Hin2. destruct He as (s' & ? & ?). by exists s'.
  - destruct Hne. destruct He as (s' & ? & ?). exists s'. split; [by right|done].
  - rewrite Hout2 by done. apply Hin1. apply elem_of_cons in Hs as [->|Hs]; [done|].
    destruct He. by exists s.
  - rewrite Hout2 by done. apply Hout1. intros Heq. apply Hne. exists shard. split; [by left|done].
Qed.
End drain.

(** ** Copying a partition *)

Section copy.
Context `{UuidGen}.
Implicit Types (m : kvmap) (w : world kvmap).

(** Everything but the store and the channel is as before. *)
Definition same_env w w' : Prop :=
  w_blobs w' = w_blobs w ∧ w_stores w' = w_stores w ∧ w_now w' = w_now w ∧
  w_uuids w' = w_uuids w ∧ w_cancelled w' = w_cancelled w.

Lemma same_env_refl w : same_env w w.
Proof. done. Qed.

Lemma same_env_trans w1 w2 w3 : same_env w1 w2 → same_env w2 w3 → same_env w1 w3.
Proof. unfold same_env. intuition congruence. Qed.

Definition copies (dst : string) (l : list (string * (bytes * Z))) : list (string * string * bytes) :=
  (λ x, (dst, x.1, x.2.1)) <$> l.

Lemma spec_put_batch_app t l1 l2 m :
  spec_put_batch t (l1 ++ l2) m = spec_put_batch t l2 (spec_put_batch t l1 m).
Proof. unfold spec_put_batch. apply foldl_app. Qed.

Lemma put_copies_other t dst l m k :
  k.1 ≠ (t, dst) → spec_put_batch t (copies dst l) m !! k = m !! k.
Proof.
  revert m. induction l as [|x l IH]; intros m Hk; [done|].
  cbn. etrans; [exact (IH _ Hk)|]. unfold spec_put. apply lookup_insert_ne.
  intros <-. done.
Qed.

Lemma put_copies_absent t dst l m sk :
  sk ∉ l.*1 → spec_put_batch t (copies dst l) m !! (t, dst, sk) = m !! (t, dst, sk).
Proof.
  revert m. induction l as [|x l IH]; intros m Hsk; [done|].
  cbn in Hsk |- *. apply not_elem_of_cons in Hsk as [Hne Hsk].
  etrans; [exact (IH _ Hsk)|]. unfold spec_put. apply lookup_insert_ne. congruence.
Qed.

Lemma put_copies_present t dst l m sk v ver :
  NoDup l.*1 → (sk, (v, ver)) ∈ l →
  fst <$> spec_put_batch t (copies dst l) m !! (t, dst, sk) = Some v.
Proof.
  revert m. induction l as [|x l IH]; intros m Hnd Hin; [by apply elem_of_nil in Hin|].
  cbn in Hnd. apply NoDup_cons in Hnd as [Hx Hnd]. cbn.
  apply elem_of_cons in Hin as [<-|Hin]; [|exact (IH _ Hnd Hin)].
  etrans; [apply f_equal; exact (put_copies_absent _ _ _ _ _ Hx)|].
  unfold spec_put. by rewrite lookup_insert_eq.
Qed.

(** A callback that adds the size of a batch to a counter. *)
Definition counting (on_batch : Z → Z → prog Z) : Prop :=
  ∀ c n w, ∃ w', run (on_batch c n) w = (Some (u64_add c n), w') ∧
    w_kv w' = w_kv w ∧ same_env w w'.

Lemma copy_partition_spec fuel t src dst on_batch cursor c w :
  counting on_batch → src ≠ dst → u64_ok c →
  let l := filter (λ x, in_range (default "" cursor) None x.1) (part (w_kv w) t src) in
  length l < fuel →
  ∃ w', run (copy_partition fuel t src dst on_batch cursor c) w =
      (Some (Ok (u64_wrap (c + Z.of_nat (length l)))), w') ∧
    w_kv w' = spec_put_batch t (copies dst l) (w_kv w) ∧ same_env w w'.
Proof.
  intros Hcount Hne. revert cursor c w. induction fuel as [|fuel IH]; intros cursor c w Hc l Hf; [lia|].
  cbn [copy_partition]. rewrite run_bind_ok, run_kv_spec. cbn [spec_store fst snd]. rewrite set_kv_id.
  fold l. case_decide as Hnil; cbn [items scan_of] in Hnil.
  { apply fmap_nil_inv, take_batch_nil in Hnil as ->. exists w. simpl. rewrite Z.add_0_r, u64_wrap_id by done. done. }
  cbn [items scan_of done_].
  replace ((λ '(sk, v), (dst, sk, v)) <$> (prod_map id fst <$> take SCAN_BATCH_SIZE l))
    with (copies dst (take SCAN_BATCH_SIZE l))
    by (unfold copies; rewrite <-list_fmap_compose; apply list_fmap_ext; by intros ? [? [? ?] ] _).
  rewrite run_bind_ok, (run_kv_spec (PutBatch _ _)). cbn [spec_store fst snd].
  set (m1 := spec_put_batch t (copies dst (take SCAN_BATCH_SIZE l)) (w_kv w)).
  rewrite run_bind. rewrite length_fmap.
  destruct (Hcount c (Z.of_nat (length (take SCAN_BATCH_SIZE l))) (set_kv m1 w)) as (w1 & Hr1 & Hkv1 & He1).
  rewrite Hr1. cbn [w_kv set_kv] in Hkv1.
  assert (same_env w w1) as He by (eapply same_env_trans; [|exact He1]; done).
  case_bool_decide as Hdone.
  - exists w1. unfold m1 in Hkv1. rewrite take_ge in Hkv1 |- * by done. done.
  - unfold last_sk. rewrite fmap_last.
    destruct (last (take SCAN_BATCH_SIZE l)) as [x|] eqn:Hx.
    2:{ apply last_None, (f_equal length) in Hx. rewrite length_take in Hx. cbn [length] in Hx.
        unfold SCAN_BATCH_SIZE in *. lia. }
    cbn [fmap option_fmap option_map].
    pose proof (in_range_next (w_kv w) t src _ None SCAN_BATCH_SIZE x Hx) as Hnext. fold l in Hnext.
    assert (part (w_kv w1) t src = part (w_kv w) t src) as Hpart.
    { rewrite Hkv1. apply part_ext. intros sk. apply put_copies_other. simpl. congruence. }
    destruct (IH (Some (x.1 +:+ singleton_str NUL)) (u64_add c (Z.of_nat (length (take SCAN_BATCH_SIZE l)))) w1)
      as (w' & Hr & Hkv & He').
    + apply u64_add_ok.
    + change (default "" (Some (x.1 +:+ singleton_str NUL))) with (x.1 +:+ singleton_str NUL).
      rewrite Hpart, Hnext, length_drop. unfold SCAN_BATCH_SIZE in *. lia.
    + change (default "" (Some (x.1 +:+ singleton_str NUL))) with (x.1 +:+ singleton_str NUL) in Hr, Hkv.
      exists w'. rewrite Hpart, Hnext in Hr, Hkv. split_and!.
      * etrans; [exact Hr|]. do 3 f_equal. unfold u64_add. unfold u64_wrap.
        rewrite Z.add_mod_idemp_l by lia. rewrite <-(take_drop SCAN_BATCH_SIZE l) at 3.
        rewrite length_app. f_equal. lia.
      * rewrite Hkv, Hkv1. unfold m1. rewrite <-spec_put_batch_app. unfold copies.
        by rewrite <-fmap_app, take_drop.
      * by eapply same_env_trans.
Qed.
End copy.

(** ** Copying all the shards *)

Section copy_shards.
Context `{UuidGen}.
Implicit Types (m : kvmap) (w : world kvmap).
Context (fuel : nat) (t : string) (src dst : N → string) (on_batch : Z → Z → prog Z) (cancel : bool).

Definition copy_shard (counter : Z) (shard : N) : prog (result Z) :=
  let* cancelled := is_cancelled cancel in
  if (cancelled : bool) then Ret (Ok counter)
  else copy_partition fuel t (src shard) (dst shard) on_batch None counter.

(** What a key of a copied partition reads as. *)
Definition copied_value m (s : N) (sk : string) : option bytes :=
  match m !! (t, src s, sk) with
  | Some (v, _) => Some v
  | None => fst <$> m !! (t, dst s, sk)
  end.

Hypothesis Hcount : counting on_batch.
Hypothesis Hsd : ∀ i j, src i ≠ dst j.
Hypothesis Hdst : ∀ i j, dst i = dst j → i = j.

Lemma run_is_cancelled w : cancel && w_cancelled w = false → run (is_cancelled cancel) w = (Some false, w).
Proof. unfold is_cancelled. destruct cancel; simpl; [by intros ->|done]. Qed.

Lemma in_range_all sk : in_range "" None sk.
Proof. split; [apply str_le_nil|done]. Qed.

Lemma copy_shard_spec c s w :
  length (part (w_kv w) t (src s)) < fuel → cancel && w_cancelled w = false → u64_ok c →
  ∃ w', run (copy_shard c s) w =
      (Some (Ok (u64_wrap (c + Z.of_nat (length (part (w_kv w) t (src s)))))), w') ∧
    same_env w w' ∧
    (∀ sk, fst <$> w_kv w' !! (t, dst s, sk) = copied_value (w_kv w) s sk) ∧
    ∀ k, k.1 ≠ (t, dst s) → w_kv w' !! k = w_kv w !! k.
Proof using Hcount Hsd.
  intros Hf Hc Hok. unfold copy_shard. rewrite run_bind, (run_is_cancelled w Hc).
  destruct (copy_partition_spec fuel t (src s) (dst s) on_batch None c w Hcount (Hsd s s) Hok) as (w' & Hr & Hkv & He).
  { eapply Nat.le_lt_trans; [apply length_filter|done]. }
  rewrite filter_all in Hr, Hkv by (apply Forall_forall; intros; apply in_range_all).
  exists w'. split_and!; [done|done| |].
  - intros sk. rewrite Hkv. unfold copied_value.
    destruct (w_kv w !! (t, src s, sk)) as [ [v ver]|] eqn:E.
    + eapply put_copies_present; [apply sorted_NoDup_fst, part_sorted|]. by apply elem_of_part.
    + rewrite put_copies_absent; [done|]. intros ([sk' x] & -> & Hin%elem_of_part)%list_elem_of_fmap.
      simpl in E. by rewrite Hin in E.
  - intros k Hk. rewrite Hkv. by apply put_copies_other.
Qed.

Lemma copy_shards_spec shards c w :
  NoDup shards → Forall (λ s, length (part (w_kv w) t (src s)) < fuel) shards →
  cancel && w_cancelled w = false → u64_ok c →
  ∃ w', run (try_fold shards copy_shard c) w =
      (Some (Ok (u64_wrap (c + Z.of_nat (length (concat ((λ s, part (w_kv w) t (src s)) <$> shards)))))), w') ∧
    same_env w w' ∧
    (∀ s sk, s ∈ shards → fst <$> w_kv w' !! (t, dst s, sk) = copied_value (w_kv w) s sk) ∧
    ∀ k, (∀ s, s ∈ shards → k.1 ≠ (t, dst s)) → w_kv w' !! k = w_kv w !! k.
Proof using Hcount Hsd Hdst.
  intros Hnd. revert c w. induction Hnd as [|s shards Hs Hnd IH]; intros c w Hall Hc Hok.
  { exists w. simpl. rewrite Z.add_0_r, u64_wrap_id by done. split_and!; [done|done| |done].
    intros s sk Hs. by apply elem_of_nil in Hs. }
  apply Forall_cons in Hall as [Hf Hall]. cbn [try_fold]. rewrite run_bind_ok.
  destruct (copy_shard_spec c s w Hf Hc Hok) as (w1 & Hr1 & He1 & Hv1 & Ho1). rewrite Hr1.
  assert (∀ s', part (w_kv w1) t (src s') = part (w_kv w) t (src s')) as Hp.
  { intros s'. apply part_ext. intros sk. apply Ho1. simpl. intros [= Heq]. by apply (Hsd s' s). }
  destruct (IH (u64_wrap (c + Z.of_nat (length (part (w_kv w) t (src s))))) w1) as (w' & Hr & He & Hv & Ho).
  { eapply Forall_impl; [exact Hall|]. intros s' Hs'. by rewrite Hp. }
  { destruct He1 as (_ & _ & _ & _ & ->). done. }
  { apply u64_wrap_ok. }
  exists w'. split_and!.
  - etrans; [exact Hr|]. do 3 f_equal. unfold u64_wrap. rewrite Z.add_mod_idemp_l by lia. f_equal.
    cbn [fmap list_fmap concat]. rewrite length_app.
    assert (((λ s0, part (w_kv w1) t (src s0)) <$> shards) = ((λ s0, part (w_kv w) t (src s0)) <$> shards)) as ->.
    { apply list_fmap_ext. intros ? ? _. apply Hp. }
    unfold fmap. lia.
  - by eapply same_env_trans.
  - intros s' sk [->|Hin]%elem_of_cons.
    + rewrite Ho; [apply Hv1|]. intros s' Hs' [= Heq%Hdst]. by subst.
    + rewrite Hv by done. unfold copied_value. rewrite !Ho1; [done| |].
      * simpl. intros [= Heq%Hdst]. by subst.
      * simpl. intros [= Heq]. by apply (Hsd s' s).
  - intros k Hk. rewrite Ho by (intros; apply Hk; by right). apply Ho1. apply Hk. by left.
Qed.
End copy_shards.

(** ** Properties *)

Section properties.
Context `{Blake3} `{Serde RepoConfig} `{Serde ArtifactRecord} `{Serde TreeEntry} `{UuidGen}.
Implicit Types (m : kvmap) (w : world kvmap).

Lemma shard_pk_inj repo i j : artifact_shard_pk repo i = artifact_shard_pk repo j → i = j.
Proof. intros Heq. by apply scoped_pk_inj in Heq as [_ ?]. Qed.

Lemma shard_pk_ne repo1 repo2 i j : repo1 ≠ repo2 → artifact_shard_pk repo1 i ≠ artifact_shard_pk repo2 j.
Proof. intros Hne Heq. by apply scoped_pk_inj in Heq as [? _]. Qed.

Lemma artifact_key_shard repo path :
  artifact_key repo path =
    (TABLE_ARTIFACTS, artifact_shard_pk repo (shard_of (normalize_path path)), normalize_path path).
Proof. done. Qed.

Lemma tree_entry_key_shard repo path :
  tree_entry_key repo path =
    (TABLE_DIR_ENTRIES, tree_shard_pk repo (shard_of (tree_parent (normalize_path path))),
     tree_sort_key (normalize_path path)).
Proof. done. Qed.

(** The partitions of a repository. *)
Definition repo_partition (repo : string) (x : string * string) : Prop :=
  ∃ shard, shard ∈ shard_range ∧
    (x = (TABLE_ARTIFACTS, artifact_shard_pk repo shard) ∨ x = (TABLE_DIR_ENTRIES, tree_shard_pk repo shard)).

(** The fuel covers every partition of the repository. *)
Definition repo_fits m (repo : string) (fuel : nat) : Prop :=
  Forall (λ shard, length (part m TABLE_ARTIFACTS (artifact_shard_pk repo shard)) < fuel ∧
    length (part m TABLE_DIR_ENTRIES (tree_shard_pk repo shard)) < fuel) shard_range.

Lemma repo_fits_perm m repo fuel schedule : schedule ≡ₚ shard_range → repo_fits m repo fuel →
  Forall (λ shard, length (part m TABLE_ARTIFACTS (artifact_shard_pk repo shard)) < fuel ∧
    length (part m TABLE_DIR_ENTRIES (tree_shard_pk repo shard)) < fuel) schedule.
Proof. unfold repo_fits. intros Hs. by rewrite Hs. Qed.

(** Draining a deleted repository terminates and is exact: whatever the
    order in which the shards complete, every artifact record and browse-tree
    entry of the repository and its configuration are gone, however many
    batches they take, and every other key of the store, in particular those
    of repositories whose name has this one as a prefix, is unchanged. *)
Theorem drain_deleting_repo_exact schedule1 schedule2 fuel name w :
  schedule1 ≡ₚ shard_range → schedule2 ≡ₚ shard_range → repo_fits (w_kv w) name fuel →
  ∃ m', run (drain_deleting_repo schedule1 schedule2 fuel name) w = (Some (Ok tt), set_kv m' w) ∧
    (∀ path, m' !! artifact_key name path = None ∧ m' !! tree_entry_key name path = None) ∧
    run (get_repo_raw name) (set_kv m' w) = (Some (Ok None), set_kv m' w) ∧
    ∀ k, k ≠ repo_key name → ¬ repo_partition name k.1 → m' !! k = w_kv w !! k.
Proof.
  intros Hs1 Hs2 Hfit. unfold drain_deleting_repo. rewrite run_bind_ok.
  destruct (drain_shards_spec fuel TABLE_ARTIFACTS (artifact_shard_pk name) schedule1 w) as (m1 & Hr1 & Hd1).
  { eapply Forall_impl; [exact (repo_fits_perm _ _ _ _ Hs1 Hfit)|]. by intros ? [? ?]. }
  rewrite Hr1, run_bind_ok.
  destruct (drain_shards_spec fuel TABLE_DIR_ENTRIES (tree_shard_pk name) schedule2 (set_kv m1 w)) as (m2 & Hr2 & Hd2).
  { eapply Forall_impl; [exact (repo_fits_perm _ _ _ _ Hs2 Hfit)|]. intros s [_ Hlt]. cbn [w_kv set_kv].
    rewrite (part_ext m1 (w_kv w)); [done|]. intros sk. apply (Hd1 TABLE_DIR_ENTRIES _ sk). by intros (? & _ & [=]). }
  rewrite Hr2. cbn [repo_key]. rewrite run_bind_ok, (run_kv_spec (Delete _ _ _)).
  cbn [spec_store fst snd run w_kv set_kv]. eexists. split; [done|].
  change (TABLE_REPOS, SINGLE_PK, name) with (repo_key name). split_and!.
  - intros path. rewrite artifact_key_shard, tree_entry_key_shard. split.
    + rewrite lookup_delete_ne by done.
      destruct (Hd2 TABLE_ARTIFACTS (artifact_shard_pk name (shard_of (normalize_path path))) (normalize_path path)) as [_ Hout].
      rewrite Hout by (by intros (? & _ & [=])).
      apply Hd1. eexists. split; [rewrite Hs1; apply shard_of_in_range|done].
    + rewrite lookup_delete_ne by done. apply Hd2.
      eexists. split; [rewrite Hs2; apply shard_of_in_range|done].
  - unfold get_repo_raw. cbn [repo_key]. unfold typed_get. run_steps.
    by rewrite lookup_delete_eq.
  - intros [ [t pk] sk] Hk Hp. rewrite lookup_delete_ne by done.
    destruct (Hd2 t pk sk) as [_ Hout2]. rewrite Hout2.
    + destruct (Hd1 t pk sk) as [_ Hout1]. apply Hout1. intros (s & Hs & Heq). apply Hp.
      exists s. rewrite Hs1 in Hs. split; [done|]. by left.
    + intros (s & Hs & Heq). apply Hp. exists s. rewrite Hs2 in Hs. split; [done|]. by right.
Qed.
Lemma run_send_progress b f w : ∃ w', run (send_progress b f) w = (Some tt, w') ∧
  w_kv w' = w_kv w ∧ same_env w w'.
Proof. destruct b; simpl; eexists; split; done. Qed.

Lemma counting_progress b : counting (λ counter n,
  let total := u64_add counter n in
  let* _ := send_progress b (tp_set_checked total) in Ret total).
Proof.
  intros c n w. destruct (run_send_progress b (tp_set_checked (u64_add c n)) w) as (w' & Hr & Hkv).
  exists w'. cbv zeta. rewrite run_bind, Hr. done.
Qed.

Lemma counting_plain : counting (λ counter n, Ret (u64_add counter n)).
Proof. intros c n w. by exists w. Qed.

(** The value of a key after the clone. *)
Definition cloned m (ksrc kdst : string * string * string) : option bytes :=
  (fst <$> m !! ksrc) ∪ (fst <$> m !! kdst).

Lemma copied_value_cloned t (src dst : N → string) m s sk :
  copied_value t src dst m s sk = cloned m (t, src s, sk) (t, dst s, sk).
Proof.
  unfold copied_value, cloned. destruct (m !! (t, src s, sk)) as [ [? ?]|]; simpl;
    by destruct (m !! (t, dst s, sk)).
Qed.

(** Cloning reserves the new name atomically and copies everything.  When
    the name is taken nothing happens and the caller is told; otherwise every
    artifact record and browse-tree entry of the source is found under the new
    name with the same value, whatever the completion order of the shards and
    the number of batches, the counts are the numbers of entries, the
    configuration is the source's with the new name and no deletion mark, and
    the source and every other repository are unchanged. *)
Theorem clone_repo_copies schedule1 schedule2 fuel source new_name total cancel progress_tx w b :
  rc_name source ≠ new_name → schedule1 ≡ₚ shard_range → schedule2 ≡ₚ shard_range →
  repo_fits (w_kv w) (rc_name source) fuel → cancel && w_cancelled w = false →
  to_vec_named (rc_clone source new_name (w_now w)) = inr b →
  match w_kv w !! repo_key new_name with
  | Some _ =>
      run (clone_repo schedule1 schedule2 fuel source new_name total cancel progress_tx) w =
        (Some (Ok None), w)
  | None =>
      ∃ w', run (clone_repo schedule1 schedule2 fuel source new_name total cancel progress_tx) w =
        (Some (Ok (Some (mkCloneStats
           (u64_wrap (Z.of_nat (length (concat ((λ shard,
              part (w_kv w) TABLE_ARTIFACTS (artifact_shard_pk (rc_name source) shard)) <$> schedule1)))))
           (u64_wrap (Z.of_nat (length (concat ((λ shard,
              part (w_kv w) TABLE_DIR_ENTRIES (tree_shard_pk (rc_name source) shard)) <$> schedule2)))))))), w') ∧
        fst <$> w_kv w' !! repo_key new_name = Some b ∧
        (∀ path,
          fst <$> w_kv w' !! artifact_key new_name path =
            cloned (w_kv w) (artifact_key (rc_name source) path) (artifact_key new_name path) ∧
          fst <$> w_kv w' !! tree_entry_key new_name path =
            cloned (w_kv w) (tree_entry_key (rc_name source) path) (tree_entry_key new_name path)) ∧
        ∀ k, k ≠ repo_key new_name → ¬ repo_partition new_name k.1 → w_kv w' !! k = w_kv w !! k
  end.
Proof.
  intros Hne Hs1 Hs2 Hfit Hc Hb. unfold clone_repo. rewrite run_bind. cbn [call run handle fst snd].
  cbn [repo_key]. unfold typed_put_if_absent. rewrite Hb. cbn [serde_result try_].
  rewrite run_bind_ok, (run_kv_spec (PutIfAbsent _ _ _ _)). cbn [spec_store fst snd].
  change (TABLE_REPOS, SINGLE_PK, new_name) with (repo_key new_name). unfold spec_put_if_version.
  destruct (w_kv w !! repo_key new_name) as [x|] eqn:Hx.
  { rewrite decide_False by done. cbn. by rewrite set_kv_id. }
  rewrite decide_True by done. cbn [fst snd negb from_option].
  set (m0 := <[repo_key new_name := _]> (w_kv w)).
  rewrite run_bind.
  destruct (run_send_progress progress_tx (tp_set_total_phase total "Copying artifacts") (set_kv m0 w))
    as (w1 & Hr1 & Hkv1 & He1).
  rewrite Hr1, run_bind_ok. cbn [w_kv set_kv] in Hkv1.
  assert (∀ t pk sk, t ≠ TABLE_REPOS → w_kv w1 !! (t, pk, sk) = w_kv w !! (t, pk, sk)) as Hm1.
  { intros t pk sk Ht. rewrite Hkv1. apply lookup_insert_ne. intros Heq. apply Ht. by injection Heq. }
  assert (∀ t pk, t ≠ TABLE_REPOS → part (w_kv w1) t pk = part (w_kv w) t pk) as Hp1.
  { intros t pk Ht. apply part_ext. intros sk. by apply Hm1. }
  assert (cancel && w_cancelled w1 = false) as Hc1.
  { destruct He1 as (_ & _ & _ & _ & ->). exact Hc. }
  destruct (copy_shards_spec fuel TABLE_ARTIFACTS (artifact_shard_pk (rc_name source))
    (artifact_shard_pk new_name) _ cancel (counting_progress progress_tx)
    (λ i j, shard_pk_ne _ _ i j Hne) (shard_pk_inj new_name) schedule1 0 w1) as (w2 & Hr2 & He2 & Hv2 & Ho2).
  { rewrite Hs1. apply NoDup_shard_range. }
  { eapply Forall_impl; [exact (repo_fits_perm _ _ _ _ Hs1 Hfit)|]. intros s [Hlt _]. by rewrite Hp1. }
  { exact Hc1. }
  { by_decide. }
  unfold clone_artifact_shard. unfold copy_shard in Hr2. rewrite Hr2, run_bind.
  assert (cancel && w_cancelled w2 = false) as Hc2.
  { destruct He2 as (_ & _ & _ & _ & ->). exact Hc1. }
  rewrite (run_is_cancelled cancel w2 Hc2). cbv iota. rewrite run_bind.
  destruct (run_send_progress progress_tx (tp_set_phase "Copying directory entries") w2) as (w3 & Hr3 & Hkv3 & He3).
  rewrite Hr3, run_bind_ok.
  destruct (copy_shards_spec fuel TABLE_DIR_ENTRIES (tree_shard_pk (rc_name source))
    (tree_shard_pk new_name) _ cancel counting_plain
    (λ i j, shard_pk_ne _ _ i j Hne) (shard_pk_inj new_name) schedule2 0 w3) as (w4 & Hr4 & He4 & Hv4 & Ho4).
  { rewrite Hs2. apply NoDup_shard_range. }
  { eapply Forall_impl; [exact (repo_fits_perm _ _ _ _ Hs2 Hfit)|]. intros s [_ Hlt].
    rewrite Hkv3. rewrite (part_ext _ (w_kv w1)), Hp1; [done|done|]. intros sk. apply Ho2. by intros ? _ [=]. }
  { destruct He3 as (_ & _ & _ & _ & ->). exact Hc2. }
  { by_decide. }
  unfold clone_tree_shard. unfold copy_shard in Hr4. rewrite Hr4. cbn [run]. exists w4. split_and!.
  - do 5 f_equal.
    + rewrite Z.add_0_l. do 4 f_equal. apply list_fmap_ext. intros ? ? _. by apply Hp1.
    + rewrite Z.add_0_l. do 4 f_equal. apply list_fmap_ext. intros ? ? _. rewrite Hkv3.
      etrans; [|by apply Hp1]. apply part_ext. intros sk. apply Ho2. by intros ? _ [=].
  - rewrite Ho4 by (intros ? _ [=]). rewrite Hkv3, Ho2 by (intros ? _ [=]). rewrite Hkv1. unfold m0.
    by rewrite lookup_insert_eq.
  - intros path. rewrite !artifact_key_shard, !tree_entry_key_shard. split.
    + rewrite Ho4 by (intros ? _ [=]). rewrite Hkv3, Hv2 by (rewrite Hs1; apply shard_of_in_range).
      rewrite copied_value_cloned. unfold cloned. by rewrite !Hm1.
    + rewrite Hv4 by (rewrite Hs2; apply shard_of_in_range).
      rewrite copied_value_cloned. unfold cloned. rewrite Hkv3, !Ho2 by (intros ? _ [=]). by rewrite !Hm1.
  - intros k Hk Hp. rewrite Ho4, Hkv3, Ho2, Hkv1.
    + unfold m0. by rewrite lookup_insert_ne.
    + intros s Hs Heq. apply Hp. exists s. rewrite Hs1 in Hs. auto.
    + intros s Hs Heq. apply Hp. exists s. rewrite Hs2 in Hs. auto.
Qed.

(** Deleting a repository hides it at once.  On an existing repository the
    call marks it, [get_repo] no longer finds it while [get_repo_raw], which
    the drain uses, still does with the mark; a second call reports success
    and changes nothing; on an absent one it reports [false].  The mark is
    written under the version that was read, so a configuration that was
    changed meanwhile is never overwritten. *)
Theorem delete_repo_hides name w :
  match w_kv w !! repo_key name with
  | None => run (delete_repo name) w = (Some (Ok false), w)
  | Some (b, v) =>
      ∀ c, from_slice b = inr c →
      if rc_deleting c then run (delete_repo name) w = (Some (Ok true), w)
      else ∀ b', to_vec (rc_set_deleting true c) = inr b' →
        rc_deleting (wire (rc_set_deleting true c)) = true →
        ∃ w', run (delete_repo name) w = (Some (Ok true), w') ∧
          w_kv w' = <[repo_key name := (b', u64_add v 1)]> (w_kv w) ∧
          run (get_repo name) w' = (Some (Ok None), w') ∧
          run (get_repo_raw name) w' = (Some (Ok (Some (wire (rc_set_deleting true c)))), w') ∧
          run (delete_repo name) w' = (Some (Ok true), w')
  end.
Proof.
  destruct (w_kv w !! repo_key name) as [ [b v]|] eqn:Hm.
  2:{ unfold delete_repo. cbn [repo_key]. unfold typed_get_versioned. run_steps.
      unfold repo_key in Hm. by rewrite Hm. }
  intros c Hc. destruct (rc_deleting c) eqn:Hd.
  { unfold delete_repo. cbn [repo_key]. unfold typed_get_versioned. run_steps.
    unfold repo_key in Hm. rewrite Hm. run_cbn. rewrite Hc. run_cbn. by rewrite Hd. }
  intros b' Hb' Hw. eexists (set_kv (<[repo_key name := (b', u64_add v 1)]> (w_kv w)) w). split_and!.
  - unfold delete_repo. cbn [repo_key]. unfold typed_get_versioned. run_steps.
    unfold repo_key in Hm. rewrite Hm. run_cbn. rewrite Hc. run_cbn. rewrite Hd, Hb'. run_steps.
    unfold spec_put_if_version. rewrite Hm, decide_True by done. done.
  - done.
  - unfold get_repo, get_repo_raw. cbn [repo_key]. unfold typed_get. run_steps.
    unfold repo_key. rewrite lookup_insert_eq. cbn [fmap option_fmap option_map fst]. run_cbn. rewrite (from_to_vec _ _ Hb'). run_cbn. by rewrite Hw.
  - unfold get_repo_raw. cbn [repo_key]. unfold typed_get. run_steps.
    unfold repo_key. rewrite lookup_insert_eq. cbn [fmap option_fmap option_map fst]. run_cbn. by rewrite (from_to_vec _ _ Hb').
  - unfold delete_repo at 1. cbn [repo_key]. unfold typed_get_versioned. run_steps.
    unfold repo_key. rewrite lookup_insert_eq. cbn [fmap option_fmap option_map fst]. run_cbn. rewrite (from_to_vec _ _ Hb'). run_cbn. by rewrite Hw.
Qed.
End properties.

(** ** Staleness *)

Section staleness.
Context `{Blake3} `{Serde RepoConfig} `{Serde ArtifactRecord} `{Serde TreeEntry} `{UuidGen}.
Implicit Types (m : kvmap) (w : world kvmap).

(** [p] is a proxy of the format that has [x] among its members. *)
Definition parent_of (repos : list RepoConfig) (format : ArtifactFormat) (x p : string) : Prop :=
  ∃ c members wm, c ∈ repos ∧ repo_format c = format ∧ rc_kind c = Proxy members wm ∧
    x ∈ members ∧ rc_name c = p.

Lemma elem_of_push_parent members name x p (acc : gmap string (list string)) :
  p ∈ default [] (foldl (λ acc member, <[member := default [] (acc !! member) ++ [name]]> acc) acc members !! x) ↔
  p ∈ default [] (acc !! x) ∨ (x ∈ members ∧ p = name).
Proof.
  revert acc. induction members as [|mem members IH]; intros acc; cbn [foldl].
  { rewrite elem_of_nil. tauto. }
  rewrite IH, elem_of_cons. destruct (decide (mem = x)) as [->|Hne].
  - rewrite lookup_insert_eq. simpl. rewrite elem_of_app, list_elem_of_singleton. tauto.
  - rewrite lookup_insert_ne by done. intuition congruence.
Qed.

Lemma elem_of_member_to_proxies format repos x p :
  p ∈ default [] (member_to_proxies format repos !! x) ↔ parent_of repos format x p.
Proof.
  unfold member_to_proxies.
  enough (∀ acc : gmap string (list string), p ∈ default [] (foldl (λ acc config,
    if decide (repo_format config ≠ format) then acc
    else match rc_kind config with
         | Proxy members _ =>
             foldl (λ acc member, <[member := default [] (acc !! member) ++ [rc_name config]]> acc)
               acc members
         | _ => acc
         end) acc repos !! x) ↔ p ∈ default [] (acc !! x) ∨ parent_of repos format x p) as Hgo.
  { rewrite Hgo, lookup_empty. simpl. rewrite elem_of_nil. tauto. }
  induction repos as [|c repos IH]; intros acc; cbn [foldl].
  { unfold parent_of. split; [tauto|]. intros [?|(c & ms & wm & Hc & _)]; [done|]. by apply elem_of_nil in Hc. }
  rewrite IH. clear IH.
  assert (parent_of (c :: repos) format x p ↔
    (repo_format c = format ∧ ∃ ms wm, rc_kind c = Proxy ms wm ∧ x ∈ ms ∧ rc_name c = p) ∨
    parent_of repos format x p) as ->.
  { unfold parent_of. split.
    - intros (c' & ms & wm & [->|Hc]%elem_of_cons & ?); [left|right]; naive_solver.
    - intros [(? & ms & wm & ?)|(c' & ms & wm & ?)]; [exists c, ms, wm|exists c', ms, wm];
        rewrite elem_of_cons; naive_solver. }
  case_decide as Hf.
  { split; [tauto|]. intros [?|[ [? _]|?] ]; [tauto|done|tauto]. }
  destruct (rc_kind c) as [|? ? ?|ms wm] eqn:Ek.
  - split; [tauto|]. intros [?|[(_ & ? & ? & ? & _)|?] ]; [tauto|done|tauto].
  - split; [tauto|]. intros [?|[(_ & ? & ? & ? & _)|?] ]; [tauto|done|tauto].
  - rewrite elem_of_push_parent. split.
    + intros [ [?|[? ->] ]|?]; [tauto| |tauto]. right. left. split; [done|]. by exists ms, wm.
    + intros [?|[(_ & ms' & wm' & [= <- <-] & ? & <-)|?] ]; tauto.
Qed.

Context (stale_path : string) (flag : ArtifactRecord).

(** The flags of a list of repositories, one after the other. *)
Definition flag_all w (l : list string) : world kvmap :=
  foldl (λ w p, (run (put_artifact_if_absent p stale_path flag) w).2) w l.

Lemma flag_total p w : ∃ r, run (put_artifact_if_absent p stale_path flag) w =
  (Some r, (run (put_artifact_if_absent p stale_path flag) w).2).
Proof.
  unfold put_artifact_if_absent. destruct (artifact_key p stale_path) as [ [t pk] sk].
  rewrite run_bind, run_prepare. destruct (to_vec _) as [e|b]; cbn [serde_result try_]; [by eexists|].
  rewrite run_bind_ok, (run_kv_spec (PutIfAbsent _ _ _ _)).
  cbn [spec_store]. destruct (spec_put_if_version _ _ _ _) as [ [|] k]; cbn [fst snd].
  - rewrite !run_bind, run_upsert. by eexists.
  - by eexists.
Qed.

Lemma run_visit_parents parents visited queue w :
  ∃ new, run (visit_parents stale_path flag parents visited queue) w =
      (Some (list_to_set new ∪ visited, queue ++ new), flag_all w new) ∧
    NoDup new ∧ ∀ p, p ∈ new ↔ p ∈ parents ∧ (p ∉ visited).
Proof.
  revert visited queue w. induction parents as [|p parents IH]; intros visited queue w; cbn [visit_parents].
  { exists []. rewrite app_nil_r. assert (list_to_set [] ∪ visited = visited) as -> by set_solver.
    split_and!; [done|constructor|set_solver]. }
  case_decide as Hp.
  - destruct (IH visited queue w) as (new & Hr & Hnd & Hin). exists new.
    split_and!; [done|done|]. intros q. rewrite Hin, elem_of_cons. split; [tauto|].
    intros [ [->|?] ?]; tauto.
  - rewrite run_bind. destruct (flag_total p w) as [r Hr]. rewrite Hr.
    set (w1 := (run (put_artifact_if_absent p stale_path flag) w).2).
    destruct (IH ({[p]} ∪ visited) (queue ++ [p]) w1) as (new & Hr' & Hnd & Hin).
    exists (p :: new). split_and!.
    + rewrite Hr', <-(assoc_L (++)).
      assert (list_to_set new ∪ ({[p]} ∪ visited) = list_to_set (p :: new) ∪ visited) as -> by set_solver. done.
    + constructor; [|done]. rewrite Hin. set_solver.
    + intros q. rewrite !elem_of_cons, Hin, elem_of_union, elem_of_singleton.
      destruct (decide (q = p)) as [->|]; tauto.
Qed.

Context (proxies : gmap string (list string)).

Definition edge (x p : string) : Prop := p ∈ default [] (proxies !! x).

Lemma flag_all_app w l1 l2 : flag_all w (l1 ++ l2) = flag_all (flag_all w l1) l2.
Proof. apply foldl_app. Qed.

Lemma run_visit_level q1 q2 visited w :
  ∃ new, run (visit_level (length q1) proxies stale_path flag visited (q1 ++ q2)) w =
      (Some (list_to_set new ∪ visited, q2 ++ new), flag_all w new) ∧
    NoDup new ∧ ∀ p, p ∈ new ↔ (p ∉ visited) ∧ ∃ x, x ∈ q1 ∧ edge x p.
Proof.
  revert q2 visited w. induction q1 as [|x q1 IH]; intros q2 visited w.
  { exists []. cbn [length app visit_level]. rewrite app_nil_r.
    assert (list_to_set [] ∪ visited = visited) as -> by set_solver.
    split_and!; [by destruct q2|constructor|set_solver]. }
  cbn [length visit_level app]. rewrite run_bind.
  destruct (run_visit_parents (default [] (proxies !! x)) visited (q1 ++ q2) w) as (n1 & Hr1 & Hnd1 & Hin1).
  assert (run (match proxies !! x with
               | Some parents => visit_parents stale_path flag parents visited (q1 ++ q2)
               | None => Ret (visited, q1 ++ q2)
               end) w = (Some (list_to_set n1 ∪ visited, (q1 ++ q2) ++ n1), flag_all w n1)) as ->.
  { destruct (proxies !! x); [done|]. exact Hr1. }
  cbn [fst snd]. rewrite <-(assoc_L (++)).
  destruct (IH (q2 ++ n1) (list_to_set n1 ∪ visited) (flag_all w n1)) as (n2 & Hr2 & Hnd2 & Hin2).
  exists (n1 ++ n2). split_and!.
  - rewrite Hr2, flag_all_app, (assoc_L (++)).
    assert (list_to_set n2 ∪ (list_to_set n1 ∪ visited) = list_to_set (n1 ++ n2) ∪ visited) as -> by set_solver.
    done.
  - apply NoDup_app. split_and!; [done| |done]. intros p Hp Hp2. apply Hin2 in Hp2 as [Hp2 _]. set_solver.
  - intros p. rewrite elem_of_app, Hin2, Hin1, elem_of_union, elem_of_list_to_set, Hin1. unfold edge. split.
    + intros [ [Hp Hv]|[Hv (y & Hy & He)] ].
      * split; [done|]. exists x. split; [by left|done].
      * split; [tauto|]. exists y. split; [by right|done].
    + intros [Hv (y & [->|Hy]%elem_of_cons & He)]; [tauto|].
      destruct (decide (p ∈ default [] (proxies !! x))); [tauto|]. right. split; [tauto|]. by exists y.
Qed.
(** What the search has seen after [k] levels: the ancestors at most [k] edges
    away; the ones in the queue are [k] edges away and are the only ones
    whose parents may be missing. *)
Definition bfs_inv (source : string) (k : nat) (visited : gset string) (queue : list string) : Prop :=
  (∀ p, p ∈ visited ↔ ∃ j, 1 ≤ j ≤ k ∧ nsteps edge j source p) ∧
  (∀ p, p ∈ queue → nsteps edge k source p) ∧
  (∀ p, p = source ∨ p ∈ visited → p ∈ queue ∨ ∀ q, edge p q → q ∈ visited).

Lemma bfs_inv_step source k visited queue new :
  bfs_inv source k visited queue →
  (∀ p, p ∈ new ↔ (p ∉ visited) ∧ ∃ x, x ∈ queue ∧ edge x p) →
  bfs_inv source (S k) (list_to_set new ∪ visited) new.
Proof.
  intros (Hv & Hq & Hcl) Hnew. split_and!.
  - intros p. rewrite elem_of_union, elem_of_list_to_set. split.
    + intros [ [_ (x & Hx & He)]%Hnew|(j & Hj & Hn)%Hv].
      * exists (S k). split; [lia|]. eapply nsteps_r; [by apply Hq|done].
      * exists j. split; [lia|done].
    + intros (j & Hj & Hn). destruct (decide (p ∈ visited)) as [|Hp]; [by right|]. left. apply Hnew.
      split; [done|]. destruct (decide (j = S k)) as [->|]; [|destruct Hp; apply Hv; exists j; split; [lia|done] ].
      apply nsteps_inv_r in Hn as (x & Hx & He). exists x. split; [|done].
      destruct (Hcl x) as [|Hall]; [|done|by destruct Hp; apply Hall].
      destruct k as [|k]; [left; by inversion Hx|]. right. apply Hv. exists (S k). split; [lia|done].
  - intros p [_ (x & Hx & He)]%Hnew. eapply nsteps_r; [by apply Hq|done].
  - intros p Hp. destruct (decide (p ∈ new)) as [|Hn]; [by left|]. right. intros q He.
    rewrite elem_of_union, elem_of_list_to_set. destruct (decide (q ∈ visited)) as [|Hq']; [by right|].
    left. apply Hnew. split; [done|]. exists p. split; [|done].
    destruct (Hcl p) as [|Hall]; [|done|by destruct Hq'; apply Hall].
    destruct Hp as [|Hp]; [by left|]. right. rewrite elem_of_union, elem_of_list_to_set in Hp. tauto.
Qed.

(** Nothing is missing once the queue is empty. *)
Lemma bfs_inv_closed source k visited n p :
  bfs_inv source k visited [] → 1 ≤ n → nsteps edge n source p → p ∈ visited.
Proof.
  intros (_ & _ & Hcl) Hn. revert p. induction n as [|n IH]; intros p Hp; [lia|].
  apply nsteps_inv_r in Hp as (x & Hx & He).
  destruct (Hcl x) as [Hx'|Hall]; [|by apply elem_of_nil in Hx'|by apply Hall].
  destruct n as [|n]; [left; by inversion Hx|]. right. apply IH; [lia|done].
Qed.

Lemma run_visit_levels source levels k visited queue w :
  bfs_inv source k visited queue →
  ∃ new, run (visit_levels levels proxies stale_path flag visited queue) w =
      (Some tt, flag_all w new) ∧ NoDup new ∧
    ∀ p, p ∈ new ↔ (p ∉ visited) ∧ ∃ n, 1 ≤ n ≤ k + levels ∧ nsteps edge n source p.
Proof.
  revert k visited queue w. induction levels as [|levels IH]; intros k visited queue w Hinv; cbn [visit_levels].
  { exists []. split_and!; [by destruct queue|constructor|]. intros p. rewrite elem_of_nil.
    split; [done|]. intros [Hp (n & Hn & Hs)]. destruct Hinv as (Hv & _). destruct Hp. apply Hv.
    exists n. split; [lia|done]. }
  destruct queue as [|x queue].
  { exists []. split_and!; [done|constructor|]. intros p. rewrite elem_of_nil.
    split; [done|]. intros [Hp (n & Hn & Hs)]. destruct Hp. eapply bfs_inv_closed; [done| |done]. lia. }
  rewrite run_bind. destruct (run_visit_level (x :: queue) [] visited w) as (n1 & Hr1 & Hnd1 & Hin1).
  rewrite app_nil_r in Hr1. rewrite Hr1. cbn [fst snd app].
  pose proof (bfs_inv_step _ _ _ _ _ Hinv Hin1) as Hinv1.
  destruct (IH _ _ _ (flag_all w n1) Hinv1) as (n2 & Hr2 & Hnd2 & Hin2).
  exists (n1 ++ n2). split_and!.
  - by rewrite Hr2, flag_all_app.
  - apply NoDup_app. split_and!; [done| |done]. intros p Hp Hp2. apply Hin2 in Hp2 as [Hp2 _]. set_solver.
  - intros p. rewrite elem_of_app, Hin2, elem_of_union, elem_of_list_to_set.
    replace (S k + levels) with (k + S levels) by lia.
    destruct (decide (p ∈ n1)) as [Hp|Hp]; [|tauto]. split; [|tauto]. intros _.
    split; [by apply Hin1 in Hp as [? _]|]. destruct Hinv1 as (Hv1 & _).
    destruct (proj1 (Hv1 p)) as (j & Hj & Hs); [set_solver|]. exists j. split; [lia|done].
Qed.

(** What one flag does to a key. *)
Lemma flag_one_cases p w k :
  let w' := (run (put_artifact_if_absent p stale_path flag) w).2 in
  w_kv w' !! k = w_kv w !! k ∨
  (is_Some (w_kv w' !! k) ∧
   (k = artifact_key p stale_path ∧ w_kv w !! k = None ∨ k = tree_entry_key p stale_path)).
Proof.
  unfold put_artifact_if_absent. destruct (artifact_key p stale_path) as [ [t pk] sk] eqn:Ek.
  rewrite run_bind, run_prepare. destruct (to_vec _) as [e|b]; cbn [serde_result try_].
  { left. cbn [run snd]. by rewrite w_kv_after_prepare. }
  rewrite run_bind_ok, (run_kv_spec (PutIfAbsent _ _ _ _)). cbn [spec_store].
  unfold spec_put_if_version. case_decide as Hv; cbn [fst snd].
  - rewrite run_bind, run_upsert. cbn [run snd w_kv set_kv]. rewrite w_kv_after_prepare.
    rewrite w_kv_after_prepare in Hv.
    assert (w_kv w !! (t, pk, sk) = None) as Habs by by destruct (w_kv w !! (t, pk, sk)).
    destruct (decide (k = tree_entry_key p stale_path)) as [->|Hk].
    + unfold tree_put. destruct (to_vec _).
      * left. rewrite lookup_insert_ne; [done|]. rewrite <-Ek. apply artifact_tree_key_ne.
      * right. unfold spec_put. rewrite lookup_insert_eq. split; [by eexists|by right].
    + rewrite tree_put_lookup by done. destruct (decide ((t, pk, sk) = k)) as [<-|Hne].
      * right. rewrite lookup_insert_eq. split; [by eexists|]. left. done.
      * left. by rewrite lookup_insert_ne.
  - left. cbn [run snd w_kv set_kv]. by rewrite w_kv_after_prepare.
Qed.

Lemma flag_one_present p w :
  (∀ id accessed, is_ok (serde_result (to_vec (ar_prepared flag id accessed stale_path))) = true) →
  is_Some (w_kv (run (put_artifact_if_absent p stale_path flag) w).2 !! artifact_key p stale_path).
Proof.
  intros Hser. unfold put_artifact_if_absent. destruct (artifact_key p stale_path) as [ [t pk] sk] eqn:Ek.
  rewrite run_bind, run_prepare. unfold stored_record at 1.
  match goal with |- context [to_vec (ar_prepared flag ?id ?acc _)] => pose proof (Hser id acc) as Hok end.
  destruct (to_vec _) as [e|b]; [done|]. cbn [serde_result try_].
  rewrite run_bind_ok, (run_kv_spec (PutIfAbsent _ _ _ _)). cbn [spec_store].
  unfold spec_put_if_version. case_decide as Hv; cbn [fst snd].
  - rewrite run_bind, run_upsert. cbn [run snd w_kv set_kv].
    rewrite tree_put_lookup, lookup_insert_eq; [by eexists|]. rewrite <-Ek. apply artifact_tree_key_ne.
  - cbn [bind run snd w_kv set_kv]. apply not_eq_None_Some. intros Hn. by rewrite Hn in Hv.
Qed.

Lemma flag_all_cons w p l :
  flag_all w (p :: l) = flag_all (run (put_artifact_if_absent p stale_path flag) w).2 l.
Proof. done. Qed.

(** No key is removed, artifact records are kept as they are, and only the
    flags' keys change. *)
Lemma flag_all_keeps w l k :
  (is_Some (w_kv w !! k) → is_Some (w_kv (flag_all w l) !! k)) ∧
  (∀ x, k.1.1 = TABLE_ARTIFACTS → w_kv w !! k = Some x → w_kv (flag_all w l) !! k = Some x) ∧
  ((∀ p, p ∈ l → k ≠ artifact_key p stale_path ∧ k ≠ tree_entry_key p stale_path) →
   w_kv (flag_all w l) !! k = w_kv w !! k).
Proof.
  revert w. induction l as [|p l IH]; intros w; [done|]. rewrite flag_all_cons.
  destruct (IH (run (put_artifact_if_absent p stale_path flag) w).2) as (H1' & H2' & H3').
  pose proof (flag_one_cases p w k) as Hc. cbv zeta in Hc. split_and!.
  - intros Hk. apply H1'. destruct Hc as [->|[? _] ]; done.
  - intros x Ht Hk. apply H2'; [done|]. destruct Hc as [->|[_ [ [_ Hn] | -> ] ] ]; [done|congruence|done].
  - intros Hall. rewrite H3' by (intros; apply Hall; by right).
    destruct (Hall p ltac:(by left)) as [? ?]. destruct Hc as [?|[_ [ [? _]|?] ] ]; done.
Qed.

Lemma flag_all_present w l p :
  (∀ id accessed, is_ok (serde_result (to_vec (ar_prepared flag id accessed stale_path))) = true) →
  p ∈ l → is_Some (w_kv (flag_all w l) !! artifact_key p stale_path).
Proof.
  intros Hser. revert w. induction l as [|q l IH]; intros w Hp; [by apply elem_of_nil in Hp|].
  rewrite flag_all_cons. apply elem_of_cons in Hp as [->|Hp]; [|by apply IH].
  apply flag_all_keeps. by apply flag_one_present.
Qed.
End staleness.

(** The repositories as the listing reads them. *)
Definition stored_repos `{Serde RepoConfig} (m : kvmap) : result (list RepoConfig) :=
  decode_all (items (scan_of (filter (λ x, starts_with x.1 "" = true)
    (part m TABLE_REPOS SINGLE_PK)) ADMIN_ENTITY_CAP)).

Section repo_lists.
Context `{Serde RepoConfig} `{UuidGen}.
Implicit Types w : world kvmap.

Lemma run_list_repos_raw w : run list_repos_raw w = (Some (stored_repos (w_kv w)), w).
Proof. unfold list_repos_raw, typed_list. run_steps. done. Qed.

Lemma run_list_repos w : run list_repos w =
  (Some (match stored_repos (w_kv w) with
         | Ok repos => Ok (filter (λ r, rc_deleting r = false) repos) | Err e => Err e end), w).
Proof.
  unfold list_repos. rewrite run_bind_ok. unfold typed_list. run_steps.
  change (decode_all _) with (stored_repos (w_kv w)). by destruct (stored_repos (w_kv w)).
Qed.
End repo_lists.

(** Staleness reaches exactly the ancestors.  Through any graph of proxies,
    cyclic or not, the flag is put once in each live proxy of the format that
    is between one and eight membership edges above the source, and in no
    other repository; the search terminates; a flag (or any artifact) that is
    already there keeps its record, and nothing else in the store changes. *)
Theorem propagate_staleness_flags `{Blake3} `{Serde RepoConfig} `{Serde ArtifactRecord}
    `{Serde TreeEntry} `{UuidGen} (source stale_path : string) (format : ArtifactFormat)
    (w : world kvmap) (repos : list RepoConfig) :
  stored_repos (w_kv w) = Ok repos →
  (∀ id accessed, is_ok (serde_result (to_vec
     (ar_prepared (stale_flag format (w_now w)) id accessed stale_path))) = true) →
  ∃ flagged w', run (propagate_staleness source format stale_path) w = (Some (Ok tt), w') ∧
    NoDup flagged ∧
    (∀ p, p ∈ flagged ↔ ∃ n, 1 ≤ n ≤ 8 ∧
      nsteps (parent_of (filter (λ r, rc_deleting r = false) repos) format) n source p) ∧
    (∀ p, p ∈ flagged → is_Some (w_kv w' !! artifact_key p stale_path)) ∧
    (∀ k x, k.1.1 = TABLE_ARTIFACTS → w_kv w !! k = Some x → w_kv w' !! k = Some x) ∧
    ∀ k, (∀ p, p ∈ flagged → k ≠ artifact_key p stale_path ∧ k ≠ tree_entry_key p stale_path) →
      w_kv w' !! k = w_kv w !! k.
Proof.
  intros Hrepos Hser. unfold propagate_staleness, list_repos, typed_list.
  rewrite !run_bind_ok, run_kv_spec. cbn [spec_store fst snd run]. rewrite set_kv_id.
  unfold stored_repos in Hrepos. rewrite Hrepos. rewrite run_bind. cbn [call run handle fst snd].
  set (live := filter _ repos). rewrite run_bind.
  destruct (run_visit_levels stale_path (stale_flag format (w_now w)) (member_to_proxies format live)
    source 8 0 ∅ [source] w) as (flagged & Hr & Hnd & Hin).
  { split_and!.
    - intros p. rewrite elem_of_empty. split; [done|]. intros (j & ? & _). lia.
    - intros p ->%list_elem_of_singleton. constructor.
    - intros p [->|Hp]; [left; by left|set_solver]. }
  cbv zeta. rewrite Hr. exists flagged, (flag_all stale_path (stale_flag format (w_now w)) w flagged).
  split_and!; [done|done| | | |].
  - intros p. rewrite Hin. split.
    + intros (_ & n & Hn & Hs). exists n. split; [done|]. revert Hs.
      apply (nsteps_congruence (λ z, z)). intros x y. apply elem_of_member_to_proxies.
    + intros (n & Hn & Hs). split; [set_solver|]. exists n. split; [done|]. revert Hs.
      apply (nsteps_congruence (λ z, z)). intros x y. apply elem_of_member_to_proxies.
  - intros p Hp. by apply flag_all_present.
  - intros k x. apply flag_all_keeps.
  - intros k. apply flag_all_keeps.
Qed.

(** ** Witnesses *)

Definition toy_repo (name : string) (kind : RepoKind) (deleting : bool) : RepoConfig :=
  mkRepoConfig 5 name kind (CRaw None) "s" 0%Z None None deleting.

Definition toy_repos : list RepoConfig :=
  [toy_repo "r" Hosted false; toy_repo "p1" (Proxy ["r"] None) false;
   toy_repo "p2" (Proxy ["p1"; "p2"] None) false; toy_repo "r2" Hosted false].

Definition toy_rc_serde : Serde RepoConfig := table_serde toy_repos.

Definition toy_repo_world : world kvmap :=
  let _ := toy_rc_serde in
  set_kv (<[repo_key "r" := ("0", 1%Z)]> (<[repo_key "p1" := ("1", 1%Z)]>
    (<[repo_key "p2" := ("2", 1%Z)]> toy_store))) toy_world.

Lemma toy_repo_fits : repo_fits (w_kv toy_repo_world) "r" 5.
Proof. unfold repo_fits. by_decide. Qed.

Lemma drain_deleting_repo_exact_witness :
  let _ := toy_blake3 in let _ := toy_rc_serde in let _ := toy_uuid in
  ∃ m', run (drain_deleting_repo (reverse shard_range) shard_range 5 "r") toy_repo_world =
    (Some (Ok tt), set_kv m' toy_repo_world) ∧
    m' !! artifact_key "r" "a/x" = None ∧ m' !! repo_key "p1" = Some ("1", 1%Z).
Proof.
  intros ? ? ?.
  destruct (@drain_deleting_repo_exact toy_blake3 toy_rc_serde toy_uuid (reverse shard_range) shard_range 5 "r"
    toy_repo_world) as (m' & Hr & Hgone & _ & Hkeep).
  - apply reverse_Permutation.
  - reflexivity.
  - exact toy_repo_fits.
  - exists m'. split; [exact Hr|]. split; [apply (Hgone "a/x")|].
    rewrite Hkeep; [reflexivity|discriminate|]. intros (s2 & _ & [Heq|Heq]); discriminate.
Defined.

Lemma clone_repo_copies_witness :
  let _ := toy_blake3 in let _ := toy_rc_serde in let _ := toy_uuid in
  let _ := toy_ar_serde in let _ := toy_te_serde in
  ∃ w' stats, run (clone_repo shard_range shard_range 5 (toy_repo "r" Hosted false) "r2" 4 true true)
      toy_repo_world = (Some (Ok (Some stats)), w') ∧
    fst <$> w_kv w' !! artifact_key "r2" "a/x" = Some "0".
Proof.
  intros ? ? ? ? ?.
  pose proof (@clone_repo_copies toy_blake3 toy_rc_serde toy_uuid shard_range shard_range 5
    (toy_repo "r" Hosted false) "r2" 4%Z true true toy_repo_world "3" ltac:(discriminate) (reflexivity _)
    (reflexivity _) toy_repo_fits eq_refl eq_refl) as Hc.
  assert (w_kv toy_repo_world !! repo_key "r2" = None) as Hfree by (vm_compute; reflexivity).
  rewrite Hfree in Hc. destruct Hc as (w' & Hr & _ & Hcopy & _). eexists w', _. split; [exact Hr|].
  refine (eq_trans (proj1 (Hcopy "a/x")) _). vm_compute. reflexivity.
Defined.

Lemma propagate_staleness_flags_witness :
  let _ := toy_blake3 in let _ := toy_rc_serde in let _ := toy_uuid in
  let _ := constant_serde (toy_artifact "b" 4) in let _ := toy_te_serde in
  ∃ w', run (propagate_staleness "r" FRaw "_raw/stale") toy_repo_world = (Some (Ok tt), w') ∧
    is_Some (w_kv w' !! artifact_key "p2" "_raw/stale").
Proof.
  intros ? ? ? ? ?.
  destruct (@propagate_staleness_flags toy_blake3 toy_rc_serde (constant_serde (toy_artifact "b" 4))
    toy_te_serde toy_uuid "r" "_raw/stale" FRaw toy_repo_world
    [toy_repo "p1" (Proxy ["r"] None) false; toy_repo "p2" (Proxy ["p1"; "p2"] None) false;
     toy_repo "r" Hosted false]) as (flagged & w' & Hr & _ & Hin & Hthere & _).
  - vm_compute. reflexivity.
  - reflexivity.
  - exists w'. split; [exact Hr|]. apply Hthere, Hin. exists 2. split; [lia|].
    apply (nsteps_l _ _ _ "p1").
    + exists (toy_repo "p1" (Proxy ["r"] None) false), ["r"], None.
      split; [by_decide|]. split; [reflexivity|]. split; [reflexivity|]. split; [by_decide|reflexivity].
    + apply (nsteps_l _ _ _ "p2"); [|constructor].
      exists (toy_repo "p2" (Proxy ["p1"; "p2"] None) false), ["p1"; "p2"], None.
      split; [by_decide|]. split; [reflexivity|]. split; [reflexivity|]. split; [by_decide|reflexivity].
Defined.
