(* ===== verification/Directory.v ===== *)
(** * Directories and repository statistics (core/src/service/directory.rs)

    The browse listing of a directory and the statistics of a repository,
    which for a proxy are summed over the members it reaches. *)

From S2P Require Import Prelude Bytes Errors Keys Records Kv Prog Scan Pagination Artifact Repo.

(** [DirEntry] of a directory's tree entry. *)
Definition dir_entry_of (artifact_count total_bytes : Z) (te : TreeEntry) : DirEntry :=
  mkDirEntry CURRENT_RECORD_VERSION artifact_count total_bytes
    (te_last_modified_at te) (te_last_accessed_at te).

Section directory.
Context `{Blake3} `{Serde TreeEntry} `{Serde RepoConfig}.

(** core/src/service/directory.rs:14-40 *)
Definition get_dir (repo dir_path : string) : prog (result (option DirEntry)) :=
  let clean := trim_matches SLASH dir_path in
  let '(_, pk, sk) := tree_entry_key repo clean in
  let*? o := kv (Get TABLE_DIR_ENTRIES pk sk) in
  match o with
  | Some bytes =>
      let! te := serde_result (from_slice bytes) in
      match te_kind te with
      | TDir artifact_count total_bytes =>
          Ret (Ok (Some (dir_entry_of artifact_count total_bytes te)))
      | TFile _ _ _ _ _ _ => Ret (Ok None)
      end
  | None => Ret (Ok None)
  end.

(** The callback: the directories and the files seen so far. *)
(** core/src/service/directory.rs:63-88 *)
Definition collect_child (st : list (string * DirEntry) * list (string * TreeEntry))
    (sk : string) (value : bytes) :
    result (bool * (list (string * DirEntry) * list (string * TreeEntry))) :=
  let '(dirs, files) := st in
  let name := tree_sk_name sk in
  let? te := serde_result (from_slice value) in
  match te_kind te with
  | TDir artifact_count total_bytes =>
      Ok (true, (dirs ++ [(name, dir_entry_of artifact_count total_bytes te)], files))
  | TFile _ _ _ _ _ _ => Ok (true, (dirs, files ++ [(name, te)]))
  end.

(** core/src/service/directory.rs:46-96 *)
Definition list_children (fuel : nat) (repo prefix : string) : prog (result ChildrenResult) :=
  let clean := trim_end SLASH prefix in
  let pk := tree_children_pk repo clean in
  let sk_prefix := tree_children_sk_prefix clean in
  let*? st := for_each_in_partition collect_child fuel TABLE_DIR_ENTRIES pk sk_prefix
    SCAN_BATCH_SIZE ([], []) in
  let dirs := merge_sort sk_le st.1 in
  let files := merge_sort sk_le st.2 in
  Ret (Ok (dirs, files)).

(** [total.artifact_count += ...; total.total_bytes += ...]. *)
Definition add_stats (total : RepoStats) (de : DirEntry) : RepoStats :=
  mkRepoStats (u64_add (rs_artifact_count total) (de_artifact_count de))
    (u64_add (rs_total_bytes total) (de_total_bytes de)).

(** [RepoStats::default()]. *)
Definition zero_stats : RepoStats := mkRepoStats 0 0.

(** [fuel] bounds the nesting of proxies; the state is the total and the names
    visited. *)
(** core/src/service/directory.rs:116-145 *)
Fixpoint aggregate_proxy_stats (fuel : nat) (members : list string)
    (st : RepoStats * gset string) : prog (result (RepoStats * gset string)) :=
  match fuel with
  | O => Spin
  | S fuel =>
      try_fold members (λ st member_name,
        let '(total, visited) := st in
        if decide (member_name ∈ visited) then Ret (Ok (total, visited))
        else
          let visited := {[member_name]} ∪ visited in
          let*? o := get_repo member_name in
          match o with
          | Some member_config =>
              match rc_kind member_config with
              | Proxy nested _ => aggregate_proxy_stats fuel nested (total, visited)
              | _ =>
                  let*? d := get_dir member_name "" in
                  match d with
                  | Some de => Ret (Ok (add_stats total de, visited))
                  | None => Ret (Ok (total, visited))
                  end
              end
          | None => Ret (Ok (total, visited))
          end) st
  end.

(** core/src/service/directory.rs:98-114 *)
Definition get_repo_stats (fuel : nat) (config : RepoConfig) : prog (result RepoStats) :=
  match rc_kind config with
  | Proxy members _ =>
      let*? st := aggregate_proxy_stats fuel members (zero_stats, ∅) in
      Ret (Ok st.1)
  | _ =>
      let*? d := get_dir (rc_name config) "" in
      match d with
      | Some de => Ret (Ok (mkRepoStats (de_artifact_count de) (de_total_bytes de)))
      | None => Ret (Ok zero_stats)
      end
  end.
End directory.

(** ** Listing a directory *)

Section listing.
Context `{Blake3} `{Serde TreeEntry} `{Serde RepoConfig} `{UuidGen}.
Implicit Types (m : kvmap) (w : world kvmap).

(** The tree of a repository has only entries that [tree_entry_key] made. *)
Definition tree_placed m (repo : string) : Prop :=
  ∀ shard sk v, shard ∈ shard_range → m !! (TABLE_DIR_ENTRIES, tree_shard_pk repo shard, sk) = Some v →
    ∃ c, canonical c ∧ has_char NUL c = false ∧
      tree_entry_key repo c = (TABLE_DIR_ENTRIES, tree_shard_pk repo shard, sk).

(** The entries under a directory, decoded, by name. *)
Definition child_name (x : string * TreeEntry) : string * TreeEntry := (tree_sk_name x.1, x.2).

Definition as_dir (x : string * TreeEntry) : option (string * DirEntry) :=
  match te_kind x.2 with
  | TDir n b => Some (x.1, dir_entry_of n b x.2)
  | TFile _ _ _ _ _ _ => None
  end.

Definition as_file (x : string * TreeEntry) : option (string * TreeEntry) :=
  match te_kind x.2 with TDir _ _ => None | TFile _ _ _ _ _ _ => Some x end.

Lemma fold_collect_child es ds dirs files :
  decode_pairs es = Ok ds →
  fold_until collect_child es (dirs, files) =
    Ok (dirs ++ omap as_dir (child_name <$> ds), files ++ omap as_file (child_name <$> ds)).
Proof.
  revert ds dirs files. induction es as [|[sk v] es IH]; intros ds dirs files Hds; simpl in Hds |- *.
  { simplify_eq/=. by rewrite !app_nil_r. }
  destruct (serde_result (from_slice v)) as [te|]; simpl in *; [|done].
  destruct (decode_pairs es) as [ds'|] eqn:E; simplify_eq/=.
  unfold as_dir at 1, as_file at 1. simpl.
  destruct (te_kind te); rewrite (IH ds') by done; by rewrite <-(assoc_L (++)).
Qed.

Lemma elem_of_decode_pairs {T} `{Serde T} es (ds : list (string * T)) sk x :
  decode_pairs es = Ok ds →
  (sk, x) ∈ ds ↔ ∃ v, (sk, v) ∈ es ∧ serde_result (from_slice v) = Ok x.
Proof.
  revert ds. induction es as [|[sk' v'] es IH]; intros ds Hds; simpl in Hds.
  { simplify_eq. rewrite elem_of_nil. split; [done|]. intros (v & Hv & _). by apply elem_of_nil in Hv. }
  destruct (serde_result (from_slice v')) as [y|] eqn:Ey; simpl in *; [|done].
  destruct (decode_pairs es) as [ds'|] eqn:E; simplify_eq/=.
  rewrite elem_of_cons, (IH ds') by done. split.
  - intros [ [= -> ->]|(v & Hv & Hx)]; [exists v'|exists v]; rewrite elem_of_cons; auto.
  - intros (v & [ [= -> ->]|Hv]%elem_of_cons & Hx); [left; congruence|right; eauto].
Qed.

(** The entry of a child, read. *)
Definition child_entry m (repo d x : string) (te : TreeEntry) : Prop :=
  segment_ok x ∧ has_char NUL x = false ∧
  ∃ b ver, m !! tree_entry_key repo (child_path d x) = Some (b, ver) ∧ from_slice b = inr te.

Lemma has_char_join c l : c ≠ SLASH → Forall (λ x, has_char c x = false) l → has_char c (join_slash l) = false.
Proof.
  intros Hc. induction 1 as [|x l Hx Hl IH]; [done|]. destruct l as [|y l]; [done|].
  change (join_slash (x :: y :: l)) with (x +:+ String SLASH (join_slash (y :: l))).
  rewrite has_char_app, Hx. simpl in *. rewrite bool_decide_false by done. exact IH.
Qed.

Lemma has_char_segments c s : has_char c s = false → Forall (λ x, has_char c x = false) (segments s).
Proof.
  intros Hs. apply Forall_forall. intros x [_ Hx]%list_elem_of_filter. revert Hs x Hx.
  induction s as [|a s IH]; intros Hs x Hx; simpl in *.
  - apply list_elem_of_singleton in Hx as ->. done.
  - apply orb_false_iff in Hs as [Ha Hs]. case_decide.
    + apply elem_of_cons in Hx as [->|Hx]; [done|by apply IH].
    + specialize (IH Hs). destruct (split_slash s) as [|y l].
      * apply list_elem_of_singleton in Hx as ->. simpl. by rewrite Ha.
      * apply elem_of_cons in Hx as [->|Hx].
        -- simpl. rewrite Ha. apply IH. by left.
        -- apply IH. by right.
Qed.

Lemma child_path_no_nul d x :
  has_char NUL d = false → has_char NUL x = false → has_char NUL (child_path d x) = false.
Proof.
  intros Hd Hx. unfold child_path. apply has_char_join; [done|].
  apply Forall_app. split; [by apply has_char_segments|by constructor].
Qed.

(** A listed key is the key of a child, and conversely. *)
Lemma listed_child m repo d sk v :
  tree_placed m repo → canonical d → has_char NUL d = false → d ≠ ROOT_PARENT →
  (sk, v) ∈ entries m TABLE_DIR_ENTRIES (tree_children_pk repo d) (tree_children_sk_prefix d) ↔
  ∃ x ver, segment_ok x ∧ has_char NUL x = false ∧ tree_sk_name sk = x ∧
    sk = tree_sort_key (child_path d x) ∧
    m !! tree_entry_key repo (child_path d x) = Some (v, ver).
Proof.
  intros Hm Hd Hnul Hroot. rewrite elem_of_entries.
  assert (∀ x, segment_ok x → tree_entry_key repo (child_path d x) =
    (TABLE_DIR_ENTRIES, tree_children_pk repo d, tree_sort_key (child_path d x))) as Hkey.
  { intros x Hx. unfold tree_entry_key. rewrite (child_path_canonical d x Hx).
    by rewrite (proj1 (child_path_parent_name d x Hd Hx)). }
  split.
  - intros [Hsw (ver & Hin)].
    destruct (Hm (shard_of d) sk (v, ver) (shard_of_in_range d) Hin) as (c & Hc & Hcn & Hck).
    pose proof Hck as Hck'. unfold tree_entry_key in Hck'. rewrite Hc in Hck'. injection Hck' as _ Hsk.
    assert (tree_parent c = d) as Hp.
    { rewrite <-Hsk in Hsw. apply (starts_with_sep _ "" _ (tree_name c)) in Hsw; [done|done|].
      by apply has_char_tree_parent. }
    assert (c ≠ "") as Hne by (intros ->; by destruct Hroot).
    destruct (canonical_child c Hc Hne) as [Hok Hchild]. rewrite Hp in Hchild.
    exists (tree_name c), ver. rewrite <-Hchild. split_and!; [done| | |done|].
    + unfold tree_name. case_decide; [done|].
      destruct (rsplit_once SLASH c) as [ [a b]|] eqn:E; [|done].
      apply rsplit_once_Some in E as [-> _]. rewrite has_char_app, orb_false_iff in Hcn.
      simpl in Hcn. tauto.
    + rewrite <-Hsk. by apply tree_sk_name_sort_key.
    + rewrite Hck. exact Hin.
  - intros (x & ver & Hx & Hxn & Hname & -> & Hin). split.
    + unfold tree_sort_key. rewrite (proj1 (child_path_parent_name d x Hd Hx)).
      unfold tree_children_sk_prefix, singleton_str.
      change (String TREE_SK_SEP (tree_name (child_path d x)))
        with (singleton_str TREE_SK_SEP +:+ tree_name (child_path d x)).
      rewrite <-str_app_assoc. apply starts_with_spec. by eexists.
    + exists ver. by rewrite <-Hkey.
Qed.
End listing.

(** ** Statistics through proxies *)

Section stats.
Context `{Blake3} `{Serde TreeEntry} `{Serde RepoConfig} `{UuidGen}.
Implicit Types (m : kvmap) (w : world kvmap).

(** What [get_repo] and [get_dir] read. *)
Definition repo_of m (name : string) : result (option RepoConfig) :=
  match m !! repo_key name with
  | Some (b, _) =>
      let? c := serde_result (from_slice b) in
      Ok (if rc_deleting c then None else Some c)
  | None => Ok None
  end.

Definition dir_of m (repo dir_path : string) : result (option DirEntry) :=
  match m !! tree_entry_key repo (trim_matches SLASH dir_path) with
  | Some (b, _) =>
      let? te := serde_result (from_slice b) in
      Ok (match te_kind te with
          | TDir n bytes => Some (dir_entry_of n bytes te)
          | TFile _ _ _ _ _ _ => None
          end)
  | None => Ok None
  end.

Lemma run_get_repo name w : run (get_repo name) w = (Some (repo_of (w_kv w) name), w).
Proof.
  unfold get_repo, get_repo_raw, repo_of. cbn [repo_key]. unfold typed_get. run_steps.
  change (TABLE_REPOS, SINGLE_PK, name) with (repo_key name).
  destruct (w_kv w !! repo_key name) as [ [b v]|]; [|done]. cbn [fmap option_fmap option_map fst].
  destruct (serde_result (from_slice b)) as [c|]; [|done]. cbn. by destruct (rc_deleting c).
Qed.

Lemma run_get_dir repo dir_path w : run (get_dir repo dir_path) w = (Some (dir_of (w_kv w) repo dir_path), w).
Proof.
  unfold get_dir, dir_of. cbv zeta.
  destruct (tree_entry_key repo (trim_matches SLASH dir_path)) as [ [t pk] sk] eqn:Ek.
  assert (t = TABLE_DIR_ENTRIES) as -> by by injection Ek. run_steps.
  destruct (w_kv w !! (TABLE_DIR_ENTRIES, pk, sk)) as [ [b v]|]; [|done]. cbn [fmap option_fmap option_map fst].
  destruct (serde_result (from_slice b)) as [te|]; [|done]. cbn. by destruct (te_kind te).
Qed.

(** The members of a live proxy. *)
Definition proxy_members m (name : string) : option (list string) :=
  match repo_of m name with
  | Ok (Some c) => match rc_kind c with Proxy nested _ => Some nested | _ => None end
  | _ => None
  end.

Definition member_edge m (x y : string) : Prop := ∃ nested, proxy_members m x = Some nested ∧ y ∈ nested.

(** The root entry of a live repository that is not a proxy. *)
Definition own_stats m (name : string) : option DirEntry :=
  match repo_of m name with
  | Ok (Some c) =>
      match rc_kind c with
      | Proxy _ _ => None
      | _ => match dir_of m name "" with Ok d => d | Err _ => None end
      end
  | _ => None
  end.

Definition count_member m (total : RepoStats) (name : string) : RepoStats :=
  match own_stats m name with Some de => add_stats total de | None => total end.

Definition all_readable m : Prop :=
  ∀ name, is_ok (repo_of m name) = true ∧ is_ok (dir_of m name "") = true.

(** What a part of the search adds: the new names, in visiting order. *)
Definition search_adds m (members : list string) (visited : gset string) (new : list string) : Prop :=
  NoDup new ∧ (∀ x, x ∈ new → (x ∉ visited) ∧ ∃ y, y ∈ members ∧ rtc (member_edge m) y x) ∧
  (∀ x, x ∈ members → x ∈ new ∨ x ∈ visited) ∧
  (∀ x y, x ∈ new → member_edge m x y → y ∈ new ∨ y ∈ visited).

Lemma search_adds_nil m visited : search_adds m [] visited [].
Proof. split_and!; [constructor|set_solver..]. Qed.

Lemma search_adds_visited m x members visited new :
  x ∈ visited → search_adds m members visited new → search_adds m (x :: members) visited new.
Proof.
  intros Hx (Hnd & Hnew & Hmem & Hcl). split_and!; [done| | |done].
  - intros y Hy. destruct (Hnew y Hy) as (? & z & Hz & ?). split; [done|]. exists z. split; [by right|done].
  - intros y [->|Hy]%elem_of_cons; [by right|by apply Hmem].
Qed.

(** A new name, what its members add, and what the other members add. *)
Lemma search_adds_cons m x nested members visited n1 n2 :
  (x ∉ visited) → (∀ y, member_edge m x y ↔ y ∈ nested) →
  search_adds m nested ({[x]} ∪ visited) n1 →
  search_adds m members (list_to_set n1 ∪ ({[x]} ∪ visited)) n2 →
  search_adds m (x :: members) visited (x :: n1 ++ n2).
Proof.
  intros Hx Hedge (Hnd1 & Hnew1 & Hmem1 & Hcl1) (Hnd2 & Hnew2 & Hmem2 & Hcl2). split_and!.
  - constructor.
    + rewrite elem_of_app. intros [Hi|Hi]; [apply Hnew1 in Hi|apply Hnew2 in Hi]; set_solver.
    + apply NoDup_app. split_and!; [done| |done]. intros y Hy Hy2. apply Hnew2 in Hy2. set_solver.
  - intros y [->|[Hy|Hy]%elem_of_app]%elem_of_cons.
    + split; [done|]. exists x. split; [by left|apply rtc_refl].
    + destruct (Hnew1 y Hy) as (Hv & z & Hz & Hr). split; [set_solver|]. exists x.
      split; [by left|]. eapply rtc_l; [|exact Hr]. by apply Hedge.
    + destruct (Hnew2 y Hy) as (Hv & z & Hz & Hr). split; [set_solver|]. exists z. split; [by right|done].
  - intros y [->|Hy]%elem_of_cons; [left; by left|]. destruct (Hmem2 y Hy); set_solver.
  - intros y z [->|[Hy|Hy]%elem_of_app]%elem_of_cons He.
    + apply Hedge in He. destruct (Hmem1 z He); set_solver.
    + destruct (Hcl1 y z Hy He); set_solver.
    + destruct (Hcl2 y z Hy He); set_solver.
Qed.

Context (w : world kvmap) (proxies : gset string).
Hypothesis Hreadable : all_readable (w_kv w).
Hypothesis Hproxies : ∀ x, is_Some (proxy_members (w_kv w) x) → x ∈ proxies.

(** The search visits each name once, and the nesting is bounded by the number
    of proxies that are left. *)
Lemma run_aggregate fuel members total visited :
  size (proxies ∖ visited) < fuel →
  ∃ new, run (aggregate_proxy_stats fuel members (total, visited)) w =
      (Some (Ok (foldl (count_member (w_kv w)) total new, list_to_set new ∪ visited)), w) ∧
    search_adds (w_kv w) members visited new.
Proof using Type*.
  revert members total visited. induction fuel as [|fuel IH]; [lia|].
  intros members. cbn [aggregate_proxy_stats].
  induction members as [|x members IHm]; intros total visited Hf; cbn [try_fold].
  { exists []. assert (list_to_set [] ∪ visited = visited) as -> by set_solver.
    split; [done|apply search_adds_nil]. }
  rewrite run_bind_ok. destruct (decide (x ∈ visited)) as [Hx|Hx].
  { cbn [run]. destruct (IHm total visited Hf) as (new & Hr & Hs). exists new.
    split; [exact Hr|by apply search_adds_visited]. }
  assert (size (proxies ∖ ({[x]} ∪ visited)) ≤ size (proxies ∖ visited)) as Hle
    by (apply subseteq_size; set_solver).
  rewrite run_bind_ok, run_get_repo.
  destruct (Hreadable x) as [Hok Hokd].
  assert (∀ total', count_member (w_kv w) total x = total' → proxy_members (w_kv w) x = None →
    ∃ new, run (try_fold members (λ st member_name,
        let '(total, visited) := st in
        if decide (member_name ∈ visited) then Ret (Ok (total, visited))
        else
          let visited := {[member_name]} ∪ visited in
          let*? o := get_repo member_name in
          match o with
          | Some member_config =>
              match rc_kind member_config with
              | Proxy nested _ => aggregate_proxy_stats fuel nested (total, visited)
              | _ =>
                  let*? d := get_dir member_name "" in
                  match d with
                  | Some de => Ret (Ok (add_stats total de, visited))
                  | None => Ret (Ok (total, visited))
                  end
              end
          | None => Ret (Ok (total, visited))
          end) (total', {[x]} ∪ visited)) w =
      (Some (Ok (foldl (count_member (w_kv w)) total new, list_to_set new ∪ visited)), w) ∧
      search_adds (w_kv w) (x :: members) visited new) as Hleaf.
  { intros total' Ht Hp. destruct (IHm total' ({[x]} ∪ visited)) as (n2 & Hr & Hs); [lia|].
    exists (x :: n2). cbn [foldl]. rewrite Ht. split.
    - rewrite Hr. do 4 f_equal. set_solver.
    - apply (search_adds_cons _ x [] members visited [] n2); [done| |apply search_adds_nil|].
      + intros y. rewrite elem_of_nil. unfold member_edge. rewrite Hp. naive_solver.
      + assert (list_to_set [] ∪ ({[x]} ∪ visited) = {[x]} ∪ visited) as -> by set_solver. done. }
  unfold count_member, own_stats, proxy_members in Hleaf.
  destruct (repo_of (w_kv w) x) as [ [c|]|] eqn:Erepo; [| |done].
  2:{ cbn [run]. by apply Hleaf. }
  assert (∀ ds, dir_of (w_kv w) x "" = Ok ds →
    (rc_kind c = Hosted ∨ ∃ u t a, rc_kind c = Cache u t a) →
    run (let*? d := get_dir x "" in
         match d with
         | Some de => Ret (Ok (add_stats total de, {[x]} ∪ visited))
         | None => Ret (Ok (total, {[x]} ∪ visited))
         end) w =
      (Some (Ok (match ds with Some de => add_stats total de | None => total end, {[x]} ∪ visited)), w)) as Hdir.
  { intros ds Hds _. rewrite run_bind_ok, run_get_dir, Hds. by destruct ds. }
  destruct (dir_of (w_kv w) x "") as [ds|] eqn:Edir; [|done].
  destruct (rc_kind c) as [|u t a|nested wm] eqn:Ekind.
  - rewrite (Hdir ds) by auto. by apply Hleaf.
  - rewrite (Hdir ds) by eauto. by apply Hleaf.
  - assert (proxy_members (w_kv w) x = Some nested) as Hpm.
    { unfold proxy_members. by rewrite Erepo, Ekind. }
    assert (x ∈ proxies) as Hxp by (apply Hproxies; by exists nested).
    destruct (IH nested total ({[x]} ∪ visited)) as (n1 & Hr1 & Hs1).
    { assert (size (proxies ∖ ({[x]} ∪ visited)) < size (proxies ∖ visited)); [|lia].
      apply subset_size. set_solver. }
    rewrite Hr1. destruct (IHm (foldl (count_member (w_kv w)) total n1) (list_to_set n1 ∪ ({[x]} ∪ visited)))
      as (n2 & Hr2 & Hs2).
    { assert (size (proxies ∖ (list_to_set n1 ∪ ({[x]} ∪ visited))) ≤ size (proxies ∖ visited)); [|lia].
      apply subseteq_size. set_solver. }
    exists (x :: n1 ++ n2). split.
    + rewrite Hr2. cbn [foldl]. rewrite foldl_app.
      assert (count_member (w_kv w) total x = total) as ->.
      { unfold count_member, own_stats. by rewrite Erepo, Ekind. }
      do 4 f_equal. set_solver.
    + apply (search_adds_cons _ x nested); [done| |done|done].
      intros y. unfold member_edge. rewrite Hpm. naive_solver.
Qed.
End stats.

(** ** Properties *)

Section properties.
Context `{Blake3} `{Serde TreeEntry} `{Serde RepoConfig} `{UuidGen}.
Implicit Types (m : kvmap) (w : world kvmap).

Lemma serde_result_ok {A} `{Serde A} b (x : A) : serde_result (from_slice b) = Ok x ↔ from_slice b = inr x.
Proof. destruct (from_slice b); simpl; split; congruence. Qed.

(** The decoded children of a directory. *)
Lemma elem_of_children m repo d ds x te :
  tree_placed m repo → canonical d → has_char NUL d = false → d ≠ ROOT_PARENT →
  decode_pairs (entries m TABLE_DIR_ENTRIES (tree_children_pk repo d) (tree_children_sk_prefix d)) = Ok ds →
  (x, te) ∈ child_name <$> ds ↔ child_entry m repo d x te.
Proof.
  intros Hm Hd Hnul Hroot Hds. rewrite list_elem_of_fmap. unfold child_entry. split.
  - intros ([sk te'] & [= -> ->] & (v & Hin & Hv)%(elem_of_decode_pairs _ _ _ _ Hds)).
    apply listed_child in Hin as (y & ver & Hy & Hyn & Hname & _ & Hlook); [|done..].
    simpl. rewrite Hname. split_and!; [done|done|]. exists v, ver. split; [done|]. by apply serde_result_ok.
  - intros (Hx & Hxn & b & ver & Hlook & Hb).
    exists (tree_sort_key (child_path d x), te). unfold child_name. simpl.
    assert (tree_sk_name (tree_sort_key (child_path d x)) = x) as Hn.
    { rewrite tree_sk_name_sort_key by by apply child_path_no_nul.
      by apply child_path_parent_name. }
    rewrite Hn. split; [done|]. apply (elem_of_decode_pairs _ _ _ _ Hds). exists b.
    split; [|by apply serde_result_ok]. apply listed_child; [done..|].
    by exists x, ver.
Qed.

(** Distinct keys of the listing have distinct names. *)
Lemma NoDup_child_names m repo d ds :
  tree_placed m repo → canonical d → has_char NUL d = false → d ≠ ROOT_PARENT →
  decode_pairs (T:=TreeEntry)
    (entries m TABLE_DIR_ENTRIES (tree_children_pk repo d) (tree_children_sk_prefix d)) = Ok ds →
  NoDup (child_name <$> ds).*1.
Proof.
  intros Hm Hd Hnul Hroot Hds. pose proof (decode_pairs_keys _ _ Hds) as Hk.
  pose proof (sorted_NoDup_fst _ (entries_sorted m TABLE_DIR_ENTRIES (tree_children_pk repo d)
    (tree_children_sk_prefix d))) as Hnd. rewrite <-Hk in Hnd.
  assert ((child_name <$> ds).*1 = tree_sk_name <$> ds.*1) as -> by by rewrite <-!list_fmap_compose.
  apply NoDup_fmap_2_strong; [|done]. intros k1 k2 Hk1 Hk2 Heq.
  assert (∀ k, k ∈ ds.*1 → k = tree_sort_key (child_path d (tree_sk_name k))) as Hkey.
  { intros k Hkin. rewrite Hk in Hkin. apply list_elem_of_fmap in Hkin as ([sk v] & -> & Hin).
    apply listed_child in Hin as (y & ver & _ & _ & Hname & Hsk & _); [|done..]. simpl. by rewrite Hname. }
  rewrite (Hkey k1), (Hkey k2) by done. by rewrite Heq.
Qed.

Lemma NoDup_omap_names {B} (f : string * TreeEntry → option (string * B)) (l : list (string * TreeEntry)) :
  (∀ x y, f x = Some y → y.1 = x.1) → NoDup l.*1 → NoDup (omap f l).*1.
Proof.
  intros Hf. induction l as [|x l IH]; [done|]. intros [Hx Hl]%NoDup_cons. simpl.
  destruct (f x) as [y|] eqn:E; [|by apply IH]. simpl. constructor; [|by apply IH].
  rewrite (Hf _ _ E). intros (z & Heq & Hz)%list_elem_of_fmap. apply Hx.
  apply list_elem_of_omap in Hz as (x' & Hx' & Hz). rewrite Heq, (Hf _ _ Hz). by apply list_elem_of_fmap_2.
Qed.

(** A directory listing is exact.  For a repository whose tree entries were
    written under their keys, listing a directory (with or without trailing
    slashes) returns, in strict name order and each once, exactly its immediate
    children: the sub-directories with their counters and the files with their
    entries; siblings that share a string prefix, deeper descendants and other
    repositories never show up, and nothing is written. *)
Theorem list_children_exact fuel repo prefix w ds :
  let d := trim_end SLASH prefix in
  tree_placed (w_kv w) repo → canonical d → has_char NUL d = false → d ≠ ROOT_PARENT →
  length (part (w_kv w) TABLE_DIR_ENTRIES (tree_children_pk repo d)) < fuel →
  decode_pairs (T:=TreeEntry)
    (entries (w_kv w) TABLE_DIR_ENTRIES (tree_children_pk repo d) (tree_children_sk_prefix d)) = Ok ds →
  ∃ dirs files, run (list_children fuel repo prefix) w = (Some (Ok (dirs, files)), w) ∧
    StronglySorted sk_lt dirs ∧ StronglySorted sk_lt files ∧
    (∀ x de, (x, de) ∈ dirs ↔ ∃ te n bytes, child_entry (w_kv w) repo d x te ∧
       te_kind te = TDir n bytes ∧ de = dir_entry_of n bytes te) ∧
    (∀ x te, (x, te) ∈ files ↔ child_entry (w_kv w) repo d x te ∧
       ∀ n bytes, te_kind te ≠ TDir n bytes).
Proof.
  intros d Hm Hd Hnul Hroot Hf Hds.
  exists (union_sorted (omap as_dir (child_name <$> ds))), (union_sorted (omap as_file (child_name <$> ds))).
  pose proof (NoDup_child_names _ _ _ _ Hm Hd Hnul Hroot Hds) as Hnd. split_and!.
  - unfold list_children. fold d. rewrite run_bind_ok, for_each_spec; [|unfold SCAN_BATCH_SIZE; lia|done].
    by rewrite (fold_collect_child _ ds).
  - apply union_sorted_strict, NoDup_omap_names; [|done]. intros [x te] y. unfold as_dir. simpl.
    destruct (te_kind te); [|done]. by intros [= <-].
  - apply union_sorted_strict, NoDup_omap_names; [|done]. intros [x te] y. unfold as_file. simpl.
    destruct (te_kind te); [done|]. by intros [= <-].
  - intros x de. rewrite elem_of_union_sorted, list_elem_of_omap. split.
    + intros ([x' te] & Hin & Hde). unfold as_dir in Hde. simpl in Hde.
      destruct (te_kind te) as [n bytes|] eqn:Ek; [|done]. injection Hde as <- <-.
      exists te, n, bytes. split; [|done]. by apply (elem_of_children (w_kv w) repo d ds).
    + intros (te & n & bytes & Hc & Hk & ->). exists (x, te).
      split; [by apply (elem_of_children (w_kv w) repo d ds)|]. unfold as_dir. simpl. by rewrite Hk.
  - intros x te. rewrite elem_of_union_sorted, list_elem_of_omap. split.
    + intros ([x' te'] & Hin & Hte). unfold as_file in Hte. simpl in Hte.
      destruct (te_kind te') as [n bytes|] eqn:Ek; [done|]. injection Hte as <- <-.
      split; [by apply (elem_of_children _ _ _ ds)|]. by rewrite Ek.
    + intros (Hc & Hk). exists (x, te).
      split; [by apply (elem_of_children (w_kv w) repo d ds)|]. unfold as_file. simpl.
      destruct (te_kind te) eqn:Ek; [|done]. by destruct (Hk artifact_count total_bytes).
Qed.

(** Proxy statistics count each member once.  Through any graph of
    proxies, cyclic or with several paths to a member, the statistics of a
    proxy are the sum (modulo the width of the counters) of the root
    directories of the live hosted and cache repositories that it reaches,
    each once; deleted and missing members count nothing, and the recursion
    terminates at a depth bounded by the number of proxies. *)
Theorem get_repo_stats_counts_once fuel config members wm w (proxies : gset string) :
  rc_kind config = Proxy members wm → all_readable (w_kv w) →
  (∀ x, is_Some (proxy_members (w_kv w) x) → x ∈ proxies) → size proxies < fuel →
  ∃ reached, run (get_repo_stats fuel config) w =
      (Some (Ok (foldl (count_member (w_kv w)) zero_stats reached)), w) ∧
    NoDup reached ∧
    ∀ x, x ∈ reached ↔ ∃ y, y ∈ members ∧ rtc (member_edge (w_kv w)) y x.
Proof.
  intros Hk Hread Hprox Hf. unfold get_repo_stats. rewrite Hk, run_bind_ok.
  destruct (run_aggregate w proxies Hread Hprox fuel members zero_stats ∅) as (new & Hr & Hnd & Hnew & Hmem & Hcl).
  { eapply Nat.le_lt_trans; [|exact Hf]. apply subseteq_size. set_solver. }
  rewrite Hr. exists new. split_and!; [done|done|]. intros x. split.
  - intros Hx. by apply Hnew in Hx as [_ ?].
  - intros (y & Hy & Hreach). assert (y ∈ new) as Hyn by (destruct (Hmem y Hy); set_solver).
    clear Hy. induction Hreach as [y|y z x He Hr' IH]; [done|]. apply IH.
    destruct (Hcl y z Hyn He); set_solver.
Qed.
End properties.

(** ** Witnesses *)

Definition toy_dir_entry : TreeEntry := mkTreeEntry (TDir 3 6) 7%Z 7%Z.
Definition toy_tree_serde : Serde TreeEntry :=
  table_serde [tree_file_of (toy_artifact "a/x" 1); toy_dir_entry].

Definition toy_tree_world : world kvmap :=
  let _ := toy_blake3 in
  world_of (list_to_map [
    (tree_entry_key "r" "", ("1", 1%Z)); (tree_entry_key "r" "a", ("1", 1%Z));
    (tree_entry_key "r" "a/x", ("0", 1%Z)); (tree_entry_key "r" "ab", ("0", 1%Z));
    (repo_key "r", ("0", 1%Z)); (repo_key "p1", ("1", 1%Z)); (repo_key "p2", ("2", 1%Z))]).

Lemma toy_tree_placed : @tree_placed toy_blake3 (w_kv toy_tree_world) "r".
Proof.
  intros shard sk v _ Hin.
  assert (map_Forall (λ (k : string * string * string) _, k.1.1 = TABLE_DIR_ENTRIES →
    Exists (λ c, canonical c ∧ has_char NUL c = false ∧ @tree_entry_key toy_blake3 "r" c = k)
      [""; "a"; "a/x"; "ab"]) (w_kv toy_tree_world)) as Hall by by_decide.
  specialize (Hall _ _ Hin eq_refl). apply Exists_exists in Hall as (c & _ & Hc). by exists c.
Qed.

Lemma list_children_exact_witness :
  let _ := toy_blake3 in let _ := toy_tree_serde in let _ := toy_rc_serde in let _ := toy_uuid in
  ∃ dirs files, run (list_children 4 "r" "/") toy_tree_world = (Some (Ok (dirs, files)), toy_tree_world) ∧
    ("a", dir_entry_of 3 6 toy_dir_entry) ∈ dirs ∧ ("x", toy_dir_entry) ∉ files.
Proof.
  intros ? ? ? ?.
  destruct (@list_children_exact toy_blake3 toy_tree_serde toy_uuid 4 "r" "/" toy_tree_world
    [(tree_sort_key "a", toy_dir_entry); (tree_sort_key "ab", tree_file_of (toy_artifact "a/x" 1))])
    as (dirs & files & Hr & _ & _ & Hdirs & Hfiles).
  - exact toy_tree_placed.
  - reflexivity.
  - reflexivity.
  - discriminate.
  - by_decide.
  - vm_compute. reflexivity.
  - exists dirs, files. split; [exact Hr|]. split.
    + apply Hdirs. exists toy_dir_entry, 3%Z, 6%Z. split; [|split; reflexivity].
      split; [by_decide|]. split; [reflexivity|]. exists "1", 1%Z. split; vm_compute; reflexivity.
    + intros Hin. apply Hfiles in Hin as [_ Hk]. by apply (Hk 3%Z 6%Z).
Defined.

Lemma get_repo_stats_counts_once_witness :
  let _ := toy_blake3 in let _ := toy_tree_serde in let _ := toy_rc_serde in let _ := toy_uuid in
  ∃ reached, run (get_repo_stats 3 (toy_repo "p2" (Proxy ["p1"; "p2"] None) false)) toy_tree_world =
      (Some (Ok (foldl (count_member (w_kv toy_tree_world)) zero_stats reached)), toy_tree_world) ∧
    NoDup reached ∧ "p2" ∈ reached.
Proof.
  intros ? ? ? ?.
  assert (map_Forall (λ (k : string * string * string) _, k.1.1 = TABLE_REPOS →
    k.2 ∈ ["r"; "p1"; "p2"]) (w_kv toy_tree_world)) as Hnames by by_decide.
  assert (∀ name, name ∉ ["r"; "p1"; "p2"] → w_kv toy_tree_world !! repo_key name = None) as Hnone.
  { intros name Hn. apply eq_None_not_Some. intros [v Hv]. apply Hn.
    exact (Hnames _ _ Hv eq_refl). }
  destruct (@get_repo_stats_counts_once toy_blake3 toy_tree_serde toy_rc_serde toy_uuid 3
    (toy_repo "p2" (Proxy ["p1"; "p2"] None) false) ["p1"; "p2"] None toy_tree_world {["p1"; "p2"]})
    as (reached & Hr & Hnd & Hin).
  - reflexivity.
  - intros name. split.
    + destruct (decide (name ∈ ["r"; "p1"; "p2"])) as [Hi|Hi].
      * assert (Forall (λ name, is_ok (@repo_of toy_rc_serde (w_kv toy_tree_world) name) = true)
          ["r"; "p1"; "p2"]) as Hall by by_decide.
        rewrite Forall_forall in Hall. by apply Hall.
      * unfold repo_of. by rewrite Hnone.
    + unfold dir_of.
      assert (map_Forall (λ (k : string * string * string) v, k.1.1 = TABLE_DIR_ENTRIES →
        is_ok (serde_result (@from_slice TreeEntry toy_tree_serde v.1)) = true) (w_kv toy_tree_world)) as Hall
        by by_decide.
      destruct (w_kv toy_tree_world !! _) as [ [b v]|] eqn:E; [|reflexivity].
      specialize (Hall _ _ E eq_refl). cbv beta in Hall. cbn [fst] in Hall.
      destruct (serde_result (from_slice b)); [reflexivity|discriminate].
  - intros x [nested Hx]. unfold proxy_members, repo_of in Hx.
    destruct (decide (x ∈ ["r"; "p1"; "p2"])) as [Hi|Hi]; [|by rewrite Hnone in Hx].
    rewrite !elem_of_cons in Hi. destruct Hi as [->|[->|[->|Hi] ] ].
    + vm_compute in Hx. discriminate.
    + by_decide.
    + by_decide.
    + by apply elem_of_nil in Hi.
  - vm_compute. lia.
  - exists reached. split; [exact Hr|]. split; [exact Hnd|]. apply Hin. exists "p2".
    split; [by_decide|apply rtc_refl].
Defined.
