(* ===== verification/UpdateWorker.v ===== *)
(** * The update worker (server/src/server/worker/update.rs)

    Handlers send deltas for the directory of the artifact they changed, for
    the store, and access times.  The worker drains the three queues, adds up
    what concerns the same key, and applies one conditional write per key; a
    directory that changed passes the delta on to its parent.  The theorems
    say that the worker brings every directory entry to the sum of the deltas
    below it and then comes to rest, what a delta that cannot be applied does
    to it, and that the store counters receive every delta once. *)

From S2P Require Import Prelude Bytes Errors Keys Records Kv Prog Wp Scan Pagination Update Artifact Directory.

Abbreviation DirDeltaMap := (gmap (string * string) DirDelta).
Abbreviation AtimeMap := (gmap (string * string) DateTime).
Abbreviation StoreDeltaMap := (gmap string (Z * Z)).

(** ** Coalescing *)

(** server/src/server/worker/update.rs:271-277 *)
Definition coalesce (existing delta : DirDelta) : DirDelta :=
  mkDirDelta (dd_repo existing) (dd_pk existing) (dd_dir_path existing)
    (i64_add (dd_count_delta existing) (dd_count_delta delta))
    (i64_add (dd_bytes_delta existing) (dd_bytes_delta delta))
    (if decide (dd_timestamp delta > dd_timestamp existing)%Z
     then dd_timestamp delta else dd_timestamp existing).

(** server/src/server/worker/update.rs:267-279 *)
Definition merge_dir_delta (map : DirDeltaMap) (delta : DirDelta) : DirDeltaMap :=
  let key := (dd_pk delta, dd_dir_path delta) in
  match map !! key with
  | Some existing => <[key := coalesce existing delta]> map
  | None => <[key := delta]> map
  end.

(** What the channel holds, in order. *)
(** server/src/server/worker/update.rs:258-265 *)
Definition drain_dir_deltas (rx : list DirDelta) : DirDeltaMap := foldl merge_dir_delta ∅ rx.

(** [pending.entry(store).or_insert((0, 0)) += (c, b)]. *)
Definition add_store_delta (pending : StoreDeltaMap) (store : string) (c b : Z) : StoreDeltaMap :=
  let entry := default (0%Z, 0%Z) (pending !! store) in
  <[store := (i64_add entry.1 c, i64_add entry.2 b)]> pending.

(** [map.entry((repo, path)).and_modify(|ts| max).or_insert(timestamp)]. *)
(** server/src/server/worker/update.rs:305-311 *)
Definition merge_atime (map : AtimeMap) (event : AtimeEvent) : AtimeMap :=
  let key := (ae_repo event, ae_path event) in
  match map !! key with
  | Some ts => <[key := if decide (ae_timestamp event > ts)%Z then ae_timestamp event else ts]> map
  | None => <[key := ae_timestamp event]> map
  end.

(** server/src/server/worker/update.rs:301-314 *)
Definition drain_atime (rx : list AtimeEvent) : AtimeMap := foldl merge_atime ∅ rx.

(** server/src/server/worker/update.rs:242-254 *)
Definition make_parent_delta `{Blake3} (delta : DirDelta) : DirDelta :=
  let parent := parent_dir (dd_dir_path delta) in
  let parent_pk := sharded_pk (dd_repo delta) (tree_parent parent) in
  mkDirDelta (dd_repo delta) parent_pk parent (dd_count_delta delta) (dd_bytes_delta delta) (dd_timestamp delta).

(** ** State of the loop *)

(** The variables of the loop. *)
(** server/src/server/worker/update.rs:65-73 *)
Record UpdateWorker : Type := mkUpdateWorker {
  stashed_dir : option DirDelta;
  stashed_atime : option AtimeEvent;
  propagation_buf : DirDeltaMap;
  pending_store_deltas : StoreDeltaMap;
}.

Definition idle_worker : UpdateWorker := mkUpdateWorker None None ∅ ∅.

(** What the three channels hold when they are drained. *)
Record Inbox : Type := mkInbox {
  dir_rx : list DirDelta;
  atime_rx : list AtimeEvent;
  store_rx : list StoreDelta;
}.

Definition empty_inbox : Inbox := mkInbox [] [] [].

(** What [apply_dir_batch] reports. *)
(** server/src/server/worker/update.rs:190-195 *)
Record DirBatchResult : Type := mkDirBatchResult {
  br_parents : list DirDelta;
  br_retries : list DirDelta;
}.

(** The branch that [select!] takes when the loop sleeps. *)
Inductive wake : Type :=
| WakeCancelled
| WakeDir (ev : option DirDelta)
| WakeAtime (ev : option AtimeEvent)
| WakeStats.

(** server/src/server/worker/update.rs:333-333 *)
Definition STORE_STATS_FLUSH_MAX_RETRIES : nat := 3.

(** The new value of a counter: [(old as i64 + delta).max(0) as u64]. *)
Definition clamp_add (old delta : Z) : Z := Z.max (i64_add (i64_wrap old) delta) 0.

Section worker.
Context `{Blake3} `{Serde TreeEntry} `{Serde StoreStatsRecord} `{Scheduler}.

(** Iteration over a hash map, in an order that the hasher chooses. *)
Definition map_values {K A} `{Countable K} (site : nat) (m : gmap K A) : list A :=
  (arrange site (map_to_list m)).*2.

(** server/src/server/worker/update.rs:281-297 *)
Definition drain_store_deltas (rx : list StoreDelta) (pending : StoreDeltaMap) :
    list (string * Z * Z) * StoreDeltaMap :=
  let pending := foldl (λ p d, add_store_delta p (sd_store d) (sd_count_delta d) (sd_bytes_delta d)) pending rx in
  ((λ '(store, (c, b)), (store, c, b)) <$>
     filter (λ '(_, (c, b)), c ≠ 0%Z ∨ b ≠ 0%Z) (arrange 20 (map_to_list pending)), ∅).

(** *** Directory deltas *)

(** The new entry of a directory: [None] when the delta is refused, [Some None]
    when the entry goes away. *)
(** server/src/server/worker/update.rs:419-507 *)
Definition new_dir_entry (versioned : option TreeEntry) (delta : DirDelta) : option (option TreeEntry) :=
  match versioned with
  | Some te =>
      match te_kind te with
      | TDir artifact_count total_bytes =>
          let new_count := clamp_add artifact_count (dd_count_delta delta) in
          let new_bytes := clamp_add total_bytes (dd_bytes_delta delta) in
          let new_modified := Z.max (te_last_modified_at te) (dd_timestamp delta) in
          let new_accessed := Z.max (te_last_accessed_at te) (dd_timestamp delta) in
          if decide (new_count = 0%Z) then Some None
          else Some (Some (mkTreeEntry (TDir new_count new_bytes) new_modified new_accessed))
      | TFile _ _ _ _ _ _ => None
      end
  | None =>
      if decide (dd_count_delta delta ≤ 0)%Z then None
      else Some (Some (mkTreeEntry (TDir (dd_count_delta delta) (Z.max (dd_bytes_delta delta) 0))
                         (dd_timestamp delta) (dd_timestamp delta)))
  end.

(** server/src/server/worker/update.rs:404-518 *)
Definition apply_dir_delta (delta : DirDelta) : prog (result bool) :=
  let sk := tree_sort_key (dd_dir_path delta) in
  let*? versioned := kv (GetVersioned TABLE_DIR_ENTRIES (dd_pk delta) sk) in
  let! existing := match versioned with
                   | Some (bytes, v) => let? te := serde_result (from_slice bytes) in Ok (Some te)
                   | None => Ok None
                   end in
  let version := snd <$> versioned in
  match new_dir_entry existing delta, version with
  | None, _ => Ret (Ok false)
  | Some None, Some v => kv (DeleteIfVersion TABLE_DIR_ENTRIES (dd_pk delta) sk v)
  | Some None, None => Ret (Ok false)
  | Some (Some new_entry), _ =>
      let! new_value := serde_result (to_vec new_entry) in
      kv (PutIfVersion TABLE_DIR_ENTRIES (dd_pk delta) sk new_value version)
  end.

(** The deltas of a batch complete in the order of the list. *)
(** server/src/server/worker/update.rs:197-240 *)
Fixpoint apply_dir_batch (deltas : list DirDelta) (res : DirBatchResult) : prog DirBatchResult :=
  match deltas with
  | [] => Ret res
  | delta :: deltas =>
      let* r := apply_dir_delta delta in
      apply_dir_batch deltas
        match r with
        | Ok true =>
            if decide (dd_dir_path delta = "") then res
            else mkDirBatchResult (br_parents res ++ [make_parent_delta delta]) (br_retries res)
        | Ok false | Err _ => mkDirBatchResult (br_parents res) (br_retries res ++ [delta])
        end
  end.

(** *** Access times *)

(** server/src/server/worker/update.rs:319-328 *)
Fixpoint flush_atime (items : list ((string * string) * DateTime)) : prog unit :=
  match items with
  | [] => Ret tt
  | ((repo, path), ts) :: items =>
      let* _ := touch_artifact repo path ts in
      flush_atime items
  end.

(** *** Store statistics *)

(** The attempts to apply one delta; whether it was applied. *)
(** server/src/server/worker/update.rs:342-390 *)
Fixpoint flush_one_store (attempts : nat) (store_name : string) (count_delta bytes_delta : Z) : prog bool :=
  match attempts with
  | O => Ret false
  | S attempts =>
      let '(table, pk, sk) := store_stats_key store_name in
      let* versioned := kv (GetVersioned table pk sk) in
      match versioned with
      | Err _ => Ret false
      | Ok o =>
          let '(existing, version) :=
            match o with
            | Some (bytes, v) =>
                match from_slice (A:=StoreStatsRecord) bytes with
                | inr rec => (Some rec, Some v)
                | inl _ => (None, None)
                end
            | None => (None, None)
            end in
          let old := match existing with Some s => (ss_blob_count s, ss_total_bytes s) | None => (0, 0)%Z end in
          let* now := call ENow in
          let new_stats := mkStoreStatsRecord (clamp_add old.1 count_delta) (clamp_add old.2 bytes_delta) now in
          match to_vec new_stats with
          | inl _ => Ret false
          | inr new_bytes =>
              let* r := kv (PutIfVersion table pk sk new_bytes version) in
              match r with
              | Ok true => Ret true
              | Ok false => flush_one_store attempts store_name count_delta bytes_delta
              | Err _ => Ret false
              end
          end
      end
  end.

(** server/src/server/worker/update.rs:336-398 *)
Fixpoint flush_store_stats (deltas : list (string * Z * Z)) (pending : StoreDeltaMap) : prog StoreDeltaMap :=
  match deltas with
  | [] => Ret pending
  | (store_name, count_delta, bytes_delta) :: deltas =>
      let* applied := flush_one_store STORE_STATS_FLUSH_MAX_RETRIES store_name count_delta bytes_delta in
      flush_store_stats deltas
        (if (applied : bool) then pending else add_store_delta pending store_name count_delta bytes_delta)
  end.

(** *** The loop *)

(** The directory deltas of a pass. *)
(** server/src/server/worker/update.rs:82-88 *)
Definition collect_dir (rx : list DirDelta) (st : UpdateWorker) : DirDeltaMap :=
  let coalesced := drain_dir_deltas rx in
  let coalesced := match stashed_dir st with Some ev => merge_dir_delta coalesced ev | None => coalesced end in
  foldl merge_dir_delta coalesced (map_values 21 (propagation_buf st)).

(** server/src/server/worker/update.rs:108-118 *)
Definition collect_atime (rx : list AtimeEvent) (st : UpdateWorker) : AtimeMap :=
  match stashed_atime st with
  | Some ev => merge_atime (drain_atime rx) ev
  | None => drain_atime rx
  end.

(** One round of the inner loop: the value of [did_work]. *)
(** server/src/server/worker/update.rs:79-130 *)
Definition work_pass (rx : Inbox) (st : UpdateWorker) : prog (bool * UpdateWorker) :=
  let coalesced := collect_dir (dir_rx rx) st in
  let* buf := if decide (coalesced = ∅) then Ret ∅
              else let* res := apply_dir_batch (map_values 22 coalesced) (mkDirBatchResult [] []) in
                   Ret (foldl merge_dir_delta (foldl merge_dir_delta ∅ (br_parents res)) (br_retries res)) in
  let atime_events := collect_atime (atime_rx rx) st in
  let* _ := if decide (atime_events = ∅) then Ret tt
            else flush_atime (arrange 23 (map_to_list atime_events)) in
  let '(store_deltas, pending) := drain_store_deltas (store_rx rx) (pending_store_deltas st) in
  let* pending := if decide (store_deltas = []) then Ret pending
                  else flush_store_stats store_deltas pending in
  let did_work := negb (bool_decide (coalesced = ∅) && bool_decide (atime_events = ∅) &&
                        bool_decide (store_deltas = [])) in
  Ret (did_work, mkUpdateWorker None None buf pending).

(** The inner loop; the channels hold [rxs], one inbox per round, and nothing
    when the list is over.  The inboxes of later rounds are given back. *)
(** server/src/server/worker/update.rs:77-131 *)
Fixpoint process (fuel : nat) (rxs : list Inbox) (st : UpdateWorker) : prog (list Inbox * UpdateWorker) :=
  match fuel with
  | O => Spin
  | S fuel =>
      let* r := work_pass (default empty_inbox (head rxs)) st in
      if (r.1 : bool) then process fuel (tail rxs) r.2 else Ret (tail rxs, r.2)
  end.

(** One round of the last propagation. *)
(** server/src/server/worker/update.rs:152-163 *)
Fixpoint propagate_round (deltas : list DirDelta) (next_coalesced : DirDeltaMap) : prog DirDeltaMap :=
  match deltas with
  | [] => Ret next_coalesced
  | delta :: deltas =>
      let* r := apply_dir_delta delta in
      propagate_round deltas
        match r with
        | Ok true => if decide (dd_dir_path delta = "") then next_coalesced
                     else merge_dir_delta next_coalesced (make_parent_delta delta)
        | _ => next_coalesced
        end
  end.

(** server/src/server/worker/update.rs:147-165 *)
Fixpoint propagate (fuel : nat) (coalesced : DirDeltaMap) : prog unit :=
  match fuel with
  | O => Spin
  | S fuel =>
      if decide (coalesced = ∅) then Ret tt
      else
        let* next_coalesced := propagate_round (map_values 24 coalesced) ∅ in
        propagate fuel next_coalesced
  end.

(** The branch of a cancellation. *)
(** server/src/server/worker/update.rs:136-173 *)
Definition final_flush (fuel : nat) (rx : Inbox) (st : UpdateWorker) : prog unit :=
  let* _ := propagate fuel (collect_dir (dir_rx rx) st) in
  let atime_events := drain_atime (atime_rx rx) in
  let* _ := if decide (atime_events = ∅) then Ret tt
            else flush_atime (arrange 25 (map_to_list atime_events)) in
  let '(store_deltas, pending) := drain_store_deltas (store_rx rx) (pending_store_deltas st) in
  let* _ := flush_store_stats store_deltas pending in
  Ret tt.

(** The loop, woken up by the branches of [wakes] in turn.  [None] when the
    worker has returned, otherwise its state when it sleeps after them. *)
(** server/src/server/worker/update.rs:75-185 *)
Fixpoint worker_loop (fuel : nat) (wakes : list wake) (rxs : list Inbox) (st : UpdateWorker) :
    prog (option (list Inbox * UpdateWorker)) :=
  let* p := process fuel rxs st in
  let '(rxs, st) := p in
  match wakes with
  | [] => Ret (Some (rxs, st))
  | WakeCancelled :: _ =>
      let* _ := final_flush fuel (default empty_inbox (head rxs)) st in
      Ret None
  | WakeDir ev :: wakes =>
      worker_loop fuel wakes rxs (mkUpdateWorker ev (stashed_atime st) (propagation_buf st) (pending_store_deltas st))
  | WakeAtime ev :: wakes =>
      worker_loop fuel wakes rxs (mkUpdateWorker (stashed_dir st) ev (propagation_buf st) (pending_store_deltas st))
  | WakeStats :: wakes =>
      let rx := default empty_inbox (head rxs) in
      let '(store_deltas, pending) := drain_store_deltas (store_rx rx) (pending_store_deltas st) in
      let* pending := flush_store_stats store_deltas pending in
      worker_loop fuel wakes (mkInbox (dir_rx rx) (atime_rx rx) [] :: tail rxs)
        (mkUpdateWorker (stashed_dir st) (stashed_atime st) (propagation_buf st) pending)
  end.

(** server/src/server/worker/update.rs:56-187 *)
Definition run_update_worker (fuel : nat) (wakes : list wake) (rxs : list Inbox) :
    prog (option (list Inbox * UpdateWorker)) :=
  worker_loop fuel wakes rxs idle_worker.
End worker.

(** ** What the deltas amount to *)

Section flush.
Context `{Blake3} `{Serde TreeEntry} `{UuidGen}.
Implicit Types (m : kvmap) (w : world kvmap).

Definition dir_key (repo path : string) : string * string * string :=
  (TABLE_DIR_ENTRIES, sharded_pk repo (tree_parent path), tree_sort_key path).

(** The counters of a directory: [Some None] when it has no entry, [None] when
    what is stored there is no directory. *)
Definition dir_state m (repo path : string) : option (option (Z * Z)) :=
  match m !! dir_key repo path with
  | None => Some None
  | Some (bytes, _) =>
      match from_slice bytes with
      | inr te => match te_kind te with
                  | TDir artifact_count total_bytes => Some (Some (artifact_count, total_bytes))
                  | TFile _ _ _ _ _ _ => None
                  end
      | inl _ => None
      end
  end.

(** The counters of a directory, zero when it has no entry. *)
Definition count_at m (repo path : string) : Z * Z := default (0%Z, 0%Z) (mjoin (dir_state m repo path)).

(** A path as the store keeps it. *)
Definition stored_dir (path : string) : Prop := canonical path ∧ has_char NUL path = false.

(** The delta is addressed to the entry of its directory. *)
Definition addressed (x : DirDelta) : Prop :=
  stored_dir (dd_dir_path x) ∧ dd_pk x = sharded_pk (dd_repo x) (tree_parent (dd_dir_path x)).

(** The directory of the delta is [path] or below it. *)
Definition below (repo path : string) (x : DirDelta) : Prop :=
  dd_repo x = repo ∧ segments path `prefix_of` segments (dd_dir_path x).

#[export] Instance below_dec repo path x : Decision (below repo path x).
Proof. unfold below. apply _. Defined.

Definition depth (x : DirDelta) : nat := length (segments (dd_dir_path x)).

(** The sum of a quantity over the deltas at and below a directory. *)
Definition total (f : DirDelta → Z) (repo path : string) (P : list DirDelta) : Z :=
  foldr (λ x z, if decide (below repo path x) then f x + z else z)%Z 0%Z P.

(** An assumption of the theorems, not a check of the code: the deltas can be
    added up in any grouping without a counter running out of its range.  A
    directory that has no entry yet gets only deltas that add artifacts; one
    that has an entry keeps at least one artifact, and no negative size, even
    if all the decrements come first; and no sum overflows.  The worker itself
    takes any deltas: counts are cut off at 0, an entry that reaches 0 is
    deleted, and a delta that its entry refuses is queued again for ever
    ([update_worker_livelock]). *)
Definition flushable m (P : list DirDelta) : Prop :=
  ∀ repo path, stored_dir path → (∃ x, x ∈ P ∧ below repo path x) →
  ∃ s, dir_state m repo path = Some s ∧
    let '(c, b) := default (0%Z, 0%Z) s in
    (0 ≤ c ∧ 0 ≤ b)%Z ∧
    match s with
    | None => ∀ x, x ∈ P → below repo path x → (0 < dd_count_delta x ∧ 0 ≤ dd_bytes_delta x)%Z
    | Some _ => (1 ≤ c + total (λ x, Z.min 0 (dd_count_delta x)) repo path P ∧
                 0 ≤ b + total (λ x, Z.min 0 (dd_bytes_delta x)) repo path P)%Z
    end ∧
    (c + total (λ x, Z.abs (dd_count_delta x)) repo path P < 2 ^ 63 ∧
     b + total (λ x, Z.abs (dd_bytes_delta x)) repo path P < 2 ^ 63)%Z.

(** *** Sums *)

Lemma total_cons f repo path x P :
  total f repo path (x :: P) = ((if decide (below repo path x) then f x else 0) + total f repo path P)%Z.
Proof. unfold total at 1. cbn [foldr]. fold (total f repo path P). case_decide; lia. Qed.

Lemma total_perm f repo path P P' : P ≡ₚ P' → total f repo path P = total f repo path P'.
Proof. induction 1; rewrite ?total_cons; lia. Qed.

Lemma total_nonneg f repo path P : (∀ x, 0 ≤ f x)%Z → (0 ≤ total f repo path P)%Z.
Proof. intros Hf. induction P as [|x P IH]; [done|]. rewrite total_cons. specialize (Hf x). case_decide; lia. Qed.

Lemma total_nonpos f repo path P : (∀ x, f x ≤ 0)%Z → (total f repo path P ≤ 0)%Z.
Proof. intros Hf. induction P as [|x P IH]; [done|]. rewrite total_cons. specialize (Hf x). case_decide; lia. Qed.

Lemma total_pos_zero f repo path P : (∀ x, x ∈ P → below repo path x → f x = 0)%Z → total f repo path P = 0%Z.
Proof.
  induction P as [|x P IH]; intros Hf; [done|]. rewrite total_cons, IH by (intros; apply Hf; [by right|done]).
  case_decide; [rewrite Hf by (done || by left)|]; done.
Qed.

Lemma flushable_perm m P P' : P ≡ₚ P' → flushable m P → flushable m P'.
Proof.
  intros HP Hf repo path Hd (x & Hx & Hb). rewrite <-HP in Hx.
  destruct (Hf repo path Hd ltac:(eauto)) as (s & Hs & Hrest). exists s. split; [done|].
  destruct (default _ s) as [c b]. destruct Hrest as (Hcb & Hnew & Hb1 & Hb2). split; [done|].
  rewrite <-!(total_perm _ _ _ _ _ HP). split; [|done].
  destruct s as [s|]; [done|]. intros y Hy. apply Hnew. by rewrite HP.
Qed.

(** *** Paths *)

Lemma prefix_snoc_inv (l k : list string) (x : string) : l `prefix_of` k ++ [x] → l `prefix_of` k ∨ l = k ++ [x].
Proof.
  intros [r Hr]. destruct r as [|y r _] using rev_ind; [right; by rewrite Hr, app_nil_r|].
  left. rewrite (assoc_L (++)) in Hr. apply app_inj_tail in Hr as [-> _]. by exists r.
Qed.

Lemma parent_dir_join l x : Forall segment_ok (l ++ [x]) → parent_dir (join_slash (l ++ [x])) = join_slash l.
Proof.
  intros Hok. pose proof (proj1 (tree_parent_name_join l x Hok)) as Hp. rewrite <-Hp. unfold tree_parent, parent_dir.
  rewrite decide_False; [done|]. by apply join_slash_nonempty; [|destruct l].
Qed.

(** The parent of a stored directory that is not the root. *)
Lemma parent_dir_segments path : stored_dir path → path ≠ "" →
  stored_dir (parent_dir path) ∧ ∃ x, segments path = segments (parent_dir path) ++ [x].
Proof.
  intros [Hc Hn] Hne. destruct (canonical_cases path Hc) as [->|(l & x & Hok & Hp)]; [done|].
  assert (parent_dir path = join_slash l) as Hpar by (subst path; by apply parent_dir_join).
  pose proof (proj1 (Forall_app _ _ _) Hok) as [Hl _]. rewrite Hpar. split; [split|].
  - unfold canonical. by rewrite normalize_path_join, segments_join.
  - apply has_char_join; [done|]. apply (has_char_segments NUL) in Hn. rewrite Hp, segments_join in Hn by done.
    by apply Forall_app in Hn as [? _].
  - exists x. rewrite Hp, !segments_join by done. done.
Qed.

Lemma stored_dir_segments p q : stored_dir p → stored_dir q → segments p = segments q → p = q.
Proof. intros [Hp _] [Hq _] Heq. apply normalize_path_eq in Heq. by rewrite Hp, Hq in Heq. Qed.

Lemma dir_key_inj r p r' p' : stored_dir p → stored_dir p' → dir_key r p = dir_key r' p' → r = r' ∧ p = p'.
Proof.
  intros [Cp Np] [Cq Nq]. unfold dir_key, sharded_pk. intros [= [-> _]%scoped_pk_inj Hsk]. split; [done|].
  apply tree_sort_key_split in Hsk as [Hpar Hname]; [|done..].
  destruct (decide (p = "")) as [->|Hp0], (decide (p' = "")) as [->|Hq0]; [done| | |].
  - apply tree_name_nonempty in Hq0; [|done]. by rewrite <-Hname in Hq0.
  - apply tree_name_nonempty in Hp0; [|done]. by rewrite Hname in Hp0.
  - by apply tree_parent_name_inj.
Qed.

Lemma below_self x : below (dd_repo x) (dd_dir_path x) x.
Proof. by split. Qed.

(** What the delta of the parent still concerns. *)
Lemma below_parent repo path x : stored_dir path → addressed x → dd_dir_path x ≠ "" →
  below repo path (make_parent_delta x) ↔
    below repo path x ∧ (repo, path) ≠ (dd_repo x, dd_dir_path x).
Proof.
  intros Hpath [Hx _] Hne. destruct (parent_dir_segments _ Hx Hne) as [Hpar [y Hy] ].
  unfold below. cbn [make_parent_delta dd_repo dd_dir_path]. rewrite Hy. split.
  - intros [-> Hpre]. split; [split; [done|]|].
    + by apply prefix_app_r.
    + intros [= ->]. apply prefix_length in Hpre. rewrite Hy, length_app in Hpre. cbn in Hpre. lia.
  - intros [ [-> Hpre] Hn]. split; [done|]. apply prefix_snoc_inv in Hpre as [Hpre|Hpre]; [done|].
    destruct Hn. f_equal. apply stored_dir_segments; [done..|]. by rewrite Hpre, Hy.
Qed.

Lemma below_root repo path x : stored_dir path → addressed x → dd_dir_path x = "" →
  below repo path x → (repo, path) = (dd_repo x, dd_dir_path x).
Proof.
  intros Hpath [Hx _] Hr [-> Hpre]. f_equal. apply stored_dir_segments; [done..|].
  rewrite Hr in *. by apply prefix_nil_inv in Hpre as ->.
Qed.

Lemma make_parent_addressed x : addressed x → dd_dir_path x ≠ "" → addressed (make_parent_delta x).
Proof. intros [Hx _] Hne. split; [|done]. by apply parent_dir_segments. Qed.

(** *** One delta *)

Context `{!SerdeExact TreeEntry}.
Hypothesis dirs_serialise : ∀ c b t1 t2, ∃ v, to_vec (mkTreeEntry (TDir c b) t1 t2) = inr v.

Lemma clamp_add_id a b : (0 ≤ a)%Z → (0 ≤ a + b)%Z → (a + Z.abs b < 2 ^ 63)%Z → clamp_add a b = (a + b)%Z.
Proof.
  intros. unfold clamp_add, i64_add. rewrite (i64_wrap_id a) by (unfold i64_ok; lia).
  rewrite i64_wrap_id by (unfold i64_ok; lia). lia.
Qed.

Lemma dir_state_insert m repo path te v n :
  to_vec te = inr v → ∀ c b, te_kind te = TDir c b →
  dir_state (<[dir_key repo path := (v, n)]> m) repo path = Some (Some (c, b)).
Proof using SerdeExact0.
  intros Hv c b Hk. unfold dir_state. rewrite lookup_insert_eq, (from_to_vec _ _ Hv), wire_id. by rewrite Hk.
Qed.

Lemma dir_state_ext m m' repo path :
  m' !! dir_key repo path = m !! dir_key repo path → dir_state m' repo path = dir_state m repo path.
Proof. unfold dir_state. by intros ->. Qed.

(** A delta that fits is applied, and changes its own entry only. *)
Lemma run_apply_dir_delta x w s :
  addressed x → dir_state (w_kv w) (dd_repo x) (dd_dir_path x) = Some s →
  let cb := default (0%Z, 0%Z) s in
  (0 ≤ cb.1 ∧ 0 ≤ cb.2)%Z → (1 ≤ cb.1 + dd_count_delta x ∧ 0 ≤ cb.2 + dd_bytes_delta x)%Z →
  (cb.1 + Z.abs (dd_count_delta x) < 2 ^ 63 ∧ cb.2 + Z.abs (dd_bytes_delta x) < 2 ^ 63)%Z →
  ∃ m', run (apply_dir_delta x) w = (Some (Ok true), set_kv m' w) ∧
    dir_state m' (dd_repo x) (dd_dir_path x) =
      Some (Some (cb.1 + dd_count_delta x, cb.2 + dd_bytes_delta x)%Z) ∧
    ∀ k, k ≠ dir_key (dd_repo x) (dd_dir_path x) → m' !! k = w_kv w !! k.
Proof using All.
  intros [_ Hpk] Hs cb [Hc Hb] [Hc' Hb'] [Hlc Hlb].
  assert (∃ te o, new_dir_entry o x = Some (Some te) ∧
    te_kind te = TDir (cb.1 + dd_count_delta x) (cb.2 + dd_bytes_delta x) ∧
    match w_kv w !! dir_key (dd_repo x) (dd_dir_path x) with
    | Some (bytes, _) => ∃ t, from_slice bytes = inr t ∧ o = Some t
    | None => o = None
    end) as (te & o & Hnew & Hte & Hread).
  { unfold dir_state in Hs. destruct (w_kv w !! _) as [ [bytes n]|].
    - destruct (from_slice bytes) as [|t]; [done|]. destruct (te_kind t) as [c b|] eqn:Ht; [|done].
      injection Hs as <-. subst cb. cbn [from_option id fst snd] in *.
      exists (mkTreeEntry (TDir (c + dd_count_delta x) (b + dd_bytes_delta x))
        (Z.max (te_last_modified_at t) (dd_timestamp x)) (Z.max (te_last_accessed_at t) (dd_timestamp x))), (Some t).
      split_and!; [|done|by exists t]. unfold new_dir_entry. rewrite Ht. cbv zeta.
      pose proof (clamp_add_id c (dd_count_delta x)) as Ec. pose proof (clamp_add_id b (dd_bytes_delta x)) as Eb.
      rewrite decide_False by lia. by rewrite Ec, Eb by lia.
    - injection Hs as <-. subst cb. cbn [from_option id fst snd] in *.
      exists (mkTreeEntry (TDir (dd_count_delta x) (dd_bytes_delta x)) (dd_timestamp x) (dd_timestamp x)), None.
      split_and!; [|done|done]. unfold new_dir_entry. rewrite decide_False by lia. by rewrite Z.max_l by lia. }
  destruct te as [kd t1 t2]. cbn in Hte. subst kd.
  destruct (dirs_serialise (cb.1 + dd_count_delta x) (cb.2 + dd_bytes_delta x) t1 t2) as [v Hv].
  unfold apply_dir_delta. rewrite Hpk. run_steps. fold (dir_key (dd_repo x) (dd_dir_path x)).
  destruct (w_kv w !! dir_key (dd_repo x) (dd_dir_path x)) as [ [bytes n]|] eqn:Em.
  - destruct Hread as (t & Ht & ->). rewrite Ht. cbn [serde_result result_bind try_]. rewrite Hnew.
    cbn [fmap option_fmap option_map snd]. rewrite Hv. cbn [serde_result try_]. rewrite (run_kv_spec (PutIfVersion _ _ _ _ _)).
    cbn [spec_store]. fold (dir_key (dd_repo x) (dd_dir_path x)). unfold spec_put_if_version. rewrite Em.
    rewrite decide_True by done. cbn [fst snd]. eexists. split; [done|]. split.
    + by eapply dir_state_insert.
    + intros k Hk. by rewrite lookup_insert_ne.
  - subst o. cbn [try_]. rewrite Hnew. cbn [fmap option_fmap option_map]. rewrite Hv. cbn [serde_result try_].
    rewrite (run_kv_spec (PutIfVersion _ _ _ _ _)). cbn [spec_store]. fold (dir_key (dd_repo x) (dd_dir_path x)). unfold spec_put_if_version.
    rewrite Em, decide_True by done. cbn [fst snd]. eexists. split; [done|]. split.
    + by eapply dir_state_insert.
    + intros k Hk. by rewrite lookup_insert_ne.
Qed.

(** *** Conservation *)

(** What a directory will count once the deltas have been applied. *)
Definition owed m (P : list DirDelta) (repo path : string) : Z * Z :=
  ((count_at m repo path).1 + total dd_count_delta repo path P,
   (count_at m repo path).2 + total dd_bytes_delta repo path P)%Z.

(** What is left to do once a delta has been applied. *)
Definition next_deltas (x : DirDelta) (P : list DirDelta) : list DirDelta :=
  if decide (dd_dir_path x = "") then P else make_parent_delta x :: P.

Lemma next_addressed x P : Forall addressed (x :: P) → Forall addressed (next_deltas x P).
Proof.
  intros [Hx HP]%Forall_cons. unfold next_deltas. case_decide; [done|].
  apply Forall_cons. split; [by apply make_parent_addressed|done].
Qed.

Lemma total_next f repo path x P :
  (∀ y, f (make_parent_delta y) = f y) → stored_dir path → addressed x →
  total f repo path (next_deltas x P) =
    (total f repo path (x :: P) -
     if decide ((repo, path) = (dd_repo x, dd_dir_path x)) then f x else 0)%Z.
Proof.
  intros Hf Hp Hx. unfold next_deltas. rewrite total_cons. case_decide as Hr.
  - pose proof (below_root repo path x Hp Hx Hr). pose proof (below_self x).
    repeat case_decide; simplify_eq/=; first [lia|tauto].
  - rewrite total_cons, Hf. pose proof (below_parent repo path x Hp Hx Hr) as Hb. pose proof (below_self x).
    repeat case_decide; simplify_eq/=; first [lia|tauto].
Qed.

Lemma elem_of_next x P y repo path : stored_dir path → addressed x →
  y ∈ next_deltas x P → below repo path y →
  y ∈ P ∨ dd_count_delta y = dd_count_delta x ∧ dd_bytes_delta y = dd_bytes_delta x ∧ below repo path x ∧
          (repo, path) ≠ (dd_repo x, dd_dir_path x).
Proof.
  intros Hp Hx. unfold next_deltas. case_decide as Hr; [by left|]. intros [->|Hy]%elem_of_cons Hb; [|by left].
  right. split_and!; [done|done|..]; apply (below_parent repo path x) in Hb; tauto.
Qed.

(** What the entry of the first delta must satisfy for it to be applied. *)
Lemma flushable_head m x P : addressed x → flushable m (x :: P) →
  ∃ s, dir_state m (dd_repo x) (dd_dir_path x) = Some s ∧
    let cb := default (0%Z, 0%Z) s in
    (0 ≤ cb.1 ∧ 0 ≤ cb.2)%Z ∧ (1 ≤ cb.1 + dd_count_delta x ∧ 0 ≤ cb.2 + dd_bytes_delta x)%Z ∧
    (cb.1 + Z.abs (dd_count_delta x) < 2 ^ 63 ∧ cb.2 + Z.abs (dd_bytes_delta x) < 2 ^ 63)%Z.
Proof.
  intros [Hd _] Hf. destruct (Hf _ _ Hd (ex_intro _ x (conj (list_elem_of_here _ _) (below_self x)))) as (s & Hs & Hrest).
  exists s. split; [done|]. destruct s as [ [c b]|]; cbn [from_option id fst snd] in *;
  destruct Hrest as (Hcb & Hnew & Hl); rewrite !total_cons, !decide_True in Hl by apply below_self.
  all: pose proof (total_nonneg (λ x, Z.abs (dd_count_delta x)) (dd_repo x) (dd_dir_path x) P ltac:(intros; lia)).
  all: pose proof (total_nonneg (λ x, Z.abs (dd_bytes_delta x)) (dd_repo x) (dd_dir_path x) P ltac:(intros; lia)).
  - rewrite !total_cons, !decide_True in Hnew by apply below_self.
    pose proof (total_nonpos (λ x, Z.min 0 (dd_count_delta x)) (dd_repo x) (dd_dir_path x) P ltac:(intros; lia)).
    pose proof (total_nonpos (λ x, Z.min 0 (dd_bytes_delta x)) (dd_repo x) (dd_dir_path x) P ltac:(intros; lia)).
    lia.
  - specialize (Hnew x ltac:(by left) (below_self x)). lia.
Qed.

(** Applying a delta keeps what is owed to every directory. *)
Lemma flushable_step m m' x P s :
  Forall addressed (x :: P) → flushable m (x :: P) →
  dir_state m (dd_repo x) (dd_dir_path x) = Some s →
  let cb := default (0%Z, 0%Z) s in
  dir_state m' (dd_repo x) (dd_dir_path x) = Some (Some (cb.1 + dd_count_delta x, cb.2 + dd_bytes_delta x)%Z) →
  (∀ k, k ≠ dir_key (dd_repo x) (dd_dir_path x) → m' !! k = m !! k) →
  flushable m' (next_deltas x P) ∧
  ∀ repo path, stored_dir path → owed m' (next_deltas x P) repo path = owed m (x :: P) repo path.
Proof.
  intros [Hx HP]%Forall_cons Hf Hs cb Hs' Hm'.
  assert (∀ repo path, stored_dir path → (repo, path) ≠ (dd_repo x, dd_dir_path x) →
    dir_state m' repo path = dir_state m repo path) as Hother.
  { intros repo path Hp Hne. apply dir_state_ext, Hm'. intros [-> ->]%dir_key_inj; [done|done|apply Hx]. }
  split.
  - intros repo path Hp (y & Hy & Hb).
    destruct (decide ((repo, path) = (dd_repo x, dd_dir_path x))) as [ [= -> ->]|Hne].
    + destruct (flushable_head m x P Hx Hf) as (s2 & Hs2 & H1' & H2' & H3').
      rewrite Hs in Hs2. injection Hs2 as <-. fold cb in H1', H2', H3'.
      destruct (Hf _ _ Hp (ex_intro _ x (conj (list_elem_of_here _ _) (below_self x)))) as (s2 & Hs2 & Hrest).
      rewrite Hs in Hs2. injection Hs2 as <-. fold cb in Hrest. destruct cb as [c b]; cbn [fst snd] in *.
      eexists. split; [exact Hs'|]. cbn [from_option id fst snd]. destruct Hrest as (Hcb & Hnew & Hl).
      rewrite !total_next by done. rewrite !total_cons in *. rewrite !decide_True in * by (done || apply below_self).
      split_and!; try lia.
      all: destruct s as [s|]; [try lia|].
      * rewrite (total_pos_zero (λ x, Z.min 0 (dd_count_delta x))); [lia|].
        intros z Hz Hbz. specialize (Hnew z ltac:(by right) Hbz). lia.
      * rewrite (total_pos_zero (λ x, Z.min 0 (dd_bytes_delta x))); [lia|].
        intros z Hz Hbz. specialize (Hnew z ltac:(by right) Hbz). lia.
    + assert (∃ z, z ∈ x :: P ∧ below repo path z) as Hex.
      { destruct (elem_of_next x P y repo path Hp Hx Hy Hb) as [?|(_ & _ & ? & _)].
        - exists y. split; [by right|done].
        - exists x. split; [by left|done]. }
      destruct (Hf repo path Hp Hex) as (s2 & Hs2 & Hrest). exists s2. rewrite Hother by done. split; [done|].
      destruct (default _ s2) as [c b]. destruct Hrest as (Hcb & Hnew & Hl). split; [done|].
      rewrite !total_next by done. rewrite !decide_False by done. rewrite !Z.sub_0_r. split; [|done].
      destruct s2 as [s2|]; [done|]. intros z Hz Hbz.
      destruct (elem_of_next x P z repo path Hp Hx Hz Hbz) as [?|(-> & -> & ? & _)].
      * apply Hnew; [by right|done].
      * apply Hnew; [by left|done].
  - intros repo path Hp. unfold owed, count_at. rewrite !total_next by done. case_decide as He.
    + injection He as -> ->. rewrite Hs, Hs'. cbn [mjoin option_join from_option id fst snd]. fold cb.
      rewrite !total_cons, !decide_True by apply below_self. change (default (0%Z, 0%Z) s) with cb. f_equal; lia.
    + rewrite Hother by done. f_equal; lia.
Qed.

(** Adding two deltas up keeps it too. *)
Lemma flushable_coalesce m x y P :
  addressed x → addressed y → (dd_pk x, dd_dir_path x) = (dd_pk y, dd_dir_path y) →
  flushable m (x :: y :: P) →
  addressed (coalesce x y) ∧ depth (coalesce x y) = depth x ∧ flushable m (coalesce x y :: P) ∧
  ∀ repo path, owed m (coalesce x y :: P) repo path = owed m (x :: y :: P) repo path.
Proof.
  intros Hx Hy [= Hpk Hpath] Hf.
  assert (dd_repo x = dd_repo y) as Hrepo.
  { destruct Hx as [_ Hx], Hy as [_ Hy]. rewrite Hx, Hy in Hpk. by apply scoped_pk_inj in Hpk as [? _]. }
  assert (∀ repo path, below repo path (coalesce x y) ↔ below repo path x) as Bc by done.
  assert (∀ repo path, below repo path y ↔ below repo path x) as By.
  { intros. unfold below. by rewrite Hrepo, Hpath. }
  destruct (Hf _ _ (proj1 Hx) (ex_intro _ x (conj (list_elem_of_here _ _) (below_self x)))) as (s & _ & Hrest).
  destruct (default _ s) as [c b]. destruct Hrest as (Hcb & _ & Hl). rewrite !total_cons in Hl.
  rewrite !(decide_True _ _ (below_self x)) in Hl. rewrite !(decide_True (P := below _ _ y)) in Hl by (apply By, below_self).
  pose proof (total_nonneg (λ x, Z.abs (dd_count_delta x)) (dd_repo x) (dd_dir_path x) P ltac:(intros; lia)).
  pose proof (total_nonneg (λ x, Z.abs (dd_bytes_delta x)) (dd_repo x) (dd_dir_path x) P ltac:(intros; lia)).
  assert (dd_count_delta (coalesce x y) = dd_count_delta x + dd_count_delta y)%Z as Ec.
  { cbn [coalesce dd_count_delta]. apply i64_wrap_id. unfold i64_ok. lia. }
  assert (dd_bytes_delta (coalesce x y) = dd_bytes_delta x + dd_bytes_delta y)%Z as Eb.
  { cbn [coalesce dd_bytes_delta]. apply i64_wrap_id. unfold i64_ok. lia. }
  assert (∀ repo path, (if decide (below repo path (coalesce x y)) then 1 else 0)%Z =
    (if decide (below repo path x) then 1 else 0)%Z) as _ by done.
  split_and!; [by destruct Hx|done| |].
  - intros repo path Hp (z & Hz & Hbz).
    assert (∃ z, z ∈ x :: y :: P ∧ below repo path z) as Hex.
    { apply elem_of_cons in Hz as [->|Hz]; [exists x|exists z]; (split; [|done]); [by left|by do 2 right]. }
    destruct (Hf repo path Hp Hex) as (s2 & Hs2 & Hrest). exists s2. split; [done|].
    destruct (default _ s2) as [c2 b2]. destruct Hrest as (Hcb2 & Hnew & Hl2). split; [done|].
    rewrite !total_cons in *. rewrite Ec, Eb. specialize (Bc repo path). specialize (By repo path).
    split; [|repeat case_decide; try tauto; lia].
    destruct s2 as [s2|]; [repeat case_decide; try tauto; lia|].
    intros u [->|Hu]%elem_of_cons Hbu; [|apply Hnew; [by do 2 right|done] ].
    pose proof (Hnew x ltac:(by left) Hbu). pose proof (Hnew y ltac:(right; by left) ltac:(by apply By)). lia.
  - intros repo path. unfold owed. rewrite !total_cons, Ec, Eb.
    specialize (Bc repo path). specialize (By repo path). repeat case_decide; try tauto; f_equal; lia.
Qed.

(** *** Batches *)

(** [P] is left to do, and leads to the counters [T]. *)
Definition plan m (T : string → string → Z * Z) (P : list DirDelta) : Prop :=
  Forall addressed P ∧ flushable m P ∧ ∀ repo path, stored_dir path → owed m P repo path = T repo path.

(** Every delta of the map is under its key. *)
Definition keyed (M : DirDeltaMap) : Prop := ∀ k x, M !! k = Some x → k = (dd_pk x, dd_dir_path x).

Definition values (M : DirDeltaMap) : list DirDelta := (map_to_list M).*2.

Lemma plan_perm m T P P' : P ≡ₚ P' → plan m T P → plan m T P'.
Proof.
  intros HP (Ha & Hf & Ho). split_and!; [by rewrite <-HP|by eapply flushable_perm|].
  intros repo path Hp. rewrite <-Ho by done. unfold owed. by rewrite !(total_perm _ _ _ _ _ HP).
Qed.

Lemma values_merge M x : keyed M →
  keyed (merge_dir_delta M x) ∧
  (values (merge_dir_delta M x) ≡ₚ x :: values M ∨
   ∃ e rest, values M ≡ₚ e :: rest ∧ values (merge_dir_delta M x) ≡ₚ coalesce e x :: rest ∧
     (dd_pk e, dd_dir_path e) = (dd_pk x, dd_dir_path x)).
Proof.
  intros HM. unfold merge_dir_delta. destruct (M !! _) as [e|] eqn:He.
  - pose proof (HM _ _ He) as Hk. split.
    + intros k y [ [<- <-]|[_ Hy] ]%lookup_insert_Some; [|by apply HM]. by rewrite Hk.
    + right. exists e, (values (delete (dd_pk x, dd_dir_path x) M)). split_and!; [| |done].
      * unfold values. rewrite <-(insert_delete_id M _ e He) at 1.
        rewrite map_to_list_insert by apply lookup_delete_eq. done.
      * unfold values. rewrite <-insert_delete_eq. rewrite map_to_list_insert by apply lookup_delete_eq. done.
  - split.
    + intros k y [ [<- <-]|[_ Hy] ]%lookup_insert_Some; [done|by apply HM].
    + left. unfold values. by rewrite map_to_list_insert.
Qed.

Lemma plan_merge m T M x Q : keyed M → plan m T (x :: values M ++ Q) →
  plan m T (values (merge_dir_delta M x) ++ Q).
Proof.
  intros HM Hp. destruct (values_merge M x HM) as [_ [Hv|(e & rest & Hv & Hv' & Hk)] ].
  - eapply plan_perm; [|exact Hp]. by rewrite Hv.
  - apply (plan_perm _ _ (coalesce e x :: rest ++ Q)); [by rewrite Hv'|].
    assert (plan m T (e :: x :: rest ++ Q)) as (Ha & Hf & Ho).
    { eapply plan_perm; [|exact Hp]. rewrite Hv. by constructor. }
    apply Forall_cons in Ha as [He [Hx Hrest]%Forall_cons].
    destruct (flushable_coalesce m e x _ He Hx Hk Hf) as (Hc & _ & Hf' & Ho').
    split_and!; [by constructor|done|]. intros repo path Hp'. by rewrite Ho', Ho.
Qed.

Lemma plan_merge_all m T l M Q : keyed M → plan m T (l ++ values M ++ Q) →
  keyed (foldl merge_dir_delta M l) ∧ plan m T (values (foldl merge_dir_delta M l) ++ Q).
Proof.
  revert M. induction l as [|x l IH]; intros M HM Hp; [done|]. cbn [foldl].
  apply IH; [by apply values_merge|].
  apply (plan_perm _ _ (values (merge_dir_delta M x) ++ (l ++ Q))); [solve_Permutation|].
  apply plan_merge; [done|]. eapply plan_perm; [|exact Hp]. cbn. constructor. solve_Permutation.
Qed.

Lemma depth_merge_all n l M : keyed M → Forall (λ x, depth x < n) l → Forall (λ x, depth x < n) (values M) →
  Forall (λ x, depth x < n) (values (foldl merge_dir_delta M l)).
Proof.
  revert M. induction l as [|x l IH]; intros M HM Hl HMn; [done|]. cbn [foldl].
  apply Forall_cons in Hl as [Hx Hl]. destruct (values_merge M x HM) as [Hk Hv].
  apply IH; [done|done|]. destruct Hv as [->|(e & rest & Hv & -> & _)]; [by constructor|].
  rewrite Hv in HMn. apply Forall_cons in HMn as [He Hrest]. by constructor.
Qed.

Lemma depth_parent x : addressed x → dd_dir_path x ≠ "" → depth x = S (depth (make_parent_delta x)).
Proof.
  intros [Hx _] Hne. destruct (parent_dir_segments _ Hx Hne) as [_ [y Hy] ]. unfold depth.
  cbn [make_parent_delta dd_dir_path]. rewrite Hy, length_app. cbn [length]. lia.
Qed.

(** Only directory entries change. *)
Definition only_dirs m m' : Prop := ∀ t pk sk, t ≠ TABLE_DIR_ENTRIES → m' !! (t, pk, sk) = m !! (t, pk, sk).

(** The first delta of a plan is applied, and leaves the rest of it. *)
Lemma run_apply_next T x P w : plan (w_kv w) T (x :: P) →
  ∃ m', run (apply_dir_delta x) w = (Some (Ok true), set_kv m' w) ∧
    plan m' T (next_deltas x P) ∧ only_dirs (w_kv w) m'.
Proof using All.
  intros (Ha & Hf & Ho). pose proof Ha as [Hx _]%Forall_cons.
  destruct (flushable_head _ x P Hx Hf) as (s & Hs & Hb1 & Hb2 & Hb3).
  destruct (run_apply_dir_delta x w s Hx Hs Hb1 Hb2 Hb3) as (m' & Hrun & Hs' & Hm').
  exists m'. split; [done|]. destruct (flushable_step (w_kv w) m' x P s Ha Hf Hs Hs' Hm') as [Hf' Ho'].
  split; [split_and!|].
  - by apply next_addressed.
  - done.
  - intros repo path Hp. by rewrite Ho', Ho.
  - intros t pk sk Ht. apply Hm'. by intros [= -> _ _].
Qed.

Lemma only_dirs_trans m1 m2 m3 : only_dirs m1 m2 → only_dirs m2 m3 → only_dirs m1 m3.
Proof. intros H12 H23 t pk sk Ht. by rewrite H23, H12. Qed.

Lemma depth_next n x P : addressed x → depth x < S n → Forall (λ y, depth y < n) P →
  Forall (λ y, depth y < n) (next_deltas x P).
Proof.
  intros Ha Hx HP. unfold next_deltas. case_decide as Hr; [done|]. constructor; [|done].
  pose proof (depth_parent x Ha Hr). lia.
Qed.

Lemma run_apply_dir_batch T n deltas parents w :
  plan (w_kv w) T (deltas ++ parents) → Forall (λ x, depth x < S n) deltas → Forall (λ x, depth x < n) parents →
  ∃ m' parents', run (apply_dir_batch deltas (mkDirBatchResult parents [])) w =
      (Some (mkDirBatchResult parents' []), set_kv m' w) ∧
    plan m' T parents' ∧ Forall (λ x, depth x < n) parents' ∧ only_dirs (w_kv w) m'.
Proof using All.
  revert parents w. induction deltas as [|x deltas IH]; intros parents w Hp Hd Hn.
  - exists (w_kv w), parents. cbn [apply_dir_batch run]. by rewrite set_kv_id.
  - apply Forall_cons in Hd as [Hx Hd]. pose proof Hp as ( [Ha _]%Forall_cons & _).
    destruct (run_apply_next T x (deltas ++ parents) w Hp) as (m1 & Hrun & Hp1 & Hm1).
    pose proof (depth_next n x parents Ha Hx Hn) as Hn1.
    set (parents1 := if decide (dd_dir_path x = "") then parents else parents ++ [make_parent_delta x]).
    assert (parents1 ≡ₚ next_deltas x parents) as Hpar.
    { unfold parents1, next_deltas. case_decide; [done|]. by rewrite (comm (++)). }
    destruct (IH parents1 (set_kv m1 w)) as (m2 & parents2 & Hrun2 & Hp2 & Hd2 & Hm2).
    + cbn [w_kv set_kv]. eapply plan_perm; [|exact Hp1]. rewrite Hpar. unfold next_deltas.
      case_decide; [done|]. solve_Permutation.
    + done.
    + by rewrite Hpar.
    + exists m2, parents2. cbn [apply_dir_batch]. rewrite run_bind, Hrun. split_and!; [|done|done|].
      * unfold parents1 in Hrun2. cbn [br_parents br_retries]. case_decide; exact Hrun2.
      * by eapply only_dirs_trans.
Qed.

Context `{Serde StoreStatsRecord} `{Scheduler}.

Lemma arrange_nil A site : arrange site (@nil A) = [].
Proof. apply Permutation_nil. symmetry. apply arrange_perm. Qed.

Lemma drain_no_store_deltas pending : pending = ∅ → drain_store_deltas [] pending = ([], ∅).
Proof. intros ->. unfold drain_store_deltas. cbn [foldl]. by rewrite map_to_list_empty, arrange_nil. Qed.

Lemma map_values_perm {K A} `{Countable K} site (M : gmap K A) : map_values site M ≡ₚ (map_to_list M).*2.
Proof. unfold map_values. by rewrite arrange_perm. Qed.

(** What a pass starts from. *)
Lemma plan_collect m T rx st : keyed (propagation_buf st) → stashed_dir st = None →
  plan m T (rx ++ values (propagation_buf st)) →
  keyed (collect_dir rx st) ∧ plan m T (values (collect_dir rx st)).
Proof.
  intros Hk Hs Hp. unfold collect_dir, drain_dir_deltas. rewrite Hs.
  destruct (plan_merge_all m T rx ∅ (values (propagation_buf st))) as [Hk1 Hp1]; [done|done|].
  destruct (plan_merge_all m T (map_values 21 (propagation_buf st)) (foldl merge_dir_delta ∅ rx) []) as [Hk2 Hp2].
  - done.
  - eapply plan_perm; [|exact Hp1]. rewrite app_nil_r, map_values_perm. by rewrite (comm (++)).
  - by rewrite app_nil_r in Hp2.
Qed.

Lemma depth_collect n rx st : keyed (propagation_buf st) → stashed_dir st = None →
  Forall (λ x, depth x < n) rx → Forall (λ x, depth x < n) (values (propagation_buf st)) →
  Forall (λ x, depth x < n) (values (collect_dir rx st)).
Proof.
  intros Hk Hs Hrx Hb. unfold collect_dir, drain_dir_deltas. rewrite Hs.
  assert (keyed (foldl merge_dir_delta ∅ rx)) as Hk1.
  { clear -rx. cut (∀ M, keyed M → keyed (foldl merge_dir_delta M rx)); [intros Hc; by apply Hc|].
    induction rx as [|x rx IH]; intros M HM; [done|]. by apply IH, values_merge. }
  apply depth_merge_all; [done|by rewrite map_values_perm|]. by apply depth_merge_all.
Qed.

(** One round without access times and store deltas. *)
Lemma run_work_pass T n rx st w :
  stashed_dir st = None → stashed_atime st = None → pending_store_deltas st = ∅ →
  keyed (propagation_buf st) → plan (w_kv w) T (rx ++ values (propagation_buf st)) →
  Forall (λ x, depth x < S n) rx → Forall (λ x, depth x < S n) (values (propagation_buf st)) →
  ∃ m' did buf, run (work_pass (mkInbox rx [] []) st) w = (Some (did, mkUpdateWorker None None buf ∅), set_kv m' w) ∧
    (did = false → buf = ∅) ∧ keyed buf ∧ plan m' T (values buf) ∧ Forall (λ x, depth x < n) (values buf) ∧
    only_dirs (w_kv w) m'.
Proof using All.
  intros Hs1 Hs2 Hs3 Hk Hp Hd1 Hd2. destruct (plan_collect (w_kv w) T rx st Hk Hs1 Hp) as [Hk1 Hp1].
  pose proof (depth_collect (S n) rx st Hk Hs1 Hd1 Hd2) as Hd3.
  pose proof (drain_no_store_deltas _ Hs3) as Hst.
  unfold work_pass. cbn [dir_rx atime_rx store_rx]. unfold collect_atime. rewrite Hs2, Hst.
  change (drain_atime []) with (∅ : AtimeMap). set (M := collect_dir rx st) in *.
  destruct (decide (M = ∅)) as [HM|HM].
  - exists (w_kv w), false, ∅. rewrite run_bind. cbn [run]. rewrite run_bind, decide_True by done. cbn [run].
    rewrite run_bind, decide_True by done. cbn [run]. rewrite !bool_decide_true by done. rewrite set_kv_id.
    split_and!; [done|done|done| |done|done]. by rewrite HM in Hp1.
  - destruct (run_apply_dir_batch T n (map_values 22 M) [] w) as (m1 & parents & Hrun & Hp2 & Hd4 & Hm1).
    + rewrite app_nil_r. eapply plan_perm; [|exact Hp1]. by rewrite map_values_perm.
    + by rewrite map_values_perm.
    + done.
    + destruct (plan_merge_all m1 T parents ∅ []) as [Hk2 Hp3]; [done|by rewrite app_nil_r|].
      exists m1, true, (foldl merge_dir_delta ∅ parents). rewrite run_bind, run_bind, Hrun. cbn [run br_parents br_retries foldl].
      rewrite run_bind, decide_True by done. cbn [run]. rewrite run_bind, decide_True by done. cbn [run].
      rewrite bool_decide_false by done. rewrite app_nil_r in Hp3.
      split_and!; [done|done|done|done| |done]. by apply depth_merge_all.
Qed.

Lemma run_process T n fuel rxs rx st w :
  stashed_dir st = None → stashed_atime st = None → pending_store_deltas st = ∅ →
  keyed (propagation_buf st) → plan (w_kv w) T (rx ++ values (propagation_buf st)) →
  Forall (λ x, depth x < n) rx → Forall (λ x, depth x < n) (values (propagation_buf st)) →
  rxs = [] ∧ rx = [] ∨ rxs = [mkInbox rx [] []] → n < fuel →
  ∃ m', run (process fuel rxs st) w = (Some ([], idle_worker), set_kv m' w) ∧
    plan m' T [] ∧ only_dirs (w_kv w) m'.
Proof using All.
  revert n rxs rx st w. induction fuel as [|fuel IH]; intros n rxs rx st w Hs1 Hs2 Hs3 Hk Hp Hd1 Hd2 Hrxs Hn; [lia|].
  assert (default empty_inbox (head rxs) = mkInbox rx [] [] ∧ tail rxs = []) as [Hhd Htl].
  { by destruct Hrxs as [ [-> ->]| ->]. }
  cbn [process]. rewrite Hhd, Htl, run_bind.
  destruct (run_work_pass T (pred n) rx st w) as (m1 & did & buf & Hrun & Hdid & Hk1 & Hp1 & Hd3 & Hm1); [done..| | |].
  { eapply Forall_impl; [exact Hd1|]. cbn. intros; lia. }
  { eapply Forall_impl; [exact Hd2|]. cbn. intros; lia. }
  rewrite Hrun. cbn [fst snd]. destruct did.
  - destruct n as [|n].
    { assert (rx = [] ∧ values (propagation_buf st) = []) as [-> Hv].
      { split; [destruct rx as [|x rx]|destruct (values _) as [|x l] ]; [done| |done|].
        - apply Forall_cons in Hd1 as [? _]. lia.
        - apply Forall_cons in Hd2 as [? _]. lia. }
      exfalso. unfold values in Hv. apply fmap_nil_inv, map_to_list_empty_iff in Hv.
      unfold work_pass, collect_dir, collect_atime, drain_store_deltas, map_values in Hrun. cbn [dir_rx atime_rx store_rx foldl] in Hrun.
      rewrite Hs1, Hs2, Hs3, Hv, !map_to_list_empty, !arrange_nil in Hrun. by vm_compute in Hrun. }
    destruct (IH n [] [] (mkUpdateWorker None None buf ∅) (set_kv m1 w)) as (m2 & Hrun2 & Hp2 & Hm2);
      [done|done|done|done|done|done|done|by left|lia|].
    exists m2. split_and!; [done|done|]. by eapply only_dirs_trans.
  - rewrite Hdid in * by done. exists m1. cbn [run]. split_and!; [done|done|done].
Qed.

(** *** Shutting down *)

Lemma run_propagate_round T n deltas M w :
  keyed M → plan (w_kv w) T (deltas ++ values M) →
  Forall (λ x, depth x < S n) deltas → Forall (λ x, depth x < n) (values M) →
  ∃ m' M', run (propagate_round deltas M) w = (Some M', set_kv m' w) ∧
    keyed M' ∧ plan m' T (values M') ∧ Forall (λ x, depth x < n) (values M') ∧ only_dirs (w_kv w) m'.
Proof using All.
  revert M w. induction deltas as [|x deltas IH]; intros M w HM Hp Hd Hn.
  - exists (w_kv w), M. cbn [propagate_round run]. by rewrite set_kv_id.
  - apply Forall_cons in Hd as [Hx Hd]. pose proof Hp as ( [Ha _]%Forall_cons & _).
    destruct (run_apply_next T x (deltas ++ values M) w Hp) as (m1 & Hrun & Hp1 & Hm1).
    set (M1 := if decide (dd_dir_path x = "") then M else merge_dir_delta M (make_parent_delta x)).
    destruct (IH M1 (set_kv m1 w)) as (m2 & M2 & Hrun2 & HM2 & Hp2 & Hd2 & Hm2).
    + unfold M1. case_decide; [done|]. by apply values_merge.
    + cbn [w_kv set_kv]. unfold M1, next_deltas in *. case_decide; [done|].
      eapply plan_perm; [apply Permutation_app_comm|]. apply plan_merge; [done|].
      eapply plan_perm; [|exact Hp1]. constructor. apply Permutation_app_comm.
    + done.
    + unfold M1. case_decide as Hr; [done|]. pose proof (depth_parent x Ha Hr).
      apply (depth_merge_all n [make_parent_delta x] M); [done| |done]. repeat constructor. lia.
    + exists m2, M2. cbn [propagate_round]. rewrite run_bind, Hrun. split_and!; [|done..|].
      * unfold M1 in Hrun2. exact Hrun2.
      * by eapply only_dirs_trans.
Qed.

Lemma run_propagate T n fuel M w :
  keyed M → plan (w_kv w) T (values M) → Forall (λ x, depth x < n) (values M) → n < fuel →
  ∃ m', run (propagate fuel M) w = (Some tt, set_kv m' w) ∧ plan m' T [] ∧ only_dirs (w_kv w) m'.
Proof using All.
  revert n M w. induction fuel as [|fuel IH]; intros n M w HM Hp Hd Hn; [lia|]. cbn [propagate].
  destruct (decide (M = ∅)) as [->|Hne]; [exists (w_kv w); cbn [run]; by rewrite set_kv_id|].
  destruct n as [|n].
  { destruct Hne. destruct (values M) as [|x l] eqn:Hv.
    - unfold values in Hv. by apply fmap_nil_inv, map_to_list_empty_iff in Hv.
    - apply Forall_cons in Hd as [? _]. lia. }
  destruct (run_propagate_round T n (map_values 24 M) ∅ w) as (m1 & M1 & Hrun & HM1 & Hp1 & Hd1 & Hm1); [done|..].
  { eapply plan_perm; [|exact Hp]. unfold values at 2. rewrite map_to_list_empty. cbn. by rewrite app_nil_r, map_values_perm. }
  { by rewrite map_values_perm. }
  { by unfold values; rewrite map_to_list_empty. }
  rewrite run_bind, Hrun. destruct (IH n M1 (set_kv m1 w)) as (m2 & Hrun2 & Hp2 & Hm2); [done..|lia|].
  exists m2. split_and!; [done|done|]. by eapply only_dirs_trans.
Qed.

Lemma run_final_flush T n fuel rx st w :
  stashed_dir st = None → pending_store_deltas st = ∅ → keyed (propagation_buf st) →
  plan (w_kv w) T (rx ++ values (propagation_buf st)) →
  Forall (λ x, depth x < n) rx → Forall (λ x, depth x < n) (values (propagation_buf st)) → n < fuel →
  ∃ m', run (final_flush fuel (mkInbox rx [] []) st) w = (Some tt, set_kv m' w) ∧
    plan m' T [] ∧ only_dirs (w_kv w) m'.
Proof using All.
  intros Hs Hpend Hk Hp Hd1 Hd2 Hn. destruct (plan_collect (w_kv w) T rx st Hk Hs Hp) as [Hk1 Hp1].
  pose proof (depth_collect n rx st Hk Hs Hd1 Hd2) as Hd3.
  destruct (run_propagate T n fuel _ w Hk1 Hp1 Hd3 Hn) as (m1 & Hrun & Hp2 & Hm1).
  exists m1. split; [|done]. unfold final_flush. cbn [dir_rx atime_rx store_rx]. rewrite run_bind, Hrun.
  change (drain_atime []) with (∅ : AtimeMap). rewrite run_bind, decide_True by done. cbn [run].
  by rewrite drain_no_store_deltas.
Qed.
End flush.

(** ** Where deltas come from *)

(** A path without NUL bytes is stored in normal form. *)
Lemma stored_dir_of path : has_char NUL path = false → stored_dir (parent_dir (normalize_path path)).
Proof.
  intros Hn. pose proof (normalize_path_no_char NUL path Hn) as Hc.
  destruct (decide (normalize_path path = "")) as [->|Hne]; [done|].
  apply parent_dir_segments; [|done]. split; [apply normalize_path_canonical|done].
Qed.

(** The event that a handler sends is addressed to the parent directory. *)
Lemma run_dir_changed `{Blake3} `{UuidGen} (repo path : string) (c b : Z) (w : world kvmap) :
  has_char NUL path = false →
  ∃ x, run (dir_changed repo path c b) w = (Some tt, push_sent (EvDir x) w) ∧ addressed x ∧
    dd_repo x = repo ∧ dd_dir_path x = parent_dir (normalize_path path) ∧
    dd_count_delta x = c ∧ dd_bytes_delta x = b ∧ dd_timestamp x = w_now w.
Proof. intros Hn. eexists. split; [reflexivity|]. split_and!; [split; [by apply stored_dir_of|done]|done..]. Qed.

(** ** Deltas that cannot be applied *)

Section stuck.
Context `{Blake3} `{Serde TreeEntry} `{Serde StoreStatsRecord} `{Scheduler} `{UuidGen}.
Implicit Types (m : kvmap) (w : world kvmap).

(** The entry refuses the delta: it is missing and the delta adds no artifact,
    or it is a file, or it cannot be read. *)
Definition stuck m (x : DirDelta) : Prop :=
  match m !! (TABLE_DIR_ENTRIES, dd_pk x, tree_sort_key (dd_dir_path x)) with
  | None => (dd_count_delta x ≤ 0)%Z
  | Some (bytes, _) =>
      match from_slice (A:=TreeEntry) bytes with
      | inr te => match te_kind te with TDir _ _ => False | TFile _ _ _ _ _ _ => True end
      | inl _ => True
      end
  end.

Lemma run_apply_stuck x w : stuck (w_kv w) x →
  ∃ r, run (apply_dir_delta x) w = (Some r, w) ∧ r ≠ Ok true.
Proof.
  unfold stuck, apply_dir_delta. intros Hx. run_steps.
  destruct (w_kv w !! _) as [ [bytes v]|] eqn:Hm.
  - destruct (from_slice bytes) as [e|te]; cbn [serde_result result_bind try_ run]; [by eexists|].
    unfold new_dir_entry. destruct (te_kind te); [done|]. by eexists.
  - cbn [try_]. unfold new_dir_entry. rewrite decide_True by done. by eexists.
Qed.

Definition alone (x : DirDelta) : DirDeltaMap := {[ (dd_pk x, dd_dir_path x) := x ]}.

Lemma map_values_alone site x : map_values site (alone x) = [x].
Proof.
  unfold map_values, alone. rewrite map_to_list_singleton.
  assert (arrange site [((dd_pk x, dd_dir_path x), x)] = [((dd_pk x, dd_dir_path x), x)]) as ->; [|done].
  apply Permutation_singleton_r. apply arrange_perm.
Qed.

Lemma run_work_pass_stuck x rx st w :
  stashed_atime st = None → pending_store_deltas st = ∅ → collect_dir rx st = alone x → stuck (w_kv w) x →
  run (work_pass (mkInbox rx [] []) st) w = (Some (true, mkUpdateWorker None None (alone x) ∅), w).
Proof.
  intros Hs Hp Hc Hx. unfold work_pass. cbn [dir_rx atime_rx store_rx]. rewrite Hc.
  unfold collect_atime. rewrite Hs. change (drain_atime []) with (∅ : AtimeMap).
  rewrite (drain_no_store_deltas _ Hp).
  assert (alone x ≠ ∅) as Hne by apply map_non_empty_singleton.
  rewrite decide_False by done. rewrite map_values_alone. cbn [apply_dir_batch br_parents br_retries app].
  destruct (run_apply_stuck x w Hx) as (r & Hr & Hnr).
  rewrite run_bind, run_bind, run_bind, Hr. cbn [run].
  assert (∀ A (a b : A), match r with Ok true => a | Ok false | Err _ => b end = b) as Hm.
  { intros. destruct r as [ []|]; done. }
  rewrite Hm. cbn [run br_parents br_retries foldl app].
  rewrite run_bind, decide_True by done. cbn [run]. rewrite run_bind, decide_True by done. cbn [run].
  rewrite bool_decide_false by done. done.
Qed.

Lemma collect_alone x st : stashed_dir st = None → propagation_buf st = alone x → collect_dir [] st = alone x.
Proof.
  intros Hs Hb. unfold collect_dir. rewrite Hs, Hb, map_values_alone. cbn [drain_dir_deltas foldl].
  unfold merge_dir_delta. by rewrite lookup_empty.
Qed.

Lemma run_process_stuck x fuel rxs rx st w :
  stashed_atime st = None → pending_store_deltas st = ∅ → stuck (w_kv w) x →
  rxs = [] ∧ rx = [] ∨ rxs = [mkInbox rx [] []] → collect_dir rx st = alone x →
  run (process fuel rxs st) w = (None, w).
Proof.
  intros Hs Hp Hx. revert rxs rx st Hs Hp. induction fuel as [|fuel IH]; intros rxs rx st Hs Hp Hrxs Hc; [done|].
  cbn [process]. assert (default empty_inbox (head rxs) = mkInbox rx [] [] ∧ tail rxs = []) as [-> ->].
  { by destruct Hrxs as [ [-> ->]| ->]. }
  rewrite run_bind, (run_work_pass_stuck x) by done. cbn [fst snd].
  apply (IH [] []); [done|done|by left|]. by apply collect_alone.
Qed.
End stuck.

(** ** Store counters *)

Section stats.
Context `{Serde StoreStatsRecord} `{!SerdeExact StoreStatsRecord} `{Scheduler} `{UuidGen}.
Hypothesis stats_serialise : ∀ s : StoreStatsRecord, ∃ v, to_vec s = inr v.
Implicit Types (m : kvmap) (w : world kvmap).

(** The counters of a store, zero when it has none; [None] when they cannot be
    read. *)
Definition stats_at m (store : string) : option (Z * Z) :=
  match m !! store_stats_key store with
  | None => Some (0, 0)%Z
  | Some (bytes, _) =>
      match from_slice (A:=StoreStatsRecord) bytes with
      | inr s => Some (ss_blob_count s, ss_total_bytes s)
      | inl _ => None
      end
  end.

Lemma store_stats_key_inj s1 s2 : store_stats_key s1 = store_stats_key s2 → s1 = s2.
Proof. unfold store_stats_key. intros [= Heq]. done. Qed.

Lemma run_flush_one_store attempts store c b w old :
  stats_at (w_kv w) store = Some old →
  ∃ m', run (flush_one_store (S attempts) store c b) w = (Some true, set_kv m' w) ∧
    stats_at m' store = Some (clamp_add old.1 c, clamp_add old.2 b) ∧
    ∀ k, k ≠ store_stats_key store → m' !! k = w_kv w !! k.
Proof using All.
  intros Hold. unfold stats_at in Hold. cbn [flush_one_store].
  destruct (stats_serialise (mkStoreStatsRecord (clamp_add old.1 c) (clamp_add old.2 b) (w_now w))) as [v Hv].
  destruct (store_stats_key store) as [ [t pk] sk] eqn:Ek.
  exists (<[(t, pk, sk) := (v, u64_add (version_of (w_kv w !! (t, pk, sk))) 1)]> (w_kv w)).
  split_and!.
  - rewrite run_bind, run_kv_spec. cbn [spec_store fst snd]. rewrite set_kv_id.
    destruct (w_kv w !! (t, pk, sk)) as [ [bytes n]|] eqn:Hm.
    + destruct (from_slice bytes) as [|s] eqn:Hs; [done|]. injection Hold as <-. cbn [fst snd] in *.
      rewrite run_bind. change (run (call ENow) w) with (Some (w_now w), w). cbv beta iota.
      rewrite Hv. rewrite run_bind, (run_kv_spec (PutIfVersion _ _ _ _ _)). cbn [spec_store].
      unfold spec_put_if_version. rewrite Hm, decide_True by done. done.
    + injection Hold as <-. cbn [fst snd] in *.
      rewrite run_bind. change (run (call ENow) w) with (Some (w_now w), w). cbv beta iota.
      rewrite Hv. rewrite run_bind, (run_kv_spec (PutIfVersion _ _ _ _ _)). cbn [spec_store].
      unfold spec_put_if_version. rewrite Hm, decide_True by done. done.
  - unfold stats_at. rewrite Ek, lookup_insert_eq, (from_to_vec _ _ Hv), wire_id. done.
  - intros k Hk. by rewrite lookup_insert_ne.
Qed.

(** The deltas of distinct stores are all applied. *)
Lemma run_flush_store_stats deltas pending w :
  NoDup ((λ x, x.1.1) <$> deltas) → (∀ x, x ∈ deltas → is_Some (stats_at (w_kv w) x.1.1)) →
  ∃ m', run (flush_store_stats deltas pending) w = (Some pending, set_kv m' w) ∧
    (∀ store c b, (store, c, b) ∈ deltas →
       stats_at m' store = (λ old, (clamp_add old.1 c, clamp_add old.2 b)) <$> stats_at (w_kv w) store) ∧
    (∀ k, k ∉ store_stats_key <$> ((λ x, x.1.1) <$> deltas) → m' !! k = w_kv w !! k).
Proof using All.
  revert w. induction deltas as [|[ [store c] b] deltas IH]; intros w Hnd Hst.
  - exists (w_kv w). cbn [flush_store_stats run]. rewrite set_kv_id. split_and!; [done|set_solver|done].
  - cbn [fmap list_fmap] in Hnd. apply NoDup_cons in Hnd as [Hn Hnd]. cbn [fst] in Hn.
    destruct (Hst (store, c, b) ltac:(by left)) as [old Hold]. cbn [fst] in Hold.
    destruct (run_flush_one_store 2 store c b w old Hold) as (m1 & Hrun & Hs1 & Hm1).
    assert (∀ s, s ≠ store → stats_at m1 s = stats_at (w_kv w) s) as Hother.
    { intros s Hs. unfold stats_at. rewrite Hm1; [done|]. by intros ->%store_stats_key_inj. }
    destruct (IH (set_kv m1 w)) as (m2 & Hrun2 & Hs2 & Hm2); [done| |].
    { intros x Hx. cbn [w_kv set_kv]. rewrite Hother; [by apply Hst; right|].
      intros Heq. apply Hn, list_elem_of_fmap. by exists x. }
    exists m2. cbn [flush_store_stats]. rewrite run_bind.
    change STORE_STATS_FLUSH_MAX_RETRIES with 3. rewrite Hrun. split_and!.
    + exact Hrun2.
    + intros s c' b' [ [= -> -> ->]|Hin]%elem_of_cons.
      * rewrite Hold. cbn [fmap option_fmap option_map]. rewrite <-Hs1. unfold stats_at. rewrite Hm2; [done|].
        intros (s' & Heq%store_stats_key_inj & Hin)%list_elem_of_fmap. by subst s'.
      * rewrite (Hs2 s c' b' Hin). cbn [w_kv set_kv]. rewrite Hother; [done|].
        intros ->. apply Hn, list_elem_of_fmap. by exists (store, c', b').
    + intros k Hk. cbn [fmap list_fmap] in Hk. apply not_elem_of_cons in Hk as [Hk1 Hk2].
      rewrite Hm2 by done. cbn [w_kv set_kv]. by apply Hm1.
Qed.

(** What the queued deltas of a store amount to, with what is pending. *)
Definition store_sum (rx : list StoreDelta) (pending : StoreDeltaMap) (store : string) : Z * Z :=
  foldl (λ z d, if decide (sd_store d = store)
                then (i64_add z.1 (sd_count_delta d), i64_add z.2 (sd_bytes_delta d)) else z)
    (default (0%Z, 0%Z) (pending !! store)) rx.

Lemma fold_store_deltas rx pending store :
  default (0%Z, 0%Z) (foldl (λ p d, add_store_delta p (sd_store d) (sd_count_delta d) (sd_bytes_delta d)) pending rx !! store) =
    store_sum rx pending store.
Proof.
  unfold store_sum. revert pending. induction rx as [|d rx IH]; intros pending; [done|]. cbn [foldl]. rewrite IH.
  f_equal. unfold add_store_delta. case_decide as Hd.
  - subst store. by rewrite lookup_insert_eq.
  - by rewrite lookup_insert_ne.
Qed.

Lemma elem_of_drained rx pending store c b :
  (store, c, b) ∈ (drain_store_deltas rx pending).1 ↔ store_sum rx pending store = (c, b) ∧ (c, b) ≠ (0, 0)%Z.
Proof.
  unfold drain_store_deltas. set (M := foldl _ pending rx). cbn [fst].
  assert (store_sum rx pending store = default (0%Z, 0%Z) (M !! store)) as -> by (symmetry; apply fold_store_deltas).
  rewrite list_elem_of_fmap. split.
  - intros ([s [c' b'] ] & [= <- <- <-] & [Hne Hin]%list_elem_of_filter).
    rewrite arrange_perm in Hin. apply elem_of_map_to_list in Hin. rewrite Hin. split; [done|]. intros [= -> ->]. tauto.
  - intros [Heq Hne]. exists (store, (c, b)). split; [done|]. apply list_elem_of_filter. split.
    + destruct (decide (c = 0%Z)) as [->|]; [|by left]. right. by intros ->.
    + rewrite arrange_perm. apply elem_of_map_to_list. destruct (M !! store) as [x|]; cbn in Heq; [by subst|done].
Qed.

Lemma NoDup_drained rx pending : NoDup ((λ x, x.1.1) <$> (drain_store_deltas rx pending).1).
Proof.
  unfold drain_store_deltas. set (M := foldl _ pending rx). cbn [fst].
  rewrite <-list_fmap_compose. set (l := filter _ _).
  assert ((λ x : string * Z * Z, x.1.1) ∘ (λ '(store, (c, b)), (store, c, b)) <$> l = l.*1) as ->.
  { apply list_fmap_ext. by intros i [s [c b] ] _. }
  apply (NoDup_fst_sublist _ (arrange 20 (map_to_list M))); [apply sublist_filter|].
  rewrite arrange_perm. apply NoDup_fst_map_to_list.
Qed.
End stats.

(** ** Properties *)

Section properties.
Context `{Blake3} `{Serde TreeEntry} `{!SerdeExact TreeEntry} `{Serde StoreStatsRecord} `{Scheduler} `{UuidGen}.
Implicit Types (m : kvmap) (w : world kvmap).

(** C4: The update worker keeps the counts exactly, for deltas that never bring
    a directory down to nothing.  The deltas are for stored directories, in any
    order and grouping, and [flushable]: a directory without an entry gets only
    deltas that add artifacts, one with an entry keeps at least one artifact
    and no negative size even if all the decrements come first, and no sum
    overflows (for other deltas see the livelock below); and directory entries
    can be written.  Then the worker comes to rest with nothing left to do,
    after at most one pass per level down to the deepest directory, the root
    included, and one more; every directory of every repository, up to the
    root, counts exactly the artifacts and bytes it counted before plus the
    deltas sent for it and for the directories below it, and nothing but
    directory entries has changed. *)
Theorem update_worker_exact fuel n (rx : list DirDelta) w :
  (∀ c b t1 t2, ∃ v, to_vec (mkTreeEntry (TDir c b) t1 t2) = inr v) →
  Forall addressed rx → Forall (λ x, depth x < n) rx → flushable (w_kv w) rx → n < fuel →
  ∃ m', run (run_update_worker fuel [] [mkInbox rx [] []]) w = (Some (Some ([], idle_worker)), set_kv m' w) ∧
    (∀ repo path, stored_dir path →
       count_at m' repo path =
         ((count_at (w_kv w) repo path).1 + total dd_count_delta repo path rx,
          (count_at (w_kv w) repo path).2 + total dd_bytes_delta repo path rx)%Z) ∧
    only_dirs (w_kv w) m'.
Proof using SerdeExact0.
  intros Hser Ha Hd Hf Hn.
  destruct (run_process Hser (owed (w_kv w) rx) n fuel [mkInbox rx [] []] rx idle_worker w) as (m' & Hrun & Hp & Hm);
    [done|done|done|done| |done| |by right|done|].
  { cbn [propagation_buf idle_worker]. unfold values. rewrite map_to_list_empty, app_nil_r. by split_and!. }
  { cbn [propagation_buf idle_worker]. unfold values. by rewrite map_to_list_empty. }
  exists m'. split_and!; [|intros repo path Hpath|done].
  - unfold run_update_worker. cbn [worker_loop]. by rewrite run_bind, Hrun.
  - destruct Hp as (_ & _ & Ho). specialize (Ho repo path Hpath). unfold owed in Ho. cbn [total foldr] in Ho.
    rewrite !Z.add_0_r in Ho. rewrite <-Ho. by destruct (count_at m' repo path).
Qed.

(** At a shutdown the worker applies what is still queued in the same way:
    it returns, and every directory has been brought to the sum of the deltas
    at and below it. *)
Theorem update_worker_shutdown fuel n (rx : list DirDelta) w :
  (∀ c b t1 t2, ∃ v, to_vec (mkTreeEntry (TDir c b) t1 t2) = inr v) →
  Forall addressed rx → Forall (λ x, depth x < n) rx → flushable (w_kv w) rx → n < fuel →
  ∃ m', run (final_flush fuel (mkInbox rx [] []) idle_worker) w = (Some tt, set_kv m' w) ∧
    (∀ repo path, stored_dir path → count_at m' repo path = owed (w_kv w) rx repo path) ∧
    only_dirs (w_kv w) m'.
Proof using SerdeExact0.
  intros Hser Ha Hd Hf Hn.
  destruct (run_final_flush Hser (owed (w_kv w) rx) n fuel rx idle_worker w) as (m' & Hrun & Hp & Hm);
    [done|done|done| |done| |done|].
  { cbn [propagation_buf idle_worker]. unfold values. rewrite map_to_list_empty, app_nil_r. by split_and!. }
  { cbn [propagation_buf idle_worker]. unfold values. by rewrite map_to_list_empty. }
  exists m'. split_and!; [done|intros repo path Hpath|done].
  destruct Hp as (_ & _ & Ho). rewrite <-Ho by done. unfold owed. cbn [total foldr]. rewrite !Z.add_0_r.
  by destruct (count_at m' repo path).
Qed.

(** C38: A delta that its entry refuses (a decrement, or no change in the number
    of artifacts, for a directory without an entry; a directory whose entry is
    a file or cannot be read) is queued again and again: with nothing else to
    do the worker never gets out of its inner loop, changes nothing, and does
    not notice a shutdown either.  An upload and the deletion of the same file
    that are coalesced before the directory has an entry are such a delta. *)
Theorem update_worker_livelock fuel wakes (rx : list DirDelta) (x : DirDelta) w :
  drain_dir_deltas rx = {[ (dd_pk x, dd_dir_path x) := x ]} → stuck (w_kv w) x →
  run (run_update_worker fuel wakes [mkInbox rx [] []]) w = (None, w).
Proof.
  intros Hrx Hx. unfold run_update_worker.
  assert (run (process fuel [mkInbox rx [] []] idle_worker) w = (None, w)) as Hrun.
  { apply (run_process_stuck x fuel _ rx); [done|done|done|by right|]. unfold collect_dir, map_values.
    cbn [stashed_dir idle_worker propagation_buf]. rewrite map_to_list_empty, arrange_nil. exact Hrx. }
  destruct wakes; cbn [worker_loop]; by rewrite run_bind, Hrun.
Qed.

(** A flush of the store counters applies, for every store, the sum of the
    deltas that are queued or left over from earlier flushes, exactly once,
    with the counters clamped at zero; nothing stays pending and no other
    record changes. *)
Theorem store_stats_flush_exact `{!SerdeExact StoreStatsRecord} (rx : list StoreDelta) (pending : StoreDeltaMap) w :
  (∀ s : StoreStatsRecord, ∃ v, to_vec s = inr v) →
  (∀ store, is_Some (stats_at (w_kv w) store)) →
  let '(deltas, rest) := drain_store_deltas rx pending in
  ∃ m', run (flush_store_stats deltas rest) w = (Some ∅, set_kv m' w) ∧
    (∀ store, stats_at m' store =
       (λ old, if decide (store_sum rx pending store = (0, 0)%Z) then old
               else (clamp_add old.1 (store_sum rx pending store).1,
                     clamp_add old.2 (store_sum rx pending store).2)) <$> stats_at (w_kv w) store) ∧
    (∀ k, (∀ store, k ≠ store_stats_key store) → m' !! k = w_kv w !! k).
Proof.
  intros Hser Hst. pose proof (elem_of_drained rx pending) as Hel. pose proof (NoDup_drained rx pending) as Hnd.
  assert ((drain_store_deltas rx pending).2 = ∅) as Hleft by done.
  destruct (drain_store_deltas rx pending) as [deltas rest]. cbn [fst snd] in *. subst rest.
  destruct (run_flush_store_stats Hser deltas ∅ w Hnd) as (m' & Hrun & Hs & Hm); [by intros|].
  exists m'. split_and!; [done|intros store|intros k Hk; apply Hm].
  - case_decide as Hz.
    + destruct (Hst store) as [old Hold]. rewrite Hold. cbn [fmap option_fmap option_map]. rewrite <-Hold.
      unfold stats_at. rewrite Hm; [done|].
      intros (s & <-%store_stats_key_inj & (x & -> & Hx)%list_elem_of_fmap)%list_elem_of_fmap.
      destruct x as [ [s c] b]. apply Hel in Hx as [Hx Hne]. cbn [fst] in Hz. by rewrite Hz in Hx.
    + destruct (store_sum rx pending store) as [c b] eqn:Hsum. apply (Hs store c b). by apply Hel.
  - intros (s & -> & _)%list_elem_of_fmap. by apply (Hk s).
Qed.
End properties.

(** ** Witnesses *)

Definition dir_code (te : TreeEntry) : option (Z * Z * Z * Z) :=
  match te_kind te with
  | TDir c b => Some (c, b, te_last_modified_at te, te_last_accessed_at te)
  | TFile _ _ _ _ _ _ => None
  end.

Definition dir_uncode (x : Z * Z * Z * Z) : TreeEntry :=
  let '(c, b, t1, t2) := x in mkTreeEntry (TDir c b) t1 t2.

Lemma dir_uncode_code te x : dir_code te = Some x → dir_uncode x = te.
Proof. destruct te as [ [c b|] t1 t2]; cbn; [|done]. by intros [= <-]. Qed.

(** Serialises directories only. *)
Definition dir_serde : Serde TreeEntry := {|
  to_vec := code dir_code;
  to_vec_named := code dir_code;
  from_slice := uncode dir_uncode;
  wire := id;
  from_to_vec := uncode_code _ _ dir_uncode_code;
  from_to_vec_named := uncode_code _ _ dir_uncode_code;
|}.

Definition stats_code (s : StoreStatsRecord) : option (Z * Z * Z) :=
  Some (ss_blob_count s, ss_total_bytes s, ss_updated_at s).

Definition stats_uncode (x : Z * Z * Z) : StoreStatsRecord := mkStoreStatsRecord x.1.1 x.1.2 x.2.

Lemma stats_uncode_code s x : stats_code s = Some x → stats_uncode x = s.
Proof. destruct s. by intros [= <-]. Qed.

Definition stats_serde : Serde StoreStatsRecord := {|
  to_vec := code stats_code;
  to_vec_named := code stats_code;
  from_slice := uncode stats_uncode;
  wire := id;
  from_to_vec := uncode_code _ _ stats_uncode_code;
  from_to_vec_named := uncode_code _ _ stats_uncode_code;
|}.

(** The directories on the way to a path. *)
Definition ancestors (path : string) : list string :=
  (λ k, join_slash (take k (segments path))) <$> seq 0 (S (length (segments path))).

(** [flushable] at one directory, by computation. *)
Definition fits `{Serde TreeEntry} `{Blake3} (m : kvmap) (P : list DirDelta) (repo path : string) : Prop :=
  match dir_state m repo path with
  | None => False
  | Some s =>
      let cb := default (0%Z, 0%Z) s in
      (0 ≤ cb.1 ∧ 0 ≤ cb.2)%Z ∧
      match s with
      | None => Forall (λ x, below repo path x → (0 < dd_count_delta x ∧ 0 ≤ dd_bytes_delta x)%Z) P
      | Some _ => (1 ≤ cb.1 + total (λ x, Z.min 0 (dd_count_delta x)) repo path P ∧
                   0 ≤ cb.2 + total (λ x, Z.min 0 (dd_bytes_delta x)) repo path P)%Z
      end ∧
      (cb.1 + total (λ x, Z.abs (dd_count_delta x)) repo path P < 2 ^ 63 ∧
       cb.2 + total (λ x, Z.abs (dd_bytes_delta x)) repo path P < 2 ^ 63)%Z
  end.

#[export] Instance fits_dec `{Serde TreeEntry} `{Blake3} (m : kvmap) P repo path : Decision (fits m P repo path).
Proof. unfold fits. destruct (dir_state m repo path) as [ [s|]|]; apply _. Defined.

Lemma flushable_check `{Serde TreeEntry} `{Blake3} (m : kvmap) (P : list DirDelta) :
  Forall (λ x, Forall (fits m P (dd_repo x)) (ancestors (dd_dir_path x))) P → flushable m P.
Proof.
  intros HP repo path [Hc _] (x & Hx & [<- Hpre]). rewrite Forall_forall in HP. specialize (HP x Hx).
  rewrite Forall_forall in HP. assert (path ∈ ancestors (dd_dir_path x)) as Hin.
  { unfold ancestors. apply list_elem_of_fmap. exists (length (segments path)). split.
    - destruct Hpre as [k ->]. rewrite take_app_length, <-normalize_path_join. by symmetry.
    - apply elem_of_seq. apply prefix_length in Hpre. lia. }
  specialize (HP path Hin). unfold fits in HP. destruct (dir_state m (dd_repo x) path) as [s|]; [|done]. exists s. split; [done|].
  destruct (default (0%Z, 0%Z) s) as [c b]. destruct HP as (? & Hs & ?). split_and!; try tauto.
  destruct s; [done|]. by rewrite Forall_forall in Hs.
Qed.

Definition toy_delta (path : string) (c b : Z) : DirDelta :=
  let _ := toy_blake3 in mkDirDelta "r" (sharded_pk "r" (tree_parent path)) path c b 7%Z.

(** The directory "old" of three artifacts, and the root above it. *)
Definition toy_dirs_world : world kvmap :=
  let _ := toy_blake3 in
  let value te := (default "" (match to_vec (Serde:=dir_serde) te with inr v => Some v | inl _ => None end), 1%Z) in
  world_of (<[dir_key "r" "old" := value (mkTreeEntry (TDir 3 30) 5%Z 5%Z)]>
           (<[dir_key "r" "" := value (mkTreeEntry (TDir 4 44) 5%Z 5%Z)]> ∅)).

(** Uploads below "new", one deletion below "old". *)
Definition toy_rx : list DirDelta :=
  [toy_delta "new/sub" 1 10; toy_delta "old" (-1) (-10); toy_delta "new/sub" 1 5; toy_delta "new" 1 1].

Lemma addressed_check `{Blake3} (l : list DirDelta) :
  Forall (λ x, (normalize_path (dd_dir_path x) = dd_dir_path x ∧ has_char NUL (dd_dir_path x) = false) ∧
               dd_pk x = sharded_pk (dd_repo x) (tree_parent (dd_dir_path x))) l →
  Forall addressed l.
Proof. done. Qed.

Lemma update_worker_exact_witness :
  let _ := toy_blake3 in let _ := dir_serde in let _ := stats_serde in let _ := in_order in let _ := toy_uuid in
  ∃ m', run (run_update_worker 4 [] [mkInbox toy_rx [] []]) toy_dirs_world =
      (Some (Some ([], idle_worker)), set_kv m' toy_dirs_world) ∧
    count_at m' "r" "" = (6, 50)%Z ∧ count_at m' "r" "old" = (2, 20)%Z ∧
    count_at m' "r" "new" = (3, 16)%Z ∧ count_at m' "r" "new/sub" = (2, 15)%Z.
Proof.
  intros ?????.
  destruct (@update_worker_exact toy_blake3 dir_serde ltac:(done) stats_serde in_order toy_uuid 4 3 toy_rx toy_dirs_world)
    as (m' & Hrun & Hcount & _).
  - intros. eexists. reflexivity.
  - apply addressed_check. by_decide.
  - by_decide.
  - apply flushable_check. by_decide.
  - by_decide.
  - exists m'. split; [exact Hrun|].
    split_and!; (rewrite Hcount; [by vm_compute|]; by_decide).
Defined.

(** An upload to a new directory and its deletion, coalesced. *)
Lemma update_worker_livelock_witness :
  let _ := toy_blake3 in let _ := dir_serde in let _ := stats_serde in let _ := in_order in let _ := toy_uuid in
  run (run_update_worker 1000 [WakeCancelled] [mkInbox [toy_delta "tmp" 1 10; toy_delta "tmp" (-1) (-10)] [] []])
    toy_dirs_world = (None, toy_dirs_world).
Proof.
  intros ?????.
  apply (@update_worker_livelock toy_blake3 dir_serde stats_serde in_order toy_uuid 1000 [WakeCancelled]
    [toy_delta "tmp" 1 10; toy_delta "tmp" (-1) (-10)] (toy_delta "tmp" 0 0)).
  - vm_compute. reflexivity.
  - vm_compute. discriminate.
Defined.

Lemma update_worker_shutdown_witness :
  let _ := toy_blake3 in let _ := dir_serde in let _ := stats_serde in let _ := in_order in let _ := toy_uuid in
  ∃ m', run (final_flush 4 (mkInbox toy_rx [] []) idle_worker) toy_dirs_world = (Some tt, set_kv m' toy_dirs_world) ∧
    count_at m' "r" "" = (6, 50)%Z.
Proof.
  intros ?????.
  destruct (@update_worker_shutdown toy_blake3 dir_serde ltac:(done) stats_serde in_order toy_uuid 4 3 toy_rx toy_dirs_world)
    as (m' & Hrun & Hcount & _).
  - intros. eexists. reflexivity.
  - apply addressed_check. by_decide.
  - by_decide.
  - apply flushable_check. by_decide.
  - by_decide.
  - exists m'. split; [exact Hrun|]. rewrite Hcount; [by vm_compute|by_decide].
Defined.

Definition toy_stats_world : world kvmap :=
  world_of (<[store_stats_key "s" := (match to_vec (Serde:=stats_serde) (mkStoreStatsRecord 3 30 5%Z) with
                                      | inr v => v | inl _ => "" end, 1%Z)]> ∅).

Lemma store_stats_flush_exact_witness :
  let _ := stats_serde in let _ := in_order in let _ := toy_uuid in
  let p := drain_store_deltas [mkStoreDelta "s" 1 5; mkStoreDelta "t" 2 7; mkStoreDelta "s" (-9) 1] {[ "t" := (1, 1)%Z ]} in
  ∃ m', run (flush_store_stats p.1 p.2) toy_stats_world = (Some ∅, set_kv m' toy_stats_world) ∧
    stats_at m' "s" = Some (0, 36)%Z ∧ stats_at m' "t" = Some (3, 8)%Z.
Proof.
  intros ????.
  pose proof (@store_stats_flush_exact stats_serde in_order toy_uuid ltac:(done)
    [mkStoreDelta "s" 1 5; mkStoreDelta "t" 2 7; mkStoreDelta "s" (-9) 1] {[ "t" := (1, 1)%Z ]} toy_stats_world) as Hflush.
  unfold p. destruct (drain_store_deltas _ _) as [deltas rest] eqn:Hd. destruct Hflush as (m' & Hrun & Hst & _).
  - intros. eexists. reflexivity.
  - intros store. unfold stats_at, toy_stats_world. cbn [w_kv world_of].
    destruct (decide (store_stats_key store = store_stats_key "s")) as [->|Hne].
    + rewrite lookup_insert_eq. by_decide.
    + rewrite lookup_insert_ne by done. rewrite lookup_empty. by eexists.
  - exists m'. split; [exact Hrun|]. rewrite !Hst. split; by_decide.
Defined.
