(* ===== verification/Ingest.v ===== *)
(** * Ingestion and hosted repositories (core/src/repo/mod.rs, hosted.rs)

    An upload is hashed and stored under a fresh blob id, claims the hash, and
    becomes an artifact record.  The blob of a duplicate is dropped.  The
    theorem is that the repository stays sound: every record that refers to a
    blob refers to one that is in the store with the recorded hash. *)

From S2P Require Import Prelude Bytes Errors Keys Records Kv Prog Wp Scan Pagination Update.
From S2P Require Import Artifact Blob Repo Directory.

(** ** Contexts and contents *)

(** [ic_blobs] names the blob store that [blobs] gives access to. *)
(** core/src/repo/mod.rs:39-46 *)
Record IngestionCtx : Type := mkIngestionCtx {
  ic_blobs : string;
  ic_store : string;
  ic_repo : string;
  ic_format : string;
  ic_repo_type : string;
}.

(** core/src/repo/mod.rs:325-332 *)
Record IngestionResult : Type := mkIngestionResult {
  ir_record : ArtifactRecord;
  ir_old_record : option ArtifactRecord;
  ir_new_blob : bool;
}.

(** [blake3::hash(data).to_hex().to_string()]. *)
Definition blake3_hex `{Blake3} (data : bytes) : string := to_hex (blake3_hash data).

(** The records that ingestion and the cache build. *)
Definition raw_record (blob_id content_hash etag : option string) (size : Z) (content_type : string)
    (now : DateTime) : ArtifactRecord :=
  mkArtifactRecord CURRENT_RECORD_VERSION "" size content_type now now now "" KRaw false
    blob_id content_hash etag.

(** The deltas of the directory statistics of a write. *)
(** core/src/repo/hosted.rs:73-77 *)
Definition dir_deltas (size : Z) (old_record : option ArtifactRecord) : Z * Z :=
  match old_record with
  | Some old => (0%Z, i64_add (i64_wrap size) (i64_neg (i64_wrap (ar_size old))))
  | None => (1%Z, i64_wrap size)
  end.

Section ingest.
Context `{Blake3} `{Serde ArtifactRecord} `{Serde TreeEntry} `{Serde BlobRecord} `{Serde RepoConfig}.

(** The join of the two calls of the duplicate case is sequential: they act on
    different stores. *)
(** core/src/repo/mod.rs:340-420 *)
Definition commit_ingestion (ctx : IngestionCtx) (path blob_id blake3_hash : string) (size : Z)
    (content_type : string) : prog (result IngestionResult) :=
  let* now := call ENow in
  let blob_rec := mkBlobRecord CURRENT_RECORD_VERSION blob_id blake3_hash size now (ic_store ctx) in
  let*? existing := put_dedup_record (ic_store ctx) blob_rec in
  let '(effective_blob_id, is_dedup) :=
    match existing with
    | Some existing_blob_id => (existing_blob_id, true)
    | None => (blob_id, false)
    end in
  let record := raw_record (Some effective_blob_id) (Some blake3_hash) (Some blake3_hash) size content_type now in
  let*? old_record :=
    if is_dedup then
      let* _ := blob (ic_blobs ctx) (BDelete blob_id) in
      put_artifact (ic_repo ctx) path record
    else put_artifact (ic_repo ctx) path record in
  Ret (Ok (mkIngestionResult record old_record (negb is_dedup))).

(** core/src/repo/mod.rs:424-437 *)
Definition ingest_artifact (ctx : IngestionCtx) (path content_type : string) (data : bytes) :
    prog (result IngestionResult) :=
  let hash := blake3_hex data in
  let* blob_id := call EUuid in
  let*? _ := blob (ic_blobs ctx) (BPut blob_id data) in
  commit_ingestion ctx path blob_id hash (Z.of_nat (String.length data)) content_type.

(** ** Write targets *)

(** core/src/repo/mod.rs:177-196 *)
Definition resolve_write_target (config : RepoConfig) : result string :=
  match rc_kind config with
  | Hosted => Ok (rc_name config)
  | Proxy _ (Some wm) => Ok wm
  | Proxy _ None =>
      Err (NotAllowed ("proxy repos require an explicit write_member for PUT uploads; " +:+
        "configure one in the repository settings"))
  | Cache _ _ _ => Err (NotAllowed "only hosted and proxy repos accept uploads")
  end.

(** The search for the first hosted member of the format. *)
(** core/src/repo/mod.rs:220-226 *)
Fixpoint first_hosted (expected_format : ArtifactFormat) (members : list string) :
    prog (option (string * RepoConfig)) :=
  match members with
  | [] => Ret None
  | m :: members =>
      let* r := get_repo m in
      match r with
      | Ok (Some mc) =>
          if decide (kind_repo_type (rc_kind mc) = RTHosted ∧ repo_format mc = expected_format)
          then Ret (Some (m, mc))
          else first_hosted expected_format members
      | _ => first_hosted expected_format members
      end
  end.

(** core/src/repo/mod.rs:203-236 *)
Definition resolve_format_write_target (config : RepoConfig) (expected_format : ArtifactFormat) :
    prog (result (string * RepoConfig)) :=
  match rc_kind config with
  | Hosted => Ret (Ok (rc_name config, config))
  | Proxy _ (Some wm) =>
      let*? o := get_repo wm in
      match o with
      | Some wm_config => Ret (Ok (wm, wm_config))
      | None => Ret (Err (NotAllowed "write member repo config missing"))
      end
  | Proxy members None =>
      let* o := first_hosted expected_format members in
      match o with
      | Some x => Ret (Ok x)
      | None =>
          Ret (Err (BadRequest ("no hosted " +:+ display_format expected_format +:+ " member in proxy repo")))
      end
  | Cache _ _ _ => Ret (Err (BadRequest "only hosted and proxy repos accept uploads"))
  end.
End ingest.

(** ** Contents *)

(** A stream that a cache repository fills while it commits the download; the
    chunks are what the upstream sends, or the error that ends it. *)
Record StreamTask : Type := mkStreamTask {
  sk_repo : string;
  sk_store : string;
  sk_blobs : string;
  sk_path : string;
  sk_content_type : string;
  sk_blob_id : string;
  sk_etag : string;
  sk_blake3 : option string;
  sk_now : DateTime;
  sk_body : list (string + bytes);
}.

(** core/src/repo/mod.rs:73-78 *)
Inductive ArtifactData : Type :=
| Reader (data : bytes)
| Stream (task : StreamTask).

(** core/src/repo/mod.rs:81-84 *)
Record ArtifactContent : Type := mkArtifactContent {
  ac_data : ArtifactData;
  ac_record : ArtifactRecord;
}.

(** core/src/repo/mod.rs:88-105 *)
Definition open_artifact_blob (blobs : string) (record : ArtifactRecord) : prog (result ArtifactContent) :=
  let*? o := blob blobs (BGet (default "" (ar_blob_id record))) in
  match o with
  | Some data => Ret (Ok (mkArtifactContent (Reader data) record))
  | None => Ret (Err (DataIntegrity ("blob missing for hash " +:+ default "" (ar_blob_id record))))
  end.

(** The operations that every kind of repository offers. *)
(** core/src/repo/mod.rs:109-123 *)
Record RawRepo : Type := mkRawRepo {
  raw_head : string → prog (result (option ArtifactRecord));
  raw_get : string → prog (result (option ArtifactContent));
  raw_search : string → Pagination → prog (result (PaginatedResult (string * ArtifactRecord)));
  raw_list : string → Pagination → prog (result (PaginatedResult (string * ArtifactRecord)));
  raw_list_children : string → prog (result ChildrenResult);
}.

(** ** Hosted repositories *)

(** core/src/repo/hosted.rs:43-50 *)
Record HostedRepo : Type := mkHostedRepo {
  hr_name : string;
  hr_blobs : string;
  hr_store : string;
  hr_format : string;
}.

Section hosted.
Context `{Blake3} `{Serde ArtifactRecord} `{Serde TreeEntry} `{Serde BlobRecord} `{Serde RepoConfig}
  `{Unicode} `{Base64}.

(** core/src/repo/hosted.rs:21-40 *)
Definition set_helm_stale_flag (repo : string) : prog (result unit) :=
  let* now := call ENow in
  let flag := mkArtifactRecord CURRENT_RECORD_VERSION "" 0 "text/plain" now now now "" KHelmMetadata true
    None None None in
  let*? _ := put_artifact_if_absent repo "_helm/metadata_stale" flag in
  Ret (Ok tt).

(** Errors of the index of a Helm repository do not fail the request. *)
(** core/src/repo/hosted.rs:90-99 *)
Definition mark_helm_stale (self : HostedRepo) (path : string) : prog unit :=
  if decide (hr_format self = "helm" ∧ ends_with path ".tgz" = true) then
    let* _ := set_helm_stale_flag (hr_name self) in
    let* _ := propagate_staleness (hr_name self) FHelm "_helm/metadata_stale" in
    Ret tt
  else Ret tt.

(** core/src/repo/hosted.rs:54-102 *)
Definition hosted_put (self : HostedRepo) (path content_type : string) (data : bytes) :
    prog (result ArtifactRecord) :=
  let ctx := mkIngestionCtx (hr_blobs self) (hr_store self) (hr_name self) (hr_format self) "hosted" in
  let*? r := ingest_artifact ctx path content_type data in
  let record := ir_record r in
  let '(count_delta, bytes_delta) := dir_deltas (ar_size record) (ir_old_record r) in
  let* _ := dir_changed (hr_name self) path count_delta bytes_delta in
  let* _ := if ir_new_blob r then store_changed (hr_store self) 1 (i64_wrap (ar_size record)) else Ret tt in
  let* _ := mark_helm_stale self path in
  Ret (Ok record).

(** core/src/repo/hosted.rs:105-126 *)
Definition hosted_delete (self : HostedRepo) (path : string) : prog (result bool) :=
  let*? old_record := delete_artifact (hr_name self) path in
  let* _ := match old_record with
            | Some old => dir_changed (hr_name self) path (-1) (i64_neg (i64_wrap (ar_size old)))
            | None => Ret tt
            end in
  let* _ := match old_record with Some _ => mark_helm_stale self path | None => Ret tt end in
  Ret (Ok (bool_decide (is_Some old_record))).

(** core/src/repo/hosted.rs:138-140 *)
Definition hosted_head (self : HostedRepo) (path : string) : prog (result (option ArtifactRecord)) :=
  get_artifact (hr_name self) path.

(** [full] says whether the queue of access events is full. *)
(** core/src/repo/hosted.rs:142-157 *)
Definition hosted_get (full : bool) (self : HostedRepo) (path : string) :
    prog (result (option ArtifactContent)) :=
  let*? record := get_artifact (hr_name self) path in
  match record with
  | None => Ret (Ok None)
  | Some r =>
      let* now := call ENow in
      let* _ := touch full (hr_name self) path now in
      let*? content := open_artifact_blob (hr_blobs self) r in
      Ret (Ok (Some content))
  end.

(** core/src/repo/hosted.rs:136-178 *)
Definition hosted_raw (full : bool) (fuel : nat) (self : HostedRepo) : RawRepo := {|
  raw_head := hosted_head self;
  raw_get := hosted_get full self;
  raw_search := search_artifacts fuel (hr_name self);
  raw_list := list_artifacts fuel (hr_name self);
  raw_list_children := list_children fuel (hr_name self);
|}.
End hosted.

(** ** What the calls do *)

Section calls.
Context `{Blake3} `{Serde ArtifactRecord} `{Serde TreeEntry} `{Serde BlobRecord} `{Serde RepoConfig} `{UuidGen}.
Implicit Types (w : world kvmap) (m : kvmap).

Lemma run_put_dedup store r w :
  run (put_dedup_record store r) w =
    match to_vec (br_in_store store r) with
    | inl e => (Some (Err (from_storage_error e)), w)
    | inr b =>
        match w_kv w !! blob_key store (br_hash r) with
        | None => (Some (Ok None), set_kv (<[blob_key store (br_hash r) := (b, 1%Z)]> (w_kv w)) w)
        | Some (b0, _) =>
            (Some (match from_slice (A:=BlobRecord) b0 with
                   | inr e => Ok (Some (br_blob_id e))
                   | inl e => Err (from_storage_error e)
                   end), w)
        end
    end.
Proof.
  unfold put_dedup_record. change (br_hash (br_in_store store r)) with (br_hash r).
  destruct (blob_key store (br_hash r)) as [ [t pk] sk]. destruct (to_vec _) as [e|b]; [done|].
  run_steps. unfold spec_put_if_version.
  destruct (w_kv w !! (t, pk, sk)) as [ [b0 v]|] eqn:Hm.
  - rewrite decide_False by done. run_steps. unfold typed_get. run_steps. rewrite Hm.
    cbn [fmap option_fmap option_map fst]. by destruct (from_slice b0).
  - by rewrite decide_True.
Qed.

Lemma run_put_artifact_any w repo path r :
  run (put_artifact repo path r) w =
    if decide (path = "") then (Some (Err (BadRequest "empty artifact path")), w)
    else match old_of (w_kv w) (artifact_key repo path) with
         | inl e => (Some (Err (from_storage_error e)), w)
         | inr old =>
             match to_vec (stored_record w path r) with
             | inl e => (Some (Err (from_storage_error e)), after_prepare w r)
             | inr b =>
                 (Some (Ok old), set_kv (tree_put repo path (stored_record w path r)
                    (<[artifact_key repo path :=
                       (b, u64_add (version_of (w_kv w !! artifact_key repo path)) 1)]> (w_kv w)))
                    (after_prepare w r))
             end
         end.
Proof.
  case_decide as Hp; [subst; by unfold put_artifact|].
  destruct (old_of _ _) as [e|old] eqn:Hold.
  - unfold put_artifact. rewrite decide_False by done. unfold PUT_ARTIFACT_MAX_RETRIES. cbn [put_artifact_loop].
    unfold old_of in Hold. destruct (artifact_key repo path) as [ [t pk] sk]. unfold typed_get_versioned. run_steps.
    destruct (w_kv w !! (t, pk, sk)) as [ [b v]|]; [|done]. by destruct (from_slice b); simplify_eq/=.
  - destruct (to_vec _) as [e|b] eqn:Hb; [|by apply run_put_artifact].
    unfold put_artifact. rewrite decide_False by done. unfold PUT_ARTIFACT_MAX_RETRIES. cbn [put_artifact_loop].
    unfold old_of in Hold. destruct (artifact_key repo path) as [ [t pk] sk]. unfold typed_get_versioned. run_steps.
    destruct (w_kv w !! (t, pk, sk)) as [ [b0 v]|].
    + destruct (from_slice b0); simplify_eq/=. run_steps. by rewrite run_prepare, Hb.
    + simplify_eq/=. run_steps. by rewrite run_prepare, Hb.
Qed.

Lemma run_put_if_absent w repo path r :
  run (put_artifact_if_absent repo path r) w =
    match to_vec (stored_record w path r) with
    | inl e => (Some (Err (from_storage_error e)), after_prepare w r)
    | inr b =>
        match w_kv w !! artifact_key repo path with
        | Some _ => (Some (Ok false), after_prepare w r)
        | None =>
            (Some (Ok true), set_kv (tree_put repo path (stored_record w path r)
              (<[artifact_key repo path := (b, 1%Z)]> (w_kv w))) (after_prepare w r))
        end
    end.
Proof.
  unfold put_artifact_if_absent. destruct (artifact_key repo path) as [ [t pk] sk].
  rewrite run_bind, run_prepare. destruct (to_vec _) as [e|b]; [done|].
  run_steps. rewrite w_kv_after_prepare. unfold spec_put_if_version.
  destruct (w_kv w !! (t, pk, sk)) as [ [b0 v]|].
  - rewrite decide_False by done. run_steps. by rewrite <-(w_kv_after_prepare w r), set_kv_id.
  - rewrite decide_True by done. run_steps. by rewrite run_upsert.
Qed.

(** *** The frame of the Helm flags *)

(** Records of artifacts appear, none of which has a blob; nothing else but
    the browse tree changes. *)
Definition flags_only w w' : Prop :=
  w_blobs w' = w_blobs w ∧ w_stores w' = w_stores w ∧ w_uuids w ≤ w_uuids w' ∧ w_now w' = w_now w ∧
  ∀ k, w_kv w' !! k = w_kv w !! k ∨ k.1.1 = TABLE_DIR_ENTRIES ∨
    (k.1.1 = TABLE_ARTIFACTS ∧ w_kv w !! k = None ∧ ∃ (b : bytes) (v : Z) (r : ArtifactRecord),
      w_kv w' !! k = Some (b, v) ∧ from_slice b = inr r ∧ ar_blob_id r = None).

#[local] Instance flags_only_preorder : PreOrder flags_only.
Proof.
  split.
  - intros w. split_and!; [done|done|lia|done|]. by left.
  - intros w1 w2 w3 (Hb1 & Hs1 & Hu1 & Hn1 & Hk1) (Hb2 & Hs2 & Hu2 & Hn2 & Hk2).
    split_and!; [congruence|congruence|lia|congruence|]. intros k.
    destruct (Hk2 k) as [Heq2|[?|(Ht & Hnone & b & v & r & Hr)] ]; [|by right; left|].
    + destruct (Hk1 k) as [Heq1|[?|(Ht & Hnone & b & v & r & Hr & Hrest)] ]; [left; congruence|by right; left|].
      right; right. split_and!; [done|done|]. exists b, v, r. by rewrite Heq2.
    + destruct (Hk1 k) as [Heq1|[?|(_ & _ & b' & v' & r' & Hr' & _)] ]; [|by right; left|congruence].
      right; right. split_and!; [done|congruence|by exists b, v, r].
Qed.

Context {ar_exact : SerdeExact ArtifactRecord}.

Lemma within_flag repo path r : ar_blob_id r = None → within flags_only (put_artifact_if_absent repo path r).
Proof using ar_exact.
  intros Hr w. unfold wp. rewrite run_put_if_absent.
  assert (flags_only w (after_prepare w r)) as Hp.
  { unfold after_prepare. case_decide; [|done]. split_and!; [done|done|cbn; lia|done|]. by left. }
  destruct (to_vec _) as [e|b] eqn:Hb; [done|]. destruct (w_kv w !! _) as [ [b0 v]|] eqn:Hm; [done|].
  etrans; [done|]. split_and!; [done|done|done|done|]. rewrite w_kv_after_prepare. cbn [w_kv set_kv]. intros k.
  destruct (decide (k = tree_entry_key repo path)) as [->|Htree]; [by right; left|].
  rewrite tree_put_lookup by done. destruct (decide (k = artifact_key repo path)) as [->|Hne].
  - right; right. split_and!; [done|done|]. rewrite lookup_insert_eq. eexists _, _, _. split; [done|].
    rewrite (from_to_vec _ _ Hb), wire_id. by split.
  - left. by rewrite lookup_insert_ne.
Qed.

Lemma within_now : within flags_only (call ENow).
Proof. apply within_call. by intros w. Qed.

Lemma within_stale_parents path flag parents visited queue : ar_blob_id flag = None →
  within flags_only (visit_parents path flag parents visited queue).
Proof using ar_exact.
  intros Hf. revert visited queue. induction parents as [|p parents IH]; intros visited queue; cbn [visit_parents].
  - apply within_ret, _.
  - case_decide; [apply IH|]. apply within_bind; [apply _|by apply within_flag|intros _; apply IH].
Qed.

Lemma within_stale_levels n proxies path flag visited queue : ar_blob_id flag = None →
  within flags_only (visit_levels n proxies path flag visited queue).
Proof using ar_exact.
  intros Hf.
  assert (∀ (k : nat) (visited : gset string) (queue : list string),
    within flags_only (visit_level k proxies path flag visited queue)) as Hlevel.
  { intros k. induction k as [|k IH]; intros v q; cbn [visit_level]; [apply within_ret, _|].
    destruct q as [|name q]; [apply within_ret, _|]. apply within_bind; [apply _| |intros st; apply IH].
    destruct (proxies !! name); [by apply within_stale_parents|apply within_ret, _]. }
  revert visited queue. induction n as [|n IH]; intros visited queue; cbn [visit_levels]; [apply within_ret, _|].
  destruct queue as [|x queue]; [apply within_ret, _|]. apply within_bind; [apply _|apply Hlevel|]. intros st. apply IH.
Qed.

Lemma within_propagate repo format path : within flags_only (propagate_staleness repo format path).
Proof using ar_exact.
  unfold propagate_staleness. apply within_bind_ok; [apply _| |intros repos].
  - intros w. by eapply wp_intro; [apply run_list_repos|].
  - apply within_bind; [apply _|apply within_now|]. intros now.
    apply within_bind; [apply _|by apply within_stale_levels|]. intros _. apply within_ret, _.
Qed.
End calls.

(** ** Soundness of a store and its repositories *)

Section soundness.
Context `{Blake3} `{Serde ArtifactRecord} `{Serde TreeEntry} `{Serde BlobRecord} `{Serde RepoConfig} `{UuidGen}
  {ar_exact : SerdeExact ArtifactRecord} {br_exact : SerdeExact BlobRecord}.
Implicit Types (w : world kvmap) (m : kvmap).

(** The dedup records of [store] map each hash to a blob with that hash. *)
Definition dedup_sound (blobs store : string) w : Prop :=
  ∀ (hash : string) (b : bytes) (v : Z) (r : BlobRecord),
    w_kv w !! blob_key store hash = Some (b, v) → from_slice b = inr r →
    ∃ data : bytes, w_blobs w !! (blobs, br_blob_id r) = Some data ∧ blake3_hex data = hash.

(** The blob an artifact of [repos] refers to exists and has the recorded
    hash. *)
Definition artifacts_sound (blobs : string) (repos : gset string) w : Prop :=
  ∀ (repo path : string) (b : bytes) (v : Z) (r : ArtifactRecord) (id : string),
    repo ∈ repos → w_kv w !! artifact_key repo path = Some (b, v) → from_slice b = inr r →
    ar_blob_id r = Some id →
    ∃ data : bytes, w_blobs w !! (blobs, id) = Some data ∧ ar_content_hash r = Some (blake3_hex data).

Definition sound (blobs store : string) (repos : gset string) w : Prop :=
  dedup_sound blobs store w ∧ artifacts_sound blobs repos w.

(** A new blob id is not in use. *)
Definition fresh_id (blobs : string) w (id : string) : Prop := w_blobs w !! (blobs, id) = None.

Lemma blob_key_inj store h1 h2 : blob_key store h1 = blob_key store h2 → h1 = h2.
Proof. unfold blob_key. by intros [= _ ->]. Qed.

Lemma sound_blob_added blobs store repos w id data : fresh_id blobs w id → sound blobs store repos w →
  sound blobs store repos (set_blobs (<[(blobs, id) := data]> (w_blobs w)) w).
Proof.
  unfold fresh_id. intros Hid [Hd Ha]. split.
  - intros hash b v r Hk Hb. destruct (Hd hash b v r Hk Hb) as (d & Hr & Hh). exists d. split; [|done].
    cbn [w_blobs set_blobs]. rewrite lookup_insert_ne; [done|]. intros [= Heq]. subst id. congruence.
  - intros repo path b v r i Hrepo Hk Hb Hi. destruct (Ha repo path b v r i Hrepo Hk Hb Hi) as (d & Hr & Hh).
    exists d. split; [|done]. cbn [w_blobs set_blobs]. rewrite lookup_insert_ne; [done|]. intros [= Heq]. subst id. congruence.
Qed.

(** The blob that nothing refers to can go. *)
Lemma sound_blob_dropped blobs store repos w id data : fresh_id blobs w id → sound blobs store repos w →
  sound blobs store repos (set_blobs (delete (blobs, id) (<[(blobs, id) := data]> (w_blobs w))) w).
Proof.
  unfold fresh_id. intros Hid Hs. rewrite delete_insert_eq, delete_id by done. by destruct w.
Qed.

(** Only keys that neither soundness reads change. *)
Lemma sound_frame blobs store repos w w' :
  w_blobs w' = w_blobs w →
  (∀ k, k.1.1 = TABLE_BLOBS ∨ k.1.1 = TABLE_ARTIFACTS → w_kv w' !! k = w_kv w !! k) →
  sound blobs store repos w → sound blobs store repos w'.
Proof.
  intros Hb Hk [Hd Ha]. split.
  - intros hash b v r Hm. rewrite Hb. apply (Hd hash b v r). rewrite <-Hm. symmetry. apply Hk. by left.
  - intros repo path b v r id Hrepo Hm. rewrite Hb. apply (Ha repo path b v r id Hrepo). rewrite <-Hm. symmetry.
    apply Hk. by right.
Qed.

Lemma sound_flags blobs store repos w w' : flags_only w w' → sound blobs store repos w → sound blobs store repos w'.
Proof.
  intros (Hb & _ & _ & _ & Hk) [Hd Ha]. split.
  - intros hash b v r Hm Hr. rewrite Hb. apply (Hd hash b v r); [|done].
    destruct (Hk (blob_key store hash)) as [<-|[Ht|[Ht _] ] ]; [done|discriminate Ht..].
  - intros repo path b v r id Hrepo Hm Hr Hid. rewrite Hb.
    destruct (Hk (artifact_key repo path)) as [Heq|[Ht|(_ & _ & b' & v' & r' & Hm' & Hr' & Hnone)] ]; [|discriminate Ht|congruence].
    apply (Ha repo path b v r id Hrepo); [congruence|done..].
Qed.

(** An artifact record whose blob, if it has one, is right is added. *)
Lemma sound_artifact_put blobs store repos w repo path r w' :
  sound blobs store repos w →
  (∀ id, ar_blob_id r = Some id → ∃ d : bytes, w_blobs w !! (blobs, id) = Some d ∧ ar_content_hash r = Some (blake3_hex d)) →
  (run (put_artifact repo path r) w).2 = w' → sound blobs store repos w'.
Proof using ar_exact.
  intros [Hd Ha] Hid <-. rewrite run_put_artifact_any.
  assert (sound blobs store repos (after_prepare w r)) as Hp by (unfold after_prepare; by case_decide).
  case_decide; [done|]. destruct (old_of _ _); [done|]. destruct (to_vec _) as [e|b] eqn:Hb; [done|]. cbn [snd].
  assert (w_blobs (after_prepare w r) = w_blobs w) as Hbl by (unfold after_prepare; by case_decide).
  split.
  - intros hash b' v r' Hm Hr'. cbn [w_kv set_kv w_blobs] in *. rewrite Hbl. apply (Hd hash b' v r'); [|done].
    rewrite tree_put_lookup in Hm by discriminate. by rewrite lookup_insert_ne in Hm by discriminate.
  - intros repo' path' b' v r' id Hrepo Hm Hr' Hid'. cbn [w_kv set_kv w_blobs] in *. rewrite Hbl.
    rewrite tree_put_lookup in Hm by apply artifact_tree_key_ne.
    apply lookup_insert_Some in Hm as [ [_ [= <- _] ]|[_ Hm] ]; [|by eapply (Ha repo' path')].
    rewrite (from_to_vec _ _ Hb), wire_id in Hr'. injection Hr' as <-. by apply Hid.
Qed.

(** A dedup record for a blob that is in place is added. *)
Lemma sound_dedup_added blobs store repos w rec b data :
  sound blobs store repos w → to_vec rec = inr b → br_hash rec = blake3_hex data →
  w_blobs w !! (blobs, br_blob_id rec) = Some data →
  sound blobs store repos (set_kv (<[blob_key store (br_hash rec) := (b, 1%Z)]> (w_kv w)) w).
Proof using br_exact.
  intros [Hd Ha] Hb Hh Hdata. split.
  - intros hash b' v' r' Hk Hr'. cbn [w_kv set_kv w_blobs] in *.
    apply lookup_insert_Some in Hk as [ [Hkey [= <- _] ]|[_ Hk] ]; [|by apply (Hd hash b' v' r')].
    apply blob_key_inj in Hkey as <-. rewrite (from_to_vec _ _ Hb), wire_id in Hr'. injection Hr' as <-.
    by exists data.
  - intros repo path b' v' r' i Hrepo Hk. cbn [w_kv set_kv] in Hk. rewrite lookup_insert_ne in Hk by discriminate.
    by apply (Ha repo path b' v' r' i Hrepo).
Qed.

(** What an upload leaves behind: a record under the path whose blob has the
    hash of the data, and is the data unless an older blob has that hash. *)
Definition stored_as (blobs repo path content_type : string) (size : Z) (data : bytes) w w' : Prop :=
  ∃ (b : bytes) (v : Z) (r : ArtifactRecord) (id : string) (d : bytes),
    w_kv w' !! artifact_key repo path = Some (b, v) ∧ from_slice b = inr r ∧ ar_blob_id r = Some id ∧
    w_blobs w' !! (blobs, id) = Some d ∧ blake3_hex d = blake3_hex data ∧
    (d = data ∨ w_blobs w !! (blobs, id) = Some d) ∧
    ar_size r = size ∧ ar_content_type r = content_type ∧
    ar_content_hash r = Some (blake3_hex data).

(** What can make an upload fail: the empty path, a stored record that cannot
    be read, a new one that cannot be written. *)
Definition upload_fault (store repo path : string) (data : bytes) w : Prop :=
  path = "" ∨ (∃ s : string, old_of (w_kv w) (artifact_key repo path) = inl s) ∨
  (∃ (b : bytes) (v : Z) (s : string), w_kv w !! blob_key store (blake3_hex data) = Some (b, v) ∧
     from_slice (A:=BlobRecord) b = inl s) ∨
  (∃ (r : ArtifactRecord) (s : string), to_vec r = inl s) ∨ (∃ (r : BlobRecord) (s : string), to_vec r = inl s).

(** The upload failed: the record of the path and all the blobs but fresh ones
    are as before. *)
Definition not_stored (blobs store repo path : string) (data : bytes) w w' : Prop :=
  upload_fault store repo path data w ∧ w_kv w' !! artifact_key repo path = w_kv w !! artifact_key repo path ∧
  ∀ x d, w_blobs w !! x = Some d → w_blobs w' !! x = Some d.

Lemma stored_as_flags blobs repo path ct size data w w1 w2 :
  flags_only w1 w2 → stored_as blobs repo path ct size data w w1 → stored_as blobs repo path ct size data w w2.
Proof.
  intros (Hb & _ & _ & _ & Hk) (b & v & r & id & d & Hm & Hrest). exists b, v, r, id, d. rewrite Hb. split; [|done].
  destruct (Hk (artifact_key repo path)) as [Heq|[Ht|(_ & Hnone & _)] ]; [congruence|discriminate Ht|congruence].
Qed.

(** Writing the record of an upload whose blob is in place. *)
Lemma put_stored blobs store repos w0 w repo path id ct size data (etag : string) now :
  let r := raw_record (Some id) (Some (blake3_hex data)) (Some etag) size ct now in
  sound blobs store repos w →
  (∃ d : bytes, w_blobs w !! (blobs, id) = Some d ∧ blake3_hex d = blake3_hex data ∧
    (d = data ∨ w_blobs w0 !! (blobs, id) = Some d)) →
  wp (put_artifact repo path r) w (λ (res : result (option ArtifactRecord)) w', sound blobs store repos w' ∧
    match res with
    | Ok _ => stored_as blobs repo path ct size data w0 w'
    | Err _ => upload_fault store repo path data w ∧ w_kv w' = w_kv w ∧ w_blobs w' = w_blobs w
    end).
Proof using ar_exact.
  intros r Hs (d & Hd & Hh & Hwhich).
  destruct (run (put_artifact repo path r) w) as [o w'] eqn:Hrun.
  assert (sound blobs store repos w') as Hs'.
  { eapply (sound_artifact_put blobs store repos w repo path r); [done| |by rewrite Hrun].
    intros i [= <-]. exists d. split; [done|]. by rewrite Hh. }
  rewrite run_put_artifact_any in Hrun.
  assert (w_blobs (after_prepare w r) = w_blobs w) as Hbl by (unfold after_prepare; by case_decide).
  case_decide; [simplify_eq; eapply wp_intro; [by rewrite run_put_artifact_any, decide_True|by split_and!; [|left|..] ]|].
  destruct (old_of _ _) as [e|old] eqn:Hold.
  { simplify_eq. eapply wp_intro; [by rewrite run_put_artifact_any, decide_False, Hold|].
    split_and!; [done| |done..]. right; left. by exists e. }
  destruct (to_vec _) as [e|b] eqn:Hb.
  { simplify_eq. eapply wp_intro; [by rewrite run_put_artifact_any, decide_False, Hold, Hb|].
    split_and!; [done| |by rewrite w_kv_after_prepare|done]. right; right; right; left. by eexists _, _. }
  simplify_eq. eapply wp_intro; [by rewrite run_put_artifact_any, decide_False, Hold, Hb|]. split; [done|].
  exists b, (u64_add (version_of (w_kv w !! artifact_key repo path)) 1), (stored_record w path r), id, d.
  cbn [w_kv set_kv w_blobs]. rewrite Hbl. split_and!; try done.
  - rewrite tree_put_lookup by apply artifact_tree_key_ne. by rewrite lookup_insert_eq.
  - by rewrite (from_to_vec _ _ Hb), wire_id.
Qed.

Lemma commit_ingestion_spec ctx repos path id ct data w0 :
  let blobs := ic_blobs ctx in
  let w := set_blobs (<[(blobs, id) := data]> (w_blobs w0)) w0 in
  sound blobs (ic_store ctx) repos w0 → fresh_id blobs w0 id →
  wp (commit_ingestion ctx path id (blake3_hex data) (Z.of_nat (String.length data)) ct) w
    (λ (res : result IngestionResult) w', sound blobs (ic_store ctx) repos w' ∧
      match res with
      | Ok r => stored_as blobs (ic_repo ctx) path ct (Z.of_nat (String.length data)) data w0 w'
      | Err _ => not_stored blobs (ic_store ctx) (ic_repo ctx) path data w0 w'
      end).
Proof using ar_exact br_exact.
  intros blobs w Hs Hid. unfold commit_ingestion. apply wp_bind. eapply wp_intro; [done|]. cbn beta.
  assert (sound blobs (ic_store ctx) repos w) as Hw by by apply sound_blob_added.
  assert (∀ x (d : bytes), w_blobs w0 !! x = Some d → w_blobs w !! x = Some d) as Hgrow.
  { intros x d Hx. cbn [w w_blobs set_blobs]. rewrite lookup_insert_ne; [done|]. intros <-. unfold fresh_id in Hid. congruence. }
  apply wp_bind_ok. unfold wp at 1. rewrite run_put_dedup. cbn [br_hash w w_kv set_blobs w_now].
  set (rec := br_in_store _ _). destruct (to_vec rec) as [e|b] eqn:Hb.
  { split; [done|]. split; [|done]. do 4 right. by eexists _, _. }
  destruct (w_kv w0 !! blob_key (ic_store ctx) (blake3_hex data)) as [ [b0 v0]|] eqn:Hm.
  - destruct (from_slice b0) as [e|old] eqn:He.
    { split; [done|]. split; [|done]. do 2 right; left. by eexists _, _, _. }
    destruct (proj1 Hs _ _ _ _ Hm He) as (d & Hd & Hh).
    apply wp_bind_ok, wp_bind. apply (wp_intro _ _ (Ok tt) (set_blobs (delete (blobs, id) (w_blobs w)) w)); [done|].
    eapply wp_mono; [apply (put_stored blobs (ic_store ctx) repos w0)|].
    + by apply (sound_blob_dropped blobs (ic_store ctx) repos w0).
    + exists d. cbn [w_blobs set_blobs w]. rewrite delete_insert_eq, delete_id by done. auto.
    + intros [old_record|e] w' [Hs' Hr]; [by apply wp_ret|]. split; [done|]. destruct Hr as (Hf & Hk & Hbl). split_and!; [done|by rewrite Hk|].
      intros x d' Hx. rewrite Hbl. cbn [w_blobs set_blobs w]. by rewrite delete_insert_eq, delete_id.
  - assert (sound blobs (ic_store ctx) repos (set_kv (<[blob_key (ic_store ctx) (blake3_hex data) := (b, 1%Z)]> (w_kv w0)) w)) as Hw2.
    { apply (sound_dedup_added _ _ _ w rec b data); [done|done|done|]. cbn. by rewrite lookup_insert_eq. }
    apply wp_bind_ok. eapply wp_mono; [apply (put_stored blobs (ic_store ctx) repos w0); [done|]|].
    + exists data. cbn [w_blobs set_kv w set_blobs]. rewrite lookup_insert_eq. auto.
    + intros [old_record|e] w' [Hs' Hr]; [by apply wp_ret|]. split; [done|]. destruct Hr as (Hf & Hk & Hbl). split_and!.
      * destruct Hf as [|[Hold|[ (b' & v' & s & Hk' & He)|] ] ]; [by left| | |by do 3 right].
        -- right; left. unfold old_of in *. cbn [w_kv set_kv] in Hold. by rewrite lookup_insert_ne in Hold.
        -- cbn [w_kv set_kv] in Hk'. rewrite lookup_insert_eq in Hk'. injection Hk' as <- _.
           by rewrite (from_to_vec _ _ Hb) in He.
      * rewrite Hk. cbn [w_kv set_kv]. by rewrite lookup_insert_ne.
      * intros x d' Hx. rewrite Hbl. by apply Hgrow.
Qed.

(** *** Hosted repositories *)

Lemma within_sent e : within flags_only (call (ESend e)).
Proof. apply within_call. intros w. split_and!; [done|done|cbn; lia|done|]. by left. Qed.

Lemma within_dir_changed repo path c b : within flags_only (dir_changed repo path c b).
Proof.
  unfold dir_changed. apply within_bind; [apply flags_only_preorder|apply within_now|]. intros now. apply within_sent.
Qed.

Lemma within_helm self path : within flags_only (mark_helm_stale self path).
Proof using ar_exact.
  unfold mark_helm_stale. case_decide; [|apply within_ret, flags_only_preorder].
  apply within_bind; [apply flags_only_preorder| |intros _].
  - apply within_bind; [apply flags_only_preorder|apply within_now|]. intros now.
    apply within_bind_ok; [apply flags_only_preorder|by apply within_flag|].
    intros _. apply within_ret, flags_only_preorder.
  - apply within_bind; [apply flags_only_preorder|apply within_propagate|].
    intros _. apply within_ret, flags_only_preorder.
Qed.

(** A record that is in place is served with its blob. *)
Lemma hosted_get_stored full self path path' ct size data w0 w :
  segments path' = segments path → stored_as (hr_blobs self) (hr_name self) path ct size data w0 w →
  ∃ (d : bytes) (r : ArtifactRecord) (w' : world kvmap),
    run (hosted_get full self path') w = (Some (Ok (Some (mkArtifactContent (Reader d) r))), w') ∧
    blake3_hex d = blake3_hex data ∧ (d = data ∨ ∃ id, w_blobs w0 !! (hr_blobs self, id) = Some d) ∧
    ar_size r = size ∧ ar_content_type r = ct.
Proof.
  intros Hseg (b & v & r & id & d & Hm & Hr & Hid & Hd & Hh & Hwhich & Hsize & Hct & _).
  exists d, r, (if full then w else push_sent (EvAtime (mkAtimeEvent (hr_name self) path' (w_now w))) w).
  split; [|split_and!; [done| |done..]; destruct Hwhich; [by left|right; by exists id] ].
  unfold hosted_get. rewrite run_bind_ok, run_get_artifact.
  assert (artifact_key (hr_name self) path' = artifact_key (hr_name self) path) as ->.
  { unfold artifact_key. by rewrite <-normalize_path_eq in Hseg; rewrite Hseg. }
  unfold old_of. rewrite Hm, Hr. unfold touch, open_artifact_blob. rewrite Hid. cbn [default].
  by destruct full; cbn; rewrite Hd.
Qed.

(** C11: An upload is stored or refused, and never corrupts the repository.  When
    every stored record refers to a blob with the recorded hash, and the new
    blob id is not in use, a put to a hosted repository terminates and keeps
    that invariant for all repositories on the store, the duplicate case and
    the Helm index included.  On success a get of the path, however it is
    spelled, serves content with the hash of the upload (the upload itself,
    unless the store holds another blob with that hash) and its size and type.  It is refused only for an
    empty path or a record that cannot be read or written, and then the
    record under the path and every existing blob are as before. *)
Theorem hosted_put_sound (self : HostedRepo) (repos : gset string) (path content_type : string) (data : bytes)
    (full : bool) (w : world kvmap) :
  sound (hr_blobs self) (hr_store self) repos w → fresh_id (hr_blobs self) w (new_v4 (w_uuids w)) →
  ∃ (res : result ArtifactRecord) (w' : world kvmap),
    run (hosted_put self path content_type data) w = (Some res, w') ∧
    sound (hr_blobs self) (hr_store self) repos w' ∧
    match res with
    | Ok _ => ∀ path', segments path' = segments path →
        ∃ (d : bytes) (r : ArtifactRecord) (w'' : world kvmap),
          run (hosted_get full self path') w' = (Some (Ok (Some (mkArtifactContent (Reader d) r))), w'') ∧
          blake3_hex d = blake3_hex data ∧ (d = data ∨ ∃ id, w_blobs w !! (hr_blobs self, id) = Some d) ∧
          ar_size r = Z.of_nat (String.length data) ∧ ar_content_type r = content_type
    | Err _ => not_stored (hr_blobs self) (hr_store self) (hr_name self) path data w w'
    end.
Proof using ar_exact br_exact.
  intros Hs Hid.
  cut (wp (hosted_put self path content_type data) w (λ (res : result ArtifactRecord) w',
    sound (hr_blobs self) (hr_store self) repos w' ∧
    match res with
    | Ok _ => stored_as (hr_blobs self) (hr_name self) path content_type (Z.of_nat (String.length data)) data w w'
    | Err _ => not_stored (hr_blobs self) (hr_store self) (hr_name self) path data w w'
    end)).
  { intros (res & w' & Hr & Hs' & Hres)%wp_run. exists res, w'. split_and!; [done|done|].
    destruct res as [record|e]; [|done]. intros path' Hseg. by eapply hosted_get_stored. }
  unfold hosted_put, ingest_artifact. apply wp_bind_ok, wp_bind.
  eapply (wp_intro _ _ (new_v4 (w_uuids w)) (bump_uuid w)); [done|].
  set (id := new_v4 (w_uuids w)) in *. apply wp_bind_ok. eapply wp_intro; [done|].
  eapply wp_mono; [exact (commit_ingestion_spec (mkIngestionCtx (hr_blobs self) (hr_store self) (hr_name self)
    (hr_format self) "hosted") repos path id content_type data (bump_uuid w) Hs Hid)|].
  cbn [ic_blobs ic_store ic_repo]. intros [r|e] w1 [Hs1 Hst1]; [|done].
  destruct (dir_deltas _ _) as [c b]. apply wp_bind. eapply wp_mono; [apply within_dir_changed|]. intros u2 w2 Hw2.
  apply wp_bind. eapply wp_mono.
  { assert (within flags_only (if ir_new_blob r then store_changed (hr_store self) 1 (i64_wrap (ar_size (ir_record r))) else Ret tt)) as Hw.
    { destruct (ir_new_blob r); [apply within_sent|apply within_ret, flags_only_preorder]. }
    apply Hw. }
  intros u3 w3 Hw3. apply wp_bind. eapply wp_mono; [apply within_helm|]. intros u4 w4 Hw4. apply wp_ret.
  assert (flags_only w1 w4) as H14.
  { destruct flags_only_preorder as [_ Htrans]. eapply Htrans; [exact Hw2|]. by eapply Htrans; [exact Hw3|]. }
  split; [by eapply sound_flags|by eapply stored_as_flags].
Qed.
End soundness.

(** ** Witnesses *)

(** The store has the content "abc" already, under the id "b1". *)
Definition toy_hosted : HostedRepo := mkHostedRepo "r" "s" "s" "raw".

Definition toy_abc_hash : string := let _ := toy_blake3 in blake3_hex "abc".

Definition toy_abc_serde : Serde BlobRecord :=
  table_serde [mkBlobRecord 5 "b1" toy_abc_hash 3 0%Z "s"; mkBlobRecord 5 "uuid-0" toy_abc_hash 3 0%Z "s"].

Definition toy_abc_record : ArtifactRecord :=
  ar_prepared (raw_record (Some "b1") (Some toy_abc_hash) (Some toy_abc_hash) 3 "text/plain" 0%Z) "uuid-1" 0%Z "dir/f".

Definition toy_abc_ar_serde : Serde ArtifactRecord := table_serde [toy_abc_record].

Definition toy_abc_world : world kvmap :=
  let _ := toy_blake3 in
  mkWorld {[blob_key "s" toy_abc_hash := ("0", 1%Z)]} {[("s", "b1") := "abc"]} {["s"]} 0%Z 0 [] false.

Lemma toy_abc_sound (ar : Serde ArtifactRecord) (br : Serde BlobRecord) :
  let _ := toy_blake3 in from_slice "0" = inr (mkBlobRecord 5 "b1" toy_abc_hash 3 0%Z "s") →
  sound "s" "s" {["r"]} toy_abc_world.
Proof.
  intros ? Hbr. split.
  - intros hash b v r Hk Hr. cbn [w_kv toy_abc_world] in Hk. apply lookup_singleton_Some in Hk as [Hkey [= <- _] ].
    apply blob_key_inj in Hkey as <-. rewrite Hbr in Hr. injection Hr as <-. exists "abc". split; reflexivity.
  - intros repo path b v r id _ Hk. cbn [w_kv toy_abc_world] in Hk. apply lookup_singleton_Some in Hk as [Hkey _].
    discriminate Hkey.
Qed.

Lemma hosted_put_sound_witness :
  let _ := toy_blake3 in let _ := toy_abc_ar_serde in let _ := toy_te_serde in let _ := toy_abc_serde in
  let _ := toy_rc_serde in let _ := toy_uuid in
  ∃ record w', run (hosted_put toy_hosted "dir/f" "text/plain" "abc") toy_abc_world = (Some (Ok record), w') ∧
    sound "s" "s" {["r"]} w' ∧
    ∃ r w'', run (hosted_get false toy_hosted "/dir//f") w' = (Some (Ok (Some (mkArtifactContent (Reader "abc") r))), w'').
Proof.
  intros ? ? ? ? ? ?.
  destruct (@hosted_put_sound toy_blake3 toy_abc_ar_serde toy_te_serde toy_abc_serde toy_rc_serde toy_uuid
    (table_serde_exact _) (table_serde_exact _) toy_hosted {["r"]} "dir/f" "text/plain" "abc" false toy_abc_world)
    as (res & w' & Hr & Hs & Hres); [apply toy_abc_sound; reflexivity|reflexivity|].
  pose proof (f_equal (λ x, is_ok <$> x.1) Hr) as Hok. vm_compute in Hok. destruct res as [record|e]; [|discriminate Hok].
  exists record, w'. split; [exact Hr|]. split; [exact Hs|].
  destruct (Hres "/dir//f" eq_refl) as (d & r & w'' & Hget & _ & Hd & _). exists r, w''.
  assert (d = "abc") as <-; [|exact Hget]. destruct Hd as [Hd|[id Hd] ]; [exact Hd|].
  cbn [w_blobs toy_abc_world hr_blobs toy_hosted] in Hd. by apply lookup_singleton_Some in Hd as [_ <-].
Defined.
