(* ===== verification/Inflight.v ===== *)
(** * Coalescing of downloads (core/src/inflight.rs)

    Callers that miss the same path claim its key in a sharded map: the first
    one leads, the others get the notification they are to wait for.  The
    threads interleave at the operations on shared memory: the load and the
    store of a shard's snapshot, its mutex, and the notification.  The theorems
    say that a key never has two leaders, and that a caller may wait for ever,
    since it can receive the notification only after it has asked for it. *)

From stdpp Require Import functions.
From S2P Require Import Prelude Bytes.

(** ** Threads *)

(** A snapshot of a shard maps keys to notifications. *)
Abbreviation snapshot := (gmap string nat).

(** Where a caller is: in [try_claim], holding the guard, dropping it, or in
    [notified]. *)
Inductive pc : Type :=
| Start
| Slow
| Locked
| Loaded (snap : snapshot)
| Stored (notify : nat)
| Leader (notify : nat)
| DropLocked (notify : nat)
| DropLoaded (notify : nat) (snap : snapshot)
| DropStored (notify : nat)
| DropUnlocked (notify : nat)
| Finished
| Found (notify : nat)
| Waiting (notify : nat)
| Woken.

(** core/src/inflight.rs:21-21 *)
Definition SHARD_COUNT : N := 64.

(** The hash of the standard library is a parameter. *)
Class KeyHash := key_hash : string → N.

(** The shard of a key.  Nothing but that it is a function matters, so the
    theorems are about any assignment of shards. *)
Class KeyShard := shard : string → N.

(** core/src/inflight.rs:61-66 *)
Definition hash_shard `{KeyHash} : KeyShard := λ key, (key_hash key mod SHARD_COUNT)%N.

(** The shards' snapshots and mutexes, the number of notifications made so
    far, and the callers with their keys. *)
(** core/src/inflight.rs:25-45 *)
Record InflightMap : Type := mkInflightMap {
  if_data : N → snapshot;
  if_write : N → option nat;
  if_next : nat;
  if_threads : list (string * pc);
}.

Definition inflight_new (keys : list string) : InflightMap :=
  mkInflightMap (λ _, ∅) (λ _, None) 0 ((λ k, (k, Start)) <$> keys).

Section inflight.
Context `{KeyShard}.

Definition goto (i : nat) (key : string) (p : pc) (s : InflightMap) : InflightMap :=
  mkInflightMap (if_data s) (if_write s) (if_next s) (<[i := (key, p)]> (if_threads s)).
Definition set_write (sh : N) (o : option nat) (s : InflightMap) : InflightMap :=
  mkInflightMap (if_data s) (<[sh := o]> (if_write s)) (if_next s) (if_threads s).
Definition set_data (sh : N) (d : snapshot) (s : InflightMap) : InflightMap :=
  mkInflightMap (<[sh := d]> (if_data s)) (if_write s) (if_next s) (if_threads s).
Definition new_notify (s : InflightMap) : InflightMap :=
  mkInflightMap (if_data s) (if_write s) (S (if_next s)) (if_threads s).

(** [notify_waiters] wakes the callers whose [notified] exists; no permit is
    kept for later ones. *)
Definition wake (n : nat) (t : string * pc) : string * pc :=
  match t.2 with
  | Waiting n' => if decide (n' = n) then (t.1, Woken) else t
  | _ => t
  end.

(** One operation of [try_claim]. *)
(** core/src/inflight.rs:75-104 *)
Definition claim_step (i : nat) (key : string) (p : pc) (s : InflightMap) : option InflightMap :=
  let sh := shard key in
  match p with
  | Start =>
      match if_data s sh !! key with
      | Some notify => Some (goto i key (Found notify) s)
      | None => Some (goto i key Slow s)
      end
  | Slow =>
      match if_write s sh with
      | None => Some (goto i key Locked (set_write sh (Some i) s))
      | Some _ => None
      end
  | Locked => Some (goto i key (Loaded (if_data s sh)) s)
  | Loaded snap =>
      match snap !! key with
      | Some notify => Some (goto i key (Found notify) (set_write sh None s))
      | None =>
          let notify := if_next s in
          Some (goto i key (Stored notify) (set_data sh (<[key := notify]> snap) (new_notify s)))
      end
  | Stored notify => Some (goto i key (Leader notify) (set_write sh None s))
  | _ => None
  end.

(** One operation of the drop of the guard. *)
(** core/src/inflight.rs:130-141 *)
Definition drop_step (i : nat) (key : string) (p : pc) (s : InflightMap) : option InflightMap :=
  let sh := shard key in
  match p with
  | Leader notify =>
      match if_write s sh with
      | None => Some (goto i key (DropLocked notify) (set_write sh (Some i) s))
      | Some _ => None
      end
  | DropLocked notify => Some (goto i key (DropLoaded notify (if_data s sh)) s)
  | DropLoaded notify snap => Some (goto i key (DropStored notify) (set_data sh (delete key snap) s))
  | DropStored notify => Some (goto i key (DropUnlocked notify) (set_write sh None s))
  | DropUnlocked notify =>
      let s := goto i key Finished s in
      Some (mkInflightMap (if_data s) (if_write s) (if_next s) (wake notify <$> if_threads s))
  | _ => None
  end.

(** The next operation of a caller: one that found a download asks for the
    notification and waits. *)
Definition thread_step (i : nat) (s : InflightMap) : option InflightMap :=
  match if_threads s !! i with
  | Some (key, p) =>
      match p with
      | Found notify => Some (goto i key (Waiting notify) s)
      | Leader _ | DropLocked _ | DropLoaded _ _ | DropStored _ | DropUnlocked _ => drop_step i key p s
      | _ => claim_step i key p s
      end
  | None => None
  end.

Definition inflight_step (s s' : InflightMap) : Prop := ∃ i, thread_step i s = Some s'.

(** ** One leader per key *)

(** The notification of a caller that has claimed its key. *)
Definition holder (p : pc) : option nat :=
  match p with
  | Stored n | Leader n | DropLocked n | DropLoaded n _ => Some n
  | _ => None
  end.

Definition holds_lock (p : pc) : bool :=
  match p with
  | Locked | Loaded _ | Stored _ | DropLocked _ | DropLoaded _ _ | DropStored _ => true
  | _ => false
  end.

Definition snap_of (p : pc) : option snapshot :=
  match p with Loaded snap | DropLoaded _ snap => Some snap | _ => None end.

Definition locks_ok (s : InflightMap) : Prop :=
  ∀ (i : nat) (k : string) (p : pc), if_threads s !! i = Some (k, p) → holds_lock p = true → if_write s (shard k) = Some i.
Definition snaps_ok (s : InflightMap) : Prop :=
  ∀ (i : nat) (k : string) (p : pc) (snap : snapshot), if_threads s !! i = Some (k, p) → snap_of p = Some snap → if_data s (shard k) = snap.
Definition claims_ok (s : InflightMap) : Prop :=
  ∀ (i : nat) (k : string) (p : pc) (n : nat), if_threads s !! i = Some (k, p) → holder p = Some n → if_data s (shard k) !! k = Some n.
Definition one_leader (s : InflightMap) : Prop :=
  ∀ (i j : nat) (k : string) (p q : pc), if_threads s !! i = Some (k, p) → if_threads s !! j = Some (k, q) →
    is_Some (holder p) → is_Some (holder q) → i = j.

Definition inflight_inv (s : InflightMap) : Prop := locks_ok s ∧ snaps_ok s ∧ claims_ok s ∧ one_leader s.

Lemma snap_locked p snap : snap_of p = Some snap → holds_lock p = true.
Proof. by destruct p. Qed.

(** What a thread was before a step: the one that moves, or another one that
    is where it was. *)
Lemma goto_lookup i key p s j x :
  if_threads (goto i key p s) !! j = Some x → (j = i ∧ x = (key, p)) ∨ (j ≠ i ∧ if_threads s !! j = Some x).
Proof. intros [ (-> & -> & _)|[? ?] ]%list_lookup_insert_Some; [by left|by right]. Qed.

(** A step of a thread that neither writes a snapshot nor claims a key. *)
Lemma inv_move i key p p' s w :
  inflight_inv s → if_threads s !! i = Some (key, p) →
  (∀ sh, sh ≠ shard key → w sh = if_write s sh) →
  (w (shard key) = if_write s (shard key) ∧ (holds_lock p' = true → holds_lock p = true) ∨
   if_write s (shard key) = None ∧ w (shard key) = Some i ∨
   holds_lock p = true ∧ w (shard key) = None ∧ holds_lock p' = false) →
  (∀ snap, snap_of p' = Some snap → if_data s (shard key) = snap) → (∀ n, holder p' = Some n → holder p = Some n) →
  inflight_inv (goto i key p' (mkInflightMap (if_data s) w (if_next s) (if_threads s))).
Proof.
  intros (Hl & Hs & Hc & Ho) Hi Hw Hlock Hsnap Hhold. split_and!.
  - intros j k q [ [-> [= -> ->] ]|[Hne Hj] ]%goto_lookup Hq; cbn [if_write goto].
    + destruct Hlock as [ [-> Hp]|[ [_ Hlock]|(_ & _ & Hlock)] ]; [by apply (Hl i key p); [|apply Hp]|done|congruence].
    + destruct (decide (shard k = shard key)) as [Heq|Hn]; [|by rewrite Hw; [apply (Hl j k q)|] ].
      pose proof (Hl j k q Hj Hq) as Hlj. rewrite Heq in Hlj |- *.
      destruct Hlock as [ [-> _]|[ [Hnone _]|(Hp & _)] ]; [done|congruence|].
      rewrite (Hl i key p Hi Hp) in Hlj. congruence.
  - intros j k q snap [ [-> [= -> ->] ]|[Hne Hj] ]%goto_lookup Hq; [by apply Hsnap|by apply (Hs j k q)].
  - intros j k q n [ [-> [= -> ->] ]|[Hne Hj] ]%goto_lookup Hq; [by apply (Hc i key p); [|apply Hhold]|by apply (Hc j k q)].
  - intros j1 j2 k q1 q2 H1 H2 [n1 Hq1] [n2 Hq2].
    apply goto_lookup in H1 as [ [-> [= -> ->] ]|[_ H1] ], H2 as [ [-> Heq2]|[_ H2] ]; try done.
    + apply (Ho i j2 key p q2); [done..|exists n1; by apply Hhold|by exists n2].
    + injection Heq2 as -> ->. apply (Ho j1 i key q1 p); [done..|by exists n1|exists n2; by apply Hhold].
    + apply (Ho j1 j2 k q1 q2); [done..|by exists n1|by exists n2].
Qed.

(** The step that claims a key. *)
Lemma inv_claim i key snap s : inflight_inv s → if_threads s !! i = Some (key, Loaded snap) → snap !! key = None →
  inflight_inv (goto i key (Stored (if_next s)) (set_data (shard key) (<[key := if_next s]> snap) (new_notify s))).
Proof.
  intros (Hl & Hs & Hc & Ho) Hi Hnone. pose proof (Hs i key _ snap Hi eq_refl) as Hsnap.
  assert (∀ j k q n, j ≠ i → if_threads s !! j = Some (k, q) → holder q = Some n → k ≠ key) as Hother.
  { intros j k q n Hne Hj Hq ->. pose proof (Hc j key q n Hj Hq) as Hk. rewrite Hsnap in Hk. congruence. }
  split_and!.
  - intros j k q [ [-> [= -> ->] ]|[Hne Hj] ]%goto_lookup Hq; [by apply (Hl i key (Loaded snap))|by apply (Hl j k q)].
  - intros j k q sn [ [-> [= -> ->] ]|[Hne Hj] ]%goto_lookup Hq; [done|].
    cbn [if_data goto set_data new_notify]. destruct (decide (shard k = shard key)) as [Heq|Hn].
    + exfalso. apply Hne. pose proof (Hl j k q Hj (snap_locked _ _ Hq)) as Hlj. rewrite Heq in Hlj.
      pose proof (Hl i key _ Hi eq_refl). congruence.
    + rewrite fn_lookup_insert_ne by done. by apply (Hs j k q).
  - intros j k q n [ [-> [= -> ->] ]|[Hne Hj] ]%goto_lookup Hq; cbn [if_data goto set_data new_notify].
    + cbn in Hq. injection Hq as <-. by rewrite fn_lookup_insert, lookup_insert_eq.
    + pose proof (Hc j k q n Hj Hq) as Hk. destruct (decide (shard k = shard key)) as [Heq|Hn].
      * rewrite Heq in Hk |- *. rewrite fn_lookup_insert, lookup_insert_ne by (symmetry; by eapply Hother). by rewrite <-Hsnap.
      * by rewrite fn_lookup_insert_ne.
  - intros j1 j2 k q1 q2 H1 H2 [n1 Hq1] [n2 Hq2].
    apply goto_lookup in H1 as [ [-> [= -> ->] ]|[Hne1 H1] ], H2 as [ [-> Heq2]|[Hne2 H2] ]; try done.
    + by destruct (Hother j2 key q2 n2).
    + injection Heq2 as -> ->. by destruct (Hother j1 key q1 n1).
    + apply (Ho j1 j2 k q1 q2); [done..|by exists n1|by exists n2].
Qed.

(** The step that gives it back. *)
Lemma inv_release i key n snap s : inflight_inv s → if_threads s !! i = Some (key, DropLoaded n snap) →
  inflight_inv (goto i key (DropStored n) (set_data (shard key) (delete key snap) s)).
Proof.
  intros (Hl & Hs & Hc & Ho) Hi. pose proof (Hs i key _ snap Hi eq_refl) as Hsnap. split_and!.
  - intros j k q [ [-> [= -> ->] ]|[Hne Hj] ]%goto_lookup Hq; [by apply (Hl i key (DropLoaded n snap))|by apply (Hl j k q)].
  - intros j k q sn [ [-> [= -> ->] ]|[Hne Hj] ]%goto_lookup Hq; [done|].
    cbn [if_data goto set_data]. destruct (decide (shard k = shard key)) as [Heq|Hn].
    + exfalso. apply Hne. pose proof (Hl j k q Hj (snap_locked _ _ Hq)) as Hlj. rewrite Heq in Hlj.
      pose proof (Hl i key _ Hi eq_refl). congruence.
    + rewrite fn_lookup_insert_ne by done. by apply (Hs j k q).
  - intros j k q m [ [-> [= -> ->] ]|[Hne Hj] ]%goto_lookup Hq; [done|]. cbn [if_data goto set_data].
    pose proof (Hc j k q m Hj Hq) as Hk. destruct (decide (shard k = shard key)) as [Heq|Hn].
    + rewrite Heq in Hk |- *. rewrite fn_lookup_insert, lookup_delete_ne; [by rewrite <-Hsnap|].
      intros <-. apply Hne. eapply (Ho j i key q); [done|done|by exists m|by exists n].
    + by rewrite fn_lookup_insert_ne.
  - intros j1 j2 k q1 q2 H1 H2 [n1 Hq1] [n2 Hq2].
    apply goto_lookup in H1 as [ [-> [= -> ->] ]|[Hne1 H1] ], H2 as [ [-> Heq2]|[Hne2 H2] ]; try done.
    + by injection Heq2 as -> ->.
    + apply (Ho j1 j2 k q1 q2); [done..|by exists n1|by exists n2].
Qed.

(** Waking callers changes none of what the invariant reads. *)
Lemma wake_lookup n (l : list (string * pc)) (j : nat) (k : string) (q : pc) :
  (wake n <$> l) !! j = Some (k, q) →
  ∃ q0, l !! j = Some (k, q0) ∧ holder q0 = holder q ∧ holds_lock q0 = holds_lock q ∧ snap_of q0 = snap_of q.
Proof.
  rewrite list_lookup_fmap. intros ([k0 q0] & Hj & Hw)%fmap_Some. exists q0. unfold wake in Hw. cbn [fst snd] in Hw.
  destruct q0; try (injection Hw as -> ->; done). case_decide; injection Hw as -> ->; done.
Qed.

Lemma inv_wake n s : inflight_inv s →
  inflight_inv (mkInflightMap (if_data s) (if_write s) (if_next s) (wake n <$> if_threads s)).
Proof.
  intros (Hl & Hs & Hc & Ho). split_and!.
  - intros j k q (q0 & Hj & _ & Hq & _)%wake_lookup Hlock. apply (Hl j k q0); [done|by rewrite Hq].
  - intros j k q snap (q0 & Hj & _ & _ & Hq)%wake_lookup Hsnap. apply (Hs j k q0); [done|by rewrite Hq].
  - intros j k q m (q0 & Hj & Hq & _)%wake_lookup Hh. apply (Hc j k q0); [done|by rewrite Hq].
  - intros i j k p q (p0 & Hi & Hp & _)%wake_lookup (q0 & Hj & Hq & _)%wake_lookup Hhp Hhq.
    apply (Ho i j k p0 q0); [done..|by rewrite Hp|by rewrite Hq].
Qed.

Lemma inflight_inv_step s s' : inflight_inv s → inflight_step s s' → inflight_inv s'.
Proof.
  intros HI [i Hstep]. unfold thread_step in Hstep. destruct (if_threads s !! i) as [ [key p]|] eqn:Hi; [|done].
  pose proof HI as (Hl & Hs & _). assert (s = mkInflightMap (if_data s) (if_write s) (if_next s) (if_threads s)) as Heta by by destruct s.
  assert (∀ p', holder p' = None → holds_lock p' = false → snap_of p' = None → inflight_inv (goto i key p' s)) as Hpass.
  { intros p' Hh Hk Hsn. rewrite Heta. eapply inv_move; [done|done|done| |congruence|congruence]. left. split; [done|congruence]. }
  assert (∀ p', holds_lock p = true → holds_lock p' = false → snap_of p' = None → (∀ n, holder p' = Some n → holder p = Some n) →
    inflight_inv (goto i key p' (set_write (shard key) None s))) as Hunlock.
  { intros p' Hp Hp' Hsn Hh. eapply inv_move; [done|done|intros sh Hne; by apply fn_lookup_insert_ne| |congruence|done].
    right; right. by rewrite fn_lookup_insert. }
  assert (∀ p', if_write s (shard key) = None → snap_of p' = None → (∀ n, holder p' = Some n → holder p = Some n) →
    inflight_inv (goto i key p' (set_write (shard key) (Some i) s))) as Hlock.
  { intros p' Hnone Hsn Hh. eapply inv_move; [done|done|intros sh Hne; by apply fn_lookup_insert_ne| |congruence|done].
    right; left. by rewrite fn_lookup_insert. }
  destruct p; cbn [claim_step drop_step] in Hstep; try done.
  - destruct (if_data s (shard key) !! key); injection Hstep as <-; by apply Hpass.
  - destruct (if_write s (shard key)) eqn:Hw; [done|]. injection Hstep as <-. by apply Hlock.
  - injection Hstep as <-. rewrite Heta. eapply inv_move; [done|done|done|by left|cbn; congruence|done].
  - destruct (snap !! key) eqn:Hk; injection Hstep as <-; [by apply Hunlock|by apply inv_claim].
  - injection Hstep as <-. by apply Hunlock.
  - destruct (if_write s (shard key)) eqn:Hw; [done|]. injection Hstep as <-. by apply Hlock.
  - injection Hstep as <-. rewrite Heta. eapply inv_move; [done|done|done|by left|cbn; congruence|done].
  - injection Hstep as <-. by apply inv_release.
  - injection Hstep as <-. by apply Hunlock.
  - injection Hstep as <-. apply (inv_wake notify (goto i key Finished s)). by apply Hpass.
  - injection Hstep as <-. by apply Hpass.
Qed.

Lemma inflight_inv_new keys : inflight_inv (inflight_new keys).
Proof.
  assert (∀ (i : nat) (k : string) (p : pc), if_threads (inflight_new keys) !! i = Some (k, p) → p = Start) as Hstart.
  { intros i k p Hi. cbn in Hi. rewrite list_lookup_fmap in Hi. by apply fmap_Some in Hi as (x & _ & [= _ ->]). }
  split_and!.
  - by intros i k p ->%Hstart.
  - by intros i k p snap ->%Hstart.
  - by intros i k p n ->%Hstart.
  - intros i j k p q ->%Hstart _ [? [=] ].
Qed.

(** C39: At most one caller leads a key.  In every interleaving of any number of
    callers, at the granularity of the operations on shared memory, at most
    one of those that claim a key holds its guard, and while it does the key is in the
    map, so that the others find it. *)
Theorem inflight_one_leader (keys : list string) (s : InflightMap) :
  rtc inflight_step (inflight_new keys) s →
  (∀ (i j : nat) (key : string) (n m : nat),
    if_threads s !! i = Some (key, Leader n) → if_threads s !! j = Some (key, Leader m) → i = j) ∧
  ∀ (i : nat) (key : string) (n : nat), if_threads s !! i = Some (key, Leader n) → if_data s (shard key) !! key = Some n.
Proof.
  intros Hs. assert (inflight_inv s) as (_ & _ & Hc & Ho).
  { revert Hs. generalize (inflight_inv_new keys). generalize (inflight_new keys). intros s0 H0 Hs.
    induction Hs as [|s0 s1 s2 Hstep _ IH]; [done|]. by eapply IH, inflight_inv_step. }
  split.
  - intros i j key n m Hi Hj. eapply Ho; [exact Hi|exact Hj|by exists n|by exists m].
  - intros i key n Hi. by eapply Hc.
Qed.

(** *** Runs of one caller *)

Lemma goto_at i key p s x : if_threads s !! i = Some x → if_threads (goto i key p s) !! i = Some (key, p).
Proof. intros Hi%lookup_lt_Some. by apply list_lookup_insert_eq. Qed.

Lemma thread_step_at i key p s s' : if_threads s !! i = Some (key, p) →
  match p with
  | Found notify => Some (goto i key (Waiting notify) s)
  | Leader _ | DropLocked _ | DropLoaded _ _ | DropStored _ | DropUnlocked _ => drop_step i key p s
  | _ => claim_step i key p s
  end = Some s' → inflight_step s s'.
Proof. intros Hi Hs. exists i. unfold thread_step. by rewrite Hi. Qed.

(** A caller that finds its key free, and its shard, comes to lead it. *)
Lemma claim_run i key s :
  if_threads s !! i = Some (key, Start) → if_data s (shard key) !! key = None → if_write s (shard key) = None →
  ∃ s', rtc inflight_step s s' ∧ if_threads s' = <[i := (key, Leader (if_next s))]> (if_threads s) ∧
    if_data s' (shard key) !! key = Some (if_next s) ∧ if_write s' (shard key) = None.
Proof.
  intros Hi Hfree Hlock. eexists. split; [|split_and!].
  - eapply rtc_l; [eapply thread_step_at; [exact Hi|]; cbn [claim_step]; rewrite Hfree; reflexivity|].
    eapply rtc_l; [eapply thread_step_at; [by eapply goto_at|]; cbn [claim_step if_write goto]; rewrite Hlock; reflexivity|].
    eapply rtc_l; [eapply thread_step_at; [eapply goto_at; by eapply (goto_at i key Slow s)|]; reflexivity|].
    eapply rtc_l.
    { eapply thread_step_at; [eapply goto_at, goto_at; by eapply (goto_at i key Slow s)|].
      cbn [claim_step if_data goto set_write]. rewrite Hfree. reflexivity. }
    eapply rtc_l; [|apply rtc_refl].
    eapply thread_step_at; [eapply goto_at; eapply goto_at, goto_at; by eapply (goto_at i key Slow s)|]. reflexivity.
  - cbn. by rewrite !list_insert_insert_eq.
  - cbn. by rewrite fn_lookup_insert, lookup_insert_eq.
  - cbn. by rewrite fn_lookup_insert.
Qed.

(** A leader that drops its guard frees the key and wakes those that wait. *)
Lemma drop_run i key n s :
  if_threads s !! i = Some (key, Leader n) → if_write s (shard key) = None →
  ∃ s', rtc inflight_step s s' ∧ if_threads s' = wake n <$> <[i := (key, Finished)]> (if_threads s) ∧
    if_data s' (shard key) !! key = None.
Proof.
  intros Hi Hlock. eexists. split; [|split].
  - eapply rtc_l; [eapply thread_step_at; [exact Hi|]; cbn [drop_step]; rewrite Hlock; reflexivity|].
    eapply rtc_l; [eapply thread_step_at; [by eapply (goto_at i key _ (set_write _ _ s))|]; reflexivity|].
    eapply rtc_l; [eapply thread_step_at; [eapply goto_at; by eapply (goto_at i key _ (set_write _ _ s))|]; reflexivity|].
    eapply rtc_l.
    { eapply thread_step_at; [eapply goto_at; eapply (goto_at i key); by eapply (goto_at i key _ (set_write _ _ s))|]. reflexivity. }
    eapply rtc_l; [|apply rtc_refl].
    eapply thread_step_at; [eapply goto_at; eapply (goto_at i key); eapply (goto_at i key); by eapply (goto_at i key _ (set_write _ _ s))|].
    reflexivity.
  - cbn. by rewrite !list_insert_insert_eq.
  - cbn. by rewrite fn_lookup_insert, lookup_delete_eq.
Qed.

(** A caller that finds its key taken receives the notification, and then
    waits for it. *)
Lemma found_step i key n s :
  if_threads s !! i = Some (key, Start) → if_data s (shard key) !! key = Some n → inflight_step s (goto i key (Found n) s).
Proof. intros Hi Hk. eapply thread_step_at; [done|]. cbn [claim_step]. by rewrite Hk. Qed.

Lemma wait_step i key n s : if_threads s !! i = Some (key, Found n) → inflight_step s (goto i key (Waiting n) s).
Proof. intros Hi. by eapply thread_step_at. Qed.

(** A caller may wait for ever.  Of two callers that miss the same key, the
    second can receive the notification of the first, be overtaken by the drop
    of the guard, and then wait for a notification that has been given: the
    download is over, the key is free, no caller can take a step, and the
    second never returns. *)
Theorem inflight_waiter_can_hang (key : string) : ∃ s : InflightMap,
  rtc inflight_step (inflight_new [key; key]) s ∧
  if_threads s = [(key, Finished); (key, Waiting 0)] ∧ if_data s (shard key) !! key = None ∧
  ∀ s' : InflightMap, rtc inflight_step s s' → if_threads s' !! 1 = Some (key, Waiting 0).
Proof.
  destruct (claim_run 0 key (inflight_new [key; key])) as (s1 & Hs1 & Ht1 & Hd1 & Hw1); [done..|]. cbn in Ht1.
  pose (s2 := goto 1 key (Found 0) s1).
  assert (if_threads s2 = [(key, Leader 0); (key, Found 0)]) as Ht2 by (cbn; by rewrite Ht1).
  destruct (drop_run 0 key 0 s2) as (s3 & Hs3 & Ht3 & Hd3); [by rewrite Ht2|done|]. rewrite Ht2 in Ht3. cbn in Ht3.
  exists (goto 1 key (Waiting 0) s3).
  assert (if_threads (goto 1 key (Waiting 0) s3) = [(key, Finished); (key, Waiting 0)]) as Ht4 by (cbn; by rewrite Ht3).
  split_and!; [|done|done|].
  - etrans; [exact Hs1|]. eapply rtc_l; [apply (found_step 1 key 0); [by rewrite Ht1|done]|].
    etrans; [exact Hs3|]. apply rtc_once, wait_step. by rewrite Ht3.
  - intros s' Hs. inversion Hs as [|? s4 ? [i Hstep] _]; subst; [by rewrite Ht4|]. exfalso.
    unfold thread_step in Hstep. rewrite Ht4 in Hstep. by destruct i as [|[|i] ].
Qed.
End inflight.

(** ** Witness *)

Definition toy_key_hash : KeyHash := λ k, N.of_nat (String.length k).

(** Two callers race for a key: the first leads, the second waits. *)
Lemma inflight_one_leader_witness :
  let _ := @hash_shard toy_key_hash in
  ∃ s, rtc inflight_step (inflight_new ["k"; "k"]) s ∧
    if_threads s = [("k", Leader 0); ("k", Waiting 0)] ∧ if_data s (shard "k") !! "k" = Some 0.
Proof.
  intros ?.
  assert (∃ s, rtc inflight_step (inflight_new ["k"; "k"]) s ∧
    if_threads s = [("k", Leader 0); ("k", Waiting 0)]) as (s & Hs & Hthreads).
  { destruct (claim_run 0 "k" (inflight_new ["k"; "k"])) as (s1 & Hs1 & Ht1 & Hd1 & _); [done..|].
    exists (goto 1 "k" (Waiting 0) (goto 1 "k" (Found 0) s1)). cbn in Ht1. split; [|cbn; by rewrite Ht1].
    etrans; [exact Hs1|]. eapply rtc_l; [apply (found_step 1 "k" 0); [by rewrite Ht1|done]|].
    apply rtc_once, wait_step. cbn. by rewrite Ht1. }
  exists s. split; [exact Hs|]. split; [exact Hthreads|].
  destruct (@inflight_one_leader (@hash_shard toy_key_hash) ["k"; "k"] s Hs) as [_ Hdata].
  apply (Hdata 0). rewrite Hthreads. reflexivity.
Defined.
