(* ===== verification/Cache.v ===== *)
(** * Cache repositories (core/src/repo/cache.rs)

    A cache repository serves an artifact from its own records while they are
    fresh, and otherwise fetches it from an upstream, streaming the body to the
    client and committing it when it is complete.  The upstream, reached
    through the [reqwest] crate, is a parameter: what it answers to a request.
    The theorems say when the upstream is asked and what a failure leads to,
    and that a download is recorded only if it is complete and has the hash
    that the upstream announced. *)

From S2P Require Import Prelude Bytes Errors Keys Records Kv Prog Wp Scan Pagination Update.
From S2P Require Import Artifact Blob Repo Directory Ingest.

(** ** Responses *)

(** What the code reads of a response: [rs_header name] is the value of the
    header when it is present and visible ASCII ([to_str]); the body is the
    chunks of [bytes_stream]. *)
Record Response : Type := mkResponse {
  rs_status : Z;
  rs_status_text : string;
  rs_header : string → option string;
  rs_content_length : option Z;
  rs_body : list (string + bytes);
}.

(** The answers to HEAD and GET requests for a URL with credentials; a request
    that fails has the text of its error. *)
Class Upstream := {
  http_head : string → option UpstreamAuth → string + Response;
  http_get : string → option UpstreamAuth → string + Response;
}.

Definition is_success (r : Response) : bool := bool_decide (200 ≤ rs_status r < 300)%Z.
Definition is_not_found (r : Response) : bool := bool_decide (rs_status r = 404)%Z.

(** core/src/repo/cache.rs:48-59 *)
Definition extract_upstream_blake3 (headers : string → option string) : option string :=
  match headers "x-checksum-blake3" with
  | Some v =>
      let val := trim v in
      if decide (String.length val = 64) then
        if all_bytes is_lower_hex val then Some val else None
      else None
  | None => None
  end.

(** The first of the headers that is present and not empty. *)
Fixpoint first_header (headers : string → option string) (names : list string) : option string :=
  match names with
  | [] => None
  | name :: names =>
      match headers name with
      | Some val => if decide (val = "") then first_header headers names else Some val
      | None => first_header headers names
      end
  end.

(** core/src/repo/cache.rs:70-119 *)
Definition extract_or_synthesize_etag `{Blake3} (headers : string → option string) (path : string) (size : Z) : string :=
  let etag := match headers "etag" with
              | Some e => let e := trim_matches (ascii_of_N 34) e in if decide (e = "") then None else Some e
              | None => None
              end in
  match etag with
  | Some etag => etag
  | None =>
      match first_header headers ["content-digest"; "digest"; "x-checksum-sha256"; "x-checksum-sha1";
              "x-checksum-md5"; "content-md5"] with
      | Some val => val
      | None =>
          let last_mod := default "" (headers "last-modified") in
          blake3_hex (last_mod +:+ ":" +:+ show_uint (Z.to_N size) +:+ ":" +:+ path)
      end
  end.

(** ** Cache repositories *)

(** core/src/repo/cache.rs:29-41 *)
Record CacheRepo : Type := mkCacheRepo {
  cr_name : string;
  cr_upstream_url : string;
  cr_cache_ttl_secs : Z;
  cr_blobs : string;
  cr_store : string;
  cr_upstream_auth : option UpstreamAuth;
  cr_format : string;
}.

(** Whether a record may be served without asking the upstream. *)
(** core/src/repo/cache.rs:237-238 *)
Definition still_fresh (self : CacheRepo) (now : DateTime) (record : ArtifactRecord) : bool :=
  let age := num_seconds_between now (ar_updated_at record) in
  bool_decide (cr_cache_ttl_secs self = 0%Z ∨ (age < i64_wrap (cr_cache_ttl_secs self))%Z).

(** core/src/repo/cache.rs:140-140 *)
Definition upstream_url_of (self : CacheRepo) (path : string) : string :=
  trim_end SLASH (cr_upstream_url self) +:+ "/" +:+ path.

Definition content_type_of (resp : Response) : string :=
  default "application/octet-stream" (rs_header resp "content-type").

Definition upstream_status_error (resp : Response) (url : string) : DepotError :=
  Errors.upstream ("upstream returned " +:+ rs_status_text resp +:+ ": " +:+ url).

Section cache.
Context `{Blake3} `{Serde ArtifactRecord} `{Serde TreeEntry} `{Serde BlobRecord} `{Serde RepoConfig}
  `{Unicode} `{Base64} `{Upstream}.

(** core/src/repo/cache.rs:123-225 *)
Definition cache_head (self : CacheRepo) (path : string) : prog (result (option ArtifactRecord)) :=
  let* now := call ENow in
  let*? cached := get_artifact (cr_name self) path in
  let from_upstream (stale_record : option ArtifactRecord) : prog (result (option ArtifactRecord)) :=
    let url := upstream_url_of self path in
    match http_head url (cr_upstream_auth self) with
    | inl e =>
        match stale_record with
        | Some record => Ret (Ok (Some record))
        | None => Ret (Err (Errors.upstream e))
        end
    | inr resp =>
        if negb (is_success resp) then
          if is_not_found resp then Ret (Ok None)
          else match stale_record with
               | Some record => Ret (Ok (Some record))
               | None => Ret (Err (upstream_status_error resp url))
               end
        else
          let size := default 0%Z (rs_header resp "content-length" ≫= parse_u64) in
          let etag := extract_or_synthesize_etag (rs_header resp) path size in
          let upstream_blake3 := extract_upstream_blake3 (rs_header resp) in
          Ret (Ok (Some (raw_record None upstream_blake3 (Some etag) size (content_type_of resp) now)))
    end in
  match cached with
  | Some record => if still_fresh self now record then Ret (Ok (Some record)) else from_upstream (Some record)
  | None => from_upstream None
  end.

(** What becomes of a caller that wants to download: it gets the guard of the
    download ([Leader]), or another caller has it, and then the wait for that
    one ends ([Notified]) or never does ([Forgotten]), when the notification was
    sent before the caller listened ([Inflight]). *)
(** core/src/repo/cache.rs:257-264 *)
Inductive download_claim : Type :=
| Leader
| Notified
| Forgotten.

(** [full] is the queue of access events, [claim] what the map of downloads
    answers.  A caller that is notified reads the record again, which in a pool
    of programs ([Prog.step]) it does in the world of that moment. *)
(** core/src/repo/cache.rs:228-492 *)
Definition cache_get (full : bool) (claim : download_claim) (self : CacheRepo) (path : string) :
    prog (result (option ArtifactContent)) :=
  let* now := call ENow in
  let*? cached := get_artifact (cr_name self) path in
  let serve (record : ArtifactRecord) : prog (result (option ArtifactContent)) :=
    let*? content := open_artifact_blob (cr_blobs self) record in
    Ret (Ok (Some content)) in
  let fetch (stale_record : option ArtifactRecord) : prog (result (option ArtifactContent)) :=
    match claim with
    | Forgotten => Spin
    | Notified =>
      let*? record := get_artifact (cr_name self) path in
      match record with
      | Some record => serve record
      | None => Ret (Ok None)
      end
    | Leader =>
      let url := upstream_url_of self path in
      match http_get url (cr_upstream_auth self) with
      | inl e =>
          match stale_record with
          | Some record => serve record
          | None => Ret (Err (Errors.upstream e))
          end
      | inr resp =>
          if negb (is_success resp) then
            if is_not_found resp then Ret (Ok None)
            else match stale_record with
                 | Some record => serve record
                 | None => Ret (Err (upstream_status_error resp url))
                 end
          else
            let content_type := content_type_of resp in
            let upstream_size := default 0%Z (rs_content_length resp) in
            let upstream_etag := extract_or_synthesize_etag (rs_header resp) path upstream_size in
            let upstream_blake3 := extract_upstream_blake3 (rs_header resp) in
            let* blob_id := call EUuid in
            let record := raw_record (Some blob_id) upstream_blake3 (Some upstream_etag) upstream_size content_type now in
            let task := mkStreamTask (cr_name self) (cr_store self) (cr_blobs self) path content_type blob_id
                          upstream_etag upstream_blake3 now (rs_body resp) in
            Ret (Ok (Some (mkArtifactContent (Stream task) record)))
      end
    end in
  match cached with
  | Some record =>
      if still_fresh self now record then
        let* _ := touch full (cr_name self) path now in
        serve record
      else fetch (Some record)
  | None => fetch None
  end.

(** ** The background task *)

(** What the client has been sent, and whether it has gone. *)
Record client_view : Type := mkClientView {
  cv_chunks : list bytes;
  cv_gone : bool;
}.

(** The loop over the body; [send] says whether the i-th send to the client
    succeeds, after one that fails no more are tried.  The chunks written to
    the blob writer are collected. *)
(** core/src/repo/cache.rs:393-405 *)
Fixpoint stream_body (send : nat → bool) (body : list (string + bytes)) (data : bytes) (size : Z)
    (c : client_view) : client_view * result (bytes * Z) :=
  match body with
  | [] => (c, Ok (data, size))
  | inl e :: _ => (c, Err (Errors.upstream ("upstream stream error: " +:+ e)))
  | inr chunk :: body =>
      if decide (chunk = "") then stream_body send body data size c
      else
        let c := if cv_gone c then c
                 else if send (length (cv_chunks c)) then mkClientView (cv_chunks c ++ [chunk]) false
                 else mkClientView (cv_chunks c) true in
        stream_body send body (data +:+ chunk) (u64_add size (Z.of_nat (String.length chunk))) c
  end.

(** The download is written when its writer is finished, and refused if it is
    not what the upstream announced. *)
(** core/src/repo/cache.rs:387-423 *)
Definition save_body (t : StreamTask) (r : result (bytes * Z)) : prog (result (Z * string)) :=
  let! x := r in
  let '(data, size) := x in
  let*? _ := blob (sk_blobs t) (BPut (sk_blob_id t) data) in
  let content_hash := blake3_hex data in
  match sk_blake3 t with
  | Some claimed =>
      if decide (claimed ≠ content_hash) then
        Ret (Err (Errors.upstream ("upstream BLAKE3 mismatch for " +:+ sk_path t +:+ ": claimed " +:+ claimed +:+
          ", computed " +:+ content_hash)))
      else Ret (Ok (size, content_hash))
  | None => Ret (Ok (size, content_hash))
  end.

(** core/src/repo/cache.rs:425-474 *)
Definition commit_body (t : StreamTask) (size : Z) (content_hash : string) : prog (result unit) :=
  let blob_rec := mkBlobRecord CURRENT_RECORD_VERSION (sk_blob_id t) content_hash size (sk_now t) (sk_store t) in
  let*? effective_blob_id := claim_or_reuse_blob_counted (sk_blobs t) (sk_store t) blob_rec in
  let artifact := raw_record (Some effective_blob_id) (Some content_hash) (Some (sk_etag t)) size
                    (sk_content_type t) (sk_now t) in
  let*? old_record := put_artifact (sk_repo t) (sk_path t) artifact in
  let '(count_delta, bytes_delta) := dir_deltas size old_record in
  let* _ := dir_changed (sk_repo t) (sk_path t) count_delta bytes_delta in
  Ret (Ok tt).

(** core/src/repo/cache.rs:384-483 *)
Definition commit_stream (send : nat → bool) (t : StreamTask) : prog (client_view * result unit) :=
  let '(c, r) := stream_body send (sk_body t) "" 0 (mkClientView [] false) in
  let* result :=
    let*? x := save_body t r in
    let '(size, content_hash) := x in
    commit_body t size content_hash in
  Ret (c, result).

(** core/src/repo/cache.rs:517-546 *)
Definition cache_raw (full : bool) (claim : download_claim) (fuel : nat) (self : CacheRepo) : RawRepo := {|
  raw_head := cache_head self;
  raw_get := cache_get full claim self;
  raw_search := search_artifacts fuel (cr_name self);
  raw_list := list_artifacts fuel (cr_name self);
  raw_list_children := list_children fuel (cr_name self);
|}.
End cache.

(** ** The body of a download *)

Fixpoint join_chunks (l : list bytes) : bytes :=
  match l with
  | [] => ""
  | c :: l => c +:+ join_chunks l
  end.

Lemma join_chunks_snoc l c : join_chunks (l ++ [c]) = join_chunks l +:+ c.
Proof. induction l as [|x l IH]; cbn; [by rewrite str_app_nil_r|]. by rewrite IH, str_app_assoc. Qed.

Lemma u64_add_length n a b :
  u64_add (u64_wrap (n + Z.of_nat (String.length a))) (Z.of_nat (String.length b)) =
    u64_wrap (n + Z.of_nat (String.length (a +:+ b))).
Proof. rewrite u64_add_wrap, str_length_app. f_equal. lia. Qed.

(** The loop: a complete body is its chunks, whatever becomes of the client,
    and as long as the client is there it has been sent what was read. *)
Lemma stream_body_spec send body data c c' r :
  (cv_gone c = false → join_chunks (cv_chunks c) = data) →
  stream_body send body data (u64_wrap (Z.of_nat (String.length data))) c = (c', r) →
  match r with
  | Ok (data', size) => ∃ chunks : list bytes, body = inr <$> chunks ∧ data' = data +:+ join_chunks chunks ∧
      size = u64_wrap (Z.of_nat (String.length data')) ∧ (cv_gone c' = false → join_chunks (cv_chunks c') = data')
  | Err e => ∃ s : string, inl s ∈ body
  end.
Proof.
  revert data c. induction body as [|[e|chunk] body IH]; intros data c Hc Hr; cbn [stream_body] in Hr.
  - simplify_eq. exists []. cbn. rewrite str_app_nil_r. done.
  - simplify_eq. exists e. by left.
  - case_decide as Hempty.
    { subst chunk. specialize (IH _ _ Hc Hr). destruct r as [ [data' size]|e].
      - destruct IH as (chunks & -> & -> & -> & Hv). by exists ("" :: chunks).
      - destruct IH as [s Hs]. exists s. by right. }
    assert (u64_add (u64_wrap (Z.of_nat (String.length data))) (Z.of_nat (String.length chunk)) =
      u64_wrap (Z.of_nat (String.length (data +:+ chunk)))) as Hsize by apply (u64_add_length 0).
    rewrite Hsize in Hr. apply IH in Hr; clear IH.
    + destruct r as [ [data' size]|e].
      * destruct Hr as (chunks & -> & -> & -> & Hv). exists (chunk :: chunks). cbn. by rewrite str_app_assoc in Hv |- *.
      * destruct Hr as [s Hs]. exists s. by right.
    + destruct c as [cs gone]. cbn in *. destruct gone; [done|]. destruct (send (length cs)); [|done].
      intros _. cbn. rewrite join_chunks_snoc. by rewrite Hc.
Qed.

(** ** Commits *)

Section commits.
Context `{Blake3} `{Serde ArtifactRecord} `{Serde TreeEntry} `{Serde BlobRecord} `{Serde RepoConfig} `{UuidGen}
  {ar_exact : SerdeExact ArtifactRecord} {br_exact : SerdeExact BlobRecord}.
Implicit Types (w : world kvmap).

Lemma run_claim_any blobs store r w :
  run (claim_or_reuse_blob_counted blobs store r) w =
    match to_vec (br_in_store store r) with
    | inl e => (Some (Err (from_storage_error e)), w)
    | inr b =>
        match w_kv w !! blob_key store (br_hash r) with
        | None =>
            (Some (Ok (br_blob_id r)), push_sent (EvStore (mkStoreDelta store 1 (i64_wrap (br_size r))))
               (set_kv (<[blob_key store (br_hash r) := (b, 1%Z)]> (w_kv w)) w))
        | Some (b0, _) =>
            match from_slice (A:=BlobRecord) b0 with
            | inl e => (Some (Err (from_storage_error e)), w)
            | inr e => (Some (Ok (br_blob_id e)), if decide (br_blob_id e = br_blob_id r) then w
                          else set_blobs (delete (blobs, br_blob_id r) (w_blobs w)) w)
            end
        end
    end.
Proof.
  destruct (to_vec _) as [e|b] eqn:Hb.
  { unfold claim_or_reuse_blob_counted, put_dedup_record_counted. by rewrite !run_bind_ok, run_put_dedup, Hb. }
  destruct (w_kv w !! blob_key store (br_hash r)) as [ [b0 v]|] eqn:Hm; [|by apply run_claim_fresh].
  destruct (from_slice b0) as [e|e] eqn:He; [|by eapply run_claim_hit].
  unfold claim_or_reuse_blob_counted, put_dedup_record_counted. by rewrite !run_bind_ok, run_put_dedup, Hb, Hm, He.
Qed.

(** The claim of a blob that has just been written. *)
Lemma claim_spec blobs store repos id data size (now : DateTime) (s0 : string) w0 :
  let w := set_blobs (<[(blobs, id) := data]> (w_blobs w0)) w0 in
  sound blobs store repos w0 → fresh_id blobs w0 id →
  wp (claim_or_reuse_blob_counted blobs store (mkBlobRecord CURRENT_RECORD_VERSION id (blake3_hex data) size now s0)) w
    (λ (res : result string) w', sound blobs store repos w' ∧
      (∀ x d, w_blobs w0 !! x = Some d → w_blobs w' !! x = Some d) ∧
      (∀ k, k.1.1 ≠ TABLE_BLOBS → w_kv w' !! k = w_kv w0 !! k) ∧
      match res with
      | Ok eff => (∃ d : bytes, w_blobs w' !! (blobs, eff) = Some d ∧ blake3_hex d = blake3_hex data ∧
          (d = data ∨ w_blobs w0 !! (blobs, eff) = Some d)) ∧
          ∃ (b : bytes) (v : Z) (r : BlobRecord), w_kv w' !! blob_key store (blake3_hex data) = Some (b, v) ∧ from_slice b = inr r
      | Err _ => ∀ repo path, upload_fault store repo path data w0
      end).
Proof using br_exact.
  intros w Hs Hid. assert (sound blobs store repos w) as Hw by by apply sound_blob_added.
  assert (∀ x (d : bytes), w_blobs w0 !! x = Some d → w_blobs w !! x = Some d) as Hgrow.
  { intros x d Hx. cbn [w w_blobs set_blobs]. rewrite lookup_insert_ne; [done|]. intros <-. unfold fresh_id in Hid. congruence. }
  unfold wp. rewrite run_claim_any. cbn [br_hash br_blob_id]. set (rec := mkBlobRecord _ _ _ _ _ _).
  destruct (to_vec _) as [e|b] eqn:Hb.
  { split_and!; [done..|]. intros repo path. do 4 right. by eexists _, _. }
  destruct (w_kv w !! blob_key store (blake3_hex data)) as [ [b0 v]|] eqn:Hm.
  - destruct (from_slice b0) as [e|old] eqn:He.
    { split_and!; [done..|]. intros repo path. do 2 right; left. by eexists _, _, _. }
    destruct (proj1 Hs _ _ _ _ Hm He) as (d & Hd & Hh).
    rewrite decide_False by (intros Heq; unfold fresh_id in Hid; rewrite Heq in Hd; congruence).
    assert (delete (blobs, id) (w_blobs w) = w_blobs w0) as Hdel.
    { cbn [w w_blobs set_blobs]. by rewrite delete_insert_eq, delete_id. }
    split_and!; [by apply (sound_blob_dropped blobs store repos w0)|..]; cbn [w_blobs set_blobs w_kv].
    + by rewrite Hdel.
    + done.
    + exists d. rewrite Hdel. auto.
    + by exists b0, v, old.
  - assert (sound blobs store repos (set_kv (<[blob_key store (blake3_hex data) := (b, 1%Z)]> (w_kv w)) w)) as Hw2.
    { apply (sound_dedup_added _ _ _ w (br_in_store store rec) b data); [done..|]. cbn. by rewrite lookup_insert_eq. }
    split_and!; [done|done|..].
    + intros k Hk. cbn. rewrite lookup_insert_ne; [done|]. intros <-. by apply Hk.
    + exists data. cbn. rewrite lookup_insert_eq. auto.
    + eexists b, 1%Z, _. cbn. rewrite lookup_insert_eq.
      split; [done|]. by apply from_to_vec.
Qed.

Lemma fault_before store repo path data w0 w :
  (∀ k, k.1.1 ≠ TABLE_BLOBS → w_kv w !! k = w_kv w0 !! k) →
  (∃ (b : bytes) (v : Z) (r : BlobRecord), w_kv w !! blob_key store (blake3_hex data) = Some (b, v) ∧ from_slice b = inr r) →
  upload_fault store repo path data w → upload_fault store repo path data w0.
Proof.
  intros Hk (b0 & v0 & r0 & Hb0 & Hr0) [|[ [s Hold]|[ (b & v & s & Hb & Hs)|Hrest] ] ]; [by left| | |by do 3 right].
  - right; left. exists s. unfold old_of in *. by rewrite Hk in Hold.
  - exfalso. rewrite Hb0 in Hb. injection Hb as -> ->. congruence.
Qed.

(** The commit of a download that has been written. *)
Lemma commit_body_spec (t : StreamTask) repos data size w0 :
  let w := set_blobs (<[(sk_blobs t, sk_blob_id t) := data]> (w_blobs w0)) w0 in
  sound (sk_blobs t) (sk_store t) repos w0 → fresh_id (sk_blobs t) w0 (sk_blob_id t) →
  wp (commit_body t size (blake3_hex data)) w (λ (res : result unit) w', sound (sk_blobs t) (sk_store t) repos w' ∧
    match res with
    | Ok _ => stored_as (sk_blobs t) (sk_repo t) (sk_path t) (sk_content_type t) size data w0 w'
    | Err _ => not_stored (sk_blobs t) (sk_store t) (sk_repo t) (sk_path t) data w0 w'
    end).
Proof using ar_exact br_exact.
  intros w Hs Hid. unfold commit_body. apply wp_bind_ok.
  eapply wp_mono; [exact (claim_spec (sk_blobs t) (sk_store t) repos (sk_blob_id t) data size (sk_now t) (sk_store t) w0 Hs Hid)|]. intros [eff|e] w1 (Hs1 & Hb1 & Hk1 & Hres).
  2: { split; [done|]. split; [done|]. split; [|done]. by apply Hk1. }
  destruct Hres as [Heff Hdec]. apply wp_bind_ok.
  eapply wp_mono; [exact (put_stored (sk_blobs t) (sk_store t) repos w0 w1 _ _ eff _ size data _ _ Hs1 Heff)|].
  intros [old|e] w2 [Hs2 Hr2].
  - destruct (dir_deltas size old) as [dc db]. apply wp_bind.
    eapply wp_mono; [apply within_dir_changed|]. intros u w3 Hw3. apply wp_ret.
    split; [eapply sound_flags|eapply stored_as_flags]; by first [exact Hw3|done].
  - destruct Hr2 as (Hf & Hk2 & Hb2). split; [done|]. split_and!.
    + by eapply fault_before.
    + rewrite Hk2. by apply Hk1.
    + intros x d Hx. rewrite Hb2. by apply Hb1.
Qed.

(** The outcomes of the background task. *)
Definition commit_outcome (t : StreamTask) w (c : client_view) (res : result unit) w' : Prop :=
  match res with
  | Ok _ => ∃ chunks : list bytes,
      let data := join_chunks chunks in
      sk_body t = inr <$> chunks ∧ (sk_blake3 t = None ∨ sk_blake3 t = Some (blake3_hex data)) ∧
      stored_as (sk_blobs t) (sk_repo t) (sk_path t) (sk_content_type t)
        (u64_wrap (Z.of_nat (String.length data))) data w w' ∧
      (cv_gone c = false → join_chunks (cv_chunks c) = data)
  | Err _ =>
      w_kv w' !! artifact_key (sk_repo t) (sk_path t) = w_kv w !! artifact_key (sk_repo t) (sk_path t) ∧
      (∀ x d, w_blobs w !! x = Some d → w_blobs w' !! x = Some d) ∧
      ((∃ s : string, inl s ∈ sk_body t) ∨ ∃ chunks : list bytes, sk_body t = inr <$> chunks ∧
        ((∃ claimed, sk_blake3 t = Some claimed ∧ claimed ≠ blake3_hex (join_chunks chunks)) ∨
         upload_fault (sk_store t) (sk_repo t) (sk_path t) (join_chunks chunks) w))
  end.

(** C28: A download is recorded only when it is complete and right.  The
    background task of a cache miss always terminates and keeps the store
    sound.  If it succeeds, the body ended without an error, its hash is the
    one that the upstream announced, if it announced any, the record under
    the path has the content (or that of an older blob with the hash), and a
    client that did not go away has been sent exactly that content.  If it
    fails, the record under the path and all existing blobs are as before, and
    the reason is an error in the body, a wrong hash, or a record that cannot
    be read or written. *)
Theorem cache_commit_sound (send : nat → bool) (t : StreamTask) (repos : gset string) (w : world kvmap) :
  sound (sk_blobs t) (sk_store t) repos w → fresh_id (sk_blobs t) w (sk_blob_id t) →
  ∃ (c : client_view) (res : result unit) (w' : world kvmap),
    run (commit_stream send t) w = (Some (c, res), w') ∧ sound (sk_blobs t) (sk_store t) repos w' ∧
    commit_outcome t w c res w'.
Proof using ar_exact br_exact.
  intros Hs Hid.
  cut (wp (commit_stream send t) w (λ x w', sound (sk_blobs t) (sk_store t) repos w' ∧ commit_outcome t w x.1 x.2 w')).
  { intros ([c res] & w' & Hr & Hs' & Hres)%wp_run. by exists c, res, w'. }
  unfold commit_stream.
  destruct (stream_body send (sk_body t) "" 0 (mkClientView [] false)) as [c r] eqn:Hbody.
  apply (stream_body_spec send (sk_body t) "") in Hbody; [|done].
  apply wp_bind, wp_bind_ok. destruct r as [ [data size]|e]; cbn [save_body try_].
  2: { apply wp_ret, wp_ret. split; [done|]. split_and!; [done..|by left]. }
  destruct Hbody as (chunks & Hchunks & Hdata & -> & Hview). cbn in Hdata. subst data.
  set (data := join_chunks chunks) in *. apply wp_bind_ok. eapply wp_intro; [done|]. cbv beta zeta.
  set (w1 := set_blobs _ _).
  assert (sk_blake3 t = None ∨ sk_blake3 t = Some (blake3_hex data) →
    wp (commit_body t (u64_wrap (Z.of_nat (String.length data))) (blake3_hex data)) w1 (λ (res : result unit) w',
      wp (Ret (c, res)) w' (λ x w', sound (sk_blobs t) (sk_store t) repos w' ∧ commit_outcome t w x.1 x.2 w'))) as Hgo.
  { intros Hclaim. eapply wp_mono; [exact (commit_body_spec t repos data _ w Hs Hid)|].
    intros [u|e] w' [Hs' Hres]; apply wp_ret; (split; [done|]).
    - by exists chunks.
    - destruct Hres as (Hf & Hk & Hb). split_and!; [done..|]. right. exists chunks. auto. }
  destruct (sk_blake3 t) as [claimed|] eqn:Hclaim; [case_decide as Hne|]; apply wp_ret; [|apply Hgo..].
  - apply wp_ret. split; [by apply sound_blob_added|]. split_and!; [done| |].
    + intros x d Hx. cbn. rewrite lookup_insert_ne; [done|]. intros <-. unfold fresh_id in Hid. congruence.
    + right. exists chunks. split; [done|]. left. by exists claimed.
  - right. f_equal. destruct (decide (claimed = blake3_hex data)); [done|by destruct Hne].
  - by left.
Qed.
End commits.

(** ** Requests *)

Section requests.
Context `{Blake3} `{Serde ArtifactRecord} `{Upstream} `{UuidGen}.
Implicit Types (w : world kvmap).

(** A cache without a time to live never asks the upstream again. *)
Lemma ttl_zero_never_expires (self : CacheRepo) (now : DateTime) (record : ArtifactRecord) :
  cr_cache_ttl_secs self = 0%Z → still_fresh self now record = true.
Proof. intros Hz. unfold still_fresh. apply bool_decide_eq_true. by left. Qed.

Lemma run_open blobs record data w : w_blobs w !! (blobs, default "" (ar_blob_id record)) = Some data →
  run (open_artifact_blob blobs record) w = (Some (Ok (mkArtifactContent (Reader data) record)), w).
Proof. intros Hd. unfold open_artifact_blob. rewrite run_bind_ok. cbn [run blob call handle blob_step]. by rewrite Hd. Qed.

(** What a GET leaves unchanged. *)
Definition same_stores w w' : Prop := w_kv w' = w_kv w ∧ w_blobs w' = w_blobs w.

(** What is cached stays available.  A GET of a path that has a record
    with its blob always succeeds and changes neither store: while the record
    is fresh its content is served, whatever the upstream would say (with a
    time to live of 0, for ever); when it is stale and the upstream cannot be
    reached or answers with an error, the stale content is served; so it is
    for a caller that waited for another download and was notified.  Only an upstream that
    answers 404 makes the path disappear, and only a successful answer makes
    the GET a new download, under a fresh blob id, of the content and with the
    type and the hash that the upstream announced. *)
Theorem cache_get_available (full : bool) (claim : download_claim) (self : CacheRepo) (path : string) (record : ArtifactRecord)
    (data : bytes) w :
  old_of (w_kv w) (artifact_key (cr_name self) path) = inr (Some record) →
  w_blobs w !! (cr_blobs self, default "" (ar_blob_id record)) = Some data →
  (still_fresh self (w_now w) record = false → claim ≠ Forgotten) →
  let cached := Some (mkArtifactContent (Reader data) record) in
  ∃ (res : option ArtifactContent) (w' : world kvmap),
    run (cache_get full claim self path) w = (Some (Ok res), w') ∧ same_stores w w' ∧
    (still_fresh self (w_now w) record = true → res = cached) ∧
    (still_fresh self (w_now w) record = false → claim = Notified → res = cached) ∧
    (still_fresh self (w_now w) record = false → claim = Leader →
      match http_get (upstream_url_of self path) (cr_upstream_auth self) with
      | inl _ => res = cached
      | inr resp =>
          if is_success resp then
            ∃ (t : StreamTask) (r : ArtifactRecord), res = Some (mkArtifactContent (Stream t) r) ∧
              sk_repo t = cr_name self ∧ sk_path t = path ∧ sk_body t = rs_body resp ∧
              sk_blob_id t = new_v4 (w_uuids w) ∧ ar_content_type r = content_type_of resp ∧
              sk_blake3 t = ar_content_hash r ∧ ar_content_hash r = extract_upstream_blake3 (rs_header resp)
          else if is_not_found resp then res = None else res = cached
      end).
Proof.
  intros Hold Hdata Hwait cached. unfold cache_get.
  assert (∀ w', w_blobs w' = w_blobs w → run (let*? content := open_artifact_blob (cr_blobs self) record in
    Ret (Ok (Some content))) w' = (Some (Ok cached), w')) as Hserve.
  { intros w' Hw'. rewrite run_bind_ok, (run_open _ _ data w'); [done|]. by rewrite Hw'. }
  rewrite run_bind. change (run (call ENow) w) with (Some (w_now w), w). cbv beta iota.
  rewrite run_bind_ok, run_get_artifact, Hold. cbv beta iota zeta.
  destruct (still_fresh self (w_now w) record) eqn:Hfresh.
  { rewrite run_bind. unfold touch. exists cached. destruct full; cbv beta iota.
    - cbn [run]. rewrite Hserve by done. exists w. by split_and!.
    - cbn [run call handle]. rewrite Hserve by done. eexists. by split_and!. }
  destruct claim; [| |by destruct (Hwait eq_refl)].
  2: { rewrite run_bind_ok, run_get_artifact, Hold, Hserve by done. exists cached, w. by split_and!. }
  destruct (http_get _ _) as [e|resp] eqn:Hhttp.
  { rewrite Hserve by done. exists cached, w. by split_and!. }
  destruct (is_success resp); cbn [negb].
  - rewrite run_bind. cbn [run call handle]. eexists _, _. split; [done|]. split_and!; [done|done|done|].
    intros _ _. eexists _, _. by split_and!.
  - destruct (is_not_found resp).
    + exists None, w. by split_and!.
    + rewrite Hserve by done. exists cached, w. by split_and!.
Qed.

(** A caller that is forgotten never returns. *)
Lemma cache_get_forgotten (full : bool) (self : CacheRepo) (path : string) (old : option ArtifactRecord) w :
  old_of (w_kv w) (artifact_key (cr_name self) path) = inr old →
  (∀ record, old = Some record → still_fresh self (w_now w) record = false) →
  run (cache_get full Forgotten self path) w = (None, w).
Proof.
  intros Hold Hstale. unfold cache_get. rewrite run_bind. change (run (call ENow) w) with (Some (w_now w), w). cbv beta iota.
  rewrite run_bind_ok, run_get_artifact, Hold. cbv beta iota zeta. destruct old as [record|]; [|done].
  by rewrite (Hstale record).
Qed.
End requests.

(** ** Witnesses *)

(** An upstream that is down. *)
Definition toy_upstream : Upstream := {|
  http_head := λ _ _, inl "connection refused";
  http_get := λ _ _, inl "connection refused";
|}.

Definition toy_cache : CacheRepo := mkCacheRepo "r" "http://up/" 1 "s" "s" None "raw".

Definition toy_cache_world : world kvmap :=
  mkWorld toy_store {[("s", "blob") := "data"]} {["s"]} (10 ^ 10)%Z 0 [] false.

(** The record is stale, and is served since the upstream is down. *)
Lemma cache_get_available_witness :
  let _ := toy_blake3 in let _ := toy_ar_serde in let _ := toy_upstream in let _ := toy_uuid in
  ∃ res w', run (cache_get false Leader toy_cache "b") toy_cache_world = (Some (Ok res), w') ∧
    res = Some (mkArtifactContent (Reader "data") (toy_artifact "b" 4)).
Proof.
  intros ? ? ? ?.
  destruct (@cache_get_available toy_blake3 toy_ar_serde toy_upstream toy_uuid false Leader toy_cache "b"
    (toy_artifact "b" 4) "data" toy_cache_world) as (res & w' & Hr & _ & _ & _ & Hstale);
    [vm_compute; reflexivity|reflexivity|discriminate|].
  exists res, w'. split; [exact Hr|]. exact (Hstale eq_refl eq_refl).
Defined.

Definition toy_task : StreamTask :=
  mkStreamTask "r" "s" "s" "dir/f" "text/plain" "new" "e" (Some toy_abc_hash) 0%Z [inr "a"; inr ""; inr "bc"].

Definition toy_task_serde : Serde BlobRecord :=
  table_serde [mkBlobRecord 5 "b1" toy_abc_hash 3 0%Z "s"; mkBlobRecord 5 "new" toy_abc_hash 3 0%Z "s"].

Definition toy_task_record : ArtifactRecord :=
  ar_prepared (raw_record (Some "b1") (Some toy_abc_hash) (Some "e") 3 "text/plain" 0%Z) "uuid-0" 0%Z "dir/f".

Definition toy_task_ar_serde : Serde ArtifactRecord := table_serde [toy_task_record].

(** The content is in the store already; the client receives it in full. *)
Lemma cache_commit_sound_witness :
  let _ := toy_blake3 in let _ := toy_task_ar_serde in let _ := toy_te_serde in let _ := toy_task_serde in
  let _ := toy_uuid in
  ∃ c w', run (commit_stream (λ _, true) toy_task) toy_abc_world = (Some (c, Ok tt), w') ∧
    sound "s" "s" {["r"]} w' ∧ join_chunks (cv_chunks c) = "abc" ∧
    stored_as "s" "r" "dir/f" "text/plain" 3 "abc" toy_abc_world w'.
Proof.
  intros ? ? ? ? ?.
  destruct (@cache_commit_sound toy_blake3 toy_task_ar_serde toy_te_serde toy_task_serde toy_uuid
    (table_serde_exact _) (table_serde_exact _) (λ _, true) toy_task {["r"]} toy_abc_world)
    as (c & res & w' & Hr & Hs & Hres); [apply toy_abc_sound; reflexivity|reflexivity|].
  pose proof (f_equal (λ x, (λ y, (cv_gone y.1, is_ok y.2)) <$> x.1) Hr) as Hok. vm_compute in Hok.
  destruct c as [chunks gone], res as [ []|e]; [|discriminate Hok]. injection Hok as Hgone.
  destruct Hres as (body & Hbody & _ & Hstored & Hview). exists (mkClientView chunks gone), w'.
  split; [exact Hr|]. split; [exact Hs|].
  assert (join_chunks body = "abc") as Hdata.
  { destruct body as [|c1 [|c2 [|c3 [|] ] ] ]; try discriminate Hbody. injection Hbody as <- <- <-. reflexivity. }
  cbv zeta in Hstored, Hview. rewrite Hdata in Hstored, Hview. split; [apply Hview; symmetry; exact Hgone|exact Hstored].
Defined.
