(* ===== verification/Proxy.v ===== *)
(** * Proxy repositories (core/src/repo/proxy.rs, mod.rs)

    A proxy resolves a path through an ordered list of members, which may be
    proxies again, and lists the union of its members.  The theorems say that
    a request visits the leaves of the membership graph in order, terminates
    on any graph, circular ones included, and answers with the first hit; that
    a listing is the merge of the members' listings in which the first member
    wins; and that a proxy reads the blobs of its members from its own store. *)

From S2P Require Import Prelude Bytes Errors Keys Records Kv Prog Wp Scan Pagination Update.
From S2P Require Import Artifact Blob Repo Directory Ingest Cache.

(** ** Construction *)

(** What the repositories of a request share: the blob store, and what the
    request meets in the queue of access events and in the map of downloads. *)
(** core/src/repo/mod.rs:60-66 *)
Record RepoContext : Type := mkRepoContext {
  rx_blobs : string;
  rx_full : bool;
  rx_claim : string → download_claim;
  rx_fuel : nat;
}.

(** core/src/repo/proxy.rs:24-34 *)
Record ProxyRepo : Type := mkProxyRepo {
  px_name : string;
  px_members : list string;
  px_ctx : RepoContext;
  px_depth : Z;
}.

(** core/src/repo/proxy.rs:18-18 *)
Definition MAX_PROXY_DEPTH : Z := 8.

(** core/src/repo/proxy.rs:309-312 *)
Inductive MergeOp : Type :=
| MList (prefix : string)
| MSearch (query : string).

Section proxy.
Context `{Blake3} `{Serde ArtifactRecord} `{Serde TreeEntry} `{Serde BlobRecord} `{Serde RepoConfig}
  `{Unicode} `{Base64} `{Upstream}.

(** The loop over the members that HEAD and GET share; [make] builds the
    repository of a member.  Members that are missing, that do not have the
    path, or that fail are skipped. *)
(** core/src/repo/proxy.rs:56-97 *)
Fixpoint try_members {A : Type} (make : RepoConfig → RawRepo) (op : RawRepo → prog (result (option A)))
    (members : list string) : prog (result (option A)) :=
  match members with
  | [] => Ret (Ok None)
  | member_name :: members =>
      let*? member_config := get_repo member_name in
      match member_config with
      | None => try_members make op members
      | Some member_config =>
          let* result := op (make member_config) in
          match result with
          | Ok (Some a) => Ret (Ok (Some a))
          | Ok None => try_members make op members
          | Err _ => try_members make op members
          end
      end
  end.

(** core/src/repo/proxy.rs:47-98 *)
Definition proxy_head (make : RepoConfig → RawRepo) (self : ProxyRepo) (path : string) :
    prog (result (option ArtifactRecord)) :=
  if decide (px_depth self > MAX_PROXY_DEPTH)%Z then Ret (Ok None)
  else try_members make (λ r, raw_head r path) (px_members self).

(** core/src/repo/proxy.rs:110-161 *)
Definition proxy_get (make : RepoConfig → RawRepo) (self : ProxyRepo) (path : string) :
    prog (result (option ArtifactContent)) :=
  if decide (px_depth self > MAX_PROXY_DEPTH)%Z then Ret (Ok None)
  else try_members make (λ r, raw_get r path) (px_members self).

(** [merged.entry(path).or_insert(record)] for the items of a page. *)
(** core/src/repo/proxy.rs:237-240 *)
Definition merge_page_items (merged : gmap string ArtifactRecord) (items : list (string * ArtifactRecord)) :
    gmap string ArtifactRecord :=
  foldl (λ merged '(path, record), if decide (is_Some (merged !! path)) then merged else <[path := record]> merged)
    merged items.

(** core/src/repo/proxy.rs:214-233 *)
Definition member_page (fuel : nat) (op : MergeOp) (member_name : string) (pg : Pagination) :
    prog (result (PaginatedResult (string * ArtifactRecord))) :=
  match op with
  | MList prefix => list_artifacts fuel member_name prefix pg
  | MSearch query => search_artifacts fuel member_name query pg
  end.

(** core/src/repo/proxy.rs:206-251 *)
Fixpoint merge_members (fuel : nat) (op : MergeOp) (pg : Pagination) (members : list string)
    (merged : gmap string ArtifactRecord) : prog (gmap string ArtifactRecord) :=
  match members with
  | [] => Ret merged
  | member_name :: members =>
      let* result := member_page fuel op member_name pg in
      merge_members fuel op pg members
        (match result with Ok page => merge_page_items merged (pr_items page) | Err _ => merged end)
  end.

(** core/src/repo/proxy.rs:188-266 *)
Definition paginated_merge (self : ProxyRepo) (pagination : Pagination) (op : MergeOp) :
    prog (result (PaginatedResult (string * ArtifactRecord))) :=
  if decide (px_members self = []) then Ret (Ok (mkPaginatedResult [] None))
  else
    let per_member_limit := S (pg_limit pagination) in
    let member_pagination := mkPagination (pg_cursor pagination) 0 per_member_limit in
    let* merged := merge_members (rx_fuel (px_ctx self)) op member_pagination (px_members self) ∅ in
    let skip := if pg_cursor pagination is None then pg_offset pagination else 0 in
    let items := take per_member_limit (drop skip (merge_sort sk_le (map_to_list merged))) in
    Ret (Ok (paginate_results items (pg_limit pagination))).

(** [existing.artifact_count += de.artifact_count] and the rest. *)
(** core/src/repo/proxy.rs:284-291 *)
Definition add_dir (existing de : DirEntry) : DirEntry :=
  mkDirEntry (de_schema_version existing) (u64_add (de_artifact_count existing) (de_artifact_count de))
    (u64_add (de_total_bytes existing) (de_total_bytes de))
    (Z.max (de_last_modified_at existing) (de_last_modified_at de))
    (Z.max (de_last_accessed_at existing) (de_last_accessed_at de)).

(** core/src/repo/proxy.rs:281-298 *)
Definition merge_children (st : gmap string DirEntry * gmap string TreeEntry) (children : ChildrenResult) :
    gmap string DirEntry * gmap string TreeEntry :=
  (foldl (λ dirs '(name, de), <[name := match dirs !! name with Some existing => add_dir existing de | None => de end]> dirs)
     st.1 children.1,
   foldl (λ files '(name, record), if decide (is_Some (files !! name)) then files else <[name := record]> files)
     st.2 children.2).

(** The loop of [proxy_list_children]; a member that fails is left out. *)
(** core/src/repo/proxy.rs:277-300 *)
Fixpoint children_members (fuel : nat) (prefix : string) (members : list string)
    (st : gmap string DirEntry * gmap string TreeEntry) : prog (gmap string DirEntry * gmap string TreeEntry) :=
  match members with
  | [] => Ret st
  | member_name :: members =>
      let* result := list_children fuel member_name prefix in
      children_members fuel prefix members (match result with Ok c => merge_children st c | Err _ => st end)
  end.

(** core/src/repo/proxy.rs:269-306 *)
Definition proxy_list_children (self : ProxyRepo) (prefix : string) : prog (result ChildrenResult) :=
  let* st := children_members (rx_fuel (px_ctx self)) prefix (px_members self) (∅, ∅) in
  let dirs := merge_sort sk_le (map_to_list st.1) in
  let files := merge_sort sk_le (map_to_list st.2) in
  Ret (Ok (dirs, files)).

(** core/src/repo/proxy.rs:314-343 *)
Definition proxy_raw (make : RepoConfig → RawRepo) (self : ProxyRepo) : RawRepo := {|
  raw_head := proxy_head make self;
  raw_get := proxy_get make self;
  raw_search := λ query pagination, paginated_merge self pagination (MSearch query);
  raw_list := λ prefix pagination, paginated_merge self pagination (MList prefix);
  raw_list_children := proxy_list_children self;
|}.

(** A repository whose construction ran out of fuel. *)
Definition spin_repo : RawRepo :=
  mkRawRepo (λ _, Spin) (λ _, Spin) (λ _ _, Spin) (λ _ _, Spin) (λ _, Spin).

(** [fuel] bounds the nesting of proxies. *)
(** core/src/repo/mod.rs:131-174 *)
Fixpoint make_raw_repo_with_depth (fuel : nat) (ctx : RepoContext) (config : RepoConfig) (depth : Z) : RawRepo :=
  match rc_kind config with
  | Hosted =>
      hosted_raw (rx_full ctx) (rx_fuel ctx)
        (mkHostedRepo (rc_name config) (rx_blobs ctx) (rc_store config) (display_format (repo_format config)))
  | Cache upstream_url cache_ttl_secs upstream_auth =>
      cache_raw (rx_full ctx) (rx_claim ctx (rc_name config)) (rx_fuel ctx)
        (mkCacheRepo (rc_name config) upstream_url cache_ttl_secs (rx_blobs ctx) (rc_store config) upstream_auth
           (display_format (repo_format config)))
  | Proxy members _ =>
      match fuel with
      | O => spin_repo
      | S fuel =>
          proxy_raw (λ member_config, make_raw_repo_with_depth fuel ctx member_config (depth + 1))
            (mkProxyRepo (rc_name config) members ctx depth)
      end
  end.

(** A proxy deeper than [MAX_PROXY_DEPTH] has no members: ten levels suffice. *)
Definition PROXY_FUEL : nat := 10.

(** core/src/repo/mod.rs:126-128 *)
Definition make_raw_repo (ctx : RepoContext) (config : RepoConfig) : RawRepo :=
  make_raw_repo_with_depth PROXY_FUEL ctx config 0.
End proxy.

(** ** Resolution *)

Section resolution.
Context `{Blake3} `{Serde ArtifactRecord} `{Serde TreeEntry} `{Serde BlobRecord} `{Serde RepoConfig}
  `{Unicode} `{Base64} `{Upstream} `{UuidGen}.
Implicit Types (m : kvmap) (w : world kvmap).

(** The hosted and cache repositories that a repository at a depth resolves
    to, in the order in which a request tries them. *)
Fixpoint leaves (fuel : nat) m (config : RepoConfig) (depth : Z) : list RepoConfig :=
  match rc_kind config with
  | Proxy members _ =>
      match fuel with
      | O => []
      | S fuel =>
          if decide (depth > MAX_PROXY_DEPTH)%Z then []
          else flat_map (λ name, match repo_of m name with
                                 | Ok (Some c) => leaves fuel m c (depth + 1)
                                 | _ => []
                                 end) members
      end
  | _ => [config]
  end.

(** A request on the leaves one after the other, up to the first that has the
    path; the ones that do not have it, or fail, are skipped. *)
Inductive first_hit {A : Type} (op : RepoConfig → prog (result (option A))) :
    list RepoConfig → world kvmap → option A → world kvmap → Prop :=
| hit_none w : first_hit op [] w None w
| hit_here c l w a w' : run (op c) w = (Some (Ok (Some a)), w') → first_hit op (c :: l) w (Some a) w'
| hit_later c l w r w1 o w' : run (op c) w = (Some r, w1) → (∀ a, r ≠ Ok (Some a)) →
    first_hit op l w1 o w' → first_hit op (c :: l) w o w'.

Lemma first_hit_app_none {A} (op : RepoConfig → prog (result (option A))) l1 l2 w w1 o w' :
  first_hit op l1 w None w1 → first_hit op l2 w1 o w' → first_hit op (l1 ++ l2) w o w'.
Proof.
  remember None as n eqn:Hn. intros Hh1 Hh2. revert Hn. induction Hh1 as [w| |c l w r w1 o1 w2 Hr Hne _ IH]; intros Hn; simplify_eq/=.
  - done.
  - eapply hit_later; eauto.
Qed.

Lemma first_hit_app_some {A} (op : RepoConfig → prog (result (option A))) l1 l2 w a w' :
  first_hit op l1 w (Some a) w' → first_hit op (l1 ++ l2) w (Some a) w'.
Proof.
  remember (Some a) as n eqn:Hn. intros Hh1. revert Hn. induction Hh1 as [w|c l w a' w' Hr|c l w r w1 o1 w2 Hr Hne _ IH]; intros Hn; simplify_eq/=.
  - by constructor.
  - eapply hit_later; eauto.
Qed.

(** The configurations can be read. *)
Definition configs_readable m : Prop := ∀ name : string, ∃ o : option RepoConfig, repo_of m name = Ok o.

(** The request that a leaf gets. *)
Definition leaf_repo (ctx : RepoContext) (c : RepoConfig) : RawRepo := make_raw_repo_with_depth 0 ctx c 0.

Definition is_leaf (c : RepoConfig) : Prop := ∀ members wm, rc_kind c ≠ Proxy members wm.

Lemma leaf_repo_any fuel ctx c depth : is_leaf c → make_raw_repo_with_depth fuel ctx c depth = leaf_repo ctx c.
Proof. unfold is_leaf, leaf_repo. intros Hl. destruct fuel; cbn; destruct (rc_kind c) eqn:Hk; try done; by destruct (Hl _ _ eq_refl). Qed.

(** An operation of repositories that proxies delegate to their members, and
    that on the leaves terminates and leaves the records alone. *)
Section delegated.
Context {A : Type} (ctx : RepoContext) (op : RawRepo → prog (result (option A))).
Context (op_proxy : ∀ make self, op (proxy_raw make self) =
  if decide (px_depth self > MAX_PROXY_DEPTH)%Z then Ret (Ok None) else try_members make op (px_members self)).
Context (op_leaf : ∀ (c : RepoConfig) w, is_leaf c →
  ∃ (r : result (option A)) (w' : world kvmap), run (op (leaf_repo ctx c)) w = (Some r, w') ∧ w_kv w' = w_kv w).

Lemma run_try_members (make : RepoConfig → RawRepo) (lv : RepoConfig → list RepoConfig) members w :
  configs_readable (w_kv w) →
  (∀ (c : RepoConfig) w1, w_kv w1 = w_kv w → ∃ (r : result (option A)) (o : option A) (w' : world kvmap),
     run (op (make c)) w1 = (Some r, w') ∧ w_kv w' = w_kv w ∧ first_hit (λ c, op (leaf_repo ctx c)) (lv c) w1 o w' ∧
     match o with Some a => r = Ok (Some a) | None => ∀ a, r ≠ Ok (Some a) end) →
  ∃ (o : option A) (w' : world kvmap), run (try_members make op members) w = (Some (Ok o), w') ∧ w_kv w' = w_kv w ∧
    first_hit (λ c, op (leaf_repo ctx c)) (flat_map (λ name, match repo_of (w_kv w) name with
      | Ok (Some c) => lv c | _ => [] end) members) w o w'.
Proof.
  intros Hread Hmake. set (m := w_kv w) in *. assert (w_kv w = m) as Hw by done. clearbody m. revert w Hw.
  induction members as [|name members IH]; intros w Hw; cbn [try_members flat_map].
  { exists None, w. split_and!; [done|done|constructor]. }
  rewrite run_bind_ok, run_get_repo, Hw. destruct (Hread name) as [ [c|] Hc]; rewrite Hc; [|by apply IH].
  rewrite run_bind. destruct (Hmake c w Hw) as (r & o & w1 & Hr & Hk & Hhit & Ho). rewrite Hr.
  destruct o as [a|].
  - subst r. exists (Some a), w1. split_and!; [done|done|]. by apply first_hit_app_some.
  - destruct (IH w1 Hk) as (o & w2 & Hr2 & Hk2 & Hhit2). exists o, w2.
    split_and!; [|done|by eapply first_hit_app_none]. destruct r as [ [a|]|e]; [by destruct (Ho a)|done|done].
Qed.

Lemma run_resolve fuel c depth w :
  configs_readable (w_kv w) → (depth ≤ MAX_PROXY_DEPTH + 1)%Z → (MAX_PROXY_DEPTH + 1 - depth < Z.of_nat fuel)%Z →
  ∃ (r : result (option A)) (o : option A) (w' : world kvmap),
    run (op (make_raw_repo_with_depth fuel ctx c depth)) w = (Some r, w') ∧ w_kv w' = w_kv w ∧
    first_hit (λ c, op (leaf_repo ctx c)) (leaves fuel (w_kv w) c depth) w o w' ∧
    (is_leaf c ∨ r = Ok o) ∧ match o with Some a => r = Ok (Some a) | None => ∀ a, r ≠ Ok (Some a) end.
Proof using op_proxy op_leaf.
  revert c depth w. induction fuel as [|fuel IH]; intros c depth w Hread Hd Hfuel; [lia|].
  assert (is_leaf c → leaves (S fuel) (w_kv w) c depth = [c] → ∃ (r : result (option A)) (o : option A) (w' : world kvmap),
    run (op (make_raw_repo_with_depth (S fuel) ctx c depth)) w = (Some r, w') ∧ w_kv w' = w_kv w ∧
    first_hit (λ c, op (leaf_repo ctx c)) (leaves (S fuel) (w_kv w) c depth) w o w' ∧
    (is_leaf c ∨ r = Ok o) ∧ match o with Some a => r = Ok (Some a) | None => ∀ a, r ≠ Ok (Some a) end) as Hleaf.
  { intros Hl ->. rewrite leaf_repo_any by done. destruct (op_leaf c w Hl) as (r & w' & Hr & Hk). exists r.
    destruct r as [ [a|]|e]; eexists _, w'; (split_and!; [done|done| |by left|]); try by constructor.
    - by eapply hit_later; [exact Hr|done|constructor].
    - done.
    - by eapply hit_later; [exact Hr|done|constructor].
    - done. }
  destruct (rc_kind c) as [| |members wm] eqn:Hk.
  - apply Hleaf; [intros ms wm; by rewrite Hk|cbn [leaves]; by rewrite Hk].
  - apply Hleaf; [intros ms wm; by rewrite Hk|cbn [leaves]; by rewrite Hk].
  - clear Hleaf. cbn [leaves make_raw_repo_with_depth]. rewrite Hk, op_proxy. cbn [px_depth px_members].
    case_decide as Hdeep.
    + exists (Ok None), None, w. split_and!; [done|done|constructor|by right|done].
    + destruct (run_try_members (λ member_config, make_raw_repo_with_depth fuel ctx member_config (depth + 1))
        (λ c, leaves fuel (w_kv w) c (depth + 1)) members w Hread) as (o & w' & Hr & Hkv & Hhit).
      { intros c' w1 Hw1. destruct (IH c' (depth + 1)%Z w1) as (r & o & w' & Hr & Hkv & Hhit & _ & Ho); [by rewrite Hw1|lia..|].
        exists r, o, w'. split_and!; [done|congruence|by rewrite <-Hw1|done]. }
      exists (Ok o), o, w'. split_and!; [done|done|done|by right|]. destruct o; [done|]. by intros a.
Qed.
End delegated.

(** A request for a path leaves the records alone. *)
Definition keeps_kv w w' : Prop := w_kv w' = w_kv w.

#[local] Instance keeps_kv_preorder : PreOrder keeps_kv.
Proof. split; [by intros w|intros w1 w2 w3 Hk1 Hk2; unfold keeps_kv in *; congruence]. Qed.

Lemma keeps_call e : (∀ o, e ≠ EKv o) → within keeps_kv (call e).
Proof.
  intros He. apply within_call. intros w. destruct e as [o|store o| | | | |]; try done; [by destruct (He o)|].
  by destruct o.
Qed.

Lemma keeps_now : within keeps_kv (call ENow).
Proof. by apply keeps_call. Qed.

Lemma keeps_uuid : within keeps_kv (call EUuid).
Proof. by apply keeps_call. Qed.

Lemma keeps_blob store o : within keeps_kv (blob store o).
Proof. by apply (keeps_call (EBlob store o)). Qed.

Lemma keeps_get_artifact repo path : within keeps_kv (get_artifact repo path).
Proof. intros w. by eapply wp_intro; [apply run_get_artifact|]. Qed.

Lemma keeps_open blobs r : within keeps_kv (open_artifact_blob blobs r).
Proof.
  apply within_bind_ok; [apply _|apply keeps_blob|]. intros [data|]; apply within_ret, _.
Qed.

Lemma keeps_serve blobs r : within keeps_kv (let*? content := open_artifact_blob blobs r in Ret (Ok (Some content))).
Proof. apply within_bind_ok; [apply _|apply keeps_open|]. intros content. apply within_ret, _. Qed.

Lemma keeps_touch full repo path now : within keeps_kv (touch full repo path now).
Proof. unfold touch. destruct full; [apply within_ret, _|by apply (keeps_call (ESend _))]. Qed.

(** The branches of a request of a cache. *)
Ltac keeps_request :=
  repeat first
    [ apply keeps_serve
    | apply within_ret, _
    | apply within_bind_ok; [apply _|apply keeps_get_artifact|intros [?|] ]
    | apply within_bind; [apply _|first [apply keeps_uuid|apply keeps_touch]|intros ?]
    | case_match ].

Lemma leaf_head_keeps ctx c path : is_leaf c → within keeps_kv (raw_head (leaf_repo ctx c) path).
Proof.
  unfold leaf_repo, is_leaf. cbn [make_raw_repo_with_depth]. destruct (rc_kind c) as [|url ttl auth|members wm]; intros Hl; [|clear Hl|by destruct (Hl members wm)].
  - apply keeps_get_artifact.
  - change (within keeps_kv (cache_head (mkCacheRepo (rc_name c) url ttl (rx_blobs ctx) (rc_store c) auth
      (display_format (repo_format c))) path)). unfold cache_head. apply within_bind; [apply _|apply keeps_now|]. intros now.
    apply within_bind_ok; [apply _|apply keeps_get_artifact|]. intros cached. cbv zeta.
    destruct cached as [r|]; [destruct (still_fresh _ _ r)|]; keeps_request.
Qed.

Lemma leaf_get_keeps ctx c path : rx_claim ctx (rc_name c) ≠ Forgotten → is_leaf c → within keeps_kv (raw_get (leaf_repo ctx c) path).
Proof.
  intros Hclaim. unfold leaf_repo, is_leaf. cbn [make_raw_repo_with_depth]. destruct (rc_kind c) as [|url ttl auth|members wm]; intros Hl; [|clear Hl|by destruct (Hl members wm)].
  - cbn [raw_get hosted_raw]. unfold hosted_get. apply within_bind_ok; [apply _|apply keeps_get_artifact|]. intros [r|]; [|apply within_ret, _].
    apply within_bind; [apply _|apply keeps_now|]. intros now.
    apply within_bind; [apply _|apply keeps_touch|]. intros _. apply keeps_serve.
  - cbn [raw_get cache_raw]. unfold cache_get. apply within_bind; [apply _|apply keeps_now|]. intros now.
    apply within_bind_ok; [apply _|apply keeps_get_artifact|]. intros cached. cbv zeta.
    destruct cached as [r|]; [destruct (still_fresh _ _ r)|]; keeps_request; congruence.
Qed.

(** C29: A proxy answers with the first hit, on any graph of members whose
    configurations can be read.  A HEAD terminates even when proxies are members
    of each other, and so does a GET if each download that it waits for
    notifies it.  The request tries the hosted and cache repositories to which
    the members resolve, depth first in the order of the member lists and down
    to eight nested proxies, and answers with the first one that has the path; a
    repository that does not exist, fails or does not have it is passed over,
    and only if none has it is the path not found.  The records are not changed.
    (A member whose configuration cannot be read ends the request with the
    error, and a cache that waits for a lost notification never answers:
    [proxy_get_hangs].) *)
Theorem proxy_first_hit (ctx : RepoContext) (config : RepoConfig) (members : list string) (wm : option string)
    (path : string) w :
  rc_kind config = Proxy members wm → configs_readable (w_kv w) →
  (∃ (o : option ArtifactRecord) (w' : world kvmap),
    run (raw_head (make_raw_repo ctx config) path) w = (Some (Ok o), w') ∧ w_kv w' = w_kv w ∧
    first_hit (λ c, raw_head (leaf_repo ctx c) path) (leaves PROXY_FUEL (w_kv w) config 0) w o w') ∧
  ((∀ name : string, rx_claim ctx name ≠ Forgotten) → ∃ (o : option ArtifactContent) (w' : world kvmap),
    run (raw_get (make_raw_repo ctx config) path) w = (Some (Ok o), w') ∧ w_kv w' = w_kv w ∧
    first_hit (λ c, raw_get (leaf_repo ctx c) path) (leaves PROXY_FUEL (w_kv w) config 0) w o w').
Proof.
  intros Hk Hread. split.
  - destruct (run_resolve ctx (λ r, raw_head r path) (λ _ _, eq_refl)
      (λ c w Hl, wp_run _ _ _ (leaf_head_keeps ctx c path Hl w)) PROXY_FUEL config 0 w Hread)
      as (r & o & w' & Hr & Hkv & Hhit & [Hl|Ho] & _); [unfold MAX_PROXY_DEPTH, PROXY_FUEL; lia..|by destruct (Hl _ _ Hk)|].
    subst r. by exists o, w'.
  - intros Hclaim. destruct (run_resolve ctx (λ r, raw_get r path) (λ _ _, eq_refl)
      (λ c w Hl, wp_run _ _ _ (leaf_get_keeps ctx c path (Hclaim (rc_name c)) Hl w)) PROXY_FUEL config 0 w Hread)
      as (r & o & w' & Hr & Hkv & Hhit & [Hl|Ho] & _); [unfold MAX_PROXY_DEPTH, PROXY_FUEL; lia..|by destruct (Hl _ _ Hk)|].
    subst r. by exists o, w'.
Qed.

(** A GET through a proxy waits for its member: if the member is a cache that
    has to ask the upstream while another request downloads the path, and the
    notification is lost, the proxy never answers and tries no other member. *)
Lemma proxy_get_hangs (ctx : RepoContext) (config c : RepoConfig) (name url : string) (ttl : Z) (auth : option UpstreamAuth)
    (members : list string) (wm : option string) (path : string) w :
  rc_kind config = Proxy (name :: members) wm → repo_of (w_kv w) name = Ok (Some c) →
  rc_kind c = Cache url ttl auth → rx_claim ctx (rc_name c) = Forgotten →
  old_of (w_kv w) (artifact_key (rc_name c) path) = inr None →
  run (raw_get (make_raw_repo ctx config) path) w = (None, w).
Proof.
  intros Hk Hm Hc Hclaim Hold. unfold make_raw_repo, PROXY_FUEL. cbn [make_raw_repo_with_depth]. rewrite Hk.
  cbn [proxy_raw raw_get]. unfold proxy_get. cbn [px_depth px_members try_members]. rewrite decide_False by done.
  rewrite run_bind_ok, run_get_repo, Hm, Hc, Hclaim, run_bind. cbn [raw_get cache_raw].
  by rewrite (cache_get_forgotten _ _ _ None) by done.
Qed.
End resolution.

(** ** Listings *)

(** A strictly sorted list whose first entries are all in another one, the
    keys of which it has: the two start with the same page. *)
Section sorted_pages.
Context {A : Type}.
Implicit Types (S T l : list (string * A)).

Lemma sorted_cons_keys (x : string * A) l : StronglySorted sk_lt (x :: l) → x.1 ∉ l.*1.
Proof. intros Hs%sorted_NoDup_fst. by apply NoDup_cons in Hs as [? _]. Qed.

Lemma sorted_cons_lt (x y : string * A) l : StronglySorted sk_lt (x :: l) → y ∈ l → str_lt x.1 y.1.
Proof. intros [_ Hf]%StronglySorted_inv Hy. rewrite Forall_forall in Hf. by apply (Hf y Hy). Qed.

Lemma take_same n S T :
  StronglySorted sk_lt S → StronglySorted sk_lt T → (∀ x, x ∈ take n S → x ∈ T) → (∀ k, k ∈ T.*1 → k ∈ S.*1) →
  take n T = take n S.
Proof.
  revert S T. induction n as [|n IH]; intros S T HS HT Hin Hkeys; [done|].
  destruct S as [|s S].
  { destruct T as [|t T]; [done|]. by destruct (not_elem_of_nil t.1); apply Hkeys; left. }
  assert (s ∈ T) as Hs by (apply Hin; by left). destruct T as [|t T]; [by apply elem_of_nil in Hs|].
  assert (t = s) as ->.
  { apply elem_of_cons in Hs as [->|Hs]; [done|]. exfalso. pose proof (sorted_cons_lt _ _ _ HT Hs) as Hlt.
    assert (t.1 ∈ (s :: S).*1) as Ht by (apply Hkeys; by left). cbn in Ht. apply elem_of_cons in Ht as [Heq|Ht].
    - rewrite Heq in Hlt. by apply str_lt_irrefl in Hlt.
    - apply list_elem_of_fmap in Ht as (y & Heq & Hy). pose proof (sorted_cons_lt _ _ _ HS Hy) as Hlt'.
      rewrite <-Heq in Hlt'. apply (str_lt_irrefl t.1). by etrans. }
  cbn [take]. f_equal. apply IH.
  - by apply StronglySorted_inv in HS as [? _].
  - by apply StronglySorted_inv in HT as [? _].
  - intros x Hx. assert (x ∈ s :: T) as Hx' by (apply Hin; by right). apply elem_of_cons in Hx' as [->|?]; [|done].
    exfalso. apply (sorted_cons_keys _ _ HS). apply list_elem_of_fmap_2. apply elem_of_take in Hx as (i & Hi & _).
    by apply list_elem_of_lookup_2 in Hi.
  - intros k Hk. assert (k ∈ (s :: S).*1) as Hk' by (apply Hkeys; by right). apply elem_of_cons in Hk' as [->|?]; [|done].
    by destruct (sorted_cons_keys _ _ HT).
Qed.

(** An entry of one of the lists that a page is merged from is on the first
    page of that list. *)
Lemma take_rank {B : Type} n S (l : list (string * B)) (x : string * B) :
  StronglySorted sk_lt S → StronglySorted sk_lt l → (∀ k, k ∈ l.*1 → k ∈ S.*1) → x ∈ l → x.1 ∈ (take n S).*1 → x ∈ take n l.
Proof.
  revert S l. induction n as [|n IH]; intros S l HS Hl Hkeys Hx Hrank; [by apply elem_of_nil in Hrank|].
  destruct S as [|s S]; [by apply elem_of_nil in Hrank|]. destruct l as [|a l]; [done|]. cbn [take] in Hrank |- *.
  apply StronglySorted_inv in HS as [HS HSf]. pose proof Hl as Hl'. apply StronglySorted_inv in Hl' as [Hl' Hlf].
  rewrite Forall_forall in HSf. rewrite Forall_forall in Hlf.
  destruct (decide (a.1 = s.1)) as [Heq|Hne].
  - apply elem_of_cons in Hx as [->|Hx]; [by left|]. right. apply (IH S l); [done|done| |done|].
    + intros k Hk. assert (k ∈ (s :: S).*1) as Hk' by (apply Hkeys; by right).
      apply elem_of_cons in Hk' as [->|?]; [|done]. exfalso. apply list_elem_of_fmap in Hk as (y & Hy1 & Hy).
      pose proof (Hlf y Hy) as Hlt. unfold sk_lt in Hlt. rewrite <-Hy1, Heq in Hlt. by apply str_lt_irrefl in Hlt.
    + apply elem_of_cons in Hrank as [Hr|?]; [|done]. exfalso. pose proof (Hlf x Hx) as Hlt. unfold sk_lt in Hlt.
      rewrite Hr, Heq in Hlt. by apply str_lt_irrefl in Hlt.
  - assert (∀ y, y ∈ a :: l → y.1 ≠ s.1) as Hnot.
    { intros y Hy Heqy. assert (a.1 ∈ (s :: S).*1) as Ha by (apply Hkeys; by left).
      apply elem_of_cons in Ha as [?|Ha]; [done|]. apply list_elem_of_fmap in Ha as (z & Hz1 & Hz).
      pose proof (HSf z Hz) as Hlt. unfold sk_lt in Hlt. rewrite <-Hz1 in Hlt.
      apply elem_of_cons in Hy as [->|Hy]; [done|]. pose proof (Hlf y Hy) as Hlt'. unfold sk_lt in Hlt'.
      rewrite Heqy in Hlt'. apply (str_lt_irrefl s.1). by etrans. }
    assert (x ∈ take n (a :: l)) as Hin.
    { apply (IH S (a :: l)); [done|done| |done|].
      - intros k Hk. assert (k ∈ (s :: S).*1) as Hk' by by apply Hkeys. apply elem_of_cons in Hk' as [->|?]; [|done].
        exfalso. apply list_elem_of_fmap in Hk as (y & Hy1 & Hy). by apply (Hnot y Hy).
      - apply elem_of_cons in Hrank as [Hr|?]; [|done]. by destruct (Hnot x Hx). }
    apply elem_of_take in Hin as (i & Hi & Hlt). apply (list_elem_of_lookup_2 _ i).
    change (a :: take n l) with (take (Datatypes.S n) (a :: l)). rewrite lookup_take_lt by lia. done.
Qed.
End sorted_pages.

(** The first list that has a key gives its value. *)
Definition first_wins {A : Type} (ls : list (list (string * A))) : gmap string A :=
  foldl (λ (acc : gmap string A) l, acc ∪ list_to_map l) ∅ ls.

Definition sorted_map {A : Type} (g : gmap string A) : list (string * A) := merge_sort sk_le (map_to_list g).

Section merging.
Context {A : Type}.
Implicit Types (ls : list (list (string * A))).

Lemma sorted_map_strict (g : gmap string A) : StronglySorted sk_lt (sorted_map g).
Proof. apply (union_sorted_strict (map_to_list g)), NoDup_fst_map_to_list. Qed.

Lemma elem_of_sorted_map (g : gmap string A) k v : (k, v) ∈ sorted_map g ↔ g !! k = Some v.
Proof. unfold sorted_map. rewrite merge_sort_Permutation. apply elem_of_map_to_list. Qed.

Lemma sorted_map_keys (g : gmap string A) k : k ∈ (sorted_map g).*1 ↔ is_Some (g !! k).
Proof.
  rewrite list_elem_of_fmap. split.
  - intros ([k' v] & -> & Hin%elem_of_sorted_map). by exists v.
  - intros [v Hv]. exists (k, v). split; [done|]. by apply elem_of_sorted_map.
Qed.

Lemma first_wins_snoc ls l : first_wins (ls ++ [l]) = first_wins ls ∪ list_to_map l.
Proof. unfold first_wins. by rewrite foldl_app. Qed.

Lemma elem_of_take_keys n (l : list (string * A)) k : k ∈ (take n l).*1 → k ∈ l.*1.
Proof.
  intros (x & -> & Hx)%list_elem_of_fmap. apply list_elem_of_fmap_2. apply elem_of_take in Hx as (i & Hi & _).
  by apply list_elem_of_lookup_2 in Hi.
Qed.

Lemma first_wins_None ls k : first_wins ls !! k = None ↔ ∀ l, l ∈ ls → k ∉ l.*1.
Proof.
  induction ls as [|l ls IH] using rev_ind; [by split; [intros _ l []%elem_of_nil|]|].
  rewrite first_wins_snoc, lookup_union_None, IH. split.
  - intros [Hls Hl%not_elem_of_list_to_map] l' [Hin|Hin]%elem_of_app; [auto|]. by apply list_elem_of_singleton in Hin as ->.
  - intros Hall. split; [intros l' Hl'; apply Hall, elem_of_app; by left|].
    apply not_elem_of_list_to_map, Hall, elem_of_app. right. by left.
Qed.

Lemma first_wins_keys ls k : is_Some (first_wins ls !! k) ↔ ∃ l, l ∈ ls ∧ k ∈ l.*1.
Proof.
  rewrite <-not_eq_None_Some, first_wins_None. split.
  - intros Hn. destruct (decide (Exists (λ l, k ∈ l.*1) ls)) as [Hex|Hex]; [by apply Exists_exists in Hex|].
    destruct Hn. intros l Hl Hk. apply Hex, Exists_exists. by exists l.
  - intros (l & Hl & Hk) Hall. by apply (Hall l).
Qed.

Lemma first_wins_keep n ls k v : Forall (StronglySorted sk_lt) ls → first_wins ls !! k = Some v →
  (∀ l, l ∈ ls → ∀ y, y ∈ l → y.1 = k → y ∈ take n l) → first_wins (take n <$> ls) !! k = Some v.
Proof.
  intros Hs. induction ls as [|l ls IH] using rev_ind; intros Hk Hrank; [done|].
  apply Forall_app in Hs as [Hs [Hl _]%Forall_cons]. rewrite fmap_app. cbn [fmap list_fmap].
  rewrite first_wins_snoc in Hk |- *. apply lookup_union_Some_raw in Hk as [Hk|[Hnone Hk] ]; apply lookup_union_Some_raw.
  - left. apply IH; [done|done|]. intros l' Hl'. apply Hrank. apply elem_of_app. by left.
  - right. split.
    + apply first_wins_None. intros l' (l0 & -> & Hl0)%list_elem_of_fmap Hin%elem_of_take_keys.
      rewrite first_wins_None in Hnone. by apply (Hnone l0).
    + apply elem_of_list_to_map_2 in Hk. apply elem_of_list_to_map_1.
      * apply NoDup_fst_sublist with l; [apply sublist_take|by apply sorted_NoDup_fst].
      * apply (Hrank l); [apply elem_of_app; right; by left|done|done].
Qed.

(** Cutting the lists does not change the first page of the merge. *)
Lemma first_wins_take n ls : Forall (StronglySorted sk_lt) ls →
  take n (sorted_map (first_wins (take n <$> ls))) = take n (sorted_map (first_wins ls)).
Proof.
  intros Hs. apply take_same; [apply sorted_map_strict..| |].
  - intros [k v] Hin. pose proof Hin as Hin'. apply elem_of_take in Hin' as (i & Hi & _).
    apply list_elem_of_lookup_2, elem_of_sorted_map in Hi. apply elem_of_sorted_map. apply first_wins_keep; [done|done|].
    intros l Hl y Hy Hyk. apply (take_rank n (sorted_map (first_wins ls))); [apply sorted_map_strict| | |done|].
    + rewrite Forall_forall in Hs. by apply Hs.
    + intros k' Hk'. apply sorted_map_keys, first_wins_keys. by exists l.
    + rewrite Hyk. apply list_elem_of_fmap. by exists (k, v).
  - intros k (l & (l0 & -> & Hl0)%list_elem_of_fmap & Hk%elem_of_take_keys)%sorted_map_keys%first_wins_keys.
    apply sorted_map_keys, first_wins_keys. by exists l0.
Qed.
End merging.

Section merge_lists.
Context {A : Type}.
Implicit Types (ls : list (list (string * A))) (P : string → Prop).

Lemma lookup_list_to_map_filter P `{∀ k, Decision (P k)} (l : list (string * A)) k :
  list_to_map (M:=gmap string A) (filter (λ x, P x.1) l) !! k =
    if decide (P k) then list_to_map (M:=gmap string A) l !! k else None.
Proof.
  induction l as [|[k' v] l IH]; [by case_decide|]. rewrite filter_cons. cbn [list_to_map foldr fst uncurry].
  destruct (decide (k = k')) as [->|Hne].
  - rewrite lookup_insert_eq. case_decide; [cbn; by rewrite lookup_insert_eq|]. done.
  - rewrite lookup_insert_ne by done. destruct (decide (P k')); [|done].
    rewrite list_to_map_cons, lookup_insert_ne by done. exact IH.
Qed.

Lemma first_wins_filter P `{∀ k, Decision (P k)} ls k :
  first_wins ((λ l, filter (λ x, P x.1) l) <$> ls) !! k = if decide (P k) then first_wins ls !! k else None.
Proof.
  induction ls as [|l ls IH] using rev_ind; [by case_decide|].
  rewrite fmap_app. cbn [fmap list_fmap]. rewrite !first_wins_snoc, !lookup_union, IH, lookup_list_to_map_filter.
  by case_decide.
Qed.

Lemma sorted_map_filter P `{∀ k, Decision (P k)} ls :
  sorted_map (first_wins ((λ l, filter (λ x, P x.1) l) <$> ls)) = filter (λ x, P x.1) (sorted_map (first_wins ls)).
Proof.
  apply (StronglySorted_ext sk_lt); [apply _|apply _|apply sorted_map_strict| |].
  - apply StronglySorted_filter, sorted_map_strict.
  - intros [k v]. rewrite list_elem_of_filter, !elem_of_sorted_map, first_wins_filter. cbn. case_decide; naive_solver.
Qed.
End merge_lists.

Section listings.
Context `{Blake3} `{Serde ArtifactRecord} `{Serde TreeEntry} `{Unicode} `{Base64} `{UuidGen}.
Implicit Types (m : kvmap) (w : world kvmap).

Lemma size_list_to_map_le {A : Type} (l : list (string * A)) : base.size (list_to_map (M:=gmap string A) l) ≤ length l.
Proof.
  induction l as [|[k v] l IH]; [done|]. rewrite list_to_map_cons, map_size_insert. cbn [length].
  destruct (list_to_map l !! k); cbn; lia.
Qed.

Lemma merge_page_items_union (items : list (string * ArtifactRecord)) (merged : gmap string ArtifactRecord) :
  merge_page_items merged items = merged ∪ list_to_map items.
Proof.
  unfold merge_page_items. revert merged. induction items as [|[p r] items IH]; intros merged; cbn [foldl list_to_map foldr fst uncurry].
  - apply map_eq. intros k. rewrite lookup_union, lookup_empty. by destruct (merged !! k).
  - rewrite IH. apply map_eq. intros k. rewrite !lookup_union. destruct (decide (k = p)) as [->|Hne].
    + rewrite lookup_insert_eq. case_decide as Hm.
      * destruct Hm as [x ->]. by destruct (list_to_map items !! p).
      * rewrite lookup_insert_eq. destruct (merged !! p); [by destruct Hm|]. by destruct (list_to_map items !! p).
    + rewrite (lookup_insert_ne _ p k) by done. case_decide; [done|]. by rewrite lookup_insert_ne.
Qed.

(** The records of a member that a listing or a search ranges over. *)
Definition op_listing m (op : MergeOp) (member : string) : list (string * bytes) :=
  match op with
  | MList prefix => repo_listing m member prefix
  | MSearch query => filter (λ x, contains (to_lowercase x.1) (to_lowercase query) = true) (repo_listing m member "")
  end.

(** A member whose records are in place and can be read, as [l]. *)
Definition member_lists (fuel : nat) (op : MergeOp) m (member : string) (l : list (string * ArtifactRecord)) : Prop :=
  placed m member ∧ S (repo_size m member) < fuel ∧ decode_pairs (op_listing m op member) = Ok l.

Lemma run_member_page fuel op member pg w :
  placed (w_kv w) member → S (repo_size (w_kv w) member) < fuel →
  run (member_page fuel op member pg) w = (Some (page_of pg (op_listing (w_kv w) op member)), w).
Proof. intros Hp Hf. destruct op; cbn [member_page]; [by apply run_list_artifacts|by apply run_search_artifacts]. Qed.

Lemma decode_pairs_filter (P : string → Prop) `{∀ k, Decision (P k)} (l : list (string * bytes)) (r : list (string * ArtifactRecord)) :
  decode_pairs l = Ok r → decode_pairs (filter (λ x, P x.1) l) = Ok (filter (λ x, P x.1) r).
Proof.
  revert r. induction l as [|[sk v] l IH]; intros r; cbn [decode_pairs]; [by intros [= <-]|].
  destruct (serde_result (from_slice v)) as [x|] eqn:Hx; cbn [result_bind]; [|done].
  destruct (decode_pairs l) as [r'|] eqn:Hl; cbn [result_bind]; [|done]. intros [= <-].
  rewrite !filter_cons. cbn [fst]. case_decide; [|by apply IH]. cbn [decode_pairs]. rewrite Hx. cbn [result_bind].
  by rewrite (IH r').
Qed.

Lemma op_listing_sorted m op member : placed m member → StronglySorted sk_lt (op_listing m op member).
Proof.
  intros Hp. destruct op; cbn [op_listing]; [by apply repo_listing_sorted|].
  by apply StronglySorted_filter, repo_listing_sorted.
Qed.

Lemma decoded_sorted (l : list (string * bytes)) (r : list (string * ArtifactRecord)) :
  decode_pairs l = Ok r → StronglySorted sk_lt l → StronglySorted sk_lt r.
Proof.
  intros Hk%decode_pairs_keys Hs. assert (StronglySorted str_lt l.*1) as Hl.
  { clear Hk. induction Hs as [|x l Hs IH Hx]; constructor; [done|]. apply (Forall_fmap fst). exact Hx. }
  rewrite <-Hk in Hl. clear Hk Hs. induction r as [|x r IH]; [constructor|].
  cbn in Hl. apply StronglySorted_inv in Hl as [Hl Hx]. constructor; [by apply IH|]. by apply (Forall_fmap fst) in Hx.
Qed.

Lemma run_merge_members fuel op cursor n members lists merged w :
  Forall2 (member_lists fuel op (w_kv w)) members lists →
  run (merge_members fuel op (mkPagination cursor 0 n) members merged) w =
    (Some (foldl (λ (acc : gmap string ArtifactRecord) l, acc ∪ list_to_map l) merged
       ((λ l, take n (filter (λ x, after_cursor (decode_cursor cursor) x.1) l)) <$> lists)), w).
Proof.
  intros Hm. revert merged. induction Hm as [|member l members lists (Hp & Hf & Hd) _ IH]; intros merged; [done|].
  cbn [merge_members]. rewrite run_bind, run_member_page by done.
  unfold page_of. cbn [pg_limit pg_cursor].
  assert (page_skip (mkPagination cursor 0 n) = 0) as -> by (unfold page_skip; cbn [pg_cursor]; by destruct (decode_cursor cursor)).
  rewrite drop_0.
  rewrite (proj1 (decode_pairs_take_drop (S n) _ _ (decode_pairs_filter (after_cursor (decode_cursor cursor)) _ _ Hd))).
  cbn [result_map pr_items paginate_results]. rewrite take_take, Nat.min_l by lia.
  rewrite IH, merge_page_items_union. done.
Qed.

(** A proxy lists the union of its members.  When the records of the
    members can be read, a page of a listing or a search that starts at a
    cursor, or at the beginning, is that page of the merged listing: all
    paths of the members in order, each once, with the record of the first
    member that has it; every member is asked for one entry more than a page only. *)
Theorem proxy_listing_merges (self : ProxyRepo) (pg : Pagination) (op : MergeOp)
    (lists : list (list (string * ArtifactRecord))) w :
  px_members self ≠ [] → (pg_cursor pg = None → pg_offset pg = 0) →
  Forall2 (member_lists (rx_fuel (px_ctx self)) op (w_kv w)) (px_members self) lists →
  run (paginated_merge self pg op) w =
    (Some (Ok (paginate_results
       (take (S (pg_limit pg)) (filter (λ x, after_cursor (decode_cursor (pg_cursor pg)) x.1)
          (sorted_map (first_wins lists)))) (pg_limit pg))), w).
Proof.
  intros Hne Hoff Hm. unfold paginated_merge. rewrite decide_False by done. cbv zeta.
  rewrite run_bind, (run_merge_members _ _ _ _ _ lists) by done.
  assert (∀ X : list (string * ArtifactRecord), drop (if pg_cursor pg is None then pg_offset pg else 0) X = X) as Hskip.
  { intros X. destruct (pg_cursor pg); [done|]. by rewrite Hoff. }
  cbn [run]. rewrite Hskip. do 3 f_equal. f_equal.
  rewrite <-sorted_map_filter. rewrite <-first_wins_take.
  - rewrite <-list_fmap_compose. done.
  - apply Forall_fmap, Forall_forall. intros l Hl. apply StronglySorted_filter.
    apply list_elem_of_lookup in Hl as [i Hi]. destruct (Forall2_lookup_r _ _ _ _ _ Hm Hi) as (member & _ & Hp & _ & Hd).
    eapply decoded_sorted; [exact Hd|by apply op_listing_sorted].
Qed.

(** With an offset the page is cut from at most one entry more than a page of
    each member: past that there is nothing, however long the listing is. *)
Lemma proxy_offset_loses (self : ProxyRepo) (member : string) (limit offset : nat) (op : MergeOp)
    (l : list (string * ArtifactRecord)) w :
  px_members self = [member] → member_lists (rx_fuel (px_ctx self)) op (w_kv w) member l → limit < offset →
  run (paginated_merge self (mkPagination None offset limit) op) w = (Some (Ok (mkPaginatedResult [] None)), w).
Proof.
  intros Hs Hm Ho. unfold paginated_merge. rewrite Hs, decide_False by done. cbv zeta. cbn [pg_limit pg_cursor pg_offset].
  assert (Forall2 (member_lists (rx_fuel (px_ctx self)) op (w_kv w)) [member] [l]) as Hall by (constructor; [done|constructor]).
  rewrite run_bind, (run_merge_members _ _ _ _ _ [l]) by done. cbn [run foldl fmap list_fmap].
  rewrite (left_id_L ∅ (∪)), drop_ge; [unfold paginate_results; by rewrite !take_nil, decide_False by (cbn; lia)|].
  rewrite merge_sort_Permutation, length_map_to_list.
  etrans; [apply size_list_to_map_le|]. rewrite length_take. lia.
Qed.
End listings.

(** ** Stores *)

Section stores.
Context `{Blake3} `{Serde ArtifactRecord} `{Serde TreeEntry} `{Serde BlobRecord} `{Serde RepoConfig}
  `{Unicode} `{Base64} `{Upstream} `{UuidGen}.
Implicit Types (w : world kvmap).

(** A proxy reads the blobs of its members from its own store.  When a
    hosted member keeps its blobs in another store than the proxy, a path that
    the member serves is found by a HEAD of the proxy, but a GET of the proxy
    looks for the blob in the wrong store and answers that the path does not
    exist. *)
Theorem proxy_get_other_store (ctx : RepoContext) (config c : RepoConfig) (member : string) (wm : option string)
    (path : string) (r : ArtifactRecord) (data : bytes) w :
  rc_kind config = Proxy [member] wm → repo_of (w_kv w) member = Ok (Some c) → rc_kind c = Hosted →
  old_of (w_kv w) (artifact_key (rc_name c) path) = inr (Some r) →
  w_blobs w !! (rc_store c, default "" (ar_blob_id r)) = Some data →
  w_blobs w !! (rx_blobs ctx, default "" (ar_blob_id r)) = None →
  let own := mkRepoContext (rc_store c) (rx_full ctx) (rx_claim ctx) (rx_fuel ctx) in
  (∃ w', run (raw_get (make_raw_repo own c) path) w = (Some (Ok (Some (mkArtifactContent (Reader data) r))), w')) ∧
  (∃ w', run (raw_head (make_raw_repo ctx config) path) w = (Some (Ok (Some r)), w')) ∧
  (∃ w', run (raw_get (make_raw_repo ctx config) path) w = (Some (Ok None), w')).
Proof.
  intros Hk Hm Hc Hold Hdata Hnone own.
  assert (∀ (x : RepoContext) (o : result (option ArtifactContent)),
    match w_blobs w !! (rx_blobs x, default "" (ar_blob_id r)) with
    | Some d => o = Ok (Some (mkArtifactContent (Reader d) r))
    | None => o = Err (DataIntegrity ("blob missing for hash " +:+ default "" (ar_blob_id r)))
    end → ∃ w', run (hosted_get (rx_full x) (mkHostedRepo (rc_name c) (rx_blobs x) (rc_store c)
      (display_format (repo_format c))) path) w = (Some o, w')) as Hget.
  { intros x o Ho. unfold hosted_get. rewrite run_bind_ok, run_get_artifact. cbn [hr_name]. rewrite Hold.
    rewrite run_bind. change (run (call ENow) w) with (Some (w_now w), w). cbv beta iota.
    assert (∀ w1, w_blobs w1 = w_blobs w → run (open_artifact_blob (rx_blobs x) r) w1 =
      (Some (match w_blobs w !! (rx_blobs x, default "" (ar_blob_id r)) with
             | Some d => Ok (mkArtifactContent (Reader d) r)
             | None => Err (DataIntegrity ("blob missing for hash " +:+ default "" (ar_blob_id r)))
             end), w1)) as Hopen.
    { intros w1 Hw1. unfold open_artifact_blob. rewrite run_bind_ok. cbn [run blob call handle blob_step]. rewrite Hw1.
      by destruct (w_blobs w !! (rx_blobs x, default "" (ar_blob_id r))). }
    rewrite run_bind. unfold touch.
    destruct (rx_full x); cbn [run call handle]; rewrite run_bind_ok, Hopen by done;
      revert Ho; destruct (w_blobs w !! (rx_blobs x, default "" (ar_blob_id r))); intros ->; by eexists. }
  unfold make_raw_repo, PROXY_FUEL. split_and!.
  - rewrite (leaf_repo_any _ own c) by (intros ms m'; by rewrite Hc). unfold leaf_repo. cbn [make_raw_repo_with_depth].
    rewrite Hc. apply (Hget own). cbn [rx_blobs own]. by rewrite Hdata.
  - cbn [make_raw_repo_with_depth]. rewrite Hk. cbn [proxy_raw raw_head]. unfold proxy_head.
    cbn [px_depth px_members try_members]. rewrite decide_False by done. rewrite run_bind_ok, run_get_repo, Hm, Hc, run_bind.
    cbn [raw_head hosted_raw]. unfold hosted_head. rewrite run_get_artifact. cbn [hr_name]. rewrite Hold. by eexists.
  - cbn [make_raw_repo_with_depth]. rewrite Hk. cbn [proxy_raw raw_get]. unfold proxy_get.
    cbn [px_depth px_members try_members]. rewrite decide_False by done. rewrite run_bind_ok, run_get_repo, Hm, Hc, run_bind.
    cbn [raw_get hosted_raw].
    destruct (Hget ctx (Err (DataIntegrity ("blob missing for hash " +:+ default "" (ar_blob_id r))))) as [w' Hr].
    { by rewrite Hnone. }
    rewrite Hr. by eexists.
Qed.
End stores.

(** ** Witnesses *)

(** "p2" has the members "p1" and itself; "p1" has the hosted "r". *)
Definition toy_ctx : RepoContext := mkRepoContext "s" false (λ _, Leader) 20.
Definition toy_p2 : RepoConfig := toy_repo "p2" (Proxy ["p1"; "p2"] None) false.

Lemma toy_readable : let _ := toy_rc_serde in configs_readable (w_kv toy_repo_world).
Proof.
  intros ? name. unfold repo_of. destruct (w_kv toy_repo_world !! repo_key name) as [ [b v]|] eqn:Hk; [|by eexists].
  assert (map_Forall (λ (k : string * string * string) (x : bytes * Z),
    k.1.1 = TABLE_REPOS → x.1 ∈ ["0"; "1"; "2"]) (w_kv toy_repo_world)) as Hall by by_decide.
  pose proof (Hall _ _ Hk eq_refl) as Hb. cbn in Hb.
  repeat (apply elem_of_cons in Hb as [->|Hb]; [eexists; reflexivity|]). by apply elem_of_nil in Hb.
Qed.

Lemma proxy_first_hit_witness :
  let _ := toy_blake3 in let _ := toy_ar_serde in let _ := toy_te_serde in let _ := toy_br_serde in
  let _ := toy_rc_serde in let _ := toy_unicode in let _ := toy_base64 in let _ := toy_upstream in let _ := toy_uuid in
  let w := set_blobs {[("s", "blob") := "data"]} toy_repo_world in
  let content := mkArtifactContent (Reader "data") (toy_artifact "b" 4) in
  (∃ w', run (raw_head (make_raw_repo toy_ctx toy_p2) "b") w = (Some (Ok (Some (toy_artifact "b" 4))), w') ∧
    first_hit (λ c, raw_head (leaf_repo toy_ctx c) "b") (leaves PROXY_FUEL (w_kv w) toy_p2 0) w (Some (toy_artifact "b" 4)) w') ∧
  ∃ w', run (raw_get (make_raw_repo toy_ctx toy_p2) "b") w = (Some (Ok (Some content)), w') ∧
    first_hit (λ c, raw_get (leaf_repo toy_ctx c) "b") (leaves PROXY_FUEL (w_kv w) toy_p2 0) w (Some content) w'.
Proof.
  intros ? ? ? ? ? ? ? ? ? w content.
  destruct (@proxy_first_hit toy_blake3 toy_ar_serde toy_te_serde toy_rc_serde toy_unicode toy_base64
    toy_upstream toy_uuid toy_ctx toy_p2 ["p1"; "p2"] None "b" w) as [ (o & w' & Hr & _ & Hhit) Hget];
    [reflexivity|exact toy_readable|].
  destruct Hget as (o2 & w2 & Hr2 & _ & Hhit2); [discriminate|]. split.
  - pose proof (f_equal fst Hr) as Ho. vm_compute in Ho. injection Ho as Ho. subst o.
    exists w'. split; [exact Hr|exact Hhit].
  - pose proof (f_equal fst Hr2) as Ho. vm_compute in Ho. injection Ho as Ho. subst o2.
    exists w2. split; [exact Hr2|exact Hhit2].
Defined.

Lemma proxy_listing_merges_witness :
  let _ := toy_blake3 in let _ := toy_ar_serde in let _ := toy_unicode in let _ := toy_base64 in let _ := toy_uuid in
  run (paginated_merge (mkProxyRepo "p" ["r"; "r"] toy_ctx 0) (mkPagination None 0 2) (MList "a/")) toy_world =
    (Some (Ok (mkPaginatedResult [("a/x", toy_artifact "a/x" 1); ("a/y", toy_artifact "a/y" 2)] (Some "a/y"))), toy_world).
Proof.
  intros ? ? ? ? ?.
  pose (l := [("a/x", toy_artifact "a/x" 1); ("a/y", toy_artifact "a/y" 2); ("a/z", toy_artifact "a/z" 3)]).
  assert (@member_lists toy_blake3 toy_ar_serde toy_unicode 20 (MList "a/") (w_kv toy_world) "r" l) as Hl.
  { split; [exact toy_placed|]. split; [by_decide|]. vm_compute. reflexivity. }
  etransitivity.
  - apply (@proxy_listing_merges toy_blake3 toy_ar_serde toy_unicode toy_base64 toy_uuid
      (mkProxyRepo "p" ["r"; "r"] toy_ctx 0) (mkPagination None 0 2) (MList "a/") [l; l] toy_world).
    + discriminate.
    + reflexivity.
    + repeat (constructor; [exact Hl|]). constructor.
  - apply (f_equal (λ x, (Some (Ok x), toy_world))). vm_compute. reflexivity.
Defined.

(** The store of the proxy "q" is "t", that of its member "r" is "s". *)
Definition toy_q : RepoConfig := mkRepoConfig 5 "q" (Proxy ["r"] None) (CRaw None) "t" 0%Z None None false.

Lemma proxy_get_other_store_witness :
  let _ := toy_blake3 in let _ := toy_ar_serde in let _ := toy_te_serde in let _ := toy_rc_serde in
  let _ := toy_unicode in let _ := toy_base64 in let _ := toy_upstream in let _ := toy_uuid in
  let w := set_blobs {[("s", "blob") := "data"]} toy_repo_world in
  let ctx := mkRepoContext "t" false (λ _, Leader) 20 in
  (∃ w', run (raw_head (make_raw_repo ctx toy_q) "b") w = (Some (Ok (Some (toy_artifact "b" 4))), w')) ∧
  (∃ w', run (raw_get (make_raw_repo ctx toy_q) "b") w = (Some (Ok None), w')).
Proof.
  intros ? ? ? ? ? ? ? ? w ctx.
  destruct (@proxy_get_other_store toy_blake3 toy_ar_serde toy_te_serde toy_rc_serde toy_unicode toy_base64
    toy_upstream toy_uuid ctx toy_q (toy_repo "r" Hosted false) "r" None "b" (toy_artifact "b" 4) "data" w)
    as (_ & Hhead & Hget); [reflexivity|vm_compute; reflexivity|reflexivity|vm_compute; reflexivity|reflexivity|reflexivity|].
  split; [exact Hhead|exact Hget].
Defined.
