(* ===== verification/Accounts.v ===== *)
(** * Users, roles, metadata and upload sessions

    core/src/service/user.rs, core/src/service/meta.rs and
    core/src/service/upload.rs: records of small tables, and the clean-up of
    abandoned uploads. *)

From S2P Require Import Prelude Bytes Errors Keys Records Kv Prog Scan.

(** ** Users and roles *)

Section users.
Context `{Serde UserRecord} `{Serde RoleRecord}.

(** core/src/service/user.rs:18-21 *)
Definition put_user (record : UserRecord) : prog (result unit) :=
  let '(table, pk, sk) := user_key (ur_username record) in
  typed_put table pk sk record.

(** core/src/service/user.rs:23-26 *)
Definition get_user (username : string) : prog (result (option UserRecord)) :=
  let '(table, pk, sk) := user_key username in
  typed_get table pk sk.

(** core/src/service/user.rs:28-37 *)
Definition list_users : prog (result (list UserRecord)) :=
  typed_list TABLE_USERS SINGLE_PK "" ADMIN_ENTITY_CAP.

(** core/src/service/user.rs:39-42 *)
Definition delete_user (username : string) : prog (result bool) :=
  let '(table, pk, sk) := user_key username in
  kv (Delete table pk sk).

(** core/src/service/user.rs:46-49 *)
Definition put_role (record : RoleRecord) : prog (result unit) :=
  let '(table, pk, sk) := role_key (rr_name record) in
  typed_put table pk sk record.

(** core/src/service/user.rs:51-54 *)
Definition get_role (name : string) : prog (result (option RoleRecord)) :=
  let '(table, pk, sk) := role_key name in
  typed_get table pk sk.

(** core/src/service/user.rs:56-65 *)
Definition list_roles : prog (result (list RoleRecord)) :=
  typed_list TABLE_ROLES SINGLE_PK "" ADMIN_ENTITY_CAP.

(** core/src/service/user.rs:67-70 *)
Definition delete_role (name : string) : prog (result bool) :=
  let '(table, pk, sk) := role_key name in
  kv (Delete table pk sk).

(** The loop over the role names; a role that is missing or cannot be read is
    left out. *)
(** core/src/service/user.rs:80-85 *)
Fixpoint collect_roles (names : list string) (roles : list RoleRecord) : prog (list RoleRecord) :=
  match names with
  | [] => Ret roles
  | role_name :: names =>
      let* r := get_role role_name in
      match r with
      | Ok (Some role) => collect_roles names (roles ++ [role])
      | _ => collect_roles names roles
      end
  end.

(** core/src/service/user.rs:72-87 *)
Definition get_user_with_roles (username : string) :
    prog (result (option (UserRecord * list RoleRecord))) :=
  let*? o := get_user username in
  match o with
  | None => Ret (Ok None)
  | Some user =>
      let* roles := collect_roles (ur_roles user) [] in
      Ret (Ok (Some (user, roles)))
  end.
End users.

(** ** Metadata *)

(** core/src/service/meta.rs:11-14 *)
Definition get_meta (key : string) : prog (result (option bytes)) :=
  let '(table, pk, sk) := meta_key key in
  kv (Get table pk sk).

(** core/src/service/meta.rs:16-19 *)
Definition put_meta (key : string) (value : bytes) : prog (result unit) :=
  let '(table, pk, sk) := meta_key key in
  kv (Put table pk sk value).

(** core/src/service/meta.rs:21-25 *)
Definition delete_meta (key : string) : prog (result unit) :=
  let '(table, pk, sk) := meta_key key in
  let*? _ := kv (Delete table pk sk) in
  Ret (Ok tt).

Section gc_time.
Context `{Serde DateTime}.

(** core/src/service/meta.rs:29-36 *)
Definition get_gc_last_started_at : prog (result (option DateTime)) :=
  let*? o := get_meta "gc_last_started_at" in
  match o with
  | Some data =>
      Ret (Ok (match from_slice data with inr t => Some t | inl _ => None end))
  | None => Ret (Ok None)
  end.

(** core/src/service/meta.rs:39-47 *)
Definition set_gc_last_started_at (time : DateTime) : prog (result unit) :=
  match to_vec time with
  | inl e => Ret (Err (Internal ("Failed to serialize gc_last_started_at: " +:+ e)))
  | inr data => put_meta "gc_last_started_at" data
  end.
End gc_time.

(** ** Upload sessions *)

(** The [chrono] crate: [Duration::from_std], [None] out of range, and
    [Duration::seconds] and [Duration::days], [None] where they panic; in
    nanoseconds. *)
Class Chrono := {
  from_std : Z → option Z;
  duration_seconds : Z → option Z;
  duration_days : Z → option Z;
}.

Section uploads.
Context `{Serde UploadSessionRecord} `{Chrono}.

(** core/src/service/upload.rs:16-22 *)
Definition put_upload_session (record : UploadSessionRecord) : prog (result unit) :=
  let '(table, pk, sk) := upload_session_key (us_uuid record) in
  typed_put table pk sk record.

(** core/src/service/upload.rs:24-30 *)
Definition get_upload_session (uuid : string) : prog (result (option UploadSessionRecord)) :=
  let '(table, pk, sk) := upload_session_key uuid in
  typed_get table pk sk.

(** core/src/service/upload.rs:32-38 *)
Definition get_upload_session_versioned (uuid : string) :
    prog (result (option (UploadSessionRecord * Z))) :=
  let '(table, pk, sk) := upload_session_key uuid in
  typed_get_versioned table pk sk.

(** core/src/service/upload.rs:40-49 *)
Definition put_upload_session_if_version (record : UploadSessionRecord) (expected_version : Z) :
    prog (result bool) :=
  let '(table, pk, sk) := upload_session_key (us_uuid record) in
  let! bytes := serde_result (to_vec record) in
  kv (PutIfVersion table pk sk bytes (Some expected_version)).

(** core/src/service/upload.rs:51-55 *)
Definition delete_upload_session (uuid : string) : prog (result unit) :=
  let '(table, pk, sk) := upload_session_key uuid in
  let*? _ := kv (Delete table pk sk) in
  Ret (Ok tt).

(** core/src/service/upload.rs:57-66 *)
Definition list_upload_sessions : prog (result (list UploadSessionRecord)) :=
  typed_list TABLE_UPLOAD_SESSIONS SINGLE_PK "" ADMIN_ENTITY_CAP.

(** Deletions of blobs, best effort. *)
Fixpoint drop_blobs (store : string) (ids : list string) : prog unit :=
  match ids with
  | [] => Ret tt
  | id :: ids => let* _ := blob store (BDelete id) in drop_blobs store ids
  end.

(** core/src/service/upload.rs:83-90 *)
Fixpoint drop_session_blobs (expired : list UploadSessionRecord) : prog unit :=
  match expired with
  | [] => Ret tt
  | session :: expired =>
      let* known := call (EStoreGet (us_store session)) in
      let* _ := if (known : bool) then
                  let* _ := drop_blobs (us_store session) (us_chunk_blob_ids session) in
                  let* _ := blob (us_store session) (BDelete (us_blob_id session)) in
                  Ret tt
                else Ret tt in
      drop_session_blobs expired
  end.

(** core/src/service/upload.rs:70-100 *)
Definition cleanup_upload_sessions (max_age : Z) : prog (result nat) :=
  let*? sessions := list_upload_sessions in
  let* now := call ENow in
  let cutoff := (now - default 0 (from_std max_age))%Z in
  let expired := filter (λ s, (us_updated_at s < cutoff)%Z) sessions in
  let count := length expired in
  let* _ := drop_session_blobs expired in
  let del_refs := (λ s, let '(_, pk, sk) := upload_session_key (us_uuid s) in (pk, sk)) <$> expired in
  let* res := if decide (del_refs = []) then Ret (Ok [])
              else kv (DeleteBatch TABLE_UPLOAD_SESSIONS del_refs) in
  let! _ := res in
  Ret (Ok count).
End uploads.

(** ** Properties *)

Section properties.
Context `{Serde UploadSessionRecord} `{Chrono} `{UuidGen}.
Implicit Types (w : world kvmap).

Definition stored_sessions (m : kvmap) : result (list UploadSessionRecord) :=
  decode_all (items (scan_of (filter (λ x, starts_with x.1 "" = true)
    (part m TABLE_UPLOAD_SESSIONS SINGLE_PK)) ADMIN_ENTITY_CAP)).

(** The blobs of a session: its chunks and the assembled blob. *)
Definition session_blobs (s : UploadSessionRecord) : list (string * string) :=
  ((λ id, (us_store s, id)) <$> us_chunk_blob_ids s) ++ [(us_store s, us_blob_id s)].

Definition dropped_blobs (stores : gset string) (l : list UploadSessionRecord) : list (string * string) :=
  concat (session_blobs <$> filter (λ s, us_store s ∈ stores) l).

Definition delete_blobs (l : list (string * string)) (b : gmap (string * string) bytes) :
    gmap (string * string) bytes :=
  foldl (λ b k, delete k b) b l.

Lemma delete_blobs_lookup (l : list (string * string)) (b : gmap (string * string) bytes) k :
  delete_blobs l b !! k = if decide (k ∈ l) then None else b !! k.
Proof.
  unfold delete_blobs. revert b. induction l as [|x l IH]; intros b; simpl; [done|].
  rewrite IH. destruct (decide (k ∈ l)) as [Hk|Hk].
  - rewrite decide_True; [done|]. by right.
  - destruct (decide (x = k)) as [->|Hne].
    + rewrite lookup_delete_eq, decide_True; [done|]. left.
    + rewrite lookup_delete_ne by done. rewrite decide_False; [done|].
      intros [?|?]%elem_of_cons; congruence.
Qed.

Lemma delete_blobs_app (l1 l2 : list (string * string)) (b : gmap (string * string) bytes) :
  delete_blobs (l1 ++ l2) b = delete_blobs l2 (delete_blobs l1 b).
Proof. apply foldl_app. Qed.

Lemma run_drop_blobs store ids w :
  run (drop_blobs store ids) w =
    (Some tt, set_blobs (delete_blobs ((λ id, (store, id)) <$> ids) (w_blobs w)) w).
Proof.
  revert w. induction ids as [|id ids IH]; intros w; [by destruct w|]. cbn [drop_blobs].
  rewrite run_bind. cbn [blob call run handle blob_step]. by rewrite IH.
Qed.

Lemma run_drop_session_blobs l w :
  run (drop_session_blobs l) w =
    (Some tt, set_blobs (delete_blobs (dropped_blobs (w_stores w) l) (w_blobs w)) w).
Proof.
  revert w. induction l as [|s l IH]; intros w; [by destruct w|]. cbn [drop_session_blobs].
  rewrite run_bind. cbn [call run handle]. rewrite run_bind.
  unfold dropped_blobs. rewrite filter_cons.
  destruct (decide (us_store s ∈ w_stores w)) as [Hin|Hout].
  - rewrite bool_decide_true by done. rewrite run_bind, run_drop_blobs.
    rewrite run_bind. cbn [blob call run handle blob_step].
    rewrite IH. cbn [set_blobs w_stores w_blobs]. cbn [fmap list_fmap concat].
    unfold session_blobs at 1. by rewrite !delete_blobs_app.
  - rewrite bool_decide_false by done. cbn [run]. by rewrite IH.
Qed.

(** The clean-up of abandoned uploads is exact.  Among the sessions that the
    listing shows, exactly those last updated before the cut-off are removed,
    together with the blobs of their chunks and their assembled blob when
    their store is registered; their number is returned, and no other
    session, record or blob is touched. *)
Theorem cleanup_upload_sessions_exact max_age w sessions :
  stored_sessions (w_kv w) = Ok sessions →
  let expired := filter (λ s, (us_updated_at s < w_now w - default 0 (from_std max_age))%Z) sessions in
  ∃ w', run (cleanup_upload_sessions max_age) w = (Some (Ok (length expired)), w') ∧
    (∀ k, w_kv w' !! k =
       if decide (k ∈ (λ s, upload_session_key (us_uuid s)) <$> expired) then None else w_kv w !! k) ∧
    (∀ k, w_blobs w' !! k =
       if decide (k ∈ dropped_blobs (w_stores w) expired) then None else w_blobs w !! k).
Proof.
  intros Hs expired. unfold cleanup_upload_sessions, list_upload_sessions, typed_list.
  rewrite !run_bind_ok, run_kv_spec. cbn [spec_store fst snd run]. rewrite set_kv_id.
  unfold stored_sessions in Hs. rewrite Hs. rewrite run_bind. cbn [call run handle].
  fold expired. rewrite run_bind, run_drop_session_blobs.
  set (w1 := set_blobs _ w).
  assert (∀ k, w_blobs w1 !! k =
    if decide (k ∈ dropped_blobs (w_stores w) expired) then None else w_blobs w !! k) as Hb
    by (intros k; apply delete_blobs_lookup).
  rewrite run_bind. case_decide as Hnil.
  - exists w1. split_and!; [done| |done]. intros k. apply fmap_nil_inv in Hnil.
    rewrite Hnil. rewrite decide_False; [done|]. intros Hk. by apply elem_of_nil in Hk.
  - rewrite (run_kv_spec (DeleteBatch _ _)). cbn [spec_store]. rewrite spec_delete_batch_eq.
    cbn [fst snd try_ run]. eexists. split; [done|]. cbn [w_kv w_blobs set_kv]. split; [|exact Hb].
    intros [ [t pk] sk]. rewrite delete_all_lookup. unfold w1. cbn [w_kv set_blobs].
    apply decide_ext. rewrite !list_elem_of_fmap. unfold upload_session_key. split.
    + intros [-> (s & [= -> ->] & Hin)]. by exists s.
    + intros (s & [= -> -> ->] & Hin). split; [done|]. by exists s.
Qed.
End properties.

(** ** Witnesses *)

Definition toy_session (uuid : string) (t : DateTime) : UploadSessionRecord :=
  mkUploadSessionRecord uuid "r" None "b" "s" 3 ["c1"; "c2"] t t.

Definition toy_chrono : Chrono := {|
  from_std := Some; duration_seconds := λ s, Some (s * 10 ^ 9)%Z;
  duration_days := λ d, Some (d * 86400 * 10 ^ 9)%Z |}.

Definition toy_us_serde : Serde UploadSessionRecord :=
  table_serde [toy_session "u1" 10%Z; toy_session "u2" 100%Z].

Definition toy_upload_world : world kvmap :=
  mkWorld (list_to_map [(upload_session_key "u1", ("0", 1%Z)); (upload_session_key "u2", ("1", 1%Z))])
    {[("s", "c1") := "x"; ("t", "c1") := "y"]} {["s"]} 120%Z 0 [] false.

Lemma cleanup_upload_sessions_exact_witness :
  let _ := toy_us_serde in let _ := toy_chrono in let _ := toy_uuid in
  ∃ w', run (cleanup_upload_sessions 50) toy_upload_world = (Some (Ok 1), w') ∧
    w_kv w' !! upload_session_key "u1" = None ∧ w_kv w' !! upload_session_key "u2" = Some ("1", 1%Z) ∧
    w_blobs w' !! ("s", "c1") = None ∧ w_blobs w' !! ("t", "c1") = Some "y".
Proof.
  intros ? ? ?.
  destruct (@cleanup_upload_sessions_exact toy_us_serde toy_chrono toy_uuid 50%Z toy_upload_world
    [toy_session "u1" 10%Z; toy_session "u2" 100%Z]) as (w' & Hr & Hkv & Hb); [vm_compute; reflexivity|].
  exists w'. split; [exact Hr|].
  split; [refine (eq_trans (Hkv _) _); vm_compute; reflexivity|].
  split; [refine (eq_trans (Hkv _) _); vm_compute; reflexivity|].
  split; refine (eq_trans (Hb _) _); vm_compute; reflexivity.
Defined.
