(* ===== verification/Tasks.v ===== *)
(** * Task records (core/src/service/task.rs)

    The summary of a task with its conditional update, and its append-only
    event log. *)

From S2P Require Import Prelude Bytes Errors Keys Records Kv Prog Scan Pagination Artifact Repo.

(** [record.schema_version = CURRENT_RECORD_VERSION]. *)
Definition tr_current (r : TaskRecord) : TaskRecord :=
  mkTaskRecord CURRENT_RECORD_VERSION (tr_id r) (tr_kind r) (tr_status r) (tr_created_at r)
    (tr_started_at r) (tr_completed_at r) (tr_updated_at r) (tr_progress r) (tr_result r)
    (tr_error r) (tr_summary r) (tr_owner_instance_id r) (tr_deleting r) (tr_event_seq r).

Section tasks.
Context `{Serde TaskRecord} `{Serde TaskEventRecord}.

(** core/src/service/task.rs:24-29 *)
Definition put_task_summary (record : TaskRecord) : prog (result unit) :=
  let record := tr_current record in
  let '(table, pk, sk) := task_key (tr_id record) in
  typed_put table pk sk record.

(** core/src/service/task.rs:32-38 *)
Definition get_task_summary (id : string) : prog (result (option TaskRecord)) :=
  let '(table, pk, sk) := task_key id in
  let*? o := kv (Get table pk sk) in
  match o with
  | Some bytes => let! r := serde_result (from_slice bytes) in Ret (Ok (Some r))
  | None => Ret (Ok None)
  end.

(** core/src/service/task.rs:42-51 *)
Definition get_task_summary_versioned (id : string) : prog (result (option (TaskRecord * Z))) :=
  let '(table, pk, sk) := task_key id in
  let*? o := kv (GetVersioned table pk sk) in
  match o with
  | Some (bytes, version) =>
      let! r := serde_result (from_slice bytes) in Ret (Ok (Some (r, version)))
  | None => Ret (Ok None)
  end.

(** core/src/service/task.rs:61-72 *)
Definition put_task_summary_if_unchanged (record : TaskRecord) (expected_version : Z) :
    prog (result bool) :=
  let record := tr_current record in
  let '(table, pk, sk) := task_key (tr_id record) in
  let! bytes := serde_result (to_vec_named record) in
  kv (PutIfVersion table pk sk bytes (Some expected_version)).

(** core/src/service/task.rs:75-84 *)
Definition list_tasks : prog (result (list TaskRecord)) :=
  typed_list TABLE_TASKS SINGLE_PK "" ADMIN_ENTITY_CAP.

(** core/src/service/task.rs:89-92 *)
Definition delete_task_summary (id : string) : prog (result bool) :=
  let '(table, pk, sk) := task_key id in
  kv (Delete table pk sk).

(** core/src/service/task.rs:100-115 *)
Definition append_task_event (task_id : string) (seq : N) (message : string) : prog (result bool) :=
  let* now := call ENow in
  let record := mkTaskEventRecord CURRENT_RECORD_VERSION task_id (Z.of_N seq) now message in
  let '(table, pk, sk) := task_event_key task_id seq in
  typed_put_if_absent table pk sk record.

(** core/src/service/task.rs:120-142 *)
Definition list_task_events_since (task_id : string) (from_seq : N) (limit : nat) :
    prog (result (list TaskEventRecord)) :=
  let start_sk := pad_zero 20 (show_uint from_seq) in
  let pk := task_event_pk task_id in
  let*? scan := kv (ScanRange TABLE_TASK_EVENTS pk start_sk None limit) in
  Ret (decode_all (items scan)).

(** core/src/service/task.rs:146-171 *)
Fixpoint drain_task_events (fuel : nat) (task_id : string) : prog (result unit) :=
  match fuel with
  | O => Spin
  | S fuel =>
      let pk := task_event_pk task_id in
      let*? result := kv (ScanPrefix TABLE_TASK_EVENTS pk "" SCAN_BATCH_SIZE) in
      if decide (items result = []) then Ret (Ok tt)
      else
        let del_keys := (λ '(sk, _), (pk, sk)) <$> items result in
        let*? _ := kv (DeleteBatch TABLE_TASK_EVENTS del_keys) in
        if done_ result then Ret (Ok tt)
        else drain_task_events fuel task_id
  end.
End tasks.

(** ** The event log *)

Section log.
Context `{Serde TaskRecord} `{Serde TaskEventRecord} `{UuidGen}.
Implicit Types (m : kvmap) (w : world kvmap).

Definition event_sk (seq : N) : string := pad_zero 20 (show_uint seq).

(** The log of a task: its events by sequence number, ascending. *)
Definition event_log m (task_id : string) (log : list (N * (bytes * Z))) : Prop :=
  StronglySorted (λ x y, x.1 < y.1)%N log ∧ Forall (λ x, x.1 < 2 ^ 64)%N log ∧
  part m TABLE_TASK_EVENTS task_id = (λ x, (event_sk x.1, x.2)) <$> log.

Lemma event_sk_lt a b : (a < 2 ^ 64)%N → (b < 2 ^ 64)%N →
  str_lt (event_sk a) (event_sk b) ↔ (a < b)%N.
Proof.
  assert (∀ n, n < 2 ^ 64 → n < 10 ^ N.of_nat 20)%N as Hlt.
  { intros n Hn. eapply N.lt_trans; [exact Hn|reflexivity]. }
  intros Ha%Hlt Hb%Hlt. unfold event_sk.
  rewrite (pad_zero_fixed 20 a), (pad_zero_fixed 20 b);
    [|apply Nat.lt_0_succ|exact Hb|apply Nat.lt_0_succ|exact Ha].
  by apply fixed_dec_lt.
Qed.

Lemma event_sk_le a b : (a < 2 ^ 64)%N → (b < 2 ^ 64)%N →
  str_le (event_sk a) (event_sk b) ↔ (a ≤ b)%N.
Proof.
  intros Ha Hb. rewrite str_le_nlt, event_sk_lt by done. lia.
Qed.

(** The events the listing decodes. *)
Definition log_values (log : list (N * (bytes * Z))) : list (string * bytes) :=
  (λ x, (event_sk x.1, x.2.1)) <$> log.

Lemma run_list_events task_id from limit log w :
  event_log (w_kv w) task_id log → (from < 2 ^ 64)%N →
  run (list_task_events_since task_id from limit) w =
    (Some (decode_all (log_values (take limit (filter (λ x, from ≤ x.1)%N log)))), w).
Proof.
  intros (Hs & Hb & Hp) Hfrom. unfold list_task_events_since.
  rewrite run_bind_ok, run_kv_spec. cbn [spec_store fst snd run]. rewrite set_kv_id.
  change (task_event_pk task_id) with task_id. rewrite Hp. do 3 f_equal.
  unfold scan_of, log_values. cbn [items]. rewrite filter_fmap_comm, <-fmap_take, <-list_fmap_compose.
  rewrite (filter_ext_in _ (λ x, from ≤ x.1)%N); [done|].
  intros x Hx. rewrite Forall_forall in Hb. specialize (Hb x Hx). simpl in *. unfold in_range.
  fold (event_sk from). rewrite event_sk_le by done. tauto.
Qed.

(** The log is determined by the keys of the partition. *)
Lemma event_log_intro m task_id log :
  StronglySorted (λ x y, x.1 < y.1)%N log → Forall (λ x, x.1 < 2 ^ 64)%N log →
  (∀ sk v, m !! (TABLE_TASK_EVENTS, task_id, sk) = Some v ↔ ∃ seq, (seq, v) ∈ log ∧ sk = event_sk seq) →
  event_log m task_id log.
Proof.
  intros Hs Hb Hm. split_and!; [done|done|]. symmetry. apply part_unique.
  - clear Hm. induction Hs as [|x log Hs IH Hx]; [constructor|]. apply Forall_cons in Hb as [Hbx Hb].
    constructor; [by apply IH|]. apply Forall_fmap. rewrite Forall_forall in Hx, Hb |- *.
    intros y Hy. apply event_sk_lt; [done|by apply Hb|by apply Hx].
  - intros sk v. rewrite Hm, list_elem_of_fmap. split.
    + intros ([seq v'] & [= -> ->] & Hin). by exists seq.
    + intros (seq & Hin & ->). by exists (seq, v).
Qed.

(** ** Draining *)

Lemma run_drain_events fuel task_id w :
  length (part (w_kv w) TABLE_TASK_EVENTS task_id) < fuel →
  ∃ m', run (drain_task_events fuel task_id) w = (Some (Ok tt), set_kv m' w) ∧
    drained (λ x, x = (TABLE_TASK_EVENTS, task_id)) (w_kv w) m'.
Proof.
  revert w. induction fuel as [|fuel IH]; intros w Hf; [lia|]. cbn [drain_task_events].
  change (task_event_pk task_id) with task_id.
  rewrite run_bind_ok, run_kv_spec. cbn [spec_store fst snd]. rewrite set_kv_id.
  rewrite filter_all by (apply Forall_forall; intros; apply starts_with_nil).
  set (l := part (w_kv w) TABLE_TASK_EVENTS task_id) in *.
  case_decide as Hnil; cbn [items scan_of] in Hnil.
  - exists (w_kv w). rewrite set_kv_id. split; [done|]. intros t' pk' sk. split; [|done].
    intros [= -> ->]. apply part_nil. by apply fmap_nil_inv, take_batch_nil in Hnil.
  - cbn [items scan_of done_].
    replace ((λ '(sk, _), (task_id, sk)) <$> (prod_map id fst <$> take SCAN_BATCH_SIZE l))
      with ((λ x, (task_id, x.1)) <$> take SCAN_BATCH_SIZE l)
      by (rewrite <-list_fmap_compose; apply list_fmap_ext; by intros ? [? [? ?] ] _).
    rewrite run_bind_ok, (run_kv_spec (DeleteBatch _ _)). cbn [spec_store].
    rewrite spec_delete_batch_eq. cbn [fst snd].
    pose proof (part_delete_take (w_kv w) TABLE_TASK_EVENTS task_id SCAN_BATCH_SIZE) as Hpart.
    fold l in Hpart. set (m1 := foldl _ _ _) in *.
    assert (∀ t pk sk, (t, pk) ≠ (TABLE_TASK_EVENTS, task_id) → m1 !! (t, pk, sk) = w_kv w !! (t, pk, sk)) as Hother.
    { intros t pk sk Hne. unfold m1. rewrite delete_all_lookup, decide_False; [done|].
      intros [-> (x & [= -> _] & _)%list_elem_of_fmap]. by destruct Hne. }
    case_bool_decide as Hdone.
    + exists m1. split; [done|]. intros t pk sk. split; [|by apply Hother].
      intros [= -> ->]. rewrite drop_ge in Hpart by done. by apply part_nil.
    + destruct (IH (set_kv m1 w)) as (m' & Hr & Hd).
      { cbn [w_kv set_kv]. rewrite Hpart, length_drop. unfold SCAN_BATCH_SIZE in *. lia. }
      exists m'. split; [done|]. intros t pk sk. destruct (Hd t pk sk) as [Hin Hout].
      split; [done|]. intros Hne. rewrite Hout by done. by apply Hother.
Qed.
End log.

(** ** Properties *)

Section properties.
Context `{Serde TaskRecord} `{Serde TaskEventRecord} `{UuidGen}.
Implicit Types (m : kvmap) (w : world kvmap).

(** Tailing the event log loses nothing.  For every sequence number, the
    listing returns the first events at or after it, in increasing numeric
    order of their sequence numbers, up to the limit; so a reader that asks
    again from the last number it saw plus one gets the rest. *)
Theorem list_task_events_since_window task_id from limit log w :
  event_log (w_kv w) task_id log → (from < 2 ^ 64)%N →
  run (list_task_events_since task_id from limit) w =
    (Some (decode_all (log_values (take limit (filter (λ x, from ≤ x.1)%N log)))), w) ∧
  ∀ x, last (take limit (filter (λ x, from ≤ x.1)%N log)) = Some x → (x.1 + 1 < 2 ^ 64)%N →
    ∀ limit', run (list_task_events_since task_id (x.1 + 1) limit') w =
      (Some (decode_all (log_values (take limit' (drop limit (filter (λ x, from ≤ x.1)%N log))))), w).
Proof.
  intros Hlog Hfrom. split; [by apply run_list_events|]. intros x Hx Hb limit'.
  rewrite (run_list_events _ _ _ log) by done. do 5 f_equal. destruct Hlog as (Hs & _ & _).
  set (l := filter (λ x, from ≤ x.1)%N log) in *.
  assert (StronglySorted (λ x y, x.1 < y.1)%N l) as Hsl by by apply StronglySorted_filter.
  assert (x ∈ l) as Hxl.
  { apply last_Some in Hx as [l' Hl']. rewrite <-(take_drop limit l), Hl'. set_solver. }
  assert (filter (λ y, x.1 + 1 ≤ y.1)%N log = filter (λ y, x.1 + 1 ≤ y.1)%N l) as ->.
  { unfold l. rewrite filter_filter_and. apply filter_ext_in. intros y _.
    apply list_elem_of_filter in Hxl as [? _]. lia. }
  clearbody l. apply last_Some in Hx as [l' Hl'].
  assert (l = (l' ++ [x]) ++ drop limit l) as Hl by by rewrite <-Hl', take_drop.
  revert Hl. generalize (drop limit l). intros l2 Hl. rewrite Hl in Hsl |- *.
  apply StronglySorted_app in Hsl as (Hlt & Hs1 & _). apply StronglySorted_app in Hs1 as (Hlt' & _ & _).
  rewrite filter_app, filter_none, filter_all; [done| |].
  - apply Forall_forall. intros y Hy. specialize (Hlt x y ltac:(set_solver) Hy). simpl in Hlt. lia.
  - apply Forall_forall. intros y [Hy|Hy%list_elem_of_singleton]%elem_of_app; [|subst; lia].
    specialize (Hlt' y x Hy ltac:(set_solver)). simpl in Hlt'. lia.
Qed.

(** Appending an event is idempotent.  A new sequence number is recorded
    once with its message; a retried append of the same number reports
    [false], keeps the first event and changes nothing. *)
Theorem append_task_event_idempotent task_id seq message b w :
  to_vec_named (mkTaskEventRecord CURRENT_RECORD_VERSION task_id (Z.of_N seq) (w_now w) message) = inr b →
  w_kv w !! task_event_key task_id seq = None →
  let w' := set_kv (<[task_event_key task_id seq := (b, 1%Z)]> (w_kv w)) w in
  run (append_task_event task_id seq message) w = (Some (Ok true), w') ∧
  ∀ message' b',
    to_vec_named (mkTaskEventRecord CURRENT_RECORD_VERSION task_id (Z.of_N seq) (w_now w) message') = inr b' →
    run (append_task_event task_id seq message') w' = (Some (Ok false), w').
Proof.
  intros Hb Hm w'. unfold append_task_event. split.
  - rewrite run_bind. cbn [call run handle]. cbn [task_event_key]. unfold typed_put_if_absent. rewrite Hb.
    cbn [serde_result try_]. rewrite (run_kv_spec (PutIfAbsent _ _ _ _)). cbn [spec_store].
    unfold spec_put_if_version. change (TABLE_TASK_EVENTS, task_id, pad_zero 20 (show_uint seq))
      with (task_event_key task_id seq). by rewrite Hm, decide_True.
  - intros message' b' Hb'. rewrite run_bind. cbn [call run handle]. cbn [task_event_key].
    unfold typed_put_if_absent. change (w_now w') with (w_now w). rewrite Hb'.
    cbn [serde_result try_]. rewrite (run_kv_spec (PutIfAbsent _ _ _ _)). cbn [spec_store].
    unfold spec_put_if_version. change (TABLE_TASK_EVENTS, task_id, pad_zero 20 (show_uint seq))
      with (task_event_key task_id seq). cbn [w_kv set_kv w']. rewrite lookup_insert_eq, decide_False by done.
    cbn [fst snd]. done.
Qed.

(** Draining a task's log terminates and removes exactly its events, however
    many batches they take. *)
Theorem drain_task_events_exact fuel task_id w :
  length (part (w_kv w) TABLE_TASK_EVENTS task_id) < fuel →
  ∃ m', run (drain_task_events fuel task_id) w = (Some (Ok tt), set_kv m' w) ∧
    (∀ seq, m' !! task_event_key task_id seq = None) ∧
    ∀ t pk sk, (t, pk) ≠ (TABLE_TASK_EVENTS, task_id) → m' !! (t, pk, sk) = w_kv w !! (t, pk, sk).
Proof.
  intros Hf. destruct (run_drain_events fuel task_id w Hf) as (m' & Hr & Hd).
  exists m'. split_and!; [done| |].
  - intros seq. by apply Hd.
  - intros t pk sk Hne. by apply Hd.
Qed.
End properties.

(** ** Witnesses *)

Definition toy_event (seq : Z) (msg : string) : TaskEventRecord :=
  mkTaskEventRecord CURRENT_RECORD_VERSION "t" seq 7%Z msg.

Definition toy_ev_serde : Serde TaskEventRecord :=
  table_serde [toy_event 2 "two"; toy_event 10 "ten"; toy_event 11 "eleven"].

Definition toy_log : list (N * (bytes * Z)) :=
  [(2%N, ("0", 1%Z)); (10%N, ("1", 1%Z)); (11%N, ("2", 1%Z))].

Definition toy_log_world : world kvmap :=
  mkWorld (list_to_map ((λ x, (task_event_key "t" x.1, x.2)) <$> toy_log)) ∅ ∅ 7%Z 0 [] false.

Definition empty_log_world : world kvmap := mkWorld (∅ : kvmap) ∅ ∅ 7%Z 0 [] false.

Lemma toy_event_log : event_log (w_kv toy_log_world) "t" toy_log.
Proof.
  split_and!; [|by_decide|vm_compute; reflexivity].
  unfold toy_log. repeat constructor.
Qed.

Lemma list_task_events_since_window_witness :
  let _ := toy_ev_serde in let _ := toy_uuid in
  run (list_task_events_since "t" 3 1) toy_log_world = (Some (Ok [toy_event 10 "ten"]), toy_log_world) ∧
  run (list_task_events_since "t" (10 + 1) 5) toy_log_world = (Some (Ok [toy_event 11 "eleven"]), toy_log_world).
Proof.
  intros ? ?.
  destruct (@list_task_events_since_window toy_ev_serde toy_uuid "t" 3 1 toy_log toy_log_world
    toy_event_log ltac:(reflexivity)) as [H1 H2].
  split.
  - refine (eq_trans H1 _). apply (f_equal (λ p, (Some p, toy_log_world))). vm_compute. reflexivity.
  - refine (eq_trans (H2 (10%N, ("1", 1%Z)) _ _ 5) _); [vm_compute; reflexivity|reflexivity|].
    apply (f_equal (λ p, (Some p, toy_log_world))). vm_compute. reflexivity.
Defined.

Lemma append_task_event_idempotent_witness :
  let _ := toy_ev_serde in let _ := toy_uuid in
  run (append_task_event "t" 10 "ten") empty_log_world =
    (Some (Ok true), set_kv (<[task_event_key "t" 10 := ("1", 1%Z)]> (w_kv empty_log_world)) empty_log_world).
Proof.
  intros ? ?.
  refine (proj1 (@append_task_event_idempotent toy_ev_serde toy_uuid "t" 10 "ten" "1" empty_log_world _ _));
    vm_compute; reflexivity.
Defined.

Lemma drain_task_events_exact_witness :
  let _ := toy_uuid in
  ∃ m', run (drain_task_events 4 "t") toy_log_world = (Some (Ok tt), set_kv m' toy_log_world) ∧
    m' !! task_event_key "t" 10 = None.
Proof.
  intros ?. destruct (@drain_task_events_exact toy_uuid 4 "t" toy_log_world) as (m' & Hr & Hd & _);
    [by_decide|].
  exists m'. split; [exact Hr|apply Hd].
Defined.
