(* ===== verification/TaskManager.v ===== *)
(** * The task manager (server/src/server/infra/task.rs)

    Tasks are records of the key-value store with an event log.  The manager of
    an instance keeps, for the tasks that run on it, the cancellation token,
    the progress channel and the next sequence number of the log.  That state
    ([TaskManager]) is passed explicitly; a task id is the text of its UUID.
    The progress bridge, which a running task spawns, is a program of its own
    over the values it observes. *)

From S2P Require Import Prelude Bytes Errors Keys Records Kv Prog Wp Scan Pagination Artifact Repo Tasks.

(** The [uuid] crate: the hyphenated text of the UUID that a text denotes, and
    the text of the nil UUID. *)
Class UuidText := {
  uuid_parse : string → option string;
  uuid_nil : string;
}.

(** server/src/server/infra/task.rs:33-33 *)
Definition MAX_LOG_ENTRIES : nat := 1000.

(** ** Data *)

(** server/src/server/infra/task.rs:61-77 *)
Record TaskInfo : Type := mkTaskInfo {
  ti_id : string;
  ti_kind : TaskKind;
  ti_status : TaskStatus;
  ti_created_at : DateTime;
  ti_started_at : option DateTime;
  ti_completed_at : option DateTime;
  ti_progress : TaskProgress;
  ti_result : option TaskResult;
  ti_error : option string;
  ti_summary : string;
  ti_log : list TaskLogEntry;
}.

#[export] Instance TaskInfo_eq_dec : EqDecision TaskInfo.
Proof. solve_decision. Defined.

Definition set_log (log : list TaskLogEntry) (t : TaskInfo) : TaskInfo :=
  mkTaskInfo (ti_id t) (ti_kind t) (ti_status t) (ti_created_at t) (ti_started_at t)
    (ti_completed_at t) (ti_progress t) (ti_result t) (ti_error t) (ti_summary t) log.

(** server/src/server/infra/task.rs:80-95 *)
Definition from_record `{UuidText} (r : TaskRecord) : TaskInfo :=
  mkTaskInfo (default uuid_nil (uuid_parse (tr_id r))) (tr_kind r) (tr_status r) (tr_created_at r)
    (tr_started_at r) (tr_completed_at r) (tr_progress r) (tr_result r) (tr_error r) (tr_summary r) [].

(** The record of a running task's runtime: [ot_progress] is the value in the
    watch channel. *)
(** server/src/server/infra/task.rs:102-109 *)
Record OwnedTask : Type := mkOwnedTask {
  ot_progress : TaskProgress;
  ot_cancelled : bool;
  ot_event_seq : N;
}.

(** server/src/server/infra/task.rs:115-119 *)
Record TaskManager : Type := mkTaskManager {
  tm_instance_id : string;
  tm_owned : gmap string OwnedTask;
}.

(** server/src/server/infra/task.rs:129-135 *)
Definition new_task_manager (instance_id : string) : TaskManager := mkTaskManager instance_id ∅.

Definition own (f : gmap string OwnedTask → gmap string OwnedTask) (tm : TaskManager) : TaskManager :=
  mkTaskManager (tm_instance_id tm) (f (tm_owned tm)).

(** [cancel.cancel()]. *)
Definition fire (o : OwnedTask) : OwnedTask := mkOwnedTask (ot_progress o) true (ot_event_seq o).

(** What the task itself sends into its progress channel. *)
Definition report_progress (id : string) (f : TaskProgress → TaskProgress) (tm : TaskManager) : TaskManager :=
  own (alter (λ o, mkOwnedTask (f (ot_progress o)) (ot_cancelled o) (ot_event_seq o)) id) tm.

(** Assignments to the fields of a record. *)
Definition tr_start (now now' : DateTime) (r : TaskRecord) : TaskRecord :=
  mkTaskRecord (tr_schema_version r) (tr_id r) (tr_kind r) Running (tr_created_at r)
    (Some now) (tr_completed_at r) now' (tr_progress r) (tr_result r) (tr_error r)
    (tr_summary r) (tr_owner_instance_id r) (tr_deleting r) (tr_event_seq r).

Definition tr_finish (status : TaskStatus) (now now' : DateTime) (result : option TaskResult)
    (error : option string) (r : TaskRecord) : TaskRecord :=
  mkTaskRecord (tr_schema_version r) (tr_id r) (tr_kind r) status (tr_created_at r)
    (tr_started_at r) (Some now) now' (tr_progress r) result error
    (tr_summary r) (tr_owner_instance_id r) (tr_deleting r) (tr_event_seq r).

Definition tr_observe (progress : TaskProgress) (event_seq : N) (r : TaskRecord) : TaskRecord :=
  mkTaskRecord (tr_schema_version r) (tr_id r) (tr_kind r) (tr_status r) (tr_created_at r)
    (tr_started_at r) (tr_completed_at r) (tr_updated_at r) progress (tr_result r) (tr_error r)
    (tr_summary r) (tr_owner_instance_id r) (tr_deleting r) (Z.of_N event_seq).

Definition tr_touch (now : DateTime) (r : TaskRecord) : TaskRecord :=
  mkTaskRecord (tr_schema_version r) (tr_id r) (tr_kind r) (tr_status r) (tr_created_at r)
    (tr_started_at r) (tr_completed_at r) now (tr_progress r) (tr_result r) (tr_error r)
    (tr_summary r) (tr_owner_instance_id r) (tr_deleting r) (tr_event_seq r).

Definition tr_summarise (summary : string) (r : TaskRecord) : TaskRecord :=
  mkTaskRecord (tr_schema_version r) (tr_id r) (tr_kind r) (tr_status r) (tr_created_at r)
    (tr_started_at r) (tr_completed_at r) (tr_updated_at r) (tr_progress r) (tr_result r) (tr_error r)
    summary (tr_owner_instance_id r) (tr_deleting r) (tr_event_seq r).

Definition tr_mark_deleting (r : TaskRecord) : TaskRecord :=
  mkTaskRecord (tr_schema_version r) (tr_id r) (tr_kind r) (tr_status r) (tr_created_at r)
    (tr_started_at r) (tr_completed_at r) (tr_updated_at r) (tr_progress r) (tr_result r) (tr_error r)
    (tr_summary r) (tr_owner_instance_id r) true (tr_event_seq r).

(** [matches!(status, TaskStatus::Running | TaskStatus::Pending)]. *)
Definition active (s : TaskStatus) : bool :=
  match s with Running | Pending => true | _ => false end.

Definition empty_progress : TaskProgress := mkTaskProgress 0 0 0 0 0 0 0 0 0 "".

(** ** Operations *)

Section manager.
Context `{Serde TaskRecord} `{Serde TaskEventRecord} `{UuidText}.

(** server/src/server/infra/task.rs:137-141 *)
Definition put_record (record : TaskRecord) : prog unit :=
  let* _ := put_task_summary record in Ret tt.

(** server/src/server/infra/task.rs:143-151 *)
Definition get_record (id : string) : prog (option TaskRecord) :=
  let* r := get_task_summary id in
  Ret (match r with Ok rec => rec | Err _ => None end).

(** server/src/server/infra/task.rs:155-199 *)
Definition create (kind : TaskKind) (tm : TaskManager) : prog (string * TaskManager) :=
  let* id := call EUuid in
  let* now := call ENow in
  let record := mkTaskRecord 0 id kind Pending now None None now empty_progress None None ""
    (tm_instance_id tm) false 0 in
  let* _ := put_record record in
  Ret (id, own <[id := mkOwnedTask empty_progress false 0]> tm).

(** One iteration of the bridge: [progress] and [event_seq] are what it reads
    from the channel and from the counter. *)
(** server/src/server/infra/task.rs:243-261 *)
Definition bridge_tick (id : string) (progress : TaskProgress) (event_seq : N) : prog unit :=
  let* r := get_task_summary_versioned id in
  match r with
  | Ok (Some (rec, version)) =>
      if active (tr_status rec) then
        let* now := call ENow in
        let* _ := put_task_summary_if_unchanged (tr_observe progress event_seq (tr_touch now rec)) version in
        Ret tt
      else Ret tt
  | _ => Ret tt
  end.

(** server/src/server/infra/task.rs:226-271 *)
Fixpoint progress_bridge (id : string) (observed : list (TaskProgress * N)) : prog unit :=
  match observed with
  | [] => Ret tt
  | (progress, event_seq) :: observed =>
      let* _ := bridge_tick id progress event_seq in
      progress_bridge id observed
  end.

(** Answers whether a bridge is spawned. *)
(** server/src/server/infra/task.rs:203-224 *)
Definition mark_running (id : string) (tm : TaskManager) : prog bool :=
  let* o := get_record id in
  match o with
  | None => Ret false
  | Some record =>
      let* now := call ENow in
      let* now' := call ENow in
      let* _ := put_record (tr_start now now' record) in
      Ret (bool_decide (is_Some (tm_owned tm !! id)))
  end.

(** server/src/server/infra/task.rs:293-320 *)
Definition mark_terminal (id : string) (status : TaskStatus) (result : option TaskResult)
    (error : option string) (tm : TaskManager) : prog TaskManager :=
  let* o := get_record id in
  match o with
  | None => Ret tm
  | Some record =>
      let* now := call ENow in
      let* now' := call ENow in
      let record := tr_finish status now now' result error record in
      let record := match tm_owned tm !! id with
        | Some o => tr_observe (ot_progress o) (ot_event_seq o) record
        | None => record
        end in
      let* _ := put_record record in
      Ret (own (delete id) tm)
  end.

(** server/src/server/infra/task.rs:276-279 *)
Definition mark_completed (id : string) (result : TaskResult) (tm : TaskManager) : prog TaskManager :=
  mark_terminal id Completed (Some result) None tm.

(** server/src/server/infra/task.rs:282-285 *)
Definition mark_failed (id : string) (error : string) (tm : TaskManager) : prog TaskManager :=
  mark_terminal id Failed None (Some error) tm.

(** server/src/server/infra/task.rs:288-291 *)
Definition mark_cancelled (id : string) (tm : TaskManager) : prog TaskManager :=
  mark_terminal id Cancelled None None tm.

(** server/src/server/infra/task.rs:324-331 *)
Definition cancel_task (id : string) (tm : TaskManager) : bool * TaskManager :=
  match tm_owned tm !! id with
  | Some o => (true, own <[id := fire o]> tm)
  | None => (false, tm)
  end.

(** server/src/server/infra/task.rs:336-350 *)
Definition append_log (id : string) (message : string) (tm : TaskManager) : prog TaskManager :=
  match tm_owned tm !! id with
  | None => Ret tm
  | Some o =>
      let seq := ot_event_seq o in
      let* _ := append_task_event id seq message in
      Ret (own <[id := mkOwnedTask (ot_progress o) (ot_cancelled o) ((seq + 1) mod 2 ^ 64)%N]> tm)
  end.

(** server/src/server/infra/task.rs:353-360 *)
Definition update_summary (id : string) (summary : string) : prog unit :=
  let* o := get_record id in
  match o with
  | None => Ret tt
  | Some record =>
      let* now := call ENow in
      put_record (tr_touch now (tr_summarise summary record))
  end.

Definition log_entry (e : TaskEventRecord) : TaskLogEntry := mkTaskLogEntry (ter_timestamp e) (ter_message e).

(** server/src/server/infra/task.rs:363-385 *)
Definition get_task (id : string) : prog (option TaskInfo) :=
  let* o := get_record id in
  match o with
  | None => Ret None
  | Some record =>
      let info := from_record record in
      if decide (0 < tr_event_seq record)%Z then
        let* r := list_task_events_since (tr_id record) 0 MAX_LOG_ENTRIES in
        Ret (Some (match r with Ok events => set_log (log_entry <$> events) info | Err _ => info end))
      else Ret (Some info)
  end.

(** server/src/server/infra/task.rs:389-401 *)
Definition list_task_infos : prog (list TaskInfo) :=
  let* r := list_tasks in
  Ret (match r with
       | Ok records => from_record <$> filter (λ r, tr_deleting r = false) records
       | Err _ => []
       end).

(** server/src/server/infra/task.rs:410-437 *)
Definition delete_task (fuel : nat) (id : string) (tm : TaskManager) : prog (bool * TaskManager) :=
  let* o := get_record id in
  match o with
  | None => Ret (false, tm)
  | Some record =>
      let* now := call ENow in
      let* _ := put_record (tr_touch now (tr_mark_deleting record)) in
      let tm := (cancel_task id tm).2 in
      let* _ := drain_task_events fuel id in
      let* r := delete_task_summary id in
      Ret (match r with Ok _ => true | Err _ => false end, tm)
  end.

(** server/src/server/infra/task.rs:439-448 *)
Definition any_running_of (pred : TaskRecord → bool) : prog bool :=
  let* r := list_tasks in
  Ret (match r with
       | Ok records => existsb (λ r, negb (tr_deleting r) && active (tr_status r) && pred r) records
       | Err _ => false
       end).

(** server/src/server/infra/task.rs:450-452 *)
Definition has_running_check : prog bool :=
  any_running_of (λ r, bool_decide (tr_kind r = TKCheck)).

(** server/src/server/infra/task.rs:454-456 *)
Definition has_running_gc : prog bool :=
  any_running_of (λ r, bool_decide (tr_kind r = TKBlobGc)).

(** server/src/server/infra/task.rs:458-461 *)
Definition has_running_rebuild_dir_entries : prog bool :=
  any_running_of (λ r, bool_decide (tr_kind r = TKRebuildDirEntries)).

(** server/src/server/infra/task.rs:463-466 *)
Definition has_running_repo_clean (repo : string) : prog bool :=
  any_running_of (λ r, match tr_kind r with TKRepoClean rr => bool_decide (rr = repo) | _ => false end).

(** server/src/server/infra/task.rs:468-476 *)
Definition has_running_repo_clone (source target : string) : prog bool :=
  any_running_of (λ r, match tr_kind r with
    | TKRepoClone s t => bool_decide (s = source) && bool_decide (t = target)
    | _ => false
    end).

(** server/src/server/infra/task.rs:478-486 *)
Definition has_running_bulk_delete (repo prefix : string) : prog bool :=
  any_running_of (λ r, match tr_kind r with
    | TKBulkDelete rr pp => bool_decide (rr = repo) && bool_decide (pp = prefix)
    | _ => false
    end).
End manager.

(** ** Runs of the operations *)

Section runs.
Context `{Serde TaskRecord} `{!SerdeExact TaskRecord} `{Serde TaskEventRecord} `{!SerdeExact TaskEventRecord}.
Context `{UuidText} `{UuidGen}.
Implicit Types (m : kvmap) (w : world kvmap).

(** The record of a task, when there is one and it can be read. *)
Definition task_at m (id : string) : option TaskRecord :=
  match m !! task_key id with
  | Some (b, _) => match from_slice b with inr r => Some r | inl _ => None end
  | None => None
  end.

(** The store after [put_task_summary]. *)
Definition put_task (r : TaskRecord) m : kvmap :=
  match to_vec_named (tr_current r) with
  | inr b => spec_put (task_key (tr_id r)) b m
  | inl _ => m
  end.

Lemma run_get_record id w : run (get_record id) w = (Some (task_at (w_kv w) id), w).
Proof.
  unfold get_record, get_task_summary, task_at, task_key. rewrite run_bind, run_bind_ok, run_kv_spec.
  cbn [spec_store fst snd]. rewrite set_kv_id.
  destruct (w_kv w !! _) as [ [b v]|]; cbn [fmap option_fmap option_map fst]; [|done].
  by destruct (from_slice b).
Qed.

Lemma run_put_record r w : run (put_record r) w = (Some tt, set_kv (put_task r (w_kv w)) w).
Proof.
  unfold put_record, put_task_summary, put_task, typed_put, task_key.
  change (tr_id (tr_current r)) with (tr_id r). rewrite run_bind.
  destruct (to_vec_named (tr_current r)) as [e|b]; cbn [serde_result try_]; [by rewrite set_kv_id|].
  by rewrite (run_kv_spec (Put _ _ _ _)).
Qed.

Lemma task_at_put_task r m :
  (∃ b, to_vec_named (tr_current r) = inr b) → task_at (put_task r m) (tr_id r) = Some (tr_current r).
Proof using SerdeExact0.
  intros [b Hb]. unfold task_at, put_task, spec_put. rewrite Hb, lookup_insert_eq.
  by rewrite (from_to_vec_named _ _ Hb), wire_id.
Qed.

Lemma put_task_other r m t pk sk : (t, pk, sk) ≠ task_key (tr_id r) → put_task r m !! (t, pk, sk) = m !! (t, pk, sk).
Proof.
  intros Hne. unfold put_task, spec_put. destruct (to_vec_named _); [done|]. by rewrite lookup_insert_ne.
Qed.

Lemma task_at_put_task_ne r m id : id ≠ tr_id r → task_at (put_task r m) id = task_at m id.
Proof. intros Hne. unfold task_at. unfold task_key at 1. by rewrite put_task_other by (intros [= ?]; done). Qed.

Lemma put_task_events r m id : part (put_task r m) TABLE_TASK_EVENTS id = part m TABLE_TASK_EVENTS id.
Proof. apply part_ext. intros sk. by apply put_task_other. Qed.

(** The tasks as the listing reads them. *)
Definition stored_tasks m : result (list TaskRecord) :=
  decode_all (items (scan_of (filter (λ x, starts_with x.1 "" = true)
    (part m TABLE_TASKS SINGLE_PK)) ADMIN_ENTITY_CAP)).

Lemma run_list_tasks w : run list_tasks w = (Some (stored_tasks (w_kv w)), w).
Proof. unfold list_tasks, typed_list. run_steps. done. Qed.

(** The transitions of the record of a task. *)
Lemma run_mark_running id r tm w :
  task_at (w_kv w) id = Some r →
  run (mark_running id tm) w = (Some (bool_decide (is_Some (tm_owned tm !! id))),
    set_kv (put_task (tr_start (w_now w) (w_now w) r) (w_kv w)) w).
Proof.
  intros Hr. unfold mark_running. rewrite run_bind, run_get_record, Hr. cbn [run].
  rewrite run_bind. cbn [call run handle]. rewrite run_bind. cbn [call run handle].
  by rewrite run_bind, run_put_record.
Qed.

Definition finished (id : string) (status : TaskStatus) (now now' : DateTime) (result : option TaskResult)
    (error : option string) (tm : TaskManager) (r : TaskRecord) : TaskRecord :=
  match tm_owned tm !! id with
  | Some o => tr_observe (ot_progress o) (ot_event_seq o) (tr_finish status now now' result error r)
  | None => tr_finish status now now' result error r
  end.

Lemma run_mark_terminal id status result error r tm w :
  task_at (w_kv w) id = Some r →
  run (mark_terminal id status result error tm) w = (Some (own (delete id) tm),
    set_kv (put_task (finished id status (w_now w) (w_now w) result error tm r) (w_kv w)) w).
Proof.
  intros Hr. unfold mark_terminal. rewrite run_bind, run_get_record, Hr. cbn [run].
  rewrite run_bind. cbn [call run handle]. rewrite run_bind. cbn [call run handle].
  by rewrite run_bind, run_put_record.
Qed.

Lemma run_update_summary id summary r w :
  task_at (w_kv w) id = Some r →
  run (update_summary id summary) w =
    (Some tt, set_kv (put_task (tr_touch (w_now w) (tr_summarise summary r)) (w_kv w)) w).
Proof.
  intros Hr. unfold update_summary. rewrite run_bind, run_get_record, Hr. cbn [run].
  rewrite run_bind. cbn [call run handle]. by rewrite run_put_record.
Qed.

(** ** The log of a task *)

Definition encoded (e : TaskEventRecord) : bytes :=
  match to_vec_named e with inr b => b | inl _ => "" end.

Definition logged_event (id : string) (now : DateTime) (i : nat) (message : string) : TaskEventRecord :=
  mkTaskEventRecord CURRENT_RECORD_VERSION id (Z.of_nat i) now message.

(** The log that [messages] leave when they are appended to an empty one. *)
Definition log_of (id : string) (now : DateTime) (messages : list string) : list (N * (bytes * Z)) :=
  imap (λ i message, (N.of_nat i, (encoded (logged_event id now i message), 1%Z))) messages.

Definition writable_event (e : TaskEventRecord) : Prop := ∃ b, to_vec_named e = inr b.

Lemma log_of_snoc id now messages message :
  log_of id now (messages ++ [message]) = log_of id now messages ++
    [(N.of_nat (length messages), (encoded (logged_event id now (length messages) message), 1%Z))].
Proof. unfold log_of. rewrite imap_app. cbn. by rewrite Nat.add_0_r. Qed.

Lemma log_of_seq id now messages x : x ∈ log_of id now messages → (x.1 < N.of_nat (length messages))%N.
Proof.
  induction messages as [|message messages IH] using rev_ind; [by intros ?%elem_of_nil|].
  rewrite log_of_snoc, length_app. cbn [length].
  intros [Hx%IH| ->%list_elem_of_singleton]%elem_of_app; cbn [fst]; lia.
Qed.

Lemma event_sk_ne a b : (a < 2 ^ 64)%N → (b < 2 ^ 64)%N → a ≠ b → event_sk a ≠ event_sk b.
Proof.
  intros Ha Hb Hne Heq.
  destruct (N.lt_trichotomy a b) as [Hl|[Hl|Hl] ]; [|done|];
    apply event_sk_lt in Hl; try done; rewrite Heq in Hl; by apply str_lt_irrefl in Hl.
Qed.

(** One more event. *)
Lemma event_log_snoc m id now messages message :
  event_log m id (log_of id now messages) → (N.of_nat (S (length messages)) < 2 ^ 64)%N →
  event_log (<[task_event_key id (N.of_nat (length messages)) :=
    (encoded (logged_event id now (length messages) message), 1%Z)]> m) id (log_of id now (messages ++ [message])).
Proof.
  intros (Hs & Hb & Hp) Hlen. rewrite log_of_snoc. set (x := (N.of_nat (length messages), _)).
  set (log := log_of id now messages) in *.
  assert (∀ y, y ∈ log → (y.1 < x.1)%N) as Hlt by (intros y; apply log_of_seq).
  assert (Forall (λ x, x.1 < 2 ^ 64)%N (log ++ [x])) as Hb'.
  { apply Forall_app. split; [done|]. apply Forall_singleton. cbn. lia. }
  apply event_log_intro.
  - apply StronglySorted_app. split_and!; [|done|repeat constructor].
    intros y z Hy ->%list_elem_of_singleton. by apply Hlt.
  - done.
  - intros sk v. unfold task_event_key. change (task_event_pk id) with id.
    assert (∀ y, y ∈ log → event_sk y.1 ≠ event_sk x.1) as Hne.
    { intros y Hy Heq. assert (y.1 < 2 ^ 64)%N by (rewrite Forall_forall in Hb; by apply Hb).
      assert (x.1 < 2 ^ 64)%N by (cbn; lia). specialize (Hlt y Hy).
      apply (event_sk_ne y.1 x.1); [done..| |done]. lia. }
    change (pad_zero 20 (show_uint (N.of_nat (length messages)))) with (event_sk x.1).
    assert (m !! (TABLE_TASK_EVENTS, id, sk) = Some v ↔ ∃ seq, (seq, v) ∈ log ∧ sk = event_sk seq) as Hm.
    { rewrite <-elem_of_part, Hp, list_elem_of_fmap. split.
      - intros ([seq v'] & [= -> ->] & Hin). by exists seq.
      - intros (seq & Hin & ->). by exists (seq, v). }
    destruct (decide (sk = event_sk x.1)) as [->|Hsk].
    + rewrite lookup_insert_eq. split.
      * intros [= <-]. exists x.1. split; [|done]. apply elem_of_app. right. by apply list_elem_of_singleton.
      * intros (seq & [Hin|Hx%list_elem_of_singleton]%elem_of_app & Heq).
        -- by destruct (Hne _ Hin).
        -- by injection Hx as _ ->.
    + rewrite lookup_insert_ne by (intros [= ?]; done). rewrite Hm. split.
      * intros (seq & Hin & ->). exists seq. split; [|done]. apply elem_of_app. by left.
      * intros (seq & [Hin|Hx%list_elem_of_singleton]%elem_of_app & ->); [by exists seq|].
        by injection Hx as -> ->.
Qed.

Lemma event_log_ext m m' id log :
  part m' TABLE_TASK_EVENTS id = part m TABLE_TASK_EVENTS id → event_log m id log → event_log m' id log.
Proof. unfold event_log. by intros ->. Qed.

Lemma event_log_fresh m id log n :
  event_log m id log → (∀ x, x ∈ log → x.1 ≠ n) → (n < 2 ^ 64)%N → m !! task_event_key id n = None.
Proof.
  intros (Hs & Hb & Hp) Hn Hlt. destruct (m !! task_event_key id n) as [v|] eqn:Hv; [|done]. exfalso.
  unfold task_event_key in Hv. change (task_event_pk id) with id in Hv.
  apply elem_of_part in Hv. rewrite Hp in Hv. apply list_elem_of_fmap in Hv as (x & [= Heq _] & Hx).
  fold (event_sk n) in Heq. rewrite Forall_forall in Hb. specialize (Hb x Hx).
  by apply (event_sk_ne x.1 n Hb Hlt (Hn x Hx)).
Qed.

Lemma decode_all_ok `{Serde T} (items : list (string * bytes)) (xs : list T) :
  Forall2 (λ it x, from_slice it.2 = inr x) items xs → decode_all items = Ok xs.
Proof.
  induction 1 as [|[k v] x items xs Hx Hall IH]; [done|]. cbn [decode_all snd] in *. by rewrite Hx, IH.
Qed.

(** Reading the events back. *)
Lemma decode_log id now messages n :
  (∀ i message, messages !! i = Some message → writable_event (logged_event id now i message)) →
  decode_all (log_values (take n (log_of id now messages))) =
    Ok (imap (logged_event id now) (take n messages)).
Proof using All.
  intros Hw. apply decode_all_ok, Forall2_fmap_l. apply Forall2_same_length_lookup. split.
  - unfold log_of. by rewrite length_imap, !length_take, length_imap.
  - intros i x e. unfold log_of. rewrite list_lookup_imap. intros Hx He.
    apply lookup_take_Some in Hx as [Hx Hi]. rewrite list_lookup_imap in Hx.
    rewrite lookup_take_lt in He by done.
    destruct (messages !! i) as [message|] eqn:Hm; [|done]. injection He as <-. injection Hx as <-.
    unfold encoded. destruct (Hw i message Hm) as [b Hb]. rewrite Hb. cbn [compose fst snd].
    by rewrite (from_to_vec_named _ _ Hb), wire_id.
Qed.

Lemma log_decodes id now messages :
  (∀ i message, messages !! i = Some message → writable_event (logged_event id now i message)) →
  Forall2 (λ x e, from_slice x.2.1 = inr e) (log_of id now messages) (imap (logged_event id now) messages).
Proof using SerdeExact1.
  intros Hw. apply Forall2_same_length_lookup. split; [unfold log_of; by rewrite !length_imap|].
  intros i x e. unfold log_of. rewrite !list_lookup_imap.
  destruct (messages !! i) as [message|] eqn:Hm; [|done]. intros [= <-] [= <-].
  cbn [fst snd]. unfold encoded. destruct (Hw i message Hm) as [b Hb]. rewrite Hb.
  by rewrite (from_to_vec_named _ _ Hb), wire_id.
Qed.

Lemma log_from id now messages k :
  filter (λ x, N.of_nat k ≤ x.1)%N (log_of id now messages) = drop k (log_of id now messages).
Proof.
  assert (∀ i x, log_of id now messages !! i = Some x → x.1 = N.of_nat i) as Hseq.
  { intros i x. unfold log_of. rewrite list_lookup_imap. destruct (messages !! i); [|done]. by intros [= <-]. }
  rewrite <-(take_drop k (log_of id now messages)) at 1. rewrite filter_app, filter_none, filter_all; [done| |].
  - apply Forall_forall. intros x [i Hi]%list_elem_of_lookup. rewrite lookup_drop in Hi. apply Hseq in Hi. lia.
  - apply Forall_forall. intros x [i Hi]%list_elem_of_lookup. apply lookup_take_Some in Hi as [Hi Hlt].
    apply Hseq in Hi. lia.
Qed.

(** A tail of the log, as it is read. *)
Lemma run_list_log id now messages k limit w :
  (∀ i message, messages !! i = Some message → writable_event (logged_event id now i message)) →
  event_log (w_kv w) id (log_of id now messages) → (N.of_nat k < 2 ^ 64)%N →
  run (list_task_events_since id (N.of_nat k) limit) w =
    (Some (Ok (take limit (drop k (imap (logged_event id now) messages)))), w).
Proof using SerdeExact1.
  intros Hw Hlog Hk. rewrite (run_list_events _ _ _ _ _ Hlog Hk), log_from.
  do 2 f_equal. apply decode_all_ok. unfold log_values. apply Forall2_fmap_l.
  apply Forall2_take, Forall2_drop. by apply log_decodes.
Qed.

(** ** Appending *)

(** The messages a task logs, one after the other. *)
Fixpoint append_logs (id : string) (messages : list string) (tm : TaskManager) : prog TaskManager :=
  match messages with
  | [] => Ret tm
  | message :: messages => let* tm := append_log id message tm in append_logs id messages tm
  end.

(** The manager after [n] events of an owned task. *)
Definition owned_at (id : string) (o : OwnedTask) (n : nat) (tm : TaskManager) : TaskManager :=
  own <[id := mkOwnedTask (ot_progress o) (ot_cancelled o) (N.of_nat n)]> tm.

Lemma owned_at_lookup id o n tm :
  tm_owned (owned_at id o n tm) !! id = Some (mkOwnedTask (ot_progress o) (ot_cancelled o) (N.of_nat n)).
Proof. apply lookup_insert_eq. Qed.

Lemma run_append_log id message messages o tm w :
  event_log (w_kv w) id (log_of id (w_now w) messages) → (N.of_nat (S (length messages)) < 2 ^ 64)%N →
  writable_event (logged_event id (w_now w) (length messages) message) →
  ∃ m', run (append_log id message (owned_at id o (length messages) tm)) w =
      (Some (owned_at id o (S (length messages)) tm), set_kv m' w) ∧
    event_log m' id (log_of id (w_now w) (messages ++ [message])) ∧
    ∀ t pk sk, (t, pk) ≠ (TABLE_TASK_EVENTS, id) → m' !! (t, pk, sk) = w_kv w !! (t, pk, sk).
Proof.
  intros Hlog Hlen [b Hb]. eexists. split; [|split; [by apply event_log_snoc|]].
  - unfold append_log. rewrite owned_at_lookup. cbn [ot_event_seq ot_progress ot_cancelled].
    unfold append_task_event. rewrite run_bind, run_bind. cbn [call run handle].
    unfold task_event_key, typed_put_if_absent.
    rewrite nat_N_Z. fold (logged_event id (w_now w) (length messages) message). rewrite Hb.
    cbn [serde_result try_]. rewrite (run_kv_spec (PutIfAbsent _ _ _ _)). cbn [spec_store].
    unfold spec_put_if_version.
    fold (task_event_key id (N.of_nat (length messages))).
    rewrite (event_log_fresh _ _ _ _ Hlog), decide_True by (done || lia || (intros x Hx%log_of_seq; lia)).
    cbn [fst snd run]. unfold encoded. rewrite Hb. f_equal. f_equal. unfold owned_at, own. cbn. f_equal.
    rewrite insert_insert_eq. do 2 f_equal. rewrite N.mod_small by lia. lia.
  - intros t pk sk Hne. apply lookup_insert_ne. unfold task_event_key. intros [= <- <- _]. by apply Hne.
Qed.

Lemma run_append_logs id more messages o tm w :
  event_log (w_kv w) id (log_of id (w_now w) messages) →
  (N.of_nat (length (messages ++ more)) < 2 ^ 64)%N →
  (∀ i message, (messages ++ more) !! i = Some message → writable_event (logged_event id (w_now w) i message)) →
  ∃ m', run (append_logs id more (owned_at id o (length messages) tm)) w =
      (Some (owned_at id o (length (messages ++ more)) tm), set_kv m' w) ∧
    event_log m' id (log_of id (w_now w) (messages ++ more)) ∧
    ∀ t pk sk, (t, pk) ≠ (TABLE_TASK_EVENTS, id) → m' !! (t, pk, sk) = w_kv w !! (t, pk, sk).
Proof.
  revert messages w. induction more as [|message more IH]; intros messages w Hlog Hlen Hw; cbn [append_logs].
  - exists (w_kv w). rewrite app_nil_r, set_kv_id. done.
  - destruct (run_append_log id message messages o tm w) as (m1 & Hr1 & Hl1 & Hf1); [done| | |].
    { rewrite length_app in Hlen. cbn [length] in Hlen. lia. }
    { apply Hw. by rewrite lookup_app_r, Nat.sub_diag by lia. }
    destruct (IH (messages ++ [message]) (set_kv m1 w)) as (m2 & Hr2 & Hl2 & Hf2).
    { done. } { by rewrite <-(assoc_L (++)). } { intros i x. rewrite <-(assoc_L (++)). apply Hw. }
    exists m2. rewrite run_bind, Hr1. rewrite length_app, Nat.add_1_r in Hr2.
    rewrite Hr2, <-(assoc_L (++)). split; [done|]. split; [by rewrite <-(assoc_L (++)) in Hl2|].
    intros t pk sk Hne. rewrite Hf2 by done. cbn [w_kv set_kv]. by apply Hf1.
Qed.
End runs.

(** ** The bridge next to the end of the task *)

Section interleaving.
Context `{Serde TaskRecord} `{!SerdeExact TaskRecord} `{UuidGen}.
Context (writable : ∀ r : TaskRecord, ∃ b, to_vec_named r = inr b).
Context (id : string) (status : TaskStatus) (result : option TaskResult) (error : option string) (tm : TaskManager).
Context (ended : active status = false).
Implicit Types (m : kvmap) (w : world kvmap) (c : list (prog unit) * world kvmap).

(** The states of the bridge: between ticks, with a record that it has read
    and before the clock, and before its conditional write; [c] is the version
    it expects and [n] the ticks that can still write. *)
Inductive bridge_at : prog unit → option Z → nat → Prop :=
| bridge_idle observed : bridge_at (progress_bridge id observed) None (length observed)
| bridge_clock progress event_seq (rec : TaskRecord) version observed :
    tr_id rec = id →
    bridge_at
      (let* _ := (let* now := call ENow in
                  let* _ := put_task_summary_if_unchanged (tr_observe progress event_seq (tr_touch now rec)) version in
                  Ret tt) in
       progress_bridge id observed) (Some version) (S (length observed))
| bridge_write (rec : TaskRecord) version observed :
    tr_id rec = id →
    bridge_at
      (let* _ := (let* _ := put_task_summary_if_unchanged rec version in Ret tt) in
       progress_bridge id observed) (Some version) (S (length observed)).

(** A readable record with the id of the task. *)
Definition readable (b : bytes) : Prop := ∃ r : TaskRecord, from_slice b = inr r ∧ tr_id r = id.

Lemma bridge_step p expected n p' (b : bytes) (v : Z) w w' :
  bridge_at p expected n → w_kv w !! task_key id = Some (b, v) → readable b →
  prog_step p w = Some (p', w') →
  (w' = w ∧ ∃ e' n', bridge_at p' e' n' ∧ n' ≤ n ∧
     (e' = None ∨ (e' = expected) ∨ (e' = Some v ∧ ∀ r, from_slice b = inr r → active (tr_status r) = true))) ∨
  (∃ b' n', expected = Some v ∧ readable b' ∧ w' = set_kv (<[task_key id := (b', u64_add v 1)]> (w_kv w)) w ∧
     bridge_at p' None n' ∧ S n' ≤ n).
Proof using SerdeExact0 writable.
  intros Hp Hkey (r & Hr & Hid) Hstep. destruct Hp as [observed|progress event_seq rec version observed Hrec|rec version observed Hrec].
  - destruct observed as [|[progress event_seq] observed]; [done|]. cbn in Hstep.
    unfold task_key in Hkey. rewrite Hkey in Hstep. injection Hstep as <- <-. left.
    split; [by destruct w|]. cbn. rewrite Hr. cbn. destruct (active (tr_status r)) eqn:Ha.
    + eexists _, _. split; [by apply (bridge_clock progress event_seq r v observed)|]. split; [cbn; lia|].
      right; right. split; [done|]. by intros r' [= <-].
    + eexists _, _. split; [apply (bridge_idle observed)|]. split; [cbn; lia|]. by left.
  - cbn in Hstep. injection Hstep as <- <-. left. split; [done|].
    eexists _, _. split; [by apply (bridge_write (tr_observe progress event_seq (tr_touch (w_now w) rec)) version observed)|].
    split; [done|]. by right; left.
  - destruct (writable (tr_current rec)) as [b' Hb']. unfold put_task_summary_if_unchanged, task_key in Hstep.
    change (tr_id (tr_current rec)) with (tr_id rec) in Hstep. rewrite Hb', Hrec in Hstep. cbn in Hstep.
    injection Hstep as <- <-. unfold spec_put_if_version. unfold task_key in Hkey. rewrite Hkey. cbn [fmap option_fmap option_map snd].
    case_decide as Hv.
    + injection Hv as ->. right. exists b', (length observed). split_and!; [done| |done|apply bridge_idle|done].
      exists (tr_current rec). split; [|done]. by rewrite (from_to_vec_named _ _ Hb'), wire_id.
    + left. split; [by destruct w|]. eexists _, _. split; [apply bridge_idle|]. split; [lia|]. by left.
Qed.

(** What is stored once the task has ended. *)
Definition settled (b : bytes) : Prop :=
  ∃ r : TaskRecord, from_slice b = inr r ∧ tr_id r = id ∧
    tr_status r = status ∧ tr_result r = result ∧ tr_error r = error ∧ tr_completed_at r ≠ None.

(** The call that ends the task, up to its write. *)
Inductive ending_at : prog unit → Prop :=
| ending_start : ending_at (let* _ := mark_terminal id status result error tm in Ret tt)
| ending_clock (r : TaskRecord) :
    tr_id r = id →
    ending_at
      (let* _ :=
         (let* now := call ENow in
          let* now' := call ENow in
          let record := tr_finish status now now' result error r in
          let record := match tm_owned tm !! id with
            | Some o => tr_observe (ot_progress o) (ot_event_seq o) record
            | None => record
            end in
          let* _ := put_record record in
          Ret (own (delete id) tm)) in
       Ret tt)
| ending_clock2 (r : TaskRecord) now :
    tr_id r = id →
    ending_at
      (let* _ :=
         (let* now' := call ENow in
          let record := tr_finish status now now' result error r in
          let record := match tm_owned tm !! id with
            | Some o => tr_observe (ot_progress o) (ot_event_seq o) record
            | None => record
            end in
          let* _ := put_record record in
          Ret (own (delete id) tm)) in
       Ret tt)
| ending_write (r : TaskRecord) :
    tr_id r = id → tr_status r = status → tr_result r = result → tr_error r = error → tr_completed_at r ≠ None →
    ending_at (let* _ := (let* _ := put_record r in Ret (own (delete id) tm)) in Ret tt).

Lemma ending_step p p' (b : bytes) (v : Z) w w' :
  ending_at p → w_kv w !! task_key id = Some (b, v) → readable b →
  prog_step p w = Some (p', w') →
  (w' = w ∧ ending_at p') ∨
  (p' = Ret tt ∧ ∃ b', settled b' ∧ w' = set_kv (<[task_key id := (b', u64_add v 1)]> (w_kv w)) w).
Proof using SerdeExact0 writable.
  intros Hp Hkey (r & Hr & Hid) Hstep.
  destruct Hp as [|rec Hrec|rec now Hrec|rec Hrec Hs Hres Herr Hc].
  - cbn in Hstep. unfold task_key in Hkey. rewrite Hkey in Hstep. injection Hstep as <- <-. left.
    split; [by destruct w|]. cbn. rewrite Hr. cbn. by apply (ending_clock r).
  - cbn in Hstep. injection Hstep as <- <-. left. split; [done|]. by apply (ending_clock2 rec (w_now w)).
  - cbn in Hstep. injection Hstep as <- <-. left. split; [done|].
    apply (ending_write (finished id status now (w_now w) result error tm rec)); unfold finished;
      by destruct (tm_owned tm !! id).
  - destruct (writable (tr_current rec)) as [b' Hb'].
    unfold put_record, put_task_summary, typed_put, task_key in Hstep.
    change (tr_id (tr_current rec)) with (tr_id rec) in Hstep. rewrite Hb', Hrec in Hstep. cbn in Hstep.
    injection Hstep as <- <-. right. split; [done|]. exists b'. split.
    + exists (tr_current rec). split; [|done]. by rewrite (from_to_vec_named _ _ Hb'), wire_id.
    + unfold spec_put. unfold task_key in Hkey. by rewrite Hkey.
Qed.

Lemma ending_not_ret : ¬ ending_at (Ret tt).
Proof using writable.
  intros He. inversion He as [Heq|r Hr Heq|r now Hr Heq|r Hr Hs Hres Herr Hc Heq]; [done..|].
  destruct (writable (tr_current r)) as [b Hb].
  unfold put_record, put_task_summary, typed_put, task_key in Heq. by rewrite Hb in Heq.
Qed.

(** The invariant of the two programs. *)
Definition racing c : Prop :=
  ∃ p0 p1 expected n b v, c.1 = [p0; p1] ∧ w_kv c.2 !! task_key id = Some (b, v) ∧ (0 ≤ v)%Z ∧
    bridge_at p1 expected n ∧
    ((ending_at p0 ∧ readable b ∧ (v + Z.of_nat n + 1 < 2 ^ 64)%Z ∧ (∀ v', expected = Some v' → v' ≤ v)%Z) ∨
     (p0 = Ret tt ∧ settled b ∧ (v + Z.of_nat n < 2 ^ 64)%Z ∧ (∀ v', expected = Some v' → v' < v)%Z)).

Lemma settled_readable b : settled b → readable b.
Proof. intros (r & ? & ? & _). by exists r. Qed.

Lemma racing_step c c' : racing c → step c c' → racing c'.
Proof using SerdeExact0 writable ended.
  destruct c as [ps w], c' as [ps' w'].
  intros (p0 & p1 & expected & n & b & v & Hps & Hkey & Hv & Hb & Hcase) Hstep. cbn [fst snd] in *. subst ps.
  apply step_inv in Hstep as (i & p & p' & Hi & Hp & ->). destruct i as [|[|i] ]; cbn in Hi; [| |done].
  - injection Hi as ->. destruct Hcase as [(He & Hread & Hbound & Hle)|(-> & _)]; [|done].
    destruct (ending_step p p' b v w w' He Hkey Hread Hp) as [ [-> He'] | (-> & b' & Hset & ->)].
    + exists p', p1, expected, n, b, v. split_and!; try done. by left.
    + exists (Ret tt), p1, expected, n, b', (v + 1)%Z.
      split_and!; [done| |lia|done|right; split_and!; [done|done|lia|] ].
      * cbn. rewrite lookup_insert_eq. unfold u64_add. by rewrite u64_wrap_id by (unfold u64_ok; lia).
      * intros v' Hv'. specialize (Hle v' Hv'). lia.
  - injection Hi as ->.
    assert (readable b) as Hread by (destruct Hcase as [(_ & ? & _)|(_ & ?%settled_readable & _)]; done).
    destruct (bridge_step p expected n p' b v w w' Hb Hkey Hread Hp)
      as [(-> & e' & n' & Hb' & Hn & He')|(b' & n' & He & Hread' & -> & Hb' & Hn)].
    + exists p0, p', e', n', b, v. split_and!; try done. destruct Hcase as [(He & _ & Hbound & Hle)|(-> & Hset & Hbound & Hlt)].
      * left. split_and!; [done|done|lia|]. intros v' Hv'.
        destruct He' as [->|[->|[-> _] ] ]; [done|by apply Hle|]. injection Hv' as <-. lia.
      * right. split_and!; [done|done|lia|]. intros v' Hv'.
        destruct He' as [->|[->|[-> Ha] ] ]; [done|by apply Hlt|].
        destruct Hset as (r & Hr & _ & Hst & _). specialize (Ha r Hr). rewrite Hst, ended in Ha. done.
    + destruct Hcase as [(Hend & _ & Hbound & Hle)|(-> & Hset & Hbound & Hlt)]; [|specialize (Hlt v He); lia].
      exists p0, p', None, n', b', (v + 1)%Z. split_and!; [done| |lia|done|left; split_and!; [done|done|lia|done] ].
      cbn. rewrite lookup_insert_eq. unfold u64_add. by rewrite u64_wrap_id by (unfold u64_ok; lia).
Qed.
End interleaving.

(** ** Properties *)

Section properties.
Context `{Serde TaskRecord} `{!SerdeExact TaskRecord} `{Serde TaskEventRecord} `{!SerdeExact TaskEventRecord}.
Context `{UuidText} `{UuidGen}.
Implicit Types (m : kvmap) (w : world kvmap).

(** The life of a task that completes. *)
Definition lifecycle (kind : TaskKind) (progress : TaskProgress) (messages : list string) (summary : string)
    (result : TaskResult) (tm : TaskManager) : prog (option TaskInfo * TaskManager) :=
  let* c := create kind tm in
  let '(id, tm) := c in
  let* _ := mark_running id tm in
  let tm := report_progress id (λ _, progress) tm in
  let* tm := append_logs id messages tm in
  let* _ := update_summary id summary in
  let* tm := mark_completed id result tm in
  let* info := get_task id in
  Ret (info, tm).

(** C27: The progress bridge never undoes the end of a task.  However the
    writes of the bridge interleave with the call that marks the task
    completed, failed or cancelled, whatever progress it observes: once that
    call has returned, the stored record is the one it wrote, in this and in
    every later state, and never again a running one. *)
Theorem bridge_keeps_terminal id status result error tm observed (r : TaskRecord) (b : bytes) (v : Z) w ps' w' :
  (∀ r : TaskRecord, ∃ b, to_vec_named r = inr b) →
  active status = false →
  w_kv w !! task_key id = Some (b, v) → from_slice b = inr r → tr_id r = id →
  (0 ≤ v)%Z → (v + Z.of_nat (length observed) + 1 < 2 ^ 64)%Z →
  steps ([let* _ := mark_terminal id status result error tm in Ret tt; progress_bridge id observed], w) (ps', w') →
  ps' !! 0 = Some (Ret tt) →
  ∃ r', task_at (w_kv w') id = Some r' ∧ tr_status r' = status ∧ tr_result r' = result ∧
    tr_error r' = error ∧ tr_completed_at r' ≠ None.
Proof using SerdeExact0.
  intros Hser Hst Hkey Hr Hid Hv Hbound Hsteps Hdone.
  assert (racing id status result error tm (ps', w')) as (p0 & p1 & e & n & b' & v' & Hps & Hkey' & _ & _ & Hcase).
  { eapply (steps_invariant (racing id status result error tm)); [| |exact Hsteps].
    - intros c c' Hc Hs. by eapply racing_step.
    - eexists _, _, None, _, b, v. split_and!; [done|done|done|apply bridge_idle|left; split_and!; [constructor| |lia|done] ].
      by exists r. }
  cbn [fst snd] in *. subst ps'. cbn in Hdone. injection Hdone as ->.
  destruct Hcase as [(He & _)|(_ & (r' & Hr' & _ & Hrest) & _)].
  - by destruct (ending_not_ret Hser id status result error tm He).
  - exists r'. split; [|done]. unfold task_at. by rewrite Hkey', Hr'.
Qed.

(** The life of a task.  A task that is created, started, logs any number
    of messages, reports its progress and its summary and completes is then
    read as completed, with its last progress, its result and summary and its
    messages in order, the first thousand of them; and the manager no longer
    owns it. *)
Theorem task_lifecycle kind progress messages summary result tm w :
  let id := new_v4 (w_uuids w) in let now := w_now w in
  (∀ r : TaskRecord, ∃ b, to_vec_named r = inr b) →
  (∀ i message, messages !! i = Some message → writable_event (logged_event id now i message)) →
  (N.of_nat (length messages) < 2 ^ 64)%N →
  part (w_kv w) TABLE_TASK_EVENTS id = [] →
  ∃ w', run (lifecycle kind progress messages summary result tm) w =
    (Some (Some (mkTaskInfo (default uuid_nil (uuid_parse id)) kind Completed now (Some now) (Some now)
                   progress (Some result) None summary
                   (log_entry <$> imap (logged_event id now) (take MAX_LOG_ENTRIES messages))),
           own (delete id) tm), w').
Proof using All.
  intros id now Hser Hev Hlen Hempty. unfold lifecycle.
  rewrite run_bind. unfold create. rewrite run_bind. cbn [call run handle].
  rewrite run_bind. cbn [call run handle].
  change (new_v4 (w_uuids w)) with id. change (w_now (bump_uuid w)) with now.
  rewrite run_bind, run_put_record. cbn [run].
  match goal with |- context [put_task ?r (w_kv (bump_uuid w))] => set (r0 := r) end.
  change (w_kv (bump_uuid w)) with (w_kv w).
  assert (∀ r m, tr_id r = id → task_at (put_task r m) id = Some (tr_current r)) as Hput.
  { intros r m <-. apply task_at_put_task, Hser. }
  rewrite run_bind, (run_mark_running id (tr_current r0)) by by apply Hput.
  cbn [w_now w_kv set_kv bump_uuid]. set (r1 := tr_start _ _ _). rewrite set_kv_twice.
  set (w1 := set_kv _ _).
  replace (report_progress _ _ _) with (owned_at id (mkOwnedTask progress false 0) (length (@nil string)) tm)
    by (unfold owned_at, report_progress, own; cbn; by rewrite alter_insert_eq).
  destruct (run_append_logs id messages [] (mkOwnedTask progress false 0) tm w1) as (m2 & Hr2 & Hl2 & Hf2).
  { apply event_log_ext with (w_kv w); [unfold w1; cbn [w_kv set_kv]; by rewrite !put_task_events|]. split_and!; [constructor|done|done]. }
  { done. } { exact Hev. }
  rewrite run_bind, Hr2. cbn [app].
  assert (task_at m2 id = Some (tr_current r1)) as Hr1.
  { rewrite <-(Hput r1 (put_task r0 (w_kv w))) by done. unfold task_at, task_key. by rewrite Hf2. }
  rewrite run_bind, (run_update_summary id summary (tr_current r1)) by done.
  rewrite set_kv_twice. set (r3 := tr_touch _ _). set (w3 := set_kv _ w1).
  rewrite run_bind. unfold mark_completed. rewrite (run_mark_terminal _ _ _ _ (tr_current r3)) by by apply Hput.
  unfold finished. rewrite owned_at_lookup. set (r4 := tr_observe _ _ _). set (w4 := set_kv _ w3).
  assert (task_at (w_kv w4) id = Some (tr_current r4)) as Hr4 by by apply Hput.
  rewrite run_bind. unfold get_task. rewrite run_bind, run_get_record, Hr4. cbn [run].
  assert (own (delete id) (owned_at id (mkOwnedTask progress false 0) (length messages) tm) = own (delete id) tm) as ->.
  { unfold owned_at, own. cbn. by rewrite delete_insert_eq. }
  change (tr_event_seq (tr_current r4)) with (Z.of_N (N.of_nat (length messages))).
  change (tr_id (tr_current r4)) with id.
  case_decide as Hpos.
  - rewrite run_bind, (run_list_events _ _ _ (log_of id now messages)); [|..].
    + rewrite filter_all by (apply Forall_forall; intros; cbn; lia). rewrite decode_log by done.
      cbn [run]. by eexists.
    + apply event_log_ext with m2; [|done]. unfold w4, w3. cbn [w_kv set_kv]. by rewrite !put_task_events.
    + done.
  - destruct messages; [by eexists|]. cbn [length] in Hpos. lia.
Qed.
(** Deleting a running task leaks.  The deletion removes the record and
    the log and fires the token, but the task stays owned: what it logs before
    it notices is written under the deleted id, where no summary leads to it,
    and when it then reports its cancellation there is no record, so it is
    never disowned. *)
Theorem delete_running_task_leaks fuel id (r : TaskRecord) o message (b : bytes) tm w :
  (∀ r : TaskRecord, ∃ b, to_vec_named r = inr b) →
  to_vec_named (mkTaskEventRecord CURRENT_RECORD_VERSION id (Z.of_N (ot_event_seq o)) (w_now w) message) = inr b →
  task_at (w_kv w) id = Some r → tr_id r = id → tm_owned tm !! id = Some o → (ot_event_seq o + 1 < 2 ^ 64)%N →
  length (part (w_kv w) TABLE_TASK_EVENTS id) < fuel →
  ∃ w', run (let* d := delete_task fuel id tm in
             let* tm := append_log id message d.2 in
             let* tm := mark_cancelled id tm in
             Ret (d.1, tm)) w =
      (Some (true, own <[id := mkOwnedTask (ot_progress o) true (ot_event_seq o + 1)]> tm), w') ∧
    w_kv w' !! task_key id = None ∧
    w_kv w' !! task_event_key id (ot_event_seq o) = Some (b, 1%Z).
Proof using SerdeExact0.
  intros Hser Hb Hr Hid Ho Hseq Hfuel. rewrite run_bind. unfold delete_task.
  rewrite run_bind, run_get_record, Hr. cbn [run]. rewrite run_bind. cbn [call run handle].
  rewrite run_bind, run_put_record. cbn [run]. set (w1 := set_kv _ w).
  destruct (run_drain_events fuel id w1) as (m2 & Hr2 & Hd2).
  { unfold w1. cbn [w_kv set_kv]. by rewrite put_task_events. }
  rewrite run_bind, Hr2. cbn [run]. rewrite run_bind.
  change (delete_task_summary id) with (kv (Delete TABLE_TASKS SINGLE_PK id)).
  rewrite (run_kv_spec (Delete _ _ _)). cbn [spec_store fst snd run].
  unfold cancel_task. rewrite Ho. cbn [fst snd]. set (w3 := set_kv _ _).
  assert (w_now w3 = w_now w) as Hnow by done.
  rewrite run_bind. unfold append_log. cbn [own tm_owned]. rewrite lookup_insert_eq.
  cbn [fire ot_event_seq ot_progress ot_cancelled]. rewrite run_bind. unfold append_task_event.
  rewrite run_bind. cbn [call run handle]. rewrite Hnow. unfold task_event_key, typed_put_if_absent. rewrite Hb.
  cbn [serde_result try_]. rewrite (run_kv_spec (PutIfAbsent _ _ _ _)). cbn [spec_store].
  unfold spec_put_if_version. fold (event_sk (ot_event_seq o)). change (task_event_pk id) with id.
  assert (w_kv w3 !! (TABLE_TASK_EVENTS, id, event_sk (ot_event_seq o)) = None) as Hnone.
  { unfold w3. cbn [w_kv set_kv]. rewrite lookup_delete_ne by done. by apply Hd2. }
  rewrite Hnone, decide_True by done. cbn [fst snd run].
  rewrite run_bind. unfold mark_cancelled, mark_terminal. rewrite run_bind, run_get_record.
  unfold task_at. cbn [w_kv set_kv]. unfold task_key at 1. rewrite lookup_insert_ne by done.
  unfold w3 at 1. cbn [w_kv set_kv]. rewrite lookup_delete_eq. cbn [run].
  eexists. split; [|split].
  - do 3 f_equal. unfold own. cbn. rewrite insert_insert_eq. do 3 f_equal. apply N.mod_small. lia.
  - cbn [w_kv set_kv]. rewrite lookup_insert_ne by done. unfold w3. cbn [w_kv set_kv]. apply lookup_delete_eq.
  - cbn [w_kv set_kv]. by rewrite lookup_insert_eq.
Qed.
End properties.

(** ** Witnesses *)

(** Every task record serialises. *)
#[export] Instance TaskStatus_countable : Countable TaskStatus.
Proof.
  refine (inj_countable' (λ s, match s with Pending => 0 | Running => 1 | Completed => 2 | Failed => 3 | Cancelled => 4 end)
    (λ n, match n with 0 => Pending | 1 => Running | 2 => Completed | 3 => Failed | _ => Cancelled end) _). by intros [].
Defined.

#[export] Instance TaskKind_countable : Countable TaskKind.
Proof.
  refine (inj_countable' (λ k, match k with
      | TKCheck => (0, "", "") | TKBlobGc => (1, "", "") | TKRepoClean a => (2, a, "")
      | TKRebuildDirEntries => (3, "", "") | TKBulkDelete a b => (4, a, b) | TKRepoClone a b => (5, a, b) end)
    (λ '(n, a, b), match n with
      | 0 => TKCheck | 1 => TKBlobGc | 2 => TKRepoClean a | 3 => TKRebuildDirEntries
      | 4 => TKBulkDelete a b | _ => TKRepoClone a b end) _). by intros [].
Defined.

#[export] Instance TaskProgress_countable : Countable TaskProgress.
Proof.
  refine (inj_countable' (λ r, (tp_total_repos r, tp_completed_repos r, tp_total_blobs r, tp_checked_blobs r, tp_failed_blobs r, tp_bytes_read r, tp_total_bytes r, tp_total_artifacts r, tp_checked_artifacts r, tp_phase r))
    (λ '(x0, x1, x2, x3, x4, x5, x6, x7, x8, x9), mkTaskProgress x0 x1 x2 x3 x4 x5 x6 x7 x8 x9) _). by intros [].
Defined.

#[export] Instance CheckFinding_countable : Countable CheckFinding.
Proof.
  refine (inj_countable' (λ r, (cf_repo r, cf_path r, cf_expected_hash r, cf_actual_hash r, cf_error r, cf_fixed r))
    (λ '(x0, x1, x2, x3, x4, x5), mkCheckFinding x0 x1 x2 x3 x4 x5) _). by intros [].
Defined.

#[export] Instance CheckResult_countable : Countable CheckResult.
Proof.
  refine (inj_countable' (λ r, (cr_total_blobs r, cr_passed r, cr_mismatched r, cr_missing r, cr_errors r, cr_findings r, cr_bytes_read r, cr_dry_run r, cr_fixed r))
    (λ '(x0, x1, x2, x3, x4, x5, x6, x7, x8), mkCheckResult x0 x1 x2 x3 x4 x5 x6 x7 x8) _). by intros [].
Defined.

#[export] Instance GcResult_countable : Countable GcResult.
Proof.
  refine (inj_countable' (λ r, (gr_drained_repos r, gr_cleaned_upload_sessions r, gr_scanned_artifacts r, gr_expired_artifacts r, gr_docker_deleted r, gr_scanned_blobs r, gr_deleted_dedup_refs r, gr_orphaned_blobs_deleted r, gr_orphaned_blob_bytes_deleted r, gr_elapsed_ns r, gr_dry_run r))
    (λ '(x0, x1, x2, x3, x4, x5, x6, x7, x8, x9, x10), mkGcResult x0 x1 x2 x3 x4 x5 x6 x7 x8 x9 x10) _). by intros [].
Defined.

#[export] Instance RepoCleanResult_countable : Countable RepoCleanResult.
Proof.
  refine (inj_countable' (λ r, (rcr_repo r, rcr_scanned_artifacts r, rcr_expired_artifacts r, rcr_docker_deleted r, rcr_elapsed_ns r))
    (λ '(x0, x1, x2, x3, x4), mkRepoCleanResult x0 x1 x2 x3 x4) _). by intros [].
Defined.

#[export] Instance RebuildDirEntriesResult_countable : Countable RebuildDirEntriesResult.
Proof.
  refine (inj_countable' (λ r, (rdr_repos r, rdr_entries_updated r, rdr_stores_updated r, rdr_elapsed_ns r))
    (λ '(x0, x1, x2, x3), mkRebuildDirEntriesResult x0 x1 x2 x3) _). by intros [].
Defined.

#[export] Instance RepoCloneResult_countable : Countable RepoCloneResult.
Proof.
  refine (inj_countable' (λ r, (rclr_source r, rclr_target r, rclr_copied_artifacts r, rclr_copied_entries r, rclr_elapsed_ns r))
    (λ '(x0, x1, x2, x3, x4), mkRepoCloneResult x0 x1 x2 x3 x4) _). by intros [].
Defined.

#[export] Instance BulkDeleteResult_countable : Countable BulkDeleteResult.
Proof.
  refine (inj_countable' (λ r, (bdr_repo r, bdr_prefix r, bdr_deleted_artifacts r, bdr_deleted_bytes r, bdr_elapsed_ns r))
    (λ '(x0, x1, x2, x3, x4), mkBulkDeleteResult x0 x1 x2 x3 x4) _). by intros [].
Defined.

#[export] Instance TaskResult_countable : Countable TaskResult.
Proof.
  refine (inj_countable' (λ r, match r with
      | TRCheck r => inl (inl r) | TRBlobGc r => inl (inr (inl r)) | TRRepoClean r => inl (inr (inr r))
      | TRRebuildDirEntries r => inr (inl r) | TRBulkDelete r => inr (inr (inl r)) | TRRepoClone r => inr (inr (inr r)) end)
    (λ c, match c with
      | inl (inl r) => TRCheck r | inl (inr (inl r)) => TRBlobGc r | inl (inr (inr r)) => TRRepoClean r
      | inr (inl r) => TRRebuildDirEntries r | inr (inr (inl r)) => TRBulkDelete r | inr (inr (inr r)) => TRRepoClone r end) _).
  by intros [].
Defined.

#[export] Instance TaskRecord_countable : Countable TaskRecord.
Proof.
  refine (inj_countable' (λ r, (tr_schema_version r, tr_id r, tr_kind r, tr_status r, tr_created_at r, tr_started_at r, tr_completed_at r, tr_updated_at r, tr_progress r, tr_result r, tr_error r, tr_summary r, tr_owner_instance_id r, tr_deleting r, tr_event_seq r))
    (λ '(x0, x1, x2, x3, x4, x5, x6, x7, x8, x9, x10, x11, x12, x13, x14), mkTaskRecord x0 x1 x2 x3 x4 x5 x6 x7 x8 x9 x10 x11 x12 x13 x14) _). by intros [].
Defined.

#[export] Instance TaskEventRecord_countable : Countable TaskEventRecord.
Proof.
  refine (inj_countable' (λ r, (ter_schema_version r, ter_task_id r, ter_seq r, ter_timestamp r, ter_message r))
    (λ '(x0, x1, x2, x3, x4), mkTaskEventRecord x0 x1 x2 x3 x4) _). by intros [].
Defined.

Definition task_serde : Serde TaskRecord := countable_serde.
Definition event_serde : Serde TaskEventRecord := countable_serde.

Definition toy_uuid_text : UuidText := {| uuid_parse := Some; uuid_nil := "nil" |}.

Definition empty_world : world kvmap := mkWorld (∅ : kvmap) ∅ ∅ 100%Z 0 [] false.
Definition no_tasks : TaskManager := new_task_manager "node".
Definition toy_progress : TaskProgress := mkTaskProgress 0 0 10 3 0 30 100 0 0 "Counting".
Definition toy_result : TaskResult := TRRebuildDirEntries (mkRebuildDirEntriesResult 1 2 3 4).

Lemma task_lifecycle_witness :
  let _ := task_serde in let _ := event_serde in let _ := toy_uuid_text in let _ := toy_uuid in
  ∃ w', run (lifecycle TKRebuildDirEntries toy_progress ["start"; "stop"] "done" toy_result no_tasks) empty_world =
    (Some (Some (mkTaskInfo "uuid-0" TKRebuildDirEntries Completed 100%Z (Some 100%Z) (Some 100%Z) toy_progress
                   (Some toy_result) None "done" [mkTaskLogEntry 100%Z "start"; mkTaskLogEntry 100%Z "stop"]),
           own (delete "uuid-0") no_tasks), w').
Proof.
  intros ? ? ? ?.
  destruct (@task_lifecycle task_serde ltac:(done) event_serde ltac:(done) toy_uuid_text toy_uuid
    TKRebuildDirEntries toy_progress ["start"; "stop"] "done" toy_result no_tasks empty_world) as (w' & Hrun).
  - intros r. eexists. reflexivity.
  - intros i message _. eexists. reflexivity.
  - reflexivity.
  - vm_compute. reflexivity.
  - exists w'. refine (eq_trans Hrun _). reflexivity.
Defined.

Definition toy_task : TaskRecord :=
  mkTaskRecord CURRENT_RECORD_VERSION "t" TKCheck Running 1%Z (Some 2%Z) None 3%Z empty_progress None None "" "node" false 0.

Definition stored_task (r : TaskRecord) : bytes := match to_vec_named (Serde:=task_serde) r with inr b => b | inl _ => "" end.

Definition running_world : world kvmap :=
  mkWorld (<[task_key "t" := (stored_task toy_task, 1%Z)]> (∅ : kvmap)) ∅ ∅ 100%Z 0 [] false.

(** The bridge reads the running record, the task completes, the bridge then
    tries to write. *)
Lemma bridge_keeps_terminal_witness :
  let _ := task_serde in let _ := toy_uuid in
  ∃ ps' w' r', steps ([let* _ := mark_terminal "t" Completed None None no_tasks in Ret tt;
         progress_bridge "t" [(toy_progress, 5%N)] ], running_world) (ps', w') ∧
    ps' = [Ret tt; Ret tt] ∧ task_at (w_kv w') "t" = Some r' ∧ tr_status r' = Completed.
Proof.
  intros ? ?.
  pose (c := pool_run [1; 0; 0; 0; 0; 1; 1] ([let* _ := mark_terminal "t" Completed None None no_tasks in Ret tt;
         progress_bridge "t" [(toy_progress, 5%N)] ], running_world)).
  destruct (@bridge_keeps_terminal task_serde ltac:(done) toy_uuid "t" Completed None None no_tasks
    [(toy_progress, 5%N)] toy_task (stored_task toy_task) 1%Z running_world c.1 c.2) as (r' & Hr' & Hst & _).
  - intros r. eexists. reflexivity.
  - reflexivity.
  - reflexivity.
  - vm_compute. reflexivity.
  - reflexivity.
  - lia.
  - vm_compute. reflexivity.
  - rewrite <-surjective_pairing. apply pool_run_steps.
  - vm_compute. reflexivity.
  - exists c.1, c.2, r'. split; [rewrite <-surjective_pairing; apply pool_run_steps|].
    split; [vm_compute; reflexivity|]. split; [exact Hr'|exact Hst].
Defined.

Lemma delete_running_task_leaks_witness :
  let _ := task_serde in let _ := event_serde in let _ := toy_uuid in
  let tm := own <[ "t" := mkOwnedTask empty_progress false 0]> no_tasks in
  ∃ w', run (let* d := delete_task 1 "t" tm in
             let* tm := append_log "t" "still here" d.2 in
             let* tm := mark_cancelled "t" tm in
             Ret (d.1, tm)) running_world =
      (Some (true, own <[ "t" := mkOwnedTask empty_progress true 1]> tm), w') ∧
    w_kv w' !! task_key "t" = None ∧ is_Some (w_kv w' !! task_event_key "t" 0).
Proof.
  intros ? ? ? tm.
  destruct (@delete_running_task_leaks task_serde ltac:(done) event_serde toy_uuid 1 "t" toy_task
    (mkOwnedTask empty_progress false 0) "still here"
    (match to_vec_named (Serde:=event_serde) (mkTaskEventRecord CURRENT_RECORD_VERSION "t" 0 100%Z "still here")
     with inr b => b | inl _ => "" end) tm running_world) as (w' & Hrun & Hnone & Hev).
  - intros r. eexists. reflexivity.
  - reflexivity.
  - vm_compute. reflexivity.
  - reflexivity.
  - apply lookup_insert_eq.
  - reflexivity.
  - vm_compute. lia.
  - exists w'. split; [exact Hrun|]. split; [exact Hnone|]. eexists. exact Hev.
Defined.
