(* ===== verification/Auth.v ===== *)
(** * Authentication and authorisation

    core/src/auth.rs (Basic credentials, grants), the backends of
    server/src/server/auth/backend.rs (the one that reads the store and the one
    that caches), and the identity middleware and the rotation of the signing
    secret of server/src/server/auth/mod.rs.  Argon2, the JWT library and the
    moka cache are parameters.  The middleware is proved against the class
    [StoredAccounts], which both of these backends implement and the LDAP
    backend does not. *)

From S2P Require Import Prelude Bytes Errors Keys Records Kv Prog Scan Pagination Artifact Accounts.

(** The [argon2] crate: [PasswordHash::new], [verify_password], and the hash of
    the dummy password that the process computes when it starts. *)
Class Argon2 := {
  PasswordHash : Type;
  parse_hash : string → option PasswordHash;
  argon2_verify : bytes → PasswordHash → bool;
  dummy_hash : string;
}.

(** ** Shared types (core/src/auth.rs) *)

(** core/src/auth.rs:17-18 *)
Record AuthenticatedUser : Type := mkAuthenticatedUser { au_0 : string }.

(** core/src/auth.rs:24-32 *)
Definition decode_basic_auth `{Base64} (header_value : string) : option (string * string) :=
  encoded ← strip_prefix header_value "Basic ";
  decoded ← b64_decode encoded;
  s ← from_utf8 decoded;
  split_once ":" s.

(** One grant of a role. *)
Definition grant_matches (repo : string) (required : Capability) (g : CapabilityGrant) : bool :=
  bool_decide (cg_capability g = required) &&
  (bool_decide (cg_repo g = "*") || bool_decide (cg_repo g = repo)).

(** core/src/auth.rs:35-48 *)
Fixpoint check_grants (roles : list RoleRecord) (repo : string) (required : Capability) : result unit :=
  match roles with
  | [] => Err (Forbidden "access denied")
  | role :: roles =>
      if existsb (grant_matches repo required) (rr_capabilities role) then Ok tt
      else check_grants roles repo required
  end.

(** A response, as far as the callers look at it: the status, and whether a
    Basic challenge is sent. *)
(** core/src/auth.rs:57-69 *)
Definition unauthorized_response (suppress_www_authenticate : bool) : nat * bool :=
  if suppress_www_authenticate then (401, false) else (401, true).

(** core/src/auth.rs:79-85 *)
Definition map_permission_error (err : DepotError) (username : string) : nat * bool :=
  match err with
  | Forbidden _ =>
      if decide (username = "anonymous") then unauthorized_response false
      else ((into_response err).1, false)
  | _ => ((into_response err).1, false)
  end.

(** server/src/server/auth/backend.rs:60-62 *)
Definition is_admin (user : UserRecord) : bool :=
  existsb (λ r, bool_decide (r = "admin")) (ur_roles user).

(** server/src/server/auth/mod.rs:144-156 *)
Definition verify_password `{Argon2} (password : string) (hash : string) : bool :=
  match parse_hash hash with
  | Some parsed => argon2_verify password parsed
  | None => false
  end.

(** [map_err(|e| DepotError::Storage(Box::new(e), Retryability::Permanent))]. *)
Definition boxed {A} (r : result A) : result A :=
  match r with
  | Ok a => Ok a
  | Err e => Err (Storage (display_error e) Permanent)
  end.

(** ** The interface *)

(** The trait: each method may change the state of the backend (its caches). *)
(** server/src/server/auth/backend.rs:17-55 *)
Class AuthBackend (B : Type) := {
  authenticate : B → string → string → prog (result (option UserRecord) * B);
  check_permission : B → string → string → Capability → prog (result unit * B);
  require_admin : B → string → prog (result unit * B);
  resolve_user_roles : B → string → prog (result (option (UserRecord * list RoleRecord)) * B);
  lookup_user : B → string → prog (result (option UserRecord) * B);
  invalidate_user : B → string → B;
  invalidate_role : B → string → B;
  invalidate_all : B → B;
}.

(** ** The backend that reads the store *)

Section builtin.
Context `{Serde UserRecord} `{Serde RoleRecord} `{Argon2}.

(** server/src/server/auth/backend.rs:86-102 *)
Definition builtin_authenticate (username password : string) : prog (result (option UserRecord)) :=
  let*? o := get_user username in
  let '(user, hash) := match o with
    | Some u => (Some u, ur_password_hash u)
    | None => (None, dummy_hash)
    end in
  let valid := verify_password password hash in
  Ret (Ok (if valid then user else None)).

(** server/src/server/auth/backend.rs:110-123 *)
Definition builtin_check_permission (username repo : string) (required : Capability) :
    prog (result unit) :=
  let* r := get_user_with_roles username in
  let! o := boxed r in
  let! ur := ok_or o (Forbidden "access denied") in
  Ret (check_grants ur.2 repo required).

(** server/src/server/auth/backend.rs:125-137 *)
Definition builtin_require_admin (username : string) : prog (result unit) :=
  let* r := get_user username in
  let! o := boxed r in
  let! user := ok_or o (Forbidden "access denied") in
  Ret (if is_admin user then Ok tt else Err (Forbidden "access denied")).

(** server/src/server/auth/backend.rs:139-147 *)
Definition builtin_resolve_user_roles (username : string) :
    prog (result (option (UserRecord * list RoleRecord))) :=
  let* r := get_user_with_roles username in
  Ret (boxed r).

(** server/src/server/auth/backend.rs:155-160 *)
Definition builtin_lookup_user (username : string) : prog (result (option UserRecord)) :=
  let* r := get_user username in
  Ret (boxed r).

(** A method that does not touch the state of the backend. *)
Definition stateless {A} (p : prog A) : prog (A * unit) := let* a := p in Ret (a, tt).

(** server/src/server/auth/backend.rs:79-165 *)
#[export] Instance BuiltinAuthBackend : AuthBackend unit := {|
  authenticate := λ _ u p, stateless (builtin_authenticate u p);
  check_permission := λ _ u r c, stateless (builtin_check_permission u r c);
  require_admin := λ _ u, stateless (builtin_require_admin u);
  resolve_user_roles := λ _ u, stateless (builtin_resolve_user_roles u);
  lookup_user := λ _ u, stateless (builtin_lookup_user u);
  invalidate_user := λ b _, b;
  invalidate_role := λ b _, b;
  invalidate_all := λ b, b;
|}.
End builtin.

(** ** The caching backend *)

(** The [moka] cache: a look-up may find the entry gone (expired or evicted)
    and may drop others; nothing is ever invented.  [moka_entries] is what a
    look-up may still find. *)
Class MokaCache := {
  moka : Type → Type;
  moka_new : ∀ V, moka V;
  moka_get : ∀ {V}, string → moka V → option V * moka V;
  moka_insert : ∀ {V}, string → V → moka V → moka V;
  moka_invalidate : ∀ {V}, string → moka V → moka V;
  moka_invalidate_all : ∀ {V}, moka V → moka V;
  moka_entries : ∀ {V}, moka V → gmap string V;
  moka_new_entries : ∀ V, moka_entries (moka_new V) = ∅;
  moka_get_some : ∀ V k (c : moka V) v, (moka_get k c).1 = Some v → moka_entries c !! k = Some v;
  moka_get_entries : ∀ V k (c : moka V), moka_entries (moka_get k c).2 ⊆ moka_entries c;
  moka_insert_entries : ∀ V k v (c : moka V), moka_entries (moka_insert k v c) ⊆ <[k := v]> (moka_entries c);
  moka_invalidate_entries : ∀ V k (c : moka V), moka_entries (moka_invalidate k c) ⊆ delete k (moka_entries c);
  moka_invalidate_all_entries : ∀ V (c : moka V), moka_entries (moka_invalidate_all c) = ∅;
}.

Section cached.
Context `{Serde UserRecord} `{Serde RoleRecord} `{Argon2} `{MokaCache} `{Blake3}.

(** server/src/server/auth/backend.rs:217-223 *)
Record VerifiedCredential : Type := mkVerifiedCredential {
  vc_password_hash : string;
  vc_password_digest : bytes;
}.

(** server/src/server/auth/backend.rs:178-183 *)
Record CachedAuthBackend : Type := mkCachedAuthBackend {
  user_cache : moka (option UserRecord);
  role_cache : moka (option RoleRecord);
  auth_cache : moka (option VerifiedCredential);
}.

(** server/src/server/auth/backend.rs:171-194 *)
Definition cached_new : CachedAuthBackend :=
  mkCachedAuthBackend (moka_new _) (moka_new _) (moka_new _).

(** server/src/server/auth/backend.rs:197-199 *)
Definition get_cached_user (b : CachedAuthBackend) (username : string) :
    option (option UserRecord) * CachedAuthBackend :=
  let '(r, c) := moka_get username (user_cache b) in
  (r, mkCachedAuthBackend c (role_cache b) (auth_cache b)).

(** server/src/server/auth/backend.rs:201-203 *)
Definition put_cached_user (b : CachedAuthBackend) (username : string) (value : option UserRecord) :
    CachedAuthBackend :=
  mkCachedAuthBackend (moka_insert username value (user_cache b)) (role_cache b) (auth_cache b).

(** server/src/server/auth/backend.rs:205-207 *)
Definition get_cached_role (b : CachedAuthBackend) (name : string) :
    option (option RoleRecord) * CachedAuthBackend :=
  let '(r, c) := moka_get name (role_cache b) in
  (r, mkCachedAuthBackend (user_cache b) c (auth_cache b)).

(** server/src/server/auth/backend.rs:209-211 *)
Definition put_cached_role (b : CachedAuthBackend) (name : string) (value : option RoleRecord) :
    CachedAuthBackend :=
  mkCachedAuthBackend (user_cache b) (moka_insert name value (role_cache b)) (auth_cache b).

(** server/src/server/auth/backend.rs:227-241 *)
Definition resolve_user_cached (b : CachedAuthBackend) (username : string) :
    prog (result UserRecord * CachedAuthBackend) :=
  let '(c, b) := get_cached_user b username in
  match c with
  | Some maybe_user => Ret (ok_or maybe_user (Forbidden "access denied"), b)
  | None =>
      let* r := get_user username in
      match boxed r with
      | Err e => Ret (Err e, b)
      | Ok user =>
          let b := put_cached_user b username user in
          Ret (ok_or user (Forbidden "access denied"), b)
      end
  end.

(** The loop over the roles of a cached user. *)
(** server/src/server/auth/backend.rs:275-283 *)
Fixpoint cached_roles (names : list string) (roles : list RoleRecord) (uncached : list string)
    (b : CachedAuthBackend) : list RoleRecord * list string * CachedAuthBackend :=
  match names with
  | [] => (roles, uncached, b)
  | role_name :: names =>
      let '(c, b) := get_cached_role b role_name in
      match c with
      | Some (Some role) => cached_roles names (roles ++ [role]) uncached b
      | Some None => cached_roles names roles uncached b
      | None => cached_roles names roles (uncached ++ [role_name]) b
      end
  end.

(** server/src/server/auth/backend.rs:286-295 *)
Definition fetch_roles (uncached : list string) : prog (result (list (string * option RoleRecord))) :=
  try_fold uncached (λ (res : list (string * option RoleRecord)) name,
    let* r := get_role name in
    let! role := boxed r in
    Ret (Ok (res ++ [(name, role)]))) [].

(** server/src/server/auth/backend.rs:296-301 *)
Fixpoint store_fetched (fetched : list (string * option RoleRecord)) (roles : list RoleRecord)
    (b : CachedAuthBackend) : list RoleRecord * CachedAuthBackend :=
  match fetched with
  | [] => (roles, b)
  | (name, role) :: fetched =>
      let b := put_cached_role b name role in
      match role with
      | Some r => store_fetched fetched (roles ++ [r]) b
      | None => store_fetched fetched roles b
      end
  end.

(** server/src/server/auth/backend.rs:245-304 *)
Definition resolve_user_and_roles_cached (b : CachedAuthBackend) (username : string) :
    prog (result (UserRecord * list RoleRecord) * CachedAuthBackend) :=
  let '(c, b) := get_cached_user b username in
  match c with
  | Some None => Ret (Err (Forbidden "access denied"), b)
  | None =>
      let* r := get_user_with_roles username in
      match boxed r with
      | Err e => Ret (Err e, b)
      | Ok (Some (user, roles)) =>
          let b := put_cached_user b username (Some user) in
          let b := foldl (λ b role, put_cached_role b (rr_name role) (Some role)) b roles in
          Ret (Ok (user, roles), b)
      | Ok None =>
          let b := put_cached_user b username None in
          Ret (Err (Forbidden "access denied"), b)
      end
  | Some (Some user) =>
      let '(roles, uncached, b) := cached_roles (ur_roles user) [] [] b in
      if decide (uncached = []) then Ret (Ok (user, roles), b)
      else
        let* r := fetch_roles uncached in
        match r with
        | Err e => Ret (Err e, b)
        | Ok fetched =>
            let '(roles, b) := store_fetched fetched roles b in
            Ret (Ok (user, roles), b)
        end
  end.

(** The user and the hash to verify against: a cached user or a fetched one. *)
(** server/src/server/auth/backend.rs:345-364 *)
Definition user_and_hash (b : CachedAuthBackend) (username : string) :
    prog (result (option UserRecord * string) * CachedAuthBackend) :=
  let with_hash o := match o with
    | Some u => (Some u, ur_password_hash u)
    | None => (None, dummy_hash)
    end in
  let '(c, b) := get_cached_user b username in
  match c with
  | Some maybe_user => Ret (Ok (with_hash maybe_user), b)
  | None =>
      let* r := get_user username in
      match r with
      | Err e => Ret (Err e, b)
      | Ok fetched => Ret (Ok (with_hash fetched), put_cached_user b username fetched)
      end
  end.

(** The look-up in the cache of verified credentials. *)
(** server/src/server/auth/backend.rs:367-377 *)
Definition credential_hit (b : CachedAuthBackend) (username hash digest : string) :
    bool * CachedAuthBackend :=
  let '(c, a) := moka_get username (auth_cache b) in
  let b := mkCachedAuthBackend (user_cache b) (role_cache b) a in
  (match c with
   | Some (Some v) =>
       bool_decide (vc_password_hash v = hash) && bool_decide (vc_password_digest v = digest)
   | _ => false
   end, b).

(** server/src/server/auth/backend.rs:339-396 *)
Definition cached_authenticate (b : CachedAuthBackend) (username password : string) :
    prog (result (option UserRecord) * CachedAuthBackend) :=
  let* rb := user_and_hash b username in
  match rb with
  | (Err e, b) => Ret (Err e, b)
  | (Ok (user, hash), b) =>
      let digest := blake3_hash password in
      let '(hit, b) := match user with
        | Some _ => credential_hit b username hash digest
        | None => (false, b)
        end in
      if hit then Ret (Ok user, b)
      else if verify_password password hash then
        let b := match user with
          | Some _ => mkCachedAuthBackend (user_cache b) (role_cache b)
              (moka_insert username (Some (mkVerifiedCredential hash digest)) (auth_cache b))
          | None => b
          end in
        Ret (Ok user, b)
      else Ret (Ok None, b)
  end.

(** server/src/server/auth/backend.rs:404-412 *)
Definition cached_check_permission (b : CachedAuthBackend) (username repo : string)
    (required : Capability) : prog (result unit * CachedAuthBackend) :=
  let* rb := resolve_user_and_roles_cached b username in
  match rb with
  | (Err e, b) => Ret (Err e, b)
  | (Ok (_, roles), b) => Ret (check_grants roles repo required, b)
  end.

(** server/src/server/auth/backend.rs:414-421 *)
Definition cached_require_admin (b : CachedAuthBackend) (username : string) :
    prog (result unit * CachedAuthBackend) :=
  let* rb := resolve_user_cached b username in
  match rb with
  | (Err e, b) => Ret (Err e, b)
  | (Ok user, b) => Ret (if is_admin user then Ok tt else Err (Forbidden "access denied"), b)
  end.

(** server/src/server/auth/backend.rs:423-435 *)
Definition cached_resolve_user_roles (b : CachedAuthBackend) (username : string) :
    prog (result (option (UserRecord * list RoleRecord)) * CachedAuthBackend) :=
  let* rb := resolve_user_and_roles_cached b username in
  Ret (match rb.1 with
       | Ok p => Ok (Some p)
       | Err (Forbidden _) => Ok None
       | Err e => Err e
       end, rb.2).

(** server/src/server/auth/backend.rs:443-449 *)
Definition cached_lookup_user (b : CachedAuthBackend) (username : string) :
    prog (result (option UserRecord) * CachedAuthBackend) :=
  let* rb := resolve_user_cached b username in
  Ret (match rb.1 with
       | Ok user => Ok (Some user)
       | Err (Forbidden _) => Ok None
       | Err e => Err e
       end, rb.2).

(** server/src/server/auth/backend.rs:451-454 *)
Definition cached_invalidate_user (b : CachedAuthBackend) (username : string) : CachedAuthBackend :=
  mkCachedAuthBackend (moka_invalidate username (user_cache b)) (role_cache b)
    (moka_invalidate username (auth_cache b)).

(** server/src/server/auth/backend.rs:456-458 *)
Definition cached_invalidate_role (b : CachedAuthBackend) (name : string) : CachedAuthBackend :=
  mkCachedAuthBackend (user_cache b) (moka_invalidate name (role_cache b)) (auth_cache b).

(** server/src/server/auth/backend.rs:460-464 *)
Definition cached_invalidate_all (b : CachedAuthBackend) : CachedAuthBackend :=
  mkCachedAuthBackend (moka_invalidate_all (user_cache b)) (moka_invalidate_all (role_cache b))
    (moka_invalidate_all (auth_cache b)).

(** server/src/server/auth/backend.rs:331-332 *)
#[export] Instance CachedBackend : AuthBackend CachedAuthBackend := {|
  authenticate := cached_authenticate;
  check_permission := cached_check_permission;
  require_admin := cached_require_admin;
  resolve_user_roles := cached_resolve_user_roles;
  lookup_user := cached_lookup_user;
  invalidate_user := cached_invalidate_user;
  invalidate_role := cached_invalidate_role;
  invalidate_all := cached_invalidate_all;
|}.
End cached.

(** ** Tokens and the identity of a request (server/src/server/auth/mod.rs) *)

(** server/src/server/auth/mod.rs:48-59 *)
Record Claims : Type := mkClaims {
  cl_sub : string;
  cl_exp : Z;
  cl_iat : Z;
  cl_roles : list string;
}.

(** server/src/server/auth/mod.rs:64-69 *)
Record JwtSecretState : Type := mkJwtSecretState {
  js_current : bytes;
  js_previous : option bytes;
  js_rotated_at : Z;
}.

(** The [jsonwebtoken] crate with HS256 ([jwt_encode], and [jwt_decode] that
    checks the signature and the expiry), the URL-safe base64 alphabet and the
    JSON decoder, and the keyed mode of [blake3]. *)
Class Jwt := {
  jwt_encode : Claims → bytes → string + string;
  jwt_decode : string → bytes → string + Claims;
  url_b64_decode : string → option bytes;
  json_claims : bytes → option Claims;
  keyed_hash : bytes → bytes → bytes;
}.

(** [s.split(c)]. *)
Fixpoint split_char (c : ascii) (s : string) : list string :=
  match s with
  | EmptyString => [""]
  | String a s =>
      if Ascii.eqb a c then "" :: split_char c s
      else match split_char c s with
           | x :: l => String a x :: l
           | [] => [singleton_str a]
           end
  end.

(** [char::to_ascii_lowercase] on every byte. *)
Definition ascii_lower (a : ascii) : ascii :=
  if in_bytes 65 90 a then ascii_of_N (N_of_ascii a + 32) else a.
Fixpoint to_ascii_lowercase (s : string) : string :=
  match s with
  | EmptyString => EmptyString
  | String a s => String (ascii_lower a) (to_ascii_lowercase s)
  end.

Section tokens.
Context `{Jwt}.

(** server/src/server/auth/mod.rs:76-78 *)
Definition derive_signing_key (global_secret user_token_secret : bytes) : bytes :=
  keyed_hash global_secret user_token_secret.

(** [<&[u8; 32]>::try_from]. *)
Definition as_key (s : bytes) : option bytes :=
  if decide (String.length s = 32) then Some s else None.

(** [now] is [SystemTime::now()] in seconds. *)
(** server/src/server/auth/mod.rs:167-188 *)
Definition create_token (username : string) (secret : bytes) (expiry_secs : Z) (roles : list string)
    (now : Z) : string + string :=
  jwt_encode (mkClaims username (u64_add now expiry_secs) now roles) secret.

(** server/src/server/auth/mod.rs:82-94 *)
Definition create_user_token (username : string) (global_secret user_token_secret : bytes)
    (expiry_secs : Z) (roles : list string) (now : Z) : string + string :=
  match as_key global_secret with
  | None => inl "InvalidKeyFormat"
  | Some gs =>
      let key := derive_signing_key gs user_token_secret in
      create_token username key expiry_secs roles now
  end.

(** server/src/server/auth/mod.rs:99-105 *)
Definition decode_claims_unverified (token : string) : option Claims :=
  payload ← split_char "." token !! 1;
  b ← url_b64_decode payload;
  json_claims b.

(** server/src/server/auth/mod.rs:201-208 *)
Definition validate_token (token : string) (secret : bytes) : string + Claims := jwt_decode token secret.

(** server/src/server/auth/mod.rs:193-199 *)
Definition try_validate_token (token : string) (global_secret user_token_secret : bytes) : bool :=
  match as_key global_secret with
  | None => false
  | Some gs =>
      let key := derive_signing_key gs user_token_secret in
      match validate_token token key with inr _ => true | inl _ => false end
  end.

(** The token is signed with the current secret or the previous one. *)
(** server/src/server/auth/mod.rs:290-294 *)
Definition token_valid (js : JwtSecretState) (token : string) (user : UserRecord) : bool :=
  try_validate_token token (js_current js) (ur_token_secret user) ||
  match js_previous js with
  | Some prev => try_validate_token token prev (ur_token_secret user)
  | None => false
  end.

(** What the middleware decides: the request goes on under an identity, or is
    answered with a 401, with the attempted name and whether the challenge is
    suppressed. *)
Inductive identity : Type :=
| Accepted (user : AuthenticatedUser)
| Rejected (suppress_www_authenticate : bool) (attempted : string).

(** The header values are those of [HeaderValue::to_str]. *)
(** server/src/server/auth/mod.rs:235-347 *)
Definition resolve_identity `{Base64} `{AuthBackend B} (js : JwtSecretState) (b : B)
    (x_requested_with auth_header : option string) : prog (identity * B) :=
  let is_xhr := match x_requested_with with
    | Some v => bool_decide (to_ascii_lowercase v = to_ascii_lowercase "xmlhttprequest")
    | None => false
    end in
  match auth_header with
  | Some h =>
      if starts_with h "Bearer " then
        let token := default "" (strip_prefix h "Bearer ") in
        match decode_claims_unverified token with
        | None => Ret (Rejected true "unknown", b)
        | Some claims =>
            let* rb := lookup_user b (cl_sub claims) in
            match rb with
            | (Ok (Some user), b) =>
                if token_valid js token user then
                  Ret (Accepted (mkAuthenticatedUser (cl_sub claims)), b)
                else Ret (Rejected true (cl_sub claims), b)
            | (_, b) => Ret (Rejected true (cl_sub claims), b)
            end
        end
      else if starts_with h "Basic " then
        match decode_basic_auth h with
        | None => Ret (Rejected is_xhr "unknown", b)
        | Some (user, pass) =>
            let* rb := authenticate b user pass in
            match rb with
            | (Ok (Some _), b) => Ret (Accepted (mkAuthenticatedUser user), b)
            | (_, b) => Ret (Rejected is_xhr user, b)
            end
        end
      else Ret (Rejected is_xhr "unknown", b)
  | None => Ret (Accepted (mkAuthenticatedUser "anonymous"), b)
  end.

(** Whether the inner handler of [require_authenticated] runs. *)
(** server/src/server/auth/mod.rs:351-356 *)
Definition require_authenticated (user : option AuthenticatedUser) : bool :=
  match user with
  | Some u => bool_decide (au_0 u ≠ "anonymous")
  | None => false
  end.

(** One tick of the loop; [fresh] is [generate_token_secret()]. *)
(** server/src/server/auth/mod.rs:373-398 *)
Definition jwt_rotation_tick `{Serde JwtSecretState} (rotation_interval now : Z) (fresh : bytes)
    (current : JwtSecretState) : prog JwtSecretState :=
  if decide (i64_add now (i64_neg (js_rotated_at current)) < rotation_interval)%Z then Ret current
  else
    let new_state := mkJwtSecretState fresh (Some (js_current current)) now in
    match to_vec new_state with
    | inl _ => Ret current
    | inr serialized =>
        let* r := put_meta "jwt_secret" serialized in
        match r with
        | Err _ => Ret current
        | Ok _ => Ret new_state
        end
    end.
End tokens.

(** ** What the backends promise *)

Section specification.
Context `{Serde UserRecord} `{Serde RoleRecord}.
Implicit Types (m : kvmap) (w : world kvmap).

Definition record_of {T : Type} `{Serde T} (m : kvmap) (k : string * string * string) : result (option T) :=
  match m !! k with
  | Some (b, _) => match from_slice b with inr x => Ok (Some x) | inl e => Err (from_storage_error e) end
  | None => Ok None
  end.

Definition user_of (m : kvmap) (username : string) : result (option UserRecord) :=
  record_of m (user_key username).
Definition role_of (m : kvmap) (name : string) : result (option RoleRecord) :=
  record_of m (role_key name).

(** The role is granted to the user and allows the operation. *)
Definition allowed (m : kvmap) (user : UserRecord) (repo : string) (required : Capability) : Prop :=
  ∃ name role g, name ∈ ur_roles user ∧ role_of m name = Ok (Some role) ∧
    g ∈ rr_capabilities role ∧ cg_capability g = required ∧ (cg_repo g = "*" ∨ cg_repo g = repo).

(** The roles of the user can be read, and are stored under their names. *)
Definition roles_readable (m : kvmap) (user : UserRecord) : Prop :=
  ∀ name, name ∈ ur_roles user →
    ∃ o, role_of m name = Ok o ∧ ∀ role, o = Some role → rr_name role = name.

(** The decision on an operation: [access denied] unless it is allowed. *)
Definition permission_spec (m : kvmap) (username repo : string) (required : Capability)
    (r : result unit) : Prop :=
  match boxed (user_of m username) with
  | Err e => r = Err e
  | Ok None => r = Err (Forbidden "access denied")
  | Ok (Some user) =>
      (r = Ok tt → allowed m user repo required) ∧
      (roles_readable m user →
       (r = Ok tt ∧ allowed m user repo required) ∨
       (r = Err (Forbidden "access denied") ∧ ¬ allowed m user repo required))
  end.

(** The decision on an administrator's operation. *)
Definition admin_spec (m : kvmap) (username : string) (r : result unit) : Prop :=
  r = match boxed (user_of m username) with
      | Err e => Err e
      | Ok None => Err (Forbidden "access denied")
      | Ok (Some user) =>
          if decide ("admin" ∈ ur_roles user) then Ok tt else Err (Forbidden "access denied")
      end.
End specification.

(** A backend with invariant [I] between its state and the store that keeps
    the accounts in the store: it verifies a password against the stored hash,
    decides by the stored roles, and changes no record.  [same] says which
    passwords the backend may take for one another (equality, or having the
    same digest).  This is what the built-in backend and its caches do
    ([builtin_laws], [cached_laws]), not what the trait (auth/backend.rs:17-55)
    asks of every backend: the one for LDAP (auth/ldap.rs) lets the directory
    check the password and then writes the account, so it is no instance. *)
Class StoredAccounts `{Serde UserRecord} `{Serde RoleRecord} `{Argon2} `{UuidGen} (B : Type)
    `{AuthBackend B} (same : string → string → Prop) (I : B → kvmap → Prop) : Prop := {
  authenticate_law : ∀ b (w : world kvmap) u p, I b (w_kv w) →
    ∃ r b', run (authenticate b u p) w = (Some (r, b'), w) ∧ I b' (w_kv w) ∧
      match user_of (w_kv w) u with
      | Err e => r = Err e
      | Ok None => r = Ok None
      | Ok (Some user) =>
          (r = Ok (Some user) ∧ ∃ p', same p p' ∧ verify_password p' (ur_password_hash user) = true) ∨
          (r = Ok None ∧ verify_password p (ur_password_hash user) = false)
      end;
  check_permission_law : ∀ b (w : world kvmap) u repo c, I b (w_kv w) →
    ∃ r b', run (check_permission b u repo c) w = (Some (r, b'), w) ∧
      permission_spec (w_kv w) u repo c r ∧
      ((∀ user, user_of (w_kv w) u = Ok (Some user) → roles_readable (w_kv w) user) → I b' (w_kv w));
  require_admin_law : ∀ b (w : world kvmap) u, I b (w_kv w) →
    ∃ r b', run (require_admin b u) w = (Some (r, b'), w) ∧ I b' (w_kv w) ∧ admin_spec (w_kv w) u r;
  lookup_user_law : ∀ b (w : world kvmap) u, I b (w_kv w) →
    ∃ b', run (lookup_user b u) w = (Some (boxed (user_of (w_kv w) u), b'), w) ∧ I b' (w_kv w);
  invalidate_user_law : ∀ b (m m' : kvmap) u, I b m →
    (∀ k, k ≠ user_key u → m' !! k = m !! k) → I (invalidate_user b u) m';
  invalidate_role_law : ∀ b (m m' : kvmap) n, I b m →
    (∀ k, k ≠ role_key n → m' !! k = m !! k) → I (invalidate_role b n) m';
  invalidate_all_law : ∀ b (m m' : kvmap), I b m → I (invalidate_all b) m';
}.

(** ** Reading users and roles *)

Section reading.
Context `{Serde UserRecord} `{Serde RoleRecord} `{UuidGen}.
Implicit Types (m : kvmap) (w : world kvmap).

Lemma run_typed_get {T : Type} `{Serde T} (t pk sk : string) (w : world kvmap) :
  run (typed_get (T := T) t pk sk) w = (Some (record_of (w_kv w) (t, pk, sk)), w).
Proof.
  unfold typed_get, record_of. rewrite run_bind_ok, run_kv_spec. cbn [spec_store fst snd]. rewrite set_kv_id.
  destruct (w_kv w !! (t, pk, sk)) as [ [b v]|]; [|done]. cbn [fmap option_fmap option_map fst].
  by destruct (from_slice b).
Qed.

Lemma run_get_user u w : run (get_user u) w = (Some (user_of (w_kv w) u), w).
Proof. apply run_typed_get. Qed.

Lemma run_get_role n w : run (get_role n) w = (Some (role_of (w_kv w) n), w).
Proof. apply run_typed_get. Qed.

(** The roles that exist and can be read. *)
Definition found_roles (m : kvmap) (names : list string) : list RoleRecord :=
  omap (λ n, match role_of m n with Ok (Some r) => Some r | _ => None end) names.

Lemma elem_of_found_roles m names r :
  r ∈ found_roles m names ↔ ∃ n, n ∈ names ∧ role_of m n = Ok (Some r).
Proof.
  unfold found_roles. rewrite list_elem_of_omap. split.
  - intros (n & Hn & Hr). exists n. split; [done|]. by destruct (role_of m n) as [ [r'|]|]; simplify_eq.
  - intros (n & Hn & Hr). exists n. by rewrite Hr.
Qed.

Lemma run_collect_roles names roles w :
  run (collect_roles names roles) w = (Some (roles ++ found_roles (w_kv w) names), w).
Proof.
  revert roles. induction names as [|n names IH]; intros roles; cbn [collect_roles].
  - by rewrite app_nil_r.
  - rewrite run_bind, run_get_role. unfold found_roles. cbn [omap list_omap].
    destruct (role_of (w_kv w) n) as [ [r|]|e]; rewrite IH; [|done|done].
    by rewrite <-(assoc_L (++)).
Qed.

Lemma run_get_user_with_roles u w :
  run (get_user_with_roles u) w =
    (Some match user_of (w_kv w) u with
          | Ok (Some user) => Ok (Some (user, found_roles (w_kv w) (ur_roles user)))
          | Ok None => Ok None
          | Err e => Err e
          end, w).
Proof.
  unfold get_user_with_roles. rewrite run_bind_ok, run_get_user.
  destruct (user_of (w_kv w) u) as [ [user|]|e]; [|done|done].
  by rewrite run_bind, run_collect_roles.
Qed.

(** ** Grants *)

Lemma check_grants_spec roles repo c :
  (check_grants roles repo c = Ok tt ∧
   ∃ role g, role ∈ roles ∧ g ∈ rr_capabilities role ∧ grant_matches repo c g = true) ∨
  (check_grants roles repo c = Err (Forbidden "access denied") ∧
   ∀ role g, role ∈ roles → g ∈ rr_capabilities role → grant_matches repo c g = false).
Proof.
  induction roles as [|role roles IH]; cbn [check_grants].
  - right. split; [done|]. intros ? ? []%elem_of_nil.
  - destruct (existsb (grant_matches repo c) (rr_capabilities role)) eqn:E.
    + left. split; [done|]. apply existsb_exists in E as (g & Hg%list_elem_of_In & Hm).
      exists role, g. split_and!; [left|done|done].
    + destruct IH as [(Hr & role' & g & Hin & Hg & Hm)|(Hr & Hn)].
      * left. split; [done|]. exists role', g. split_and!; [by right|done|done].
      * right. split; [done|]. intros role' g [->|Hin]%elem_of_cons Hg; [|by eapply Hn].
        apply not_true_iff_false. intros Hm. apply not_true_iff_false in E. apply E.
        apply existsb_exists. exists g. split; [by apply list_elem_of_In|done].
Qed.

Lemma grant_matches_spec repo c g :
  grant_matches repo c g = true ↔ cg_capability g = c ∧ (cg_repo g = "*" ∨ cg_repo g = repo).
Proof.
  unfold grant_matches. rewrite andb_true_iff, orb_true_iff, !bool_decide_eq_true. done.
Qed.

(** A decision on all the roles of the user that can be read meets the
    specification; so does one on some of them when the user has no other. *)
Lemma check_grants_permission m u user repo c roles :
  user_of m u = Ok (Some user) →
  (∀ r, r ∈ roles → ∃ n, n ∈ ur_roles user ∧ role_of m n = Ok (Some r)) →
  (roles_readable m user → ∀ n r, n ∈ ur_roles user → role_of m n = Ok (Some r) → r ∈ roles) →
  permission_spec m u repo c (check_grants roles repo c).
Proof.
  intros Hu Hsub Hall. unfold permission_spec. rewrite Hu. cbn [boxed].
  destruct (check_grants_spec roles repo c) as [(Hr & role & g & Hin & Hg & Hm)|(Hr & Hn)]; rewrite Hr.
  - assert (allowed m user repo c) as Ha.
    { destruct (Hsub role Hin) as (n & Hn & Hro). apply grant_matches_spec in Hm as [Hc Hrepo].
      by exists n, role, g. }
    split; [done|]. intros _. by left.
  - split; [done|]. intros Hread. right. split; [done|].
    intros (n & role & g & Hin & Hro & Hg & Hc & Hrepo).
    specialize (Hn role g (Hall Hread n role Hin Hro) Hg). apply not_true_iff_false in Hn.
    by apply Hn, grant_matches_spec.
Qed.

Lemma is_admin_spec user : is_admin user = bool_decide ("admin" ∈ ur_roles user).
Proof.
  unfold is_admin. apply eq_true_iff_eq. rewrite bool_decide_eq_true, existsb_exists. split.
  - intros (r & Hr%list_elem_of_In & Heq%bool_decide_eq_true). by subst.
  - intros Hin. exists "admin". by rewrite <-list_elem_of_In, bool_decide_eq_true.
Qed.

Lemma admin_decision user :
  (if is_admin user then Ok tt else Err (Forbidden "access denied")) =
  (if decide ("admin" ∈ ur_roles user) then Ok tt else Err (Forbidden "access denied")).
Proof. rewrite is_admin_spec. case_bool_decide; by case_decide. Qed.
End reading.

(** ** The backend that reads the store keeps its promise *)

Section builtin_laws.
Context `{Serde UserRecord} `{Serde RoleRecord} `{Argon2} `{UuidGen}.

Lemma run_stateless {A} (p : prog A) (w : world kvmap) a :
  run p w = (Some a, w) → run (stateless p) w = (Some (a, tt), w).
Proof. intros Hp. unfold stateless. by rewrite run_bind, Hp. Qed.

#[export] Instance builtin_laws : StoredAccounts unit eq (λ _ _, True).
Proof.
  split; try done.
  - intros [] w u p _. cbn [authenticate BuiltinAuthBackend].
    assert (run (builtin_authenticate u p) w =
      (Some match user_of (w_kv w) u with
       | Ok (Some user) => Ok (if verify_password p (ur_password_hash user) then Some user else None)
       | Ok None => Ok None
       | Err e => Err e
       end, w)) as Hr.
    { unfold builtin_authenticate. rewrite run_bind_ok, run_get_user.
      destruct (user_of (w_kv w) u) as [ [user|]|e]; [done| |done]. cbn [run]. by case_match. }
    eexists _, tt. split; [by apply run_stateless|]. split; [done|].
    destruct (user_of (w_kv w) u) as [ [user|]|e]; [|done|done].
    destruct (verify_password p (ur_password_hash user)) eqn:Hv; [left|by right].
    split; [done|]. by exists p.
  - intros [] w u repo c _. cbn [check_permission BuiltinAuthBackend].
    eexists _, tt. split; [apply run_stateless|split; [|done] ].
    { unfold builtin_check_permission. rewrite run_bind, run_get_user_with_roles.
      instantiate (1 := match boxed (user_of (w_kv w) u) with
        | Ok (Some user) => check_grants (found_roles (w_kv w) (ur_roles user)) repo c
        | Ok None => Err (Forbidden "access denied") | Err e => Err e end).
      by destruct (user_of (w_kv w) u) as [ [user|]|e]. }
    destruct (user_of (w_kv w) u) as [ [user|]|e] eqn:Hu; cbn [boxed].
    + apply (check_grants_permission _ _ user); [done| |].
      * intros r. apply elem_of_found_roles.
      * intros _ n r Hn Hr. apply elem_of_found_roles. by exists n.
    + unfold permission_spec. by rewrite Hu.
    + unfold permission_spec. by rewrite Hu.
  - intros [] w u _. cbn [require_admin BuiltinAuthBackend].
    eexists _, tt. split; [apply run_stateless|split; [done|reflexivity] ].
    unfold builtin_require_admin. rewrite run_bind, run_get_user.
    destruct (user_of (w_kv w) u) as [ [user|]|e]; cbn; [|done|done]. by rewrite admin_decision.
  - intros [] w u _. exists tt. split; [|done]. apply run_stateless.
    unfold builtin_lookup_user. by rewrite run_bind, run_get_user.
Qed.
End builtin_laws.

(** ** The caching backend keeps its promise *)

Section cached_laws.
Context `{Serde UserRecord} `{Serde RoleRecord} `{Argon2} `{MokaCache} `{Blake3} `{UuidGen}.
Implicit Types (m : kvmap) (w : world kvmap) (b : CachedAuthBackend).

(** Two passwords the cache cannot tell apart. *)
Definition same_digest (p p' : string) : Prop := blake3_hash p = blake3_hash p'.

(** What the caches may still answer is what the store holds, and a verified
    credential stands for a password that was verified. *)
Definition coherent (b : CachedAuthBackend) (m : kvmap) : Prop :=
  (∀ u x, moka_entries (user_cache b) !! u = Some x → user_of m u = Ok x) ∧
  (∀ n x, moka_entries (role_cache b) !! n = Some x → role_of m n = Ok x) ∧
  (∀ u v, moka_entries (auth_cache b) !! u = Some (Some v) →
     ∃ p, blake3_hash p = vc_password_digest v ∧ verify_password p (vc_password_hash v) = true).

Lemma get_cached_user_spec b m u c b' :
  coherent b m → get_cached_user b u = (c, b') →
  coherent b' m ∧ ∀ x, c = Some x → user_of m u = Ok x.
Proof.
  intros (Hu & Hr & Ha). unfold get_cached_user. destruct (moka_get u (user_cache b)) as [r c'] eqn:E.
  intros [= <- <-]. split.
  - split_and!; [|done|done]. intros k x Hk. apply Hu.
    apply (lookup_weaken _ _ _ _ Hk). replace c' with (moka_get u (user_cache b)).2 by by rewrite E.
    apply moka_get_entries.
  - intros x ->. apply Hu, moka_get_some. by rewrite E.
Qed.

Lemma get_cached_role_spec b m n c b' :
  coherent b m → get_cached_role b n = (c, b') →
  coherent b' m ∧ ∀ x, c = Some x → role_of m n = Ok x.
Proof.
  intros (Hu & Hr & Ha). unfold get_cached_role. destruct (moka_get n (role_cache b)) as [r c'] eqn:E.
  intros [= <- <-]. split.
  - split_and!; [done| |done]. intros k x Hk. apply Hr.
    apply (lookup_weaken _ _ _ _ Hk). replace c' with (moka_get n (role_cache b)).2 by by rewrite E.
    apply moka_get_entries.
  - intros x ->. apply Hr, moka_get_some. by rewrite E.
Qed.

Lemma moka_insert_lookup {V} k (v : V) (c : moka V) k' x :
  moka_entries (moka_insert k v c) !! k' = Some x →
  (k' = k ∧ x = v) ∨ (k' ≠ k ∧ moka_entries c !! k' = Some x).
Proof.
  intros Hk. pose proof (lookup_weaken _ _ _ _ Hk (moka_insert_entries _ _ _ _)) as Hi.
  apply lookup_insert_Some in Hi as [ [-> ->]|[? ?] ]; [by left|right]. by split.
Qed.

Lemma put_cached_user_coherent b m u x :
  coherent b m → user_of m u = Ok x → coherent (put_cached_user b u x) m.
Proof.
  intros (Hu & Hr & Ha) Hx. split_and!; [|done|done]. intros u' x' Hk.
  apply moka_insert_lookup in Hk as [ [-> ->]|[_ ?] ]; [done|by apply Hu].
Qed.

Lemma put_cached_role_coherent b m n x :
  coherent b m → role_of m n = Ok x → coherent (put_cached_role b n x) m.
Proof.
  intros (Hu & Hr & Ha) Hx. split_and!; [done| |done]. intros n' x' Hk.
  apply moka_insert_lookup in Hk as [ [-> ->]|[_ ?] ]; [done|by apply Hr].
Qed.

Lemma run_resolve_user_cached b w u :
  coherent b (w_kv w) →
  ∃ b', run (resolve_user_cached b u) w =
    (Some (match boxed (user_of (w_kv w) u) with
           | Ok (Some user) => Ok user
           | Ok None => Err (Forbidden "access denied")
           | Err e => Err e
           end, b'), w) ∧ coherent b' (w_kv w).
Proof.
  intros Hc. unfold resolve_user_cached. destruct (get_cached_user b u) as [c b1] eqn:E.
  apply (get_cached_user_spec _ (w_kv w)) in E as [Hc1 Hx]; [|done]. destruct c as [x|].
  - exists b1. rewrite (Hx x eq_refl). split; [|done]. by destruct x.
  - rewrite run_bind, run_get_user. destruct (user_of (w_kv w) u) as [x|e] eqn:Hu; cbn [boxed].
    + eexists. split; [|by apply put_cached_user_coherent]. by destruct x.
    + by exists b1.
Qed.

(** The roles of a cached user: those in the cache, and the names to fetch. *)
Lemma cached_roles_spec m names roles uncached b roles' uncached' b' :
  coherent b m → cached_roles names roles uncached b = (roles', uncached', b') →
  coherent b' m ∧
  (∀ r, r ∈ roles' → r ∈ roles ∨ ∃ n, n ∈ names ∧ role_of m n = Ok (Some r)) ∧
  (∀ n, n ∈ uncached' → n ∈ uncached ∨ n ∈ names) ∧
  (∀ r, r ∈ roles → r ∈ roles') ∧ (∀ n, n ∈ uncached → n ∈ uncached') ∧
  (∀ n r, n ∈ names → role_of m n = Ok (Some r) → r ∈ roles' ∨ n ∈ uncached').
Proof.
  revert roles uncached b. induction names as [|n names IH]; intros roles uncached b Hc; cbn [cached_roles].
  - intros [= <- <- <-]. split_and!; [done|by left|by left|done|done|]. by intros ? ? []%elem_of_nil.
  - destruct (get_cached_role b n) as [c b1] eqn:E.
    apply (get_cached_role_spec _ m) in E as [Hc1 Hx]; [|done].
    destruct c as [ [role|]|]; intros Heq; apply IH in Heq as (? & Hr & Hn & Hrk & Hnk & Hall); try done.
    all: split_and!; [done| | | | |].
    (* the role is in the cache *)
    + intros r Hin. destruct (Hr r Hin) as [ [?|Heq%list_elem_of_singleton]%elem_of_app|(n' & ? & ?)].
      * by left.
      * right. exists n. subst. split; [left|by apply Hx].
      * right. exists n'. split; [by right|done].
    + intros n' Hin. destruct (Hn n' Hin); [by left|right; by right].
    + intros r Hin. apply Hrk, elem_of_app. by left.
    + done.
    + intros n' r [->|Hin]%elem_of_cons Hro; [|by eapply Hall].
      left. rewrite (Hx _ eq_refl) in Hro. simplify_eq. apply Hrk, elem_of_app. right. by apply list_elem_of_singleton.
    (* it is known not to exist *)
    + intros r Hin. destruct (Hr r Hin) as [?|(n' & ? & ?)]; [by left|].
      right. exists n'. split; [by right|done].
    + intros n' Hin. destruct (Hn n' Hin); [by left|right; by right].
    + done.
    + done.
    + intros n' r [->|Hin]%elem_of_cons Hro; [|by eapply Hall]. specialize (Hx _ eq_refl). congruence.
    (* it is not in the cache *)
    + intros r Hin. destruct (Hr r Hin) as [?|(n' & ? & ?)]; [by left|].
      right. exists n'. split; [by right|done].
    + intros n' Hin. destruct (Hn n' Hin) as [ [?|Heq%list_elem_of_singleton]%elem_of_app|?].
      * by left.
      * right. subst. left.
      * right. by right.
    + done.
    + intros n' Hin. apply Hnk, elem_of_app. by left.
    + intros n' r [->|Hin]%elem_of_cons Hro; [|by eapply Hall].
      right. apply Hnk, elem_of_app. right. by apply list_elem_of_singleton.
Qed.

Lemma run_fetch_roles names w :
  ∃ r, run (fetch_roles names) w = (Some r, w) ∧
    match r with
    | Ok fetched => fetched.*1 = names ∧
        ∀ n o, (n, o) ∈ fetched → role_of (w_kv w) n = Ok o
    | Err e => ∃ n e', n ∈ names ∧ role_of (w_kv w) n = Err e'
    end.
Proof.
  unfold fetch_roles.
  cut (∀ res : list (string * option RoleRecord),
    (∀ n o, (n, o) ∈ res → role_of (w_kv w) n = Ok o) →
    ∃ r, run (try_fold names (λ (res : list (string * option RoleRecord)) name,
      let* r := get_role name in let! role := boxed r in Ret (Ok (res ++ [(name, role)]))) res) w = (Some r, w) ∧
    match r with
    | Ok fetched => fetched.*1 = res.*1 ++ names ∧
        ∀ n o, (n, o) ∈ fetched → role_of (w_kv w) n = Ok o
    | Err e => ∃ n e', n ∈ names ∧ role_of (w_kv w) n = Err e'
    end).
  { intros Hcut. apply (Hcut []). by intros ? ? []%elem_of_nil. }
  induction names as [|n names IH]; intros res Hres; cbn [try_fold].
  - exists (Ok res). split; [done|]. by rewrite app_nil_r.
  - rewrite run_bind_ok, run_bind, run_get_role.
    destruct (role_of (w_kv w) n) as [o|e] eqn:Hn; cbn [boxed try_ run].
    + destruct (IH (res ++ [(n, o)])) as (r & Hr & Hspec).
      { intros n' o' [?|Heq%list_elem_of_singleton]%elem_of_app; [by apply Hres|]. by simplify_eq. }
      exists r. split; [done|]. destruct r as [fetched|e].
      * destruct Hspec as [-> ?]. split; [|done]. by rewrite fmap_app, <-(assoc_L (++)).
      * destruct Hspec as (n' & e' & ? & ?). exists n', e'. split; [by right|done].
    + eexists. split; [done|]. exists n, e. split; [left|done].
Qed.

Lemma store_fetched_spec m fetched roles b :
  coherent b m → (∀ n o, (n, o) ∈ fetched → role_of m n = Ok o) →
  coherent (store_fetched fetched roles b).2 m ∧
  (store_fetched fetched roles b).1 = roles ++ omap snd fetched.
Proof.
  revert roles b. induction fetched as [|[n o] fetched IH]; intros roles b Hc Hf; cbn [store_fetched].
  - by rewrite app_nil_r.
  - assert (coherent (put_cached_role b n o) m) as Hc1
      by (apply put_cached_role_coherent; [done|apply Hf; left]).
    destruct o as [r|].
    + destruct (IH (roles ++ [r]) _ Hc1) as [? Heq]; [intros; apply Hf; by right|].
      split; [done|]. by rewrite Heq, <-(assoc_L (++)).
    + apply IH; [done|]. intros; apply Hf; by right.
Qed.

(** What [resolve_user_and_roles_cached] returns. *)
Lemma run_resolve_user_and_roles_cached b w u :
  coherent b (w_kv w) →
  ∃ r b', run (resolve_user_and_roles_cached b u) w = (Some (r, b'), w) ∧
    ((∀ user, user_of (w_kv w) u = Ok (Some user) → roles_readable (w_kv w) user) → coherent b' (w_kv w)) ∧
    match boxed (user_of (w_kv w) u) with
    | Err e => r = Err e
    | Ok None => r = Err (Forbidden "access denied")
    | Ok (Some user) =>
        match r with
        | Ok (user', roles) => user' = user ∧
            (∀ r, r ∈ roles → ∃ n, n ∈ ur_roles user ∧ role_of (w_kv w) n = Ok (Some r)) ∧
            (∀ n r, n ∈ ur_roles user → role_of (w_kv w) n = Ok (Some r) → r ∈ roles)
        | Err e => ¬ roles_readable (w_kv w) user
        end
    end.
Proof.
  intros Hc. unfold resolve_user_and_roles_cached. destruct (get_cached_user b u) as [c b1] eqn:E.
  apply (get_cached_user_spec _ (w_kv w)) in E as [Hc1 Hx]; [|done]. destruct c as [ [user|]|].
  - rewrite (Hx _ eq_refl). cbn [boxed].
    destruct (cached_roles (ur_roles user) [] [] b1) as [ [roles uncached] b2] eqn:E2.
    apply (cached_roles_spec (w_kv w)) in E2 as (Hc2 & Hr & Hn & _ & _ & Hall); [|done].
    case_decide as Hnil.
    + subst. exists (Ok (user, roles)), b2. split_and!; [done|done|done| |].
      * intros r Hin. destruct (Hr r Hin) as [ []%elem_of_nil|?]. done.
      * intros n r Hin Hro. by destruct (Hall n r Hin Hro) as [?|[]%elem_of_nil].
    + rewrite run_bind. destruct (run_fetch_roles uncached w) as (res & Hres & Hspec).
      rewrite Hres. destruct res as [fetched|e].
      * destruct Hspec as [Hnames Hf].
        destruct (store_fetched_spec (w_kv w) fetched roles b2 Hc2 Hf) as [Hc3 Hroles].
        destruct (store_fetched fetched roles b2) as [roles' b3]. cbn [fst snd] in *. subst roles'.
        eexists (Ok (user, _)), b3. split_and!; [done|done|done| |].
        -- intros r [Hin|Hin]%elem_of_app.
           { destruct (Hr r Hin) as [ []%elem_of_nil|?]. done. }
           apply list_elem_of_omap in Hin as ([n o] & Hin & Ho). cbn in Ho. subst o.
           exists n. split; [|by apply Hf]. destruct (Hn n) as [ []%elem_of_nil|?]; [|done].
           rewrite <-Hnames. by apply (list_elem_of_fmap_2' fst _ _ _ Hin).
        -- intros n r Hin Hro. apply elem_of_app. destruct (Hall n r Hin Hro) as [?|Hu]; [by left|right].
           rewrite <-Hnames in Hu. apply list_elem_of_fmap in Hu as ([n' o] & -> & Ho).
           apply list_elem_of_omap. exists (n', o). split; [done|].
           specialize (Hf n' o Ho). cbn in *. congruence.
      * exists (Err e), b2. split_and!; [done|done|]. destruct Hspec as (n & e' & Hin & He).
        intros Hread. destruct (Hn n Hin) as [ []%elem_of_nil|Hin'].
        destruct (Hread n Hin') as (o & Ho & _). congruence.
  - rewrite (Hx _ eq_refl). cbn [boxed]. by eexists _, b1.
  - rewrite run_bind, run_get_user_with_roles.
    destruct (user_of (w_kv w) u) as [ [user|]|e] eqn:Hu; cbn [boxed].
    + eexists (Ok (user, _)), _. split; [done|]. split.
      * intros Hread. specialize (Hread user eq_refl).
        assert (coherent (put_cached_user b1 u (Some user)) (w_kv w)) as Hc2 by by apply put_cached_user_coherent.
        assert (∀ r, r ∈ found_roles (w_kv w) (ur_roles user) → role_of (w_kv w) (rr_name r) = Ok (Some r)) as Hf.
        { intros r (n & Hin & Hro)%elem_of_found_roles. destruct (Hread n Hin) as (o & Ho & Hname).
          rewrite Hro in Ho. simplify_eq. by rewrite (Hname r eq_refl). }
        revert Hf. generalize (found_roles (w_kv w) (ur_roles user)). intros roles. revert Hc2.
        generalize (put_cached_user b1 u (Some user)). induction roles as [|r roles IH]; intros b2 Hc2 Hf; [done|].
        cbn [foldl]. apply IH; [|intros; apply Hf; by right].
        apply put_cached_role_coherent; [done|apply Hf; left].
      * split_and!; [done| |].
        -- intros r. apply elem_of_found_roles.
        -- intros n r Hn Hr. apply elem_of_found_roles. by exists n.
    + eexists _, _. split; [done|]. split; [|done]. intros _. by apply put_cached_user_coherent.
    + by eexists _, b1.
Qed.

Lemma run_user_and_hash b w u :
  coherent b (w_kv w) →
  ∃ b', run (user_and_hash b u) w =
    (Some (match user_of (w_kv w) u with
           | Ok (Some user) => Ok (Some user, ur_password_hash user)
           | Ok None => Ok (None, dummy_hash)
           | Err e => Err e
           end, b'), w) ∧ coherent b' (w_kv w).
Proof.
  intros Hc. unfold user_and_hash. destruct (get_cached_user b u) as [c b1] eqn:E.
  apply (get_cached_user_spec _ (w_kv w)) in E as [Hc1 Hx]; [|done]. destruct c as [x|].
  - exists b1. rewrite (Hx x eq_refl). split; [|done]. by destruct x.
  - rewrite run_bind, run_get_user. destruct (user_of (w_kv w) u) as [x|e] eqn:Hu.
    + eexists. split; [|by apply put_cached_user_coherent]. by destruct x.
    + by exists b1.
Qed.

Lemma credential_hit_spec b m u hash digest hit b' :
  coherent b m → credential_hit b u hash digest = (hit, b') →
  coherent b' m ∧ (hit = true → ∃ p, blake3_hash p = digest ∧ verify_password p hash = true).
Proof.
  intros (Hu & Hr & Ha). unfold credential_hit. destruct (moka_get u (auth_cache b)) as [r c'] eqn:E.
  intros [= <- <-]. split.
  - split_and!; [done|done|]. intros k v Hk. apply (Ha k v).
    apply (lookup_weaken _ _ _ _ Hk). replace c' with (moka_get u (auth_cache b)).2 by by rewrite E.
    apply moka_get_entries.
  - destruct r as [ [v|]|]; [|done|done].
    intros [Hh%bool_decide_eq_true Hd%bool_decide_eq_true]%andb_true_iff. subst.
    apply (Ha u), moka_get_some. by rewrite E.
Qed.

Lemma remember_coherent b m u p hash :
  coherent b m → verify_password p hash = true →
  coherent (mkCachedAuthBackend (user_cache b) (role_cache b)
    (moka_insert u (Some (mkVerifiedCredential hash (blake3_hash p))) (auth_cache b))) m.
Proof.
  intros (Hu & Hr & Ha) Hv. split_and!; [done|done|]. intros u' v Hk.
  apply moka_insert_lookup in Hk as [ [-> [= ->] ]|[_ ?] ]; [by exists p|by eapply Ha].
Qed.

Lemma cached_authenticate_spec b w u p :
  coherent b (w_kv w) →
  ∃ r b', run (cached_authenticate b u p) w = (Some (r, b'), w) ∧ coherent b' (w_kv w) ∧
    match user_of (w_kv w) u with
    | Err e => r = Err e
    | Ok None => r = Ok None
    | Ok (Some user) =>
        (r = Ok (Some user) ∧ ∃ p', same_digest p p' ∧ verify_password p' (ur_password_hash user) = true) ∨
        (r = Ok None ∧ verify_password p (ur_password_hash user) = false)
    end.
Proof.
  intros Hc. unfold cached_authenticate. rewrite run_bind.
  destruct (run_user_and_hash b w u Hc) as (b1 & Hr & Hc1). rewrite Hr. clear Hr.
  destruct (user_of (w_kv w) u) as [ [user|]|e]; [| |by eexists _, b1].
  - destruct (credential_hit b1 u (ur_password_hash user) (blake3_hash p)) as [hit b2] eqn:E.
    apply (credential_hit_spec _ (w_kv w)) in E as [Hc2 Hhit]; [|done]. destruct hit.
    + eexists _, b2. split_and!; [done|done|]. left. split; [done|].
      destruct (Hhit eq_refl) as (p' & Hp & Hv). by exists p'.
    + destruct (verify_password p (ur_password_hash user)) eqn:Hv.
      * eexists _, _. split; [done|]. split; [by apply remember_coherent|].
        left. split; [done|]. by exists p.
      * eexists _, b2. split_and!; [done|done|]. by right.
  - destruct (verify_password p dummy_hash); by eexists _, b1.
Qed.

Lemma coherent_invalidate_user b m m' u :
  coherent b m → (∀ k, k ≠ user_key u → m' !! k = m !! k) → coherent (cached_invalidate_user b u) m'.
Proof.
  intros (Hu & Hr & Ha) Hm. split_and!.
  - intros u' x Hk. pose proof (lookup_weaken _ _ _ _ Hk (moka_invalidate_entries _ _ _)) as Hk'. clear Hk. rename Hk' into Hk.
    apply lookup_delete_Some in Hk as [Hne Hk]. specialize (Hu u' x Hk). revert Hu.
    unfold user_of, record_of. by rewrite Hm by (unfold user_key, role_key; congruence).
  - intros n x Hk. specialize (Hr n x Hk). revert Hr. unfold role_of, record_of. by rewrite Hm.
  - intros u' v Hk. pose proof (lookup_weaken _ _ _ _ Hk (moka_invalidate_entries _ _ _)) as Hk'. clear Hk. rename Hk' into Hk.
    apply lookup_delete_Some in Hk as [_ Hk]. by eapply Ha.
Qed.

Lemma coherent_invalidate_role b m m' n :
  coherent b m → (∀ k, k ≠ role_key n → m' !! k = m !! k) → coherent (cached_invalidate_role b n) m'.
Proof.
  intros (Hu & Hr & Ha) Hm. split_and!; [| |done].
  - intros u x Hk. specialize (Hu u x Hk). revert Hu. unfold user_of, record_of. by rewrite Hm.
  - intros n' x Hk. pose proof (lookup_weaken _ _ _ _ Hk (moka_invalidate_entries _ _ _)) as Hk'. clear Hk. rename Hk' into Hk.
    apply lookup_delete_Some in Hk as [Hne Hk]. specialize (Hr n' x Hk). revert Hr.
    unfold role_of, record_of. by rewrite Hm by (unfold user_key, role_key; congruence).
Qed.

#[export] Instance cached_laws : StoredAccounts CachedAuthBackend same_digest coherent.
Proof.
  split.
  - intros. by apply cached_authenticate_spec.
  - intros b w u repo c Hc. cbn [check_permission CachedBackend]. unfold cached_check_permission.
    destruct (run_resolve_user_and_roles_cached b w u Hc) as (r & b' & Hr & Hc' & Hspec).
    rewrite run_bind, Hr. destruct (user_of (w_kv w) u) as [ [user|]|e] eqn:Hu; cbn [boxed] in Hspec.
    + destruct r as [ [user' roles]|e].
      * eexists _, b'. split_and!; [done| |exact Hc'].
        destruct Hspec as (-> & Hsub & Hall). by apply (check_grants_permission _ _ user).
      * eexists _, b'. split_and!; [done| |exact Hc'].
        unfold permission_spec. rewrite Hu. cbn [boxed]. by split.
    + subst. eexists _, b'. split_and!; [done| |exact Hc']. unfold permission_spec. by rewrite Hu.
    + subst. eexists _, b'. split_and!; [done| |exact Hc']. unfold permission_spec. by rewrite Hu.
  - intros b w u Hc. cbn [require_admin CachedBackend]. unfold cached_require_admin.
    destruct (run_resolve_user_cached b w u Hc) as (b' & Hr & Hc'). rewrite run_bind, Hr. unfold admin_spec.
    destruct (boxed (user_of (w_kv w) u)) as [ [user|]|e]; eexists _, b'; split_and!; try done.
    by rewrite admin_decision.
  - intros b w u Hc. cbn [lookup_user CachedBackend]. unfold cached_lookup_user.
    destruct (run_resolve_user_cached b w u Hc) as (b' & Hr & Hc'). rewrite run_bind, Hr. exists b'.
    split; [|done]. by destruct (user_of (w_kv w) u) as [ [user|]|e].
  - intros. by eapply coherent_invalidate_user.
  - intros. by eapply coherent_invalidate_role.
  - intros b m m' _. cbn [invalidate_all CachedBackend]. unfold coherent. cbn [user_cache role_cache auth_cache cached_invalidate_all].
    rewrite !moka_invalidate_all_entries. split_and!; intros ? ?; by rewrite lookup_empty.
Qed.

Lemma cached_new_coherent m : coherent cached_new m.
Proof.
  unfold coherent. cbn [user_cache role_cache auth_cache cached_new].
  rewrite !moka_new_entries. split_and!; intros ? ?; by rewrite lookup_empty.
Qed.
End cached_laws.

(** ** Properties *)

Section properties.
Context `{Serde UserRecord} `{Serde RoleRecord} `{Argon2} `{MokaCache} `{Blake3} `{UuidGen}.
Implicit Types (m : kvmap) (w : world kvmap) (b : CachedAuthBackend).

(** When the roles can be read there is one answer. *)
Lemma permission_spec_unique m u repo c r1 r2 :
  (∀ user, user_of m u = Ok (Some user) → roles_readable m user) →
  permission_spec m u repo c r1 → permission_spec m u repo c r2 → r1 = r2.
Proof.
  unfold permission_spec. intros Hread. destruct (user_of m u) as [ [user|]|e]; cbn [boxed]; [|by intros -> ->..].
  intros [_ H1'] [_ H2']. specialize (Hread user eq_refl).
  destruct (H1' Hread) as [ [-> Ha]|[-> Ha] ], (H2' Hread) as [ [-> Hb]|[-> Hb] ]; done.
Qed.


(** A change of an account takes effect at once.  After a write to a user's
    record and the invalidation of that user, and likewise for a role, the
    caches agree with the new store, so that the next password check is one
    against the new hash: it succeeds only for a password the new hash
    verifies (up to a collision of the digests), even if the old password was
    remembered as verified. *)
Theorem invalidate_user_takes_effect b m u user' w p :
  coherent b m → (∀ k, k ≠ user_key u → w_kv w !! k = m !! k) →
  user_of (w_kv w) u = Ok (Some user') →
  ∃ r b', run (cached_authenticate (cached_invalidate_user b u) u p) w = (Some (r, b'), w) ∧
    coherent b' (w_kv w) ∧
    ((r = Ok (Some user') ∧ ∃ p', same_digest p p' ∧ verify_password p' (ur_password_hash user') = true) ∨
     (r = Ok None ∧ verify_password p (ur_password_hash user') = false)).
Proof.
  intros Hc Hm Hu.
  destruct (authenticate_law _ w u p (coherent_invalidate_user b m (w_kv w) u Hc Hm)) as (r & b' & Hr & Hc' & Hspec).
  exists r, b'. rewrite Hu in Hspec. by split_and!.
Qed.
End properties.

Section identity_property.
Context `{Serde UserRecord} `{Serde RoleRecord} `{Argon2} `{UuidGen} `{Jwt} `{Base64}.
Context {B : Type} `{AuthBackend B} (same : string → string → Prop) (I : B → kvmap → Prop).
Context `{laws : !StoredAccounts B same I}.
Implicit Types (w : world kvmap).

(** C35: Whoever a request is attributed to has proved it.  Over a backend that
    keeps the accounts in the store ([StoredAccounts]: the built-in backend,
    with or without its caches; not LDAP, where the directory verifies the
    password), the middleware lets a request through in three cases only: with
    no credentials, as [anonymous]; with a Basic password that verifies against
    the stored hash of the named user; with a token whose signature checks
    under the key derived from the current or the previous global secret and
    the secret that the user it names has now in the store (so that deleting
    the user or changing that secret revokes it). *)
Theorem resolve_identity_sound js b xrw auth w :
  I b (w_kv w) →
  ∃ i b', run (resolve_identity js b xrw auth) w = (Some (i, b'), w) ∧ I b' (w_kv w) ∧
    ∀ name, i = Accepted (mkAuthenticatedUser name) →
      (auth = None ∧ name = "anonymous") ∨
      (∃ encoded b user p p', auth = Some ("Basic " +:+ encoded) ∧ b64_decode encoded = Some b ∧
         split_once ":" b = Some (name, p) ∧ user_of (w_kv w) name = Ok (Some user) ∧
         same p p' ∧ verify_password p' (ur_password_hash user) = true) ∨
      (∃ token claims user, auth = Some ("Bearer " +:+ token) ∧
         decode_claims_unverified token = Some claims ∧ cl_sub claims = name ∧
         user_of (w_kv w) name = Ok (Some user) ∧
         ∃ secret, (secret = js_current js ∨ Some secret = js_previous js) ∧
           String.length secret = 32 ∧
           is_Some (match validate_token token (derive_signing_key secret (ur_token_secret user)) with
                    | inr c => Some c | inl _ => None end)).
Proof using All.
  intros HI. unfold resolve_identity. destruct auth as [h|].
  2:{ eexists _, b. split_and!; [done|done|]. intros name [= <-]. by left. }
  destruct (starts_with h "Bearer ") eqn:Hb; [|destruct (starts_with h "Basic ") eqn:Hba].
  - apply starts_with_spec in Hb as [token ->].
    rewrite (proj2 (strip_prefix_spec _ _ _) eq_refl). change (default "" (Some token)) with token.
    destruct (decode_claims_unverified token) as [claims|] eqn:Hcl; [|by eexists _, b].
    rewrite run_bind. destruct (lookup_user_law b w (cl_sub claims) HI) as (b' & Hr & HI'). rewrite Hr.
    destruct (user_of (w_kv w) (cl_sub claims)) as [ [user|]|e] eqn:Hu; cbn [boxed]; [|by eexists _, b'..].
    destruct (token_valid js token user) eqn:Hv; [|by eexists _, b'].
    eexists _, b'. split_and!; [done|done|]. intros name [= <-]. right; right.
    exists token, claims, user. split_and!; [done|done|done|done|].
    apply orb_true_iff in Hv as [Hv|Hv].
    + exists (js_current js). unfold try_validate_token, as_key in Hv. case_decide; [|done].
      split_and!; [by left|done|]. by case_match.
    + destruct (js_previous js) as [prev|]; [|done]. exists prev.
      unfold try_validate_token, as_key in Hv. case_decide; [|done].
      split_and!; [by right|done|]. by case_match.
  - apply starts_with_spec in Hba as [encoded ->]. unfold decode_basic_auth.
    rewrite (proj2 (strip_prefix_spec _ _ _) eq_refl). cbn [mbind option_bind].
    destruct (b64_decode encoded) as [s|] eqn:Hs; [|by eexists _, b]. cbn [mbind option_bind].
    unfold from_utf8. destruct (valid_utf8 s); [|by eexists _, b]. cbn [mbind option_bind].
    destruct (split_once ":" s) as [ [user pass]|] eqn:Hsp; [|by eexists _, b].
    rewrite run_bind. destruct (authenticate_law b w user pass HI) as (r & b' & Hr & HI' & Hspec). rewrite Hr.
    destruct r as [ [rec|]|e]; [|by eexists _, b'..].
    eexists _, b'. split_and!; [done|done|]. intros name [= <-]. right; left.
    destruct (user_of (w_kv w) user) as [ [rec'|]|e]; [|done|done].
    destruct Hspec as [ [ [= ->] (p' & Hp & Hv)]|[? _] ]; [|done].
    by exists encoded, s, rec', pass, p'.
  - by eexists _, b.
Qed.
End identity_property.

(** ** Witnesses *)

Definition toy_argon2 : Argon2 := {|
  PasswordHash := string;
  parse_hash := Some;
  argon2_verify := λ p h, bool_decide (p = h);
  dummy_hash := "dummy";
|}.

#[program] Definition toy_moka : MokaCache := {|
  moka := gmap string;
  moka_new := λ V, ∅;
  moka_get := λ V k c, (c !! k, c);
  moka_insert := λ V k v c, <[k := v]> c;
  moka_invalidate := λ V k c, delete k c;
  moka_invalidate_all := λ V c, ∅;
  moka_entries := λ V c, c;
|}.
Solve Obligations with done.

Definition toy_user (hash : string) : UserRecord :=
  mkUserRecord 1 "alice" hash ["dev"] default_auth_source "secret" false 0%Z 0%Z.

Definition toy_role : RoleRecord :=
  mkRoleRecord 1 "dev" "developers" [mkCapabilityGrant CapRead "*"] 0%Z 0%Z.

Definition toy_ur_serde : Serde UserRecord := table_serde [toy_user "old"; toy_user "new"].
Definition toy_rr_serde : Serde RoleRecord := table_serde [toy_role].

Definition toy_accounts (user : bytes) : kvmap :=
  list_to_map [(user_key "alice", (user, 1%Z)); (role_key "dev", ("0", 1%Z))].

(** The backend after a successful login of alice. *)
Definition toy_cached : @CachedAuthBackend toy_moka :=
  @mkCachedAuthBackend toy_moka {["alice" := Some (toy_user "old")]} {["dev" := Some toy_role]}
    {["alice" := Some (mkVerifiedCredential "old" (@blake3_hash toy_blake3 "old"))]}.

Lemma toy_cached_coherent :
  @coherent toy_ur_serde toy_rr_serde toy_argon2 toy_moka toy_blake3 toy_cached (toy_accounts "0").
Proof.
  split_and!; intros k x Hk; cbn [moka_entries toy_moka toy_cached user_cache role_cache auth_cache] in Hk;
    apply lookup_singleton_Some in Hk as [<- Hx]; [subst|subst|injection Hx as <-].
  - vm_compute. reflexivity.
  - vm_compute. reflexivity.
  - by exists "old".
Qed.


Lemma invalidate_user_takes_effect_witness :
  let _ := toy_ur_serde in let _ := toy_rr_serde in let _ := toy_argon2 in
  let _ := toy_moka in let _ := toy_blake3 in let _ := toy_uuid in
  ∃ b', run (cached_authenticate (cached_invalidate_user toy_cached "alice") "alice" "new")
      (world_of (toy_accounts "1")) =
    (Some (Ok (Some (toy_user "new")), b'), world_of (toy_accounts "1")).
Proof.
  intros ? ? ? ? ? ?.
  destruct (@invalidate_user_takes_effect toy_ur_serde toy_rr_serde toy_argon2 toy_moka toy_blake3 toy_uuid
    toy_cached (toy_accounts "0") "alice" (toy_user "new") (world_of (toy_accounts "1")) "new"
    toy_cached_coherent) as (r & b' & Hr & _ & Hspec).
  - intros k Hk. unfold toy_accounts. cbn [list_to_map foldr uncurry w_kv world_of].
    by rewrite !(lookup_insert_ne _ (user_key "alice")) by congruence.
  - vm_compute. reflexivity.
  - exists b'. refine (eq_trans Hr _). destruct Hspec as [ [-> _]|[_ Hv] ]; [done|].
    vm_compute in Hv. discriminate.
Defined.

(** A token is its claims' subject, signed by the name of the key. *)
Definition toy_jwt : Jwt := {|
  jwt_encode := λ c _, inr ("h." +:+ cl_sub c);
  jwt_decode := λ t k, if decide (k = "key") then inr (mkClaims "alice" 10 0 []) else inl "bad signature";
  url_b64_decode := Some;
  json_claims := λ b, Some (mkClaims b 10 0 []);
  keyed_hash := λ g u, if decide (u = "secret") then "key" else "other";
|}.

Definition toy_secret : bytes := "0123456789abcdef0123456789abcdef".

(** A token signed under the previous secret, and a password. *)
Lemma resolve_identity_sound_witness :
  let _ := toy_ur_serde in let _ := toy_rr_serde in let _ := toy_argon2 in let _ := toy_uuid in
  let _ := toy_jwt in let _ := toy_base64 in
  let js := mkJwtSecretState "rotated" (Some toy_secret) 0 in
  let w := world_of (toy_accounts "0") in
  (run (resolve_identity js tt None (Some "Bearer h.alice")) w = (Some (Accepted (mkAuthenticatedUser "alice"), tt), w) ∧
   ∃ secret user, Some secret = js_previous js ∧ user_of (w_kv w) "alice" = Ok (Some user) ∧
     is_Some (match validate_token "h.alice" (derive_signing_key secret (ur_token_secret user)) with
              | inr c => Some c | inl _ => None end)) ∧
  run (resolve_identity js tt None (Some "Basic alice:old")) w = (Some (Accepted (mkAuthenticatedUser "alice"), tt), w) ∧
  ∃ user p, user_of (w_kv w) "alice" = Ok (Some user) ∧ p = "old" ∧ verify_password p (ur_password_hash user) = true.
Proof.
  intros ? ? ? ? ? ? js w. split.
  - destruct (@resolve_identity_sound toy_ur_serde toy_rr_serde toy_argon2 toy_uuid toy_jwt toy_base64 unit _
      eq (λ _ _, True) (@builtin_laws toy_ur_serde toy_rr_serde toy_argon2 toy_uuid) js tt None (Some "Bearer h.alice") w I)
      as (i & [] & Hr & _ & Hspec).
    assert (i = Accepted (mkAuthenticatedUser "alice")) as ->.
    { pose proof (f_equal fst Hr) as Hi. vm_compute in Hi. by injection Hi as <-. }
    split; [exact Hr|].
    destruct (Hspec "alice" eq_refl) as [ [? _]|[ (encoded & ? & ? & ? & ? & Heq & _)|(token & claims & user & Heq & Hcl & _ & Hu & secret & Hs & Hlen & Hv)] ];
      [discriminate|discriminate|]. injection Heq as <-.
    exists secret, user. split_and!; [|exact Hu|exact Hv].
    destruct Hs as [->|Hs]; [discriminate Hlen|exact Hs].
  - destruct (@resolve_identity_sound toy_ur_serde toy_rr_serde toy_argon2 toy_uuid toy_jwt toy_base64 unit _
      eq (λ _ _, True) (@builtin_laws toy_ur_serde toy_rr_serde toy_argon2 toy_uuid) js tt None (Some "Basic alice:old") w I)
      as (i & [] & Hr & _ & Hspec).
    assert (i = Accepted (mkAuthenticatedUser "alice")) as ->.
    { pose proof (f_equal fst Hr) as Hi. vm_compute in Hi. by injection Hi as <-. }
    split; [exact Hr|].
    destruct (Hspec "alice" eq_refl) as [ [? _]|[ (encoded & b & user & p & p' & Heq & Hb & Hsp & Hu & Hsame & Hv)|(token & ? & ? & Heq & _)] ];
      [discriminate| |discriminate]. injection Heq as <-. injection Hb as <-. injection Hsp as <-. subst p'.
    exists user, "old". split_and!; [exact Hu|reflexivity|exact Hv].
Defined.

Example token_of_previous_secret :
  let _ := toy_ur_serde in let _ := toy_rr_serde in let _ := toy_argon2 in let _ := toy_uuid in
  let _ := toy_jwt in let _ := toy_base64 in
  (run (resolve_identity (mkJwtSecretState "rotated" (Some toy_secret) 0) tt None (Some "Bearer h.alice"))
    (world_of (toy_accounts "0"))).1 = Some (Accepted (mkAuthenticatedUser "alice"), tt).
Proof. vm_compute. reflexivity. Qed.
