(* ===== verification/Settings.v ===== *)
(** * Settings (server/src/server/config/settings.rs, server/src/server/config/mod.rs,
    server/src/server/infra/rate_limit.rs)

    The settings that the instances of a cluster share, their validation and
    persistence, the refresh tick, and the rate limiter that they configure.
    What the code asks the [http], [chrono] and [governor] crates is a
    parameter.  A validation error is its kind with the offending value; the
    texts of the messages are not modelled. *)

From S2P Require Import Prelude Bytes Text Errors Keys Records Kv Prog Scan Accounts Auth.

(** [text.parse::<axum::http::Method>().is_ok()] and
    [chrono::NaiveTime::parse_from_str(text, "%H:%M")], in nanoseconds since
    midnight. *)
Class TextFormats := {
  is_http_method : string → bool;
  parse_hh_mm : string → option Z;
}.

(** ** Data *)

(** server/src/server/config/mod.rs:106-122 *)
Record CorsConfig : Type := mkCorsConfig {
  cors_allowed_origins : list string;
  cors_allowed_methods : list string;
  cors_allowed_headers : list string;
  cors_max_age_secs : Z;
}.

(** server/src/server/config/mod.rs:124-129 *)
Definition default_cors_methods : list string := ["GET"; "HEAD"; "POST"; "PUT"; "DELETE"; "PATCH"].
(** server/src/server/config/mod.rs:131-136 *)
Definition default_cors_headers : list string := ["Authorization"; "Content-Type"; "Accept"].
(** server/src/server/config/mod.rs:138-140 *)
Definition default_cors_max_age : Z := 3600.

(** server/src/server/config/mod.rs:143-151 *)
Record RateLimitConfig : Type := mkRateLimitConfig {
  rl_requests_per_second : Z;
  rl_burst_size : Z;
}.

(** server/src/server/config/mod.rs:153-155 *)
Definition default_rate_limit_rps : Z := 100.
(** server/src/server/config/mod.rs:157-159 *)
Definition default_rate_limit_burst : Z := 50.

(** server/src/server/config/settings.rs:118-121 *)
Record LoggingSettingsConfig : Type := mkLoggingSettingsConfig {
  lsc_otlp_endpoint : option string;
}.

(** server/src/server/config/settings.rs:35-111 *)
Record Settings : Type := mkSettings {
  st_access_log : bool;
  st_max_artifact_bytes : Z;
  st_cleanup_interval_secs : option Z;
  st_default_docker_repo : option string;
  st_cors : option CorsConfig;
  st_rate_limit : option RateLimitConfig;
  st_gc_interval_secs : option Z;
  st_max_docker_chunk_count : Z;
  st_jwt_expiry_secs : Z;
  st_jwt_rotation_interval_secs : Z;
  st_gc_max_orphan_candidates : option Z;
  st_gc_min_interval_secs : option Z;
  st_gc_start_time : option string;
  st_state_scan_interval_ms : Z;
  st_task_retention_secs : Z;
  st_logging : option LoggingSettingsConfig;
  st_tracing_endpoint : option string;
  st_base_url : option string;
}.

#[export] Instance CorsConfig_eq_dec : EqDecision CorsConfig.
Proof. solve_decision. Defined.
#[export] Instance RateLimitConfig_eq_dec : EqDecision RateLimitConfig.
Proof. solve_decision. Defined.
#[export] Instance LoggingSettingsConfig_eq_dec : EqDecision LoggingSettingsConfig.
Proof. solve_decision. Defined.
#[export] Instance Settings_eq_dec : EqDecision Settings.
Proof. solve_decision. Defined.

(** server/src/server/config/settings.rs:123-125 *)
Definition default_gc_interval_secs : option Z := Some 86400%Z.
(** server/src/server/config/settings.rs:127-129 *)
Definition default_max_docker_chunk_count : Z := 10000.
(** server/src/server/config/settings.rs:131-133 *)
Definition default_jwt_expiry_secs : Z := 86400.
(** server/src/server/config/settings.rs:135-137 *)
Definition default_jwt_rotation_interval_secs : Z := (7 * 24 * 3600)%Z.
(** server/src/server/config/settings.rs:139-141 *)
Definition default_gc_min_interval_secs : option Z := Some 3600%Z.
(** server/src/server/config/settings.rs:143-145 *)
Definition default_gc_max_orphan_candidates : option Z := Some 1000000%Z.
(** server/src/server/config/settings.rs:147-149 *)
Definition default_state_scan_interval_ms : Z := 1000.
(** server/src/server/config/settings.rs:151-153 *)
Definition default_task_retention_secs : Z := 86400.

(** server/src/server/config/settings.rs:155-178 *)
Definition default_settings : Settings :=
  mkSettings true (32 * 1024 * 1024 * 1024)%Z None None None None default_gc_interval_secs 10000
    default_jwt_expiry_secs default_jwt_rotation_interval_secs default_gc_max_orphan_candidates
    default_gc_min_interval_secs None default_state_scan_interval_ms default_task_retention_secs
    None None None.

(** ** Validation *)

(** The messages of [validate]. *)
(** server/src/server/config/settings.rs:185-246 *)
Inductive SettingsError : Type :=
| ERequestsPerSecond
| EBurstSize
| EMethod (method : string)
| EJwtExpiry
| EJwtRotation
| EJwtRotationExpiry
| EGcMin
| EGcInterval
| EGcStartTime (t : string)
| EBaseUrl.

#[export] Instance SettingsError_eq_dec : EqDecision SettingsError.
Proof. solve_decision. Defined.

(** [if b { errors.push(e) }]. *)
Definition error_if (b : bool) (e : SettingsError) : list SettingsError := if b then [e] else [].

(** server/src/server/config/settings.rs:233-246 *)
Definition base_url_ok (base : string) : bool :=
  let trimmed := trim_ws base in
  let valid_scheme := starts_with trimmed "http://" || starts_with trimmed "https://" in
  let host := match split_once_str "://" trimmed with
    | Some (_, rest) => trim_end SLASH rest
    | None => ""
    end in
  negb (negb valid_scheme || bool_decide (host = "") || has_char SLASH host).

(** server/src/server/config/settings.rs:182-254 *)
Definition validate `{TextFormats} (s : Settings) : list SettingsError + unit :=
  let errors :=
    match st_rate_limit s with
    | Some rl =>
        error_if (bool_decide (rl_requests_per_second rl = 0)%Z) ERequestsPerSecond ++
        error_if (bool_decide (rl_burst_size rl = 0)%Z) EBurstSize
    | None => []
    end ++
    match st_cors s with
    | Some cors => EMethod <$> filter (λ m, is_http_method m = false) (cors_allowed_methods cors)
    | None => []
    end ++
    error_if (bool_decide (st_jwt_expiry_secs s < 60)%Z) EJwtExpiry ++
    error_if (bool_decide (st_jwt_rotation_interval_secs s < 3600)%Z) EJwtRotation ++
    error_if (bool_decide (st_jwt_rotation_interval_secs s < st_jwt_expiry_secs s)%Z) EJwtRotationExpiry ++
    match st_gc_min_interval_secs s with
    | Some min => error_if (bool_decide (min < 60)%Z) EGcMin
    | None => []
    end ++
    match st_gc_interval_secs s, st_gc_min_interval_secs s with
    | Some interval, Some min => error_if (bool_decide (interval < min)%Z) EGcInterval
    | _, _ => []
    end ++
    match st_gc_start_time s with
    | Some t => error_if (negb (bool_decide (is_Some (parse_hh_mm t)))) (EGcStartTime t)
    | None => []
    end ++
    match st_base_url s with
    | Some base => error_if (negb (base_url_ok base)) EBaseUrl
    | None => []
    end in
  if decide (errors = []) then inr tt else inl errors.

(** ** Persistence *)

Section persistence.
Context `{Serde Settings}.

(** server/src/server/config/settings.rs:277-280 *)
Definition load_settings_from_kv : prog (result (option Settings)) :=
  let '(table, pk, sk) := meta_key "settings" in
  typed_get table pk sk.

(** server/src/server/config/settings.rs:283-287 *)
Definition save_settings_to_kv (settings : Settings) : prog (result unit) :=
  let '(table, pk, sk) := meta_key "settings" in
  typed_put table pk sk settings.

(** server/src/server/config/settings.rs:292-307 *)
Definition ensure_settings : prog (result Settings) :=
  let*? o := load_settings_from_kv in
  match o with
  | Some existing =>
      let*? _ := save_settings_to_kv existing in
      Ret (Ok existing)
  | None =>
      let settings := default_settings in
      let*? _ := save_settings_to_kv settings in
      Ret (Ok settings)
  end.
End persistence.

(** ** The rate limiter

    The [governor] crate is a parameter: a limiter is created from a quota
    (requests per second and burst, both positive 32-bit numbers). *)

Class Governor := {
  keyed_limiter : Type;
  keyed : Z → Z → keyed_limiter;
}.

(** server/src/server/infra/rate_limit.rs:24-26 *)
Definition DynamicRateLimiter `{Governor} : Type := option (RateLimitConfig * keyed_limiter).

(** [NonZeroU32::new(n as u32)]. *)
Definition non_zero_u32 (n : Z) : option Z := if decide (n mod 2 ^ 32 = 0)%Z then None else Some (n mod 2 ^ 32)%Z.

Section limiter.
Context `{Governor}.

(** server/src/server/infra/rate_limit.rs:77-82 *)
Definition build_limiter (cfg : RateLimitConfig) : option keyed_limiter :=
  match non_zero_u32 (rl_burst_size cfg) with
  | None => None
  | Some burst =>
      match non_zero_u32 (rl_requests_per_second cfg) with
      | None => None
      | Some rps => Some (keyed rps burst)
      end
  end.

(** server/src/server/infra/rate_limit.rs:30-35 *)
Definition new_rate_limiter (cfg : option RateLimitConfig) : DynamicRateLimiter :=
  match cfg with
  | Some c => match build_limiter c with Some l => Some (c, l) | None => None end
  | None => None
  end.

(** server/src/server/infra/rate_limit.rs:39-49 *)
Definition update_rate_limiter (current : DynamicRateLimiter) (cfg : option RateLimitConfig) : DynamicRateLimiter :=
  if decide (fst <$> current = cfg) then current else new_rate_limiter cfg.

(** Whether requests are let through unseen. *)
(** server/src/server/infra/rate_limit.rs:55-59 *)
Definition unlimited (l : DynamicRateLimiter) : bool := match l with None => true | Some _ => false end.
End limiter.

(** ** The refresh worker *)

(** What the refresh worker keeps in step with the store. *)
Record Shared `{Governor} : Type := mkShared {
  sh_settings : Settings;
  sh_limiter : DynamicRateLimiter;
  sh_jwt : JwtSecretState;
}.

(** server/src/server/config/settings.rs:377-398 *)
Definition settings_refresh_tick `{Governor} `{Serde Settings} `{Serde JwtSecretState} (sh : Shared) : prog Shared :=
  let* r := load_settings_from_kv in
  let sh := match r with
    | Ok (Some s) => mkShared _ s (update_rate_limiter (sh_limiter sh) (st_rate_limit s)) (sh_jwt sh)
    | _ => sh
    end in
  let* j := get_meta "jwt_secret" in
  Ret (match j with
       | Ok (Some bytes) =>
           match from_slice bytes with
           | inr state => mkShared _ (sh_settings sh) (sh_limiter sh) state
           | inl _ => sh
           end
       | _ => sh
       end).

(** ** LDAP configuration *)

(** server/src/server/config/mod.rs:164-196 *)
Record LdapConfig : Type := mkLdapConfig {
  lc_url : string;
  lc_bind_dn : string;
  lc_bind_password : string;
  lc_user_base_dn : string;
  lc_user_filter : string;
  lc_group_base_dn : string;
  lc_group_filter : string;
  lc_group_name_attr : string;
  lc_group_role_mapping : gmap string string;
  lc_starttls : bool;
  lc_tls_skip_verify : bool;
  lc_fallback_to_builtin : bool;
}.

(** The messages of [validate_ldap_config]. *)
(** server/src/server/config/settings.rs:339-356 *)
Inductive LdapError : Type :=
| EUrlEmpty | EBindDnEmpty | EUserBaseDnEmpty | EGroupBaseDnEmpty | EUserFilter | EGroupFilter.

#[export] Instance LdapError_eq_dec : EqDecision LdapError.
Proof. solve_decision. Defined.

(** server/src/server/config/settings.rs:337-362 *)
Definition validate_ldap_config (ldap : LdapConfig) : list LdapError + unit :=
  let errors :=
    (if decide (lc_url ldap = "") then [EUrlEmpty] else []) ++
    (if decide (lc_bind_dn ldap = "") then [EBindDnEmpty] else []) ++
    (if decide (lc_user_base_dn ldap = "") then [EUserBaseDnEmpty] else []) ++
    (if decide (lc_group_base_dn ldap = "") then [EGroupBaseDnEmpty] else []) ++
    (if contains (lc_user_filter ldap) "{username}" then [] else [EUserFilter]) ++
    (if contains (lc_group_filter ldap) "{dn}" then [] else [EGroupFilter]) in
  if decide (errors = []) then inr tt else inl errors.

(** ** Properties *)

Section properties.
Context `{TextFormats} `{Governor} `{Serde Settings} `{UuidGen}.
Implicit Types (w : world kvmap).

Lemma error_if_nil b e : error_if b e = [] ↔ b = false.
Proof. by destruct b. Qed.

Lemma app_nil_iff {A} (l1 l2 : list A) : l1 ++ l2 = [] ↔ l1 = [] ∧ l2 = [].
Proof. split; [apply app_nil|]. by intros [-> ->]. Qed.

Lemma bad_methods_nil (l : list string) :
  EMethod <$> filter (λ m, is_http_method m = false) l = [] ↔ Forall (λ m, is_http_method m = true) l.
Proof.
  split.
  - intros Hf%fmap_nil_inv. apply Forall_forall. intros m Hm. destruct (is_http_method m) eqn:Hb; [done|].
    assert (m ∈ filter (λ m, is_http_method m = false) l) as Hin by by apply list_elem_of_filter.
    by rewrite Hf in Hin; apply elem_of_nil in Hin.
  - intros Hall. rewrite filter_none; [done|]. eapply Forall_impl; [done|]. by intros m ->.
Qed.

(** A field that may be absent. *)
Lemma optional_nil {A} (o : option A) (f : A → list SettingsError) (P : A → Prop) :
  (∀ a, f a = [] ↔ P a) →
  match o with Some a => f a | None => [] end = [] ↔ ∀ a, o = Some a → P a.
Proof.
  intros Hf. destruct o as [a|]; [|by split]. rewrite Hf. split; [by intros ? ? [= <-]|by intros HP; apply HP].
Qed.

Lemma gc_interval_nil (s : Settings) :
  match st_gc_interval_secs s, st_gc_min_interval_secs s with
  | Some interval, Some min => error_if (bool_decide (interval < min)%Z) EGcInterval
  | _, _ => []
  end = [] ↔
  ∀ min interval, st_gc_min_interval_secs s = Some min → st_gc_interval_secs s = Some interval → (min ≤ interval)%Z.
Proof.
  destruct (st_gc_interval_secs s) as [interval|], (st_gc_min_interval_secs s) as [min|]; [|by split..].
  rewrite error_if_nil, bool_decide_eq_false, Z.nlt_ge. split; [by intros ? ? ? [= <-] [= <-]|by intros Hle; apply Hle].
Qed.

(** The checks of [validate], one by one. *)
Lemma validate_checks (s : Settings) : validate s = inr tt ↔
  (∀ rl, st_rate_limit s = Some rl → rl_requests_per_second rl ≠ 0 ∧ rl_burst_size rl ≠ 0)%Z ∧
  (∀ cors, st_cors s = Some cors → Forall (λ m, is_http_method m = true) (cors_allowed_methods cors)) ∧
  (60 ≤ st_jwt_expiry_secs s)%Z ∧ (3600 ≤ st_jwt_rotation_interval_secs s)%Z ∧
  (st_jwt_expiry_secs s ≤ st_jwt_rotation_interval_secs s)%Z ∧
  (∀ min, st_gc_min_interval_secs s = Some min → 60 ≤ min)%Z ∧
  (∀ min interval, st_gc_min_interval_secs s = Some min → st_gc_interval_secs s = Some interval → min ≤ interval)%Z ∧
  (∀ t, st_gc_start_time s = Some t → is_Some (parse_hh_mm t)) ∧
  (∀ base, st_base_url s = Some base → base_url_ok base = true).
Proof.
  unfold validate. match goal with |- context [decide (?l = [])] => match goal with |- _ ↔ ?P => assert (l = [] ↔ P) as Hl end end.
  { rewrite !app_nil_iff, !error_if_nil, !bool_decide_eq_false.
    rewrite (optional_nil (st_rate_limit s) _ (λ rl, rl_requests_per_second rl ≠ 0 ∧ rl_burst_size rl ≠ 0)%Z)
      by (intros; by rewrite app_nil_iff, !error_if_nil, !bool_decide_eq_false).
    rewrite (optional_nil (st_cors s) _ _) by (intros; apply bad_methods_nil).
    rewrite (optional_nil (st_gc_min_interval_secs s) _ (λ min, 60 ≤ min)%Z)
      by (intros; rewrite error_if_nil, bool_decide_eq_false; lia).
    rewrite (optional_nil (st_gc_start_time s) _ (λ t, is_Some (parse_hh_mm t)))
      by (intros; by rewrite error_if_nil, negb_false_iff, bool_decide_eq_true).
    rewrite (optional_nil (st_base_url s) _ (λ base, base_url_ok base = true))
      by (intros; by rewrite error_if_nil, negb_false_iff).
    rewrite (gc_interval_nil s), !Z.nlt_ge. tauto. }
  match goal with |- context [decide (?l = [])] => destruct (decide (l = [])) as [Hd|Hd] end; split;
    [intros _; by apply Hl|done|done|]. intros Hw. destruct Hd. by apply Hl.
Qed.

(** A rate limit that validation accepts limits, unless the rate is a
    multiple of 2^32: the cast to 32 bits then gives 0 and the limiter is
    switched off, silently. *)
Theorem rate_limit_in_force (s : Settings) (rl : RateLimitConfig) :
  validate s = inr tt → st_rate_limit s = Some rl →
  (0 ≤ rl_requests_per_second rl < 2 ^ 64)%Z → (0 ≤ rl_burst_size rl < 2 ^ 32)%Z →
  (unlimited (new_rate_limiter (st_rate_limit s)) = true ↔ (rl_requests_per_second rl mod 2 ^ 32 = 0)%Z) ∧
  ((rl_requests_per_second rl < 2 ^ 32)%Z →
   new_rate_limiter (st_rate_limit s) = Some (rl, keyed (rl_requests_per_second rl) (rl_burst_size rl))).
Proof.
  intros Hv Hrl Hrps Hburst. apply validate_checks in Hv as [Hwf _]. destruct (Hwf rl Hrl) as [Hr Hb].
  rewrite Hrl. unfold new_rate_limiter, build_limiter, non_zero_u32.
  rewrite (Z.mod_small (rl_burst_size rl)), (decide_False (P:=(rl_burst_size rl = 0)%Z)) by lia. split.
  - case_decide; split; done.
  - intros Hlt. rewrite Z.mod_small, decide_False by lia. done.
Qed.

(** What the store holds under the settings key. *)
Definition settings_at (m : kvmap) : result (option Settings) :=
  match m !! meta_key "settings" with
  | Some (b, _) => match from_slice b with inr s => Ok (Some s) | inl e => Err (from_storage_error e) end
  | None => Ok None
  end.

Lemma run_load_settings w : run load_settings_from_kv w = (Some (settings_at (w_kv w)), w).
Proof.
  unfold load_settings_from_kv, settings_at, meta_key, typed_get. rewrite run_bind_ok, run_kv_spec.
  cbn [spec_store fst snd]. rewrite set_kv_id.
  destruct (w_kv w !! _) as [ [b v]|]; cbn [fmap option_fmap option_map fst]; [|done]. by destruct (from_slice b).
Qed.

Lemma run_save_settings (s : Settings) (b : bytes) w :
  to_vec_named s = inr b →
  run (save_settings_to_kv s) w = (Some (Ok tt), set_kv (spec_put (meta_key "settings") b (w_kv w)) w).
Proof.
  intros Hb. unfold save_settings_to_kv, meta_key, typed_put. rewrite Hb. cbn [serde_result try_].
  by rewrite (run_kv_spec (Put _ _ _ _)).
Qed.

Lemma settings_at_put `{!SerdeExact Settings} (s : Settings) (b : bytes) (m : kvmap) :
  to_vec_named s = inr b → settings_at (spec_put (meta_key "settings") b m) = Ok (Some s).
Proof.
  intros Hb. unfold settings_at, spec_put. rewrite lookup_insert_eq.
  by rewrite (from_to_vec_named _ _ Hb), wire_id.
Qed.

(** The settings of a cluster converge.  At start-up an instance takes the
    stored settings, or stores the defaults when there are none, and leaves a
    store that cannot be read alone; from then on one refresh tick of any
    instance gives it exactly the stored settings, with a limiter for their
    rate limit. *)
Theorem settings_converge `{!SerdeExact Settings} `{Serde JwtSecretState} (sh : Shared) w :
  (∀ s : Settings, ∃ b, to_vec_named s = inr b) →
  match settings_at (w_kv w) with
  | Err e => run ensure_settings w = (Some (Err e), w)
  | Ok o =>
      let s := default default_settings o in
      ∃ w', run ensure_settings w = (Some (Ok s), w') ∧ settings_at (w_kv w') = Ok (Some s) ∧
        (∀ k, k ≠ meta_key "settings" → w_kv w' !! k = w_kv w !! k) ∧
        ∃ sh', run (settings_refresh_tick sh) w' = (Some sh', w') ∧ sh_settings sh' = s ∧
          sh_limiter sh' = update_rate_limiter (sh_limiter sh) (st_rate_limit s)
  end.
Proof.
  intros Hser. unfold ensure_settings. rewrite run_bind_ok, run_load_settings.
  destruct (settings_at (w_kv w)) as [o|e] eqn:Hat; [|done].
  set (s := default default_settings o). destruct (Hser s) as [b Hb].
  assert (∀ w', settings_at (w_kv w') = Ok (Some s) →
    ∃ sh', run (settings_refresh_tick sh) w' = (Some sh', w') ∧ sh_settings sh' = s ∧
      sh_limiter sh' = update_rate_limiter (sh_limiter sh) (st_rate_limit s)) as Htick.
  { intros w' Hs. unfold settings_refresh_tick. rewrite run_bind, run_load_settings, Hs.
    cbv beta iota zeta. change (get_meta "jwt_secret") with (kv (Get TABLE_META SINGLE_PK "jwt_secret")).
    rewrite run_bind, (run_kv_spec (Get _ _ _)). cbn [spec_store fst snd run]. rewrite set_kv_id.
    destruct (fst <$> _) as [bytes|]; [|by eexists]. destruct (from_slice bytes); by eexists. }
  exists (set_kv (spec_put (meta_key "settings") b (w_kv w)) w). split_and!.
  - destruct o as [existing|]; rewrite run_bind_ok; subst s; cbn [default from_option id] in Hb; by rewrite (run_save_settings _ b).
  - by apply settings_at_put.
  - intros k Hk. unfold spec_put. cbn [w_kv set_kv]. by rewrite lookup_insert_ne.
  - apply Htick. by apply settings_at_put.
Qed.
End properties.

(** ** Witnesses *)

Definition toy_formats : TextFormats := {| is_http_method := λ m, bool_decide (m ∈ default_cors_methods); parse_hh_mm := λ _, None |}.
Definition toy_governor : Governor := {| keyed_limiter := Z * Z; keyed := pair |}.

Definition with_rate_limit (rps burst : Z) : Settings :=
  mkSettings true 1000 None None None (Some (mkRateLimitConfig rps burst)) None 10 60 3600 None None None 1000 86400
    None None (Some " https://depot.example.com/ ").

Lemma rate_limit_in_force_witness :
  let _ := toy_formats in let _ := toy_governor in
  unlimited (new_rate_limiter (st_rate_limit (with_rate_limit (2 ^ 32) 50))) = true ∧
  new_rate_limiter (st_rate_limit (with_rate_limit 100 50)) = Some (mkRateLimitConfig 100 50, (100, 50)%Z).
Proof.
  intros ? ?. split.
  - apply (@rate_limit_in_force toy_formats toy_governor (with_rate_limit (2 ^ 32) 50) (mkRateLimitConfig (2 ^ 32) 50));
      [vm_compute; reflexivity|reflexivity|cbn; lia|cbn; lia|vm_compute; reflexivity].
  - apply (@rate_limit_in_force toy_formats toy_governor (with_rate_limit 100 50) (mkRateLimitConfig 100 50));
      [vm_compute; reflexivity|reflexivity|cbn; lia|cbn; lia|cbn; lia].
Defined.

#[export] Instance CorsConfig_countable : Countable CorsConfig.
Proof.
  refine (inj_countable' (λ r, (cors_allowed_origins r, cors_allowed_methods r, cors_allowed_headers r, cors_max_age_secs r))
    (λ '(x0, x1, x2, x3), mkCorsConfig x0 x1 x2 x3) _). by intros [].
Defined.

#[export] Instance RateLimitConfig_countable : Countable RateLimitConfig.
Proof.
  refine (inj_countable' (λ r, (rl_requests_per_second r, rl_burst_size r))
    (λ '(x0, x1), mkRateLimitConfig x0 x1) _). by intros [].
Defined.

#[export] Instance LoggingSettingsConfig_countable : Countable LoggingSettingsConfig.
Proof. refine (inj_countable' lsc_otlp_endpoint mkLoggingSettingsConfig _). by intros []. Defined.

#[export] Instance Settings_countable : Countable Settings.
Proof.
  refine (inj_countable' (λ r, (st_access_log r, st_max_artifact_bytes r, st_cleanup_interval_secs r, st_default_docker_repo r, st_cors r, st_rate_limit r, st_gc_interval_secs r, st_max_docker_chunk_count r, st_jwt_expiry_secs r, st_jwt_rotation_interval_secs r, st_gc_max_orphan_candidates r, st_gc_min_interval_secs r, st_gc_start_time r, st_state_scan_interval_ms r, st_task_retention_secs r, st_logging r, st_tracing_endpoint r, st_base_url r))
    (λ '(x0, x1, x2, x3, x4, x5, x6, x7, x8, x9, x10, x11, x12, x13, x14, x15, x16, x17), mkSettings x0 x1 x2 x3 x4 x5 x6 x7 x8 x9 x10 x11 x12 x13 x14 x15 x16 x17) _). by intros [].
Defined.

Definition toy_settings_serde : Serde Settings := countable_serde.
Definition toy_jwt_serde : Serde JwtSecretState := constant_serde (mkJwtSecretState "" None 0%Z).

Definition no_settings_world : world kvmap := mkWorld (∅ : kvmap) ∅ ∅ 0%Z 0 [] false.

(** The first start of a cluster. *)
Lemma settings_converge_witness :
  let _ := toy_governor in let _ := toy_settings_serde in let _ := toy_uuid in let _ := toy_jwt_serde in
  let sh := mkShared _ (with_rate_limit 100 50) (new_rate_limiter (Some (mkRateLimitConfig 100 50)))
              (mkJwtSecretState "" None 0%Z) in
  ∃ w' sh', run ensure_settings no_settings_world = (Some (Ok default_settings), w') ∧
    run (settings_refresh_tick sh) w' = (Some sh', w') ∧
    sh_settings sh' = default_settings ∧ sh_limiter sh' = None.
Proof.
  intros ? ? ? ? sh.
  assert (∀ s : Settings, ∃ b, to_vec_named s = inr b) as Hser by (intros s; eexists; reflexivity).
  destruct (@settings_converge toy_governor toy_settings_serde toy_uuid ltac:(done) toy_jwt_serde sh no_settings_world Hser)
    as (w' & Hrun & _ & _ & sh' & Htick & Hs & Hl).
  exists w', sh'. split; [exact Hrun|]. split; [exact Htick|]. split; [exact Hs|]. exact Hl.
Defined.
