(* ===== verification/EventBus.v ===== *)
(** * Events and the materialized model (server/src/server/infra/event_bus.rs,
    server/src/server/infra/event_stream.rs, server/src/server/worker/materializer.rs)

    The views that the API shows of the records, the domain events and their
    numbering, the model that the materializer keeps from the events, and the
    stream that a client of the user interface receives.  The broadcast channel
    of the [tokio] crate keeps the last [capacity] messages; a receiver is the
    position of the next message it reads. *)

From S2P Require Import Prelude Bytes Text Errors Keys Records Kv Prog Wp Scan Pagination Artifact Blob Repo.
From S2P Require Import Directory Accounts Tasks TaskManager Auth Settings.

(** [env!("DEPOT_VERSION")]. *)
Class BuildInfo := VERSION : string.

(** ** Topics *)

(** server/src/server/infra/event_bus.rs:34-42 *)
Inductive Topic : Type := TRepos | TStores | TTasks | TUsers | TRoles | TSettings | THealth.

#[export] Instance Topic_eq_dec : EqDecision Topic.
Proof. solve_decision. Defined.
#[export] Instance Topic_countable : Countable Topic.
Proof.
  refine (inj_countable' (λ t, match t with TRepos => 0 | TStores => 1 | TTasks => 2 | TUsers => 3 | TRoles => 4 | TSettings => 5 | THealth => 6 end)
    (λ n, match n with 0 => TRepos | 1 => TStores | 2 => TTasks | 3 => TUsers | 4 => TRoles | 5 => TSettings | _ => THealth end) _).
  by intros [].
Defined.

(** server/src/server/infra/event_bus.rs:45-55 *)
Definition public_topics : gset Topic := {[ TRepos; TStores; TTasks; TSettings; THealth ]}.

(** server/src/server/infra/event_bus.rs:58-63 *)
Definition all_topics : gset Topic := {[ TUsers; TRoles ]} ∪ public_topics.

(** server/src/server/infra/event_bus.rs:79-88 *)
Definition topic_of_name (t : string) : option Topic :=
  if decide (t = "repos") then Some TRepos
  else if decide (t = "stores") then Some TStores
  else if decide (t = "tasks") then Some TTasks
  else if decide (t = "users") then Some TUsers
  else if decide (t = "roles") then Some TRoles
  else if decide (t = "settings") then Some TSettings
  else if decide (t = "health") then Some THealth
  else None.

(** server/src/server/infra/event_bus.rs:67-97 *)
Definition parse_topics (raw : option string) (is_admin : bool) : gset Topic :=
  match raw with
  | None | Some "" => if is_admin then all_topics else public_topics
  | Some s =>
      list_to_set (omap (λ t,
        match topic_of_name (trim_ws t) with
        | Some TUsers => if is_admin then Some TUsers else None
        | Some TRoles => if is_admin then Some TRoles else None
        | other => other
        end) (split_char "," s))
  end.

(** ** Views of the records *)

(** server/src/server/api/repositories.rs:79-99 *)
Record RepoResponse : Type := mkRepoResponse {
  rp_name : string;
  rp_repo_type : RepoType;
  rp_format : ArtifactFormat;
  rp_store : string;
  rp_upstream_url : option string;
  rp_cache_ttl_secs : option Z;
  rp_members : option (list string);
  rp_write_member : option string;
  rp_listen : option string;
  rp_cleanup_max_unaccessed_days : option Z;
  rp_cleanup_max_age_days : option Z;
  rp_cleanup_untagged_manifests : option bool;
  rp_upstream_auth : option UpstreamAuth;
  rp_content_disposition : option ContentDisposition;
  rp_repodata_depth : option Z;
  rp_created_at : DateTime;
  rp_artifact_count : Z;
  rp_total_bytes : Z;
}.

(** server/src/server/api/repositories.rs:101-170 *)
Definition repo_response (c : RepoConfig) : RepoResponse :=
  let format := artifact_format (rc_format_config c) in
  let '(listen, cleanup_untagged_manifests, content_disposition, repodata_depth) :=
    match rc_format_config c with
    | CDocker listen untagged => (listen, untagged, None, None)
    | CRaw disposition => (None, None, disposition, None)
    | CYum depth => (None, None, None, depth)
    | _ => (None, None, None, None)
    end in
  let '(type, upstream_url, cache_ttl_secs, members, upstream_auth, write_member) :=
    match rc_kind c with
    | Hosted => (RTHosted, None, None, None, None, None)
    | Cache url ttl auth =>
        (RTCache, Some url, Some ttl, None,
         (λ a, mkUpstreamAuth (ua_username a) ((λ _, "********") <$> ua_password a)) <$> auth, None)
    | Proxy members write_member => (RTProxy, None, None, Some members, None, write_member)
    end in
  mkRepoResponse (rc_name c) type format (rc_store c) upstream_url cache_ttl_secs members write_member
    listen (rc_cleanup_max_unaccessed_days c) (rc_cleanup_max_age_days c) cleanup_untagged_manifests
    upstream_auth content_disposition repodata_depth (rc_created_at c) 0 0.

Definition set_counts (count bytes : Z) (r : RepoResponse) : RepoResponse :=
  mkRepoResponse (rp_name r) (rp_repo_type r) (rp_format r) (rp_store r) (rp_upstream_url r)
    (rp_cache_ttl_secs r) (rp_members r) (rp_write_member r) (rp_listen r)
    (rp_cleanup_max_unaccessed_days r) (rp_cleanup_max_age_days r) (rp_cleanup_untagged_manifests r)
    (rp_upstream_auth r) (rp_content_disposition r) (rp_repodata_depth r) (rp_created_at r) count bytes.

(** server/src/server/api/repositories.rs:173-177 *)
Definition with_stats (r : RepoResponse) (stats : RepoStats) : RepoResponse :=
  set_counts (rs_artifact_count stats) (rs_total_bytes stats) r.

(** server/src/server/api/stores.rs:88-126 *)
Record StoreResponse : Type := mkStoreResponse {
  sp_name : string;
  sp_store_type : string;
  sp_root : option string;
  sp_sync : option bool;
  sp_io_size : option Z;
  sp_direct_io : option bool;
  sp_bucket : option string;
  sp_endpoint : option string;
  sp_region : option string;
  sp_prefix : option string;
  sp_access_key : option string;
  sp_max_retries : option Z;
  sp_connect_timeout_secs : option Z;
  sp_read_timeout_secs : option Z;
  sp_retry_mode : option string;
  sp_created_at : DateTime;
  sp_blob_count : option Z;
  sp_total_bytes : option Z;
}.

(** server/src/server/api/stores.rs:128-189 *)
Definition store_response (r : StoreRecord) : StoreResponse :=
  match sr_kind r with
  | StoreFile root sync io_size direct_io =>
      mkStoreResponse (sr_name r) "file" (Some root) (Some sync) (Some io_size) (Some direct_io)
        None None None None None None None None None (sr_created_at r) None None
  | StoreS3 bucket endpoint region prefix access_key _ max_retries connect_timeout read_timeout retry_mode =>
      mkStoreResponse (sr_name r) "s3" None None None None (Some bucket) endpoint (Some region) prefix access_key
        (Some max_retries) (Some connect_timeout) (Some read_timeout) (Some retry_mode) (sr_created_at r) None None
  end.

Definition set_blobs_counts (count bytes : Z) (s : StoreResponse) : StoreResponse :=
  mkStoreResponse (sp_name s) (sp_store_type s) (sp_root s) (sp_sync s) (sp_io_size s) (sp_direct_io s)
    (sp_bucket s) (sp_endpoint s) (sp_region s) (sp_prefix s) (sp_access_key s) (sp_max_retries s)
    (sp_connect_timeout_secs s) (sp_read_timeout_secs s) (sp_retry_mode s) (sp_created_at s)
    (Some count) (Some bytes).

(** server/src/server/api/users.rs:23-31 *)
Record UserResponse : Type := mkUserResponse {
  up_username : string;
  up_roles : list string;
  up_must_change_password : bool;
  up_created_at : DateTime;
  up_updated_at : DateTime;
}.

(** server/src/server/api/users.rs:33-43 *)
Definition user_response (r : UserRecord) : UserResponse :=
  mkUserResponse (ur_username r) (ur_roles r) (ur_must_change_password r) (ur_created_at r) (ur_updated_at r).

(** server/src/server/api/roles.rs:22-30 *)
Record RoleResponse : Type := mkRoleResponse {
  lp_name : string;
  lp_description : string;
  lp_capabilities : list CapabilityGrant;
  lp_created_at : DateTime;
  lp_updated_at : DateTime;
}.

(** server/src/server/api/roles.rs:32-42 *)
Definition role_response (r : RoleRecord) : RoleResponse :=
  mkRoleResponse (rr_name r) (rr_description r) (rr_capabilities r) (rr_created_at r) (rr_updated_at r).

(** server/src/server/api/system.rs:10-13 *)
Record HealthResponse : Type := mkHealthResponse {
  hr_status : string;
  hr_version : string;
}.

(** ** Events *)

(** server/src/server/infra/event_bus.rs:106-186 *)
Inductive ModelEvent : Type :=
| RepoCreated (repo : RepoResponse)
| RepoUpdated (repo : RepoResponse)
| RepoDeleted (name : string)
| RepoStatsUpdated (name : string) (artifact_count total_bytes : Z)
| StoreCreated (store : StoreResponse)
| StoreUpdated (store : StoreResponse)
| StoreDeleted (name : string)
| StoreStatsUpdated (name : string) (blob_count total_bytes : Z)
| TaskCreated (task : TaskInfo)
| TaskUpdated (task : TaskInfo)
| TaskDeleted (id : string)
| UserCreated (user : UserResponse)
| UserUpdated (user : UserResponse)
| UserDeleted (username : string)
| RoleCreated (role : RoleResponse)
| RoleUpdated (role : RoleResponse)
| RoleDeleted (name : string)
| SettingsUpdated (settings : Settings)
| Resync.

(** server/src/server/infra/event_bus.rs:194-199 *)
Record Envelope : Type := mkEnvelope {
  env_seq : Z;
  env_timestamp : DateTime;
  env_topic : Topic;
  env_event : ModelEvent;
}.

(** server/src/server/infra/event_bus.rs:203-225 *)
Definition event_type (e : Envelope) : string :=
  match env_event e with
  | RepoCreated _ => "repo_created"
  | RepoUpdated _ => "repo_updated"
  | RepoDeleted _ => "repo_deleted"
  | RepoStatsUpdated _ _ _ => "repo_stats_updated"
  | StoreCreated _ => "store_created"
  | StoreUpdated _ => "store_updated"
  | StoreDeleted _ => "store_deleted"
  | StoreStatsUpdated _ _ _ => "store_stats_updated"
  | TaskCreated _ => "task_created"
  | TaskUpdated _ => "task_updated"
  | TaskDeleted _ => "task_deleted"
  | UserCreated _ => "user_created"
  | UserUpdated _ => "user_updated"
  | UserDeleted _ => "user_deleted"
  | RoleCreated _ => "role_created"
  | RoleUpdated _ => "role_updated"
  | RoleDeleted _ => "role_deleted"
  | SettingsUpdated _ => "settings_updated"
  | Resync => "resync"
  end.

(** The bus: the next number and everything that was sent, oldest first. *)
(** server/src/server/infra/event_bus.rs:354-357 *)
Record EventBus : Type := mkEventBus {
  bus_seq : Z;
  bus_sent : list Envelope;
}.

(** server/src/server/infra/event_bus.rs:361-367 *)
Definition new_event_bus : EventBus := mkEventBus 0 [].

(** server/src/server/infra/event_bus.rs:371-381 *)
Definition publish (topic : Topic) (event : ModelEvent) (bus : EventBus) : prog EventBus :=
  let* now := call ENow in
  let seq := bus_seq bus in
  Ret (mkEventBus (u64_add seq 1) (bus_sent bus ++ [mkEnvelope seq now topic event])).

(** server/src/server/infra/event_bus.rs:384-386 *)
Definition subscribe (bus : EventBus) : nat := length (bus_sent bus).

(** server/src/server/infra/event_bus.rs:389-391 *)
Definition current_seq (bus : EventBus) : Z := bus_seq bus.

(** What a receiver gets next: a message, the news that it has missed some
    (and its new position), or nothing yet. *)
Inductive received : Type :=
| Received (e : Envelope)
| Lagged (missed : nat)
| Waiting.

Definition recv (capacity : nat) (bus : EventBus) (pos : nat) : received * nat :=
  let oldest := length (bus_sent bus) - capacity in
  if decide (pos < oldest) then (Lagged (oldest - pos), oldest)
  else match bus_sent bus !! pos with
       | Some e => (Received e, S pos)
       | None => (Waiting, pos)
       end.

(** ** The model *)

(** server/src/server/infra/event_bus.rs:255-262 *)
Record PublicModel : Type := mkPublicModel {
  pm_seq : Z;
  pm_repos : list RepoResponse;
  pm_stores : list StoreResponse;
  pm_tasks : list TaskInfo;
  pm_settings : Settings;
  pm_health : HealthResponse;
}.

(** server/src/server/infra/event_bus.rs:266-269 *)
Record AdminModel : Type := mkAdminModel {
  am_users : list UserResponse;
  am_roles : list RoleResponse;
}.

(** server/src/server/infra/event_bus.rs:275-278 *)
Record MaterializedModel : Type := mkMaterializedModel {
  mm_public : PublicModel;
  mm_admin : AdminModel;
}.

(** server/src/server/infra/event_bus.rs:234-247 *)
Record ModelSnapshot : Type := mkModelSnapshot {
  sn_seq : Z;
  sn_repos : list RepoResponse;
  sn_stores : list StoreResponse;
  sn_tasks : list TaskInfo;
  sn_users : option (list UserResponse);
  sn_roles : option (list RoleResponse);
  sn_settings : Settings;
  sn_health : HealthResponse;
}.

(** server/src/server/infra/event_bus.rs:282-300 *)
Definition empty_model `{BuildInfo} : MaterializedModel :=
  mkMaterializedModel (mkPublicModel 0 [] [] [] default_settings (mkHealthResponse "ok" VERSION)) (mkAdminModel [] []).

(** server/src/server/infra/event_bus.rs:303-322 *)
Definition to_snapshot (m : MaterializedModel) (is_admin : bool) : ModelSnapshot :=
  let p := mm_public m in
  let a := mm_admin m in
  mkModelSnapshot (pm_seq p) (pm_repos p) (pm_stores p) (pm_tasks p)
    (if is_admin then Some (am_users a) else None) (if is_admin then Some (am_roles a) else None)
    (pm_settings p) (pm_health p).

(** ** Applying events *)

Section lists.
Context {A : Type} (key : A → string).

(** [if !l.iter().any(|y| y.key == x.key) { l.push(x) }]. *)
Definition push_new (x : A) (l : list A) : list A :=
  if existsb (λ y, bool_decide (key y = key x)) l then l else l ++ [x].

(** [if let Some(existing) = l.iter_mut().find(|y| y.key == k) { *existing = f(existing) }]. *)
Fixpoint update_first (k : string) (f : A → A) (l : list A) : list A :=
  match l with
  | [] => []
  | x :: l => if decide (key x = k) then f x :: l else x :: update_first k f l
  end.

(** The first match is replaced; without one the value is added. *)
Definition upsert (x : A) (l : list A) : list A :=
  if existsb (λ y, bool_decide (key y = key x)) l then update_first (key x) (λ _, x) l else l ++ [x].

(** [l.retain(|y| y.key != k)]. *)
Definition drop_key (k : string) (l : list A) : list A := filter (λ y, key y ≠ k) l.
End lists.

Definition set_repos (f : list RepoResponse → list RepoResponse) (p : PublicModel) : PublicModel :=
  mkPublicModel (pm_seq p) (f (pm_repos p)) (pm_stores p) (pm_tasks p) (pm_settings p) (pm_health p).
Definition set_stores (f : list StoreResponse → list StoreResponse) (p : PublicModel) : PublicModel :=
  mkPublicModel (pm_seq p) (pm_repos p) (f (pm_stores p)) (pm_tasks p) (pm_settings p) (pm_health p).
Definition set_tasks (f : list TaskInfo → list TaskInfo) (p : PublicModel) : PublicModel :=
  mkPublicModel (pm_seq p) (pm_repos p) (pm_stores p) (f (pm_tasks p)) (pm_settings p) (pm_health p).
Definition set_settings (s : Settings) (p : PublicModel) : PublicModel :=
  mkPublicModel (pm_seq p) (pm_repos p) (pm_stores p) (pm_tasks p) s (pm_health p).
Definition set_seq (seq : Z) (p : PublicModel) : PublicModel :=
  mkPublicModel seq (pm_repos p) (pm_stores p) (pm_tasks p) (pm_settings p) (pm_health p).
Definition set_users (f : list UserResponse → list UserResponse) (a : AdminModel) : AdminModel :=
  mkAdminModel (f (am_users a)) (am_roles a).
Definition set_roles (f : list RoleResponse → list RoleResponse) (a : AdminModel) : AdminModel :=
  mkAdminModel (am_users a) (f (am_roles a)).

(** The two halves and whether each has been modified. *)
Definition batch_state : Type := PublicModel * AdminModel * bool * bool.

(** server/src/server/worker/materializer.rs:154-292 *)
Definition apply_event (st : batch_state) (env : Envelope) : batch_state :=
  let '(public, admin, modified_public, modified_admin) := st in
  let pub f := (set_seq (env_seq env) (f public), admin, true, modified_admin) in
  let adm f := (set_seq (env_seq env) public, f admin, modified_public, true) in
  match env_event env with
  | RepoCreated repo => pub (set_repos (push_new rp_name repo))
  | RepoUpdated repo =>
      pub (set_repos (update_first rp_name (rp_name repo)
        (λ existing, set_counts (rp_artifact_count existing) (rp_total_bytes existing) repo)))
  | RepoDeleted name => pub (set_repos (drop_key rp_name name))
  | RepoStatsUpdated name artifact_count total_bytes =>
      pub (set_repos (update_first rp_name name (set_counts artifact_count total_bytes)))
  | StoreCreated store => pub (set_stores (push_new sp_name store))
  | StoreUpdated store => pub (set_stores (update_first sp_name (sp_name store) (λ _, store)))
  | StoreDeleted name => pub (set_stores (drop_key sp_name name))
  | StoreStatsUpdated name blob_count total_bytes =>
      pub (set_stores (update_first sp_name name (set_blobs_counts blob_count total_bytes)))
  | TaskCreated task => pub (set_tasks (push_new ti_id task))
  | TaskUpdated task => pub (set_tasks (upsert ti_id task))
  | TaskDeleted id => pub (set_tasks (drop_key ti_id id))
  | UserCreated user => adm (set_users (push_new up_username user))
  | UserUpdated user => adm (set_users (update_first up_username (up_username user) (λ _, user)))
  | UserDeleted username => adm (set_users (drop_key up_username username))
  | RoleCreated role => adm (set_roles (push_new lp_name role))
  | RoleUpdated role => adm (set_roles (update_first lp_name (lp_name role) (λ _, role)))
  | RoleDeleted name => adm (set_roles (drop_key lp_name name))
  | SettingsUpdated settings => pub (set_settings settings)
  | Resync => (set_seq (env_seq env) public, admin, modified_public, modified_admin)
  end.

(** server/src/server/worker/materializer.rs:147-308 *)
Definition apply_batch (model : MaterializedModel) (events : list Envelope) : MaterializedModel :=
  let '(public, admin, modified_public, modified_admin) :=
    foldl apply_event (mm_public model, mm_admin model, false, false) events in
  mkMaterializedModel (if modified_public : bool then public else mm_public model)
    (if modified_admin : bool then admin else mm_admin model).

(** ** Building the model *)

Section build.
Context `{Blake3} `{BuildInfo} `{UuidText}.
Context `{Serde RepoConfig} `{Serde TreeEntry} `{Serde StoreRecord} `{Serde StoreStatsRecord}.
Context `{Serde TaskRecord} `{Serde UserRecord} `{Serde RoleRecord}.

(** [stats.unwrap_or_default()] of every repository, in order. *)
Fixpoint all_repo_stats (fuel : nat) (configs : list RepoConfig) : prog (list RepoResponse) :=
  match configs with
  | [] => Ret []
  | c :: configs =>
      let* stats := get_repo_stats fuel c in
      let* rest := all_repo_stats fuel configs in
      Ret (with_stats (repo_response c) (match stats with Ok s => s | Err _ => zero_stats end) :: rest)
  end.

(** The stores with their statistics, where there are any. *)
Fixpoint all_store_stats (stores : list StoreRecord) : prog (list StoreResponse) :=
  match stores with
  | [] => Ret []
  | s :: stores =>
      let* stats := get_store_stats (sp_name (store_response s)) in
      let* rest := all_store_stats stores in
      Ret (match stats with
           | Ok (Some stats) => set_blobs_counts (ss_blob_count stats) (ss_total_bytes stats) (store_response s)
           | _ => store_response s
           end :: rest)
  end.

(** server/src/server/worker/materializer.rs:311-376 *)
Definition build_full_model (fuel : nat) (current_settings : Settings) : prog (result MaterializedModel) :=
  let*? configs := list_repos in
  let* repos := all_repo_stats fuel configs in
  let*? store_records := list_stores in
  let* stores := all_store_stats store_records in
  let* task_list := list_task_infos in
  let*? user_records := list_users in
  let*? role_records := list_roles in
  Ret (Ok (mkMaterializedModel
    (mkPublicModel 0 repos stores (set_log [] <$> task_list) current_settings (mkHealthResponse "ok" VERSION))
    (mkAdminModel (user_response <$> user_records) (role_response <$> role_records)))).

(** server/src/server/worker/materializer.rs:378-393 *)
Definition resync (fuel : nat) (current_settings : Settings) (model : MaterializedModel) : prog MaterializedModel :=
  let* r := build_full_model fuel current_settings in
  Ret (match r with Ok fresh => fresh | Err _ => model end).
End build.

(** ** The stream of a client *)

(** What a client is sent. *)
Inductive sse : Type :=
| SseSnapshot (s : ModelSnapshot)
| SseEvent (e : Envelope)
| SseResync.

(** The deltas that a receiver at [pos] is sent from what the bus holds; a
    client that lags is told so and the stream ends. *)
(** server/src/server/infra/event_stream.rs:62-96 *)
Fixpoint stream_deltas (fuel capacity : nat) (topics : gset Topic) (bus : EventBus) (pos : nat) : list sse :=
  match fuel with
  | O => []
  | S fuel =>
      match recv capacity bus pos with
      | (Received e, pos) =>
          (if decide (env_topic e ∈ topics) then [SseEvent e] else []) ++ stream_deltas fuel capacity topics bus pos
      | (Lagged _, _) => [SseResync]
      | (Waiting, _) => []
      end
  end.

(** The stream of a client that connects when the model and the bus are as
    given, once the bus has moved on to [later]. *)
(** server/src/server/infra/event_stream.rs:45-97 *)
Definition event_stream (capacity : nat) (is_admin : bool) (raw : option string)
    (model : MaterializedModel) (bus later : EventBus) : list sse :=
  let topics := parse_topics raw is_admin in
  SseSnapshot (to_snapshot model is_admin) ::
    stream_deltas (S (length (bus_sent later))) capacity topics later (subscribe bus).

(** ** Lists with keys *)

Section list_lemmas.
Context {A : Type} (key : A → string).
Implicit Types (l : list A) (x : A).

Lemma existsb_key k l : existsb (λ y, bool_decide (key y = k)) l = true ↔ k ∈ key <$> l.
Proof.
  rewrite existsb_exists, list_elem_of_fmap. split.
  - intros (y & Hy & Heq%bool_decide_eq_true). exists y. by rewrite list_elem_of_In.
  - intros (y & -> & Hy). exists y. rewrite bool_decide_eq_true. by rewrite <-list_elem_of_In.
Qed.

Lemma existsb_key_false k l : existsb (λ y, bool_decide (key y = k)) l = false ↔ k ∉ key <$> l.
Proof. rewrite <-existsb_key. by destruct (existsb _ l). Qed.

Lemma push_new_keys x l :
  key <$> push_new key x l = if decide (key x ∈ key <$> l) then key <$> l else (key <$> l) ++ [key x].
Proof.
  unfold push_new. case_decide as Hx.
  - by rewrite (proj2 (existsb_key _ _) Hx).
  - rewrite (proj2 (existsb_key_false _ _) Hx). by rewrite fmap_app.
Qed.

Lemma update_first_keys k f l : (∀ x, key x = k → key (f x) = k) → key <$> update_first key k f l = key <$> l.
Proof.
  intros Hf. induction l as [|x l IH]; [done|]. cbn [update_first]. case_decide as Hx; cbn.
  - by rewrite Hf, Hx.
  - by rewrite IH.
Qed.

Lemma upsert_keys x l :
  key <$> upsert key x l = if decide (key x ∈ key <$> l) then key <$> l else (key <$> l) ++ [key x].
Proof.
  unfold upsert. case_decide as Hx.
  - rewrite (proj2 (existsb_key _ _) Hx). by apply update_first_keys.
  - rewrite (proj2 (existsb_key_false _ _) Hx). by rewrite fmap_app.
Qed.

Lemma drop_key_keys k l : key <$> drop_key key k l = filter (λ y, y ≠ k) (key <$> l).
Proof. unfold drop_key. by rewrite filter_fmap_comm. Qed.

Lemma NoDup_snoc (l : list string) (k : string) : NoDup l → k ∉ l → NoDup (l ++ [k]).
Proof.
  intros Hl Hk. apply NoDup_app. split_and!; [done| |apply NoDup_singleton].
  by intros y Hy ->%list_elem_of_singleton.
Qed.

Lemma push_new_nodup x l : NoDup (key <$> l) → NoDup (key <$> push_new key x l).
Proof. rewrite push_new_keys. case_decide; [done|]. intros. by apply NoDup_snoc. Qed.
Lemma upsert_nodup x l : NoDup (key <$> l) → NoDup (key <$> upsert key x l).
Proof. rewrite upsert_keys. case_decide; [done|]. intros. by apply NoDup_snoc. Qed.
Lemma drop_key_nodup k l : NoDup (key <$> l) → NoDup (key <$> drop_key key k l).
Proof. rewrite drop_key_keys. intros. by apply NoDup_filter. Qed.
Lemma update_first_nodup k f l :
  (∀ x, key x = k → key (f x) = k) → NoDup (key <$> l) → NoDup (key <$> update_first key k f l).
Proof. intros Hf. by rewrite update_first_keys. Qed.
End list_lemmas.

Create HintDb model.
#[export] Hint Resolve push_new_nodup upsert_nodup drop_key_nodup update_first_nodup : model.

(** ** Properties *)

(** No two entries of the model have the same name. *)
Definition model_ok (p : PublicModel) (a : AdminModel) : Prop :=
  NoDup (rp_name <$> pm_repos p) ∧ NoDup (sp_name <$> pm_stores p) ∧ NoDup (ti_id <$> pm_tasks p) ∧
  NoDup (up_username <$> am_users a) ∧ NoDup (lp_name <$> am_roles a).

Definition well_formed_model (m : MaterializedModel) : Prop := model_ok (mm_public m) (mm_admin m).

Lemma apply_event_ok st env :
  let '(p, a, _, _) := st in model_ok p a →
  let '(p', a', _, _) := apply_event st env in model_ok p' a'.
Proof.
  destruct st as [ [ [p a] mp] ma]. intros (Hr & Hs & Ht & Hu & Hl).
  unfold apply_event. destruct (env_event env); unfold model_ok; cbn; split_and!;
    solve [done|auto with model|apply update_first_nodup; [by intros ? <-|done] ].
Qed.

(** C36: The model is a set of named entries.  Whatever batch of events the
    materializer applies, in whatever order and however often an event is
    repeated, no two repositories, stores, tasks, users or roles of the model
    have the same name. *)
Theorem apply_batch_well_formed (m : MaterializedModel) (events : list Envelope) :
  well_formed_model m → well_formed_model (apply_batch m events).
Proof.
  intros Hm. unfold apply_batch.
  assert (∀ st, (let '(p, a, _, _) := st in model_ok p a) →
    let '(p, a, _, _) := foldl apply_event st events in model_ok p a) as Hfold.
  { induction events as [|env events IH]; [by intros|]. intros st Hst. cbn [foldl]. apply IH.
    pose proof (apply_event_ok st env) as Hok. destruct st as [ [ [p a] mp] ma]. by apply Hok. }
  specialize (Hfold (mm_public m, mm_admin m, false, false) Hm).
  destruct (foldl _ _ _) as [ [ [p a] mp] ma]. destruct Hfold as (Hr & Hs & Ht & Hu & Hl).
  destruct Hm as (Hr0 & Hs0 & Ht0 & Hu0 & Hl0). by destruct mp, ma; unfold well_formed_model, model_ok; cbn; split_and!.
Qed.

(** The events about users and roles. *)
Definition admin_event (e : ModelEvent) : bool :=
  match e with
  | UserCreated _ | UserUpdated _ | UserDeleted _ | RoleCreated _ | RoleUpdated _ | RoleDeleted _ => true
  | _ => false
  end.

(** Every publisher of an event about users or roles uses their topics. *)
Definition tagged (bus : EventBus) : Prop :=
  Forall (λ e, admin_event (env_event e) = true → env_topic e ∈ ({[ TUsers; TRoles ]} : gset Topic)) (bus_sent bus).

Lemma parse_topics_public raw :
  parse_topics raw false = parse_topics raw true ∖ {[ TUsers; TRoles ]}.
Proof.
  assert (public_topics = all_topics ∖ {[ TUsers; TRoles ]}) as Hpub by by_decide.
  destruct raw as [ [|c s]|]; [exact Hpub| |exact Hpub].
  unfold parse_topics. apply set_eq. intros t.
  rewrite elem_of_difference, !elem_of_list_to_set, !list_elem_of_omap. split.
  - intros (x & Hx & Ht). destruct (topic_of_name (trim_ws x)) as [ [] |] eqn:Hn; simplify_eq;
      (split; [exists x; by rewrite Hn|set_solver]).
  - intros [(x & Hx & Ht) Hne]. exists x. split; [done|].
    destruct (topic_of_name (trim_ws x)) as [ [] |]; simplify_eq; set_solver.
Qed.

(** What a receiver is sent when it has not fallen behind. *)
Lemma stream_deltas_exact fuel capacity topics bus pos :
  length (bus_sent bus) ≤ pos + capacity → length (bus_sent bus) - pos < fuel →
  stream_deltas fuel capacity topics bus pos = SseEvent <$> filter (λ e, env_topic e ∈ topics) (drop pos (bus_sent bus)).
Proof.
  revert pos. induction fuel as [|fuel IH]; intros pos Hcap Hf; [lia|]. cbn [stream_deltas]. unfold recv.
  rewrite decide_False by lia. destruct (bus_sent bus !! pos) as [e|] eqn:He.
  - assert (pos < length (bus_sent bus)) by (apply lookup_lt_is_Some; by eexists).
    rewrite IH by lia. rewrite (drop_S (bus_sent bus) e pos He), filter_cons. by case_decide.
  - apply lookup_ge_None in He. by rewrite drop_ge.
Qed.

Lemma stream_deltas_lag fuel capacity topics bus pos :
  pos < length (bus_sent bus) - capacity → stream_deltas (S fuel) capacity topics bus pos = [SseResync].
Proof. intros Hlag. cbn [stream_deltas]. unfold recv. by rewrite decide_True. Qed.

(** The stream of a client is its snapshot and the events after it
    subscribed.  Nothing that happens afterwards on its topics is lost or
    repeated or comes out of order, unless it falls behind by more than the
    capacity of the channel, and then it is told to start again.  But what was
    published before it subscribed is never sent: an event that the model it
    was shown does not contain yet is lost to it for good. *)
Theorem event_stream_exact capacity is_admin raw model bus later :
  bus_sent bus `prefix_of` bus_sent later →
  let news := drop (length (bus_sent bus)) (bus_sent later) in
  event_stream capacity is_admin raw model bus later =
    SseSnapshot (to_snapshot model is_admin) ::
      (if decide (length news ≤ capacity)
       then SseEvent <$> filter (λ e, env_topic e ∈ parse_topics raw is_admin) news
       else [SseResync]) ∧
  (NoDup (bus_sent later) → ∀ e, e ∈ bus_sent bus →
     SseEvent e ∉ event_stream capacity is_admin raw model bus later).
Proof.
  intros [l Hl] news. unfold event_stream, subscribe.
  assert (news = l) as Hnews by (unfold news; by rewrite Hl, drop_app_length).
  assert (length (bus_sent later) = length (bus_sent bus) + length l) as Hlen by by rewrite Hl, length_app.
  assert (stream_deltas (S (length (bus_sent later))) capacity (parse_topics raw is_admin) later (length (bus_sent bus)) =
    if decide (length news ≤ capacity)
    then SseEvent <$> filter (λ e, env_topic e ∈ parse_topics raw is_admin) news else [SseResync]) as ->.
  { rewrite Hnews. case_decide as Hd.
    - rewrite stream_deltas_exact by lia. by rewrite Hl, drop_app_length.
    - apply stream_deltas_lag. lia. }
  split; [done|]. intros Hnd e He Hin. apply elem_of_cons in Hin as [?|Hin]; [done|]. case_decide as Hd.
  - apply list_elem_of_fmap in Hin as (e' & [= <-] & [_ Hin]%list_elem_of_filter). rewrite Hnews in Hin.
    rewrite Hl in Hnd. apply NoDup_app in Hnd as (_ & Hnd & _). by apply (Hnd e).
  - by apply list_elem_of_singleton in Hin.
Qed.

(** A client that is not an administrator learns nothing about users and
    roles.  Whatever topics it asks for, its snapshot has no users and no
    roles, and no event about them is sent to it. *)
Theorem event_stream_private capacity raw model bus later :
  tagged later →
  ∀ x, x ∈ event_stream capacity false raw model bus later →
    match x with
    | SseSnapshot s => sn_users s = None ∧ sn_roles s = None
    | SseEvent e => admin_event (env_event e) = false
    | SseResync => True
    end.
Proof.
  intros Htag x. unfold event_stream. rewrite elem_of_cons. intros [->|Hx]; [done|].
  revert Hx. generalize (subscribe bus), (S (length (bus_sent later))). intros pos fuel. revert pos.
  induction fuel as [|fuel IH]; intros pos; cbn [stream_deltas]; [by intros ?%elem_of_nil|].
  unfold recv. case_decide; [by intros ->%list_elem_of_singleton|].
  destruct (bus_sent later !! pos) as [e|] eqn:He; [|by intros ?%elem_of_nil].
  rewrite elem_of_app. intros [Hx|Hx]; [|by apply (IH (S pos))].
  case_decide as Ht; [|by apply elem_of_nil in Hx]. apply list_elem_of_singleton in Hx as ->.
  destruct (admin_event (env_event e)) eqn:Ha; [exfalso|done].
  unfold tagged in Htag. rewrite Forall_forall in Htag.
  specialize (Htag e (list_elem_of_lookup_2 _ _ _ He) Ha).
  rewrite parse_topics_public, elem_of_difference in Ht. by destruct Ht.
Qed.

(** ** Witnesses *)

Definition toy_build : BuildInfo := "1.0".
Definition toy_model : MaterializedModel := @empty_model toy_build.
Definition toy_view (name : string) : RepoResponse := repo_response (toy_repo name Hosted false).

(** One repository has been announced when the client connects, another one is
    later. *)
Definition toy_bus : EventBus := mkEventBus 1 [mkEnvelope 0 5%Z TRepos (RepoCreated (toy_view "early"))].
Definition toy_later : EventBus :=
  mkEventBus 3 (bus_sent toy_bus ++
    [mkEnvelope 1 6%Z TUsers (UserDeleted "bob"); mkEnvelope 2 7%Z TRepos (RepoCreated (toy_view "late"))]).

Lemma apply_batch_well_formed_witness :
  let m := apply_batch toy_model (bus_sent toy_later ++ bus_sent toy_later) in
  well_formed_model m ∧ rp_name <$> pm_repos (mm_public m) = ["early"; "late"].
Proof.
  split; [|vm_compute; reflexivity].
  apply (apply_batch_well_formed toy_model (bus_sent toy_later ++ bus_sent toy_later)).
  split_and!; constructor.
Defined.

Lemma event_stream_exact_witness :
  event_stream 16 false (Some "repos, users") toy_model toy_bus toy_later =
    [SseSnapshot (to_snapshot toy_model false); SseEvent (mkEnvelope 2 7%Z TRepos (RepoCreated (toy_view "late")))] ∧
  sn_repos (to_snapshot toy_model false) = [] ∧
  SseEvent (mkEnvelope 0 5%Z TRepos (RepoCreated (toy_view "early"))) ∉
    event_stream 16 false (Some "repos, users") toy_model toy_bus toy_later.
Proof.
  destruct (event_stream_exact 16 false (Some "repos, users") toy_model toy_bus toy_later) as [Hs Hlost].
  { by eexists. }
  split; [refine (eq_trans Hs _); vm_compute; reflexivity|]. split; [reflexivity|]. apply Hlost.
  - apply (NoDup_fmap_1 env_seq). by_decide.
  - by left.
Defined.

Lemma event_stream_private_witness :
  ∀ e, SseEvent e ∈ event_stream 16 false (Some "users,repos") toy_model toy_bus toy_later →
    admin_event (env_event e) = false.
Proof.
  intros e He. refine (event_stream_private 16 (Some "users,repos") toy_model toy_bus toy_later _ (SseEvent e) He).
  repeat constructor; intros; try discriminate; set_solver.
Defined.
