(* ===== verification/StateScanner.v ===== *)
(** * The state scanner (server/src/server/worker/state_scanner.rs)

    Every instance compares the repositories, stores and tasks of the
    key-value store with what it last saw and publishes the differences.  Its
    state and the bus are passed explicitly; hash sets and hash maps are
    iterated in the order of a schedule. *)

From S2P Require Import Prelude Bytes Errors Keys Records Kv Prog Wp Scan Pagination Artifact Blob Repo.
From S2P Require Import Directory Accounts Tasks TaskManager Settings EventBus.

(** server/src/server/worker/state_scanner.rs:35-35 *)
Definition TASK_EVENT_TAIL_BATCH : nat := 1000.

(** server/src/server/worker/state_scanner.rs:53-58 *)
Record TaskDigest : Type := mkTaskDigest {
  td_status : TaskStatus;
  td_updated_at : DateTime;
  td_event_seq : Z;
}.

#[export] Instance TaskDigest_eq_dec : EqDecision TaskDigest.
Proof. solve_decision. Defined.

(** server/src/server/worker/state_scanner.rs:60-68 *)
Definition digest_of (record : TaskRecord) : TaskDigest :=
  mkTaskDigest (tr_status record) (tr_updated_at record) (tr_event_seq record).

(** server/src/server/worker/state_scanner.rs:37-51 *)
Record ScannerState : Type := mkScannerState {
  sc_repo_stats : gmap string (Z * Z);
  sc_repo_set : gset string;
  sc_store_stats : gmap string (Z * Z);
  sc_store_set : gset string;
  sc_task_digests : gmap string TaskDigest;
  sc_task_event_seq : gmap string Z;
}.

Definition new_scanner_state : ScannerState := mkScannerState ∅ ∅ ∅ ∅ ∅ ∅.

(** The calls of [publish] of a loop. *)
Fixpoint publish_all (topic : Topic) (events : list ModelEvent) (bus : EventBus) : prog EventBus :=
  match events with
  | [] => Ret bus
  | e :: events => let* bus := publish topic e bus in publish_all topic events bus
  end.

Section scanner.
Context `{Blake3} `{UuidText} `{Scheduler}.
Context `{Serde RepoConfig} `{Serde TreeEntry} `{Serde StoreRecord} `{Serde StoreStatsRecord}.
Context `{Serde TaskRecord} `{Serde TaskEventRecord}.

(** server/src/server/worker/state_scanner.rs:144-165 *)
Fixpoint scan_repo_stats (fuel : nat) (configs : list RepoConfig) (seen : gmap string (Z * Z)) (bus : EventBus) :
    prog (gmap string (Z * Z) * EventBus) :=
  match configs with
  | [] => Ret (seen, bus)
  | repo :: configs =>
      let* r := get_repo_stats fuel repo in
      match r with
      | Err _ => scan_repo_stats fuel configs seen bus
      | Ok stats =>
          let key := (rs_artifact_count stats, rs_total_bytes stats) in
          if decide (seen !! rc_name repo = Some key) then scan_repo_stats fuel configs seen bus
          else
            let* bus := publish TRepos (RepoStatsUpdated (rc_name repo) (rs_artifact_count stats) (rs_total_bytes stats)) bus in
            scan_repo_stats fuel configs (<[rc_name repo := key]> seen) bus
      end
  end.

(** server/src/server/worker/state_scanner.rs:122-171 *)
Definition scan_repos (fuel : nat) (state : ScannerState) (bus : EventBus) :
    prog (result unit * (ScannerState * EventBus)) :=
  let* r := list_repos in
  match r with
  | Err e => Ret (Err e, (state, bus))
  | Ok configs =>
      let seen : gset string := list_to_set (rc_name <$> configs) in
      let* bus := publish_all TRepos
        ((λ c, RepoCreated (repo_response c)) <$> filter (λ c, rc_name c ∉ sc_repo_set state) configs) bus in
      let* bus := publish_all TRepos (RepoDeleted <$> arrange 50 (elements (sc_repo_set state ∖ seen))) bus in
      let* x := scan_repo_stats fuel configs (sc_repo_stats state) bus in
      let '(repo_stats, bus) := x in
      Ret (Ok tt,
        (mkScannerState (filter (λ kv, kv.1 ∈ seen) repo_stats) seen (sc_store_stats state) (sc_store_set state)
           (sc_task_digests state) (sc_task_event_seq state), bus))
  end.

(** server/src/server/worker/state_scanner.rs:200-223 *)
Fixpoint scan_store_stats (records : list StoreRecord) (seen : gmap string (Z * Z)) (bus : EventBus) :
    prog (gmap string (Z * Z) * EventBus) :=
  match records with
  | [] => Ret (seen, bus)
  | sr :: records =>
      let* r := get_store_stats (sr_name sr) in
      match r with
      | Ok (Some stats) =>
          let key := (ss_blob_count stats, ss_total_bytes stats) in
          if decide (seen !! sr_name sr = Some key) then scan_store_stats records seen bus
          else
            let* bus := publish TStores (StoreStatsUpdated (sr_name sr) (ss_blob_count stats) (ss_total_bytes stats)) bus in
            scan_store_stats records (<[sr_name sr := key]> seen) bus
      | Ok None => scan_store_stats records (delete (sr_name sr) seen) bus
      | Err _ => scan_store_stats records seen bus
      end
  end.

(** server/src/server/worker/state_scanner.rs:177-228 *)
Definition scan_stores (state : ScannerState) (bus : EventBus) : prog (result unit * (ScannerState * EventBus)) :=
  let* r := list_stores in
  match r with
  | Err e => Ret (Err e, (state, bus))
  | Ok records =>
      let seen : gset string := list_to_set (sr_name <$> records) in
      let* bus := publish_all TStores
        ((λ s, StoreCreated (store_response s)) <$> filter (λ s, sr_name s ∉ sc_store_set state) records) bus in
      let* bus := publish_all TStores (StoreDeleted <$> arrange 51 (elements (sc_store_set state ∖ seen))) bus in
      let* x := scan_store_stats records (sc_store_stats state) bus in
      let '(store_stats, bus) := x in
      Ret (Ok tt,
        (mkScannerState (sc_repo_stats state) (sc_repo_set state) (filter (λ kv, kv.1 ∈ seen) store_stats) seen
           (sc_task_digests state) (sc_task_event_seq state), bus))
  end.

(** server/src/server/worker/state_scanner.rs:286-316 *)
Definition build_task_info (record : TaskRecord) (last_seen_seq : Z) : prog TaskInfo :=
  let info := from_record record in
  if decide (last_seen_seq < tr_event_seq record)%Z then
    let from := if decide (last_seen_seq = 0)%Z then 0%Z else u64_add last_seen_seq 1 in
    let* r := list_task_events_since (tr_id record) (Z.to_N from) TASK_EVENT_TAIL_BATCH in
    Ret (match r with Ok events => set_log (log_entry <$> events) info | Err _ => info end)
  else Ret info.

Definition with_tasks (digests : gmap string TaskDigest) (seqs : gmap string Z) (st : ScannerState) : ScannerState :=
  mkScannerState (sc_repo_stats st) (sc_repo_set st) (sc_store_stats st) (sc_store_set st) digests seqs.

(** server/src/server/worker/state_scanner.rs:242-268 *)
Fixpoint scan_task_records (records : list TaskRecord) (seen : gset string) (state : ScannerState) (bus : EventBus) :
    prog (gset string * ScannerState * EventBus) :=
  match records with
  | [] => Ret (seen, state, bus)
  | record :: records =>
      if tr_deleting record then scan_task_records records seen state bus
      else
        let seen := {[ tr_id record ]} ∪ seen in
        let digest := digest_of record in
        let next := with_tasks (<[tr_id record := digest]> (sc_task_digests state))
                      (<[tr_id record := tr_event_seq record]> (sc_task_event_seq state)) state in
        match sc_task_digests state !! tr_id record with
        | None =>
            let* info := build_task_info record 0 in
            let* bus := publish TTasks (TaskCreated info) bus in
            scan_task_records records seen next bus
        | Some prev =>
            if decide (prev = digest) then scan_task_records records seen state bus
            else
              let last_seen_seq := default 0%Z (sc_task_event_seq state !! tr_id record) in
              let* info := build_task_info record last_seen_seq in
              let* bus := publish TTasks (TaskUpdated info) bus in
              scan_task_records records seen next bus
        end
  end.

(** server/src/server/worker/state_scanner.rs:234-282 *)
Definition scan_tasks (state : ScannerState) (bus : EventBus) : prog (result unit * (ScannerState * EventBus)) :=
  let* r := list_tasks in
  match r with
  | Err e => Ret (Err e, (state, bus))
  | Ok records =>
      let* x := scan_task_records records ∅ state bus in
      let '(seen, state, bus) := x in
      let gone := arrange 52 (elements (dom (sc_task_digests state) ∖ seen)) in
      let* bus := publish_all TTasks (TaskDeleted <$> gone) bus in
      Ret (Ok tt,
        (with_tasks (filter (λ kv, kv.1 ∈ seen) (sc_task_digests state))
           (foldr delete (sc_task_event_seq state) gone) state, bus))
  end.

(** server/src/server/worker/state_scanner.rs:107-116 *)
Definition scan_once (fuel : nat) (state : ScannerState) (bus : EventBus) :
    prog (result unit * (ScannerState * EventBus)) :=
  let* x := scan_repos fuel state bus in
  match x with
  | (Err e, s) => Ret (Err e, s)
  | (Ok _, (state, bus)) =>
      let* y := scan_stores state bus in
      match y with
      | (Err e, s) => Ret (Err e, s)
      | (Ok _, (state, bus)) => scan_tasks state bus
      end
  end.
End scanner.

(** ** The model as maps *)

(** A list of the model as a map from names to what matters of the entries. *)
Section views.
Context {A V : Type} (key : A → string) (val : A → V).
Implicit Types (l : list A) (x : A).

Definition view l : gmap string V := list_to_map ((λ x, (key x, val x)) <$> l).

Lemma view_cons x l : view (x :: l) = <[key x := val x]> (view l).
Proof. done. Qed.

Lemma view_dom l k : is_Some (view l !! k) ↔ k ∈ key <$> l.
Proof.
  induction l as [|x l IH]; [split; [by intros []|by intros ?%elem_of_nil]|].
  rewrite view_cons, fmap_cons, elem_of_cons, <-IH. destruct (decide (key x = k)) as [<-|Hne].
  - rewrite lookup_insert_eq. split; [by left|by eexists].
  - rewrite lookup_insert_ne by done. split; [by right|]. by intros [->|?].
Qed.

Lemma view_snoc x l : key x ∉ key <$> l → view (l ++ [x]) = <[key x := val x]> (view l).
Proof.
  induction l as [|y l IH]; [done|]. rewrite fmap_cons, not_elem_of_cons. intros [Hne Hx].
  cbn [app]. rewrite !view_cons, IH by done. by rewrite insert_insert_ne.
Qed.

Lemma view_push_new x l :
  view (push_new key x l) = if decide (is_Some (view l !! key x)) then view l else <[key x := val x]> (view l).
Proof.
  unfold push_new. case_decide as Hx; rewrite view_dom in Hx.
  - by rewrite (proj2 (existsb_key key _ _) Hx).
  - rewrite (proj2 (existsb_key_false key _ _) Hx). by apply view_snoc.
Qed.

Lemma view_drop_key k l : view (drop_key key k l) = delete k (view l).
Proof.
  unfold drop_key. induction l as [|x l IH]; [symmetry; apply delete_empty|].
  rewrite filter_cons, view_cons. case_decide as Hx.
  - rewrite view_cons, IH. by rewrite delete_insert_ne.
  - subst k. by rewrite delete_insert_eq, IH.
Qed.

Lemma view_update_first k f g l :
  (∀ x, key x = k → key (f x) = k ∧ val (f x) = g (val x)) →
  view (update_first key k f l) = alter g k (view l).
Proof.
  intros Hf. induction l as [|x l IH]; 
    [cbn [update_first]; change (view []) with (∅ : gmap string V); apply map_eq; intros j;
     rewrite lookup_alter, !lookup_empty; by case_decide|].
  cbn [update_first]. case_decide as Hx; rewrite !view_cons.
  - destruct (Hf x Hx) as [-> ->]. rewrite Hx. by rewrite alter_insert_eq.
  - rewrite IH. by rewrite alter_insert_ne.
Qed.

Lemma view_upsert x l : view (upsert key x l) = <[key x := val x]> (view l).
Proof.
  unfold upsert. destruct (existsb _ l) eqn:Hx.
  - rewrite existsb_key in Hx. rewrite (view_update_first _ _ (λ _, val x)) by done.
    apply view_dom in Hx as [v Hv]. apply map_eq. intros k. destruct (decide (k = key x)) as [->|Hne].
    + by rewrite lookup_insert_eq, lookup_alter_eq, Hv.
    + by rewrite lookup_insert_ne, lookup_alter_ne.
  - rewrite existsb_key_false in Hx. by apply view_snoc.
Qed.
End views.

(** What an event does to the repositories, stores and tasks of the model. *)
Definition repo_event (rs : list RepoResponse) (e : ModelEvent) : list RepoResponse :=
  match e with
  | RepoCreated repo => push_new rp_name repo rs
  | RepoUpdated repo =>
      update_first rp_name (rp_name repo)
        (λ existing, set_counts (rp_artifact_count existing) (rp_total_bytes existing) repo) rs
  | RepoDeleted name => drop_key rp_name name rs
  | RepoStatsUpdated name count bytes => update_first rp_name name (set_counts count bytes) rs
  | _ => rs
  end.

Definition store_event (ss : list StoreResponse) (e : ModelEvent) : list StoreResponse :=
  match e with
  | StoreCreated store => push_new sp_name store ss
  | StoreUpdated store => update_first sp_name (sp_name store) (λ _, store) ss
  | StoreDeleted name => drop_key sp_name name ss
  | StoreStatsUpdated name count bytes => update_first sp_name name (set_blobs_counts count bytes) ss
  | _ => ss
  end.

Definition task_event (ts : list TaskInfo) (e : ModelEvent) : list TaskInfo :=
  match e with
  | TaskCreated task => push_new ti_id task ts
  | TaskUpdated task => upsert ti_id task ts
  | TaskDeleted id => drop_key ti_id id ts
  | _ => ts
  end.

Lemma fold_events (l : list Envelope) (p : PublicModel) (a : AdminModel) mp ma :
  let '(p', _, mp', _) := foldl apply_event (p, a, mp, ma) l in
  pm_repos p' = foldl repo_event (pm_repos p) (env_event <$> l) ∧
  pm_stores p' = foldl store_event (pm_stores p) (env_event <$> l) ∧
  pm_tasks p' = foldl task_event (pm_tasks p) (env_event <$> l) ∧
  (mp' = false → pm_repos p' = pm_repos p ∧ pm_stores p' = pm_stores p ∧ pm_tasks p' = pm_tasks p ∧ mp = false).
Proof.
  revert p a mp ma. induction l as [|env l IH]; intros p a mp ma; [done|]. cbn [foldl fmap list_fmap].
  destruct (apply_event (p, a, mp, ma) env) as [ [ [p1 a1] mp1] ma1] eqn:He.
  specialize (IH p1 a1 mp1 ma1). destruct (foldl _ _ _) as [ [ [p2 a2] mp2] ma2].
  destruct IH as (Hr & Hs & Ht & Hf).
  assert (pm_repos p1 = repo_event (pm_repos p) (env_event env) ∧
    pm_stores p1 = store_event (pm_stores p) (env_event env) ∧
    pm_tasks p1 = task_event (pm_tasks p) (env_event env) ∧
    (mp1 = false → pm_repos p1 = pm_repos p ∧ pm_stores p1 = pm_stores p ∧ pm_tasks p1 = pm_tasks p ∧ mp = false))
    as (Hr1 & Hs1 & Ht1 & Hf1).
  { unfold apply_event in He. destruct (env_event env); injection He as <- <- <- <-; done. }
  rewrite <-Hr1, <-Hs1, <-Ht1. split_and!; [done..|]. intros Hmp.
  destruct (Hf Hmp) as (? & ? & ? & Hmp1). destruct (Hf1 Hmp1) as (? & ? & ? & ?). split_and!; congruence.
Qed.

Lemma apply_batch_lists (m : MaterializedModel) (l : list Envelope) :
  pm_repos (mm_public (apply_batch m l)) = foldl repo_event (pm_repos (mm_public m)) (env_event <$> l) ∧
  pm_stores (mm_public (apply_batch m l)) = foldl store_event (pm_stores (mm_public m)) (env_event <$> l) ∧
  pm_tasks (mm_public (apply_batch m l)) = foldl task_event (pm_tasks (mm_public m)) (env_event <$> l).
Proof.
  unfold apply_batch. pose proof (fold_events l (mm_public m) (mm_admin m) false false) as Hf.
  destruct (foldl _ _ _) as [ [ [p a] mp] ma]. destruct Hf as (Hr & Hs & Ht & Hmp). cbn [mm_public].
  destruct mp; [done|]. destruct (Hmp eq_refl) as (? & ? & ? & _). split_and!; congruence.
Qed.

(** The same on the maps. *)
Definition repo_counts (r : RepoResponse) : Z * Z := (rp_artifact_count r, rp_total_bytes r).
Definition store_counts (s : StoreResponse) : option Z * option Z := (sp_blob_count s, sp_total_bytes s).

Definition insert_new {V} (k : string) (v : V) (m : gmap string V) : gmap string V :=
  if decide (is_Some (m !! k)) then m else <[k := v]> m.

Definition repo_act (m : gmap string (Z * Z)) (e : ModelEvent) : gmap string (Z * Z) :=
  match e with
  | RepoCreated repo => insert_new (rp_name repo) (repo_counts repo) m
  | RepoDeleted name => delete name m
  | RepoStatsUpdated name count bytes => alter (λ _, (count, bytes)) name m
  | _ => m
  end.

Definition store_act (m : gmap string (option Z * option Z)) (e : ModelEvent) : gmap string (option Z * option Z) :=
  match e with
  | StoreCreated store => insert_new (sp_name store) (store_counts store) m
  | StoreUpdated store => alter (λ _, store_counts store) (sp_name store) m
  | StoreDeleted name => delete name m
  | StoreStatsUpdated name count bytes => alter (λ _, (Some count, Some bytes)) name m
  | _ => m
  end.

Definition task_act (m : gmap string TaskInfo) (e : ModelEvent) : gmap string TaskInfo :=
  match e with
  | TaskCreated task => insert_new (ti_id task) task m
  | TaskUpdated task => <[ti_id task := task]> m
  | TaskDeleted id => delete id m
  | _ => m
  end.

Lemma alter_same {V} k (m : gmap string V) : alter (λ v, v) k m = m.
Proof. apply map_eq. intros j. rewrite lookup_alter. case_decide; [subst|done]. by destruct (m !! _). Qed.

Lemma view_repo_events es rs :
  view rp_name repo_counts (foldl repo_event rs es) = foldl repo_act (view rp_name repo_counts rs) es.
Proof.
  revert rs. induction es as [|e es IH]; intros rs; [done|]. cbn [foldl]. rewrite IH. f_equal.
  destruct e; cbn [repo_event repo_act]; try done.
  - apply view_push_new.
  - rewrite (view_update_first _ _ _ _ (λ v, v)), alter_same by (by intros []). done.
  - apply view_drop_key.
  - by apply view_update_first.
Qed.

Lemma view_store_events es ss :
  view sp_name store_counts (foldl store_event ss es) = foldl store_act (view sp_name store_counts ss) es.
Proof.
  revert ss. induction es as [|e es IH]; intros ss; [done|]. cbn [foldl]. rewrite IH. f_equal.
  destruct e; cbn [store_event store_act]; try done.
  - apply view_push_new.
  - by apply view_update_first.
  - apply view_drop_key.
  - by apply view_update_first.
Qed.

Lemma view_task_events es ts :
  view ti_id id (foldl task_event ts es) = foldl task_act (view ti_id id ts) es.
Proof.
  revert ts. induction es as [|e es IH]; intros ts; [done|]. cbn [foldl]. rewrite IH. f_equal.
  destruct e; cbn [task_event task_act]; try done.
  - apply view_push_new.
  - apply view_upsert.
  - apply view_drop_key.
Qed.

(** The topic an event is about. *)
Definition topic_of (e : ModelEvent) : Topic :=
  match e with
  | RepoCreated _ | RepoUpdated _ | RepoDeleted _ | RepoStatsUpdated _ _ _ => TRepos
  | StoreCreated _ | StoreUpdated _ | StoreDeleted _ | StoreStatsUpdated _ _ _ => TStores
  | TaskCreated _ | TaskUpdated _ | TaskDeleted _ => TTasks
  | UserCreated _ | UserUpdated _ | UserDeleted _ => TUsers
  | RoleCreated _ | RoleUpdated _ | RoleDeleted _ => TRoles
  | SettingsUpdated _ => TSettings
  | Resync => THealth
  end.

(** Events about other topics do nothing. *)
Lemma fold_other {M} (act : M → ModelEvent → M) (topic t : Topic) es m :
  (∀ m e, topic_of e ≠ topic → act m e = m) → t ≠ topic →
  Forall (λ e, topic_of e = t) es → foldl act m es = m.
Proof.
  intros Hact Ht Hes. revert m. induction Hes as [|e es He Hes IH]; intros m; [done|]. cbn [foldl].
  rewrite Hact by congruence. apply IH.
Qed.

Lemma repo_act_other m e : topic_of e ≠ TRepos → repo_act m e = m.
Proof. by destruct e. Qed.
Lemma store_act_other m e : topic_of e ≠ TStores → store_act m e = m.
Proof. by destruct e. Qed.
Lemma task_act_other m e : topic_of e ≠ TTasks → task_act m e = m.
Proof. by destruct e. Qed.

(** Names that appear and names that disappear. *)
Lemma fold_created {X V} (act : gmap string V → ModelEvent → gmap string V) (mk : X → ModelEvent)
    (key : X → string) (val : X → V) (xs : list X) m :
  (∀ m x, act m (mk x) = insert_new (key x) (val x) m) →
  m ⊆ foldl act m (mk <$> xs) ∧ dom (foldl act m (mk <$> xs)) = dom m ∪ list_to_set (key <$> xs).
Proof.
  intros Hact. revert m. induction xs as [|x xs IH]; intros m; cbn [fmap list_fmap foldl list_to_set].
  { split; [done|]. set_solver. }
  rewrite Hact. unfold insert_new. case_decide as Hx.
  - destruct (IH m) as [Hs Hd]. split; [done|]. rewrite Hd. apply elem_of_dom in Hx. set_solver.
  - destruct (IH (<[key x := val x]> m)) as [Hs Hd]. split.
    + etrans; [|exact Hs]. apply insert_subseteq. by apply eq_None_not_Some.
    + rewrite Hd, dom_insert_L. set_solver.
Qed.

Lemma fold_deleted {V} (act : gmap string V → ModelEvent → gmap string V) (mk : string → ModelEvent) (ks : list string) m :
  (∀ m k, act m (mk k) = delete k m) →
  ∀ k, foldl act m (mk <$> ks) !! k = if decide (k ∈ ks) then None else m !! k.
Proof.
  intros Hact. revert m. induction ks as [|k' ks IH]; intros m k; cbn [fmap list_fmap foldl]; [done|].
  rewrite Hact, IH. destruct (decide (k = k')) as [->|Hne].
  - rewrite lookup_delete_eq. rewrite (decide_True (P:=k' ∈ k' :: ks)) by by left. by case_decide.
  - rewrite lookup_delete_ne by done. pose proof (elem_of_cons ks k k') as Hiff.
    repeat case_decide; tauto || done.
Qed.

(** ** Runs of the scanner *)

Section runs.
Context `{Blake3} `{UuidText} `{Scheduler} `{UuidGen}.
Context `{Serde RepoConfig} `{Serde TreeEntry} `{Serde StoreRecord} `{Serde StoreStatsRecord}.
Context `{Serde TaskRecord} `{Serde TaskEventRecord}.
Implicit Types (w : world kvmap) (bus : EventBus).

(** The bus has moved on by the events [es], which are about [topic]. *)
Definition published (topic : Topic) (es : list ModelEvent) bus bus' : Prop :=
  ∃ new, bus_sent bus' = bus_sent bus ++ new ∧ env_event <$> new = es ∧ Forall (λ e, topic_of e = topic) es.

Lemma published_nil topic bus : published topic [] bus bus.
Proof. exists []. by rewrite app_nil_r. Qed.

Lemma published_app topic es1 es2 bus1 bus2 bus3 :
  published topic es1 bus1 bus2 → published topic es2 bus2 bus3 → published topic (es1 ++ es2) bus1 bus3.
Proof.
  intros (n1 & H1' & <- & Hf1) (n2 & H2' & <- & Hf2). exists (n1 ++ n2). rewrite H2', H1', fmap_app.
  split_and!; [by rewrite (assoc_L (++))|done|by apply Forall_app].
Qed.

Lemma run_publish e bus w :
  ∃ bus', run (publish (topic_of e) e bus) w = (Some bus', w) ∧ published (topic_of e) [e] bus bus'.
Proof. eexists. split; [done|]. eexists. split_and!; [done|done|by apply Forall_singleton]. Qed.

Lemma run_publish_all topic es bus w :
  Forall (λ e, topic_of e = topic) es →
  ∃ bus', run (publish_all topic es bus) w = (Some bus', w) ∧ published topic es bus bus'.
Proof.
  intros Hes. revert bus. induction Hes as [|e es <- Hes IH]; intros bus; cbn [publish_all].
  - eexists. split; [done|]. apply published_nil.
  - destruct (run_publish e bus w) as (b1 & Hr1 & Hp1). destruct (IH b1) as (b2 & Hr2 & Hp2).
    exists b2. rewrite run_bind, Hr1. split; [done|]. by apply (published_app _ [e] es bus b1 b2).
Qed.

Lemma run_get_store_stats name w : ∃ r, run (get_store_stats name) w = (Some r, w).
Proof.
  unfold get_store_stats, store_stats_key, typed_get. rewrite run_bind_ok, run_kv_spec.
  cbn [spec_store fst snd]. rewrite set_kv_id. destruct (fst <$> _) as [b|]; [|by eexists].
  destruct (from_slice b); by eexists.
Qed.

(** ** Statistics

    The loops over statistics walk a list of names, for each of which the
    counts are known or not; [S] is what the scanner has recorded and [lift]
    how counts appear in the model.  [learned]: other names are left alone,
    what is known is recorded, and what is recorded of the names in a set [D]
    stays true of a model that has all the names. *)
Definition recorded {V} (lift : Z * Z → V) (D : gset string) (S : gmap string (Z * Z)) (m : gmap string V) : Prop :=
  ∀ k v, k ∈ D → S !! k = Some v → m !! k = Some (lift v).

Definition learned {V} (lift : Z * Z → V) (act : gmap string V → ModelEvent → gmap string V)
    (l : list (string * option (Z * Z))) (S S' : gmap string (Z * Z)) (es : list ModelEvent) : Prop :=
  (∀ k, k ∉ l.*1 → S' !! k = S !! k) ∧
  (∀ k v, (k, Some v) ∈ l → S' !! k = Some v) ∧
  ∀ D m, recorded lift D S m → (∀ k, k ∈ l.*1 → is_Some (m !! k)) →
    recorded lift D S' (foldl act m es) ∧ dom (foldl act m es) = dom m.

Section learning.
Context {V : Type} (lift : Z * Z → V) (act : gmap string V → ModelEvent → gmap string V).
Implicit Types (S : gmap string (Z * Z)).

Lemma learned_nil S : learned lift act [] S S [].
Proof. split_and!; [done|by intros ? ? ?%elem_of_nil|done]. Qed.

Lemma learned_cons k o l S S1 S' es1 es :
  k ∉ l.*1 → learned lift act [(k, o)] S S1 es1 → learned lift act l S1 S' es →
  learned lift act ((k, o) :: l) S S' (es1 ++ es).
Proof.
  intros Hk (Ho1 & Hs1 & Hm1) (Ho & Hs & Hm). split_and!.
  - intros j. cbn. rewrite not_elem_of_cons. intros [Hj Hjl]. rewrite Ho by done. apply Ho1.
    by intros ->%list_elem_of_singleton.
  - intros j v [ [= <- <-]|Hj]%elem_of_cons; [|by apply Hs]. rewrite Ho by done. apply Hs1. by left.
  - intros D m HS Hin. rewrite foldl_app. cbn [fmap list_fmap fst] in Hin.
    destruct (Hm1 D m HS) as [HS1 Hd1]. { intros j ->%list_elem_of_singleton. apply Hin. by left. }
    destruct (Hm D (foldl act m es1) HS1) as [HS' Hd]; [|by rewrite Hd].
    intros j Hj. apply elem_of_dom. rewrite Hd1. apply elem_of_dom, Hin. by right.
Qed.

Lemma learned_same k o S : (∀ v, o = Some v → S !! k = Some v) → learned lift act [(k, o)] S S [].
Proof.
  intros Ho. split_and!; [done| |done]. intros j v [= -> <-]%list_elem_of_singleton. by apply Ho.
Qed.

Lemma learned_forget k S : learned lift act [(k, None)] S (delete k S) [].
Proof.
  split_and!.
  - intros j Hj. apply lookup_delete_ne. intros ->. apply Hj. by left.
  - by intros j v ?%list_elem_of_singleton.
  - intros D m HS _. split; [|done]. intros j v Hj. rewrite lookup_delete_Some. intros [_ Hv]. by apply HS.
Qed.

Lemma learned_update k v S e :
  (∀ m, is_Some (m !! k) → act m e = <[k := lift v]> m) → learned lift act [(k, Some v)] S (<[k := v]> S) [e].
Proof.
  intros Hact. split_and!.
  - intros j Hj. apply lookup_insert_ne. intros ->. apply Hj. by left.
  - intros j v' [= -> ->]%list_elem_of_singleton. apply lookup_insert_eq.
  - intros D m HS Hin. cbn [foldl]. specialize (Hin k ltac:(by left)). rewrite Hact by done.
    split; [intros j v' Hj [ [-> ->]|[Hne Hv'] ]%lookup_insert_Some; [by rewrite lookup_insert_eq|] |].
    { rewrite lookup_insert_ne by done. by apply HS. }
    rewrite dom_insert_L. apply elem_of_dom in Hin. set_solver.
Qed.
End learning.

(** One event about [name], when the map has that name. *)
Lemma alter_insert_present {V} (m : gmap string V) k v : is_Some (m !! k) → alter (λ _, v) k m = <[k := v]> m.
Proof.
  intros [v' Hv]. apply map_eq. intros j. destruct (decide (j = k)) as [->|Hne].
  - by rewrite lookup_insert_eq, lookup_alter_eq, Hv.
  - by rewrite lookup_insert_ne, lookup_alter_ne.
Qed.

(** What a scan can learn about a repository and about a store. *)
Definition repo_known (fuel : nat) w (c : RepoConfig) : string * option (Z * Z) :=
  (rc_name c, match run (get_repo_stats fuel c) w with
              | (Some (Ok s), _) => Some (rs_artifact_count s, rs_total_bytes s)
              | _ => None
              end).

Definition store_known w (s : StoreRecord) : string * option (Z * Z) :=
  (sr_name s, match run (get_store_stats (sr_name s)) w with
              | (Some (Ok (Some st)), _) => Some (ss_blob_count st, ss_total_bytes st)
              | _ => None
              end).

Definition lift_store (v : Z * Z) : option Z * option Z := (Some v.1, Some v.2).

Lemma run_scan_repo_stats fuel configs S bus w :
  NoDup (rc_name <$> configs) → (∀ c, c ∈ configs → ∃ r, run (get_repo_stats fuel c) w = (Some r, w)) →
  ∃ S' es bus', run (scan_repo_stats fuel configs S bus) w = (Some (S', bus'), w) ∧ published TRepos es bus bus' ∧
    learned id repo_act (repo_known fuel w <$> configs) S S' es.
Proof.
  revert S bus. induction configs as [|c configs IH]; intros S bus Hnd Hrun; cbn [scan_repo_stats].
  { exists S, [], bus. split_and!; [done|apply published_nil|apply learned_nil]. }
  apply NoDup_cons in Hnd as [Hc Hnd]. destruct (Hrun c) as [r Hr]; [by left|]. rewrite run_bind, Hr.
  assert (rc_name c ∉ (repo_known fuel w <$> configs).*1) as Hc' by by rewrite <-list_fmap_compose.
  assert (∀ S1 es1 bus1, learned id repo_act [repo_known fuel w c] S S1 es1 → published TRepos es1 bus bus1 →
    ∃ S' es bus', run (scan_repo_stats fuel configs S1 bus1) w = (Some (S', bus'), w) ∧ published TRepos es bus bus' ∧
      learned id repo_act (repo_known fuel w <$> c :: configs) S S' es) as Hrest.
  { intros S1 es1 bus1 H1' Hp1. destruct (IH S1 bus1 Hnd) as (S' & es & bus' & Hr' & Hp & Hl).
    { intros; apply Hrun; by right. }
    exists S', (es1 ++ es), bus'. split_and!; [done|by eapply published_app|]. by apply (learned_cons _ _ _ _ _ _ S1). }
  assert (repo_known fuel w c = (rc_name c, match r with Ok s => Some (rs_artifact_count s, rs_total_bytes s) | Err _ => None end))
    as Hk by (unfold repo_known; rewrite Hr; by destruct r).
  rewrite Hk in Hrest. destruct r as [stats|e]; cbv zeta.
  - case_decide as Hsame.
    + apply (Hrest S [] bus); [apply learned_same; by intros ? [= <-]|apply published_nil].
    + destruct (run_publish (RepoStatsUpdated (rc_name c) (rs_artifact_count stats) (rs_total_bytes stats)) bus w)
        as (b1 & Hrb & Hpb).
      cbn [topic_of] in Hrb, Hpb. rewrite run_bind, Hrb. eapply Hrest; [|exact Hpb]. apply learned_update.
      intros m Hm. by apply alter_insert_present.
  - apply (Hrest S [] bus); [by apply learned_same|apply published_nil].
Qed.

Lemma run_scan_store_stats records S bus w :
  NoDup (sr_name <$> records) →
  ∃ S' es bus', run (scan_store_stats records S bus) w = (Some (S', bus'), w) ∧ published TStores es bus bus' ∧
    learned lift_store store_act (store_known w <$> records) S S' es.
Proof.
  revert S bus. induction records as [|c records IH]; intros S bus Hnd; cbn [scan_store_stats].
  { exists S, [], bus. split_and!; [done|apply published_nil|apply learned_nil]. }
  apply NoDup_cons in Hnd as [Hc Hnd]. destruct (run_get_store_stats (sr_name c) w) as [r Hr]. rewrite run_bind, Hr.
  assert (sr_name c ∉ (store_known w <$> records).*1) as Hc' by by rewrite <-list_fmap_compose.
  assert (∀ S1 es1 bus1, learned lift_store store_act [store_known w c] S S1 es1 → published TStores es1 bus bus1 →
    ∃ S' es bus', run (scan_store_stats records S1 bus1) w = (Some (S', bus'), w) ∧ published TStores es bus bus' ∧
      learned lift_store store_act (store_known w <$> c :: records) S S' es) as Hrest.
  { intros S1 es1 bus1 H1' Hp1. destruct (IH S1 bus1 Hnd) as (S' & es & bus' & Hr' & Hp & Hl).
    exists S', (es1 ++ es), bus'. split_and!; [done|by eapply published_app|]. by apply (learned_cons _ _ _ _ _ _ S1). }
  assert (store_known w c = (sr_name c, match r with Ok (Some s) => Some (ss_blob_count s, ss_total_bytes s) | _ => None end))
    as Hk by (unfold store_known; rewrite Hr; by destruct r as [ [|]|]).
  rewrite Hk in Hrest. destruct r as [ [stats|]|e]; cbv zeta.
  - case_decide as Hsame.
    + apply (Hrest S [] bus); [apply learned_same; by intros ? [= <-]|apply published_nil].
    + destruct (run_publish (StoreStatsUpdated (sr_name c) (ss_blob_count stats) (ss_total_bytes stats)) bus w)
        as (b1 & Hrb & Hpb).
      cbn [topic_of] in Hrb, Hpb. rewrite run_bind, Hrb. eapply Hrest; [|exact Hpb]. apply learned_update.
      intros m Hm. by apply alter_insert_present.
  - apply (Hrest _ [] bus); [apply learned_forget|apply published_nil].
  - apply (Hrest S [] bus); [by apply learned_same|apply published_nil].
Qed.

(** ** A scan of the repositories and of the stores *)

(** The scanner and a map [m] of the model agree: on the names, and on the
    counts that the scanner has recorded. *)
Definition tracks_kind {V} (lift : Z * Z → V) (names : gset string) (stats : gmap string (Z * Z)) (m : gmap string V) : Prop :=
  dom m = names ∧ recorded lift names stats m ∧ ∀ k, k ∉ names → stats !! k = None.

(** Creations, deletions and statistics, one after the other; what is no
    longer seen is forgotten. *)
Lemma scan_kind {V} (lift : Z * Z → V) act l (names seen : gset string) S S' (m : gmap string V) es1 es2 es3 (gone : list string) :
  tracks_kind lift names S m →
  m ⊆ foldl act m es1 → dom (foldl act m es1) = dom m ∪ seen →
  (∀ m k, foldl act m es2 !! k = if decide (k ∈ gone) then None else m !! k) →
  (∀ k, k ∈ gone ↔ k ∈ names ∧ k ∉ seen) → (∀ k, k ∈ l.*1 → k ∈ seen) →
  learned lift act l S S' es3 →
  tracks_kind lift seen (filter (λ kv, kv.1 ∈ seen) S') (foldl act m (es1 ++ es2 ++ es3)) ∧
  ∀ k v, (k, Some v) ∈ l → foldl act m (es1 ++ es2 ++ es3) !! k = Some (lift v).
Proof.
  intros (Hdom & HS & Hnone) Hsub1 Hdom1 Hdel Hgone Hl (Ho & Hs & Hm). rewrite !foldl_app.
  set (m1 := foldl act m es1) in *. set (m2 := foldl act m1 es2).
  assert (dom m2 = seen) as Hdom2.
  { apply set_eq. intros k. unfold m2. rewrite elem_of_dom, Hdel. specialize (Hgone k).
    assert (k ∈ dom m1 ↔ k ∈ names ∨ k ∈ seen) as Hm1 by (rewrite Hdom1, Hdom; set_solver).
    rewrite elem_of_dom in Hm1. case_decide as Hg.
    - split; [by intros []|]. tauto.
    - rewrite Hm1. destruct (decide (k ∈ seen)); tauto. }
  assert (recorded lift seen S m2) as HS2.
  { intros k v Hk Hv. unfold m2. rewrite Hdel, decide_False by (rewrite Hgone; tauto).
    destruct (decide (k ∈ names)) as [Hn|Hn]; [|by rewrite Hnone in Hv].
    eapply lookup_weaken; [by apply HS|done]. }
  destruct (Hm seen m2 HS2) as [HS3 Hdom3].
  { intros k Hk. apply elem_of_dom. rewrite Hdom2. by apply Hl. }
  split; [split; [by rewrite Hdom3|split]|].
  - intros k v Hk [Hv _]%map_lookup_filter_Some. by apply HS3.
  - intros k Hk. apply map_lookup_filter_None. right. by intros v _.
  - intros k v Hk. apply HS3; [|by apply Hs]. apply Hl. apply list_elem_of_fmap. by exists (k, Some v).
Qed.

Lemma elem_of_gone (names seen : gset string) site k :
  k ∈ arrange site (elements (names ∖ seen)) ↔ k ∈ names ∧ k ∉ seen.
Proof. rewrite (arrange_perm string site), elem_of_elements. set_solver. Qed.

Lemma known_names {X} (f : X → string * option (Z * Z)) (name : X → string) (xs : list X) k :
  (∀ x, (f x).1 = name x) → k ∈ (f <$> xs).*1 → k ∈ (list_to_set (name <$> xs) : gset string).
Proof.
  intros Hf Hk. rewrite elem_of_list_to_set. rewrite <-list_fmap_compose in Hk.
  apply list_elem_of_fmap in Hk as (x & -> & Hx). apply list_elem_of_fmap. exists x. split; [apply Hf|done].
Qed.

(** A scan of the repositories: the scanner and the model of whoever applies
    the events agree again, on all the repositories that there are and on the
    counts of those that can be read. *)
Lemma run_scan_repos fuel st bus configs w :
  run list_repos w = (Some (Ok configs), w) → NoDup (rc_name <$> configs) →
  (∀ c, c ∈ configs → ∃ r, run (get_repo_stats fuel c) w = (Some r, w)) →
  ∃ stats es bus', let seen : gset string := list_to_set (rc_name <$> configs) in
    run (scan_repos fuel st bus) w =
      (Some (Ok tt, (mkScannerState stats seen (sc_store_stats st) (sc_store_set st)
                       (sc_task_digests st) (sc_task_event_seq st), bus')), w) ∧
    published TRepos es bus bus' ∧
    ∀ m, tracks_kind id (sc_repo_set st) (sc_repo_stats st) m →
      tracks_kind id seen stats (foldl repo_act m es) ∧
      ∀ c s, c ∈ configs → run (get_repo_stats fuel c) w = (Some (Ok s), w) →
        foldl repo_act m es !! rc_name c = Some (rs_artifact_count s, rs_total_bytes s).
Proof.
  intros Hlist Hnd Hrun. unfold scan_repos. rewrite run_bind, Hlist. cbv beta iota zeta.
  set (seen := list_to_set (rc_name <$> configs) : gset string).
  set (fresh := filter (λ c, rc_name c ∉ sc_repo_set st) configs).
  set (gone := arrange 50 (elements (sc_repo_set st ∖ seen))).
  destruct (run_publish_all TRepos ((λ c, RepoCreated (repo_response c)) <$> fresh) bus w) as (b1 & Hr1 & Hp1);
    [by apply Forall_fmap, Forall_true|].
  destruct (run_publish_all TRepos (RepoDeleted <$> gone) b1 w) as (b2 & Hr2 & Hp2); [by apply Forall_fmap, Forall_true|].
  destruct (run_scan_repo_stats fuel configs (sc_repo_stats st) b2 w Hnd Hrun) as (S' & es3 & b3 & Hr3 & Hp3 & Hl).
  exists (filter (λ kv, kv.1 ∈ seen) S'), (((λ c, RepoCreated (repo_response c)) <$> fresh) ++ (RepoDeleted <$> gone) ++ es3), b3.
  split; [by rewrite run_bind, Hr1, run_bind, Hr2, run_bind, Hr3|].
  split; [eapply published_app; [done|by eapply published_app]|]. intros m Htr.
  destruct (fold_created repo_act (λ c, RepoCreated (repo_response c)) rc_name (λ c, repo_counts (repo_response c)) fresh m)
    as [Hsub Hdom].
  { intros m' c. unfold repo_act, insert_new. unfold repo_response.
    by destruct (rc_format_config c), (rc_kind c). }
  destruct (scan_kind id repo_act (repo_known fuel w <$> configs) (sc_repo_set st) seen (sc_repo_stats st) S' m
    ((λ c, RepoCreated (repo_response c)) <$> fresh) (RepoDeleted <$> gone) es3 gone Htr Hsub) as [Htr' Hknown].
  - rewrite Hdom. destruct Htr as [-> _]. unfold fresh, seen. apply set_eq. intros k.
    rewrite !elem_of_union, !elem_of_list_to_set, !list_elem_of_fmap. split.
    + intros [Hk|(c & -> & [_ Hc]%list_elem_of_filter)]; [by left|]. right. by exists c.
    + intros [Hk|(c & -> & Hc)]; [by left|]. destruct (decide (rc_name c ∈ sc_repo_set st)); [by left|right].
      exists c. split; [done|]. by apply list_elem_of_filter.
  - intros m' k. by apply fold_deleted.
  - intros k. apply elem_of_gone.
  - intros k. by apply known_names.
  - done.
  - split; [done|]. intros c s Hc Hs. apply (Hknown (rc_name c)). apply list_elem_of_fmap. exists c. split; [|done].
    unfold repo_known. by rewrite Hs.
Qed.

Lemma run_scan_stores st bus records w :
  run list_stores w = (Some (Ok records), w) → NoDup (sr_name <$> records) →
  ∃ stats es bus', let seen : gset string := list_to_set (sr_name <$> records) in
    run (scan_stores st bus) w =
      (Some (Ok tt, (mkScannerState (sc_repo_stats st) (sc_repo_set st) stats seen
                       (sc_task_digests st) (sc_task_event_seq st), bus')), w) ∧
    published TStores es bus bus' ∧
    ∀ m, tracks_kind lift_store (sc_store_set st) (sc_store_stats st) m →
      tracks_kind lift_store seen stats (foldl store_act m es) ∧
      ∀ s stats, s ∈ records → run (get_store_stats (sr_name s)) w = (Some (Ok (Some stats)), w) →
        foldl store_act m es !! sr_name s = Some (Some (ss_blob_count stats), Some (ss_total_bytes stats)).
Proof.
  intros Hlist Hnd. unfold scan_stores. rewrite run_bind, Hlist. cbv beta iota zeta.
  set (seen := list_to_set (sr_name <$> records) : gset string).
  set (fresh := filter (λ s, sr_name s ∉ sc_store_set st) records).
  set (gone := arrange 51 (elements (sc_store_set st ∖ seen))).
  destruct (run_publish_all TStores ((λ s, StoreCreated (store_response s)) <$> fresh) bus w) as (b1 & Hr1 & Hp1);
    [by apply Forall_fmap, Forall_true|].
  destruct (run_publish_all TStores (StoreDeleted <$> gone) b1 w) as (b2 & Hr2 & Hp2); [by apply Forall_fmap, Forall_true|].
  destruct (run_scan_store_stats records (sc_store_stats st) b2 w Hnd) as (S' & es3 & b3 & Hr3 & Hp3 & Hl).
  exists (filter (λ kv, kv.1 ∈ seen) S'), (((λ s, StoreCreated (store_response s)) <$> fresh) ++ (StoreDeleted <$> gone) ++ es3), b3.
  split; [by rewrite run_bind, Hr1, run_bind, Hr2, run_bind, Hr3|].
  split; [eapply published_app; [done|by eapply published_app]|]. intros m Htr.
  destruct (fold_created store_act (λ s, StoreCreated (store_response s)) sr_name (λ s, store_counts (store_response s)) fresh m)
    as [Hsub Hdom].
  { intros m' s. unfold store_act, insert_new, store_response. by destruct (sr_kind s). }
  destruct (scan_kind lift_store store_act (store_known w <$> records) (sc_store_set st) seen (sc_store_stats st) S' m
    ((λ s, StoreCreated (store_response s)) <$> fresh) (StoreDeleted <$> gone) es3 gone Htr Hsub) as [Htr' Hknown].
  - rewrite Hdom. destruct Htr as [-> _]. unfold fresh, seen. apply set_eq. intros k.
    rewrite !elem_of_union, !elem_of_list_to_set, !list_elem_of_fmap. split.
    + intros [Hk|(s & -> & [_ Hs]%list_elem_of_filter)]; [by left|]. right. by exists s.
    + intros [Hk|(s & -> & Hs)]; [by left|]. destruct (decide (sr_name s ∈ sc_store_set st)); [by left|right].
      exists s. split; [done|]. by apply list_elem_of_filter.
  - intros m' k. by apply fold_deleted.
  - intros k. apply elem_of_gone.
  - intros k. by apply known_names.
  - done.
  - split; [done|]. intros s stats Hs Hst.
    apply (Hknown (sr_name s) (ss_blob_count stats, ss_total_bytes stats)). apply list_elem_of_fmap. exists s. split; [|done].
    unfold store_known. by rewrite Hst.
Qed.

(** ** A scan of the tasks *)

(** The scanner and a map of the model agree: on the tasks, and each task of
    the model shows a record with the digest that the scanner has kept. *)
Definition tracks_tasks (D : gmap string TaskDigest) (m : gmap string TaskInfo) : Prop :=
  ∀ k, match D !! k, m !! k with
       | Some d, Some t => ∃ r, tr_id r = k ∧ digest_of r = d ∧ set_log [] t = from_record r
       | None, None => True
       | _, _ => False
       end.

Definition canonical_id (r : TaskRecord) : Prop := uuid_parse (tr_id r) = Some (tr_id r).
Definition live_tasks (records : list TaskRecord) : list TaskRecord := filter (λ r, tr_deleting r = false) records.

Lemma run_build_task_info r n w :
  ∃ info, run (build_task_info r n) w = (Some info, w) ∧ set_log [] info = from_record r ∧
    (canonical_id r → ti_id info = tr_id r).
Proof.
  assert (∀ log, canonical_id r → ti_id (set_log log (from_record r)) = tr_id r) as Hid.
  { intros log Hc. unfold from_record. cbn [set_log ti_id]. by rewrite Hc. }
  unfold build_task_info. case_decide as Hn; [|exists (from_record r); split_and!; [done|done|apply (Hid [])] ].
  unfold list_task_events_since. rewrite run_bind, run_bind_ok, run_kv_spec. cbn [spec_store fst snd run].
  rewrite set_kv_id. destruct (decode_all _) as [events|e].
  - eexists. split_and!; [done|done|apply Hid].
  - eexists. split_and!; [done|done|apply (Hid [])].
Qed.

Lemma tracks_put D m r info :
  tracks_tasks D m → ti_id info = tr_id r → set_log [] info = from_record r →
  tracks_tasks (<[tr_id r := digest_of r]> D) (<[ti_id info := info]> m).
Proof.
  intros Htr Hid Hlog k. rewrite Hid. destruct (decide (k = tr_id r)) as [->|Hne].
  - rewrite !lookup_insert_eq. by exists r.
  - rewrite !lookup_insert_ne by done. apply Htr.
Qed.

Lemma run_scan_task_records records seen st bus w :
  Forall canonical_id records → NoDup (tr_id <$> records) →
  ∃ D' Q' es bus', run (scan_task_records records seen st bus) w =
      (Some (list_to_set (tr_id <$> live_tasks records) ∪ seen, with_tasks D' Q' st, bus'), w) ∧
    published TTasks es bus bus' ∧
    (∀ k, k ∉ tr_id <$> live_tasks records → D' !! k = sc_task_digests st !! k) ∧
    (∀ r, r ∈ live_tasks records → D' !! tr_id r = Some (digest_of r)) ∧
    ∀ m, tracks_tasks (sc_task_digests st) m → tracks_tasks D' (foldl task_act m es).
Proof.
  revert seen st bus. induction records as [|r records IH]; intros seen st bus Hc Hnd; cbn [scan_task_records].
  { exists (sc_task_digests st), (sc_task_event_seq st), [], bus.
    split_and!; [|apply published_nil|done|by intros ? ?%elem_of_nil|done].
    change (list_to_set (tr_id <$> live_tasks []) ∪ seen) with (∅ ∪ seen).
    rewrite (left_id_L ∅ (∪)). by destruct st. }
  apply Forall_cons in Hc as [Hcr Hc]. apply NoDup_cons in Hnd as [Hr Hnd].
  unfold live_tasks. rewrite filter_cons. fold (live_tasks records).
  destruct (tr_deleting r) eqn:Hdel; [rewrite decide_False by done; by apply IH|]. rewrite decide_True by done.
  assert (tr_id r ∉ tr_id <$> live_tasks records) as Hr'.
  { intros (r' & Heq & [_ Hin]%list_elem_of_filter)%list_elem_of_fmap. apply Hr. apply list_elem_of_fmap. by exists r'. }
  assert (∀ st1 es1 bus1, sc_task_digests st1 !! tr_id r = Some (digest_of r) →
    (∀ k, k ≠ tr_id r → sc_task_digests st1 !! k = sc_task_digests st !! k) →
    (∀ D Q, with_tasks D Q st1 = with_tasks D Q st) →
    published TTasks es1 bus bus1 →
    (∀ m, tracks_tasks (sc_task_digests st) m → tracks_tasks (sc_task_digests st1) (foldl task_act m es1)) →
    ∃ D' Q' es bus', run (scan_task_records records ({[tr_id r]} ∪ seen) st1 bus1) w =
        (Some (list_to_set (tr_id <$> r :: live_tasks records) ∪ seen, with_tasks D' Q' st, bus'), w) ∧
      published TTasks es bus bus' ∧
      (∀ k, k ∉ tr_id <$> r :: live_tasks records → D' !! k = sc_task_digests st !! k) ∧
      (∀ r', r' ∈ r :: live_tasks records → D' !! tr_id r' = Some (digest_of r')) ∧
      ∀ m, tracks_tasks (sc_task_digests st) m → tracks_tasks D' (foldl task_act m es)) as Hrest.
  { intros st1 es1 bus1 Hself Hother Hst Hp1 Hm1.
    destruct (IH ({[tr_id r]} ∪ seen) st1 bus1 Hc Hnd) as (D' & Q' & es & bus' & Hrun & Hp & Ho & Hin & Hm).
    exists D', Q', (es1 ++ es), bus'. rewrite Hst in Hrun. split_and!.
    - rewrite Hrun. do 4 f_equal. rewrite fmap_cons. cbn [list_to_set]. set_solver.
    - by eapply published_app.
    - intros k. rewrite fmap_cons, not_elem_of_cons. intros [Hk Hk']. rewrite Ho by done. by apply Hother.
    - intros r' [->|Hr1]%elem_of_cons; [by rewrite Ho|by apply Hin].
    - intros m Htr. rewrite foldl_app. by apply Hm, Hm1. }
  cbv zeta. destruct (sc_task_digests st !! tr_id r) as [prev|] eqn:Hprev; [case_decide as Hsame|].
  - apply (Hrest st [] bus); [by rewrite Hprev, Hsame|done|done|apply published_nil|done].
  - destruct (run_build_task_info r (default 0%Z (sc_task_event_seq st !! tr_id r)) w) as (info & Hi & Hlog & Hid).
    rewrite run_bind, Hi. destruct (run_publish (TaskUpdated info) bus w) as (b1 & Hb & Hpb).
    cbn [topic_of] in Hb, Hpb. rewrite run_bind, Hb. eapply Hrest; [apply lookup_insert_eq| |done|exact Hpb|].
    + intros k Hk. by apply lookup_insert_ne.
    + intros m Htr. cbn [foldl task_act]. apply tracks_put; [done|by apply Hid|done].
  - destruct (run_build_task_info r 0 w) as (info & Hi & Hlog & Hid).
    rewrite run_bind, Hi. destruct (run_publish (TaskCreated info) bus w) as (b1 & Hb & Hpb).
    cbn [topic_of] in Hb, Hpb. rewrite run_bind, Hb. eapply Hrest; [apply lookup_insert_eq| |done|exact Hpb|].
    + intros k Hk. by apply lookup_insert_ne.
    + intros m Htr. cbn [foldl task_act]. unfold insert_new. rewrite decide_False.
      * apply tracks_put; [done|by apply Hid|done].
      * rewrite (Hid Hcr). specialize (Htr (tr_id r)). rewrite Hprev in Htr.
        destruct (m !! tr_id r); [done|]. by intros [].
Qed.

Lemma run_scan_tasks st bus records w :
  run list_tasks w = (Some (Ok records), w) → Forall canonical_id records → NoDup (tr_id <$> records) →
  ∃ D' Q' es bus', run (scan_tasks st bus) w = (Some (Ok tt, (with_tasks D' Q' st, bus')), w) ∧
    published TTasks es bus bus' ∧
    (∀ k d, D' !! k = Some d ↔ ∃ r, r ∈ live_tasks records ∧ tr_id r = k ∧ digest_of r = d) ∧
    ∀ m, tracks_tasks (sc_task_digests st) m → tracks_tasks D' (foldl task_act m es).
Proof.
  intros Hlist Hc Hnd. unfold scan_tasks. rewrite run_bind, Hlist.
  destruct (run_scan_task_records records ∅ st bus w Hc Hnd) as (D1 & Q1 & es1 & b1 & Hr1 & Hp1 & Ho & Hin & Hm).
  set (seen := list_to_set (tr_id <$> live_tasks records) ∪ ∅ : gset string) in *.
  rewrite run_bind, Hr1. cbv beta iota zeta. cbn [sc_task_digests with_tasks].
  set (gone := arrange 52 (elements (dom D1 ∖ seen))).
  destruct (run_publish_all TTasks (TaskDeleted <$> gone) b1 w) as (b2 & Hr2 & Hp2); [by apply Forall_fmap, Forall_true|].
  assert (∀ k, k ∈ seen ↔ ∃ r, r ∈ live_tasks records ∧ tr_id r = k) as Hseen.
  { intros k. unfold seen. rewrite elem_of_union, elem_of_list_to_set, list_elem_of_fmap. split.
    - intros [(r & -> & Hr)|Hk]; [by exists r|set_solver].
    - intros (r & Hr & <-). left. by exists r. }
  eexists (filter (λ kv, kv.1 ∈ seen) D1), _, (es1 ++ (TaskDeleted <$> gone)), b2. split_and!.
  - rewrite run_bind, Hr2. cbn [run]. unfold with_tasks. reflexivity.
  - by eapply published_app.
  - intros k d. rewrite map_lookup_filter_Some. cbn [fst]. rewrite Hseen. split.
    + intros [Hk (r & Hr & <-)]. exists r. rewrite (Hin r Hr) in Hk. by injection Hk.
    + intros (r & Hr & <- & <-). split; [by apply Hin|]. by exists r.
  - intros m Htr. rewrite foldl_app. specialize (Hm m Htr). intros k.
    rewrite (fold_deleted task_act TaskDeleted) by done. specialize (Hm k).
    assert (k ∈ gone ↔ k ∈ dom D1 ∧ k ∉ seen) as Hg by apply elem_of_gone.
    destruct (filter _ D1 !! k) as [d|] eqn:Hk.
    + apply map_lookup_filter_Some in Hk as [Hk Hks]. cbn [fst] in Hks. rewrite Hk in Hm. rewrite decide_False by tauto. done.
    + apply map_lookup_filter_None in Hk. destruct (D1 !! k) as [d|] eqn:Hd.
      * rewrite decide_True; [done|]. apply Hg. split; [by apply elem_of_dom_2 in Hd|]. destruct Hk as [?|Hk]; [done|]. by apply (Hk d).
      * by case_decide.
Qed.
End runs.

(** ** Properties *)

Section properties.
Context `{Blake3} `{UuidText} `{Scheduler} `{UuidGen}.
Context `{Serde RepoConfig} `{Serde TreeEntry} `{Serde StoreRecord} `{Serde StoreStatsRecord}.
Context `{Serde TaskRecord} `{Serde TaskEventRecord}.
Implicit Types (w : world kvmap) (bus : EventBus).

(** The model as maps from names. *)
Definition repos_of (p : PublicModel) : gmap string (Z * Z) := view rp_name repo_counts (pm_repos p).
Definition stores_of (p : PublicModel) : gmap string (option Z * option Z) := view sp_name store_counts (pm_stores p).
Definition tasks_of (p : PublicModel) : gmap string TaskInfo := view ti_id id (pm_tasks p).

(** What the scanner last saw is what the model shows. *)
Definition tracks (st : ScannerState) (p : PublicModel) : Prop :=
  tracks_kind id (sc_repo_set st) (sc_repo_stats st) (repos_of p) ∧
  tracks_kind lift_store (sc_store_set st) (sc_store_stats st) (stores_of p) ∧
  tracks_tasks (sc_task_digests st) (tasks_of p).

Lemma apply_batch_views (m : MaterializedModel) (new : list Envelope) :
  let p := mm_public (apply_batch m new) in
  repos_of p = foldl repo_act (repos_of (mm_public m)) (env_event <$> new) ∧
  stores_of p = foldl store_act (stores_of (mm_public m)) (env_event <$> new) ∧
  tasks_of p = foldl task_act (tasks_of (mm_public m)) (env_event <$> new).
Proof.
  destruct (apply_batch_lists m new) as (Hr & Hs & Ht). cbv zeta. unfold repos_of, stores_of, tasks_of.
  rewrite Hr, Hs, Ht. split_and!; [apply view_repo_events|apply view_store_events|apply view_task_events].
Qed.

(** C5: The model converges to the store.  Let a model show what the scanner
    last saw.  Then one scan publishes events that bring it to what the store
    holds now: exactly the live repositories with the counts of those that can
    be read, exactly the stores with their statistics, exactly the tasks that
    are not being deleted, each with the status, the update time and the
    event count of its record; and the model again shows what the scanner saw,
    ready for the next scan. *)
Theorem scan_keeps_model fuel st bus (model : MaterializedModel) configs stores records w :
  run list_repos w = (Some (Ok configs), w) → NoDup (rc_name <$> configs) →
  (∀ c, c ∈ configs → ∃ r, run (get_repo_stats fuel c) w = (Some r, w)) →
  run list_stores w = (Some (Ok stores), w) → NoDup (sr_name <$> stores) →
  run list_tasks w = (Some (Ok records), w) → NoDup (tr_id <$> records) → Forall canonical_id records →
  tracks st (mm_public model) →
  ∃ st' bus' new, run (scan_once fuel st bus) w = (Some (Ok tt, (st', bus')), w) ∧
    bus_sent bus' = bus_sent bus ++ new ∧
    let p := mm_public (apply_batch model new) in
    tracks st' p ∧
    dom (repos_of p) = list_to_set (rc_name <$> configs) ∧
    (∀ c s, c ∈ configs → run (get_repo_stats fuel c) w = (Some (Ok s), w) →
       repos_of p !! rc_name c = Some (rs_artifact_count s, rs_total_bytes s)) ∧
    dom (stores_of p) = list_to_set (sr_name <$> stores) ∧
    (∀ s stats, s ∈ stores → run (get_store_stats (sr_name s)) w = (Some (Ok (Some stats)), w) →
       stores_of p !! sr_name s = Some (Some (ss_blob_count stats), Some (ss_total_bytes stats))) ∧
    (∀ k t, tasks_of p !! k = Some t → ∃ r r', r ∈ live_tasks records ∧ tr_id r = k ∧
       set_log [] t = from_record r' ∧ tr_id r' = k ∧ digest_of r' = digest_of r) ∧
    (∀ r, r ∈ live_tasks records → is_Some (tasks_of p !! tr_id r)).
Proof.
  intros Hrepos Hnd1 Hstats Hstores Hnd2 Htasks Hnd3 Hc (Ht1 & Ht2 & Ht3). unfold scan_once.
  destruct (run_scan_repos fuel st bus configs w Hrepos Hnd1 Hstats) as (stats1 & es1 & b1 & Hr1 & (n1 & Hb1 & He1 & Hf1) & Hm1).
  rewrite run_bind, Hr1. cbv beta iota zeta. set (st1 := mkScannerState _ _ _ _ _ _).
  destruct (run_scan_stores st1 b1 stores w Hstores Hnd2) as (stats2 & es2 & b2 & Hr2 & (n2 & Hb2 & He2 & Hf2) & Hm2).
  rewrite run_bind, Hr2. cbv beta iota zeta. set (st2 := mkScannerState _ _ _ _ _ _).
  destruct (run_scan_tasks st2 b2 records w Htasks Hc Hnd3) as (D & Q & es3 & b3 & Hr3 & (n3 & Hb3 & He3 & Hf3) & HD & Hm3).
  exists (with_tasks D Q st2), b3, (n1 ++ n2 ++ n3).
  split; [done|]. split; [rewrite Hb3, Hb2, Hb1; by rewrite <-!(assoc_L (++))|].
  destruct (apply_batch_views model (n1 ++ n2 ++ n3)) as (Hv1 & Hv2 & Hv3). cbv zeta in *.
  assert (env_event <$> n1 ++ n2 ++ n3 = es1 ++ es2 ++ es3) as Hes by by rewrite !fmap_app, He1, He2, He3.
  rewrite Hes, !foldl_app in Hv1. rewrite Hes, !foldl_app in Hv2. rewrite Hes, !foldl_app in Hv3.
  rewrite (fold_other repo_act TRepos TTasks es3), (fold_other repo_act TRepos TStores es2) in Hv1
    by (done || apply repo_act_other).
  rewrite (fold_other store_act TStores TTasks es3), (fold_other store_act TStores TRepos es1) in Hv2
    by (done || apply store_act_other).
  rewrite (fold_other task_act TTasks TRepos es1), (fold_other task_act TTasks TStores es2) in Hv3
    by (done || apply task_act_other).
  destruct (Hm1 _ Ht1) as [Htr1 Hk1]. destruct (Hm2 _ Ht2) as [Htr2 Hk2]. specialize (Hm3 _ Ht3).
  rewrite <-Hv1 in Htr1, Hk1. rewrite <-Hv2 in Htr2, Hk2. rewrite <-Hv3 in Hm3.
  split_and!; [by split_and!|by destruct Htr1|exact Hk1|by destruct Htr2|exact Hk2| |].
  - intros k t Ht. specialize (Hm3 k). rewrite Ht in Hm3. destruct (D !! k) as [d|] eqn:Hd; [|done].
    apply HD in Hd as (r & Hr & Hk & <-). destruct Hm3 as (r' & Hk' & Hdig & Hlog). by exists r, r'.
  - intros r Hr. specialize (Hm3 (tr_id r)).
    rewrite (proj2 (HD (tr_id r) (digest_of r))) in Hm3 by by exists r. by destruct (tasks_of _ !! tr_id r).
Qed.

Lemma imap_take {A B} (f : nat → A → B) n (l : list A) : imap f (take n l) = take n (imap f l).
Proof.
  revert f n. induction l as [|x l IH]; intros f [|n]; try done. cbn [take]. rewrite !imap_cons. cbn [take]. by rewrite IH.
Qed.

(** The scanner skips one log entry per update.  When it has last seen a
    task with [n] log entries, [n > 0], and now finds more, the entries that it
    folds into the update start at number [n + 1]: entry [n], the first new
    one (they are numbered from 0), is published by neither update. *)
Theorem scanner_skips_entry `{!SerdeExact TaskEventRecord} id now messages (n : nat) (record : TaskRecord) w w' :
  (∀ i message, messages !! i = Some message → writable_event (logged_event id now i message)) →
  (N.of_nat (length messages) < 2 ^ 64)%N →
  0 < n < length messages → n ≤ TASK_EVENT_TAIL_BATCH →
  event_log (w_kv w) id (log_of id now (take n messages)) →
  event_log (w_kv w') id (log_of id now messages) →
  tr_id record = id →
  let at_count k := tr_observe (tr_progress record) (N.of_nat k) record in
  let entries := imap (λ i message, mkTaskLogEntry now message) messages in
  run (build_task_info (at_count n) 0) w = (Some (set_log (take n entries) (from_record (at_count n))), w) ∧
  run (build_task_info (at_count (length messages)) (Z.of_nat n)) w' =
    (Some (set_log (take TASK_EVENT_TAIL_BATCH (drop (S n) entries)) (from_record (at_count (length messages)))), w').
Proof.
  intros Hw Hlen Hn Hbatch Hlog Hlog' Hid at_count entries.
  assert (log_entry <$> imap (logged_event id now) messages = entries) as Hent by apply fmap_imap.
  split; unfold build_task_info; cbn [at_count tr_observe tr_event_seq tr_id]; rewrite decide_True by lia.
  - rewrite (decide_True (P:=0%Z = 0%Z)) by done. rewrite run_bind, Hid.
    assert (∀ i message, take n messages !! i = Some message → writable_event (logged_event id now i message)) as Hw'.
    { intros i message [Hi _]%lookup_take_Some. by apply Hw. }
    change (Z.to_N 0) with (N.of_nat 0).
    rewrite (run_list_log id now (take n messages) 0 _ w Hw' Hlog) by done. cbn [run].
    rewrite drop_0. do 3 f_equal. rewrite take_ge by (rewrite length_imap, length_take; lia).
    by rewrite imap_take, fmap_take, Hent.
  - rewrite decide_False by lia. rewrite run_bind, Hid.
    unfold u64_add. rewrite u64_wrap_id by (unfold u64_ok; lia).
    replace (Z.to_N (Z.of_nat n + 1)) with (N.of_nat (S n)) by lia.
    rewrite (run_list_log id now messages (S n) _ w' Hw Hlog') by lia. cbn [run].
    do 3 f_equal. by rewrite <-Hent, fmap_take, fmap_drop.
Qed.
End properties.

(** ** Witnesses *)

Definition scan_world : world kvmap :=
  let _ := toy_blake3 in
  world_of (list_to_map [
    (tree_entry_key "r" "", ("1", 1%Z)); (repo_key "r", ("0", 1%Z));
    (store_key "s", ("0", 1%Z)); (store_stats_key "s", ("0", 1%Z));
    (task_key "t", ("0", 1%Z))]).

Definition toy_task_serde : Serde TaskRecord := table_serde [toy_task].

Lemma toy_stats :
  let _ := toy_blake3 in let _ := toy_uuid in let _ := toy_rc_serde in let _ := toy_tree_serde in
  run (get_repo_stats 1 (toy_repo "r" Hosted false)) scan_world = (Some (Ok (mkRepoStats 3 6)), scan_world).
Proof.
  intros ? ? ? ?. unfold get_repo_stats. cbn [rc_kind toy_repo]. rewrite run_bind_ok, run_get_dir.
  replace (dir_of (w_kv scan_world) (rc_name (toy_repo "r" Hosted false)) "")
    with (Ok (Some (dir_entry_of 3 6 toy_dir_entry)) : result (option DirEntry)) by (vm_compute; reflexivity).
  reflexivity.
Qed.

(** The first scan of an instance fills an empty model. *)
Lemma scan_keeps_model_witness :
  let _ := toy_blake3 in let _ := toy_uuid_text in let _ := in_order in let _ := toy_uuid in
  let _ := toy_rc_serde in let _ := toy_tree_serde in let _ := toy_sr_serde in let _ := toy_ss_serde in
  let _ := toy_task_serde in let _ := event_serde in
  ∃ st' bus' new, run (scan_once 1 new_scanner_state new_event_bus) scan_world = (Some (Ok tt, (st', bus')), scan_world) ∧
    bus_sent bus' = bus_sent new_event_bus ++ new ∧
    let p := mm_public (apply_batch toy_model new) in
    repos_of p !! "r" = Some (3, 6)%Z ∧ stores_of p !! "s" = Some (Some 2, Some 14)%Z ∧ is_Some (tasks_of p !! "t").
Proof.
  intros ? ? ? ? ? ? ? ? ? ?.
  destruct (@scan_keeps_model toy_blake3 toy_uuid_text in_order toy_uuid toy_rc_serde toy_tree_serde toy_sr_serde
    toy_ss_serde toy_task_serde event_serde 1 new_scanner_state new_event_bus toy_model
    [toy_repo "r" Hosted false] [toy_store_record] [toy_task] scan_world)
    as (st' & bus' & new & Hrun & Hnew & _ & _ & Hr & _ & Hs & _ & Ht).
  - refine (eq_trans (run_list_repos scan_world) _). apply (f_equal (λ x, (Some x, scan_world))). vm_compute. reflexivity.
  - by_decide.
  - intros c ->%list_elem_of_singleton. eexists. exact toy_stats.
  - refine (eq_trans (run_list_stores scan_world) _). apply (f_equal (λ x, (Some x, scan_world))). vm_compute. reflexivity.
  - by_decide.
  - refine (eq_trans (run_list_tasks scan_world) _). apply (f_equal (λ x, (Some x, scan_world))). vm_compute. reflexivity.
  - by_decide.
  - by repeat constructor.
  - split; [split_and!; [reflexivity|intros ? ? ? Hv; discriminate Hv|reflexivity]|].
    split; [split_and!; [reflexivity|intros ? ? ? Hv; discriminate Hv|reflexivity]|]. intros k. exact I.
  - exists st', bus', new. split; [exact Hrun|]. split; [exact Hnew|]. cbv zeta. split_and!.
    + apply (Hr (toy_repo "r" Hosted false) (mkRepoStats 3 6)); [by left|exact toy_stats].
    + apply (Hs toy_store_record (mkStoreStatsRecord 2 14 0%Z)); [by left|].
      unfold get_store_stats, store_stats_key, typed_get. rewrite run_bind_ok, run_kv_spec. cbn [spec_store fst snd].
      rewrite set_kv_id. change (w_kv scan_world !! _) with (w_kv scan_world !! store_stats_key "s").
      replace (w_kv scan_world !! store_stats_key "s") with (Some ("0", 1%Z)) by (vm_compute; reflexivity). reflexivity.
    + apply (Ht toy_task). by left.
Defined.

Definition log_world (log : list (N * (bytes * Z))) : world kvmap :=
  mkWorld (list_to_map ((λ x, (task_event_key "t" x.1, x.2)) <$> log)) ∅ ∅ 7%Z 0 [] false.

(** Two entries, then four: the third is lost. *)
Lemma scanner_skips_entry_witness :
  let _ := task_serde in let _ := event_serde in let _ := toy_uuid_text in let _ := toy_uuid in
  let messages := ["a"; "b"; "c"; "d"] in
  let at_count k := tr_observe (tr_progress toy_task) k toy_task in
  run (build_task_info (at_count 2%N) 0) (log_world (log_of "t" 7%Z (take 2 messages))) =
    (Some (set_log [mkTaskLogEntry 7%Z "a"; mkTaskLogEntry 7%Z "b"] (from_record (at_count 2%N))),
     log_world (log_of "t" 7%Z (take 2 messages))) ∧
  run (build_task_info (at_count 4%N) 2) (log_world (log_of "t" 7%Z messages)) =
    (Some (set_log [mkTaskLogEntry 7%Z "d"] (from_record (at_count 4%N))), log_world (log_of "t" 7%Z messages)).
Proof.
  intros ? ? ? ? messages at_count.
  apply (@scanner_skips_entry toy_uuid_text toy_uuid event_serde ltac:(done) "t" 7%Z messages 2 toy_task
    (log_world (log_of "t" 7%Z (take 2 messages))) (log_world (log_of "t" 7%Z messages))).
  - intros i message _. eexists. reflexivity.
  - vm_compute. reflexivity.
  - vm_compute. lia.
  - vm_compute. lia.
  - split_and!; [repeat constructor|by_decide|vm_compute; reflexivity].
  - split_and!; [repeat constructor|by_decide|vm_compute; reflexivity].
  - reflexivity.
Defined.
