(* ===== verification/Cluster.v ===== *)
(** * Cluster coordination (server/src/server/worker/cluster.rs)

    The registry of instances with their heartbeats, and the distributed
    leases.  Calls of several instances interleave one effect at a time while
    the clock moves; the theorem is that a lease changes hands only after it
    has expired. *)

From S2P Require Import Prelude Bytes Errors Keys Records Kv Prog Scan Accounts.

(** ** The instance registry *)

(** server/src/server/worker/cluster.rs:24-24 *)
Definition HEARTBEAT_INTERVAL_SECS : Z := 30.
(** server/src/server/worker/cluster.rs:27-27 *)
Definition HEARTBEAT_TIMEOUT_SECS : Z := 90.

(** server/src/server/worker/cluster.rs:33-39 *)
Record InstanceRecord : Type := mkInstanceRecord {
  ir_instance_id : string;
  ir_started_at : DateTime;
  ir_last_heartbeat : DateTime;
  ir_hostname : string;
}.

#[export] Instance InstanceRecord_eq_dec : EqDecision InstanceRecord.
Proof. solve_decision. Defined.

(** server/src/server/worker/cluster.rs:45-47 *)
Definition instance_meta_key (id : string) : string := "instance/" +:+ id.

Section registry.
Context `{Serde InstanceRecord} `{Chrono}.

(** server/src/server/worker/cluster.rs:50-56 *)
Definition get_meta_record {T : Type} `{Serde T} (key : string) : prog (result (option T)) :=
  let '(table, pk, sk) := meta_key key in
  typed_get table pk sk.

(** server/src/server/worker/cluster.rs:59-66 *)
Definition put_meta_record {T : Type} `{Serde T} (key : string) (record : T) : prog (result unit) :=
  let '(table, pk, sk) := meta_key key in
  typed_put table pk sk record.

(** server/src/server/worker/cluster.rs:73-88 *)
Definition register_instance (instance_id hostname : string) : prog (result unit) :=
  let* now := call ENow in
  let record := mkInstanceRecord instance_id now now hostname in
  let key := instance_meta_key instance_id in
  let*? _ := put_meta_record key record in
  Ret (Ok tt).

(** server/src/server/worker/cluster.rs:92-100 *)
Definition refresh_heartbeat (instance_id : string) : prog (result unit) :=
  let key := instance_meta_key instance_id in
  let*? existing := get_meta_record (T := InstanceRecord) key in
  match existing with
  | Some record =>
      let* now := call ENow in
      let record := mkInstanceRecord (ir_instance_id record) (ir_started_at record) now (ir_hostname record) in
      let*? _ := put_meta_record key record in
      Ret (Ok tt)
  | None => Ret (Ok tt)
  end.

(** server/src/server/worker/cluster.rs:103-107 *)
Definition deregister_instance (instance_id : string) : prog (result unit) :=
  let key := instance_meta_key instance_id in
  let*? _ := delete_meta key in
  Ret (Ok tt).

(** The records that can be read and are recent enough. *)
Definition live_records (cutoff : DateTime) (l : list (string * bytes)) : list InstanceRecord :=
  omap (λ '(_, value), match from_slice value with
    | inr record => if decide (ir_last_heartbeat record >= cutoff)%Z then Some record else None
    | inl _ => None
    end) l.

(** server/src/server/worker/cluster.rs:110-123 *)
Definition list_live_instances : prog (result (list InstanceRecord)) :=
  let '(table, pk, sk_prefix) := meta_key "instance/" in
  let*? result := kv (ScanPrefix table pk sk_prefix 1000) in
  let* now := call ENow in
  match duration_seconds HEARTBEAT_TIMEOUT_SECS with
  | None => Spin
  | Some timeout =>
      let cutoff := (now - timeout)%Z in
      Ret (Ok (live_records cutoff (items result)))
  end.
End registry.

(** ** Leases *)

(** server/src/server/worker/cluster.rs:130-130 *)
Definition LEASE_GC : string := "gc".

Section leases.
Context `{Serde LeaseRecord} `{Chrono}.

(** What follows the read of the lease. *)
(** server/src/server/worker/cluster.rs:151-182 *)
Definition acquire_with (name instance_id : string) (ttl_secs : Z) (now : DateTime)
    (o : option (bytes * Z)) : prog (result bool) :=
  let '(table, pk, sk) := lease_key name in
  match o with
  | Some (bytes, version) =>
      let! record := serde_result (from_slice bytes) in
      match duration_seconds (i64_wrap (lr_ttl_secs record)) with
      | None => Spin
      | Some ttl =>
          if decide (lr_holder record = instance_id ∨ (now > lr_renewed_at record + ttl)%Z) then
            let new_record := mkLeaseRecord instance_id now ttl_secs in
            let! new_bytes := serde_result (to_vec new_record) in
            kv (PutIfVersion table pk sk new_bytes (Some version))
          else Ret (Ok false)
      end
  | None =>
      let record := mkLeaseRecord instance_id now ttl_secs in
      let! bytes := serde_result (to_vec record) in
      kv (PutIfAbsent table pk sk bytes)
  end.

(** server/src/server/worker/cluster.rs:141-184 *)
Definition try_acquire_lease (name instance_id : string) (ttl_secs : Z) : prog (result bool) :=
  let '(table, pk, sk) := lease_key name in
  let* now := call ENow in
  let*? o := kv (GetVersioned table pk sk) in
  acquire_with name instance_id ttl_secs now o.

(** server/src/server/worker/cluster.rs:187-206 *)
Definition release_lease (name instance_id : string) : prog (result bool) :=
  let '(table, pk, sk) := lease_key name in
  let*? o := kv (GetVersioned table pk sk) in
  match o with
  | Some (bytes, _version) =>
      let! record := serde_result (from_slice bytes) in
      if decide (lr_holder record = instance_id) then
        let*? _ := kv (Delete table pk sk) in
        Ret (Ok true)
      else Ret (Ok false)
  | None => Ret (Ok false)
  end.

(** server/src/server/worker/cluster.rs:246-251 *)
Record LeaseGuard : Type := mkLeaseGuard {
  lg_name : string;
  lg_instance_id : string;
  lg_released : bool;
}.

(** server/src/server/worker/cluster.rs:254-261 *)
Definition lease_guard_new (name instance_id : string) : LeaseGuard :=
  mkLeaseGuard name instance_id false.

(** server/src/server/worker/cluster.rs:264-270 *)
Definition lease_guard_release (g : LeaseGuard) : prog (result unit * LeaseGuard) :=
  if lg_released g then Ret (Ok tt, g)
  else
    let g := mkLeaseGuard (lg_name g) (lg_instance_id g) true in
    let* r := release_lease (lg_name g) (lg_instance_id g) in
    Ret (match r with Ok _ => Ok tt | Err e => Err e end, g).

(** With a runtime to spawn the release on. *)
(** server/src/server/worker/cluster.rs:274-293 *)
Definition lease_guard_drop (g : LeaseGuard) (runtime : bool) : prog unit :=
  if lg_released g then Ret tt
  else if runtime then let* _ := release_lease (lg_name g) (lg_instance_id g) in Ret tt
  else Ret tt.
End leases.

(** ** Calls of several instances *)

Definition set_now {K} (t : DateTime) (w : world K) : world K :=
  mkWorld (w_kv w) (w_blobs w) (w_stores w) t (w_uuids w) (w_sent w) (w_cancelled w).

Section interleaving.
Context `{Serde LeaseRecord} {lease_exact : SerdeExact LeaseRecord} `{Chrono} `{UuidGen} (name : string).
Implicit Types (w : world kvmap).

(** The lease in the store, when it can be read. *)
Definition held (w : world kvmap) : list LeaseRecord :=
  match w_kv w !! lease_key name with
  | Some (b, _) => match from_slice b with inr r => [r] | inl _ => [] end
  | None => []
  end.

(** The lease that a call just obtained. *)
Definition granted (p : prog (result bool)) (w : world kvmap) : list LeaseRecord :=
  match p with Ret (Ok true) => held w | _ => [] end.

(** A run of a pool of calls while the clock moves (in any direction), with
    the leases granted, latest first.  The pool may hold any programs; the
    theorem about it has calls of [try_acquire_lease] only. *)
Inductive lease_run (c : list (prog (result bool)) * world kvmap) :
    list LeaseRecord → list (prog (result bool)) * world kvmap → Prop :=
| lease_run_start : lease_run c [] c
| lease_run_tick log ps w t :
    lease_run c log (ps, w) → lease_run c log (ps, set_now t w)
| lease_run_step log ps w i p p' w' :
    lease_run c log (ps, w) → ps !! i = Some p → prog_step p w = Some (p', w') →
    lease_run c (granted p' w' ++ log) (<[i := p']> ps, w').

(** The run under a schedule, with the clock at rest. *)
Fixpoint lease_exec (schedule : list nat)
    (x : list LeaseRecord * (list (prog (result bool)) * world kvmap)) :=
  match schedule with
  | [] => x
  | i :: schedule =>
      lease_exec schedule
        match x.2.1 !! i ≫= λ p, prog_step p x.2.2 with
        | Some (p', w') => (granted p' w' ++ x.1, (<[i := p']> x.2.1, w'))
        | None => x
        end
  end.

Lemma lease_exec_run schedule c x :
  lease_run c x.1 x.2 → lease_run c (lease_exec schedule x).1 (lease_exec schedule x).2.
Proof.
  revert x. induction schedule as [|i schedule IH]; intros [log [ps w] ] Hx; cbn [lease_exec fst snd] in *; [done|].
  apply IH. destruct (ps !! i) as [p|] eqn:Hi; cbn; [|done].
  destruct (prog_step p w) as [ [p' w']|] eqn:Hp; [|done]. by eapply lease_run_step.
Qed.

(** The second lease follows the first: a renewal, or the first has expired. *)
Definition follows (r2 r1 : LeaseRecord) : Prop :=
  lr_holder r2 = lr_holder r1 ∨
  ∃ ttl, duration_seconds (i64_wrap (lr_ttl_secs r1)) = Some ttl ∧
    (lr_renewed_at r2 > lr_renewed_at r1 + ttl)%Z.

(** Each lease follows the one before. *)
Definition handed_over (log : list LeaseRecord) : Prop :=
  ∀ i r2 r1, log !! i = Some r2 → log !! S i = Some r1 → follows r2 r1.

(** The states of a call. *)
Inductive lease_at (id : string) (ttl : Z) (cur : option (bytes * Z)) : prog (result bool) → Prop :=
| at_start : lease_at id ttl cur (try_acquire_lease name id ttl)
| at_read now t pk sk : lease_key name = (t, pk, sk) →
    lease_at id ttl cur (Vis (EKv (GetVersioned t pk sk))
      (λ r, match r with Ok o => acquire_with name id ttl now o | Err e => Ret (Err e) end))
| at_put now t pk sk base v rec b : lease_key name = (t, pk, sk) →
    from_slice base = inr rec → follows (mkLeaseRecord id now ttl) rec →
    to_vec (mkLeaseRecord id now ttl) = inr b →
    (v ≤ version_of cur)%Z → (∀ b', cur = Some (b', v) → b' = base) →
    lease_at id ttl cur (Vis (EKv (PutIfVersion t pk sk b (Some v))) Ret)
| at_create now t pk sk b : lease_key name = (t, pk, sk) →
    to_vec (mkLeaseRecord id now ttl) = inr b →
    lease_at id ttl cur (Vis (EKv (PutIfAbsent t pk sk b)) Ret)
| at_done r : lease_at id ttl cur (Ret r)
| at_panic : lease_at id ttl cur Spin.

Definition cur (w : world kvmap) : option (bytes * Z) := w_kv w !! lease_key name.

Lemma lease_at_write id ttl o b v p :
  lease_at id ttl o p → (version_of o < v)%Z → lease_at id ttl (Some (b, v)) p.
Proof.
  intros Hp Hv. destruct Hp; try by econstructor.
  eapply at_put; [done..|cbn; lia|]. intros b' [= -> ->]. lia.
Qed.

Lemma lease_at_acquire id ttl now o : lease_at id ttl o (acquire_with name id ttl now o).
Proof.
  unfold acquire_with, lease_key. destruct o as [ [base v]|].
  - destruct (from_slice base) as [e|rec] eqn:Hb; [constructor|]. cbn [serde_result try_].
    destruct (duration_seconds (i64_wrap (lr_ttl_secs rec))) as [d|] eqn:Hd; [|constructor].
    case_decide as Hg; [|constructor].
    destruct (to_vec (mkLeaseRecord id now ttl)) as [e|b] eqn:Hv; [constructor|].
    eapply at_put; [done|done| |done|done|by intros ? [= ->] ].
    destruct Hg as [Hh|He]; [by left|right]. exists d. split; [done|]. exact He.
  - destruct (to_vec (mkLeaseRecord id now ttl)) as [e|b] eqn:Hv; [constructor|]. by eapply at_create.
Qed.

(** The lease that a call writes when it succeeds. *)
Definition lease_written (id : string) (ttl : Z) (w w' : world kvmap) : Prop :=
  ∃ b now, cur w' = Some (b, (version_of (cur w) + 1)%Z) ∧
    from_slice b = inr (mkLeaseRecord id now ttl) ∧
    (cur w = None ∨ ∃ base v rec, cur w = Some (base, v) ∧ from_slice base = inr rec ∧
       follows (mkLeaseRecord id now ttl) rec).

Lemma spec_put_if_version_lease (w : world kvmap) b e :
  e = snd <$> cur w → u64_ok (version_of (cur w) + 1) →
  spec_put_if_version (lease_key name) b e (w_kv w) =
    (true, <[lease_key name := (b, version_of (cur w) + 1)%Z]> (w_kv w)).
Proof.
  intros -> Hok. unfold spec_put_if_version. rewrite decide_True by done. do 3 f_equal.
  by apply u64_wrap_id.
Qed.

Lemma lease_step id ttl p p' w w' :
  lease_at id ttl (cur w) p → prog_step p w = Some (p', w') → u64_ok (version_of (cur w) + 1) →
  (cur w' = cur w ∧ granted p' w' = [] ∧ lease_at id ttl (cur w) p' ∧ p' ≠ Ret (Ok true)) ∨
  (p' = Ret (Ok true) ∧ lease_written id ttl w w').
Proof using lease_exact.
  intros Hp Hs Hok. destruct Hp as [|now t pk sk Hk|now t pk sk base v rec b Hk Hb Hf Hto Hv Hbase
    |now t pk sk b Hk Hto|r|]; cbn [prog_step] in Hs; [..|done|done].
  - unfold try_acquire_lease, lease_key in Hs. cbn in Hs. simplify_eq. left. split_and!; [done|done| |done].
    by eapply at_read.
  - change (handle _ w) with (Ok (w_kv w !! (t, pk, sk)) : result (option (bytes * Z)), set_kv (w_kv w) w) in Hs.
    cbn [fst snd] in Hs. rewrite set_kv_id in Hs. injection Hs as <- <-. left.
    replace (w_kv w !! (t, pk, sk)) with (cur w) by (unfold cur; by rewrite Hk).
    assert (acquire_with name id ttl now (cur w) ≠ Ret (Ok true)) as Hne.
    { unfold acquire_with, lease_key. destruct (cur w) as [ [base v]|].
      - destruct (from_slice base); [done|]. cbn [serde_result try_]. case_match; [|done].
        case_decide; [|done]. by destruct (to_vec _).
      - by destruct (to_vec _). }
    split_and!; [done| |apply lease_at_acquire|done].
    unfold granted. by destruct (acquire_with name id ttl now (cur w)) as [ [ [|]|] | |].
  - cbn [handle] in Hs. change (kv_step ?o ?m) with (spec_store o m) in Hs. cbn [spec_store] in Hs.
    rewrite <-Hk in Hs. destruct (decide (Some v = snd <$> cur w)) as [Heq|Hne].
    + rewrite spec_put_if_version_lease in Hs by done. simplify_eq/=. right. split; [done|].
      exists b, now. unfold cur. cbn [w_kv set_kv]. rewrite lookup_insert_eq. split_and!; [done| |].
      * rewrite (from_to_vec _ _ Hto), wire_id. done.
      * right. fold (cur w). destruct (cur w) as [ [b' v']|] eqn:Hc; simplify_eq/=.
        exists b', v', rec. split_and!; [done| |done]. by rewrite (Hbase b' eq_refl).
    + unfold spec_put_if_version in Hs. rewrite decide_False in Hs by done. simplify_eq/=.
      left. rewrite set_kv_id. split_and!; [done|done|constructor|done].
  - cbn [handle] in Hs. change (kv_step ?o ?m) with (spec_store o m) in Hs. cbn [spec_store] in Hs.
    rewrite <-Hk in Hs. destruct (decide (None = snd <$> cur w)) as [Heq|Hne].
    + rewrite spec_put_if_version_lease in Hs by done. simplify_eq/=. right. split; [done|].
      exists b, now. unfold cur. cbn [w_kv set_kv]. rewrite lookup_insert_eq. split_and!; [done| |].
      * rewrite (from_to_vec _ _ Hto), wire_id. done.
      * left. fold (cur w). by destruct (cur w).
    + unfold spec_put_if_version in Hs. rewrite decide_False in Hs by done. simplify_eq/=.
      left. rewrite set_kv_id. split_and!; [done|done|constructor|done].
Qed.

(** ** The invariant of a run *)

Context (clients : list (string * Z)) (w0 : world kvmap).

(** The lease is that of the [i]-th call. *)
Definition owns (i : nat) (r : LeaseRecord) : Prop := clients !! i = Some (lr_holder r, lr_ttl_secs r).

Record lease_inv (log : list LeaseRecord) (c : list (prog (result bool)) * world kvmap) : Prop := {
  inv_length : length c.1 = length clients;
  inv_calls : ∀ i cl p, clients !! i = Some cl → c.1 !! i = Some p → lease_at cl.1 cl.2 (cur c.2) p;
  inv_version : version_of (cur c.2) = (version_of (cur w0) + Z.of_nat (length log))%Z;
  inv_absent : cur c.2 = None → log ++ held w0 = [];
  inv_head : ∀ b v rec, cur c.2 = Some (b, v) → from_slice b = inr rec →
    head (log ++ held w0) = Some rec;
  inv_chain : handed_over (log ++ held w0);
  inv_granted : ∃ winners : list nat, NoDup winners ∧ Forall2 owns winners log ∧
    ∀ i, c.1 !! i = Some (Ret (Ok true)) ↔ i ∈ winners;
}.

Lemma handed_over_cons r log :
  handed_over log → (∀ r1, head log = Some r1 → follows r r1) → handed_over (r :: log).
Proof.
  intros Hc Hf i r2 r1 Hr2 Hr1. destruct i as [|i]; simpl in *.
  - simplify_eq. apply Hf. by destruct log.
  - by apply (Hc i).
Qed.

Lemma lease_inv_start :
  lease_inv [] ((λ cl, try_acquire_lease name cl.1 cl.2) <$> clients, w0).
Proof.
  split; cbn [fst snd app length].
  - by rewrite length_fmap.
  - intros i cl p Hi Hp. rewrite list_lookup_fmap, Hi in Hp. simplify_eq/=. constructor.
  - lia.
  - unfold held, cur. by intros ->.
  - unfold held, cur. intros b v rec -> Hb. by rewrite Hb.
  - intros i r2 r1 Hr2 Hr1. unfold held in *.
    destruct (w_kv w0 !! lease_key name) as [ [b v]|]; [|done]. destruct (from_slice b); [done|].
    by destruct i.
  - exists []. split_and!; [constructor|constructor|]. intros i. rewrite list_lookup_fmap, elem_of_nil.
    by destruct (clients !! i).
Qed.

Lemma lease_inv_tick log ps w t : lease_inv log (ps, w) → lease_inv log (ps, set_now t w).
Proof. by intros []. Qed.

Lemma lease_inv_step log ps w i p p' w' :
  lease_inv log (ps, w) → ps !! i = Some p → prog_step p w = Some (p', w') →
  u64_ok (version_of (cur w) + 1) →
  lease_inv (granted p' w' ++ log) (<[i := p']> ps, w').
Proof using lease_exact.
  intros [Hlen Hcalls Hver Habs Hhead Hchain Hgr] Hi Hs Hok. cbn [fst snd] in *.
  destruct (lookup_lt_is_Some_2 clients i) as [cl Hcl]; [rewrite <-Hlen; by eapply lookup_lt_Some|].
  destruct (lease_step _ _ _ _ _ _ (Hcalls i cl p Hcl Hi) Hs Hok)
    as [(Hcur & Hg & Hat & Hne)|(-> & b & now & Hcur & Hb & Hold)].
  - rewrite Hg. cbn [app]. split; cbn [fst snd]; rewrite ?Hcur; try done.
    + by rewrite length_insert.
    + intros j cl' q Hj Hq. apply list_lookup_insert_Some in Hq as [(<- & <- & _)|[_ Hq] ].
      * by simplify_eq.
      * by eapply Hcalls.
    + destruct Hgr as (winners & Hnd & Hown & Hw). exists winners. split_and!; [done|done|]. intros j. rewrite <-Hw.
      destruct (decide (j = i)) as [->|Hij]; [|by rewrite list_lookup_insert_ne].
      rewrite list_lookup_insert_eq by by eapply lookup_lt_Some. rewrite Hi. split; [by intros [= ->]|].
      intros [= ->]. done.
  - assert (granted (Ret (Ok true)) w' = [mkLeaseRecord cl.1 now cl.2]) as ->.
    { cbn [granted]. unfold held. fold (cur w'). by rewrite Hcur, Hb. }
    cbn [app]. split; cbn [fst snd app length].
    + by rewrite length_insert.
    + intros j cl' q Hj Hq. apply list_lookup_insert_Some in Hq as [(_ & <- & _)|[_ Hq] ]; [constructor|].
      rewrite Hcur. eapply lease_at_write; [by eapply Hcalls|lia].
    + transitivity (version_of (cur w) + 1)%Z; [by rewrite Hcur|]. rewrite Hver. lia.
    + by rewrite Hcur.
    + intros b' v' rec Hc' Hb'. rewrite Hcur in Hc'. injection Hc' as <- _. rewrite Hb in Hb'. by injection Hb' as <-.
    + apply handed_over_cons; [done|]. intros r1 Hr1.
      destruct Hold as [Hnone|(base & v & rec & Hc & Hbase & Hf)].
      * by rewrite (Habs Hnone) in Hr1.
      * rewrite (Hhead _ _ _ Hc Hbase) in Hr1. by simplify_eq.
    + destruct Hgr as (winners & Hnd & Hown & Hw). exists (i :: winners). split_and!.
      * constructor; [|done]. rewrite <-Hw, Hi. by intros [= ->].
      * constructor; [|done]. unfold owns. cbn. by rewrite Hcl; destruct cl.
      * intros j. rewrite elem_of_cons, <-Hw. destruct (decide (j = i)) as [->|Hij].
        -- rewrite list_lookup_insert_eq by by eapply lookup_lt_Some. split; [by left|done].
        -- rewrite list_lookup_insert_ne by done. split; [by right|by intros [?|?] ].
Qed.

Lemma lease_run_inv log c :
  lease_run ((λ cl, try_acquire_lease name cl.1 cl.2) <$> clients, w0) log c →
  u64_ok (version_of (cur w0)) → u64_ok (version_of (cur w0) + Z.of_nat (S (length log))) →
  lease_inv log c.
Proof using lease_exact.
  intros Hr Hok0. induction Hr as [|log ps w t _ IH|log ps w i p p' w' _ IH Hi Hs]; intros Hok.
  - apply lease_inv_start.
  - by apply lease_inv_tick, IH.
  - rewrite length_app in Hok.
    assert (lease_inv log (ps, w)) as Hinv by (apply IH; unfold u64_ok in *; lia).
    apply (lease_inv_step _ _ w i p); [done|done|done|].
    destruct Hinv as [_ _ Hv _ _ _ _]. cbn [snd] in Hv. rewrite Hv. unfold u64_ok in *. lia.
Qed.
End interleaving.

(** ** Properties *)

(** C30: Between releases, a lease changes hands only after it has expired.
    However calls of [try_acquire_lease] for a lease by any number of instances
    interleave, and however the clock moves, as long as no instance releases
    the lease: every lease that is granted either renews the lease granted
    before it, or comes after that one's time to live (the lease found in the
    store counts as the first); the calls that answered [true] are exactly
    those that were granted a lease, each of them one with its holder and its
    time to live; and the lease in the store is the last one granted.  (A
    release hands a lease over early, and may even drop that of another
    instance: [release_can_drop_other_lease].) *)
Theorem lease_handover_after_expiry `{Serde LeaseRecord} {lease_exact : SerdeExact LeaseRecord}
    `{Chrono} `{UuidGen} (name : string) (clients : list (string * Z)) (w : world kvmap) log ps w' :
  u64_ok (version_of (w_kv w !! lease_key name)) →
  u64_ok (version_of (w_kv w !! lease_key name) + Z.of_nat (S (length log))) →
  lease_run name ((λ cl, try_acquire_lease name cl.1 cl.2) <$> clients, w) log (ps, w') →
  handed_over (log ++ held name w) ∧
  (∃ winners : list nat, NoDup winners ∧ (∀ i, ps !! i = Some (Ret (Ok true)) ↔ i ∈ winners) ∧
     Forall2 (λ i r, clients !! i = Some (lr_holder r, lr_ttl_secs r)) winners log) ∧
  (∀ r log', log = r :: log' → ∀ b v rec,
     w_kv w' !! lease_key name = Some (b, v) → from_slice b = inr rec → rec = r).
Proof.
  intros Hok0 Hok Hr.
  destruct (lease_run_inv name clients w log (ps, w') Hr Hok0 Hok) as [_ _ _ _ Hhead Hchain (winners & Hnd & Hown & Hw)].
  split_and!; [done|by exists winners|]. intros r log' -> b v rec Hb Hrec.
  specialize (Hhead b v rec Hb Hrec). by simplify_eq/=.
Qed.

(** The effects of the calls below, one by one. *)
Section effects.
Context `{Serde LeaseRecord} `{Chrono} `{UuidGen} (name : string).
Implicit Types (w : world kvmap).

Lemma release_reads a w (r : LeaseRecord) (v : Z) (base : bytes) :
  lr_holder r = a → from_slice base = inr r → w_kv w !! lease_key name = Some (base, v) →
  prog_step (release_lease name a) w =
    Some (Vis (EKv (Delete TABLE_LEASES SINGLE_PK name))
      (λ r, match r with Ok _ => Ret (Ok true) | Err e => Ret (Err e) end), w).
Proof.
  intros Ha Hb Hm. unfold release_lease, lease_key in *. cbn [bind_ok bind kv call prog_step handle].
  change (kv_step ?o ?m) with (spec_store o m). cbn [spec_store fst snd]. rewrite Hm, set_kv_id, Hb.
  cbn [serde_result try_]. by rewrite decide_True.
Qed.

Lemma read_lease w (k : option (bytes * Z) → prog (result bool)) :
  prog_step (Vis (EKv (GetVersioned TABLE_LEASES SINGLE_PK name))
    (λ r, match r with Ok o => k o | Err e => Ret (Err e) end)) w =
  Some (k (w_kv w !! lease_key name), w).
Proof. cbn [prog_step handle]. change (kv_step ?o ?m) with (spec_store o m). cbn [spec_store fst snd]. by rewrite set_kv_id. Qed.

Lemma acquire_expired id ttl now (base : bytes) (v : Z) (r : LeaseRecord) (d : Z) (b : bytes) :
  from_slice base = inr r → duration_seconds (i64_wrap (lr_ttl_secs r)) = Some d →
  (now > lr_renewed_at r + d)%Z → to_vec (mkLeaseRecord id now ttl) = inr b →
  acquire_with name id ttl now (Some (base, v)) =
    Vis (EKv (PutIfVersion TABLE_LEASES SINGLE_PK name b (Some v))) Ret.
Proof.
  intros Hb Hd He Hto. unfold acquire_with, lease_key. rewrite Hb. cbn [serde_result try_].
  rewrite Hd, decide_True by by right. by rewrite Hto.
Qed.

Lemma acquire_absent id ttl now (b : bytes) :
  to_vec (mkLeaseRecord id now ttl) = inr b →
  acquire_with name id ttl now None = Vis (EKv (PutIfAbsent TABLE_LEASES SINGLE_PK name b)) Ret.
Proof. intros Hto. unfold acquire_with, lease_key. by rewrite Hto. Qed.

Lemma takes_over (b base : bytes) (v : Z) w :
  w_kv w !! lease_key name = Some (base, v) →
  prog_step (Vis (EKv (PutIfVersion TABLE_LEASES SINGLE_PK name b (Some v))) Ret) w =
    Some (Ret (Ok true), set_kv (<[lease_key name := (b, u64_add v 1)]> (w_kv w)) w).
Proof.
  intros Hm. cbn [prog_step handle]. change (kv_step ?o ?m) with (spec_store o m). cbn [spec_store].
  unfold spec_put_if_version. unfold lease_key in *. by rewrite Hm, decide_True.
Qed.

Lemma creates (b : bytes) w :
  w_kv w !! lease_key name = None →
  prog_step (Vis (EKv (PutIfAbsent TABLE_LEASES SINGLE_PK name b)) Ret) w =
    Some (Ret (Ok true), set_kv (<[lease_key name := (b, 1%Z)]> (w_kv w)) w).
Proof.
  intros Hm. cbn [prog_step handle]. change (kv_step ?o ?m) with (spec_store o m). cbn [spec_store].
  unfold spec_put_if_version. unfold lease_key in *. by rewrite Hm, decide_True.
Qed.
End effects.

(** Releasing can take a lease away from another instance: the release
    deletes without comparing the version it read.  An instance that reads
    its own expired lease, is overtaken by another instance that takes the
    lease over, and then deletes, leaves a third instance free to acquire the
    lease while the second one holds it unexpired. *)
Theorem release_can_drop_other_lease `{Serde LeaseRecord} {lease_exact : SerdeExact LeaseRecord}
    `{Chrono} `{UuidGen} (name a b c : string) (ttl d : Z) (r : LeaseRecord) (w : world kvmap)
    (v : Z) (base bb bc : bytes) :
  lr_holder r = a → a ≠ b → b ≠ c → from_slice base = inr r →
  w_kv w !! lease_key name = Some (base, v) → u64_ok (v + 1) →
  duration_seconds (i64_wrap (lr_ttl_secs r)) = Some d → (w_now w > lr_renewed_at r + d)%Z →
  to_vec (mkLeaseRecord b (w_now w) ttl) = inr bb → to_vec (mkLeaseRecord c (w_now w) ttl) = inr bc →
  steps ([release_lease name a; try_acquire_lease name b ttl; try_acquire_lease name c ttl], w)
    ([Ret (Ok true); Ret (Ok true); Ret (Ok true)],
     set_kv (<[lease_key name := (bc, 1%Z)]> (w_kv w)) w).
Proof.
  intros Ha Hab Hbc Hbase Hm Hv Hd Hexp Hbb Hbcv.
  eapply (steps_call 0); [done|by apply (release_reads name a w r v base)|].
  eapply (steps_call 1); [done|reflexivity|].
  eapply (steps_call 1); [done|by apply read_lease|].
  change (handle ENow w) with (w_now w, w). cbn [fst snd].
  rewrite Hm, (acquire_expired name b ttl (w_now w) base v r d bb) by done.
  eapply (steps_call 1); [done|by apply (takes_over name bb base v w)|].
  eapply (steps_call 0); [done|reflexivity|].
  set (m2 := delete (lease_key name) (<[lease_key name := (bb, u64_add v 1)]> (w_kv w))).
  match goal with |- steps (_, (handle ?e ?x).2) _ => change (handle e x).2 with (set_kv m2 w) end.
  set (w2 := set_kv m2 w).
  eapply (steps_call 2); [done|reflexivity|].
  eapply (steps_call 2); [done|by apply read_lease|].
  change (handle ENow w2) with (w_now w, w2). cbn [fst snd].
  assert (w_kv w2 !! lease_key name = None) as Hnone by (by apply lookup_delete_eq).
  rewrite Hnone, (acquire_absent name c ttl (w_now w) bc) by done.
  eapply (steps_call 2); [done|by apply creates|].
  unfold w2, m2. cbn [w_kv set_kv]. rewrite insert_delete_eq, insert_insert_eq. apply rtc_refl.
Qed.

(** ** Witnesses *)

Definition toy_lease (holder : string) (t : DateTime) : LeaseRecord := mkLeaseRecord holder t 10.

Definition toy_lr_serde : Serde LeaseRecord :=
  table_serde [toy_lease "a" 0; toy_lease "b" (50 * 10 ^ 9); toy_lease "c" (50 * 10 ^ 9)]%Z.

Definition toy_lease_world : world kvmap :=
  set_now (50 * 10 ^ 9)%Z (world_of {[lease_key "gc" := ("0", 4%Z)]}).

(** Two instances race for an expired lease, and one wins. *)
Lemma lease_handover_after_expiry_witness :
  let _ := toy_lr_serde in let _ := toy_chrono in let _ := toy_uuid in
  let calls := (λ cl, try_acquire_lease "gc" cl.1 cl.2) <$> [("b", 10%Z); ("c", 10%Z)] in
  handed_over ([toy_lease "b" (50 * 10 ^ 9)%Z] ++ held "gc" toy_lease_world) ∧
  ∃ i, NoDup [i] ∧ [("b", 10%Z); ("c", 10%Z)] !! i = Some ("b", 10%Z).
Proof.
  intros ? ? ? calls.
  set (x := lease_exec "gc" [0; 1; 0; 1; 0; 1] ([], (calls, toy_lease_world))).
  assert (x.1 = [toy_lease "b" (50 * 10 ^ 9)%Z]) as Hlog by (vm_compute; reflexivity).
  destruct (@lease_handover_after_expiry toy_lr_serde (table_serde_exact _) toy_chrono toy_uuid "gc"
    [("b", 10%Z); ("c", 10%Z)] toy_lease_world x.1 x.2.1 x.2.2) as (Hchain & (winners & Hnd & _ & Hown) & _).
  - vm_compute. split; [discriminate|reflexivity].
  - rewrite Hlog. vm_compute. split; [discriminate|reflexivity].
  - rewrite <-surjective_pairing. 
    exact (lease_exec_run "gc" [0; 1; 0; 1; 0; 1] (calls, toy_lease_world) ([], (calls, toy_lease_world))
      (lease_run_start "gc" _)).
  - rewrite Hlog in Hchain, Hown. split; [exact Hchain|].
    inversion Hown as [|i r is_ rs Hi Hrest]; subst. inversion Hrest; subst. exists i. split; [exact Hnd|exact Hi].
Defined.

Lemma release_can_drop_other_lease_witness :
  let _ := toy_lr_serde in let _ := toy_chrono in let _ := toy_uuid in
  steps ([release_lease "gc" "a"; try_acquire_lease "gc" "b" 10; try_acquire_lease "gc" "c" 10], toy_lease_world)
    ([Ret (Ok true); Ret (Ok true); Ret (Ok true)],
     set_kv (<[lease_key "gc" := ("2", 1%Z)]> (w_kv toy_lease_world)) toy_lease_world).
Proof.
  intros ? ? ?.
  refine (@release_can_drop_other_lease toy_lr_serde (table_serde_exact _) toy_chrono toy_uuid "gc" "a" "b" "c"
    10 (10 * 10 ^ 9)%Z (toy_lease "a" 0%Z) toy_lease_world 4 "0" "1" "2" _ _ _ _ _ _ _ _ _ _); try done.
Defined.
