(* ===== verification/Reaper.v ===== *)
(** * The clean-up tick (server/src/server/worker/cleanup.rs)

    What a tick of the clean-up loop does: it drains the repositories that are
    being deleted, drops stale upload sessions and reaps tasks.  The timer loop
    itself is not modelled. *)

From S2P Require Import Prelude Bytes Errors Keys Records Kv Prog Wp Scan Pagination Artifact Repo.
From S2P Require Import Accounts Tasks TaskManager Cluster Settings.

(** [s.find(p)] with the text before the match. *)
Fixpoint before_match (p s : string) : option string :=
  if starts_with s p then Some ""
  else match s with
       | EmptyString => None
       | String c s => match before_match p s with Some x => Some (String c x) | None => None end
       end.

(** server/src/server/worker/cleanup.rs:180-188 *)
Definition extract_image_prefix (path : string) : option string :=
  match before_match "/_manifests/" path with
  | None => None
  | Some prefix =>
      if negb (bool_decide (prefix = "")) && negb (starts_with prefix "_") then Some prefix else None
  end.

Section cleanup.
Context `{Blake3} `{Serde RepoConfig} `{Serde InstanceRecord} `{Serde UploadSessionRecord}.
Context `{Serde TaskRecord} `{Chrono} `{Scheduler}.

(** The body of the loop over the repositories. *)
(** server/src/server/worker/cleanup.rs:87-95 *)
Fixpoint drain_marked (fuel : nat) (repos : list RepoConfig) : prog unit :=
  match repos with
  | [] => Ret tt
  | repo :: repos =>
      if rc_deleting repo then
        let* _ := drain_deleting_repo (arrange 60 shard_range) (arrange 61 shard_range) fuel (rc_name repo) in
        drain_marked fuel repos
      else drain_marked fuel repos
  end.

(** server/src/server/worker/cleanup.rs:78-96 *)
Definition drain_deleting_repos (fuel : nat) : prog unit :=
  let* r := list_repos_raw in
  match r with
  | Err _ => Ret tt
  | Ok all_repos => drain_marked fuel all_repos
  end.

Definition orphan_error (owner : string) : string := "owner instance " +:+ owner +:+ " is no longer live".

(** The record of a task whose owner is gone. *)
(** server/src/server/worker/cleanup.rs:144-151 *)
Definition orphaned (now : DateTime) (task : TaskRecord) : TaskRecord :=
  mkTaskRecord (tr_schema_version task) (tr_id task) (tr_kind task) Failed (tr_created_at task)
    (tr_started_at task) (Some now) now (tr_progress task) (tr_result task)
    (Some (orphan_error (tr_owner_instance_id task))) (tr_summary task) (tr_owner_instance_id task)
    (tr_deleting task) (tr_event_seq task).

(** server/src/server/worker/cleanup.rs:124-175 *)
Definition reap_task (fuel : nat) (live_instances : gset string) (retention_secs : Z) (now : DateTime)
    (task : TaskRecord) : prog unit :=
  if tr_deleting task then
    let* r := drain_task_events fuel (tr_id task) in
    match r with
    | Err _ => Ret tt
    | Ok _ => let* _ := delete_task_summary (tr_id task) in Ret tt
    end
  else if negb (bool_decide (live_instances = ∅)) && active (tr_status task) &&
          negb (bool_decide (tr_owner_instance_id task = "")) &&
          negb (bool_decide (tr_owner_instance_id task ∈ live_instances)) then
    put_record (orphaned now task)
  else if active (tr_status task) then Ret tt
  else match tr_completed_at task with
       | None => Ret tt
       | Some completed_at =>
           let age := num_seconds_between now completed_at in
           if decide (retention_secs ≤ age)%Z then put_record (tr_touch now (tr_mark_deleting task))
           else Ret tt
       end.

Fixpoint reap_each (fuel : nat) (live_instances : gset string) (retention_secs : Z) (now : DateTime)
    (tasks : list TaskRecord) : prog unit :=
  match tasks with
  | [] => Ret tt
  | task :: tasks =>
      let* _ := reap_task fuel live_instances retention_secs now task in
      reap_each fuel live_instances retention_secs now tasks
  end.

(** server/src/server/worker/cleanup.rs:103-176 *)
Definition reap_tasks (fuel : nat) (settings : Settings) : prog unit :=
  let* r := list_tasks in
  match r with
  | Err _ => Ret tt
  | Ok tasks =>
      let* l := list_live_instances in
      let live_instances : gset string :=
        match l with Ok v => list_to_set (ir_instance_id <$> v) | Err _ => ∅ end in
      let retention_secs := i64_wrap (st_task_retention_secs settings) in
      let* now := call ENow in
      reap_each fuel live_instances retention_secs now tasks
  end.

(** One hour, in nanoseconds. *)
(** server/src/server/worker/cleanup.rs:37-37 *)
Definition UPLOAD_SESSION_TTL : Z := (3600 * 10 ^ 9)%Z.

(** server/src/server/worker/cleanup.rs:26-48 *)
Definition run_cleanup_tick (fuel : nat) (settings : Settings) : prog (result unit) :=
  let* _ := drain_deleting_repos fuel in
  let* _ := cleanup_upload_sessions UPLOAD_SESSION_TTL in
  let* _ := reap_tasks fuel settings in
  Ret (Ok tt).
End cleanup.

(** ** What a tick does to the tasks *)

Section fates.
Context `{Serde TaskRecord} `{!SerdeExact TaskRecord} `{UuidGen}.
Context (fuel : nat) (live : gset string) (retention : Z) (now : DateTime).
Implicit Types (m : kvmap) (w : world kvmap).

(** A task is left alone, rewritten, or removed with its log. *)
Inductive fate : Type := Keep | Rewrite (r : TaskRecord) | Remove.

Definition fate_of (task : TaskRecord) : fate :=
  if tr_deleting task then Remove
  else if active (tr_status task) then
    if bool_decide (live ≠ ∅ ∧ tr_owner_instance_id task ≠ "" ∧ tr_owner_instance_id task ∉ live)
    then Rewrite (orphaned now task) else Keep
  else match tr_completed_at task with
       | Some completed_at =>
           if decide (retention ≤ num_seconds_between now completed_at)%Z
           then Rewrite (tr_touch now (tr_mark_deleting task)) else Keep
       | None => Keep
       end.

Lemma rewrite_id task r : fate_of task = Rewrite r → tr_id r = tr_id task.
Proof.
  unfold fate_of. destruct (tr_deleting task); [done|]. destruct (active (tr_status task)).
  - case_bool_decide; [by intros [= <-]|done].
  - destruct (tr_completed_at task); [|done]. case_decide; [by intros [= <-]|done].
Qed.

(** What has to be written for the task can be. *)
Definition writable_fate (task : TaskRecord) : Prop :=
  ∀ r, fate_of task = Rewrite r → ∃ b, to_vec_named (tr_current r) = inr b.

(** From [m] to [m'] only this task has changed, as its fate says. *)
Definition reaped (task : TaskRecord) m m' : Prop :=
  let id := tr_id task in
  task_at m' id = match fate_of task with
                  | Keep => task_at m id
                  | Rewrite r => Some (tr_current r)
                  | Remove => None
                  end ∧
  (∀ sk, m' !! (TABLE_TASK_EVENTS, id, sk) =
     match fate_of task with Remove => None | _ => m !! (TABLE_TASK_EVENTS, id, sk) end) ∧
  ∀ t pk sk, (t, pk, sk) ≠ task_key id → (t, pk) ≠ (TABLE_TASK_EVENTS, id) → m' !! (t, pk, sk) = m !! (t, pk, sk).

Lemma reaped_same task m : fate_of task = Keep → reaped task m m.
Proof. intros Hf. unfold reaped. by rewrite Hf. Qed.

Lemma reaped_rewrite task r m : writable_fate task → fate_of task = Rewrite r → reaped task m (put_task r m).
Proof using SerdeExact0.
  intros Hw Hf. unfold reaped. rewrite Hf. pose proof (rewrite_id _ _ Hf) as Hid. cbv zeta. split_and!.
  - rewrite <-Hid. by apply task_at_put_task, Hw.
  - intros sk. by rewrite put_task_other.
  - intros t pk sk Hne _. apply put_task_other. by rewrite Hid.
Qed.

Lemma run_reap_task task w :
  writable_fate task →
  length (part (w_kv w) TABLE_TASK_EVENTS (tr_id task)) < fuel →
  ∃ m', run (reap_task fuel live retention now task) w = (Some tt, set_kv m' w) ∧ reaped task (w_kv w) m'.
Proof using SerdeExact0.
  intros Hw Hf. unfold reap_task. destruct (tr_deleting task) eqn:Hd.
  - destruct (run_drain_events fuel (tr_id task) w Hf) as (m1 & Hr & Hdr).
    exists (delete (task_key (tr_id task)) m1). split.
    + rewrite run_bind, Hr. cbn [run]. rewrite run_bind.
      change (delete_task_summary (tr_id task)) with (kv (Delete TABLE_TASKS SINGLE_PK (tr_id task))).
      rewrite (run_kv_spec (Delete _ _ _)). cbn [spec_store fst snd run w_kv set_kv]. by rewrite set_kv_twice.
    + unfold reaped, fate_of. rewrite Hd. cbv zeta. split_and!.
      * unfold task_at. by rewrite lookup_delete_eq.
      * intros sk. rewrite lookup_delete_ne by done. by apply Hdr.
      * intros t pk sk Hne Hne'. rewrite lookup_delete_ne by done. by apply Hdr.
  - destruct (active (tr_status task)) eqn:Ha; cbn [andb negb].
    + assert (negb (bool_decide (live = ∅)) && true && negb (bool_decide (tr_owner_instance_id task = "")) &&
        negb (bool_decide (tr_owner_instance_id task ∈ live)) =
        bool_decide (live ≠ ∅ ∧ tr_owner_instance_id task ≠ "" ∧ tr_owner_instance_id task ∉ live)) as ->.
      { repeat case_bool_decide; cbn; naive_solver. }
      case_bool_decide as Hgone.
      * rewrite run_put_record. eexists. split; [done|]. apply reaped_rewrite; [done|].
        unfold fate_of. by rewrite Hd, Ha, bool_decide_eq_true_2.
      * exists (w_kv w). rewrite set_kv_id. split; [done|]. apply reaped_same.
        unfold fate_of. by rewrite Hd, Ha, bool_decide_eq_false_2.
    + rewrite andb_false_r. cbn [andb].
      destruct (tr_completed_at task) as [c|] eqn:Hc; [case_decide as Hold|].
      * rewrite run_put_record. eexists. split; [done|]. apply reaped_rewrite; [done|].
        unfold fate_of. by rewrite Hd, Ha, Hc, decide_True.
      * exists (w_kv w). rewrite set_kv_id. split; [done|]. apply reaped_same.
        unfold fate_of. by rewrite Hd, Ha, Hc, decide_False.
      * exists (w_kv w). rewrite set_kv_id. split; [done|]. apply reaped_same. unfold fate_of. by rewrite Hd, Ha, Hc.
Qed.

(** All the tasks of a list: each by its fate, and nothing else. *)
Lemma run_reap_each tasks w :
  NoDup (tr_id <$> tasks) → Forall writable_fate tasks →
  Forall (λ task, length (part (w_kv w) TABLE_TASK_EVENTS (tr_id task)) < fuel) tasks →
  ∃ m', run (reap_each fuel live retention now tasks) w = (Some tt, set_kv m' w) ∧
    (∀ task, task ∈ tasks →
       task_at m' (tr_id task) = match fate_of task with
                                 | Keep => task_at (w_kv w) (tr_id task)
                                 | Rewrite r => Some (tr_current r)
                                 | Remove => None
                                 end ∧
       ∀ sk, m' !! (TABLE_TASK_EVENTS, tr_id task, sk) =
         match fate_of task with Remove => None | _ => w_kv w !! (TABLE_TASK_EVENTS, tr_id task, sk) end) ∧
    ∀ t pk sk, (∀ id, id ∈ tr_id <$> tasks → (t, pk, sk) ≠ task_key id ∧ (t, pk) ≠ (TABLE_TASK_EVENTS, id)) →
      m' !! (t, pk, sk) = w_kv w !! (t, pk, sk).
Proof using SerdeExact0.
  revert w. induction tasks as [|task tasks IH]; intros w Hnd Hw Hf; cbn [reap_each].
  { exists (w_kv w). rewrite set_kv_id. split_and!; [done|by intros ? ?%elem_of_nil|done]. }
  apply NoDup_cons in Hnd as [Hid Hnd]. apply Forall_cons in Hf as [Hf1 Hf].
  apply Forall_cons in Hw as [Hw1 Hw]. destruct (run_reap_task task w Hw1 Hf1) as (m1 & Hr1 & Hat & Hev & Hframe).
  assert (∀ id, id ≠ tr_id task → task_at m1 id = task_at (w_kv w) id ∧
    ∀ sk, m1 !! (TABLE_TASK_EVENTS, id, sk) = w_kv w !! (TABLE_TASK_EVENTS, id, sk)) as Hother.
  { intros id Hne. split.
    - unfold task_at, task_key. rewrite Hframe; [done| |done]. intros [= ?]. done.
    - intros sk. apply Hframe; [done|]. intros [= ?]. done. }
  assert (∀ task', task' ∈ tasks → tr_id task' ≠ tr_id task) as Hne.
  { intros task' Hin Heq. apply Hid. rewrite <-Heq. by apply list_elem_of_fmap_2. }
  destruct (IH (set_kv m1 w) Hnd Hw) as (m' & Hr & Htasks & Hrest).
  { apply Forall_forall. intros task' Hin. rewrite Forall_forall in Hf. cbn [w_kv set_kv].
    rewrite (part_ext m1 (w_kv w)); [by apply Hf|]. by apply Hother, Hne. }
  exists m'. rewrite run_bind, Hr1. split; [done|]. split.
  - intros task' [->|Hin]%elem_of_cons.
    + assert (∀ t pk sk, (t, pk, sk) = task_key (tr_id task) ∨ (t, pk) = (TABLE_TASK_EVENTS, tr_id task) →
        m' !! (t, pk, sk) = m1 !! (t, pk, sk)) as Hkept.
      { intros t pk sk Hk. apply Hrest. intros id Hin. assert (id ≠ tr_id task) by (by intros ->).
        split; intros Heq; destruct Hk as [Hk|Hk]; unfold task_key in *; simplify_eq. }
      split; [|intros sk; rewrite Hkept by (by right); apply Hev].
      rewrite <-Hat. unfold task_at, task_key. by rewrite Hkept by (by left).
    + destruct (Htasks task' Hin) as [Hat' Hev']. cbn [w_kv set_kv] in *.
      destruct (Hother (tr_id task') (Hne task' Hin)) as [<- Hsame].
      split; [done|]. intros sk. rewrite <-Hsame. apply Hev'.
  - intros t pk sk Hk. rewrite Hrest; [|intros id Hin; apply Hk; by right]. cbn [w_kv set_kv].
    apply Hframe; apply (Hk (tr_id task)); by left.
Qed.
End fates.

(** ** Properties *)

Section properties.
Context `{Serde TaskRecord} `{!SerdeExact TaskRecord} `{Serde InstanceRecord} `{Chrono} `{UuidGen}.
Implicit Types (m : kvmap) (w : world kvmap).

(** What a tick does to the tasks.  A task that is being deleted
    disappears with its log; an unfinished task whose owner is not among the
    live instances fails, unless no instance is known to be live; a finished
    task that is older than the retention is marked for deletion; every other
    task, every other log (also one that no task leads to) and everything else
    in the store stays as it is. *)
Theorem reap_tasks_exact fuel (settings : Settings) tasks instances w :
  let live : gset string := list_to_set (ir_instance_id <$> instances) in
  let retention := i64_wrap (st_task_retention_secs settings) in
  let fate := fate_of live retention (w_now w) in
  stored_tasks (w_kv w) = Ok tasks → NoDup (tr_id <$> tasks) →
  run list_live_instances w = (Some (Ok instances), w) →
  Forall (writable_fate live retention (w_now w)) tasks →
  Forall (λ task, length (part (w_kv w) TABLE_TASK_EVENTS (tr_id task)) < fuel) tasks →
  ∃ m', run (reap_tasks fuel settings) w = (Some tt, set_kv m' w) ∧
    (∀ task, task ∈ tasks →
       task_at m' (tr_id task) = match fate task with
                                 | Keep => task_at (w_kv w) (tr_id task)
                                 | Rewrite r => Some (tr_current r)
                                 | Remove => None
                                 end ∧
       ∀ sk, m' !! (TABLE_TASK_EVENTS, tr_id task, sk) =
         match fate task with Remove => None | _ => w_kv w !! (TABLE_TASK_EVENTS, tr_id task, sk) end) ∧
    ∀ t pk sk, (∀ id, id ∈ tr_id <$> tasks → (t, pk, sk) ≠ task_key id ∧ (t, pk) ≠ (TABLE_TASK_EVENTS, id)) →
      m' !! (t, pk, sk) = w_kv w !! (t, pk, sk).
Proof using SerdeExact0.
  intros live retention fate Htasks Hnd Hlive Hw Hf. unfold reap_tasks. rewrite run_bind, run_list_tasks, Htasks.
  rewrite run_bind, Hlive. cbv beta iota zeta. rewrite run_bind. cbn [call run handle].
  by apply run_reap_each.
Qed.

(** A retention of 2^63 seconds or more, which validation accepts, is cast
    to a negative number: every finished task is then marked for deletion at
    the next tick, however recent it is. *)
Theorem huge_retention_deletes_at_once live (settings : Settings) now (task : TaskRecord) completed :
  (2 ^ 63 ≤ st_task_retention_secs settings < 2 ^ 64)%Z →
  tr_deleting task = false → active (tr_status task) = false → tr_completed_at task = Some completed →
  (completed ≤ now)%Z →
  fate_of live (i64_wrap (st_task_retention_secs settings)) now task = Rewrite (tr_touch now (tr_mark_deleting task)).
Proof.
  intros Hret Hd Ha Hc Hle. unfold fate_of. rewrite Hd, Ha, Hc, decide_True; [done|].
  transitivity 0%Z.
  - unfold i64_wrap. replace (st_task_retention_secs settings + 2 ^ 63)%Z
      with ((st_task_retention_secs settings - 2 ^ 63) + 1 * 2 ^ 64)%Z by lia.
    rewrite Z.mod_add, Z.mod_small by lia. lia.
  - unfold num_seconds_between. apply Z.quot_pos; lia.
Qed.
End properties.

(** ** Witnesses *)

Definition task_of (id : string) (status : TaskStatus) (completed : option DateTime) (owner : string) (deleting : bool) :
    TaskRecord :=
  mkTaskRecord CURRENT_RECORD_VERSION id TKCheck status 1%Z None completed 1%Z empty_progress None None "" owner deleting 1.

Definition reap_tasks_list : list TaskRecord :=
  [task_of "a" Running None "n1" false; task_of "b" Running None "n2" false;
   task_of "c" Completed (Some 0%Z) "n1" false; task_of "d" Completed (Some 0%Z) "n1" true].

Definition reap_now : DateTime := (100 * 10 ^ 9)%Z.

Definition reap_serde : Serde TaskRecord :=
  table_serde (reap_tasks_list ++ [tr_current (orphaned reap_now (task_of "b" Running None "n2" false));
    tr_current (tr_touch reap_now (tr_mark_deleting (task_of "c" Completed (Some 0%Z) "n1" false)))]).

Definition reap_instances : list InstanceRecord := [mkInstanceRecord "n1" 0%Z reap_now "host"].
Definition reap_instance_serde : Serde InstanceRecord := table_serde reap_instances.

Definition reap_settings : Settings :=
  mkSettings true 1000 None None None None None 10 60 3600 None None None 1000 60 None None None.

Definition reap_world : world kvmap :=
  mkWorld (list_to_map [(task_key "a", ("0", 1%Z)); (task_key "b", ("1", 1%Z)); (task_key "c", ("2", 1%Z));
    (task_key "d", ("3", 1%Z)); (task_event_key "d" 0, ("e", 1%Z)); (task_event_key "gone" 0, ("e", 1%Z));
    (meta_key "instance/n1", ("0", 1%Z))]) ∅ ∅ reap_now 0 [] false.

(** The task of a dead owner, one that is past its time, one to be removed and
    the log of a task that has no record any more. *)
Lemma reap_tasks_exact_witness :
  let _ := reap_serde in let _ := reap_instance_serde in let _ := toy_chrono in let _ := toy_uuid in
  ∃ m', run (reap_tasks 3 reap_settings) reap_world = (Some tt, set_kv m' reap_world) ∧
    tr_status <$> task_at m' "a" = Some Running ∧ tr_status <$> task_at m' "b" = Some Failed ∧
    tr_deleting <$> task_at m' "c" = Some true ∧ task_at m' "d" = None ∧
    m' !! task_event_key "d" 0 = None ∧ m' !! task_event_key "gone" 0 = Some ("e", 1%Z).
Proof.
  intros ? ? ? ?.
  destruct (@reap_tasks_exact reap_serde ltac:(done) reap_instance_serde toy_chrono toy_uuid 3 reap_settings
    reap_tasks_list reap_instances reap_world) as (m' & Hrun & Htasks & Hframe).
  - vm_compute. reflexivity.
  - by_decide.
  - reflexivity.
  - repeat (apply Forall_cons; split); [..|by apply Forall_nil]; intros r1 Hr; vm_compute in Hr; try discriminate Hr;
      injection Hr as <-; eexists; vm_compute; reflexivity.
  - by_decide.
  - exists m'. split; [exact Hrun|]. split_and!.
    + pose proof (proj1 (Htasks (task_of "a" Running None "n1" false) ltac:(by_decide))) as Hat.
      refine (eq_trans (f_equal (fmap tr_status) Hat) _). vm_compute. reflexivity.
    + pose proof (proj1 (Htasks (task_of "b" Running None "n2" false) ltac:(by_decide))) as Hat.
      refine (eq_trans (f_equal (fmap tr_status) Hat) _). vm_compute. reflexivity.
    + pose proof (proj1 (Htasks (task_of "c" Completed (Some 0%Z) "n1" false) ltac:(by_decide))) as Hat.
      refine (eq_trans (f_equal (fmap tr_deleting) Hat) _). vm_compute. reflexivity.
    + exact (proj1 (Htasks (task_of "d" Completed (Some 0%Z) "n1" true) ltac:(by_decide))).
    + exact (proj2 (Htasks (task_of "d" Completed (Some 0%Z) "n1" true) ltac:(by_decide)) (event_sk 0)).
    + unfold task_event_key. rewrite Hframe; [vm_compute; reflexivity|].
      intros id Hid. split; [done|]. intros [= <-]. revert Hid. by_decide.
Defined.

Lemma huge_retention_deletes_at_once_witness :
  let settings := mkSettings true 1000 None None None None None 10 60 3600 None None None 1000 (2 ^ 63) None None None in
  fate_of ∅ (i64_wrap (2 ^ 63)) reap_now (task_of "c" Completed (Some reap_now) "n1" false) =
    Rewrite (tr_touch reap_now (tr_mark_deleting (task_of "c" Completed (Some reap_now) "n1" false))).
Proof.
  intros settings.
  apply (huge_retention_deletes_at_once ∅ settings reap_now (task_of "c" Completed (Some reap_now) "n1" false) reap_now);
    [cbn; lia|reflexivity|reflexivity|reflexivity|lia].
Defined.
