(* ===== verification/BloomFilter.v ===== *)
(** * Bloom filters (server/src/server/worker/blob_reaper/bloom.rs)

    The garbage collector builds one filter per shard and merges them by a
    bytewise OR.  The crate [bloomfilter] is a parameter; what the code relies
    on is its serial form, a header followed by the bitmap.  The theorem is
    that merging never loses an element: a blob that some shard has seen is in
    the merged filter. *)

From S2P Require Import Prelude Errors.

(** [u8]s of a buffer. *)
Abbreviation buffer := (list N).

(** Every bit that is set in the first is set in the second. *)
Definition bits_le (a b : buffer) : Prop := Forall2 (λ x y, N.lor x y = y) a b.

(** The length of the header of a serialised filter, computed as the code does
    from the total length and the number of bits. *)
Definition header_of (slice : buffer) (bit_count : N) : nat :=
  let total := length slice in
  let bitmap_bytes := N.to_nat (bit_count / 8) in
  total - bitmap_bytes.

(** The crate; the false positive rate is always one percent.  A new filter is
    empty.  Filters that agree on the header use the same hashes, so a
    look-up that finds its bits in one finds them in any with more bits. *)
Class BloomCrate := {
  Bloom : Type;
  new_for_fp_rate : nat → string + Bloom;
  bloom_len : Bloom → N;
  as_slice : Bloom → buffer;
  from_bytes : buffer → string + Bloom;
  bloom_clear : Bloom → Bloom;
  bloom_set : Bloom → string → Bloom;
  bloom_check : Bloom → string → bool;
  bloom_like f g := bloom_len f = bloom_len g ∧ length (as_slice f) = length (as_slice g) ∧
    take (header_of (as_slice f) (bloom_len f)) (as_slice f) =
    take (header_of (as_slice g) (bloom_len g)) (as_slice g);
  bloom_payload f := drop (header_of (as_slice f) (bloom_len f)) (as_slice f);
  from_bytes_like : ∀ f bs, length bs = length (as_slice f) →
    take (header_of (as_slice f) (bloom_len f)) bs = take (header_of (as_slice f) (bloom_len f)) (as_slice f) →
    ∃ g, from_bytes bs = inr g ∧ as_slice g = bs ∧ bloom_len g = bloom_len f;
  new_check : ∀ n f x, new_for_fp_rate n = inr f → bloom_check f x = false;
  bloom_clear_like : ∀ f, bloom_like f (bloom_clear f);
  bloom_clear_check : ∀ f x, bloom_check (bloom_clear f) x = false;
  bloom_set_like : ∀ f x, bloom_like f (bloom_set f x);
  bloom_set_grows : ∀ f x, bits_le (bloom_payload f) (bloom_payload (bloom_set f x));
  bloom_set_check : ∀ f x, bloom_check (bloom_set f x) x = true;
  bloom_check_grows : ∀ f g x, bloom_like f g → bits_le (bloom_payload f) (bloom_payload g) →
    bloom_check f x = true → bloom_check g x = true;
}.

(** [slice.get(..n)]. *)
Definition slice_to {A} (n : nat) (l : list A) : option (list A) :=
  if decide (n ≤ length l) then Some (take n l) else None.

Section bloom.
Context `{BloomCrate}.

(** server/src/server/worker/blob_reaper/bloom.rs:23-25 *)
Definition bloom_err (context e : string) : DepotError :=
  Internal ("bloom filter " +:+ context +:+ ": " +:+ e).

(** server/src/server/worker/blob_reaper/bloom.rs:30-34 *)
Definition header_len (filter : Bloom) : nat :=
  let total := length (as_slice filter) in
  let bitmap_bytes := N.to_nat (bloom_len filter / 8) in
  total - bitmap_bytes.

(** server/src/server/worker/blob_reaper/bloom.rs:39-47 *)
Definition bloom_empty_like (template : Bloom) : result Bloom :=
  match from_bytes (as_slice template) with
  | inl e => Err (bloom_err "clone" e)
  | inr b => Ok (bloom_clear b)
  end.

(** server/src/server/worker/blob_reaper/bloom.rs:56-71 *)
Definition bloom_union (target source : Bloom) : result Bloom :=
  let h := header_len target in
  let merged := as_slice target in
  let src := as_slice source in
  if decide (slice_to h merged ≠ slice_to h src ∨ length merged ≠ length src) then
    Err (bloom_err "union" "filter parameter mismatch")
  else
    match from_bytes (take h merged ++ zip_with N.lor (drop h merged) (drop h src)) with
    | inl e => Err (bloom_err "union" e)
    | inr b => Ok b
    end.

(** server/src/server/worker/blob_reaper/bloom.rs:83-86 *)
Record BloomAccumulator : Type := mkBloomAccumulator {
  acc_header : buffer;
  acc_bits : buffer;
}.

(** server/src/server/worker/blob_reaper/bloom.rs:90-98 *)
Definition acc_empty_like (template : Bloom) : BloomAccumulator :=
  let h := header_len template in
  let serialized := as_slice template in
  let header := default [] (slice_to h serialized) in
  let payload_len := length serialized - h in
  mkBloomAccumulator header (replicate payload_len 0%N).

(** server/src/server/worker/blob_reaper/bloom.rs:112-128 *)
Definition or_from (acc : BloomAccumulator) (source : Bloom) : result BloomAccumulator :=
  let src := as_slice source in
  if decide (slice_to (length (acc_header acc)) src ≠ Some (acc_header acc) ∨
             length src ≠ length (acc_header acc) + length (acc_bits acc)) then
    Err (bloom_err "accumulate" "filter parameter mismatch")
  else
    Ok (mkBloomAccumulator (acc_header acc)
      (zip_with (λ dst s, if decide (s = 0%N) then dst else N.lor dst s) (acc_bits acc)
        (drop (length (acc_header acc)) src))).

(** server/src/server/worker/blob_reaper/bloom.rs:132-137 *)
Definition finalize (acc : BloomAccumulator) : result Bloom :=
  let bytes := acc_header acc ++ acc_bits acc in
  match from_bytes bytes with
  | inl e => Err (bloom_err "finalize" e)
  | inr b => Ok b
  end.

(** ** Merging loses nothing *)

Lemma header_len_of f : header_len f = header_of (as_slice f) (bloom_len f).
Proof. done. Qed.

Lemma header_len_le f : header_len f ≤ length (as_slice f).
Proof.
  unfold header_len. cbv zeta. apply Nat.le_sub_l.
Qed.

Lemma bloom_like_refl f : bloom_like f f.
Proof. done. Qed.

Lemma bloom_like_trans f g h : bloom_like f g → bloom_like g h → bloom_like f h.
Proof. intros (? & ? & ?) (? & ? & ?). split_and!; etrans; done. Qed.

Lemma bloom_like_header f g : bloom_like f g → header_len f = header_len g.
Proof. intros (Hl & Hs & _). unfold header_len. by rewrite Hl, Hs. Qed.

Lemma bits_le_refl l : bits_le l l.
Proof. apply Forall_Forall2_diag, Forall_true. intros. apply N.lor_diag. Qed.

Lemma bits_le_trans a b c : bits_le a b → bits_le b c → bits_le a c.
Proof.
  intros Hab. revert c. induction Hab as [|x y a b Hxy Hab IH]; intros c Hbc; inversion Hbc; subst; constructor.
  - match goal with Hyz : N.lor y _ = _ |- _ => rewrite <-Hyz end. by rewrite N.lor_assoc, Hxy.
  - by apply IH.
Qed.

Lemma or_byte d s : (if decide (s = 0%N) then d else N.lor d s) = N.lor d s.
Proof. case_decide; [|done]. subst. by rewrite N.lor_0_r. Qed.

Lemma zip_or_length a b : length a = length b →
  length (zip_with (λ dst s, if decide (s = 0%N) then dst else N.lor dst s) a b) = length a.
Proof. intros. rewrite length_zip_with. lia. Qed.

Lemma zip_or_le_l a b : length a = length b →
  bits_le a (zip_with (λ dst s, if decide (s = 0%N) then dst else N.lor dst s) a b).
Proof.
  revert b. induction a as [|x a IH]; intros [|y b] Hl; simplify_eq/=; constructor; [|by apply IH].
  rewrite or_byte. by rewrite N.lor_assoc, N.lor_diag.
Qed.

Lemma zip_or_le_r a b : length a = length b →
  bits_le b (zip_with (λ dst s, if decide (s = 0%N) then dst else N.lor dst s) a b).
Proof.
  revert b. induction a as [|x a IH]; intros [|y b] Hl; simplify_eq/=; constructor; [|by apply IH].
  rewrite or_byte, (N.lor_comm x y). by rewrite N.lor_assoc, N.lor_diag.
Qed.

(** The accumulator has the parameters of the template. *)
Definition acc_like (t : Bloom) (acc : BloomAccumulator) : Prop :=
  acc_header acc = take (header_len t) (as_slice t) ∧
  length (acc_bits acc) = length (as_slice t) - header_len t.

(** Some filter that was merged has the element. *)
Definition acc_has (t : Bloom) (acc : BloomAccumulator) (x : string) : Prop :=
  ∃ f, bloom_like t f ∧ bloom_check f x = true ∧ bits_le (bloom_payload f) (acc_bits acc).

Lemma bloom_empty_like_ok t : ∃ b, bloom_empty_like t = Ok b ∧ bloom_like t b.
Proof.
  unfold bloom_empty_like. destruct (from_bytes_like t (as_slice t)) as (g & -> & Hs & Hl); [done|done|].
  eexists. split; [done|]. eapply bloom_like_trans; [|apply bloom_clear_like].
  split_and!; [done|by rewrite Hs|by rewrite Hs, Hl].
Qed.

Lemma acc_empty_like_ok t : acc_like t (acc_empty_like t).
Proof.
  unfold acc_empty_like, acc_like, slice_to. cbn [acc_header acc_bits].
  rewrite decide_True by apply header_len_le. split; [done|]. apply length_replicate.
Qed.

Lemma acc_like_length t acc : acc_like t acc →
  length (acc_header acc) = header_len t ∧
  length (as_slice t) = length (acc_header acc) + length (acc_bits acc).
Proof.
  intros [Hh Hb]. pose proof (header_len_le t). rewrite Hh, length_take, Hb. lia.
Qed.

Lemma or_from_ok t acc f : acc_like t acc → bloom_like t f →
  ∃ acc', or_from acc f = Ok acc' ∧ acc_like t acc' ∧
    bits_le (acc_bits acc) (acc_bits acc') ∧ bits_le (bloom_payload f) (acc_bits acc').
Proof.
  intros Ha Hf. pose proof (acc_like_length t acc Ha) as [Hl1 Hl2]. pose proof Hf as (Hlen & Hs & Htake).
  pose proof (bloom_like_header t f Hf) as Hh. pose proof (header_len_le f).
  assert (length (acc_bits acc) = length (drop (header_len f) (as_slice f))) as Hbits
    by (rewrite length_drop; lia).
  unfold or_from. rewrite decide_False.
  - eexists. split; [done|]. cbn [acc_header acc_bits]. rewrite Hl1, Hh.
    change (bloom_payload f) with (drop (header_len f) (as_slice f)). split_and!.
    + split; cbn [acc_header acc_bits]; [apply Ha|]. rewrite zip_or_length by done. apply Ha.
    + by apply zip_or_le_l.
    + by apply zip_or_le_r.
  - intros [Hne|Hne]; apply Hne; [|lia]. unfold slice_to.
    rewrite decide_True by lia. f_equal. rewrite Hl1. destruct Ha as [-> _].
    rewrite !header_len_of, Htake, <-!header_len_of. by rewrite Hh.
Qed.

Lemma acc_has_grows t acc acc' x : bits_le (acc_bits acc) (acc_bits acc') →
  acc_has t acc x → acc_has t acc' x.
Proof. intros Hle (f & Hf & Hx & Hb). exists f. split_and!; [done|done|]. by eapply bits_le_trans. Qed.

Lemma finalize_ok t acc : acc_like t acc →
  ∃ b, finalize acc = Ok b ∧ ∀ x, acc_has t acc x → bloom_check b x = true.
Proof.
  intros Ha. pose proof (acc_like_length t acc Ha) as [Hl1 Hl2]. unfold finalize.
  destruct (from_bytes_like t (acc_header acc ++ acc_bits acc)) as (b & -> & Hs & Hlen).
  { rewrite length_app. lia. }
  { rewrite <-header_len_of, <-Hl1, take_app_length, Hl1. apply Ha. }
  exists b. split; [done|]. intros x (f & Hf & Hx & Hb).
  assert (header_of (as_slice b) (bloom_len b) = length (acc_header acc)) as Hhb.
  { unfold header_of. rewrite Hs, length_app, Hlen, <-Hl2. cbv zeta. by rewrite Hl1. }
  apply (bloom_check_grows f b x); [| |done].
  - pose proof Hf as (Hfl & Hfs & Hft). pose proof (bloom_like_header t f Hf) as Hh.
    split_and!; [by rewrite Hlen|by rewrite Hs, length_app, <-Hfs|].
    rewrite <-Hft, Hhb, Hs, take_app_length. by destruct Ha as [-> _].
  - change (bits_le (bloom_payload f) (drop (header_of (as_slice b) (bloom_len b)) (as_slice b))).
    rewrite Hhb, Hs, drop_app_length. done.
Qed.

(** The local filter of a shard, after its elements are set. *)
Lemma bloom_set_all_like t f xs : bloom_like t f → bloom_like t (foldl bloom_set f xs).
Proof.
  revert f. induction xs as [|x xs IH]; intros f Hf; [done|]. apply IH.
  eapply bloom_like_trans; [done|apply bloom_set_like].
Qed.

Lemma bloom_set_keeps f x y : bloom_check f x = true → bloom_check (bloom_set f y) x = true.
Proof. apply bloom_check_grows; [apply bloom_set_like|apply bloom_set_grows]. Qed.

Lemma bloom_set_all_check f xs x : x ∈ xs ∨ bloom_check f x = true → bloom_check (foldl bloom_set f xs) x = true.
Proof.
  revert f. induction xs as [|y xs IH]; intros f [Hx|Hx]; cbn [foldl]; [by apply elem_of_nil in Hx|done|..].
  - apply elem_of_cons in Hx as [->|Hx]; apply IH; [right; apply bloom_set_check|by left].
  - apply IH. right. by apply bloom_set_keeps.
Qed.

(** The union of two filters with the parameters of the template. *)
Lemma bloom_union_ok t f g : bloom_like t f → bloom_like t g →
  ∃ b, bloom_union f g = Ok b ∧ bloom_like t b ∧
    ∀ x, bloom_check f x = true ∨ bloom_check g x = true → bloom_check b x = true.
Proof.
  intros Hf Hg. pose proof (bloom_like_header t f Hf) as Hhf. pose proof (bloom_like_header t g Hg) as Hhg.
  pose proof Hf as (Hfl & Hfs & Hft). pose proof Hg as (Hgl & Hgs & Hgt).
  pose proof (header_len_le f) as Hle. rewrite !header_len_of in Hhf, Hhg. rewrite header_len_of in Hle.
  assert (take (header_of (as_slice f) (bloom_len f)) (as_slice f) = take (header_of (as_slice f) (bloom_len f)) (as_slice g)) as Htake.
  { rewrite <-Hft, Hgt. by rewrite <-Hhf, Hhg. }
  unfold bloom_union. rewrite header_len_of. set (h := header_of (as_slice f) (bloom_len f)) in *.
  rewrite decide_False; cycle 1.
  { unfold slice_to. rewrite !decide_True by lia. rewrite Htake. intros [?|?]; [done|lia]. }
  set (bs := take h (as_slice f) ++ zip_with N.lor (drop h (as_slice f)) (drop h (as_slice g))).
  assert (length bs = length (as_slice f)) as Hbs.
  { unfold bs. rewrite length_app, length_take, length_zip_with, !length_drop. lia. }
  assert (take h bs = take h (as_slice f)) as Htb.
  { unfold bs. rewrite take_app_le by (rewrite length_take; lia). rewrite take_take. f_equal. lia. }
  assert (drop h bs = zip_with N.lor (drop h (as_slice f)) (drop h (as_slice g))) as Hdb.
  { unfold bs. rewrite drop_app_ge by (rewrite length_take; lia). rewrite length_take. by replace (h - h `min` length (as_slice f)) with 0 by lia. }
  destruct (from_bytes_like f bs Hbs Htb) as (b & -> & Hsb & Hlb). exists b. split; [done|].
  assert (bloom_like f b) as Hfb.
  { split_and!; [done|by rewrite Hsb, Hbs|]. rewrite Hsb, Hlb. unfold header_of. rewrite Hbs. fold (header_of (as_slice f) (bloom_len f)).
    fold h. by rewrite Htb. }
  split; [exact (bloom_like_trans t f b Hf Hfb)|].
  assert (bloom_like g b) as Hgb.
  { destruct Hfb as (Hl1 & Hs1 & Ht1). split_and!; [congruence|congruence|].
    rewrite <-Hgt, Hft. unfold h. exact Ht1. }
  assert (header_of (as_slice b) (bloom_len b) = h) as Hhb by (unfold h, header_of; by rewrite Hsb, Hbs, Hlb).
  assert (length (drop h (as_slice f)) = length (drop h (as_slice g))) as Hdl by (rewrite !length_drop; lia).
  assert (∀ x y : buffer, length x = length y →
    zip_with N.lor x y = zip_with (λ dst s, if decide (s = 0%N) then dst else N.lor dst s) x y) as Hzip.
  { induction x as [|a x IH]; intros [|c y] Hxy; simplify_eq/=; [done|]. by rewrite or_byte, IH. }
  intros x [Hx|Hx].
  - apply (bloom_check_grows f b x Hfb); [|done].
    change (bits_le (drop h (as_slice f)) (drop (header_of (as_slice b) (bloom_len b)) (as_slice b))).
    rewrite Hhb, Hsb, Hdb, Hzip by done. by apply zip_or_le_l.
  - apply (bloom_check_grows g b x Hgb); [|done].
    change (bits_le (drop (header_of (as_slice g) (bloom_len g)) (as_slice g)) (drop (header_of (as_slice b) (bloom_len b)) (as_slice b))).
    assert (header_of (as_slice g) (bloom_len g) = h) as -> by by rewrite <-Hhg, Hhf.
    rewrite Hhb, Hsb, Hdb, Hzip by done. by apply zip_or_le_r.
Qed.
End bloom.

(** ** Properties *)

(** The local filter of a shard. *)
Definition local_filter `{BloomCrate} (t : Bloom) (xs : list string) : result Bloom :=
  result_map (λ b, foldl bloom_set b xs) (bloom_empty_like t).

(** The merge of the local filters of the shards. *)
Definition merged_filter `{BloomCrate} (t : Bloom) (shards : list (list string)) : result Bloom :=
  let? acc := foldl (λ acc xs,
    let? acc := acc in
    let? f := local_filter t xs in
    or_from acc f) (Ok (acc_empty_like t)) shards in
  finalize acc.

(** The merged filter has no false negatives.  Building a filter per shard
    from a common template and folding them into the accumulator, in any
    order, succeeds, and a membership test on the result is true for every
    element that any shard has set; a filter whose serialised header or length
    differs from the accumulator's is refused. *)
Theorem merged_filter_complete `{BloomCrate} (t : Bloom) (shards : list (list string)) :
  (∃ b, merged_filter t shards = Ok b ∧ ∀ xs x, xs ∈ shards → x ∈ xs → bloom_check b x = true) ∧
  ∀ acc f, (take (length (acc_header acc)) (as_slice f) ≠ acc_header acc ∨
            length (as_slice f) ≠ length (acc_header acc) + length (acc_bits acc)) →
    is_ok (or_from acc f) = false.
Proof.
  split.
  - unfold merged_filter.
    assert (∃ acc, foldl (λ acc xs, let? acc := acc in let? f := local_filter t xs in or_from acc f)
        (Ok (acc_empty_like t)) shards = Ok acc ∧ acc_like t acc ∧
        ∀ xs x, xs ∈ shards → x ∈ xs → acc_has t acc x) as (acc & -> & Ha & Hhas).
    { induction shards as [|xs shards IH] using rev_ind.
      - exists (acc_empty_like t). split_and!; [done|apply acc_empty_like_ok|]. by intros ? ? []%elem_of_nil.
      - destruct IH as (acc & IH & Ha & Hhas). rewrite foldl_app, IH. cbn [foldl result_bind].
        unfold local_filter. destruct (bloom_empty_like_ok t) as (e & -> & He). cbn [result_map result_bind].
        destruct (or_from_ok t acc _ Ha (bloom_set_all_like t e xs He)) as (acc' & -> & Ha' & Hle & Hf).
        exists acc'. split_and!; [done|done|]. intros ys x [Hys|Hys%list_elem_of_singleton]%elem_of_app Hx.
        + eapply acc_has_grows; [done|]. by eapply Hhas.
        + subst. exists (foldl bloom_set e xs). split_and!; [by apply bloom_set_all_like| |done].
          apply bloom_set_all_check. by left. }
    cbn [result_bind]. destruct (finalize_ok t acc Ha) as (b & Hb & Hx). exists b. split; [done|].
    intros xs x Hxs Hin. apply Hx. by eapply Hhas.
  - intros acc f Hne. unfold or_from. rewrite decide_True; [done|].
    destruct Hne as [Hne|Hne]; [left|by right]. unfold slice_to. case_decide; [|done]. by intros [= ?].
Qed.

(** ** Witness *)

(** A filter of one byte behind a header of one byte, with one hash function
    that sets every bit. *)
Definition toy_from_bytes (bs : buffer) : string + N :=
  match bs with [1%N; f] => inr f | _ => inl "invalid filter" end.

Definition toy_bloom : BloomCrate.
Proof.
  refine {|
    Bloom := N;
    new_for_fp_rate := λ _, inr 0%N;
    bloom_len := λ _, 8%N;
    as_slice := λ f, [1%N; f];
    from_bytes := toy_from_bytes;
    bloom_clear := λ _, 0%N;
    bloom_set := λ f _, N.lor f 255;
    bloom_check := λ f _, bool_decide (N.lor 255 f = f);
  |}.
  - intros f bs Hl Ht. destruct bs as [|a [|b [|c bs] ] ]; try done.
    cbn in Ht. injection Ht as ->. by exists b.
  - by intros n f x [= <-].
  - done.
  - done.
  - done.
  - intros f x. constructor; [|constructor]. by rewrite N.lor_assoc, N.lor_diag.
  - intros f x. apply bool_decide_eq_true. by rewrite N.lor_comm, <-N.lor_assoc, N.lor_diag.
  - intros f g x _ Hle Hf%bool_decide_eq_true. apply bool_decide_eq_true.
    inversion Hle as [|? ? ? ? Hfg]; subst. by rewrite <-Hfg, N.lor_assoc, Hf.
Defined.

Lemma merged_filter_complete_witness :
  let _ := toy_bloom in
  ∃ b, merged_filter (0%N : @Bloom toy_bloom) [["a"; "b"]; []; ["c"]] = Ok b ∧ bloom_check b "c" = true.
Proof.
  intros ?. destruct (@merged_filter_complete toy_bloom 0%N [["a"; "b"]; []; ["c"]]) as [(b & Hb & Hx) _].
  exists b. split; [exact Hb|]. apply (Hx ["c"] "c"); [by right; right; left|by left].
Defined.
