(* ===== verification/Batches.v ===== *)
(** * Batch loops of the background passes

    The artifact clean-up, the Docker collector and the garbage collection pass
    walk a partition with the same loop: check for cancellation, read a batch
    of 1000 entries from the cursor, process it, move the cursor past the last
    key.  Unlike the loops of the services the body may itself use the store,
    and it deletes entries of the batch it is given; the rule for the loop says
    that it still visits every entry once. *)

From S2P Require Import Prelude Bytes Errors Keys Records Kv Prog Wp Scan Repo.

(** The batch size of the scans. *)
Definition PASS_BATCH : nat := Z.to_nat 1000.

(** The loop over the batches of a range of a partition, from the cursor on and
    before [hi]; [body] is what the pass does with the items of a batch, and
    tells whether to go on. *)
Fixpoint scan_loop {St : Type} (fuel : nat) (cancelled_msg : string) (cancel : bool)
    (table pk : string) (hi : option string) (body : St → list (string * bytes) → prog (result (bool * St)))
    (cursor : option string) (st : St) : prog (result St) :=
  match fuel with
  | O => Spin
  | S fuel =>
      let* cancelled := is_cancelled cancel in
      if (cancelled : bool) then Ret (Err (Internal cancelled_msg))
      else
        let start := default "" cursor in
        let*? result := kv (ScanRange table pk start hi PASS_BATCH) in
        let*? r := body st (items result) in
        if negb r.1 || done_ result then Ret (Ok r.2)
        else match last_sk (items result) with
             | Some last_sk =>
                 scan_loop fuel cancelled_msg cancel table pk hi body
                   (Some (last_sk +:+ singleton_str NUL)) r.2
             | None => Ret (Ok r.2)
             end
  end.

(** The loop over a whole partition. *)
(** server/src/server/worker/blob_reaper/repo_cleanup.rs:180-206 *)
Definition scan_batches {St : Type} (fuel : nat) (cancelled_msg : string) (cancel : bool)
    (table pk : string) (body : St → list (string * bytes) → prog (result St))
    (cursor : option string) (st : St) : prog (result St) :=
  scan_loop fuel cancelled_msg cancel table pk None
    (λ st items, let*? st := body st items in Ret (Ok (true, st))) cursor st.

(** ** The rule of the loop *)

Section rule.
Context `{UuidGen}.
Implicit Types (m : kvmap) (w : world kvmap).

(** The entries of a range of a partition. *)
Definition entries_between m (table pk lo : string) (hi : option string) : list (string * bytes) :=
  prod_map id fst <$> filter (λ x, in_range lo hi x.1) (part m table pk).

(** The entries of a partition from a key on. *)
Definition entries_from m (table pk lo : string) : list (string * bytes) := entries_between m table pk lo None.

Lemma entries_from_start m (table pk : string) : entries_from m table pk "" = entries m table pk "".
Proof.
  unfold entries_from, entries_between, entries. f_equal. apply filter_ext_in. intros x _. split; intros _.
  - apply starts_with_nil.
  - apply in_range_all.
Qed.

Lemma entries_between_ext m m' (table pk lo : string) (hi : option string) :
  (∀ sk, str_le lo sk → m' !! (table, pk, sk) = m !! (table, pk, sk)) →
  entries_between m' table pk lo hi = entries_between m table pk lo hi.
Proof.
  intros Hm. unfold entries_between. f_equal.
  apply (StronglySorted_ext sk_lt); [apply _|apply _|apply StronglySorted_filter, part_sorted..|].
  intros [sk v]. rewrite !list_elem_of_filter, !elem_of_part. cbn [fst]. unfold in_range.
  split; intros [ [Hlo ?] Hin]; by rewrite Hm in * by done.
Qed.

Lemma run_cancel cancel w : run (is_cancelled cancel) w = (Some (cancel && w_cancelled w), w).
Proof. by destruct cancel. Qed.

(** An invariant of the loop: [I rem st w], with [rem] the entries that are
    left.  The body gets a prefix of them, and may change the partition only
    at the keys of that prefix. *)
Lemma wp_scan_loop {St : Type} (fuel : nat) (msg : string) (cancel : bool) (table pk : string) (hi : option string)
    (body : St → list (string * bytes) → prog (result (bool * St)))
    (I : list (string * bytes) → St → world kvmap → Prop) (Q : result St → world kvmap → Prop)
    (cursor : option string) (st : St) w :
  let rem := entries_between (w_kv w) table pk (default "" cursor) hi in
  length rem < fuel → I rem st w →
  (∀ (batch rem : list (string * bytes)) (st : St) w, I (batch ++ rem) st w →
    (∀ x, x ∈ batch → ∃ ver, w_kv w !! (table, pk, x.1) = Some (x.2, ver)) →
    wp (body st batch) w (λ r w',
      match r with
      | Ok (true, st') => (∀ sk, sk ∉ batch.*1 → w_kv w' !! (table, pk, sk) = w_kv w !! (table, pk, sk)) ∧
          I rem st' w'
      | Ok (false, st') => Q (Ok st') w'
      | Err e => Q (Err e) w'
      end)) →
  (∀ (st : St) w, I [] st w → Q (Ok st) w) →
  (∀ (rem : list (string * bytes)) (st : St) w, I rem st w → cancel && w_cancelled w = true →
    Q (Err (Internal msg)) w) →
  wp (scan_loop fuel msg cancel table pk hi body cursor st) w Q.
Proof.
  intros rem Hfuel HI Hbody Hend Hcancel. subst rem. revert cursor st w Hfuel HI.
  induction fuel as [|fuel IH]; intros cursor st w Hfuel HI; [lia|]. cbn [scan_loop].
  apply wp_bind. eapply wp_intro; [apply run_cancel|].
  destruct (cancel && w_cancelled w) eqn:Hc; [apply wp_ret; by eapply Hcancel|].
  apply wp_bind_ok, wp_read; [done|]. cbn [spec_store fst].
  set (lo := default "" cursor) in *.
  set (l := filter (λ x, in_range lo hi x.1) (part (w_kv w) table pk)) in *.
  assert (entries_between (w_kv w) table pk lo hi =
    (prod_map id fst <$> take PASS_BATCH l) ++ (prod_map id fst <$> drop PASS_BATCH l)) as Hsplit.
  { by rewrite <-fmap_app, take_drop. }
  rewrite Hsplit in HI, Hfuel. cbn [items done_ scan_of].
  apply wp_bind_ok. eapply wp_mono.
  { apply (Hbody _ _ _ _ HI). intros x ([sk v] & -> & Hin)%list_elem_of_fmap. exists v.2. cbn.
    apply (elem_of_take) in Hin as (i & Hin & _).
    apply list_elem_of_lookup_2, list_elem_of_filter in Hin as [_ Hin%elem_of_part]. by destruct v. }
  intros [ [go st']|e] w' Hr; [|done].
  destruct go; [|by apply wp_ret]. destruct Hr as [Hkeep HI']. cbn [fst snd negb orb].
  assert (done_ (scan_of l PASS_BATCH) = true → drop PASS_BATCH l = []) as Hdone.
  { cbn [done_ scan_of]. intros ?%bool_decide_eq_true. by apply drop_ge. }
  cbn [done_ scan_of] in Hdone. case_bool_decide as Hd.
  { rewrite Hdone in HI' by done. by apply wp_ret, Hend. }
  clear Hdone.
  replace (last_sk (prod_map id fst <$> take PASS_BATCH l)) with (fst <$> last (take PASS_BATCH l))
    by (unfold last_sk; rewrite fmap_last; by destruct (last (take PASS_BATCH l)) as [ [? ?]|]).
  destruct (last (take PASS_BATCH l)) as [x|] eqn:Hlast.
  2:{ apply last_None in Hlast. exfalso. apply Hd. apply (f_equal length) in Hlast.
      rewrite length_take in Hlast. cbn in Hlast. unfold PASS_BATCH in *. lia. }
  change (fst <$> Some x) with (Some x.1). cbv iota beta.
  assert (entries_between (w_kv w') table pk (x.1 +:+ singleton_str NUL) hi = prod_map id fst <$> drop PASS_BATCH l) as Hrest.
  { rewrite (entries_between_ext (w_kv w)).
    - unfold entries_between. f_equal. by apply in_range_next.
    - intros sk Hsk. apply Hkeep. rewrite <-list_fmap_compose. intros ([sk' v] & -> & Hin)%list_elem_of_fmap.
      cbn in Hsk. apply str_succ_nul in Hsk.
      apply last_Some in Hlast as [l' Hl'].
      assert (StronglySorted sk_lt (take PASS_BATCH l)) as Hs.
      { assert (StronglySorted sk_lt l) as Hs by (apply StronglySorted_filter, part_sorted).
        rewrite <-(take_drop PASS_BATCH l) in Hs. by apply StronglySorted_app in Hs as (_ & ? & _). }
      rewrite Hl' in Hin, Hs. apply StronglySorted_app in Hs as (Hlt & _ & _).
      apply elem_of_app in Hin as [Hin|Hin%list_elem_of_singleton].
      + pose proof (Hlt (sk', v) x Hin ltac:(by left)) as Hlt'. cbn in Hlt'.
        apply (str_lt_irrefl sk'). by transitivity x.1.
      + subst x. by apply str_lt_irrefl in Hsk. }
  apply IH; change (default "" (Some ?z)) with z; rewrite Hrest; [|done].
  rewrite length_app, !length_fmap, length_take in Hfuel. rewrite length_fmap.
  unfold PASS_BATCH in *. lia.
Qed.

(** The same for the loop over a whole partition. *)
Lemma wp_scan_batches {St : Type} (fuel : nat) (msg : string) (cancel : bool) (table pk : string)
    (body : St → list (string * bytes) → prog (result St))
    (I : list (string * bytes) → St → world kvmap → Prop) (Q : result St → world kvmap → Prop)
    (cursor : option string) (st : St) w :
  let rem := entries_from (w_kv w) table pk (default "" cursor) in
  length rem < fuel → I rem st w →
  (∀ (batch rem : list (string * bytes)) (st : St) w, I (batch ++ rem) st w →
    (∀ x, x ∈ batch → ∃ ver, w_kv w !! (table, pk, x.1) = Some (x.2, ver)) →
    wp (body st batch) w (λ r w',
      match r with
      | Ok st' => (∀ sk, sk ∉ batch.*1 → w_kv w' !! (table, pk, sk) = w_kv w !! (table, pk, sk)) ∧
          I rem st' w'
      | Err e => Q (Err e) w'
      end)) →
  (∀ (st : St) w, I [] st w → Q (Ok st) w) →
  (∀ (rem : list (string * bytes)) (st : St) w, I rem st w → cancel && w_cancelled w = true →
    Q (Err (Internal msg)) w) →
  wp (scan_batches fuel msg cancel table pk body cursor st) w Q.
Proof.
  intros rem Hfuel HI Hbody Hend Hcancel. apply wp_scan_loop with (I := I); [done|done| |done|done].
  intros batch rem' st' w' HI' Hb. apply wp_bind_ok. eapply wp_mono; [by apply (Hbody batch rem')|].
  by intros [st2|e] w2 H2.
Qed.

(** ** Walks of a prefix

    A walk that starts at a prefix sees the keys with the prefix first. *)

(** The entries with the prefix come first. *)
Definition block (p : string) (l : list (string * bytes)) : Prop :=
  ∃ l1 l2, l = l1 ++ l2 ∧ Forall (λ x, starts_with x.1 p = true) l1 ∧ Forall (λ x, starts_with x.1 p = false) l2.

Definition prefixed (p : string) (l : list (string * bytes)) : list (string * bytes) :=
  filter (λ x, starts_with x.1 p = true) l.

Lemma prefixed_app p l1 l2 : prefixed p (l1 ++ l2) = prefixed p l1 ++ prefixed p l2.
Proof. apply filter_app. Qed.

Lemma block_nil p : block p [].
Proof. by exists [], []. Qed.

(** Past the first entry without the prefix there is none with it. *)
Lemma block_cons p x l : block p (x :: l) → block p l ∧ (starts_with x.1 p = false → prefixed p l = []).
Proof.
  intros (l1 & l2 & Hl & H1' & H2'). destruct l1 as [|y l1]; cbn [app] in Hl.
  - subst l2. apply Forall_cons in H2' as [Hx H2']. split.
    + by exists [], l.
    + intros _. apply filter_none. eapply Forall_impl; [exact H2'|]. intros z Hz. cbn in Hz. by rewrite Hz.
  - injection Hl as <- ->. apply Forall_cons in H1' as [Hx H1']. split; [by exists l1, l2|]. by rewrite Hx.
Qed.

Lemma block_app p l1 l2 : block p (l1 ++ l2) →
  block p l1 ∧ block p l2 ∧ (forallb (λ x, starts_with x.1 p) l1 = false → prefixed p l2 = []).
Proof.
  induction l1 as [|x l1 IH]; cbn [app]; intros Hb.
  { split; [apply block_nil|]. by split. }
  destruct (block_cons p x (l1 ++ l2) Hb) as [Hb' Hx]. destruct (IH Hb') as (IH1 & IH2 & IH3). split_and!; [|done|].
  - destruct Hb as (k1 & k2 & Hk & H1' & H2'). destruct k1 as [|y k1]; cbn [app] in Hk.
    + subst k2. exists [], (x :: l1). split_and!; [done|done|]. apply (Forall_app _ (x :: l1) l2) in H2'. tauto.
    + injection Hk as <- Hk. apply Forall_cons in H1' as [Hy _]. destruct IH1 as (j1 & j2 & -> & ? & ?).
      exists (x :: j1), j2. split_and!; [done|by constructor|done].
  - cbn [forallb]. destruct (starts_with x.1 p); cbn [andb]; [by apply IH3|]. intros _. specialize (Hx eq_refl).
    rewrite prefixed_app in Hx. by apply app_eq_nil in Hx as [_ ?].
Qed.

(** The range from the prefix on, up to its end or not. *)
Lemma block_between m (table pk p : string) (hi : option string) :
  hi = None ∨ hi = str_prefix_end p →
  block p (entries_between m table pk p hi) ∧ prefixed p (entries_between m table pk p hi) = entries m table pk p.
Proof.
  intros Hhi. unfold entries_between, prefixed, entries. set (l := filter _ (part m table pk)).
  assert (filter (λ x, starts_with x.1 p = true) l = filter (λ x, starts_with x.1 p = true) (part m table pk)) as Hf.
  { unfold l. rewrite filter_filter_and. apply filter_ext_in. intros x _. split; [tauto|]. intros Hx. split; [done|].
    pose proof (str_prefix_end_range p x.1 Hx) as [? ?]. split; [done|]. by destruct Hhi as [->| ->]. }
  split; [|rewrite filter_fmap_comm; f_equal; exact Hf].
  assert (StronglySorted sk_lt l) as Hs by (apply StronglySorted_filter, part_sorted).
  destruct (prefix_first p l Hs) as (l2 & Hl & Hl2).
  { apply Forall_forall. intros x [ [? _] _]%list_elem_of_filter. done. }
  exists (prod_map id fst <$> filter (λ x, starts_with x.1 p = true) l), (prod_map id fst <$> l2).
  rewrite <-fmap_app, <-Hl. split_and!; [done|..]; apply Forall_fmap, Forall_forall.
  - by intros x [? _]%list_elem_of_filter.
  - intros x Hx. cbn. destruct (starts_with x.1 p) eqn:Hsx; [|done].
    pose proof (f_equal (filter (λ x, starts_with x.1 p = true)) Hl) as Heq. rewrite filter_app, filter_filter_and in Heq.
    assert (filter (λ x, starts_with x.1 p = true ∧ starts_with x.1 p = true) l = filter (λ x, starts_with x.1 p = true) l) as He.
    { apply filter_ext_in. tauto. }
    rewrite He in Heq. rewrite <-(app_nil_r (filter _ l)) in Heq at 1. apply app_inv_head in Heq.
    assert (x ∈ filter (λ x, starts_with x.1 p = true) l2) as Hin by (by apply list_elem_of_filter).
    rewrite <-Heq in Hin. by apply elem_of_nil in Hin.
Qed.

Lemma length_part_size m t pk : length (part m t pk) ≤ base.size m.
Proof.
  unfold part. rewrite merge_sort_Permutation.
  assert (∀ l : list (string * string * string * (bytes * Z)),
    length (omap (λ '((t', p, sk), v), if decide (t' = t ∧ p = pk) then Some (sk, v) else None) l) ≤ length l) as Hl.
  { induction l as [|[ [ [t' p] sk] v] l IH]; cbn; [done|]. case_decide; cbn; unfold omap in *; lia. }
  rewrite Hl. by rewrite length_map_to_list.
Qed.

Lemma length_entries_between m (table pk lo : string) (hi : option string) :
  length (entries_between m table pk lo hi) ≤ base.size m.
Proof.
  unfold entries_between. rewrite length_fmap. etransitivity; [apply length_filter|]. apply length_part_size.
Qed.
End rule.
