(* ===== verification/BulkDelete.v ===== *)
(** * Deletion of a directory (server/src/server/worker/bulk_delete.rs)

    The worker of a bulk delete removes the browse-tree entries below a
    directory, then the artifact records, and sends one delta for all of them.
    The theorems say what is removed and counted, and what the update worker
    makes of the delta: it is addressed to the directory that has just been
    removed, and is never applied. *)

From S2P Require Import Prelude Bytes Errors Keys Records Kv Prog Wp Scan Update Artifact Repo Directory Batches UpdateWorker.

(** server/src/server/worker/bulk_delete.rs:25-28 *)
Record ProgressOffset : Type := mkProgressOffset {
  po_artifacts : Z;
  po_bytes : Z;
}.

Definition BULK_DELETE_CANCELLED : string := "Bulk delete cancelled".

(** [p.total_artifacts = n; p.total_bytes = b; p.phase = s]. *)
Definition tp_set_totals (n b : Z) (phase : string) (p : TaskProgress) : TaskProgress :=
  mkTaskProgress (tp_total_repos p) (tp_completed_repos p) (tp_total_blobs p) (tp_checked_blobs p)
    (tp_failed_blobs p) (tp_bytes_read p) b n (tp_checked_artifacts p) phase.

Section bulk_delete.
Context `{Blake3} `{Serde ArtifactRecord} `{Serde TreeEntry}.

(** *** Tree entries *)

(** The directories and the keys of the files of a batch. *)
(** server/src/server/worker/bulk_delete.rs:181-202 *)
Fixpoint collect_children (clean sk_prefix : string) (items : list (string * bytes))
    (child_dirs file_del_keys : list string) : list string * list string :=
  match items with
  | [] => (child_dirs, file_del_keys)
  | (sk, value) :: items =>
      if negb (starts_with sk sk_prefix) then (child_dirs, file_del_keys)
      else
        let name := tree_sk_name sk in
        match from_slice (A:=TreeEntry) value with
        | inr te =>
            match te_kind te with
            | TDir _ _ =>
                let child_path := if decide (clean = "") then name else clean +:+ "/" +:+ name in
                collect_children clean sk_prefix items (child_dirs ++ [child_path]) file_del_keys
            | TFile _ _ _ _ _ _ =>
                collect_children clean sk_prefix items child_dirs (file_del_keys ++ [sk])
            end
        | inl _ => collect_children clean sk_prefix items child_dirs file_del_keys
        end
  end.

(** [depth] bounds the recursion, [fuel] each scan. *)
(** server/src/server/worker/bulk_delete.rs:146-234 *)
Fixpoint delete_tree_recursive (depth fuel : nat) (repo dir_path : string) : prog (result unit) :=
  match depth with
  | O => Spin
  | S depth =>
      let clean := trim_end SLASH dir_path in
      let pk := tree_children_pk repo clean in
      let sk_prefix := tree_children_sk_prefix clean in
      let sk_end := str_prefix_end sk_prefix in
      let*? child_dirs := scan_loop fuel "" false TABLE_DIR_ENTRIES pk sk_end
        (λ child_dirs items,
          let '(child_dirs, file_del_keys) := collect_children clean sk_prefix items child_dirs [] in
          let* _ := if decide (file_del_keys = []) then Ret (Ok [])
                    else kv (DeleteBatch TABLE_DIR_ENTRIES ((λ sk, (pk, sk)) <$> file_del_keys)) in
          Ret (Ok (true, child_dirs)))
        (Some sk_prefix) [] in
      let*? _ := try_fold child_dirs (λ _ child, delete_tree_recursive depth fuel repo child) tt in
      let '(table, dpk, dsk) := tree_entry_key repo clean in
      let* _ := kv (Delete table dpk dsk) in
      Ret (Ok tt)
  end.

(** *** Artifact records *)

(** The counters [(count, bytes)]. *)
Abbreviation ArtifactTotals := (Z * Z)%type.

(** Whether the walk of the shard goes on, and the counters. *)
(** server/src/server/worker/bulk_delete.rs:284-292 *)
Fixpoint count_items (pfx : string) (items : list (string * bytes)) (t : ArtifactTotals) : bool * ArtifactTotals :=
  match items with
  | [] => (true, t)
  | (sk, value) :: items =>
      if negb (starts_with sk pfx) then (false, t)
      else match from_slice (A:=ArtifactRecord) value with
           | inr record => count_items pfx items (u64_add t.1 1, u64_add t.2 (ar_size record))
           | inl _ => count_items pfx items t
           end
  end.

(** The shards complete in the order [schedule]; the counters are shared. *)
(** server/src/server/worker/bulk_delete.rs:245-313 *)
Definition count_prefix_artifacts (schedule : list N) (fuel : nat) (repo prefix : string) (cancel : bool) :
    prog (result ArtifactTotals) :=
  try_fold schedule (λ t shard,
    let pk := artifact_shard_pk repo shard in
    scan_loop fuel BULK_DELETE_CANCELLED cancel TABLE_ARTIFACTS pk None
      (λ t items, Ret (Ok (count_items prefix items t))) (Some prefix) t) (0%Z, 0%Z).

(** The keys to delete in a batch, and their bytes. *)
(** server/src/server/worker/bulk_delete.rs:360-368 *)
Fixpoint doomed_items (pfx : string) (items : list (string * bytes)) (del_keys : list string) (batch_bytes : Z) :
    list string * Z :=
  match items with
  | [] => (del_keys, batch_bytes)
  | (sk, value) :: items =>
      if negb (starts_with sk pfx) then (del_keys, batch_bytes)
      else match from_slice (A:=ArtifactRecord) value with
           | inr record => doomed_items pfx items (del_keys ++ [sk]) (u64_add batch_bytes (ar_size record))
           | inl _ => doomed_items pfx items del_keys batch_bytes
           end
  end.

(** A batch of a shard: delete, count, report. *)
(** server/src/server/worker/bulk_delete.rs:357-397 *)
Definition delete_items (pfx pk : string) (progress_tx : bool) (checked_offset : Z)
    (t : ArtifactTotals) (items : list (string * bytes)) : prog (result (bool * ArtifactTotals)) :=
  let '(del_keys, batch_bytes) := doomed_items pfx items [] 0 in
  let past_prefix := from_option (λ sk, negb (starts_with sk pfx)) false (last_sk items) in
  if decide (del_keys = []) then Ret (Ok (negb past_prefix, t))
  else
    let batch_count := Z.of_nat (length del_keys) in
    let* _ := kv (DeleteBatch TABLE_ARTIFACTS ((λ sk, (pk, sk)) <$> del_keys)) in
    let t := (u64_add t.1 batch_count, u64_add t.2 batch_bytes) in
    let* _ := send_progress progress_tx (tp_set_checked (u64_add checked_offset t.1)) in
    Ret (Ok (negb past_prefix, t)).

(** server/src/server/worker/bulk_delete.rs:318-419 *)
Definition delete_prefix_artifacts (schedule : list N) (fuel : nat) (repo prefix : string) (cancel progress_tx : bool)
    (checked_offset : Z) : prog (result ArtifactTotals) :=
  try_fold schedule (λ t shard,
    let pk := artifact_shard_pk repo shard in
    scan_loop fuel BULK_DELETE_CANCELLED cancel TABLE_ARTIFACTS pk None
      (delete_items prefix pk progress_tx checked_offset) (Some prefix) t) (0%Z, 0%Z).

(** *** The worker *)

(** server/src/server/worker/bulk_delete.rs:38-138 *)
Definition bulk_delete (schedule1 schedule2 : list N) (depth fuel : nat) (repo prefix : string)
    (cancel progress_tx : bool) (progress_offset : ProgressOffset) : prog (result BulkDeleteResult) :=
  let* start := call ENow in
  let prefix_with_slash := if ends_with prefix "/" then prefix else prefix +:+ "/" in
  let* _ := send_progress progress_tx (tp_set_phase "Removing directory entries") in
  let*? _ := delete_tree_recursive depth fuel repo prefix in
  let* cancelled := is_cancelled cancel in
  if (cancelled : bool) then Ret (Err (Internal BULK_DELETE_CANCELLED))
  else
    let* _ := send_progress progress_tx (tp_set_phase "Counting artifacts") in
    let*? estimated := count_prefix_artifacts schedule1 fuel repo prefix_with_slash cancel in
    let* _ := send_progress progress_tx
      (tp_set_totals (u64_add (po_artifacts progress_offset) estimated.1)
                     (u64_add (po_bytes progress_offset) estimated.2) "Deleting artifacts") in
    let* cancelled := is_cancelled cancel in
    if (cancelled : bool) then Ret (Err (Internal BULK_DELETE_CANCELLED))
    else
      let*? deleted := delete_prefix_artifacts schedule2 fuel repo prefix_with_slash cancel progress_tx
        (po_artifacts progress_offset) in
      let* _ := if decide (0 < deleted.1)%Z then
                  let synthetic_child := prefix_with_slash +:+ "__bulk_delete_sentinel" in
                  dir_changed repo synthetic_child (i64_neg (i64_wrap deleted.1)) (i64_neg (i64_wrap deleted.2))
                else Ret tt in
      let* end_ := call ENow in
      Ret (Ok (mkBulkDeleteResult repo prefix deleted.1 deleted.2 (u64_wrap (end_ - start)))).
End bulk_delete.

(** ** Artifact records *)

Section artifacts.
Context `{Blake3} `{Serde ArtifactRecord} `{UuidGen}.
Implicit Types (m : kvmap) (w : world kvmap).

(** The records of a list of entries that can be read, and their keys. *)
Definition readable (l : list (string * bytes)) : list (string * ArtifactRecord) :=
  omap (λ x, match from_slice (A:=ArtifactRecord) x.2 with inr r => Some (x.1, r) | inl _ => None end) l.

Definition sizes (l : list (string * ArtifactRecord)) : Z := foldr (λ x z, ar_size x.2 + z)%Z 0%Z l.

(** Counters that start at zero, in [u64]. *)
Definition totals (l : list (string * ArtifactRecord)) : Z * Z :=
  (u64_wrap (Z.of_nat (length l)), u64_wrap (sizes l)).

Lemma readable_app l1 l2 : readable (l1 ++ l2) = readable l1 ++ readable l2.
Proof. apply omap_app. Qed.

Lemma sizes_app l1 l2 : sizes (l1 ++ l2) = (sizes l1 + sizes l2)%Z.
Proof. unfold sizes. rewrite foldr_app. induction l1 as [|x l1 IH]; cbn [foldr]; [done|]. rewrite IH. lia. Qed.

Lemma totals_add l l' :
  (u64_add (totals l).1 (Z.of_nat (length l')), u64_add (totals l).2 (u64_wrap (sizes l'))) = totals (l ++ l').
Proof.
  unfold totals. cbn [fst snd]. rewrite u64_add_wrap, u64_add_wrap_wrap, length_app, sizes_app.
  f_equal. f_equal. lia.
Qed.

Lemma prefixed_cons p x l :
  prefixed p (x :: l) = if starts_with x.1 p then x :: prefixed p l else prefixed p l.
Proof. unfold prefixed. rewrite filter_cons. by destruct (starts_with x.1 p). Qed.

Lemma count_items_spec p items done :
  block p items →
  count_items p items (totals done) =
    (forallb (λ x, starts_with x.1 p) items, totals (done ++ readable (prefixed p items))).
Proof.
  revert done. induction items as [|[sk v] items IH]; intros done Hb.
  - cbn. by rewrite app_nil_r.
  - destruct (block_cons p _ _ Hb) as [Hb' Hx]. rewrite prefixed_cons. cbn [count_items forallb fst snd] in *.
    destruct (starts_with sk p); cbn [negb andb].
    + cbn [readable omap list_omap snd fst]. fold (readable (prefixed p items)).
      destruct (from_slice v) as [|r]; [by apply IH|].
      pose proof (totals_add done [(sk, r)]) as Ht. cbn [length sizes foldr snd] in Ht.
      unfold u64_add at 2 in Ht. rewrite Z.add_0_r in Ht. unfold u64_wrap at 2 in Ht.
      assert (u64_add (totals done).2 (ar_size r) = u64_add (totals done).2 (u64_wrap (ar_size r))) as ->.
      { unfold totals. cbn [snd]. by rewrite u64_add_wrap, u64_add_wrap_wrap. }
      assert ((u64_add (totals done).1 1, u64_add (totals done).2 (u64_wrap (ar_size r))) = totals (done ++ [(sk, r)])) as ->.
      { rewrite <-totals_add. cbn [length sizes foldr snd]. by rewrite Z.add_0_r. }
      rewrite IH by done. by rewrite <-(assoc_L (++)).
    + rewrite Hx by done. cbn. by rewrite app_nil_r.
Qed.

Lemma doomed_items_spec p items keys n :
  block p items →
  doomed_items p items keys (u64_wrap n) =
    (keys ++ (readable (prefixed p items)).*1, u64_wrap (n + sizes (readable (prefixed p items)))).
Proof.
  revert keys n. induction items as [|[sk v] items IH]; intros keys n Hb.
  - cbn. by rewrite app_nil_r, Z.add_0_r.
  - destruct (block_cons p _ _ Hb) as [Hb' Hx]. rewrite prefixed_cons. cbn [doomed_items fst snd] in *.
    destruct (starts_with sk p); cbn [negb].
    + cbn [readable omap list_omap snd fst]. fold (readable (prefixed p items)).
      destruct (from_slice v) as [|r]; [by apply IH|]. rewrite u64_add_wrap, IH by done.
      cbn [fmap list_fmap fst sizes foldr snd]. fold (sizes (readable (prefixed p items))).
      rewrite <-(assoc_L (++)). cbn [app]. do 2 f_equal. lia.
    + rewrite Hx by done. cbn. by rewrite app_nil_r, Z.add_0_r.
Qed.

(** The records of a shard below a prefix. *)
Definition shard_records m (repo p : string) (shard : N) : list (string * ArtifactRecord) :=
  readable (entries m TABLE_ARTIFACTS (artifact_shard_pk repo shard) p).

Definition all_records m (repo p : string) (shards : list N) : list (string * ArtifactRecord) :=
  concat (shard_records m repo p <$> shards).

Lemma wp_count_shard fuel repo p cancel shard done w :
  base.size (w_kv w) < fuel → cancel && w_cancelled w = false →
  wp (scan_loop fuel BULK_DELETE_CANCELLED cancel TABLE_ARTIFACTS (artifact_shard_pk repo shard) None
      (λ t items, Ret (Ok (count_items p items t))) (Some p) (totals done)) w
    (λ r w', r = Ok (totals (done ++ shard_records (w_kv w) repo p shard)) ∧ w' = w).
Proof.
  intros Hfuel Hc. set (pk := artifact_shard_pk repo shard).
  destruct (block_between (w_kv w) TABLE_ARTIFACTS pk p None) as [Hb He]; [by left|].
  apply wp_scan_loop with (I := λ rem t w', w' = w ∧ block p rem ∧ ∃ dn,
    entries (w_kv w) TABLE_ARTIFACTS pk p = dn ++ prefixed p rem ∧ t = totals (done ++ readable dn)).
  - cbn [from_option]. eapply Nat.le_lt_trans; [apply length_entries_between|done].
  - split_and!; [done|done|]. exists []. split; [by rewrite <-He|]. by rewrite app_nil_r.
  - intros batch rem t w' (-> & Hbr & dn & Hdn & ->) _. destruct (block_app p batch rem Hbr) as (Hb1 & Hb2 & Hrest).
    apply wp_ret. rewrite count_items_spec, prefixed_app, (assoc_L (++)) in * by done.
    assert (totals ((done ++ readable dn) ++ readable (prefixed p batch)) =
      totals (done ++ readable (dn ++ prefixed p batch))) as -> by by rewrite readable_app, (assoc_L (++)).
    destruct (forallb _ batch) eqn:Hall.
    + split; [done|]. split_and!; [done|done|]. exists (dn ++ prefixed p batch). by rewrite Hdn.
    + split; [|done]. unfold shard_records. fold pk. rewrite Hdn, Hrest, app_nil_r; done.
  - intros t w' (-> & _ & dn & Hdn & ->). cbn in Hdn. rewrite app_nil_r in Hdn. by rewrite <-Hdn.
  - intros rem t w' (-> & _) Hc'. congruence.
Qed.

Lemma wp_count_prefix schedule fuel repo p cancel w :
  base.size (w_kv w) < fuel → cancel && w_cancelled w = false →
  wp (count_prefix_artifacts schedule fuel repo p cancel) w
    (λ r w', r = Ok (totals (all_records (w_kv w) repo p schedule)) ∧ w' = w).
Proof.
  intros Hfuel Hc. unfold count_prefix_artifacts. change (0%Z, 0%Z) with (totals []).
  apply wp_try_fold with (I := λ rest t w', w' = w ∧ ∃ dn, schedule = dn ++ rest ∧ t = totals (all_records (w_kv w) repo p dn)).
  - split; [done|]. by exists [].
  - intros shard rest t w' (-> & dn & Hdn & ->). eapply wp_mono; [by apply wp_count_shard|].
    intros r w' [-> ->]. split; [done|]. exists (dn ++ [shard]). rewrite <-(assoc_L (++)). split; [done|].
    unfold all_records. rewrite fmap_app, concat_app. cbn [fmap list_fmap concat]. by rewrite app_nil_r.
  - intros t w' (-> & dn & Hdn & ->). rewrite app_nil_r in Hdn. by subst dn.
Qed.

(** The records of some keys of a partition are gone, and nothing else. *)
Definition removed (pk : string) (keys : list string) m m' : Prop :=
  ∀ k, m' !! k = if decide (k.1 = (TABLE_ARTIFACTS, pk) ∧ k.2 ∈ keys) then None else m !! k.

Lemma delete_batch_removed pk keys m m0 keys0 :
  removed pk keys0 m0 m →
  removed pk (keys0 ++ keys) m0 (spec_delete_batch TABLE_ARTIFACTS ((λ sk, (pk, sk)) <$> keys) m).2.
Proof.
  intros Hr [ [t pk'] sk]. rewrite spec_delete_batch_eq. cbn [snd fst]. rewrite delete_all_lookup, (Hr (t, pk', sk)). cbn [fst snd].
  assert ((t = TABLE_ARTIFACTS ∧ (pk', sk) ∈ (λ sk, (pk, sk)) <$> keys) ↔ (t, pk') = (TABLE_ARTIFACTS, pk) ∧ sk ∈ keys) as Hiff.
  { rewrite list_elem_of_fmap. split.
    - intros [-> (x & [= -> ->] & Hx)]. done.
    - intros [ [= -> ->] Hx]. split; [done|]. by exists sk. }
  pose proof (elem_of_app keys0 keys sk). repeat case_decide; tauto || done.
Qed.

Lemma elem_of_readable_key l key : key ∈ (readable l).*1 → key ∈ l.*1.
Proof.
  intros ([k r] & -> & Hin)%list_elem_of_fmap. apply list_elem_of_omap in Hin as ([k' v] & Hin & Heq).
  cbn in Heq. destruct (from_slice v); [done|]. injection Heq as <- <-. apply list_elem_of_fmap. by exists (k', v).
Qed.

Lemma wp_delete_shard fuel repo p cancel progress_tx offset shard done w :
  base.size (w_kv w) < fuel → cancel && w_cancelled w = false →
  let pk := artifact_shard_pk repo shard in
  wp (scan_loop fuel BULK_DELETE_CANCELLED cancel TABLE_ARTIFACTS pk None
      (delete_items p pk progress_tx offset) (Some p) (totals done)) w
    (λ r w', r = Ok (totals (done ++ shard_records (w_kv w) repo p shard)) ∧
       removed pk (shard_records (w_kv w) repo p shard).*1 (w_kv w) (w_kv w') ∧ same_env w w').
Proof.
  intros Hfuel Hc pk.
  destruct (block_between (w_kv w) TABLE_ARTIFACTS pk p None) as [Hb He]; [by left|].
  apply wp_scan_loop with (I := λ rem t w', same_env w w' ∧ block p rem ∧ ∃ dn,
    entries (w_kv w) TABLE_ARTIFACTS pk p = dn ++ prefixed p rem ∧ t = totals (done ++ readable dn) ∧
    removed pk (readable dn).*1 (w_kv w) (w_kv w')).
  - cbn [from_option]. eapply Nat.le_lt_trans; [apply length_entries_between|done].
  - split_and!; [done..|]. exists []. split; [by rewrite <-He|]. rewrite app_nil_r. split; [done|].
    intros k. rewrite decide_False; [done|]. by intros [_ Hk%elem_of_nil].
  - intros batch rem t w' (Henv & Hbr & dn & Hdn & -> & Hr) _. destruct (block_app p batch rem Hbr) as (Hb1 & Hb2 & Hrest).
    unfold delete_items. change 0%Z with (u64_wrap 0). rewrite doomed_items_spec by done.
    rewrite prefixed_app, (assoc_L (++)) in Hdn. cbn [app]. change (u64_wrap 0) with 0%Z. rewrite Z.add_0_l.
    set (recs := readable (prefixed p batch)) in *.
    assert (removed pk (readable (dn ++ prefixed p batch)).*1 (w_kv w)
      (spec_delete_batch TABLE_ARTIFACTS ((λ sk, (pk, sk)) <$> recs.*1) (w_kv w')).2) as Hr'.
    { rewrite readable_app, fmap_app. by apply delete_batch_removed. }
    assert (∀ b, b = negb (from_option (λ sk, negb (starts_with sk p)) false (last_sk batch)) → b = false → prefixed p rem = []) as Hstop.
    { intros b -> Hn. apply Hrest. unfold last_sk in Hn. destruct (last batch) as [x|] eqn:Hl; [|done].
      cbn in Hn. apply negb_false_iff, negb_true_iff in Hn. apply last_Some in Hl as [l' ->].
      rewrite forallb_app. cbn. by rewrite Hn, andb_false_r. }
    assert (∀ b u (w2 : world kvmap), b = negb (from_option (λ sk, negb (starts_with sk p)) false (last_sk batch)) →
      same_env w w2 → removed pk (readable (dn ++ prefixed p batch)).*1 (w_kv w) (w_kv w2) →
      (∀ sk, sk ∉ batch.*1 → w_kv w2 !! (TABLE_ARTIFACTS, pk, sk) = w_kv w' !! (TABLE_ARTIFACTS, pk, sk)) →
      u = totals (done ++ readable (dn ++ prefixed p batch)) →
      match b return Prop with
      | true => (∀ sk, sk ∉ batch.*1 → w_kv w2 !! (TABLE_ARTIFACTS, pk, sk) = w_kv w' !! (TABLE_ARTIFACTS, pk, sk)) ∧
          same_env w w2 ∧ block p rem ∧ ∃ dn, entries (w_kv w) TABLE_ARTIFACTS pk p = dn ++ prefixed p rem ∧
            u = totals (done ++ readable dn) ∧ removed pk (readable dn).*1 (w_kv w) (w_kv w2)
      | false => Ok u = Ok (totals (done ++ shard_records (w_kv w) repo p shard)) ∧
          removed pk (shard_records (w_kv w) repo p shard).*1 (w_kv w) (w_kv w2) ∧ same_env w w2
      end) as Hgoal.
    { intros b u w2 Hbb Hw2 Hr2 Hk ->. destruct b.
      - split; [done|]. split_and!; [done|done|]. exists (dn ++ prefixed p batch). by rewrite Hdn.
      - unfold shard_records. fold pk. rewrite Hdn, (Hstop false Hbb eq_refl), app_nil_r. done. }
    destruct (decide (recs.*1 = [])) as [Hnil|Hne].
    + apply wp_ret. apply fmap_nil_inv in Hnil. cbv beta iota. set (b := negb _).
      eapply (Hgoal b); [done|done| |done|].
      * rewrite readable_app. fold recs. by rewrite Hnil, app_nil_r.
      * rewrite readable_app. fold recs. by rewrite Hnil, app_nil_r.
    + apply wp_bind, wp_kv. cbn [spec_store]. destruct (spec_delete_batch _ _ (w_kv w')) as [bs m1] eqn:Hsd. cbn [fst snd] in *.
      apply wp_bind. rewrite length_fmap, totals_add.
      match goal with |- wp (send_progress ?b ?f) ?w1 _ => destruct (run_send_progress b f w1) as (w2 & Hrun & Hkv & Henv2) end.
      eapply wp_intro; [exact Hrun|]. apply wp_ret. set (b := negb _).
      eapply (Hgoal b); [done| | | |].
      * eapply same_env_trans; [|exact Henv2]. done.
      * rewrite Hkv. exact Hr'.
      * intros sk Hsk. rewrite Hkv. cbn [w_kv set_kv]. pose proof (Hr' (TABLE_ARTIFACTS, pk, sk)) as H1'.
        pose proof (Hr (TABLE_ARTIFACTS, pk, sk)) as H2'. cbn [fst snd] in H1', H2'. rewrite H1', H2'.
        assert (sk ∉ recs.*1) as Hnr.
        { intros Hin. apply elem_of_readable_key in Hin. apply Hsk. apply list_elem_of_fmap in Hin as (x & -> & Hx).
          apply list_elem_of_filter in Hx as [_ Hx]. apply list_elem_of_fmap. by exists x. }
        rewrite readable_app, fmap_app. fold recs. pose proof (elem_of_app (readable dn).*1 recs.*1 sk).
        repeat case_decide; tauto || done.
      * by rewrite readable_app, (assoc_L (++)).
  - intros t w' (Henv & _ & dn & Hdn & -> & Hr). cbn in Hdn. rewrite app_nil_r in Hdn. unfold shard_records. fold pk. by rewrite Hdn.
  - intros rem t w' (Henv & _) Hc'. destruct Henv as (_ & _ & _ & _ & Hcc). congruence.
Qed.

(** The keys of the records below a prefix. *)
Definition record_keys m (repo p : string) (shards : list N) : list (string * string * string) :=
  concat ((λ shard, (λ x, (TABLE_ARTIFACTS, artifact_shard_pk repo shard, x.1)) <$> shard_records m repo p shard) <$> shards).

(** The keys of a list are gone, and nothing else. *)
Definition without (keys : list (string * string * string)) m m' : Prop :=
  ∀ k, m' !! k = if decide (k ∈ keys) then None else m !! k.

Lemma without_subseteq keys m m' : without keys m m' → m' ⊆ m.
Proof. intros Hw. apply map_subseteq_spec. intros k v. rewrite Hw. by case_decide. Qed.

Lemma elem_of_record_keys m repo p shards k :
  k ∈ record_keys m repo p shards ↔ ∃ shard x, shard ∈ shards ∧ x ∈ shard_records m repo p shard ∧
    k = (TABLE_ARTIFACTS, artifact_shard_pk repo shard, x.1).
Proof.
  unfold record_keys. rewrite list_elem_of_In, in_concat. split.
  - intros (l & Hl%list_elem_of_In & Hk%list_elem_of_In). apply list_elem_of_fmap in Hl as (shard & -> & Hs).
    apply list_elem_of_fmap in Hk as (x & -> & Hx). by exists shard, x.
  - intros (shard & x & Hs & Hx & ->). eexists. split; apply list_elem_of_In; [apply list_elem_of_fmap; by exists shard|].
    apply list_elem_of_fmap. by exists x.
Qed.

Lemma shard_records_ext m m' repo p shard :
  (∀ sk, m' !! (TABLE_ARTIFACTS, artifact_shard_pk repo shard, sk) = m !! (TABLE_ARTIFACTS, artifact_shard_pk repo shard, sk)) →
  shard_records m' repo p shard = shard_records m repo p shard.
Proof. intros Hm. unfold shard_records, entries. by rewrite (part_ext _ _ _ _ Hm). Qed.

Lemma wp_delete_prefix schedule fuel repo p cancel progress_tx offset w :
  NoDup schedule → base.size (w_kv w) < fuel → cancel && w_cancelled w = false →
  wp (delete_prefix_artifacts schedule fuel repo p cancel progress_tx offset) w
    (λ r w', r = Ok (totals (all_records (w_kv w) repo p schedule)) ∧
       without (record_keys (w_kv w) repo p schedule) (w_kv w) (w_kv w') ∧ same_env w w').
Proof.
  intros Hnd Hfuel Hc. unfold delete_prefix_artifacts. change (0%Z, 0%Z) with (totals []).
  apply wp_try_fold with (I := λ rest t w', same_env w w' ∧ ∃ dn, schedule = dn ++ rest ∧
    t = totals (all_records (w_kv w) repo p dn) ∧ without (record_keys (w_kv w) repo p dn) (w_kv w) (w_kv w')).
  - split; [done|]. exists []. split_and!; [done|done|]. intros k. rewrite decide_False; [done|]. by intros ?%elem_of_nil.
  - intros shard rest t w' (Henv & dn & Hdn & -> & Hw).
    assert (shard_records (w_kv w') repo p shard = shard_records (w_kv w) repo p shard) as Heq.
    { apply shard_records_ext. intros sk. rewrite Hw, decide_False; [done|].
      intros (shard' & x & Hs & _ & [= Hk _])%elem_of_record_keys. apply scoped_pk_inj in Hk as [_ ->].
      rewrite Hdn in Hnd. apply NoDup_app in Hnd as (_ & Hnd & _). apply (Hnd _ Hs). by left. }
    eapply wp_mono; [apply wp_delete_shard|].
    + eapply Nat.le_lt_trans; [|exact Hfuel]. apply map_subseteq_size. by eapply without_subseteq.
    + destruct Henv as (_ & _ & _ & _ & ->). done.
    + intros r w2 (-> & Hr & Henv2). cbv beta. split; [by eapply same_env_trans|].
      exists (dn ++ [shard]). rewrite <-(assoc_L (++)). split; [done|]. rewrite Heq in *. split.
      * unfold all_records. rewrite fmap_app, concat_app. cbn [fmap list_fmap concat]. by rewrite app_nil_r.
      * intros [ [t pk] sk]. rewrite (Hr (t, pk, sk)), (Hw (t, pk, sk)). cbn [fst snd].
        assert ((t, pk, sk) ∈ record_keys (w_kv w) repo p (dn ++ [shard]) ↔ (t, pk, sk) ∈ record_keys (w_kv w) repo p dn ∨
          (t, pk) = (TABLE_ARTIFACTS, artifact_shard_pk repo shard) ∧ sk ∈ (shard_records (w_kv w) repo p shard).*1) as Hiff.
        { rewrite !elem_of_record_keys. split.
          - intros (s & x & [Hs| ->%list_elem_of_singleton]%elem_of_app & Hx & Hk); [left; by exists s, x|].
            injection Hk as -> -> ->. right. split; [done|]. apply list_elem_of_fmap. by exists x.
          - intros [(s & x & Hs & Hx & ->)|([= -> ->] & (x & -> & Hx)%list_elem_of_fmap)].
            + exists s, x. split_and!; [|done|done]. apply elem_of_app. by left.
            + exists shard, x. split_and!; [|done|done]. apply elem_of_app. right. by left. }
        repeat case_decide; tauto || done.
  - intros t w' (Henv & dn & Hdn & -> & Hw). rewrite app_nil_r in Hdn. by subst dn.
Qed.
End artifacts.

(** ** Tree entries *)

Section tree.
Context `{Blake3} `{Serde TreeEntry} `{UuidGen}.
Implicit Types (m : kvmap) (w : world kvmap).

(** [c] is [d] or below it. *)
Definition within_dir (d c : string) : Prop := segments d `prefix_of` segments c.

Definition is_dir_entry m (repo c : string) : Prop :=
  ∃ b v te n z, m !! dir_key repo c = Some (b, v) ∧ from_slice (A:=TreeEntry) b = inr te ∧ te_kind te = TDir n z.

(** What the recursion relies on: below [d] the tree is a tree (every entry can
    be read and hangs below a directory), and the reserved name of the root's
    parent is not used. *)
Definition tree_ok m (repo d : string) : Prop :=
  tree_placed m repo ∧ d ≠ ROOT_PARENT ∧
  ∀ c b v, stored_dir c → within_dir d c → c ≠ d → m !! dir_key repo c = Some (b, v) →
    c ≠ ROOT_PARENT ∧ (∃ te, from_slice (A:=TreeEntry) b = inr te) ∧
    (parent_dir c = d ∨ is_dir_entry m repo (parent_dir c)).

(** The entries of a directory and below are gone, and nothing else. *)
Definition pruned (repo d : string) m m' : Prop :=
  (∀ c, stored_dir c → within_dir d c → m' !! dir_key repo c = None) ∧
  (∀ k, (∀ c, stored_dir c → within_dir d c → k ≠ dir_key repo c) → m' !! k = m !! k).

Lemma pruned_subseteq repo d m m' : pruned repo d m m' → m' ⊆ m.
Proof.
  intros [Hin Hout]. apply map_subseteq_spec. intros k v Hk. rewrite <-Hk. symmetry. apply Hout.
  intros c Hc Hb ->. by rewrite Hin in Hk.
Qed.

Lemma dir_key_entry repo c : stored_dir c → tree_entry_key repo c = dir_key repo c.
Proof. intros [Hc _]. unfold tree_entry_key, dir_key. by rewrite Hc. Qed.

Lemma trim_end_app s t : trim_end SLASH t = t → t ≠ "" → trim_end SLASH (s +:+ t) = s +:+ t.
Proof.
  intros Ht Hne. induction s as [|a s IH]; [done|]. change (String a s +:+ t) with (String a (s +:+ t)).
  cbn [trim_end]. rewrite IH. destruct (s +:+ t) as [|b r] eqn:Hst; [|done].
  destruct s; [done|discriminate].
Qed.

Lemma trim_end_no_slash t : has_char SLASH t = false → trim_end SLASH t = t.
Proof.
  induction t as [|a t IH]; [done|]. cbn [has_char trim_end]. intros [Ha Ht]%orb_false_iff. rewrite (IH Ht).
  destruct t; [|done]. rewrite decide_False; [done|]. by apply bool_decide_eq_false in Ha.
Qed.

Lemma trim_end_canonical c : canonical c → trim_end SLASH c = c.
Proof.
  intros Hc. destruct (canonical_cases c Hc) as [->|(l & x & Hok & ->)]; [done|].
  pose proof (proj1 (Forall_app _ _ _) Hok) as [_ [ [Hx Hs] _]%Forall_cons].
  pose proof (trim_end_no_slash x Hs) as Ht. destruct l as [|y l]; [done|].
  rewrite join_slash_snoc by done. change (String SLASH x) with (singleton_str SLASH +:+ x).
  rewrite <-str_app_assoc. by apply trim_end_app.
Qed.

(** *** The children of a directory *)

Definition child_dirs_of (clean : string) (l : list (string * bytes)) : list string :=
  omap (λ x, match from_slice (A:=TreeEntry) x.2 with
             | inr te => match te_kind te with
                         | TDir _ _ => Some (if decide (clean = "") then tree_sk_name x.1
                                             else clean +:+ "/" +:+ tree_sk_name x.1)
                         | TFile _ _ _ _ _ _ => None
                         end
             | inl _ => None
             end) l.

Definition file_keys_of (l : list (string * bytes)) : list string :=
  omap (λ x, match from_slice (A:=TreeEntry) x.2 with
             | inr te => match te_kind te with TDir _ _ => None | TFile _ _ _ _ _ _ => Some x.1 end
             | inl _ => None
             end) l.

Lemma collect_children_spec clean p items dirs files :
  block p items →
  collect_children clean p items dirs files =
    (dirs ++ child_dirs_of clean (prefixed p items), files ++ file_keys_of (prefixed p items)).
Proof.
  revert dirs files. induction items as [|[sk v] items IH]; intros dirs files Hb.
  - cbn. by rewrite !app_nil_r.
  - destruct (block_cons p _ _ Hb) as [Hb' Hx]. rewrite prefixed_cons. cbn [collect_children fst snd] in *.
    destruct (starts_with sk p); cbn [negb].
    + unfold child_dirs_of, file_keys_of. cbn [omap list_omap fst snd].
      fold (child_dirs_of clean (prefixed p items)). fold (file_keys_of (prefixed p items)).
      destruct (from_slice v) as [|te]; [by apply IH|].
      destruct (te_kind te); rewrite IH by done; by rewrite <-(assoc_L (++)).
    + rewrite Hx by done. cbn. by rewrite !app_nil_r.
Qed.

Lemma child_dirs_app clean l1 l2 : child_dirs_of clean (l1 ++ l2) = child_dirs_of clean l1 ++ child_dirs_of clean l2.
Proof. apply omap_app. Qed.

Lemma file_keys_app l1 l2 : file_keys_of (l1 ++ l2) = file_keys_of l1 ++ file_keys_of l2.
Proof. apply omap_app. Qed.

Lemma elem_of_file_keys l key : key ∈ file_keys_of l → key ∈ l.*1.
Proof.
  intros ([k v] & Hin & Heq)%list_elem_of_omap. cbn in Heq. destruct (from_slice v); [done|].
  destruct (te_kind _); [done|]. injection Heq as <-. apply list_elem_of_fmap. by exists (k, v).
Qed.

(** The files of a directory are gone. *)
Definition no_files (pk : string) (keys : list string) m m' : Prop :=
  ∀ k, m' !! k = if decide (k.1 = (TABLE_DIR_ENTRIES, pk) ∧ k.2 ∈ keys) then None else m !! k.

Lemma wp_delete_files fuel clean pk p w :
  base.size (w_kv w) < fuel →
  wp (scan_loop fuel "" false TABLE_DIR_ENTRIES pk (str_prefix_end p)
      (λ child_dirs items,
        let '(child_dirs, file_del_keys) := collect_children clean p items child_dirs [] in
        let* _ := if decide (file_del_keys = []) then Ret (Ok [])
                  else kv (DeleteBatch TABLE_DIR_ENTRIES ((λ sk, (pk, sk)) <$> file_del_keys)) in
        Ret (Ok (true, child_dirs))) (Some p) []) w
    (λ r w', let l := entries (w_kv w) TABLE_DIR_ENTRIES pk p in
       r = Ok (child_dirs_of clean l) ∧ no_files pk (file_keys_of l) (w_kv w) (w_kv w') ∧ w' = set_kv (w_kv w') w).
Proof.
  intros Hfuel. destruct (block_between (w_kv w) TABLE_DIR_ENTRIES pk p (str_prefix_end p)) as [Hb He]; [by right|].
  apply wp_scan_loop with (I := λ rem dirs w', w' = set_kv (w_kv w') w ∧ block p rem ∧ ∃ dn,
    entries (w_kv w) TABLE_DIR_ENTRIES pk p = dn ++ prefixed p rem ∧ dirs = child_dirs_of clean dn ∧
    no_files pk (file_keys_of dn) (w_kv w) (w_kv w')).
  - cbn [from_option]. eapply Nat.le_lt_trans; [apply length_entries_between|done].
  - split_and!; [by rewrite set_kv_id|done|]. exists []. split; [by rewrite <-He|]. split; [done|].
    intros k. rewrite decide_False; [done|]. by intros [_ Hk%elem_of_nil].
  - intros batch rem dirs w' (Hw & Hbr & dn & Hdn & -> & Hr) _. destruct (block_app p batch rem Hbr) as (Hb1 & Hb2 & _).
    rewrite collect_children_spec by done. cbn [app]. rewrite prefixed_app, (assoc_L (++)) in Hdn.
    set (files := file_keys_of (prefixed p batch)) in *.
    apply wp_bind. apply wp_intro with (a := if decide (files = []) then Ok [] else
        (spec_store (DeleteBatch TABLE_DIR_ENTRIES ((λ sk, (pk, sk)) <$> files)) (w_kv w')).1)
      (w' := set_kv (foldl (λ m '(pk, sk), delete (TABLE_DIR_ENTRIES, pk, sk) m) (w_kv w') ((λ sk, (pk, sk)) <$> files)) w').
    { case_decide as Hf; [rewrite Hf; cbn; by rewrite set_kv_id|]. rewrite (run_kv_spec (DeleteBatch _ _)). cbn [spec_store].
      by rewrite spec_delete_batch_eq. }
    apply wp_ret. cbn [w_kv set_kv].
    assert (∀ t pk' sk, foldl (λ m '(pk, sk), delete (TABLE_DIR_ENTRIES, pk, sk) m) (w_kv w') ((λ sk, (pk, sk)) <$> files) !! (t, pk', sk) =
      if decide ((t, pk') = (TABLE_DIR_ENTRIES, pk) ∧ sk ∈ files) then None else w_kv w' !! (t, pk', sk)) as Hm.
    { intros t pk' sk. rewrite delete_all_lookup.
      assert ((t = TABLE_DIR_ENTRIES ∧ (pk', sk) ∈ (λ sk, (pk, sk)) <$> files) ↔ (t, pk') = (TABLE_DIR_ENTRIES, pk) ∧ sk ∈ files) as Hiff.
      { rewrite list_elem_of_fmap. split.
        - intros [-> (x & [= -> ->] & Hx)]. done.
        - intros [ [= -> ->] Hx]. split; [done|]. by exists sk. }
      repeat case_decide; tauto || done. }
    split; [|split_and!].
    + intros sk Hsk. rewrite Hm, decide_False; [done|]. intros [_ Hin]. apply elem_of_file_keys in Hin.
      apply Hsk. apply list_elem_of_fmap in Hin as (x & -> & [_ Hx]%list_elem_of_filter). apply list_elem_of_fmap. by exists x.
    + rewrite Hw. done.
    + done.
    + exists (dn ++ prefixed p batch). split_and!; [done|by rewrite child_dirs_app|].
      intros [ [t pk'] sk]. rewrite Hm, (Hr (t, pk', sk)), file_keys_app. cbn [fst snd].
      pose proof (elem_of_app (file_keys_of dn) files sk). repeat case_decide; tauto || done.
  - intros dirs w' (Hw & _ & dn & Hdn & -> & Hr). cbn in Hdn. rewrite app_nil_r in Hdn. by subst dn.
  - by intros rem t w' _ Hc.
Qed.

(** *** The recursion *)

Lemma dir_state_child d x : stored_dir d → segment_ok x → has_char NUL x = false →
  stored_dir (child_path d x) ∧ parent_dir (child_path d x) = d ∧ segments (child_path d x) = segments d ++ [x].
Proof.
  intros [Hd Hn] Hx Hxn. assert (Forall segment_ok (segments d ++ [x])) as Hok.
  { apply Forall_app. split; [apply segments_ok|by constructor]. }
  split_and!.
  - split; [by apply child_path_canonical|by apply child_path_no_nul].
  - unfold child_path. rewrite parent_dir_join by done. rewrite <-normalize_path_join. exact Hd.
  - unfold child_path. by rewrite segments_join.
Qed.

Lemma child_path_str d x : stored_dir d → (if decide (d = "") then x else d +:+ "/" +:+ x) = child_path d x.
Proof.
  intros [Hd _]. unfold child_path. case_decide as Hr; [by rewrite Hr|].
  unfold canonical in Hd. rewrite normalize_path_join in Hd. rewrite join_slash_snoc; [by rewrite Hd|].
  intros Hs. apply Hr. by rewrite <-Hd, Hs.
Qed.

(** What the scan finds below a directory. *)
Definition listing m (repo d : string) : list (string * bytes) :=
  entries m TABLE_DIR_ENTRIES (tree_children_pk repo d) (tree_children_sk_prefix d).

Lemma listing_child m repo d sk v :
  tree_ok m repo d → stored_dir d →
  (sk, v) ∈ listing m repo d ↔
  ∃ x ver, segment_ok x ∧ has_char NUL x = false ∧ tree_sk_name sk = x ∧
    dir_key repo (child_path d x) = (TABLE_DIR_ENTRIES, tree_children_pk repo d, sk) ∧
    m !! dir_key repo (child_path d x) = Some (v, ver).
Proof.
  intros (Hp & Hr & _) Hd. unfold listing. rewrite listed_child; [|done|apply Hd|apply Hd|done]. split.
  - intros (x & ver & Hx & Hxn & Hn & Hsk & Hm). destruct (dir_state_child d x Hd Hx Hxn) as (Hc & Hpar & _).
    exists x, ver. rewrite (dir_key_entry repo _ Hc) in Hm. split_and!; [done..| |done].
    unfold dir_key. by rewrite (proj1 (child_path_parent_name d x (proj1 Hd) Hx)), Hsk.
  - intros (x & ver & Hx & Hxn & Hn & Hk & Hm). destruct (dir_state_child d x Hd Hx Hxn) as (Hc & Hpar & _).
    exists x, ver. rewrite (dir_key_entry repo _ Hc). split_and!; [done..| |done]. unfold dir_key in Hk. congruence.
Qed.

Lemma elem_of_child_dirs m repo d c :
  tree_ok m repo d → stored_dir d →
  c ∈ child_dirs_of d (listing m repo d) ↔
  is_dir_entry m repo c ∧ ∃ x, segment_ok x ∧ has_char NUL x = false ∧ c = child_path d x.
Proof.
  intros Hok Hd. unfold child_dirs_of. rewrite list_elem_of_omap. split.
  - intros ([sk v] & Hin & Heq). cbn in Heq. destruct (from_slice v) as [|te] eqn:Hte; [done|].
    destruct (te_kind te) as [n z|] eqn:Hk; [|done]. injection Heq as <-.
    apply (listing_child m repo d sk v Hok Hd) in Hin as (x & ver & Hx & Hxn & <- & Hkey & Hm).
    rewrite child_path_str by done. split; [by exists v, ver, te, n, z|]. by eexists.
  - intros ((b & v & te & n & z & Hm & Hte & Hk) & x & Hx & Hxn & ->).
    destruct (dir_key repo (child_path d x)) as [ [t pk] sk] eqn:Hkey.
    pose proof Hkey as Hkey'. unfold dir_key in Hkey'. rewrite (proj1 (child_path_parent_name d x (proj1 Hd) Hx)) in Hkey'.
    injection Hkey' as <- <- Hsk. destruct (dir_state_child d x Hd Hx Hxn) as ((_ & Hcn) & _).
    assert (tree_sk_name sk = x) as Hname.
    { rewrite <-Hsk, tree_sk_name_sort_key by done. apply (child_path_parent_name d x (proj1 Hd) Hx). }
    exists (sk, b). split.
    + apply (listing_child m repo d sk b Hok Hd). exists x, v. split_and!; [done..|by rewrite Hkey].
    + cbn. by rewrite Hte, Hk, Hname, child_path_str.
Qed.

Lemma within_dir_child d c : stored_dir d → stored_dir c → within_dir d c → c ≠ d →
  ∃ x, segment_ok x ∧ has_char NUL x = false ∧ within_dir (child_path d x) c.
Proof.
  intros Hd Hc [r Hr] Hne. destruct r as [|x r].
  { destruct Hne. apply stored_dir_segments; [done..|]. by rewrite Hr, app_nil_r. }
  assert (segment_ok x ∧ has_char NUL x = false) as [Hx Hxn].
  { pose proof (segments_ok c) as Hok. pose proof (has_char_segments NUL c (proj2 Hc)) as Hn. rewrite Hr in Hok, Hn.
    apply Forall_app in Hok as [_ Hok%Forall_cons]. apply Forall_app in Hn as [_ Hn%Forall_cons]. tauto. }
  exists x. split_and!; [done..|]. destruct (dir_state_child d x Hd Hx Hxn) as (_ & _ & Hs). exists r.
  by rewrite Hr, Hs, <-(assoc_L (++)).
Qed.

Lemma within_dir_parent d c : stored_dir d → stored_dir c → within_dir d c → c ≠ d →
  c ≠ "" ∧ stored_dir (parent_dir c) ∧ within_dir d (parent_dir c) ∧ length (segments c) = S (length (segments (parent_dir c))).
Proof.
  intros Hd Hc Hw Hne. assert (c ≠ "") as Hc0.
  { intros ->. destruct Hw as [r Hr]. cbn in Hr. symmetry in Hr. apply app_eq_nil in Hr as [Hr _].
    destruct Hne. apply stored_dir_segments; [done..|]. by rewrite Hr. }
  destruct (parent_dir_segments c Hc Hc0) as (Hp & x & Hx). split_and!; [done|done| |].
  - destruct Hw as [r Hr]. destruct r as [|y r _] using rev_ind.
    { destruct Hne. apply stored_dir_segments; [done..|]. by rewrite Hr, app_nil_r. }
    rewrite Hx, (assoc_L (++)) in Hr. apply app_inj_tail in Hr as [Hr _]. by exists r.
  - rewrite Hx, length_app. cbn. lia.
Qed.

(** Every directory below [d] is below a child that the scan finds. *)
Lemma dir_below_child m repo d c :
  tree_ok m repo d → stored_dir d → stored_dir c → within_dir d c → c ≠ d → is_dir_entry m repo c →
  ∃ k, k ∈ child_dirs_of d (listing m repo d) ∧ within_dir k c.
Proof.
  intros Hok Hd. remember (length (segments c)) as n eqn:Hn. revert c Hn.
  induction n as [|n IH]; intros c Hn Hc Hw Hne Hdir; destruct (within_dir_parent d c Hd Hc Hw Hne) as (Hc0 & Hp & Hwp & Hl).
  { lia. }
  pose proof Hdir as (b & v & te & z1 & z2 & Hm & _).
  destruct Hok as (Hpl & Hr & Hclosed). destruct (Hclosed c b v Hc Hw Hne Hm) as (_ & _ & Hpar).
  assert (∀ a, within_dir a (parent_dir c) → within_dir a c) as Hup.
  { intros a Ha. destruct (parent_dir_segments c Hc Hc0) as (_ & x & Hx). unfold within_dir in *. rewrite Hx. by apply prefix_app_r. }
  destruct (decide (parent_dir c = d)) as [Hpd|Hpd].
  - exists c. split; [|by exists []; rewrite app_nil_r]. apply elem_of_child_dirs; [done|done|]. split; [done|].
    destruct (within_dir_child d c Hd Hc Hw Hne) as (x & Hx & Hxn & Hwx). exists x. split_and!; [done..|].
    destruct (dir_state_child d x Hd Hx Hxn) as (Hcx & _ & Hsx). symmetry. apply stored_dir_segments; [done..|].
    destruct Hwx as [r Hwx]. rewrite Hwx. rewrite Hwx, length_app, Hsx, length_app in Hl. rewrite Hpd in Hl. cbn in Hl.
    destruct r; [by rewrite app_nil_r|cbn in Hl; lia].
  - destruct Hpar as [?|Hpar]; [done|]. destruct (IH (parent_dir c)) as (k & Hk & Hwk); [lia|done..|].
    exists k. split; [done|by apply Hup].
Qed.

Lemma within_dir_trans a b c : within_dir a b → within_dir b c → within_dir a c.
Proof. unfold within_dir. intros. by etransitivity. Qed.

(** Part of the tree is gone: the directories [dn] with what is below them. *)
Definition cut (repo : string) (dn : list string) m m' : Prop :=
  (∀ k c, k ∈ dn → stored_dir c → within_dir k c → m' !! dir_key repo c = None) ∧
  (∀ kk, (∀ k c, k ∈ dn → stored_dir c → within_dir k c → kk ≠ dir_key repo c) → m' !! kk = m !! kk).

Lemma cut_some repo dn m m' kk v : cut repo dn m m' → m' !! kk = Some v → m !! kk = Some v.
Proof.
  intros [Hin Hout] Hk. rewrite <-Hk. symmetry. apply Hout. intros k c Hkd Hc Hw ->. by rewrite (Hin k) in Hk.
Qed.

Lemma cut_snoc repo dn k m m' m2 : cut repo dn m m' → pruned repo k m' m2 → cut repo (dn ++ [k]) m m2.
Proof.
  intros Hcut Hpr. split.
  - intros k' c [Hk'| ->%list_elem_of_singleton]%elem_of_app Hc Hw; [|by apply Hpr].
    apply eq_None_not_Some. intros [v Hv]. pose proof (pruned_subseteq _ _ _ _ Hpr) as Hsub.
    rewrite map_subseteq_spec in Hsub. apply Hsub in Hv. by rewrite (proj1 Hcut k') in Hv.
  - intros kk Hkk. rewrite (proj2 Hpr), (proj2 Hcut); [done| |].
    + intros k' c Hk'. apply Hkk. apply elem_of_app. by left.
    + intros c. apply Hkk. apply elem_of_app. right. by left.
Qed.

(** The rest of the tree is in order for the next child. *)
Lemma tree_ok_cut m m1 m' repo d dn k :
  tree_ok m repo d → stored_dir d → k ∈ child_dirs_of d (listing m repo d) →
  no_files (tree_children_pk repo d) (file_keys_of (listing m repo d)) m m1 → cut repo dn m1 m' →
  tree_ok m' repo k ∧ (∀ c, is_dir_entry m' repo c → is_dir_entry m repo c).
Proof.
  intros Hok Hd Hk Hnf Hcut. pose proof Hok as (Hpl & Hr & Hclosed).
  apply (elem_of_child_dirs m repo d k Hok Hd) in Hk as (Hkdir & x & Hx & Hxn & ->).
  destruct (dir_state_child d x Hd Hx Hxn) as (Hck & Hpk & Hsk). set (k := child_path d x) in *.
  assert (∀ kk v, m' !! kk = Some v → m !! kk = Some v) as Hsub.
  { intros kk v Hv. apply (cut_some _ _ _ _ _ _ Hcut) in Hv. rewrite Hnf in Hv. by case_decide. }
  assert (within_dir d k) as Hwk by (exists [x]; done).
  assert (k ≠ d) as Hkd.
  { intros Heq. apply (f_equal (λ z, length (segments z))) in Heq. rewrite Hsk, length_app in Heq. cbn in Heq. lia. }
  split.
  - split_and!.
    + intros shard sk v Hs Hv. apply (Hpl shard sk v Hs). by apply Hsub.
    + destruct Hkdir as (b & v & te & n & z & Hm & _). by apply (Hclosed k b v Hck Hwk Hkd Hm).
    + intros c b v Hc Hw Hne Hm'. pose proof (Hsub _ _ Hm') as Hm.
      assert (c ≠ d) as Hcd.
      { intros ->. destruct Hw as [r Hw]. apply (f_equal length) in Hw. rewrite Hsk, !length_app in Hw. cbn in Hw. lia. }
      destruct (Hclosed c b v Hc (within_dir_trans _ _ _ Hwk Hw) Hcd Hm) as (Hroot & Hte & Hpar). split_and!; [done|done|].
      destruct (within_dir_parent k c Hck Hc Hw Hne) as (Hc0 & Hp & Hwp & Hl).
      destruct (decide (parent_dir c = k)) as [?|Hpk2]; [by left|right].
      destruct Hpar as [Hpd|Hpdir].
      { exfalso. rewrite Hpd in Hwp. destruct Hwp as [r Hwp]. apply (f_equal length) in Hwp.
        rewrite Hsk, !length_app in Hwp. cbn in Hwp. lia. }
      destruct Hpdir as (b2 & v2 & te2 & n2 & z2 & Hm2 & Hte2 & Hk2). exists b2, v2, te2, n2, z2. split_and!; [|done|done].
      rewrite (proj2 Hcut), Hnf, decide_False; [done| |].
      * intros [Hk1 Hk3]. unfold file_keys_of in Hk3. apply list_elem_of_omap in Hk3 as ([sk v3] & Hin & Heq).
        cbn in Heq. destruct (from_slice v3) as [|te3] eqn:Hte3; [done|]. destruct (te_kind te3) eqn:Hkd3; [done|].
        injection Heq as Heq. apply (listing_child m repo d sk v3 Hok Hd) in Hin as (y & ver & Hy & Hyn & _ & Hkey & Hmy).
        assert (dir_key repo (parent_dir c) = dir_key repo (child_path d y)) as Hdk.
        { rewrite Hkey, Heq. unfold dir_key in *. cbn [fst] in Hk1. congruence. }
        rewrite Hdk, Hmy in Hm2. injection Hm2 as -> ->. congruence.
      * intros k' c' Hk' Hc' Hw' Heq. apply dir_key_inj in Heq as [_ <-]; [|done..].
        assert (within_dir k' c) as Hwc.
        { destruct (parent_dir_segments c Hc Hc0) as (_ & y & Hy). unfold within_dir in *. rewrite Hy. by apply prefix_app_r. }
        by rewrite (proj1 Hcut k' c Hk' Hc Hwc) in Hm'.
  - intros c (b & v & te & n & z & Hm' & Hrest). exists b, v, te, n, z. split; [by apply Hsub|done].
Qed.

(** With a depth that bounds the nesting of the directories, the recursion
    ends and removes the directory with everything below it. *)
Lemma wp_delete_tree depth fuel repo d w :
  stored_dir d → tree_ok (w_kv w) repo d → 0 < depth →
  (∀ c, stored_dir c → within_dir d c → is_dir_entry (w_kv w) repo c → length (segments c) < length (segments d) + depth) →
  base.size (w_kv w) < fuel →
  wp (delete_tree_recursive depth fuel repo d) w
    (λ r w', r = Ok tt ∧ pruned repo d (w_kv w) (w_kv w') ∧ w' = set_kv (w_kv w') w).
Proof.
  revert d w. induction depth as [|depth IH]; intros d w Hd Hok Hdepth Hnest Hfuel; [lia|].
  cbn [delete_tree_recursive]. rewrite (trim_end_canonical d) by apply Hd.
  apply wp_bind_ok. eapply wp_mono; [by apply wp_delete_files|]. intros r w1 (-> & Hnf & Hw1). cbv beta iota.
  fold (listing (w_kv w) repo d) in *. set (dirs := child_dirs_of d (listing (w_kv w) repo d)).
  apply wp_bind_ok. apply wp_try_fold with (I := λ rest u w', w' = set_kv (w_kv w') w ∧ ∃ dn, dirs = dn ++ rest ∧
    cut repo dn (w_kv w1) (w_kv w')).
  - split; [done|]. exists []. split; [done|]. split; [by intros k c ?%elem_of_nil|done].
  - intros k rest u w' (Hw' & dn & Hdn & Hcut).
    assert (k ∈ dirs) as Hk by (rewrite Hdn; apply elem_of_app; right; by left).
    destruct (tree_ok_cut (w_kv w) (w_kv w1) (w_kv w') repo d dn k Hok Hd Hk Hnf Hcut) as [Hok' Hdirs'].
    pose proof Hk as Hk'. apply (elem_of_child_dirs _ repo d k Hok Hd) in Hk' as (Hkdir & x & Hx & Hxn & Hkx).
    destruct (dir_state_child d x Hd Hx Hxn) as (Hck & Hpk & Hsk). rewrite <-Hkx in Hck, Hsk.
    assert (within_dir d k) as Hwk by (exists [x]; done).
    pose proof (Hnest k Hck Hwk Hkdir) as Hlk. rewrite Hsk, length_app in Hlk. cbn [length] in Hlk.
    eapply wp_mono; [apply IH|].
    + done.
    + done.
    + lia.
    + intros c Hc Hw Hcd. pose proof (Hnest c Hc (within_dir_trans _ _ _ Hwk Hw) (Hdirs' c Hcd)).
      rewrite Hsk, length_app. cbn [length]. lia.
    + eapply Nat.le_lt_trans; [|exact Hfuel]. apply map_subseteq_size, map_subseteq_spec. intros kk v Hv.
      apply (cut_some _ _ _ _ _ _ Hcut) in Hv. rewrite Hnf in Hv. by case_decide.
    + intros r w2 (-> & Hpr & Hw2). split; [rewrite Hw2, Hw'; done|]. exists (dn ++ [k]). rewrite <-(assoc_L (++)).
      split; [done|]. by eapply cut_snoc.
  - intros u w' (Hw' & dn & Hdn & Hcut). rewrite app_nil_r in Hdn. subst dn.
    rewrite (dir_key_entry repo d Hd). unfold dir_key. apply wp_bind, wp_kv. cbn [spec_store fst snd].
    fold (dir_key repo d). apply wp_ret. split; [done|]. cbn [w_kv set_kv]. split; [|by rewrite Hw']. split.
    + intros c Hc Hw. destruct (decide (c = d)) as [->|Hne]; [apply lookup_delete_eq|].
      rewrite lookup_delete_ne by (intros [_ ?]%dir_key_inj; done).
      apply eq_None_not_Some. intros [ [b v] Hv].
      pose proof (cut_some _ _ _ _ _ _ Hcut Hv) as Hv1. pose proof Hv1 as Hm. rewrite Hnf in Hm.
      case_decide as Hfile; [done|]. destruct Hok as (Hpl & Hroot & Hclosed).
      destruct (Hclosed c b v Hc Hw Hne Hm) as (_ & [te Hte] & Hpar). pose proof (conj Hpl (conj Hroot Hclosed)) as Hok.
      assert (∃ k, k ∈ dirs ∧ within_dir k c) as (k & Hk & Hwk); [|by rewrite (proj1 Hcut k c Hk Hc Hwk) in Hv].
      destruct (te_kind te) as [n z|] eqn:Hkind.
      { destruct (dir_below_child (w_kv w) repo d c Hok Hd Hc Hw Hne) as (k & Hk & Hwk); [|by exists k].
        by exists b, v, te, n, z. }
      destruct (within_dir_parent d c Hd Hc Hw Hne) as (Hc0 & Hp & Hwp & Hl).
      destruct (decide (parent_dir c = d)) as [Hpd|Hpd].
      * exfalso. apply Hfile. destruct (within_dir_child d c Hd Hc Hw Hne) as (x & Hx & Hxn & Hwx).
        destruct (dir_state_child d x Hd Hx Hxn) as (Hcx & _ & Hsx).
        assert (c = child_path d x) as ->.
        { symmetry. apply stored_dir_segments; [done..|]. destruct Hwx as [r Hwx]. rewrite Hwx.
          rewrite Hwx, length_app, Hsx, length_app in Hl. rewrite Hpd in Hl. cbn in Hl.
          destruct r; [by rewrite app_nil_r|cbn in Hl; lia]. }
        assert (dir_key repo (child_path d x) =
          (TABLE_DIR_ENTRIES, tree_children_pk repo d, tree_sort_key (child_path d x))) as Hkey.
        { unfold dir_key. by rewrite (proj1 (child_path_parent_name d x (proj1 Hd) Hx)). }
        split; [by rewrite Hkey|]. unfold file_keys_of. apply list_elem_of_omap.
        exists (tree_sort_key (child_path d x), b). split.
        -- apply (listing_child _ repo d _ _ Hok Hd). exists x, v. split_and!; [done|done| |done|done].
           rewrite tree_sk_name_sort_key by apply Hcx. apply (child_path_parent_name d x (proj1 Hd) Hx).
        -- cbn. rewrite Hte, Hkind. done.
      * destruct Hpar as [?|Hpar]; [done|].
        destruct (dir_below_child (w_kv w) repo d (parent_dir c) Hok Hd Hp Hwp Hpd Hpar) as (k & Hk & Hwk).
        exists k. split; [done|]. eapply within_dir_trans; [exact Hwk|].
        destruct (parent_dir_segments c Hc Hc0) as (_ & y & Hy). exists [y]. done.
    + intros kk Hkk. rewrite lookup_delete_ne.
      2:{ intros <-. apply (Hkk d Hd); [by exists []; rewrite app_nil_r|done]. }
      rewrite (proj2 Hcut), Hnf, decide_False; [done| |].
      * intros [Hk1 Hk3]. unfold file_keys_of in Hk3. apply list_elem_of_omap in Hk3 as ([sk v3] & Hin & Heq).
        cbn in Heq. destruct (from_slice v3) as [|te3]; [done|]. destruct (te_kind te3); [done|]. injection Heq as Heq.
        apply (listing_child (w_kv w) repo d sk v3 Hok Hd) in Hin as (y & ver & Hy & Hyn & _ & Hkey & _).
        destruct (dir_state_child d y Hd Hy Hyn) as (Hcy & _ & Hsy). apply (Hkk (child_path d y)).
        -- done.
        -- by exists [y].
        -- rewrite Hkey. destruct kk as [ [t pk] sk']. cbn [fst snd] in *. congruence.
      * intros k c Hk Hc Hw. apply Hkk; [done|].
        apply (elem_of_child_dirs _ repo d k Hok Hd) in Hk as (_ & x & Hx & Hxn & ->).
        destruct (dir_state_child d x Hd Hx Hxn) as (_ & _ & Hsx).
        eapply within_dir_trans; [|exact Hw]. by exists [x].
Qed.
End tree.

(** ** The worker *)

Section worker.
Context `{Blake3} `{Serde ArtifactRecord} `{Serde TreeEntry} `{UuidGen}.
Implicit Types (m : kvmap) (w : world kvmap).

(** A directory that can be deleted in bulk with a depth and a fuel. *)
Definition deletable m (repo d : string) (depth fuel : nat) : Prop :=
  stored_dir d ∧ d ≠ "" ∧ tree_ok m repo d ∧ 0 < depth ∧
  (∀ c, stored_dir c → within_dir d c → is_dir_entry m repo c → length (segments c) < length (segments d) + depth) ∧
  base.size m < fuel.

(** The entries and the records of a directory are gone, and nothing else. *)
Definition directory_gone m (repo d : string) m' : Prop :=
  (∀ c, stored_dir c → within_dir d c → m' !! dir_key repo c = None) ∧
  (∀ k, k ∈ record_keys m repo (d +:+ "/") shard_range → m' !! k = None) ∧
  (∀ k, (∀ c, stored_dir c → within_dir d c → k ≠ dir_key repo c) →
        k ∉ record_keys m repo (d +:+ "/") shard_range → m' !! k = m !! k).

Lemma ends_with_inv s t : ends_with s t = true → ∃ s', s = s' +:+ t.
Proof.
  induction s as [|a s IH]; cbn [ends_with]; intros Hs.
  - rewrite orb_false_r in Hs. apply bool_decide_eq_true in Hs as <-. by exists "".
  - apply orb_true_iff in Hs as [Hs%bool_decide_eq_true|Hs].
    + exists "". by rewrite <-Hs.
    + destruct (IH Hs) as [s' ->]. by exists (String a s').
Qed.

Lemma stored_dir_no_slash d : stored_dir d → d ≠ "" → ends_with d "/" = false.
Proof.
  intros [Hc _] Hne. apply not_true_iff_false. intros (s & ->)%ends_with_inv.
  pose proof (trim_end_canonical _ Hc) as Ht. clear -Ht.
  assert (∀ s, String.length (trim_end SLASH (s +:+ "/")) < String.length (s +:+ "/")) as Hlt.
  { clear. induction s as [|a s IH]; [by_decide|]. change (String a s +:+ "/") with (String a (s +:+ "/")).
    cbn [trim_end]. pose proof (str_length_app s "/") as Hl. cbn [String.length] in Hl.
    destruct (trim_end SLASH (s +:+ "/")) as [|b r]; cbn [String.length] in *; [case_decide; cbn [String.length]; lia|lia]. }
  specialize (Hlt s). rewrite Ht in Hlt. lia.
Qed.

Lemma record_keys_ext m m' repo p shards :
  (∀ pk sk, m' !! (TABLE_ARTIFACTS, pk, sk) = m !! (TABLE_ARTIFACTS, pk, sk)) →
  record_keys m' repo p shards = record_keys m repo p shards ∧ all_records m' repo p shards = all_records m repo p shards.
Proof.
  intros Hm. assert (∀ shard, shard_records m' repo p shard = shard_records m repo p shard) as Hs.
  { intros shard. apply shard_records_ext. intros sk. apply Hm. }
  unfold record_keys, all_records. split; f_equal; apply list_fmap_ext; intros i shard _; by rewrite Hs.
Qed.

Lemma record_keys_perm m repo p l l' k : l ≡ₚ l' → k ∈ record_keys m repo p l ↔ k ∈ record_keys m repo p l'.
Proof. intros Hl. rewrite !elem_of_record_keys. by setoid_rewrite Hl. Qed.

(** The delta that is sent for [n] artifacts of [b] bytes. *)
Definition bulk_delta (repo d : string) (n b : Z) (now : DateTime) : DirDelta :=
  mkDirDelta repo (sharded_pk repo (tree_parent d)) d (i64_neg (i64_wrap n)) (i64_neg (i64_wrap b)) now.

Lemma normalize_sentinel d : stored_dir d → d ≠ "" →
  parent_dir (normalize_path ((d +:+ "/") +:+ "__bulk_delete_sentinel")) = d.
Proof.
  intros Hd Hne. assert (segment_ok "__bulk_delete_sentinel") as Hx by done.
  destruct (dir_state_child d "__bulk_delete_sentinel" Hd Hx eq_refl) as ((Hc & _) & Hp & _).
  pose proof (child_path_str d "__bulk_delete_sentinel" Hd) as Hs. rewrite decide_False in Hs by done.
  rewrite str_app_assoc, Hs. unfold canonical in Hc. by rewrite Hc.
Qed.

Lemma wp_bulk_delete schedule1 schedule2 depth fuel repo d cancel progress_tx off w :
  schedule2 ≡ₚ shard_range → deletable (w_kv w) repo d depth fuel → cancel && w_cancelled w = false →
  let t := totals (all_records (w_kv w) repo (d +:+ "/") schedule2) in
  wp (bulk_delete schedule1 schedule2 depth fuel repo d cancel progress_tx off) w (λ r w',
    r = Ok (mkBulkDeleteResult repo d t.1 t.2 0) ∧ directory_gone (w_kv w) repo d (w_kv w') ∧ same_env w w' ∧
    ((0 < t.1)%Z → head (w_sent w') = Some (EvDir (bulk_delta repo d t.1 t.2 (w_now w))))).
Proof.
  intros Hs2 (Hd & Hne & Hok & Hdepth & Hnest & Hfuel) Hc t. unfold bulk_delete.
  rewrite stored_dir_no_slash by done. apply wp_bind, wp_call. cbn [handle fst snd].
  apply wp_bind. destruct (run_send_progress progress_tx (tp_set_phase "Removing directory entries") w) as (w1 & Hr1 & Hk1 & He1).
  eapply wp_intro; [exact Hr1|]. apply wp_bind_ok. rewrite <-Hk1 in Hok, Hnest, Hfuel.
  eapply wp_mono; [by apply wp_delete_tree|]. intros r w2 (-> & Hpr & Hw2). cbv beta iota.
  assert (same_env w w2) as He2 by (eapply same_env_trans; [exact He1|]; by rewrite Hw2).
  assert (∀ w' : world kvmap, same_env w w' → cancel && w_cancelled w' = false) as Hcc.
  { intros w' (_ & _ & _ & _ & ->). done. }
  assert (base.size (w_kv w2) < fuel) as Hfuel2.
  { eapply Nat.le_lt_trans; [|exact Hfuel]. apply map_subseteq_size. by eapply pruned_subseteq. }
  assert (∀ pk sk, w_kv w2 !! (TABLE_ARTIFACTS, pk, sk) = w_kv w !! (TABLE_ARTIFACTS, pk, sk)) as Hart.
  { intros pk sk. rewrite <-Hk1. apply Hpr. by intros c _ _ [= ]. }
  apply wp_bind. eapply wp_intro; [apply run_cancel|]. rewrite Hcc by done.
  apply wp_bind. destruct (run_send_progress progress_tx (tp_set_phase "Counting artifacts") w2) as (w3 & Hr3 & Hk3 & He3).
  eapply wp_intro; [exact Hr3|]. pose proof (same_env_trans _ _ _ He2 He3) as He3'.
  apply wp_bind_ok. eapply wp_mono; [apply wp_count_prefix; [by rewrite Hk3|by apply Hcc]|].
  intros r w4 (-> & ->). apply wp_bind.
  match goal with |- wp (send_progress ?b ?f) ?w1 _ => destruct (run_send_progress b f w1) as (w4 & Hr4 & Hk4 & He4) end.
  eapply wp_intro; [exact Hr4|]. pose proof (same_env_trans _ _ _ He3' He4) as He4'.
  apply wp_bind. eapply wp_intro; [apply run_cancel|]. rewrite Hcc by done.
  apply wp_bind_ok. eapply wp_mono; [apply wp_delete_prefix|].
  { rewrite Hs2. apply NoDup_shard_range. }
  { by rewrite Hk4, Hk3. }
  { by apply Hcc. }
  intros r w5 (-> & Hwo & He5). cbv beta iota. pose proof (same_env_trans _ _ _ He4' He5) as He5'.
  rewrite Hk4, Hk3 in Hwo |- *.
  destruct (record_keys_ext (w_kv w) (w_kv w2) repo (d +:+ "/") schedule2 Hart) as [Hkeys Hall].
  rewrite Hall. rewrite Hkeys in Hwo. fold t.
  assert (directory_gone (w_kv w) repo d (w_kv w5)) as Hgone.
  { split_and!.
    - intros c Hcs Hw. rewrite Hwo. case_decide; [done|]. by apply Hpr.
    - intros k Hk. rewrite Hwo, decide_True; [done|]. by apply (record_keys_perm _ _ _ _ _ k Hs2).
    - intros k Hk1' Hk2'. rewrite Hwo, decide_False; [|by intros ?%(record_keys_perm _ _ _ _ _ k Hs2)].
      rewrite <-Hk1. by apply Hpr. }
  apply wp_bind. destruct (decide (0 < t.1)%Z) as [Hpos|Hpos].
  - eapply wp_intro.
    { unfold dir_changed. cbv zeta. rewrite normalize_sentinel by done. rewrite run_bind. reflexivity. }
    apply wp_bind, wp_call. cbn [handle fst snd push_sent w_now]. apply wp_ret.
    assert (w_now w5 = w_now w) as Hnow by apply He5'. rewrite Hnow, Z.sub_diag. split_and!; [done|done|done|].
    intros _. done.
  - apply wp_ret. apply wp_bind, wp_call. cbn [handle fst snd]. apply wp_ret.
    assert (w_now w5 = w_now w) as Hnow by apply He5'. rewrite Hnow, Z.sub_diag. by split_and!.
Qed.
End worker.

(** ** The reserved name *)

Section reserved.
Context `{Blake3} `{Serde TreeEntry} `{UuidGen}.
Implicit Types (m : kvmap) (w : world kvmap).

(** The root entry comes first among the children of a directory [_root]. *)
Lemma root_listed_first m repo b v te n z :
  m !! dir_key repo "" = Some (b, v) → from_slice (A:=TreeEntry) b = inr te → te_kind te = TDir n z →
  let l := entries m TABLE_DIR_ENTRIES (tree_children_pk repo ROOT_PARENT) (tree_children_sk_prefix ROOT_PARENT) in
  ∃ rest, child_dirs_of ROOT_PARENT l = "_root/" :: rest ∧ tree_children_sk_prefix ROOT_PARENT ∉ file_keys_of l.
Proof.
  intros Hm Hte Hk l. set (p := tree_children_sk_prefix ROOT_PARENT) in *.
  change (dir_key repo "") with (TABLE_DIR_ENTRIES, tree_children_pk repo ROOT_PARENT, p) in Hm.
  assert ((p, b) ∈ l) as Hin.
  { apply elem_of_entries. split; [|by exists v]. apply starts_with_spec. by exists "". }
  assert (∃ l', l = (p, b) :: l') as [l' Hl].
  { unfold l, entries. set (pl := filter _ _). assert (StronglySorted sk_lt pl) as Hs by (apply StronglySorted_filter, part_sorted).
    assert ((p, (b, v)) ∈ pl) as Hin2.
    { apply list_elem_of_filter. split; [apply starts_with_spec; by exists ""|]. by apply elem_of_part. }
    destruct pl as [|y pl'] eqn:Hpl; [by apply elem_of_nil in Hin2|].
    apply elem_of_cons in Hin2 as [<-|Hin2]; [by eexists|]. exfalso. apply StronglySorted_inv in Hs as [_ Hs].
    rewrite Forall_forall in Hs. specialize (Hs _ Hin2). unfold sk_lt in Hs. cbn in Hs.
    assert (y ∈ filter (λ x, starts_with x.1 p = true) (part m TABLE_DIR_ENTRIES (tree_children_pk repo ROOT_PARENT))) as Hy.
    { unfold pl in Hpl. rewrite Hpl. by left. }
    apply list_elem_of_filter in Hy as [Hy%starts_with_le _]. apply (str_lt_irrefl y.1). by eapply str_lt_le_trans. }
  exists (child_dirs_of ROOT_PARENT l'). rewrite Hl. split.
  - unfold child_dirs_of. cbn [omap list_omap snd fst]. rewrite Hte, Hk. done.
  - intros Hf. apply list_elem_of_omap in Hf as ([sk v3] & Hin3 & Heq). cbn in Heq.
    destruct (from_slice v3) as [|te3] eqn:Hte3; [done|]. destruct (te_kind te3) eqn:Hk3; [done|]. injection Heq as Heq.
    rewrite <-Hl in Hin3. apply elem_of_entries in Hin3 as (_ & ver & Hin3). rewrite Heq in Hin3. 
    pose proof (eq_trans (eq_sym Hm) Hin3) as Hv. congruence.
Qed.

Lemma run_delete_reserved depth fuel repo dir w :
  trim_end SLASH dir = ROOT_PARENT → is_dir_entry (w_kv w) repo "" → base.size (w_kv w) < fuel →
  (run (delete_tree_recursive depth fuel repo dir) w).1 = None.
Proof.
  revert dir w. induction depth as [|depth IH]; intros dir w Hdir Hroot Hfuel; [done|].
  destruct Hroot as (b & v & te & n & z & Hm & Hte & Hk).
  destruct (root_listed_first (w_kv w) repo b v te n z Hm Hte Hk) as (rest & Hdirs & Hfiles).
  cbn [delete_tree_recursive]. rewrite Hdir. rewrite run_bind_ok.
  destruct (wp_run _ _ _ (wp_delete_files fuel ROOT_PARENT (tree_children_pk repo ROOT_PARENT)
    (tree_children_sk_prefix ROOT_PARENT) w Hfuel)) as (r & w1 & Hrun & -> & Hnf & Hw1).
  rewrite Hrun, Hdirs. cbn [try_fold]. rewrite run_bind_ok, run_bind_ok.
  specialize (IH "_root/" w1 eq_refl).
  destruct (run (delete_tree_recursive depth fuel repo "_root/") w1) as [o w2]. cbn [fst] in IH.
  rewrite IH; [done| |].
  - exists b, v, te, n, z. split_and!; [|done|done]. rewrite Hnf, decide_False; [done|]. by intros [_ ?].
  - eapply Nat.le_lt_trans; [|exact Hfuel]. apply map_subseteq_size, map_subseteq_spec. intros kk x.
    rewrite Hnf. by case_decide.
Qed.
End reserved.

(** ** Properties *)

Section properties.
Context `{Blake3} `{Serde ArtifactRecord} `{Serde TreeEntry} `{UuidGen}.
Implicit Types (m : kvmap) (w : world kvmap).

(** C9: A bulk delete of a directory whose tree is in order ends, and then the
    browse-tree entries of the directory and of everything below it are gone,
    as are the artifact records below it that can be read; nothing else has
    changed.  It reports the number of those records and the sum of their
    sizes, in whatever order the shards complete. *)
Theorem bulk_delete_exact schedule1 schedule2 depth fuel repo d cancel progress_tx off w :
  schedule2 ≡ₚ shard_range → deletable (w_kv w) repo d depth fuel → cancel && w_cancelled w = false →
  let t := totals (all_records (w_kv w) repo (d +:+ "/") schedule2) in
  ∃ w', run (bulk_delete schedule1 schedule2 depth fuel repo d cancel progress_tx off) w =
      (Some (Ok (mkBulkDeleteResult repo d t.1 t.2 0)), w') ∧
    directory_gone (w_kv w) repo d (w_kv w').
Proof.
  intros Hs Hd Hc t. destruct (wp_run _ _ _ (wp_bulk_delete schedule1 schedule2 depth fuel repo d cancel progress_tx off w Hs Hd Hc))
    as (r & w' & Hrun & -> & Hgone & _). by exists w'.
Qed.

(** The delta that a bulk delete of artifacts sends at its end is addressed
    to the directory itself, whose entry it has just removed: the update worker
    can never apply it.  It spins on it, without noticing a shutdown, and the
    parent directories keep counting the deleted artifacts. *)
Theorem bulk_delete_blocks_update_worker `{Serde StoreStatsRecord} `{Scheduler}
    schedule1 schedule2 depth fuel repo d cancel progress_tx off w :
  schedule2 ≡ₚ shard_range → deletable (w_kv w) repo d depth fuel → cancel && w_cancelled w = false →
  (0 < Z.of_nat (length (all_records (w_kv w) repo (d +:+ "/") schedule2)) < 2 ^ 63)%Z →
  ∃ r w' x, run (bulk_delete schedule1 schedule2 depth fuel repo d cancel progress_tx off) w = (Some (Ok r), w') ∧
    head (w_sent w') = Some (EvDir x) ∧ dd_repo x = repo ∧ dd_dir_path x = d ∧
    ∀ fuel' wakes, run (run_update_worker fuel' wakes [mkInbox [x] [] []]) w' = (None, w').
Proof.
  intros Hs Hd Hc Hn.
  destruct (wp_run _ _ _ (wp_bulk_delete schedule1 schedule2 depth fuel repo d cancel progress_tx off w Hs Hd Hc))
    as (r & w' & Hrun & -> & Hgone & _ & Hsent).
  set (l := all_records _ _ _ _) in *.
  assert ((totals l).1 = Z.of_nat (length l)) as Ht by (apply u64_wrap_id; unfold u64_ok; lia).
  do 2 eexists. exists (bulk_delta repo d (totals l).1 (totals l).2 (w_now w)). split; [done|].
  split; [apply Hsent; lia|]. split_and!; [done|done|]. intros fuel' wakes.
  set (x := bulk_delta _ _ _ _ _).
  assert (stuck (w_kv w') x) as Hx.
  { unfold stuck. destruct Hd as (Hd & _).
    change (TABLE_DIR_ENTRIES, dd_pk x, tree_sort_key (dd_dir_path x)) with (dir_key repo d).
    rewrite (proj1 Hgone d Hd) by (exists []; by rewrite app_nil_r). cbn [x bulk_delta dd_count_delta].
    rewrite Ht. unfold i64_neg. rewrite !i64_wrap_id; unfold i64_ok; try lia. rewrite i64_wrap_id; unfold i64_ok; lia. }
  assert (run (process fuel' [mkInbox [x] [] []] idle_worker) w' = (None, w')) as Hp.
  { apply (run_process_stuck x fuel' _ [x]); [done|done|done|by right|]. unfold collect_dir, map_values.
    cbn [stashed_dir idle_worker propagation_buf]. rewrite map_to_list_empty, arrange_nil. done. }
  unfold run_update_worker. destruct wakes; cbn [worker_loop]; by rewrite run_bind, Hp.
Qed.

(** In a repository with a root entry, a bulk delete of the directory
    [_root], whether there is one or not, never ends: the root entry is listed
    as a child of that reserved name, and is descended into again and again. *)
Theorem bulk_delete_reserved_diverges schedule1 schedule2 depth fuel repo cancel progress_tx off w :
  is_dir_entry (w_kv w) repo "" → base.size (w_kv w) < fuel →
  (run (bulk_delete schedule1 schedule2 depth fuel repo ROOT_PARENT cancel progress_tx off) w).1 = None.
Proof.
  intros Hroot Hfuel. unfold bulk_delete. rewrite run_bind. change (run (call ENow) w) with (Some (w_now w), w). cbv beta iota.
  rewrite run_bind. destruct (run_send_progress progress_tx (tp_set_phase "Removing directory entries") w) as (w1 & -> & Hk1 & _).
  rewrite run_bind_ok. pose proof (run_delete_reserved depth fuel repo ROOT_PARENT w1 eq_refl) as Hr. rewrite Hk1 in Hr.
  specialize (Hr Hroot Hfuel). destruct (run _ w1) as [o w2]. cbn [fst] in Hr. by rewrite Hr.
Qed.
End properties.

(** ** Witnesses *)

(** The directory "a" with one artifact, next to the file "ab". *)
Definition toy_bulk_world : world kvmap :=
  let _ := toy_blake3 in set_kv (<[artifact_key "r" "a/x" := ("0", 1%Z)]> (w_kv toy_tree_world)) toy_tree_world.

Lemma toy_bulk_names c (v : string * Z) :
  @stored_dir c → w_kv toy_bulk_world !! @dir_key toy_blake3 "r" c = Some v → c ∈ [""; "a"; "a/x"; "ab"].
Proof.
  intros Hc Hm. assert (map_Forall (λ (k : string * string * string) _, k.1.1 = TABLE_DIR_ENTRIES →
    Exists (λ c, (canonical c ∧ has_char NUL c = false) ∧ @dir_key toy_blake3 "r" c = k) [""; "a"; "a/x"; "ab"])
    (w_kv toy_bulk_world)) as Hall by by_decide.
  specialize (Hall _ _ Hm eq_refl). apply Exists_exists in Hall as (c' & Hin & Hc' & Hk).
  by apply dir_key_inj in Hk as [_ <-].
Qed.

Lemma toy_deletable : @deletable toy_blake3 toy_tree_serde (w_kv toy_bulk_world) "r" "a" 1 100.
Proof.
  assert (@tree_placed toy_blake3 (w_kv toy_bulk_world) "r") as Hpl.
  { intros shard sk v _ Hin. assert (map_Forall (λ (k : string * string * string) _, k.1.1 = TABLE_DIR_ENTRIES →
      Exists (λ c, canonical c ∧ has_char NUL c = false ∧ @tree_entry_key toy_blake3 "r" c = k) [""; "a"; "a/x"; "ab"])
      (w_kv toy_bulk_world)) as Hall by by_decide.
    specialize (Hall _ _ Hin eq_refl). apply Exists_exists in Hall as (c & _ & Hc). by exists c. }
  refine (conj _ (conj _ (conj (conj Hpl (conj _ _)) (conj _ (conj _ _))))); [by_decide..| |by_decide| |by_decide].
  - intros c b v Hc Hw Hne Hm. pose proof (toy_bulk_names c _ Hc Hm) as Hin.
    repeat (apply elem_of_cons in Hin as [->|Hin]); [by destruct Hw|done| | |by apply elem_of_nil in Hin].
    + split_and!; [done| |by left]. exists (tree_file_of (toy_artifact "a/x" 1)). revert Hm. vm_compute. by intros [= <- <-].
    + destruct Hw as [r Hw]. done.
  - intros c Hc Hw (b & v & te & n & z & Hm & Hte & Hk). pose proof (toy_bulk_names c _ Hc Hm) as Hin.
    repeat (apply elem_of_cons in Hin as [->|Hin]); [by_decide|by_decide| |by_decide|by apply elem_of_nil in Hin].
    exfalso. revert Hm. vm_compute. intros [= <- <-]. vm_compute in Hte. injection Hte as <-. done.
Qed.

Lemma bulk_delete_exact_witness :
  let _ := toy_blake3 in let _ := toy_ar_serde in let _ := toy_tree_serde in let _ := toy_uuid in
  ∃ w', run (bulk_delete shard_range shard_range 1 100 "r" "a" false false (mkProgressOffset 0 0)) toy_bulk_world =
      (Some (Ok (mkBulkDeleteResult "r" "a" 1 1 0)), w') ∧
    w_kv w' !! artifact_key "r" "a/x" = None ∧ w_kv w' !! dir_key "r" "a/x" = None ∧
    is_Some (w_kv w' !! dir_key "r" "ab").
Proof.
  intros ????.
  destruct (@bulk_delete_exact toy_blake3 toy_ar_serde toy_tree_serde toy_uuid shard_range shard_range 1 100 "r" "a"
    false false (mkProgressOffset 0 0) toy_bulk_world) as (w' & Hrun & Hin & Hrec & Hout); [done|exact toy_deletable|done|].
  exists w'. split; [refine (eq_trans Hrun _)|].
  { apply (f_equal (λ t : Z * Z, (Some (Ok (mkBulkDeleteResult "r" "a" t.1 t.2 0)), w')) (y := (1, 1)%Z)). by_decide. }
  split_and!.
  - apply Hrec. by_decide.
  - apply Hin; [by_decide|by exists ["x"] ].
  - rewrite Hout; [by_decide| |by_decide]. intros c Hc [r Hw] Hk.
    apply dir_key_inj in Hk as [_ <-]; [done|by_decide|done].
Defined.

Lemma bulk_delete_blocks_update_worker_witness :
  let _ := toy_blake3 in let _ := toy_ar_serde in let _ := toy_tree_serde in let _ := stats_serde in
  let _ := in_order in let _ := toy_uuid in
  ∃ r w' x, run (bulk_delete shard_range shard_range 1 100 "r" "a" false false (mkProgressOffset 0 0)) toy_bulk_world =
      (Some (Ok r), w') ∧ head (w_sent w') = Some (EvDir x) ∧
    run (run_update_worker 1000 [WakeCancelled] [mkInbox [x] [] []]) w' = (None, w').
Proof.
  intros ??????.
  destruct (@bulk_delete_blocks_update_worker toy_blake3 toy_ar_serde toy_tree_serde toy_uuid stats_serde in_order
    shard_range shard_range 1 100 "r" "a" false false (mkProgressOffset 0 0) toy_bulk_world)
    as (r & w' & x & Hrun & Hsent & _ & _ & Hlive); [done|exact toy_deletable|done|by_decide|].
  exists r, w', x. split_and!; [exact Hrun|exact Hsent|apply Hlive].
Defined.

Lemma bulk_delete_reserved_diverges_witness :
  let _ := toy_blake3 in let _ := toy_ar_serde in let _ := toy_tree_serde in let _ := toy_uuid in
  (run (bulk_delete shard_range shard_range 50 100 "r" "_root" false false (mkProgressOffset 0 0)) toy_bulk_world).1 = None.
Proof.
  intros ????. apply (@bulk_delete_reserved_diverges toy_blake3 toy_ar_serde toy_tree_serde toy_uuid).
  - exists "1", 1%Z, toy_dir_entry, 3%Z, 6%Z. vm_compute. done.
  - by_decide.
Defined.
