(* ===== verification/TreeRebuild.v ===== *)
(** * Rebuilding the browse tree (server/src/server/worker/update.rs)

    The task that repairs the browse tree recomputes it from the artifact
    records: one pass over the artifact shards collects the file entries and
    the statistics of every ancestor directory, a second one reads the entries
    that are stored, and the differences are written in batches.  The theorem
    says that afterwards the tree of the repository is the one that its
    artifacts determine ([tree_at]), that entries which were right are not
    touched, and that nothing else is. *)

From S2P Require Import Prelude Bytes Errors Keys Records Kv Prog Wp Scan Pagination Update Artifact Blob Repo Directory UpdateWorker Tasks TaskManager Batches BulkDelete.

(** Statistics of a directory: artifacts, bytes, last modified, last accessed. *)
Abbreviation Stats := (Z * Z * DateTime * DateTime)%type.
Abbreviation DirStats := (gmap string Stats).
Abbreviation KeyMap := (gmap (string * string) bytes).

(** server/src/server/worker/update.rs:660-665 *)
Record ShardScanResult : Type := mkShardScanResult {
  dir_stats : DirStats;
  file_entries : list (string * TreeEntry);
}.

Definition no_scan : ShardScanResult := mkShardScanResult ∅ [].

(** 100 ms. *)
(** server/src/server/worker/update.rs:819-819 *)
Definition PROGRESS_INTERVAL : Z := (100 * 10 ^ 6)%Z.

(** server/src/server/worker/update.rs:766-766 *)
Definition BATCH_SIZE : nat := Z.to_nat 500.

(** The paths before each slash, the last slash first, then the root. *)
(** server/src/server/worker/update.rs:950-958 *)
Fixpoint ancestor_dirs_loop (fuel : nat) (remaining : string) : list string :=
  match fuel with
  | O => []
  | S fuel =>
      match rsplit_once SLASH remaining with
      | Some (before, _) => before :: ancestor_dirs_loop fuel before
      | None => [""]
      end
  end.

(** server/src/server/worker/update.rs:947-959 *)
Definition ancestor_dirs (path : string) : list string := ancestor_dirs_loop (S (String.length path)) path.

(** [entry.0 += count; entry.1 += bytes], and the later of the timestamps. *)
(** server/src/server/worker/update.rs:691-698 *)
Definition fold_stats (entry s : Stats) : Stats :=
  let '(count0, bytes0, modified0, accessed0) := entry in
  let '(count, bytes, modified, accessed) := s in
  (u64_add count0 count, u64_add bytes0 bytes,
   if decide (modified > modified0)%Z then modified else modified0,
   if decide (accessed > accessed0)%Z then accessed else accessed0).

(** server/src/server/worker/update.rs:685-690 *)
Definition no_stats : Stats := (0%Z, 0%Z, UNIX_EPOCH, UNIX_EPOCH).

(** server/src/server/worker/update.rs:685-698 *)
Definition accumulate (ds : DirStats) (x : string * Stats) : DirStats :=
  <[x.1 := fold_stats (default no_stats (ds !! x.1)) x.2]> ds.

(** What one record adds to each of its ancestors. *)
Definition stats_of_record (record : ArtifactRecord) : Stats :=
  (1%Z, ar_size record, ar_updated_at record, ar_last_accessed_at record).

(** server/src/server/worker/update.rs:838-875 *)
Definition absorb (r : ShardScanResult) (raw_sk : string) (record : ArtifactRecord) : ShardScanResult :=
  let sk := normalize_path raw_sk in
  mkShardScanResult
    (foldl accumulate (dir_stats r) ((λ dir, (dir, stats_of_record record)) <$> ancestor_dirs sk))
    (file_entries r ++ [(sk, tree_file_of record)]).

Definition tp_add_checked_artifacts (n : Z) (p : TaskProgress) : TaskProgress :=
  mkTaskProgress (tp_total_repos p) (tp_completed_repos p) (tp_total_blobs p) (tp_checked_blobs p)
    (tp_failed_blobs p) (tp_bytes_read p) (tp_total_bytes p) (tp_total_artifacts p)
    (u64_add (tp_checked_artifacts p) n) (tp_phase p).

Definition tp_add_checked_blobs (n : Z) (p : TaskProgress) : TaskProgress :=
  mkTaskProgress (tp_total_repos p) (tp_completed_repos p) (tp_total_blobs p) (u64_add (tp_checked_blobs p) n)
    (tp_failed_blobs p) (tp_bytes_read p) (tp_total_bytes p) (tp_total_artifacts p)
    (tp_checked_artifacts p) (tp_phase p).

(** The variables of the scan of a shard. *)
(** server/src/server/worker/update.rs:815-818 *)
Record ShardScan : Type := mkShardScan {
  sc_result : ShardScanResult;
  sc_unreported : Z;
  sc_last_progress : DateTime;
}.

(** [l.chunks(n)]. *)
Fixpoint chunks_loop {A : Type} (fuel n : nat) (l : list A) : list (list A) :=
  match fuel, l with
  | O, _ | _, [] => []
  | S fuel, _ => take n l :: chunks_loop fuel n (drop n l)
  end.

Definition chunks {A : Type} (n : nat) (l : list A) : list (list A) := chunks_loop (length l) n l.

Lemma concat_chunks {A : Type} (n : nat) (l : list A) : 0 < n → concat (chunks n l) = l.
Proof.
  intros Hn. unfold chunks. assert (length l ≤ length l) as Hle by done. revert Hle. generalize (length l) at 2 3.
  intros fuel. revert l. induction fuel as [|fuel IH]; intros l Hl; cbn [chunks_loop].
  - destruct l; cbn in *; [done|lia].
  - destruct l as [|x l]; [done|]. cbn [concat]. rewrite IH; [by rewrite take_drop|].
    rewrite length_drop. cbn [length] in *. lia.
Qed.

Section rebuild.
Context `{Blake3} `{Serde ArtifactRecord} `{Serde TreeEntry} `{Scheduler}.

(** server/src/server/worker/update.rs:837-875 *)
Fixpoint absorb_items (items : list (string * bytes)) (r : ShardScanResult) : result ShardScanResult :=
  match items with
  | [] => Ok r
  | (raw_sk, value) :: items =>
      let? record := serde_result (from_slice (A:=ArtifactRecord) value) in
      absorb_items items (absorb r raw_sk record)
  end.

(** The progress is reported at most once per interval. *)
(** server/src/server/worker/update.rs:837-883 *)
Definition scan_artifact_batch (st : ShardScan) (items : list (string * bytes)) : prog (result ShardScan) :=
  let! r := absorb_items items (sc_result st) in
  let unreported := u64_add (sc_unreported st) (Z.of_nat (length items)) in
  if decide (0 < unreported)%Z then
    let* now := call ENow in
    if decide (PROGRESS_INTERVAL ≤ now - sc_last_progress st)%Z then
      let* now := call ENow in
      let* _ := send_progress true (tp_add_checked_artifacts unreported) in
      Ret (Ok (mkShardScan r 0 now))
    else Ret (Ok (mkShardScan r unreported (sc_last_progress st)))
  else Ret (Ok (mkShardScan r unreported (sc_last_progress st))).

(** server/src/server/worker/update.rs:806-904 *)
Definition scan_artifact_shard (fuel : nat) (repo : string) (shard : N) : prog (result ShardScanResult) :=
  let pk := artifact_shard_pk repo shard in
  let* now := call ENow in
  let*? st := scan_batches fuel "" false TABLE_ARTIFACTS pk scan_artifact_batch None (mkShardScan no_scan 0 now) in
  let* _ := if decide (0 < sc_unreported st)%Z
            then send_progress true (tp_add_checked_artifacts (sc_unreported st)) else Ret tt in
  Ret (Ok (sc_result st)).

(** server/src/server/worker/update.rs:906-945 *)
Definition scan_tree_shard (fuel : nat) (repo : string) (shard : N) : prog (result (list (string * string * bytes))) :=
  let tree_pk := tree_shard_pk repo shard in
  scan_batches fuel "" false TABLE_DIR_ENTRIES tree_pk
    (λ entries items, Ret (Ok (entries ++ ((λ '(sk, value), (tree_pk, sk, value)) <$> items)))) None [].

(** The results of the shards, in the order in which they complete. *)
(** server/src/server/worker/update.rs:683-701 *)
Definition merge_shard (r result : ShardScanResult) : ShardScanResult :=
  mkShardScanResult
    (foldl accumulate (dir_stats r) (arrange 30 (map_to_list (dir_stats result))))
    (file_entries r ++ file_entries result).

(** server/src/server/worker/update.rs:717-718 *)
Definition tree_pk_sk (repo path : string) : string * string :=
  (sharded_pk repo (tree_parent path), tree_sort_key path).

(** server/src/server/worker/update.rs:716-732 *)
Fixpoint insert_expected (repo : string) (l : list (string * TreeEntry)) (expected : KeyMap) : result KeyMap :=
  match l with
  | [] => Ok expected
  | (path, te) :: l =>
      let? te_bytes := serde_result (to_vec te) in
      insert_expected repo l (<[tree_pk_sk repo path := te_bytes]> expected)
  end.

(** server/src/server/worker/update.rs:707-715 *)
Definition dir_tree_entry (x : string * Stats) : string * TreeEntry :=
  let '(dir_path, (count, bytes, modified, accessed)) := x in
  (dir_path, mkTreeEntry (TDir count bytes) modified accessed).

(** The directories first, then the files. *)
(** server/src/server/worker/update.rs:703-732 *)
Definition expected_entries (repo : string) (r : ShardScanResult) : result KeyMap :=
  let? expected := insert_expected repo (dir_tree_entry <$> arrange 31 (map_to_list (dir_stats r))) ∅ in
  insert_expected repo (file_entries r) expected.

(** server/src/server/worker/update.rs:743-749 *)
Definition existing_entries (shards : list (list (string * string * bytes))) : KeyMap :=
  foldl (λ existing '(pk, sk, value), <[(pk, sk) := value]> existing) ∅ (concat shards).

(** The keys that are stored and not expected. *)
(** server/src/server/worker/update.rs:751-756 *)
Definition stale_keys (existing expected : KeyMap) : list (string * string) :=
  filter (λ k, expected !! k = None) (arrange 32 (map_to_list existing)).*1.

(** The entries that are expected and not stored with this value. *)
(** server/src/server/worker/update.rs:758-763 *)
Definition changed_entries (existing expected : KeyMap) : list (string * string * bytes) :=
  filter (λ '(k, v), existing !! k ≠ Some v) (arrange 33 (map_to_list expected)).

(** server/src/server/worker/update.rs:780-786 *)
Definition delete_stale (updates : Z) (chunk : list (string * string)) : prog (result Z) :=
  let*? _ := kv (DeleteBatch TABLE_DIR_ENTRIES chunk) in
  let* _ := send_progress true (tp_add_checked_blobs (Z.of_nat (length chunk))) in
  Ret (Ok (u64_add updates (Z.of_nat (length chunk)))).

(** server/src/server/worker/update.rs:788-794 *)
Definition write_changed (updates : Z) (chunk : list (string * string * bytes)) : prog (result Z) :=
  let*? _ := kv (PutBatch TABLE_DIR_ENTRIES chunk) in
  let* _ := send_progress true (tp_add_checked_blobs (Z.of_nat (length chunk))) in
  Ret (Ok (u64_add updates (Z.of_nat (length chunk)))).

(** The scan of the artifacts; the shards complete in the order [schedule1]. *)
(** server/src/server/worker/update.rs:674-702 *)
Definition scan_artifacts (schedule1 : list N) (fuel : nat) (repo : string) : prog (result ShardScanResult) :=
  try_fold schedule1 (λ r shard,
    let*? result := scan_artifact_shard fuel repo shard in
    Ret (Ok (merge_shard r result))) no_scan.

(** The scan of the tree, in the order [schedule2], and the writes. *)
(** server/src/server/worker/update.rs:703-801 *)
Definition write_tree (schedule2 : list N) (fuel : nat) (repo : string) (r : ShardScanResult) :
    prog (result (Z * Z * Z)) :=
  let! expected := expected_entries repo r in
  let* _ := send_progress true (tp_set_phase ("Scanning tree entries for " +:+ repo)) in
  let*? existing_shards := try_for schedule2 (scan_tree_shard fuel repo) in
  let existing := existing_entries existing_shards in
  let to_delete := stale_keys existing expected in
  let to_write := changed_entries existing expected in
  let* _ := if decide (0 < length to_delete + length to_write) then
              send_progress true (tp_set_phase ("Writing entries for " +:+ repo +:+ " (" +:+
                show_uint (N.of_nat (length to_delete)) +:+ " deletes, " +:+
                show_uint (N.of_nat (length to_write)) +:+ " writes)"))
            else Ret tt in
  let*? updates := try_fold (chunks BATCH_SIZE to_delete) delete_stale 0%Z in
  let*? updates := try_fold (chunks BATCH_SIZE to_write) write_changed updates in
  let '(repo_count, repo_bytes) :=
    match dir_stats r !! "" with
    | Some (count, bytes, _, _) => (count, bytes)
    | None => (0%Z, 0%Z)
    end in
  Ret (Ok (updates, repo_count, repo_bytes)).

(** The counters are those of the entries that were updated, and of the
    artifacts of the repository and their bytes. *)
(** server/src/server/worker/update.rs:667-801 *)
Definition full_scan_repo (schedule1 schedule2 : list N) (fuel : nat) (repo : string) : prog (result (Z * Z * Z)) :=
  let*? r := scan_artifacts schedule1 fuel repo in
  write_tree schedule2 fuel repo r.
End rebuild.

(** *** All repositories *)

Definition is_proxy (kind : RepoKind) : bool := match kind with Proxy _ _ => true | _ => false end.

(** The assignments to the progress. *)
Definition tp_set_estimates (repos blobs bytes artifacts : Z) (p : TaskProgress) : TaskProgress :=
  mkTaskProgress repos (tp_completed_repos p) blobs (tp_checked_blobs p) (tp_failed_blobs p) (tp_bytes_read p)
    bytes artifacts (tp_checked_artifacts p) "Rebuilding tree".

Definition tp_repo_done (artifacts bytes : Z) (p : TaskProgress) : TaskProgress :=
  mkTaskProgress (tp_total_repos p) (u64_add (tp_completed_repos p) 1) (tp_total_blobs p)
    (u64_add (tp_checked_blobs p) artifacts) (tp_failed_blobs p) (u64_add (tp_bytes_read p) bytes)
    (tp_total_bytes p) (tp_total_artifacts p) (tp_checked_artifacts p) (tp_phase p).

(** Artifacts and bytes of the stores. *)
Abbreviation StoreTotals := (gmap string (Z * Z)).

(** server/src/server/worker/update.rs:588-590 *)
Definition add_store_total (totals : StoreTotals) (store : string) (artifacts bytes : Z) : StoreTotals :=
  let entry := default (0%Z, 0%Z) (totals !! store) in
  <[store := (u64_add entry.1 artifacts, u64_add entry.2 bytes)]> totals.

Definition show_nat (n : nat) : string := show_uint (N.of_nat n).
Definition show_Z (n : Z) : string := show_uint (Z.to_N n).

(** [d.as_millis()] of a time span. *)
Definition millis (start end_ : DateTime) : Z := ((end_ - start) / 10 ^ 6)%Z.

Section full_scan.
Context `{Blake3} `{Serde ArtifactRecord} `{Serde TreeEntry} `{Serde RepoConfig} `{Serde StoreRecord}.
Context `{Serde StoreStatsRecord} `{Serde TaskRecord} `{Serde TaskEventRecord} `{UuidText} `{Scheduler}.

(** server/src/server/worker/update.rs:537-544 *)
Fixpoint sum_store_stats (stores : list StoreRecord) (t : Z * Z) : prog (Z * Z) :=
  match stores with
  | [] => Ret t
  | sr :: stores =>
      let* r := get_store_stats (sr_name sr) in
      sum_store_stats stores
        (match r with
         | Ok (Some stats) => (u64_add t.1 (ss_blob_count stats), u64_add t.2 (ss_total_bytes stats))
         | _ => t
         end)
  end.

(** server/src/server/worker/update.rs:546-557 *)
Fixpoint sum_repo_artifacts (fuel : nat) (repos : list RepoConfig) (total : Z) : prog Z :=
  match repos with
  | [] => Ret total
  | repo_config :: repos =>
      if is_proxy (rc_kind repo_config) then sum_repo_artifacts fuel repos total
      else
        let* r := get_repo_stats fuel repo_config in
        sum_repo_artifacts fuel repos
          (u64_add total (match r with Ok s => rs_artifact_count s | Err _ => 0%Z end))
  end.

(** The loop over the repositories, [i] of [n] done.  The shards of a
    repository complete in the orders that [schedules] gives. *)
(** server/src/server/worker/update.rs:579-624 *)
Fixpoint scan_repos (schedules : string → list N * list N) (fuel : nat) (task_id : string) (i n : nat)
    (repos : list RepoConfig) (total_updated : Z) (store_totals : StoreTotals) (tm : TaskManager) :
    prog (result (Z * StoreTotals) * TaskManager) :=
  match repos with
  | [] => Ret (Ok (total_updated, store_totals), tm)
  | repo :: repos =>
      let* _ := send_progress true (tp_set_phase ("Scanning artifacts for " +:+ rc_name repo)) in
      let* repo_start := call ENow in
      let '(schedule1, schedule2) := schedules (rc_name repo) in
      let* r := full_scan_repo schedule1 schedule2 fuel (rc_name repo) in
      match r with
      | Err e => Ret (Err e, tm)
      | Ok (repo_entries, repo_artifacts, repo_bytes) =>
          let total_updated := u64_add total_updated repo_entries in
          let store_totals := add_store_total store_totals (rc_store repo) repo_artifacts repo_bytes in
          let* now := call ENow in
          let* tm := append_log task_id ("[" +:+ show_nat (S i) +:+ "/" +:+ show_nat n +:+ "] " +:+ rc_name repo +:+
            " -- " +:+ show_Z repo_artifacts +:+ " artifacts, " +:+ show_Z repo_bytes +:+ " bytes, " +:+
            show_Z repo_entries +:+ " entries updated (" +:+ show_Z (millis repo_start now) +:+ "ms)") tm in
          let* _ := send_progress true (tp_repo_done repo_artifacts repo_bytes) in
          let* _ := update_summary task_id ("Scanning " +:+ show_nat (S i) +:+ "/" +:+ show_nat n +:+ " repos (" +:+
            show_Z total_updated +:+ " entries updated so far)") in
          scan_repos schedules fuel task_id (S i) n repos total_updated store_totals tm
      end
  end.

(** server/src/server/worker/update.rs:626-644 *)
Fixpoint write_store_totals (task_id : string) (l : list (string * (Z * Z))) (tm : TaskManager) : prog TaskManager :=
  match l with
  | [] => Ret tm
  | (store_name, (artifact_count, total_bytes)) :: l =>
      let* now := call ENow in
      let* _ := put_store_stats store_name (mkStoreStatsRecord artifact_count total_bytes now) in
      let* tm := append_log task_id ("Store '" +:+ store_name +:+ "': " +:+ show_Z artifact_count +:+ " artifacts, " +:+
        show_Z total_bytes +:+ " bytes") tm in
      write_store_totals task_id l tm
  end.

(** The repositories, the entries that were updated, and the stores. *)
(** server/src/server/worker/update.rs:522-655 *)
Definition full_scan (schedules : string → list N * list N) (fuel : nat) (task_id : string) (tm : TaskManager) :
    prog (result (Z * Z * Z) * TaskManager) :=
  let* r := list_repos in
  match r with
  | Err e => Ret (Err e, tm)
  | Ok repos =>
      let n := length repos in
      let* s := list_stores in
      let store_records := match s with Ok l => l | Err _ => [] end in
      let* estimated := sum_store_stats store_records (0%Z, 0%Z) in
      let* total_artifacts := sum_repo_artifacts fuel repos 0%Z in
      let* _ := send_progress true (tp_set_estimates (Z.of_nat n) estimated.1 estimated.2 total_artifacts) in
      let* tm := append_log task_id ("Found " +:+ show_nat n +:+ " repositories to scan") tm in
      let* _ := update_summary task_id ("Scanning 0/" +:+ show_nat n +:+ " repos") in
      let* r := scan_repos schedules fuel task_id 0 n repos 0%Z ∅ tm in
      match r with
      | (Err e, tm) => Ret (Err e, tm)
      | (Ok (total_updated, store_totals), tm) =>
          let* tm := write_store_totals task_id (arrange 34 (map_to_list store_totals)) tm in
          Ret (Ok (Z.of_nat n, total_updated, Z.of_nat (base.size store_totals)), tm)
      end
  end.
End full_scan.

(** ** What the tree should be *)

Section spec.
Context `{Blake3} `{Serde ArtifactRecord} `{Serde TreeEntry} `{UuidGen}.
Implicit Types (m : kvmap) (w : world kvmap).

(** [p] is below the directory [d]. *)
Definition inside (d p : string) : Prop := segments d `prefix_of` segments p ∧ segments d ≠ segments p.

#[export] Instance inside_dec d p : Decision (inside d p).
Proof. unfold inside. apply _. Defined.

Definition latest (f : ArtifactRecord → DateTime) (l : list (string * ArtifactRecord)) : DateTime :=
  foldr (λ x t, Z.max (f x.2) t) UNIX_EPOCH l.

(** The statistics of a list of artifacts. *)
Definition tally (l : list (string * ArtifactRecord)) : Stats :=
  (u64_wrap (Z.of_nat (length l)), u64_wrap (sizes l), latest ar_updated_at l, latest ar_last_accessed_at l).

(** The entry of a path, given the artifacts of the repository: the file that
    is stored there, else the directory of what is below it. *)
Definition tree_at (arts : list (string * ArtifactRecord)) (p : string) : option TreeEntry :=
  match list_find (λ x, x.1 = p) arts with
  | Some (_, (_, record)) => Some (tree_file_of record)
  | None =>
      match filter (λ x, inside p x.1) arts with
      | [] => None
      | l => Some (dir_tree_entry (p, tally l)).2
      end
  end.

(** The artifacts of a repository. *)
Definition artifacts_of m (repo : string) : list (string * ArtifactRecord) := all_records m repo "" shard_range.

(** The records of a repository can be read, and lie where their paths say. *)
Definition artifacts_ok m (repo : string) : Prop :=
  placed m repo ∧
  ∀ shard sk v ver, shard ∈ shard_range → m !! (TABLE_ARTIFACTS, artifact_shard_pk repo shard, sk) = Some (v, ver) →
    stored_dir sk ∧ sk ≠ "" ∧ ∃ record, from_slice (A:=ArtifactRecord) v = inr record.

Lemma artifacts_ok_ext m m' repo :
  (∀ pk sk, m' !! (TABLE_ARTIFACTS, pk, sk) = m !! (TABLE_ARTIFACTS, pk, sk)) → artifacts_ok m repo → artifacts_ok m' repo.
Proof.
  intros Ha [Hpl Hok]. split; [intros shard sk v Hs; rewrite Ha; by apply Hpl|].
  intros shard sk v ver Hs. rewrite Ha. by apply Hok.
Qed.

(** *** Statistics *)

Lemma fold_stats_tally l1 l2 : fold_stats (tally l1) (tally l2) = tally (l1 ++ l2).
Proof.
  unfold tally, fold_stats. rewrite !u64_add_wrap_wrap, length_app, sizes_app.
  assert (∀ f, (if decide (latest f l2 > latest f l1)%Z then latest f l2 else latest f l1) = latest f (l1 ++ l2)) as Hl.
  { intros f. transitivity (Z.max (latest f l1) (latest f l2)); [case_decide; lia|].
    assert (∀ l, UNIX_EPOCH ≤ latest f l)%Z as Hpos by (intros l; induction l as [|x l IH]; cbn [latest foldr]; [done|unfold latest in *; lia]).
    induction l1 as [|x l1 IH]; cbn [latest foldr app].
    - specialize (Hpos l2). unfold latest in *. lia.
    - fold (latest f l1) (latest f (l1 ++ l2)). lia. }
  rewrite !Hl. f_equal. f_equal. f_equal. f_equal. lia.
Qed.

Lemma tally_one sk r : fold_stats no_stats (stats_of_record r) = tally [(sk, r)].
Proof.
  unfold fold_stats, no_stats, stats_of_record, tally, latest. cbn [sizes foldr length snd].
  unfold u64_add. rewrite !Z.add_0_l, Z.add_0_r.
  f_equal; [f_equal; f_equal|]; case_decide; lia.
Qed.

Lemma fold_stats_record l sk r : fold_stats (tally l) (stats_of_record r) = tally (l ++ [(sk, r)]).
Proof.
  rewrite <-fold_stats_tally, <-(tally_one sk). unfold fold_stats, no_stats, stats_of_record, tally.
  unfold u64_add. rewrite !Z.add_0_l. unfold u64_wrap. rewrite !Z.add_mod_idemp_r by lia.
  assert (∀ f, UNIX_EPOCH ≤ latest f l)%Z as Hpos by (intros f; induction l as [|x l' IH]; cbn [latest foldr]; [done|unfold latest in *; lia]).
  pose proof (Hpos ar_updated_at). pose proof (Hpos ar_last_accessed_at).
  unfold UNIX_EPOCH in *. f_equal; [f_equal|]; repeat case_decide; lia.
Qed.

(** *** Ancestors *)

Lemma length_join l : Forall segment_ok l → length l ≤ String.length (join_slash l).
Proof.
  induction 1 as [|x l [Hx _] Hl IH]; [done|]. destruct x as [|a x]; [done|]. destruct l as [|y l]; cbn [join_slash].
  - cbn. lia.
  - rewrite !str_length_app. cbn [String.length length join_slash] in *. lia.
Qed.

Lemma ancestors_join fuel l x : Forall segment_ok (l ++ [x]) → length l < fuel →
  ∃ ls, ancestor_dirs_loop fuel (join_slash (l ++ [x])) = join_slash <$> ls ∧ NoDup ls ∧ ∀ k, k ∈ ls ↔ k `prefix_of` l.
Proof.
  revert x fuel. induction l as [|y l IH] using rev_ind; intros x fuel Hok Hf; (destruct fuel as [|fuel]; [lia|]);
    cbn [ancestor_dirs_loop]; pose proof (proj1 (Forall_app _ _ _) Hok) as [Hl [ [Hx Hs] _]%Forall_cons].
  - cbn [app join_slash]. rewrite (proj2 (rsplit_once_None SLASH x)) by done. exists [ [] ]. split_and!; [done|apply NoDup_singleton|].
    intros k. rewrite list_elem_of_singleton. split; [by intros ->|apply prefix_nil_inv].
  - rewrite join_slash_snoc by (by destruct l). rewrite (proj2 (rsplit_once_Some SLASH _ _ _)) by done.
    rewrite length_app in Hf. cbn in Hf. destruct (IH y fuel Hl ltac:(lia)) as (ls & -> & Hnd & Hin).
    exists ((l ++ [y]) :: ls). split_and!; [done| |].
    + constructor; [|done]. intros Hl'%Hin%prefix_length. rewrite length_app in Hl'. cbn in Hl'. lia.
    + intros k. rewrite elem_of_cons, Hin. split.
      * intros [->|Hk]; [done|]. by apply prefix_app_r.
      * intros [?|?]%prefix_snoc_inv; tauto.
Qed.

Lemma ancestor_dirs_spec p : stored_dir p → p ≠ "" →
  NoDup (ancestor_dirs p) ∧ (∀ d, d ∈ ancestor_dirs p ↔ stored_dir d ∧ inside d p).
Proof.
  intros [Hc Hn] Hne. destruct (canonical_cases p Hc) as [->|(l & x & Hok & ->)]; [done|].
  pose proof (length_join _ Hok) as Hlen. rewrite length_app in Hlen. cbn in Hlen.
  destruct (ancestors_join (S (String.length (join_slash (l ++ [x])))) l x Hok) as (ls & Hls & Hnd & Hin); [lia|].
  unfold ancestor_dirs. rewrite Hls. clear Hls.
  pose proof (proj1 (Forall_app _ _ _) Hok) as [Hl _].
  assert (∀ k, k ∈ ls → Forall segment_ok k) as Hk.
  { intros k Hk%Hin. destruct Hk as [r ->]. by apply Forall_app in Hl as [? _]. }
  split.
  - apply NoDup_fmap_2_strong; [|done]. intros k1 k2 H1'%Hk H2'%Hk Heq.
    by rewrite <-(segments_join k1), <-(segments_join k2), Heq by done.
  - intros d. rewrite list_elem_of_fmap. unfold inside. rewrite segments_join by done. split.
    + intros (k & -> & Hkin). pose proof (Hk k Hkin) as Hok'. apply Hin in Hkin. rewrite segments_join by done. split_and!.
      * split; [unfold canonical; by rewrite normalize_path_join, segments_join|].
        apply has_char_join; [done|]. apply (has_char_segments NUL) in Hn. rewrite segments_join in Hn by done.
        destruct Hkin as [r ->]. by do 2 apply Forall_app in Hn as [Hn _].
      * by apply prefix_app_r.
      * intros ->. apply prefix_length in Hkin. rewrite length_app in Hkin. cbn in Hkin. lia.
    + intros [ [Hd _] [Hpre Hneq] ]. exists (segments d). split.
      * rewrite <-normalize_path_join. by symmetry.
      * apply Hin. by apply prefix_snoc_inv in Hpre as [?|?].
Qed.

(** *** The statistics of a scan *)

Definition artifacts_below (d : string) (arts : list (string * ArtifactRecord)) : list (string * ArtifactRecord) :=
  filter (λ x, d ∈ ancestor_dirs x.1) arts.

Definition tally_opt (l : list (string * ArtifactRecord)) : option Stats :=
  match l with [] => None | _ => Some (tally l) end.

(** [ds] holds the statistics of the ancestors of [arts]. *)
Definition stats_for (ds : DirStats) (arts : list (string * ArtifactRecord)) : Prop :=
  ∀ d, ds !! d = tally_opt (artifacts_below d arts).

Lemma default_tally l : default no_stats (tally_opt l) = tally l.
Proof. by destruct l. Qed.

Lemma tally_opt_snoc l1 l2 : l2 ≠ [] → tally_opt (l1 ++ l2) = Some (tally (l1 ++ l2)).
Proof. by destruct l1, l2. Qed.

Lemma accumulate_list l ds d : NoDup l.*1 →
  (∀ s, (d, s) ∈ l → foldl accumulate ds l !! d = Some (fold_stats (default no_stats (ds !! d)) s)) ∧
  (d ∉ l.*1 → foldl accumulate ds l !! d = ds !! d).
Proof.
  revert ds. induction l as [|[d' s'] l IH]; intros ds Hnd; [split; [by intros s ?%elem_of_nil|done]|].
  cbn [fmap list_fmap fst] in Hnd. apply NoDup_cons in Hnd as [Hd' Hnd]. cbn [foldl].
  destruct (IH (accumulate ds (d', s')) Hnd) as [IH1 IH2]. split.
  - intros s [ [= <- <-]|Hin]%elem_of_cons.
    + rewrite IH2 by done. unfold accumulate. cbn [fst snd]. by rewrite lookup_insert_eq.
    + rewrite (IH1 s Hin). unfold accumulate. cbn [fst snd]. rewrite lookup_insert_ne; [done|].
      intros ->. apply Hd', list_elem_of_fmap. by exists (d, s).
  - cbn [fmap list_fmap fst]. intros [Hne Hni]%not_elem_of_cons. rewrite IH2 by done. unfold accumulate. cbn [fst snd].
    by rewrite lookup_insert_ne.
Qed.

Lemma stats_for_absorb ds arts p r : stored_dir p → p ≠ "" → stats_for ds arts →
  stats_for (foldl accumulate ds ((λ dir, (dir, stats_of_record r)) <$> ancestor_dirs p)) (arts ++ [(p, r)]).
Proof.
  intros Hp Hne Hds d. destruct (ancestor_dirs_spec p Hp Hne) as [Hnd _].
  assert (((λ dir, (dir, stats_of_record r)) <$> ancestor_dirs p).*1 = ancestor_dirs p) as Hfst.
  { rewrite <-list_fmap_compose. apply list_fmap_id. }
  destruct (accumulate_list ((λ dir, (dir, stats_of_record r)) <$> ancestor_dirs p) ds d) as [Hin Hout]; [by rewrite Hfst|].
  unfold artifacts_below. rewrite filter_app, filter_cons, filter_nil. cbn [fst]. case_decide as Hd.
  - rewrite (Hin (stats_of_record r)); [|apply list_elem_of_fmap; by exists d].
    rewrite Hds, default_tally, (fold_stats_record _ p), tally_opt_snoc; done.
  - rewrite Hout by by rewrite Hfst. by rewrite app_nil_r.
Qed.

Lemma stats_for_merge `{Scheduler} ds1 ds2 arts1 arts2 : stats_for ds1 arts1 → stats_for ds2 arts2 →
  stats_for (foldl accumulate ds1 (arrange 30 (map_to_list ds2))) (arts1 ++ arts2).
Proof.
  intros H1' H2' d. pose proof (arrange_perm _ 30 (map_to_list ds2)) as Hperm.
  destruct (accumulate_list (arrange 30 (map_to_list ds2)) ds1 d) as [Hin Hout].
  { rewrite Hperm. apply NoDup_fst_map_to_list. }
  unfold artifacts_below. rewrite filter_app. fold (artifacts_below d arts1) (artifacts_below d arts2).
  destruct (decide (artifacts_below d arts2 = [])) as [He|Hne].
  - rewrite Hout; [by rewrite He, app_nil_r, H1'|]. rewrite Hperm. intros ([d' s] & -> & Hx%elem_of_map_to_list)%list_elem_of_fmap.
    cbn [fst] in *. by rewrite H2', He in Hx.
  - rewrite (Hin (tally (artifacts_below d arts2))).
    + by rewrite H1', default_tally, fold_stats_tally, tally_opt_snoc.
    + rewrite Hperm. apply elem_of_map_to_list. rewrite H2'. by destruct (artifacts_below d arts2).
Qed.

(** What the scan of some artifacts has found. *)
Definition scanned (arts : list (string * ArtifactRecord)) (r : ShardScanResult) : Prop :=
  stats_for (dir_stats r) arts ∧ file_entries r ≡ₚ prod_map id tree_file_of <$> arts.

Lemma scanned_nil : scanned [] no_scan.
Proof. split; [|done]. intros d. apply lookup_empty. Qed.

Lemma scanned_merge `{Scheduler} arts1 arts2 r1 r2 : scanned arts1 r1 → scanned arts2 r2 → scanned (arts1 ++ arts2) (merge_shard r1 r2).
Proof.
  intros [Hs1 Hf1] [Hs2 Hf2]. split; [by apply stats_for_merge|]. cbn. by rewrite Hf1, Hf2, fmap_app.
Qed.

Definition readable_at (x : string * bytes) : Prop :=
  stored_dir x.1 ∧ x.1 ≠ "" ∧ ∃ record, from_slice (A:=ArtifactRecord) x.2 = inr record.

Lemma absorb_items_scanned items arts r : Forall readable_at items → scanned arts r →
  ∃ r', absorb_items items r = Ok r' ∧ scanned (arts ++ readable items) r'.
Proof.
  intros Hall. revert arts r. induction Hall as [|[sk v] items (Hp & Hne & record & Hr) Hall IH]; intros arts r Hs.
  - exists r. cbn. by rewrite app_nil_r.
  - cbn [absorb_items fst snd] in *. rewrite Hr. cbn [serde_result].
    destruct (IH (arts ++ [(sk, record)]) (absorb r sk record)) as (r' & Hr' & Hs').
    + destruct Hs as [Hst Hf]. unfold absorb. rewrite (proj1 Hp). split.
      * by apply stats_for_absorb.
      * cbn [file_entries]. by rewrite Hf, fmap_app.
    + exists r'. split; [exact Hr'|]. unfold readable in *. cbn [omap list_omap snd fst]. rewrite Hr.
      by rewrite <-(assoc_L (++)) in Hs'.
Qed.
(** *** The scans *)

(** Same store, and same environment apart from the progress that was sent. *)
Definition unchanged w w' : Prop := w_kv w' = w_kv w ∧ same_env w w'.

Lemma unchanged_trans w1 w2 w3 : unchanged w1 w2 → unchanged w2 w3 → unchanged w1 w3.
Proof. intros [H1' E1] [H2' E2]. split; [congruence|]. by eapply same_env_trans. Qed.

Lemma wp_tell_progress (b : bool) (f : TaskProgress → TaskProgress) w (Q : unit → world kvmap → Prop) :
  (∀ w', unchanged w w' → Q tt w') → wp (send_progress b f) w Q.
Proof.
  intros HQ. destruct (run_send_progress b f w) as (w' & Hrun & Hkv & Henv). eapply wp_intro; [exact Hrun|].
  by apply HQ.
Qed.

(** The fuel is enough for the scans of the repository. *)
Definition tree_scannable m (fuel : nat) (repo : string) : Prop :=
  ∀ shard, shard ∈ shard_range → length (part m TABLE_DIR_ENTRIES (tree_shard_pk repo shard)) < fuel.

Definition scannable m (fuel : nat) (repo : string) : Prop :=
  (∀ shard, shard ∈ shard_range → length (part m TABLE_ARTIFACTS (artifact_shard_pk repo shard)) < fuel) ∧
  tree_scannable m fuel repo.

Lemma scannable_size m fuel repo : base.size m < fuel → scannable m fuel repo.
Proof. intros Hf. split; intros shard _; (eapply Nat.le_lt_trans; [apply length_part_size|done]). Qed.

Lemma length_entries_part m (table pk lo : string) (hi : option string) :
  length (entries_between m table pk lo hi) ≤ length (part m table pk).
Proof. unfold entries_between. rewrite length_fmap. apply length_filter. Qed.

(** The entries of a shard are what [artifacts_ok] says. *)
Lemma shard_readable m repo shard : artifacts_ok m repo → shard ∈ shard_range →
  Forall readable_at (entries m TABLE_ARTIFACTS (artifact_shard_pk repo shard) "").
Proof.
  intros [_ Hok] Hs. apply Forall_forall. intros [sk v] (_ & ver & Hin)%elem_of_entries.
  by apply (Hok shard sk v ver).
Qed.

Lemma wp_scan_artifact_batch st batch arts w : Forall readable_at batch → scanned arts (sc_result st) →
  wp (scan_artifact_batch st batch) w (λ r w', ∃ st', r = Ok st' ∧ scanned (arts ++ readable batch) (sc_result st') ∧ unchanged w w').
Proof.
  intros Hb Hs. unfold scan_artifact_batch. destruct (absorb_items_scanned batch arts _ Hb Hs) as (r' & -> & Hs').
  cbn [try_]. case_decide; [|by apply wp_ret; eexists]. apply wp_bind, wp_call. cbn [handle fst snd].
  case_decide; [|by apply wp_ret; eexists]. apply wp_bind, wp_call. cbn [handle fst snd].
  apply wp_bind, wp_tell_progress. intros w' Hw'. apply wp_ret. by eexists.
Qed.

Lemma wp_scan_artifact_shard fuel repo shard w :
  artifacts_ok (w_kv w) repo → shard ∈ shard_range →
  length (part (w_kv w) TABLE_ARTIFACTS (artifact_shard_pk repo shard)) < fuel →
  wp (scan_artifact_shard fuel repo shard) w (λ r w', ∃ res, r = Ok res ∧
    scanned (shard_records (w_kv w) repo "" shard) res ∧ unchanged w w').
Proof.
  intros Hok Hs Hfuel. unfold scan_artifact_shard. set (pk := artifact_shard_pk repo shard).
  pose proof (shard_readable _ _ _ Hok Hs) as Hall. fold pk in Hall.
  apply wp_bind, wp_call. cbn [handle fst snd]. apply wp_bind_ok.
  apply wp_scan_batches with (I := λ rem st w', unchanged w w' ∧ ∃ dn,
    entries (w_kv w) TABLE_ARTIFACTS pk "" = dn ++ rem ∧ scanned (readable dn) (sc_result st)).
  - eapply Nat.le_lt_trans; [apply length_entries_part|done].
  - split; [done|]. exists []. split; [|apply scanned_nil]. by rewrite <-entries_from_start.
  - intros batch rem st w' (Hw & dn & Hdn & Hsc) _. rewrite Hdn in Hall.
    apply Forall_app in Hall as [_ [Hb _]%Forall_app].
    eapply wp_mono; [by apply wp_scan_artifact_batch|]. intros r w2 (st' & -> & Hsc' & Hw2). split.
    + intros sk _. destruct Hw2 as [-> _]. done.
    + split; [by eapply unchanged_trans|]. exists (dn ++ batch). by rewrite Hdn, <-(assoc_L (++)), readable_app.
  - intros st w' (Hw & dn & Hdn & Hsc). rewrite app_nil_r in Hdn. unfold shard_records. fold pk. rewrite Hdn.
    apply wp_bind. case_decide.
    + apply wp_tell_progress. intros w2 Hw2. apply wp_ret. eexists. split_and!; [done|done|by eapply unchanged_trans].
    + apply wp_ret, wp_ret. by eexists.
  - by intros ??? _ ?.
Qed.

Lemma wp_scan_tree_shard fuel repo shard w :
  length (part (w_kv w) TABLE_DIR_ENTRIES (tree_shard_pk repo shard)) < fuel →
  wp (scan_tree_shard fuel repo shard) w (λ r w',
    r = Ok ((λ '(sk, value), (tree_shard_pk repo shard, sk, value)) <$>
              entries (w_kv w) TABLE_DIR_ENTRIES (tree_shard_pk repo shard) "") ∧ w' = w).
Proof.
  intros Hfuel. unfold scan_tree_shard. set (pk := tree_shard_pk repo shard).
  apply wp_scan_batches with (I := λ rem l w', w' = w ∧ ∃ dn,
    entries (w_kv w) TABLE_DIR_ENTRIES pk "" = dn ++ rem ∧ l = (λ '(sk, value), (pk, sk, value)) <$> dn).
  - eapply Nat.le_lt_trans; [apply length_entries_part|done].
  - split; [done|]. exists []. split; [|done]. by rewrite <-entries_from_start.
  - intros batch rem l w' (-> & dn & Hdn & ->) _. apply wp_ret. split; [done|]. split; [done|].
    exists (dn ++ batch). by rewrite Hdn, <-(assoc_L (++)), fmap_app.
  - intros l w' (-> & dn & Hdn & ->). rewrite app_nil_r in Hdn. by rewrite Hdn.
  - by intros ??? _ ?.
Qed.

Lemma wp_scan_artifacts `{Scheduler} schedule fuel repo w :
  artifacts_ok (w_kv w) repo → Forall (.∈ shard_range) schedule → scannable (w_kv w) fuel repo →
  wp (scan_artifacts schedule fuel repo) w
    (λ r w', ∃ res, r = Ok res ∧ scanned (all_records (w_kv w) repo "" schedule) res ∧ unchanged w w').
Proof.
  intros Hok Hs Hfuel. apply wp_try_fold with (I := λ rest r w', unchanged w w' ∧ ∃ dn, schedule = dn ++ rest ∧
    scanned (all_records (w_kv w) repo "" dn) r).
  - split; [done|]. exists []. split; [done|]. apply scanned_nil.
  - intros shard rest r w' (Hw & dn & Hdn & Hsc). rewrite Hdn in Hs. apply Forall_app in Hs as [_ [Hsh _]%Forall_cons].
    apply wp_bind_ok. eapply wp_mono; [apply wp_scan_artifact_shard|].
    + by rewrite (proj1 Hw).
    + done.
    + rewrite (proj1 Hw). by apply Hfuel.
    + intros r' w2 (res & -> & Hsc' & Hw2). apply wp_ret. split; [by eapply unchanged_trans|].
      exists (dn ++ [shard]). rewrite <-(assoc_L (++)). split; [done|]. unfold all_records.
      rewrite fmap_app, concat_app. cbn [fmap list_fmap concat]. rewrite app_nil_r. rewrite (proj1 Hw) in Hsc'.
      by apply scanned_merge.
  - intros r w' (Hw & dn & Hdn & Hsc). rewrite app_nil_r in Hdn. subst dn. by eexists.
Qed.

Lemma wp_scan_trees schedule fuel repo w :
  Forall (.∈ shard_range) schedule → tree_scannable (w_kv w) fuel repo →
  wp (try_for schedule (scan_tree_shard fuel repo)) w (λ r w',
    r = Ok ((λ shard, (λ '(sk, value), (tree_shard_pk repo shard, sk, value)) <$>
              entries (w_kv w) TABLE_DIR_ENTRIES (tree_shard_pk repo shard) "") <$> schedule) ∧ w' = w).
Proof.
  intros Hs Hfuel. apply wp_try_for with (I := λ rest acc w', w' = w ∧ ∃ dn, schedule = dn ++ rest ∧
    acc = (λ shard, (λ '(sk, value), (tree_shard_pk repo shard, sk, value)) <$>
              entries (w_kv w) TABLE_DIR_ENTRIES (tree_shard_pk repo shard) "") <$> dn).
  - split; [done|]. by exists [].
  - intros shard rest acc w' (-> & dn & Hdn & ->). rewrite Hdn in Hs. apply Forall_app in Hs as [_ [Hsh _]%Forall_cons].
    eapply wp_mono; [by apply wp_scan_tree_shard, Hfuel|].
    intros r w2 [-> ->]. split; [done|]. exists (dn ++ [shard]). by rewrite <-(assoc_L (++)), fmap_app.
  - intros acc w' (-> & dn & Hdn & ->). rewrite app_nil_r in Hdn. by subst dn.
Qed.
(** *** Expected and existing entries *)

Definition serialises (te : TreeEntry) : Prop := ∃ v, to_vec te = inr v.

Lemma insert_expected_spec repo l M : Forall serialises l.*2 → NoDup (tree_pk_sk repo <$> l.*1) →
  ∃ M', insert_expected repo l M = Ok M' ∧
    (∀ p te, (p, te) ∈ l → ∃ v, to_vec te = inr v ∧ M' !! tree_pk_sk repo p = Some v) ∧
    (∀ k, k ∉ tree_pk_sk repo <$> l.*1 → M' !! k = M !! k).
Proof.
  revert M. induction l as [|[p te] l IH]; intros M Hs Hnd; cbn [fmap list_fmap fst snd insert_expected] in *.
  - exists M. split_and!; [done| |done]. by intros ?? ?%elem_of_nil.
  - apply Forall_cons in Hs as [ [v Hv] Hs]. apply NoDup_cons in Hnd as [Hni Hnd]. rewrite Hv. cbn [serde_result].
    destruct (IH (<[tree_pk_sk repo p := v]> M) Hs Hnd) as (M' & HM & Hin & Hout). exists M'. split_and!; [exact HM| |].
    + intros p' te' [ [= -> ->]|Hl]%elem_of_cons; [|by apply Hin]. exists v. split; [done|].
      rewrite Hout by done. apply lookup_insert_eq.
    + intros k [Hne Hk]%not_elem_of_cons. rewrite Hout by done. by apply lookup_insert_ne.
Qed.

Lemma tree_pk_sk_inj repo p q : stored_dir p → stored_dir q → tree_pk_sk repo p = tree_pk_sk repo q → p = q.
Proof.
  intros Hp Hq Heq. apply (dir_key_inj repo p repo q Hp Hq). unfold dir_key, tree_pk_sk in *.
  by injection Heq as -> ->.
Qed.

Lemma NoDup_tree_keys repo l : Forall stored_dir l → NoDup l → NoDup (tree_pk_sk repo <$> l).
Proof.
  intros Hl Hnd. apply NoDup_fmap_2_strong; [|done]. rewrite Forall_forall in Hl.
  intros p q Hp Hq. by apply tree_pk_sk_inj; apply Hl.
Qed.

(** The entries that a rebuild serialises: the files, and the directories of
    what is below them. *)
Definition needed (arts : list (string * ArtifactRecord)) (te : TreeEntry) : Prop :=
  (∃ x, x ∈ arts ∧ te = tree_file_of x.2) ∨
  (∃ d, filter (λ x, inside d x.1) arts ≠ [] ∧ te = (dir_tree_entry (d, tally (filter (λ x, inside d x.1) arts))).2).

Definition paths_ok (arts : list (string * ArtifactRecord)) : Prop :=
  Forall (λ x, stored_dir x.1 ∧ x.1 ≠ "") arts ∧ NoDup arts.*1.

Lemma artifacts_below_inside arts d : paths_ok arts → stored_dir d →
  artifacts_below d arts = filter (λ x, inside d x.1) arts.
Proof.
  intros [Hp _] Hd. apply filter_ext_in. intros x Hx. rewrite Forall_forall in Hp. destruct (Hp x Hx) as [Hs Hne].
  destruct (ancestor_dirs_spec x.1 Hs Hne) as [_ Hiff]. rewrite Hiff. tauto.
Qed.

Lemma artifacts_below_stored arts d : paths_ok arts → artifacts_below d arts ≠ [] → stored_dir d.
Proof.
  intros [Hp _] Hne. destruct (artifacts_below d arts) as [|x l] eqn:He; [done|].
  assert (x ∈ artifacts_below d arts) as Hx by (rewrite He; left).
  apply list_elem_of_filter in Hx as [Hd Hx]. rewrite Forall_forall in Hp. destruct (Hp x Hx) as [Hs Hn].
  by apply (ancestor_dirs_spec x.1 Hs Hn) in Hd as [? _].
Qed.

Lemma stats_elem `{Scheduler} ds arts site d s : stats_for ds arts →
  (d, s) ∈ arrange site (map_to_list ds) ↔ artifacts_below d arts ≠ [] ∧ s = tally (artifacts_below d arts).
Proof.
  intros Hds. rewrite arrange_perm, elem_of_map_to_list, Hds. unfold tally_opt.
  destruct (artifacts_below d arts) as [|x l]; [naive_solver|]. split; [by intros [= <-]|by intros [_ ->] ].
Qed.

(** The expected entries are those of the tree that the artifacts determine. *)
Lemma expected_spec `{Scheduler} repo arts r : scanned arts r → paths_ok arts → (∀ te, needed arts te → serialises te) →
  ∃ M, expected_entries repo r = Ok M ∧
    (∀ p, stored_dir p → match tree_at arts p with
       | Some te => ∃ v, to_vec te = inr v ∧ M !! tree_pk_sk repo p = Some v
       | None => M !! tree_pk_sk repo p = None
       end) ∧
    (∀ k, is_Some (M !! k) → ∃ p, stored_dir p ∧ k = tree_pk_sk repo p).
Proof.
  intros [Hst Hfiles] Hok Hser. unfold expected_entries.
  set (dirs := dir_tree_entry <$> arrange 31 (map_to_list (dir_stats r))).
  assert (dirs.*1 = (arrange 31 (map_to_list (dir_stats r))).*1) as Hdirs1.
  { unfold dirs. rewrite <-list_fmap_compose. apply list_fmap_ext. by intros ? [? [ [ [? ?] ?] ?] ] _. }
  assert (∀ d, d ∈ dirs.*1 ↔ artifacts_below d arts ≠ []) as Hdin.
  { intros d. rewrite Hdirs1, list_elem_of_fmap. split.
    - intros ([d' s] & -> & Hx). by apply (stats_elem _ arts) in Hx as [? _].
    - intros Hne. exists (d, tally (artifacts_below d arts)). split; [done|]. by apply (stats_elem _ arts). }
  destruct (insert_expected_spec repo dirs ∅) as (M1 & HM1 & Hin1 & Hout1).
  { apply Forall_fmap, Forall_fmap, Forall_forall. intros [d s] Hd. apply (stats_elem _ arts) in Hd as [Hne ->]; [|done].
    pose proof (artifacts_below_stored arts d Hok Hne) as Hsd. rewrite (artifacts_below_inside arts d Hok Hsd) in *.
    apply Hser. right. by exists d. }
  { apply NoDup_tree_keys.
    - apply Forall_forall. intros d Hd%Hdin. by apply (artifacts_below_stored arts).
    - rewrite Hdirs1, arrange_perm. apply NoDup_fst_map_to_list. }
  rewrite HM1. destruct Hok as [Hpaths Hnd]. assert ((file_entries r).*1 ≡ₚ arts.*1) as Hf1.
  { rewrite Hfiles, <-list_fmap_compose. done. }
  assert (Forall stored_dir arts.*1) as Hps by (apply Forall_fmap; eapply Forall_impl; [exact Hpaths|]; by intros ? [? _]).
  destruct (insert_expected_spec repo (file_entries r) M1) as (M2 & HM2 & Hin2 & Hout2).
  { rewrite Hfiles, <-list_fmap_compose. apply Forall_fmap, Forall_forall. intros x Hx. apply Hser. left. by exists x. }
  { rewrite Hf1. by apply NoDup_tree_keys. }
  assert (∀ p l, stored_dir p → Forall stored_dir l → p ∉ l → tree_pk_sk repo p ∉ tree_pk_sk repo <$> l) as Hni.
  { intros p l Hp Hl Hpl (q & Heq & Hq)%list_elem_of_fmap. rewrite Forall_forall in Hl.
    apply tree_pk_sk_inj in Heq as ->; [done|done|by apply Hl]. }
  assert (Forall stored_dir dirs.*1) as Hds.
  { apply Forall_forall. intros d Hd%Hdin. by apply (artifacts_below_stored arts). }
  exists M2. split; [exact HM2|]. split.
  - intros p Hp. unfold tree_at. destruct (list_find (λ x, x.1 = p) arts) as [ [i [p' rec] ]|] eqn:Hfind.
    + apply list_find_Some in Hfind as (Hi & Heq & _). cbn in Heq. subst p'. apply Hin2. rewrite Hfiles.
      apply list_elem_of_fmap. exists (p, rec). split; [done|]. by eapply list_elem_of_lookup_2.
    + apply list_find_None in Hfind. rewrite Hout2; cycle 1.
      { rewrite Hf1. apply Hni; [done..|]. intros (x & -> & Hx)%list_elem_of_fmap. rewrite Forall_forall in Hfind.
        by apply (Hfind x Hx). }
      assert (artifacts_below p arts = filter (λ x, inside p x.1) arts) as Hb by by apply artifacts_below_inside.
      rewrite <-Hb. destruct (artifacts_below p arts) as [|x l] eqn:He.
      * rewrite Hout1; [apply lookup_empty|]. apply Hni; [done..|]. rewrite Hdin. by intros ?.
      * apply Hin1. apply list_elem_of_fmap. exists (p, tally (x :: l)). split; [done|].
        apply (stats_elem _ arts); [done|]. by rewrite He.
  - intros k [v Hv]. destruct (decide (k ∈ tree_pk_sk repo <$> (file_entries r).*1)) as [Hk|Hk].
    + rewrite Hf1 in Hk. apply list_elem_of_fmap in Hk as (p & -> & Hp). exists p. split; [|done].
      rewrite Forall_forall in Hps. by apply Hps.
    + rewrite Hout2 in Hv by done. destruct (decide (k ∈ tree_pk_sk repo <$> dirs.*1)) as [Hk1|Hk1].
      * apply list_elem_of_fmap in Hk1 as (p & -> & Hp). exists p. split; [|done]. rewrite Forall_forall in Hds. by apply Hds.
      * rewrite Hout1, lookup_empty in Hv by done. done.
Qed.

(** *** The differences *)

Lemma insert_all_lookup (l : list (string * string * bytes)) (M : KeyMap) k v :
  (∀ k v1 v2, (k, v1) ∈ l → (k, v2) ∈ l → v1 = v2) →
  (foldl (λ (existing : KeyMap) '(pk, sk, value), <[(pk, sk) := value]> existing) M l !! k = Some v) ↔
    ((k, v) ∈ l ∨ (k ∉ l.*1) ∧ M !! k = Some v).
Proof.
  revert M. induction l as [|[ [pk sk] v0] l IH]; intros M Hf; cbn [foldl fmap list_fmap fst].
  { rewrite elem_of_nil. pose proof (not_elem_of_nil k). tauto. }
  rewrite IH by (intros k' v1 v2 H1' H2'; apply (Hf k'); by right). rewrite !elem_of_cons.
  destruct (decide (k = (pk, sk))) as [->|Hne].
  - rewrite lookup_insert_eq. split.
    + intros [?|[Hni [= ->] ] ]; [tauto|]. left. by left.
    + intros [ [ [= ->]|?]|[? _] ]; [|tauto|tauto]. destruct (decide ((pk, sk) ∈ l.*1)) as [Hin|]; [left|right; tauto].
      apply list_elem_of_fmap in Hin as ([k' v'] & Heq & Hin). cbn in Heq. subst k'.
      by rewrite (Hf (pk, sk) v0 v') by (by left || by right).
  - rewrite lookup_insert_ne by done. split.
    + intros [?|[? ?] ]; [tauto|]. right. tauto.
    + intros [ [ [= -> ->]|?]|[? ?] ]; tauto.
Qed.

(** The partitions of the tree of a repository, as far as they are scanned. *)
Definition in_tree (repo : string) (schedule : list N) (pk : string) : Prop :=
  ∃ shard, shard ∈ schedule ∧ pk = tree_shard_pk repo shard.

Lemma existing_spec m repo schedule pk sk :
  existing_entries ((λ shard, (λ '(sk, value), (tree_shard_pk repo shard, sk, value)) <$>
      entries m TABLE_DIR_ENTRIES (tree_shard_pk repo shard) "") <$> schedule) !! (pk, sk) =
    if decide (pk ∈ tree_shard_pk repo <$> schedule) then fst <$> m !! (TABLE_DIR_ENTRIES, pk, sk) else None.
Proof.
  assert (∀ pk sk v, (pk, sk, v) ∈ concat ((λ shard, (λ '(sk, value), (tree_shard_pk repo shard, sk, value)) <$>
      entries m TABLE_DIR_ENTRIES (tree_shard_pk repo shard) "") <$> schedule) ↔
    pk ∈ tree_shard_pk repo <$> schedule ∧ ∃ ver, m !! (TABLE_DIR_ENTRIES, pk, sk) = Some (v, ver)) as Hl.
  { clear. intros pk sk v. rewrite list_elem_of_In, in_concat. setoid_rewrite <-list_elem_of_In. split.
    - intros (l & (shard & -> & Hs)%list_elem_of_fmap & Hx). apply list_elem_of_fmap in Hx as ([sk' v'] & [= -> -> ->] & Hx).
      apply elem_of_entries in Hx as [_ Hm]. split; [|done]. apply list_elem_of_fmap. by exists shard.
    - intros ((shard & -> & Hs)%list_elem_of_fmap & ver & Hm). eexists. split; [apply list_elem_of_fmap; by exists shard|].
      apply list_elem_of_fmap. exists (sk, v). split; [done|]. apply elem_of_entries. split; [apply starts_with_nil|by exists ver]. }
  apply option_eq. intros v. unfold existing_entries. rewrite insert_all_lookup.
  - rewrite Hl, lookup_empty. case_decide; [|naive_solver].
    destruct (m !! (TABLE_DIR_ENTRIES, pk, sk)) as [ [v' ver]|]; naive_solver.
  - intros [pk' sk'] v1 v2. rewrite !Hl. intros [_ [? Hm1] ] [_ [? Hm2] ]. congruence.
Qed.
(** The writes of the batches, as one. *)
Lemma put_all_lookup t (l : list (string * string * bytes)) m : NoDup l.*1 →
  (∀ k v, (k, v) ∈ l → fst <$> spec_put_batch t l m !! (t, k.1, k.2) = Some v) ∧
  (∀ k, ¬ (k.1.1 = t ∧ (k.1.2, k.2) ∈ l.*1) → spec_put_batch t l m !! k = m !! k).
Proof.
  revert m. induction l as [|[ [pk sk] v0] l IH]; intros m Hnd; [split; [by intros ?? ?%elem_of_nil|done]|].
  cbn [fmap list_fmap fst] in Hnd. apply NoDup_cons in Hnd as [Hni Hnd].
  change (spec_put_batch t ((pk, sk, v0) :: l) m) with (spec_put_batch t l (spec_put (t, pk, sk) v0 m)).
  destruct (IH (spec_put (t, pk, sk) v0 m) Hnd) as [IH1 IH2]. unfold spec_put in IH2 at 2. split.
  - intros k v [ [= -> ->]|Hin]%elem_of_cons; [|by apply IH1]. cbn [fst snd]. rewrite IH2 by (intros [_ ?]; done).
    by rewrite lookup_insert_eq.
  - intros k Hk. cbn [fmap list_fmap fst] in Hk. rewrite IH2.
    + apply lookup_insert_ne. intros <-. apply Hk. split; [done|left].
    + intros [? ?]. apply Hk. split; [done|by right].
Qed.

Lemma wp_delete_stale l n w :
  wp (try_fold (chunks BATCH_SIZE l) delete_stale (u64_wrap n)) w (λ r w',
    r = Ok (u64_wrap (n + Z.of_nat (length l))) ∧ same_env w w' ∧
    w_kv w' = foldl (λ m '(pk, sk), delete (TABLE_DIR_ENTRIES, pk, sk) m) (w_kv w) l).
Proof.
  assert (0 < BATCH_SIZE) as Hb by (unfold BATCH_SIZE; lia).
  apply wp_try_fold with (I := λ rest u w', ∃ dn, l = dn ++ concat rest ∧ u = u64_wrap (n + Z.of_nat (length dn)) ∧
    same_env w w' ∧ w_kv w' = foldl (λ m '(pk, sk), delete (TABLE_DIR_ENTRIES, pk, sk) m) (w_kv w) dn).
  - exists []. rewrite concat_chunks by done. cbn [length]. by rewrite Z.add_0_r.
  - intros chunk rest u w' (dn & Hl & -> & Henv & Hkv). cbn [concat] in Hl. unfold delete_stale.
    apply wp_bind_ok, wp_kv. cbn [spec_store]. rewrite spec_delete_batch_eq. cbn [fst snd].
    apply wp_bind, wp_tell_progress. intros w2 [Hkv2 Henv2]. apply wp_ret. exists (dn ++ chunk).
    rewrite <-(assoc_L (++)). split_and!; [done| | |].
    + rewrite u64_add_wrap, length_app. f_equal. lia.
    + by eapply same_env_trans; [|exact Henv2].
    + rewrite Hkv2, foldl_app, <-Hkv. done.
  - intros u w' (dn & Hl & -> & Henv & Hkv). cbn in Hl. rewrite app_nil_r in Hl. by subst dn.
Qed.

Lemma wp_write_changed l n w :
  wp (try_fold (chunks BATCH_SIZE l) write_changed (u64_wrap n)) w (λ r w',
    r = Ok (u64_wrap (n + Z.of_nat (length l))) ∧ same_env w w' ∧
    w_kv w' = spec_put_batch TABLE_DIR_ENTRIES l (w_kv w)).
Proof.
  assert (0 < BATCH_SIZE) as Hb by (unfold BATCH_SIZE; lia).
  apply wp_try_fold with (I := λ rest u w', ∃ dn, l = dn ++ concat rest ∧ u = u64_wrap (n + Z.of_nat (length dn)) ∧
    same_env w w' ∧ w_kv w' = spec_put_batch TABLE_DIR_ENTRIES dn (w_kv w)).
  - exists []. rewrite concat_chunks by done. cbn [length]. by rewrite Z.add_0_r.
  - intros chunk rest u w' (dn & Hl & -> & Henv & Hkv). cbn [concat] in Hl. unfold write_changed.
    apply wp_bind_ok, wp_kv. cbn [spec_store fst snd].
    apply wp_bind, wp_tell_progress. intros w2 [Hkv2 Henv2]. apply wp_ret. exists (dn ++ chunk).
    rewrite <-(assoc_L (++)). split_and!; [done| | |].
    + rewrite u64_add_wrap, length_app. f_equal. lia.
    + by eapply same_env_trans; [|exact Henv2].
    + rewrite Hkv2, spec_put_batch_app, <-Hkv. done.
  - intros u w' (dn & Hl & -> & Henv & Hkv). cbn in Hl. rewrite app_nil_r in Hl. by subst dn.
Qed.

Lemma elem_of_stale `{Scheduler} (existing expected : KeyMap) k :
  k ∈ stale_keys existing expected ↔ is_Some (existing !! k) ∧ expected !! k = None.
Proof.
  unfold stale_keys. rewrite list_elem_of_filter, arrange_perm, list_elem_of_fmap. split.
  - intros [? ([k' v] & -> & Hx%elem_of_map_to_list)]. by eauto.
  - intros [ [v Hv] ?]. split; [done|]. exists (k, v). split; [done|]. by apply elem_of_map_to_list.
Qed.

Lemma elem_of_changed `{Scheduler} (existing expected : KeyMap) k v :
  (k, v) ∈ changed_entries existing expected ↔ expected !! k = Some v ∧ existing !! k ≠ Some v.
Proof.
  unfold changed_entries. rewrite list_elem_of_filter, arrange_perm, elem_of_map_to_list. tauto.
Qed.

Lemma NoDup_changed `{Scheduler} (existing expected : KeyMap) : NoDup (changed_entries existing expected).*1.
Proof.
  unfold changed_entries. assert (NoDup (arrange 33 (map_to_list expected)).*1) as Hnd.
  { rewrite arrange_perm. apply NoDup_fst_map_to_list. }
  revert Hnd. generalize (arrange 33 (map_to_list expected)). intros l. induction l as [|[k v] l IH]; [done|].
  cbn [fmap list_fmap fst]. intros [Hni Hnd]%NoDup_cons. rewrite filter_cons. case_decide; [|by apply IH].
  cbn [fmap list_fmap fst]. constructor; [|by apply IH]. intros (x & -> & [_ Hx]%list_elem_of_filter)%list_elem_of_fmap.
  apply Hni, list_elem_of_fmap. by exists x.
Qed.

(** The stored entries become the expected ones; those that are as expected
    are not written. *)
Lemma apply_differences `{Scheduler} (existing expected : KeyMap) m :
  let m' := spec_put_batch TABLE_DIR_ENTRIES (changed_entries existing expected)
    (foldl (λ m '(pk, sk), delete (TABLE_DIR_ENTRIES, pk, sk) m) m (stale_keys existing expected)) in
  (∀ k v, expected !! k = Some v → existing !! k ≠ Some v → fst <$> m' !! (TABLE_DIR_ENTRIES, k.1, k.2) = Some v) ∧
  (∀ k v, expected !! k = Some v → existing !! k = Some v → m' !! (TABLE_DIR_ENTRIES, k.1, k.2) = m !! (TABLE_DIR_ENTRIES, k.1, k.2)) ∧
  (∀ k, expected !! k = None → is_Some (existing !! k) → m' !! (TABLE_DIR_ENTRIES, k.1, k.2) = None) ∧
  (∀ k, (k.1.1 = TABLE_DIR_ENTRIES → expected !! (k.1.2, k.2) = None ∧ existing !! (k.1.2, k.2) = None) → m' !! k = m !! k).
Proof.
  intros m'. pose proof (NoDup_changed existing expected) as Hnd.
  destruct (put_all_lookup TABLE_DIR_ENTRIES (changed_entries existing expected)
    (foldl (λ m '(pk, sk), delete (TABLE_DIR_ENTRIES, pk, sk) m) m (stale_keys existing expected)) Hnd) as [Hin Hout].
  fold m' in Hin, Hout.
  assert (∀ k, k ∈ (changed_entries existing expected).*1 ↔ ∃ v, expected !! k = Some v ∧ existing !! k ≠ Some v) as Hch.
  { intros k. rewrite list_elem_of_fmap. split.
    - intros ([k' v] & -> & Hx%elem_of_changed). by exists v.
    - intros (v & Hx). exists (k, v). split; [done|]. by apply elem_of_changed. }
  split_and!.
  - intros k v He Hx. apply Hin. by apply elem_of_changed.
  - intros [pk sk] v He Hx. cbn [fst snd]. rewrite Hout; cbn [fst snd].
    + rewrite delete_all_lookup, decide_False; [done|]. rewrite elem_of_stale. intros (_ & _ & ?). congruence.
    + rewrite Hch. intros (_ & v' & ? & ?). congruence.
  - intros [pk sk] He Hx. cbn [fst snd]. rewrite Hout; cbn [fst snd].
    + rewrite delete_all_lookup, decide_True; [done|]. by rewrite elem_of_stale.
    + rewrite Hch. intros (_ & v' & ? & ?). congruence.
  - intros [ [t pk] sk] Hk. cbn [fst snd] in Hk. rewrite Hout; cbn [fst snd].
    + rewrite delete_all_lookup, decide_False; [done|]. rewrite elem_of_stale. intros (-> & [? ?] & ?).
      destruct (Hk eq_refl). congruence.
    + rewrite Hch. intros (-> & v' & ? & ?). destruct (Hk eq_refl). congruence.
Qed.
(** *** Order does not matter *)

Lemma tally_perm l1 l2 : l1 ≡ₚ l2 → tally l1 = tally l2.
Proof.
  intros Hp. unfold tally. rewrite (Permutation_length Hp).
  assert (sizes l1 = sizes l2) as ->.
  { unfold sizes. induction Hp; cbn [foldr]; [done|congruence|lia|congruence]. }
  assert (∀ f, latest f l1 = latest f l2) as Hl; [|by rewrite !Hl].
  intros f. unfold latest. induction Hp; cbn [foldr]; [done|congruence|lia|congruence].
Qed.

Lemma tally_opt_perm l1 l2 : l1 ≡ₚ l2 → tally_opt l1 = tally_opt l2.
Proof.
  intros Hp. pose proof (tally_perm _ _ Hp) as Ht.
  destruct l1, l2; [done|by apply Permutation_nil_cons in Hp|by symmetry in Hp; apply Permutation_nil_cons in Hp|].
  unfold tally_opt. by rewrite Ht.
Qed.

Lemma tree_at_perm l1 l2 p : NoDup l1.*1 → l1 ≡ₚ l2 → tree_at l1 p = tree_at l2 p.
Proof.
  intros Hnd Hp. unfold tree_at.
  assert (∀ i j x y, list_find (λ x, x.1 = p) l1 = Some (i, x) → list_find (λ x, x.1 = p) l2 = Some (j, y) → x = y) as Hsame.
  { intros i j [p1 x] [p2 y] (Hi & <- & _)%list_find_Some (Hj & Heq & _)%list_find_Some. cbn in Heq. subst p2.
    apply list_elem_of_lookup_2 in Hi, Hj. rewrite <-Hp in Hj. f_equal. cbn [fst] in *.
    apply (elem_of_list_to_map (M:=gmap string) l1 p1) in Hi, Hj; [congruence|done..]. }
  assert (list_find (λ x, x.1 = p) l1 = None ↔ list_find (λ x, x.1 = p) l2 = None) as Hnone.
  { by rewrite !list_find_None, Hp. }
  destruct (list_find (λ x, x.1 = p) l1) as [ [i [p1 r1] ]|] eqn:H1', (list_find (λ x, x.1 = p) l2) as [ [j [p2 r2] ]|] eqn:H2'.
  - by injection (Hsame i j _ _ eq_refl eq_refl) as -> ->.
  - pose proof (proj2 Hnone eq_refl). done.
  - pose proof (proj1 Hnone eq_refl). done.
  - pose proof (filter_Permutation (λ x : string * ArtifactRecord, inside p x.1) _ _ Hp) as Hf.
    pose proof (tally_perm _ _ Hf) as Ht. revert Hf Ht.
    generalize (filter (λ x : string * ArtifactRecord, inside p x.1) l1) (filter (λ x : string * ArtifactRecord, inside p x.1) l2).
    intros [|x1 k1] [|x2 k2] Hf Ht; [done|by apply Permutation_nil_cons in Hf|by symmetry in Hf; apply Permutation_nil_cons in Hf|].
    by rewrite Ht.
Qed.

Lemma needed_perm l1 l2 te : l1 ≡ₚ l2 → needed l1 te → needed l2 te.
Proof.
  intros Hp [ (x & Hx & ->)|(d & Hne & ->)]; [left; exists x; by rewrite <-Hp|right; exists d].
  pose proof (filter_Permutation (λ x : string * ArtifactRecord, inside d x.1) _ _ Hp) as Hf. split.
  - intros He. rewrite He in Hf. symmetry in Hf. by apply Permutation_nil in Hf.
  - by rewrite (tally_perm _ _ Hf).
Qed.

Lemma all_records_perm m repo p schedule : schedule ≡ₚ shard_range →
  all_records m repo p schedule ≡ₚ all_records m repo p shard_range.
Proof.
  unfold all_records. generalize shard_range. intros l. induction 1 as [|x l1 l2 _ IH|x y l1|l1 l2 l3 _ IH1 _ IH2]; cbn.
  - done.
  - by rewrite IH.
  - by rewrite !(assoc_L (++)), (Permutation_app_comm (shard_records m repo p y)).
  - by rewrite IH1.
Qed.

(** *** Artifacts *)

Lemma all_records_readable m repo p schedule :
  all_records m repo p schedule = readable (concat ((λ shard, entries m TABLE_ARTIFACTS (artifact_shard_pk repo shard) p) <$> schedule)).
Proof.
  induction schedule as [|s l IH]; [done|]. unfold all_records in *. cbn [fmap list_fmap concat]. by rewrite readable_app, IH.
Qed.

Lemma readable_keys_sublist l : (readable l).*1 `sublist_of` l.*1.
Proof.
  induction l as [|[k v] l IH]; [done|]. unfold readable in *. cbn [omap list_omap fst snd fmap list_fmap].
  destruct (from_slice v); [by apply sublist_cons|by apply sublist_skip].
Qed.

Lemma artifacts_paths_ok m repo : artifacts_ok m repo → paths_ok (artifacts_of m repo).
Proof.
  intros [Hpl Hok]. unfold artifacts_of. rewrite all_records_readable. split.
  - apply Forall_forall. intros [sk r] ([k v] & Hin & Heq)%list_elem_of_omap. cbn in Heq.
    destruct (from_slice v) as [|r'] eqn:Hv; [done|]. injection Heq as <- <-.
    apply list_elem_of_In, in_concat in Hin as (l & Hl%list_elem_of_In & Hx%list_elem_of_In).
    apply list_elem_of_fmap in Hl as (shard & -> & Hs). apply elem_of_entries in Hx as (_ & ver & Hm).
    destruct (Hok shard k v ver Hs Hm) as (? & ? & _). done.
  - eapply sublist_NoDup; [by apply NoDup_repo_entries|apply readable_keys_sublist].
Qed.

Lemma inside_root p : stored_dir p → p ≠ "" → inside "" p.
Proof.
  intros [Hc _] Hne. split; [apply prefix_nil|]. intros Hs. apply Hne. rewrite <-Hc, normalize_path_join.
  change (segments "") with (@nil string) in Hs. by rewrite <-Hs.
Qed.

Lemma root_stats ds arts : stats_for ds arts → paths_ok arts →
  match ds !! "" with Some (count, bytes, _, _) => (count, bytes) | None => (0%Z, 0%Z) end =
    (u64_wrap (Z.of_nat (length arts)), u64_wrap (sizes arts)).
Proof.
  intros Hds Hok. rewrite Hds, artifacts_below_inside; [|done|by split].
  assert (filter (λ x, inside "" x.1) arts = arts) as ->; [|by destruct arts].
  apply filter_all. destruct Hok as [Hp _]. eapply Forall_impl; [exact Hp|]. intros x [? ?]. by apply inside_root.
Qed.

(** What a scan finds, whatever the order of the shards. *)
Lemma wp_scan_artifacts_all `{Scheduler} (schedule : list N) (fuel : nat) (repo : string) w :
  artifacts_ok (w_kv w) repo → schedule ≡ₚ shard_range → scannable (w_kv w) fuel repo →
  wp (scan_artifacts schedule fuel repo) w (λ r w', ∃ res, r = Ok res ∧
    scanned (artifacts_of (w_kv w) repo) res ∧ unchanged w w').
Proof.
  intros Hok Hs Hfuel. eapply wp_mono.
  { apply wp_scan_artifacts; [done| |done]. apply Forall_forall. intros shard. by rewrite Hs. }
  intros r w1 (res & -> & [Hst Hf] & Hw1). exists res. split_and!; [done| |done].
  pose proof (all_records_perm (w_kv w) repo "" _ Hs) as Hperm. fold (artifacts_of (w_kv w) repo) in Hperm. split.
  - intros d. rewrite Hst. by apply tally_opt_perm, filter_Permutation.
  - by rewrite Hf, Hperm.
Qed.

(** ** The rebuild *)

(** The tree partitions of the repository hold the tree that its artifacts
    determine.  Entries that were right keep their version, and nothing else
    is touched. *)
Definition tree_rebuilt_of (arts : list (string * ArtifactRecord)) m (repo : string) m' : Prop :=
  (∀ p, stored_dir p → match tree_at arts p with
     | Some te => ∃ v, to_vec te = inr v ∧ fst <$> m' !! dir_key repo p = Some v ∧
         (fst <$> m !! dir_key repo p = Some v → m' !! dir_key repo p = m !! dir_key repo p)
     | None => m' !! dir_key repo p = None
     end) ∧
  (∀ pk sk, pk ∈ tree_shard_pk repo <$> shard_range → is_Some (m' !! (TABLE_DIR_ENTRIES, pk, sk)) →
     ∃ p, stored_dir p ∧ (TABLE_DIR_ENTRIES, pk, sk) = dir_key repo p) ∧
  (∀ k, (k.1.1 = TABLE_DIR_ENTRIES → k.1.2 ∉ tree_shard_pk repo <$> shard_range) → m' !! k = m !! k).

Definition tree_rebuilt m (repo : string) m' : Prop := tree_rebuilt_of (artifacts_of m repo) m repo m'.

Lemma tree_pk_in_tree repo p : (tree_pk_sk repo p).1 ∈ tree_shard_pk repo <$> shard_range.
Proof. apply list_elem_of_fmap. exists (shard_of (tree_parent p)). split; [done|apply shard_of_in_range]. Qed.
(** What the diff and the batches make of the store. *)
Lemma differences_rebuilt `{Scheduler} (arts : list (string * ArtifactRecord)) m (repo : string) (schedule : list N) (expected : KeyMap) :
  schedule ≡ₚ shard_range →
  (∀ p, stored_dir p → match tree_at arts p with
     | Some te => ∃ v, to_vec te = inr v ∧ expected !! tree_pk_sk repo p = Some v
     | None => expected !! tree_pk_sk repo p = None
     end) →
  (∀ k, is_Some (expected !! k) → ∃ p, stored_dir p ∧ k = tree_pk_sk repo p) →
  let existing := existing_entries ((λ shard, (λ '(sk, value), (tree_shard_pk repo shard, sk, value)) <$>
      entries m TABLE_DIR_ENTRIES (tree_shard_pk repo shard) "") <$> schedule) in
  tree_rebuilt_of arts m repo (spec_put_batch TABLE_DIR_ENTRIES (changed_entries existing expected)
    (foldl (λ m '(pk, sk), delete (TABLE_DIR_ENTRIES, pk, sk) m) m (stale_keys existing expected))) ∧
  (tree_rebuilt_of arts m repo m → stale_keys existing expected = [] ∧ changed_entries existing expected = []).
Proof.
  intros Hs Hexp Hkeys existing.
  assert (∀ pk sk, existing !! (pk, sk) = if decide (pk ∈ tree_shard_pk repo <$> shard_range)
      then fst <$> m !! (TABLE_DIR_ENTRIES, pk, sk) else None) as Hex.
  { intros pk sk. unfold existing. rewrite existing_spec.
    assert (pk ∈ tree_shard_pk repo <$> schedule ↔ pk ∈ tree_shard_pk repo <$> shard_range) as Hiff by by rewrite Hs.
    repeat case_decide; tauto || done. }
  assert (∀ p, existing !! tree_pk_sk repo p = fst <$> m !! dir_key repo p) as Hexp'.
  { intros p. pose proof (tree_pk_in_tree repo p) as Hp. unfold tree_pk_sk in *. rewrite Hex, decide_True; done. }
  clearbody existing. split.
  - destruct (apply_differences existing expected m) as (Hw & Hsame & Hdel & Hout). revert Hw Hsame Hdel Hout.
    set (m' := spec_put_batch _ _ _). intros Hw Hsame Hdel Hout. split_and!.
    + intros p Hp. specialize (Hexp p Hp). destruct (tree_at arts p) as [te|].
      * destruct Hexp as (v & Hv & Hlk). exists v. split; [done|].
        destruct (decide (existing !! tree_pk_sk repo p = Some v)) as [He|He].
        -- pose proof (Hsame _ v Hlk He) as Hm. cbn [tree_pk_sk fst snd] in Hm. fold (dir_key repo p) in Hm.
           rewrite Hm. by rewrite <-Hexp'.
        -- pose proof (Hw _ v Hlk He) as Hm. split; [exact Hm|]. by rewrite <-Hexp'.
      * destruct (existing !! tree_pk_sk repo p) as [v|] eqn:He; [by apply (Hdel (tree_pk_sk repo p))|].
        rewrite Hout; [|done]. rewrite Hexp' in He. by apply fmap_None in He.
    + intros pk sk Hpk Hm'. destruct (expected !! (pk, sk)) as [v|] eqn:He.
      * destruct (Hkeys (pk, sk)) as (p & Hp & Heq); [by rewrite He|]. exists p. split; [done|].
        unfold tree_pk_sk in Heq. by injection Heq as -> ->.
      * destruct (existing !! (pk, sk)) as [v|] eqn:Hx.
        -- pose proof (Hdel (pk, sk) He ltac:(by rewrite Hx)) as Hd. cbn [fst snd] in Hd. rewrite Hd in Hm'. by destruct Hm'.
        -- rewrite Hout in Hm' by done. rewrite Hex, decide_True in Hx by done. apply fmap_None in Hx.
           rewrite Hx in Hm'. by destruct Hm'.
    + intros [ [t pk] sk] Hk. apply Hout. cbn [fst snd] in *. intros ->. specialize (Hk eq_refl).
      rewrite Hex, decide_False by done. split; [|done]. destruct (expected !! (pk, sk)) as [v|] eqn:He; [|done].
      destruct (Hkeys (pk, sk)) as (p & Hp & Heq); [by rewrite He|]. pose proof (tree_pk_in_tree repo p) as Hin.
      by rewrite <-Heq in Hin.
  - intros (Hgood & Honly & _). split.
    + apply elem_of_nil_inv. intros [pk sk] [ [v Hx] He]%elem_of_stale. rewrite Hex in Hx.
      case_decide as Hpk; [|done]. destruct (m !! (TABLE_DIR_ENTRIES, pk, sk)) as [x|] eqn:Hm; [|done].
      destruct (Honly pk sk Hpk) as (p & Hp & Heq); [by rewrite Hm|]. specialize (Hexp p Hp). specialize (Hgood p Hp).
      assert (tree_pk_sk repo p = (pk, sk)) as Hk by (unfold dir_key, tree_pk_sk in *; by injection Heq as -> ->).
      destruct (tree_at arts p) as [te|]; [|by rewrite <-Heq, Hm in Hgood].
      destruct Hexp as (? & _ & Hlk). rewrite Hk in Hlk. congruence.
    + apply elem_of_nil_inv. intros [k v] [He Hx]%elem_of_changed.
      destruct (Hkeys k) as (p & Hp & ->); [by rewrite He|]. specialize (Hexp p Hp). specialize (Hgood p Hp).
      rewrite Hexp' in Hx. destruct (tree_at arts p) as [te|]; [|congruence].
      destruct Hexp as (v1 & Hv1 & Hlk). destruct Hgood as (v2 & Hv2 & Hm & _). congruence.
Qed.

(** The second part of the rebuild, from the scan of some artifacts. *)
Lemma wp_write_tree `{Scheduler} (schedule2 : list N) (fuel : nat) (repo : string) (arts : list (string * ArtifactRecord)) (r : ShardScanResult) w :
  schedule2 ≡ₚ shard_range → tree_scannable (w_kv w) fuel repo →
  scanned arts r → paths_ok arts → (∀ te, needed arts te → serialises te) →
  wp (write_tree schedule2 fuel repo r) w (λ res w', ∃ updates,
    res = Ok (updates, u64_wrap (Z.of_nat (length arts)), u64_wrap (sizes arts)) ∧
    tree_rebuilt_of arts (w_kv w) repo (w_kv w') ∧ same_env w w' ∧
    (tree_rebuilt_of arts (w_kv w) repo (w_kv w) → updates = 0%Z ∧ w_kv w' = w_kv w)).
Proof.
  intros Hs2 Hfuel Hsc Hpaths Hser. unfold write_tree.
  destruct (expected_spec repo arts r Hsc Hpaths Hser) as (expected & Hexp & Hin & Hkeys).
  rewrite Hexp. cbn [try_]. apply wp_bind, wp_tell_progress. intros w2 Hw2. apply wp_bind_ok.
  eapply wp_mono; [apply wp_scan_trees; [|by rewrite (proj1 Hw2)]|].
  { apply Forall_forall. intros shard. by rewrite Hs2. }
  intros ? w3 [-> ->]. rewrite (proj1 Hw2). cbv zeta.
  destruct (differences_rebuilt arts (w_kv w) repo schedule2 expected Hs2 Hin Hkeys) as [Hreb Hidem].
  revert Hreb Hidem. set (existing := existing_entries _). intros Hreb Hidem.
  apply wp_bind.
  match goal with |- wp (if ?d then send_progress ?b ?f else _) ?w0 ?Q =>
    assert (∀ w', unchanged w0 w' → Q tt w') as Hnext; [|destruct d; [by apply wp_tell_progress|by apply wp_ret, Hnext] ] end.
  intros w3 Hw3. apply wp_bind_ok. change 0%Z with (u64_wrap 0) at 1. eapply wp_mono; [apply wp_delete_stale|].
  intros ? w4 (-> & Henv4 & Hkv4). apply wp_bind_ok. eapply wp_mono; [apply wp_write_changed|].
  intros ? w5 (-> & Henv5 & Hkv5). rewrite (proj1 Hw3), (proj1 Hw2) in Hkv4. rewrite Hkv4 in Hkv5.
  pose proof (root_stats _ _ (proj1 Hsc) Hpaths) as Hroot.
  destruct (match dir_stats r !! "" with Some (count, bytes, _, _) => (count, bytes) | None => (0%Z, 0%Z) end) as [c b] eqn:Hcb.
  injection Hroot as -> ->.
  assert (same_env w w5) as Henv.
  { destruct Hw2 as [_ He2], Hw3 as [_ He3]. unfold same_env in *. intuition congruence. }
  apply wp_ret. eexists. split; [done|]. split_and!; [by rewrite Hkv5|done|].
  intros Hr. destruct (Hidem Hr) as [Hst Hch]. rewrite Hkv5, Hst, Hch. done.
Qed.

Lemma wp_full_scan_repo `{Scheduler} (schedule1 schedule2 : list N) (fuel : nat) (repo : string) w :
  schedule1 ≡ₚ shard_range → schedule2 ≡ₚ shard_range → scannable (w_kv w) fuel repo →
  artifacts_ok (w_kv w) repo → (∀ te, needed (artifacts_of (w_kv w) repo) te → serialises te) →
  wp (full_scan_repo schedule1 schedule2 fuel repo) w (λ r w', ∃ updates,
    r = Ok (updates, u64_wrap (Z.of_nat (length (artifacts_of (w_kv w) repo))), u64_wrap (sizes (artifacts_of (w_kv w) repo))) ∧
    tree_rebuilt (w_kv w) repo (w_kv w') ∧ same_env w w' ∧
    (tree_rebuilt (w_kv w) repo (w_kv w) → updates = 0%Z ∧ w_kv w' = w_kv w)).
Proof.
  intros Hs1 Hs2 Hfuel Hok Hser. unfold full_scan_repo, tree_rebuilt.
  pose proof (artifacts_paths_ok _ _ Hok) as Hpaths. apply wp_bind_ok.
  eapply wp_mono; [by apply wp_scan_artifacts_all|]. intros r w1 (res & -> & Hsc & Hw1).
  eapply wp_mono; [apply wp_write_tree; [done| |exact Hsc|done|done] |].
  - rewrite (proj1 Hw1). apply Hfuel.
  - intros ? w2 (updates & -> & Hreb & Henv & Hidem). rewrite (proj1 Hw1) in *. exists updates.
    split_and!; [done|done|by eapply same_env_trans; [apply Hw1|]|done].
Qed.
End spec.

(** ** The whole task *)

Section all_repos.
Context `{Blake3} `{Serde ArtifactRecord} `{Serde TreeEntry} `{Serde RepoConfig} `{Serde StoreRecord}.
Context `{Serde StoreStatsRecord} `{Serde TaskRecord} `{Serde TaskEventRecord} `{UuidText} `{Scheduler} `{UuidGen}.
Implicit Types (m : kvmap) (w : world kvmap).

(** *** Frames *)

Local Ltac frame_ret := by apply within_ret; apply _.

Lemma within_get {T} `{Serde T} (table pk sk : string) : within eq (typed_get (T:=T) table pk sk).
Proof.
  unfold typed_get. apply within_bind_ok; [apply _|apply within_kv; intros w; cbn [spec_store snd]; by rewrite set_kv_id|].
  intros [b|]; [|frame_ret]. apply within_try; [apply _|]. intros t. frame_ret.
Qed.

Lemma within_get_dir (repo dir : string) : within eq (get_dir repo dir).
Proof.
  unfold get_dir. destruct (tree_entry_key _ _) as [ [t pk] sk].
  apply within_bind_ok; [apply _|apply within_kv; intros w; cbn [spec_store snd]; by rewrite set_kv_id|].
  intros [b|]; [|frame_ret]. apply within_try; [apply _|]. intros te.
  destruct (te_kind te); frame_ret.
Qed.

Lemma within_sum_stores stores t : within eq (sum_store_stats stores t).
Proof.
  revert t. induction stores as [|sr stores IH]; intros t; cbn [sum_store_stats]; [frame_ret|].
  apply within_bind; [apply _|apply within_get|]. intros r. apply IH.
Qed.

Lemma within_sum_repos fuel repos n : within eq (sum_repo_artifacts fuel repos n).
Proof.
  revert n. induction repos as [|r repos IH]; intros n; cbn [sum_repo_artifacts]; [frame_ret|].
  destruct (is_proxy (rc_kind r)) eqn:Hp; [apply IH|]. apply within_bind; [apply _| |intros; apply IH].
  unfold get_repo_stats. destruct (rc_kind r); [| |done].
  all: apply within_bind_ok; [apply _|apply within_get_dir|]; intros [de|]; frame_ret.
Qed.

(** Only task records and events may change. *)
Definition task_frame w w' : Prop :=
  ∀ k, k.1.1 ≠ TABLE_TASKS → k.1.1 ≠ TABLE_TASK_EVENTS → w_kv w' !! k = w_kv w !! k.

#[export] Instance task_frame_preorder : PreOrder task_frame.
Proof. split; [by intros w k|]. intros w1 w2 w3 H1' H2' k Ht He. by rewrite H2', H1'. Qed.

Lemma within_task_progress (b : bool) (f : TaskProgress → TaskProgress) : within task_frame (send_progress b f).
Proof. intros w. apply wp_tell_progress. intros w' [Hkv _] k _ _. by rewrite Hkv. Qed.

Lemma within_append_log id message tm : within task_frame (append_log id message tm).
Proof.
  unfold append_log. destruct (tm_owned tm !! id); [|frame_ret].
  apply within_bind; [apply _| |intros; frame_ret].
  unfold append_task_event. apply within_bind; [apply _|by apply within_call|]. intros now.
  cbn [task_event_key]. unfold typed_put_if_absent. apply within_try; [apply _|]. intros b. apply (within_kv task_frame (PutIfAbsent _ _ _ _)).
  intros w k _ He. cbn [spec_store]. unfold spec_put_if_version. case_decide; cbn [snd w_kv set_kv]; [|done].
  apply lookup_insert_ne. by intros <-.
Qed.

Lemma within_update_summary id summary : within task_frame (update_summary id summary).
Proof.
  unfold update_summary. apply within_bind; [apply _| |].
  - intros w. eapply wp_intro; [apply run_get_record|done].
  - intros [r|]; [|frame_ret]. apply within_bind; [apply _|by apply within_call|]. intros now w.
    eapply wp_intro; [apply run_put_record|]. intros k Ht _. cbn [w_kv set_kv]. unfold put_task.
    destruct (to_vec_named _); [done|]. apply lookup_insert_ne. by intros <-.
Qed.
(** *** One repository after the other *)

(** The tree of a repository is right in [m'], given the store [m] that the
    rebuild started from. *)
Definition tree_right m (repo : string) m' : Prop :=
  (∀ p, stored_dir p → match tree_at (artifacts_of m repo) p with
     | Some te => ∃ v, to_vec te = inr v ∧ fst <$> m' !! dir_key repo p = Some v ∧
         (fst <$> m !! dir_key repo p = Some v → m' !! dir_key repo p = m !! dir_key repo p)
     | None => m' !! dir_key repo p = None
     end) ∧
  (∀ pk sk, pk ∈ tree_shard_pk repo <$> shard_range → is_Some (m' !! (TABLE_DIR_ENTRIES, pk, sk)) →
     ∃ p, stored_dir p ∧ (TABLE_DIR_ENTRIES, pk, sk) = dir_key repo p).

(** Two stores agree on the artifacts and on the tree of a repository. *)
Definition same_repo (repo : string) m m' : Prop :=
  (∀ pk sk, m' !! (TABLE_ARTIFACTS, pk, sk) = m !! (TABLE_ARTIFACTS, pk, sk)) ∧
  (∀ pk sk, pk ∈ tree_shard_pk repo <$> shard_range →
     m' !! (TABLE_DIR_ENTRIES, pk, sk) = m !! (TABLE_DIR_ENTRIES, pk, sk)).

Lemma same_repo_artifacts repo m m' : same_repo repo m m' → artifacts_of m' repo = artifacts_of m repo.
Proof.
  intros [Ha _]. unfold artifacts_of, all_records. f_equal. apply list_fmap_ext. intros _ shard _.
  apply shard_records_ext. intros sk. apply Ha.
Qed.

Lemma dir_key_in_tree repo p : ∃ pk sk, dir_key repo p = (TABLE_DIR_ENTRIES, pk, sk) ∧ pk ∈ tree_shard_pk repo <$> shard_range.
Proof. eexists _, _. split; [reflexivity|]. apply (tree_pk_in_tree repo p). Qed.

Lemma tree_right_from repo m m2 m' : same_repo repo m m2 → tree_right m2 repo m' → tree_right m repo m'.
Proof.
  intros Hsame [Hr Ho]. split; [|done]. intros p Hp. specialize (Hr p Hp). rewrite (same_repo_artifacts _ _ _ Hsame) in Hr.
  destruct (dir_key_in_tree repo p) as (pk & sk & Hk & Hin). rewrite Hk in *.
  by rewrite (proj2 Hsame pk sk Hin) in Hr.
Qed.

Lemma tree_right_to repo m m1 m' :
  (∀ pk sk, pk ∈ tree_shard_pk repo <$> shard_range → m' !! (TABLE_DIR_ENTRIES, pk, sk) = m1 !! (TABLE_DIR_ENTRIES, pk, sk)) →
  tree_right m repo m1 → tree_right m repo m'.
Proof.
  intros Hsame [Hr Ho]. split.
  - intros p Hp. specialize (Hr p Hp). destruct (dir_key_in_tree repo p) as (pk & sk & Hk & Hin). rewrite Hk in *.
    by rewrite (Hsame pk sk Hin).
  - intros pk sk Hpk. rewrite Hsame by done. by apply Ho.
Qed.

(** What the rebuild of a repository relies on. *)
Definition rebuildable (schedules : string → list N * list N) (fuel : nat) m (repo : string) : Prop :=
  (schedules repo).1 ≡ₚ shard_range ∧ (schedules repo).2 ≡ₚ shard_range ∧ scannable m fuel repo ∧
  artifacts_ok m repo ∧ ∀ te, needed (artifacts_of m repo) te → serialises te.

Lemma rebuildable_ext schedules fuel repo m m' : same_repo repo m m' →
  rebuildable schedules fuel m repo → rebuildable schedules fuel m' repo.
Proof.
  intros Hsame (Hs1 & Hs2 & Hsc & Hok & Hser). pose proof Hsame as [Ha Ht]. split_and!; [done|done| | |].
  - destruct Hsc as [Hs1' Hs2']. split; intros shard Hs.
    + rewrite (part_ext m' m TABLE_ARTIFACTS); [by apply Hs1'|]. intros sk. by apply Ha.
    + rewrite (part_ext m' m TABLE_DIR_ENTRIES); [by apply Hs2'|]. intros sk. apply Ht.
      apply list_elem_of_fmap. by exists shard.
  - by eapply artifacts_ok_ext.
  - by rewrite (same_repo_artifacts repo m m').
Qed.

(** The trees of the repositories, and nothing else apart from task records. *)
Definition trees_rebuilt m (repos : list RepoConfig) m' : Prop :=
  (∀ r, r ∈ repos → tree_right m (rc_name r) m') ∧
  (∀ k, k.1.1 ≠ TABLE_TASKS → k.1.1 ≠ TABLE_TASK_EVENTS →
     (k.1.1 = TABLE_DIR_ENTRIES → ∀ r, r ∈ repos → k.1.2 ∉ tree_shard_pk (rc_name r) <$> shard_range) →
     m' !! k = m !! k).

Lemma tree_shards_disjoint r1 r2 pk :
  pk ∈ tree_shard_pk r1 <$> shard_range → pk ∈ tree_shard_pk r2 <$> shard_range → r1 = r2.
Proof.
  intros (s1 & -> & _)%list_elem_of_fmap (s2 & Heq & _)%list_elem_of_fmap. by apply scoped_pk_inj in Heq as [-> _].
Qed.

(** What a rebuild leaves alone of the other repositories. *)
Lemma rebuilt_same_repo m repo m' repo' : tree_rebuilt m repo m' → repo' ≠ repo → same_repo repo' m m'.
Proof.
  intros (_ & _ & Hout) Hne. split; intros pk sk; [|intros Hpk]; apply Hout; cbn [fst snd]; [done|].
  intros _ Hin. apply Hne. by apply (tree_shards_disjoint _ _ pk).
Qed.

Definition add_repo_total m (totals : StoreTotals) (r : RepoConfig) : StoreTotals :=
  add_store_total totals (rc_store r) (u64_wrap (Z.of_nat (length (artifacts_of m (rc_name r)))))
    (u64_wrap (sizes (artifacts_of m (rc_name r)))).

Lemma foldl_ext_in {A B} (f g : A → B → A) (l : list B) (a : A) :
  (∀ a x, x ∈ l → f a x = g a x) → foldl f a l = foldl g a l.
Proof.
  revert a. induction l as [|x l IH]; intros a Hfg; [done|]. cbn [foldl]. rewrite (Hfg a x) by left.
  apply IH. intros. apply Hfg. by right.
Qed.

Lemma wp_scan_repos schedules fuel id i n repos total totals tm w :
  NoDup (rc_name <$> repos) → (∀ r, r ∈ repos → rebuildable schedules fuel (w_kv w) (rc_name r)) →
  wp (scan_repos schedules fuel id i n repos total totals tm) w (λ r w', ∃ updated tm',
    r = (Ok (updated, foldl (add_repo_total (w_kv w)) totals repos), tm') ∧ trees_rebuilt (w_kv w) repos (w_kv w')).
Proof.
  revert i total totals tm w. induction repos as [|r repos IH]; intros i total totals tm w Hnd Hok; cbn [scan_repos].
  { apply wp_ret. eexists _, _. split; [done|]. split; [by intros ? ?%elem_of_nil|done]. }
  cbn [fmap list_fmap] in Hnd. apply NoDup_cons in Hnd as [Hni Hnd]. set (name := rc_name r) in *.
  destruct (Hok r ltac:(left)) as (Hs1 & Hs2 & Hsc & Hart & Hser).
  apply wp_bind, wp_tell_progress. intros w0 [Hkv0 _]. apply wp_bind, wp_call. cbn [handle fst snd].
  fold name in Hs1, Hs2. destruct (schedules name) as [schedule1 schedule2]. cbn [fst snd] in Hs1, Hs2.
  apply wp_bind. eapply wp_mono; [apply wp_full_scan_repo; try done; rewrite Hkv0; done|].
  intros ? w1 (updates & -> & Hreb & _). rewrite Hkv0 in *. apply wp_bind, wp_call. cbn [handle fst snd].
  apply wp_bind. eapply wp_mono; [apply within_append_log|]. intros tm1 w2 Hf2.
  apply wp_bind. eapply wp_mono; [apply within_task_progress|]. intros ? w3 Hf3.
  apply wp_bind. eapply wp_mono; [apply within_update_summary|]. intros ? w4 Hf4.
  assert (task_frame w1 w4) as Hf by (transitivity w2; [exact Hf2|transitivity w3; [exact Hf3|exact Hf4] ]).
  assert (∀ r', r' ∈ repos → same_repo (rc_name r') (w_kv w) (w_kv w4)) as Hsame.
  { intros r' Hr'. assert (rc_name r' ≠ name) as Hne.
    { intros Heq. apply Hni. rewrite <-Heq. apply list_elem_of_fmap. by exists r'. }
    destruct (rebuilt_same_repo _ _ _ _ Hreb Hne) as [Ha Ht].
    split; intros pk sk; [|intros Hpk]; (rewrite (Hf (_, pk, sk)); [auto|done|done]). }
  eapply wp_mono; [apply IH; [done|]|].
  { intros r' Hr'. eapply rebuildable_ext; [by apply Hsame|]. apply Hok. by right. }
  intros ? w5 (updated & tm' & -> & Hright & Hout). exists updated, tm'. split.
  - f_equal. f_equal. f_equal. cbn [foldl]. apply foldl_ext_in.
    intros t r' Hr'. unfold add_repo_total. by rewrite (same_repo_artifacts _ _ _ (Hsame r' Hr')).
  - split.
    + intros r' [->|Hr']%elem_of_cons; [|by eapply tree_right_from; [apply Hsame|apply Hright] ].
      apply (tree_right_to _ _ (w_kv w1)); [|by destruct Hreb as (? & ? & _)].
      intros pk sk Hpk. rewrite Hout; cbn [fst snd]; [by rewrite (Hf (_, pk, sk))|done|done|].
      intros _ r' Hr' Hin. apply Hni. apply list_elem_of_fmap. exists r'. split; [|done].
      by apply (tree_shards_disjoint _ _ pk).
    + intros k Ht He Hk. rewrite Hout; [|done|done|intros Hd r' Hr'; by apply Hk; [|right] ].
      rewrite (Hf k) by done. destruct Hreb as (_ & _ & Hreb). apply Hreb. intros Hd. apply Hk; [done|left].
Qed.
(** *** Store totals *)

(** The artifacts of the repositories on a store. *)
Definition store_artifacts m (repos : list RepoConfig) (store : string) : list (string * ArtifactRecord) :=
  concat ((λ r, artifacts_of m (rc_name r)) <$> filter (λ r, rc_store r = store) repos).

Lemma store_totals_spec m repos store :
  foldl (add_repo_total m) ∅ repos !! store =
    if decide (store ∈ rc_store <$> repos)
    then Some (u64_wrap (Z.of_nat (length (store_artifacts m repos store))), u64_wrap (sizes (store_artifacts m repos store)))
    else None.
Proof.
  induction repos as [|r repos IH] using rev_ind; [done|].
  rewrite foldl_app. cbn [foldl]. unfold add_repo_total at 1, add_store_total. unfold store_artifacts in *.
  rewrite filter_app, !fmap_app, !concat_app, filter_cons, filter_nil.
  assert (store ∈ (rc_store <$> repos) ++ (rc_store <$> [r]) ↔ store ∈ rc_store <$> repos ∨ store = rc_store r) as Hin.
  { rewrite elem_of_app. cbn [fmap list_fmap]. by rewrite list_elem_of_singleton. }
  destruct (decide (rc_store r = store)) as [Hs|Hs].
  - rewrite Hs, lookup_insert_eq, decide_True by (apply Hin; by right). f_equal.
    cbn [fmap list_fmap concat]. rewrite app_nil_r, length_app, sizes_app, IH. case_decide as Hd.
    + cbn [default from_option fst snd id]. rewrite !u64_add_wrap_wrap. f_equal. f_equal. lia.
    + rewrite (filter_none (λ r0, rc_store r0 = store)).
      * cbn [default from_option fst snd fmap list_fmap concat length sizes foldr id].
        change 0%Z with (u64_wrap 0) at 1 2. rewrite !u64_add_wrap_wrap. done.
      * apply Forall_forall. intros r' Hr' Heq. apply Hd, list_elem_of_fmap. by exists r'.
  - rewrite lookup_insert_ne by done. cbn [fmap list_fmap concat]. rewrite app_nil_r, IH.
    assert (store ∈ rc_store <$> repos ↔ store ∈ (rc_store <$> repos) ++ [rc_store r]) as Hiff.
    { rewrite Hin. naive_solver. }
    repeat case_decide; tauto || done.
Qed.

Context `{!SerdeExact StoreStatsRecord}.

Lemma wp_write_totals id l tm w :
  (∀ c b t, ∃ v, to_vec_named (mkStoreStatsRecord c b t) = inr v) → NoDup l.*1 →
  wp (write_store_totals id l tm) w (λ _ w',
    (∀ s c b, (s, (c, b)) ∈ l → stats_at (w_kv w') s = Some (c, b)) ∧
    (∀ k, k.1.1 ≠ TABLE_TASKS → k.1.1 ≠ TABLE_TASK_EVENTS → k ∉ store_stats_key <$> l.*1 → w_kv w' !! k = w_kv w !! k)).
Proof using SerdeExact0.
  intros Hser. revert tm w. induction l as [|[s [c b] ] l IH]; intros tm w Hnd; cbn [write_store_totals].
  { apply wp_ret. split; [by intros ??? ?%elem_of_nil|done]. }
  cbn [fmap list_fmap fst] in Hnd. apply NoDup_cons in Hnd as [Hni Hnd].
  apply wp_bind, wp_call. cbn [handle fst snd]. apply wp_bind.
  unfold put_store_stats. cbn [store_stats_key]. unfold typed_put. destruct (Hser c b (w_now w)) as [v Hv]. rewrite Hv.
  cbn [serde_result try_]. apply (wp_kv (Put _ _ _ _)). cbn [spec_store fst snd].
  apply wp_bind. eapply wp_mono; [apply within_append_log|]. intros tm' w2 Hf. cbv beta in Hf.
  eapply wp_mono; [by apply IH|]. intros _ w3 [Hin Hout]. cbn [w_kv set_kv] in *.
  assert (∀ x, store_stats_key s ≠ store_stats_key x → store_stats_key x ≠ store_stats_key s) as Hsym by congruence.
  split.
  - intros s' c' b' [ [= -> -> ->]|Hl]%elem_of_cons; [|by apply Hin]. unfold stats_at.
    rewrite Hout; [|done|done|].
    + rewrite (Hf (store_stats_key s)) by done. cbn [w_kv set_kv]. unfold spec_put.
      change (TABLE_META, SINGLE_PK, "store_stats/" +:+ s) with (store_stats_key s). rewrite lookup_insert_eq.
      by rewrite (from_to_vec_named _ _ Hv), wire_id.
    + intros (x & Heq%store_stats_key_inj & Hx)%list_elem_of_fmap. by subst x.
  - intros k Ht He Hk. cbn [fmap list_fmap fst] in Hk. apply not_elem_of_cons in Hk as [Hne Hk].
    rewrite Hout, (Hf k) by done. cbn [w_kv set_kv]. unfold spec_put. by apply lookup_insert_ne.
Qed.

Lemma wp_full_scan schedules fuel id tm all w :
  let repos := filter (λ r, rc_deleting r = false) all in
  stored_repos (w_kv w) = Ok all → NoDup (rc_name <$> repos) →
  (∀ r, r ∈ repos → rebuildable schedules fuel (w_kv w) (rc_name r)) →
  (∀ c b t, ∃ v, to_vec_named (mkStoreStatsRecord c b t) = inr v) →
  wp (full_scan schedules fuel id tm) w (λ r w', ∃ updated stores tm',
    r = (Ok (Z.of_nat (length repos), updated, stores), tm') ∧
    (∀ r, r ∈ repos → tree_right (w_kv w) (rc_name r) (w_kv w')) ∧
    (∀ r, r ∈ repos → stats_at (w_kv w') (rc_store r) =
       let arts := store_artifacts (w_kv w) repos (rc_store r) in
       Some (u64_wrap (Z.of_nat (length arts)), u64_wrap (sizes arts))) ∧
    (∀ k, k.1.1 ∉ [TABLE_DIR_ENTRIES; TABLE_META; TABLE_TASKS; TABLE_TASK_EVENTS] → w_kv w' !! k = w_kv w !! k)).
Proof using SerdeExact0.
  intros repos Hrepos Hnd Hok Hser. unfold full_scan. apply wp_bind. eapply wp_intro; [apply run_list_repos|].
  rewrite Hrepos. fold repos. apply wp_bind. eapply wp_intro; [apply run_list_stores|].
  apply wp_bind. eapply wp_mono; [apply within_sum_stores|]. intros est ? <-.
  apply wp_bind. eapply wp_mono; [apply within_sum_repos|]. intros total ? <-.
  apply wp_bind. eapply wp_mono; [apply within_task_progress|]. intros ? w1 Hf1.
  apply wp_bind. eapply wp_mono; [apply within_append_log|]. intros tm1 w2 Hf2.
  apply wp_bind. eapply wp_mono; [apply within_update_summary|]. intros ? w3 Hf3.
  assert (task_frame w w3) as Hf by (transitivity w1; [exact Hf1|transitivity w2; [exact Hf2|exact Hf3] ]). clear Hf1 Hf2 Hf3.
  assert (∀ name, same_repo name (w_kv w) (w_kv w3)) as Hsame by (intros name; split; intros; by apply Hf).
  apply wp_bind. eapply wp_mono.
  { apply wp_scan_repos; [done|]. intros r Hr. by eapply rebuildable_ext, Hok. }
  intros ? w4 (updated & tm2 & -> & Hright & Hout). set (totals := foldl _ ∅ repos).
  assert (∀ s, totals !! s = foldl (add_repo_total (w_kv w)) ∅ repos !! s) as Htot.
  { intros s. unfold totals. f_equal. apply foldl_ext_in. intros t r _. unfold add_repo_total.
    by rewrite (same_repo_artifacts _ _ _ (Hsame (rc_name r))). }
  clearbody totals. apply wp_bind. eapply wp_mono; [apply wp_write_totals; [done|]|].
  { rewrite arrange_perm. apply NoDup_fst_map_to_list. }
  intros tm3 w5 [Hst Hout5]. apply wp_ret. eexists _, _, _. split; [done|].
  assert (∀ pk sk, w_kv w5 !! (TABLE_DIR_ENTRIES, pk, sk) = w_kv w4 !! (TABLE_DIR_ENTRIES, pk, sk)) as Hdir.
  { intros pk sk. apply Hout5; [done|done|]. by intros (x & Heq & _)%list_elem_of_fmap. }
  split_and!.
  - intros r Hr. apply (tree_right_to _ _ (w_kv w4)); [by intros|]. eapply tree_right_from; [apply Hsame|by apply Hright].
  - intros r Hr. apply Hst. rewrite arrange_perm, elem_of_map_to_list, Htot, store_totals_spec, decide_True; [done|].
    apply list_elem_of_fmap. by exists r.
  - intros k Hk. rewrite !not_elem_of_cons in Hk. destruct Hk as (Hd & Hm & Ht & He & _).
    rewrite Hout5; [|done|done|by intros (x & -> & _)%list_elem_of_fmap]. rewrite Hout; [by apply Hf|done|done|done].
Qed.
End all_repos.

(** ** Interleavings *)

(** A program of a pool runs through a part of its work; [C] is what surrounds
    that part. *)
Lemma steps_part {K A B} `{UuidGen} `{KvStore K} (i : nat) (ps : list (prog A)) (C : prog B → prog A) (p : prog B)
    (w w' : world K) (b : B) :
  (∀ e k, C (Vis e k) = Vis e (λ r, C (k r))) →
  ps !! i = Some (C p) → run p w = (Some b, w') → steps (ps, w) (<[i := C (Ret b)]> ps, w').
Proof.
  intros HC. revert ps w. induction p as [a|e k IH|]; intros ps w Hi Hrun; cbn [run] in *; [| |done].
  - injection Hrun as <- <-. rewrite list_insert_id by done. apply rtc_refl.
  - destruct (handle e w) as [r w1] eqn:Hh.
    eapply (steps_call i _ _ (C (k r))); [exact Hi|rewrite HC; cbn; by rewrite Hh|].
    pose proof (IH r (<[i := C (k r)]> ps) w1) as Hs. rewrite list_insert_insert_eq in Hs. apply Hs; [|done].
    apply list_lookup_insert_eq. by apply lookup_lt_Some in Hi.
Qed.

(** A request whose answer does not matter. *)
Definition ignore {A} (p : prog A) : prog unit := let* _ := p in Ret tt.

(** ** Properties *)

(** C3: The rebuild task repairs the browse tree.  In a store whose artifact
    records can be read, [full_scan] completes; afterwards the tree of every
    live repository consists of the file entry of every artifact and of one
    directory entry, with the number, the bytes and the latest timestamps of
    the artifacts below it, for every ancestor, whatever was stored there
    before, an entry that was right keeps its version, and only the tree, the
    store counters and the log of the task are written.  The counters of a
    store become the number and the bytes of the artifacts of the
    repositories on it. *)
Theorem full_scan_exact `{Blake3} `{Serde ArtifactRecord} `{Serde TreeEntry} `{Serde RepoConfig} `{Serde StoreRecord}
    `{Serde StoreStatsRecord} `{!SerdeExact StoreStatsRecord} `{Serde TaskRecord} `{Serde TaskEventRecord}
    `{UuidText} `{Scheduler} `{UuidGen} (schedules : string → list N * list N) (fuel : nat) (id : string)
    (tm : TaskManager) (all : list RepoConfig) (w : world kvmap) :
  let repos := filter (λ r, rc_deleting r = false) all in
  stored_repos (w_kv w) = Ok all → NoDup (rc_name <$> repos) →
  (∀ r, r ∈ repos → rebuildable schedules fuel (w_kv w) (rc_name r)) →
  (∀ c b t, ∃ v, to_vec_named (mkStoreStatsRecord c b t) = inr v) →
  ∃ updated stores tm' w',
    run (full_scan schedules fuel id tm) w = (Some (Ok (Z.of_nat (length repos), updated, stores), tm'), w') ∧
    (∀ r, r ∈ repos → tree_right (w_kv w) (rc_name r) (w_kv w')) ∧
    (∀ r, r ∈ repos → stats_at (w_kv w') (rc_store r) =
       let arts := store_artifacts (w_kv w) repos (rc_store r) in
       Some (u64_wrap (Z.of_nat (length arts)), u64_wrap (sizes arts))) ∧
    (∀ k, k.1.1 ∉ [TABLE_DIR_ENTRIES; TABLE_META; TABLE_TASKS; TABLE_TASK_EVENTS] → w_kv w' !! k = w_kv w !! k).
Proof.
  intros repos Hrepos Hnd Hok Hser.
  destruct (wp_run _ _ _ (wp_full_scan schedules fuel id tm all w Hrepos Hnd Hok Hser))
    as (r & w' & Hrun & updated & stores & tm' & -> & Hr).
  by exists updated, stores, tm', w'.
Qed.

(** A rebuild of a tree that is right writes nothing: the second of two
    rebuilds of a repository reports no update and leaves the store as it is,
    in whatever order the shards of the two complete. *)
Theorem full_scan_repo_idempotent `{Blake3} `{Serde ArtifactRecord} `{Serde TreeEntry} `{Scheduler} `{UuidGen}
    (s1 s2 s3 s4 : list N) (fuel : nat) (repo : string) (w : world kvmap) :
  s1 ≡ₚ shard_range → s2 ≡ₚ shard_range → s3 ≡ₚ shard_range → s4 ≡ₚ shard_range →
  base.size (w_kv w) < fuel → artifacts_ok (w_kv w) repo →
  (∀ te, needed (artifacts_of (w_kv w) repo) te → serialises te) →
  let arts := artifacts_of (w_kv w) repo in
  ∃ updates w1, run (full_scan_repo s1 s2 fuel repo) w =
      (Some (Ok (updates, u64_wrap (Z.of_nat (length arts)), u64_wrap (sizes arts))), w1) ∧
    ∀ fuel', base.size (w_kv w1) < fuel' → ∃ w2,
      run (full_scan_repo s3 s4 fuel' repo) w1 =
        (Some (Ok (0%Z, u64_wrap (Z.of_nat (length arts)), u64_wrap (sizes arts))), w2) ∧ w_kv w2 = w_kv w1.
Proof.
  intros Hs1 Hs2 Hs3 Hs4 Hfuel Hok Hser arts.
  destruct (wp_run _ _ _ (wp_full_scan_repo s1 s2 fuel repo w Hs1 Hs2 (scannable_size _ _ _ Hfuel) Hok Hser))
    as (r & w1 & Hrun & updates & -> & Hreb & _).
  exists updates, w1. split; [done|]. intros fuel' Hfuel'.
  assert (∀ pk sk, w_kv w1 !! (TABLE_ARTIFACTS, pk, sk) = w_kv w !! (TABLE_ARTIFACTS, pk, sk)) as Hart.
  { intros pk sk. by apply Hreb. }
  assert (artifacts_of (w_kv w1) repo = arts) as Harts.
  { unfold arts, artifacts_of, all_records. f_equal. apply list_fmap_ext. intros _ shard _. by apply shard_records_ext. }
  destruct (wp_run _ _ _ (wp_full_scan_repo s3 s4 fuel' repo w1 Hs3 Hs4 (scannable_size _ _ _ Hfuel')
    ltac:(by eapply artifacts_ok_ext) ltac:(by rewrite Harts))) as (r & w2 & Hrun2 & updates2 & -> & _ & _ & Hidem).
  rewrite Harts in Hrun2. destruct Hidem as [-> Hkv]; [|by exists w2].
  destruct Hreb as (Hr & Ho & _). split_and!; [|done|done]. intros p Hp. specialize (Hr p Hp). rewrite Harts.
  fold arts in Hr. destruct (tree_at arts p); [|done]. destruct Hr as (v & Hv & Hm & _). by exists v.
Qed.

(** C37: A rebuild loses what is uploaded while it runs.  The diff of the second
    part is written without conditions, so for every path that had no artifact
    at or below it there is an interleaving of the rebuild with an upload to
    it after which both requests are done, the artifact is stored and can be
    read, and its entry is missing from the browse tree. *)
Theorem rebuild_drops_upload `{Blake3} `{Serde ArtifactRecord} `{!SerdeExact ArtifactRecord} `{Serde TreeEntry} `{Scheduler} `{UuidGen}
    (s1 s2 : list N) (fuel : nat) (repo path : string) (record : ArtifactRecord) (b : bytes) (w : world kvmap) :
  s1 ≡ₚ shard_range → s2 ≡ₚ shard_range → base.size (w_kv w) + 2 < fuel → artifacts_ok (w_kv w) repo →
  (∀ te, needed (artifacts_of (w_kv w) repo) te → serialises te) →
  stored_dir path → path ≠ "" → tree_at (artifacts_of (w_kv w) repo) path = None →
  w_kv w !! artifact_key repo path = None → to_vec (stored_record w path record) = inr b →
  ∃ w', steps ([ignore (full_scan_repo s1 s2 fuel repo); ignore (put_artifact repo path record)], w)
      ([Ret tt; Ret tt], w') ∧
    run (get_artifact repo path) w' = (Some (Ok (Some (stored_record w path record))), w') ∧
    w_kv w' !! tree_entry_key repo path = None.
Proof.
  intros Hs1 Hs2 Hfuel Hok Hser Hst Hne Hnone Hfree Hb.
  set (arts := artifacts_of (w_kv w) repo) in *. pose proof (artifacts_paths_ok _ _ Hok) as Hpaths. fold arts in Hpaths.
  assert (base.size (w_kv w) < fuel) as Hf1 by lia.
  destruct (wp_run _ _ _ (wp_scan_artifacts_all s1 fuel repo w Hok Hs1 (scannable_size _ _ _ Hf1)))
    as (r & w1 & Hrun1 & res & -> & Hsc & Hw1). fold arts in Hsc.
  assert (stored_record w1 path record = stored_record w path record) as Hrec.
  { unfold stored_record. by destruct Hw1 as [_ (_ & _ & _ & -> & _)]. }
  pose proof (run_put_artifact w1 repo path record b None Hne) as Hput. rewrite Hrec, (proj1 Hw1) in Hput.
  specialize (Hput Hb). unfold old_of in Hput. rewrite Hfree in Hput. specialize (Hput eq_refl).
  set (w2 := set_kv _ (after_prepare w1 record)) in Hput.
  assert (base.size (w_kv w2) ≤ base.size (w_kv w) + 2) as Hsize.
  { unfold w2, tree_put. cbn [w_kv set_kv].
    destruct (to_vec (tree_file_of _)); unfold spec_put; rewrite ?map_size_insert; repeat case_match; unfold id; lia. }
  assert (base.size (w_kv w2) < fuel) as Hf2 by lia.
  destruct (wp_run _ _ _ (wp_write_tree s2 fuel repo arts res w2 Hs2 (proj2 (scannable_size _ _ _ Hf2)) Hsc Hpaths Hser))
    as (r & w3 & Hrun3 & updates & -> & Hreb & _).
  exists w3. split_and!.
  - etrans; [by apply (steps_part 0 _ (λ p, ignore (bind_ok p (write_tree s2 fuel repo)))
      (scan_artifacts s1 fuel repo) w w1 (Ok res))|].
    etrans; [by apply (steps_part 1 _ ignore (put_artifact repo path record) w1 w2 (Ok None))|].
    etrans; [by eapply (steps_part 0 _ ignore (write_tree s2 fuel repo res) w2 w3)|]. apply rtc_refl.
  - rewrite run_get_artifact. do 2 f_equal. unfold old_of. destruct Hreb as (_ & _ & Hout). rewrite Hout by done.
    unfold w2. cbn [w_kv set_kv]. rewrite tree_put_lookup by apply artifact_tree_key_ne.
    rewrite lookup_insert_eq. by rewrite (from_to_vec _ _ Hb), wire_id.
  - destruct Hreb as (Hr & _ & _). specialize (Hr path Hst). rewrite Hnone in Hr. by rewrite (dir_key_entry repo path Hst).
Qed.

(** ** Witnesses *)

(** A finite check of the entries that a rebuild serialises. *)
Lemma needed_check `{Serde ArtifactRecord} `{Serde TreeEntry} `{UuidGen} (arts : list (string * ArtifactRecord)) :
  paths_ok arts →
  Forall (λ x, is_ok (serde_result (to_vec (tree_file_of x.2))) = true) arts →
  Forall (λ d, is_ok (serde_result (to_vec (dir_tree_entry (d, tally (filter (λ x, inside d x.1) arts))).2)) = true)
    (concat (ancestor_dirs <$> arts.*1)) →
  ∀ te, needed arts te → serialises te.
Proof.
  assert (∀ te, is_ok (serde_result (to_vec te)) = true → serialises te) as Hs.
  { intros te. unfold serialises. destruct (to_vec te) as [e|v]; [done|by exists v]. }
  intros [Hp _] Hf Hd te [ (x & Hx & ->)|(d & Hne & ->)]; apply Hs.
  - rewrite Forall_forall in Hf. by apply Hf.
  - destruct (filter _ arts) as [|x l] eqn:He; [done|]. rewrite <-He. clear Hne.
    assert (x ∈ filter (λ x, inside d x.1) arts) as [Hin Hx]%list_elem_of_filter by (rewrite He; left).
    rewrite Forall_forall in Hp. destruct (Hp x Hx) as [Hst Hn].
    set (d' := normalize_path d).
    assert (∀ q, inside d' q ↔ inside d q) as Hiff by (intros q; unfold inside, d'; by rewrite segments_normalize).
    assert (filter (λ x, inside d x.1) arts = filter (λ x, inside d' x.1) arts) as ->.
    { apply filter_ext_in. intros y _. by rewrite Hiff. }
    rewrite Forall_forall in Hd. specialize (Hd d').
    unfold dir_tree_entry in *. destruct (tally _) as [ [ [c b] t1] t2]. cbn [snd] in *. apply Hd.
    apply list_elem_of_In, in_concat. exists (ancestor_dirs x.1). split; apply list_elem_of_In.
    + apply list_elem_of_fmap. exists x.1. split; [done|]. apply list_elem_of_fmap. by exists x.
    + apply (ancestor_dirs_spec x.1 Hst Hn). split; [|by apply Hiff].
      assert (segments d' `prefix_of` segments x.1) as Hpre by (unfold d'; rewrite segments_normalize; apply Hin).
      split; [apply normalize_path_canonical|]. unfold d'. rewrite normalize_path_join.
      unfold d' in Hpre. rewrite segments_normalize in Hpre. apply has_char_join; [done|].
      destruct Hst as [_ Hnul]. apply (has_char_segments NUL) in Hnul. destruct Hpre as [r Hr]. rewrite Hr in Hnul.
      by apply Forall_app in Hnul as [? _].
Qed.

(** Four artifacts; the tree lacks a file and both directories, and has an
    entry too many. *)
Definition toy_upload : ArtifactRecord := toy_artifact "c" 5%Z.

Definition toy_upload_serde : Serde ArtifactRecord := table_serde (toy_artifacts ++ [toy_upload]).

Definition toy_rebuild_serde : Serde TreeEntry :=
  table_serde ((tree_file_of <$> toy_artifacts) ++
    [mkTreeEntry (TDir 4 10) 7%Z 7%Z; mkTreeEntry (TDir 3 6) 7%Z 7%Z; mkTreeEntry (TDir 9 9) 9%Z 9%Z;
     tree_file_of toy_upload]).

Definition toy_rebuild_world : world kvmap :=
  let _ := toy_blake3 in
  world_of (<[dir_key "r" "old" := ("6", 3%Z)]> (<[repo_key "r" := ("0", 1%Z)]>
    (delete (dir_key "r" "a/x") toy_store))).

Lemma toy_artifacts_ok : @artifacts_ok toy_blake3 toy_upload_serde (w_kv toy_rebuild_world) "r".
Proof.
  assert (map_Forall (λ (k : string * string * string) (v : string * Z), k.1.1 = TABLE_ARTIFACTS →
    k.1.2 = @sharded_pk toy_blake3 "r" k.2 ∧ (canonical k.2 ∧ has_char NUL k.2 = false) ∧ k.2 ≠ "" ∧
    is_ok (serde_result (@from_slice _ toy_upload_serde v.1)) = true) (w_kv toy_rebuild_world)) as Hall.
  { unfold canonical. by_decide. }
  split.
  - intros shard sk v _ Hin. destruct (Hall _ _ Hin eq_refl) as (Hk & _).
    apply (scoped_pk_inj "r" "r" shard (@shard_of toy_blake3 sk)) in Hk as [_ Hk]. by symmetry.
  - intros shard sk v ver _ Hin. destruct (Hall _ _ Hin eq_refl) as (_ & Hst & Hne & Hok). cbn [fst snd] in *.
    split_and!; [exact Hst|exact Hne|]. destruct (@from_slice _ toy_upload_serde v) as [e|r]; [done|by exists r].
Qed.

(** The artifacts, as they are listed. *)
Definition toy_arts : list (string * ArtifactRecord) :=
  Eval vm_compute in @artifacts_of toy_upload_serde (w_kv toy_rebuild_world) "r".

Lemma toy_arts_eq : @artifacts_of toy_upload_serde (w_kv toy_rebuild_world) "r" = toy_arts.
Proof. vm_compute. reflexivity. Qed.

Lemma toy_needed (te : TreeEntry) :
  @needed (@artifacts_of toy_upload_serde (w_kv toy_rebuild_world) "r") te → @serialises toy_rebuild_serde te.
Proof.
  revert te. apply (@needed_check toy_upload_serde toy_rebuild_serde toy_uuid).
  - apply (@artifacts_paths_ok toy_blake3 toy_upload_serde). apply toy_artifacts_ok.
  - rewrite toy_arts_eq. by_decide.
  - rewrite toy_arts_eq. by_decide.
Qed.

Definition toy_schedules (_ : string) : list N * list N := (reverse shard_range, shard_range).

Lemma toy_rebuildable :
  @rebuildable toy_blake3 toy_upload_serde toy_rebuild_serde toy_schedules 20 (w_kv toy_rebuild_world) "r".
Proof.
  split_and!.
  - apply reverse_Permutation.
  - reflexivity.
  - apply scannable_size. by_decide.
  - apply toy_artifacts_ok.
  - apply toy_needed.
Qed.

Lemma full_scan_exact_witness :
  let _ := toy_blake3 in let _ := toy_upload_serde in let _ := toy_rebuild_serde in let _ := toy_rc_serde in
  let _ := toy_sr_serde in let _ := stats_serde in let _ := task_serde in let _ := event_serde in
  let _ := toy_uuid_text in let _ := in_order in let _ := toy_uuid in
  ∃ updated stores tm' w',
    run (full_scan toy_schedules 20 "t" (new_task_manager "i")) toy_rebuild_world =
      (Some (Ok (1%Z, updated, stores), tm'), w') ∧
    fst <$> w_kv w' !! dir_key "r" "a" = Some "5" ∧ fst <$> w_kv w' !! dir_key "r" "" = Some "4" ∧
    w_kv w' !! dir_key "r" "b" = Some ("3", 1%Z) ∧ w_kv w' !! dir_key "r" "old" = None ∧
    stats_at (w_kv w') "s" = Some (4, 10)%Z.
Proof.
  intros ???????????.
  assert (filter (λ r, rc_deleting r = false) [toy_repo "r" Hosted false] = [toy_repo "r" Hosted false]) as Hf by reflexivity.
  destruct (@full_scan_exact toy_blake3 toy_upload_serde toy_rebuild_serde toy_rc_serde toy_sr_serde stats_serde ltac:(done)
    task_serde event_serde toy_uuid_text in_order toy_uuid toy_schedules 20 "t" (new_task_manager "i")
    [toy_repo "r" Hosted false] toy_rebuild_world) as (updated & stores & tm' & w' & Hrun & Htree & Hstats & _).
  - by_decide.
  - by_decide.
  - intros r Hr. rewrite Hf in Hr. apply list_elem_of_singleton in Hr as ->. apply toy_rebuildable.
  - intros ? ? ?. eexists. reflexivity.
  - rewrite Hf in *. exists updated, stores, tm', w'. split; [exact Hrun|].
    destruct (Htree (toy_repo "r" Hosted false) ltac:(left)) as [Ht _].
    set (arts := @artifacts_of toy_upload_serde (w_kv toy_rebuild_world) "r").
    assert (∀ p te v, stored_dir p → tree_at arts p = Some te → @to_vec _ toy_rebuild_serde te = inr v →
      fst <$> w_kv w' !! @dir_key toy_blake3 "r" p = Some v) as Hval.
    { intros p te v Hp Hte Hv. specialize (Ht p Hp). cbn [rc_name toy_repo] in Ht. fold arts in Ht. rewrite Hte in Ht.
      destruct Ht as (v' & Hv' & Hm & _). congruence. }
    split_and!.
    + apply (Hval "a" (mkTreeEntry (TDir 3 6) 7%Z 7%Z) "5"); [by_decide|by_decide|reflexivity].
    + apply (Hval "" (mkTreeEntry (TDir 4 10) 7%Z 7%Z) "4"); [by_decide|by_decide|reflexivity].
    + specialize (Ht "b" ltac:(by_decide)). cbn [rc_name toy_repo] in Ht. fold arts in Ht.
      assert (tree_at arts "b" = Some (tree_file_of (toy_artifact "b" 4))) as Hb by (vm_compute; reflexivity).
      rewrite Hb in Ht. destruct Ht as (v & Hv & _ & Hkeep).
      assert (v = "3") as -> by (apply (inj inr) in Hv; by rewrite <-Hv).
      refine (eq_trans (Hkeep _) _); by_decide.
    + specialize (Ht "old" ltac:(by_decide)). cbn [rc_name toy_repo] in Ht. fold arts in Ht.
      assert (tree_at arts "old" = None) as Hb by (vm_compute; reflexivity).
      by rewrite Hb in Ht.
    + refine (eq_trans (Hstats (toy_repo "r" Hosted false) ltac:(left)) _). by_decide.
Defined.

Lemma full_scan_repo_idempotent_witness :
  let _ := toy_blake3 in let _ := toy_upload_serde in let _ := toy_rebuild_serde in let _ := in_order in let _ := toy_uuid in
  ∃ updates w1, run (full_scan_repo (reverse shard_range) shard_range 20 "r") toy_rebuild_world =
      (Some (Ok (updates, 4%Z, 10%Z)), w1) ∧
    ∀ fuel', base.size (w_kv w1) < fuel' → ∃ w2,
      run (full_scan_repo shard_range (reverse shard_range) fuel' "r") w1 = (Some (Ok (0%Z, 4%Z, 10%Z)), w2) ∧ w_kv w2 = w_kv w1.
Proof.
  intros ?????.
  destruct (@full_scan_repo_idempotent toy_blake3 toy_upload_serde toy_rebuild_serde in_order toy_uuid
    (reverse shard_range) shard_range shard_range (reverse shard_range) 20 "r" toy_rebuild_world)
    as (updates & w1 & Hrun & Hagain); [apply reverse_Permutation|done|done|apply reverse_Permutation|by_decide|
    apply toy_artifacts_ok|apply toy_needed|].
  set (arts := @artifacts_of toy_upload_serde (w_kv toy_rebuild_world) "r").
  assert ((u64_wrap (Z.of_nat (length arts)), u64_wrap (sizes arts)) = (4, 10)%Z) as Hcount by by_decide.
  exists updates, w1. split.
  - refine (eq_trans Hrun _). apply (f_equal (λ t : Z * Z, (Some (Ok (updates, t.1, t.2)), w1)) Hcount).
  - intros fuel' Hfuel'. destruct (Hagain fuel' Hfuel') as (w2 & Hrun2 & Hkv). exists w2. split; [|exact Hkv].
    refine (eq_trans Hrun2 _). apply (f_equal (λ t : Z * Z, (Some (Ok (0%Z, t.1, t.2)), w2)) Hcount).
Defined.

Lemma rebuild_drops_upload_witness :
  let _ := toy_blake3 in let _ := toy_upload_serde in let _ := toy_rebuild_serde in let _ := in_order in let _ := toy_uuid in
  ∃ w', steps ([ignore (full_scan_repo (reverse shard_range) shard_range 20 "r"); ignore (put_artifact "r" "c" toy_upload)],
      toy_rebuild_world) ([Ret tt; Ret tt], w') ∧
    run (get_artifact "r" "c") w' = (Some (Ok (Some toy_upload)), w') ∧
    w_kv w' !! tree_entry_key "r" "c" = None.
Proof.
  intros ?????.
  apply (@rebuild_drops_upload toy_blake3 toy_upload_serde ltac:(done) toy_rebuild_serde in_order toy_uuid
    (reverse shard_range) shard_range 20 "r" "c" toy_upload "4" toy_rebuild_world).
  - apply reverse_Permutation.
  - reflexivity.
  - by_decide.
  - apply toy_artifacts_ok.
  - apply toy_needed.
  - by_decide.
  - by_decide.
  - rewrite toy_arts_eq. by_decide.
  - by_decide.
  - reflexivity.
Defined.
