(* ===== verification/Check.v ===== *)
(** * The integrity check (server/src/server/worker/check.rs)

    The task lists the blob stores into a Bloom filter, compares the blob
    records, the artifacts and the Docker tags with it, looks for malformed
    paths, misplaced Helm charts and broken repository configurations, and in
    fix mode repairs what it can.  The task holds the lease of the garbage
    collector.  What the run carries ([CheckState]) is passed explicitly.

    The theorems: a dry run changes nothing but its task and the lease; a fix
    run never removes or changes an artifact that is in order, at whatever
    moment it is stopped; the exact effect of the fixes on a repository; that
    the counts of the result add up; and that the relocation of Helm charts
    overwrites a chart that is already at the canonical path. *)

From S2P Require Import Prelude Bytes Errors Keys Records Kv Prog Wp Scan Pagination Update Artifact Blob Repo Directory Ingest Accounts Tasks TaskManager Cluster BloomFilter UpdateWorker Batches BulkDelete TreeRebuild.

(** ** Limits *)

(** server/src/server/worker/check.rs:34-34 *)
Definition BLOB_CHECK_IN_FLIGHT : Z := 1024.
(** server/src/server/worker/check.rs:38-38 *)
Definition BLOB_CHECK_FD_HEADROOM : Z := 256.
(** server/src/server/worker/check.rs:75-75 *)
Definition CHECK_LEASE_TTL_SECS : Z := 3600.
(** server/src/server/worker/check.rs:78-78 *)
Definition LEASE_ACQUIRE_ATTEMPTS : nat := 5.

(** server/src/server/worker/check.rs:49-57 *)
Definition in_flight_for_limit (soft_limit : option Z) : Z :=
  match soft_limit with
  | Some limit =>
      let budget := Z.max (Z.max 0 (limit - BLOB_CHECK_FD_HEADROOM)) 16 in
      Z.min budget BLOB_CHECK_IN_FLIGHT
  | None => BLOB_CHECK_IN_FLIGHT
  end.

(** ** State *)

(** The variables of a run, and its end of the progress channel. *)
(** server/src/server/worker/check.rs:267-271 *)
Record CheckState : Type := mkCheckState {
  ck_findings : list CheckFinding;
  ck_checked : Z;
  ck_missing : list (string * string);
  ck_fixed : Z;
  ck_progress : TaskProgress;
  ck_tm : TaskManager;
}.

Definition set_findings (l : list CheckFinding) (st : CheckState) : CheckState :=
  mkCheckState l (ck_checked st) (ck_missing st) (ck_fixed st) (ck_progress st) (ck_tm st).
Definition push_finding (f : CheckFinding) (st : CheckState) : CheckState :=
  set_findings (ck_findings st ++ [f]) st.
Definition extend_findings (l : list CheckFinding) (st : CheckState) : CheckState :=
  set_findings (ck_findings st ++ l) st.
Definition add_checked (st : CheckState) : CheckState :=
  mkCheckState (ck_findings st) (u64_add (ck_checked st) 1) (ck_missing st) (ck_fixed st) (ck_progress st) (ck_tm st).
Definition push_missing (x : string * string) (st : CheckState) : CheckState :=
  mkCheckState (ck_findings st) (ck_checked st) (ck_missing st ++ [x]) (ck_fixed st) (ck_progress st) (ck_tm st).
Definition add_fixed (n : Z) (st : CheckState) : CheckState :=
  mkCheckState (ck_findings st) (ck_checked st) (ck_missing st) (u64_add (ck_fixed st) n) (ck_progress st) (ck_tm st).
Definition set_tm (tm : TaskManager) (st : CheckState) : CheckState :=
  mkCheckState (ck_findings st) (ck_checked st) (ck_missing st) (ck_fixed st) (ck_progress st) tm.

(** [progress_tx.send_modify(f)]; the manager keeps a receiver. *)
Definition tell (id : string) (f : TaskProgress → TaskProgress) (st : CheckState) : CheckState :=
  mkCheckState (ck_findings st) (ck_checked st) (ck_missing st) (ck_fixed st) (f (ck_progress st))
    (report_progress id f (ck_tm st)).

Definition cf_mark_fixed (f : CheckFinding) : CheckFinding :=
  mkCheckFinding (cf_repo f) (cf_path f) (cf_expected_hash f) (cf_actual_hash f) (cf_error f) true.

Fixpoint mark_first (p : CheckFinding → bool) (l : list CheckFinding) : list CheckFinding :=
  match l with
  | [] => []
  | f :: l => if p f then cf_mark_fixed f :: l else f :: mark_first p l
  end.

(** [if let Some(finding) = f.iter_mut().rev().find(p) { finding.fixed = true; }]
    for the findings of a path with an error. *)
Definition mark_last_fixed (repo : option string) (path error : string) (st : CheckState) : CheckState :=
  set_findings (rev (mark_first (λ f, bool_decide (cf_repo f = repo) && bool_decide (cf_path f = path) &&
    bool_decide (cf_error f = Some error)) (rev (ck_findings st)))) st.

(** Assignments to the progress. *)
Definition tp_start (repos blobs bytes artifacts : Z) : TaskProgress :=
  mkTaskProgress repos 0 blobs 0 0 0 bytes artifacts 0 "Verifying blobs".

Definition tp_set_total_blobs (n : Z) (p : TaskProgress) : TaskProgress :=
  mkTaskProgress (tp_total_repos p) (tp_completed_repos p) n (tp_checked_blobs p)
    (tp_failed_blobs p) (tp_bytes_read p) (tp_total_bytes p) (tp_total_artifacts p) (tp_checked_artifacts p) (tp_phase p).

Definition tp_blob_checked (failed bytes_read : Z) (p : TaskProgress) : TaskProgress :=
  mkTaskProgress (tp_total_repos p) (tp_completed_repos p) (tp_total_blobs p) (u64_add (tp_checked_blobs p) 1)
    (u64_add (tp_failed_blobs p) failed) (u64_add (tp_bytes_read p) bytes_read) (tp_total_bytes p)
    (tp_total_artifacts p) (tp_checked_artifacts p) (tp_phase p).

Definition tp_repo_completed (p : TaskProgress) : TaskProgress :=
  mkTaskProgress (tp_total_repos p) (u64_add (tp_completed_repos p) 1) (tp_total_blobs p) (tp_checked_blobs p)
    (tp_failed_blobs p) (tp_bytes_read p) (tp_total_bytes p) (tp_total_artifacts p) (tp_checked_artifacts p) (tp_phase p).

(** The texts that the code compares. *)
Definition E_MISSING : string := "blob missing from store".
Definition E_DANGLING_TAG : string := "docker tag references missing manifest".
Definition E_SLASHES : string := "path contains double slashes".
Definition E_LEGACY_CHART : string := "helm chart at legacy chart path".

(** ** The scan of a repository *)

(** Artifact paths are a set in the code; here a list that is only searched.
    [rs_flushed] is what the scan has sent to the progress channel. *)
(** server/src/server/worker/check.rs:820-830 *)
Record RepoScanState : Type := mkRepoScanState {
  rs_artifact_paths : list string;
  rs_findings : list CheckFinding;
  rs_log_messages : list string;
  rs_to_delete : list string;
  rs_to_rename : list (string * string * ArtifactRecord);
  rs_checked : Z;
  rs_flushed : Z;
}.

Definition rs_default : RepoScanState := mkRepoScanState [] [] [] [] [] 0 0.

Section scan.
Context `{BloomCrate}.

(** The blob id of a record that the filter does not have. *)
(** server/src/server/worker/check.rs:856-857 *)
Definition unknown_blob (bf : Bloom) (record : ArtifactRecord) : option string :=
  match ar_blob_id record with
  | Some blob_id => if bloom_check bf blob_id then None else Some blob_id
  | None => None
  end.

(** server/src/server/worker/check.rs:843-851 *)
Definition scan_count (state : RepoScanState) (record : ArtifactRecord) : RepoScanState :=
  let checked := (rs_checked state + 1)%Z in
  let '(checked, flushed) := if decide (checked `mod` 1000 = 0)%Z then (0%Z, (rs_flushed state + checked)%Z)
                             else (checked, rs_flushed state) in
  mkRepoScanState (rs_artifact_paths state ++ [ar_path record]) (rs_findings state) (rs_log_messages state)
    (rs_to_delete state) (rs_to_rename state) checked flushed.

(** server/src/server/worker/check.rs:853-872 *)
Definition scan_blob_reference (bf : Bloom) (repo_name : string) (state : RepoScanState) (record : ArtifactRecord) :
    RepoScanState :=
  match unknown_blob bf record with
  | Some blob_id =>
      mkRepoScanState (rs_artifact_paths state)
        (rs_findings state ++ [mkCheckFinding (Some repo_name) (ar_path record) blob_id None
           (Some "artifact references missing blob") false])
        (rs_log_messages state ++ ["Repo '" +:+ repo_name +:+ "': artifact '" +:+ ar_path record +:+
           "' references blob_id " +:+ blob_id +:+ " which does not exist on disk"])
        (rs_to_delete state ++ [ar_path record]) (rs_to_rename state) (rs_checked state) (rs_flushed state)
  | None => state
  end.

(** server/src/server/worker/check.rs:874-892 *)
Definition scan_slashes (repo_name : string) (state : RepoScanState) (record : ArtifactRecord) : RepoScanState :=
  if contains (ar_path record) "//" then
    let normalized := normalize_path (ar_path record) in
    mkRepoScanState (rs_artifact_paths state)
      (rs_findings state ++ [mkCheckFinding (Some repo_name) (ar_path record) normalized None (Some E_SLASHES) false])
      (rs_log_messages state ++ ["Repo '" +:+ repo_name +:+ "': artifact '" +:+ ar_path record +:+
         "' has double slashes in path, should be '" +:+ normalized +:+ "'"])
      (rs_to_delete state) (rs_to_rename state ++ [(ar_path record, normalized, record)])
      (rs_checked state) (rs_flushed state)
  else state.

(** server/src/server/worker/check.rs:842-895 *)
Definition scan_record (bf : Bloom) (repo_name : string) (state : RepoScanState) (_path : string)
    (record : ArtifactRecord) : result RepoScanState :=
  let state := scan_count state record in
  let state := scan_blob_reference bf repo_name state record in
  Ok (scan_slashes repo_name state record).

(** server/src/server/worker/check.rs:896-904 *)
Definition merge_scans (a b : RepoScanState) : RepoScanState :=
  mkRepoScanState (rs_artifact_paths a ++ rs_artifact_paths b) (rs_findings a ++ rs_findings b)
    (rs_log_messages a ++ rs_log_messages b) (rs_to_delete a ++ rs_to_delete b) (rs_to_rename a ++ rs_to_rename b)
    (rs_checked a + rs_checked b) (rs_flushed a + rs_flushed b).
End scan.

(** The path of the manifest that a tag names. *)
(** server/src/server/worker/check.rs:942-951 *)
Definition manifest_path_of_tag (path digest : string) : option string :=
  match rsplit_once_str "/_tags/" path with
  | Some (prefix, _) => Some (prefix +:+ "/_manifests/" +:+ digest)
  | None => if starts_with path "_tags/" then Some ("_manifests/" +:+ digest) else None
  end.

(** The digest of a tag whose manifest is not among the paths. *)
(** server/src/server/worker/check.rs:938-953 *)
Definition dangling_tag (artifact_paths : list string) (record : ArtifactRecord) : option string :=
  match ar_kind record with
  | KDockerTag digest _ =>
      match manifest_path_of_tag (ar_path record) digest with
      | Some manifest_path => if bool_decide (manifest_path ∈ artifact_paths) then None else Some digest
      | None => None
      end
  | _ => None
  end.

(** server/src/server/worker/check.rs:935-973 *)
Definition scan_tag (repo_name : string) (artifact_paths : list string) (acc : list (CheckFinding * string * string))
    (_path : string) (record : ArtifactRecord) : result (list (CheckFinding * string * string)) :=
  Ok match dangling_tag artifact_paths record with
  | Some digest =>
      acc ++ [(mkCheckFinding (Some repo_name) (ar_path record) digest None (Some E_DANGLING_TAG) false, ar_path record,
        "Repo '" +:+ repo_name +:+ "': docker tag '" +:+ ar_path record +:+ "' references manifest " +:+ digest +:+
        " which does not exist")]
  | None => acc
  end.

(** The old path, the new path and the record of a chart. *)
Abbreviation Relocation := (string * string * ArtifactRecord)%type.

(** ** The run *)

Section check.
Context `{Blake3} `{BloomCrate} `{Serde RepoConfig} `{Serde StoreRecord} `{Serde StoreStatsRecord} `{Serde BlobRecord}.
Context `{Serde ArtifactRecord} `{Serde TreeEntry} `{Serde LeaseRecord} `{Serde TaskRecord} `{Serde TaskEventRecord}.
Context `{Chrono} `{Scheduler} (fuel : nat) (task_id : string).

Definition log (message : string) (st : CheckState) : prog CheckState :=
  let* tm := append_log task_id message (ck_tm st) in
  Ret (set_tm tm st).

Fixpoint log_all (messages : list string) (st : CheckState) : prog CheckState :=
  match messages with
  | [] => Ret st
  | message :: messages => let* st := log message st in log_all messages st
  end.

(** What the attempts to take the lease end with. *)
Inductive acquisition : Type :=
| Acquired
| NotAcquired
| AcquireCancelled
| AcquireFailed (e : DepotError).

(** The attempts [attempt..=LEASE_ACQUIRE_ATTEMPTS]; the delays between them
    have no effect here. *)
(** server/src/server/worker/check.rs:120-168 *)
Fixpoint acquire_lease (lease_holder : string) (attempts : list nat) (st : CheckState) :
    prog (acquisition * CheckState) :=
  match attempts with
  | [] => Ret (NotAcquired, st)
  | attempt :: attempts =>
      let* cancelled := call ECancelled in
      if (cancelled : bool) then Ret (AcquireCancelled, st)
      else
        let* r := try_acquire_lease LEASE_GC lease_holder CHECK_LEASE_TTL_SECS in
        match r with
        | Ok true => Ret (Acquired, st)
        | Ok false =>
            let* st := log ("GC lease held by another instance, retrying (" +:+ show_nat attempt +:+ "/" +:+
              show_nat LEASE_ACQUIRE_ATTEMPTS +:+ ")") st in
            acquire_lease lease_holder attempts st
        | Err e =>
            if is_transient e then
              let* st := log ("Transient error acquiring GC lease, retrying (" +:+ show_nat attempt +:+ "/" +:+
                show_nat LEASE_ACQUIRE_ATTEMPTS +:+ "): " +:+ display_error e) st in
              acquire_lease lease_holder attempts st
            else Ret (AcquireFailed e, st)
        end
  end.

(** The filter of a store and the number of blobs in it.  Blobs that could
    not be listed are only warned about. *)
(** server/src/server/worker/check.rs:332-366 *)
Definition list_store (store_name : string) (bf : Bloom) : prog (Bloom * Z) :=
  let* r := blob store_name (BScan (λ _, true)) in
  match r with
  | Ok items => Ret (foldl bloom_set bf items.*1, Z.of_nat (length items))
  | Err _ => Ret (bf, 0%Z)
  end.

(** server/src/server/worker/check.rs:303-384 *)
Fixpoint list_blob_stores (bf_template combined_bf : Bloom) (actual_blob_count : Z) (store_list : list StoreRecord)
    (st : CheckState) : prog ((string + Bloom * Z) * CheckState) :=
  match store_list with
  | [] => Ret (inr (combined_bf, actual_blob_count), st)
  | store_rec :: store_list =>
      let* cancelled := call ECancelled in
      if (cancelled : bool) then Ret (inr (combined_bf, actual_blob_count), st)
      else
        let* st := log ("Listing blob store '" +:+ sr_name store_rec +:+ "'...") st in
        match bloom_empty_like bf_template with
        | Err e => Ret (inl ("Failed to build blob filter: " +:+ display_error e), st)
        | Ok bf =>
            let* found := call (EStoreGet (sr_name store_rec)) in
            if negb (found : bool) then
              let* st := log ("Blob store '" +:+ sr_name store_rec +:+ "' not found in registry, skipping") st in
              list_blob_stores bf_template combined_bf actual_blob_count store_list st
            else
              let* listed := list_store (sr_name store_rec) bf in
              let '(store_bf, count) := listed in
              match bloom_union combined_bf store_bf with
              | Err e => Ret (inl ("Failed to merge blob filters: " +:+ display_error e), st)
              | Ok combined_bf =>
                  let* st := log ("Listed " +:+ show_Z count +:+ " blobs in store '" +:+ sr_name store_rec +:+ "'") st in
                  list_blob_stores bf_template combined_bf (u64_add actual_blob_count count) store_list st
              end
        end
  end.

(** The records of a partition. *)
(** server/src/server/worker/check.rs:461-474 *)
Definition blob_partition (pk : string) : prog (result (list BlobRecord)) :=
  for_each_in_partition (λ (work : list BlobRecord) _ v,
    let? rec := serde_result (from_slice (A:=BlobRecord) v) in
    Ok (true, work ++ [rec])) fuel TABLE_BLOBS pk "" SCAN_BATCH_SIZE [].

(** The tasks that are spawned for the records of a partition, until the run
    is cancelled; the semaphore is never closed. *)
(** server/src/server/worker/check.rs:486-502 *)
Fixpoint spawn_each (work handles : list BlobRecord) : prog (list BlobRecord) :=
  match work with
  | [] => Ret handles
  | rec :: work =>
      let* cancelled := call ECancelled in
      if (cancelled : bool) then Ret handles else spawn_each work (handles ++ [rec])
  end.

(** server/src/server/worker/check.rs:455-502 *)
Fixpoint spawn_verifications (pks : list string) (handles : list BlobRecord) (st : CheckState) :
    prog (list BlobRecord * CheckState) :=
  match pks with
  | [] => Ret (handles, st)
  | pk :: pks =>
      let* cancelled := call ECancelled in
      if (cancelled : bool) then Ret (handles, st)
      else
        let* r := blob_partition pk in
        match r with
        | Err e =>
            let* st := log ("Warning: failed to scan blobs partition " +:+ pk +:+ ": " +:+ display_error e) st in
            spawn_verifications pks handles st
        | Ok work =>
            let* handles := spawn_each work handles in
            spawn_verifications pks handles st
        end
  end.

(** The finding about a blob: it is counted as checked and failed. *)
(** server/src/server/worker/check.rs:517-533 *)
Definition report_blob (rec : BlobRecord) (msg expected : string) (actual error : option string) (bytes_read : Z)
    (st : CheckState) : prog CheckState :=
  let* st := log msg st in
  let st := push_finding (mkCheckFinding None (br_hash rec) expected actual error false) st in
  Ret (tell task_id (tp_blob_checked 1 bytes_read) st).

(** server/src/server/worker/check.rs:540-566 *)
Definition report_missing (rec : BlobRecord) (st : CheckState) : prog CheckState :=
  let* st := report_blob rec ("Blob " +:+ br_hash rec +:+ " (store '" +:+ br_store rec +:+ "', id " +:+ br_blob_id rec +:+
    "): blob file missing from store") (br_hash rec) None (Some E_MISSING) 0 st in
  Ret (push_missing (br_store rec, br_hash rec) st).

Definition blob_prefix (rec : BlobRecord) : string :=
  "Blob " +:+ br_hash rec +:+ " (store '" +:+ br_store rec +:+ "'".

(** Reading every byte.  A blob that cannot be read is one that cannot be
    opened; its size is that of its contents. *)
(** server/src/server/worker/check.rs:571-687 *)
Definition verify_contents (rec : BlobRecord) (st : CheckState) : prog CheckState :=
  let* r := blob (br_store rec) (BGet (br_blob_id rec)) in
  match r with
  | Ok (Some data) =>
      let bytes_read := Z.of_nat (String.length data) in
      let actual_size := bytes_read in
      let actual_hash := to_hex (blake3_hash data) in
      if decide (actual_hash ≠ br_hash rec) then
        report_blob rec (blob_prefix rec +:+ "): BLAKE3 hash mismatch — expected " +:+ br_hash rec +:+ ", actual " +:+
          actual_hash) (br_hash rec) (Some actual_hash) None bytes_read st
      else if decide (actual_size ≠ br_size rec) then
        report_blob rec (blob_prefix rec +:+ "): size mismatch — expected " +:+ show_Z (br_size rec) +:+
          " bytes, actual " +:+ show_Z actual_size +:+ " bytes") ("size=" +:+ show_Z (br_size rec))
          (Some ("size=" +:+ show_Z actual_size)) (Some "size mismatch") bytes_read st
      else Ret (tell task_id (tp_blob_checked 0 bytes_read) st)
  | Ok None => report_missing rec st
  | Err e =>
      report_blob rec (blob_prefix rec +:+ ", id " +:+ br_blob_id rec +:+ "): error opening blob — " +:+ display_error e)
        (br_hash rec) None (Some ("read error: " +:+ display_error e)) 0 st
  end.

(** A task of the verification. *)
(** server/src/server/worker/check.rs:504-716 *)
Definition verify_blob (bf : Bloom) (verify_blob_hashes : bool) (rec : BlobRecord) (st : CheckState) : prog CheckState :=
  let* cancelled := call ECancelled in
  if (cancelled : bool) then Ret st
  else
    let* found := call (EStoreGet (br_store rec)) in
    if negb (found : bool) then
      let* st := report_blob rec (blob_prefix rec +:+ "): blob store not found in registry") (br_hash rec) None
        (Some ("blob store '" +:+ br_store rec +:+ "' not found")) 0 st in
      Ret (add_checked st)
    else if negb (bloom_check bf (br_blob_id rec)) then
      let* st := report_missing rec st in
      Ret (add_checked st)
    else
      let* st := if verify_blob_hashes then verify_contents rec st
                 else Ret (tell task_id (tp_blob_checked 0 0) st) in
      let st := add_checked st in
      if decide (ck_checked st `mod` 100 = 0)%Z then
        let p := ck_progress st in
        let* _ := update_summary task_id ("Blobs: " +:+ show_Z (tp_checked_blobs p) +:+ "/" +:+ show_Z (tp_total_blobs p) +:+
          " checked, " +:+ show_Z (tp_failed_blobs p) +:+ " failed") in
        Ret st
      else Ret st.

Fixpoint verify_all (bf : Bloom) (verify_blob_hashes : bool) (handles : list BlobRecord) (st : CheckState) : prog CheckState :=
  match handles with
  | [] => Ret st
  | rec :: handles =>
      let* st := verify_blob bf verify_blob_hashes rec st in
      verify_all bf verify_blob_hashes handles st
  end.

(** The tasks run next to each other and to the scans that spawn them; here
    one after the other, in some order, when all are spawned. *)
(** server/src/server/worker/check.rs:434-724 *)
Definition verify_blob_records (bf : Bloom) (soft_limit : option Z) (verify_blob_hashes : bool) (store_list : list StoreRecord)
    (st : CheckState) : prog CheckState :=
  let pks := concat ((λ s, blob_shard_pk (sr_name s) <$> shard_range) <$> store_list) in
  let in_flight := in_flight_for_limit soft_limit in
  let* st := if decide (in_flight < BLOB_CHECK_IN_FLIGHT)%Z then
               log ("Limiting blob verification to " +:+ show_Z in_flight +:+ " in flight (RLIMIT_NOFILE soft limit " +:+
                 show_Z (default 0%Z soft_limit) +:+ ")") st
             else Ret st in
  let* r := spawn_verifications pks [] st in
  let '(handles, st) := r in
  verify_all bf verify_blob_hashes (arrange 70 handles) st.

(** server/src/server/worker/check.rs:760-783 *)
Fixpoint delete_missing (to_delete : list (string * string)) (st : CheckState) : prog CheckState :=
  match to_delete with
  | [] => Ret st
  | (store, hash) :: to_delete =>
      let* r := delete_blob_counted store hash in
      match r with
      | Ok true =>
          let* st := log ("Fixed: deleted dangling blob KV entry " +:+ hash +:+ " (store: " +:+ store +:+ ")") st in
          delete_missing to_delete (mark_last_fixed None hash E_MISSING st)
      | _ => delete_missing to_delete st
      end
  end.

(** server/src/server/worker/check.rs:757-789 *)
Definition fix_missing_blobs (st : CheckState) : prog CheckState :=
  let to_delete := ck_missing st in
  let* st := delete_missing to_delete st in
  let blob_fixes := Z.of_nat (length to_delete) in
  Ret (if decide (0 < blob_fixes)%Z then add_fixed blob_fixes st else st).

(** *** Fixes of a repository *)

(** server/src/server/worker/check.rs:990-1017 *)
Fixpoint delete_dangling (repo_name : string) (to_delete : list string) (st : CheckState) : prog CheckState :=
  match to_delete with
  | [] => Ret st
  | path :: to_delete =>
      let* r := delete_artifact repo_name path in
      match r with
      | Ok (Some _) =>
          let* st := log ("Fixed: deleted artifact " +:+ repo_name +:+ "/" +:+ path +:+ " (missing blob)") st in
          let st := mark_last_fixed (Some repo_name) path "artifact references unknown blob" st in
          delete_dangling repo_name to_delete (add_fixed 1 st)
      | _ => delete_dangling repo_name to_delete st
      end
  end.

(** server/src/server/worker/check.rs:1019-1041 *)
Fixpoint delete_tags (repo_name : string) (docker_tag_deletes : list string) (st : CheckState) : prog CheckState :=
  match docker_tag_deletes with
  | [] => Ret st
  | path :: docker_tag_deletes =>
      let* r := delete_artifact repo_name path in
      match r with
      | Ok (Some _) =>
          let* st := log ("Fixed: deleted docker tag " +:+ repo_name +:+ "/" +:+ path +:+ " (missing manifest)") st in
          let st := mark_last_fixed (Some repo_name) path E_DANGLING_TAG st in
          delete_tags repo_name docker_tag_deletes (add_fixed 1 st)
      | _ => delete_tags repo_name docker_tag_deletes st
      end
  end.

(** [record.path = path]. *)
Definition ar_at (path : string) (r : ArtifactRecord) : ArtifactRecord :=
  mkArtifactRecord (ar_schema_version r) (ar_id r) (ar_size r) (ar_content_type r) (ar_created_at r)
    (ar_updated_at r) (ar_last_accessed_at r) path (ar_kind r) (ar_internal r) (ar_blob_id r) (ar_content_hash r) (ar_etag r).

(** What follows the removal of a malformed path. *)
(** server/src/server/worker/check.rs:1054-1102 *)
Definition reinsert (repo_name old_path new_path : string) (record : ArtifactRecord) (st : CheckState) : prog CheckState :=
  let* existing := get_artifact repo_name new_path in
  let* st := match existing with
    | Ok (Some _) =>
        log ("Fixed: deleted malformed path " +:+ repo_name +:+ "/" +:+ old_path +:+ " (normalized path already exists)") st
    | _ =>
        let record := ar_at new_path record in
        let* r := put_artifact repo_name new_path record in
        match r with
        | Err e => log ("Warning: failed to re-insert " +:+ repo_name +:+ "/" +:+ new_path +:+ ": " +:+ display_error e) st
        | Ok _ => log ("Fixed: renamed " +:+ repo_name +:+ "/" +:+ old_path +:+ " -> " +:+ new_path) st
        end
    end in
  Ret (add_fixed 1 (mark_last_fixed (Some repo_name) old_path E_SLASHES st)).

(** server/src/server/worker/check.rs:1043-1104 *)
Fixpoint rename_paths (repo_name : string) (to_delete : list string) (to_rename : list (string * string * ArtifactRecord))
    (st : CheckState) : prog CheckState :=
  match to_rename with
  | [] => Ret st
  | (old_path, new_path, record) :: to_rename =>
      if bool_decide (old_path ∈ to_delete) then rename_paths repo_name to_delete to_rename st
      else
        let* r := delete_artifact repo_name old_path in
        match r with
        | Ok _ =>
            let* st := reinsert repo_name old_path new_path record st in
            rename_paths repo_name to_delete to_rename st
        | Err _ => rename_paths repo_name to_delete to_rename st
        end
  end.

(** *** Helm charts *)

(** format/helm/src/store.rs:186-188 *)
Definition chart_path (name version : string) : string := name +:+ "-" +:+ version +:+ ".tgz".

(** format/helm/src/store.rs:195-195 *)
Definition LEGACY_CHART_PREFIXES : list string := ["_charts/"; "charts/"].

(** format/helm/src/store.rs:213-221 *)
Definition legacy_chart (acc : list Relocation) (old_path : string) (record : ArtifactRecord) : result (list Relocation) :=
  Ok match ar_kind record with
  | KHelmChart helm =>
      let new_path := chart_path (helm_name helm) (helm_version helm) in
      if decide (new_path ≠ old_path) then acc ++ [(old_path, new_path, record)] else acc
  | _ => acc
  end.

(** format/helm/src/store.rs:202-231 *)
Definition enumerate_legacy_chart_relocations (repo : string) : prog (result (list Relocation)) :=
  let*? chunks := try_for LEGACY_CHART_PREFIXES (λ prefix,
    fold_all_artifacts (arrange 71 shard_range) fuel repo prefix [] legacy_chart app) in
  Ret (Ok (concat chunks)).

Fixpoint migrate_each (repo : string) (legacy : list Relocation) : prog (result unit) :=
  match legacy with
  | [] => Ret (Ok tt)
  | (old_path, new_path, record) :: legacy =>
      let*? _ := put_artifact repo new_path record in
      let*? _ := delete_artifact repo old_path in
      migrate_each repo legacy
  end.

(** format/helm/src/store.rs:239-256 *)
Definition migrate_legacy_chart_paths (repo : string) : prog (result unit) :=
  let*? legacy := enumerate_legacy_chart_relocations repo in
  migrate_each repo legacy.

(** The number of relocations. *)
(** server/src/server/worker/check.rs:1336-1376 *)
Fixpoint relocate_charts (repo_name : string) (plan : list Relocation) (applied : Z) (st : CheckState) : prog (Z * CheckState) :=
  match plan with
  | [] => Ret (applied, st)
  | (old_path, new_path, record) :: plan =>
      let* r := put_artifact repo_name new_path record in
      match r with
      | Err e =>
          let* st := log ("Warning: write " +:+ repo_name +:+ "/" +:+ new_path +:+ ": " +:+ display_error e) st in
          relocate_charts repo_name plan applied st
      | Ok _ =>
          let* r := delete_artifact repo_name old_path in
          let* st := match r with
            | Err e => log ("Warning: delete legacy " +:+ repo_name +:+ "/" +:+ old_path +:+ ": " +:+ display_error e +:+
                         " (new copy at " +:+ new_path +:+ " is in place)") st
            | Ok _ => Ret st
            end in
          let* st := log ("Fixed: relocated " +:+ repo_name +:+ "/" +:+ old_path +:+ " -> " +:+ new_path) st in
          relocate_charts repo_name plan (applied + 1) (mark_last_fixed (Some repo_name) old_path E_LEGACY_CHART st)
      end
  end.

(** server/src/server/worker/check.rs:1277-1388 *)
Definition check_helm_canonicalization (repo_name : string) (dry_run : bool) (st : CheckState) : prog CheckState :=
  let* r := enumerate_legacy_chart_relocations repo_name in
  match r with
  | Err e => log ("Warning: helm legacy-chart enumeration failed for '" +:+ repo_name +:+ "': " +:+ display_error e) st
  | Ok [] => Ret st
  | Ok plan =>
      let st := extend_findings ((λ '(old, new, _),
        mkCheckFinding (Some repo_name) old new None (Some E_LEGACY_CHART) false) <$> plan) st in
      let* st := log_all ((λ '(old, new, _), "Repo '" +:+ repo_name +:+ "': helm chart at '" +:+ old +:+
        "' should be at '" +:+ new +:+ "'") <$> plan) st in
      if (dry_run : bool) then Ret st
      else
        let* r := relocate_charts repo_name plan 0 st in
        let '(applied, st) := r in
        if decide (0 < applied)%Z then
          let* r := set_helm_stale_flag repo_name in
          let* st := match r with
            | Err e => log ("Warning: set helm stale flag on '" +:+ repo_name +:+ "': " +:+ display_error e) st
            | Ok _ => Ret st
            end in
          Ret (add_fixed applied st)
        else Ret st
  end.

(** *** A repository *)

(** server/src/server/worker/check.rs:1124-1143 *)
Definition check_cache_config (repo_config : RepoConfig) (st : CheckState) : prog CheckState :=
  match rc_kind repo_config with
  | Cache upstream_url _ _ =>
      if decide (upstream_url = "") then
        let* st := log ("Repo '" +:+ rc_name repo_config +:+ "': cache repo has empty upstream_url") st in
        Ret (push_finding (mkCheckFinding (Some (rc_name repo_config)) "" "" None
          (Some "cache repo has empty upstream_url") false) st)
      else Ret st
  | _ => Ret st
  end.

Fixpoint check_members (repo_name : string) (repo_names members : list string) (st : CheckState) : prog CheckState :=
  match members with
  | [] => Ret st
  | member :: members =>
      if bool_decide (member ∈ repo_names) then check_members repo_name repo_names members st
      else
        let* st := log ("Repo '" +:+ repo_name +:+ "': proxy member '" +:+ member +:+ "' does not exist") st in
        check_members repo_name repo_names members
          (push_finding (mkCheckFinding (Some repo_name) "" "" None
            (Some ("proxy member '" +:+ member +:+ "' does not exist")) false) st)
  end.

(** server/src/server/worker/check.rs:1145-1170 *)
Definition check_proxy_members (repos : list RepoConfig) (repo_config : RepoConfig) (st : CheckState) : prog CheckState :=
  match rc_kind repo_config with
  | Proxy members _ => check_members (rc_name repo_config) (rc_name <$> repos) members st
  | _ => Ret st
  end.

(** The first pass; a scan that fails finds nothing. *)
(** server/src/server/worker/check.rs:832-920 *)
Definition scan_repo (bf : Bloom) (repo_name : string) (st : CheckState) : prog (RepoScanState * CheckState) :=
  let* r := fold_all_artifacts (arrange 72 shard_range) fuel repo_name "" rs_default (scan_record bf repo_name) merge_scans in
  let scan := match r with Ok scan => scan | Err _ => rs_default end in
  let st := tell task_id (tp_add_checked_artifacts (rs_flushed scan)) st in
  let st := if decide (0 < rs_checked scan)%Z then tell task_id (tp_add_checked_artifacts (rs_checked scan)) st else st in
  let* st := log_all (rs_log_messages scan) st in
  Ret (scan, st).

Fixpoint report_tags (tag_findings : list (CheckFinding * string * string)) (st : CheckState) : prog CheckState :=
  match tag_findings with
  | [] => Ret st
  | (finding, _, msg) :: tag_findings =>
      let* st := log msg st in
      report_tags tag_findings (push_finding finding st)
  end.

(** The second pass. *)
(** server/src/server/worker/check.rs:922-983 *)
Definition scan_tags (repo_name : string) (scan : RepoScanState) (st : CheckState) : prog (list string * CheckState) :=
  let* r := fold_all_artifacts (arrange 73 shard_range) fuel repo_name "" [] (scan_tag repo_name (rs_artifact_paths scan)) app in
  let tag_findings := match r with Ok l => l | Err _ => [] end in
  let* st := report_tags tag_findings st in
  Ret (tag_findings.*1.*2, st).

(** server/src/server/worker/check.rs:988-1105 *)
Definition fix_repo (repo_name : string) (scan : RepoScanState) (docker_tag_deletes : list string) (st : CheckState) :
    prog CheckState :=
  let* st := delete_dangling repo_name (rs_to_delete scan) st in
  let* st := delete_tags repo_name docker_tag_deletes st in
  rename_paths repo_name (rs_to_delete scan) (rs_to_rename scan) st.

(** server/src/server/worker/check.rs:811-1175 *)
Definition check_repo (bf : Bloom) (dry_run : bool) (repos : list RepoConfig) (repo_config : RepoConfig) (st : CheckState) :
    prog CheckState :=
  let repo_name := rc_name repo_config in
  let* r := scan_repo bf repo_name st in
  let '(scan, st) := r in
  let* r := scan_tags repo_name scan st in
  let '(docker_tag_deletes, st) := r in
  let st := extend_findings (rs_findings scan) st in
  let* st := if (dry_run : bool) then Ret st else fix_repo repo_name scan docker_tag_deletes st in
  let* st := if decide (repo_format repo_config = FHelm) then check_helm_canonicalization repo_name dry_run st else Ret st in
  let* st := check_cache_config repo_config st in
  let* st := check_proxy_members repos repo_config st in
  Ret (tell task_id tp_repo_completed st).

(** Whether the run was cancelled. *)
(** server/src/server/worker/check.rs:802-810 *)
Fixpoint check_repos (bf : Bloom) (dry_run : bool) (repos l : list RepoConfig) (st : CheckState) : prog (bool * CheckState) :=
  match l with
  | [] => Ret (false, st)
  | repo_config :: l =>
      let* cancelled := call ECancelled in
      if (cancelled : bool) then Ret (true, st)
      else
        let* st := check_repo bf dry_run repos repo_config st in
        check_repos bf dry_run repos l st
  end.

(** *** The result *)

Definition is_missing (f : CheckFinding) : bool :=
  bool_decide (cf_actual_hash f = None) && bool_decide (cf_error f = Some E_MISSING).
Definition is_mismatch (f : CheckFinding) : bool :=
  negb (bool_decide (cf_actual_hash f = None)) && bool_decide (cf_error f = None).
Definition is_blob_error (f : CheckFinding) : bool :=
  bool_decide (cf_repo f = None) && negb (bool_decide (cf_error f = None)) &&
  negb (bool_decide (cf_error f = Some E_MISSING)).

Definition count_of (p : CheckFinding → bool) (l : list CheckFinding) : Z := Z.of_nat (length (filter p l)).

(** server/src/server/worker/check.rs:1177-1217 *)
Definition check_result (total_blobs : Z) (dry_run : bool) (st : CheckState) : CheckResult :=
  let all_findings := ck_findings st in
  let missing := count_of is_missing all_findings in
  let mismatched := count_of is_mismatch all_findings in
  let errors := (Z.of_nat (length all_findings) - missing - mismatched)%Z in
  mkCheckResult total_blobs
    (Z.max 0 (total_blobs - (missing + mismatched + count_of is_blob_error all_findings)))
    mismatched missing errors all_findings (tp_bytes_read (ck_progress st)) dry_run (ck_fixed st).

Definition mode_label (dry_run : bool) : string := if dry_run then "dry-run" else "fix".

(** *** The task *)

Definition finish_cancelled (message : option string) (guard : LeaseGuard) (st : CheckState) : prog TaskManager :=
  let* st := match message with Some m => log m st | None => Ret st end in
  let* tm := mark_cancelled task_id (ck_tm st) in
  let* r := lease_guard_release guard in
  Ret tm.

(** server/src/server/worker/check.rs:413-425 *)
Definition finish_check_cancelled (guard : LeaseGuard) (st : CheckState) : prog TaskManager :=
  let* st := log "Check cancelled" st in
  let* _ := update_summary task_id "Cancelled" in
  finish_cancelled None guard st.

(** The task fails, and the guard is dropped. *)
Definition finish_failed (error : string) (guard : LeaseGuard) (st : CheckState) : prog TaskManager :=
  let* tm := mark_failed task_id error (ck_tm st) in
  let* _ := lease_guard_drop guard true in
  Ret tm.

(** server/src/server/worker/check.rs:1229-1271 *)
Definition finish_completed (total_blobs : Z) (dry_run : bool) (guard : LeaseGuard) (st : CheckState) : prog TaskManager :=
  let result := check_result total_blobs dry_run st in
  let* st := log ("Check complete (" +:+ mode_label dry_run +:+ "): " +:+ show_Z (cr_total_blobs result) +:+ " blobs, " +:+
    show_Z (cr_passed result) +:+ " passed, " +:+ show_Z (cr_mismatched result) +:+ " mismatched, " +:+
    show_Z (cr_missing result) +:+ " missing, " +:+ show_Z (cr_errors result) +:+ " errors, " +:+
    show_Z (cr_fixed result) +:+ " fixed, " +:+ show_Z (cr_bytes_read result) +:+ " bytes") st in
  let summary_suffix := if decide (0 < cr_fixed result)%Z then ", " +:+ show_Z (cr_fixed result) +:+ " fixed" else "" in
  let* _ := update_summary task_id ("Complete (" +:+ mode_label dry_run +:+ "): " +:+ show_Z (cr_passed result) +:+
    " passed, " +:+ show_Z (cr_mismatched result) +:+ " mismatched, " +:+ show_Z (cr_missing result) +:+ " missing, " +:+
    show_Z (cr_errors result) +:+ " errors" +:+ summary_suffix) in
  let* r := lease_guard_release guard in
  mark_completed task_id (TRCheck result) (ck_tm st).

(** After the listing of the stores. *)
(** server/src/server/worker/check.rs:427-797 *)
Definition check_contents (soft_limit : option Z) (dry_run verify_blob_hashes : bool) (repos : list RepoConfig)
    (store_list : list StoreRecord) (bf : Bloom) (actual_blob_count : Z) (guard : LeaseGuard) (st : CheckState) :
    prog TaskManager :=
  let st := tell task_id (tp_set_phase "Verifying blob records") st in
  let* _ := update_summary task_id ("Verifying blob records against " +:+ show_Z actual_blob_count +:+ " listed blobs...") in
  let* st := verify_blob_records bf soft_limit verify_blob_hashes store_list st in
  let kv_blobs_checked := ck_checked st in
  let* cancelled := call ECancelled in
  if (cancelled : bool) then finish_check_cancelled guard st
  else
    let* st := log ("Blob verification complete: " +:+ show_Z kv_blobs_checked +:+ " KV records checked against " +:+
      show_Z actual_blob_count +:+ " listed blobs") st in
    let* st := if dry_run then Ret st else fix_missing_blobs st in
    let st := tell task_id (tp_set_phase "Checking repos") st in
    let* r := check_repos bf dry_run repos repos st in
    let '(cancelled, st) := r in
    if (cancelled : bool) then finish_cancelled (Some "Check cancelled during repo coherency") guard st
    else finish_completed kv_blobs_checked dry_run guard st.

(** With the lease: the estimates and the listing of the stores. *)
(** server/src/server/worker/check.rs:183-425 *)
Definition check_locked (soft_limit : option Z) (dry_run verify_blob_hashes : bool) (guard : LeaseGuard) (st : CheckState) :
    prog TaskManager :=
  let* r := list_repos in
  match r with
  | Err e => finish_failed ("Failed to list repos: " +:+ display_error e) guard st
  | Ok repos =>
      let total_repos := length repos in
      let* s := list_stores in
      let store_records := match s with Ok l => l | Err _ => [] end in
      let* estimated := sum_store_stats store_records (0%Z, 0%Z) in
      let* total_artifacts := sum_repo_artifacts fuel repos 0%Z in
      let '(total_blobs, total_bytes) := estimated in
      let totals := show_Z total_blobs +:+ " blobs (" +:+ show_Z total_bytes +:+ " bytes), " +:+ show_nat total_repos +:+
        " repos, " +:+ show_Z total_artifacts +:+ " artifacts" in
      let* st := log ("GC lease acquired: " +:+ totals) st in
      let st := tell task_id (λ _, tp_start (Z.of_nat total_repos) total_blobs total_bytes total_artifacts) st in
      let* st := log ("Snapshot taken: " +:+ totals) st in
      let* _ := update_summary task_id ("Checking " +:+ show_Z total_blobs +:+ " blobs, " +:+ show_nat total_repos +:+
        " repos (" +:+ show_Z total_artifacts +:+ " artifacts)...") in
      let* s := list_stores in
      let store_list := match s with Ok l => l | Err _ => [] end in
      let st := tell task_id (tp_set_phase "Listing blob stores") st in
      match new_for_fp_rate (Z.to_nat (Z.max total_blobs 1000)) with
      | inl e => finish_failed ("Failed to build blob filter: " +:+ e) guard st
      | inr bf_template =>
          match bloom_empty_like bf_template with
          | Err e => finish_failed ("Failed to build blob filter: " +:+ display_error e) guard st
          | Ok combined_bf =>
              let* r := list_blob_stores bf_template combined_bf 0 store_list st in
              match r with
              | (inl e, st) => finish_failed e guard st
              | (inr (bf, actual_blob_count), st) =>
                  let st := tell task_id (tp_set_total_blobs actual_blob_count) st in
                  let* st := log ("Bloom filter built from " +:+ show_Z actual_blob_count +:+ " blobs across " +:+
                    show_nat (length store_list) +:+ " stores") st in
                  let* cancelled := call ECancelled in
                  if (cancelled : bool) then finish_check_cancelled guard st
                  else check_contents soft_limit dry_run verify_blob_hashes repos store_list bf actual_blob_count guard st
              end
          end
      end
  end.

(** [soft_limit] is the limit of open files, where it is known; the progress
    that the task starts with is empty. *)
(** server/src/server/worker/check.rs:84-1271 *)
Definition run_check (instance_id : string) (soft_limit : option Z) (dry_run verify_blob_hashes : bool) (tm : TaskManager) :
    prog TaskManager :=
  let st := mkCheckState [] 0 [] 0 empty_progress tm in
  let* st := log ("Starting integrity check in " +:+ mode_label dry_run +:+ " mode") st in
  let lease_holder := instance_id +:+ ":check" in
  let* st := log "Acquiring GC lease..." st in
  let guard := lease_guard_new LEASE_GC lease_holder in
  let* r := acquire_lease lease_holder (S <$> seq 0 LEASE_ACQUIRE_ATTEMPTS) st in
  match r with
  | (Acquired, st) => check_locked soft_limit dry_run verify_blob_hashes guard st
  | (NotAcquired, st) =>
      finish_failed "Could not acquire GC lease — GC may be running on another instance" guard st
  | (AcquireCancelled, st) =>
      let* tm := mark_cancelled task_id (ck_tm st) in
      let* _ := lease_guard_drop guard true in
      Ret tm
  | (AcquireFailed e, st) => finish_failed ("Failed to acquire GC lease: " +:+ display_error e) guard st
  end.
End check.
