(* ===== verification/CheckScan.v ===== *)
(** * What the integrity check sees

    The scans of a repository by [check_repo] (Check.v): the artifacts they
    are given, in whatever order the shards complete, and what the passes
    collect from them.  Shared by the two files on the effects of a run. *)

From S2P Require Import Prelude Bytes Errors Keys Records Kv Prog Wp Effects Scan Pagination Update Artifact Blob Repo Directory Ingest Accounts Tasks TaskManager Cluster BloomFilter UpdateWorker Batches BulkDelete TreeRebuild Check.

Section reads.
Context (W : string * string * string → Prop).

Lemma issues_read {A : Type} `{Serde A} (t pk sk : string) : issues (within_keys W) (typed_get (T:=A) t pk sk).
Proof. unfold typed_get. issues_tac. Qed.

Lemma issues_read_versioned {A : Type} `{Serde A} (t pk sk : string) :
  issues (within_keys W) (typed_get_versioned (T:=A) t pk sk).
Proof. unfold typed_get_versioned. issues_tac. Qed.

Lemma issues_list {A : Type} `{Serde A} (t pk pre : string) (n : nat) : issues (within_keys W) (typed_list (T:=A) t pk pre n).
Proof. unfold typed_list. issues_tac. Qed.

Lemma issues_for_each {St : Type} (f : St → string → bytes → result (bool * St)) fuel t pk pre n (st : St) :
  issues (within_keys W) (for_each_in_partition f fuel t pk pre n st).
Proof.
  unfold for_each_in_partition. generalize (None : option string) as c. revert st. induction fuel as [|fuel IH]; intros st c;
    cbn [for_each_loop]; issues_tac.
Qed.
End reads.
#[export] Hint Resolve issues_read issues_read_versioned issues_list issues_for_each : issues.

#[export] Hint Resolve issues_read issues_read_versioned issues_list issues_for_each : issues.

Lemma issues_fold_all `{Serde ArtifactRecord} (W : string * string * string → Prop) {St : Type} schedule fuel repo prefix (init : St)
    (f : St → string → ArtifactRecord → result St) (merge : St → St → St) :
  issues (within_keys W) (fold_all_artifacts schedule fuel repo prefix init f merge).
Proof. unfold fold_all_artifacts, fold_shard. issues_tac. Qed.
#[export] Hint Resolve issues_fold_all : issues.

(** ** Folds over a repository *)

Section folds.
Context `{Serde ArtifactRecord} `{UuidGen}.
Implicit Types (m : kvmap) (w : world kvmap).

(** More fuel, the same answer. *)
Lemma for_each_loop_mono {St : Type} (callback : St → string → bytes → result (bool * St)) fuel1 fuel2 t pk prefix hi n c st w :
  fuel1 ≤ fuel2 →
  (run (for_each_loop callback fuel1 t pk prefix hi n c st) w).1 = None ∨
  run (for_each_loop callback fuel1 t pk prefix hi n c st) w = run (for_each_loop callback fuel2 t pk prefix hi n c st) w.
Proof.
  revert fuel2 c st. induction fuel1 as [|fuel1 IH]; intros fuel2 c st Hle; [by left|].
  destruct fuel2 as [|fuel2]; [lia|].
  cbn [for_each_loop]. rewrite !run_bind_ok, !run_kv. change (kv_step ?o ?m) with (spec_store o m). cbn [spec_store fst snd].
  rewrite set_kv_id. destruct (batch_loop _ _ _ _) as [r|st']; [by right|]. destruct (done_ _); [by right|].
  destruct (last_sk _) as [sk|]; [|by right]. apply IH. lia.
Qed.

(** The batches cover the range as far as the fuel reaches. *)
Lemma for_each_any {St : Type} (callback : St → string → bytes → result (bool * St)) fuel t pk prefix n st w :
  0 < n →
  run (for_each_in_partition callback fuel t pk prefix n st) w =
    (Some (fold_until callback (entries (w_kv w) t pk prefix) st), w) ∨
  run (for_each_in_partition callback fuel t pk prefix n st) w = (None, w) ∧ fuel ≤ length (part (w_kv w) t pk).
Proof.
  intros Hn. destruct (decide (length (part (w_kv w) t pk) < fuel)) as [Hf|Hf]; [left; by apply for_each_spec|].
  assert (issues reads (for_each_in_partition callback fuel t pk prefix n st)) as Hr by apply issues_for_each.
  pose proof (run_reads _ w Hr) as Hw.
  destruct (for_each_loop_mono callback fuel (S (length (part (w_kv w) t pk))) t pk prefix (str_prefix_end prefix) n None st w)
    as [Hnone|Heq]; [lia| |].
  - right. split; [|lia]. unfold for_each_in_partition in *. destruct (run _ w) as [o w']. cbn [fst snd] in *. by subst.
  - left. unfold for_each_in_partition at 1. rewrite Heq. exact (for_each_spec callback _ t pk prefix n st w Hn (Nat.lt_succ_diag_r _)).
Qed.

(** A fold over the artifacts: the states of the shards, merged. *)
Lemma fold_all_any {St : Type} schedule fuel repo prefix (init : St) (f : St → string → ArtifactRecord → result St)
    (merge : St → St → St) w :
  (∃ r, run (fold_all_artifacts schedule fuel repo prefix init f merge) w = (Some r, w) ∧
     (∀ st, r = Ok st → ∃ states, st = reduce_or merge init states ∧
       Forall2 (λ shard s, fold_until (λ state sk v,
           let? record := serde_result (from_slice v) in let? state := f state sk record in Ok (true, state))
         (entries (w_kv w) TABLE_ARTIFACTS (artifact_shard_pk repo shard) prefix) init = Ok s) schedule states) ∧
     (∀ e, r = Err e → ∃ shard, shard ∈ schedule ∧ fold_until (λ state sk v,
           let? record := serde_result (from_slice v) in let? state := f state sk record in Ok (true, state))
         (entries (w_kv w) TABLE_ARTIFACTS (artifact_shard_pk repo shard) prefix) init = Err e)) ∨
  run (fold_all_artifacts schedule fuel repo prefix init f merge) w = (None, w) ∧
    ∃ shard, shard ∈ schedule ∧ fuel ≤ length (part (w_kv w) TABLE_ARTIFACTS (artifact_shard_pk repo shard)).
Proof.
  unfold fold_all_artifacts. rewrite run_bind_ok. set (cb := λ (state : St) (sk : string) (v : bytes), _).
  enough ((∃ r, run (try_for schedule (fold_shard fuel repo prefix init f)) w = (Some r, w) ∧
     (∀ states, r = Ok states → Forall2 (λ shard s, fold_until cb
         (entries (w_kv w) TABLE_ARTIFACTS (artifact_shard_pk repo shard) prefix) init = Ok s) schedule states) ∧
     (∀ e, r = Err e → ∃ shard, shard ∈ schedule ∧ fold_until cb
         (entries (w_kv w) TABLE_ARTIFACTS (artifact_shard_pk repo shard) prefix) init = Err e)) ∨
    run (try_for schedule (fold_shard fuel repo prefix init f)) w = (None, w) ∧
    ∃ shard, shard ∈ schedule ∧ fuel ≤ length (part (w_kv w) TABLE_ARTIFACTS (artifact_shard_pk repo shard)))
    as [ (r & -> & Hr & He)|[-> Hs] ].
  - left. destruct r as [states|e]; (eexists; split; [done|]); (split; [|by intros e' [= <-]; apply He || done]); [|done].
    intros st [= <-]. exists states. split; [done|]. by apply Hr.
  - by right.
  - induction schedule as [|shard schedule IH]; cbn [try_for].
    + left. eexists. split; [done|]. split; [by intros states [= <-]|done].
    + rewrite run_bind_ok. unfold fold_shard at 1 3. fold cb.
      destruct (for_each_any cb fuel TABLE_ARTIFACTS (artifact_shard_pk repo shard) prefix SCAN_BATCH_SIZE init w)
        as [->|[-> Hf] ]; [unfold SCAN_BATCH_SIZE; lia| |right; split; [done|]; exists shard; by split; [left|] ].
      destruct (fold_until cb _ init) as [s|e] eqn:Hs; cycle 1.
      { left. eexists. split; [done|]. split; [done|]. intros e' [= <-]. exists shard. by split; [left|]. }
      rewrite run_bind_ok. destruct IH as [ (r & -> & Hr & He)|[-> (x & Hx & Hf)] ].
      * left. destruct r as [states|e]; (eexists; split; [done|]); split; [|done|done|].
        -- intros ? [= <-]. constructor; [done|]. by apply Hr.
        -- intros e' [= <-]. destruct (He e eq_refl) as (x & Hx & Hf). exists x. by split; [right|].
      * right. split; [done|]. exists x. by split; [right|].
Qed.

(** Steps that do not fail: every record was read. *)
Lemma fold_until_records {St : Type} (step : St → string → ArtifactRecord → St) es init st :
  fold_until (λ state sk v, let? record := serde_result (from_slice v) in let? state := Ok (step state sk record) in
    Ok (true, state)) es init = Ok st →
  st = fold_entries init step (readable es) ∧ ∀ x, x ∈ es → ∃ r, from_slice (A:=ArtifactRecord) x.2 = inr r.
Proof.
  revert init. induction es as [|[sk v] es IH]; intros init; cbn [fold_until].
  - intros [= <-]. split; [done|]. by intros x ?%elem_of_nil.
  - unfold readable. cbn [omap list_omap fst snd]. destruct (from_slice v) as [e|r] eqn:Hv; [done|]. cbn [serde_result].
    intros Hst. apply IH in Hst as [-> Hall]. split; [done|].
    intros x [->|Hx]%elem_of_cons; [by exists r|by apply Hall].
Qed.

Lemma view_reduce {St X : Type} (v : St → list X) (init : St) (merge : St → St → St) states :
  (∀ a b, v (merge a b) = v a ++ v b) → v init = [] →
  v (reduce_or merge init states) = concat (v <$> states).
Proof.
  intros Hm Hi. destruct states as [|s states]; [done|]. cbn [reduce_or fmap list_fmap concat]. revert s.
  induction states as [|s' states IH]; intros s; cbn [foldl fmap list_fmap concat]; [by rewrite app_nil_r|].
  by rewrite IH, Hm, <-(assoc_L (++)).
Qed.

Lemma view_fold {St X : Type} (v : St → list X) (g : string * ArtifactRecord → list X) step (l : list (string * ArtifactRecord)) (init : St) :
  (∀ s sk r, v (step s sk r) = v s ++ g (sk, r)) →
  v (fold_entries init step l) = v init ++ concat (g <$> l).
Proof.
  intros Hs. unfold fold_entries. revert init. induction l as [|[sk r] l IH]; intros init; cbn [foldl fmap list_fmap concat].
  - by rewrite app_nil_r.
  - by rewrite IH, Hs, <-(assoc_L (++)).
Qed.

(** A list that the fold collects. *)
Lemma fold_all_collects {St X : Type} (v : St → list X) (g : string * ArtifactRecord → list X) (step : St → string → ArtifactRecord → St)
    (init : St) (merge : St → St → St) m repo prefix schedule states :
  (∀ s sk r, v (step s sk r) = v s ++ g (sk, r)) → (∀ a b, v (merge a b) = v a ++ v b) → v init = [] →
  Forall2 (λ shard s, fold_until (λ state sk b,
      let? record := serde_result (from_slice b) in let? state := Ok (step state sk record) in Ok (true, state))
    (entries m TABLE_ARTIFACTS (artifact_shard_pk repo shard) prefix) init = Ok s) schedule states →
  v (reduce_or merge init states) = concat (g <$> all_records m repo prefix schedule).
Proof.
  intros Hs Hm Hi Hall. rewrite (view_reduce v) by done. induction Hall as [|shard s schedule states Hf Hall IH]; [done|].
  apply fold_until_records in Hf as [-> _]. cbn [fmap list_fmap concat].
  rewrite IH, (view_fold v g) by done. rewrite Hi. unfold all_records. cbn [fmap list_fmap concat app].
  by rewrite fmap_app, concat_app.
Qed.

Lemma fold_all_decode {St : Type} (step : St → string → ArtifactRecord → St) (init : St) m repo prefix schedule states :
  Forall2 (λ shard s, fold_until (λ state sk b,
      let? record := serde_result (from_slice b) in let? state := Ok (step state sk record) in Ok (true, state))
    (entries m TABLE_ARTIFACTS (artifact_shard_pk repo shard) prefix) init = Ok s) schedule states →
  ∀ shard sk v n, shard ∈ schedule → m !! (TABLE_ARTIFACTS, artifact_shard_pk repo shard, sk) = Some (v, n) →
    starts_with sk prefix = true → ∃ r, from_slice (A:=ArtifactRecord) v = inr r.
Proof.
  induction 1 as [|shard' s schedule states Hf Hall IH]; intros shard sk v n Hin Hm Hp; [by apply elem_of_nil in Hin|].
  apply elem_of_cons in Hin as [->|Hin]; [|by eapply IH]. apply fold_until_records in Hf as [_ Hf].
  apply (Hf (sk, v)). apply elem_of_entries. split; [done|]. by exists n.
Qed.

(** [r] is the record that is stored under the key [sk] of the repository. *)
Definition stored m (repo sk : string) (r : ArtifactRecord) : Prop :=
  ∃ shard v n, shard ∈ shard_range ∧ m !! (TABLE_ARTIFACTS, artifact_shard_pk repo shard, sk) = Some (v, n) ∧
    from_slice v = inr r.

Lemma elem_of_all_records m repo prefix schedule sk r : schedule ≡ₚ shard_range →
  (sk, r) ∈ all_records m repo prefix schedule ↔ starts_with sk prefix = true ∧ stored m repo sk r.
Proof.
  intros Hsched. rewrite (all_records_readable m repo prefix). unfold readable. rewrite list_elem_of_omap. split.
  - intros ([k v] & Hin & Heq). cbn [fst snd] in *. destruct (from_slice v) as [e|r'] eqn:Hv; simplify_eq/=.
    rewrite list_elem_of_In, in_concat in Hin. destruct Hin as (es & Hes & Hin).
    apply list_elem_of_In in Hes, Hin. apply list_elem_of_fmap in Hes as (shard & -> & Hshard).
    apply elem_of_entries in Hin as [Hp (n & Hm)]. split; [done|]. exists shard, v, n. by rewrite <-Hsched.
  - intros [Hp (shard & v & n & Hshard & Hm & Hv)]. exists (sk, v). cbn [fst snd]. rewrite Hv. split; [|done].
    rewrite list_elem_of_In, in_concat. eexists. rewrite <-!list_elem_of_In. split.
    + apply list_elem_of_fmap. exists shard. split; [done|]. by rewrite Hsched.
    + apply elem_of_entries. split; [done|]. by exists n.
Qed.
End folds.

(** ** The passes *)

Section passes.
Context `{BloomCrate} `{Serde ArtifactRecord} `{UuidGen} `{Scheduler}.
Implicit Types (m : kvmap) (w : world kvmap).

(** The record refers to a blob that the filter does not have. *)
Definition lost (bf : Bloom) (r : ArtifactRecord) : Prop := unknown_blob bf r ≠ None.

Definition slashed (r : ArtifactRecord) : Prop := contains (ar_path r) "//" = true.

#[export] Instance lost_dec bf r : Decision (lost bf r).
Proof. unfold lost. apply _. Defined.

#[export] Instance slashed_dec r : Decision (slashed r).
Proof. unfold slashed. apply _. Defined.

Definition scan_step (bf : Bloom) (repo_name : string) (s : RepoScanState) (_ : string) (r : ArtifactRecord) : RepoScanState :=
  scan_slashes repo_name (scan_blob_reference bf repo_name (scan_count s r) r) r.

(** What the first pass collects from the records [l]. *)
Definition scan_found (bf : Bloom) (l : list (string * ArtifactRecord)) (scan : RepoScanState) : Prop :=
  rs_artifact_paths scan = ar_path <$> l.*2 ∧
  rs_to_delete scan = ar_path <$> filter (lost bf) l.*2 ∧
  rs_to_rename scan = (λ r, (ar_path r, normalize_path (ar_path r), r)) <$> filter slashed l.*2.

Lemma concat_singletons {A B : Type} (f : A → B) (l : list A) : concat ((λ x, [f x]) <$> l) = f <$> l.
Proof. induction l as [|x l IH]; [done|]. cbn. by rewrite <-IH. Qed.

Lemma concat_filter {A B : Type} (P : A → Prop) `{∀ x, Decision (P x)} (f : A → B) (l : list A) :
  concat ((λ x, if decide (P x) then [f x] else []) <$> l) = f <$> filter P l.
Proof.
  induction l as [|x l IH]; [done|]. cbn [fmap list_fmap concat]. rewrite filter_cons, IH. by case_decide.
Qed.

Lemma filter_snd {A B : Type} (P : B → Prop) `{∀ x, Decision (P x)} (l : list (A * B)) :
  (filter (λ x, P x.2) l).*2 = filter P l.*2.
Proof.
  induction l as [|[a b] l IH]; [done|]. cbn [fmap list_fmap snd]. rewrite !filter_cons. cbn [snd].
  case_decide; cbn [fmap list_fmap snd]; by rewrite IH.
Qed.

Lemma fold_until_ok {St : Type} (step : St → string → ArtifactRecord → St) es init e :
  (∀ x, x ∈ es → ∃ r, from_slice (A:=ArtifactRecord) x.2 = inr r) →
  fold_until (λ state sk v, let? record := serde_result (from_slice v) in let? state := Ok (step state sk record) in
    Ok (true, state)) es init ≠ Err e.
Proof.
  revert init. induction es as [|[sk v] es IH]; intros init Hall; [done|]. cbn [fold_until].
  destruct (Hall (sk, v)) as [r Hr]; [by left|]. cbn [snd] in Hr. rewrite Hr. cbn [serde_result].
  apply IH. intros x Hx. apply Hall. by right.
Qed.

(** Every record of the repository can be read. *)
Definition all_readable m (repo : string) : Prop :=
  ∀ shard sk v n, shard ∈ shard_range → m !! (TABLE_ARTIFACTS, artifact_shard_pk repo shard, sk) = Some (v, n) →
    ∃ r, from_slice (A:=ArtifactRecord) v = inr r.

(** The fuel covers the shards of the repository. *)
Definition enough m (fuel : nat) (repo : string) : Prop :=
  ∀ shard, shard ∈ shard_range → length (part m TABLE_ARTIFACTS (artifact_shard_pk repo shard)) < fuel.

(** A fold whose steps do not fail. *)
Lemma run_fold_all {St : Type} (site fuel : nat) repo prefix (step : St → string → ArtifactRecord → St) (init : St)
    (merge : St → St → St) w :
  let p := fold_all_artifacts (arrange site shard_range) fuel repo prefix init (λ s sk r, Ok (step s sk r)) merge in
  (∃ r, run p w = (Some r, w) ∧ (all_readable (w_kv w) repo → is_ok r = true) ∧
     (prefix = "" → is_ok r = true → all_readable (w_kv w) repo) ∧
     ∀ st, r = Ok st → ∀ (X : Type) (v : St → list X) (g : string * ArtifactRecord → list X),
       (∀ s sk r, v (step s sk r) = v s ++ g (sk, r)) → (∀ a b, v (merge a b) = v a ++ v b) → v init = [] →
       v st = concat (g <$> all_records (w_kv w) repo prefix (arrange site shard_range))) ∨
  run p w = (None, w) ∧ ¬ enough (w_kv w) fuel repo.
Proof.
  intros p. pose proof (arrange_perm _ site shard_range) as Hperm.
  destruct (fold_all_any (arrange site shard_range) fuel repo prefix init (λ s sk r, Ok (step s sk r)) merge w)
    as [ (r & Hr & Hok & Herr)|[Hnone (shard & Hs & Hf)] ].
  - left. exists r. split; [exact Hr|]. split.
    + intros Hread. destruct r as [st|e]; [done|]. destruct (Herr e eq_refl) as (shard & Hs & He). exfalso.
      revert He. apply fold_until_ok. intros [sk v] (_ & n & Hm)%elem_of_entries. apply (Hread shard sk v n); [|done].
      by rewrite <-Hperm.
    + split.
      { intros -> Hr'. destruct r as [st|e]; [|done]. destruct (Hok st eq_refl) as (states & -> & Hall).
        intros shard sk v n Hs Hm. apply (fold_all_decode step init _ _ "" _ _ Hall shard sk v n); [by rewrite Hperm|done|].
        apply starts_with_nil. }
      intros st Hst. destruct (Hok st Hst) as (states & -> & Hall).
      intros X v g Hv Hmg Hi. by eapply (fold_all_collects v g step).
  - right. split; [exact Hnone|]. intros He. rewrite Hperm in Hs. specialize (He shard Hs). lia.
Qed.

Lemma scan_count_lists s r :
  rs_artifact_paths (scan_count s r) = rs_artifact_paths s ++ [ar_path r] ∧
  rs_to_delete (scan_count s r) = rs_to_delete s ∧ rs_to_rename (scan_count s r) = rs_to_rename s.
Proof. unfold scan_count. by case_decide. Qed.

Lemma scan_blob_reference_lists bf repo s r :
  rs_artifact_paths (scan_blob_reference bf repo s r) = rs_artifact_paths s ∧
  rs_to_delete (scan_blob_reference bf repo s r) = rs_to_delete s ++ (if decide (lost bf r) then [ar_path r] else []) ∧
  rs_to_rename (scan_blob_reference bf repo s r) = rs_to_rename s.
Proof.
  unfold scan_blob_reference. destruct (decide (lost bf r)) as [Hl|Hl]; revert Hl; unfold lost;
    destruct (unknown_blob bf r); intros Hl; try done; [by destruct Hl|]. by rewrite app_nil_r.
Qed.

Lemma scan_slashes_lists repo s r :
  rs_artifact_paths (scan_slashes repo s r) = rs_artifact_paths s ∧ rs_to_delete (scan_slashes repo s r) = rs_to_delete s ∧
  rs_to_rename (scan_slashes repo s r) =
    rs_to_rename s ++ (if decide (slashed r) then [(ar_path r, normalize_path (ar_path r), r)] else []).
Proof.
  unfold scan_slashes. destruct (decide (slashed r)) as [Hl|Hl]; revert Hl; unfold slashed;
    destruct (contains (ar_path r) "//"); intros Hl; try done. by rewrite app_nil_r.
Qed.

(** What one record adds. *)
Lemma scan_step_lists bf repo s r :
  rs_artifact_paths (scan_step bf repo s "" r) = rs_artifact_paths s ++ [ar_path r] ∧
  rs_to_delete (scan_step bf repo s "" r) = rs_to_delete s ++ (if decide (lost bf r) then [ar_path r] else []) ∧
  rs_to_rename (scan_step bf repo s "" r) =
    rs_to_rename s ++ (if decide (slashed r) then [(ar_path r, normalize_path (ar_path r), r)] else []).
Proof.
  unfold scan_step. pose proof (scan_count_lists s r) as (Hp1 & Hd1 & Hr1).
  pose proof (scan_blob_reference_lists bf repo (scan_count s r) r) as (Hp2 & Hd2 & Hr2).
  pose proof (scan_slashes_lists repo (scan_blob_reference bf repo (scan_count s r) r) r) as (Hp3 & Hd3 & Hr3).
  by rewrite Hp3, Hp2, Hp1, Hd3, Hd2, Hd1, Hr3, Hr2, Hr1.
Qed.

(** The first pass. *)
Lemma run_scan_records fuel bf repo w :
  let p := fold_all_artifacts (arrange 72 shard_range) fuel repo "" rs_default (scan_record bf repo) merge_scans in
  (∃ r, run p w = (Some r, w) ∧ (all_readable (w_kv w) repo → is_ok r = true) ∧
     ∀ scan, r = Ok scan → scan_found bf (all_records (w_kv w) repo "" (arrange 72 shard_range)) scan) ∨
  run p w = (None, w) ∧ ¬ enough (w_kv w) fuel repo.
Proof.
  intros p. destruct (run_fold_all 72 fuel repo "" (scan_step bf repo) rs_default merge_scans w) as [ (r & Hr & Hok & Hread & Hst)|Hnone];
    [left|by right].
  exists r. split; [exact Hr|]. split; [done|]. intros scan Hscan. pose proof (Hst scan Hscan) as Hv.
  split_and!.
  - rewrite (Hv _ rs_artifact_paths (λ x, [ar_path x.2])); [|intros s sk r0; apply (scan_step_lists bf repo s r0)|done|done].
    by rewrite (concat_singletons (λ x : string * ArtifactRecord, ar_path x.2)), <-list_fmap_compose.
  - rewrite (Hv _ rs_to_delete (λ x, if decide (lost bf x.2) then [ar_path x.2] else [])); [|intros s sk r0; apply (scan_step_lists bf repo s r0)|done|done].
    rewrite (concat_filter (λ x : string * ArtifactRecord, lost bf x.2) (λ x, ar_path x.2)), <-filter_snd, <-list_fmap_compose. done.
  - rewrite (Hv _ rs_to_rename (λ x, if decide (slashed x.2) then [(ar_path x.2, normalize_path (ar_path x.2), x.2)] else []));
      [|intros s sk r0; apply (scan_step_lists bf repo s r0)|done|done].
    rewrite (concat_filter (λ x : string * ArtifactRecord, slashed x.2)
      (λ x, (ar_path x.2, normalize_path (ar_path x.2), x.2))), <-filter_snd, <-list_fmap_compose. done.
Qed.

(** The second pass. *)
Lemma run_scan_tags fuel paths repo w :
  let p := fold_all_artifacts (arrange 73 shard_range) fuel repo "" [] (scan_tag repo paths) app in
  (∃ r, run p w = (Some r, w) ∧ (is_ok r = true ↔ all_readable (w_kv w) repo) ∧
     ∀ l, r = Ok l → l.*1.*2 = ar_path <$> filter (λ r, dangling_tag paths r ≠ None)
       (all_records (w_kv w) repo "" (arrange 73 shard_range)).*2) ∨
  run p w = (None, w) ∧ ¬ enough (w_kv w) fuel repo.
Proof.
  intros p. set (g := λ r : ArtifactRecord, match dangling_tag paths r with
    | Some digest => [(mkCheckFinding (Some repo) (ar_path r) digest None (Some E_DANGLING_TAG) false, ar_path r,
        "Repo '" +:+ repo +:+ "': docker tag '" +:+ ar_path r +:+ "' references manifest " +:+ digest +:+
        " which does not exist")]
    | None => []
    end).
  destruct (run_fold_all 73 fuel repo "" (λ acc _ record, match dangling_tag paths record with
    | Some digest => acc ++ [(mkCheckFinding (Some repo) (ar_path record) digest None (Some E_DANGLING_TAG) false, ar_path record,
        "Repo '" +:+ repo +:+ "': docker tag '" +:+ ar_path record +:+ "' references manifest " +:+ digest +:+
        " which does not exist")]
    | None => acc
    end) [] app w) as [ (r & Hr & Hok & Hread & Hst)|Hnone]; [left|by right].
  exists r. split; [exact Hr|]. split; [split; [by apply Hread|done]|]. intros l Hl. pose proof (Hst l Hl) as Hv.
  assert (l = concat ((λ x, g x.2) <$> all_records (w_kv w) repo "" (arrange 73 shard_range))) as ->.
  { apply (Hv _ id); [|done|done]. intros s sk r0. unfold id, g. cbn [snd]. destruct (dangling_tag paths r0); by rewrite ?app_nil_r. }
  generalize (all_records (w_kv w) repo "" (arrange 73 shard_range)).
  clear. intros l. induction l as [|[sk r] l IH]; [done|]. cbn [fmap list_fmap concat snd]. rewrite !fmap_app, IH.
  rewrite filter_cons. unfold g. unfold compose. cbn [snd]. destruct (dangling_tag paths r); [rewrite decide_True by done|rewrite decide_False by auto]; done.
Qed.

(** The chart records at a legacy path that belong elsewhere. *)
Definition misplaced (x : string * ArtifactRecord) : list Relocation :=
  match ar_kind x.2 with
  | KHelmChart helm =>
      let new_path := chart_path (helm_name helm) (helm_version helm) in
      if decide (new_path ≠ x.1) then [(x.1, new_path, x.2)] else []
  | _ => []
  end.

Definition chart_plan m (repo : string) : list Relocation :=
  concat ((λ prefix, concat (misplaced <$> all_records m repo prefix (arrange 71 shard_range))) <$> LEGACY_CHART_PREFIXES).

Lemma run_enumerate fuel repo w :
  (∃ r, run (enumerate_legacy_chart_relocations fuel repo) w = (Some r, w) ∧ (all_readable (w_kv w) repo → is_ok r = true) ∧
     ∀ plan, r = Ok plan → plan = chart_plan (w_kv w) repo) ∨
  run (enumerate_legacy_chart_relocations fuel repo) w = (None, w) ∧ ¬ enough (w_kv w) fuel repo.
Proof.
  assert (∀ prefix, let p := fold_all_artifacts (arrange 71 shard_range) fuel repo prefix [] legacy_chart app in
    (∃ r, run p w = (Some r, w) ∧ (all_readable (w_kv w) repo → is_ok r = true) ∧
      ∀ l, r = Ok l → l = concat (misplaced <$> all_records (w_kv w) repo prefix (arrange 71 shard_range))) ∨
    run p w = (None, w) ∧ ¬ enough (w_kv w) fuel repo) as Hone.
  { intros prefix p.
    destruct (run_fold_all 71 fuel repo prefix (λ acc old_path record, match ar_kind record with
      | KHelmChart helm =>
          let new_path := chart_path (helm_name helm) (helm_version helm) in
          if decide (new_path ≠ old_path) then acc ++ [(old_path, new_path, record)] else acc
      | _ => acc
      end) [] app w) as [ (r & Hr & Hok & Hread & Hst)|Hnone]; [left|by right].
    exists r. split; [exact Hr|]. split; [done|]. intros l Hl. apply (Hst l Hl _ id); [|done|done].
    intros s sk r0. unfold id, misplaced. cbn [fst snd]. destruct (ar_kind r0); try by rewrite app_nil_r.
    cbv zeta. case_decide; by rewrite ?app_nil_r. }
  unfold enumerate_legacy_chart_relocations, chart_plan, LEGACY_CHART_PREFIXES. cbn [try_for fmap list_fmap concat].
  destruct (Hone "_charts/") as [ (r1 & Hr1 & Hok1 & Hl1)|[Hn1 Hf] ]; cycle 1.
  { right. split; [|done]. rewrite run_bind_ok, run_bind_ok, Hn1. done. }
  destruct r1 as [l1|e]; cycle 1.
  { left. eexists. split; [rewrite run_bind_ok, run_bind_ok, Hr1; done|]. split; [|done]. intros Hread. by specialize (Hok1 Hread). }
  destruct (Hone "charts/") as [ (r2 & Hr2 & Hok2 & Hl2)|[Hn2 Hf] ]; cycle 1.
  { right. split; [|done]. by rewrite run_bind_ok, run_bind_ok, Hr1, run_bind_ok, run_bind_ok, Hn2. }
  left. destruct r2 as [l2|e]; cycle 1.
  { eexists. split; [by rewrite run_bind_ok, run_bind_ok, Hr1, run_bind_ok, run_bind_ok, Hr2|]. split; [|done].
    intros Hread. by specialize (Hok2 Hread). }
  eexists. split; [by rewrite run_bind_ok, run_bind_ok, Hr1, run_bind_ok, run_bind_ok, Hr2|]. split; [done|].
  intros plan [= <-]. cbn. by rewrite (Hl1 l1 eq_refl), (Hl2 l2 eq_refl).
Qed.

Lemma elem_of_chart_plan m repo old new r :
  (old, new, r) ∈ chart_plan m repo ↔
    stored m repo old r ∧ (starts_with old "_charts/" = true ∨ starts_with old "charts/" = true) ∧
    ∃ helm, ar_kind r = KHelmChart helm ∧ new = chart_path (helm_name helm) (helm_version helm) ∧ new ≠ old.
Proof.
  assert (∀ prefix, (old, new, r) ∈ concat (misplaced <$> all_records m repo prefix (arrange 71 shard_range)) ↔
    stored m repo old r ∧ starts_with old prefix = true ∧
    ∃ helm, ar_kind r = KHelmChart helm ∧ new = chart_path (helm_name helm) (helm_version helm) ∧ new ≠ old) as Hone.
  { intros prefix. rewrite list_elem_of_In, in_concat. setoid_rewrite <-list_elem_of_In. split.
    - intros (l & (x & -> & Hx)%list_elem_of_fmap & Hin). destruct x as [sk r']. unfold misplaced in Hin. cbn [fst snd] in Hin.
      destruct (ar_kind r') eqn:Hk; try (by apply elem_of_nil in Hin). revert Hin. cbv zeta. case_decide as Hne; [|by intros ?%elem_of_nil].
      intros [= -> -> ->]%list_elem_of_singleton. apply elem_of_all_records in Hx as [? ?]; [|apply arrange_perm].
      split_and!; [done|done|by eexists].
    - intros (Hs & Hp & helm & Hk & -> & Hne). eexists. split.
      + apply list_elem_of_fmap. exists (old, r). split; [done|]. apply elem_of_all_records; [apply arrange_perm|done].
      + unfold misplaced. cbn [fst snd]. rewrite Hk. cbv zeta. rewrite decide_True by done. by apply list_elem_of_singleton. }
  unfold chart_plan, LEGACY_CHART_PREFIXES. cbn [fmap list_fmap concat]. rewrite !elem_of_app, !Hone, elem_of_nil. tauto.
Qed.
End passes.
