(* ===== verification/CheckSafety.v ===== *)
(** * What an integrity check may write

    Two safety properties of [run_check] (server/src/server/worker/check.rs)
    at every moment of a run.  A dry run writes the records and the log of
    tasks and the lease of the collector and nothing else, next to anything
    that runs at the same time.  A fix run leaves every artifact alone that is
    in order: its contents were listed, its path has no double slashes, it is
    not a dangling tag, a misplaced chart or in the place of one. *)

From S2P Require Import Prelude Bytes Errors Keys Records Kv Prog Wp Effects Scan Pagination Update Artifact Blob Repo Directory Ingest Accounts Tasks TaskManager Cluster BloomFilter UpdateWorker Batches BulkDelete TreeRebuild Check CheckScan.

(** The records of tasks and their log, and the lease of the collector. *)
Definition task_or_lease (k : string * string * string) : Prop :=
  k.1.1 = TABLE_TASKS ∨ k.1.1 = TABLE_TASK_EVENTS ∨ k = lease_key LEASE_GC.

Section run.
Context `{Blake3} `{BloomCrate} `{Serde RepoConfig} `{Serde StoreRecord} `{Serde StoreStatsRecord} `{Serde BlobRecord}.
Context `{Serde ArtifactRecord} `{Serde TreeEntry} `{Serde LeaseRecord} `{Serde TaskRecord} `{Serde TaskEventRecord}.
Context `{Chrono} `{Scheduler} (fuel : nat) (task_id : string).

(** *** The task and the lease *)

Abbreviation own_keys := (within_keys task_or_lease).

Lemma issues_put_record r : issues own_keys (put_record r).
Proof.
  unfold put_record, put_task_summary, typed_put. cbn [task_key]. issues_tac. intros k ->. by left.
Qed.

Lemma issues_get_record id : issues own_keys (get_record id).
Proof. unfold get_record, get_task_summary. cbn [task_key]. issues_tac. Qed.

Lemma issues_append_log id s tm : issues own_keys (append_log id s tm).
Proof.
  unfold append_log, append_task_event, typed_put_if_absent. cbn [task_event_key]. issues_tac. intros k ->. by right; left.
Qed.

Lemma issues_update_summary id s : issues own_keys (update_summary id s).
Proof. unfold update_summary. pose proof issues_put_record. pose proof issues_get_record. issues_tac. Qed.

Lemma issues_mark_terminal id s r e tm : issues own_keys (mark_terminal id s r e tm).
Proof. unfold mark_terminal. pose proof issues_put_record. pose proof issues_get_record. issues_tac. Qed.

Lemma issues_acquire id ttl : issues own_keys (try_acquire_lease LEASE_GC id ttl).
Proof.
  unfold try_acquire_lease, acquire_with. cbn [lease_key].
  issues_tac; intros k ->; by right; right.
Qed.

Lemma issues_release id : issues own_keys (release_lease LEASE_GC id).
Proof. unfold release_lease. cbn [lease_key]. issues_tac; intros k ->; by right; right. Qed.

Lemma issues_guard_release g : lg_name g = LEASE_GC → issues own_keys (lease_guard_release g).
Proof. intros Hg. unfold lease_guard_release. cbv zeta. cbn [lg_name]. rewrite Hg. pose proof issues_release. issues_tac. Qed.

Lemma issues_guard_drop g : lg_name g = LEASE_GC → issues own_keys (lease_guard_drop g true).
Proof. intros Hg. unfold lease_guard_drop. rewrite Hg. pose proof issues_release. issues_tac. Qed.
#[local] Hint Resolve issues_append_log issues_update_summary issues_mark_terminal issues_acquire
  issues_guard_release issues_guard_drop : issues.

Lemma issues_log s st : issues own_keys (log task_id s st).
Proof. unfold log. issues_tac. Qed.
#[local] Hint Resolve issues_log : issues.

Lemma issues_log_all l st : issues own_keys (log_all task_id l st).
Proof. revert st. induction l as [|s l IH]; intros st; cbn [log_all]; issues_tac. Qed.
#[local] Hint Resolve issues_log_all : issues.

Lemma issues_acquire_lease h l st : issues own_keys (acquire_lease task_id h l st).
Proof. revert st. induction l as [|a l IH]; intros st; cbn [acquire_lease]; issues_tac. Qed.
#[local] Hint Resolve issues_acquire_lease : issues.

Lemma issues_finish_failed e g st : lg_name g = LEASE_GC → issues own_keys (finish_failed task_id e g st).
Proof. intros Hg. unfold finish_failed, mark_failed. issues_tac. Qed.

Lemma issues_finish_cancelled m g st : lg_name g = LEASE_GC → issues own_keys (finish_cancelled task_id m g st).
Proof. intros Hg. unfold finish_cancelled, mark_cancelled. issues_tac. Qed.

Lemma issues_finish_check_cancelled g st : lg_name g = LEASE_GC → issues own_keys (finish_check_cancelled task_id g st).
Proof. intros Hg. unfold finish_check_cancelled. pose proof issues_finish_cancelled. issues_tac. Qed.

Lemma issues_finish_completed n d g st : lg_name g = LEASE_GC → issues own_keys (finish_completed task_id n d g st).
Proof. intros Hg. unfold finish_completed, mark_completed. issues_tac. Qed.
#[local] Hint Resolve issues_finish_failed issues_finish_cancelled issues_finish_check_cancelled issues_finish_completed : issues.

(** *** The passes that only read *)

Lemma issues_list_repos : issues own_keys list_repos.
Proof. unfold list_repos. issues_tac. Qed.

Lemma issues_list_stores : issues own_keys list_stores.
Proof. unfold list_stores. issues_tac. Qed.

Lemma issues_sum_store_stats l t : issues own_keys (sum_store_stats l t).
Proof. revert t. induction l as [|sr l IH]; intros t; cbn [sum_store_stats]; [done|]. unfold get_store_stats. cbn [store_stats_key]. issues_tac. Qed.

Lemma issues_get_dir repo path : issues own_keys (get_dir repo path).
Proof. unfold get_dir. cbn [tree_entry_key]. issues_tac. Qed.

Lemma issues_get_repo name : issues own_keys (get_repo name).
Proof. unfold get_repo, get_repo_raw. cbn [repo_key]. issues_tac. Qed.
#[local] Hint Resolve issues_list_repos issues_list_stores issues_sum_store_stats issues_get_dir issues_get_repo : issues.

Lemma issues_aggregate fuel' members st : issues own_keys (aggregate_proxy_stats fuel' members st).
Proof. revert members st. induction fuel' as [|fuel' IH]; intros members st; cbn [aggregate_proxy_stats]; issues_tac. Qed.
#[local] Hint Resolve issues_aggregate : issues.

Lemma issues_sum_repo_artifacts l t : issues own_keys (sum_repo_artifacts fuel l t).
Proof. revert t. induction l as [|c l IH]; intros t; cbn [sum_repo_artifacts]; [done|]. unfold get_repo_stats. issues_tac. Qed.

Lemma issues_list_blob_stores t bf n l st : issues own_keys (list_blob_stores task_id t bf n l st).
Proof. revert bf n st. induction l as [|sr l IH]; intros bf n st; cbn [list_blob_stores]; [done|]. unfold list_store. issues_tac. Qed.

Lemma issues_spawn_each work handles : issues own_keys (spawn_each work handles).
Proof. revert handles. induction work as [|r work IH]; intros handles; cbn [spawn_each]; issues_tac. Qed.
#[local] Hint Resolve issues_sum_repo_artifacts issues_list_blob_stores issues_spawn_each : issues.

Lemma issues_spawn pks handles st : issues own_keys (spawn_verifications fuel task_id pks handles st).
Proof.
  revert handles st. induction pks as [|pk pks IH]; intros handles st; cbn [spawn_verifications]; [done|]. unfold blob_partition. issues_tac.
Qed.

Lemma issues_report_blob rec m e a er n st : issues own_keys (report_blob task_id rec m e a er n st).
Proof. unfold report_blob. issues_tac. Qed.
#[local] Hint Resolve issues_spawn issues_report_blob : issues.

Lemma issues_verify_blob bf v rec st : issues own_keys (verify_blob task_id bf v rec st).
Proof. unfold verify_blob, verify_contents, report_missing. issues_tac. Qed.
#[local] Hint Resolve issues_verify_blob : issues.

Lemma issues_verify_all bf v l st : issues own_keys (verify_all task_id bf v l st).
Proof. revert st. induction l as [|rec l IH]; intros st; cbn [verify_all]; issues_tac. Qed.
#[local] Hint Resolve issues_verify_all : issues.

Lemma issues_verify_blob_records bf sl v l st : issues own_keys (verify_blob_records fuel task_id bf sl v l st).
Proof. unfold verify_blob_records. issues_tac. Qed.
#[local] Hint Resolve issues_verify_blob_records : issues.

Lemma issues_scan_repo bf repo st : issues own_keys (scan_repo fuel task_id bf repo st).
Proof. unfold scan_repo. issues_tac. Qed.

Lemma issues_report_tags l st : issues own_keys (report_tags task_id l st).
Proof. revert st. induction l as [|[ [f p] s] l IH]; intros st; cbn [report_tags]; issues_tac. Qed.
#[local] Hint Resolve issues_scan_repo issues_report_tags : issues.

Lemma issues_scan_tags repo scan st : issues own_keys (scan_tags fuel task_id repo scan st).
Proof. unfold scan_tags. issues_tac. Qed.

Lemma issues_check_cache_config c st : issues own_keys (check_cache_config task_id c st).
Proof. unfold check_cache_config. issues_tac. Qed.

Lemma issues_check_members n names members st : issues own_keys (check_members task_id n names members st).
Proof. revert st. induction members as [|x members IH]; intros st; cbn [check_members]; issues_tac. Qed.
#[local] Hint Resolve issues_scan_tags issues_check_cache_config issues_check_members : issues.

Lemma issues_enumerate repo : issues own_keys (enumerate_legacy_chart_relocations fuel repo).
Proof. unfold enumerate_legacy_chart_relocations. issues_tac. Qed.
#[local] Hint Resolve issues_enumerate : issues.

(** *** A dry run *)

Lemma issues_helm_dry repo st : issues own_keys (check_helm_canonicalization fuel task_id repo true st).
Proof. unfold check_helm_canonicalization. issues_tac. Qed.
#[local] Hint Resolve issues_helm_dry : issues.

Lemma issues_check_repo_dry bf repos c st : issues own_keys (check_repo fuel task_id bf true repos c st).
Proof. unfold check_repo, check_proxy_members. cbv zeta. issues_tac. Qed.
#[local] Hint Resolve issues_check_repo_dry : issues.

Lemma issues_check_repos_dry bf repos l st : issues own_keys (check_repos fuel task_id bf true repos l st).
Proof. revert st. induction l as [|c l IH]; intros st; cbn [check_repos]; issues_tac. Qed.
#[local] Hint Resolve issues_check_repos_dry : issues.

Lemma issues_check_contents_dry sl v repos stores bf n g st : lg_name g = LEASE_GC →
  issues own_keys (check_contents fuel task_id sl true v repos stores bf n g st).
Proof. intros Hg. unfold check_contents. cbv zeta. issues_tac. Qed.
#[local] Hint Resolve issues_check_contents_dry : issues.

Lemma issues_check_locked_dry sl v g st : lg_name g = LEASE_GC → issues own_keys (check_locked fuel task_id sl true v g st).
Proof. intros Hg. unfold check_locked. cbv zeta. issues_tac. Qed.
#[local] Hint Resolve issues_check_locked_dry : issues.

Lemma issues_run_check_dry i sl v tm : issues own_keys (run_check fuel task_id i sl true v tm).
Proof. unfold run_check, mark_cancelled. cbv zeta. issues_tac. Qed.

(** The parts of the world that only the check's own keys may differ in. *)
Definition only_own_keys (w w' : world kvmap) : Prop :=
  (∀ k : string * string * string, ¬ task_or_lease k → w_kv w' !! k = w_kv w !! k) ∧
  w_blobs w' = w_blobs w ∧ w_stores w' = w_stores w ∧ w_cancelled w' = w_cancelled w ∧ w_sent w' = w_sent w.

#[export] Instance only_own_keys_preorder : PreOrder only_own_keys.
Proof.
  split; [done|]. intros w1 w2 w3 (Hk1 & ? & ? & ? & ?) (Hk2 & ? & ? & ? & ?).
  split_and!; [|congruence..]. intros k Hk. by rewrite Hk2, Hk1.
Qed.

Lemma within_keys_frame `{UuidGen} (e : eff) (w : world kvmap) : own_keys e → only_own_keys w (handle e w).2.
Proof.
  intros He. destruct e as [o|store o| | | |ev|]; cbn [handle]; try done.
  - change (kv_step o (w_kv w)) with (spec_store o (w_kv w)).
    pose proof (spec_store_unchanged o) as Hu. destruct (spec_store o (w_kv w)) as [r m'] eqn:Hs. cbn [snd].
    split_and!; [|done..]. intros k Hk. specialize (Hu k (w_kv w)). rewrite Hs in Hu. cbn [snd] in Hu. apply Hu.
    intros Hc. by apply Hk, He.
  - by destruct o.
Qed.

(** The same when calls on the stores may fail. *)
Lemma within_keys_answers `{UuidGen} (e : eff) (w : world kvmap) (r : eff_ret e) (w' : world kvmap) :
  own_keys e → answers w e r w' → only_own_keys w w'.
Proof.
  intros He Ha. pose proof (within_keys_frame e w He) as Hf. destruct Ha as [e|o err m Hm|store o err b Hb]; [done| |].
  2: { split_and!; [done| |done..]. cbn [w_blobs set_blobs]. by destruct o; [| | | |]; try done; destruct Hb as [-> | ->]. }
  split_and!; [|done..]. intros k Hk. cbn [w_kv set_kv]. destruct (Hm k) as [Hmk|Hmk]; [done|]. rewrite Hmk.
  apply spec_store_unchanged. intros Hc. by apply Hk, He.
Qed.

(** ** Artifacts in order *)

Context `{UuidGen} `{!SerdeExact ArtifactRecord}.
Implicit Types (m : kvmap) (w : world kvmap) (k : string * string * string).

(** The record lies under the key of its path. *)
Definition at_path m (repo : string) (r : ArtifactRecord) : Prop :=
  ∃ (v : bytes) (n : Z), m !! artifact_key repo (ar_path r) = Some (v, n) ∧ from_slice v = inr r.

(** The path in a record leads back to its key, as [put_artifact] arranges. *)
Definition well_placed k (v : bytes) : Prop :=
  ∀ repo shard r, k.1 = (TABLE_ARTIFACTS, artifact_shard_pk repo shard) → from_slice v = inr r →
    artifact_key repo (ar_path r) = k.

Definition all_well_placed m : Prop := ∀ k v n, m !! k = Some (v, n) → well_placed k v.

(** The blob is in a store that the check lists. *)
Definition listed w (blob_id : string) : Prop :=
  ∃ l sr, run list_stores w = (Some (Ok l), w) ∧ sr ∈ l ∧ sr_name sr ∈ w_stores w ∧
    is_Some (w_blobs w !! (sr_name sr, blob_id)).

Definition legacy_path (path : string) : Prop :=
  starts_with path "_charts/" = true ∨ starts_with path "charts/" = true.

Definition chart_home (repo : string) (helm : HelmChartMeta) : string * string * string :=
  artifact_key repo (chart_path (helm_name helm) (helm_version helm)).

(** Nothing is wrong with the record, and no other chart belongs in its place. *)
Record orderly w (repo : string) (r : ArtifactRecord) : Prop := {
  io_contents : ∀ blob_id, ar_blob_id r = Some blob_id → listed w blob_id;
  io_slashes : ¬ slashed r;
  io_chart : ∀ helm, ar_kind r = KHelmChart helm → legacy_path (normalize_path (ar_path r)) →
    chart_path (helm_name helm) (helm_version helm) = normalize_path (ar_path r);
  io_place : ∀ r2 helm, at_path (w_kv w) repo r2 → ar_kind r2 = KHelmChart helm →
    chart_home repo helm = artifact_key repo (ar_path r) → artifact_key repo (ar_path r2) = artifact_key repo (ar_path r);
}.

Definition is_tag (r : ArtifactRecord) : Prop := ∃ digest tag, ar_kind r = KDockerTag digest tag.

(** The artifact at [k] is in order; a tag has a manifest that is. *)
Definition sound w k : Prop :=
  ∃ repo r, k = artifact_key repo (ar_path r) ∧ at_path (w_kv w) repo r ∧ orderly w repo r ∧
    ∀ digest tag mp, ar_kind r = KDockerTag digest tag → manifest_path_of_tag (ar_path r) digest = Some mp →
      ∃ r', ar_path r' = mp ∧ at_path (w_kv w) repo r' ∧ orderly w repo r' ∧ ¬ is_tag r'.

(** *** The law of a fix run *)

(** [new_value o k v]: the operation may store [v] under [k]. *)
Definition new_value (o : kv_op) k (v : bytes) : Prop :=
  match o with
  | Put t pk sk v' | PutIfVersion t pk sk v' _ | PutIfAbsent t pk sk v' => k = (t, pk, sk) ∧ v = v'
  | PutBatch t entries => k.1.1 = t ∧ ((k.1.2, k.2), v) ∈ entries
  | _ => False
  end.

Context (w0 : world kvmap).

(** A record under [k] leads back to [k]; a chart does not belong in the
    place of an artifact in order. *)
Definition value_law k (v : bytes) : Prop :=
  ∀ repo shard r, k.1 = (TABLE_ARTIFACTS, artifact_shard_pk repo shard) → from_slice v = inr r →
    artifact_key repo (ar_path r) = k ∧
    ∀ helm k0, ar_kind r = KHelmChart helm → sound w0 k0 → k0 ≠ k → chart_home repo helm ≠ k0.

(** An effect of a fix run. *)
Definition lawful (e : eff) : Prop :=
  match e with
  | EKv o => (∀ k, sound w0 k → may_change o k → ∃ t pk sk v, o = PutIfAbsent t pk sk v) ∧
             (∀ k v, new_value o k v → value_law k v)
  | EBlob _ (BPut _ _) | EBlob _ (BDelete _) => False
  | _ => True
  end.

(** What holds at every moment. *)
Record kept w : Prop := {
  kept_sound : ∀ k, sound w0 k → w_kv w !! k = w_kv w0 !! k;
  kept_law : ∀ k v n, w_kv w !! k = Some (v, n) → value_law k v;
  kept_blobs : w_blobs w = w_blobs w0;
  kept_stores : w_stores w = w_stores w0;
  kept_cancelled : w_cancelled w = w_cancelled w0;
}.

Lemma sound_present k : sound w0 k → is_Some (w_kv w0 !! k).
Proof. intros (repo & r & -> & (v & n & -> & _) & _). done. Qed.

Lemma sound_table k : sound w0 k → k.1.1 = TABLE_ARTIFACTS.
Proof. by intros (repo & r & -> & _). Qed.

Lemma spec_put_batch_value t entries m k v n : spec_put_batch t entries m !! k = Some (v, n) →
  (∃ n', m !! k = Some (v, n')) ∨ k.1.1 = t ∧ ((k.1.2, k.2), v) ∈ entries.
Proof.
  revert m. induction entries as [|[ [pk sk] x] entries IH]; intros m Hk; [left; by exists n|].
  change (spec_put_batch t ((pk, sk, x) :: entries) m) with (spec_put_batch t entries (spec_put (t, pk, sk) x m)) in Hk.
  destruct (IH _ Hk) as [ [n' Hn]|[? ?] ]; [|right; split; [done|by right]].
  unfold spec_put in Hn. destruct (decide (k = (t, pk, sk))) as [->|Hne].
  - rewrite lookup_insert_eq in Hn. simplify_eq. right. split; [done|by left].
  - rewrite lookup_insert_ne in Hn by done. left. by exists n'.
Qed.

(** Every value in the store was there before or was put. *)
Lemma spec_store_value o m k v n : (spec_store o m).2 !! k = Some (v, n) →
  (∃ n', m !! k = Some (v, n')) ∨ new_value o k v.
Proof.
  destruct o; cbn [spec_store snd new_value]; try by (intros ?; left; exists n).
  - unfold spec_put. destruct (decide (k = (table, pk, sk))) as [->|Hne].
    + rewrite lookup_insert_eq. intros [= -> _]. by right.
    + rewrite lookup_insert_ne by done. left. by exists n.
  - unfold spec_put_if_version. intros Hk. case_match eqn:Hp; simplify_eq/=.
    repeat case_match; simplify_eq/=; [|left; by exists n].
    destruct (decide (k = (table, pk, sk))) as [->|Hne].
    + rewrite lookup_insert_eq in Hk. simplify_eq. by right.
    + rewrite lookup_insert_ne in Hk by done. left. by exists n.
  - unfold spec_put_if_version. intros Hk. repeat case_match; simplify_eq/=; [|left; by exists n].
    destruct (decide (k = (table, pk, sk))) as [->|Hne].
    + rewrite lookup_insert_eq in Hk. simplify_eq. by right.
    + rewrite lookup_insert_ne in Hk by done. left. by exists n.
  - intros [_ ?]%lookup_delete_Some. left. by exists n.
  - repeat case_match; cbn [snd]; intros Hk; simplify_eq/=; try (left; by exists n).
    all: apply lookup_delete_Some in Hk as [_ ?]; left; by exists n.
  - intros [_ ?]%lookup_delete_Some. left. by exists n.
  - rewrite spec_delete_batch_eq. cbn [snd]. destruct k as [ [t pk] sk]. rewrite delete_all_lookup. case_decide; [done|]. left. by exists n.
  - by apply spec_put_batch_value.
Qed.

Lemma lawful_kept (e : eff) w : lawful e → kept w → kept (handle e w).2.
Proof.
  intros He Hw. destruct e as [o|store o| | | |ev|]; cbn [handle]; try done; try by (destruct Hw; split).
  - change (kv_step o (w_kv w)) with (spec_store o (w_kv w)). destruct He as [Hold Hnew].
    assert (∀ k, sound w0 k → (spec_store o (w_kv w)).2 !! k = w_kv w0 !! k) as Hkeep.
    { intros k Hk. rewrite <-(kept_sound w Hw k Hk).
      destruct (sound_present k Hk) as [x Hx]. rewrite <-(kept_sound w Hw k Hk) in Hx.
      destruct o; try by (apply spec_store_unchanged; intros Hc; destruct (Hold k Hk Hc) as (? & ? & ? & ? & ?)).
      rewrite Hx. by apply spec_put_if_absent_present. }
    assert (∀ k v n, (spec_store o (w_kv w)).2 !! k = Some (v, n) → value_law k v) as Hlaw.
    { intros k v n [ [n' Hk]|Hk]%spec_store_value; [by apply (kept_law w Hw k v n')|by apply Hnew]. }
    destruct (spec_store o (w_kv w)) as [r m']. cbn [snd] in *. destruct Hw. by split.
  - by destruct o.
Qed.

Lemma own_lawful (e : eff) : own_keys e → lawful e.
Proof.
  intros He. destruct e as [o|store o| | | | |]; try done. split.
  - intros k Hk Hc. apply sound_table in Hk. apply He in Hc. by destruct Hc as [Hc|[Hc|Hc] ]; rewrite ?Hc in Hk.
  - intros k v Hn. intros repo shard r Hkey. exfalso.
    assert (may_change o k) as Hc.
    { destruct o; cbn in *; try done; try tauto. destruct Hn as [? Hn]. split; [done|]. apply list_elem_of_fmap. by exists ((k.1.2, k.2), v). }
    apply He in Hc. destruct k as [ [t pk] sk]. cbn in Hkey. simplify_eq.
    by destruct Hc as [Hc|[Hc|Hc] ].
Qed.

Lemma always_lawful {A} (p : prog A) w : issues lawful p → kept w → always kept p w (λ _ _, True).
Proof. intros Hp Hw. apply (always_issues kept lawful); [|done|done]. intros e w' He Hw'. by apply lawful_kept. Qed.

(** What only touches the task and the lease. *)
Lemma always_own {A} (p : prog A) w : issues own_keys p → kept w →
  always kept p w (λ _ w', only_own_keys w w').
Proof.
  intros Hp Hw.
  revert w Hw. induction p as [a|e k IH|]; intros w Hw; [by split| |by split].
  destruct Hp as [He Hk]. split; [done|]. eapply always_mono.
  - apply IH; [apply Hk|]. by apply lawful_kept; [apply own_lawful|].
  - intros a w' _ Ho. etrans; [|exact Ho]. by apply within_keys_frame.
Qed.

Lemma value_law_prepared k repo path r r' (v : bytes) :
  k = artifact_key repo path → ar_path r' = path → ar_kind r' = ar_kind r →
  (∀ helm k0, ar_kind r = KHelmChart helm → sound w0 k0 → k0 ≠ k → chart_home repo helm ≠ k0) →
  to_vec r' = inr v → value_law k v.
Proof using SerdeExact0.
  intros -> <- Hkind Hhome Hv repo' shard r2 Hkey Hr2.
  assert (r2 = r') as ->.
  { pose proof (from_to_vec r' v Hv) as Hrt. rewrite Hr2 in Hrt. injection Hrt as ->. apply wire_id. }
  assert (repo' = repo) as ->.
  { unfold artifact_key, sharded_pk in Hkey. cbn [fst] in Hkey. injection Hkey as Hpk.
    by apply scoped_pk_inj in Hpk as [? _]. }
  split; [done|]. intros helm k0 Hk Hs Hne. rewrite Hkind in Hk. by apply Hhome.
Qed.

Lemma lawful_other (o : kv_op) : (∀ k, may_change o k → k.1.1 ≠ TABLE_ARTIFACTS) → lawful (EKv o).
Proof.
  intros Hc. split.
  - intros k Hk%sound_table Hm. by apply Hc in Hm.
  - intros k v Hn repo shard r Hkey. exfalso. apply (Hc k); [|by destruct k as [ [? ?] ?]; cbn in *; simplify_eq].
    destruct o; cbn in *; try done; try tauto. destruct Hn as [? Hn]. split; [done|]. apply list_elem_of_fmap. by exists ((k.1.2, k.2), v).
Qed.

Lemma issues_lawful_upsert repo path r : issues lawful (upsert_tree_file repo path r).
Proof.
  unfold upsert_tree_file. destruct (to_vec _); [done|]. cbn [tree_entry_key]. issues_tac.
  apply lawful_other. by intros k ->.
Qed.

(** Removing what is not in order, and writing what obeys the law. *)
Lemma issues_lawful_delete repo path : ¬ sound w0 (artifact_key repo path) → issues lawful (delete_artifact repo path).
Proof.
  intros Hns. unfold delete_artifact, delete_tree_file. destruct (artifact_key repo path) as [ [t pk] sk] eqn:Hk.
  cbn [tree_entry_key]. issues_tac.
  - split; [|by intros ? ? ?]. intros k Hs Hc. cbn in Hc. subst k. by destruct Hns.
  - apply lawful_other. by intros k ->.
Qed.

Definition homeless (repo path : string) (r : ArtifactRecord) : Prop :=
  ∀ helm k0, ar_kind r = KHelmChart helm → sound w0 k0 → k0 ≠ artifact_key repo path → chart_home repo helm ≠ k0.

Lemma issues_prepare {B : Type} path r (f : ArtifactRecord → prog B) :
  (∀ id accessed, issues lawful (f (ar_prepared r id accessed path))) → issues lawful (bind (prepare_record path r) f).
Proof. intros Hf. unfold prepare_record. case_decide; cbn; [split; [done|]; intros id|]; apply Hf. Qed.

Lemma issues_lawful_put repo path r : ¬ sound w0 (artifact_key repo path) → homeless repo path r →
  issues lawful (put_artifact repo path r).
Proof using SerdeExact0.
  intros Hns Hhome. unfold put_artifact. case_decide; [done|]. generalize PUT_ARTIFACT_MAX_RETRIES. intros n.
  induction n as [|n IH]; [done|]. cbn [put_artifact_loop]. destruct (artifact_key repo path) as [ [t pk] sk] eqn:Hk.
  apply issues_bind_ok.
  { eapply issues_mono; [exact own_lawful|]. apply issues_read_versioned. }
  intros old. destruct (match old with Some (rec, v) => (Some rec, Some v) | None => (None, None) end) as [old_record expected].
  apply issues_prepare. intros id accessed. destruct (to_vec (ar_prepared r id accessed path)) as [e|b] eqn:Hb; [done|].
  cbn [serde_result try_]. apply issues_bind_ok.
  - split; [|done]. split.
    + intros k Hs Hc. cbn in Hc. subst k. by destruct Hns.
    + intros k v [-> ->]. rewrite <-Hk. by eapply value_law_prepared; [..|exact Hb].
  - intros [|]; [|exact IH]. apply issues_bind; [apply issues_lawful_upsert|done].
Qed.

Lemma issues_lawful_if_absent repo path r : homeless repo path r → issues lawful (put_artifact_if_absent repo path r).
Proof using SerdeExact0.
  intros Hhome. unfold put_artifact_if_absent. destruct (artifact_key repo path) as [ [t pk] sk] eqn:Hk.
  apply issues_prepare. intros id accessed. destruct (to_vec (ar_prepared r id accessed path)) as [e|b] eqn:Hb; [done|].
  cbn [serde_result try_]. apply issues_bind_ok.
  - split; [|done]. split; [by intros; eexists _, _, _, _|].
    intros k v [-> ->]. rewrite <-Hk. by eapply value_law_prepared; [..|exact Hb].
  - intros written. apply issues_bind; [destruct (written : bool); [apply issues_lawful_upsert|done]|done].
Qed.

Lemma issues_lawful_stale repo : issues lawful (set_helm_stale_flag repo).
Proof using SerdeExact0.
  unfold set_helm_stale_flag. issues_tac. apply issues_lawful_if_absent. by intros helm k0 ?.
Qed.

Lemma issues_lawful_own {A} (p : prog A) : issues own_keys p → issues lawful p.
Proof. apply issues_mono. exact own_lawful. Qed.

Lemma issues_lawful_delete_blob store hash : issues lawful (delete_blob_counted store hash).
Proof.
  unfold delete_blob_counted, get_blob, delete_blob. cbn [blob_key]. apply issues_bind_ok.
  { apply issues_lawful_own, issues_read. }
  intros o. apply issues_bind_ok.
  - split; [|done]. apply lawful_other. by intros k ->.
  - intros deleted. apply issues_bind; [|done]. unfold store_changed. by repeat case_match.
Qed.

Lemma issues_lawful_log s st : issues lawful (log task_id s st).
Proof. apply issues_lawful_own, issues_log. Qed.
#[local] Hint Resolve issues_lawful_log issues_lawful_delete issues_lawful_put issues_lawful_stale issues_lawful_delete_blob : issues.

Lemma issues_lawful_fix_missing st : issues lawful (fix_missing_blobs task_id st).
Proof.
  unfold fix_missing_blobs. apply issues_bind; [|done]. generalize (ck_missing st). intros l.
  revert st. induction l as [|[store hash] l IH]; intros st; cbn [delete_missing]; issues_tac.
Qed.

Lemma issues_lawful_dangling repo l st : (∀ path, path ∈ l → ¬ sound w0 (artifact_key repo path)) →
  issues lawful (delete_dangling task_id repo l st).
Proof.
  revert st. induction l as [|path l IH]; intros st Hl; cbn [delete_dangling]; [done|].
  assert (∀ st, issues lawful (delete_dangling task_id repo l st)) as Hrest by (intros; apply IH; intros; apply Hl; by right).
  assert (issues lawful (delete_artifact repo path)) by (apply issues_lawful_delete, Hl; by left). issues_tac.
Qed.

Lemma issues_lawful_tags repo l st : (∀ path, path ∈ l → ¬ sound w0 (artifact_key repo path)) →
  issues lawful (delete_tags task_id repo l st).
Proof.
  revert st. induction l as [|path l IH]; intros st Hl; cbn [delete_tags]; [done|].
  assert (∀ st, issues lawful (delete_tags task_id repo l st)) as Hrest by (intros; apply IH; intros; apply Hl; by right).
  assert (issues lawful (delete_artifact repo path)) by (apply issues_lawful_delete, Hl; by left). issues_tac.
Qed.

Lemma issues_lawful_get repo path : issues lawful (get_artifact repo path).
Proof.
  unfold get_artifact. destruct (artifact_key repo path) as [ [t pk] sk]. apply issues_lawful_own, issues_read.
Qed.

Lemma issues_lawful_renames repo dels l st :
  (∀ old new r, (old, new, r) ∈ l → ¬ sound w0 (artifact_key repo old) ∧ artifact_key repo new = artifact_key repo old ∧
     homeless repo new r) →
  issues lawful (rename_paths task_id repo dels l st).
Proof using SerdeExact0.
  revert st. induction l as [|[ [old new] r] l IH]; intros st Hl; cbn [rename_paths]; [done|].
  assert (∀ st, issues lawful (rename_paths task_id repo dels l st)) as Hrest by (intros; apply IH; intros; apply Hl; by right).
  destruct (Hl old new r) as (Hold & Hnew & Hhome); [by left|].
  assert (issues lawful (delete_artifact repo old)) by by apply issues_lawful_delete.
  assert (issues lawful (put_artifact repo new (ar_at new r))) by (apply issues_lawful_put; [by rewrite Hnew|exact Hhome]).
  pose proof (issues_lawful_get repo new). unfold reinsert. issues_tac.
Qed.

Lemma issues_lawful_relocate repo l n st :
  (∀ old new r, (old, new, r) ∈ l → ¬ sound w0 (artifact_key repo old) ∧ ¬ sound w0 (artifact_key repo new) ∧ homeless repo new r) →
  issues lawful (relocate_charts task_id repo l n st).
Proof using SerdeExact0.
  revert n st. induction l as [|[ [old new] r] l IH]; intros n st Hl; cbn [relocate_charts]; [done|].
  assert (∀ n st, issues lawful (relocate_charts task_id repo l n st)) as Hrest by (intros; apply IH; intros; apply Hl; by right).
  destruct (Hl old new r) as (Hold & Hnew & Hhome); [by left|].
  assert (issues lawful (delete_artifact repo old)) by by apply issues_lawful_delete.
  assert (issues lawful (put_artifact repo new r)) by by apply issues_lawful_put.
  issues_tac.
Qed.

(** *** What the passes condemn *)

Lemma artifact_key_repo repo1 repo2 p1 p2 : artifact_key repo1 p1 = artifact_key repo2 p2 → repo1 = repo2.
Proof. unfold artifact_key, sharded_pk. intros [= Hpk _]. by apply scoped_pk_inj in Hpk as [? _]. Qed.

Lemma stored_law w repo sk r : kept w → stored (w_kv w) repo sk r →
  at_path (w_kv w) repo r ∧ normalize_path (ar_path r) = sk ∧ homeless repo (ar_path r) r.
Proof.
  intros Hw (shard & v & n & _ & Hm & Hv). pose proof (kept_law w Hw _ _ _ Hm repo shard r eq_refl Hv) as [Hkey Hhome].
  split_and!.
  - exists v, n. by rewrite Hkey.
  - unfold artifact_key in Hkey. by injection Hkey.
  - intros helm k0 Hk Hs. rewrite Hkey. by apply Hhome.
Qed.

(** A record in the place of one that is in order is that record. *)
Lemma sound_record w repo r : kept w → at_path (w_kv w) repo r → sound w0 (artifact_key repo (ar_path r)) →
  orderly w0 repo r ∧
  ∀ digest tag mp, ar_kind r = KDockerTag digest tag → manifest_path_of_tag (ar_path r) digest = Some mp →
    ∃ r', ar_path r' = mp ∧ at_path (w_kv w) repo r'.
Proof.
  intros Hw (v & n & Hm & Hv) Hs. pose proof Hs as (repo' & r0 & Hkey & (v0 & n0 & Hm0 & Hv0) & Hord & Htag).
  pose proof (artifact_key_repo _ _ _ _ Hkey) as <-.
  rewrite (kept_sound w Hw _ Hs) in Hm. rewrite <-Hkey in Hm0. assert (r0 = r) as -> by congruence.
  split; [done|]. intros digest tag mp Hk Hmp. destruct (Htag digest tag mp Hk Hmp) as (r' & <- & Hat & Hord' & Hnt).
  exists r'. split; [done|]. destruct Hat as (v' & n' & Hm' & Hv'). exists v', n'. split; [|done].
  rewrite (kept_sound w Hw); [done|]. exists repo, r'. split_and!; [done|by exists v', n'|done|].
  intros d t mp' Hk'. destruct Hnt. by exists d, t.
Qed.

Lemma at_path_stored m repo r : at_path m repo r → stored m repo (normalize_path (ar_path r)) r.
Proof.
  intros (v & n & Hm & Hv). exists (shard_of (normalize_path (ar_path r))), v, n. split_and!; [apply shard_of_in_range|done|done].
Qed.

(** The filter has every blob that is listed. *)
Definition filter_ok (bf : Bloom) : Prop := ∀ blob_id, listed w0 blob_id → bloom_check bf blob_id = true.

Lemma orderly_not_lost bf repo r : filter_ok bf → orderly w0 repo r → ¬ lost bf r.
Proof.
  intros Hbf Hord Hl. apply Hl. unfold unknown_blob. destruct (ar_blob_id r) as [id|] eqn:Hid; [|done].
  by rewrite (Hbf id (io_contents _ _ _ Hord id Hid)).
Qed.

Lemma normalize_idem p : normalize_path (normalize_path p) = normalize_path p.
Proof. apply normalize_path_canonical. Qed.

Lemma artifact_key_normal repo p : artifact_key repo (normalize_path p) = artifact_key repo p.
Proof. unfold artifact_key. by rewrite normalize_idem. Qed.

(** The paths that the first pass condemns. *)
Lemma condemned bf repo w scan : filter_ok bf → kept w →
  scan_found bf (all_records (w_kv w) repo "" (arrange 72 shard_range)) scan →
  (∀ path, path ∈ rs_to_delete scan → ¬ sound w0 (artifact_key repo path)) ∧
  (∀ old new r, (old, new, r) ∈ rs_to_rename scan → ¬ sound w0 (artifact_key repo old) ∧
     artifact_key repo new = artifact_key repo old ∧ homeless repo new r) ∧
  (∀ r, at_path (w_kv w) repo r → ar_path r ∈ rs_artifact_paths scan).
Proof.
  intros Hbf Hw (Hpaths & Hdel & Hren).
  assert (∀ r, r ∈ (all_records (w_kv w) repo "" (arrange 72 shard_range)).*2 ↔ at_path (w_kv w) repo r) as Hin.
  { intros r. rewrite list_elem_of_fmap. split.
    - intros ([sk r'] & -> & [_ Hst]%elem_of_all_records); [|apply arrange_perm]. by apply stored_law in Hst as [? _].
    - intros Hat. exists (normalize_path (ar_path r), r). split; [done|]. apply elem_of_all_records; [apply arrange_perm|].
      split; [apply starts_with_nil|]. by apply at_path_stored. }
  split_and!.
  - intros path Hp Hs. rewrite Hdel in Hp. apply list_elem_of_fmap in Hp as (r & -> & [Hl Hr%Hin]%list_elem_of_filter).
    destruct (sound_record w repo r Hw Hr Hs) as [Hord _]. by apply (orderly_not_lost bf repo r).
  - intros old new r Hp. rewrite Hren in Hp. apply list_elem_of_fmap in Hp as (r' & [= -> -> ->] & [Hl Hr%Hin]%list_elem_of_filter).
    split_and!.
    + intros Hs. destruct (sound_record w repo r' Hw Hr Hs) as [Hord _]. by apply (io_slashes _ _ _ Hord).
    + apply artifact_key_normal.
    + destruct (stored_law w repo (normalize_path (ar_path r')) r' Hw) as (_ & _ & Hhome); [by apply at_path_stored|].
      intros helm k0 Hk Hs Hne. apply Hhome; [done|done|]. by rewrite <-(artifact_key_normal repo (ar_path r')).
  - intros r Hr. rewrite Hpaths. apply list_elem_of_fmap. exists r. split; [done|]. by apply Hin.
Qed.

Lemma condemned_tags repo w w' paths l : kept w' → only_own_keys w w' →
  (∀ r, at_path (w_kv w) repo r → ar_path r ∈ paths) →
  l = ar_path <$> filter (λ r, dangling_tag paths r ≠ None) (all_records (w_kv w') repo "" (arrange 73 shard_range)).*2 →
  ∀ path, path ∈ l → ¬ sound w0 (artifact_key repo path).
Proof.
  intros Hw Hown Hpaths -> path Hp Hs. apply list_elem_of_fmap in Hp as (r & -> & [Hd Hr]%list_elem_of_filter).
  apply list_elem_of_fmap in Hr as ([sk r'] & -> & [_ Hst]%elem_of_all_records); [|apply arrange_perm].
  cbn [snd] in *. apply stored_law in Hst as (Hat & _ & _); [|done].
  destruct (sound_record w' repo r' Hw Hat Hs) as [_ Htag]. apply Hd. unfold dangling_tag.
  destruct (ar_kind r') as [| | |digest tag| | | | | | | | | | |] eqn:Hk; try done.
  destruct (manifest_path_of_tag (ar_path r') digest) as [mp|] eqn:Hmp; [|done].
  destruct (Htag digest tag mp eq_refl Hmp) as (r2 & <- & v & n & Hm & Hv). rewrite bool_decide_true; [done|].
  apply Hpaths. exists v, n. split; [|done].
  destruct Hown as [Hown _]. rewrite <-Hown; [done|]. by intros [?|[?|?] ].
Qed.

(** The chart relocations. *)
Lemma condemned_charts repo w old new r : kept w → (old, new, r) ∈ chart_plan (w_kv w) repo →
  ¬ sound w0 (artifact_key repo old) ∧ ¬ sound w0 (artifact_key repo new) ∧ homeless repo new r.
Proof.
  intros Hw (Hst & Hleg & helm & Hk & -> & Hne)%elem_of_chart_plan.
  destruct (stored_law w repo old r Hw Hst) as (Hat & <- & Hhome). rewrite artifact_key_normal.
  assert (¬ sound w0 (artifact_key repo (ar_path r))) as Hns.
  { intros Hs. destruct (sound_record w repo r Hw Hat Hs) as [Hord _]. apply Hne. by apply (io_chart _ _ _ Hord helm). }
  split_and!; [done| |].
  - intros Hs. refine (Hhome helm _ Hk Hs _ eq_refl). intros Heq. apply Hns. unfold chart_home in *. by rewrite <-Heq.
  - intros helm' k0 Hk' Hs Hne'. rewrite Hk in Hk'. injection Hk' as <-. by intros <-.
Qed.

(** *** The run *)

Lemma always_bind_own {A B} (p : prog A) (f : A → prog B) w (Q : B → world kvmap → Prop) :
  issues own_keys p → kept w → (∀ a w', only_own_keys w w' → kept w' → always kept (f a) w' Q) → always kept (bind p f) w Q.
Proof.
  intros Hp Hw Hf. apply always_bind. eapply always_mono; [by apply always_own|]. intros a w' Hw' Ho. by apply Hf.
Qed.

Lemma always_bind_lawful {A B} (p : prog A) (f : A → prog B) w (Q : B → world kvmap → Prop) :
  issues lawful p → kept w → (∀ a w', kept w' → always kept (f a) w' Q) → always kept (bind p f) w Q.
Proof.
  intros Hp Hw Hf. apply always_bind. eapply always_mono; [by apply always_lawful|]. intros a w' Hw' _. by apply Hf.
Qed.

Lemma reads_own (e : eff) : reads e → own_keys e.
Proof. apply within_keys_mono. done. Qed.

Lemma always_scan_repo bf repo st w : filter_ok bf → kept w →
  always kept (scan_repo fuel task_id bf repo st) w (λ r w', only_own_keys w w' ∧
    (∀ path, path ∈ rs_to_delete r.1 → ¬ sound w0 (artifact_key repo path)) ∧
    (∀ old new r', (old, new, r') ∈ rs_to_rename r.1 → ¬ sound w0 (artifact_key repo old) ∧
       artifact_key repo new = artifact_key repo old ∧ homeless repo new r') ∧
    (all_readable (w_kv w) repo → ∀ r', at_path (w_kv w) repo r' → ar_path r' ∈ rs_artifact_paths r.1)).
Proof.
  intros Hbf Hw. unfold scan_repo. apply always_bind. apply always_reads; [apply issues_fold_all|done|].
  intros r Hrun. set (scan := match r with Ok scan => scan | Err _ => rs_default end).
  assert ((∀ path, path ∈ rs_to_delete scan → ¬ sound w0 (artifact_key repo path)) ∧
    (∀ old new r', (old, new, r') ∈ rs_to_rename scan → ¬ sound w0 (artifact_key repo old) ∧
       artifact_key repo new = artifact_key repo old ∧ homeless repo new r') ∧
    (all_readable (w_kv w) repo → ∀ r', at_path (w_kv w) repo r' → ar_path r' ∈ rs_artifact_paths scan)) as Hscan.
  { destruct (run_scan_records fuel bf repo w) as [ (r0 & Hr0 & Hok & Hfound)|[Hnone _] ]; [|congruence].
    assert (r0 = r) as -> by congruence. unfold scan. destruct r as [s|e].
    - destruct (condemned bf repo w s Hbf Hw (Hfound s eq_refl)) as (? & ? & ?). by split_and!.
    - split_and!; [by intros ? ?%elem_of_nil|by intros ? ? ? ?%elem_of_nil|]. intros Hread. by specialize (Hok Hread). }
  apply always_bind_own; [apply issues_log_all|done|]. intros st' w' Ho Hw'.
  apply always_ret; [done|]. cbn [fst]. by split.
Qed.

Lemma always_scan_tags repo scan st w w1 : kept w → only_own_keys w1 w →
  (all_readable (w_kv w1) repo → ∀ r', at_path (w_kv w1) repo r' → ar_path r' ∈ rs_artifact_paths scan) →
  always kept (scan_tags fuel task_id repo scan st) w (λ r w', only_own_keys w w' ∧
    ∀ path, path ∈ r.1 → ¬ sound w0 (artifact_key repo path)).
Proof.
  intros Hw Ho Hpaths. unfold scan_tags. apply always_bind. apply always_reads; [apply issues_fold_all|done|].
  intros r Hrun. set (l := match r with Ok l => l | Err _ => [] end).
  apply always_bind_own; [apply issues_report_tags|done|]. intros st' w' Ho' Hw'. apply always_ret; [done|]. cbn [fst].
  split; [done|]. destruct (run_scan_tags fuel (rs_artifact_paths scan) repo w) as [ (r0 & Hr0 & Hok & Hfound)|[Hnone _] ]; [|congruence].
  assert (r0 = r) as -> by congruence. unfold l. destruct r as [tags|e]; [|by intros path ?%elem_of_nil].
  eapply (condemned_tags repo w1 w); [done|done| |by apply Hfound]. apply Hpaths.
  pose proof (proj1 Hok eq_refl) as Hread. intros shard sk v n Hs Hm. apply (Hread shard sk v n Hs).
  destruct Ho as [Ho _]. rewrite Ho; [done|]. by intros [?|[?|?] ].
Qed.

Lemma always_helm repo dry st w : kept w →
  always kept (check_helm_canonicalization fuel task_id repo dry st) w (λ _ _, True).
Proof using SerdeExact0.
  intros Hw. unfold check_helm_canonicalization. apply always_bind. apply always_reads.
  { unfold enumerate_legacy_chart_relocations. issues_tac. }
  { done. }
  intros r Hrun. destruct (run_enumerate fuel repo w) as [ (r0 & Hr0 & _ & Hplan)|[Hnone _] ]; [|congruence].
  assert (r0 = r) as -> by congruence. apply always_lawful; [|done].
  destruct r as [plan|e]; [|apply issues_lawful_log]. destruct plan as [|x plan]; [done|].
  apply issues_bind; [apply issues_lawful_own, issues_log_all|]. intros st'. destruct dry; [done|].
  apply issues_bind.
  - apply issues_lawful_relocate. intros old new r Hin. rewrite (Hplan _ eq_refl) in Hin. by apply (condemned_charts repo w).
  - intros [applied st2]. case_decide; [|done]. apply issues_bind; [apply issues_lawful_stale|]. intros r'.
    apply issues_bind; [|done]. destruct r'; [done|apply issues_lawful_log].
Qed.

Lemma always_check_repo bf dry repos c st w : filter_ok bf → kept w →
  always kept (check_repo fuel task_id bf dry repos c st) w (λ _ _, True).
Proof using SerdeExact0.
  intros Hbf Hw. unfold check_repo. cbv zeta. apply always_bind. eapply always_mono; [by apply always_scan_repo|].
  intros [scan st1] w1 Hw1 (Ho1 & Hdel & Hren & Hpaths). cbn [fst] in *. apply always_bind.
  eapply always_mono.
  { apply (always_scan_tags _ scan st1 w1 w1); [done|done|]. intros Hread r' Hat. apply Hpaths.
    - intros shard sk v n Hs Hm. apply (Hread shard sk v n Hs). destruct Ho1 as [Ho1 _]. rewrite Ho1; [done|]. by intros [?|[?|?] ].
    - destruct Hat as (v & n & Hm & Hv). exists v, n. split; [|done]. destruct Ho1 as [Ho1 _]. rewrite <-Ho1; [done|]. by intros [?|[?|?] ]. }
  intros [tags st2] w2 Hw2 [Ho2 Htags]. cbn [fst] in *.
  apply always_bind_lawful; [|done|].
  { destruct dry; [done|]. unfold fix_repo. apply issues_bind; [by apply issues_lawful_dangling|]. intros ?.
    apply issues_bind; [by apply issues_lawful_tags|]. intros ?. by apply issues_lawful_renames. }
  intros st3 w3 Hw3. apply always_bind. case_decide.
  - eapply always_mono; [by apply always_helm|]. intros st4 w4 Hw4 _. apply always_lawful; [|done].
    apply issues_lawful_own. apply issues_bind; [apply issues_check_cache_config|]. intros ?.
    apply issues_bind; [|done]. unfold check_proxy_members. destruct (rc_kind c); try done. apply issues_check_members.
  - apply always_ret; [done|]. apply always_lawful; [|done].
    apply issues_lawful_own. apply issues_bind; [apply issues_check_cache_config|]. intros ?.
    apply issues_bind; [|done]. unfold check_proxy_members. destruct (rc_kind c); try done. apply issues_check_members.
Qed.

Lemma always_check_repos bf dry repos l st w : filter_ok bf → kept w →
  always kept (check_repos fuel task_id bf dry repos l st) w (λ _ _, True).
Proof using SerdeExact0.
  intros Hbf. revert st w. induction l as [|c l IH]; intros st w Hw; cbn [check_repos]; [by apply always_ret|].
  apply always_bind_own; [done|done|]. intros cancelled w1 _ Hw1. destruct (cancelled : bool); [by apply always_ret|].
  apply always_bind. eapply always_mono; [by apply always_check_repo|]. intros st' w' Hw' _. by apply IH.
Qed.

Lemma always_contents sl dry v repos stores bf n g st w : lg_name g = LEASE_GC → filter_ok bf → kept w →
  always kept (check_contents fuel task_id sl dry v repos stores bf n g st) w (λ _ _, True).
Proof using SerdeExact0.
  intros Hg Hbf Hw. unfold check_contents. cbv zeta.
  apply always_bind_own; [apply issues_update_summary|done|]. intros _ w1 _ Hw1.
  apply always_bind_own; [apply issues_verify_blob_records|done|]. intros st1 w2 _ Hw2.
  apply always_bind_own; [done|done|]. intros cancelled w3 _ Hw3.
  destruct (cancelled : bool); [apply always_lawful; [|done]; by apply issues_lawful_own, issues_finish_check_cancelled|].
  apply always_bind_own; [apply issues_log|done|]. intros st2 w4 _ Hw4.
  apply always_bind_lawful; [destruct dry; [done|apply issues_lawful_fix_missing]|done|]. intros st3 w5 Hw5.
  apply always_bind. eapply always_mono; [by apply always_check_repos|]. intros [c st4] w6 Hw6 _.
  apply always_lawful; [|done]. apply issues_lawful_own.
  destruct c; [by apply issues_finish_cancelled|by apply issues_finish_completed].
Qed.

(** *** The listing *)

Lemma list_stores_same w s : only_own_keys w0 w → run list_stores w = (Some s, w) → run list_stores w0 = (Some s, w0).
Proof.
  intros [Ho _]. unfold list_stores, typed_list. rewrite !run_bind_ok, !run_kv_spec. cbn [spec_store fst snd].
  rewrite !set_kv_id. cbn [run].
  assert (part (w_kv w) TABLE_STORES SINGLE_PK = part (w_kv w0) TABLE_STORES SINGLE_PK) as ->; [|by intros [= <-] ].
  apply part_ext. intros sk. apply Ho. by intros [?|[?|?] ].
Qed.

Lemma listing (store : string) w :
  ∃ l : list (string * Z), blob_step store (BScan (λ _, true)) w = (Ok l, w) ∧
    ∀ id : string, is_Some (w_blobs w !! (store, id)) → id ∈ l.*1.
Proof.
  eexists. split; [reflexivity|]. intros id [data Hd]. apply list_elem_of_fmap. exists (id, Z.of_nat (String.length data)).
  split; [done|]. apply list_elem_of_omap. exists ((store, id), data). split; [by apply elem_of_map_to_list|]. by rewrite decide_True.
Qed.

(** Unless it fails, the listing has every blob of every store. *)
Lemma always_list_blob_stores t bf n l st w : kept w → only_own_keys w0 w → w_cancelled w0 = false → bloom_like t bf →
  always kept (list_blob_stores task_id t bf n l st) w (λ r w', only_own_keys w0 w' ∧ ∀ b c st', r = (inr (b, c), st') →
    (∀ x, bloom_check bf x = true → bloom_check b x = true) ∧
    ∀ sr id, sr ∈ l → sr_name sr ∈ w_stores w0 → is_Some (w_blobs w0 !! (sr_name sr, id)) → bloom_check b id = true).
Proof.
  intros Hw Ho Hc. revert bf n st w Hw Ho. induction l as [|sr l IH]; intros bf n st w Hw Ho Hbf; cbn [list_blob_stores].
  { apply always_ret; [done|]. split; [done|]. intros b c st' [= <- <- <-]. split; [done|]. by intros sr id ?%elem_of_nil. }
  apply always_bind, always_call; [done|done|]. cbn [handle fst snd]. rewrite (kept_cancelled w Hw), Hc.
  apply always_bind_own; [apply issues_log|done|]. intros st1 w1 Ho1 Hw1.
  destruct (bloom_empty_like_ok t) as (e & -> & He).
  apply always_bind, always_call; [done|done|]. cbn [handle fst snd].
  assert (only_own_keys w0 w1) as Ho' by by etrans. case_bool_decide as Hin; cbn [negb].
  - destruct (listing (sr_name sr) w1) as (items & Hstep & Hitems).
    apply always_bind. unfold list_store. apply always_bind, always_call; [done|done|]. cbn [handle]. rewrite Hstep. cbn [fst snd].
    apply always_ret; [done|].
    destruct (bloom_union_ok t bf (foldl bloom_set e items.*1) Hbf) as (b & -> & Hb & Hcheck); [by apply bloom_set_all_like|].
    apply always_bind_own; [apply issues_log|done|]. intros st2 w2 Ho2 Hw2.
    eapply always_mono; [apply IH; [done|by etrans|done] |]. intros r w' Hw' [Ho3 Hr]. split; [done|].
    intros b' c st' Heq. destruct (Hr b' c st' Heq) as [Hkeep Hall]. split.
    + intros x Hx. apply Hkeep, Hcheck. by left.
    + intros sr' id [->|Hsr]%elem_of_cons Hs Hid; [|by eapply Hall]. apply Hkeep, Hcheck. right.
      apply bloom_set_all_check. left. apply Hitems. by rewrite (kept_blobs w1 Hw1).
  - apply always_bind_own; [apply issues_log|done|]. intros st2 w2 Ho2 Hw2.
    eapply always_mono; [apply IH; [done|by etrans|done] |]. intros r w' Hw' [Ho3 Hr]. split; [done|].
    intros b' c st' Heq. destruct (Hr b' c st' Heq) as [Hkeep Hall]. split; [done|].
    intros sr' id [->|Hsr]%elem_of_cons Hs Hid; [|by eapply Hall]. exfalso. apply Hin. by rewrite (kept_stores w1 Hw1).
Qed.

Lemma always_locked sl dry v g st w : lg_name g = LEASE_GC → kept w → only_own_keys w0 w →
  always kept (check_locked fuel task_id sl dry v g st) w (λ _ _, True).
Proof using SerdeExact0.
  intros Hg Hw Ho. unfold check_locked. cbv zeta.
  assert (∀ e g st w, lg_name g = LEASE_GC → kept w → always kept (finish_failed task_id e g st) w (λ _ _, True)) as Hfail.
  { intros e g' st' w' Hg' Hw'. apply always_lawful; [|done]. by apply issues_lawful_own, issues_finish_failed. }
  apply always_bind_own; [apply issues_list_repos|done|]. intros r w1 Ho1 Hw1. destruct r as [repos|e]; [|by apply Hfail].
  apply always_bind_own; [apply issues_list_stores|done|]. intros s w2 Ho2 Hw2.
  apply always_bind_own; [apply issues_sum_store_stats|done|]. intros [tb tby] w3 Ho3 Hw3.
  apply always_bind_own; [apply issues_sum_repo_artifacts|done|]. intros ta w4 Ho4 Hw4.
  apply always_bind_own; [apply issues_log|done|]. intros st1 w5 Ho5 Hw5.
  apply always_bind_own; [apply issues_log|done|]. intros st2 w6 Ho6 Hw6.
  apply always_bind_own; [apply issues_update_summary|done|]. intros _ w7 Ho7 Hw7.
  assert (only_own_keys w0 w7) as Ho' by (repeat (etrans; [eassumption|]); done).
  apply always_bind. apply always_reads; [unfold list_stores; apply issues_list|done|]. intros s2 Hs2.
  apply (list_stores_same w7 s2 Ho') in Hs2.
  destruct (new_for_fp_rate _) as [e|t]; [by apply Hfail|].
  destruct (bloom_empty_like_ok t) as (b0 & -> & Hb0).
  destruct (w_cancelled w0) eqn:Hc.
  - (* nothing is fixed *)
    apply always_bind_own; [apply issues_list_blob_stores|done|]. intros [ [e|[bf n] ] st3] w8 Ho8 Hw8; [by apply Hfail|].
    apply always_bind_own; [apply issues_log|done|]. intros st4 w9 Ho9 Hw9.
    apply always_bind, always_call; [done|done|]. cbn [handle fst snd]. rewrite (kept_cancelled w9 Hw9), Hc.
    apply always_lawful; [|done]. by apply issues_lawful_own, issues_finish_check_cancelled.
  - apply always_bind. eapply always_mono; [by apply always_list_blob_stores|].
    intros [ [e|[bf n] ] st3] w8 Hw8 [Ho8 Hlisted]; [by apply Hfail|].
    apply always_bind_own; [apply issues_log|done|]. intros st4 w9 Ho9 Hw9.
    apply always_bind, always_call; [done|done|]. cbn [handle fst snd]. rewrite (kept_cancelled w9 Hw9), Hc.
    apply always_contents; [done| |done]. intros id (l & sr & Hl & Hsr & Hin & Hid).
    rewrite Hl in Hs2. injection Hs2 as <-. destruct (Hlisted bf n st3 eq_refl) as [_ Hall]. by eapply Hall.
Qed.

Lemma kept_start : all_well_placed (w_kv w0) → kept w0.
Proof.
  intros Hall. split; try done. intros k v n Hm repo shard r Hkey Hv.
  pose proof (Hall k v n Hm repo shard r Hkey Hv) as Hk. split; [done|].
  intros helm k0 Hkind (repo' & r' & -> & Hat & Hord & _) Hne Hhome.
  pose proof (artifact_key_repo _ _ _ _ Hhome) as <-. apply Hne.
  rewrite <-(io_place _ _ _ Hord r helm); [done| |done|done]. exists v, n. by rewrite Hk.
Qed.

Lemma always_run_check i sl dry v tm w : kept w → only_own_keys w0 w →
  always kept (run_check fuel task_id i sl dry v tm) w (λ _ _, True).
Proof using SerdeExact0.
  intros Hw Ho. unfold run_check. cbv zeta.
  apply always_bind_own; [apply issues_log|done|]. intros st1 w1 Ho1 Hw1.
  apply always_bind_own; [apply issues_log|done|]. intros st2 w2 Ho2 Hw2.
  apply always_bind_own; [apply issues_acquire_lease|done|]. intros [ [| | |e] st3] w3 Ho3 Hw3.
  - apply always_locked; [done|done|]. by repeat (etrans; [eassumption|]).
  - apply always_lawful; [|done]. by apply issues_lawful_own, issues_finish_failed.
  - apply always_lawful; [|done]. apply issues_lawful_own. unfold mark_cancelled.
    apply issues_bind; [apply issues_mark_terminal|]. intros tm'. apply issues_bind; [by apply issues_guard_drop|done].
  - apply always_lawful; [|done]. by apply issues_lawful_own, issues_finish_failed.
Qed.

(** A dry run of the integrity check only reports.  Whatever the stores
    answer, and whatever runs at the same time, none of its calls writes
    anything but task records, task logs and the lease of the collector; so at
    every moment of a dry run every other entry, every blob and the channels
    are as they were, also when calls on the stores fail at any moment. *)
Theorem check_dry_run_readonly (instance_id : string) (soft_limit : option Z) (verify_blob_hashes : bool) (tm : TaskManager) :
  issues (within_keys task_or_lease) (run_check fuel task_id instance_id soft_limit true verify_blob_hashes tm) ∧
  ∀ (w : world kvmap) (ps : list (prog TaskManager)) (w' : world kvmap),
    fsteps ([run_check fuel task_id instance_id soft_limit true verify_blob_hashes tm], w) (ps, w') → only_own_keys w w'.
Proof.
  split; [apply issues_run_check_dry|]. intros w ps w' Hs.
  apply (issues_fsteps own_keys only_own_keys _ _ _ _ within_keys_answers) in Hs; [done|].
  apply Forall_singleton, issues_run_check_dry.
Qed.

End run.

(** ** Witnesses *)

Definition toy_check_artifacts : list ArtifactRecord :=
  [mkArtifactRecord 5 "i1" 3 "t" 7%Z 7%Z 7%Z "a" KRaw false (Some "b1") None None;
   mkArtifactRecord 5 "i2" 3 "t" 7%Z 7%Z 7%Z "x" KRaw false (Some "b2") None None].

Definition toy_check_serde : Serde ArtifactRecord := table_serde toy_check_artifacts.

(** The artifact "a" has its blob; the one at "x" has not. *)
Definition toy_check_store : kvmap :=
  let _ := toy_blake3 in
  list_to_map [(artifact_key "r" "a", ("0", 1%Z)); (artifact_key "r" "x", ("1", 1%Z));
               (repo_key "r", ("0", 1%Z)); (store_key "s", ("0", 1%Z))].

Definition toy_check_world : world kvmap :=
  mkWorld toy_check_store {[("s", "b1") := "abc"]} {["s"]} 0%Z 0 [] false.

(** A filter with one bit per second character, modulo eight. *)
Definition bit_of (x : string) : N := match x with String _ (String c _) => (N_of_ascii c mod 8)%N | _ => 0%N end.
Definition toy_bits : BloomCrate.
Proof.
  refine {|
    Bloom := N;
    new_for_fp_rate := λ _, inr 0%N;
    bloom_len := λ _, 8%N;
    as_slice := λ f, [1%N; f];
    from_bytes := toy_from_bytes;
    bloom_clear := λ _, 0%N;
    bloom_set := λ f x, N.lor f (2 ^ bit_of x);
    bloom_check := λ f x, N.testbit f (bit_of x);
  |}.
  - intros f bs Hl Ht. destruct bs as [|a [|b [|c bs] ] ]; try done.
    cbn in Ht. injection Ht as ->. by exists b.
  - intros n f x [= <-]. apply N.bits_0.
  - done.
  - intros f x. apply N.bits_0.
  - done.
  - intros f x. constructor; [|constructor]. by rewrite N.lor_assoc, N.lor_diag.
  - intros f x. by rewrite N.lor_spec, N.pow2_bits_true, orb_true_r.
  - intros f g x _ Hle Hf. inversion Hle as [|? ? ? ? Hfg]; subst. by rewrite <-Hfg, N.lor_spec, Hf.
Defined.

Definition toy_check_lease : Serde LeaseRecord := table_serde [mkLeaseRecord "i:check" 0%Z 3600].
Definition toy_check_repo : Serde RepoConfig := table_serde [toy_repo "r" Hosted false].

Definition toy_check (dry_run : bool) : prog TaskManager :=
  @run_check toy_blake3 toy_bits toy_check_repo toy_sr_serde toy_ss_serde (table_serde []) toy_check_serde (table_serde [])
    toy_check_lease (table_serde []) (table_serde []) toy_chrono Prog.in_order 5 "t" "i" None dry_run false (new_task_manager "i").

(** The check has taken all its steps. *)
Definition toy_checked (dry_run : bool) : list (prog TaskManager) * world kvmap :=
  @pool_run kvmap toy_uuid _ TaskManager (replicate 3000 0) ([toy_check dry_run], toy_check_world).

Lemma run_steps_pair {K A} `{UuidGen} `{KvStore K} schedule (c : list (prog A) * world K) :
  steps c ((pool_run schedule c).1, (pool_run schedule c).2).
Proof. pose proof (pool_run_steps schedule c). by destruct (pool_run schedule c). Qed.

Lemma toy_check_steps dry_run :
  @steps kvmap toy_uuid _ TaskManager ([toy_check dry_run], toy_check_world) ((toy_checked dry_run).1, (toy_checked dry_run).2).
Proof. exact (run_steps_pair (replicate 3000 0) ([toy_check dry_run], toy_check_world)). Qed.

Lemma table_lookup_elem {A} (i : N) (l : list A) b a : table_lookup i l b = inr a → a ∈ l.
Proof.
  revert i. induction l as [|x l IH]; intros i; cbn [table_lookup]; [done|]. case_decide; [intros [= ->]; by left|].
  intros Hl. right. by eapply IH.
Qed.

Lemma toy_sound : @sound toy_blake3 toy_sr_serde toy_check_serde toy_uuid toy_check_world (@artifact_key toy_blake3 "r" "a").
Proof.
  exists "r", (mkArtifactRecord 5 "i1" 3 "t" 7%Z 7%Z 7%Z "a" KRaw false (Some "b1") None None). split_and!; [done| | |done].
  - exists "0", 1%Z. split; [by_decide|done].
  - split; [|by_decide|done|].
    + intros id [= <-]. exists [toy_store_record], toy_store_record. split_and!; [|left|by_decide|by_decide].
      unfold list_stores, typed_list. rewrite run_bind_ok, run_kv_spec. cbn [spec_store fst snd run]. rewrite set_kv_id.
      apply (f_equal (λ l, (Some l, toy_check_world))). by_decide.
    + intros r2 helm (v & n & _ & Hv%table_lookup_elem) Hk. unfold toy_check_artifacts in Hv.
      apply elem_of_cons in Hv as [->|[->|[]%elem_of_nil]%elem_of_cons]; done.
Qed.

Lemma toy_well_placed : @all_well_placed toy_blake3 toy_check_serde (w_kv toy_check_world).
Proof.
  intros k v n Hm repo shard r Hkey Hv.
  assert (map_Forall (λ (k : string * string * string) (x : bytes * Z), k.1.1 = TABLE_ARTIFACTS →
    match @from_slice _ toy_check_serde x.1 with
    | inr r => bool_decide (@artifact_key toy_blake3 "r" (ar_path r) = k)
    | inl _ => true
    end = true) toy_check_store) as Hall by by_decide.
  assert (map_Forall (λ (k : string * string * string) (x : bytes * Z), k.1.1 = TABLE_ARTIFACTS →
    option_map fst (rsplit_once SLASH k.1.2) = Some "r") toy_check_store) as Hrepo by by_decide.
  assert (k.1.1 = TABLE_ARTIFACTS) as Ht by by rewrite Hkey.
  specialize (Hall _ _ Hm Ht). specialize (Hrepo _ _ Hm Ht). cbn [fst] in Hall. rewrite Hv in Hall.
  apply bool_decide_eq_true in Hall.
  assert (repo = "r") as ->; [|done]. rewrite Hkey in Hrepo. cbn [snd] in Hrepo. unfold artifact_shard_pk in Hrepo.
  rewrite (proj2 (rsplit_once_Some SLASH _ repo (show_uint shard))) in Hrepo.
  - by injection Hrepo.
  - split; [done|]. apply show_uint_no_char. cbn. lia.
Qed.


(** The dry run keeps both. *)
Lemma check_dry_run_readonly_witness :
  let _ := toy_blake3 in
  w_kv (toy_checked true).2 !! artifact_key "r" "a" = Some ("0", 1%Z) ∧
  w_kv (toy_checked true).2 !! artifact_key "r" "x" = Some ("1", 1%Z).
Proof.
  intros ?.
  destruct (proj2 (@check_dry_run_readonly toy_blake3 toy_bits toy_check_repo toy_sr_serde toy_ss_serde (table_serde []) toy_check_serde
    (table_serde []) toy_check_lease (table_serde []) (table_serde []) toy_chrono Prog.in_order 5 "t" toy_uuid "i" None false
    (new_task_manager "i")) toy_check_world (toy_checked true).1 (toy_checked true).2 (steps_fsteps _ _ (toy_check_steps true))) as [Hk _].
  split; (etrans; [apply Hk; by intros [?|[?|?] ]|by_decide]).
Defined.
