(* ===== verification/CheckFixes.v ===== *)
(** * What the fixes of an integrity check do

    The exact effect of a fix run on the artifacts of a repository
    (server/src/server/worker/check.rs, [check_repo]), the relocation of Helm
    charts onto a chart that is already in place, and the sums of the result. *)

From S2P Require Import Prelude Bytes Errors Keys Records Kv Prog Wp Effects Scan Pagination Update Artifact Blob Repo Directory Ingest Accounts Tasks TaskManager Cluster BloomFilter UpdateWorker Batches BulkDelete TreeRebuild Check CheckScan CheckSafety.

Section fixes.
Context `{Blake3} `{BloomCrate} `{Serde RepoConfig} `{Serde StoreRecord} `{Serde StoreStatsRecord} `{Serde BlobRecord}.
Context `{Serde ArtifactRecord} `{Serde TreeEntry} `{Serde LeaseRecord} `{Serde TaskRecord} `{!SerdeExact TaskRecord}.
Context `{Serde TaskEventRecord} `{!SerdeExact ArtifactRecord}.
Context `{Chrono} `{Scheduler} (fuel : nat) (task_id : string) `{UuidGen}.
Implicit Types (m : kvmap) (w : world kvmap) (k : string * string * string) (repo path : string) (st : CheckState).

(** The artifact records are the same. *)
Definition same_artifacts w w' : Prop := ∀ k, k.1.1 = TABLE_ARTIFACTS → w_kv w' !! k = w_kv w !! k.

#[export] Instance same_artifacts_preorder : PreOrder same_artifacts.
Proof. split; [done|]. intros w1 w2 w3 H1' H2' k Hk. by rewrite H2', H1'. Qed.

Lemma task_same_artifacts w w' : task_frame w w' → same_artifacts w w'.
Proof. intros Hf k Hk. by apply Hf; rewrite Hk. Qed.

Lemma within_log s st : within same_artifacts (log task_id s st).
Proof.
  unfold log. apply within_bind; [apply _| |intros; apply within_ret; apply _].
  eapply within_weaken; [apply within_append_log|exact task_same_artifacts].
Qed.

Lemma within_log_all l st : within same_artifacts (log_all task_id l st).
Proof.
  revert st. induction l as [|s l IH]; intros st; cbn [log_all]; [apply within_ret; apply _|].
  apply within_bind; [apply _|apply within_log|intros; apply IH].
Qed.

Lemma within_report_tags l st : within same_artifacts (report_tags task_id l st).
Proof.
  revert st. induction l as [|[ [f p] s] l IH]; intros st; cbn [report_tags]; [apply within_ret; apply _|].
  apply within_bind; [apply _|apply within_log|intros; apply IH].
Qed.

(** The artifacts under the paths are gone, the others are the same. *)
Definition paths_deleted (repo : string) (paths : list string) w w' : Prop :=
  ∀ k, k.1.1 = TABLE_ARTIFACTS → w_kv w' !! k = if decide (k ∈ artifact_key repo <$> paths) then None else w_kv w !! k.

Lemma wp_delete_artifact repo path w (Q : result (option ArtifactRecord) → world kvmap → Prop) :
  (∀ r w', paths_deleted repo [path] w w' → is_ok r = true ∨ (∃ v n e, w_kv w !! artifact_key repo path = Some (v, n) ∧ from_slice (A:=ArtifactRecord) v = inl e) →
     Q r w') →
  wp (delete_artifact repo path) w Q.
Proof.
  intros HQ. eapply wp_intro; [apply run_delete_artifact|]. apply HQ.
  - intros k Hk. cbn [fmap list_fmap]. destruct (w_kv w !! artifact_key repo path) as [x|] eqn:Hx.
    + cbn [w_kv set_kv]. rewrite lookup_delete_ne by (intros <-; done). case_decide as Hd.
      * apply list_elem_of_singleton in Hd as ->. apply lookup_delete_eq.
      * apply lookup_delete_ne. intros <-. apply Hd. by left.
    + case_decide as Hd; [|done]. by apply list_elem_of_singleton in Hd as ->.
  - unfold old_of. destruct (w_kv w !! artifact_key repo path) as [ [v n]|]; [|by left].
    destruct (from_slice v) eqn:Hv; [|by left]. right. by eexists _, _, _.
Qed.

Lemma paths_deleted_app repo l1 l2 w1 w2 w3 : paths_deleted repo l1 w1 w2 → paths_deleted repo l2 w2 w3 →
  paths_deleted repo (l1 ++ l2) w1 w3.
Proof.
  intros Hd1 Hd2 k Hk. rewrite (Hd2 k Hk), (Hd1 k Hk), fmap_app.
  pose proof (elem_of_app (artifact_key repo <$> l1) (artifact_key repo <$> l2) k). repeat case_decide; tauto || done.
Qed.

Lemma same_paths_deleted repo w w' : same_artifacts w w' → paths_deleted repo [] w w'.
Proof. intros Hs k Hk. cbn. rewrite decide_False by apply not_elem_of_nil. by apply Hs. Qed.

Lemma paths_deleted_same repo l w1 w2 w3 : paths_deleted repo l w1 w2 → same_artifacts w2 w3 → paths_deleted repo l w1 w3.
Proof. intros Hd Hs k Hk. rewrite (Hs k Hk). by apply Hd. Qed.

Lemma wp_delete_dangling repo l st w :
  wp (delete_dangling task_id repo l st) w (λ _ w', paths_deleted repo l w w').
Proof.
  revert st w. induction l as [|path l IH]; intros st w; cbn [delete_dangling].
  { apply wp_ret. by apply same_paths_deleted. }
  apply wp_bind, wp_delete_artifact. intros r w1 Hd _.
  assert (∀ w2 st2, same_artifacts w1 w2 → wp (delete_dangling task_id repo l st2) w2 (λ _ w', paths_deleted repo (path :: l) w w')) as Hrest.
  { intros w2 st2 Hs. eapply wp_mono; [apply IH|]. intros ? w3 Hd3. cbv beta in Hd3.
    apply (paths_deleted_app repo [path] l w w2 w3); [by eapply paths_deleted_same|done]. }
  destruct r as [ [r|]|e]; [|by apply Hrest..].
  apply wp_bind. eapply wp_mono; [apply within_log|]. intros st' w2 Hs. by apply Hrest.
Qed.

Lemma wp_delete_tags repo l st w :
  wp (delete_tags task_id repo l st) w (λ _ w', paths_deleted repo l w w').
Proof.
  revert st w. induction l as [|path l IH]; intros st w; cbn [delete_tags].
  { apply wp_ret. by apply same_paths_deleted. }
  apply wp_bind, wp_delete_artifact. intros r w1 Hd _.
  assert (∀ w2 st2, same_artifacts w1 w2 → wp (delete_tags task_id repo l st2) w2 (λ _ w', paths_deleted repo (path :: l) w w')) as Hrest.
  { intros w2 st2 Hs. eapply wp_mono; [apply IH|]. intros ? w3 Hd3. cbv beta in Hd3.
    apply (paths_deleted_app repo [path] l w w2 w3); [by eapply paths_deleted_same|done]. }
  destruct r as [ [r|]|e]; [|by apply Hrest..].
  apply wp_bind. eapply wp_mono; [apply within_log|]. intros st' w2 Hs. by apply Hrest.
Qed.

(** *** Renames *)

Definition old_key (repo : string) (x : Relocation) : string * string * string := artifact_key repo x.1.1.

(** The id and the access time of the record, or new ones where it has none. *)
Definition refreshed (r : ArtifactRecord) (id : string) (accessed : DateTime) : Prop :=
  (ar_id r ≠ "" → id = ar_id r) ∧ (ar_last_accessed_at r ≠ UNIX_EPOCH → accessed = ar_last_accessed_at r).

(** What a rename needs: the normalised path is not empty, and the record can
    be read and written. *)
Definition renamable (repo : string) w (x : Relocation) : Prop :=
  let '(old, new, r) := x in
  new ≠ "" ∧ artifact_key repo new = artifact_key repo old ∧
  (∀ id accessed, refreshed r id accessed → ∃ v, to_vec (ar_prepared r id accessed new) = inr v) ∧
  (∀ (v : bytes) (n : Z), w_kv w !! artifact_key repo old = Some (v, n) → ∃ r' : ArtifactRecord, from_slice v = inr r').

(** The record of [x] is at the place of [x], up to its id and its access time. *)
Definition relocated (repo : string) (x : Relocation) w : Prop :=
  let '(old, new, r) := x in
  ∃ (v : bytes) (n : Z) id accessed, w_kv w !! artifact_key repo old = Some (v, n) ∧ refreshed r id accessed ∧
    to_vec (ar_prepared r id accessed new) = inr v.

Lemma ar_prepared_at r id accessed path : ar_prepared (ar_at path r) id accessed path = ar_prepared r id accessed path.
Proof. done. Qed.

Lemma wp_reinsert repo old new r st w :
  renamable repo w (old, new, r) → w_kv w !! artifact_key repo old = None →
  wp (reinsert task_id repo old new r st) w (λ _ w', relocated repo (old, new, r) w' ∧
    ∀ k, k.1.1 = TABLE_ARTIFACTS → k ≠ artifact_key repo old → w_kv w' !! k = w_kv w !! k).
Proof.
  intros (Hne & Hkey & Hser & _) Hnone. unfold reinsert.
  apply wp_bind. eapply wp_intro; [apply run_get_artifact|]. unfold old_of. rewrite Hkey, Hnone.
  apply wp_bind, wp_bind.
  set (id := if decide (ar_id r = "") then new_v4 (w_uuids w) else ar_id r).
  set (accessed := if decide (ar_last_accessed_at r = UNIX_EPOCH) then ar_created_at r else ar_last_accessed_at r).
  assert (refreshed r id accessed) as Hrf by (unfold id, accessed; split; intros ?; by case_decide).
  destruct (Hser id accessed Hrf) as [v Hv].
  eapply wp_intro.
  { apply (run_put_artifact w repo new (ar_at new r) v None Hne); [exact Hv|]. unfold old_of. by rewrite Hkey, Hnone. }
  set (w1 := set_kv _ (after_prepare w (ar_at new r))).
  eapply wp_mono; [apply within_log|]. intros st' w2 Hs. apply wp_ret.
  assert (∀ k, k.1.1 = TABLE_ARTIFACTS → w_kv w2 !! k =
    <[artifact_key repo old := (v, u64_add (version_of (w_kv w !! artifact_key repo old)) 1)]> (w_kv w) !! k) as Hk2.
  { intros k Hk. rewrite (Hs k Hk). unfold w1. cbn [w_kv set_kv]. rewrite tree_put_lookup by (intros ->; done). by rewrite Hkey. }
  split.
  - eexists v, _, _, _. split_and!; [|exact Hrf|exact Hv]. rewrite Hk2 by done. apply lookup_insert_eq.
  - intros k Hk Hne'. rewrite Hk2 by done. by apply lookup_insert_ne.
Qed.

Definition to_apply (dels : list string) (l : list Relocation) : list Relocation := filter (λ x, x.1.1 ∉ dels) l.

Lemma relocated_keep repo x w w' : w_kv w' !! old_key repo x = w_kv w !! old_key repo x → relocated repo x w → relocated repo x w'.
Proof. destruct x as [ [old new] r]. unfold old_key. cbn [fst]. intros Heq. unfold relocated. by rewrite Heq. Qed.

Lemma wp_rename_paths repo dels l st w :
  NoDup (old_key repo <$> to_apply dels l) → (∀ x, x ∈ to_apply dels l → renamable repo w x) →
  wp (rename_paths task_id repo dels l st) w (λ _ w',
    (∀ x, x ∈ to_apply dels l → relocated repo x w') ∧
    (∀ k, k.1.1 = TABLE_ARTIFACTS → k ∉ old_key repo <$> to_apply dels l → w_kv w' !! k = w_kv w !! k)).
Proof.
  revert st w. induction l as [|[ [old new] r] l IH]; intros st w Hnd Hok; cbn [rename_paths].
  { apply wp_ret. split; [by intros x ?%elem_of_nil|done]. }
  unfold to_apply in Hnd, Hok |- *. rewrite filter_cons in Hnd, Hok |- *. cbn [fst] in *.
  case_bool_decide as Hin; [rewrite decide_False in Hnd, Hok |- * by auto; by apply IH|].
  rewrite decide_True in Hnd, Hok |- * by done. cbn [fmap list_fmap] in *. apply NoDup_cons in Hnd as [Hni Hnd].
  unfold old_key at 1 in Hni. cbn [fst] in Hni.
  pose proof (Hok (old, new, r) ltac:(left)) as (Hne & Hkey & Hser & Hread).
  apply wp_bind, wp_delete_artifact. intros res w1 Hd Hres.
  destruct res as [o|e]; cycle 1.
  { exfalso. destruct Hres as [?|(v & n & e' & Hm & Hv)]; [done|]. destruct (Hread v n Hm) as [r' Hr']. congruence. }
  assert (w_kv w1 !! artifact_key repo old = None) as Hnone.
  { rewrite (Hd (artifact_key repo old)) by done. rewrite decide_True; [done|]. by left. }
  apply wp_bind. eapply wp_mono; [apply wp_reinsert; [|exact Hnone]|].
  { split_and!; [done|done|done|]. intros v n. by rewrite Hnone. }
  intros st' w2 [Hrel Hout]. cbv beta in *.
  assert (∀ k, k.1.1 = TABLE_ARTIFACTS → k ≠ artifact_key repo old → w_kv w2 !! k = w_kv w !! k) as Hsame.
  { intros k Hk Hne'. rewrite (Hout k Hk Hne'), (Hd k Hk). rewrite decide_False; [done|]. by intros ?%list_elem_of_singleton. }
  eapply wp_mono; [apply IH; [done|]|].
  - intros [ [old' new'] r'] Hx. pose proof (Hok _ (list_elem_of_further _ _ _ Hx)) as (Hne2 & Hkey2 & Hser2 & Hread2).
    split_and!; [done|done|done|]. intros v n. rewrite Hsame; [apply Hread2|done|]. intros Heq. apply Hni.
    apply list_elem_of_fmap. exists (old', new', r'). by split.
  - intros ? w3 [Hrel3 Hout3]. split.
    + intros x [->|Hx]%elem_of_cons; [|by apply Hrel3]. eapply relocated_keep; [|exact Hrel]. by apply Hout3.
    + intros k Hk [Hk1 Hk2]%not_elem_of_cons. rewrite Hout3 by done. by apply Hsame.
Qed.

(** *** What a run announces *)

(** The findings of a run so far, without the mark that says whether one has
    been fixed. *)
Definition finding_key (f : CheckFinding) : option string * string * option string := (cf_repo f, cf_path f, cf_error f).
Definition said st : list (option string * string * option string) := finding_key <$> ck_findings st.

Lemma said_extend l st : said (extend_findings l st) = said st ++ (finding_key <$> l).
Proof. unfold said, extend_findings. cbn. by rewrite fmap_app. Qed.

Lemma said_mark owner path error st : said (mark_last_fixed owner path error st) = said st.
Proof.
  unfold said, mark_last_fixed, set_findings. cbn [ck_findings].
  assert (∀ p l, finding_key <$> mark_first p l = finding_key <$> l) as Hm.
  { intros p l. induction l as [|f l IH]; [done|]. cbn [mark_first]. destruct (p f); [done|]. cbn. by rewrite IH. }
  change (map finding_key (rev (mark_first (λ f, bool_decide (cf_repo f = owner) && bool_decide (cf_path f = path) &&
    bool_decide (cf_error f = Some error)) (rev (ck_findings st)))) = map finding_key (ck_findings st)).
  rewrite map_rev. change (map finding_key (mark_first ?p ?l)) with (finding_key <$> mark_first p l). rewrite Hm.
  change (finding_key <$> rev (ck_findings st)) with (map finding_key (rev (ck_findings st))). by rewrite map_rev, rev_involutive.
Qed.

(** The program returns a state with the same findings. *)
Abbreviation mute st := (ensures (λ st', said st' = said st)).

Lemma mute_bind st (p : prog CheckState) (f : CheckState → prog CheckState) :
  mute st p → (∀ st', said st' = said st → mute st' (f st')) → mute st (bind p f).
Proof.
  intros Hp Hf. apply ensures_bind. eapply ensures_mono; [|exact Hp]. intros st' Hst'. rewrite <-Hst'. by apply Hf.
Qed.

Lemma mute_log s st : mute st (log task_id s st).
Proof. apply ensures_then. intros tm. reflexivity. Qed.

Lemma mute_log_all l st : mute st (log_all task_id l st).
Proof. revert st. induction l as [|s l IH]; intros st; [done|]. apply mute_bind; [apply mute_log|]. intros st' _. apply IH. Qed.

Lemma mute_marked owner path error n st (p : CheckState → prog CheckState) :
  (∀ st', mute st' (p st')) → mute st (p (add_fixed n (mark_last_fixed owner path error st))).
Proof. intros Hp. rewrite <-(said_mark owner path error st). exact (Hp (add_fixed n (mark_last_fixed owner path error st))). Qed.

Lemma mute_delete_dangling repo l st : mute st (delete_dangling task_id repo l st).
Proof.
  revert st. induction l as [|path l IH]; intros st; cbn [delete_dangling]; [done|]. apply ensures_then.
  intros [ [r|]|e]; [|apply IH..]. apply mute_bind; [apply mute_log|]. intros st' _. by apply (mute_marked _ _ _ 1 _ (delete_dangling task_id repo l)).
Qed.

Lemma mute_delete_tags repo l st : mute st (delete_tags task_id repo l st).
Proof.
  revert st. induction l as [|path l IH]; intros st; cbn [delete_tags]; [done|]. apply ensures_then.
  intros [ [r|]|e]; [|apply IH..]. apply mute_bind; [apply mute_log|]. intros st' _. by apply (mute_marked _ _ _ 1 _ (delete_tags task_id repo l)).
Qed.

Lemma mute_reinsert repo old new r st : mute st (reinsert task_id repo old new r st).
Proof.
  unfold reinsert. apply ensures_then. intros existing. apply mute_bind.
  - destruct existing as [ [x|]|e]; [apply mute_log|..]; (apply ensures_then; intros [o|e']; apply mute_log).
  - intros st' _. by apply (mute_marked _ _ _ 1 _ Ret).
Qed.

Lemma mute_rename_paths repo dels l st : mute st (rename_paths task_id repo dels l st).
Proof.
  revert st. induction l as [|[ [old new] r] l IH]; intros st; cbn [rename_paths]; [done|].
  destruct (bool_decide (old ∈ dels)); [apply IH|]. apply ensures_then. intros [o|e]; [|apply IH].
  apply mute_bind; [apply mute_reinsert|]. intros st' _. apply IH.
Qed.

Lemma mute_fix_repo repo scan tags st : mute st (fix_repo task_id repo scan tags st).
Proof.
  unfold fix_repo. apply mute_bind; [apply mute_delete_dangling|]. intros st1 _.
  apply mute_bind; [apply mute_delete_tags|]. intros st2 _. apply mute_rename_paths.
Qed.

Lemma says_report_tags l st : ensures (λ st', said st' = said st ++ ((λ x, finding_key x.1.1) <$> l)) (report_tags task_id l st).
Proof.
  revert st. induction l as [|[ [f p] s] l IH]; intros st; cbn [report_tags]; [by rewrite app_nil_r|].
  apply ensures_bind. eapply ensures_mono; [|apply mute_log]. intros st' Hst'. eapply ensures_mono; [|apply IH].
  intros st2 ->. unfold push_finding, said in *. cbn. rewrite fmap_app, Hst'. by rewrite <-(assoc_L (++)).
Qed.

(** The errors of the defects of artifacts that a check repairs. *)
Definition E_LOST : string := "artifact references missing blob".

Definition DEFECTS : list string := [E_LOST; E_SLASHES; E_DANGLING_TAG].

(** The checks of the configuration announce other errors. *)
Lemma says_config_checks repos c st :
  ensures (λ st', ∃ l, said st' = said st ++ l ∧ ∀ x error, x ∈ l → x.2 = Some error → error ∉ DEFECTS)
    (let* st := check_cache_config task_id c st in
     let* st := check_proxy_members task_id repos c st in Ret (tell task_id tp_repo_completed st)).
Proof.
  set (Q := λ st st', ∃ l, said st' = said st ++ l ∧ ∀ x error, x ∈ l → x.2 = Some error → error ∉ DEFECTS).
  assert (∀ st, Q st st) as Hrefl by (intros st0; exists []; rewrite app_nil_r; split; [done|by intros ? ? ?%elem_of_nil]).
  assert (∀ st1 st2 st3, Q st1 st2 → Q st2 st3 → Q st1 st3) as Htrans.
  { intros st1 st2 st3 (l1 & Hl1 & Hn1) (l2 & Hl2 & Hn2). exists (l1 ++ l2). rewrite Hl2, Hl1, (assoc_L (++)). split; [done|].
    intros x error [Hx|Hx]%elem_of_app; eauto. }
  assert (∀ st f, (∀ error, cf_error f = Some error → error ∉ DEFECTS) → Q st (push_finding f st)) as Hpush.
  { intros st0 f Hf. exists [finding_key f]. split; [unfold said, push_finding; cbn; by rewrite fmap_app|].
    intros x error ->%list_elem_of_singleton. apply Hf. }
  assert (∀ s st f, (∀ error, cf_error f = Some error → error ∉ DEFECTS) →
    ensures (λ st', Q st (push_finding f st')) (log task_id s st)) as Hlog.
  { intros s st0 f Hf. eapply ensures_mono; [|apply mute_log]. intros st' Hst'. destruct (Hpush st' f Hf) as (l & Hl & Hn).
    exists l. by rewrite <-Hst'. }
  apply ensures_bind. apply (ensures_mono (Q st)).
  - intros st1 Hst1. apply ensures_bind. apply (ensures_mono (Q st1)); [intros st2 Hst2; by apply (Htrans _ st1)|].
    unfold check_proxy_members. destruct (rc_kind c) as [|u t a|members wm]; [apply Hrefl..|].
    clear Hst1. revert st1. induction members as [|x members IH]; intros st1; cbn [check_members]; [apply Hrefl|].
    case_bool_decide; [apply IH|]. apply ensures_bind.
    set (f := mkCheckFinding (Some (rc_name c)) "" "" None (Some ("proxy member '" +:+ x +:+ "' does not exist")) false).
    apply (ensures_mono (λ st', Q st1 (push_finding f st'))); [|apply Hlog].
    + intros st' Hst'. eapply ensures_mono; [|apply IH]. intros st2. by apply Htrans.
    + intros error [= <-]. unfold DEFECTS, E_LOST, E_SLASHES, E_DANGLING_TAG. rewrite !not_elem_of_cons. split_and!; [discriminate..|apply not_elem_of_nil].
  - unfold check_cache_config. destruct (rc_kind c) as [|u t a|members wm]; [apply Hrefl| |apply Hrefl].
    case_decide; [|apply Hrefl]. apply ensures_bind.
    set (f := mkCheckFinding (Some (rc_name c)) "" "" None (Some "cache repo has empty upstream_url") false).
    apply (ensures_mono (λ st', Q st (push_finding f st'))); [|apply Hlog].
    + intros st' Hst'. exact Hst'.
    + intros error [= <-]. unfold DEFECTS, E_LOST, E_SLASHES, E_DANGLING_TAG. rewrite !not_elem_of_cons. split_and!; [discriminate..|apply not_elem_of_nil].
Qed.

(** *** The passes *)

Lemma NoDup_fmap_filter {A B : Type} (f : A → B) (P : A → Prop) `{∀ x, Decision (P x)} (l : list A) :
  NoDup (f <$> l) → NoDup (f <$> filter P l).
Proof.
  induction l as [|x l IH]; cbn [fmap list_fmap]; [done|]. intros [Hni Hnd]%NoDup_cons. rewrite filter_cons.
  case_decide; [|by apply IH]. cbn [fmap list_fmap]. constructor; [|by apply IH].
  intros (y & Heq & [_ Hy]%list_elem_of_filter)%list_elem_of_fmap. apply Hni. rewrite Heq. apply list_elem_of_fmap. by exists y.
Qed.

(** The records of a repository can be read and their paths lead to them. *)
Definition repo_ok m (repo : string) : Prop := all_well_placed m ∧ all_readable m repo.

Lemma stored_key m repo sk r : repo_ok m repo → stored m repo sk r →
  at_path m repo r ∧ normalize_path (ar_path r) = sk ∧ artifact_key repo sk = artifact_key repo (ar_path r).
Proof.
  intros [Hwp _] (shard & v & n & _ & Hm & Hv). pose proof (Hwp _ v n Hm repo shard r eq_refl Hv) as Hkey.
  assert (normalize_path (ar_path r) = sk) as <- by (unfold artifact_key in Hkey; by injection Hkey).
  split_and!; [|done|apply artifact_key_normal]. exists v, n. by rewrite Hkey.
Qed.

Lemma stored_unique m repo sk r1 r2 : repo_ok m repo → stored m repo sk r1 → stored m repo sk r2 → r1 = r2.
Proof.
  intros Hok H1' H2'. destruct (stored_key m repo sk r1 Hok H1') as ((v1 & n1 & Hm1 & Hv1) & _ & Hk1).
  destruct (stored_key m repo sk r2 Hok H2') as ((v2 & n2 & Hm2 & Hv2) & _ & Hk2). rewrite <-Hk1 in Hm1. rewrite <-Hk2 in Hm2. congruence.
Qed.

Lemma repo_ok_placed m repo : repo_ok m repo → placed m repo.
Proof.
  intros [Hwp Hread] shard sk [v n] Hs Hm. destruct (Hread shard sk v n Hs Hm) as [r Hv].
  pose proof (Hwp _ v n Hm repo shard r eq_refl Hv) as Hkey. unfold artifact_key in Hkey. injection Hkey as Hpk Hsk.
  rewrite Hsk in Hpk. unfold sharded_pk, artifact_shard_pk in Hpk. by apply scoped_pk_inj in Hpk as [_ ?].
Qed.

Lemma repo_records m repo (site : nat) : repo_ok m repo →
  let l := all_records m repo "" (arrange site shard_range) in
  NoDup ((λ r, artifact_key repo (ar_path r)) <$> l.*2) ∧ ∀ r, r ∈ l.*2 ↔ at_path m repo r.
Proof.
  intros Hok l. pose proof (arrange_perm _ site shard_range) as Hperm.
  assert (∀ sk r, (sk, r) ∈ l ↔ stored m repo sk r) as Hin.
  { intros sk r. unfold l. rewrite (elem_of_all_records m repo "" _ sk r Hperm). pose proof (starts_with_nil sk). tauto. }
  split.
  - assert (NoDup l.*1) as Hnd.
    { unfold l. rewrite (all_records_perm _ _ _ _ Hperm), all_records_readable.
      eapply sublist_NoDup; [by apply NoDup_repo_entries, repo_ok_placed|apply readable_keys_sublist]. }
    assert ((λ r, artifact_key repo (ar_path r)) <$> l.*2 = artifact_key repo <$> l.*1) as ->.
    { rewrite <-!list_fmap_compose. apply list_fmap_ext. intros i [sk r] Hi. cbn.
      destruct (stored_key m repo sk r Hok) as (_ & _ & Hk); [|by rewrite Hk].
      apply Hin. by eapply list_elem_of_lookup_2. }
    apply NoDup_fmap_2_strong; [|done]. intros sk1 sk2 ([? r1] & -> & Hx1)%list_elem_of_fmap ([? r2] & -> & Hx2)%list_elem_of_fmap Heq.
    apply Hin in Hx1, Hx2. cbn [fst] in *. destruct (stored_key _ _ _ _ Hok Hx1) as (_ & Hn1 & Hk1), (stored_key _ _ _ _ Hok Hx2) as (_ & Hn2 & Hk2).
    rewrite Hk1, Hk2 in Heq. unfold artifact_key in Heq. injection Heq as _ Heq. congruence.
  - intros r. rewrite list_elem_of_fmap. split.
    + intros ([sk r'] & -> & Hx%Hin). by apply (stored_key m repo sk).
    + intros Hat. exists (normalize_path (ar_path r), r). split; [done|]. by apply Hin, at_path_stored.
Qed.

Lemma same_repo_ok w w' repo : same_artifacts w w' → repo_ok (w_kv w) repo → repo_ok (w_kv w') repo.
Proof.
  intros Hs [Hwp Hread]. split.
  - intros k v n Hm repo' shard r Hkey Hv. refine (Hwp k v n _ repo' shard r Hkey Hv).
    rewrite <-Hs; [done|]. by rewrite Hkey.
  - intros shard sk v n Hsh Hm. apply (Hread shard sk v n Hsh). by rewrite <-(Hs (_, _, _)).
Qed.

Lemma same_at_path w w' repo r : same_artifacts w w' → at_path (w_kv w') repo r ↔ at_path (w_kv w) repo r.
Proof. intros Hs. unfold at_path. by setoid_rewrite (Hs (artifact_key repo (ar_path r)) eq_refl). Qed.

(** The tag names a manifest that no artifact of the repository has. *)
Definition dangling m (repo : string) (r : ArtifactRecord) : Prop :=
  ∃ digest tag mp, ar_kind r = KDockerTag digest tag ∧ manifest_path_of_tag (ar_path r) digest = Some mp ∧
    ∀ r', at_path m repo r' → ar_path r' ≠ mp.

Lemma dangling_tag_spec m repo paths r : (∀ p, p ∈ paths ↔ ∃ r', at_path m repo r' ∧ ar_path r' = p) →
  dangling_tag paths r ≠ None ↔ dangling m repo r.
Proof.
  intros Hpaths. unfold dangling_tag, dangling. split.
  - destruct (ar_kind r) as [| | |digest tag| | | | | | | | | | |] eqn:Hk; try done.
    destruct (manifest_path_of_tag (ar_path r) digest) as [mp|] eqn:Hmp; [|done]. case_bool_decide as Hin; [done|].
    intros _. exists digest, tag, mp. split_and!; [done|done|]. intros r' Hat Heq. apply Hin, Hpaths. by exists r'.
  - intros (digest & tag & mp & -> & -> & Hno). rewrite bool_decide_false; [done|].
    intros (r' & Hat & Heq)%Hpaths. by apply (Hno r').
Qed.

(** What one record makes the first pass announce. *)
Definition record_findings (bf : Bloom) (repo : string) (r : ArtifactRecord) : list (option string * string * option string) :=
  (if decide (lost bf r) then [(Some repo, ar_path r, Some E_LOST)] else []) ++
  (if decide (slashed r) then [(Some repo, ar_path r, Some E_SLASHES)] else []).

Lemma scan_step_findings bf repo s r :
  finding_key <$> rs_findings (scan_step bf repo s "" r) = (finding_key <$> rs_findings s) ++ record_findings bf repo r.
Proof.
  unfold scan_step, record_findings. assert (rs_findings (scan_count s r) = rs_findings s) as Hc by (unfold scan_count; by case_decide).
  rewrite <-Hc. set (s' := scan_count s r). clearbody s'. clear Hc s.
  assert (finding_key <$> rs_findings (scan_blob_reference bf repo s' r) =
    (finding_key <$> rs_findings s') ++ (if decide (lost bf r) then [(Some repo, ar_path r, Some E_LOST)] else [])) as Hb.
  { unfold scan_blob_reference. destruct (decide (lost bf r)) as [Hl|Hl]; revert Hl; unfold lost;
      destruct (unknown_blob bf r); intros Hl; try done; cbn [rs_findings]; [by rewrite fmap_app|by destruct Hl|by rewrite app_nil_r]. }
  rewrite (assoc_L (++)), <-Hb. unfold scan_slashes. destruct (decide (slashed r)) as [Hl|Hl]; revert Hl; unfold slashed;
    destruct (contains (ar_path r) "//"); intros Hl; try done; cbn [rs_findings]; [by rewrite fmap_app|by rewrite app_nil_r].
Qed.

Lemma run_scan_findings bf repo w w' scan :
  run (fold_all_artifacts (arrange 72 shard_range) fuel repo "" rs_default (scan_record bf repo) merge_scans) w = (Some (Ok scan), w') →
  finding_key <$> rs_findings scan =
    concat ((λ x, record_findings bf repo x.2) <$> all_records (w_kv w) repo "" (arrange 72 shard_range)).
Proof.
  intros Hrun. destruct (run_fold_all 72 fuel repo "" (scan_step bf repo) rs_default merge_scans w) as [ (r & Hr & _ & _ & Hst)|[Hnone _] ].
  - assert (r = Ok scan) as -> by (refine (_ : r = _); assert (Some r = Some (Ok scan)) as [= ->] by (etrans; [exact (eq_sym (f_equal fst Hr))|exact (f_equal fst Hrun)]); done).
    apply (Hst scan eq_refl _ (λ s, finding_key <$> rs_findings s)); [|intros a b; cbn; by rewrite fmap_app|done].
    intros s sk r. apply scan_step_findings.
  - assert (None = Some (Ok scan)) as [=] by (etrans; [exact (eq_sym (f_equal fst Hnone))|exact (f_equal fst Hrun)]).
Qed.

Lemma wp_scan_repo bf repo st w : repo_ok (w_kv w) repo → enough (w_kv w) fuel repo →
  wp (scan_repo fuel task_id bf repo st) w (λ r w', same_artifacts w w' ∧ said r.2 = said st ∧
    scan_found bf (all_records (w_kv w) repo "" (arrange 72 shard_range)) r.1 ∧
    finding_key <$> rs_findings r.1 =
      concat ((λ x, record_findings bf repo x.2) <$> all_records (w_kv w) repo "" (arrange 72 shard_range))).
Proof.
  intros [_ Hread] Hf. unfold scan_repo. apply wp_bind.
  destruct (run_scan_records fuel bf repo w) as [ (r & Hr & Hok & Hfound)|[_ Hnf] ]; [|done].
  eapply wp_intro; [exact Hr|]. specialize (Hok Hread). destruct r as [scan|e]; [|done].
  apply wp_bind. eapply wp_mono; [eapply wp_ensures; [apply mute_log_all|apply within_log_all] |].
  intros st' w' [Hsaid Hs]. apply wp_ret. split_and!; [exact Hs| |by apply Hfound|by eapply run_scan_findings].
  cbn [snd]. rewrite Hsaid. by case_decide.
Qed.

Lemma run_scan_tags_findings paths repo w w' l :
  run (fold_all_artifacts (arrange 73 shard_range) fuel repo "" [] (scan_tag repo paths) app) w = (Some (Ok l), w') →
  (λ x, finding_key x.1.1) <$> l = (λ path, (Some repo, path, Some E_DANGLING_TAG)) <$> l.*1.*2.
Proof.
  intros Hrun. set (step := λ (acc : list (CheckFinding * string * string)) (_ : string) (record : ArtifactRecord), match dangling_tag paths record with
    | Some digest => acc ++ [(mkCheckFinding (Some repo) (ar_path record) digest None (Some E_DANGLING_TAG) false, ar_path record,
        "Repo '" +:+ repo +:+ "': docker tag '" +:+ ar_path record +:+ "' references manifest " +:+ digest +:+
        " which does not exist")]
    | None => acc
    end).
  destruct (run_fold_all 73 fuel repo "" step [] app w) as [ (r & Hr & _ & _ & Hst)|[Hnone _] ].
  - assert (Some r = Some (Ok l)) as [= ->] by (etrans; [exact (eq_sym (f_equal fst Hr))|exact (f_equal fst Hrun)]).
    set (g := λ x : string * ArtifactRecord, step [] "" x.2).
    assert (l = concat (g <$> all_records (w_kv w) repo "" (arrange 73 shard_range))) as ->.
    { apply (Hst l eq_refl _ id g); [|done|done]. intros s sk r. unfold g, step, id. cbn [snd].
      destruct (dangling_tag paths r); by rewrite ?app_nil_r. }
    generalize (all_records (w_kv w) repo "" (arrange 73 shard_range)). intros rs. clear. induction rs as [|[sk r] rs IH]; [done|].
    cbn [fmap list_fmap concat]. rewrite !fmap_app, IH. f_equal. unfold g, step. cbn [snd]. by destruct (dangling_tag paths r).
  - assert (None = Some (Ok l)) as [=] by (etrans; [exact (eq_sym (f_equal fst Hnone))|exact (f_equal fst Hrun)]).
Qed.

Lemma wp_scan_tags repo scan st w : repo_ok (w_kv w) repo → enough (w_kv w) fuel repo →
  wp (scan_tags fuel task_id repo scan st) w (λ r w', same_artifacts w w' ∧
    said r.2 = said st ++ ((λ path, (Some repo, path, Some E_DANGLING_TAG)) <$> r.1) ∧
    r.1 = ar_path <$> filter (λ r, dangling_tag (rs_artifact_paths scan) r ≠ None)
      (all_records (w_kv w) repo "" (arrange 73 shard_range)).*2).
Proof.
  intros [_ Hread] Hf. unfold scan_tags. apply wp_bind.
  destruct (run_scan_tags fuel (rs_artifact_paths scan) repo w) as [ (r & Hr & Hok & Hfound)|[_ Hnf] ]; [|done].
  eapply wp_intro; [exact Hr|]. apply Hok in Hread. destruct r as [tags|e]; [|done].
  apply wp_bind. eapply wp_mono; [eapply wp_ensures; [apply says_report_tags|apply within_report_tags] |].
  intros st' w' [Hsaid Hs]. apply wp_ret. split_and!; [exact Hs| |by apply Hfound]. cbn [fst snd].
  rewrite Hsaid. f_equal. by eapply run_scan_tags_findings.
Qed.

Lemma within_check_members n names l st : within same_artifacts (check_members task_id n names l st).
Proof.
  revert st. induction l as [|x l IH]; intros st; cbn [check_members]; [apply within_ret; apply _|].
  case_bool_decide; [apply IH|]. apply within_bind; [apply _|apply within_log|intros; apply IH].
Qed.

Lemma within_config_checks repos c st :
  within same_artifacts (let* st := check_cache_config task_id c st in
    let* st := check_proxy_members task_id repos c st in Ret (tell task_id tp_repo_completed st)).
Proof.
  apply within_bind; [apply _| |intros st'; apply within_bind; [apply _| |intros; apply within_ret; apply _] ].
  - unfold check_cache_config. destruct (rc_kind c); try (apply within_ret; apply _). case_decide; [|apply within_ret; apply _].
    apply within_bind; [apply _|apply within_log|intros; apply within_ret; apply _].
  - unfold check_proxy_members. destruct (rc_kind c); try (apply within_ret; apply _). apply within_check_members.
Qed.

(** *** The effect on a repository *)

(** The record of [sk] after the fixes, [r] being the one before.  A tag with
    a double slash is only renamed, also when its manifest is missing: the
    renames come last and write the record that the scan has read. *)
Record fixed_record (bf : Bloom) (repo : string) w w' (sk : string) (r : ArtifactRecord) : Prop := {
  fr_lost : lost bf r → w_kv w' !! artifact_key repo sk = None;
  fr_slashed : ¬ lost bf r → slashed r →
    ∃ id accessed, refreshed r id accessed ∧ stored (w_kv w') repo sk (ar_prepared r id accessed sk);
  fr_dangling : ¬ lost bf r → ¬ slashed r → dangling (w_kv w) repo r → w_kv w' !! artifact_key repo sk = None;
  fr_same : ¬ lost bf r → ¬ slashed r → ¬ dangling (w_kv w) repo r →
    w_kv w' !! artifact_key repo sk = w_kv w !! artifact_key repo sk;
}.

Lemma at_path_key m repo r1 r2 : at_path m repo r1 → at_path m repo r2 →
  artifact_key repo (ar_path r1) = artifact_key repo (ar_path r2) → r1 = r2.
Proof. intros (v1 & n1 & Hm1 & Hv1) (v2 & n2 & Hm2 & Hv2) Heq. rewrite Heq in Hm1. congruence. Qed.

Definition rename_of (r : ArtifactRecord) : Relocation := (ar_path r, normalize_path (ar_path r), r).

(** The keys that the loops touch, by the records they belong to. *)
Lemma touched_keys bf repo m scan tags (l : list ArtifactRecord) r :
  (∀ r, r ∈ l ↔ at_path m repo r) → rs_to_delete scan = ar_path <$> filter (lost bf) l →
  rs_to_rename scan = rename_of <$> filter slashed l →
  (∀ p, p ∈ tags ↔ ∃ r, at_path m repo r ∧ dangling m repo r ∧ ar_path r = p) → at_path m repo r →
  (artifact_key repo (ar_path r) ∈ artifact_key repo <$> (rs_to_delete scan ++ tags) ↔ lost bf r ∨ dangling m repo r) ∧
  (artifact_key repo (ar_path r) ∈ old_key repo <$> to_apply (rs_to_delete scan) (rs_to_rename scan) ↔ slashed r ∧ ¬ lost bf r) ∧
  (slashed r → ¬ lost bf r → rename_of r ∈ to_apply (rs_to_delete scan) (rs_to_rename scan)).
Proof.
  intros Hin Hdel Hren Htags Hat.
  assert (∀ r', at_path m repo r' → artifact_key repo (ar_path r) = artifact_key repo (ar_path r') → r' = r) as Huniq.
  { intros r' Hat' Heq. symmetry. by eapply at_path_key. }
  assert (∀ r', at_path m repo r' → ar_path r' ∈ rs_to_delete scan ↔ lost bf r') as Hlost.
  { intros r' Hat'. rewrite Hdel, list_elem_of_fmap. split.
    - intros (r2 & Heq & [Hl Hr2%Hin]%list_elem_of_filter). assert (r2 = r') as <-; [|done].
      eapply at_path_key; [done|done|]. by rewrite Heq.
    - intros Hl. exists r'. split; [done|]. apply list_elem_of_filter. split; [done|]. by apply Hin. }
  assert (∀ r', rename_of r' ∈ to_apply (rs_to_delete scan) (rs_to_rename scan) ↔ at_path m repo r' ∧ slashed r' ∧ ¬ lost bf r') as Hrens.
  { intros r'. unfold to_apply. rewrite list_elem_of_filter, Hren, list_elem_of_fmap. cbn [rename_of fst]. split.
    - intros [Hnd (r2 & Heq & [Hs Hr2%Hin]%list_elem_of_filter)]. injection Heq as _ _ <-. rewrite Hlost in Hnd by done. done.
    - intros (Hat' & Hs & Hnl). rewrite Hlost by done. split; [done|]. exists r'. split; [done|].
      apply list_elem_of_filter. split; [done|]. by apply Hin. }
  split_and!.
  - rewrite list_elem_of_fmap. split.
    + intros (p & Heq & [Hp|Hp]%elem_of_app).
      * rewrite Hdel in Hp. apply list_elem_of_fmap in Hp as (r' & -> & [Hl Hr'%Hin]%list_elem_of_filter).
        left. by rewrite <-(Huniq r').
      * apply Htags in Hp as (r' & Hr' & Hd & <-). right. by rewrite <-(Huniq r').
    + intros Hld. exists (ar_path r). split; [done|]. apply elem_of_app. destruct Hld; [left; by apply Hlost|right].
      apply Htags. by exists r.
  - rewrite list_elem_of_fmap. split.
    + intros ([ [old new] r'] & Heq & Hx). assert ((old, new, r') = rename_of r') as Hr'.
      { unfold to_apply in Hx. rewrite Hren in Hx. apply list_elem_of_filter in Hx as [_ (r2 & Heq2 & _)%list_elem_of_fmap].
        unfold rename_of in *. congruence. }
      rewrite Hr' in Hx, Heq. apply Hrens in Hx as (Hat' & Hs & Hnl). by rewrite <-(Huniq r').
    + intros [Hs Hnl]. exists (rename_of r). split; [done|]. by apply Hrens.
  - intros Hs Hnl. by apply Hrens.
Qed.

(** The effect of the three loops, given what the passes have collected. *)
Lemma wp_fix_repo bf repo scan tags st w w1 :
  repo_ok (w_kv w) repo → same_artifacts w w1 →
  scan_found bf (all_records (w_kv w) repo "" (arrange 72 shard_range)) scan →
  (∀ p, p ∈ tags ↔ ∃ r, at_path (w_kv w) repo r ∧ dangling (w_kv w) repo r ∧ ar_path r = p) →
  (∀ sk r, stored (w_kv w) repo sk r → slashed r → sk ≠ "" ∧ ∀ id accessed, refreshed r id accessed → ∃ v, to_vec (ar_prepared r id accessed sk) = inr v) →
  wp (fix_repo task_id repo scan tags st) w1 (λ _ w',
    (∀ sk r, stored (w_kv w) repo sk r → fixed_record bf repo w w' sk r) ∧
    ∀ k, k.1.1 = TABLE_ARTIFACTS → (∀ sk r, stored (w_kv w) repo sk r → k ≠ artifact_key repo sk) → w_kv w' !! k = w_kv w !! k).
Proof using SerdeExact1.
  intros Hok Hs (Hpaths & Hdel & Hren) Htags Hser.
  destruct (repo_records (w_kv w) repo 72 Hok) as [Hnd Hin].
  set (l := all_records (w_kv w) repo "" (arrange 72 shard_range)) in *.
  assert (rs_to_rename scan = rename_of <$> filter slashed l.*2) as Hren' by exact Hren. clear Hren.
  pose proof (λ r, touched_keys bf repo (w_kv w) scan tags l.*2 r Hin Hdel Hren' Htags) as Htouch.
  unfold fix_repo. apply wp_bind. eapply wp_mono; [apply wp_delete_dangling|]. intros st1 w2 Hd1.
  apply wp_bind. eapply wp_mono; [apply wp_delete_tags|]. intros st2 w3 Hd2. cbv beta in *.
  pose proof (paths_deleted_app repo _ _ _ _ _ Hd1 Hd2) as Hd. clear Hd1 Hd2 st1 w2.
  assert (∀ k, k.1.1 = TABLE_ARTIFACTS → w_kv w3 !! k =
    if decide (k ∈ artifact_key repo <$> (rs_to_delete scan ++ tags)) then None else w_kv w !! k) as Hd'.
  { intros k Hk. by rewrite (Hd k Hk), (Hs k Hk). }
  eapply wp_mono; [apply wp_rename_paths|].
  - apply NoDup_fmap_filter. rewrite Hren', <-list_fmap_compose. unfold compose, old_key, rename_of. cbn [fst].
    by apply NoDup_fmap_filter.
  - intros x Hx. unfold to_apply in Hx. rewrite Hren' in Hx.
    apply list_elem_of_filter in Hx as [_ (r & -> & [Hsl Hat%Hin]%list_elem_of_filter)%list_elem_of_fmap].
    destruct (Hser _ r (at_path_stored _ _ _ Hat) Hsl) as [Hne Hv]. split_and!; [done|apply artifact_key_normal|done|].
    intros v n. rewrite Hd' by done. case_decide; [done|]. intros Hm.
    destruct Hat as (v' & n' & Hm' & Hv'). exists r. congruence.
  - intros ? w' [Hrel Hout]. split.
    + intros sk r Hst. destruct (stored_key _ _ _ _ Hok Hst) as (Hat & Hsk & Hkey).
      destruct (Htouch r Hat) as (Hdk & Hrk & Hrx).
      assert (¬ (slashed r ∧ ¬ lost bf r) → w_kv w' !! artifact_key repo sk = w_kv w3 !! artifact_key repo sk) as Hplain.
      { intros Hno. apply Hout; [done|]. by rewrite Hkey, Hrk. }
      assert (lost bf r ∨ dangling (w_kv w) repo r → w_kv w3 !! artifact_key repo sk = None) as Hgone.
      { intros Hld. rewrite Hd' by done. rewrite decide_True; [done|]. rewrite Hkey. by apply Hdk. }
      assert (¬ (lost bf r ∨ dangling (w_kv w) repo r) → w_kv w3 !! artifact_key repo sk = w_kv w !! artifact_key repo sk) as Hkeep.
      { intros Hld. rewrite Hd' by done. rewrite decide_False; [done|]. by rewrite Hkey, Hdk. }
      split.
      * intros Hl. rewrite Hplain by tauto. by apply Hgone; left.
      * intros Hnl Hsl. destruct (Hrel _ (Hrx Hsl Hnl)) as (v & n & id & accessed & Hm & Hrf & Hv). exists id, accessed. split; [done|].
        rewrite Hsk in Hv. exists (shard_of sk), v, n. split_and!; [apply shard_of_in_range| |].
        -- rewrite <-Hm, <-artifact_key_normal, Hsk. unfold artifact_key. rewrite <-Hsk, normalize_idem. done.
        -- rewrite (from_to_vec _ _ Hv). f_equal. apply wire_id.
      * intros Hnl Hns Hdg. rewrite Hplain by tauto. by apply Hgone; right.
      * intros Hnl Hns Hnd'. rewrite Hplain by tauto. apply Hkeep. tauto.
    + intros k Hk Hno. rewrite Hout, Hd'; [|done|done|].
      * rewrite decide_False; [done|]. intros (p & -> & [Hp|Hp]%elem_of_app)%list_elem_of_fmap.
        -- rewrite Hdel in Hp. apply list_elem_of_fmap in Hp as (r & -> & [_ Hr%Hin]%list_elem_of_filter).
           apply (Hno _ r (at_path_stored _ _ _ Hr)). by rewrite artifact_key_normal.
        -- apply Htags in Hp as (r & Hr & _ & <-). apply (Hno _ r (at_path_stored _ _ _ Hr)). by rewrite artifact_key_normal.
      * intros (x & -> & Hx)%list_elem_of_fmap. unfold to_apply in Hx. rewrite Hren' in Hx.
        apply list_elem_of_filter in Hx as [_ (r & -> & [_ Hr%Hin]%list_elem_of_filter)%list_elem_of_fmap].
        apply (Hno _ r (at_path_stored _ _ _ Hr)). unfold old_key, rename_of. cbn [fst]. by rewrite artifact_key_normal.
Qed.
Lemma same_enough w w' repo : same_artifacts w w' → enough (w_kv w) fuel repo → enough (w_kv w') fuel repo.
Proof.
  intros Hs He shard Hsh. rewrite (part_ext (w_kv w') (w_kv w)); [by apply He|]. intros sk. by apply Hs.
Qed.

(** The renamed records can be written, and no path is empty once it is normalised. *)
Definition renames_fit m (repo : string) : Prop :=
  ∀ sk r, stored m repo sk r → slashed r → sk ≠ "" ∧ ∀ id accessed, refreshed r id accessed → ∃ v, to_vec (ar_prepared r id accessed sk) = inr v.

(** The tags that the second scan collects. *)
Lemma tags_dangling w w1 repo paths p : repo_ok (w_kv w) repo → same_artifacts w w1 →
  (∀ q, q ∈ paths ↔ ∃ r, at_path (w_kv w) repo r ∧ ar_path r = q) →
  p ∈ (ar_path <$> filter (λ r, dangling_tag paths r ≠ None) (all_records (w_kv w1) repo "" (arrange 73 shard_range)).*2) ↔
  ∃ r, at_path (w_kv w) repo r ∧ dangling (w_kv w) repo r ∧ ar_path r = p.
Proof.
  intros Hok Hs Hpaths. destruct (repo_records (w_kv w1) repo 73 (same_repo_ok _ _ _ Hs Hok)) as [_ Hin].
  rewrite list_elem_of_fmap. split.
  - intros (r & -> & [Hd Hr%Hin]%list_elem_of_filter). apply (same_at_path _ _ _ _ Hs) in Hr.
    exists r. split_and!; [done| |done]. by apply (dangling_tag_spec _ _ paths).
  - intros (r & Hr & Hd & <-). exists r. split; [done|]. apply list_elem_of_filter. split.
    + by apply (dangling_tag_spec (w_kv w) repo paths).
    + by apply Hin, (same_at_path _ _ _ _ Hs).
Qed.

(** The run has announced that the artifact at the path has the defect. *)
Definition announced (repo path error : string) (st : CheckState) : Prop := (Some repo, path, Some error) ∈ said st.

(** The defect that an announcement is about. *)
Definition defect (bf : Bloom) m repo (error : string) (r : ArtifactRecord) : Prop :=
  (error = E_LOST ∧ lost bf r) ∨ (error = E_SLASHES ∧ slashed r) ∨ (error = E_DANGLING_TAG ∧ dangling m repo r).

Lemma elem_of_record_findings bf repo (l : list (string * ArtifactRecord)) path error :
  (Some repo, path, Some error) ∈ concat ((λ x, record_findings bf repo x.2) <$> l) ↔
  ∃ r, r ∈ l.*2 ∧ ar_path r = path ∧ ((error = E_LOST ∧ lost bf r) ∨ (error = E_SLASHES ∧ slashed r)).
Proof.
  rewrite list_elem_of_In, in_concat. setoid_rewrite <-list_elem_of_In. split.
  - intros (y & (x & -> & Hx)%list_elem_of_fmap & Hin). exists x.2. split; [by apply list_elem_of_fmap_2|].
    unfold record_findings in Hin. apply elem_of_app in Hin as [Hin|Hin]; case_decide; try by apply elem_of_nil in Hin.
    + apply list_elem_of_singleton in Hin as [= -> ->]. split; [done|by left].
    + apply list_elem_of_singleton in Hin as [= -> ->]. split; [done|by right].
  - intros (r & (x & -> & Hx)%list_elem_of_fmap & <- & Hd). exists (record_findings bf repo x.2). split.
    + apply list_elem_of_fmap. by exists x.
    + unfold record_findings. apply elem_of_app. destruct Hd as [ [-> Hd]|[-> Hd] ]; [left|right];
        rewrite decide_True by done; by left.
Qed.

(** Everything that is said in a run on a repository. *)
Lemma announced_defects bf m repo (l : list (string * ArtifactRecord)) (tags : list string) st st' config :
  (∀ r, r ∈ l.*2 ↔ at_path m repo r) →
  (∀ p, p ∈ tags ↔ ∃ r, at_path m repo r ∧ dangling m repo r ∧ ar_path r = p) →
  said st' = ((said st ++ ((λ path, (Some repo, path, Some E_DANGLING_TAG)) <$> tags)) ++
    concat ((λ x, record_findings bf repo x.2) <$> l)) ++ config →
  (∀ x error, x ∈ config → x.2 = Some error → error ∉ DEFECTS) →
  ∀ path error, error ∈ DEFECTS →
    announced repo path error st' ↔
    announced repo path error st ∨ ∃ r, at_path m repo r ∧ ar_path r = path ∧ defect bf m repo error r.
Proof.
  intros Hl Htags Hsaid Hconfig path error Herr. unfold announced. rewrite Hsaid, !elem_of_app, elem_of_record_findings.
  setoid_rewrite Hl. rewrite list_elem_of_fmap. unfold defect. split.
  - intros [ [ [?|(p & Heq & (r & Hat & Hd & <-)%Htags)]|(r & Hat & Hp & Hd)]|Hc].
    + by left.
    + injection Heq as -> ->. right. exists r. split_and!; [done|done|]. by right; right.
    + right. exists r. split_and!; [done|done|]. tauto.
    + exfalso. by apply (Hconfig _ error Hc).
  - intros [?|(r & Hat & <- & Hd)]; [by do 3 left|]. left. destruct Hd as [Hd|[Hd|[-> Hd] ] ].
    + right. exists r. auto.
    + right. exists r. auto.
    + left; right. exists (ar_path r). split; [done|]. apply Htags. by exists r.
Qed.

(** C8: The fixes of a check are those that it announces.  On a repository that
    is not a Helm repository, whose records can be read and lie at their paths,
    a fix run ends.  The lost blobs, double slashes and missing manifests that
    it announces are exactly those of the artifacts of the repository.  And
    afterwards an artifact whose blob is not in the filter is gone; another one
    with a double slash in its path is at the normalised path, with nothing but
    its path changed (and an id or access time it had not), also if it is a tag
    whose manifest is missing; any other Docker tag whose manifest is missing
    is gone; and every other artifact, in this repository and in the others,
    is what it was. *)
Theorem check_repo_fixes_exact (bf : Bloom) (repos : list RepoConfig) (c : RepoConfig) (st : CheckState) (w : world kvmap) :
  let repo := rc_name c in
  repo_format c ≠ FHelm → repo_ok (w_kv w) repo → enough (w_kv w) fuel repo → renames_fit (w_kv w) repo →
  ∃ st' w', run (check_repo fuel task_id bf false repos c st) w = (Some st', w') ∧
    (∀ path error, error ∈ DEFECTS →
      announced repo path error st' ↔
      announced repo path error st ∨ ∃ r, at_path (w_kv w) repo r ∧ ar_path r = path ∧ defect bf (w_kv w) repo error r) ∧
    (∀ sk r, stored (w_kv w) repo sk r → fixed_record bf repo w w' sk r) ∧
    ∀ k, k.1.1 = TABLE_ARTIFACTS → (∀ sk r, stored (w_kv w) repo sk r → k ≠ artifact_key repo sk) →
      w_kv w' !! k = w_kv w !! k.
Proof using SerdeExact1.
  intros repo Hf Hok He Hfit. apply wp_run. unfold check_repo. cbv zeta.
  apply wp_bind. eapply wp_mono; [by apply wp_scan_repo|]. intros [scan st1] w1 (Hs1 & Hsaid1 & Hfound & Hfindings). cbn [fst snd] in *.
  apply wp_bind. eapply wp_mono.
  { apply wp_scan_tags; [by eapply same_repo_ok|by eapply same_enough]. }
  intros [tags st2] w2 (Hs2 & Hsaid2 & Htags). cbn [fst snd] in *.
  destruct (repo_records (w_kv w) repo 72 Hok) as [_ Hin].
  assert (∀ q, q ∈ rs_artifact_paths scan ↔ ∃ r, at_path (w_kv w) repo r ∧ ar_path r = q) as Hpaths.
  { intros q. destruct Hfound as [-> _]. rewrite list_elem_of_fmap.
    split; [intros (r & -> & Hr%Hin); by exists r|intros (r & Hr%Hin & <-); by exists r]. }
  assert (∀ p, p ∈ tags ↔ ∃ r, at_path (w_kv w) repo r ∧ dangling (w_kv w) repo r ∧ ar_path r = p) as Htags'.
  { intros p. rewrite Htags. by apply tags_dangling. }
  apply wp_bind. eapply wp_mono.
  { eapply wp_ensures; [apply mute_fix_repo|]. apply (wp_fix_repo bf repo scan tags _ w w2 Hok); [by etrans|done|done|exact Hfit]. }
  intros st3 w3 (Hsaid3 & Hrec & Hout). cbv beta in *. rewrite decide_False by done. apply wp_bind, wp_ret.
  eapply wp_mono; [eapply wp_ensures; [apply says_config_checks|apply within_config_checks] |].
  intros st4 w4 [ (config & Hsaid4 & Hconfig) Hs4]. split_and!.
  - rewrite Hsaid3, said_extend, Hsaid2, Hsaid1, Hfindings in Hsaid4. by eapply announced_defects.
  - intros sk r Hst. destruct (Hrec sk r Hst) as [Hl Hsl Hd Hsame]. split.
    + intros Hlost. rewrite (Hs4 (artifact_key repo sk) eq_refl). by apply Hl.
    + intros Hnl Hslash. destruct (Hsl Hnl Hslash) as (id & accessed & Hrf & shard & v & n & Hsh & Hm & Hv).
      exists id, accessed. split; [done|]. exists shard, v, n. split_and!; [done| |done]. by rewrite (Hs4 (_, _, _) eq_refl).
    + intros Hnl Hns Hdg. rewrite (Hs4 (artifact_key repo sk) eq_refl). by apply Hd.
    + intros Hnl Hns Hnd. rewrite (Hs4 (artifact_key repo sk) eq_refl). by apply Hsame.
  - intros k Hk Hno. rewrite (Hs4 k Hk). by apply Hout.
Qed.
End fixes.


(** ** Witnesses *)

(** "a" has its blob; "x" has not; "b//c" has its blob but a double slash;
    the tag "m/:latest" has no manifest. *)
Definition toy_slashed : ArtifactRecord :=
  mkArtifactRecord 5 "i3" 3 "t" 7%Z 7%Z 7%Z "b//c" KRaw false (Some "b1") None None.

Definition toy_fix_artifacts : list ArtifactRecord :=
  [mkArtifactRecord 5 "i1" 3 "t" 7%Z 7%Z 7%Z "a" KRaw false (Some "b1") None None;
   mkArtifactRecord 5 "i2" 3 "t" 7%Z 7%Z 7%Z "x" KRaw false (Some "b2") None None;
   toy_slashed;
   mkArtifactRecord 5 "i3" 3 "t" 7%Z 7%Z 7%Z "b/c" KRaw false (Some "b1") None None;
   mkArtifactRecord 5 "i4" 3 "t" 7%Z 7%Z 7%Z "_tags/latest" (KDockerTag "sha256:0" "latest") false (Some "b1") None None].

Definition toy_fix_serde : Serde ArtifactRecord := table_serde toy_fix_artifacts.

Definition toy_fix_store : kvmap :=
  let _ := toy_blake3 in
  list_to_map [(artifact_key "r" "a", ("0", 1%Z)); (artifact_key "r" "x", ("1", 1%Z));
               (artifact_key "r" "b//c", ("2", 1%Z)); (artifact_key "r" "_tags/latest", ("4", 1%Z))].

Definition toy_fix_world : world kvmap := mkWorld toy_fix_store ∅ ∅ 0%Z 0 [] false.
Definition toy_fix_filter : N := (2 ^ bit_of "b1")%N.

(** What holds of every entry of the store and the record it decodes to. *)
Lemma toy_fix_entries (P : string * string * string → ArtifactRecord → bool) :
  map_Forall (λ (k : string * string * string) (x : bytes * Z),
    match @from_slice _ toy_fix_serde x.1 with inr r => P k r | inl _ => true end = true) toy_fix_store →
  ∀ k v n r, toy_fix_store !! k = Some (v, n) → @from_slice _ toy_fix_serde v = inr r → P k r = true.
Proof.
  intros Hall k v n r Hm Hv. specialize (Hall _ _ Hm). cbn [fst] in Hall. by rewrite Hv in Hall.
Qed.

Lemma toy_fix_repo_ok : let _ := toy_blake3 in let _ := toy_fix_serde in repo_ok toy_fix_store "r".
Proof.
  intros ??. split.
  - intros k v n Hm repo shard r Hkey Hv.
    pose proof (toy_fix_entries (λ k r, bool_decide (@artifact_key toy_blake3 "r" (ar_path r) = k)) ltac:(by_decide) _ _ _ _ Hm Hv) as Hk%bool_decide_eq_true.
    assert (map_Forall (λ (k : string * string * string) (x : bytes * Z),
      option_map fst (rsplit_once SLASH k.1.2) = Some "r") toy_fix_store) as Hrepo by by_decide.
    specialize (Hrepo _ _ Hm). cbv beta in Hrepo. rewrite Hkey in Hrepo. cbn [fst snd] in Hrepo. unfold artifact_shard_pk in Hrepo.
    rewrite (proj2 (rsplit_once_Some SLASH _ repo (show_uint shard))) in Hrepo.
    + injection Hrepo as Hrepo. subst repo. exact Hk.
    + split; [done|]. apply show_uint_no_char. cbn. lia.
  - intros shard sk v n _ Hm.
    assert (map_Forall (λ (k : string * string * string) (x : bytes * Z),
      match @from_slice _ toy_fix_serde x.1 with inr _ => true | inl _ => false end = true) toy_fix_store) as Hall by by_decide.
    specialize (Hall _ _ Hm). cbn [fst] in Hall. destruct (from_slice v) as [|r]; [done|]. by exists r.
Qed.

Lemma toy_renames_fit : let _ := toy_blake3 in let _ := toy_fix_serde in renames_fit toy_fix_store "r".
Proof.
  intros ? ? sk r (shard & v & n & _ & Hm & Hv) Hs.
  pose proof (toy_fix_entries (λ k r, bool_decide (slashed r → k.2 = "b/c" ∧ r = toy_slashed)) ltac:(by_decide) _ _ _ _ Hm Hv) as Hr.
  apply bool_decide_eq_true in Hr. destruct (Hr Hs) as [Hsk ->]. cbn [snd] in Hsk. subst sk.
  split; [done|]. intros id accessed [Hid Hacc]. rewrite (Hid ltac:(done)), (Hacc ltac:(by_decide)). exists "3". by_decide.
Qed.

Lemma toy_fix_enough : let _ := toy_blake3 in enough toy_fix_store 5 "r".
Proof.
  intros ?. assert (Forall (λ shard, length (part toy_fix_store TABLE_ARTIFACTS (artifact_shard_pk "r" shard)) < 5) shard_range) as Hall by by_decide.
  intros shard Hs. by apply (proj1 (Forall_forall _ _) Hall).
Qed.

Definition toy_fix_state : CheckState := mkCheckState [] 0 [] 0 empty_progress (new_task_manager "i").

Definition toy_fix (st : CheckState) : prog CheckState :=
  @check_repo toy_blake3 toy_bits toy_fix_serde (table_serde []) (table_serde []) Prog.in_order 5 "t" toy_fix_filter false [] (toy_repo "r" Hosted false) st.

Lemma check_repo_fixes_exact_witness :
  let _ := toy_blake3 in let _ := toy_fix_serde in
  ∃ st' (w' : world kvmap), run (H:=toy_uuid) (toy_fix toy_fix_state) toy_fix_world = (Some st', w') ∧
    announced "r" "x" E_LOST st' ∧
    w_kv w' !! artifact_key "r" "a" = Some ("0", 1%Z) ∧ w_kv w' !! artifact_key "r" "x" = None ∧
    w_kv w' !! artifact_key "r" "_tags/latest" = None ∧
    ∃ id accessed, stored (w_kv w') "r" "b/c" (mkArtifactRecord 5 id 3 "t" 7%Z 7%Z accessed "b/c" KRaw false (Some "b1") None None).
Proof.
  intros ? ?.
  destruct (@check_repo_fixes_exact toy_blake3 toy_bits toy_fix_serde (table_serde []) (table_serde []) (table_serde_exact _) Prog.in_order
    5 "t" toy_uuid toy_fix_filter [] (toy_repo "r" Hosted false) toy_fix_state toy_fix_world)
    as (st' & w' & Hrun & Hann & Hrec & _); [done|exact toy_fix_repo_ok|exact toy_fix_enough|exact toy_renames_fit|].
  assert (∀ path i r, normalize_path path = path → toy_fix_store !! artifact_key "r" path = Some (i, 1%Z) → from_slice i = inr r →
    stored toy_fix_store "r" path r) as Hst.
  { intros path i r Hn Hm Hv. exists (shard_of path), i, 1%Z. split_and!; [apply shard_of_in_range| |done].
    rewrite <-Hm. unfold artifact_key. by rewrite Hn. }
  change (rc_name (toy_repo "r" Hosted false)) with "r" in Hrec, Hann.
  exists st', w'. split; [exact Hrun|]. split_and!.
  - apply Hann; [by left|]. right. exists (mkArtifactRecord 5 "i2" 3 "t" 7%Z 7%Z 7%Z "x" KRaw false (Some "b2") None None).
    split; [by exists "1", 1%Z; split; [by_decide|done]|]. split; [done|]. left. split; [done|]. by_decide.
  - edestruct (Hrec "a") as [_ _ _ Hs]; [apply (Hst _ "0"); [done|by_decide|done]|].
    refine (eq_trans (Hs _ _ _) _); [by_decide..| |by_decide]. intros (digest & tag & mp & Hk & _). discriminate.
  - edestruct (Hrec "x") as [Hl _ _ _]; [apply (Hst _ "1"); [done|by_decide|done]|]. apply Hl. by_decide.
  - edestruct (Hrec "_tags/latest") as [_ _ Hd _]; [apply (Hst _ "4"); [done|by_decide|done]|]. apply Hd; [by_decide..|].
    exists "sha256:0", "latest", "_manifests/sha256:0". split_and!; [done|by_decide|].
    intros r' (v & n & Hm & Hv).
    pose proof (toy_fix_entries (λ _ r, bool_decide (ar_path r ≠ "_manifests/sha256:0")) ltac:(by_decide) _ _ _ _ Hm Hv) as Hne.
    by apply bool_decide_eq_true in Hne.
  - edestruct (Hrec "b/c") as [_ Hs _ _]; [apply (Hst _ "2"); [done|by_decide|done]|].
    destruct Hs as (id & accessed & _ & Hs); [by_decide..|]. by exists id, accessed.
Defined.
