(* ===== verification/Cleanup.v ===== *)
(** * Artifact clean-up (server/src/server/worker/blob_reaper/repo_cleanup.rs)

    Expiry of the artifacts of a repository by age and by last access.  The
    theorem is that one pass removes exactly the artifacts that the policy of
    the repository expires, with their browse-tree entries, and counts them. *)

From S2P Require Import Prelude Bytes Errors Keys Records Kv Prog Wp Scan Pagination Update Artifact Repo Accounts Batches.

(** server/src/server/worker/blob_reaper/repo_cleanup.rs:22-26 *)
Record RepoCleanStats : Type := mkRepoCleanStats {
  rcs_scanned_artifacts : Z;
  rcs_expired_artifacts : Z;
  rcs_docker_deleted : Z;
}.

(** server/src/server/worker/blob_reaper/repo_cleanup.rs:46-50 *)
Inductive ExpiryReason : Type := MaxAge | Unaccessed.

#[export] Instance ExpiryReason_eq_dec : EqDecision ExpiryReason.
Proof. solve_decision. Defined.

(** server/src/server/worker/blob_reaper/repo_cleanup.rs:52-59 *)
Definition reason_as_str (r : ExpiryReason) : string :=
  match r with
  | MaxAge => "max_age"
  | Unaccessed => "max_unaccessed"
  end.

(** format/docker/src/store.rs:100-105 *)
Definition is_bookkeeping_path (path : string) : bool :=
  starts_with path "_manifests/"
  || starts_with path "_blobs/"
  || contains path "/_manifests/"
  || contains path "/_blobs/".

(** What an artifact batch yields: the records that stay, the bytes of all
    records, and the expired ones. *)
Record expiry_batch : Type := mkExpiryBatch {
  eb_scanned : Z;
  eb_bytes : Z;
  eb_entries : list (string * Z * ExpiryReason);
}.

Section cleanup.
Context `{Blake3} `{Serde ArtifactRecord} `{Serde TreeEntry} `{Chrono}.

(** server/src/server/worker/blob_reaper/repo_cleanup.rs:33-42 *)
Definition tree_last_accessed_at (repo path : string) : prog (option DateTime) :=
  let '(table, pk, sk) := tree_entry_key repo path in
  let* r := kv (GetVersioned table pk sk) in
  match r with
  | Ok (Some (bytes, _)) =>
      match from_slice bytes with
      | inr entry => Ret (Some (te_last_accessed_at entry))
      | inl _ => Ret None
      end
  | _ => Ret None
  end.

(** server/src/server/worker/blob_reaper/repo_cleanup.rs:70-102 *)
Definition record_expired (repo sk : string) (record : ArtifactRecord) (is_docker : bool)
    (max_age_cutoff max_unaccessed_cutoff : option DateTime) : prog (option ExpiryReason) :=
  if ar_internal record || (is_docker && is_bookkeeping_path sk) then Ret None
  else
    let age_expired := from_option (λ c, bool_decide (ar_created_at record < c)%Z) false max_age_cutoff in
    if age_expired then Ret (Some MaxAge)
    else
      let* unaccessed_expired :=
        match max_unaccessed_cutoff with
        | Some c =>
            let* accessed := tree_last_accessed_at repo sk in
            Ret (bool_decide (default (ar_last_accessed_at record) accessed < c)%Z)
        | None => Ret false
        end in
      Ret (if (unaccessed_expired : bool) then Some Unaccessed else None).

(** The loop over the items of a batch; a record that does not decode is
    skipped. *)
(** server/src/server/worker/blob_reaper/repo_cleanup.rs:207-231 *)
Fixpoint expire_items (repo : string) (is_docker : bool)
    (max_age_cutoff max_unaccessed_cutoff : option DateTime)
    (items : list (string * bytes)) (b : expiry_batch) : prog expiry_batch :=
  match items with
  | [] => Ret b
  | (sk, value) :: items =>
      match from_slice value with
      | inl _ => expire_items repo is_docker max_age_cutoff max_unaccessed_cutoff items b
      | inr record =>
          let* expired := record_expired repo sk record is_docker max_age_cutoff max_unaccessed_cutoff in
          let bytes := u64_add (eb_bytes b) (ar_size record) in
          expire_items repo is_docker max_age_cutoff max_unaccessed_cutoff items
            (match expired with
             | Some reason => mkExpiryBatch (eb_scanned b) bytes (eb_entries b ++ [(sk, ar_size record, reason)])
             | None => mkExpiryBatch (u64_add (eb_scanned b) 1) bytes (eb_entries b)
             end)
      end
  end.

(** The events of the expired entries. *)
Fixpoint send_expired (repo : string) (entries : list (string * Z * ExpiryReason)) : prog unit :=
  match entries with
  | [] => Ret tt
  | (sk, size, _) :: entries =>
      let* _ := dir_changed repo sk (-1) (i64_neg (i64_wrap size)) in
      send_expired repo entries
  end.

(** The scan of one shard: records kept, bytes, records expired. *)
(** server/src/server/worker/blob_reaper/repo_cleanup.rs:172-250 *)
Definition expire_shard (fuel : nat) (cancel : bool) (repo : string) (is_docker : bool)
    (max_age_cutoff max_unaccessed_cutoff : option DateTime) (shard : N) : prog (result (Z * Z * Z)) :=
  let pk := artifact_shard_pk repo shard in
  scan_batches fuel "Repo clean cancelled" cancel TABLE_ARTIFACTS pk
    (λ '(local_scanned, local_scanned_bytes, local_expired) items,
      let* b := expire_items repo is_docker max_age_cutoff max_unaccessed_cutoff items
                  (mkExpiryBatch local_scanned local_scanned_bytes []) in
      if decide (eb_entries b = []) then Ret (Ok (eb_scanned b, eb_bytes b, local_expired))
      else
        let paths := (λ '(sk, _, _), sk) <$> eb_entries b in
        let*? _ := delete_artifacts_paired_batch repo paths in
        let* _ := send_expired repo (eb_entries b) in
        Ret (Ok (eb_scanned b, eb_bytes b, u64_add local_expired (Z.of_nat (length (eb_entries b))))))
    None (0%Z, 0%Z, 0%Z).

(** [now - chrono::Duration::days(d as i64)]; [None] when it panics. *)
(** server/src/server/worker/blob_reaper/repo_cleanup.rs:146-151 *)
Definition cutoff_of (now : DateTime) (days : option Z) : option (option DateTime) :=
  match days with
  | None => Some None
  | Some d => (λ t, Some (now - t)%Z) <$> duration_days (i64_wrap d)
  end.

Definition add_counts (a b : Z * Z * Z) : Z * Z * Z :=
  (u64_add a.1.1 b.1.1, u64_add a.1.2 b.1.2, u64_add a.2 b.2).

(** [schedule] is the order in which the shards complete. *)
(** server/src/server/worker/blob_reaper/repo_cleanup.rs:139-274 *)
Definition expire_repo_artifacts (schedule : list N) (fuel : nat) (cancel : bool) (repo : RepoConfig) :
    prog (result (Z * Z * Z)) :=
  let* now := call ENow in
  match cutoff_of now (rc_cleanup_max_age_days repo), cutoff_of now (rc_cleanup_max_unaccessed_days repo) with
  | Some max_age_cutoff, Some max_unaccessed_cutoff =>
      if decide (max_age_cutoff = None ∧ max_unaccessed_cutoff = None) then Ret (Ok (0%Z, 0%Z, 0%Z))
      else
        let is_docker := bool_decide (repo_format repo = FDocker) in
        let*? shard_results := try_for schedule
          (expire_shard fuel cancel (rc_name repo) is_docker max_age_cutoff max_unaccessed_cutoff) in
        Ret (Ok (foldl add_counts (0%Z, 0%Z, 0%Z) shard_results))
  | _, _ => Spin
  end.
End cleanup.

(** ** The policy *)

Section policy.
Context `{Blake3} `{Serde ArtifactRecord} `{Serde TreeEntry}.
Implicit Types (m : kvmap).

(** The access time that counts: that of the browse-tree entry, and the
    record's when there is none. *)
Definition accessed_at m (repo sk : string) (record : ArtifactRecord) : DateTime :=
  match m !! tree_entry_key repo sk with
  | Some (bytes, _) =>
      match from_slice bytes with
      | inr entry => te_last_accessed_at entry
      | inl _ => ar_last_accessed_at record
      end
  | None => ar_last_accessed_at record
  end.

(** Before the cut-off, when there is one. *)
Definition before (cutoff : option DateTime) (t : DateTime) : bool :=
  from_option (λ c, bool_decide (t < c)%Z) false cutoff.

(** Why a policy expires an artifact, if it does. *)
Definition expiry_of m (repo : string) (is_docker : bool) (age unaccessed : option DateTime) (sk : string)
    (record : ArtifactRecord) : option ExpiryReason :=
  if ar_internal record || (is_docker && is_bookkeeping_path sk) then None
  else if before age (ar_created_at record) then Some MaxAge
  else if before unaccessed (accessed_at m repo sk record) then Some Unaccessed
  else None.

(** Of a list of entries: the expired ones, the number of records that stay,
    the bytes of all records. *)
Definition expired_of m (repo : string) (is_docker : bool) (age unaccessed : option DateTime)
    (l : list (string * bytes)) : list (string * Z * ExpiryReason) :=
  omap (λ '(sk, value),
    match from_slice value with
    | inr record => (λ reason, (sk, ar_size record, reason)) <$> expiry_of m repo is_docker age unaccessed sk record
    | inl _ => None
    end) l.

Definition kept_of m (repo : string) (is_docker : bool) (age unaccessed : option DateTime)
    (l : list (string * bytes)) : list ArtifactRecord :=
  omap (λ '(sk, value),
    match from_slice value with
    | inr record => if expiry_of m repo is_docker age unaccessed sk record is Some _ then None else Some record
    | inl _ => None
    end) l.

Definition bytes_of (l : list (string * bytes)) : Z :=
  foldr Z.add 0%Z (omap (λ '(_, value), match from_slice value with
    | inr record => Some (ar_size record) | inl _ => None end) l).

(** The paths of expired entries. *)
Definition expired_paths (l : list (string * Z * ExpiryReason)) : list string := (λ '(sk, _, _), sk) <$> l.

(** Every record of the repository is under the key of its path, and the path
    has no NUL byte. *)
Definition stored_paths m (repo : string) : Prop :=
  ∀ shard sk v, shard ∈ shard_range → m !! (TABLE_ARTIFACTS, artifact_shard_pk repo shard, sk) = Some v →
    artifact_key repo sk = (TABLE_ARTIFACTS, artifact_shard_pk repo shard, sk) ∧ has_char NUL sk = false.

Definition stored_path (repo path : string) : Prop :=
  (artifact_key repo path).2 = path ∧ has_char NUL path = false.

End policy.

(** ** The pass *)

Section pass.
Context `{Blake3} `{Serde ArtifactRecord} `{Serde TreeEntry} `{Chrono} `{UuidGen}.
Implicit Types (m : kvmap) (w : world kvmap).

Lemma run_record_expired repo sk record is_docker age unaccessed w :
  run (record_expired repo sk record is_docker age unaccessed) w =
    (Some (expiry_of (w_kv w) repo is_docker age unaccessed sk record), w).
Proof.
  unfold record_expired, expiry_of, before, from_option. destruct (_ || _); [done|].
  destruct (match age with Some _ => _ | None => _ end); [done|]. destruct unaccessed as [c|]; [|done].
  rewrite run_bind. cbn [from_option]. unfold accessed_at, tree_last_accessed_at.
  destruct (tree_entry_key repo sk) as [ [t pk] k]. rewrite run_bind, run_bind, run_kv_spec.
  cbn [spec_store fst snd]. rewrite set_kv_id.
  destruct (w_kv w !! (t, pk, k)) as [ [b v]|]; cbn [run default]; [|by destruct (bool_decide _)].
  destruct (from_slice b) as [e|entry]; cbn [run default]; by destruct (bool_decide _).
Qed.

(** A path of the store has a tree entry of its own. *)
Lemma stored_path_tree repo p q : stored_path repo p → stored_path repo q →
  tree_entry_key repo p = tree_entry_key repo q → p = q.
Proof.
  intros [Hp Np] [Hq Nq] Heq.
  pose proof (normalize_path_no_char NUL p Np) as Np'. pose proof (normalize_path_no_char NUL q Nq) as Nq'.
  unfold artifact_key in Hp, Hq. cbn [snd] in Hp, Hq.
  pose proof (normalize_path_canonical p) as Cp. pose proof (normalize_path_canonical q) as Cq.
  rewrite Hp in Cp, Np'. rewrite Hq in Cq, Nq'. unfold tree_entry_key, sharded_pk in Heq. rewrite Hp, Hq in Heq.
  apply (f_equal snd) in Heq. cbn [snd] in Heq.
  apply tree_sort_key_split in Heq as [Hpar Hname]; [|done..].
  destruct (decide (p = "")) as [->|Hp0], (decide (q = "")) as [->|Hq0]; [done| | |].
  - apply tree_name_nonempty in Hq0; [|done]. by rewrite <-Hname in Hq0.
  - apply tree_name_nonempty in Hp0; [|done]. by rewrite Hname in Hp0.
  - by apply tree_parent_name_inj.
Qed.

(** The decision on a path does not depend on what was removed for others. *)
Lemma expiry_of_purged repo is_docker age unaccessed paths m m' sk record :
  purged repo paths m m' → Forall (stored_path repo) paths → stored_path repo sk → sk ∉ paths →
  expiry_of m' repo is_docker age unaccessed sk record = expiry_of m repo is_docker age unaccessed sk record.
Proof.
  intros Hm Hpaths Hsk Hn. unfold expiry_of, accessed_at. rewrite (Hm (tree_entry_key repo sk)), decide_False; [done|].
  intros [ (p & Heq & Hp)%list_elem_of_fmap|(p & Heq & Hp)%list_elem_of_fmap].
  - symmetry in Heq. by apply artifact_tree_key_ne in Heq.
  - rewrite Forall_forall in Hpaths. apply Hn. by rewrite (stored_path_tree repo sk p Hsk (Hpaths p Hp) Heq).
Qed.

Lemma purged_nil repo m : purged repo [] m m.
Proof. intros k. rewrite decide_False; [done|]. by intros [Hk|Hk]; apply elem_of_nil in Hk. Qed.

Lemma purged_app repo l1 l2 m1 m2 m3 : purged repo l1 m1 m2 → purged repo l2 m2 m3 → purged repo (l1 ++ l2) m1 m3.
Proof.
  intros H1' H2' k. rewrite (H2' k), (H1' k).
  assert (∀ f : string → KeyTriple, k ∈ f <$> l1 ++ l2 ↔ k ∈ f <$> l1 ∨ k ∈ f <$> l2) as Happ.
  { intros f. by rewrite fmap_app, elem_of_app. }
  pose proof (Happ (artifact_key repo)). pose proof (Happ (tree_entry_key repo)).
  repeat case_decide; tauto || done.
Qed.

Lemma expired_of_app m repo d age un l1 l2 :
  expired_of m repo d age un (l1 ++ l2) = expired_of m repo d age un l1 ++ expired_of m repo d age un l2.
Proof. apply omap_app. Qed.

Lemma kept_of_app m repo d age un l1 l2 :
  kept_of m repo d age un (l1 ++ l2) = kept_of m repo d age un l1 ++ kept_of m repo d age un l2.
Proof. apply omap_app. Qed.

Lemma bytes_of_app l1 l2 : bytes_of (l1 ++ l2) = (bytes_of l1 + bytes_of l2)%Z.
Proof.
  unfold bytes_of. rewrite omap_app, foldr_app. generalize (omap (λ '(_, value),
    match from_slice (A:=ArtifactRecord) value with inr record => Some (ar_size record) | inl _ => None end) l1).
  intros l. induction l as [|x l IH]; cbn [foldr]; [done|]. rewrite IH. lia.
Qed.

Lemma elem_of_expired_paths m repo d age un l p :
  p ∈ expired_paths (expired_of m repo d age un l) ↔
    ∃ v record reason, (p, v) ∈ l ∧ from_slice v = inr record ∧
      expiry_of m repo d age un p record = Some reason.
Proof.
  unfold expired_paths, expired_of. rewrite list_elem_of_fmap. split.
  - intros ([ [sk sz] r] & -> & Hin). apply list_elem_of_omap in Hin as ([sk' v] & Hin & Heq).
    destruct (from_slice v) as [|record] eqn:Hv; [done|].
    destruct (expiry_of m repo d age un sk' record) as [reason|] eqn:He; [|done].
    injection Heq as -> <- <-. by exists v, record, reason.
  - intros (v & record & reason & Hin & Hv & He). exists (p, ar_size record, reason). split; [done|].
    apply list_elem_of_omap. exists (p, v). split; [done|]. by rewrite Hv, He.
Qed.

Lemma run_expire_items repo d age un items a c entries w :
  run (expire_items repo d age un items (mkExpiryBatch (u64_wrap a) (u64_wrap c) entries)) w =
    (Some (mkExpiryBatch (u64_wrap (a + Z.of_nat (length (kept_of (w_kv w) repo d age un items))))
       (u64_wrap (c + bytes_of items)) (entries ++ expired_of (w_kv w) repo d age un items)), w).
Proof.
  revert a c entries. induction items as [|[sk v] items IH]; intros a c entries.
  { cbn. by rewrite app_nil_r, !Z.add_0_r. }
  cbn [expire_items]. unfold bytes_of, kept_of, expired_of. cbn [omap list_omap].
  destruct (from_slice v) as [e|record]; [apply IH|].
  rewrite run_bind, run_record_expired. cbn [eb_bytes eb_scanned eb_entries foldr].
  rewrite !u64_add_wrap. destruct (expiry_of (w_kv w) repo d age un sk record) as [reason|]; cbn [fmap option_fmap option_map].
  - rewrite IH. rewrite <-(assoc_L (++)). cbn [app]. rewrite <-Z.add_assoc. done.
  - rewrite IH. cbn [length]. do 3 f_equal; f_equal; [|by rewrite <-Z.add_assoc].
    unfold kept_of, omap. lia.
Qed.

Lemma run_send_expired repo entries w :
  ∃ evs, run (send_expired repo entries) w =
    (Some tt, mkWorld (w_kv w) (w_blobs w) (w_stores w) (w_now w) (w_uuids w) (evs ++ w_sent w) (w_cancelled w)).
Proof.
  revert w. induction entries as [|[ [sk size] r] entries IH]; intros w.
  { exists []. by destruct w. }
  cbn [send_expired]. rewrite run_bind. unfold dir_changed. cbn [bind call run handle].
  set (ev := EvDir _). destruct (IH (push_sent ev w)) as [evs Hr]. rewrite Hr. exists (evs ++ [ev]).
  unfold push_sent. cbn [w_kv w_blobs w_stores w_now w_uuids w_sent w_cancelled]. by rewrite <-(assoc_L (++)).
Qed.

Lemma tally_ext m m' repo d age un l :
  (∀ x record, x ∈ l → expiry_of m' repo d age un x.1 record = expiry_of m repo d age un x.1 record) →
  expired_of m' repo d age un l = expired_of m repo d age un l ∧
  kept_of m' repo d age un l = kept_of m repo d age un l.
Proof.
  intros Hl. induction l as [|[sk v] l IH]; [done|]. destruct IH as [IH1 IH2].
  { intros x record Hx. apply Hl. by right. }
  unfold expired_of, kept_of in *. cbn [omap list_omap]. destruct (from_slice v) as [e|record]; [done|].
  pose proof (Hl (sk, v) record ltac:(by left)) as Hx. cbn [fst] in Hx. rewrite Hx.
  unfold omap in *. by rewrite IH1, IH2.
Qed.

Lemma stored_paths_elem m repo shard x : stored_paths m repo → shard ∈ shard_range →
  x ∈ entries m TABLE_ARTIFACTS (artifact_shard_pk repo shard) "" →
  artifact_key repo x.1 = (TABLE_ARTIFACTS, artifact_shard_pk repo shard, x.1) ∧ stored_path repo x.1.
Proof.
  intros Hm Hs Hx. destruct x as [sk v]. apply elem_of_entries in Hx as (_ & ver & Hin).
  destruct (Hm _ _ _ Hs Hin) as [Hk Hn]. split; [done|]. split; [|done].
  cbn [fst]. exact (f_equal snd Hk).
Qed.

Lemma NoDup_entries m t pk : NoDup (entries m t pk "").*1.
Proof. apply sorted_NoDup_fst, entries_sorted. Qed.

Lemma expired_path_elem m repo d age un l p :
  p ∈ expired_paths (expired_of m repo d age un l) → p ∈ l.*1.
Proof. intros (v & ? & ? & Hin & _)%elem_of_expired_paths. by apply (list_elem_of_fmap_2 fst _ (p, v)). Qed.

(** The result of a shard: records kept, bytes, records expired. *)
Definition tally m (repo : string) (d : bool) (age un : option DateTime) (l : list (string * bytes)) : Z * Z * Z :=
  (u64_wrap (Z.of_nat (length (kept_of m repo d age un l))), u64_wrap (bytes_of l),
   u64_wrap (Z.of_nat (length (expired_of m repo d age un l)))).

Lemma expire_shard_spec fuel cancel repo d age un shard m P w :
  let l := entries m TABLE_ARTIFACTS (artifact_shard_pk repo shard) "" in
  stored_paths m repo → shard ∈ shard_range → length l < fuel → cancel && w_cancelled w = false →
  purged repo P m (w_kv w) → Forall (stored_path repo) P →
  Forall (λ p, (artifact_key repo p).1.2 ≠ artifact_shard_pk repo shard) P →
  wp (expire_shard fuel cancel repo d age un shard) w (λ r w',
    r = Ok (tally m repo d age un l) ∧
    purged repo (P ++ expired_paths (expired_of m repo d age un l)) m (w_kv w') ∧ same_env w w').
Proof.
  intros l Hm Hs Hf Hc HP Hstored Hother. set (pk := artifact_shard_pk repo shard) in *.
  assert (∀ x, x ∈ l → artifact_key repo x.1 = (TABLE_ARTIFACTS, pk, x.1) ∧ stored_path repo x.1) as Hl.
  { intros x. by apply stored_paths_elem. }
  assert (Hstart : entries_from (w_kv w) TABLE_ARTIFACTS pk (default "" None) = l).
  { cbn [default from_option]. unfold entries_from; rewrite (entries_between_ext m); [apply entries_from_start|].
    intros sk _. rewrite (HP (TABLE_ARTIFACTS, pk, sk)), decide_False; [done|].
    intros [ (p & Heq & Hp)%list_elem_of_fmap|(p & Heq & _)%list_elem_of_fmap]; [|done].
    rewrite Forall_forall in Hother. apply (Hother p Hp). by rewrite <-Heq. }
  unfold expire_shard. cbv zeta. fold pk.
  apply wp_scan_batches with (I := λ rem st w', ∃ dn, l = dn ++ rem ∧ st = tally m repo d age un dn ∧
    purged repo (P ++ expired_paths (expired_of m repo d age un dn)) m (w_kv w') ∧ same_env w w').
  - by rewrite Hstart.
  - rewrite Hstart. exists []. split_and!; [done|done| |done]. by rewrite app_nil_r.
  - clear Hstart. intros batch rem st w1 (dn & Hdn & -> & Hp1 & He1) _.
    assert (∀ x, x ∈ batch → x ∈ l) as Hbl.
    { intros x Hx. rewrite Hdn. apply elem_of_app. right. apply elem_of_app. by left. }
    destruct (tally_ext m (w_kv w1) repo d age un batch) as [Hexp Hkept].
    { intros x record Hx. destruct (Hl x (Hbl x Hx)) as [Hk Hsp]. eapply expiry_of_purged; [exact Hp1| |done|].
      - apply Forall_app. split; [done|]. apply Forall_forall. intros p Hp%expired_path_elem.
        apply list_elem_of_fmap in Hp as (y & -> & Hy). apply Hl. rewrite Hdn. apply elem_of_app. by left.
      - intros [Hp|Hp%expired_path_elem]%elem_of_app.
        + rewrite Forall_forall in Hother. apply (Hother _ Hp). by rewrite Hk.
        + pose proof (NoDup_entries m TABLE_ARTIFACTS pk) as Hnd. fold l in Hnd.
          rewrite Hdn, fmap_app in Hnd. apply NoDup_app in Hnd as (_ & Hnd & _).
          apply (Hnd _ Hp). apply list_elem_of_fmap_2. apply elem_of_app. by left. }
    unfold tally at 1. cbv beta iota zeta. apply wp_bind. eapply wp_intro; [apply run_expire_items|].
    cbn [eb_entries eb_scanned eb_bytes app]. rewrite Hexp, Hkept.
    assert (Htally : tally m repo d age un (dn ++ batch) =
      (u64_wrap (Z.of_nat (length (kept_of m repo d age un dn)) + Z.of_nat (length (kept_of m repo d age un batch))),
       u64_wrap (bytes_of dn + bytes_of batch),
       u64_add (u64_wrap (Z.of_nat (length (expired_of m repo d age un dn))))
         (Z.of_nat (length (expired_of m repo d age un batch))))).
    { unfold tally. rewrite kept_of_app, bytes_of_app, expired_of_app, !length_app, u64_add_wrap. by rewrite !Nat2Z.inj_add. }
    case_decide as Hnil.
    + apply wp_ret. split; [done|]. exists (dn ++ batch). split_and!; [by rewrite <-(assoc_L (++))| | |done].
      * rewrite Htally, Hnil. cbn [length]. unfold u64_add. rewrite Z.add_0_r. f_equal.
        symmetry. apply u64_wrap_id, u64_wrap_ok.
      * by rewrite expired_of_app, Hnil, app_nil_r.
    + apply wp_bind_ok.
      change ((λ '(sk, _, _), sk) <$> expired_of m repo d age un batch) with (expired_paths (expired_of m repo d age un batch)).
      destruct (run_delete_paired w1 repo (expired_paths (expired_of m repo d age un batch))) as (m2 & Hr2 & Hp2).
      eapply wp_intro; [exact Hr2|]. apply wp_bind.
      destruct (run_send_expired repo (expired_of m repo d age un batch) (set_kv m2 w1)) as (evs & Hr3).
      eapply wp_intro; [exact Hr3|]. apply wp_ret. cbn [w_kv set_kv]. split.
      * intros sk Hsk. rewrite (Hp2 (TABLE_ARTIFACTS, pk, sk)), decide_False; [done|].
        intros [ (p & Heq & Hp)%list_elem_of_fmap|(p & Heq & _)%list_elem_of_fmap]; [|done].
        apply expired_path_elem in Hp. apply list_elem_of_fmap in Hp as (y & -> & Hy).
        rewrite (proj1 (Hl y (Hbl y Hy))) in Heq. simplify_eq. by apply Hsk, list_elem_of_fmap_2.
      * exists (dn ++ batch). split_and!; [by rewrite <-(assoc_L (++))|by rewrite Htally| |].
        -- rewrite expired_of_app. unfold expired_paths at 1. rewrite fmap_app, (assoc_L (++)).
           by eapply purged_app.
        -- done.
  - intros st w' (dn & Hdn & -> & Hp & He). rewrite app_nil_r in Hdn. subst dn. done.
  - intros rem st w' (dn & _ & _ & _ & He) Hcc. destruct He as (_ & _ & _ & _ & He).
    exfalso. rewrite He in Hcc. congruence.
Qed.

Lemma tally_app m repo d age un l1 l2 :
  tally m repo d age un (l1 ++ l2) = add_counts (tally m repo d age un l1) (tally m repo d age un l2).
Proof.
  unfold tally, add_counts. cbn [fst snd]. rewrite kept_of_app, bytes_of_app, expired_of_app, !length_app.
  unfold u64_add, u64_wrap. rewrite <-!Zplus_mod. by rewrite !Nat2Z.inj_add.
Qed.

Lemma tally_sum m repo d age un l ls :
  foldl add_counts (tally m repo d age un l) (tally m repo d age un <$> ls) = tally m repo d age un (l ++ concat ls).
Proof.
  revert l. induction ls as [|l1 ls IH]; intros l; cbn [concat fmap list_fmap foldl]; [by rewrite app_nil_r|].
  rewrite <-tally_app, IH. by rewrite <-(assoc_L (++)).
Qed.

(** All entries of a repository, in the order of the schedule. *)
Definition all_entries m (repo : string) (schedule : list N) : list (string * bytes) :=
  concat ((λ shard, entries m TABLE_ARTIFACTS (artifact_shard_pk repo shard) "") <$> schedule).

Definition shards_fit m (repo : string) (fuel : nat) : Prop :=
  Forall (λ shard, length (entries m TABLE_ARTIFACTS (artifact_shard_pk repo shard) "") < fuel) shard_range.

Lemma expire_shards_spec schedule fuel cancel repo d age un w :
  schedule ≡ₚ shard_range → stored_paths (w_kv w) repo → shards_fit (w_kv w) repo fuel →
  cancel && w_cancelled w = false →
  wp (try_for schedule (expire_shard fuel cancel repo d age un)) w (λ r w',
    r = Ok ((λ shard, tally (w_kv w) repo d age un (entries (w_kv w) TABLE_ARTIFACTS (artifact_shard_pk repo shard) ""))
      <$> schedule) ∧
    purged repo (expired_paths (expired_of (w_kv w) repo d age un (all_entries (w_kv w) repo schedule))) (w_kv w) (w_kv w') ∧
    same_env w w').
Proof.
  intros Hsch Hm Hfit Hc. set (m := w_kv w) in *.
  set (en := λ shard, entries m TABLE_ARTIFACTS (artifact_shard_pk repo shard) "").
  apply wp_try_for with (I := λ l acc w', ∃ dn, schedule = dn ++ l ∧ acc = (λ s, tally m repo d age un (en s)) <$> dn ∧
    purged repo (expired_paths (expired_of m repo d age un (all_entries m repo dn))) m (w_kv w') ∧ same_env w w').
  - exists []. split_and!; [done|done| |done]. apply purged_nil.
  - intros shard l acc w1 (dn & Hdn & -> & Hp & He).
    assert (NoDup schedule) as Hnd by (rewrite Hsch; apply NoDup_shard_range).
    assert (∀ s, s ∈ dn ∨ s = shard → s ∈ shard_range) as Hin.
    { intros s Hs. rewrite <-Hsch, Hdn. apply elem_of_app. destruct Hs as [Hs|Hs]; [by left|]. subst. right. by left. }
    assert (∀ p, p ∈ expired_paths (expired_of m repo d age un (all_entries m repo dn)) →
      ∃ s, s ∈ dn ∧ artifact_key repo p = (TABLE_ARTIFACTS, artifact_shard_pk repo s, p) ∧ stored_path repo p) as Hdone.
    { intros p Hp'%expired_path_elem. apply list_elem_of_fmap in Hp' as (x & -> & Hx).
      unfold all_entries in Hx. apply elem_of_concat_fmap in Hx as (s & Hs & Hx). exists s. split; [done|].
      apply (stored_paths_elem m); [done|by apply Hin; left|done]. }
    eapply wp_mono.
    + apply (expire_shard_spec fuel cancel repo d age un shard m
        (expired_paths (expired_of m repo d age un (all_entries m repo dn)))); [done|by apply Hin; right| | |done|..].
      * unfold shards_fit in Hfit; rewrite Forall_forall in Hfit. apply Hfit. by apply Hin; right.
      * destruct He as (_ & _ & _ & _ & ->). done.
      * apply Forall_forall. intros p Hp'. by destruct (Hdone p Hp') as (_ & _ & _ & ?).
      * apply Forall_forall. intros p Hp'. destruct (Hdone p Hp') as (s & Hs & -> & _). cbn [fst snd].
        intros Heq%shard_pk_inj. subst s. rewrite Hdn in Hnd. apply NoDup_app in Hnd as (_ & Hnd & _).
        apply (Hnd _ Hs). by left.
    + intros r w2 (-> & Hp2 & He2). exists (dn ++ [shard]). split_and!.
      * by rewrite <-(assoc_L (++)).
      * by rewrite fmap_app.
      * unfold all_entries. rewrite fmap_app, concat_app. cbn [concat fmap list_fmap].
        rewrite app_nil_r, expired_of_app. unfold expired_paths. rewrite fmap_app. done.
      * by eapply same_env_trans.
  - intros acc w' (dn & Hdn & -> & Hp & He). rewrite app_nil_r in Hdn. by subst dn.
Qed.

(** Nothing expires without a policy. *)
Lemma expired_of_none m repo d l : expired_of m repo d None None l = [].
Proof.
  induction l as [|[sk v] l IH]; [done|]. unfold expired_of in *. cbn [omap list_omap].
  destruct (from_slice v) as [e|record]; [done|]. unfold expiry_of. destruct (_ || _); cbn; done.
Qed.

Lemma expire_repo_spec schedule fuel cancel repo age un w :
  let d := bool_decide (repo_format repo = FDocker) in
  schedule ≡ₚ shard_range → stored_paths (w_kv w) (rc_name repo) → shards_fit (w_kv w) (rc_name repo) fuel →
  cancel && w_cancelled w = false →
  cutoff_of (w_now w) (rc_cleanup_max_age_days repo) = Some age →
  cutoff_of (w_now w) (rc_cleanup_max_unaccessed_days repo) = Some un →
  wp (expire_repo_artifacts schedule fuel cancel repo) w (λ r w',
    r = Ok (if decide (age = None ∧ un = None) then (0%Z, 0%Z, 0%Z)
            else tally (w_kv w) (rc_name repo) d age un (all_entries (w_kv w) (rc_name repo) schedule)) ∧
    purged (rc_name repo) (expired_paths (expired_of (w_kv w) (rc_name repo) d age un
      (all_entries (w_kv w) (rc_name repo) schedule))) (w_kv w) (w_kv w') ∧ same_env w w').
Proof.
  intros d Hsch Hm Hfit Hc Hage Hun. unfold expire_repo_artifacts.
  apply wp_bind, wp_call. change (handle ENow w) with (w_now w, w). cbn [fst snd]. rewrite Hage, Hun.
  destruct (decide (age = None ∧ un = None)) as [ [-> ->]|Hne].
  { apply wp_ret. rewrite expired_of_none. split_and!; [done|apply purged_nil|done]. }
  apply wp_bind_ok. eapply wp_mono; [by apply expire_shards_spec|]. intros r w' (-> & Hp & He).
  apply wp_ret. split; [|done]. f_equal.
  change (0%Z, 0%Z, 0%Z) with (tally (w_kv w) (rc_name repo) d age un []).
  etrans; [|apply (tally_sum (w_kv w) (rc_name repo) d age un [])]. by rewrite <-list_fmap_compose.
Qed.

(** The artifacts of a repository that its policy expires. *)
Definition expires m (repo : string) (d : bool) (age un : option DateTime) (path : string) : Prop :=
  (artifact_key repo path).2 = path ∧
  ∃ b ver record reason, m !! artifact_key repo path = Some (b, ver) ∧ from_slice b = inr record ∧
    expiry_of m repo d age un path record = Some reason.

Lemma elem_of_all_entries m repo schedule sk v : stored_paths m repo → schedule ≡ₚ shard_range →
  (sk, v) ∈ all_entries m repo schedule ↔
    (artifact_key repo sk).2 = sk ∧ ∃ ver, m !! artifact_key repo sk = Some (v, ver).
Proof.
  intros Hm Hsch. unfold all_entries. rewrite elem_of_concat_fmap. split.
  - intros (s & Hs & Hin). rewrite Hsch in Hs. destruct (stored_paths_elem m repo s (sk, v) Hm Hs Hin) as [Hk [Hp _] ].
    split; [done|]. cbn [fst] in Hk. rewrite Hk. by apply elem_of_entries in Hin as (_ & ver & Hin); exists ver.
  - intros (Hk & ver & Hin). exists (shard_of sk). rewrite Hsch. split; [apply shard_of_in_range|].
    apply elem_of_entries. split; [apply starts_with_nil|]. exists ver.
    unfold artifact_key in Hk, Hin. cbn [snd] in Hk. rewrite Hk in Hin. done.
Qed.

Lemma NoDup_all_entries m repo schedule : stored_paths m repo → schedule ≡ₚ shard_range →
  NoDup (all_entries m repo schedule).*1.
Proof.
  intros Hm Hsch. apply (NoDup_concat_keyed (λ sk, shard_of (normalize_path sk))).
  - rewrite Hsch. apply NoDup_shard_range.
  - intros s _. apply NoDup_entries.
  - intros s x Hs Hx. rewrite Hsch in Hs. destruct (stored_paths_elem m repo s x Hm Hs Hx) as [Hk _].
    unfold artifact_key in Hk. injection Hk as Hk _. unfold sharded_pk in Hk. by apply scoped_pk_inj in Hk as [_ Hk].
Qed.

Lemma expired_all m repo d age un schedule : stored_paths m repo → schedule ≡ₚ shard_range →
  let l := expired_paths (expired_of m repo d age un (all_entries m repo schedule)) in
  NoDup l ∧ ∀ path, path ∈ l ↔ expires m repo d age un path.
Proof.
  intros Hm Hsch l. split.
  - pose proof (NoDup_all_entries m repo schedule Hm Hsch) as Hnd. subst l. revert Hnd.
    generalize (all_entries m repo schedule). intros l. induction l as [|[sk v] l IH]; [by constructor|].
    cbn [fmap list_fmap fst]. intros [Hn Hnd]%NoDup_cons. unfold expired_of. cbn [omap list_omap].
    destruct (from_slice v) as [e|record]; [by apply IH|].
    destruct (expiry_of m repo d age un sk record) as [reason|]; [|by apply IH].
    cbn [fmap option_fmap option_map expired_paths list_fmap]. constructor; [|by apply IH].
    intros Hin. apply Hn. by apply expired_path_elem in Hin.
  - intros path. unfold l. rewrite elem_of_expired_paths. unfold expires. split.
    + intros (v & record & reason & Hin & Hv & He). apply elem_of_all_entries in Hin as (Hk & ver & Hin); [|done..].
      split; [done|]. by exists v, ver, record, reason.
    + intros (Hk & v & ver & record & reason & Hin & Hv & He). exists v, record, reason. split_and!; [|done|done].
      apply elem_of_all_entries; [done|done|]. split; [done|]. by exists ver.
Qed.
End pass.

(** ** Properties *)

(** Clean-up is exact.  In a repository whose records are under the keys of
    their paths, a pass that is not cancelled terminates and deletes exactly
    the artifacts that the policy expires, judged on the state before the pass
    (by creation time, or by the access time of the browse-tree entry with the
    record's as the fallback; internal artifacts and Docker bookkeeping never),
    together with their browse-tree entries; it counts them, and every other
    key, the blobs and the rest of the environment are unchanged.  The order in
    which the shards complete does not matter. *)
Theorem expire_repo_artifacts_exact `{Blake3} `{Serde ArtifactRecord} `{Serde TreeEntry} `{Chrono} `{UuidGen}
    (schedule : list N) (fuel : nat) (cancel : bool) (repo : RepoConfig) (age un : option DateTime)
    (w : world kvmap) :
  schedule ≡ₚ shard_range → stored_paths (w_kv w) (rc_name repo) → shards_fit (w_kv w) (rc_name repo) fuel →
  cancel && w_cancelled w = false →
  cutoff_of (w_now w) (rc_cleanup_max_age_days repo) = Some age →
  cutoff_of (w_now w) (rc_cleanup_max_unaccessed_days repo) = Some un →
  ∃ (counts : Z * Z * Z) (w' : world kvmap) (expired : list string),
    run (expire_repo_artifacts schedule fuel cancel repo) w = (Some (Ok counts), w') ∧
    NoDup expired ∧
    (∀ path, path ∈ expired ↔
      expires (w_kv w) (rc_name repo) (bool_decide (repo_format repo = FDocker)) age un path) ∧
    counts.2 = u64_wrap (Z.of_nat (length expired)) ∧
    (∀ path, path ∈ expired →
      w_kv w' !! artifact_key (rc_name repo) path = None ∧ w_kv w' !! tree_entry_key (rc_name repo) path = None) ∧
    (∀ k, (∀ path, path ∈ expired → k ≠ artifact_key (rc_name repo) path ∧ k ≠ tree_entry_key (rc_name repo) path) →
      w_kv w' !! k = w_kv w !! k) ∧
    same_env w w'.
Proof.
  intros Hsch Hm Hfit Hc Hage Hun.
  set (d := bool_decide (repo_format repo = FDocker)). set (name := rc_name repo) in *.
  destruct (wp_run _ _ _ (expire_repo_spec schedule fuel cancel repo age un w Hsch Hm Hfit Hc Hage Hun))
    as (r & w' & Hr & -> & Hp & He).
  destruct (expired_all (w_kv w) name d age un schedule Hm Hsch) as [Hnd Hin].
  set (expired := expired_paths _) in Hnd, Hin. eexists _, w', expired. split_and!; [exact Hr|done|exact Hin| | | |done].
  - case_decide as Hne; [|unfold expired, expired_paths; by rewrite length_fmap].
    unfold expired. destruct Hne as [-> ->]. by rewrite expired_of_none.
  - intros path Hpath. fold d name in Hp. split; rewrite Hp, decide_True; [done| |done|];
      [left|right]; by apply list_elem_of_fmap_2.
  - intros k Hk. fold d name in Hp. rewrite Hp, decide_False; [done|].
    intros [ (p & Heq & Hpp)%list_elem_of_fmap|(p & Heq & Hpp)%list_elem_of_fmap]; by destruct (Hk p Hpp).
Qed.

(** A day count above [i64::MAX] is reinterpreted as a negative number of days:
    the cut-off is in the future, and every artifact that is not internal or
    bookkeeping expires at once. *)
Lemma huge_age_expires `{Blake3} `{Serde ArtifactRecord} `{Serde TreeEntry} `{Chrono} (now days t : Z) (m : kvmap)
    (repo sk : string) (d : bool) (un : option DateTime) (record : ArtifactRecord) :
  (2 ^ 63 ≤ days < 2 ^ 64)%Z → duration_days (days - 2 ^ 64) = Some t → (t < 0)%Z →
  ar_internal record = false → d && is_bookkeeping_path sk = false → (ar_created_at record ≤ now)%Z →
  ∃ cutoff, cutoff_of now (Some days) = Some (Some cutoff) ∧
    expiry_of m repo d (Some cutoff) un sk record = Some MaxAge.
Proof.
  intros Hd Ht Hneg Hint Hbook Hcr. exists (now - t)%Z. unfold cutoff_of.
  replace (i64_wrap days) with (days - 2 ^ 64)%Z.
  - rewrite Ht. split; [done|]. unfold expiry_of. rewrite Hint, Hbook. cbn [orb before from_option].
    rewrite bool_decide_eq_true_2; [done|lia].
  - unfold i64_wrap. rewrite <-(Z.mod_unique (days + 2 ^ 63) (2 ^ 64) 1 (days - 2 ^ 63)); lia.
Qed.

(** ** Witness *)

(** A store all of whose records are under the keys of their paths. *)
Lemma stored_paths_decide `{Blake3} (m : kvmap) (repo : string) :
  map_Forall (λ (k : string * string * string) (_ : bytes * Z), k.1.1 = TABLE_ARTIFACTS →
    artifact_key repo k.2 = k ∧ has_char NUL k.2 = false) m →
  stored_paths m repo.
Proof.
  intros Hm shard sk v Hs Hin. by apply (Hm (TABLE_ARTIFACTS, artifact_shard_pk repo shard, sk) v).
Qed.

Definition toy_policy : RepoConfig := mkRepoConfig 5 "r" Hosted (CRaw None) "s" 0%Z None (Some 1%Z) false.

Definition toy_cleanup_world : world kvmap :=
  mkWorld toy_store ∅ {["s"]} (2 * 86400 * 10 ^ 9)%Z 0 [] false.

Lemma expire_repo_artifacts_exact_witness :
  let _ := toy_blake3 in let _ := toy_ar_serde in let _ := toy_te_serde in let _ := toy_chrono in
  let _ := toy_uuid in
  ∃ counts w', run (expire_repo_artifacts (reverse shard_range) 5 false toy_policy) toy_cleanup_world =
      (Some (Ok counts), w') ∧ w_kv w' !! artifact_key "r" "a/x" = None.
Proof.
  intros ? ? ? ? ?.
  destruct (@expire_repo_artifacts_exact toy_blake3 toy_ar_serde toy_te_serde toy_chrono toy_uuid
    (reverse shard_range) 5 false toy_policy (Some (86400 * 10 ^ 9)%Z) None toy_cleanup_world)
    as (counts & w' & expired & Hr & _ & Hin & _ & Hgone & _).
  - apply reverse_Permutation.
  - apply stored_paths_decide. by_decide.
  - unfold shards_fit. by_decide.
  - reflexivity.
  - vm_compute. reflexivity.
  - reflexivity.
  - exists counts, w'. split; [exact Hr|]. apply (Hgone "a/x"). apply Hin. split; [reflexivity|].
    exists "0", 1%Z, (toy_artifact "a/x" 1), MaxAge. split; [|split]; vm_compute; reflexivity.
Defined.
