(* ===== verification/DockerGc.v ===== *)
(** * Docker collection (server/src/server/worker/blob_reaper/docker_gc.rs)

    A Docker repository keeps layer references, manifests and tags as artifact
    records.  The collector deletes the layer references that no manifest
    mentions and, when the repository asks for it, the manifests that no tag
    reaches.  The theorems say what is never deleted and what is reclaimed. *)

From S2P Require Import Prelude Bytes Errors Keys Records Kv Prog Wp Scan.
From S2P Require Import Pagination Update Artifact Repo Accounts Batches Cleanup BloomFilter.

(** The [serde_json] crate: a parsed document and its accessors. *)
Class SerdeJson := {
  json_value : Type;
  json_from_str : string → option json_value;
  json_get : json_value → string → option json_value;
  json_as_str : json_value → option string;
  json_as_array : json_value → option (list json_value);
}.

(** server/src/server/worker/blob_reaper/mod.rs:58-58 *)
Definition DOCKER_GC_GRACE_SECS : Z := 3600.

(** server/src/server/worker/blob_reaper/docker_gc.rs:55-59 *)
Record ShardResult : Type := mkShardResult {
  sr_manifests : list (string * N * ArtifactRecord);
  sr_blob_refs : list (string * N * DateTime * Z);
  sr_tag_digests : list string;
}.

(** What a path is, in the order in which the collector tests it. *)
Inductive docker_path : Type := PBlobRef | PManifest | PTag | POther.

#[export] Instance docker_path_eq_dec : EqDecision docker_path.
Proof. solve_decision. Defined.

(** server/src/server/worker/blob_reaper/docker_gc.rs:102-114 *)
Definition docker_path_of (path : string) : docker_path :=
  if contains path "/_blobs/" || starts_with path "_blobs/" then PBlobRef
  else if contains path "/_manifests/" || starts_with path "_manifests/" then PManifest
  else if contains path "/_tags/" || starts_with path "_tags/" then PTag
  else POther.

(** server/src/server/worker/blob_reaper/docker_gc.rs:172-180 *)
Definition blob_digest_of (sk : string) : option string :=
  match rsplit_once_str "/_blobs/" sk with
  | Some (_, d) => Some d
  | None => strip_prefix sk "_blobs/"
  end.

(** server/src/server/worker/blob_reaper/docker_gc.rs:214-221 *)
Definition digest_of (sk : string) : option string :=
  match rsplit_once_str "/_manifests/" sk with
  | Some (_, d) => Some d
  | None => strip_prefix sk "_manifests/"
  end.

(** The pushes of the children of a digest; the queue is a stack whose top is
    the head of the list. *)
Definition push_children (reachable : gset string) (children queue : list string) : list string :=
  foldl (λ queue c, if decide (c ∈ reachable) then queue else c :: queue) queue children.

(** The closure of the tags under the children of the manifest lists; [None]
    when the fuel runs out. *)
(** server/src/server/worker/blob_reaper/docker_gc.rs:236-251 *)
Fixpoint reach (fuel : nat) (children_of : gmap string (list string)) (reachable : gset string)
    (queue : list string) : option (gset string) :=
  match fuel with
  | O => None
  | S fuel =>
      match queue with
      | [] => Some reachable
      | d :: queue =>
          if decide (d ∈ reachable) then reach fuel children_of reachable queue
          else
            let reachable := {[d]} ∪ reachable in
            let queue := match children_of !! d with
                         | Some children => push_children reachable children queue
                         | None => queue
                         end in
            reach fuel children_of reachable queue
      end
  end.

(** Every push is a tag or a child of a list that is expanded once. *)
Definition reach_fuel (children_of : gmap string (list string)) (queue : list string) : nat :=
  S (length queue + foldr (λ x n, length x.2 + n) 0 (map_to_list children_of)).

Section docker.
Context `{Blake3} `{Serde ArtifactRecord} `{Chrono} `{SerdeJson} `{BloomCrate}.

(** The digest of an object, if it has one. *)
Definition json_digest (v : json_value) : option string := json_get v "digest" ≫= json_as_str.

(** server/src/server/worker/blob_reaper/docker_gc.rs:292-323 *)
Definition extract_manifest_refs (json : string) : list string :=
  match json_from_str json with
  | None => []
  | Some parsed =>
      let config_refs :=
        match json_get parsed "config" ≫= json_digest with Some digest => [digest] | None => [] end in
      let layer_refs :=
        match json_get parsed "layers" ≫= json_as_array with
        | Some layers => omap json_digest layers
        | None => []
        end in
      let manifest_refs :=
        match json_get parsed "manifests" ≫= json_as_array with
        | Some manifests => omap json_digest manifests
        | None => []
        end in
      config_refs ++ layer_refs ++ manifest_refs
  end.

(** server/src/server/infra/store_registry.rs:64-72 *)
Definition resolve_blob_store (store_name : string) : prog (result string) :=
  let* known := call (EStoreGet store_name) in
  Ret (if (known : bool) then Ok store_name
       else Err (NotFound ("blob store '" +:+ store_name +:+ "' not found"))).

(** server/src/server/worker/blob_reaper/docker_gc.rs:326-343 *)
Definition read_manifest_json (blobs : result string) (record : ArtifactRecord) : prog (option string) :=
  match blobs, ar_blob_id record with
  | Ok store, Some blob_id =>
      if decide (blob_id = "") then Ret None
      else
        let* r := blob store (BGet blob_id) in
        Ret (match r with Ok (Some data) => from_utf8 data | _ => None end)
  | _, _ => Ret None
  end.

(** server/src/server/worker/blob_reaper/docker_gc.rs:95-115 *)
Definition classify_item (shard : N) (sr : ShardResult) (item : string * bytes) : ShardResult :=
  let '(sk, value) := item in
  match from_slice value with
  | inl _ => sr
  | inr record =>
      match docker_path_of sk with
      | PBlobRef => mkShardResult (sr_manifests sr)
          (sr_blob_refs sr ++ [(sk, shard, ar_created_at record, ar_size record)]) (sr_tag_digests sr)
      | PManifest => mkShardResult (sr_manifests sr ++ [(sk, shard, record)]) (sr_blob_refs sr) (sr_tag_digests sr)
      | PTag => mkShardResult (sr_manifests sr) (sr_blob_refs sr)
          (sr_tag_digests sr ++ match ar_kind record with KDockerTag digest _ => [digest] | _ => [] end)
      | POther => sr
      end
  end.

(** server/src/server/worker/blob_reaper/docker_gc.rs:62-129 *)
Definition docker_shard (fuel : nat) (cancel : bool) (repo : string) (shard : N) : prog (result ShardResult) :=
  let pk := artifact_shard_pk repo shard in
  scan_batches fuel "Docker GC cancelled" cancel TABLE_ARTIFACTS pk
    (λ sr items, Ret (Ok (foldl (classify_item shard) sr items))) None (mkShardResult [] [] []).

(** The references of every readable manifest go into the filter. *)
(** server/src/server/worker/blob_reaper/docker_gc.rs:155-161 *)
Fixpoint fill_layers (blobs : result string) (manifests : list (string * N * ArtifactRecord)) (layer_bf : Bloom) :
    prog Bloom :=
  match manifests with
  | [] => Ret layer_bf
  | (_, _, record) :: manifests =>
      let* json := read_manifest_json blobs record in
      fill_layers blobs manifests
        (match json with
         | Some json => foldl bloom_set layer_bf (extract_manifest_refs json)
         | None => layer_bf
         end)
  end.

(** server/src/server/worker/blob_reaper/docker_gc.rs:163-186 *)
Definition layer_deletions (grace_cutoff : DateTime) (layer_bf : Bloom)
    (blob_refs : list (string * N * DateTime * Z)) : list (string * Z) :=
  omap (λ '(sk, _, created_at, size),
    if decide (grace_cutoff < created_at)%Z then None
    else match blob_digest_of sk with
         | None => None
         | Some digest => if bloom_check layer_bf digest then None else Some (sk, size)
         end) blob_refs.

Definition is_list_type (ct : string) : bool := contains ct "manifest.list" || contains ct "image.index".

(** The children of the manifest lists that are present and readable. *)
(** server/src/server/worker/blob_reaper/docker_gc.rs:223-234 *)
Fixpoint collect_children (blobs : result string) (manifests : list (string * N * ArtifactRecord))
    (children_of : gmap string (list string)) : prog (gmap string (list string)) :=
  match manifests with
  | [] => Ret children_of
  | (sk, _, record) :: manifests =>
      if is_list_type (ar_content_type record) then
        let* json := read_manifest_json blobs record in
        collect_children blobs manifests
          (match digest_of sk, json with
           | Some digest, Some json => <[digest := extract_manifest_refs json]> children_of
           | _, _ => children_of
           end)
      else collect_children blobs manifests children_of
  end.

(** server/src/server/worker/blob_reaper/docker_gc.rs:253-270 *)
Definition manifest_deletions (grace_cutoff : DateTime) (reachable : gset string)
    (manifests : list (string * N * ArtifactRecord)) : list (string * Z) :=
  omap (λ '(sk, _, record),
    if decide (grace_cutoff < ar_created_at record)%Z then None
    else match digest_of sk with
         | None => None
         | Some digest => if decide (digest ∈ reachable) then None else Some (sk, ar_size record)
         end) manifests.

Fixpoint send_deleted (repo : string) (entries : list (string * Z)) : prog unit :=
  match entries with
  | [] => Ret tt
  | (sk, size) :: entries =>
      let* _ := dir_changed repo sk (-1) (i64_neg (i64_wrap size)) in
      send_deleted repo entries
  end.

(** The deletion of the records of a phase; the number of records deleted. *)
(** server/src/server/worker/blob_reaper/docker_gc.rs:262-283 *)
Definition delete_phase (repo : string) (dry_run : bool) (dels : list (string * Z)) : prog (result Z) :=
  if decide (dels = []) then Ret (Ok 0%Z)
  else if dry_run then Ret (Ok 0%Z)
  else
    let*? _ := delete_artifacts_paired_batch repo dels.*1 in
    let* _ := send_deleted repo dels in
    Ret (Ok (Z.of_nat (length dels))).

(** [schedule] is the order in which the shards complete. *)
(** server/src/server/worker/blob_reaper/docker_gc.rs:40-287 *)
Definition docker_gc (schedule : list N) (fuel : nat) (repo : RepoConfig) (dry_run cancel : bool) :
    prog (result Z) :=
  let repo_name := rc_name repo in
  let* now := call ENow in
  match duration_seconds (i64_wrap DOCKER_GC_GRACE_SECS) with
  | None => Spin
  | Some grace =>
      let grace_cutoff := (now - grace)%Z in
      let*? shard_results := try_for schedule (docker_shard fuel cancel repo_name) in
      let manifests := concat (sr_manifests <$> shard_results) in
      let blob_refs := concat (sr_blob_refs <$> shard_results) in
      let tag_digests := concat (sr_tag_digests <$> shard_results) in
      let* blobs := resolve_blob_store (rc_store repo) in
      let manifest_count := Nat.max (length manifests) 1 in
      match new_for_fp_rate (manifest_count * 10) with
      | inl e => Ret (Err (Internal ("bloom filter: " +:+ e)))
      | inr layer_bf =>
          let* layer_bf := fill_layers blobs manifests layer_bf in
          let*? deleted := delete_phase repo_name dry_run (layer_deletions grace_cutoff layer_bf blob_refs) in
          if config_cleanup_untagged_manifests (rc_format_config repo) then
            let* children_of := collect_children blobs manifests ∅ in
            let queue := reverse tag_digests in
            match reach (reach_fuel children_of queue) children_of ∅ queue with
            | None => Spin
            | Some reachable =>
                let*? deleted_manifests := delete_phase repo_name dry_run
                  (manifest_deletions grace_cutoff reachable manifests) in
                Ret (Ok (u64_add deleted deleted_manifests))
            end
          else Ret (Ok deleted)
      end
  end.
End docker.

(** [clean_repo_artifacts]: expiry, then the Docker collection.  [schedule1] and
    [schedule2] are the orders in which the shards complete. *)
(** server/src/server/worker/blob_reaper/repo_cleanup.rs:280-317 *)
Definition clean_repo_artifacts `{Blake3} `{Serde ArtifactRecord} `{Serde TreeEntry} `{Chrono} `{SerdeJson}
    `{BloomCrate} (schedule1 schedule2 : list N) (fuel : nat) (repo : RepoConfig) (cancel progress_tx : bool) :
    prog (result RepoCleanStats) :=
  let*? counts := expire_repo_artifacts schedule1 fuel cancel repo in
  let '(scanned_artifacts, scanned_bytes, expired_artifacts) := counts in
  let* _ := send_progress progress_tx (λ p,
    mkTaskProgress (tp_total_repos p) (tp_completed_repos p) (tp_total_blobs p) scanned_artifacts
      (tp_failed_blobs p) scanned_bytes (tp_total_bytes p) (tp_total_artifacts p) (tp_checked_artifacts p) (tp_phase p)) in
  let* cancelled := is_cancelled cancel in
  if (cancelled : bool) then Ret (Err (Internal "Repo clean cancelled"))
  else
    let*? docker_deleted :=
      if decide (repo_format repo = FDocker) then docker_gc schedule2 fuel repo false cancel else Ret (Ok 0%Z) in
    Ret (Ok (mkRepoCleanStats scanned_artifacts expired_artifacts docker_deleted)).

(** ** The closure *)

Section reach.
Implicit Types (children : gmap string (list string)) (R : gset string) (q : list string).

(** The children that lists outside [R] may still push. *)
Definition weight (l : list (string * list string)) R : nat :=
  foldr (λ x n, (if decide (x.1 ∈ R) then 0 else length x.2) + n) 0 l.

Lemma weight_empty l : weight l ∅ = foldr (λ x n, length x.2 + n) 0 l.
Proof.
  unfold weight. induction l as [|x l IH]; cbn [foldr]; [done|].
  rewrite decide_False by set_solver. by rewrite IH.
Qed.

Lemma weight_le l d R : weight l ({[d]} ∪ R) ≤ weight l R.
Proof.
  unfold weight. induction l as [|x l IH]; cbn [foldr]; [done|].
  destruct (decide (x.1 ∈ {[d]} ∪ R)), (decide (x.1 ∈ R)); try lia. set_solver.
Qed.

Lemma weight_add l d cs R : NoDup l.*1 → (d, cs) ∈ l → d ∉ R →
  weight l ({[d]} ∪ R) + length cs ≤ weight l R.
Proof.
  unfold weight. intros Hnd Hin Hd. induction l as [|x l IH]; [by apply elem_of_nil in Hin|].
  cbn [fmap list_fmap foldr] in *. apply NoDup_cons in Hnd as [Hx Hnd].
  apply elem_of_cons in Hin as [<-|Hin]; cbn [fst snd] in *.
  - rewrite decide_True by set_solver. rewrite decide_False by done. pose proof (weight_le l d R) as Hle.
    unfold weight in Hle. lia.
  - specialize (IH Hnd Hin). destruct (decide (x.1 ∈ {[d]} ∪ R)), (decide (x.1 ∈ R)); try lia. set_solver.
Qed.

Lemma elem_of_push_children R cs q x :
  (x ∈ push_children R cs q → x ∈ cs ∨ x ∈ q) ∧ (x ∈ q ∨ (x ∈ cs ∧ x ∉ R) → x ∈ push_children R cs q).
Proof.
  revert q. unfold push_children. induction cs as [|c cs IH]; intros q; cbn [foldl]; [set_solver|].
  destruct (IH (if decide (c ∈ R) then q else c :: q)) as [IH1 IH2]. case_decide; set_solver.
Qed.

Lemma length_push_children R cs q : length (push_children R cs q) ≤ length cs + length q.
Proof.
  revert q. unfold push_children. induction cs as [|c cs IH]; intros q; cbn [foldl length]; [lia|].
  specialize (IH (if decide (c ∈ R) then q else c :: q)). case_decide; cbn [length] in IH; lia.
Qed.

Definition child children (x c : string) : Prop := c ∈ default [] (children !! x).

Lemma reach_spec fuel children R q :
  length q + weight (map_to_list children) R < fuel →
  (∀ x c, x ∈ R → child children x c → c ∈ R ∨ c ∈ q) →
  ∃ R', reach fuel children R q = Some R' ∧ R ⊆ R' ∧ (∀ x, x ∈ q → x ∈ R') ∧
    (∀ x c, x ∈ R' → child children x c → c ∈ R') ∧
    ∀ P : string → Prop, (∀ x, x ∈ R ∨ x ∈ q → P x) → (∀ x c, P x → child children x c → P c) → ∀ x, x ∈ R' → P x.
Proof.
  revert R q. induction fuel as [|fuel IH]; intros R q Hf Hcl; [lia|]. cbn [reach].
  destruct q as [|d q].
  { exists R. split_and!; [done|done|by intros ? ?%elem_of_nil| |auto].
    intros x c Hx Hc. destruct (Hcl x c Hx Hc) as [|?%elem_of_nil]; done. }
  cbn [length] in Hf. destruct (decide (d ∈ R)) as [Hd|Hd].
  - destruct (IH R q) as (R' & Hr & Hsub & Hq & Hcl' & HP); [lia| |].
    { intros x c Hx Hc. destruct (Hcl x c Hx Hc) as [|[->|?]%elem_of_cons]; auto. }
    exists R'. split_and!; [done|done| |done|].
    + intros x [->|Hx]%elem_of_cons; auto.
    + intros P HRq HPc. apply HP; [|done]. intros x Hx. apply HRq. destruct Hx; [auto|right; by right].
  - set (q' := match children !! d with Some children => push_children ({[d]} ∪ R) children q | None => q end).
    assert (Hq' : ∀ x, (x ∈ q' → x ∈ q ∨ child children d x) ∧
      (x ∈ q ∨ (child children d x ∧ x ∉ {[d]} ∪ R) → x ∈ q')).
    { intros x. unfold q', child. destruct (children !! d) as [cs|] eqn:Hcs; cbn [default from_option].
      - destruct (elem_of_push_children ({[d]} ∪ R) cs q x). unfold id. tauto.
      - split; [tauto|]. intros [?|[?%elem_of_nil _] ]; done. }
    destruct (IH ({[d]} ∪ R) q') as (R' & Hr & Hsub & Hq & Hcl' & HP).
    { assert (length q' + weight (map_to_list children) ({[d]} ∪ R) ≤ length q + weight (map_to_list children) R); [|lia].
      unfold q'. destruct (children !! d) as [cs|] eqn:Hcs.
      - pose proof (weight_add (map_to_list children) d cs R (NoDup_fst_map_to_list _)
          (proj2 (elem_of_map_to_list _ _ _) Hcs) Hd). pose proof (length_push_children ({[d]} ∪ R) cs q). lia.
      - pose proof (weight_le (map_to_list children) d R). lia. }
    { intros x c Hx Hc. destruct (decide (c ∈ {[d]} ∪ R)) as [|Hn]; [by left|]. right.
      apply elem_of_union in Hx as [->%elem_of_singleton|Hx].
      - apply Hq'. by right.
      - destruct (Hcl x c Hx Hc) as [?|[->|?]%elem_of_cons]; [set_solver|set_solver|]. apply Hq'. by left. }
    exists R'. split_and!; [done|set_solver| |done|].
    + intros x [->|Hx]%elem_of_cons; [set_solver|]. apply Hq, Hq'. by left.
    + intros P HRq HPc. apply HP; [|done]. intros x [Hx|Hx].
      * apply elem_of_union in Hx as [->%elem_of_singleton|Hx]; apply HRq; [right; by left|by left].
      * destruct (proj1 (Hq' x) Hx) as [?|Hc]; [apply HRq; right; by right|].
        apply (HPc d); [|done]. apply HRq. right. by left.
Qed.

(** The result is the set of what the tags reach. *)
Lemma reach_exact children q :
  ∃ R, reach (reach_fuel children q) children ∅ q = Some R ∧
    ∀ x, x ∈ R ↔ ∃ t, t ∈ q ∧ rtc (child children) t x.
Proof.
  destruct (reach_spec (reach_fuel children q) children ∅ q) as (R & Hr & _ & Hq & Hcl & HP).
  - unfold reach_fuel. rewrite weight_empty. lia.
  - set_solver.
  - exists R. split; [done|]. intros x. split.
    + revert x. apply HP.
      * intros x [?|Hx]; [set_solver|]. exists x. by split.
      * intros x c (t & Ht & Htx) Hc. exists t. split; [done|]. by eapply rtc_r.
    + intros (t & Ht & Htx). apply Hq in Ht. induction Htx as [|x y z Hxy _ IH]; [done|]. eauto.
Qed.
End reach.

(** ** What the collector reads *)

Section plan.
Context `{Blake3} `{Serde ArtifactRecord} `{Serde TreeEntry} `{Chrono} `{SerdeJson} `{BloomCrate} `{UuidGen}.
Implicit Types (m : kvmap) (w : world kvmap).

(** The manifest document of a record, when it can be read. *)
Definition manifest_json w (store : string) (record : ArtifactRecord) : option string :=
  if decide (store ∈ w_stores w) then
    match ar_blob_id record with
    | Some blob_id => if decide (blob_id = "") then None else w_blobs w !! (store, blob_id) ≫= from_utf8
    | None => None
    end
  else None.

Definition manifest_refs w (store : string) (record : ArtifactRecord) : list string :=
  match manifest_json w store record with Some json => extract_manifest_refs json | None => [] end.

Definition resolved w (store : string) : result string :=
  if bool_decide (store ∈ w_stores w) then Ok store
  else Err (NotFound ("blob store '" +:+ store +:+ "' not found")).

Lemma run_read_manifest w store record :
  run (read_manifest_json (resolved w store) record) w = (Some (manifest_json w store record), w).
Proof.
  unfold read_manifest_json, manifest_json, resolved. case_bool_decide as Hs; [rewrite decide_True by done|by rewrite decide_False].
  destruct (ar_blob_id record) as [id|]; [|done]. case_decide; [done|]. rewrite run_bind. cbn.
  by destruct (w_blobs w !! (store, id)).
Qed.

Lemma run_fill_layers w store manifests bf :
  run (fill_layers (resolved w store) manifests bf) w =
    (Some (foldl bloom_set bf (manifests ≫= λ x, manifest_refs w store x.2)), w).
Proof.
  revert bf. induction manifests as [|[ [sk s] record] l IH]; intros bf; [done|]. cbn [fill_layers].
  rewrite run_bind, run_read_manifest, IH. cbn [mbind list_bind]. rewrite foldl_app. cbn [snd].
  unfold manifest_refs at 2. by destruct (manifest_json w store record).
Qed.

(** The children of the readable manifest lists. *)
Definition list_children w (store : string) (x : string * N * ArtifactRecord) : option (string * list string) :=
  if is_list_type (ar_content_type x.2) then
    match digest_of x.1.1, manifest_json w store x.2 with
    | Some digest, Some json => Some (digest, extract_manifest_refs json)
    | _, _ => None
    end
  else None.

Definition children_map w (store : string) (manifests : list (string * N * ArtifactRecord))
    (children_of : gmap string (list string)) : gmap string (list string) :=
  foldl (λ (c : gmap string (list string)) x, <[x.1 := x.2]> c) children_of (omap (list_children w store) manifests).

Lemma run_collect_children w store manifests children_of :
  run (collect_children (resolved w store) manifests children_of) w =
    (Some (children_map w store manifests children_of), w).
Proof.
  revert children_of. induction manifests as [|[ [sk s] record] l IH]; intros c; [done|].
  cbn [collect_children]. unfold children_map. cbn [omap list_omap]. unfold list_children at 1. cbn [fst snd].
  destruct (is_list_type (ar_content_type record)); [|apply IH].
  rewrite run_bind, run_read_manifest, IH. destruct (digest_of sk), (manifest_json w store record); done.
Qed.

(** A child in the map comes from a manifest list, and is there when all lists
    of its digest agree. *)
Lemma children_map_lookup w store manifests d c :
  child (children_map w store manifests ∅) d c →
    ∃ x, x ∈ manifests ∧ ∃ cs, list_children w store x = Some (d, cs) ∧ c ∈ cs.
Proof.
  assert (∀ (l : list (string * list string)) (c0 : gmap string (list string)) cs,
    foldl (λ (c : gmap string (list string)) x, <[x.1 := x.2]> c) c0 l !! d = Some cs → (d, cs) ∈ l ∨ c0 !! d = Some cs) as Hl.
  { induction l as [|[d' cs'] l IH]; intros c0 cs Hcs; cbn [foldl fst snd] in *; [by right|].
    destruct (IH _ _ Hcs) as [Hin|Hin]; [left; by right|]. apply lookup_insert_Some in Hin as [ [<- <-]|[_ Hin] ]; [left; left|by right]. }
  unfold child, children_map. intros Hc. destruct (_ !! d) as [cs|] eqn:Hcs; [|by apply elem_of_nil in Hc].
  apply Hl in Hcs as [Hin|Hin]; [|done]. apply list_elem_of_omap in Hin as (x & Hx & Hin). by exists x; eauto.
Qed.

Lemma children_map_complete w store manifests x d cs :
  x ∈ manifests → list_children w store x = Some (d, cs) →
  (∀ y cs', y ∈ manifests → list_children w store y = Some (d, cs') → cs' = cs) →
  children_map w store manifests ∅ !! d = Some cs.
Proof.
  intros Hx Hd Hagree. unfold children_map.
  assert ((d, cs) ∈ omap (list_children w store) manifests) as Hin by (apply list_elem_of_omap; eauto).
  assert (∀ cs', (d, cs') ∈ omap (list_children w store) manifests → cs' = cs) as Hag.
  { intros cs' (y & Hy & Hl)%list_elem_of_omap. by apply (Hagree y). }
  revert Hin Hag. generalize (omap (list_children w store) manifests). intros l.
  induction l as [|[d' cs'] l IH] using rev_ind; [by intros ?%elem_of_nil|].
  intros Hin Hag. rewrite foldl_app. cbn [foldl fst snd]. destruct (decide (d' = d)) as [->|Hne].
  - rewrite lookup_insert_eq. f_equal. apply Hag. apply elem_of_app. right. by left.
  - rewrite lookup_insert_ne by done. apply IH.
    + apply elem_of_app in Hin as [?|[= -> _]%list_elem_of_singleton]; done.
    + intros cs2 Hin2. apply Hag. apply elem_of_app. by left.
Qed.

(** The classification of the entries of a shard. *)
Definition manifest_item (shard : N) (x : string * bytes) : option (string * N * ArtifactRecord) :=
  match from_slice x.2 with
  | inr record => if decide (docker_path_of x.1 = PManifest) then Some (x.1, shard, record) else None
  | inl _ => None
  end.
Definition blob_ref_item (shard : N) (x : string * bytes) : option (string * N * DateTime * Z) :=
  match from_slice x.2 with
  | inr record => if decide (docker_path_of x.1 = PBlobRef) then Some (x.1, shard, ar_created_at record, ar_size record) else None
  | inl _ => None
  end.
Definition tag_item (x : string * bytes) : option string :=
  match from_slice x.2 with
  | inr record => if decide (docker_path_of x.1 = PTag)
                  then match ar_kind record with KDockerTag digest _ => Some digest | _ => None end else None
  | inl _ => None
  end.
Definition classified (shard : N) (l : list (string * bytes)) : ShardResult :=
  mkShardResult (omap (manifest_item shard) l) (omap (blob_ref_item shard) l) (omap tag_item l).

Lemma classify_snoc shard l x : classify_item shard (classified shard l) x = classified shard (l ++ [x]).
Proof.
  destruct x as [sk v]. unfold classified. rewrite !omap_app. cbn [omap list_omap].
  unfold classify_item, manifest_item, blob_ref_item, tag_item. cbn [fst snd sr_manifests sr_blob_refs sr_tag_digests].
  destruct (from_slice v) as [e|record]; [by rewrite !app_nil_r|].
  destruct (docker_path_of sk); cbn; rewrite ?app_nil_r; try done. by destruct (ar_kind record).
Qed.

Lemma classify_all shard l1 l2 :
  foldl (classify_item shard) (classified shard l1) l2 = classified shard (l1 ++ l2).
Proof.
  revert l1. induction l2 as [|x l2 IH]; intros l1; cbn [foldl]; [by rewrite app_nil_r|].
  rewrite classify_snoc, IH. by rewrite <-(assoc_L (++)).
Qed.

Lemma run_docker_shard fuel cancel repo shard w :
  length (entries (w_kv w) TABLE_ARTIFACTS (artifact_shard_pk repo shard) "") < fuel →
  cancel && w_cancelled w = false →
  run (docker_shard fuel cancel repo shard) w =
    (Some (Ok (classified shard (entries (w_kv w) TABLE_ARTIFACTS (artifact_shard_pk repo shard) ""))), w).
Proof.
  intros Hf Hc. set (l := entries _ _ _ _) in *.
  enough (wp (docker_shard fuel cancel repo shard) w (λ r w', r = Ok (classified shard l) ∧ w' = w)) as Hwp.
  { apply wp_run in Hwp as (r & w' & Hr & -> & ->). done. }
  unfold docker_shard. cbv zeta.
  apply wp_scan_batches with (I := λ rem st w', ∃ dn, l = dn ++ rem ∧ st = classified shard dn ∧ w' = w).
  - cbn [default from_option]. by rewrite entries_from_start.
  - cbn [default from_option]. rewrite entries_from_start. by exists [].
  - intros batch rem st w1 (dn & Hdn & -> & ->) _. apply wp_ret. split; [done|]. exists (dn ++ batch).
    rewrite classify_all. by rewrite <-(assoc_L (++)).
  - intros st w1 (dn & Hdn & -> & ->). rewrite app_nil_r in Hdn. by subst.
  - intros rem st w1 (dn & _ & _ & ->) Hcc. congruence.
Qed.

Lemma run_docker_shards schedule fuel cancel repo w :
  schedule ≡ₚ shard_range → shards_fit (w_kv w) repo fuel → cancel && w_cancelled w = false →
  run (try_for schedule (docker_shard fuel cancel repo)) w =
    (Some (Ok ((λ s, classified s (entries (w_kv w) TABLE_ARTIFACTS (artifact_shard_pk repo s) "")) <$> schedule)), w).
Proof.
  intros Hsch Hfit Hc. apply (run_try_for_pure _
    (λ s, classified s (entries (w_kv w) TABLE_ARTIFACTS (artifact_shard_pk repo s) ""))).
  intros s Hs. apply run_docker_shard; [|done]. unfold shards_fit in Hfit. rewrite Forall_forall in Hfit.
  apply Hfit. by rewrite <-Hsch.
Qed.

Lemma run_send_deleted repo entries w :
  ∃ w', run (send_deleted repo entries) w = (Some tt, w') ∧ w_kv w' = w_kv w ∧ same_env w w'.
Proof.
  revert w. induction entries as [|[sk size] entries IH]; intros w; [by exists w|].
  cbn [send_deleted]. rewrite run_bind. unfold dir_changed. cbn [bind call run handle].
  set (ev := EvDir _). destruct (IH (push_sent ev w)) as (w' & Hr & Hk & He). by exists w'.
Qed.

Lemma wp_delete_phase repo dry_run dels w :
  wp (delete_phase repo dry_run dels) w (λ r w',
    r = Ok (if dry_run then 0%Z else Z.of_nat (length dels)) ∧
    purged repo (if dry_run then [] else dels.*1) (w_kv w) (w_kv w') ∧ same_env w w').
Proof.
  unfold delete_phase. case_decide as Hd.
  { subst. apply wp_ret. destruct dry_run; (split_and!; [done|apply purged_nil|done]). }
  destruct dry_run; [apply wp_ret; split_and!; [done|apply purged_nil|done]|].
  apply wp_bind_ok. destruct (run_delete_paired w repo dels.*1) as (m' & Hr & Hp).
  eapply wp_intro; [exact Hr|]. apply wp_bind.
  destruct (run_send_deleted repo dels (set_kv m' w)) as (w' & Hr' & Hk & He).
  eapply wp_intro; [exact Hr'|]. apply wp_ret. split; [done|]. split; [|done]. by rewrite Hk.
Qed.

(** The classified records of a repository. *)
Definition docker_manifests m (repo : string) (schedule : list N) : list (string * N * ArtifactRecord) :=
  concat ((λ s, omap (manifest_item s) (entries m TABLE_ARTIFACTS (artifact_shard_pk repo s) "")) <$> schedule).
Definition docker_blob_refs m (repo : string) (schedule : list N) : list (string * N * DateTime * Z) :=
  concat ((λ s, omap (blob_ref_item s) (entries m TABLE_ARTIFACTS (artifact_shard_pk repo s) "")) <$> schedule).
Definition docker_tags m (repo : string) (schedule : list N) : list string :=
  concat ((λ s, omap tag_item (entries m TABLE_ARTIFACTS (artifact_shard_pk repo s) "")) <$> schedule).

Definition has_record m (repo path : string) (record : ArtifactRecord) : Prop :=
  (artifact_key repo path).2 = path ∧
  ∃ b ver, m !! artifact_key repo path = Some (b, ver) ∧ from_slice b = inr record.

Lemma elem_of_shards {X : Type} (f : N → string * bytes → option X) m repo schedule x :
  stored_paths m repo → schedule ≡ₚ shard_range →
  x ∈ concat ((λ s, omap (f s) (entries m TABLE_ARTIFACTS (artifact_shard_pk repo s) "")) <$> schedule) ↔
    ∃ path b, (artifact_key repo path).2 = path ∧ (∃ ver, m !! artifact_key repo path = Some (b, ver)) ∧
      f (shard_of path) (path, b) = Some x.
Proof.
  intros Hm Hsch. rewrite elem_of_concat_fmap. split.
  - intros (s & Hs & ([path b] & Hin & Hf)%list_elem_of_omap). rewrite Hsch in Hs.
    destruct (stored_paths_elem m repo s (path, b) Hm Hs Hin) as [Hk [Hp _] ]. cbn [fst] in *.
    assert (s = shard_of path) as ->.
    { unfold artifact_key in Hk, Hp. cbn [snd] in Hp. rewrite Hp in Hk. injection Hk as Hk.
      by apply scoped_pk_inj in Hk as [_ Hk]. }
    exists path, b. split_and!; [done| |done]. apply elem_of_entries in Hin as (_ & ver & Hin). exists ver. by rewrite Hk.
  - intros (path & b & Hp & (ver & Hin) & Hf). exists (shard_of path). rewrite Hsch. split; [apply shard_of_in_range|].
    apply list_elem_of_omap. exists (path, b). split; [|done]. apply elem_of_entries. split; [apply starts_with_nil|].
    exists ver. unfold artifact_key in Hp, Hin. cbn [snd] in Hp. by rewrite Hp in Hin.
Qed.

Lemma elem_of_docker_manifests m repo schedule path s record : stored_paths m repo → schedule ≡ₚ shard_range →
  (path, s, record) ∈ docker_manifests m repo schedule ↔
    s = shard_of path ∧ has_record m repo path record ∧ docker_path_of path = PManifest.
Proof.
  intros Hm Hsch. unfold docker_manifests. rewrite (elem_of_shards manifest_item) by done.
  unfold manifest_item, has_record. split.
  - intros (p & b & Hp & (ver & Hin) & Hf). cbn [fst snd] in Hf. destruct (from_slice b) eqn:Hb; [done|].
    case_decide; [|done]. simplify_eq. split_and!; [done|done| |done]. by exists b, ver.
  - intros (-> & (Hp & b & ver & Hin & Hb) & Hd). exists path, b. split_and!; [done|by exists ver|].
    cbn [fst snd]. by rewrite Hb, decide_True.
Qed.

Lemma elem_of_docker_blob_refs m repo schedule path s t size : stored_paths m repo → schedule ≡ₚ shard_range →
  (path, s, t, size) ∈ docker_blob_refs m repo schedule ↔
    s = shard_of path ∧ docker_path_of path = PBlobRef ∧
    ∃ record, has_record m repo path record ∧ t = ar_created_at record ∧ size = ar_size record.
Proof.
  intros Hm Hsch. unfold docker_blob_refs. rewrite (elem_of_shards blob_ref_item) by done.
  unfold blob_ref_item, has_record. split.
  - intros (p & b & Hp & (ver & Hin) & Hf). cbn [fst snd] in Hf. destruct (from_slice b) as [|record] eqn:Hb; [done|].
    case_decide; [|done]. simplify_eq. split_and!; [done|done|]. exists record. split_and!; [done| |done|done]. by exists b, ver.
  - intros (-> & Hd & record & (Hp & b & ver & Hin & Hb) & -> & ->). exists path, b. split_and!; [done|by exists ver|].
    cbn [fst snd]. by rewrite Hb, decide_True.
Qed.

Lemma elem_of_docker_tags m repo schedule t : stored_paths m repo → schedule ≡ₚ shard_range →
  t ∈ docker_tags m repo schedule ↔
    ∃ path record tag, has_record m repo path record ∧ docker_path_of path = PTag ∧ ar_kind record = KDockerTag t tag.
Proof.
  intros Hm Hsch. unfold docker_tags. rewrite (elem_of_shards (λ _, tag_item)) by done.
  unfold tag_item, has_record. split.
  - intros (p & b & Hp & (ver & Hin) & Hf). cbn [fst snd] in Hf. destruct (from_slice b) as [|record] eqn:Hb; [done|].
    case_decide; [|done]. destruct (ar_kind record) eqn:Hk; simplify_eq. exists p, record, tag. split_and!; [done| |done|done].
    by exists b, ver.
  - intros (path & record & tag & (Hp & b & ver & Hin & Hb) & Hd & Hk). exists path, b. split_and!; [done|by exists ver|].
    cbn [fst snd]. by rewrite Hb, decide_True, Hk.
Qed.

(** The references that the readable manifests make, and the tag closure. *)
Definition layer_filter w (store : string) (manifests : list (string * N * ArtifactRecord)) (bf : Bloom) : Bloom :=
  foldl bloom_set bf (manifests ≫= λ x, manifest_refs w store x.2).

Lemma docker_gc_spec schedule fuel repo dry_run cancel grace w :
  let m := w_kv w in let name := rc_name repo in
  let manifests := docker_manifests m name schedule in
  let cutoff := (w_now w - grace)%Z in
  schedule ≡ₚ shard_range → shards_fit m name fuel → cancel && w_cancelled w = false →
  duration_seconds (i64_wrap DOCKER_GC_GRACE_SECS) = Some grace →
  wp (docker_gc schedule fuel repo dry_run cancel) w (λ r w', same_env w w' ∧
    match new_for_fp_rate (Nat.max (length manifests) 1 * 10) with
    | inl e => r = Err (Internal ("bloom filter: " +:+ e)) ∧ w_kv w' = m
    | inr bf => is_ok r = true ∧ ∃ R : gset string,
        (∀ x, x ∈ R ↔ ∃ t, t ∈ docker_tags m name schedule ∧
          rtc (child (children_map w (rc_store repo) manifests ∅)) t x) ∧
        purged name (if dry_run then [] else
          (layer_deletions cutoff (layer_filter w (rc_store repo) manifests bf) (docker_blob_refs m name schedule)).*1 ++
          (if config_cleanup_untagged_manifests (rc_format_config repo)
           then (manifest_deletions cutoff R manifests).*1 else [])) m (w_kv w')
    end).
Proof.
  intros m name manifests cutoff Hsch Hfit Hc Hg. unfold docker_gc. cbv zeta. fold name.
  apply wp_bind, wp_call. change (handle ENow w) with (w_now w, w). cbn [fst snd]. rewrite Hg.
  apply wp_bind_ok. eapply wp_intro; [by apply run_docker_shards|].
  cbv beta iota zeta. rewrite <-!list_fmap_compose.
  change (concat (sr_manifests ∘ _ <$> schedule)) with manifests.
  change (concat (sr_blob_refs ∘ _ <$> schedule)) with (docker_blob_refs m name schedule).
  change (concat (sr_tag_digests ∘ _ <$> schedule)) with (docker_tags m name schedule).
  apply wp_bind. apply wp_intro with (a := resolved w (rc_store repo)) (w' := w); [done|].
  destruct (new_for_fp_rate _) as [e|bf]; [by apply wp_ret|].
  apply wp_bind. eapply wp_intro; [apply run_fill_layers|].
  apply wp_bind_ok. eapply wp_mono; [apply wp_delete_phase|]. intros r1 w1 (-> & Hp1 & He1). fold cutoff in Hp1 |- *.
  change (foldl bloom_set bf _) with (layer_filter w (rc_store repo) manifests bf) in Hp1 |- *.
  destruct (reach_exact (children_map w (rc_store repo) manifests ∅) (reverse (docker_tags m name schedule)))
    as (R & HR & HRx).
  assert (∀ x, x ∈ R ↔ ∃ t, t ∈ docker_tags m name schedule ∧ rtc (child (children_map w (rc_store repo) manifests ∅)) t x) as HRt.
  { intros x. rewrite HRx. by setoid_rewrite elem_of_reverse. }
  destruct (config_cleanup_untagged_manifests (rc_format_config repo)).
  - assert (run (collect_children (resolved w (rc_store repo)) manifests ∅) w1 =
      (Some (children_map w (rc_store repo) manifests ∅), w1)) as Hrun.
    { destruct He1 as (Hb & Hs & _).
      replace (resolved w (rc_store repo)) with (resolved w1 (rc_store repo)) by (unfold resolved; by rewrite Hs).
      rewrite run_collect_children. do 2 f_equal. unfold children_map, list_children, manifest_json. by rewrite Hb, Hs. }
    apply wp_bind. eapply wp_intro; [exact Hrun|]. rewrite HR.
    apply wp_bind_ok. eapply wp_mono; [apply wp_delete_phase|]. intros r2 w2 (-> & Hp2 & He2).
    apply wp_ret. split; [by eapply same_env_trans|]. split; [done|]. exists R. split; [done|].
    destruct dry_run; [by eapply (purged_app _ [] [])|by eapply purged_app].
  - apply wp_ret. split; [done|]. split; [done|]. exists R. split; [done|].
    destruct dry_run; [done|by rewrite app_nil_r].
Qed.
End plan.

(** ** Properties *)

Section properties.
Context `{Blake3} `{Serde ArtifactRecord} `{Serde TreeEntry} `{Chrono} `{SerdeJson} `{BloomCrate} `{UuidGen}.
Implicit Types (m : kvmap) (w : world kvmap).

(** A manifest of the repository that can be read. *)
Definition readable_manifest w (repo : RepoConfig) (path : string) (record : ArtifactRecord) (json : string) : Prop :=
  has_record (w_kv w) (rc_name repo) path record ∧ docker_path_of path = PManifest ∧
  manifest_json w (rc_store repo) record = Some json.

(** Some readable manifest mentions the layer. *)
Definition layer_referenced w (repo : RepoConfig) (d : string) : Prop :=
  ∃ path record json, readable_manifest w repo path record json ∧ d ∈ extract_manifest_refs json.

(** The manifest list [x] mentions the manifest [c]. *)
Definition list_child w (repo : RepoConfig) (x c : string) : Prop :=
  ∃ path record json, readable_manifest w repo path record json ∧ is_list_type (ar_content_type record) = true ∧
    digest_of path = Some x ∧ c ∈ extract_manifest_refs json.

(** Some tag reaches the manifest through manifest lists. *)
Definition tag_reaches w (repo : RepoConfig) (d : string) : Prop :=
  ∃ path record t tag, has_record (w_kv w) (rc_name repo) path record ∧ docker_path_of path = PTag ∧
    ar_kind record = KDockerTag t tag ∧ rtc (list_child w repo) t d.

(** A digest identifies the content. *)
Definition digests_agree w (repo : RepoConfig) : Prop :=
  ∀ p1 r1 j1 p2 r2 j2 d, readable_manifest w repo p1 r1 j1 → readable_manifest w repo p2 r2 j2 →
    digest_of p1 = Some d → digest_of p2 = Some d → extract_manifest_refs j1 = extract_manifest_refs j2.

Definition quiet (cancel : bool) w : Prop := cancel && w_cancelled w = false.

Lemma list_child_map w repo schedule x c :
  stored_paths (w_kv w) (rc_name repo) → schedule ≡ₚ shard_range → digests_agree w repo →
  child (children_map w (rc_store repo) (docker_manifests (w_kv w) (rc_name repo) schedule) ∅) x c ↔ list_child w repo x c.
Proof.
  intros Hm Hsch Hag. set (manifests := docker_manifests _ _ _). set (store := rc_store repo).
  assert (∀ y cs, y ∈ manifests → list_children w store y = Some (x, cs) →
    ∃ json, readable_manifest w repo y.1.1 y.2 json ∧ is_list_type (ar_content_type y.2) = true ∧
      digest_of y.1.1 = Some x ∧ cs = extract_manifest_refs json) as Hread.
  { intros [ [p s] r] cs Hy Hl. apply elem_of_docker_manifests in Hy as (-> & Hr & Hp); [|done..].
    unfold list_children in Hl. cbn [fst snd] in *. destruct (is_list_type (ar_content_type r)) eqn:Ht; [|done].
    destruct (digest_of p) as [d|] eqn:Hd; [|done]. destruct (manifest_json w store r) as [json|] eqn:Hj; [|done].
    injection Hl as -> <-. by exists json. }
  split.
  - intros (y & Hy & cs & Hl & Hc)%children_map_lookup. destruct (Hread y cs Hy Hl) as (json & Hr & Ht & Hd & ->).
    by exists y.1.1, y.2, json.
  - intros (path & record & json & Hr & Ht & Hd & Hc). pose proof Hr as (Hrec & Hp & Hj). unfold child.
    rewrite (children_map_complete w store manifests (path, shard_of path, record) x (extract_manifest_refs json)); [done| | |].
    + by apply elem_of_docker_manifests.
    + unfold list_children. cbn [fst snd]. fold store in Hj. by rewrite Ht, Hd, Hj.
    + intros y cs' Hy Hl. destruct (Hread y cs' Hy Hl) as (json' & Hr' & _ & Hd' & ->). by eapply Hag.
Qed.

(** What the collector finds reachable is what the tags reach. *)
Lemma reachable_iff w repo schedule d :
  stored_paths (w_kv w) (rc_name repo) → schedule ≡ₚ shard_range → digests_agree w repo →
  (∃ t, t ∈ docker_tags (w_kv w) (rc_name repo) schedule ∧
    rtc (child (children_map w (rc_store repo) (docker_manifests (w_kv w) (rc_name repo) schedule) ∅)) t d) ↔
  tag_reaches w repo d.
Proof.
  intros Hm Hsch Hag. unfold tag_reaches. setoid_rewrite elem_of_docker_tags; [|done..]. split.
  - intros (t & (path & record & tag & Hr & Hp & Hk) & Hrtc). exists path, record, t, tag. split_and!; [done..|].
    eapply rtc_congruence with (f := id); [|exact Hrtc]. intros x y Hxy. by eapply list_child_map.
  - intros (path & record & t & tag & Hr & Hp & Hk & Hrtc). exists t. split; [by exists path, record, tag|].
    eapply rtc_congruence with (f := id); [|exact Hrtc]. intros x y Hxy. by eapply list_child_map.
Qed.

Lemma layer_filter_check w repo schedule bf d :
  stored_paths (w_kv w) (rc_name repo) → schedule ≡ₚ shard_range → layer_referenced w repo d →
  bloom_check (layer_filter w (rc_store repo) (docker_manifests (w_kv w) (rc_name repo) schedule) bf) d = true.
Proof.
  intros Hm Hsch (path & record & json & (Hr & Hp & Hj) & Hd). apply bloom_set_all_check. left.
  apply list_elem_of_bind. exists (path, shard_of path, record). split; [|by apply elem_of_docker_manifests].
  unfold manifest_refs. cbn [snd]. by rewrite Hj.
Qed.

Lemma layer_filter_unreadable w store manifests bf : store ∉ w_stores w → layer_filter w store manifests bf = bf.
Proof.
  intros Hs. unfold layer_filter. induction manifests as [|x l IH]; [done|].
  cbn [mbind list_bind]. rewrite foldl_app.
  assert (manifest_refs w store x.2 = []) as -> by (unfold manifest_refs, manifest_json; by rewrite decide_False). done.
Qed.

Lemma elem_of_layer_deletions cutoff bf m repo schedule path : stored_paths m repo → schedule ≡ₚ shard_range →
  path ∈ (layer_deletions cutoff bf (docker_blob_refs m repo schedule)).*1 ↔
    ∃ record d, has_record m repo path record ∧ docker_path_of path = PBlobRef ∧ (ar_created_at record ≤ cutoff)%Z ∧
      blob_digest_of path = Some d ∧ bloom_check bf d = false.
Proof.
  intros Hm Hsch. rewrite list_elem_of_fmap. unfold layer_deletions. split.
  - intros ([p size] & -> & ([ [ [p' s] t] size'] & Hin & Hf)%list_elem_of_omap). cbn [fst].
    apply elem_of_docker_blob_refs in Hin as (-> & Hp & record & Hr & -> & ->); [|done..].
    case_decide; [done|]. destruct (blob_digest_of p') as [d|] eqn:Hd; [|done].
    destruct (bloom_check bf d) eqn:Hb; [done|]. injection Hf as <- <-. exists record, d. split_and!; try done. lia.
  - intros (record & d & Hr & Hp & Hold & Hd & Hb). exists (path, ar_size record). split; [done|].
    apply list_elem_of_omap. exists (path, shard_of path, ar_created_at record, ar_size record). split.
    + apply elem_of_docker_blob_refs; [done..|]. split_and!; [done|done|]. by exists record.
    + rewrite decide_False by lia. by rewrite Hd, Hb.
Qed.

Lemma elem_of_manifest_deletions cutoff R m repo schedule path : stored_paths m repo → schedule ≡ₚ shard_range →
  path ∈ (manifest_deletions cutoff R (docker_manifests m repo schedule)).*1 ↔
    ∃ record d, has_record m repo path record ∧ docker_path_of path = PManifest ∧ (ar_created_at record ≤ cutoff)%Z ∧
      digest_of path = Some d ∧ d ∉ R.
Proof.
  intros Hm Hsch. rewrite list_elem_of_fmap. unfold manifest_deletions. split.
  - intros ([p size] & -> & ([ [p' s] record] & Hin & Hf)%list_elem_of_omap). cbn [fst].
    apply elem_of_docker_manifests in Hin as (-> & Hr & Hp); [|done..].
    case_decide; [done|]. destruct (digest_of p') as [d|] eqn:Hd; [|done].
    case_decide; [done|]. injection Hf as <- <-. exists record, d. split_and!; try done. lia.
  - intros (record & d & Hr & Hp & Hold & Hd & Hb). exists (path, ar_size record). split; [done|].
    apply list_elem_of_omap. exists (path, shard_of path, record). split.
    + by apply elem_of_docker_manifests.
    + rewrite decide_False by lia. by rewrite Hd, decide_False.
Qed.

(** C31: The Docker collector deletes only garbage.  It always terminates; a dry
    run changes nothing; otherwise a key of the store changes only if it
    belongs to a record of the repository that is older than the grace period
    and is either a reference to a layer that no readable manifest mentions,
    or, when the repository asks for it, a manifest that no tag reaches, even
    through nested manifest lists.  Tags and all other artifacts, other
    repositories and the blobs are never touched. *)
Theorem docker_gc_deletes_only_garbage (schedule : list N) (fuel : nat) (repo : RepoConfig) (dry_run cancel : bool)
    (grace : Z) w :
  schedule ≡ₚ shard_range → stored_paths (w_kv w) (rc_name repo) → shards_fit (w_kv w) (rc_name repo) fuel →
  quiet cancel w → duration_seconds (i64_wrap DOCKER_GC_GRACE_SECS) = Some grace → digests_agree w repo →
  ∃ (r : result Z) (w' : world kvmap),
    run (docker_gc schedule fuel repo dry_run cancel) w = (Some r, w') ∧ same_env w w' ∧
    ∀ k, w_kv w' !! k = w_kv w !! k ∨
      dry_run = false ∧ ∃ (path : string) (record : ArtifactRecord),
        (k = artifact_key (rc_name repo) path ∨ k = tree_entry_key (rc_name repo) path) ∧
        has_record (w_kv w) (rc_name repo) path record ∧ (ar_created_at record ≤ w_now w - grace)%Z ∧
        ((docker_path_of path = PBlobRef ∧ ∃ d, blob_digest_of path = Some d ∧ ¬ layer_referenced w repo d) ∨
         (docker_path_of path = PManifest ∧ config_cleanup_untagged_manifests (rc_format_config repo) = true ∧
          ∃ d, digest_of path = Some d ∧ ¬ tag_reaches w repo d)).
Proof.
  intros Hsch Hm Hfit Hc Hg Hag.
  destruct (wp_run _ _ _ (docker_gc_spec schedule fuel repo dry_run cancel grace w Hsch Hfit Hc Hg))
    as (r & w' & Hr & He & Hres). exists r, w'. split; [done|]. split; [done|].
  destruct (new_for_fp_rate _) as [e|bf]; [destruct Hres as [_ ->]; by left|].
  destruct Hres as (_ & R & HR & Hp). intros k. rewrite Hp.
  destruct dry_run; [left; apply decide_False; by intros [?%elem_of_nil|?%elem_of_nil]|].
  case_decide as Hk; [|by left]. right. split; [done|].
  assert (∃ path, (k = artifact_key (rc_name repo) path ∨ k = tree_entry_key (rc_name repo) path) ∧
    path ∈ (layer_deletions (w_now w - grace)%Z (layer_filter w (rc_store repo)
       (docker_manifests (w_kv w) (rc_name repo) schedule) bf) (docker_blob_refs (w_kv w) (rc_name repo) schedule)).*1 ++
      (if config_cleanup_untagged_manifests (rc_format_config repo)
       then (manifest_deletions (w_now w - grace)%Z R (docker_manifests (w_kv w) (rc_name repo) schedule)).*1 else []))
    as (path & Hkp & Hin).
  { destruct Hk as [ (p & -> & Hp')%list_elem_of_fmap|(p & -> & Hp')%list_elem_of_fmap]; exists p; auto. }
  apply elem_of_app in Hin as [Hin|Hin].
  - apply elem_of_layer_deletions in Hin as (record & d & Hrec & Hpath & Hold & Hd & Hb); [|done..].
    exists path, record. split_and!; [done..|]. left. split; [done|]. exists d. split; [done|]. intros Href.
    by rewrite layer_filter_check in Hb.
  - destruct (config_cleanup_untagged_manifests _) eqn:Hcl; [|by apply elem_of_nil in Hin].
    apply elem_of_manifest_deletions in Hin as (record & d & Hrec & Hpath & Hold & Hd & Hb); [|done..].
    exists path, record. split_and!; [done..|]. right. split_and!; [done|done|]. exists d. split; [done|].
    intros Hreach. apply Hb, HR. by apply reachable_iff.
Qed.

(** The Docker collector reclaims what is left over, in one pass: with the
    policy on, every manifest older than the grace period that no tag reaches
    is deleted with its browse-tree entry, the children of orphaned manifest
    lists included; and so is every old layer reference whose digest the
    filter does not contain. *)
Theorem docker_gc_reclaims (schedule : list N) (fuel : nat) (repo : RepoConfig) (cancel : bool)
    (grace : Z) (bf : Bloom) w :
  let manifests := docker_manifests (w_kv w) (rc_name repo) schedule in
  schedule ≡ₚ shard_range → stored_paths (w_kv w) (rc_name repo) → shards_fit (w_kv w) (rc_name repo) fuel →
  quiet cancel w → duration_seconds (i64_wrap DOCKER_GC_GRACE_SECS) = Some grace → digests_agree w repo →
  new_for_fp_rate (Nat.max (length manifests) 1 * 10) = inr bf →
  ∃ (n : Z) (w' : world kvmap), run (docker_gc schedule fuel repo false cancel) w = (Some (Ok n), w') ∧
    ∀ (path : string) (record : ArtifactRecord) (d : string),
      has_record (w_kv w) (rc_name repo) path record → (ar_created_at record ≤ w_now w - grace)%Z →
      (docker_path_of path = PManifest ∧ digest_of path = Some d ∧ ¬ tag_reaches w repo d ∧
         config_cleanup_untagged_manifests (rc_format_config repo) = true) ∨
      (docker_path_of path = PBlobRef ∧ blob_digest_of path = Some d ∧
         bloom_check (layer_filter w (rc_store repo) manifests bf) d = false) →
      w_kv w' !! artifact_key (rc_name repo) path = None ∧ w_kv w' !! tree_entry_key (rc_name repo) path = None.
Proof.
  intros manifests Hsch Hm Hfit Hc Hg Hag Hbf.
  destruct (wp_run _ _ _ (docker_gc_spec schedule fuel repo false cancel grace w Hsch Hfit Hc Hg))
    as (r & w' & Hr & He & Hres). fold manifests in Hres. rewrite Hbf in Hres.
  destruct Hres as (Hok & R & HR & Hp). destruct r as [n|e]; [|done]. exists n, w'. split; [done|].
  intros path record d Hrec Hold Hwhich.
  assert (path ∈ (layer_deletions (w_now w - grace)%Z (layer_filter w (rc_store repo) manifests bf)
      (docker_blob_refs (w_kv w) (rc_name repo) schedule)).*1 ++
    (if config_cleanup_untagged_manifests (rc_format_config repo)
     then (manifest_deletions (w_now w - grace)%Z R manifests).*1 else [])) as Hin.
  { apply elem_of_app. destruct Hwhich as [ (Hpath & Hd & Hreach & Hcl)|(Hpath & Hd & Hb)]; [right|left].
    - rewrite Hcl. apply elem_of_manifest_deletions; [done..|]. exists record, d. split_and!; try done.
      rewrite HR. intros Hx. apply Hreach. by apply reachable_iff in Hx.
    - apply elem_of_layer_deletions; [done..|]. by exists record, d. }
  split; rewrite Hp; apply decide_True; [left|right]; by apply list_elem_of_fmap_2.
Qed.

(** Manifests that cannot be read protect nothing.  When the blob store of
    the repository is not known to the instance, the collector does not fail:
    it deletes every layer reference older than the grace period, those that
    the stored manifests mention included. *)
Theorem docker_gc_unreadable_manifests (schedule : list N) (fuel : nat) (repo : RepoConfig) (cancel : bool)
    (grace : Z) (bf : Bloom) w :
  schedule ≡ₚ shard_range → stored_paths (w_kv w) (rc_name repo) → shards_fit (w_kv w) (rc_name repo) fuel →
  quiet cancel w → duration_seconds (i64_wrap DOCKER_GC_GRACE_SECS) = Some grace →
  new_for_fp_rate (Nat.max (length (docker_manifests (w_kv w) (rc_name repo) schedule)) 1 * 10) = inr bf →
  rc_store repo ∉ w_stores w →
  ∃ (n : Z) (w' : world kvmap), run (docker_gc schedule fuel repo false cancel) w = (Some (Ok n), w') ∧
    ∀ (path : string) (record : ArtifactRecord) (d : string),
      has_record (w_kv w) (rc_name repo) path record → (ar_created_at record ≤ w_now w - grace)%Z →
      docker_path_of path = PBlobRef → blob_digest_of path = Some d →
      w_kv w' !! artifact_key (rc_name repo) path = None.
Proof.
  intros Hsch Hm Hfit Hc Hg Hbf Hstore.
  destruct (wp_run _ _ _ (docker_gc_spec schedule fuel repo false cancel grace w Hsch Hfit Hc Hg))
    as (r & w' & Hr & He & Hres). rewrite Hbf in Hres.
  destruct Hres as (Hok & R & HR & Hp). destruct r as [n|e]; [|done]. exists n, w'. split; [done|].
  intros path record d Hrec Hold Hpath Hd. rewrite Hp. apply decide_True. left. apply list_elem_of_fmap_2.
  apply elem_of_app. left. apply elem_of_layer_deletions; [done..|]. exists record, d. split_and!; try done.
  rewrite layer_filter_unreadable by done. by eapply new_check.
Qed.
End properties.

(** ** Witnesses *)

(** Digests agree when no two manifests have the same digest. *)
Lemma digests_agree_decide `{Blake3} `{Serde ArtifactRecord} `{SerdeJson} (w : world kvmap) (repo : RepoConfig) :
  Forall (λ k1 : string * string * string, Forall (λ k2 : string * string * string,
    docker_path_of k1.2 = PManifest → docker_path_of k2.2 = PManifest → digest_of k1.2 = digest_of k2.2 → k1.2 = k2.2)
    (map_to_list (w_kv w)).*1) (map_to_list (w_kv w)).*1 → digests_agree w repo.
Proof.
  rewrite Forall_forall. intros Hall p1 r1 j1 p2 r2 j2 d (Hr1 & Hp1 & Hj1) (Hr2 & Hp2 & Hj2) Hd1 Hd2.
  assert (∀ p r, has_record (w_kv w) (rc_name repo) p r →
    artifact_key (rc_name repo) p ∈ (map_to_list (w_kv w)).*1 ∧ (artifact_key (rc_name repo) p).2 = p) as Hin.
  { intros p r (Hp & b & ver & Hk & _). split; [|done]. apply list_elem_of_fmap.
    exists (artifact_key (rc_name repo) p, (b, ver)). split; [done|]. by apply elem_of_map_to_list. }
  destruct (Hin p1 r1 Hr1) as [Hin1 He1], (Hin p2 r2 Hr2) as [Hin2 He2].
  specialize (Hall _ Hin1). rewrite Forall_forall in Hall. specialize (Hall _ Hin2).
  rewrite He1, He2 in Hall. specialize (Hall Hp1 Hp2 ltac:(congruence)). subst p2.
  destruct Hr1 as (_ & b1 & v1 & Hk1 & Hs1), Hr2 as (_ & b2 & v2 & Hk2 & Hs2).
  rewrite Hk1 in Hk2. injection Hk2 as <- <-. rewrite Hs1 in Hs2. injection Hs2 as <-.
  rewrite Hj1 in Hj2. by injection Hj2 as <-.
Qed.

(** A document is a string; its layers are its characters. *)
Definition toy_json : SerdeJson := {|
  json_value := string;
  json_from_str := Some;
  json_get := λ v key, if decide (key = "digest" ∨ key = "layers") then Some v else None;
  json_as_str := Some;
  json_as_array := λ v, Some (singleton_str <$> String.list_ascii_of_string v);
|}.

Definition toy_docker_record (path ct : string) (kind : ArtifactKind) (blob : string) : ArtifactRecord :=
  mkArtifactRecord 5 "id" 1 ct 0%Z 0%Z 0%Z path kind false (Some blob) None None.

(** A tagged index with one child, an untagged manifest and two layers. *)
Definition toy_docker_records : list ArtifactRecord :=
  [toy_docker_record "_tags/latest" "" (KDockerTag "i" "latest") "bi";
   toy_docker_record "_manifests/i" "oci.image.index" KRaw "bi";
   toy_docker_record "_manifests/m" "oci.image.manifest" KRaw "bm";
   toy_docker_record "_manifests/u" "oci.image.manifest" KRaw "bu";
   toy_docker_record "_blobs/l" "" KRaw "bl"; toy_docker_record "_blobs/z" "" KRaw "bz"].

Definition toy_dr_serde : Serde ArtifactRecord := table_serde toy_docker_records.

Definition toy_docker_world (stores : gset string) : world kvmap :=
  let _ := toy_blake3 in let _ := toy_dr_serde in
  mkWorld (list_to_map (flat_map (λ a,
      match to_vec a with inr b => [(artifact_key "d" (ar_path a), (b, 1%Z))] | inl _ => [] end) toy_docker_records))
    {[("s", "bi") := "m"; ("s", "bm") := "l"; ("s", "bu") := ""]}
    stores (2 * 3600 * 10 ^ 9)%Z 0 [] false.

Definition toy_docker_repo : RepoConfig := mkRepoConfig 5 "d" Hosted (CDocker None (Some true)) "s" 0%Z None None false.

Lemma toy_docker_ok stores :
  let _ := toy_blake3 in let _ := toy_dr_serde in let _ := toy_json in
  stored_paths (w_kv (toy_docker_world stores)) "d" ∧ shards_fit (w_kv (toy_docker_world stores)) "d" 9 ∧
  digests_agree (toy_docker_world stores) toy_docker_repo.
Proof.
  intros ? ? ?. split_and!.
  - apply stored_paths_decide. by_decide.
  - unfold shards_fit. by_decide.
  - apply digests_agree_decide. by_decide.
Qed.

Lemma docker_gc_deletes_only_garbage_witness :
  let _ := toy_blake3 in let _ := toy_dr_serde in let _ := toy_chrono in
  let _ := toy_json in let _ := toy_bloom in let _ := toy_uuid in
  ∃ r w', run (docker_gc shard_range 9 toy_docker_repo false false) (toy_docker_world {["s"]}) = (Some r, w') ∧
    w_kv w' !! artifact_key "d" "_tags/latest" = Some ("0", 1%Z).
Proof.
  intros ? ? ? ? ? ?. destruct (toy_docker_ok {["s"]}) as (Hm & Hfit & Hag).
  destruct (@docker_gc_deletes_only_garbage toy_blake3 toy_dr_serde toy_chrono toy_json toy_bloom toy_uuid
    shard_range 9 toy_docker_repo false false (3600 * 10 ^ 9)%Z (toy_docker_world {["s"]})
    (reflexivity _) Hm Hfit eq_refl eq_refl Hag) as (r & w' & Hr & _ & Hk).
  exists r, w'. split; [exact Hr|].
  destruct (Hk (artifact_key "d" "_tags/latest")) as [Heq|(_ & path & record & [Heq|Heq] & (Hp & _) & _ & Hwhich)].
  - refine (eq_trans Heq _). vm_compute. reflexivity.
  - exfalso. apply (f_equal snd) in Heq. change (rc_name toy_docker_repo) with "d" in Hp, Heq. rewrite Hp in Heq.
    subst path. destruct Hwhich as [ [Hw _]|[Hw _] ]; discriminate Hw.
  - exfalso. apply (f_equal (λ k, k.1.1)) in Heq. discriminate Heq.
Defined.

Lemma toy_untagged : let _ := toy_blake3 in let _ := toy_dr_serde in let _ := toy_json in
  ¬ tag_reaches (toy_docker_world {["s"]}) toy_docker_repo "u".
Proof.
  intros ? ? ? Hreach. destruct (toy_docker_ok {["s"]}) as (Hm & Hfit & Hag).
  apply (reachable_iff _ _ shard_range) in Hreach; [|done..].
  destruct (reach_exact (children_map (toy_docker_world {["s"]}) "s"
    (docker_manifests (w_kv (toy_docker_world {["s"]})) "d" shard_range) ∅)
    (docker_tags (w_kv (toy_docker_world {["s"]})) "d" shard_range)) as (R & HR & Hx).
  apply Hx in Hreach. revert Hreach. apply (bool_decide_unpack _).
  assert (Some R = Some {["i"; "m"]}) as [= ->]; [|vm_compute; exact I].
  rewrite <-HR. vm_compute. reflexivity.
Qed.

Lemma docker_gc_reclaims_witness :
  let _ := toy_blake3 in let _ := toy_dr_serde in let _ := toy_chrono in
  let _ := toy_json in let _ := toy_bloom in let _ := toy_uuid in
  ∃ n w', run (docker_gc shard_range 9 toy_docker_repo false false) (toy_docker_world {["s"]}) = (Some (Ok n), w') ∧
    w_kv w' !! artifact_key "d" "_manifests/u" = None.
Proof.
  intros ? ? ? ? ? ?. destruct (toy_docker_ok {["s"]}) as (Hm & Hfit & Hag).
  destruct (@docker_gc_reclaims toy_blake3 toy_dr_serde toy_chrono toy_json toy_bloom toy_uuid
    shard_range 9 toy_docker_repo false (3600 * 10 ^ 9)%Z 0%N (toy_docker_world {["s"]})
    (reflexivity _) Hm Hfit eq_refl eq_refl Hag eq_refl) as (n & w' & Hr & Hgone).
  exists n, w'. split; [exact Hr|].
  apply (Hgone "_manifests/u" (toy_docker_record "_manifests/u" "oci.image.manifest" KRaw "bu") "u").
  - split; [reflexivity|]. exists "3", 1%Z. split; vm_compute; reflexivity.
  - vm_compute. discriminate.
  - left. split_and!; [reflexivity|reflexivity|apply toy_untagged|reflexivity].
Defined.

Lemma docker_gc_unreadable_manifests_witness :
  let _ := toy_blake3 in let _ := toy_dr_serde in let _ := toy_chrono in
  let _ := toy_json in let _ := toy_bloom in let _ := toy_uuid in
  layer_referenced (toy_docker_world {["s"]}) toy_docker_repo "l" ∧
  ∃ n w', run (docker_gc shard_range 9 toy_docker_repo false false) (toy_docker_world ∅) = (Some (Ok n), w') ∧
    w_kv w' !! artifact_key "d" "_blobs/l" = None.
Proof.
  intros ? ? ? ? ? ?. split.
  - exists "_manifests/m", (toy_docker_record "_manifests/m" "oci.image.manifest" KRaw "bm"), "l". split.
    + split_and!; [|reflexivity|vm_compute; reflexivity]. split; [reflexivity|]. exists "2", 1%Z.
      split; vm_compute; reflexivity.
    + left.
  - destruct (toy_docker_ok ∅) as (Hm & Hfit & _).
    destruct (@docker_gc_unreadable_manifests toy_blake3 toy_dr_serde toy_chrono toy_json toy_bloom toy_uuid
      shard_range 9 toy_docker_repo false (3600 * 10 ^ 9)%Z 0%N (toy_docker_world ∅)
      (reflexivity _) Hm Hfit eq_refl eq_refl eq_refl (not_elem_of_empty _)) as (n & w' & Hr & Hgone).
    exists n, w'. split; [exact Hr|].
    apply (Hgone "_blobs/l" (toy_docker_record "_blobs/l" "" KRaw "bl") "l"); [|vm_compute; discriminate|reflexivity..].
    split; [reflexivity|]. exists "4", 1%Z. split; vm_compute; reflexivity.
Defined.
