(* ===== verification/GcPass.v ===== *)
(** * The garbage collection pass (server/src/server/worker/blob_reaper/gc_pass.rs)

    One pass drains the repositories that are being deleted, cleans up stale
    uploads, expires artifacts, collects Docker repositories, builds a filter of
    the blobs that the remaining artifacts use, and sweeps the dedup records and
    the blob stores with it.  A blob that the filter does not contain is deleted
    only if an earlier pass already found it unused. *)

From S2P Require Import Prelude Bytes Errors Keys Records Kv Prog Wp Scan Update.
From S2P Require Import Artifact Blob Repo Directory Accounts Batches Cleanup BloomFilter DockerGc.

(** How a blob store splits its walk: the number of shards of a store and
    the ids of a shard. *)
Class BlobSharding := {
  scan_shard_count : string → nat;
  scan_shard : string → nat → string → bool;
}.

(** The in-memory state: the candidates with the pass that first saw them, and
    the pass counter. *)
(** server/src/server/worker/blob_reaper/gc_pass.rs:40-46 *)
Record GcState : Type := mkGcState {
  orphan_candidates : gmap (string * string) Z;
  gs_pass : Z;
}.

(** server/src/server/worker/blob_reaper/gc_pass.rs:54-64 *)
Record GcStats : Type := mkGcStats {
  drained_repos : Z;
  cleaned_upload_sessions : Z;
  scanned_artifacts : Z;
  expired_artifacts : Z;
  docker_deleted : Z;
  scanned_blobs : Z;
  deleted_dedup_refs : Z;
  orphaned_blobs_deleted : Z;
  orphaned_blob_bytes_deleted : Z;
}.

Definition GC_CANCELLED : string := "GC pass cancelled".

(** Progress updates. *)
Definition tp_gc_phase (phase : string) (total : Z) (p : TaskProgress) : TaskProgress :=
  mkTaskProgress total 0 (tp_total_blobs p) (tp_checked_blobs p) (tp_failed_blobs p) (tp_bytes_read p)
    (tp_total_bytes p) (tp_total_artifacts p) (tp_checked_artifacts p) phase.
Definition tp_gc_repo_done (p : TaskProgress) : TaskProgress :=
  mkTaskProgress (tp_total_repos p) (u64_add (tp_completed_repos p) 1) (tp_total_blobs p) (tp_checked_blobs p)
    (tp_failed_blobs p) (tp_bytes_read p) (tp_total_bytes p) (tp_total_artifacts p) (tp_checked_artifacts p) (tp_phase p).
Definition tp_gc_scan (repos total : Z) (p : TaskProgress) : TaskProgress :=
  mkTaskProgress repos 0 total 0 (tp_failed_blobs p) (tp_bytes_read p) (tp_total_bytes p)
    (tp_total_artifacts p) (tp_checked_artifacts p) "Scanning artifacts".
Definition tp_gc_checked (n : Z) (p : TaskProgress) : TaskProgress :=
  mkTaskProgress (tp_total_repos p) (tp_completed_repos p) (tp_total_blobs p) n (tp_failed_blobs p)
    (tp_bytes_read p) (tp_total_bytes p) (tp_total_artifacts p) (tp_checked_artifacts p) (tp_phase p).
Definition tp_gc_sweep (stores bytes : Z) (p : TaskProgress) : TaskProgress :=
  mkTaskProgress stores 0 0 0 (tp_failed_blobs p) 0 bytes (tp_total_artifacts p) (tp_checked_artifacts p)
    "Sweeping blob records".
Definition tp_gc_store_done (checked bytes : Z) (p : TaskProgress) : TaskProgress :=
  mkTaskProgress (tp_total_repos p) (u64_add (tp_completed_repos p) 1) (tp_total_blobs p) checked (tp_failed_blobs p)
    (u64_add (tp_bytes_read p) bytes) (tp_total_bytes p) (tp_total_artifacts p) (tp_checked_artifacts p) (tp_phase p).

Section gc.
Context `{Blake3} `{Serde ArtifactRecord} `{Serde TreeEntry} `{Serde RepoConfig} `{Serde StoreRecord}
  `{Serde StoreStatsRecord} `{Serde BlobRecord} `{Serde UploadSessionRecord}
  `{Chrono} `{SerdeJson} `{BloomCrate} `{Scheduler} `{BlobSharding}.

(** [if cancelled { return Err(..) }]. *)
Definition check_cancelled {A : Type} (cancel : bool) (k : prog (result A)) : prog (result A) :=
  let* cancelled := is_cancelled cancel in
  if (cancelled : bool) then Ret (Err (Internal GC_CANCELLED)) else k.

(** *** Draining *)

(** server/src/server/worker/blob_reaper/gc_pass.rs:106-113 *)
Fixpoint drain_all (fuel : nat) (deleting : list RepoConfig) (drained : Z) : prog Z :=
  match deleting with
  | [] => Ret drained
  | repo :: deleting =>
      let* r := drain_deleting_repo (arrange 0 shard_range) (arrange 1 shard_range) fuel (rc_name repo) in
      drain_all fuel deleting (if is_ok r then u64_add drained 1 else drained)
  end.

(** The loop until no repository is marked. *)
(** server/src/server/worker/blob_reaper/gc_pass.rs:89-114 *)
Fixpoint drain_loop (rounds fuel : nat) (cancel : bool) (drained : Z) : prog (result Z) :=
  match rounds with
  | O => Spin
  | S rounds =>
      check_cancelled cancel (
        let*? raw := list_repos_raw in
        let deleting := filter (λ r, rc_deleting r = true) raw in
        if decide (deleting = []) then Ret (Ok drained)
        else
          let* drained := drain_all fuel deleting drained in
          drain_loop rounds fuel cancel drained)
  end.

(** *** Docker repositories *)

(** server/src/server/worker/blob_reaper/gc_pass.rs:133-173 *)
Definition pre_expire (fuel : nat) (repos : list RepoConfig) (cancel progress_tx : bool) : prog (result Z) :=
  let docker_repos_with_policy := filter (λ r, repo_format r = FDocker ∧
    (rc_cleanup_max_age_days r ≠ None ∨ rc_cleanup_max_unaccessed_days r ≠ None)) repos in
  if decide (docker_repos_with_policy = []) then Ret (Ok 0%Z)
  else
    let* _ := send_progress progress_tx
      (tp_gc_phase "Docker pre-expiration" (Z.of_nat (length docker_repos_with_policy))) in
    try_fold (arrange 2 docker_repos_with_policy) (λ pre_expired repo,
      let*? counts := expire_repo_artifacts (arrange 3 shard_range) fuel cancel repo in
      let* _ := send_progress progress_tx tp_gc_repo_done in
      Ret (Ok (u64_add pre_expired counts.2))) 0%Z.

(** server/src/server/worker/blob_reaper/gc_pass.rs:181-219 *)
Definition docker_phase (fuel : nat) (repos : list RepoConfig) (dry_run cancel progress_tx : bool) : prog (result Z) :=
  let docker_repos := filter (λ r, repo_format r = FDocker) repos in
  let* _ := send_progress progress_tx (tp_gc_phase "Docker GC" (Z.of_nat (length docker_repos))) in
  try_fold (arrange 4 docker_repos) (λ deleted repo,
    let*? n := docker_gc (arrange 5 shard_range) fuel repo dry_run cancel in
    let* _ := send_progress progress_tx tp_gc_repo_done in
    Ret (Ok (u64_add deleted n))) 0%Z.

(** *** The artifact scan *)

(** server/src/server/worker/blob_reaper/gc_pass.rs:233-241 *)
Fixpoint estimate_total (fuel : nat) (repos : list RepoConfig) (total : Z) : prog Z :=
  match repos with
  | [] => Ret total
  | repo :: repos =>
      match rc_kind repo with
      | Proxy _ _ => estimate_total fuel repos total
      | _ =>
          let* r := get_repo_stats fuel repo in
          estimate_total fuel repos
            (match r with Ok stats => u64_add total (rs_artifact_count stats) | Err _ => total end)
      end
  end.

(** A task of the scan. *)
Record scan_task : Type := mkScanTask {
  st_repo_idx : nat;
  st_repo : string;
  st_docker : bool;
  st_age : option DateTime;
  st_unaccessed : option DateTime;
  st_shard : N;
}.

(** The tasks of a repository; [None] when a cut-off panics. *)
(** server/src/server/worker/blob_reaper/gc_pass.rs:310-320 *)
Definition repo_tasks (now : DateTime) (x : nat * RepoConfig) : option (list scan_task) :=
  let '(repo_idx, repo) := x in
  max_age_cutoff ← cutoff_of now (rc_cleanup_max_age_days repo);
  max_unaccessed_cutoff ← cutoff_of now (rc_cleanup_max_unaccessed_days repo);
  Some (mkScanTask repo_idx (rc_name repo) (bool_decide (repo_format repo = FDocker)) max_age_cutoff
    max_unaccessed_cutoff <$> shard_range).

Definition scan_tasks (now : DateTime) (repos : list RepoConfig) : option (list scan_task) :=
  (λ l, concat l) <$> mapM (repo_tasks now) (imap pair repos).

(** The loop over the items of a batch: the filter, the records kept, the
    expired entries. *)
(** server/src/server/worker/blob_reaper/gc_pass.rs:361-391 *)
Fixpoint gc_items (t : scan_task) (items : list (string * bytes))
    (st : Bloom * Z * list (string * Z * ExpiryReason)) : prog (Bloom * Z * list (string * Z * ExpiryReason)) :=
  match items with
  | [] => Ret st
  | (sk, value) :: items =>
      match from_slice value with
      | inl _ => gc_items t items st
      | inr record =>
          let* expired := record_expired (st_repo t) sk record (st_docker t) (st_age t) (st_unaccessed t) in
          let '(local_bf, local_scanned, expired_entries) := st in
          gc_items t items
            (match expired with
             | Some reason => (local_bf, local_scanned, expired_entries ++ [(sk, ar_size record, reason)])
             | None => (match ar_blob_id record with Some blob_id => bloom_set local_bf blob_id | None => local_bf end,
                        u64_add local_scanned 1, expired_entries)
             end)
      end
  end.

(** A batch of a task; the state is the local filter, the records kept, the
    records expired and the shared counter. *)
(** server/src/server/worker/blob_reaper/gc_pass.rs:361-410 *)
Definition gc_batch (t : scan_task) (dry_run : bool) (st : Bloom * Z * Z * Z) (items : list (string * bytes)) :
    prog (result (Bloom * Z * Z * Z)) :=
  let '(local_bf, local_scanned, local_expired, live) := st in
  let* b := gc_items t items (local_bf, local_scanned, []) in
  let '(local_bf, local_scanned, expired_entries) := b in
  let live := u64_add live (Z.of_nat (length items)) in
  if decide (expired_entries ≠ [] ∧ dry_run = false) then
    let paths := expired_paths expired_entries in
    let*? _ := delete_artifacts_paired_batch (st_repo t) paths in
    let* _ := send_expired (st_repo t) expired_entries in
    Ret (Ok (local_bf, local_scanned, u64_add local_expired (Z.of_nat (length expired_entries)), live))
  else Ret (Ok (local_bf, local_scanned, local_expired, live)).

(** What the scan accumulates over the tasks. *)
Record scan_state : Type := mkScanState {
  ss_acc : BloomAccumulator;
  ss_scanned : Z;
  ss_expired : Z;
  ss_live : Z;
  ss_shards_done : gmap nat N;
}.

(** A task, and the bookkeeping when it is joined. *)
(** server/src/server/worker/blob_reaper/gc_pass.rs:329-458 *)
Definition scan_one (fuel : nat) (template : Bloom) (dry_run cancel progress_tx : bool) (st : scan_state) (t : scan_task) :
    prog (result scan_state) :=
  let pk := artifact_shard_pk (st_repo t) (st_shard t) in
  let! local_bf := bloom_empty_like template in
  let*? r := scan_batches fuel GC_CANCELLED cancel TABLE_ARTIFACTS pk (gc_batch t dry_run) None
    (local_bf, 0%Z, 0%Z, ss_live st) in
  let '(local_bf, local_scanned, local_expired, live) := r in
  let! acc := or_from (ss_acc st) local_bf in
  let n := (default 0 (ss_shards_done st !! st_repo_idx t) + 1)%N in
  let* _ := if decide (n = NUM_SHARDS) then send_progress progress_tx tp_gc_repo_done else Ret tt in
  Ret (Ok (mkScanState acc (u64_add (ss_scanned st) local_scanned) (u64_add (ss_expired st) local_expired) live
    (<[st_repo_idx t := n]> (ss_shards_done st)))).

(** The scan of all repositories: the filter, and the counts of records kept
    and expired.  The ticker that reports progress every second is left out. *)
(** server/src/server/worker/blob_reaper/gc_pass.rs:242-475 *)
Definition artifact_scan (fuel : nat) (repos : list RepoConfig) (dry_run cancel progress_tx : bool) :
    prog (result (Bloom * Z * Z)) :=
  let* estimated := estimate_total fuel repos 0 in
  let estimated_total := Z.max estimated 1000 in
  let* _ := send_progress progress_tx (tp_gc_scan (Z.of_nat (length repos)) estimated_total) in
  match new_for_fp_rate (Z.to_nat estimated_total) with
  | inl e => Ret (Err (Internal ("bloom filter: " +:+ e)))
  | inr template =>
      let* now := call ENow in
      match scan_tasks now repos with
      | None => Spin
      | Some tasks =>
          let*? st := try_fold (arrange 6 tasks) (scan_one fuel template dry_run cancel progress_tx)
            (mkScanState (acc_empty_like template) 0 0 0 ∅) in
          let! combined := finalize (ss_acc st) in
          let* _ := send_progress progress_tx (tp_gc_checked (ss_live st)) in
          Ret (Ok (combined, ss_scanned st, ss_expired st))
      end
  end.

(** *** The sweep *)

(** What the scan of the dedup records of a shard counts. *)
Record dedup_counts : Type := mkDedupCounts {
  dc_scanned : Z;
  dc_scanned_bytes : Z;
  dc_deleted : Z;
  dc_live_count : Z;
  dc_live_bytes : Z;
}.

(** The loop over the items of a batch: the counts, and the records to delete. *)
(** server/src/server/worker/blob_reaper/gc_pass.rs:569-585 *)
Fixpoint dedup_items (bf : Bloom) (items : list (string * bytes)) (c : dedup_counts) (del_sks : list string) :
    dedup_counts * list string :=
  match items with
  | [] => (c, del_sks)
  | (sk, value) :: items =>
      let scanned := u64_add (dc_scanned c) 1 in
      match from_slice value with
      | inl _ =>
          dedup_items bf items (mkDedupCounts scanned (dc_scanned_bytes c) (dc_deleted c) (dc_live_count c)
            (dc_live_bytes c)) del_sks
      | inr record =>
          let bytes := u64_add (dc_scanned_bytes c) (br_size record) in
          if bloom_check bf (br_blob_id record) then
            dedup_items bf items (mkDedupCounts scanned bytes (dc_deleted c) (u64_add (dc_live_count c) 1)
              (u64_add (dc_live_bytes c) (br_size record))) del_sks
          else
            dedup_items bf items (mkDedupCounts scanned bytes (dc_deleted c) (dc_live_count c) (dc_live_bytes c))
              (del_sks ++ [sk])
      end
  end.

(** server/src/server/worker/blob_reaper/gc_pass.rs:539-611 *)
Definition sweep_dedup_shard (fuel : nat) (bf : Bloom) (store_name : string) (dry_run cancel : bool) (shard : N) :
    prog (result dedup_counts) :=
  let pk := blob_shard_pk store_name shard in
  scan_batches fuel GC_CANCELLED cancel TABLE_BLOBS pk (λ c items,
    let '(c, del_sks) := dedup_items bf items c [] in
    if decide (del_sks ≠ [] ∧ dry_run = false) then
      let del_keys := (λ sk, (pk, sk)) <$> del_sks in
      let*? _ := kv (DeleteBatch TABLE_BLOBS del_keys) in
      Ret (Ok (mkDedupCounts (dc_scanned c) (dc_scanned_bytes c)
        (u64_add (dc_deleted c) (Z.of_nat (length del_sks))) (dc_live_count c) (dc_live_bytes c)))
    else Ret (Ok c)) None (mkDedupCounts 0 0 0 0 0).

(** The walk of the shards of a blob store: the unreferenced blobs in the order
    in which they arrive.  Errors of the walk are logged and skipped. *)
(** server/src/server/worker/blob_reaper/gc_pass.rs:673-722 *)
Fixpoint walk_shards (bf : Bloom) (store_name : string) (cancel : bool) (shards : list nat) : prog (list (string * Z)) :=
  match shards with
  | [] => Ret []
  | shard :: shards =>
      let* cancelled := is_cancelled cancel in
      let* found :=
        if (cancelled : bool) then Ret []
        else
          let* r := blob store_name (BScan (scan_shard store_name shard)) in
          Ret (match r with
               | Ok blobs => filter (λ x, bloom_check bf x.1 = false) blobs
               | Err _ => []
               end) in
      let* rest := walk_shards bf store_name cancel shards in
      Ret (found ++ rest)
  end.

(** The consumer of the walk: the two-pass grace period. *)
(** server/src/server/worker/blob_reaper/gc_pass.rs:735-783 *)
Fixpoint reap_orphans (store_name : string) (current_pass : Z) (max_orphan_candidates : nat) (dry_run : bool)
    (orphans : list (string * Z)) (candidates : gmap (string * string) Z) (deleted bytes : Z) :
    prog (gmap (string * string) Z * Z * Z) :=
  match orphans with
  | [] => Ret (candidates, deleted, bytes)
  | (blob_id, size) :: orphans =>
      let key := (store_name, blob_id) in
      match candidates !! key with
      | Some first_seen_pass =>
          if decide (1 ≤ u64_wrap (current_pass - first_seen_pass))%Z then
            let* _ := if dry_run then Ret tt
                      else let* _ := blob store_name (BDelete blob_id) in Ret tt in
            reap_orphans store_name current_pass max_orphan_candidates dry_run orphans
              (delete key candidates) (u64_add deleted 1) (u64_add bytes size)
          else reap_orphans store_name current_pass max_orphan_candidates dry_run orphans candidates deleted bytes
      | None =>
          if decide (max_orphan_candidates ≤ base.size candidates) then
            reap_orphans store_name current_pass max_orphan_candidates dry_run orphans candidates deleted bytes
          else
            reap_orphans store_name current_pass max_orphan_candidates dry_run orphans
              (<[key := current_pass]> candidates) deleted bytes
      end
  end.

(** What the sweep accumulates over the stores. *)
Record sweep_state : Type := mkSweepState {
  sw_candidates : gmap (string * string) Z;
  sw_scanned : Z;
  sw_deleted_refs : Z;
  sw_deleted : Z;
  sw_deleted_bytes : Z;
}.

(** The sweep of one store. *)
(** server/src/server/worker/blob_reaper/gc_pass.rs:530-789 *)
Definition sweep_store (fuel : nat) (bf : Bloom) (current_pass : Z) (max_orphan_candidates : nat)
    (dry_run cancel progress_tx : bool) (st : sweep_state) (store_name : string) :
    prog (result unit * sweep_state) :=
  let* r := try_for (arrange 7 shard_range) (sweep_dedup_shard fuel bf store_name dry_run cancel) in
  match r with
  | Err e => Ret (Err e, st)
  | Ok results =>
      let scanned := foldl (λ n c, u64_add n (dc_scanned c)) (sw_scanned st) results in
      let scanned_bytes := foldl (λ n c, u64_add n (dc_scanned_bytes c)) 0%Z results in
      let deleted_refs := foldl (λ n c, u64_add n (dc_deleted c)) (sw_deleted_refs st) results in
      let live_count := foldl (λ n c, u64_add n (dc_live_count c)) 0%Z results in
      let live_bytes := foldl (λ n c, u64_add n (dc_live_bytes c)) 0%Z results in
      let* now := call ENow in
      let* _ := put_store_stats store_name (mkStoreStatsRecord live_count live_bytes now) in
      let* _ := send_progress progress_tx (tp_gc_store_done scanned scanned_bytes) in
      let* _ := send_progress progress_tx (tp_set_phase ("Walking blob store '" +:+ store_name +:+ "'")) in
      let* known := call (EStoreGet store_name) in
      if (known : bool) then
        let* orphans := walk_shards bf store_name cancel (arrange 8 (seq 0 (scan_shard_count store_name))) in
        let* r := reap_orphans store_name current_pass max_orphan_candidates dry_run orphans
          (sw_candidates st) (sw_deleted st) (sw_deleted_bytes st) in
        let '(candidates, deleted, bytes) := r in
        Ret (Ok tt, mkSweepState candidates scanned deleted_refs deleted bytes)
      else Ret (Ok tt, mkSweepState (sw_candidates st) scanned deleted_refs (sw_deleted st) (sw_deleted_bytes st))
  end.

Fixpoint sweep_stores (fuel : nat) (bf : Bloom) (current_pass : Z) (max_orphan_candidates : nat)
    (dry_run cancel progress_tx : bool) (stores : list string) (st : sweep_state) : prog (result unit * sweep_state) :=
  match stores with
  | [] => Ret (Ok tt, st)
  | store_name :: stores =>
      let* r := sweep_store fuel bf current_pass max_orphan_candidates dry_run cancel progress_tx st store_name in
      match r with
      | (Err e, st) => Ret (Err e, st)
      | (Ok _, st) => sweep_stores fuel bf current_pass max_orphan_candidates dry_run cancel progress_tx stores st
      end
  end.

(** server/src/server/worker/blob_reaper/gc_pass.rs:500-505 *)
Fixpoint estimate_bytes (stores : list string) (total : Z) : prog Z :=
  match stores with
  | [] => Ret total
  | store :: stores =>
      let* r := get_store_stats store in
      estimate_bytes stores (match r with Ok (Some stats) => u64_add total (ss_total_bytes stats) | _ => total end)
  end.

(** *** The pass *)

(** Everything up to the sweep: drained repositories, upload sessions, stores,
    the filter and the counts of artifacts and Docker records. *)
(** server/src/server/worker/blob_reaper/gc_pass.rs:83-484 *)
Definition mark_phase (rounds fuel : nat) (dry_run cancel progress_tx : bool) :
    prog (result (Z * Z * list StoreRecord * Bloom * Z * Z * Z)) :=
  let* _ := send_progress progress_tx (tp_set_phase "Draining deleted repos") in
  let*? drained := drain_loop rounds fuel cancel 0 in
  let* cleaned := cleanup_upload_sessions (3600 * 10 ^ 9)%Z in
  let cleaned := match cleaned with Ok n => Z.of_nat n | Err _ => 0%Z end in
  let*? repos := list_repos in
  let*? store_records := list_stores in
  let*? pre_expired := pre_expire fuel repos cancel progress_tx in
  check_cancelled cancel (
    let*? docker := docker_phase fuel repos dry_run cancel progress_tx in
    check_cancelled cancel (
      let*? scan := artifact_scan fuel repos dry_run cancel progress_tx in
      let '(combined, scanned, expired) := scan in
      check_cancelled cancel (
        Ret (Ok (drained, cleaned, store_records, combined, scanned, u64_add expired pre_expired, docker))))).

(** The result, and the state after the pass. *)
(** server/src/server/worker/blob_reaper/gc_pass.rs:67-802 *)
Definition gc_pass (rounds fuel : nat) (state : GcState) (cancel : bool) (max_orphan_candidates : nat)
    (progress_tx dry_run : bool) : prog (result GcStats * GcState) :=
  let current_pass := u64_add (gs_pass state) 1 in
  let* marked := mark_phase rounds fuel dry_run cancel progress_tx in
  match marked with
  | Err e => Ret (Err e, mkGcState (orphan_candidates state) current_pass)
  | Ok (drained, cleaned, store_records, combined, scanned, expired, docker) =>
      let* estimated := estimate_bytes (sr_name <$> store_records) 0 in
      let* _ := send_progress progress_tx (tp_gc_sweep (Z.of_nat (length store_records)) estimated) in
      let candidates := filter (λ x : string * string * Z, bloom_check combined x.1.2 = false) (orphan_candidates state) in
      let* r := sweep_stores fuel combined current_pass max_orphan_candidates dry_run cancel progress_tx
        (sr_name <$> store_records) (mkSweepState candidates 0 0 0 0) in
      let '(r, st) := r in
      Ret (match r with
           | Ok _ => Ok (mkGcStats drained cleaned scanned expired docker (sw_scanned st) (sw_deleted_refs st)
                           (sw_deleted st) (sw_deleted_bytes st))
           | Err e => Err e
           end, mkGcState (sw_candidates st) current_pass)
  end.
End gc.
