(* ===== verification/GcSafety.v ===== *)
(** * Safety of the garbage collection pass

    What one pass of the collector may change.  Each phase has a frame: the
    repositories' records only shrink, the blobs change in the clean-up of
    stale uploads and in the sweep only.  The theorems follow: a blob that an
    artifact uses survives, and no blob is deleted on first sight. *)

From S2P Require Import Prelude Bytes Errors Keys Records Kv Prog Wp Scan Pagination Update.
From S2P Require Import Artifact Blob Repo Directory Accounts Batches Cleanup BloomFilter DockerGc GcPass.

Section frames.
Context `{UuidGen}.
Implicit Types (m : kvmap) (w : world kvmap).

(** The keys of some tables keep their entry or lose it. *)
Definition shrinks (tables : list string) m m' : Prop :=
  ∀ k : string * string * string, k.1.1 ∈ tables → m' !! k = m !! k ∨ m' !! k = None.

(** Only keys of some tables change. *)
Definition only (tables : list string) m m' : Prop :=
  ∀ k : string * string * string, k.1.1 ∉ tables → m' !! k = m !! k.

#[export] Instance shrinks_preorder tables : PreOrder (shrinks tables).
Proof.
  split; [by left|]. intros m1 m2 m3 H1 H2 k Hk. destruct (H2 k Hk) as [->|]; [by apply H1|by right].
Qed.

#[export] Instance only_preorder tables : PreOrder (only tables).
Proof. split; [done|]. intros m1 m2 m3 H1 H2 k Hk. by rewrite H2, H1. Qed.

Lemma shrinks_mono t1 t2 m m' : t1 ⊆ t2 → shrinks t2 m m' → shrinks t1 m m'.
Proof. intros Ht Hs k Hk. apply Hs. by apply Ht. Qed.

Lemma only_mono t1 t2 m m' : t1 ⊆ t2 → only t1 m m' → only t2 m m'.
Proof. intros Ht Hs k Hk. apply Hs. intros Hin. by apply Hk, Ht. Qed.

(** Tables that do not change shrink. *)
Lemma only_shrinks tables t m m' : (∀ x, x ∈ t → x ∉ tables) → only tables m m' → shrinks t m m'.
Proof. intros Ht Ho k Hk. left. by apply Ho, Ht. Qed.

Lemma shrinks_app t1 t2 m m' : shrinks t1 m m' → shrinks t2 m m' → shrinks (t1 ++ t2) m m'.
Proof. intros H1 H2 k [Hk|Hk]%elem_of_app; auto. Qed.

(** The tables that the collector reads. *)
Definition GC_TABLES : list string := [TABLE_ARTIFACTS; TABLE_DIR_ENTRIES; TABLE_REPOS; TABLE_BLOBS].

(** A frame of the phases: records of some tables are deleted, nothing else
    of the store changes. *)
Definition deletes_in (tables : list string) w w' : Prop :=
  shrinks tables (w_kv w) (w_kv w') ∧ only tables (w_kv w) (w_kv w') ∧ same_env w w'.

#[export] Instance deletes_in_preorder tables : PreOrder (deletes_in tables).
Proof.
  split; [done|]. intros w1 w2 w3 (Hs1 & Ho1 & He1) (Hs2 & Ho2 & He2).
  split_and!; [by etrans|by etrans|by eapply same_env_trans].
Qed.

Lemma deletes_in_mono t1 t2 w w' : t1 ⊆ t2 → deletes_in t1 w w' → deletes_in t2 w w'.
Proof.
  intros Ht (Hs & Ho & He). split_and!; [|by eapply only_mono|done].
  intros k Hk. destruct (decide (k.1.1 ∈ t1)); [by apply Hs|left; by apply Ho].
Qed.

Definition RECORD_TABLES : list string := [TABLE_ARTIFACTS; TABLE_DIR_ENTRIES].

Lemma purged_deletes `{Blake3} repo paths w w' : purged repo paths (w_kv w) (w_kv w') → same_env w w' →
  deletes_in RECORD_TABLES w w'.
Proof.
  intros Hp He. split_and!; [| |done].
  - intros k _. rewrite Hp. case_decide; auto.
  - intros k Hk. rewrite Hp. apply decide_False. unfold RECORD_TABLES in Hk.
    intros [ (p & -> & _)%list_elem_of_fmap|(p & -> & _)%list_elem_of_fmap]; apply Hk; cbn; set_solver.
Qed.

(** The fuel covers every partition the collector walks. *)
Definition fits (fuel : nat) m : Prop := ∀ t pk, t ∈ GC_TABLES → length (part m t pk) < fuel.

Lemma part_shrinks t pk m m' : shrinks [t] m m' → length (part m' t pk) ≤ length (part m t pk).
Proof.
  intros Hs. apply submseteq_length, NoDup_submseteq.
  - eapply NoDup_fmap_1, sorted_NoDup_fst, part_sorted.
  - intros [sk v] Hin. apply elem_of_part in Hin. apply elem_of_part.
    destruct (Hs (t, pk, sk)) as [Heq|Heq]; [by left|congruence|congruence].
Qed.

Lemma fits_shrinks fuel m m' : fits fuel m → shrinks GC_TABLES m m' → fits fuel m'.
Proof.
  intros Hf Hs t pk Ht. eapply Nat.le_lt_trans; [apply part_shrinks|by apply Hf].
  eapply shrinks_mono; [|done]. set_solver.
Qed.

Lemma fits_size fuel m : base.size m < fuel → fits fuel m.
Proof. intros Hs t pk _. eapply Nat.le_lt_trans; [apply length_part_size|done]. Qed.
End frames.

(** Inclusions between the lists of tables. *)
Ltac tables := apply (bool_decide_unpack _); vm_compute; exact I.

(** ** Repositories *)

Section repos.
Context `{Blake3} `{Serde ArtifactRecord} `{Serde TreeEntry} `{Serde RepoConfig} `{Chrono} `{UuidGen}.
Implicit Types (m : kvmap) (w : world kvmap).

(** A repository configuration that the store has. *)
Definition configured m (r : RepoConfig) : Prop :=
  ∃ sk b ver, m !! (TABLE_REPOS, SINGLE_PK, sk) = Some (b, ver) ∧ from_slice b = inr r.

(** The state that the services maintain: a configuration is under its name,
    records are under the keys of their paths, the clean-up policies do not
    overflow. *)
Definition healthy (now : DateTime) m : Prop :=
  (∀ sk b ver r, m !! (TABLE_REPOS, SINGLE_PK, sk) = Some (b, ver) → from_slice b = inr r → rc_name r = sk) ∧
  ∀ r, configured m r → stored_paths m (rc_name r) ∧
    is_Some (cutoff_of now (rc_cleanup_max_age_days r)) ∧ is_Some (cutoff_of now (rc_cleanup_max_unaccessed_days r)).

Lemma configured_shrinks m m' r : shrinks [TABLE_REPOS] m m' → configured m' r → configured m r.
Proof.
  intros Hs (sk & b & ver & Hm & Hb). exists sk, b, ver. split; [|done].
  destruct (Hs (TABLE_REPOS, SINGLE_PK, sk)) as [Heq|Heq]; [by left|congruence|congruence].
Qed.

Lemma stored_paths_shrinks m m' repo : shrinks [TABLE_ARTIFACTS] m m' → stored_paths m repo → stored_paths m' repo.
Proof.
  intros Hs Hm shard sk v Hsh Hin. apply (Hm shard sk v Hsh).
  destruct (Hs (TABLE_ARTIFACTS, artifact_shard_pk repo shard, sk)) as [Heq|Heq]; [by left|congruence|congruence].
Qed.

Lemma healthy_shrinks now m m' : shrinks GC_TABLES m m' → healthy now m → healthy now m'.
Proof.
  intros Hs [Hk Hr]. assert (shrinks [TABLE_REPOS] m m') as Hsr by (eapply shrinks_mono; [|done]; tables).
  split.
  - intros sk b ver r Hm Hb. apply (Hk sk b ver r); [|done].
    destruct (Hsr (TABLE_REPOS, SINGLE_PK, sk)) as [Heq|Heq]; [by left|congruence|congruence].
  - intros r Hc. destruct (Hr r (configured_shrinks _ _ _ Hsr Hc)) as (Hp & Ha & Hu).
    split_and!; [|done|done]. eapply stored_paths_shrinks; [|exact Hp]. eapply shrinks_mono; [|exact Hs]. tables.
Qed.

Lemma decode_all_elem {T} `{Serde T} (l : list (string * bytes)) (xs : list T) x :
  decode_all l = Ok xs → x ∈ xs → ∃ sk b, (sk, b) ∈ l ∧ from_slice b = inr x.
Proof.
  revert xs. induction l as [|[sk b] l IH]; intros xs; cbn [decode_all]; [intros [= <-] ?%elem_of_nil; done|].
  destruct (from_slice b) as [e|y] eqn:Hb; [done|]. cbn [serde_result result_bind].
  destruct (decode_all l) as [ys|] eqn:Hl; [|done]. intros [= <-] [->|Hin]%elem_of_cons.
  - exists sk, b. split; [by left|done].
  - destruct (IH ys eq_refl Hin) as (sk' & b' & Hin' & Hb'). exists sk', b'. split; [by right|done].
Qed.

Lemma decode_all_elem_inv {T} `{Serde T} (l : list (string * bytes)) (xs : list T) sk b x :
  decode_all l = Ok xs → (sk, b) ∈ l → from_slice b = inr x → x ∈ xs.
Proof.
  revert xs. induction l as [|[sk' b'] l IH]; intros xs; cbn [decode_all]; [by intros _ ?%elem_of_nil|].
  destruct (from_slice b') as [e|y] eqn:Hb'; [done|]. cbn [serde_result result_bind].
  destruct (decode_all l) as [ys|] eqn:Hl; [|done]. intros [= <-] [ [= <- <-]|Hin]%elem_of_cons Hb.
  - rewrite Hb' in Hb. injection Hb as ->. by left.
  - right. by apply (IH ys).
Qed.

Lemma stored_repos_configured m repos r : stored_repos m = Ok repos → r ∈ repos → configured m r.
Proof.
  intros Hr Hin. destruct (decode_all_elem _ _ _ Hr Hin) as (sk & b & Hsk & Hb).
  cbn [items scan_of] in Hsk. apply list_elem_of_fmap in Hsk as ([sk' [b' ver] ] & [= -> ->] & Htake).
  apply elem_of_take in Htake as (i & Hi & _). apply list_elem_of_lookup_2, list_elem_of_filter in Hi as [_ Hi].
  apply elem_of_part in Hi. by exists sk', b', ver.
Qed.

(** ** Draining *)

Definition DRAIN_TABLES : list string := [TABLE_ARTIFACTS; TABLE_DIR_ENTRIES; TABLE_REPOS].

Context `{Scheduler}.

Lemma drain_one fuel name w : fits fuel (w_kv w) →
  ∃ w', run (drain_deleting_repo (arrange 0 shard_range) (arrange 1 shard_range) fuel name) w = (Some (Ok tt), w') ∧
    deletes_in DRAIN_TABLES w w' ∧ w_kv w' !! repo_key name = None.
Proof.
  intros Hf. unfold drain_deleting_repo. rewrite run_bind_ok.
  destruct (drain_shards_spec fuel TABLE_ARTIFACTS (artifact_shard_pk name) (arrange 0 shard_range) w) as (m1 & Hr1 & Hd1).
  { apply Forall_forall. intros s _. apply Hf. tables. }
  rewrite Hr1, run_bind_ok.
  assert (∀ m m' (t : string) (f : N → string) (l : list N), drained (λ x, ∃ shard, shard ∈ l ∧ x = (t, f shard)) m m' →
    shrinks [t] m m' ∧ only [t] m m') as Hdrain.
  { intros m m' t f l Hd. split; intros [ [t' pk] sk] Hk; cbn in Hk; destruct (Hd t' pk sk) as [Hin Hout].
    - destruct (decide (Exists (λ s, (t', pk) = (t, f s)) l)) as [He|He]; rewrite Exists_exists in He; [by right; apply Hin|].
      left. by apply Hout.
    - apply Hout. intros (s & _ & [= -> _]). apply Hk. by left. }
  destruct (Hdrain _ _ _ _ _ Hd1) as [Hs1 Ho1].
  destruct (drain_shards_spec fuel TABLE_DIR_ENTRIES (tree_shard_pk name) (arrange 1 shard_range) (set_kv m1 w)) as (m2 & Hr2 & Hd2).
  { apply Forall_forall. intros s _. cbn [w_kv set_kv].
    eapply Nat.le_lt_trans; [apply (part_shrinks _ _ (w_kv w))|apply Hf; tables].
    apply (only_shrinks [TABLE_ARTIFACTS]); [|done]. intros x ->%list_elem_of_singleton. by intros ?%list_elem_of_singleton. }
  destruct (Hdrain _ _ _ _ _ Hd2) as [Hs2 Ho2]. cbn [w_kv set_kv] in Hs2, Ho2.
  rewrite Hr2. cbn [repo_key]. rewrite run_bind_ok, (run_kv_spec (Delete _ _ _)).
  cbn [spec_store fst snd run w_kv set_kv]. eexists. split; [done|].
  change (TABLE_REPOS, SINGLE_PK, name) with (repo_key name). cbn [w_kv set_kv]. split; [|apply lookup_delete_eq].
  assert (deletes_in DRAIN_TABLES w (set_kv m2 w)) as Hd.
  { transitivity (set_kv m1 w); [|eapply deletes_in_mono; [|split_and!; [exact Hs2|exact Ho2|done] ]; tables].
    eapply deletes_in_mono; [|split_and!; [exact Hs1|exact Ho1|done] ]. tables. }
  etrans; [exact Hd|]. split_and!; [| |done]; intros k Hk; cbn [w_kv set_kv];
    (destruct (decide (k = repo_key name)) as [->|Hne]; [rewrite lookup_delete_eq|by rewrite lookup_delete_ne; auto]).
  - by right.
  - destruct Hk. tables.
Qed.

Lemma deletes_in_fits tables fuel w w' : tables ⊆ GC_TABLES → deletes_in tables w w' → fits fuel (w_kv w) → fits fuel (w_kv w').
Proof.
  intros Ht Hd Hf. eapply fits_shrinks; [done|]. by destruct (deletes_in_mono _ _ _ _ Ht Hd) as [Hs _].
Qed.

Lemma drain_all_spec fuel deleting n w : fits fuel (w_kv w) →
  ∃ n' w', run (drain_all fuel deleting n) w = (Some n', w') ∧ deletes_in DRAIN_TABLES w w' ∧
    ∀ r, r ∈ deleting → w_kv w' !! repo_key (rc_name r) = None.
Proof.
  revert n w. induction deleting as [|r deleting IH]; intros n w Hf.
  { exists n, w. split_and!; [done|done|by intros ? ?%elem_of_nil]. }
  cbn [drain_all]. rewrite run_bind. destruct (drain_one fuel (rc_name r) w Hf) as (w1 & -> & Hd1 & Hn1).
  destruct (IH (if is_ok (Ok tt) then u64_add n 1 else n) w1) as (n' & w' & Hr & Hd & Hn).
  { eapply deletes_in_fits; [|done|done]. tables. }
  exists n', w'. split_and!; [exact Hr|by etrans|]. intros r' [->|Hin]%elem_of_cons; [|by apply Hn].
  destruct Hd as (Hs & _). destruct (Hs (repo_key (rc_name r))) as [Heq|]; [tables|congruence|done].
Qed.

Lemma part_shrinks_lt t pk m m' sk : shrinks [t] m m' → m' !! (t, pk, sk) = None → is_Some (m !! (t, pk, sk)) →
  length (part m' t pk) < length (part m t pk).
Proof.
  intros Hs Hn [v Hv].
  assert (length ((sk, v) :: part m' t pk) ≤ length (part m t pk)) as Hle; [|cbn in Hle; lia].
  apply submseteq_length, NoDup_submseteq.
  - constructor; [intros Hin%elem_of_part; congruence|]. eapply NoDup_fmap_1, sorted_NoDup_fst, part_sorted.
  - intros [sk' v'] [ [= -> ->]|Hin]%elem_of_cons; apply elem_of_part; [done|].
    apply elem_of_part in Hin. destruct (Hs (t, pk, sk')) as [Heq|Heq]; [by left|congruence|congruence].
Qed.

(** The loop ends: each round removes a configuration. *)
Lemma drain_loop_spec rounds fuel cancel n w :
  length (part (w_kv w) TABLE_REPOS SINGLE_PK) < rounds → fits fuel (w_kv w) → healthy (w_now w) (w_kv w) →
  wp (drain_loop rounds fuel cancel n) w (λ r w', deletes_in DRAIN_TABLES w w' ∧
    (is_ok r = true → cancel && w_cancelled w = false)).
Proof.
  revert n w. induction rounds as [|rounds IH]; intros n w Hr Hf Hh; [lia|]. cbn [drain_loop].
  unfold check_cancelled. apply wp_bind. eapply wp_intro; [apply run_cancel|].
  destruct (cancel && w_cancelled w) eqn:Hc; [by apply wp_ret|].
  apply wp_bind_ok. eapply wp_intro; [apply run_list_repos_raw|].
  destruct (stored_repos (w_kv w)) as [raw|e] eqn:Hraw; [|done].
  case_decide as Hnil; [by apply wp_ret|]. apply wp_bind.
  destruct (drain_all_spec fuel (filter (λ r, rc_deleting r = true) raw) n w Hf) as (n' & w1 & Hr1 & Hd1 & Hn1).
  eapply wp_intro; [exact Hr1|]. destruct (filter (λ r, rc_deleting r = true) raw) as [|r deleting] eqn:Hfil; [done|].
  assert (r ∈ raw) as Hraw_r.
  { assert (r ∈ filter (λ r, rc_deleting r = true) raw) as Hin by (rewrite Hfil; by left).
    by apply list_elem_of_filter in Hin as [_ ?]. }
  destruct (stored_repos_configured _ _ _ Hraw Hraw_r) as (sk & b & ver & Hm & Hb).
  assert (rc_name r = sk) as Hname by by eapply (proj1 Hh).
  eapply wp_mono; [apply IH|].
  - pose proof (part_shrinks_lt TABLE_REPOS SINGLE_PK (w_kv w) (w_kv w1) sk) as Hlt.
    assert (length (part (w_kv w1) TABLE_REPOS SINGLE_PK) < length (part (w_kv w) TABLE_REPOS SINGLE_PK)); [|lia].
    apply Hlt; [|rewrite <-Hname; apply Hn1; by left|by exists (b, ver)].
    destruct Hd1 as [Hs1 _]. eapply shrinks_mono; [|done]. tables.
  - eapply deletes_in_fits; [|done|done]. tables.
  - destruct Hd1 as (Hs1 & Ho1 & He1). destruct He1 as (_ & _ & -> & _). eapply healthy_shrinks; [|done].
    intros k Hk. destruct (decide (k.1.1 ∈ DRAIN_TABLES)); [by apply Hs1|left; by apply Ho1].
  - intros r2 w2 [Hd _]. split; [by etrans|done].
Qed.
End repos.

(** ** Stale uploads *)

Section uploads.
Context `{Serde UploadSessionRecord} `{Chrono} `{UuidGen}.
Implicit Types (m : kvmap) (w : world kvmap).

Definition UPLOAD_SESSION_TTL : Z := (3600 * 10 ^ 9)%Z.

(** A blob of an upload session that was last updated before the time to live. *)
Definition stale_upload w (x : string * string) : Prop :=
  ∃ s : UploadSessionRecord, x ∈ session_blobs s ∧
    (us_updated_at s < w_now w - default 0 (from_std UPLOAD_SESSION_TTL))%Z ∧
    ∃ sk b ver, w_kv w !! (TABLE_UPLOAD_SESSIONS, SINGLE_PK, sk) = Some (b, ver) ∧ from_slice b = inr s.

Lemma uploads_spec w :
  wp (cleanup_upload_sessions UPLOAD_SESSION_TTL) w (λ _ w',
    only [TABLE_UPLOAD_SESSIONS] (w_kv w) (w_kv w') ∧
    w_stores w' = w_stores w ∧ w_now w' = w_now w ∧ w_cancelled w' = w_cancelled w ∧
    ∀ x, ¬ stale_upload w x → w_blobs w' !! x = w_blobs w !! x).
Proof.
  unfold cleanup_upload_sessions. apply wp_bind_ok. unfold list_upload_sessions, typed_list.
  apply wp_bind_ok, wp_read; [done|]. cbn [spec_store fst]. apply wp_ret.
  destruct (decode_all _) as [sessions|e] eqn:Hd; [|done].
  apply wp_bind, wp_call. change (handle ENow w) with (w_now w, w). cbn [fst snd]. cbv zeta.
  set (expired := filter _ sessions). apply wp_bind. eapply wp_intro; [apply run_drop_session_blobs|].
  set (w1 := set_blobs _ w).
  assert (∀ x, ¬ stale_upload w x → w_blobs w1 !! x = w_blobs w !! x) as Hblobs.
  { intros x Hx. unfold w1. cbn [w_blobs set_blobs]. rewrite delete_blobs_lookup. apply decide_False.
    unfold dropped_blobs. intros (s & [_ Hs]%list_elem_of_filter & Hxs)%elem_of_concat_fmap. apply Hx.
    unfold expired in Hs. apply list_elem_of_filter in Hs as [Hold Hs].
    exists s. split_and!; [done|done|].
    destruct (decode_all_elem _ _ _ Hd Hs) as (sk & b & Hsk & Hb).
    cbn [items scan_of] in Hsk. apply list_elem_of_fmap in Hsk as ([sk' [b' ver] ] & [= -> ->] & Htake).
    apply elem_of_take in Htake as (i & Hi & _). apply list_elem_of_lookup_2, list_elem_of_filter in Hi as [_ Hi].
    apply elem_of_part in Hi. by exists sk', b', ver. }
  apply wp_bind. case_decide as Hnil; [by apply wp_ret, wp_ret|].
  apply (wp_kv (DeleteBatch _ _)). cbn [spec_store]. rewrite spec_delete_batch_eq. cbn [fst snd try_]. apply wp_ret.
  split_and!; [|done..]. intros [ [t pk] sk] Hk. cbn [w_kv set_kv]. rewrite delete_all_lookup.
  apply decide_False. intros [-> _]. apply Hk. by left.
Qed.
End uploads.

(** ** Expiry and the Docker repositories *)

Section docker_phases.
Context `{Blake3} `{Serde ArtifactRecord} `{Serde TreeEntry} `{Serde RepoConfig} `{Chrono} `{SerdeJson} `{BloomCrate}
  `{Scheduler} `{UuidGen}.
Implicit Types (m : kvmap) (w : world kvmap).

(** The repositories that the pass works on, in a state it can work on. *)
Definition ready (fuel : nat) (repos : list RepoConfig) (cancel : bool) w : Prop :=
  fits fuel (w_kv w) ∧ cancel && w_cancelled w = false ∧
  ∀ r, r ∈ repos → stored_paths (w_kv w) (rc_name r) ∧
    is_Some (cutoff_of (w_now w) (rc_cleanup_max_age_days r)) ∧
    is_Some (cutoff_of (w_now w) (rc_cleanup_max_unaccessed_days r)).

Lemma ready_deletes fuel repos cancel w w' : deletes_in RECORD_TABLES w w' →
  ready fuel repos cancel w → ready fuel repos cancel w'.
Proof.
  intros Hd (Hf & Hc & Hr). pose proof Hd as (Hs & Ho & (_ & _ & Hnow & _ & Hcan)). split_and!.
  - eapply deletes_in_fits; [|done|done]. tables.
  - by rewrite Hcan.
  - intros r Hin. rewrite Hnow. destruct (Hr r Hin) as (Hp & Ha & Hu). split_and!; [|done|done].
    eapply stored_paths_shrinks; [|exact Hp]. eapply shrinks_mono; [|exact Hs]. tables.
Qed.

Lemma fits_shards fuel m repo : fits fuel m → shards_fit m repo fuel.
Proof.
  intros Hf. apply Forall_forall. intros s _. unfold entries. rewrite length_fmap.
  eapply Nat.le_lt_trans; [apply length_filter|apply Hf; tables].
Qed.

Lemma progress_deletes (b : bool) (f : TaskProgress → TaskProgress) w : ∃ w', run (send_progress b f) w = (Some tt, w') ∧ deletes_in RECORD_TABLES w w'.
Proof. destruct b; eexists; (split; [done|]); split_and!; done || (by left). Qed.

Lemma wp_progress {A : Type} (b : bool) (f : TaskProgress → TaskProgress) (k : prog A) w (Q : A → world kvmap → Prop) :
  (∀ w', deletes_in RECORD_TABLES w w' → wp k w' Q) → wp (bind (send_progress b f) (λ _, k)) w Q.
Proof.
  intros Hk. apply wp_bind. destruct (progress_deletes b f w) as (w' & Hr & Hd).
  eapply wp_intro; [exact Hr|]. by apply Hk.
Qed.

Lemma wp_try_fold_deletes {X A : Type} (fuel : nat) (repos : list RepoConfig) (cancel : bool) (l : list X) (f : A → X → prog (result A)) (a : A) w :
  ready fuel repos cancel w →
  (∀ (a : A) (x : X) w, x ∈ l → ready fuel repos cancel w → wp (f a x) w (λ _ w', deletes_in RECORD_TABLES w w')) →
  wp (try_fold l f a) w (λ _ w', deletes_in RECORD_TABLES w w').
Proof.
  intros Hready Hf. revert a w Hready. induction l as [|x l IH]; intros a w Hready; cbn [try_fold]; [by apply wp_ret|].
  apply wp_bind_ok. eapply wp_mono; [apply Hf; [by left|done] |]. intros [a'|e] w1 Hd1; [|done].
  eapply wp_mono; [apply IH; [intros; apply Hf; [by right|done]|by eapply ready_deletes] |].
  intros r w2 Hd2. by etrans.
Qed.

Lemma wp_check_cancelled {A : Type} (cancel : bool) (k : prog (result A)) w (Q : result A → world kvmap → Prop) :
  cancel && w_cancelled w = false → wp k w Q → wp (check_cancelled cancel k) w Q.
Proof.
  intros Hc Hk. unfold check_cancelled. apply wp_bind. eapply wp_intro; [apply run_cancel|]. by rewrite Hc.
Qed.

Lemma pre_expire_spec fuel repos cancel progress w : ready fuel repos cancel w →
  wp (pre_expire fuel repos cancel progress) w (λ _ w', deletes_in RECORD_TABLES w w').
Proof.
  intros Hready. unfold pre_expire. case_decide; [by apply wp_ret|]. apply wp_progress. intros w1 Hd1.
  eapply wp_mono; [apply (wp_try_fold_deletes fuel repos cancel); [by eapply ready_deletes|] |].
  - intros a r w2 Hr (Hf & Hc & Hrs). rewrite arrange_perm in Hr. apply list_elem_of_filter in Hr as [_ Hr].
    destruct (Hrs r Hr) as (Hp & [age Hage] & [un Hun]). apply wp_bind_ok.
    eapply wp_mono; [apply (expire_repo_spec (arrange 3 shard_range) fuel cancel r age un);
      [apply arrange_perm|done|by apply fits_shards|done..] |].
    intros res w3 (-> & Hpurge & He). apply wp_progress. intros w4 Hd4. apply wp_ret.
    etrans; [|done]. by eapply purged_deletes.
  - intros r w2 Hd2. by etrans.
Qed.

Lemma docker_phase_spec fuel repos dry cancel progress w grace : ready fuel repos cancel w →
  duration_seconds (i64_wrap DOCKER_GC_GRACE_SECS) = Some grace →
  wp (docker_phase fuel repos dry cancel progress) w (λ _ w', deletes_in RECORD_TABLES w w').
Proof.
  intros Hready Hg. unfold docker_phase. apply wp_progress. intros w1 Hd1.
  eapply wp_mono; [apply (wp_try_fold_deletes fuel repos cancel); [by eapply ready_deletes|] |].
  - intros a r w2 Hr (Hf & Hc & Hrs). apply wp_bind_ok.
    eapply wp_mono; [apply (docker_gc_spec (arrange 5 shard_range) fuel r dry cancel grace);
      [apply arrange_perm|by apply fits_shards|done..] |].
    intros res w3 (He & Hres).
    assert (deletes_in RECORD_TABLES w2 w3) as Hd3.
    { destruct (new_for_fp_rate _) as [e|bf].
      - destruct Hres as [_ Hk]. split_and!; [| |done]; intros k _; rewrite Hk; auto.
      - destruct Hres as (_ & R & _ & Hp). by eapply purged_deletes. }
    destruct res as [n|e]; [|done]. apply wp_progress. intros w4 Hd4. apply wp_ret. by etrans.
  - intros r w2 Hd2. by etrans.
Qed.
End docker_phases.

(** ** The artifact scan *)

Section scan.
Context `{Blake3} `{Serde ArtifactRecord} `{Serde TreeEntry} `{Serde RepoConfig} `{Chrono}
  `{BloomCrate} `{Scheduler} `{UuidGen}.
Implicit Types (m : kvmap) (w : world kvmap).

Lemma estimate_total_reads fuel repos n w : ∃ n', run (estimate_total fuel repos n) w = (Some n', w).
Proof.
  revert n. induction repos as [|r repos IH]; intros n; [by eexists|]. cbn [estimate_total].
  assert (∃ res, run (get_repo_stats fuel r) w = (Some res, w) ∨ ∃ ms u, rc_kind r = Proxy ms u) as (res & Hres).
  { unfold get_repo_stats. destruct (rc_kind r) eqn:Hk; [| |exists (Ok (mkRepoStats 0 0)); right; by eexists _, _];
      rewrite run_bind_ok, run_get_dir; destruct (dir_of (w_kv w) (rc_name r) "") as [ [d|]|e]; eexists; by left. }
  destruct (rc_kind r) eqn:Hk; [| |apply IH]; (destruct Hres as [Hres|(? & ? & ?)]; [|done]);
    rewrite run_bind, Hres; apply IH.
Qed.

(** The filter has the blob of the record. *)
Definition in_filter (bf : Bloom) (b : bytes) : Prop :=
  ∀ record id, from_slice b = inr record → ar_blob_id record = Some id → bloom_check bf id = true.

Lemma in_filter_grows (bf bf' : Bloom) b : (∀ x, bloom_check bf x = true → bloom_check bf' x = true) → in_filter bf b → in_filter bf' b.
Proof. intros Hg Hb record id Hr Hid. eapply Hg, Hb; done. Qed.

Lemma gc_items_spec t items bf sc entries w :
  ∃ bf' sc', run (gc_items t items (bf, sc, entries)) w =
      (Some (bf', sc', entries ++ expired_of (w_kv w) (st_repo t) (st_docker t) (st_age t) (st_unaccessed t) items), w) ∧
    bloom_like bf bf' ∧ (∀ x, bloom_check bf x = true → bloom_check bf' x = true) ∧
    ∀ sk b record, (sk, b) ∈ items → from_slice b = inr record →
      expiry_of (w_kv w) (st_repo t) (st_docker t) (st_age t) (st_unaccessed t) sk record = None → in_filter bf' b.
Proof.
  revert bf sc entries. induction items as [|[sk b] items IH]; intros bf sc entries.
  { exists bf, sc. cbn. rewrite app_nil_r. split_and!; [done|done|done|by intros ? ? ? ?%elem_of_nil]. }
  cbn [gc_items]. unfold expired_of. cbn [omap list_omap]. destruct (from_slice b) as [e|record] eqn:Hb.
  { destruct (IH bf sc entries) as (bf' & sc' & Hr & Hl & Hg & Hin). exists bf', sc'. split_and!; [exact Hr|done|done|].
    intros sk' b' r' [ [= -> ->]|Hin']%elem_of_cons Hb'; [congruence|by eapply Hin]. }
  rewrite run_bind, run_record_expired. set (ex := expiry_of _ _ _ _ _ sk record) in *.
  destruct ex as [reason|] eqn:Hex; cbn [fmap option_fmap option_map].
  { destruct (IH bf sc (entries ++ [(sk, ar_size record, reason)])) as (bf' & sc' & Hr & Hl & Hg & Hin).
    exists bf', sc'. rewrite <-(assoc_L (++)) in Hr. split_and!; [exact Hr|done|done|].
    intros sk' b' r' [ [= -> ->]|Hin']%elem_of_cons Hb'; [|by eapply Hin].
    rewrite Hb in Hb'. injection Hb' as <-. unfold ex in Hex. congruence. }
  set (bf1 := match ar_blob_id record with Some id => bloom_set bf id | None => bf end).
  destruct (IH bf1 (u64_add sc 1) entries) as (bf' & sc' & Hr & Hl & Hg & Hin).
  assert (bloom_like bf bf1 ∧ ∀ x, bloom_check bf x = true → bloom_check bf1 x = true) as [Hl1 Hg1].
  { unfold bf1. destruct (ar_blob_id record); [|done]. split; [apply bloom_set_like|]. intros x. apply bloom_set_keeps. }
  exists bf', sc'. split_and!; [exact Hr|by eapply bloom_like_trans|auto|].
  intros sk' b' r' [ [= -> ->]|Hin']%elem_of_cons Hb'; [|by eapply Hin]. intros _ rec2 id Hrec2 Hid.
  apply Hg. rewrite Hb in Hrec2. injection Hrec2 as <-. unfold bf1. rewrite Hid. apply bloom_set_check.
Qed.

Lemma send_expired_deletes repo entries w :
  ∃ w', run (send_expired repo entries) w = (Some tt, w') ∧ w_kv w' = w_kv w ∧ same_env w w'.
Proof. destruct (run_send_expired repo entries w) as (evs & Hr). by eexists. Qed.

(** The partition of a task. *)
Definition task_pk (t : scan_task) : string := artifact_shard_pk (st_repo t) (st_shard t).

(** What the tasks that are done have put into the filter. *)
Definition covers w (pk : string) (P : string → Prop) : Prop :=
  ∀ sk b ver record id, w_kv w !! (TABLE_ARTIFACTS, pk, sk) = Some (b, ver) → from_slice b = inr record →
    ar_blob_id record = Some id → P id.

Lemma covers_deletes w w' (pk : string) (P P' : string → Prop) : deletes_in RECORD_TABLES w w' →
  (∀ x, P x → P' x) → covers w pk P → covers w' pk P'.
Proof.
  intros (Hs & _) HP Hc sk b ver record id Hm Hb Hid. apply HP. apply (Hc sk b ver record id); [|done|done].
  destruct (Hs (TABLE_ARTIFACTS, pk, sk)) as [Heq|Heq]; [tables|congruence|congruence].
Qed.

Lemma gc_batch_spec t dry batch bf sc ex live w :
  (∀ x, x ∈ batch → artifact_key (st_repo t) x.1 = (TABLE_ARTIFACTS, task_pk t, x.1)) →
  wp (gc_batch t dry (bf, sc, ex, live) batch) w (λ r w', deletes_in RECORD_TABLES w w' ∧
    (∀ sk, sk ∉ batch.*1 → w_kv w' !! (TABLE_ARTIFACTS, task_pk t, sk) = w_kv w !! (TABLE_ARTIFACTS, task_pk t, sk)) ∧
    ∃ bf' sc' ex' live', r = Ok (bf', sc', ex', live') ∧ bloom_like bf bf' ∧
      (∀ x, bloom_check bf x = true → bloom_check bf' x = true) ∧
      (dry = false → ∀ sk b, (sk, b) ∈ batch → in_filter bf' b ∨ w_kv w' !! (TABLE_ARTIFACTS, task_pk t, sk) = None)).
Proof.
  intros Hkeys. unfold gc_batch.
  destruct (gc_items_spec t batch bf sc [] w) as (bf' & sc' & Hr & Hl & Hg & Hin).
  apply wp_bind. eapply wp_intro; [exact Hr|]. cbn [app]. clear Hr.
  set (entries := expired_of _ _ _ _ _ batch).
  assert (∀ sk b, (sk, b) ∈ batch → in_filter bf' b ∨ sk ∈ expired_paths entries) as Hcase.
  { intros sk b Hb. destruct (from_slice (A:=ArtifactRecord) b) as [e|record] eqn:Hrec; [left; intros r' id Hr'; congruence|].
    destruct (expiry_of (w_kv w) (st_repo t) (st_docker t) (st_age t) (st_unaccessed t) sk record) as [reason|] eqn:Hex.
    - right. apply elem_of_expired_paths. by exists b, record, reason.
    - left. by eapply Hin. }
  case_decide as Hd.
  - destruct (run_delete_paired w (st_repo t) (expired_paths entries)) as (m' & Hr & Hp).
    apply wp_bind_ok. eapply wp_intro; [exact Hr|]. apply wp_bind.
    destruct (send_expired_deletes (st_repo t) entries (set_kv m' w)) as (w' & Hr' & Hk & He).
    eapply wp_intro; [exact Hr'|]. apply wp_ret. rewrite Hk. split_and!.
    + eapply purged_deletes; [|done]. rewrite Hk. exact Hp.
    + intros sk Hsk. cbn [w_kv set_kv]. rewrite (Hp (TABLE_ARTIFACTS, task_pk t, sk)). apply decide_False.
      intros [ (p & Heq & Hp')%list_elem_of_fmap|(p & Heq & _)%list_elem_of_fmap]; [|done].
      apply expired_path_elem in Hp'. apply list_elem_of_fmap in Hp' as (y & -> & Hy).
      rewrite (Hkeys y Hy) in Heq. simplify_eq. by apply Hsk, list_elem_of_fmap_2.
    + eexists bf', sc', _, _. split_and!; [done|done|done|]. intros _ sk b Hb.
      destruct (Hcase sk b Hb) as [|Hsk]; [by left|right]. cbn [w_kv set_kv].
      rewrite (Hp (TABLE_ARTIFACTS, task_pk t, sk)). apply decide_True. left. apply list_elem_of_fmap.
      exists sk. split; [|done]. symmetry. apply (Hkeys (sk, b) Hb).
  - apply wp_ret. split_and!; [done|done|]. eexists bf', sc', _, _. split_and!; [done|done|done|].
    intros -> sk b Hb. destruct (Hcase sk b Hb) as [|Hsk]; [by left|]. exfalso. apply Hd. split; [|done].
    intros Hnil. rewrite Hnil in Hsk. by apply elem_of_nil in Hsk.
Qed.

(** One task: its records are in the accumulator when it ends. *)
Lemma scan_one_spec fuel repos template dry cancel progress st t w r :
  ready fuel repos cancel w → r ∈ repos → st_repo t = rc_name r → st_shard t ∈ shard_range →
  acc_like template (ss_acc st) →
  wp (scan_one fuel template dry cancel progress st t) w (λ res w', deletes_in RECORD_TABLES w w' ∧
    ∃ st', res = Ok st' ∧ acc_like template (ss_acc st') ∧ bits_le (acc_bits (ss_acc st)) (acc_bits (ss_acc st')) ∧
      (dry = false → covers w' (task_pk t) (acc_has template (ss_acc st')))).
Proof.
  intros (Hf & Hc & Hrs) Hr Hname Hsh Hacc. destruct (Hrs r Hr) as (Hp & _ & _). rewrite <-Hname in Hp. clear Hrs.
  unfold scan_one. cbv zeta. fold (task_pk t). destruct (bloom_empty_like_ok template) as (bf0 & -> & Hbf0). cbn [try_].
  apply wp_bind_ok. set (l := entries (w_kv w) TABLE_ARTIFACTS (task_pk t) "").
  assert (∀ x, x ∈ l → artifact_key (st_repo t) x.1 = (TABLE_ARTIFACTS, task_pk t, x.1)) as Hkeys.
  { intros x Hx. by apply (stored_paths_elem (w_kv w) (st_repo t) (st_shard t) x). }
  apply wp_scan_batches with (I := λ rem res w', deletes_in RECORD_TABLES w w' ∧
    ∃ dn bf sc ex live, l = dn ++ rem ∧ res = (bf, sc, ex, live) ∧ bloom_like template bf ∧
      (dry = false → ∀ sk b, (sk, b) ∈ dn → in_filter bf b ∨ w_kv w' !! (TABLE_ARTIFACTS, task_pk t, sk) = None)).
  - cbn [default from_option]. rewrite entries_from_start. fold l.
    pose proof (fits_shards fuel (w_kv w) (st_repo t) Hf) as Hfit. unfold shards_fit in Hfit.
    rewrite Forall_forall in Hfit. by apply Hfit.
  - cbn [default from_option]. rewrite entries_from_start. split; [done|]. eexists [], _, _, _, _.
    split_and!; [done|done|done|by intros _ ? ? ?%elem_of_nil].
  - intros batch rem res w1 (Hd1 & dn & bf & sc & ex & live & Hl & -> & Hbf & Hdn) _.
    eapply wp_mono; [apply gc_batch_spec|].
    { intros x Hx. apply Hkeys. rewrite Hl. apply elem_of_app. right. apply elem_of_app. by left. }
    intros res w2 (Hd2 & Hkeep & bf' & sc' & ex' & live' & -> & Hl' & Hg & Hin). split; [exact Hkeep|].
    split; [by etrans|]. exists (dn ++ batch), bf', sc', ex', live'.
    split_and!; [by rewrite <-(assoc_L (++))|done|by eapply bloom_like_trans|].
    intros Hdry sk b [Hb|Hb]%elem_of_app; [|by apply Hin].
    destruct (Hdn Hdry sk b Hb) as [Hbb|Hnone]; [left; by eapply in_filter_grows|right].
    destruct Hd2 as (Hs2 & _). destruct (Hs2 (TABLE_ARTIFACTS, task_pk t, sk)) as [Heq|]; [tables|congruence|done].
  - intros res w1 (Hd1 & dn & bf & sc & ex & live & Hl & -> & Hbf & Hdn).
    destruct (or_from_ok template (ss_acc st) bf Hacc Hbf) as (acc' & Hor & Hacc' & Hle & Hpay).
    cbv beta iota zeta. rewrite Hor. cbn [try_].
    assert (dry = false → covers w1 (task_pk t) (acc_has template acc')) as Hcov.
    { intros Hdry sk b ver record id Hm Hb Hid. exists bf. split_and!; [done| |done].
      destruct Hd1 as (Hs1 & _). assert ((sk, b) ∈ l) as Hin.
      { apply elem_of_entries. split; [apply starts_with_nil|]. exists ver.
        destruct (Hs1 (TABLE_ARTIFACTS, task_pk t, sk)) as [Heq|Heq]; [tables|congruence|congruence]. }
      rewrite app_nil_r in Hl. rewrite Hl in Hin. destruct (Hdn Hdry sk b Hin) as [Hbb|Hnone]; [by eapply Hbb|congruence]. }
    apply wp_bind. case_decide.
    + destruct (progress_deletes progress tp_gc_repo_done w1) as (w2 & Hr2 & Hd2). eapply wp_intro; [exact Hr2|].
      apply wp_ret. split; [by etrans|]. eexists. split_and!; [done|done|done|]. intros Hdry.
      eapply covers_deletes; [done| |by apply Hcov]. done.
    + apply wp_ret, wp_ret. split; [done|]. eexists. by split_and!.
  - intros rem res w1 (Hd1 & _) Hcc. destruct Hd1 as (_ & _ & (_ & _ & _ & _ & Hcan)). rewrite Hcan in Hcc. congruence.
Qed.

Lemma elem_of_concat {A} (x : A) (ls : list (list A)) : x ∈ concat ls ↔ ∃ l, x ∈ l ∧ l ∈ ls.
Proof.
  induction ls as [|l ls IH]; cbn [concat].
  - split; [by intros ?%elem_of_nil|]. by intros (? & _ & ?%elem_of_nil).
  - rewrite elem_of_app, IH. split.
    + intros [?|(l' & ? & ?)]; [exists l; split; [done|by left]|exists l'; split; [done|by right] ].
    + intros (l' & ? & [->|?]%elem_of_cons); [by left|right; by exists l'].
Qed.

Lemma Forall2_elem_l {A B} (P : A → B → Prop) l k x : Forall2 P l k → x ∈ l → ∃ y, y ∈ k ∧ P x y.
Proof.
  induction 1 as [|a b l k Hab _ IH]; [by intros ?%elem_of_nil|]. intros [->|Hx]%elem_of_cons.
  - exists b. split; [by left|done].
  - destruct (IH Hx) as (y & ? & ?). exists y. split; [by right|done].
Qed.

(** The tasks are those of the repositories. *)
Lemma scan_tasks_spec now repos : (∀ r, r ∈ repos → is_Some (cutoff_of now (rc_cleanup_max_age_days r)) ∧
    is_Some (cutoff_of now (rc_cleanup_max_unaccessed_days r))) →
  ∃ tasks, scan_tasks now repos = Some tasks ∧
    (∀ t, t ∈ tasks → ∃ r, r ∈ repos ∧ st_repo t = rc_name r ∧ st_shard t ∈ shard_range) ∧
    ∀ r shard, r ∈ repos → shard ∈ shard_range → ∃ t, t ∈ tasks ∧ st_repo t = rc_name r ∧ st_shard t = shard.
Proof.
  intros Hcut. unfold scan_tasks.
  assert (∀ x, x ∈ imap pair repos ↔ ∃ i, repos !! i = Some x.2 ∧ x.1 = i) as Hin.
  { intros [i r]. rewrite elem_of_lookup_imap. cbn. split; [intros (j & y & [= -> ->] & Hj); by exists j|].
    intros (j & Hj & ->). by exists j, r. }
  assert (∀ x, x ∈ imap pair repos → ∃ age un, repo_tasks now x =
    Some (mkScanTask x.1 (rc_name x.2) (bool_decide (repo_format x.2 = FDocker)) age un <$> shard_range)) as Htask.
  { intros [i r] (j & Hj & _)%Hin. destruct (Hcut r) as ([age Ha] & [un Hu]); [by eapply list_elem_of_lookup_2|].
    exists age, un. unfold repo_tasks. rewrite Ha. cbn [mbind option_bind]. rewrite Hu. done. }
  destruct (mapM (repo_tasks now) (imap pair repos)) as [ts|] eqn:Hts.
  - exists (concat ts). split; [done|]. apply mapM_Some in Hts. split.
    + intros t Ht. apply elem_of_concat in Ht as (ys & Ht & Hys).
      destruct (Forall2_elem_l _ _ _ _ (proj2 (Forall2_flip _ _ _) Hts) Hys) as (x & Hx & Heq). destruct (Htask x Hx) as (age & un & Heq').
      unfold flip in Heq. rewrite Heq' in Heq. apply (inj Some) in Heq. subst ys. apply list_elem_of_fmap in Ht as (s & -> & Hs).
      apply Hin in Hx as (j & Hj & _). exists x.2. split; [by eapply list_elem_of_lookup_2|done].
    + intros r shard Hr Hs. apply list_elem_of_lookup in Hr as (i & Hi).
      assert ((i, r) ∈ imap pair repos) as Hx by (apply Hin; by exists i).
      destruct (Forall2_elem_l _ _ _ _ Hts Hx) as (ys & Hys & Heq). destruct (Htask _ Hx) as (age & un & Heq').
      rewrite Heq' in Heq. apply (inj Some) in Heq. subst ys. eexists. split.
      * apply elem_of_concat. eexists. split; [|exact Hys]. by apply list_elem_of_fmap_2, Hs.
      * done.
  - exfalso. apply eq_None_not_Some in Hts. apply Hts, mapM_is_Some_2, Forall_forall. intros x Hx.
    destruct (Htask x Hx) as (age & un & Heq). unfold compose. rewrite Heq. by eexists.
Qed.

Lemma wp_scan_all fuel repos template dry cancel progress tasks st w :
  ready fuel repos cancel w → acc_like template (ss_acc st) →
  (∀ t, t ∈ tasks → ∃ r, r ∈ repos ∧ st_repo t = rc_name r ∧ st_shard t ∈ shard_range) →
  wp (try_fold tasks (scan_one fuel template dry cancel progress) st) w (λ res w', deletes_in RECORD_TABLES w w' ∧
    ∃ st', res = Ok st' ∧ acc_like template (ss_acc st') ∧ bits_le (acc_bits (ss_acc st)) (acc_bits (ss_acc st')) ∧
      (dry = false → ∀ t, t ∈ tasks → covers w' (task_pk t) (acc_has template (ss_acc st')))).
Proof.
  revert st w. induction tasks as [|t tasks IH]; intros st w Hready Hacc Htasks; cbn [try_fold].
  { apply wp_ret. split; [done|]. exists st. split_and!; [done|done|apply bits_le_refl|by intros _ ? ?%elem_of_nil]. }
  destruct (Htasks t ltac:(by left)) as (r & Hr & Hname & Hsh). apply wp_bind_ok.
  eapply wp_mono; [by eapply scan_one_spec|]. intros res w1 (Hd1 & st1 & -> & Hacc1 & Hle1 & Hcov1).
  eapply wp_mono; [apply IH; [by eapply ready_deletes|done|intros; apply Htasks; by right] |].
  intros res w2 (Hd2 & st2 & -> & Hacc2 & Hle2 & Hcov2). split; [by etrans|]. exists st2.
  split_and!; [done|done|by eapply bits_le_trans|]. intros Hdry t' [->|Ht']%elem_of_cons; [|by apply Hcov2].
  eapply covers_deletes; [done| |by apply Hcov1]. intros x. by apply acc_has_grows.
Qed.

(** After the scan, the filter has the blobs of all records that are left. *)
Lemma artifact_scan_spec fuel repos dry cancel progress w : ready fuel repos cancel w →
  wp (artifact_scan fuel repos dry cancel progress) w (λ res w', deletes_in RECORD_TABLES w w' ∧
    ∀ bf n1 n2, res = Ok (bf, n1, n2) → dry = false → ∀ r shard, r ∈ repos → shard ∈ shard_range →
      covers w' (artifact_shard_pk (rc_name r) shard) (λ id, bloom_check bf id = true)).
Proof.
  intros Hready. unfold artifact_scan. apply wp_bind. destruct (estimate_total_reads fuel repos 0 w) as [n Hn].
  eapply wp_intro; [exact Hn|]. cbv zeta. apply wp_progress. intros w1 Hd1.
  destruct (new_for_fp_rate _) as [e|template]; [apply wp_ret; by split|].
  apply wp_bind, wp_call. change (handle ENow w1) with (w_now w1, w1). cbn [fst snd].
  pose proof (ready_deletes _ _ _ _ _ Hd1 Hready) as Hready1.
  destruct (scan_tasks_spec (w_now w1) repos) as (tasks & -> & Htasks & Hall).
  { intros r Hr. by destruct (proj2 (proj2 Hready1) r Hr) as (_ & ? & ?). }
  apply wp_bind_ok. eapply wp_mono; [apply (wp_scan_all fuel repos template dry cancel progress (arrange 6 tasks)); [done|apply acc_empty_like_ok|] |].
  { intros t Ht. rewrite arrange_perm in Ht. by apply Htasks. }
  intros res w2 (Hd2 & st & -> & Hacc & _ & Hcov).
  destruct (finalize_ok template (ss_acc st) Hacc) as (bf & -> & Hbf). cbn [try_].
  apply wp_progress. intros w3 Hd3. apply wp_ret. split; [by do 2 (etrans; [done|])|].
  intros bf' n1 n2 [= <- _ _] Hdry r shard Hr Hsh. destruct (Hall r shard Hr Hsh) as (t & Ht & Hname & Hshard).
  eapply covers_deletes; [exact Hd3| |]; [exact Hbf|]. specialize (Hcov Hdry t). rewrite arrange_perm in Hcov.
  specialize (Hcov Ht). unfold task_pk in Hcov. by rewrite Hname, Hshard in Hcov.
Qed.
End scan.

(** ** Marking *)

Section mark.
Context `{Blake3} `{Serde ArtifactRecord} `{Serde TreeEntry} `{Serde RepoConfig} `{Serde StoreRecord}
  `{Serde UploadSessionRecord} `{Chrono} `{SerdeJson} `{BloomCrate} `{Scheduler} `{UuidGen}.
Implicit Types (m : kvmap) (w : world kvmap).

(** The repositories that are not being deleted, among those that [list_repos]
    returns: it stops after [ADMIN_ENTITY_CAP], 10,000 ([Repo.stored_repos]).
    The mark phase works through that list, so a repository past the cap is
    not protected (gc_pass.rs:127). *)
Definition live_repo m (r : RepoConfig) : Prop :=
  ∃ repos, stored_repos m = Ok repos ∧ r ∈ repos ∧ rc_deleting r = false.

Definition MARK_TABLES : list string := [TABLE_ARTIFACTS; TABLE_DIR_ENTRIES; TABLE_REPOS; TABLE_UPLOAD_SESSIONS].

(** The frame of the phases before the sweep. *)
Definition marked w w' : Prop :=
  shrinks GC_TABLES (w_kv w) (w_kv w') ∧ only MARK_TABLES (w_kv w) (w_kv w') ∧
  w_stores w' = w_stores w ∧ w_now w' = w_now w ∧ w_cancelled w' = w_cancelled w ∧
  ∀ x, ¬ stale_upload w x → w_blobs w' !! x = w_blobs w !! x.

Lemma deletes_marked w w' : deletes_in DRAIN_TABLES w w' → marked w w'.
Proof.
  intros (Hs & Ho & (Hb & Hst & Hn & _ & Hc)). split_and!; [|eapply only_mono; [|done]; tables|done|done|done|by rewrite Hb].
  intros k Hk. destruct (decide (k.1.1 ∈ DRAIN_TABLES)); [by apply Hs|left; by apply Ho].
Qed.

(** Later deletions keep the frame. *)
Lemma marked_deletes w w1 w2 : marked w w1 → deletes_in RECORD_TABLES w1 w2 → marked w w2.
Proof.
  intros (Hs & Ho & Hst & Hn & Hc & Hb) (Hs2 & Ho2 & (Hb2 & Hst2 & Hn2 & _ & Hc2)). split_and!.
  - etrans; [exact Hs|]. intros k Hk. destruct (decide (k.1.1 ∈ RECORD_TABLES)); [by apply Hs2|left; by apply Ho2].
  - etrans; [exact Ho|]. eapply only_mono; [|exact Ho2]. tables.
  - by rewrite Hst2.
  - by rewrite Hn2.
  - by rewrite Hc2.
  - intros x Hx. rewrite Hb2. by apply Hb.
Qed.

Lemma stored_repos_only m m' : (∀ sk, m' !! (TABLE_REPOS, SINGLE_PK, sk) = m !! (TABLE_REPOS, SINGLE_PK, sk)) →
  stored_repos m' = stored_repos m.
Proof. intros Hm. unfold stored_repos. by rewrite (part_ext m' m). Qed.

(** The records of the repository that are left have their blobs in the
    filter. *)
Definition covered m (bf : Bloom) : Prop :=
  ∀ r shard sk b ver record id, live_repo m r → shard ∈ shard_range →
    m !! (TABLE_ARTIFACTS, artifact_shard_pk (rc_name r) shard, sk) = Some (b, ver) → from_slice b = inr record →
    ar_blob_id record = Some id → bloom_check bf id = true.

Lemma mark_phase_spec rounds fuel dry cancel progress grace w :
  length (part (w_kv w) TABLE_REPOS SINGLE_PK) < rounds → fits fuel (w_kv w) → healthy (w_now w) (w_kv w) →
  duration_seconds (i64_wrap DOCKER_GC_GRACE_SECS) = Some grace →
  wp (mark_phase rounds fuel dry cancel progress) w (λ res w', marked w w' ∧
    ∀ a b stores bf c d e, res = Ok (a, b, stores, bf, c, d, e) →
      cancel && w_cancelled w = false ∧ (dry = false → covered (w_kv w') bf)).
Proof.
  intros Hrounds Hf Hh Hg. unfold mark_phase. apply wp_progress. intros w0 Hd0.
  assert (deletes_in DRAIN_TABLES w w0) as Hd0' by (eapply deletes_in_mono; [|done]; tables).
  apply wp_bind_ok. eapply wp_mono; [apply drain_loop_spec|].
  { eapply Nat.le_lt_trans; [apply part_shrinks|done]. destruct Hd0' as [Hs0 _]. eapply shrinks_mono; [|exact Hs0]. tables. }
  { eapply deletes_in_fits; [|done|done]. tables. }
  { destruct Hd0' as (Hs0 & Ho0 & (_ & _ & -> & _)). eapply healthy_shrinks; [|done].
    intros k Hk. destruct (decide (k.1.1 ∈ DRAIN_TABLES)); [by apply Hs0|left; by apply Ho0]. }
  intros r1 w1 [Hd1 Hquiet]. assert (deletes_in DRAIN_TABLES w w1) as Hd by by etrans.
  pose proof (deletes_marked _ _ Hd) as Hm1. destruct r1 as [drained|e]; [|by split].
  specialize (Hquiet eq_refl).
  assert (cancel && w_cancelled w = false) as Hq by by (destruct Hd0' as (_ & _ & (_ & _ & _ & _ & <-))).
  apply wp_bind. eapply wp_mono; [apply uploads_spec|]. intros cleaned w2 (Ho2 & Hst2 & Hn2 & Hc2 & Hb2).
  assert (marked w w2) as Hm2.
  { destruct Hm1 as (Hs1 & Ho1 & Hst1 & Hn1 & Hc1 & Hb1). split_and!; [| |congruence..|].
    - etrans; [exact Hs1|]. apply (only_shrinks [TABLE_UPLOAD_SESSIONS]); [|done].
      intros x Hx ->%list_elem_of_singleton. revert Hx. tables.
    - etrans; [exact Ho1|]. eapply only_mono; [|exact Ho2]. tables.
    - intros x Hx. rewrite Hb2; [by apply Hb1|]. intros (s & Hxs & Hold & sk & b & ver & Hin & Hb). apply Hx.
      exists s. split_and!; [done|by rewrite <-Hn1|]. exists sk, b, ver. split; [|done].
      destruct Hd as (_ & Ho & _). rewrite <-(Ho (TABLE_UPLOAD_SESSIONS, SINGLE_PK, sk)); [done|]. tables. }
  apply wp_bind_ok. eapply wp_intro; [apply run_list_repos|].
  destruct (stored_repos (w_kv w2)) as [repos|e] eqn:Hrepos; [|by split].
  set (live := filter _ repos).
  apply wp_bind_ok. eapply wp_intro; [apply run_list_stores|].
  destruct (stored_stores (w_kv w2)) as [stores|e] eqn:Hstores; [|by split].
  assert (ready fuel live cancel w2) as Hready.
  { destruct Hm2 as (Hs2 & _ & _ & Hnow & Hcan & _). split_and!.
    - by eapply fits_shrinks.
    - by rewrite Hcan.
    - intros r [_ Hr]%list_elem_of_filter. rewrite Hnow.
      apply (healthy_shrinks _ _ _ Hs2 Hh). by eapply stored_repos_configured. }
  apply wp_bind_ok. eapply wp_mono; [by apply (pre_expire_spec fuel)|]. intros r3 w3 Hd3.
  pose proof (marked_deletes _ _ _ Hm2 Hd3) as Hm3. pose proof (ready_deletes _ _ _ _ _ Hd3 Hready) as Hready3.
  destruct r3 as [pre|e]; [|by split]. apply wp_check_cancelled; [apply Hready3|].
  apply wp_bind_ok. eapply wp_mono; [by eapply (docker_phase_spec fuel live)|]. intros r4 w4 Hd4.
  pose proof (marked_deletes _ _ _ Hm3 Hd4) as Hm4. pose proof (ready_deletes _ _ _ _ _ Hd4 Hready3) as Hready4.
  destruct r4 as [docker|e]; [|by split]. apply wp_check_cancelled; [apply Hready4|].
  apply wp_bind_ok. eapply wp_mono; [by apply (artifact_scan_spec fuel live)|]. intros r5 w5 [Hd5 Hcov].
  pose proof (marked_deletes _ _ _ Hm4 Hd5) as Hm5. pose proof (ready_deletes _ _ _ _ _ Hd5 Hready4) as Hready5.
  destruct r5 as [ [ [bf n1] n2]|e]; [|by split]. apply wp_check_cancelled; [apply Hready5|]. apply wp_ret.
  split; [done|]. intros a b sts bf' c d e [= <- <- <- <- <- <- <-]. split; [done|].
  intros Hdry r shard sk v ver record id (repos' & Hr' & Hin & Hdel) Hsh Hm Hv Hid.
  assert (stored_repos (w_kv w5) = stored_repos (w_kv w2)) as Heq.
  { apply stored_repos_only. intros sk'. destruct Hd3 as (_ & Ho3 & _), Hd4 as (_ & Ho4 & _), Hd5 as (_ & Ho5 & _).
    rewrite Ho5, Ho4, Ho3; [done|tables..]. }
  rewrite Heq, Hrepos in Hr'. injection Hr' as <-.
  eapply (Hcov bf n1 n2 eq_refl Hdry r shard); [|exact Hsh|exact Hm|exact Hv|exact Hid].
  apply list_elem_of_filter. done.
Qed.
End mark.

(** ** Sweeping *)

Section sweep.
Context `{Serde BlobRecord} `{Serde StoreStatsRecord} `{BloomCrate} `{Scheduler} `{BlobSharding} `{UuidGen}.
Implicit Types (m : kvmap) (w : world kvmap).

Section frame.
Variables (bf : Bloom) (known : gmap (string * string) Z) (current_pass : Z) (dry : bool).

(** The candidates may only be joined by new ones of this pass. *)
Definition candidates_of (c : gmap (string * string) Z) : Prop :=
  ∀ x v, c !! x = Some v → known !! x = Some v ∨ v = current_pass.

(** The frame of the sweep: a dedup record goes only if the filter does not have
    its blob, a blob goes only if the filter does not have it and an earlier
    pass knew it. *)
Definition swept w w' : Prop :=
  only [TABLE_BLOBS; TABLE_META] (w_kv w) (w_kv w') ∧
  (∀ k, k.1.1 = TABLE_BLOBS → w_kv w' !! k = w_kv w !! k ∨
     (w_kv w' !! k = None ∧ dry = false ∧ ∃ b ver record, w_kv w !! k = Some (b, ver) ∧ from_slice b = inr record ∧
       bloom_check bf (br_blob_id record) = false)) ∧
  (∀ x, w_blobs w' !! x = w_blobs w !! x ∨
     (w_blobs w' !! x = None ∧ dry = false ∧ bloom_check bf x.2 = false ∧
      ∃ v, known !! x = Some v ∧ (1 ≤ u64_wrap (current_pass - v))%Z)) ∧
  w_stores w' = w_stores w ∧ w_now w' = w_now w ∧ w_cancelled w' = w_cancelled w.

#[export] Instance swept_preorder : PreOrder swept.
Proof.
  split; [by intros w; split_and!; auto|].
  intros w1 w2 w3 (Ho1 & Hk1 & Hb1 & Hs1 & Hn1 & Hc1) (Ho2 & Hk2 & Hb2 & Hs2 & Hn2 & Hc2).
  split_and!; [by etrans| | |congruence..].
  - intros k Hk. destruct (Hk2 k Hk) as [->|(Hnone & Hd & b & ver & r & Hm & Hb & Hbf)]; [by apply Hk1|].
    right. split_and!; [done|done|]. exists b, ver, r. split; [|done].
    destruct (Hk1 k Hk) as [Heq|[Heq _] ]; congruence.
  - intros x. destruct (Hb2 x) as [->|?]; [by apply Hb1|by right].
Qed.

Lemma swept_env w w' : w_kv w' = w_kv w → w_blobs w' = w_blobs w → w_stores w' = w_stores w → w_now w' = w_now w →
  w_cancelled w' = w_cancelled w → swept w w'.
Proof. intros Hk Hb Hs Hn Hc. split_and!; [intros k _; by rewrite Hk|intros k _; left; by rewrite Hk|intros x; left; by rewrite Hb|done..]. Qed.

Lemma swept_progress {A : Type} (b : bool) (f : TaskProgress → TaskProgress) (k : prog A) w (Q : A → world kvmap → Prop) :
  (∀ w', swept w w' → wp k w' Q) → wp (bind (send_progress b f) (λ _, k)) w Q.
Proof.
  intros Hk. apply wp_bind. destruct b; (eapply wp_intro; [done|]); apply Hk; by apply swept_env.
Qed.

Lemma swept_fits fuel w w' : swept w w' → (∀ pk, length (part (w_kv w) TABLE_BLOBS pk) < fuel) →
  ∀ pk, length (part (w_kv w') TABLE_BLOBS pk) < fuel.
Proof.
  intros (_ & Hk & _) Hf pk. eapply Nat.le_lt_trans; [apply part_shrinks|apply Hf].
  intros k Hin%list_elem_of_singleton. destruct (Hk k Hin) as [?|[? _] ]; auto.
Qed.

(** *** Dedup records *)

Lemma dedup_items_spec items c dels sk : sk ∈ (dedup_items bf items c dels).2 →
  sk ∈ dels ∨ ∃ b record, (sk, b) ∈ items ∧ from_slice b = inr record ∧ bloom_check bf (br_blob_id record) = false.
Proof.
  revert c dels. induction items as [|[sk' b] items IH]; intros c dels Hin; [by left|]. cbn [dedup_items] in Hin.
  destruct (from_slice b) as [e|record] eqn:Hb.
  { destruct (IH _ _ Hin) as [?|(b' & r & ? & ?)]; [by left|right; exists b', r; split; [by right|done] ]. }
  destruct (bloom_check bf (br_blob_id record)) eqn:Hc.
  { destruct (IH _ _ Hin) as [?|(b' & r & ? & ?)]; [by left|right; exists b', r; split; [by right|done] ]. }
  destruct (IH _ _ Hin) as [Hin'|(b' & r & ? & ?)]; [|right; exists b', r; split; [by right|done] ].
  apply elem_of_app in Hin' as [?| ->%list_elem_of_singleton]; [by left|right].
  exists b, record. split_and!; [by left|done|done].
Qed.

Lemma sweep_dedup_spec fuel store cancel shard w :
  (∀ pk, length (part (w_kv w) TABLE_BLOBS pk) < fuel) → cancel && w_cancelled w = false →
  wp (sweep_dedup_shard fuel bf store dry cancel shard) w (λ r w', is_ok r = true ∧ swept w w').
Proof.
  intros Hf Hc. unfold sweep_dedup_shard. cbv zeta. set (pk := blob_shard_pk store shard).
  apply wp_scan_batches with (I := λ _ _ w', swept w w').
  - cbn [default from_option]. rewrite entries_from_start. unfold entries. rewrite length_fmap.
    eapply Nat.le_lt_trans; [apply length_filter|apply Hf].
  - done.
  - intros batch rem c w1 Hw1 Hin. destruct (dedup_items bf batch c []) as [c' dels] eqn:Hd.
    case_decide as Hcase; [|by apply wp_ret].
    apply wp_bind_ok, (wp_kv (DeleteBatch _ _)). cbn [spec_store]. rewrite spec_delete_batch_eq. cbn [fst snd].
    apply wp_ret. cbn [w_kv set_kv].
    assert (∀ sk, sk ∈ dels → ∃ b record, (sk, b) ∈ batch ∧ from_slice b = inr record ∧ bloom_check bf (br_blob_id record) = false) as Hdels.
    { intros sk Hsk. destruct (dedup_items_spec batch c [] sk) as [?%elem_of_nil|?]; [by rewrite Hd|done|done]. }
    split.
    + intros sk Hsk. rewrite delete_all_lookup. apply decide_False. intros [_ (sk' & [= <-] & Hsk')%list_elem_of_fmap].
      destruct (Hdels _ Hsk') as (b & record & Hb & _). apply Hsk. by apply (list_elem_of_fmap_2 fst _ (sk, b)).
    + etrans; [exact Hw1|]. split_and!; [| |by left|done..].
      * intros [ [t p] sk] Hk. cbn [w_kv set_kv]. rewrite delete_all_lookup. apply decide_False.
        intros [-> _]. apply Hk. by left.
      * intros [ [t p] sk] Hk. cbn [w_kv set_kv]. rewrite delete_all_lookup. case_decide as Hk2; [|by left].
        destruct Hk2 as [-> (sk' & [= -> ->] & Hsk')%list_elem_of_fmap]. right. split_and!; [done|by destruct Hcase|].
        destruct (Hdels _ Hsk') as (b & record & Hb & Hr & Hbf). destruct (Hin _ Hb) as (ver & Hm).
        by exists b, ver, record.
  - done.
  - intros rem c w1 (_ & _ & _ & _ & _ & Hcan) Hcc. rewrite Hcan in Hcc. congruence.
Qed.

Lemma sweep_shards_spec fuel store cancel shards w :
  (∀ pk, length (part (w_kv w) TABLE_BLOBS pk) < fuel) → cancel && w_cancelled w = false →
  wp (try_for shards (sweep_dedup_shard fuel bf store dry cancel)) w (λ _ w', swept w w').
Proof.
  intros Hf Hc. apply wp_try_for with (I := λ _ _ w', swept w w'); [done| |done].
  intros shard l acc w1 Hw1. eapply wp_mono; [apply sweep_dedup_spec|].
  - by eapply swept_fits.
  - by destruct Hw1 as (_ & _ & _ & _ & _ & ->).
  - intros r w2 [Hok Hw2]. destruct r; [by etrans|done].
Qed.

(** *** Blobs *)

Lemma run_walk store cancel shards w :
  ∃ orphans, run (walk_shards bf store cancel shards) w = (Some orphans, w) ∧
    ∀ x, x ∈ orphans → bloom_check bf x.1 = false.
Proof.
  induction shards as [|shard shards (rest & Hr & Hrest)]; [exists []; split; [done|by intros ? ?%elem_of_nil]|].
  cbn [walk_shards]. rewrite run_bind, run_cancel.
  destruct (cancel && w_cancelled w).
  - exists rest. cbn [bind]. by rewrite run_bind, Hr.
  - cbn [bind run blob call handle blob_step]. rewrite run_bind, Hr. eexists. split; [done|].
    intros x [Hx|Hx]%elem_of_app; [|by apply Hrest]. by apply list_elem_of_filter in Hx as [? _].
Qed.

Lemma reap_spec store max orphans c d n w :
  (∀ x, x ∈ orphans → bloom_check bf x.1 = false) → candidates_of c →
  wp (reap_orphans store current_pass max dry orphans c d n) w (λ r w', swept w w' ∧ candidates_of r.1.1).
Proof.
  revert c d n w. induction orphans as [|[id size] orphans IH]; intros c d n w Hor Hc; cbn [reap_orphans]; [by apply wp_ret|].
  assert (∀ x, x ∈ orphans → bloom_check bf x.1 = false) as Hor' by (intros; apply Hor; by right).
  assert (bloom_check bf id = false) as Hid by (apply (Hor (id, size)); by left).
  destruct (c !! (store, id)) as [v|] eqn:Hv.
  - case_decide as Hold; [|by apply IH]. apply wp_bind.
    assert (candidates_of (delete (store, id) c)) as Hdel.
    { intros x v' [_ Hx]%lookup_delete_Some. by apply Hc. }
    destruct dry eqn:Hdry.
    + apply wp_ret. by apply IH.
    + apply wp_intro with (a := tt) (w' := set_blobs (delete (store, id) (w_blobs w)) w); [done|].
      eapply wp_mono; [by apply IH|]. intros r w' [Hw' Hr]. split; [|done]. etrans; [|exact Hw'].
      split_and!; [done|by left| |done..]. intros x. cbn [w_blobs set_blobs].
      destruct (decide (x = (store, id))) as [->|Hne]; [|left; by rewrite lookup_delete_ne].
      right. rewrite lookup_delete_eq. split_and!; [done|done|done|]. exists v. split; [|done].
      destruct (Hc _ _ Hv) as [?| ->]; [done|]. exfalso. revert Hold. rewrite Z.sub_diag. by vm_compute.
  - case_decide; [by apply IH|]. apply IH; [done|]. intros x v' [ [_ <-]|[_ Hx] ]%lookup_insert_Some; [by right|by apply Hc].
Qed.

(** *** Stores *)

Lemma sweep_store_spec fuel max cancel progress st store w :
  (∀ pk, length (part (w_kv w) TABLE_BLOBS pk) < fuel) → cancel && w_cancelled w = false → candidates_of (sw_candidates st) →
  wp (sweep_store fuel bf current_pass max dry cancel progress st store) w (λ r w', swept w w' ∧ candidates_of (sw_candidates r.2)).
Proof.
  intros Hf Hc Hcand. unfold sweep_store. apply wp_bind. eapply wp_mono; [by apply sweep_shards_spec|].
  intros [results|e] w1 Hw1; [|by apply wp_ret]. cbv zeta.
  apply wp_bind, wp_call. change (handle ENow w1) with (w_now w1, w1). cbn [fst snd].
  set (stats := mkStoreStatsRecord _ _ _).
  apply wp_bind. apply wp_mono with (Q := λ _ w2, swept w w2).
  { unfold put_store_stats. cbn [store_stats_key]. unfold typed_put. apply wp_try; [|by intros].
    intros b _. apply (wp_kv (Put _ _ _ _)). cbn [spec_store fst snd]. etrans; [exact Hw1|]. split_and!; [| |by left|done..].
    - intros k Hk. cbn [w_kv set_kv]. unfold spec_put. rewrite lookup_insert_ne; [done|]. intros <-. apply Hk. by right; left.
    - intros k Hk. left. cbn [w_kv set_kv]. unfold spec_put. rewrite lookup_insert_ne; [done|]. by intros <-. }
  intros _r w2 Hw2. apply swept_progress. intros w3 Hw3. apply swept_progress. intros w4 Hw4.
  apply wp_bind, wp_call. cbn [handle fst snd]. assert (swept w w4) as Hww by (do 2 (etrans; [done|]); done).
  destruct (bool_decide _); [|by apply wp_ret].
  destruct (run_walk store cancel (arrange 8 (seq 0 (scan_shard_count store))) w4) as (orphans & Hr & Hor).
  apply wp_bind. eapply wp_intro; [exact Hr|]. apply wp_bind.
  eapply wp_mono; [by apply reap_spec|]. intros [ [c d] n] w5 [Hw5 Hc5]. apply wp_ret. split; [by etrans|done].
Qed.

Lemma sweep_stores_spec fuel max cancel progress stores st w :
  (∀ pk, length (part (w_kv w) TABLE_BLOBS pk) < fuel) → cancel && w_cancelled w = false → candidates_of (sw_candidates st) →
  wp (sweep_stores fuel bf current_pass max dry cancel progress stores st) w (λ r w', swept w w' ∧ candidates_of (sw_candidates r.2)).
Proof.
  revert st w. induction stores as [|store stores IH]; intros st w Hf Hc Hcand; cbn [sweep_stores]; [by apply wp_ret|].
  apply wp_bind. eapply wp_mono; [by apply sweep_store_spec|]. intros [ [ []|e] st1] w1 [Hw1 Hc1]; [|by apply wp_ret].
  eapply wp_mono; [apply IH|].
  - by eapply swept_fits.
  - by destruct Hw1 as (_ & _ & _ & _ & _ & ->).
  - done.
  - intros r w2 [Hw2 Hc2]. split; [by etrans|done].
Qed.
End frame.

Lemma run_estimate_bytes stores n w : ∃ n', run (estimate_bytes stores n) w = (Some n', w).
Proof.
  revert n. induction stores as [|s stores IH]; intros n; [by eexists|]. cbn [estimate_bytes].
  unfold get_store_stats. cbn [store_stats_key]. unfold typed_get. rewrite run_bind. run_steps.
  destruct (w_kv w !! _) as [ [b v]|]; cbn [fmap option_fmap option_map fst run]; [|apply IH].
  destruct (serde_result (from_slice b)); cbn [try_ run]; apply IH.
Qed.
End sweep.

(** ** The pass *)

Section pass.
Context `{Blake3} `{Serde ArtifactRecord} `{Serde TreeEntry} `{Serde RepoConfig} `{Serde StoreRecord}
  `{Serde StoreStatsRecord} `{Serde BlobRecord} `{Serde UploadSessionRecord}
  `{Chrono} `{SerdeJson} `{BloomCrate} `{Scheduler} `{BlobSharding} `{UuidGen}.
Implicit Types (m : kvmap) (w : world kvmap).

(** An artifact of a live repository, one of the first 10,000, uses the blob. *)
Definition used m (id : string) : Prop :=
  ∃ repo path record, live_repo m repo ∧ has_record m (rc_name repo) path record ∧ ar_blob_id record = Some id.

Lemma covered_used m bf id : covered m bf → used m id → bloom_check bf id = true.
Proof.
  intros Hc (repo & path & record & Hlive & (Hp & b & ver & Hm & Hb) & Hid).
  unfold artifact_key in Hp, Hm. cbn [snd] in Hp. rewrite Hp in Hm. unfold sharded_pk in Hm.
  eapply (Hc repo (shard_of path)); [done|apply shard_of_in_range|exact Hm|exact Hb|done].
Qed.

Lemma gc_pass_spec rounds fuel state cancel max progress dry grace w :
  base.size (w_kv w) < rounds → base.size (w_kv w) < fuel → healthy (w_now w) (w_kv w) →
  duration_seconds (i64_wrap DOCKER_GC_GRACE_SECS) = Some grace →
  let current := u64_add (gs_pass state) 1 in
  wp (gc_pass rounds fuel state cancel max progress dry) w (λ res w',
    gs_pass res.2 = current ∧ candidates_of (orphan_candidates state) current (orphan_candidates res.2) ∧
    ∃ w1, marked w w1 ∧ (w' = w1 ∨ ∃ bf, (dry = false → covered (w_kv w1) bf) ∧
      swept bf (orphan_candidates state) current dry w1 w')).
Proof.
  intros Hrounds Hfuel Hh Hg current. unfold gc_pass. fold current. apply wp_bind.
  eapply wp_mono; [apply (mark_phase_spec rounds fuel dry cancel progress grace); [|by apply fits_size|done|done]|].
  { eapply Nat.le_lt_trans; [apply length_part_size|done]. }
  intros res w1 [Hm1 Hcov].
  destruct res as [ [ [ [ [ [ [a b] stores] bf] c] d] e]|e].
  2:{ apply wp_ret. split_and!; [done|by left|]. exists w1. split; [done|by left]. }
  destruct (Hcov a b stores bf c d e eq_refl) as [Hquiet Hcovered].
  apply wp_bind. destruct (run_estimate_bytes (sr_name <$> stores) 0 w1) as [n Hn]. eapply wp_intro; [exact Hn|].
  apply (swept_progress bf (orphan_candidates state) current dry). intros w2 Hw2. apply wp_bind.
  eapply wp_mono; [apply (sweep_stores_spec bf (orphan_candidates state))|].
  - eapply swept_fits; [exact Hw2|]. intros pk. eapply Nat.le_lt_trans; [|apply (fits_size fuel (w_kv w)); [done|] ].
    + apply part_shrinks. destruct Hm1 as [Hs1 _]. eapply shrinks_mono; [|exact Hs1]. tables.
    + tables.
  - destruct Hm1 as (_ & _ & _ & _ & Hc1 & _), Hw2 as (_ & _ & _ & _ & _ & Hc2). by rewrite Hc2, Hc1.
  - intros x v Hx. cbn [sw_candidates] in Hx. apply map_lookup_filter_Some in Hx as [Hx _]. by left.
  - intros [r st] w3 [Hw3 Hc3]. apply wp_ret. split_and!; [done|done|]. exists w1. split; [done|]. right.
    exists bf. split; [done|]. by etrans.
Qed.

(** The assumptions on the store and the fuel. *)
Definition pass_ok (rounds fuel : nat) w : Prop :=
  base.size (w_kv w) < rounds ∧ base.size (w_kv w) < fuel ∧ healthy (w_now w) (w_kv w) ∧
  is_Some (duration_seconds (i64_wrap DOCKER_GC_GRACE_SECS)).

Lemma used_swept m m' id : only [TABLE_BLOBS; TABLE_META] m m' → used m' id → used m id.
Proof.
  intros Ho (repo & path & record & (repos & Hr & Hin & Hd) & (Hp & b & ver & Hk & Hb) & Hid).
  exists repo, path, record. split_and!; [|split; [done|]|done].
  - exists repos. split; [|done]. rewrite <-Hr. symmetry. apply stored_repos_only. intros sk. apply Ho. tables.
  - exists b, ver. rewrite <-Hk. split; [|done]. symmetry. apply Ho. cbn. unfold TABLE_ARTIFACTS. tables.
Qed.


(** C32: No blob is deleted on first sight.  Apart from the blobs of abandoned
    uploads, a pass deletes a blob only if it is not a dry run and the blob was
    already a candidate from an earlier pass; every candidate after the pass
    was one before or is recorded under the number of this pass, so a blob
    that becomes a candidate now survives until the next pass.  In particular
    the first pass of an instance deletes no other blob. *)
Theorem gc_pass_grace (rounds fuel : nat) (state : GcState) (cancel : bool) (max : nat) (progress dry : bool) w :
  pass_ok rounds fuel w →
  let current := u64_add (gs_pass state) 1 in
  ∃ (r : result GcStats) (state' : GcState) (w' : world kvmap),
    run (gc_pass rounds fuel state cancel max progress dry) w = (Some (r, state'), w') ∧
    gs_pass state' = current ∧
    (∀ x : string * string, ¬ stale_upload w x → w_blobs w' !! x ≠ w_blobs w !! x →
      dry = false ∧ ∃ first_seen, orphan_candidates state !! x = Some first_seen ∧
        (1 ≤ u64_wrap (current - first_seen))%Z) ∧
    (∀ (x : string * string) (v : Z), orphan_candidates state' !! x = Some v →
      orphan_candidates state !! x = Some v ∨ v = current).
Proof.
  intros (Hrounds & Hfuel & Hh & [grace Hg]) current.
  destruct (wp_run _ _ _ (gc_pass_spec rounds fuel state cancel max progress dry grace w Hrounds Hfuel Hh Hg))
    as ([r state'] & w' & Hr & Hpass & Hcand & w1 & Hm1 & Hw). exists r, state', w'. split_and!; [done|done| |done].
  intros x Hstale Hne. destruct Hm1 as (_ & _ & _ & _ & _ & Hb1). rewrite <-(Hb1 _ Hstale) in Hne.
  destruct Hw as [->|(bf & _ & Hs)]; [done|]. destruct Hs as (_ & _ & Hb & _).
  destruct (Hb x) as [|(_ & Hdry & _ & v & Hv & Hold)]; [done|]. split; [done|]. by exists v.
Qed.
End pass.

(** ** Witnesses *)

(** Tasks complete in the order in which they are started; stores have one
    shard. *)
Definition toy_scheduler : Scheduler := {| arrange := λ A _ l, l; arrange_perm := λ A _ l, reflexivity l |}.
Definition toy_sharding : BlobSharding := {| scan_shard_count := λ _, 1; scan_shard := λ _ _ _, true |}.

(** The toy repository and its configuration, a used blob and an unused one. *)
Definition toy_gc_world : world kvmap :=
  mkWorld (<[repo_key "r" := ("0", 1%Z)]> (<[store_key "s" := ("0", 1%Z)]> toy_store))
    {[("s", "blob") := "data"; ("s", "orphan") := "x"]} {["s"]} (2 * 3600 * 10 ^ 9)%Z 0 [] false.

Lemma toy_gc_ok :
  let _ := toy_blake3 in let _ := toy_ar_serde in let _ := toy_rc_serde in let _ := toy_chrono in
  pass_ok 20 20 toy_gc_world.
Proof.
  intros ? ? ? ?.
  assert (∀ sk b ver r, w_kv toy_gc_world !! (TABLE_REPOS, SINGLE_PK, sk) = Some (b, ver) →
    from_slice b = inr r → sk = "r" ∧ r = toy_repo "r" Hosted false) as Hrepo.
  { intros sk b ver r Hk Hb. cbn [w_kv toy_gc_world] in Hk. apply lookup_insert_Some in Hk as [ [ [= <-] [= <- <-] ]|[_ Hk] ].
    - split; [done|]. vm_compute in Hb. injection Hb as <-. reflexivity.
    - exfalso. apply lookup_insert_Some in Hk as [ [Heq _]|[_ Hk] ]; [discriminate Heq|].
      assert (map_Forall (λ (k : string * string * string) _, k.1.1 ≠ TABLE_REPOS) toy_store) as Hall by by_decide.
      by apply (Hall _ _ Hk). }
  split; [by_decide|]. split; [by_decide|]. split; [|by eexists]. split.
  - intros sk b ver r Hk Hb. by destruct (Hrepo sk b ver r Hk Hb) as [-> ->].
  - intros r (sk & b & ver & Hk & Hb). destruct (Hrepo sk b ver r Hk Hb) as [-> ->].
    split; [apply stored_paths_decide; by_decide|]. split; by eexists.
Qed.

Lemma toy_not_stale (s : Serde UploadSessionRecord) x : let _ := toy_chrono in ¬ stale_upload toy_gc_world x.
Proof.
  intros ? (sess & _ & _ & sk & b & ver & Hk & _).
  assert (map_Forall (λ (k : string * string * string) _, k.1.1 ≠ TABLE_UPLOAD_SESSIONS) (w_kv toy_gc_world)) as Hall by by_decide.
  by apply (Hall _ _ Hk).
Qed.


Lemma gc_pass_grace_witness :
  let _ := toy_blake3 in let _ := toy_ar_serde in let _ := toy_te_serde in let _ := toy_rc_serde in
  let _ := toy_sr_serde in let _ := toy_ss_serde in let _ := toy_br_serde in let _ := toy_us_serde in
  let _ := toy_chrono in let _ := toy_json in let _ := toy_bloom in
  let _ := toy_scheduler in let _ := toy_sharding in let _ := toy_uuid in
  ∃ r st w', run (gc_pass 20 20 (mkGcState ∅ 0) false 10 true false) toy_gc_world = (Some (r, st), w') ∧
    w_blobs w' !! ("s", "orphan") = Some "x".
Proof.
  intros.
  destruct (@gc_pass_grace toy_blake3 toy_ar_serde toy_te_serde toy_rc_serde toy_sr_serde toy_ss_serde
    toy_br_serde toy_us_serde toy_chrono toy_json toy_bloom toy_scheduler toy_sharding toy_uuid
    20 20 (mkGcState ∅ 0) false 10 true false toy_gc_world toy_gc_ok) as (r & st & w' & Hr & _ & Hb & _).
  exists r, st, w'. split; [exact Hr|].
  destruct (decide (w_blobs w' !! ("s", "orphan") = w_blobs toy_gc_world !! ("s", "orphan"))) as [Heq|Hne].
  - refine (eq_trans Heq _). vm_compute. reflexivity.
  - exfalso. destruct (Hb ("s", "orphan") (toy_not_stale _ _) Hne) as (_ & v & Hv & _). discriminate Hv.
Defined.
