(* ===== verification/GcSchedule.v ===== *)
(** * When a collection is due (server/src/server/worker/blob_reaper/gc_loop.rs)

    The decision of the collector's timer loop: by interval, or once per
    scheduled time of the day. *)

From S2P Require Import Prelude Records.

(** server/src/server/worker/blob_reaper/mod.rs:43-43 *)
Definition DEFAULT_GC_INTERVAL_SECS : Z := 86400.
(** server/src/server/worker/blob_reaper/mod.rs:46-46 *)
Definition DEFAULT_GC_MIN_INTERVAL_SECS : Z := 3600.
(** server/src/server/worker/blob_reaper/mod.rs:49-49 *)
Definition DEFAULT_GC_MAX_ORPHAN_CANDIDATES : Z := 1000000.

(** A day, in nanoseconds. *)
Definition DAY : Z := (86400 * 10 ^ 9)%Z.

(** [now.date_naive().and_time(t).and_utc()], with [t] the nanoseconds since
    midnight. *)
Definition today_at (now : DateTime) (t : Z) : DateTime := (now / DAY * DAY + t)%Z.

(** server/src/server/worker/blob_reaper/gc_loop.rs:33-58 *)
Definition gc_due (last now : DateTime) (gc_interval gc_min_interval : Z) (start_time : option Z) : bool :=
  let elapsed := Z.max (num_seconds_between now last) 0 in
  if decide (elapsed < gc_min_interval)%Z then false
  else match start_time with
       | Some t =>
           let today := today_at now t in
           let sched := if decide (today ≤ now)%Z then today else (today - DAY)%Z in
           bool_decide (last < sched)%Z
       | None => bool_decide (gc_interval ≤ elapsed)%Z
       end.

(** ** Properties *)

(** [s] is the last occurrence of the time of day [t] at or before [now]. *)
Definition last_occurrence (now : DateTime) (t : Z) (s : DateTime) : Prop :=
  (s ≤ now < s + DAY)%Z ∧ (s mod DAY = t)%Z.

Lemma last_occurrence_unique now t s1 s2 : last_occurrence now t s1 → last_occurrence now t s2 → s1 = s2.
Proof.
  intros [Hr1 Hm1] [Hr2 Hm2]. unfold DAY in *.
  pose proof (Z.div_mod s1 (86400 * 10 ^ 9)). pose proof (Z.div_mod s2 (86400 * 10 ^ 9)). nia.
Qed.

(** A scheduled collection runs at most once per day.  It is due exactly when
    the minimum interval has passed and the last pass started before the most
    recent occurrence of the configured time of day; after a pass that starts
    now none is due before the next occurrence, a day later.  Without a configured time it is due
    when both intervals have passed. *)
Theorem gc_due_spec (last now gc_interval gc_min_interval : Z) :
  (∀ t, (0 ≤ t < DAY)%Z → ∃ s, last_occurrence now t s ∧
    (gc_due last now gc_interval gc_min_interval (Some t) = true ↔
      (gc_min_interval ≤ Z.max (num_seconds_between now last) 0)%Z ∧ (last < s)%Z) ∧
    ∀ later, (now ≤ later < s + DAY)%Z → gc_due now later gc_interval gc_min_interval (Some t) = false) ∧
  (gc_due last now gc_interval gc_min_interval None = true ↔
    (gc_min_interval ≤ Z.max (num_seconds_between now last) 0)%Z ∧
    (gc_interval ≤ Z.max (num_seconds_between now last) 0)%Z).
Proof.
  assert (∀ n t, (0 ≤ t < DAY)%Z → last_occurrence n t (if decide (today_at n t ≤ n)%Z then today_at n t else today_at n t - DAY)%Z) as Hocc.
  { intros n t Ht. unfold last_occurrence, today_at.
    pose proof (Z.mod_pos_bound n DAY ltac:(unfold DAY; lia)). pose proof (Z.div_mod n DAY ltac:(unfold DAY; lia)).
    case_decide; (split; [lia|]).
    - rewrite Z.add_comm, Z_mod_plus_full. by apply Z.mod_small.
    - replace (n / DAY * DAY + t - DAY)%Z with (t + (n / DAY - 1) * DAY)%Z by lia. rewrite Z_mod_plus_full. by apply Z.mod_small. }
  split.
  - intros t Ht. eexists. split; [by apply Hocc|]. split.
    + unfold gc_due. cbv zeta. destruct (decide (Z.max (num_seconds_between now last) 0 < gc_min_interval)%Z).
      * split; [done|]. lia.
      * rewrite bool_decide_eq_true. split; [intros; split; [lia|done]|tauto].
    + intros later Hl. unfold gc_due. cbv zeta.
      destruct (decide (Z.max (num_seconds_between later now) 0 < gc_min_interval)%Z); [done|].
      destruct (Hocc now t Ht) as [Hr Hm]. set (s := (if decide (today_at now t ≤ now)%Z then _ else _)) in *.
      assert ((if decide (today_at later t ≤ later)%Z then today_at later t else today_at later t - DAY) = s)%Z as ->.
      { apply (last_occurrence_unique later t); [by apply Hocc|]. split; [lia|done]. }
      apply bool_decide_eq_false. lia.
  - unfold gc_due. cbv zeta. destruct (decide (Z.max (num_seconds_between now last) 0 < gc_min_interval)%Z).
    + split; [done|]. lia.
    + rewrite bool_decide_eq_true. split; [intros; split; [lia|done]|tauto].
Qed.
