(* ===== verification/ApiHelpers.v ===== *)
(** * Helpers of the request handlers (core/src/api_helpers.rs, format_state.rs)

    What every format handler does first: finding the repository and its blob
    store, checking the permission to write and the target of an upload; and
    the origin that clients see, derived from the headers of a proxy in front
    of the server. *)

From S2P Require Import Prelude Bytes Text Errors Keys Records Kv Prog Wp Scan Pagination Update Artifact Blob Repo Directory Ingest Accounts Auth.
From S2P Require Import DockerGc.

(** ** Handlers that answer early *)

(** Sequencing with early returns of a reply. *)
Notation "'let*^' x := p 'in' q" := (bind p (λ r, match r with inl reply => Ret (inl reply) | inr x => q end))
  (at level 10, x name, p at level 100, q at level 200) : depot_scope.
Notation "'let*!' x := p 'else' h 'in' q" := (bind p (λ r, match r with Err e => Ret (inl (h e)) | Ok x => q end))
  (at level 10, x name, p at level 100, h at level 100, q at level 200) : depot_scope.

(** A handler that has run to its end. *)
Definition finished {A : Type} (r : A + A) : A := match r with inl reply => reply | inr reply => reply end.

Section resolve.
Context `{Serde RepoConfig}.

(** core/src/api_helpers.rs:237-255 *)
Definition validate_format_repo (repo_name : string) (expected : ArtifactFormat) : prog (result RepoConfig) :=
  let*? o := get_repo repo_name in
  match o with
  | None => Ret (Err (NotFound ("repository '" +:+ repo_name +:+ "' not found")))
  | Some config =>
      if decide (repo_format config ≠ expected) then
        Ret (Err (BadRequest ("repository is not a " +:+ display_format expected +:+ " repository")))
      else Ret (Ok config)
  end.

(** core/src/api_helpers.rs:258-268 *)
Definition resolve_repo_blob_store (repo_name : string) : prog (result (string * RepoConfig)) :=
  let*? o := get_repo repo_name in
  match o with
  | None => Ret (Err (NotFound ("repository '" +:+ repo_name +:+ "' not found")))
  | Some config =>
      let*? blobs := resolve_blob_store (rc_store config) in
      Ret (Ok (blobs, config))
  end.

(** The target of an upload: its name, its configuration and its blob store. *)
(** core/src/api_helpers.rs:272-291 *)
Definition upload_preamble {B : Type} `{AuthBackend B} (auth : B) (user repo_name : string) (format : ArtifactFormat) :
    prog (result (string * RepoConfig * string) * B) :=
  let* r := validate_format_repo repo_name format in
  match r with
  | Err e => Ret (Err e, auth)
  | Ok config =>
      let* a := check_permission auth user repo_name CapWrite in
      let '(r, auth) := a in
      match r with
      | Err e => Ret (Err e, auth)
      | Ok _ =>
          let* r :=
            let*? t := resolve_format_write_target config format in
            let '(target_repo, target_config) := t in
            let*? blobs := resolve_blob_store (rc_store target_config) in
            Ret (Ok (target_repo, target_config, blobs)) in
          Ret (r, auth)
      end
  end.
End resolve.

(** ** The origin of a request *)

(** The headers of a request: whether one is present, and its text when it is
    visible ASCII ([to_str]). *)
Definition Headers : Type := string → option (option string).

Definition header_text (headers : Headers) (name : string) : option string := mjoin (headers name).

(** [s.parse::<u16>()]. *)
Definition parse_u16 (s : string) : option Z :=
  match parse_u64 s with
  | Some n => if decide (n < 65536)%Z then Some n else None
  | None => None
  end.

(** core/src/api_helpers.rs:91-96 *)
Definition request_scheme_with_default (headers : Headers) (default_scheme : string) : string :=
  default default_scheme (header_text headers "x-forwarded-proto").

(** core/src/api_helpers.rs:103-105 *)
Definition request_scheme (headers : Headers) : string := request_scheme_with_default headers "https".

(** core/src/api_helpers.rs:202-221 *)
Definition split_host_port (host : string) : string * option Z :=
  match split_once "]" host with
  | Some (a, rest) => (a +:+ "]", strip_prefix rest ":" ≫= parse_u16)
  | None =>
      match rsplit_once ":" host with
      | Some (name, port) =>
          match parse_u16 port with
          | Some port => (name, Some port)
          | None => (host, None)
          end
      | None => (host, None)
      end
  end.

Definition default_port (scheme : string) (port : Z) : bool :=
  bool_decide ((scheme = "http" ∧ port = 80%Z) ∨ (scheme = "https" ∧ port = 443%Z)).

(** core/src/api_helpers.rs:163-197 *)
Definition external_host (headers : Headers) (scheme : string) (uri_authority : option string) : string :=
  let raw_host := match header_text headers "host" with
                  | Some h => h
                  | None => default "localhost" uri_authority
                  end in
  let '(hostname, host_port) := split_host_port raw_host in
  let has_proxy := bool_decide (is_Some (headers "x-forwarded-proto")) in
  let fwd_port := header_text headers "x-forwarded-port" ≫= (λ s, parse_u16 (trim s)) in
  let effective_port :=
    match fwd_port with
    | Some port => Some port
    | None => if has_proxy then None else host_port
    end in
  match effective_port with
  | Some port => if default_port scheme port then hostname else hostname +:+ ":" +:+ show_uint (Z.to_N port)
  | None => hostname
  end.

(** core/src/api_helpers.rs:120-135 *)
Definition external_origin_resolved (base_url_override : option string) (headers : Headers) (uri_authority : option string)
    (default_scheme : string) : string :=
  let trimmed := (λ base, trim_end SLASH (trim_ws base)) <$> base_url_override in
  match trimmed with
  | Some trimmed =>
      if decide (trimmed ≠ "") then trimmed
      else
        let scheme := request_scheme_with_default headers default_scheme in
        scheme +:+ "://" +:+ external_host headers scheme uri_authority
  | None =>
      let scheme := request_scheme_with_default headers default_scheme in
      scheme +:+ "://" +:+ external_host headers scheme uri_authority
  end.

(** core/src/api_helpers.rs:146-148 *)
Definition external_origin (headers : Headers) (uri_authority : option string) : string :=
  external_origin_resolved None headers uri_authority "https".

(** ** Who may upload where *)

Section guarded.
Context `{Serde RepoConfig} `{Serde UserRecord} `{Serde RoleRecord} `{Argon2} `{UuidGen} {B : Type} `{AuthBackend B}
  (same : string → string → Prop) (I : B → kvmap → Prop) `{!StoredAccounts B same I}.
Implicit Types (w : world kvmap) (m : kvmap).

(** The member is a hosted repository of the format. *)
Definition takes_uploads m (format : ArtifactFormat) (member : string) (cfg : RepoConfig) : Prop :=
  repo_of m member = Ok (Some cfg) ∧ rc_kind cfg = Hosted ∧ repo_format cfg = format.

(** The target is the first of the members that takes uploads. *)
Definition first_taker m (format : ArtifactFormat) (members : list string) (target : string) (cfg : RepoConfig) : Prop :=
  ∃ before after, members = before ++ target :: after ∧ takes_uploads m format target cfg ∧
    ∀ x c, x ∈ before → ¬ takes_uploads m format x c.

Lemma kind_hosted (c : RepoConfig) : kind_repo_type (rc_kind c) = RTHosted ↔ rc_kind c = Hosted.
Proof. by destruct (rc_kind c). Qed.

Lemma run_first_hosted format members w :
  ∃ o, run (first_hosted format members) w = (Some o, w) ∧
    match o with
    | Some (t, c) => first_taker (w_kv w) format members t c
    | None => ∀ x c, x ∈ members → ¬ takes_uploads (w_kv w) format x c
    end.
Proof.
  induction members as [|x members IH]; cbn [first_hosted]; [exists None; split; [done|by intros ? ? ?%elem_of_nil]|].
  rewrite run_bind, run_get_repo. destruct IH as (o & Ho & Hspec).
  assert ((∀ c, ¬ takes_uploads (w_kv w) format x c) → match o with
    | Some (t, c) => first_taker (w_kv w) format (x :: members) t c
    | None => ∀ y c, y ∈ x :: members → ¬ takes_uploads (w_kv w) format y c end) as Hrest.
  { intros Hx. destruct o as [ [t c]|].
    - destruct Hspec as (before & after & -> & Ht & Hb). exists (x :: before), after. split_and!; [done|done|].
      intros y c' [->|Hy]%elem_of_cons; [apply Hx|by apply Hb].
    - intros y c [->|Hy]%elem_of_cons; [apply Hx|by apply Hspec]. }
  destruct (repo_of (w_kv w) x) as [ [c|]|e] eqn:Hx.
  - case_decide as Hc.
    + exists (Some (x, c)). split; [done|]. exists [], members. split_and!; [done| |by intros ? ? ?%elem_of_nil].
      destruct Hc as [Hk Hf]. by split_and!; [|apply kind_hosted|].
    + exists o. split; [done|]. apply Hrest. intros c' (Hc' & Hk & Hf). rewrite Hx in Hc'. injection Hc' as ->.
      apply Hc. by rewrite kind_hosted.
  - exists o. split; [done|]. apply Hrest. intros c (Hc & _). by rewrite Hx in Hc.
  - exists o. split; [done|]. apply Hrest. intros c (Hc & _). by rewrite Hx in Hc.
Qed.

(** The repository that an upload to [config] goes to.  A write member is
    taken as it is: nothing checks its kind, its format or that it is one of
    the members. *)
Definition write_target m (format : ArtifactFormat) (config : RepoConfig) (target : string) (cfg : RepoConfig) : Prop :=
  match rc_kind config with
  | Hosted => target = rc_name config ∧ cfg = config
  | Proxy _ (Some wm) => target = wm ∧ repo_of m wm = Ok (Some cfg)
  | Proxy members None => first_taker m format members target cfg
  | Cache _ _ _ => False
  end.

Lemma run_write_target format config w :
  ∃ r, run (resolve_format_write_target config format) w = (Some r, w) ∧
    ∀ t c, r = Ok (t, c) → write_target (w_kv w) format config t c.
Proof.
  unfold resolve_format_write_target, write_target. destruct (rc_kind config) as [|u ttl a|members [wm|] ].
  - eexists. split; [done|]. by intros t c [= <- <-].
  - eexists. split; [done|]. done.
  - rewrite run_bind_ok, run_get_repo. destruct (repo_of (w_kv w) wm) as [ [c|]|e]; eexists; (split; [done|]); [|done..].
    by intros t c' [= <- <-].
  - rewrite run_bind. destruct (run_first_hosted format members w) as (o & -> & Ho).
    destruct o as [ [t c]|]; eexists; (split; [done|]); [|done]. by intros t' c' [= <- <-].
Qed.

Lemma run_resolve_blob_store name w :
  run (resolve_blob_store name) w = (Some (if decide (name ∈ w_stores w) then Ok name
    else Err (NotFound ("blob store '" +:+ name +:+ "' not found"))), w).
Proof. unfold resolve_blob_store. cbn. by destruct (decide (name ∈ w_stores w)); [rewrite bool_decide_true|rewrite bool_decide_false]. Qed.

(** What the preamble has checked when it succeeds; it changes nothing. *)
Lemma run_upload_preamble (b : B) (user repo : string) (format : ArtifactFormat) (w : world kvmap) :
  I b (w_kv w) →
  ∃ r b', run (upload_preamble b user repo format) w = (Some (r, b'), w) ∧
    ∀ target cfg blobs, r = Ok (target, cfg, blobs) →
      ∃ config, repo_of (w_kv w) repo = Ok (Some config) ∧ repo_format config = format ∧
        permission_spec (w_kv w) user repo CapWrite (Ok tt) ∧ write_target (w_kv w) format config target cfg ∧
        blobs = rc_store cfg ∧ blobs ∈ w_stores w.
Proof using StoredAccounts0.
  intros Hi. unfold upload_preamble, validate_format_repo. rewrite run_bind, run_bind_ok, run_get_repo.
  destruct (repo_of (w_kv w) repo) as [ [config|]|e] eqn:Hrepo; [|by do 2 eexists..].
  case_decide as Hf; [by do 2 eexists|]. cbn [run].
  destruct (check_permission_law b w user repo CapWrite Hi) as (r & b' & Hrun & Hspec & _).
  rewrite run_bind, Hrun. destruct r as [ []|e]; [|by do 2 eexists].
  rewrite run_bind, run_bind_ok. destruct (run_write_target format config w) as (r & -> & Ht).
  destruct r as [ [t c]|e]; [|by do 2 eexists].
  rewrite run_bind_ok, run_resolve_blob_store. case_decide as Hs; do 2 eexists; (split; [done|]); [|done].
  intros target cfg blobs [= <- <- <-]. exists config. split_and!; [done..| |done|done]. by apply Ht.
Qed.

(** C26: An upload is let through only for those who may write, and only to
    where the repository says.  With any authentication backend that decides
    permissions by the stored accounts ([StoredAccounts]: the built-in one, with
    or without its caches), the preamble changes nothing, and when it succeeds
    the repository exists, is not being deleted and has the format of the
    request, a grant of the user's roles allows writing to it, and the target
    is: the repository itself if it is hosted; for a proxy with a write member
    that member, as it is (its kind and format are not checked); for a proxy
    without one, the first of its members that is a hosted repository of the
    format; and a cache takes no uploads.  The blob store is that of the target
    and is registered. *)
Theorem upload_preamble_guarded (b : B) (user repo : string) (format : ArtifactFormat) (w : world kvmap) :
  I b (w_kv w) →
  ∃ r b', run (upload_preamble b user repo format) w = (Some (r, b'), w) ∧
    ∀ target cfg blobs, r = Ok (target, cfg, blobs) →
      ∃ config u, repo_of (w_kv w) repo = Ok (Some config) ∧ repo_format config = format ∧
        user_of (w_kv w) user = Ok (Some u) ∧ allowed (w_kv w) u repo CapWrite ∧
        write_target (w_kv w) format config target cfg ∧ blobs = rc_store cfg ∧ blobs ∈ w_stores w.
Proof using StoredAccounts0.
  intros Hi. destruct (run_upload_preamble b user repo format w Hi) as (r & b' & Hrun & Hspec). exists r, b'. split; [done|].
  intros target cfg blobs Hr. destruct (Hspec _ _ _ Hr) as (config & Hrepo & Hf & Hperm & Hrest).
  unfold permission_spec in Hperm. destruct (user_of (w_kv w) user) as [ [u|]|e] eqn:Hu; cbn in Hperm; [|done..].
  destruct Hperm as [Hok _]. exists config, u. destruct Hrest as (? & ? & ?). split_and!; [done|done|done|by apply Hok|done..].
Qed.
End guarded.

(** ** Witnesses *)

(** Alice may write to "r"; the store of "r" is registered. *)
Definition toy_upload_rc : Serde RepoConfig := table_serde [toy_repo "r" Hosted false].

Definition toy_upload_world : world kvmap :=
  mkWorld (<[repo_key "r" := ("0", 1%Z)]> (toy_accounts "0")) ∅ {["s"]} 0%Z 0 [] false.

Definition toy_upload_rr : Serde RoleRecord :=
  table_serde [mkRoleRecord 1 "dev" "developers" [mkCapabilityGrant CapWrite "r"] 0%Z 0%Z].

Lemma upload_preamble_guarded_witness :
  let _ := toy_upload_rc in let _ := toy_ur_serde in let _ := toy_upload_rr in let _ := toy_argon2 in let _ := toy_uuid in
  run (upload_preamble tt "alice" "r" FRaw) toy_upload_world = (Some (Ok ("r", toy_repo "r" Hosted false, "s"), tt), toy_upload_world) ∧
  ∃ u, user_of (w_kv toy_upload_world) "alice" = Ok (Some u) ∧ allowed (w_kv toy_upload_world) u "r" CapWrite.
Proof.
  intros ? ? ? ? ?.
  assert ((run (upload_preamble tt "alice" "r" FRaw) toy_upload_world).1 =
    Some (Ok ("r", toy_repo "r" Hosted false, "s"), tt)) as Hfst by (vm_compute; reflexivity).
  destruct (@upload_preamble_guarded toy_upload_rc toy_ur_serde toy_upload_rr toy_argon2 toy_uuid unit _ eq (λ _ _, True)
    (@builtin_laws toy_ur_serde toy_upload_rr toy_argon2 toy_uuid) tt "alice" "r" FRaw toy_upload_world I) as (r & b' & Hr & Hspec).
  pose proof (eq_trans (eq_sym Hfst) (f_equal fst Hr)) as Heq. cbn [fst] in Heq. injection Heq as <-. destruct b'.
  split; [exact Hr|].
  destruct (Hspec _ _ _ eq_refl) as (config & u & _ & _ & Hu & Ha & _). exists u. by split.
Defined.
