(* ===== verification/SettingsUse.v ===== *)
(** * What valid settings guarantee

    The components that read the settings, and what [Settings.validate] makes
    true of each of them: the base URL as the origin that clients see
    (core/src/api_helpers.rs), the rate limiter (infra/rate_limit.rs), the life
    of tokens under the rotation of the signing secret (auth/mod.rs), and the
    timer of the collector (worker/blob_reaper/gc_loop.rs). *)

From S2P Require Import Prelude Bytes Text Errors Keys Records Kv Prog Wp Effects Scan Accounts Auth Settings GcSchedule ApiHelpers.

(** ** Readers of the settings *)

(** Whether a tick of the collector's loop goes on to a pass; [last] is the
    start of the last pass, when there was one. *)
(** server/src/server/worker/blob_reaper/gc_loop.rs:99-115 *)
Definition gc_tick_due `{TextFormats} (s : Settings) (last : option DateTime) (now : DateTime) : bool :=
  let gc_interval := default DEFAULT_GC_INTERVAL_SECS (st_gc_interval_secs s) in
  let gc_min_interval := default DEFAULT_GC_MIN_INTERVAL_SECS (st_gc_min_interval_secs s) in
  let gc_start_time := st_gc_start_time s ≫= parse_hh_mm in
  match last with
  | Some last => gc_due last now gc_interval gc_min_interval gc_start_time
  | None => true
  end.

(** The loop that rotates the signing secret of an instance, over its ticks;
    each comes with the time of the clock and the secret that is drawn. *)
(** server/src/server/auth/mod.rs:361-407 *)
Fixpoint run_jwt_rotation `{Jwt} `{Serde JwtSecretState} (s : Settings) (ticks : list (Z * bytes)) (current : JwtSecretState) :
    prog JwtSecretState :=
  match ticks with
  | [] => Ret current
  | (now, fresh) :: ticks =>
      let* current := jwt_rotation_tick (i64_wrap (st_jwt_rotation_interval_secs s)) now fresh current in
      run_jwt_rotation s ticks current
  end.

(** ** The base URL *)

Lemma trim_end_prefix (c : ascii) (a b : string) : trim_end c b ≠ "" → trim_end c (a +:+ b) = a +:+ trim_end c b.
Proof.
  intros Hb. induction a as [|x a IH]; [done|]. cbn [String.append trim_end]. rewrite IH.
  destruct a; cbn [String.append]; [|done]. by destruct (trim_end c b).
Qed.

(** An origin: scheme and host, without a path. *)
Definition is_origin (origin : string) : Prop :=
  ∃ scheme host, scheme ∈ ["http"; "https"] ∧ host ≠ "" ∧ has_char SLASH host = false ∧
    origin = scheme +:+ "://" +:+ host.

Lemma base_url_origin (base : string) : base_url_ok base = true → is_origin (trim_end SLASH (trim_ws base)).
Proof.
  unfold base_url_ok. set (t := trim_ws base). clearbody t. intros Hok.
  apply negb_true_iff, orb_false_iff in Hok as [Hok Hslash]. apply orb_false_iff in Hok as [Hscheme Hhost].
  apply negb_false_iff, orb_true_iff in Hscheme. apply bool_decide_eq_false in Hhost.
  assert (∃ scheme rest, scheme ∈ ["http"; "https"] ∧ t = scheme +:+ "://" +:+ rest ∧ split_once_str "://" t = Some (scheme, rest))
    as (scheme & rest & Hin & -> & Hsplit).
  { destruct Hscheme as [ [rest ->]%starts_with_spec|[rest ->]%starts_with_spec].
    - exists "http", rest. split_and!; [by left|done|]. by destruct rest.
    - exists "https", rest. split_and!; [by right; left|done|]. by destruct rest. }
  rewrite Hsplit in Hhost, Hslash. exists scheme, (trim_end SLASH rest). split_and!; [done|done|done|].
  rewrite !trim_end_prefix; [done|done|]. rewrite trim_end_prefix by done. done.
Qed.

(** ** Tokens *)

Section tokens.
Context `{Jwt} `{Serde JwtSecretState}.

(** The secret that signed a token is still one of the two that are tried. *)
Definition known (secret : bytes) (js : JwtSecretState) : Prop :=
  js_current js = secret ∨ js_previous js = Some secret.

Lemma known_valid (js js' : JwtSecretState) (token : string) (user : UserRecord) :
  known (js_current js) js' → try_validate_token token (js_current js) (ur_token_secret user) = true →
  token_valid js' token user = true.
Proof.
  intros [Hk|Hk] Hv; unfold token_valid; rewrite Hk; [by rewrite Hv|]. by rewrite Hv, orb_true_r.
Qed.

(** A tick keeps the secrets, or moves the current one to the previous. *)
Lemma rotation_tick (interval now : Z) (fresh : bytes) (current : JwtSecretState) :
  ensures (λ js', js' = current ∨
    ((interval ≤ i64_add now (i64_neg (js_rotated_at current)))%Z ∧ js' = mkJwtSecretState fresh (Some (js_current current)) now))
    (jwt_rotation_tick interval now fresh current).
Proof.
  unfold jwt_rotation_tick. case_decide as Hdue; [by left|]. destruct (to_vec _) as [e|b]; [by left|].
  apply ensures_then. intros [u|e]; [|by left]. right. split; [lia|done].
Qed.

Lemma i64_difference a b : (0 ≤ a < 2 ^ 62)%Z → (0 ≤ b < 2 ^ 62)%Z → i64_add a (i64_neg b) = (a - b)%Z.
Proof. intros Ha Hb. unfold i64_add, i64_neg. rewrite (i64_wrap_id (- b)), i64_wrap_id by (unfold i64_ok; lia). lia. Qed.

(** While a token lives, the secret is rotated at most once. *)
Lemma rotations_know (s : Settings) (issued : Z) (ticks : list (Z * bytes)) (secret : bytes) (js : JwtSecretState) :
  (st_jwt_expiry_secs s ≤ st_jwt_rotation_interval_secs s < 2 ^ 63)%Z →
  (0 ≤ issued)%Z → (issued + st_jwt_expiry_secs s < 2 ^ 62)%Z → (0 ≤ st_jwt_expiry_secs s)%Z →
  Forall (λ x, issued ≤ x.1 < issued + st_jwt_expiry_secs s)%Z ticks →
  js_current js = secret ∨ (js_previous js = Some secret ∧ (issued ≤ js_rotated_at js < issued + st_jwt_expiry_secs s)%Z) →
  ensures (known secret) (run_jwt_rotation s ticks js).
Proof.
  intros Hint Hpos Hmax Hexp. revert js. induction ticks as [|[now fresh] ticks IH]; intros js Hticks Hjs; cbn [run_jwt_rotation].
  { destruct Hjs as [?|[? _] ]; [by left|by right]. }
  apply Forall_cons in Hticks as [Hnow Hticks]. cbn [fst] in Hnow.
  apply ensures_bind. eapply ensures_mono; [|apply rotation_tick]. intros js' [->|[Hdue ->] ]; [by apply IH|].
  apply IH; [done|]. cbn [js_current js_previous js_rotated_at]. right. destruct Hjs as [Hcur|[_ Hrot] ]; [by rewrite Hcur|].
  exfalso. rewrite i64_wrap_id in Hdue by (unfold i64_ok; lia). rewrite i64_difference in Hdue by lia. lia.
Qed.

Lemma run_rotations `{UuidGen} (s : Settings) (ticks : list (Z * bytes)) (js : JwtSecretState) (w : world kvmap) :
  ∃ js' w', run (run_jwt_rotation s ticks js) w = (Some js', w').
Proof.
  revert js w. induction ticks as [|[now fresh] ticks IH]; intros js w; cbn [run_jwt_rotation]; [by eexists _, _|].
  rewrite run_bind. unfold jwt_rotation_tick. case_decide; [apply IH|]. destruct (to_vec _) as [e|b]; [apply IH|].
  rewrite run_bind. change (put_meta "jwt_secret" b) with (kv (Put TABLE_META SINGLE_PK "jwt_secret" b)).
  rewrite (run_kv_spec (Put _ _ _ _)). cbn [spec_store fst snd]. apply IH.
Qed.
End tokens.

(** ** Properties *)

Section properties.
Context `{TextFormats} `{Governor} `{Jwt} `{Serde JwtSecretState} `{UuidGen}.

(** A collection is due a minute after the start of the last at the earliest. *)
Lemma gc_tick_spaced (s : Settings) (last now : DateTime) :
  (∀ min, st_gc_min_interval_secs s = Some min → 60 ≤ min)%Z →
  gc_tick_due s (Some last) now = true → (60 ≤ num_seconds_between now last)%Z.
Proof.
  intros Hmin Hdue. unfold gc_tick_due, gc_due in Hdue. cbv zeta in Hdue.
  assert (60 ≤ default DEFAULT_GC_MIN_INTERVAL_SECS (st_gc_min_interval_secs s))%Z as Hd.
  { destruct (st_gc_min_interval_secs s) as [min|]; cbn; [by apply Hmin|done]. }
  destruct (decide (_ < _)%Z) in Hdue; [done|lia].
Qed.

(** With an interval and no time of day, a pass is due when the interval is over. *)
Lemma gc_tick_interval (s : Settings) (min interval last now : Z) :
  st_gc_start_time s = None → st_gc_min_interval_secs s = Some min → st_gc_interval_secs s = Some interval →
  (0 < min ≤ interval)%Z → gc_tick_due s (Some last) now = true ↔ (interval ≤ num_seconds_between now last)%Z.
Proof.
  intros Ht Hmin Hint Hle. unfold gc_tick_due, gc_due. rewrite Ht, Hmin, Hint. cbn [mbind option_bind default from_option id]. cbv zeta.
  case_decide; [split; [done|lia]|]. rewrite bool_decide_eq_true. lia.
Qed.

End properties.

(** ** Witnesses *)

Example configured_origin : external_origin_resolved (st_base_url (with_rate_limit 100 50)) (λ _, None) None "http" = "https://depot.example.com".
Proof. vm_compute. reflexivity. Qed.

#[export] Instance JwtSecretState_eq_dec : EqDecision JwtSecretState.
Proof. solve_decision. Defined.

(** A token of alice, a rotation an hour later and one that is not yet due. *)
Definition toy_states : Serde JwtSecretState := table_serde [mkJwtSecretState "new" (Some toy_secret) 5000].

