(* ===== verification/Package.v ===== *)
(** * Keeping package files

    What the stores of the package formats share (format/*/src/store.rs): a
    file is hashed and written under a fresh blob id, the hash is claimed, and
    a record is put under a path that the format derives from the coordinates
    of the package, with the deltas of the directory.  The lemmas say that such
    a sequence keeps the repository sound and what it leaves behind. *)

From S2P Require Import Prelude Bytes Errors Keys Records Kv Prog Wp Effects Scan Pagination Update Artifact Blob Repo Directory Ingest BulkDelete TreeRebuild.
From S2P Require Import BloomFilter UpdateWorker Batches Check CheckScan DockerGc Cache Text.

(** The digests of the [sha1] and [sha2] crates: in hexadecimal, and for
    SHA-512 as npm writes it. *)
Class Digests := {
  sha256_hex : bytes → string;
  sha1_hex : bytes → string;
  sha512_base64 : bytes → string;
}.

(** The fields that the stores have in common; [fs_blobs] names the blob store
    that [blobs] gives access to. *)
Record FormatStore : Type := mkFormatStore {
  fs_repo : string;
  fs_blobs : string;
  fs_store : string;
}.

(** core/src/repo/mod.rs:51-56 *)
Record BlobInfo : Type := mkBlobInfo {
  bi_blob_id : string;
  bi_blake3_hash : string;
  bi_sha256_hash : string;
  bi_size : Z;
}.

Definition byte_size (data : bytes) : Z := Z.of_nat (String.length data).

(** The records that the stores build. *)
Definition blob_record (self : FormatStore) (blob_id hash : string) (size : Z) (now : DateTime) : BlobRecord :=
  mkBlobRecord CURRENT_RECORD_VERSION blob_id hash size now (fs_store self).

Definition file_record (kind : ArtifactKind) (internal : bool) (content_type : string) (size : Z) (blob_id hash : string)
    (now : DateTime) : ArtifactRecord :=
  mkArtifactRecord CURRENT_RECORD_VERSION "" size content_type now now now "" kind internal
    (Some blob_id) (Some hash) (Some hash).

(** What a handler answers: a body with its content type, or an error, whose
    status is that of [Errors]. *)
Inductive HttpReply : Type :=
| RBody (content_type : string) (body : bytes)
| RError (e : DepotError).

Definition reply_ok (r : HttpReply) : bool := match r with RBody _ _ => true | RError _ => false end.

(** The body of a request: the pieces of the stream up to its end or an error.
    Empty pieces are skipped, which does not show in what they add up to. *)
Definition Body : Type := list (string + bytes).

Fixpoint read_body (body : Body) : string + bytes :=
  match body with
  | [] => inr ""
  | inl e :: _ => inl e
  | inr chunk :: body =>
      match read_body body with
      | inl e => inl e
      | inr rest => inr (chunk +:+ rest)
      end
  end.

(** [resp.bytes().await]. *)
Fixpoint collect_body (l : list (string + bytes)) : result bytes :=
  match l with
  | [] => Ok ""
  | inl e :: _ => Err (Errors.upstream e)
  | inr chunk :: l => let? rest := collect_body l in Ok (chunk +:+ rest)
  end.

Section package.
Context `{Blake3} `{Serde ArtifactRecord} `{Serde TreeEntry} `{Serde BlobRecord}.

(** [service::claim_or_reuse_blob_counted] with the record of the blob. *)
Definition claim_file (self : FormatStore) (blob_id hash : string) (size : Z) (now : DateTime) : prog (result string) :=
  claim_or_reuse_blob_counted (fs_blobs self) (fs_store self) (blob_record self blob_id hash size now).

(** [service::put_artifact] and the change of the directory. *)
Definition put_counted (repo path : string) (record : ArtifactRecord) : prog (result (option ArtifactRecord)) :=
  let*? old_record := put_artifact repo path record in
  let '(count_delta, bytes_delta) := dir_deltas (ar_size record) old_record in
  let* _ := dir_changed repo path count_delta bytes_delta in
  Ret (Ok old_record).

(** The end of every upload: the hash of a blob that has been written is
    claimed, and the record is put. *)
Definition record_file (self : FormatStore) (path : string) (kind : ArtifactKind) (internal : bool) (content_type : string)
    (blob_id hash : string) (size : Z) (now : DateTime) : prog (result ArtifactRecord) :=
  let*? blob_id := claim_file self blob_id hash size now in
  let record := file_record kind internal content_type size blob_id hash now in
  let*? _ := put_counted (fs_repo self) path record in
  Ret (Ok record).

(** An upload from memory. *)
Definition put_file (self : FormatStore) (path : string) (kind : ArtifactKind) (internal : bool) (content_type : string)
    (data : bytes) : prog (result ArtifactRecord) :=
  let hash := blake3_hex data in
  let* blob_id := call EUuid in
  let* now := call ENow in
  let*? _ := blob (fs_blobs self) (BPut blob_id data) in
  record_file self path kind internal content_type blob_id hash (byte_size data) now.

(** An upload whose blob has been written already. *)
Definition commit_file (self : FormatStore) (path : string) (kind : ArtifactKind) (internal : bool) (content_type : string)
    (blob_id hash : string) (size : Z) : prog (result ArtifactRecord) :=
  let* now := call ENow in
  record_file self path kind internal content_type blob_id hash size now.

(** [service::delete_artifact] on several paths, with whether one was there. *)
Fixpoint delete_files (repo : string) (paths : list string) (deleted : bool) : prog (result bool) :=
  match paths with
  | [] => Ret (Ok deleted)
  | path :: paths =>
      let*? old := delete_artifact repo path in
      delete_files repo paths (deleted || bool_decide (is_Some old))
  end.

(** A blob opened for reading, with its size. *)
Definition open_read (self : FormatStore) (blob_id : string) : prog (result (option (bytes * Z))) :=
  let*? o := blob (fs_blobs self) (BGet blob_id) in
  Ret (Ok ((λ data, (data, byte_size data)) <$> o)).

(** The file of a record that is in place. *)
Definition open_file (self : FormatStore) (record : ArtifactRecord) : prog (result (option (bytes * Z * ArtifactRecord))) :=
  let blob_id := default "" (ar_blob_id record) in
  let*? o := open_read self blob_id in
  match o with
  | Some (reader, size) => Ret (Ok (Some (reader, size, record)))
  | None => Ret (Err (DataIntegrity ("blob missing for blob_id " +:+ blob_id)))
  end.

(** The lookup that the stores have in common. *)
Definition get_file (self : FormatStore) (path : string) : prog (result (option (bytes * Z * ArtifactRecord))) :=
  let*? record := get_artifact (fs_repo self) path in
  match record with
  | None => Ret (Ok None)
  | Some record =>
      if decide (default "" (ar_blob_id record) = "") then Ret (Ok None)
      else open_file self record
  end.
End package.

(** ** What the calls leave behind *)

Section laws.
Context `{Blake3} `{Serde ArtifactRecord} `{Serde TreeEntry} `{Serde BlobRecord} `{UuidGen}
  {ar_exact : SerdeExact ArtifactRecord} {br_exact : SerdeExact BlobRecord}.
Implicit Types (w : world kvmap) (m : kvmap) (self : FormatStore) (ids paths : list string).

(** Blobs are only added, with the given ids, and only the records at the
    given paths change. *)
Record only_adds self ids paths w w' : Prop := {
  oa_kept : ∀ x (d : bytes), w_blobs w !! x = Some d → w_blobs w' !! x = Some d;
  oa_new : ∀ x, w_blobs w !! x = None → w_blobs w' !! x ≠ None → ∃ id, id ∈ ids ∧ x = (fs_blobs self, id);
  oa_artifacts : ∀ k, k.1.1 = TABLE_ARTIFACTS → (∀ path, path ∈ paths → k ≠ artifact_key (fs_repo self) path) →
    w_kv w' !! k = w_kv w !! k;
  oa_other : ∀ k, k.1.1 ≠ TABLE_ARTIFACTS → k.1.1 ≠ TABLE_DIR_ENTRIES → k.1.1 ≠ TABLE_BLOBS → w_kv w' !! k = w_kv w !! k;
  oa_stores : w_stores w' = w_stores w;
  oa_uuids : w_uuids w ≤ w_uuids w';
}.

Lemma only_adds_refl self ids paths w : only_adds self ids paths w w.
Proof. by split. Qed.

Lemma only_adds_trans self ids1 ids2 paths1 paths2 w1 w2 w3 :
  only_adds self ids1 paths1 w1 w2 → only_adds self ids2 paths2 w2 w3 → only_adds self (ids1 ++ ids2) (paths1 ++ paths2) w1 w3.
Proof.
  intros [Hk1 Hn1 Ha1 Ho1 Hs1 Hu1] [Hk2 Hn2 Ha2 Ho2 Hs2 Hu2]. split.
  - auto.
  - intros x Hx Hx'. destruct (w_blobs w2 !! x) as [d|] eqn:H2'.
    + destruct (Hn1 x Hx) as (id & Hid & ->); [congruence|]. exists id. split; [|done]. apply elem_of_app. by left.
    + destruct (Hn2 x H2' Hx') as (id & Hid & ->). exists id. split; [|done]. apply elem_of_app. by right.
  - intros k Hk Hno. rewrite Ha2, Ha1; [done|done| |done|]; intros path Hp; apply Hno, elem_of_app; auto.
  - intros k H1' H2' H3'. by rewrite Ho2, Ho1.
  - by rewrite Hs2.
  - lia.
Qed.

Lemma only_adds_weaken self ids1 ids2 paths1 paths2 w1 w2 : ids1 ⊆ ids2 → paths1 ⊆ paths2 →
  only_adds self ids1 paths1 w1 w2 → only_adds self ids2 paths2 w1 w2.
Proof.
  intros Hi Hp [Hk Hn Ha Ho Hs Hu]. split; [done| | |done..].
  - intros x Hx Hx'. destruct (Hn x Hx Hx') as (id & Hid & ->). exists id. split; [|done]. by apply Hi.
  - intros k Hk' Hno. apply Ha; [done|]. auto.
Qed.

(** The record of [path] is [r], up to its id and its access time. *)
Definition record_at self (path : string) (r : ArtifactRecord) w : Prop :=
  ∃ (b : bytes) (v : Z) (id : string) (accessed : DateTime),
    w_kv w !! artifact_key (fs_repo self) path = Some (b, v) ∧ from_slice b = inr (ar_prepared r id accessed path).

(** A record in place is one of those of the repository. *)
Lemma record_at_stored self path r w : normalize_path path = path → record_at self path r w →
  ∃ id accessed, stored (w_kv w) (fs_repo self) path (ar_prepared r id accessed path).
Proof.
  intros Hn (b & v & id & acc & Hm & Hv). exists id, acc, (shard_of path), b, v. split; [apply shard_of_in_range|].
  unfold artifact_key in Hm. by rewrite Hn in Hm.
Qed.

Lemma record_at_kept self ids paths path r w w' : only_adds self ids paths w w' →
  (∀ path', path' ∈ paths → artifact_key (fs_repo self) path ≠ artifact_key (fs_repo self) path') →
  record_at self path r w → record_at self path r w'.
Proof. intros [_ _ Ha _ _ _] Hno (b & v & id & acc & Hm & Hv). exists b, v, id, acc. split; [|done]. by rewrite Ha. Qed.

(** The record of [path] is [r] in that sense, and its blob has the hash of
    [data]. *)
Definition file_at self (path : string) (r : ArtifactRecord) (data : bytes) w : Prop :=
  record_at self path r w ∧
  ∃ (blob_id : string) (d : bytes), ar_blob_id r = Some blob_id ∧ blob_id ≠ "" ∧ w_blobs w !! (fs_blobs self, blob_id) = Some d ∧
    blake3_hex d = blake3_hex data.

Lemma file_at_kept self ids paths path r data w w' : only_adds self ids paths w w' →
  (∀ path', path' ∈ paths → artifact_key (fs_repo self) path ≠ artifact_key (fs_repo self) path') →
  file_at self path r data w → file_at self path r data w'.
Proof.
  intros Ho Hno [Hr (bid & d & Hb & Hne & Hd & Hh)]. split; [by eapply record_at_kept|].
  exists bid, d. split_and!; [done|done|by apply (oa_kept _ _ _ _ _ Ho)|done].
Qed.

Definition add_blob self (id : string) (data : bytes) w : world kvmap :=
  set_blobs (<[(fs_blobs self, id) := data]> (w_blobs w)) w.

(** The id names a blob with the hash of [data]. *)
Definition blob_at self (data : bytes) (id : string) w : Prop :=
  id ≠ "" ∧ ∃ d : bytes, w_blobs w !! (fs_blobs self, id) = Some d ∧ blake3_hex d = blake3_hex data.

Lemma blob_at_kept self ids paths data id w w' : only_adds self ids paths w w' → blob_at self data id w → blob_at self data id w'.
Proof. intros [Hk _ _ _ _ _] (Hne & d & Hd & Hh). split; [done|]. exists d. split; [by apply Hk|done]. Qed.

Lemma add_blob_only self id data w : fresh_id (fs_blobs self) w id → only_adds self [id] [] w (add_blob self id data w).
Proof.
  unfold fresh_id. intros Hid. split; [| |done..].
  - intros x d Hx. cbn. rewrite lookup_insert_ne; [done|]. intros <-. congruence.
  - intros x Hx Hx'. cbn in Hx'. destruct (decide ((fs_blobs self, id) = x)) as [<-|Hne].
    + exists id. split; [by left|done].
    + by rewrite lookup_insert_ne in Hx'.
Qed.

(** The id is that of no blob, and not empty; neither is that of any blob. *)
Definition new_id self w (id : string) : Prop :=
  fresh_id (fs_blobs self) w id ∧ id ≠ "" ∧ w_blobs w !! (fs_blobs self, "") = None.

Lemma new_id_kept self ids paths id w w' : only_adds self ids paths w w' → new_id self w id → id ∉ ids → "" ∉ ids → new_id self w' id.
Proof.
  unfold new_id, fresh_id. intros [_ Hn _ _ _ _] (Hf & Hne & He) Hi Hi'. split_and!; [|done|].
  - destruct (w_blobs w' !! (fs_blobs self, id)) eqn:Hx; [|done]. destruct (Hn _ Hf) as (i & Hin & [= <-]); [congruence|done].
  - destruct (w_blobs w' !! (fs_blobs self, "")) eqn:Hx; [|done]. destruct (Hn _ He) as (i & Hin & [= <-]); [congruence|done].
Qed.

(** A fresh blob claims its hash. *)
Lemma wp_claim_file self repos id data size now w : sound (fs_blobs self) (fs_store self) repos w → new_id self w id →
  wp (claim_file self id (blake3_hex data) size now) (add_blob self id data w) (λ (res : result string) w',
    sound (fs_blobs self) (fs_store self) repos w' ∧ only_adds self [id] [] w w' ∧ w_uuids w' = w_uuids w ∧ w_now w' = w_now w ∧
    match res with Ok id' => blob_at self data id' w' | Err _ => True end).
Proof using ar_exact br_exact.
  intros Hs (Hid & Hne0 & Hempty). pose proof (sound_blob_added _ _ _ _ _ data Hid Hs) as Hs1. pose proof (add_blob_only self id data w Hid) as Ho1.
  unfold claim_file, claim_or_reuse_blob_counted, put_dedup_record_counted. apply wp_bind_ok, wp_bind_ok.
  unfold wp at 1. rewrite run_put_dedup. cbn [br_hash blob_record add_blob w_kv set_blobs].
  set (rec := br_in_store _ _). destruct (to_vec rec) as [e|b] eqn:Hb; [done|].
  destruct (w_kv w !! blob_key (fs_store self) (blake3_hex data)) as [ [b0 v0]|] eqn:Hm.
  - destruct (from_slice b0) as [e|old] eqn:He; [done|]. apply wp_bind, wp_ret, wp_ret.
    destruct (proj1 Hs _ _ _ _ Hm He) as (d & Hd & Hh). unfold reuse_existing. case_decide as Hne.
    + apply wp_bind. apply (wp_intro _ _ (Ok tt) (set_blobs (delete (fs_blobs self, id) (<[(fs_blobs self, id) := data]> (w_blobs w))) (add_blob self id data w)));
        [done|]. cbn [br_blob_id blob_record] in Hne. apply wp_ret. split; [by apply (sound_blob_dropped _ _ _ w)|]. split; [|split_and!; [done..|] ].
      * rewrite delete_insert_eq, delete_id by done. destruct w; apply only_adds_weaken with [] []; try apply only_adds_refl; set_solver.
      * split; [|exists d; cbn; by rewrite delete_insert_eq, delete_id]. intros Heq. rewrite Heq in Hd. congruence.
    + apply wp_ret. split; [done|]. split; [done|]. split_and!; [done..|]. cbn [br_blob_id blob_record]. split; [done|]. exists data. cbn. by rewrite lookup_insert_eq.
  - apply wp_bind. eapply wp_intro; [done|]. apply wp_ret. unfold reuse_existing. apply wp_ret.
    split; [|split; [|split_and!; [done..|] ] ].
    2:{ destruct Ho1 as [Hk Hn Ha Ho Hst Hu]. split; [done|done| | |done|done].
        - intros k Hk' _. cbn. by rewrite lookup_insert_ne by (intros <-; done).
        - intros k _ _ Hk'. cbn. by rewrite lookup_insert_ne by (intros <-; done). }
    + apply (sound_frame _ _ _ (set_kv (<[blob_key (fs_store self) (br_hash rec) := (b, 1%Z)]> (w_kv w)) (add_blob self id data w))); [done|done|].
      apply (sound_dedup_added _ _ _ (add_blob self id data w) rec b data); [done..|]. cbn. by rewrite lookup_insert_eq.
    + split; [done|]. exists data. cbn. by rewrite lookup_insert_eq.
Qed.
Lemma wp_and {A} (p : prog A) w (Q Q' : A → world kvmap → Prop) : wp p w Q → wp p w Q' → wp p w (λ a w', Q a w' ∧ Q' a w').
Proof. unfold wp. by destruct (run p w) as [ [a|] w']. Qed.

(** What putting a record leaves: only its key and the directory change. *)
Definition record_put self path r w (ok : bool) w' : Prop :=
  only_adds self [] [path] w w' ∧ w_blobs w' = w_blobs w ∧ (∀ k, k.1.1 = TABLE_BLOBS → w_kv w' !! k = w_kv w !! k) ∧
  if ok then record_at self path r w'
  else w_kv w' !! artifact_key (fs_repo self) path = w_kv w !! artifact_key (fs_repo self) path.

Lemma wp_put_artifact self path r w : wp (put_artifact (fs_repo self) path r) w (λ (res : result (option ArtifactRecord)) w',
    record_put self path r w (is_ok res) w').
Proof using ar_exact.
  assert (w_blobs (after_prepare w r) = w_blobs w) as Hbl by (unfold after_prepare; by case_decide).
  assert (w_uuids w ≤ w_uuids (after_prepare w r)) as Hu by (unfold after_prepare; case_decide; cbn; lia).
  unfold wp, record_put. rewrite run_put_artifact_any.
  case_decide; [by split_and!; [apply only_adds_weaken with [] []; [done|apply list_subseteq_nil|apply only_adds_refl]|..]|].
  destruct (old_of _ _) as [e|old] eqn:Hold; [by split_and!; [apply only_adds_weaken with [] []; [done|apply list_subseteq_nil|apply only_adds_refl]|..]|].
  destruct (to_vec _) as [e|b] eqn:Hb.
  { split_and!; [|done|by intros; rewrite w_kv_after_prepare|by cbn; rewrite w_kv_after_prepare].
    split; [by intros x d'; rewrite Hbl|by intros x Hx; rewrite Hbl|by intros; rewrite w_kv_after_prepare..|by unfold after_prepare; case_decide|done]. }
  split_and!.
  - split; [by intros x d'; cbn; rewrite Hbl|by intros x Hx; cbn; rewrite Hbl| | |by cbn; unfold after_prepare; case_decide|done].
    + intros k Hk Hno. cbn. rewrite tree_put_lookup by (intros ->; done). apply lookup_insert_ne. intros <-. apply (Hno path); [by left|done].
    + intros k Hk1 Hk2 _. cbn. rewrite tree_put_lookup by (intros ->; done). apply lookup_insert_ne. by intros <-.
  - done.
  - intros k Hk. cbn. rewrite tree_put_lookup by (intros ->; done). apply lookup_insert_ne. by intros <-.
  - exists b, (u64_add (version_of (w_kv w !! artifact_key (fs_repo self) path)) 1). do 2 eexists. split.
    + cbn. rewrite tree_put_lookup by apply artifact_tree_key_ne. by rewrite lookup_insert_eq.
    + by rewrite (from_to_vec _ _ Hb), wire_id.
Qed.

Lemma wp_put_any self path r w : wp (put_counted (fs_repo self) path r) w (λ (res : result (option ArtifactRecord)) w',
    record_put self path r w (is_ok res) w').
Proof using ar_exact.
  unfold put_counted. apply wp_bind_ok. eapply wp_mono; [apply wp_put_artifact|]. intros res w' Hput. destruct res as [old|e]; [|done].
  destruct (dir_deltas (ar_size r) old) as [c bs]. apply wp_bind. eapply wp_intro; [done|]. apply wp_ret.
  destruct Hput as ([Hk Hn Ha Ho Hs Hu] & Hb & Hd & Hr). split; [by split|]. by split_and!.
Qed.

Lemma wp_put_sound self repos path r w : sound (fs_blobs self) (fs_store self) repos w →
  (∀ id, ar_blob_id r = Some id → ∃ d : bytes, w_blobs w !! (fs_blobs self, id) = Some d ∧ ar_content_hash r = Some (blake3_hex d)) →
  wp (put_counted (fs_repo self) path r) w (λ _ w', sound (fs_blobs self) (fs_store self) repos w').
Proof using ar_exact br_exact.
  intros Hs Hblob. unfold put_counted. apply wp_bind_ok.
  pose proof (sound_artifact_put (fs_blobs self) (fs_store self) repos w (fs_repo self) path r _ Hs Hblob eq_refl) as Hs'.
  unfold wp at 1. rewrite run_put_artifact_any in *.
  repeat (case_decide || destruct (old_of _ _) || destruct (to_vec _)); [done..|].
  destruct (dir_deltas _ _). apply wp_bind. eapply wp_intro; [done|]. by apply wp_ret, (sound_frame _ _ _ _ _ eq_refl (λ _ _, eq_refl) Hs').
Qed.

(** A record is put whose blob, if it has one, is in place. *)
Lemma wp_put_record self repos path r w : sound (fs_blobs self) (fs_store self) repos w →
  (∀ id, ar_blob_id r = Some id → ∃ d : bytes, w_blobs w !! (fs_blobs self, id) = Some d ∧ ar_content_hash r = Some (blake3_hex d)) →
  wp (put_counted (fs_repo self) path r) w (λ (res : result (option ArtifactRecord)) w',
    sound (fs_blobs self) (fs_store self) repos w' ∧ only_adds self [] [path] w w' ∧ w_blobs w' = w_blobs w ∧
    match res with
    | Ok _ => record_at self path r w'
    | Err _ => w_kv w' !! artifact_key (fs_repo self) path = w_kv w !! artifact_key (fs_repo self) path
    end).
Proof using ar_exact br_exact.
  intros Hs Hblob. eapply wp_mono; [apply wp_and; [by eapply wp_put_sound|apply wp_put_any]|]. intros res w' (Hs' & Ho & Hb & _ & Hr). by destruct res.
Qed.

Lemma wp_put_counted self repos path r data id w : sound (fs_blobs self) (fs_store self) repos w →
  ar_blob_id r = Some id → ar_content_hash r = Some (blake3_hex data) → blob_at self data id w →
  wp (put_counted (fs_repo self) path r) w (λ (res : result (option ArtifactRecord)) w',
    sound (fs_blobs self) (fs_store self) repos w' ∧ only_adds self [] [path] w w' ∧ w_blobs w' = w_blobs w ∧
    match res with
    | Ok _ => file_at self path r data w'
    | Err _ => w_kv w' !! artifact_key (fs_repo self) path = w_kv w !! artifact_key (fs_repo self) path
    end).
Proof using ar_exact br_exact.
  intros Hs Hid Hhash (Hne & d & Hd & Hh). eapply wp_mono; [apply (wp_put_record _ repos); [done|]|].
  { intros i Hi. rewrite Hid in Hi. injection Hi as <-. exists d. by rewrite Hh. }
  intros res w' (Hs' & Ho & Hb & Hr). split; [done|]. split_and!; [done|done|]. destruct res; [|done].
  split; [done|]. exists id, d. by rewrite Hb.
Qed.

(** What an upload leaves: the record it returns is under the path, with the
    kind and the type it was given and a blob with the hash of the data. *)
Definition uploaded self (path : string) (kind : ArtifactKind) (internal : bool) (content_type : string) (size : Z)
    (data : bytes) (r : ArtifactRecord) w : Prop :=
  ∃ blob_id now, r = file_record kind internal content_type size blob_id (blake3_hex data) now ∧ file_at self path r data w.

Lemma uploaded_kept self ids paths path kind internal ct size data r w w' : only_adds self ids paths w w' →
  (∀ path', path' ∈ paths → artifact_key (fs_repo self) path ≠ artifact_key (fs_repo self) path') →
  uploaded self path kind internal ct size data r w → uploaded self path kind internal ct size data r w'.
Proof. intros Ho Hno (bid & now & -> & Hf). exists bid, now. split; [done|]. by eapply file_at_kept. Qed.

Lemma wp_record_file self repos path kind internal ct id data size now w :
  sound (fs_blobs self) (fs_store self) repos w → new_id self w id →
  wp (record_file self path kind internal ct id (blake3_hex data) size now) (add_blob self id data w)
    (λ (res : result ArtifactRecord) w', sound (fs_blobs self) (fs_store self) repos w' ∧ only_adds self [id] [path] w w' ∧
      match res with
      | Ok r => uploaded self path kind internal ct size data r w'
      | Err _ => w_kv w' !! artifact_key (fs_repo self) path = w_kv w !! artifact_key (fs_repo self) path
      end).
Proof using ar_exact br_exact.
  intros Hs Hid. unfold record_file. apply wp_bind_ok. eapply wp_mono; [by apply wp_claim_file|].
  intros [id'|e] w1 (Hs1 & Ho1 & _ & _ & Hr1).
  2:{ split; [done|]. split; [by eapply only_adds_weaken; [| |exact Ho1]; set_solver|].
      apply (oa_artifacts _ _ _ _ _ Ho1); [done|]. by intros ? ?%elem_of_nil. }
  apply wp_bind_ok. eapply wp_mono; [by apply (wp_put_counted self repos path _ data id')|]. intros res w2 (Hs2 & Ho2 & _ & Hr2).
  pose proof (only_adds_trans _ _ _ _ _ _ _ _ Ho1 Ho2) as Ho. rewrite app_nil_r in Ho.
  destruct res as [old|e]; [apply wp_ret|]; (split; [done|]); (split; [done|]).
  - by eexists _, _.
  - rewrite Hr2. apply (oa_artifacts _ _ _ _ _ Ho1); [done|]. by intros ? ?%elem_of_nil.
Qed.

Lemma wp_put_file self repos path kind internal ct data w :
  sound (fs_blobs self) (fs_store self) repos w → new_id self w (new_v4 (w_uuids w)) →
  wp (put_file self path kind internal ct data) w (λ (res : result ArtifactRecord) w',
    sound (fs_blobs self) (fs_store self) repos w' ∧ only_adds self [new_v4 (w_uuids w)] [path] w w' ∧
    match res with
    | Ok r => uploaded self path kind internal ct (byte_size data) data r w'
    | Err _ => w_kv w' !! artifact_key (fs_repo self) path = w_kv w !! artifact_key (fs_repo self) path
    end).
Proof using ar_exact br_exact.
  intros Hs Hid. unfold put_file. apply wp_bind. eapply wp_intro; [done|]. apply wp_bind. eapply wp_intro; [done|].
  apply wp_bind_ok. eapply wp_intro; [done|].
  eapply wp_mono; [exact (wp_record_file self repos path kind internal ct (new_v4 (w_uuids w)) data (byte_size data) (w_now w) (bump_uuid w) Hs Hid)|].
  intros res w' (Hs' & [Hk Hn Ha Ho Hst Hu] & Hr). split; [done|]. split; [|done]. split; [done..|]. cbn in Hu. lia.
Qed.

(** A file in place is served, with its record. *)
Lemma file_at_served self path r data w : file_at self path r data w →
  ∃ (d : bytes) id accessed, run (get_file self path) w = (Some (Ok (Some (d, byte_size d, ar_prepared r id accessed path))), w) ∧
    blake3_hex d = blake3_hex data.
Proof.
  intros [(b & v & id & acc & Hm & Hv) (bid & d & Hb & Hne & Hd & Hh)]. exists d, id, acc. split; [|done].
  unfold get_file. rewrite run_bind_ok, run_get_artifact. unfold old_of. rewrite Hm, Hv.
  cbn [ar_prepared ar_blob_id]. rewrite Hb. cbn [default]. rewrite decide_False by done.
  unfold open_file. cbn [ar_blob_id ar_prepared]. rewrite Hb. cbn. by rewrite Hd.
Qed.

(** The flags change nothing of what has been uploaded. *)
Lemma file_at_flagged self path r data w w' : flags_only w w' → file_at self path r data w → file_at self path r data w'.
Proof.
  intros (Hb & _ & _ & _ & Hk) [(b & v & id & acc & Hm & Hv) (bid & d & Hbid & Hne & Hd & Hh)]. split.
  - exists b, v, id, acc. split; [|done]. destruct (Hk (artifact_key (fs_repo self) path)) as [->|[?|(_ & Hnone & _)] ]; [done|done|congruence].
  - exists bid, d. by rewrite Hb.
Qed.
End laws.

(** ** Hosted repositories *)

Section hosted.
Context `{Blake3} `{Serde RepoConfig}.
Implicit Types (w : world kvmap).

(** The repository is a hosted one, and its blob store is registered. *)
Definition hosted_on w (config : RepoConfig) : Prop :=
  repo_of (w_kv w) (rc_name config) = Ok (Some config) ∧ rc_kind config = Hosted ∧ rc_store config ∈ w_stores w.

Definition store_of (config : RepoConfig) : FormatStore := mkFormatStore (rc_name config) (rc_store config) (rc_store config).

Lemma hosted_on_kept self ids paths config w w' : only_adds self ids paths w w' → hosted_on w config → hosted_on w' config.
Proof.
  intros [_ _ _ Ho Hs _] (Hr & Hk & Hst). split_and!; [|done|by rewrite Hs].
  rewrite <-Hr. unfold repo_of. by rewrite (Ho (repo_key (rc_name config))).
Qed.
Lemma hosted_on_flagged `{Serde ArtifactRecord} config w w' : flags_only w w' → hosted_on w config → hosted_on w' config.
Proof.
  intros (_ & Hs & _ & _ & Hk) (Hr & Hkind & Hst). split_and!; [|done|by rewrite Hs]. rewrite <-Hr. unfold repo_of.
  by destruct (Hk (repo_key (rc_name config))) as [->|[?|(? & _)] ].
Qed.
End hosted.

(** ** Collecting from the artifacts *)

(** The artifacts under a prefix with their keys; [site] tells apart the folds
    that may be scheduled differently. *)
Definition list_under `{Serde ArtifactRecord} `{Scheduler} (fuel site : nat) (self : FormatStore) (prefix : string) :
    prog (result (list (string * ArtifactRecord))) :=
  fold_all_artifacts (arrange site shard_range) fuel (fs_repo self) prefix [] (λ acc sk record, Ok (acc ++ [(sk, record)])) (++).

Section collect.
Context `{Serde ArtifactRecord} `{UuidGen} `{Scheduler}.
Implicit Types (m : kvmap) (w : world kvmap).

Section view.
Context {St : Type} (v : St → Prop) (g : string → ArtifactRecord → Prop) (step : St → string → ArtifactRecord → St)
  (init : St) (merge : St → St → St).
Hypotheses (v_step : ∀ s sk r, v (step s sk r) ↔ v s ∨ g sk r) (v_merge : ∀ a b, v (merge a b) ↔ v a ∨ v b) (v_init : ¬ v init).

Lemma view_entries (l : list (string * ArtifactRecord)) s :
  v (fold_entries s step l) ↔ v s ∨ ∃ x, x ∈ l ∧ g x.1 x.2.
Proof using v_step.
  revert s. induction l as [|[sk r] l IH]; intros s; cbn.
  - split; [by left|]. intros [?|(x & ?%elem_of_nil & _)]; done.
  - unfold fold_entries in *. cbn. rewrite IH, v_step. setoid_rewrite elem_of_cons. split.
    + intros [ [?|?]|(x & ? & ?)]; [by left|right; exists (sk, r); auto|right; exists x; auto].
    + intros [?|(x & [->|?] & ?)]; [by left; left|by left; right|right; by exists x].
Qed.

Lemma view_reduce_or states : v (reduce_or merge init states) ↔ ∃ s, s ∈ states ∧ v s.
Proof using v_merge v_init.
  clear v_step g step. destruct states as [|s states]; cbn [reduce_or].
  - split; [done|]. by intros (s & ?%elem_of_nil & _).
  - revert s. induction states as [|s' states IH]; intros s; cbn [foldl].
    + split; [intros ?; exists s; by split; [left|]|]. by intros (x & ->%list_elem_of_singleton & ?).
    + rewrite IH. split.
      * intros (x & [->|Hx]%elem_of_cons & Hv); [|exists x; split; [set_solver|done] ].
        apply v_merge in Hv as [Hv|Hv]; [exists s|exists s']; (split; [set_solver|done]).
      * intros (x & [->|[->|Hx]%elem_of_cons]%elem_of_cons & Hv); [| |exists x; split; [set_solver|done] ];
          exists (merge s s'); rewrite v_merge; (split; [set_solver|auto]).
Qed.

(** What a fold over the artifacts says of each of them. *)
Lemma run_fold_where (site fuel : nat) repo prefix w : all_readable (w_kv w) repo → enough (w_kv w) fuel repo →
  ∃ st, run (fold_all_artifacts (arrange site shard_range) fuel repo prefix init (λ s sk r, Ok (step s sk r)) merge) w = (Some (Ok st), w) ∧
    (v st ↔ ∃ sk r, starts_with sk prefix = true ∧ stored (w_kv w) repo sk r ∧ g sk r).
Proof using v_step v_merge v_init.
  intros Hread He. pose proof (arrange_perm _ site shard_range) as Hperm.
  destruct (fold_all_any (arrange site shard_range) fuel repo prefix init (λ s sk r, Ok (step s sk r)) merge w)
    as [ (r & Hr & Hok & Herr)|[_ (shard & Hs & Hf)] ].
  2:{ rewrite Hperm in Hs. specialize (He shard Hs). lia. }
  destruct r as [st|e].
  2:{ destruct (Herr e eq_refl) as (shard & Hs & He'). exfalso. revert He'. apply fold_until_ok.
      intros [sk b] (_ & n & Hm)%elem_of_entries. apply (Hread shard sk b n); [|done]. by rewrite <-Hperm. }
  exists st. split; [exact Hr|]. destruct (Hok st eq_refl) as (states & -> & Hall). rewrite view_reduce_or.
  transitivity (∃ x, x ∈ all_records (w_kv w) repo prefix (arrange site shard_range) ∧ g x.1 x.2).
  - unfold all_records. clear Hr Hok Herr Hperm. induction Hall as [|shard s schedule states Hf Hall IH].
    { split; [by intros (s & ?%elem_of_nil & _)|by intros (x & ?%elem_of_nil & _)]. }
    apply fold_until_records in Hf as [-> _]. cbn [fmap list_fmap concat]. split.
    + intros (x & [->|Hx]%elem_of_cons & Hv).
      * apply view_entries in Hv as [?|(y & Hy & Hg)]; [done|]. exists y. split; [|done]. apply elem_of_app. by left.
      * destruct (proj1 IH (ex_intro _ x (conj Hx Hv))) as (y & ? & ?). exists y. split; [|done]. apply elem_of_app. by right.
    + intros (y & [Hy|Hy]%elem_of_app & Hg).
      * eexists. split; [by left|]. apply view_entries. right. by exists y.
      * destruct (proj2 IH (ex_intro _ y (conj Hy Hg))) as (x & ? & ?). exists x. by split; [right|].
  - split.
    + intros ([sk r] & Hx & Hg). apply elem_of_all_records in Hx as [? ?]; [|done]. by exists sk, r.
    + intros (sk & r & Hp & Hst & Hg). exists (sk, r). split; [|done]. by apply elem_of_all_records.
Qed.
End view.

(** The set of what the artifacts under a prefix contribute. *)
Lemma run_collect_set (f : string → ArtifactRecord → option string) (site fuel : nat) repo prefix w :
  all_readable (w_kv w) repo → enough (w_kv w) fuel repo →
  ∃ s : gset string, run (fold_all_artifacts (arrange site shard_range) fuel repo prefix ∅
      (λ acc sk r, Ok match f sk r with Some x => {[x]} ∪ acc | None => acc end) (∪)) w = (Some (Ok s), w) ∧
    ∀ x, x ∈ s ↔ ∃ sk r, starts_with sk prefix = true ∧ stored (w_kv w) repo sk r ∧ f sk r = Some x.
Proof.
  intros Hread He.
  assert (∀ x, ∃ s : gset string, run (fold_all_artifacts (arrange site shard_range) fuel repo prefix ∅
      (λ acc sk r, Ok match f sk r with Some x => {[x]} ∪ acc | None => acc end) (∪)) w = (Some (Ok s), w) ∧
    (x ∈ s ↔ ∃ sk r, starts_with sk prefix = true ∧ stored (w_kv w) repo sk r ∧ f sk r = Some x)) as Hx.
  { intros x. apply (run_fold_where (λ s : gset string, x ∈ s) (λ sk r, f sk r = Some x)
      (λ acc sk r, match f sk r with Some x => {[x]} ∪ acc | None => acc end)); [|set_solver..|done|done].
    intros s sk r. destruct (f sk r) as [y|]; [|naive_solver]. rewrite elem_of_union, elem_of_singleton. naive_solver. }
  destruct (Hx "") as (s & Hr & _). exists s. split; [exact Hr|]. intros x. destruct (Hx x) as (s' & Hr' & Hs').
  rewrite Hr in Hr'. by injection Hr' as <-.
Qed.

(** The list of the artifacts under a prefix, in some order. *)
Lemma run_list_under (fuel site : nat) self prefix w : all_readable (w_kv w) (fs_repo self) → enough (w_kv w) fuel (fs_repo self) →
  ∃ l : list (string * ArtifactRecord), run (list_under fuel site self prefix) w = (Some (Ok l), w) ∧
    ∀ sk r, (sk, r) ∈ l ↔ starts_with sk prefix = true ∧ stored (w_kv w) (fs_repo self) sk r.
Proof.
  intros Hread He.
  assert (∀ x, ∃ l : list (string * ArtifactRecord), run (list_under fuel site self prefix) w = (Some (Ok l), w) ∧
    (x ∈ l ↔ ∃ sk r, starts_with sk prefix = true ∧ stored (w_kv w) (fs_repo self) sk r ∧ x = (sk, r))) as Hx.
  { intros x. apply (run_fold_where (λ l : list (string * ArtifactRecord), x ∈ l) (λ sk r, x = (sk, r))
      (λ acc sk r, acc ++ [(sk, r)])); [|intros; apply elem_of_app|by intros ?%elem_of_nil|done|done].
    intros s sk r. by rewrite elem_of_app, list_elem_of_singleton. }
  destruct (Hx ("", toy_artifact "" 0)) as (l & Hr & _). exists l. split; [exact Hr|]. intros sk r. destruct (Hx (sk, r)) as (l' & Hr' & Hl').
  rewrite Hr in Hr'. injection Hr' as <-. rewrite Hl'. naive_solver.
Qed.
End collect.

(** ** For the witnesses *)

Definition toy_digests : Digests := {| sha256_hex := to_hex; sha1_hex := to_hex; sha512_base64 := to_hex |}.
Definition toy_files : FormatStore := mkFormatStore "r" "s" "s".
Definition toy_files_serde : Serde RepoConfig := table_serde [toy_repo "r" Hosted false].

(** A repository without artifacts on an empty blob store. *)
Definition toy_files_world : world kvmap := mkWorld {[repo_key "r" := ("0", 1%Z)]} ∅ {["s"]} 0%Z 0 [] false.

(** The dedup record of the first blob that is written. *)
Definition toy_first_blob (data : bytes) : BlobRecord :=
  let _ := toy_blake3 in blob_record toy_files "uuid-0" (blake3_hex data) (byte_size data) 0%Z.

(** The artifact of a file that is uploaded first. *)
Definition toy_first_file (path : string) (kind : ArtifactKind) (content_type : string) (data : bytes) : ArtifactRecord :=
  let _ := toy_blake3 in
  ar_prepared (file_record kind false content_type (byte_size data) "uuid-0" (blake3_hex data) 0%Z) "uuid-1" 0%Z path.

Lemma toy_files_sound (ar : Serde ArtifactRecord) (br : Serde BlobRecord) :
  let _ := toy_blake3 in sound "s" "s" {["r"]} toy_files_world.
Proof.
  intros ?. split.
  - intros hash b v r Hk. cbn [w_kv toy_files_world] in Hk. apply lookup_singleton_Some in Hk as [Hkey _]. discriminate Hkey.
  - intros repo path b v r id _ Hk. cbn [w_kv toy_files_world] in Hk. apply lookup_singleton_Some in Hk as [Hkey _]. discriminate Hkey.
Qed.

(** A store without dedup records and artifacts is sound. *)
Lemma sound_without_files `{Blake3} `{Serde ArtifactRecord} `{Serde BlobRecord} (blobs store : string) (repos : gset string) (w : world kvmap) :
  map_Forall (λ (k : string * string * string) (_ : bytes * Z), k.1.1 ≠ TABLE_BLOBS ∧ k.1.1 ≠ TABLE_ARTIFACTS) (w_kv w) →
  sound blobs store repos w.
Proof.
  intros Hall. split.
  - intros hash b v r Hk. by destruct (Hall _ _ Hk) as [? _].
  - intros repo path b v r id _ Hk. by destruct (Hall _ _ Hk) as [_ ?].
Qed.

Lemma toy_files_new : let _ := toy_uuid in new_id toy_files toy_files_world (new_v4 0).
Proof. intros ?. split_and!; [reflexivity|by_decide|reflexivity]. Qed.

(** The hypotheses on the records of a closed store, as computations. *)
Lemma closed_readable `{Serde ArtifactRecord} (m : kvmap) repo :
  map_Forall (λ (_ : string * string * string) (x : bytes * Z),
    match from_slice (A:=ArtifactRecord) x.1 with inr _ => true | inl _ => false end = true) m → all_readable m repo.
Proof.
  intros Hall shard sk v n _ Hm. specialize (Hall _ _ Hm). cbn [fst] in Hall. destruct (from_slice v) as [|r]; [done|]. by exists r.
Qed.

Lemma closed_enough (m : kvmap) fuel repo :
  Forall (λ shard, length (part m TABLE_ARTIFACTS (artifact_shard_pk repo shard)) < fuel) shard_range → enough m fuel repo.
Proof. intros Hall shard Hs. by apply (proj1 (Forall_forall _ _) Hall). Qed.
