(* ===== verification/Golang.v ===== *)
(** * Go modules (format/golang/src/store.rs, api.rs)

    A Go repository speaks the GOPROXY protocol.  Module paths are escaped so
    that they survive case-insensitive file systems; the files of a version are
    artifacts.  The theorems say that escaping is lossless, that an uploaded
    file is served under the URL that the go command asks for, and which
    version is the latest. *)

From S2P Require Import Prelude Bytes Text Errors Keys Records Kv Prog Wp Effects Scan Pagination Update Artifact Blob Repo Directory Ingest BulkDelete TreeRebuild.
From S2P Require Import BloomFilter UpdateWorker Batches Check CheckScan DockerGc Cache Package ApiHelpers.

(** ** Paths *)

(** format/golang/src/store.rs:27-38 *)
Fixpoint encode_module_path (module : string) : string :=
  match module with
  | EmptyString => EmptyString
  | String c module =>
      if is_ascii_uppercase c then String "!" (String (to_ascii_lowercase c) (encode_module_path module))
      else String c (encode_module_path module)
  end.

(** format/golang/src/store.rs:41-54 *)
Fixpoint decode_module_path (encoded : string) : string :=
  match encoded with
  | EmptyString => EmptyString
  | String c encoded =>
      if decide (c = "!"%char) then
        match encoded with
        | EmptyString => EmptyString
        | String next encoded => String (to_ascii_uppercase next) (decode_module_path encoded)
        end
      else String c (decode_module_path encoded)
  end.

(** format/golang/src/store.rs:57-60 *)
Definition module_file_path (module version ext : string) : string :=
  let encoded := encode_module_path module in
  "_modules/" +:+ encoded +:+ "/@v/" +:+ version +:+ "." +:+ ext.

Definition content_type_of_file (file_type : string) : string :=
  if decide (file_type = "info") then "application/json"
  else if decide (file_type = "mod") then "text/plain"
  else if decide (file_type = "zip") then "application/zip"
  else "application/octet-stream".

(** ** Versions *)

(** A component of a version, 0 if it is no number. *)
Definition version_part (parts : list string) (i : nat) : Z := default 0%Z ((parts !! i) ≫= parse_u64).

Definition parse_version (s : string) : Z * Z * Z :=
  let s := default s (strip_prefix s "v") in
  let parts := splitn 3 "." s in
  (version_part parts 0, version_part parts 1, version_part parts 2).

(** The lexicographic order of the triples. *)
(** format/golang/src/store.rs:305-315 *)
Definition compare_semver (a b : string) : comparison :=
  let '(ma, na, pa) := parse_version a in
  let '(mb, nb, pb) := parse_version b in
  match (ma ?= mb)%Z with
  | Eq => match (na ?= nb)%Z with Eq => (pa ?= pb)%Z | c => c end
  | c => c
  end.

Definition semver_le (a b : string) : bool := match compare_semver a b with Gt => false | _ => true end.

(** The version in the last segment of a path. *)
(** format/golang/src/store.rs:261-265 *)
Definition version_of_path (sk : string) : option string := strip_suffix (rsplit_last SLASH sk) ".info".

(** ** Requests *)

(** format/golang/src/api.rs:193-199 *)
Inductive GoAction : Type :=
| GoList
| GoLatest
| GoInfo (version : string)
| GoMod (version : string)
| GoZip (version : string).

(** The part after "/@v/". *)
Definition action_of_rest (rest : string) : option GoAction :=
  if decide (rest = "list") then Some GoList
  else match strip_suffix rest ".info" with
  | Some ver => Some (GoInfo ver)
  | None =>
      match strip_suffix rest ".mod" with
      | Some ver => Some (GoMod ver)
      | None => GoZip <$> strip_suffix rest ".zip"
      end
  end.

Definition parse_version_path (path : string) : option (string * GoAction) :=
  match split_once_str "/@v/" path with
  | Some (module, rest) => if decide (module = "") then None else (λ a, (module, a)) <$> action_of_rest rest
  | None => None
  end.

(** format/golang/src/api.rs:202-230 *)
Definition parse_goproxy_path (path : string) : option (string * GoAction) :=
  match strip_suffix path "/@latest" with
  | Some module => if decide (module ≠ "") then Some (module, GoLatest) else parse_version_path path
  | None => parse_version_path path
  end.

(** ** The store *)

Section golang.
Context `{Unicode} `{Blake3} `{Serde ArtifactRecord} `{Serde TreeEntry} `{Serde BlobRecord} `{Serde RepoConfig} `{Digests} `{Upstream} `{Scheduler}.
Context (fuel : nat).

(** format/golang/src/store.rs:73-150 *)
Definition put_module_file (self : FormatStore) (module version file_type : string) (data : bytes) :
    prog (result ArtifactRecord) :=
  put_file self (module_file_path module version file_type)
    (KGoModule (mkGoModuleMeta module version file_type (sha256_hex data) None)) false (content_type_of_file file_type) data.

(** format/golang/src/store.rs:153-223 *)
Definition commit_module_file (self : FormatStore) (module version file_type : string) (blob : BlobInfo) :
    prog (result ArtifactRecord) :=
  commit_file self (module_file_path module version file_type)
    (KGoModule (mkGoModuleMeta module version file_type (bi_sha256_hash blob) None)) false (content_type_of_file file_type)
    (bi_blob_id blob) (bi_blake3_hash blob) (bi_size blob).

(** format/golang/src/store.rs:226-247 *)
Definition get_module_file (self : FormatStore) (module version file_type : string) :
    prog (result (option (bytes * Z * ArtifactRecord))) :=
  get_file self (module_file_path module version file_type).

(** format/golang/src/store.rs:250-275 *)
Definition list_versions (self : FormatStore) (module : string) : prog (result (list string)) :=
  let encoded := encode_module_path module in
  let prefix := "_modules/" +:+ encoded +:+ "/@v/" in
  let*? versions := fold_all_artifacts (arrange 90 shard_range) fuel (fs_repo self) prefix (∅ : gset string)
    (λ acc sk _, Ok match version_of_path sk with Some ver => {[ver]} ∪ acc | None => acc end) (∪) in
  Ret (Ok (sorted_vec versions)).

(** format/golang/src/store.rs:278-284 *)
Definition get_latest (self : FormatStore) (module : string) : prog (result (option string)) :=
  let*? versions := list_versions self module in
  Ret (Ok (last (sort_by semver_le versions))).

(** format/golang/src/store.rs:287-301 *)
Definition delete_module_version (self : FormatStore) (module version : string) : prog (result bool) :=
  delete_files (fs_repo self) (module_file_path module version <$> ["info"; "mod"; "zip"]) false.

(** format/golang/src/store.rs:364-408 *)
Definition fetch_upstream_file (upstream_url module path_suffix : string) (upstream_auth : option UpstreamAuth) :
    prog (result (option bytes)) :=
  let encoded := encode_module_path module in
  let url := trim_end SLASH upstream_url +:+ "/" +:+ encoded +:+ "/" +:+ path_suffix in
  match http_get url upstream_auth with
  | inl e => Ret (Err (Errors.upstream e))
  | inr resp =>
      if decide (rs_status resp = 404%Z ∨ rs_status resp = 410%Z) then Ret (Ok None)
      else if negb (is_success resp) then Ret (Err (upstream_status_error resp url))
      else Ret (let? data := collect_body (rs_body resp) in Ok (Some data))
  end.

(** ** The handlers *)

(** format/golang/src/api.rs:272-300 *)
Definition serve_module_file (self : FormatStore) (module version file_type : string) : prog HttpReply :=
  let* r := get_module_file self module version file_type in
  match r with
  | Ok (Some (reader, _, _)) => Ret (RBody (content_type_of_file file_type) reader)
  | Ok None => Ret (RError (NotFound "not found"))
  | Err e => Ret (RError e)
  end.

(** [versions.join("\n")]. *)
Definition version_list (versions : list string) : string := join (singleton_str (ascii_of_N 10)) versions.

Definition list_reply (r : result (list string)) : HttpReply :=
  match r with
  | Ok versions => RBody "text/plain" (version_list versions)
  | Err e => RError e
  end.

(** format/golang/src/api.rs:234-270 *)
Definition handle_hosted (repo_name module : string) (action : GoAction) : prog HttpReply :=
  let* r := resolve_repo_blob_store repo_name in
  match r with
  | Err e => Ret (RError e)
  | Ok (blobs, blob_config) =>
      let store := mkFormatStore repo_name blobs (rc_store blob_config) in
      match action with
      | GoList => let* r := list_versions store module in Ret (list_reply r)
      | GoLatest =>
          let* r := get_latest store module in
          match r with
          | Ok (Some version) => serve_module_file store module version "info"
          | Ok None => Ret (RError (NotFound "no versions found"))
          | Err e => Ret (RError e)
          end
      | GoInfo version => serve_module_file store module version "info"
      | GoMod version => serve_module_file store module version "mod"
      | GoZip version => serve_module_file store module version "zip"
      end
  end.

(** The local copy, or a download that is kept if it can be. *)
(** format/golang/src/api.rs:432-494 *)
Definition cache_fetch_and_store (self : FormatStore) (module version file_type upstream_url : string)
    (upstream_auth : option UpstreamAuth) : prog HttpReply :=
  let* r := get_module_file self module version file_type in
  match r with
  | Ok (Some (reader, _, _)) => Ret (RBody (content_type_of_file file_type) reader)
  | _ =>
      let path_suffix := "@v/" +:+ version +:+ "." +:+ file_type in
      let* r := fetch_upstream_file upstream_url module path_suffix upstream_auth in
      match r with
      | Ok (Some data) =>
          let* _ := put_module_file self module version file_type data in
          Ret (RBody (content_type_of_file file_type) data)
      | Ok None => Ret (RError (NotFound "not found upstream"))
      | Err e => Ret (RError e)
      end
  end.

(** format/golang/src/api.rs:304-430 *)
Definition handle_cache (config : RepoConfig) (module : string) (action : GoAction) : prog HttpReply :=
  match rc_kind config with
  | Cache upstream_url _ upstream_auth =>
      let* r := resolve_blob_store (rc_store config) in
      match r with
      | Err e => Ret (RError e)
      | Ok blobs =>
          let store := mkFormatStore (rc_name config) blobs (rc_store config) in
          match action with
          | GoList =>
              let* r := fetch_upstream_file upstream_url module "@v/list" upstream_auth in
              match r with
              | Ok (Some data) => Ret (RBody "text/plain" (from_utf8_lossy data))
              | _ => let* r := list_versions store module in Ret (list_reply r)
              end
          | GoLatest =>
              let* r := fetch_upstream_file upstream_url module "@latest" upstream_auth in
              match r with
              | Ok (Some data) => Ret (RBody "application/json" data)
              | _ =>
                  let* r := get_latest store module in
                  match r with
                  | Ok (Some version) => serve_module_file store module version "info"
                  | _ => Ret (RError (NotFound "not found"))
                  end
              end
          | GoInfo version => cache_fetch_and_store store module version "info" upstream_url upstream_auth
          | GoMod version => cache_fetch_and_store store module version "mod" upstream_url upstream_auth
          | GoZip version => cache_fetch_and_store store module version "zip" upstream_url upstream_auth
          end
      end
  | _ => Ret (RError (Internal "expected cache repo kind"))
  end.

(** The first member that answers; nested proxies are passed over. *)
Fixpoint try_go_members (module : string) (action : GoAction) (members : list string) : prog HttpReply :=
  match members with
  | [] => Ret (RError (NotFound "not found in any member"))
  | member_name :: members =>
      let* r := get_repo member_name in
      match r with
      | Ok (Some c) =>
          if decide (repo_format c = FGolang) then
            match kind_repo_type (rc_kind c) with
            | RTProxy => try_go_members module action members
            | t =>
                let* resp := match t with
                  | RTHosted => handle_hosted member_name module action
                  | _ => handle_cache c module action
                  end in
                if reply_ok resp then Ret resp else try_go_members module action members
            end
          else try_go_members module action members
      | _ => try_go_members module action members
      end
  end.

(** format/golang/src/api.rs:498-530 *)
Definition handle_proxy (config : RepoConfig) (module : string) (action : GoAction) : prog HttpReply :=
  match rc_kind config with
  | Proxy members _ => try_go_members module action members
  | _ => Ret (RError (Internal "expected proxy repo kind"))
  end.

(** [None] when the path is no request of the protocol. *)
(** format/golang/src/api.rs:30-46 *)
Definition try_handle_repository_path (config : RepoConfig) (path : string) : prog (option HttpReply) :=
  match parse_goproxy_path path with
  | None => Ret None
  | Some (module_encoded, action) =>
      let module := decode_module_path module_encoded in
      let* reply := match kind_repo_type (rc_kind config) with
        | RTHosted => handle_hosted (rc_name config) module action
        | RTCache => handle_cache config module action
        | RTProxy => handle_proxy config module action
        end in
      Ret (Some reply)
  end.
End golang.

(** ** Escaping *)

Lemma upper_not_bang c : is_ascii_uppercase c = true → c ≠ "!"%char.
Proof. by intros Hc ->. Qed.

Lemma decode_encode module : has_char "!" module = false → decode_module_path (encode_module_path module) = module.
Proof.
  induction module as [|c module IH]; [done|]. cbn [has_char encode_module_path]. intros [Hc Hm]%orb_false_iff.
  apply bool_decide_eq_false in Hc. destruct (is_ascii_uppercase c) eqn:Hu; cbn [decode_module_path].
  - by rewrite decide_True, to_ascii_case, IH.
  - by rewrite decide_False, IH.
Qed.

(** An escaped path: no upper case, and every mark is before a lower-case letter. *)
Fixpoint well_escaped (s : string) : bool :=
  match s with
  | EmptyString => true
  | String c s =>
      if decide (c = "!"%char) then match s with String n s => is_ascii_lowercase n && well_escaped s | EmptyString => false end
      else negb (is_ascii_uppercase c) && well_escaped s
  end.

Lemma encode_decode n s : String.length s ≤ n → well_escaped s = true → encode_module_path (decode_module_path s) = s.
Proof.
  revert s. induction n as [|n IH]; intros s Hlen; [by destruct s; [|cbn in Hlen; lia]|].
  destruct s as [|c s]; [done|]. cbn [well_escaped decode_module_path String.length] in *. case_decide as Hc.
  - subst c. destruct s as [|d s]; [done|]. cbn [String.length] in Hlen. intros [Hd Hs]%andb_true_iff. cbn [encode_module_path].
    rewrite to_ascii_uppercase_up, to_ascii_case' by done. rewrite IH; [done|lia|done].
  - intros [Hc' Hs]%andb_true_iff. cbn [encode_module_path]. rewrite negb_true_iff in Hc'. rewrite Hc', IH; [done|lia|done].
Qed.

Lemma encode_well_escaped module : has_char "!" module = false → well_escaped (encode_module_path module) = true.
Proof.
  induction module as [|c module IH]; [done|]. cbn [has_char encode_module_path]. intros [Hc Hm]%orb_false_iff.
  apply bool_decide_eq_false in Hc. destruct (is_ascii_uppercase c) eqn:Hu; cbn [well_escaped].
  - rewrite decide_True by done. by rewrite to_ascii_lowercase_low, IH.
  - rewrite decide_False by done. by rewrite Hu, IH.
Qed.

(** C25: The escaping of module paths is a bijection between the paths without an
    exclamation mark and the escaped paths: decoding undoes encoding, encoding
    undoes decoding, and the escaped form has no upper-case letter. *)
Theorem module_path_escaping :
  (∀ module, has_char "!" module = false →
     decode_module_path (encode_module_path module) = module ∧ well_escaped (encode_module_path module) = true) ∧
  (∀ s, well_escaped s = true → encode_module_path (decode_module_path s) = s).
Proof.
  split.
  - intros module Hm. split; [by apply decode_encode|by apply encode_well_escaped].
  - intros s Hs. by apply (encode_decode (String.length s)).
Qed.

(** ** Requests *)

Lemma encode_no_at module : has_char "@" module = false → has_char "@" (encode_module_path module) = false.
Proof.
  induction module as [|c module IH]; [done|]. cbn [has_char encode_module_path]. intros [Hc Hm]%orb_false_iff.
  apply bool_decide_eq_false in Hc. destruct (is_ascii_uppercase c) eqn:Hu; cbn [has_char]; rewrite IH, orb_false_r by done.
  - apply bool_decide_eq_false. intros Heq. pose proof (to_ascii_lowercase_low c Hu) as Hl. by rewrite Heq in Hl.
  - by apply bool_decide_eq_false.
Qed.

Lemma split_at_version e rest : has_char "@" e = false → split_once_str "/@v/" (e +:+ "/@v/" +:+ rest) = Some (e, rest).
Proof.
  induction e as [|c e IH]; intros He.
  { assert (strip_prefix ("/@v/" +:+ rest) "/@v/" = Some rest) as Hs by by apply strip_prefix_spec.
    cbn [String.append] in Hs |- *. cbn [split_once_str]. by rewrite Hs. }
  cbn [has_char] in He. apply orb_false_iff in He as [Hc He].
  change (String c e +:+ ?t) with (String c (e +:+ t)). cbn [split_once_str]. rewrite (IH He).
  assert (strip_prefix (String c (e +:+ "/@v/" +:+ rest)) "/@v/" = None) as ->; [|done].
  destruct (strip_prefix _ _) as [t|] eqn:Hs; [|done]. apply strip_prefix_spec in Hs.
  destruct e as [|d e]; cbn in Hs; injection Hs as _ Hd; [done|]. subst d. by cbn in He.
Qed.

Lemma strip_other_suffix s p q : ends_with p q = false → ends_with q p = false → ends_with s p = true → strip_suffix s q = None.
Proof.
  intros Hpq Hqp Hp. apply strip_suffix_None. destruct (ends_with s q) eqn:Hq; [|done].
  destruct (decide (String.length p ≤ String.length q)) as [Hle|Hle].
  - by rewrite (ends_with_both s p q Hp Hq Hle) in Hqp.
  - rewrite (ends_with_both s q p Hq Hp ltac:(lia)) in Hpq. done.
Qed.

(** The request for a file of a version. *)
Definition file_action (version file_type : string) : option GoAction :=
  if decide (file_type = "info") then Some (GoInfo version)
  else if decide (file_type = "mod") then Some (GoMod version)
  else if decide (file_type = "zip") then Some (GoZip version)
  else None.

Definition file_request (module version file_type : string) : string :=
  encode_module_path module +:+ "/@v/" +:+ version +:+ "." +:+ file_type.

(** A path of the go command: not empty, and without the marks of the protocol. *)
Definition go_module (module : string) : Prop := module ≠ "" ∧ has_char "!" module = false ∧ has_char "@" module = false.

Lemma encode_not_empty module : module ≠ "" → encode_module_path module ≠ "".
Proof. destruct module as [|c module]; [done|]. intros _. cbn. by destruct (is_ascii_uppercase c). Qed.

Lemma parse_file_request module version file_type action : go_module module → file_action version file_type = Some action →
  parse_goproxy_path (file_request module version file_type) = Some (encode_module_path module, action).
Proof.
  intros (Hne & _ & Hat) Ha. unfold parse_goproxy_path, file_request.
  assert (∃ suffix, file_type ∈ ["info"; "mod"; "zip"] ∧ suffix = "." +:+ file_type ∧
    action_of_rest (version +:+ suffix) = Some action ∧ ends_with suffix "/@latest" = false ∧ ends_with "/@latest" suffix = false)
    as (suffix & Hft & Heq & Hrest & He1 & He2).
  { exists ("." +:+ file_type). unfold file_action in Ha. unfold action_of_rest.
    assert (∀ t, ends_with (version +:+ t) t = true) as Hv by (intros t; apply ends_with_app).
    case_decide; [subst; injection Ha as <-|case_decide; [subst; injection Ha as <-|case_decide; [subst; injection Ha as <-|done] ] ].
    - split_and!; [set_solver|done| |done..]. rewrite decide_False by (intros Hl; pose proof (Hv ".info") as Hx; change ("." +:+ "info") with ".info" in Hl; by rewrite Hl in Hx).
      change ("." +:+ "info") with ".info". by rewrite strip_suffix_app.
    - split_and!; [set_solver|done| |done..]. rewrite decide_False by (intros Hl; pose proof (Hv ".mod") as Hx; change ("." +:+ "mod") with ".mod" in Hl; by rewrite Hl in Hx).
      change ("." +:+ "mod") with ".mod". rewrite (strip_other_suffix _ ".mod" ".info") by (done || apply Hv). by rewrite strip_suffix_app.
    - split_and!; [set_solver|done| |done..]. rewrite decide_False by (intros Hl; pose proof (Hv ".zip") as Hx; change ("." +:+ "zip") with ".zip" in Hl; by rewrite Hl in Hx).
      change ("." +:+ "zip") with ".zip". rewrite (strip_other_suffix _ ".zip" ".info"), (strip_other_suffix _ ".zip" ".mod") by (done || apply Hv).
      by rewrite strip_suffix_app. }
  rewrite <-Heq.
  assert (strip_suffix (encode_module_path module +:+ "/@v/" +:+ version +:+ suffix) "/@latest" = None) as ->.
  { apply (strip_other_suffix _ suffix); [done..|]. apply ends_with_spec.
    exists (encode_module_path module +:+ "/@v/" +:+ version). by rewrite !str_app_assoc. }
  unfold parse_version_path. rewrite split_at_version by by apply encode_no_at.
  rewrite decide_False by by apply encode_not_empty. by rewrite Hrest.
Qed.

(** ** Uploads and downloads *)

Section served.
Context `{Unicode} `{Blake3} `{Serde ArtifactRecord} `{Serde TreeEntry} `{Serde BlobRecord} `{Serde RepoConfig} `{Digests} `{Upstream}
  `{Scheduler} `{UuidGen} {ar_exact : SerdeExact ArtifactRecord} {br_exact : SerdeExact BlobRecord} (fuel : nat).
Implicit Types (w : world kvmap) (m : kvmap).

(** C24: A module file that has been uploaded is what the go command gets.  In a
    hosted repository that is sound, an upload of a file of a version ends and
    keeps the repository sound; if it succeeds, the request for that file, at
    the URL with the escaped module path, is answered with the content type of
    the file and contents with the hash of the upload; if it fails, the record
    under the path is as before. *)
Theorem go_upload_served (config : RepoConfig) (repos : gset string) (module version file_type : string) (action : GoAction)
    (data : bytes) (w : world kvmap) :
  let self := store_of config in
  sound (fs_blobs self) (fs_store self) repos w → new_id self w (new_v4 (w_uuids w)) → hosted_on w config →
  go_module module → file_action version file_type = Some action →
  ∃ res w', run (put_module_file self module version file_type data) w = (Some res, w') ∧
    sound (fs_blobs self) (fs_store self) repos w' ∧
    match res with
    | Ok _ => ∃ d : bytes,
        run (try_handle_repository_path fuel config (file_request module version file_type)) w' =
          (Some (Some (RBody (content_type_of_file file_type) d)), w') ∧ blake3_hex d = blake3_hex data
    | Err _ =>
        let k := artifact_key (rc_name config) (module_file_path module version file_type) in w_kv w' !! k = w_kv w !! k
    end.
Proof using ar_exact br_exact.
  intros self Hs Hid Hh Hm Ha. unfold put_module_file.
  eapply wp_run, wp_mono; [by apply (wp_put_file self repos)|]. intros res w' (Hs' & Ho & Hr). split; [done|].
  destruct res as [r|e]; [|done]. destruct Hr as (bid & now & _ & Hf).
  destruct (file_at_served _ _ _ _ _ Hf) as (d & id & acc & Hget & Hd). exists d. split; [|done].
  destruct (hosted_on_kept _ _ _ _ _ _ Ho Hh) as (Hrepo & Hk & Hst).
  unfold try_handle_repository_path. rewrite (parse_file_request _ _ _ _ Hm Ha), decode_encode by apply Hm. rewrite Hk. cbn [kind_repo_type].
  assert (∀ t, t = file_type → run (serve_module_file self module version t) w' =
    (Some (RBody (content_type_of_file file_type) d), w')) as Hserve.
  { intros t ->. unfold serve_module_file, get_module_file. by rewrite run_bind, Hget. }
  rewrite run_bind. unfold handle_hosted, resolve_repo_blob_store. rewrite run_bind, run_bind_ok, run_get_repo, Hrepo.
  rewrite run_bind_ok, run_resolve_blob_store, decide_True by done. cbn [run].
  unfold file_action in Ha. case_decide; [subst|case_decide; [subst|case_decide; [subst|done] ] ]; injection Ha as <-;
    by rewrite Hserve.
Qed.

(** ** Versions *)

(** The versions of a module: those whose [.info] file is stored. *)
Definition has_version m (repo module version : string) : Prop :=
  ∃ sk r, starts_with sk ("_modules/" +:+ encode_module_path module +:+ "/@v/") = true ∧ stored m repo sk r ∧
    version_of_path sk = Some version.

Lemma run_list_versions self module w : all_readable (w_kv w) (fs_repo self) → enough (w_kv w) fuel (fs_repo self) →
  ∃ l, run (list_versions fuel self module) w = (Some (Ok l), w) ∧ StronglySorted str_lt l ∧
    ∀ v, v ∈ l ↔ has_version (w_kv w) (fs_repo self) module v.
Proof.
  intros Hread He. unfold list_versions. rewrite run_bind_ok.
  destruct (run_collect_set (λ sk _, version_of_path sk) 90 fuel (fs_repo self) ("_modules/" +:+ encode_module_path module +:+ "/@v/") w Hread He)
    as (s & Hrun & Hs). rewrite Hrun. exists (sorted_vec s). split; [done|]. split; [apply sorted_vec_sorted|].
  intros v. rewrite elem_of_sorted_vec, Hs. done.
Qed.

Lemma semver_total a b : semver_le a b = true ∨ semver_le b a = true.
Proof.
  unfold semver_le, compare_semver. destruct (parse_version a) as [ [ma na] pa], (parse_version b) as [ [mb nb] pb].
  destruct (Z.compare_spec ma mb), (Z.compare_spec mb ma), (Z.compare_spec na nb), (Z.compare_spec nb na),
    (Z.compare_spec pa pb), (Z.compare_spec pb pa); auto; lia.
Qed.

Lemma semver_trans a b c : semver_le a b = true → semver_le b c = true → semver_le a c = true.
Proof.
  unfold semver_le, compare_semver. destruct (parse_version a) as [ [ma na] pa], (parse_version b) as [ [mb nb] pb],
    (parse_version c) as [ [mc nc] pc].
  destruct (Z.compare_spec ma mb), (Z.compare_spec mb mc), (Z.compare_spec ma mc); try lia; try done;
  destruct (Z.compare_spec na nb), (Z.compare_spec nb nc), (Z.compare_spec na nc); try lia; try done;
  destruct (Z.compare_spec pa pb), (Z.compare_spec pb pc), (Z.compare_spec pa pc); try lia; done.
Qed.

(** The list and the latest of the versions of a module.  When the records
    of the repository can be read, the list has exactly the versions with an
    info file, sorted and without repetition, and the latest is one of them
    that no other exceeds in the numbers of its three parts; there is none
    only if the list is empty. *)
Theorem go_versions_exact (self : FormatStore) (module : string) (w : world kvmap) :
  all_readable (w_kv w) (fs_repo self) → enough (w_kv w) fuel (fs_repo self) →
  ∃ l latest, run (list_versions fuel self module) w = (Some (Ok l), w) ∧ run (get_latest fuel self module) w = (Some (Ok latest), w) ∧
    StronglySorted str_lt l ∧ (∀ v, v ∈ l ↔ has_version (w_kv w) (fs_repo self) module v) ∧
    match latest with
    | Some v => v ∈ l ∧ ∀ u, u ∈ l → compare_semver u v ≠ Gt
    | None => l = []
    end.
Proof.
  intros Hread He. destruct (run_list_versions self module w Hread He) as (l & Hl & Hsorted & Hin).
  exists l, (last (sort_by semver_le l)). split_and!; [done| |done|done|].
  - unfold get_latest. by rewrite run_bind_ok, Hl.
  - destruct (last (sort_by semver_le l)) as [v|] eqn:Hlast.
    + apply sort_by_last in Hlast as [Hv Hmax]; [|apply semver_total|apply semver_trans]. split; [done|].
      intros u Hu Hgt. specialize (Hmax u Hu). unfold semver_le in Hmax. by rewrite Hgt in Hmax.
    + apply last_None in Hlast. apply Permutation_nil. by rewrite <-Hlast, sort_by_perm.
Qed.
End served.

(** A pre-release counts as the release with patch 0, and comes after it in the
    list: it is the latest. *)
Example prerelease_is_latest : last (sort_by semver_le ["v1.0.0"; "v1.0.0-rc1"]) = Some "v1.0.0-rc1".
Proof. vm_compute. reflexivity. Qed.

Example prerelease_of_patch_is_old : last (sort_by semver_le ["v1.0.1"; "v1.0.2-beta"]) = Some "v1.0.1".
Proof. vm_compute. reflexivity. Qed.

(** ** Witnesses *)

Definition toy_go_kind : ArtifactKind := KGoModule (mkGoModuleMeta "example.com/M" "v1.0.0" "info" (to_hex "abc") None).
Definition toy_go_file : ArtifactRecord :=
  toy_first_file (module_file_path "example.com/M" "v1.0.0" "info") toy_go_kind "application/json" "abc".

Lemma go_upload_served_witness :
  let _ := toy_blake3 in let _ := table_serde [toy_go_file] in let _ := toy_te_serde in let _ := table_serde [toy_first_blob "abc"] in
  let _ := toy_files_serde in let _ := toy_digests in let _ := toy_upstream in let _ := toy_uuid in let _ := toy_unicode in
  let _ := Prog.in_order in
  ∃ r w', run (put_module_file toy_files "example.com/M" "v1.0.0" "info" "abc") toy_files_world = (Some (Ok r), w') ∧
    ∃ d : bytes, run (try_handle_repository_path 5 (toy_repo "r" Hosted false) "example.com/!m/@v/v1.0.0.info") w' =
      (Some (Some (RBody "application/json" d)), w') ∧ blake3_hex d = blake3_hex "abc".
Proof.
  intros ? ? ? ? ? ? ? ? ? ?.
  destruct (@go_upload_served toy_unicode toy_blake3 (table_serde [toy_go_file]) toy_te_serde (table_serde [toy_first_blob "abc"]) toy_files_serde
    toy_digests toy_upstream Prog.in_order toy_uuid (table_serde_exact _) (table_serde_exact _) 5 (toy_repo "r" Hosted false) {["r"]}
    "example.com/M" "v1.0.0" "info" (GoInfo "v1.0.0") "abc" toy_files_world) as (res & w' & Hrun & _ & Hres);
    [apply toy_files_sound|apply toy_files_new|split_and!; [reflexivity|reflexivity|by_decide]|by_decide|reflexivity|].
  pose proof (f_equal (λ x, is_ok <$> x.1) Hrun) as Hok. vm_compute in Hok. destruct res as [r|e]; [|discriminate Hok].
  exists r, w'. split; [exact Hrun|exact Hres].
Defined.

Definition toy_go_files : list ArtifactRecord :=
  [toy_go_file; toy_first_file (module_file_path "example.com/M" "v1.10.0" "info") toy_go_kind "application/json" "abc";
   toy_first_file (module_file_path "example.com/M" "v1.9.0" "info") toy_go_kind "application/json" "abc"].

Definition toy_go_world : world kvmap :=
  let _ := toy_blake3 in
  mkWorld (list_to_map [(artifact_key "r" (module_file_path "example.com/M" "v1.0.0" "info"), ("0", 1%Z));
    (artifact_key "r" (module_file_path "example.com/M" "v1.10.0" "info"), ("1", 1%Z));
    (artifact_key "r" (module_file_path "example.com/M" "v1.9.0" "info"), ("2", 1%Z))]) ∅ ∅ 0%Z 0 [] false.

Lemma go_versions_exact_witness :
  let _ := toy_blake3 in let _ := table_serde toy_go_files in let _ := Prog.in_order in let _ := toy_uuid in
  run (list_versions 5 toy_files "example.com/M") toy_go_world = (Some (Ok ["v1.0.0"; "v1.10.0"; "v1.9.0"]), toy_go_world) ∧
  run (get_latest 5 toy_files "example.com/M") toy_go_world = (Some (Ok (Some "v1.10.0")), toy_go_world).
Proof.
  intros ? ? ? ?.
  destruct (@go_versions_exact (table_serde toy_go_files) Prog.in_order toy_uuid 5 toy_files "example.com/M" toy_go_world)
    as (l & latest & Hl & Hlatest & _); [apply closed_readable; by_decide|apply closed_enough; by_decide|].
  pose proof (f_equal fst Hl) as Hl'. vm_compute in Hl'. injection Hl' as <-.
  pose proof (f_equal fst Hlatest) as Hlatest'. vm_compute in Hlatest'. injection Hlatest' as <-.
  split; [exact Hl|exact Hlatest].
Defined.
