(* ===== verification/Docker.v ===== *)
(** * Docker repositories (format/docker/src/store.rs)

    Layers, manifests and tags as artifacts: [_blobs/<digest>] refers to a
    layer, [_manifests/<digest>] to a manifest and [_tags/<tag>] names one,
    under the name of an image where a repository holds several.  The theorems
    say that what has been pushed is pulled, and what a mount from a repository
    on another blob store does. *)

From S2P Require Import Prelude Bytes Text Errors Keys Records Kv Prog Wp Effects Scan Pagination Update Artifact Blob Repo Directory Ingest BulkDelete TreeRebuild.
From S2P Require Import BloomFilter UpdateWorker Batches Check CheckScan DockerGc Cache Package.

(** ** Paths *)

(** format/docker/src/store.rs:68-73 *)
Definition manifest_path_for (image : option string) (digest : string) : string :=
  match image with
  | Some img => img +:+ "/_manifests/" +:+ digest
  | None => "_manifests/" +:+ digest
  end.

(** format/docker/src/store.rs:75-80 *)
Definition tag_path_for (image : option string) (tag : string) : string :=
  match image with
  | Some img => img +:+ "/_tags/" +:+ tag
  | None => "_tags/" +:+ tag
  end.

(** format/docker/src/store.rs:82-87 *)
Definition tag_prefix_for (image : option string) : string :=
  match image with
  | Some img => img +:+ "/_tags/"
  | None => "_tags/"
  end.

(** format/docker/src/store.rs:89-91 *)
Definition blob_ref_path_for (digest : string) : string := "_blobs/" +:+ digest.

(** format/docker/src/store.rs:110-113 *)
Definition sha256_digest `{Digests} (data : bytes) : string := "sha256:" +:+ sha256_hex data.

(** format/docker/src/store.rs:120-131 *)
Record DockerStore : Type := mkDockerStore {
  ds_repo : string;
  ds_image : option string;
  ds_blobs : string;
  ds_store : string;
  ds_track_access : bool;
}.

(** format/docker/src/store.rs:137-140 *)
Definition without_atime (self : DockerStore) : DockerStore :=
  mkDockerStore (ds_repo self) (ds_image self) (ds_blobs self) (ds_store self) false.

Definition ds_files (self : DockerStore) : FormatStore := mkFormatStore (ds_repo self) (ds_blobs self) (ds_store self).

(** The image of a tag or a manifest: what is before the first mark. *)
(** format/docker/src/store.rs:633-648 *)
Definition image_from_artifact_key (sk : string) : option string :=
  let image := match split_once_str "/_tags/" sk, split_once_str "/_manifests/" sk with
    | Some (a, _), Some (b, _) => Some (if decide (String.length a ≤ String.length b) then a else b)
    | Some (a, _), None => Some a
    | None, Some (b, _) => Some b
    | None, None => None
    end in
  match image with
  | Some image => if decide (image = "") then None else Some image
  | None => None
  end.

Definition is_digest (reference : string) : bool := starts_with reference "sha256:".

Section docker.
Context `{Blake3} `{Serde ArtifactRecord} `{Serde TreeEntry} `{Serde BlobRecord} `{Digests} `{Scheduler}.
Context (fuel : nat) (full : bool).

(** A read refreshes the access time, unless it is not to be tracked. *)
Definition track (self : DockerStore) (path : string) : prog unit :=
  if ds_track_access self then let* now := call ENow in touch full (ds_repo self) path now else Ret tt.

(** *** Layers *)

(** format/docker/src/store.rs:165-175 *)
Definition blob_exists (self : DockerStore) (digest : string) : prog (result (option (Z * string * string))) :=
  let*? o := get_artifact (ds_repo self) (blob_ref_path_for digest) in
  Ret (Ok ((λ record, (ar_size record, default "" (ar_blob_id record), default "" (ar_content_hash record))) <$> o)).

(** format/docker/src/store.rs:178-194 *)
Definition get_blob (self : DockerStore) (digest : string) : prog (result (option (bytes * Z))) :=
  let*? record := get_artifact (ds_repo self) (blob_ref_path_for digest) in
  match record with
  | None => Ret (Ok None)
  | Some record =>
      let* _ := track self (blob_ref_path_for digest) in
      let blob_id := default "" (ar_blob_id record) in
      let*? o := blob (ds_blobs self) (BGet blob_id) in
      match o with
      | Some data => Ret (Ok (Some (data, ar_size record)))
      | None => Ret (Err (DataIntegrity ("blob missing for blob_id " +:+ blob_id)))
      end
  end.

(** format/docker/src/store.rs:197-211 *)
Definition open_blob (self : DockerStore) (digest : string) : prog (result (option (bytes * Z))) :=
  let*? record := get_artifact (ds_repo self) (blob_ref_path_for digest) in
  match record with
  | None => Ret (Ok None)
  | Some record =>
      let* _ := track self (blob_ref_path_for digest) in
      open_read (ds_files self) (default "" (ar_blob_id record))
  end.

(** The record of a layer and the change of the directory. *)
Definition put_blob_ref (self : DockerStore) (docker_digest blob_id hash : string) (size : Z) (now : DateTime) : prog (result unit) :=
  let record := file_record (KDockerBlob docker_digest) false "application/octet-stream" size blob_id hash now in
  let*? _ := put_counted (ds_repo self) (blob_ref_path_for docker_digest) record in
  Ret (Ok tt).

(** The end of both uploads of a layer: the hash is recorded, then the record
    is put, and last the duplicate is dropped, if there is one. *)
Definition record_blob (self : DockerStore) (blob_id docker_digest blake3_hash : string) (size : Z) (now : DateTime) :
    prog (result unit) :=
  let blob_rec := blob_record (ds_files self) blob_id blake3_hash size now in
  let*? existing := put_dedup_record_counted (ds_store self) blob_rec in
  let effective_blob_id := default blob_id existing in
  let*? _ := put_blob_ref self docker_digest effective_blob_id blake3_hash size now in
  match existing with
  | Some _ => let* _ := blob (ds_blobs self) (BDelete blob_id) in Ret (Ok tt)
  | None => Ret (Ok tt)
  end.

(** format/docker/src/store.rs:216-275 *)
Definition put_blob (self : DockerStore) (data : bytes) : prog (result string) :=
  let docker_digest := sha256_digest data in
  let blake3_hash := blake3_hex data in
  let* blob_id := call EUuid in
  let* now := call ENow in
  let*? _ := blob (ds_blobs self) (BPut blob_id data) in
  let*? _ := record_blob self blob_id docker_digest blake3_hash (byte_size data) now in
  Ret (Ok docker_digest).

(** format/docker/src/store.rs:279-330 *)
Definition mount_blob (self : DockerStore) (docker_digest blob_id content_hash : string) (size : Z) : prog (result string) :=
  let* now := call ENow in
  let blob_rec := blob_record (ds_files self) blob_id content_hash size now in
  let*? _ := put_dedup_record_counted (ds_store self) blob_rec in
  let*? _ := put_blob_ref self docker_digest blob_id content_hash size now in
  Ret (Ok docker_digest).

(** format/docker/src/store.rs:333-388 *)
Definition put_cached_blob (self : DockerStore) (blob_id docker_digest blake3_hash : string) (size : Z) : prog (result unit) :=
  let* now := call ENow in
  record_blob self blob_id docker_digest blake3_hash size now.

(** *** Manifests *)

(** format/docker/src/store.rs:393-424 *)
Definition get_manifest_by_digest (self : DockerStore) (digest : string) : prog (result (option (bytes * string))) :=
  let*? record := get_artifact (ds_repo self) (manifest_path_for (ds_image self) digest) in
  match record with
  | None => Ret (Ok None)
  | Some record =>
      let* _ := track self (manifest_path_for (ds_image self) digest) in
      let blob_id := default "" (ar_blob_id record) in
      if decide (blob_id = "") then Ret (Ok None)
      else
        let*? o := blob (ds_blobs self) (BGet blob_id) in
        Ret (Ok ((λ data, (data, ar_content_type record)) <$> o))
  end.

(** The access time of the tag is refreshed only if its manifest is there. *)
(** format/docker/src/store.rs:432-467 *)
Definition get_manifest_by_tag (self : DockerStore) (tag : string) : prog (result (option (bytes * string * string))) :=
  let path := tag_path_for (ds_image self) tag in
  let*? o := get_artifact (ds_repo self) path in
  match o with
  | None => Ret (Ok None)
  | Some tag_record =>
      match ar_kind tag_record with
      | KDockerTag digest _ =>
          let*? o := get_manifest_by_digest self digest in
          match o with
          | Some (data, ct) =>
              let* _ := track self path in
              Ret (Ok (Some (data, ct, digest)))
          | None => Ret (Ok None)
          end
      | _ => Ret (Err (DataIntegrity ("tag " +:+ tag +:+ " is not a DockerTag")))
      end
  end.

(** format/docker/src/store.rs:471-482 *)
Definition get_manifest (self : DockerStore) (reference : string) : prog (result (option (bytes * string * string))) :=
  if is_digest reference then
    let*? o := get_manifest_by_digest self reference in
    Ret (Ok ((λ x, (x.1, x.2, reference)) <$> o))
  else get_manifest_by_tag self reference.

Definition tag_record (digest tag content_type : string) (now : DateTime) : ArtifactRecord :=
  mkArtifactRecord CURRENT_RECORD_VERSION "" 0 content_type now now now "" (KDockerTag digest tag) false None None None.

(** The tag is written before the manifest, so that the collector sees no
    untagged manifest in between. *)
(** format/docker/src/store.rs:486-587 *)
Definition put_manifest (self : DockerStore) (reference content_type : string) (data : bytes) : prog (result string) :=
  let digest := sha256_digest data in
  let* now := call ENow in
  let manifest_path := manifest_path_for (ds_image self) digest in
  let* blob_id := call EUuid in
  let blake3_hash := blake3_hex data in
  let*? _ := blob (ds_blobs self) (BPut blob_id data) in
  let*? blob_id := claim_file (ds_files self) blob_id blake3_hash (byte_size data) now in
  let manifest_record := file_record (KDockerManifest digest) false content_type (byte_size data) blob_id blake3_hash now in
  let*? _ :=
    if negb (is_digest reference) then
      let*? _ := put_counted (ds_repo self) (tag_path_for (ds_image self) reference) (tag_record digest reference content_type now) in
      Ret (Ok tt)
    else Ret (Ok tt) in
  let*? _ := put_counted (ds_repo self) manifest_path manifest_record in
  Ret (Ok digest).

(** format/docker/src/store.rs:591-596 *)
Definition delete_manifest (self : DockerStore) (digest : string) : prog (result bool) :=
  let*? o := delete_artifact (ds_repo self) (manifest_path_for (ds_image self) digest) in
  Ret (Ok (bool_decide (is_Some o))).

(** *** Listings *)

(** format/docker/src/store.rs:601-621 *)
Definition list_tags (self : DockerStore) : prog (result (list string)) :=
  let prefix := tag_prefix_for (ds_image self) in
  fold_all_artifacts (arrange 91 shard_range) fuel (ds_repo self) prefix []
    (λ acc sk _, Ok match strip_prefix sk prefix with Some tag => acc ++ [tag] | None => acc end) app.

(** format/docker/src/store.rs:659-682 *)
Definition list_image_names (repo : string) : prog (result (list string)) :=
  let*? names := fold_all_artifacts (arrange 92 shard_range) fuel repo "" (∅ : gset string)
    (λ acc sk _, Ok match image_from_artifact_key sk with Some image => {[image]} ∪ acc | None => acc end) (∪) in
  Ret (Ok (sorted_vec names)).
End docker.

(** ** What has been pushed is pulled *)

Section pushed.
Context `{Blake3} `{Serde ArtifactRecord} `{Serde TreeEntry} `{Serde BlobRecord} `{Digests} `{UuidGen}
  {ar_exact : SerdeExact ArtifactRecord} {br_exact : SerdeExact BlobRecord}.
Context (full : bool).
Implicit Types (w : world kvmap) (m : kvmap) (self : DockerStore).

Lemma image_path_segments (image : option string) dir x : has_char SLASH dir = false → dir ≠ "" →
  segments match image with Some img => img +:+ "/" +:+ dir +:+ "/" +:+ x | None => dir +:+ "/" +:+ x end =
    match image with Some img => segments img | None => [] end ++ dir :: segments x.
Proof.
  intros Hd Hne.
  assert (segments (dir +:+ "/" +:+ x) = dir :: segments x) as Hdir.
  { unfold segments. change ("/" +:+ x) with (String SLASH x). rewrite split_slash_app by done. by rewrite filter_cons_True. }
  destruct image as [img|]; [|done]. change ("/" +:+ ?y) with (String SLASH y). by rewrite segments_app, Hdir.
Qed.

Lemma tag_not_manifest repo image tag digest :
  artifact_key repo (tag_path_for image tag) ≠ artifact_key repo (manifest_path_for image digest).
Proof.
  intros [= _ Heq]. apply normalize_path_eq in Heq. revert Heq.
  pose proof (image_path_segments image "_tags" tag eq_refl) as Ht.
  pose proof (image_path_segments image "_manifests" digest eq_refl) as Hm.
  unfold tag_path_for, manifest_path_for in *. destruct image as [img|];
    cbn [String.append] in *; rewrite Ht, Hm by done; intros Heq.
  - by apply app_inv_head in Heq.
  - done.
Qed.

(** The state of the store that the pulls depend on. *)
Definition same_store w w' : Prop := w_kv w' = w_kv w ∧ w_blobs w' = w_blobs w.

Lemma wp_track self path w : wp (track full self path) w (λ _ w', same_store w w').
Proof. unfold track, touch. destruct (ds_track_access self), full; by split. Qed.

(** A manifest in place is pulled by its digest. *)
Lemma manifest_pulled self digest r data w : file_at (ds_files self) (manifest_path_for (ds_image self) digest) r data w →
  wp (get_manifest_by_digest full self digest) w (λ (res : result (option (bytes * string))) w', same_store w w' ∧
    ∃ d : bytes, res = Ok (Some (d, ar_content_type r)) ∧ blake3_hex d = blake3_hex data).
Proof.
  intros [(b & v & id & acc & Hm & Hv) (bid & d & Hb & Hne & Hd & Hh)]. unfold get_manifest_by_digest.
  apply wp_bind_ok. unfold wp at 1. rewrite run_get_artifact. unfold old_of. cbn [ds_files fs_repo] in Hm. rewrite Hm, Hv.
  apply wp_bind. eapply wp_mono; [apply wp_track|]. intros _ w' [Hk Hbl]. cbn [ar_prepared ar_blob_id]. rewrite Hb. cbn [default].
  rewrite decide_False by done. apply wp_bind_ok. apply (wp_intro _ _ (Ok (Some d)) w').
  - cbn. cbn [ds_files fs_blobs] in Hd. by rewrite Hbl, Hd.
  - apply wp_ret. split; [done|]. by exists d.
Qed.

(** A tag in place whose manifest is in place is pulled by its name. *)
Lemma tag_pulled self tag digest ct now r data w :
  record_at (ds_files self) (tag_path_for (ds_image self) tag) (tag_record digest tag ct now) w →
  file_at (ds_files self) (manifest_path_for (ds_image self) digest) r data w →
  wp (get_manifest_by_tag full self tag) w (λ (res : result (option (bytes * string * string))) w', same_store w w' ∧
    ∃ d : bytes, res = Ok (Some (d, ar_content_type r, digest)) ∧ blake3_hex d = blake3_hex data).
Proof.
  intros (b & v & id & acc & Hm & Hv) Hf. unfold get_manifest_by_tag. apply wp_bind_ok.
  unfold wp at 1. rewrite run_get_artifact. unfold old_of. cbn [ds_files fs_repo] in Hm. rewrite Hm, Hv. cbn [ar_prepared ar_kind tag_record].
  apply wp_bind_ok. eapply wp_mono; [by apply manifest_pulled|]. intros res w1 ([Hk1 Hb1] & d & -> & Hd).
  apply wp_bind. eapply wp_mono; [apply wp_track|]. intros _ w2 [Hk2 Hb2]. apply wp_ret.
  split; [split; congruence|]. by exists d.
Qed.

(** What a push of a manifest leaves behind. *)
Lemma wp_put_manifest self repos reference ct data w :
  sound (ds_blobs self) (ds_store self) repos w → new_id (ds_files self) w (new_v4 (w_uuids w)) →
  let digest := sha256_digest data in
  wp (put_manifest self reference ct data) w (λ (res : result string) w', sound (ds_blobs self) (ds_store self) repos w' ∧
    match res with
    | Ok dg => dg = digest ∧ ∃ blob_id now,
        file_at (ds_files self) (manifest_path_for (ds_image self) digest)
          (file_record (KDockerManifest digest) false ct (byte_size data) blob_id (blake3_hex data) now) data w' ∧
        (is_digest reference = false →
          record_at (ds_files self) (tag_path_for (ds_image self) reference) (tag_record digest reference ct now) w')
    | Err _ =>
        let k := artifact_key (ds_repo self) (manifest_path_for (ds_image self) digest) in w_kv w' !! k = w_kv w !! k
    end).
Proof using ar_exact br_exact.
  intros Hs Hid digest. unfold put_manifest. fold digest. set (mp := manifest_path_for _ _).
  apply wp_bind. eapply wp_intro; [done|]. apply wp_bind. eapply wp_intro; [done|]. cbn [handle fst].
  apply wp_bind_ok. eapply wp_intro; [done|]. apply wp_bind_ok.
  eapply wp_mono; [exact (wp_claim_file (ds_files self) repos (new_v4 (w_uuids w)) data (byte_size data) (w_now w) (bump_uuid w) Hs Hid)|].
  intros [id'|e] w1 (Hs1 & Ho1 & _ & _ & Hb1).
  2:{ split; [done|]. by apply (oa_artifacts _ _ _ _ _ Ho1); [|intros ? ?%elem_of_nil]. }
  cbn [ds_files fs_blobs fs_store] in Hs1.
  apply wp_bind_ok. set (rec := tag_record _ _ _ _).
  (* The tag. *)
  eapply (wp_mono _ _ (λ (res : result unit) w2, sound (ds_blobs self) (ds_store self) repos w2 ∧
    only_adds (ds_files self) [] [tag_path_for (ds_image self) reference] w1 w2 ∧
    match res with Ok _ => is_digest reference = false → record_at (ds_files self) (tag_path_for (ds_image self) reference) rec w2 | Err _ => True end)).
  { destruct (is_digest reference); cbn [negb].
    - apply wp_ret. split; [done|]. split; [apply only_adds_refl|done].
    - apply wp_bind_ok. eapply wp_mono; [by apply (wp_put_record (ds_files self) repos)|]. intros res w2 (Hs2 & Ho2 & _ & Hr2).
      destruct res; [apply wp_ret|]; (split; [done|]); by split. }
  assert (∀ path', path' ∈ [tag_path_for (ds_image self) reference] →
    artifact_key (fs_repo (ds_files self)) mp ≠ artifact_key (fs_repo (ds_files self)) path') as Hne.
  { intros ? ->%list_elem_of_singleton Heq. by apply (tag_not_manifest _ _ _ _ (eq_sym Heq)). }
  intros res2 w2 (Hs2 & Ho2 & Hr2).
  assert (w_kv w2 !! artifact_key (ds_repo self) mp = w_kv w !! artifact_key (ds_repo self) mp) as Hk2.
  { transitivity (w_kv w1 !! artifact_key (ds_repo self) mp); [by apply (oa_artifacts _ _ _ _ _ Ho2)|].
    by apply (oa_artifacts _ _ _ _ _ Ho1); [|intros ? ?%elem_of_nil]. }
  destruct res2 as [ []|e]; [|by split].
  apply wp_bind_ok. eapply wp_mono; [apply (wp_put_counted (ds_files self) repos mp _ data id')|]; [done..| |].
  { by eapply blob_at_kept. }
  intros res3 w3 (Hs3 & Ho3 & _ & Hr3).
  destruct res3 as [old|e]; [apply wp_ret|]; (split; [done|]); [|by rewrite <-Hk2].
  split; [done|]. exists id', (w_now w). split; [done|]. intros Hd. eapply record_at_kept; [done| |by apply Hr2].
  intros path' ->%list_elem_of_singleton Heq. by apply (tag_not_manifest _ _ _ _ Heq).
Qed.

(** C13: A manifest that has been pushed is what is pulled.  In a sound
    repository a push of a manifest, under a tag or under its digest, ends and
    keeps the repository sound.  If it succeeds, it returns the SHA-256 digest
    of the manifest, and both a pull by that digest and a pull by the reference of the push
    return the manifest, its type and that digest; contents here are those with
    the hash of the push.  If it fails, the record of the manifest is as
    before. *)
Theorem docker_push_pull (self : DockerStore) (repos : gset string) (reference ct : string) (data : bytes) (w : world kvmap) :
  sound (ds_blobs self) (ds_store self) repos w → new_id (ds_files self) w (new_v4 (w_uuids w)) →
  (is_digest reference = true → reference = sha256_digest data) →
  ∃ res w', run (put_manifest self reference ct data) w = (Some res, w') ∧ sound (ds_blobs self) (ds_store self) repos w' ∧
    match res with
    | Ok digest => digest = sha256_digest data ∧ ∀ r, r = reference ∨ r = digest →
        ∃ (d : bytes) w'', run (get_manifest full self r) w' = (Some (Ok (Some (d, ct, digest))), w'') ∧
          same_store w' w'' ∧ blake3_hex d = blake3_hex data
    | Err _ =>
        let k := artifact_key (ds_repo self) (manifest_path_for (ds_image self) (sha256_digest data)) in w_kv w' !! k = w_kv w !! k
    end.
Proof using ar_exact br_exact.
  intros Hs Hid Href. eapply wp_run, wp_mono; [by apply (wp_put_manifest self repos)|]. cbv beta.
  intros res w' [Hs' Hr]. split; [done|]. destruct res as [dg|e]; [|done]. destruct Hr as (-> & bid & now & Hf & Ht).
  split; [done|]. intros r Hr.
  enough (wp (get_manifest full self r) w' (λ res w'', same_store w' w'' ∧
    ∃ d : bytes, res = Ok (Some (d, ct, sha256_digest data)) ∧ blake3_hex d = blake3_hex data)) as Hwp.
  { apply wp_run in Hwp as (res & w'' & Hrun & Hk & d & -> & Hd). by exists d, w''. }
  unfold get_manifest. destruct (is_digest r) eqn:Hdig.
  - assert (r = sha256_digest data) as -> by (destruct Hr as [->| ->]; auto).
    apply wp_bind_ok. eapply wp_mono; [by eapply manifest_pulled|]. intros res w'' (Hk & d & -> & Hd).
    apply wp_ret. split; [done|]. by exists d.
  - destruct Hr as [->| ->]; [exact (tag_pulled _ _ _ _ _ _ _ _ (Ht Hdig) Hf)|]. unfold is_digest, sha256_digest in Hdig. by rewrite starts_with_app in Hdig.
Qed.

(** *** Layers *)

(** Putting a record neither reads nor writes a blob. *)
Lemma run_put_counted_blobs repo path r B w :
  run (put_counted repo path r) (set_blobs B w) =
    ((run (put_counted repo path r) w).1, set_blobs B (run (put_counted repo path r) w).2).
Proof.
  unfold put_counted. rewrite !run_bind_ok, !run_put_artifact_any. unfold after_prepare, stored_record. cbn [w_kv set_blobs w_uuids w_now].
  case_decide; [done|]. destruct (old_of _ _) as [e|old]; [done|].
  case_decide; destruct (to_vec _) as [e|b]; try done; destruct (dir_deltas _ old); reflexivity.
Qed.

(** A layer in place is pulled. *)
Lemma layer_pulled self digest r data w : file_at (ds_files self) (blob_ref_path_for digest) r data w →
  wp (get_blob full self digest) w (λ (res : result (option (bytes * Z))) w', same_store w w' ∧
    ∃ d : bytes, res = Ok (Some (d, ar_size r)) ∧ blake3_hex d = blake3_hex data).
Proof.
  intros [(b & v & id & acc & Hm & Hv) (bid & d & Hb & Hne & Hd & Hh)]. unfold get_blob.
  apply wp_bind_ok. unfold wp at 1. rewrite run_get_artifact. unfold old_of. cbn [ds_files fs_repo] in Hm. rewrite Hm, Hv.
  apply wp_bind. eapply wp_mono; [apply wp_track|]. intros _ w' [Hk Hbl]. cbn [ar_prepared ar_blob_id ar_size]. rewrite Hb. cbn [default].
  apply wp_bind_ok. apply (wp_intro _ _ (Ok (Some d)) w').
  - cbn. cbn [ds_files fs_blobs] in Hd. by rewrite Hbl, Hd.
  - apply wp_ret. split; [done|]. by exists d.
Qed.

Definition layer_record (digest : string) (size : Z) (blob_id hash : string) (now : DateTime) : ArtifactRecord :=
  file_record (KDockerBlob digest) false "application/octet-stream" size blob_id hash now.

(** What the end of an upload leaves, from a blob that is written. *)
Lemma wp_record_blob self repos id digest data size now w :
  sound (ds_blobs self) (ds_store self) repos w → new_id (ds_files self) w id →
  wp (record_blob self id digest (blake3_hex data) size now) (add_blob (ds_files self) id data w) (λ (res : result unit) w',
    match res with
    | Ok _ => sound (ds_blobs self) (ds_store self) repos w' ∧
        ∃ blob_id, file_at (ds_files self) (blob_ref_path_for digest) (layer_record digest size blob_id (blake3_hex data) now) data w'
    | Err _ => let k := artifact_key (ds_repo self) (blob_ref_path_for digest) in w_kv w' !! k = w_kv w !! k
    end).
Proof using ar_exact br_exact.
  intros Hs (Hid & Hne0 & Hempty). pose proof (sound_blob_added _ _ _ _ _ data Hid Hs) as Hs1. set (files := ds_files self) in *.
  unfold record_blob, put_dedup_record_counted. apply wp_bind_ok, wp_bind_ok.
  unfold wp at 1. rewrite run_put_dedup. cbn [br_hash blob_record add_blob w_kv set_blobs]. fold files.
  set (rec := br_in_store _ _). destruct (to_vec rec) as [e|b] eqn:Hb; [done|]. cbn [fs_blobs ds_files].
  destruct (w_kv w !! blob_key (ds_store self) (blake3_hex data)) as [ [b0 v0]|] eqn:Hm.
  - destruct (from_slice b0) as [e|old] eqn:He; [done|]. apply wp_bind, wp_ret, wp_ret. cbn [default].
    destruct (proj1 Hs _ _ _ _ Hm He) as (d & Hd & Hh).
    assert (blob_at files data (br_blob_id old) w) as Hat.
    { split; [|by exists d]. intros Heq. rewrite Heq in Hd. cbn in Hempty. congruence. }
    pose proof (wp_put_counted files repos (blob_ref_path_for digest) (layer_record digest size (br_blob_id old) (blake3_hex data) now)
      data (br_blob_id old) w Hs eq_refl eq_refl Hat) as Hput.
    apply wp_bind_ok. unfold put_blob_ref. apply wp_bind_ok. unfold wp at 1. unfold add_blob. rewrite run_put_counted_blobs. unfold wp in Hput.
    cbn [ds_files fs_repo files] in Hput. change (file_record _ _ _ _ _ _ _) with (layer_record digest size (br_blob_id old) (blake3_hex data) now).
    destruct (run (put_counted _ _ _) w) as [ [res|] w1]; [|done]. destruct Hput as (Hs2 & Ho2 & Hb2 & Hr2). cbn [fst snd].
    destruct res as [o|e]; [|done]. apply wp_ret, wp_bind.
    apply (wp_intro _ _ (Ok tt) w1); [|by apply wp_ret; split; [|eexists] ].
    cbn. rewrite delete_insert_eq, delete_id by done. rewrite <-Hb2. by destruct w1.
  - apply wp_bind. eapply wp_intro; [done|]. apply wp_ret. cbn [default]. apply wp_bind_ok. unfold put_blob_ref. apply wp_bind_ok.
    eapply wp_mono; [eapply (wp_put_counted files repos _ _ data id)|].
    + apply (sound_frame _ _ _ (set_kv (<[blob_key (ds_store self) (br_hash rec) := (b, 1%Z)]> (w_kv w)) (add_blob files id data w))); [done|done|].
      apply (sound_dedup_added _ _ _ (add_blob files id data w) rec b data); [done..|]. cbn. by rewrite lookup_insert_eq.
    + done.
    + done.
    + split; [done|]. exists data. cbn. by rewrite lookup_insert_eq.
    + intros res w1 (Hs2 & Ho2 & _ & Hr2). destruct res as [o|e]; [apply wp_ret, wp_ret; by split; [|eexists]|].
      cbn in *. rewrite Hr2. by rewrite lookup_insert_ne.
Qed.

(** A layer that has been pushed is what is pulled.  In a sound repository a
    push of a layer ends; if it succeeds, the repository is sound, the digest of the contents is
    returned, and a pull of that digest returns contents with the hash of the push
    and their size, whether or not the store had them already; if it fails, the
    record of the layer is as before. *)
Theorem docker_layer_served (self : DockerStore) (repos : gset string) (data : bytes) (w : world kvmap) :
  sound (ds_blobs self) (ds_store self) repos w → new_id (ds_files self) w (new_v4 (w_uuids w)) →
  ∃ res w', run (put_blob self data) w = (Some res, w') ∧
    match res with
    | Ok digest => digest = sha256_digest data ∧ sound (ds_blobs self) (ds_store self) repos w' ∧
        ∃ (d : bytes) w'', run (get_blob full self digest) w' = (Some (Ok (Some (d, byte_size data))), w'') ∧
          same_store w' w'' ∧ blake3_hex d = blake3_hex data
    | Err _ => let k := artifact_key (ds_repo self) (blob_ref_path_for (sha256_digest data)) in w_kv w' !! k = w_kv w !! k
    end.
Proof using ar_exact br_exact.
  intros Hs Hid. apply wp_run. unfold put_blob. apply wp_bind. eapply wp_intro; [done|]. apply wp_bind. eapply wp_intro; [done|].
  apply wp_bind_ok. eapply wp_intro; [done|]. apply wp_bind_ok.
  eapply wp_mono; [exact (wp_record_blob self repos (new_v4 (w_uuids w)) (sha256_digest data) data (byte_size data) (w_now w) (bump_uuid w) Hs Hid)|].
  intros res w' Hr. destruct res as [ []|e]; [|done]. destruct Hr as (Hs' & bid & Hf). apply wp_ret. split; [done|]. split; [done|].
  pose proof (layer_pulled _ _ _ _ _ Hf) as Hwp. apply wp_run in Hwp as (res & w'' & Hrun & Hk & d & -> & Hd). by exists d, w''.
Qed.

(** *** A mount from another store *)

(** The record of the layer and the dedup record of its hash name a blob that
    the store does not have. *)
Definition broken_layer self (digest hash bid : string) w : Prop :=
  (∃ (b : bytes) v r, w_kv w !! artifact_key (ds_repo self) (blob_ref_path_for digest) = Some (b, v) ∧ from_slice b = inr r ∧
    ar_blob_id r = Some bid) ∧
  (∃ (b : bytes) v old, w_kv w !! blob_key (ds_store self) hash = Some (b, v) ∧ from_slice b = inr old ∧ br_blob_id old = bid) ∧
  w_blobs w !! (ds_blobs self, bid) = None.

Lemma broken_pull self digest hash bid w : broken_layer self digest hash bid w →
  wp (get_blob full self digest) w (λ (res : result (option (bytes * Z))) w',
    same_store w w' ∧ res = Err (DataIntegrity ("blob missing for blob_id " +:+ bid))).
Proof.
  intros ((b & v & r & Hm & Hv & Hb) & _ & Hbl). unfold get_blob.
  apply wp_bind_ok. unfold wp at 1. rewrite run_get_artifact. unfold old_of. rewrite Hm, Hv.
  apply wp_bind. eapply wp_mono; [apply wp_track|]. intros _ w' [Hk Hbl']. rewrite Hb. cbn [default].
  apply wp_bind_ok. apply (wp_intro _ _ (Ok None) w'); [cbn; by rewrite Hbl', Hbl|]. by apply wp_ret.
Qed.

Lemma record_layer self digest size bid hash now w :
  wp (put_blob_ref self digest bid hash size now) w (λ (res : result unit) w',
    w_blobs w' = w_blobs w ∧ (∀ k, k.1.1 = TABLE_BLOBS → w_kv w' !! k = w_kv w !! k) ∧
    (is_ok res = true → ∃ (b : bytes) v r, w_kv w' !! artifact_key (ds_repo self) (blob_ref_path_for digest) = Some (b, v) ∧
      from_slice b = inr r ∧ ar_blob_id r = Some bid)).
Proof using ar_exact.
  unfold put_blob_ref. apply wp_bind_ok. eapply wp_mono; [apply (wp_put_any (ds_files self))|].
  intros res w' (_ & Hb & Hk & Hr). destruct res as [o|e]; [|done]. apply wp_ret. split_and!; [done..|]. intros _.
  destruct Hr as (b & v & id & acc & Hm & Hv). do 3 eexists. split_and!; [exact Hm|exact Hv|done].
Qed.

Lemma wp_mount self digest bid hash size w : w_blobs w !! (ds_blobs self, bid) = None →
  w_kv w !! blob_key (ds_store self) hash = None →
  wp (mount_blob self digest bid hash size) w (λ (res : result string) w',
    is_ok res = true → broken_layer self digest hash bid w').
Proof using ar_exact br_exact.
  intros Hbl Hm. unfold mount_blob, put_dedup_record_counted. apply wp_bind. eapply wp_intro; [done|]. apply wp_bind_ok, wp_bind_ok.
  unfold wp at 1. rewrite run_put_dedup. cbn [br_hash blob_record handle snd]. set (rec := br_in_store _ _).
  destruct (to_vec rec) as [e|b] eqn:Hb; [done|]. rewrite Hm. apply wp_bind. eapply wp_intro; [done|]. apply wp_ret, wp_bind_ok.
  eapply wp_mono; [apply record_layer|]. cbn [w_blobs handle snd set_kv w_kv push_sent]. intros [ []|e] w' (Hb' & Hk' & Hr'); [apply wp_ret|done]. intros _.
  split; [by apply Hr'|]. split; [|by rewrite Hb'].
  exists b, 1%Z, rec. split; [|split; [|done] ].
  - rewrite Hk' by done. cbn. by rewrite lookup_insert_eq.
  - by rewrite (from_to_vec _ _ Hb), wire_id.
Qed.

(** A later push of the layer does not repair it: what it writes is taken for a
    duplicate. *)
Lemma wp_push_broken self data bid w : broken_layer self (sha256_digest data) (blake3_hex data) bid w →
  wp (put_blob self data) w (λ (res : result string) w',
    is_ok res = true → broken_layer self (sha256_digest data) (blake3_hex data) bid w').
Proof using ar_exact br_exact.
  intros (_ & (b & v & old & Hm & Hv & Hold) & Hbl). unfold put_blob. apply wp_bind. eapply wp_intro; [done|]. apply wp_bind. eapply wp_intro; [done|].
  apply wp_bind_ok. eapply wp_intro; [done|]. unfold record_blob, put_dedup_record_counted. apply wp_bind_ok, wp_bind_ok, wp_bind_ok.
  unfold wp at 1. rewrite run_put_dedup. cbn [br_hash blob_record w_kv set_blobs handle snd bump_uuid].
  destruct (to_vec _) as [e|b']; [done|]. rewrite Hm, Hv. apply wp_bind, wp_ret, wp_ret. rewrite Hold. cbn [default]. apply wp_bind_ok.
  eapply wp_mono; [apply record_layer|]. intros [ []|e] w' (Hb' & Hk' & Hr'); [|done]. apply wp_bind. eapply wp_intro; [done|].
  apply wp_ret, wp_ret. intros _. split; [by apply Hr'|]. split.
  - exists b, v, old. split; [|done]. cbn. rewrite Hk' by done. by cbn.
  - cbn. rewrite Hb'. cbn. destruct (decide (bid = new_v4 (w_uuids w))) as [<-|Hne]; [by rewrite lookup_delete_eq|].
    by rewrite lookup_delete_ne, lookup_insert_ne by congruence.
Qed.

(** A layer that is mounted from a repository on another blob store is
    broken, and stays so.  When the blob that the mount names is not in the
    blob store of the destination, and the hash is new to its store, a mount
    that succeeds leaves a layer that cannot be pulled; and a later push of the very
    contents, which succeeds, leaves it so, since its blob is dropped as a
    duplicate of the one that is missing. *)
Theorem mount_from_other_store_breaks (self : DockerStore) (bid : string) (data : bytes) (size : Z) (w : world kvmap) :
  let pull w res := ∃ w', run (get_blob full self (sha256_digest data)) w = (Some res, w') in
  let missing := Err (DataIntegrity ("blob missing for blob_id " +:+ bid)) in
  w_blobs w !! (ds_blobs self, bid) = None → w_kv w !! blob_key (ds_store self) (blake3_hex data) = None →
  ∃ res w1, run (mount_blob self (sha256_digest data) bid (blake3_hex data) size) w = (Some res, w1) ∧
    (is_ok res = true → pull w1 missing ∧
      ∃ res' w2, run (put_blob self data) w1 = (Some res', w2) ∧ (is_ok res' = true → pull w2 missing)).
Proof using ar_exact br_exact.
  intros pull missing Hbl Hm.
  assert (∀ w, broken_layer self (sha256_digest data) (blake3_hex data) bid w → pull w missing) as Hpull.
  { intros w0 Hw. pose proof (broken_pull _ _ _ _ _ Hw) as Hwp. apply wp_run in Hwp as (res & w' & Hrun & _ & ->). by exists w'. }
  destruct (wp_run _ _ _ (wp_mount self (sha256_digest data) bid (blake3_hex data) size w Hbl Hm)) as (res & w1 & Hrun & Hok).
  exists res, w1. split; [done|]. intros Hres. specialize (Hok Hres). split; [by apply Hpull|].
  destruct (wp_run _ _ _ (wp_push_broken self data bid w1 Hok)) as (res' & w2 & Hrun' & Hok'). exists res', w2. auto.
Qed.
End pushed.

(** ** Witnesses *)

Definition toy_docker : DockerStore := mkDockerStore "r" (Some "img") "s" "s" true.
Definition toy_sha (data : bytes) : string := let _ := toy_digests in sha256_digest data.

Definition toy_tag : ArtifactRecord :=
  ar_prepared (tag_record (toy_sha "{}") "latest" "ct" 0%Z) "uuid-1" 0%Z (tag_path_for (Some "img") "latest").

Definition toy_manifest : ArtifactRecord :=
  let _ := toy_blake3 in
  ar_prepared (file_record (KDockerManifest (toy_sha "{}")) false "ct" 2 "uuid-0" (blake3_hex "{}") 0%Z) "uuid-2" 0%Z
    (manifest_path_for (Some "img") (toy_sha "{}")).

Lemma docker_push_pull_witness :
  let _ := toy_blake3 in let _ := table_serde [toy_tag; toy_manifest] in let _ := toy_te_serde in
  let _ := table_serde [toy_first_blob "{}"] in let _ := toy_digests in let _ := toy_uuid in
  ∃ w', run (put_manifest toy_docker "latest" "ct" "{}") toy_files_world = (Some (Ok (toy_sha "{}")), w') ∧
    ∃ (d : bytes) w'', run (get_manifest false toy_docker "latest") w' = (Some (Ok (Some (d, "ct", toy_sha "{}"))), w'') ∧
      same_store w' w'' ∧ blake3_hex d = blake3_hex "{}".
Proof.
  intros ? ? ? ? ? ?.
  destruct (@docker_push_pull toy_blake3 (table_serde [toy_tag; toy_manifest]) toy_te_serde (table_serde [toy_first_blob "{}"]) toy_digests
    toy_uuid (table_serde_exact _) (table_serde_exact _) false toy_docker {["r"]} "latest" "ct" "{}" toy_files_world)
    as (res & w' & Hrun & _ & Hres); [apply toy_files_sound|apply toy_files_new|by intros ?|].
  pose proof (f_equal (λ x, is_ok <$> x.1) Hrun) as Hok. vm_compute in Hok. destruct res as [r|e]; [|discriminate Hok].
  destruct Hres as [-> Hpull]. exists w'. split; [exact Hrun|]. exact (Hpull "latest" (or_introl eq_refl)).
Defined.

Definition toy_layer (blob_id id : string) (data : bytes) : ArtifactRecord :=
  let _ := toy_blake3 in
  ar_prepared (layer_record (toy_sha data) (byte_size data) blob_id (blake3_hex data) 0%Z) id 0%Z (blob_ref_path_for (toy_sha data)).

Lemma docker_layer_served_witness :
  let _ := toy_blake3 in let _ := table_serde [toy_layer "uuid-0" "uuid-1" "abc"] in let _ := toy_te_serde in
  let _ := table_serde [toy_first_blob "abc"] in let _ := toy_digests in let _ := toy_uuid in
  ∃ w', run (put_blob toy_docker "abc") toy_files_world = (Some (Ok (toy_sha "abc")), w') ∧
    ∃ (d : bytes) w'', run (get_blob false toy_docker (toy_sha "abc")) w' = (Some (Ok (Some (d, 3%Z))), w'') ∧
      same_store w' w'' ∧ blake3_hex d = blake3_hex "abc".
Proof.
  intros ? ? ? ? ? ?.
  destruct (@docker_layer_served toy_blake3 (table_serde [toy_layer "uuid-0" "uuid-1" "abc"]) toy_te_serde (table_serde [toy_first_blob "abc"])
    toy_digests toy_uuid (table_serde_exact _) (table_serde_exact _) false toy_docker {["r"]} "abc" toy_files_world)
    as (res & w' & Hrun & Hres); [apply toy_files_sound|apply toy_files_new|].
  pose proof (f_equal (λ x, is_ok <$> x.1) Hrun) as Hok. vm_compute in Hok. destruct res as [r|e]; [|discriminate Hok].
  destruct Hres as (-> & _ & Hpull). exists w'. split; [exact Hrun|exact Hpull].
Defined.

Definition toy_mounted : list ArtifactRecord := [toy_layer "gone" "uuid-0" "abc"; toy_layer "gone" "uuid-2" "abc"].
Definition toy_mounted_blobs : list BlobRecord :=
  let _ := toy_blake3 in (λ id, blob_record toy_files id (blake3_hex "abc") 3 0%Z) <$> ["gone"; "uuid-1"].

Lemma mount_from_other_store_breaks_witness :
  let _ := toy_blake3 in let _ := table_serde toy_mounted in let _ := toy_te_serde in
  let _ := table_serde toy_mounted_blobs in let _ := toy_digests in let _ := toy_uuid in
  ∃ r r' w1 w2 w3, run (mount_blob toy_docker (toy_sha "abc") "gone" (blake3_hex "abc") 3) toy_files_world = (Some (Ok r), w1) ∧
    run (put_blob toy_docker "abc") w1 = (Some (Ok r'), w2) ∧
    run (get_blob false toy_docker (toy_sha "abc")) w2 = (Some (Err (DataIntegrity "blob missing for blob_id gone")), w3).
Proof.
  intros ? ? ? ? ? ?.
  destruct (@mount_from_other_store_breaks toy_blake3 (table_serde toy_mounted) toy_te_serde (table_serde toy_mounted_blobs)
    toy_digests toy_uuid (table_serde_exact _) (table_serde_exact _) false toy_docker "gone" "abc" 3 toy_files_world)
    as (res & w1 & Hrun & Hres); [reflexivity|reflexivity|].
  pose proof (f_equal (λ x, is_ok <$> x.1) Hrun) as Hok. vm_compute in Hok. destruct res as [r|e]; [|discriminate Hok].
  destruct (Hres eq_refl) as (_ & res' & w2 & Hrun' & Hpull).
  pose proof (f_equal snd Hrun) as Hw1. cbn [snd] in Hw1. subst w1.
  pose proof (f_equal (λ x, is_ok <$> x.1) Hrun') as Hok'. vm_compute in Hok'.
  destruct res' as [r'|e]; [|discriminate Hok']. destruct (Hpull eq_refl) as (w3 & Hget).
  eexists r, r', _, w2, w3. split; [exact Hrun|]. split; [exact Hrun'|exact Hget].
Defined.
