(* ===== verification/DockerUpload.v ===== *)
(** * Docker pushes (format/docker/src/api/helpers.rs, uploads.rs, manifests.rs)

    The handlers that write: a layer is mounted, uploaded in one piece, or in
    chunks that a session keeps until they are assembled; a manifest is checked
    and put.  The state of the authentication backend is passed through.  The
    theorems say what a completed upload leaves behind, and what a second
    completion of the same session does. *)

From S2P Require Import Prelude Bytes Text Errors Keys Records Kv Prog Wp Effects Scan Pagination Update Artifact Blob Repo Directory Ingest Accounts BulkDelete TreeRebuild.
From S2P Require Import BloomFilter UpdateWorker Batches Check CheckScan DockerGc Cache Auth ApiHelpers Package Docker.

(** ** Answers *)

(** What a handler answers: 201 with a location and a digest, 202 with the
    location of the upload, its id and the range received, 202 alone, the
    challenge, or an error with its code and status. *)
Inductive DockerReply : Type :=
| DCreated (location digest : string)
| DUpload (location uuid range : string)
| DAccepted
| DUnauthorized (challenge : string)
| DError (code message : string) (status : nat).

(** format/docker/src/api/helpers.rs:25-34 *)
Definition docker_error (code message : string) (status : nat) : DockerReply := DError code message status.

Definition unknown_error (e : DepotError) : DockerReply := docker_error "UNKNOWN" (display_error e) 500.

Definition DQUOTE : string := singleton_str (ascii_of_nat 34).

(** What the handlers read of the request and of the server: the headers, the
    authority of the URI, the base URL that is configured, the scheme of the
    listener and the cap on the chunks of an upload. *)
Record RequestEnv : Type := mkRequestEnv {
  re_headers : Headers;
  re_uri_authority : option string;
  re_base_url : option string;
  re_default_scheme : string;
  re_max_docker_chunk_count : nat;
}.

(** core/src/format_state.rs:99-110 *)
Definition env_external_origin (env : RequestEnv) : string :=
  external_origin_resolved (re_base_url env) (re_headers env) (re_uri_authority env) (re_default_scheme env).

(** format/docker/src/api/helpers.rs:42-49 *)
Definition docker_bearer_challenge (env : RequestEnv) : string :=
  "Bearer realm=" +:+ DQUOTE +:+ env_external_origin env +:+ "/v2/token" +:+ DQUOTE +:+ ",service=" +:+ DQUOTE +:+ "Artifact Depot" +:+ DQUOTE.

(** format/docker/src/api/helpers.rs:55-77 *)
Definition docker_unauthorized_response (env : RequestEnv) : DockerReply := DUnauthorized (docker_bearer_challenge env).

(** format/docker/src/api/helpers.rs:85-90 *)
Definition location_prefix (repo_name : string) (image : option string) : string :=
  "/v2/" +:+ default repo_name image.

(** format/docker/src/api/types.rs:54-58 *)
Record UploadInitParams : Type := mkUploadInitParams {
  up_mount : option string;
  up_from : option string;
  up_digest : option string;
}.

(** [Value::as_u64] of serde_json. *)
Class JsonNumbers `{SerdeJson} := { json_as_u64 : json_value → option Z }.

Section handlers.
Context `{Blake3} `{Serde ArtifactRecord} `{Serde TreeEntry} `{Serde BlobRecord} `{Serde RepoConfig} `{Serde UploadSessionRecord}.
Context `{Digests} `{JsonNumbers} {B : Type} `{AuthBackend B}.
Context (full : bool) (env : RequestEnv).

(** ** What the handlers share *)

(** format/docker/src/api/helpers.rs:97-120 *)
Definition check_docker_permission (auth : B) (username repo : string) (cap : Capability) : prog ((DockerReply + unit) * B) :=
  let* a := check_permission auth username repo cap in
  let '(r, auth) := a in
  match r with
  | Ok _ => Ret (inr tt, auth)
  | Err _ =>
      if decide (username = "anonymous") then Ret (inl (docker_unauthorized_response env), auth)
      else Ret (inl (docker_error "DENIED" "requested access to the resource is denied" 403), auth)
  end.

(** format/docker/src/api/helpers.rs:123-158 *)
Definition validate_docker_repo (repo_name : string) : prog (DockerReply + RepoConfig) :=
  let* r :=
    let*? o := get_repo repo_name in
    match o with
    | None => Ret (Err (NotFound ("repository '" +:+ repo_name +:+ "' not found")))
    | Some config =>
        if decide (repo_format config ≠ FDocker) then Ret (Err (BadRequest "repository is not a Docker repository"))
        else Ret (Ok config)
    end in
  Ret match r with
      | Ok config => inr config
      | Err (NotFound _) => inl (docker_error "NAME_UNKNOWN" "repository not found" 404)
      | Err (BadRequest _) => inl (docker_error "UNSUPPORTED" "repository is not a Docker repository" 400)
      | Err e => inl (unknown_error e)
      end.

(** format/docker/src/api/helpers.rs:161-177 *)
Definition hosted_store (repo_name : string) (image : option string) (blobs store : string) : DockerStore :=
  mkDockerStore repo_name image blobs store true.

(** format/docker/src/api/helpers.rs:180-191 *)
Definition docker_blob_store (config : RepoConfig) : prog (DockerReply + string) :=
  let* r := resolve_blob_store (rc_store config) in
  Ret match r with
      | Ok blobs => inr blobs
      | Err e => inl (docker_error "UNKNOWN" ("failed to resolve blob store: " +:+ display_error e) 500)
      end.

(** The name of the repository that a write goes to. *)
(** format/docker/src/api/uploads.rs:55-78 *)
Definition write_target_name (config : RepoConfig) : prog (DockerReply + string) :=
  match rc_kind config with
  | Hosted => Ret (inr (rc_name config))
  | Proxy _ _ =>
      let* r := resolve_format_write_target config FDocker in
      Ret match r with
          | Ok (name, _) => inr name
          | Err e => inl (docker_error "UNSUPPORTED" (display_error e) 400)
          end
  | Cache _ _ _ => Ret (inl (docker_error "UNSUPPORTED" "cannot push to a cache repository" 405))
  end.

(** Its configuration. *)
(** format/docker/src/api/uploads.rs:80-99 *)
Definition load_target (target_repo : string) (config : RepoConfig) : prog (DockerReply + RepoConfig) :=
  if decide (target_repo = rc_name config) then Ret (inr config)
  else
    let*! o := get_repo target_repo else unknown_error in
    match o with
    | Some c => Ret (inr c)
    | None => Ret (inl (docker_error "NAME_UNKNOWN" "target repository not found" 404))
    end.

(** ** Starting an upload *)

Definition blob_location (prefix digest : string) : string := prefix +:+ "/blobs/" +:+ digest.
Definition upload_location (prefix uuid : string) : string := prefix +:+ "/blobs/uploads/" +:+ uuid.

(** A mount: the reply, or none when the upload goes on. *)
(** format/docker/src/api/uploads.rs:113-206 *)
Definition try_mount (auth : B) (username : string) (store : DockerStore) (prefix mount_digest from_repo : string) :
    prog (option DockerReply * B) :=
  let* here := blob_exists store mount_digest in
  match here with
  | Ok (Some _) => Ret (Some (DCreated (blob_location prefix mount_digest) mount_digest), auth)
  | _ =>
      let* a := check_docker_permission auth username from_repo CapRead in
      let '(r, auth) := a in
      match r with
      | inl reply => Ret (Some reply, auth)
      | inr _ =>
          let* from_config := get_repo from_repo in
          match from_config with
          | Ok (Some fc) =>
              let* from_blobs := docker_blob_store fc in
              match from_blobs with
              | inl _ => Ret (None, auth)
              | inr from_blobs =>
                  let from_store := mkDockerStore from_repo None from_blobs (rc_store fc) true in
                  let* there := blob_exists from_store mount_digest in
                  match there with
                  | Ok (Some (size, blob_id, content_hash)) =>
                      let* r := mount_blob store mount_digest blob_id content_hash size in
                      Ret (Some match r with
                                | Ok digest => DCreated (blob_location prefix digest) digest
                                | Err e => unknown_error e
                                end, auth)
                  | _ => Ret (None, auth)
                  end
              end
          | _ => Ret (None, auth)
          end
      end
  end.

(** The commit of a layer that is written: its hash is recorded, the record is
    put, with the blob that has been there before if there is one, and [last]
    is done. *)
(** format/docker/src/api/uploads.rs:291-305 *)
Definition commit_layer (store : DockerStore) (blob_id digest blake3_hash : string) (size : Z) (now : DateTime)
    (last : prog (result unit)) : prog (result (option string)) :=
  let*? existing := put_dedup_record_counted (ds_store store) (blob_record (ds_files store) blob_id blake3_hash size now) in
  let record := file_record (KDockerBlob digest) false "application/octet-stream" size (default blob_id existing) blake3_hash now in
  let*? _ := put_artifact (ds_repo store) (blob_ref_path_for digest) record in
  let*? _ := last in
  Ret (Ok existing).

(** An upload in one piece. *)
(** format/docker/src/api/uploads.rs:209-337 *)
Definition monolithic_upload (store : DockerStore) (prefix digest : string) (body : Body) : prog DockerReply :=
  let* mono_blob_id := call EUuid in
  match read_body body with
  | inl e => Ret (docker_error "UNKNOWN" e 500)
  | inr data =>
      let computed := sha256_digest data in
      if decide (computed ≠ digest) then
        Ret (docker_error "DIGEST_INVALID" ("expected " +:+ digest +:+ ", got " +:+ computed) 400)
      else
        let* r := blob (ds_blobs store) (BPut mono_blob_id data) in
        match r with
        | Err e => Ret (unknown_error e)
        | Ok _ =>
            let* now := call ENow in
            let size := byte_size data in
            let* r := commit_layer store mono_blob_id computed (blake3_hex data) size now (Ret (Ok tt)) in
            match r with
            | Err e => Ret (unknown_error e)
            | Ok dedup =>
                let* _ := match dedup with
                          | Some _ => let* _ := blob (ds_blobs store) (BDelete mono_blob_id) in Ret tt
                          | None => Ret tt
                          end in
                let* _ := dir_changed (ds_repo store) (blob_ref_path_for computed) 1 (i64_wrap size) in
                Ret (DCreated (blob_location prefix computed) computed)
            end
        end
  end.

(** A session whose chunks follow, with what the body has already. *)
(** format/docker/src/api/uploads.rs:339-423 *)
Definition open_session (store : DockerStore) (prefix : string) (image : option string) (body : Body) : prog DockerReply :=
  let* uuid := call EUuid in
  let* blob_id := call EUuid in
  let* chunk_id := call EUuid in
  match read_body body with
  | inl e => Ret (docker_error "UNKNOWN" e 500)
  | inr data =>
      let* r :=
        if decide (data = "") then Ret (Ok [])
        else let*? _ := blob (ds_blobs store) (BPut chunk_id data) in Ret (Ok [chunk_id]) in
      match r with
      | Err e => Ret (unknown_error e)
      | Ok chunk_blob_ids =>
          let* now := call ENow in
          let session := mkUploadSessionRecord uuid (ds_repo store) image blob_id (ds_store store) (byte_size data) chunk_blob_ids now now in
          let* r := put_upload_session session in
          Ret match r with
              | Err e => unknown_error e
              | Ok _ => DUpload (upload_location prefix uuid) uuid "0-0"
              end
      end
  end.

(** format/docker/src/api/uploads.rs:28-424 *)
Definition do_start_upload (auth : B) (username repo_name : string) (image : option string) (params : UploadInitParams)
    (body : Body) : prog (DockerReply * B) :=
  let* a := check_docker_permission auth username repo_name CapWrite in
  let '(r, auth) := a in
  match r with
  | inl reply => Ret (reply, auth)
  | inr _ =>
      let* r :=
        let*^ config := validate_docker_repo repo_name in
        let*^ target_repo := write_target_name config in
        let*^ target_config := load_target target_repo config in
        let*^ blobs := docker_blob_store target_config in
        Ret (inr (hosted_store target_repo image blobs (rc_store target_config))) in
      match r with
      | inl reply => Ret (reply, auth)
      | inr store =>
          let prefix := location_prefix repo_name image in
          let* a :=
            match up_mount params, up_from params with
            | Some mount_digest, Some from_repo => try_mount auth username store prefix mount_digest from_repo
            | _, _ => Ret (None, auth)
            end in
          let '(mounted, auth) := a in
          let* reply :=
            match mounted with
            | Some reply => Ret reply
            | None =>
                match up_digest params with
                | Some digest => monolithic_upload store prefix digest body
                | None => open_session store prefix image body
                end
            end in
          Ret (reply, auth)
      end
  end.

(** ** Chunks *)

(** The repository whose sessions a request may continue. *)
(** format/docker/src/api/uploads.rs:453-471 *)
Definition effective_repo (repo_name : string) : prog string :=
  let* r := validate_docker_repo repo_name in
  match r with
  | inl _ => Ret repo_name
  | inr config =>
      match rc_kind config with
      | Proxy _ _ =>
          let* r := resolve_format_write_target config FDocker in
          Ret match r with Ok (name, _) => name | Err _ => rc_name config end
      | _ => Ret (rc_name config)
      end
  end.

(** format/docker/src/api/uploads.rs:483-489 *)
Definition session_matches (s : UploadSessionRecord) (repo_name effective : string) (image : option string) : bool :=
  match image with
  | Some _ => bool_decide (us_repo s = repo_name ∨ us_repo s = effective)
  | None => bool_decide (us_repo s = repo_name ∨ us_repo s = effective ∨ us_image s = Some repo_name)
  end.

Definition upload_not_found : DockerReply := docker_error "BLOB_UPLOAD_UNKNOWN" "upload not found" 404.

(** format/docker/src/api/uploads.rs:554-554 *)
Definition MAX_RETRIES : nat := 3.

(** The chunk is added to the session under a condition on its version; the
    session is read again when another chunk came first. *)
(** format/docker/src/api/uploads.rs:554-613 *)
Fixpoint append_chunk (attempts : nat) (read : option (UploadSessionRecord * Z)) (uuid chunk_id : string) (chunk_bytes : Z) :
    prog (DockerReply + Z) :=
  match attempts with
  | O => Ret (inr 0%Z)
  | S attempts =>
      let*^ x :=
        match read with
        | Some x => Ret (inr x)
        | None =>
            let*! o := get_upload_session_versioned uuid else unknown_error in
            Ret match o with Some x => inr x | None => inl upload_not_found end
        end in
      let '(session, version) := x in
      if decide (re_max_docker_chunk_count env ≤ length (us_chunk_blob_ids session)) then
        Ret (inl (docker_error "BLOB_UPLOAD_INVALID" "too many chunks" 400))
      else
        let new_size := u64_add (us_size session) chunk_bytes in
        let* now := call ENow in
        let updated_session := mkUploadSessionRecord (us_uuid session) (us_repo session) (us_image session) (us_blob_id session)
          (us_store session) new_size (us_chunk_blob_ids session ++ [chunk_id]) (us_created_at session) now in
        let*! ok := put_upload_session_if_version updated_session version else unknown_error in
        if ok then Ret (inr new_size)
        else match attempts with
             | O => Ret (inl (docker_error "UNKNOWN" "concurrent upload session update conflict" 409))
             | S _ => append_chunk attempts None uuid chunk_id chunk_bytes
             end
  end.

(** What follows the permission check. *)
(** format/docker/src/api/uploads.rs:453-640 *)
Definition patch_upload (repo_name : string) (image : option string) (uuid : string) (body : Body) : prog (DockerReply + DockerReply) :=
  let* effective := effective_repo repo_name in
  let*! o := get_upload_session_versioned uuid else unknown_error in
  match o with
  | None => Ret (inl upload_not_found)
  | Some (session, version) =>
      if session_matches session repo_name effective image then
        let*! blobs := resolve_blob_store (us_store session) else unknown_error in
        let* chunk_id := call EUuid in
        match read_body body with
        | inl e => Ret (inl (docker_error "UNKNOWN" e 500))
        | inr data =>
            let*! _ := blob blobs (BPut chunk_id data) else unknown_error in
            let*^ new_size := append_chunk MAX_RETRIES (Some (session, version)) uuid chunk_id (byte_size data) in
            Ret (inr (DUpload (upload_location (location_prefix repo_name image) uuid) uuid
              ("0-" +:+ show_uint (Z.to_N (Z.max 0 (new_size - 1))))))
        end
      else Ret (inl upload_not_found)
  end.

(** format/docker/src/api/uploads.rs:427-641 *)
Definition do_patch_upload (auth : B) (username repo_name : string) (image : option string) (uuid : string) (body : Body) :
    prog (DockerReply * B) :=
  let* a := check_docker_permission auth username repo_name CapWrite in
  let '(r, auth) := a in
  match r with
  | inl reply => Ret (reply, auth)
  | inr _ => let* r := patch_upload repo_name image uuid body in Ret (finished r, auth)
  end.

(** ** Completion *)

(** The chunks in their order. *)
(** format/docker/src/api/uploads.rs:786-830 *)
Fixpoint assemble (blobs : string) (chunk_blob_ids : list string) (data : bytes) : prog (DockerReply + bytes) :=
  match chunk_blob_ids with
  | [] => Ret (inr data)
  | chunk_id :: chunk_blob_ids =>
      let*! o := blob blobs (BGet chunk_id) else unknown_error in
      match o with
      | Some chunk => assemble blobs chunk_blob_ids (data +:+ chunk)
      | None => Ret (inl (docker_error "UNKNOWN" "chunk blob missing during assembly" 500))
      end
  end.

(** The end of a completion, from the data that has been assembled under the
    blob id of the session. *)
(** format/docker/src/api/uploads.rs:834-942 *)
Definition commit_upload (session : UploadSessionRecord) (blobs : string) (chunk_blob_ids : list string) (prefix : string)
    (image : option string) (expected_digest : string) (data : bytes) (size : Z) : prog (DockerReply + DockerReply) :=
  let blob_id := us_blob_id session in
  let docker_digest := sha256_digest data in
  if decide (docker_digest ≠ expected_digest) then
    let* _ := blob blobs (BDelete blob_id) in
    Ret (inl (docker_error "DIGEST_INVALID" ("expected " +:+ expected_digest +:+ ", got " +:+ docker_digest) 400))
  else
    let effective_image := match us_image session with Some i => Some i | None => image end in
    let* now := call ENow in
    let store := mkDockerStore (us_repo session) effective_image blobs (us_store session) true in
    let*! dedup := commit_layer store blob_id docker_digest (blake3_hex data) size now (delete_upload_session (us_uuid session)) else unknown_error in
    let* _ := match dedup with
              | Some _ => let* _ := blob blobs (BDelete blob_id) in Ret tt
              | None => Ret tt
              end in
    let* _ := drop_blobs blobs chunk_blob_ids in
    let* _ := dir_changed (us_repo session) (blob_ref_path_for docker_digest) 1 (i64_wrap size) in
    Ret (inr (DCreated (blob_location prefix docker_digest) docker_digest)).

(** What follows the permission check. *)
(** format/docker/src/api/uploads.rs:672-832 *)
Definition complete_upload (repo_name : string) (image : option string) (uuid expected_digest : string) (body : Body) :
    prog (DockerReply + DockerReply) :=
  let* effective := effective_repo repo_name in
  let*! o := get_upload_session uuid else unknown_error in
  match o with
  | None => Ret (inl upload_not_found)
  | Some session =>
      if session_matches session repo_name effective image then
        let*! blobs := resolve_blob_store (us_store session) else unknown_error in
        let* final_chunk_id := call EUuid in
        match read_body body with
        | inl e => Ret (inl (docker_error "UNKNOWN" e 500))
        | inr final =>
            let*! chunk_blob_ids :=
              if decide (final = "") then Ret (Ok (us_chunk_blob_ids session))
              else
                let*? _ := blob blobs (BPut final_chunk_id final) in
                Ret (Ok (us_chunk_blob_ids session ++ [final_chunk_id])) else unknown_error in
            let size := u64_add (us_size session) (byte_size final) in
            let*^ data := assemble blobs chunk_blob_ids "" in
            let*! _ := blob blobs (BPut (us_blob_id session) data) else unknown_error in
            commit_upload session blobs chunk_blob_ids (location_prefix repo_name image) image expected_digest data size
        end
      else Ret (inl upload_not_found)
  end.

(** format/docker/src/api/uploads.rs:645-943 *)
Definition do_complete_upload (auth : B) (username repo_name : string) (image : option string) (uuid expected_digest : string)
    (body : Body) : prog (DockerReply * B) :=
  let* a := check_docker_permission auth username repo_name CapWrite in
  let '(r, auth) := a in
  match r with
  | inl reply => Ret (reply, auth)
  | inr _ => let* r := complete_upload repo_name image uuid expected_digest body in Ret (finished r, auth)
  end.

(** ** Manifests *)

(** format/docker/src/store.rs:39-39 *)
Definition DOCKER_MANIFEST_V2 : string := "application/vnd.docker.distribution.manifest.v2+json".
(** format/docker/src/store.rs:40-40 *)
Definition DOCKER_MANIFEST_LIST : string := "application/vnd.docker.distribution.manifest.list.v2+json".
(** format/docker/src/store.rs:41-41 *)
Definition OCI_MANIFEST_V1 : string := "application/vnd.oci.image.manifest.v1+json".
(** format/docker/src/store.rs:42-42 *)
Definition OCI_INDEX_V1 : string := "application/vnd.oci.image.index.v1+json".

(** format/docker/src/store.rs:53-58 *)
Definition MANIFEST_TYPES : list string :=
  [DOCKER_MANIFEST_V2; DOCKER_MANIFEST_LIST; OCI_MANIFEST_V1; OCI_INDEX_V1].

(** The manifest is a list, or the digests of its layers. *)
Inductive manifest_shape : Type :=
| ManifestList
| ImageManifest (layers : list (option string)).

(** The checks of the type and of the body. *)
(** format/docker/src/api/manifests.rs:619-678 *)
Definition check_manifest (content_type : string) (body : bytes) : DockerReply + manifest_shape :=
  if decide (content_type ∉ MANIFEST_TYPES) then
    inl (docker_error "MANIFEST_INVALID" ("unsupported manifest media type: " +:+ content_type) 400)
  else
    match from_utf8 body ≫= json_from_str with
    | None => inl (docker_error "MANIFEST_INVALID" "manifest is not valid JSON" 400)
    | Some manifest =>
        if decide (json_get manifest "schemaVersion" ≫= json_as_u64 ≠ Some 2%Z) then
          inl (docker_error "MANIFEST_INVALID" "schemaVersion must be 2" 400)
        else if decide (content_type = DOCKER_MANIFEST_LIST ∨ content_type = OCI_INDEX_V1) then
          match json_get manifest "manifests" ≫= json_as_array with
          | None => inl (docker_error "MANIFEST_INVALID" "manifest list must contain 'manifests' array" 400)
          | Some _ => inr ManifestList
          end
        else
          match json_get manifest "layers" ≫= json_as_array with
          | None => inl (docker_error "MANIFEST_INVALID" "manifest must contain 'layers' array" 400)
          | Some layers => inr (ImageManifest (json_digest <$> layers))
          end
    end.

(** Whether another member of the proxy has the layer. *)
(** format/docker/src/api/manifests.rs:724-753 *)
Fixpoint member_has_layer (members : list string) (target_repo : string) (image : option string) (d : string) : prog bool :=
  match members with
  | [] => Ret false
  | member_name :: members =>
      if decide (member_name = target_repo) then member_has_layer members target_repo image d
      else
        let* r := get_repo member_name in
        match r with
        | Ok (Some c) =>
            if decide (repo_format c = FDocker) then
              let* b := docker_blob_store c in
              match b with
              | inl _ => member_has_layer members target_repo image d
              | inr blobs =>
                  let* r := blob_exists (hosted_store member_name image blobs (rc_store c)) d in
                  match r with
                  | Ok (Some _) => Ret true
                  | _ => member_has_layer members target_repo image d
                  end
              end
            else member_has_layer members target_repo image d
        | _ => member_has_layer members target_repo image d
        end
  end.

(** Every layer must be in the target, or in another member of the proxy. *)
(** format/docker/src/api/manifests.rs:713-772 *)
Fixpoint check_layers (store : DockerStore) (proxy_members : list string) (layers : list (option string)) : prog (DockerReply + unit) :=
  match layers with
  | [] => Ret (inr tt)
  | None :: layers => check_layers store proxy_members layers
  | Some d :: layers =>
      let* r := blob_exists store d in
      match r with
      | Ok (Some _) => check_layers store proxy_members layers
      | Ok None =>
          let* found := member_has_layer proxy_members (ds_repo store) (ds_image store) d in
          if (found : bool) then check_layers store proxy_members layers
          else Ret (inl (docker_error "BLOB_UNKNOWN" ("referenced blob " +:+ d +:+ " not found in repository") 404))
      | Err e => Ret (inl (unknown_error e))
      end
  end.

(** What follows the permission check. *)
(** format/docker/src/api/manifests.rs:588-792 *)
Definition put_checked_manifest (repo_name : string) (image : option string) (reference : string) (body : bytes) :
    prog (DockerReply + DockerReply) :=
  let content_type := default OCI_MANIFEST_V1 (header_text (re_headers env) "content-type") in
  let*^ config := validate_docker_repo repo_name in
  let*^ target_repo := write_target_name config in
  let*^ shape := Ret (check_manifest content_type body) in
  let proxy_members := match rc_kind config with Proxy members _ => members | _ => [] end in
  let*^ target_config := load_target target_repo config in
  let*^ blobs := docker_blob_store target_config in
  let store := hosted_store target_repo image blobs (rc_store target_config) in
  let*^ _ := match shape with
             | ManifestList => Ret (inr tt)
             | ImageManifest layers => check_layers store proxy_members layers
             end in
  let*! digest := put_manifest store reference content_type body else unknown_error in
  Ret (inr (DCreated (location_prefix repo_name image +:+ "/manifests/" +:+ digest) digest)).

(** format/docker/src/api/manifests.rs:565-793 *)
Definition do_put_manifest (auth : B) (username repo_name : string) (image : option string) (reference : string) (body : bytes) :
    prog (DockerReply * B) :=
  let* a := check_docker_permission auth username repo_name CapWrite in
  let '(r, auth) := a in
  match r with
  | inl reply => Ret (reply, auth)
  | inr _ => let* r := put_checked_manifest repo_name image reference body in Ret (finished r, auth)
  end.

(** format/docker/src/api/manifests.rs:795-851 *)
Definition do_delete_manifest (auth : B) (username repo_name : string) (image : option string) (reference : string) :
    prog (DockerReply * B) :=
  let* a := check_docker_permission auth username repo_name CapDelete in
  let '(r, auth) := a in
  match r with
  | inl reply => Ret (reply, auth)
  | inr _ =>
      let* r :=
        let*^ config := validate_docker_repo repo_name in
        if decide (kind_repo_type (rc_kind config) = RTProxy) then
          Ret (inl (docker_error "UNSUPPORTED" "cannot delete from proxy repositories" 405))
        else if negb (is_digest reference) then
          Ret (inl (docker_error "UNSUPPORTED" "delete by tag not supported, use digest" 400))
        else
          let*^ blobs := docker_blob_store config in
          let*! deleted := delete_manifest (hosted_store repo_name image blobs (rc_store config)) reference else unknown_error in
          Ret (inr (if (deleted : bool) then DAccepted else docker_error "MANIFEST_UNKNOWN" "manifest not found" 404)) in
      Ret (finished r, auth)
  end.
End handlers.

(** ** Programs that touch no blob *)

Definition not_blob (e : eff) : Prop := match e with EBlob _ _ => False | _ => True end.

(** Such a program neither sees nor changes the blobs. *)
Lemma run_not_blob `{UuidGen} {A} (p : prog A) (B : gmap (string * string) bytes) (w : world kvmap) : issues not_blob p →
  run p (set_blobs B w) = ((run p w).1, set_blobs B (run p w).2).
Proof.
  revert w. induction p as [a|e k IH|]; intros w Hp; cbn [run]; [done| |done]. destruct Hp as [He Hk].
  destruct e as [o|store o|n| | |ev|]; cbn [handle]; try done.
  - cbn [w_kv set_blobs]. destruct (kv_step o (w_kv w)) as [r m']. exact (IH r (set_kv m' w) (Hk r)).
  - exact (IH _ w (Hk _)).
  - exact (IH _ w (Hk _)).
  - exact (IH _ (bump_uuid w) (Hk _)).
  - exact (IH tt (push_sent ev w) (Hk _)).
  - exact (IH _ w (Hk _)).
Qed.

Section not_blob.
Context `{Blake3} `{Serde ArtifactRecord} `{Serde TreeEntry} `{Serde BlobRecord} `{Serde UploadSessionRecord} `{Digests}.

Lemma put_artifact_not_blob repo path r : issues not_blob (put_artifact repo path r).
Proof.
  unfold put_artifact. case_decide; [done|]. generalize PUT_ARTIFACT_MAX_RETRIES. intros n.
  induction n as [|n IH]; [done|]. cbn [put_artifact_loop]. destruct (artifact_key repo path) as [ [t pk] sk].
  unfold typed_get_versioned, prepare_record, upsert_tree_file. issues_tac.
Qed.

Lemma put_dedup_not_blob store r : issues not_blob (put_dedup_record_counted store r).
Proof.
  unfold put_dedup_record_counted, put_dedup_record, store_changed, typed_get. issues_tac.
Qed.

Lemma commit_layer_not_blob store id digest hash size now uuid :
  issues not_blob (commit_layer store id digest hash size now (delete_upload_session uuid)).
Proof.
  unfold commit_layer. apply issues_bind_ok; [apply put_dedup_not_blob|]. intros e.
  apply issues_bind_ok; [apply put_artifact_not_blob|]. intros o. unfold delete_upload_session. issues_tac.
Qed.
End not_blob.

(** ** What a completed upload leaves behind *)

Section completed.
Context `{Blake3} `{Serde ArtifactRecord} `{Serde TreeEntry} `{Serde BlobRecord} `{Serde RepoConfig} `{Serde UploadSessionRecord} `{Digests} `{UuidGen}
  {ar_exact : SerdeExact ArtifactRecord} {br_exact : SerdeExact BlobRecord}.
Context (full : bool).
Implicit Types (w : world kvmap) (m : kvmap) (store : DockerStore) (s : UploadSessionRecord).

(** Deleting a session changes nothing else. *)
Lemma wp_delete_session uuid w : wp (delete_upload_session uuid) w (λ (res : result unit) w',
  w' = set_kv (delete (upload_session_key uuid) (w_kv w)) w).
Proof. by unfold wp. Qed.

(** The records of a layer that is in place, from the record on. *)
Lemma wp_layer_record store repos digest size bid data now uuid w :
  sound (ds_blobs store) (ds_store store) repos w → blob_at (ds_files store) data bid w →
  wp (let*? _ := put_artifact (ds_repo store) (blob_ref_path_for digest) (layer_record digest size bid (blake3_hex data) now) in
      delete_upload_session uuid) w (λ (res : result unit) w', w_blobs w' = w_blobs w ∧
    (is_ok res = true → sound (ds_blobs store) (ds_store store) repos w' ∧ w_kv w' !! upload_session_key uuid = None ∧
      file_at (ds_files store) (blob_ref_path_for digest) (layer_record digest size bid (blake3_hex data) now) data w')).
Proof using ar_exact.
  intros Hs (Hne & d & Hd & Hh). set (r := layer_record _ _ _ _ _). apply wp_bind_ok.
  pose proof (sound_artifact_put (ds_blobs store) (ds_store store) repos w (ds_repo store) (blob_ref_path_for digest) r
    (run (put_artifact (ds_repo store) (blob_ref_path_for digest) r) w).2 Hs) as Hs1.
  pose proof (wp_put_artifact (ds_files store) (blob_ref_path_for digest) r w) as Hput. unfold wp in *. cbn [ds_files fs_repo] in Hput.
  destruct (run (put_artifact (ds_repo store) (blob_ref_path_for digest) r) w) as [ [res|] w1]; [|done]. cbn [snd] in Hs1.
  destruct Hput as (_ & Hb & _ & Hr). destruct res as [old|e]; [|done].
  pose proof (wp_delete_session uuid w1) as Hdel. unfold wp in Hdel.
  destruct (run (delete_upload_session uuid) w1) as [ [res|] w2]; [|done]. subst w2. cbn [w_blobs set_kv w_kv]. split; [done|]. intros _.
  split; [|split].
  - apply (sound_frame _ _ _ w1); [done| |].
    + intros k Hk. cbn. apply lookup_delete_ne. intros <-. by destruct Hk.
    + apply Hs1; [|done]. intros id [= <-]. exists d. split; [done|]. cbn. by rewrite Hh.
  - apply lookup_delete_eq.
  - cbn [is_ok] in Hr. destruct Hr as (b & v & id & acc & Hm & Hv). split.
    + exists b, v, id, acc. split; [|done]. cbn. rewrite lookup_delete_ne by done. exact Hm.
    + exists bid, d. cbn [w_blobs set_kv]. rewrite Hb. by split_and!.
Qed.

(** The commit of a layer whose blob is written under a new id; the duplicate
    that the caller drops is dropped here. *)
Lemma wp_commit_layer store repos id digest data size now uuid w :
  sound (ds_blobs store) (ds_store store) repos w → new_id (ds_files store) w id →
  wp (commit_layer store id digest (blake3_hex data) size now (delete_upload_session uuid)) (add_blob (ds_files store) id data w)
    (λ (res : result (option string)) w', ∀ existing, res = Ok existing →
      let kept := match existing with Some _ => w_blobs w | None => <[(ds_blobs store, id) := data]> (w_blobs w) end in
      let fin := set_blobs kept w' in
      sound (ds_blobs store) (ds_store store) repos fin ∧ w_kv fin !! upload_session_key uuid = None ∧
      ∃ bid, file_at (ds_files store) (blob_ref_path_for digest) (layer_record digest size bid (blake3_hex data) now) data fin).
Proof using ar_exact br_exact.
  intros Hs (Hid & Hne0 & Hempty). set (files := ds_files store) in *. pose proof (sound_blob_added _ _ _ _ _ data Hid Hs) as Hs1.
  unfold commit_layer, put_dedup_record_counted. apply wp_bind_ok, wp_bind_ok.
  unfold wp at 1. rewrite run_put_dedup. cbn [br_hash blob_record add_blob w_kv set_blobs]. fold files.
  set (rec := br_in_store _ _). destruct (to_vec rec) as [e|b] eqn:Hb; [done|]. cbn [ds_store].
  destruct (w_kv w !! blob_key (ds_store store) (blake3_hex data)) as [ [b0 v0]|] eqn:Hm.
  - destruct (from_slice b0) as [e|old] eqn:He; [done|]. apply wp_bind, wp_ret, wp_ret. cbn [default].
    destruct (proj1 Hs _ _ _ _ Hm He) as (d & Hd & Hh).
    assert (blob_at files data (br_blob_id old) w) as Hat.
    { split; [|by exists d]. intros Heq. rewrite Heq in Hd. cbn in Hempty. congruence. }
    pose proof (wp_layer_record store repos digest size (br_blob_id old) data now uuid w Hs Hat) as Hrest.
    set (rest := let*? _ := put_artifact _ _ _ in delete_upload_session uuid) in Hrest.
    assert (issues not_blob rest) as Hnb.
    { apply issues_bind_ok; [apply put_artifact_not_blob|]. intros o. unfold delete_upload_session. issues_tac. }
    pose proof (run_not_blob rest (<[(ds_blobs store, id) := data]> (w_blobs w)) w Hnb) as Hrun.
    enough (wp rest (add_blob files id data w) (λ (res : result unit) w', is_ok res = true →
      let fin := set_blobs (w_blobs w) w' in sound (ds_blobs store) (ds_store store) repos fin ∧ w_kv fin !! upload_session_key uuid = None ∧
      ∃ bid, file_at files (blob_ref_path_for digest) (layer_record digest size bid (blake3_hex data) now) data fin)) as Hend.
    { unfold rest in Hend. unfold wp in *. rewrite run_bind_ok in Hend. rewrite run_bind_ok.
      destruct (run (put_artifact _ _ _) _) as [ [ [o|e]|] w1]; [|done|done]. cbv beta in Hend. rewrite run_bind_ok.
      destruct (run (delete_upload_session uuid) w1) as [ [ [ []|e]|] w2]; [|done|done]. intros existing [= <-]. by apply Hend. }
    unfold wp in Hrest |- *. cbn in Hrun. change (set_blobs (<[(ds_blobs store, id):=data]> (w_blobs w)) w) with (add_blob files id data w) in Hrun.
    rewrite Hrun. destruct (run rest w) as [ [res|] w2]; [|done]. cbn [fst snd]. intros Hok. cbn zeta.
    destruct Hrest as [Hbl Hrest]. destruct (Hrest Hok) as (Hs2 & Hk2 & Hf2).
    assert (set_blobs (w_blobs w) (set_blobs (<[(ds_blobs store, id):=data]> (w_blobs w)) w2) = w2) as -> by (rewrite <-Hbl; by destruct w2).
    split; [done|]. split; [done|]. by eexists.
  - apply wp_bind. eapply wp_intro; [done|]. apply wp_ret. cbn [default].
    set (w1 := push_sent _ _). set (rest := let*? _ := put_artifact _ _ _ in _).
    assert (sound (ds_blobs store) (ds_store store) repos w1) as Hw1.
    { apply (sound_frame _ _ _ (set_kv (<[blob_key (ds_store store) (br_hash rec) := (b, 1%Z)]> (w_kv w)) (add_blob files id data w))); [done|done|].
      apply (sound_dedup_added _ _ _ (add_blob files id data w) rec b data); [done..|]. cbn. by rewrite lookup_insert_eq. }
    assert (blob_at files data id w1) as Hat. { split; [done|]. exists data. cbn. by rewrite lookup_insert_eq. }
    pose proof (wp_layer_record store repos digest size id data now uuid w1 Hw1 Hat) as Hrest.
    enough (wp (let*? _ := put_artifact (ds_repo store) (blob_ref_path_for digest) (layer_record digest size id (blake3_hex data) now) in
        delete_upload_session uuid) w1 (λ (res : result unit) w', is_ok res = true → 
      let fin := set_blobs (<[(ds_blobs store, id) := data]> (w_blobs w)) w' in
      sound (ds_blobs store) (ds_store store) repos fin ∧ w_kv fin !! upload_session_key uuid = None ∧
      ∃ bid, file_at files (blob_ref_path_for digest) (layer_record digest size bid (blake3_hex data) now) data fin)) as Hend.
    { unfold rest. unfold wp in *. rewrite run_bind_ok in Hend. rewrite run_bind_ok.
      destruct (run (put_artifact _ _ _) _) as [ [ [o|e]|] w2]; [|done|done]. cbv beta in Hend. rewrite run_bind_ok.
      destruct (run (delete_upload_session uuid) w2) as [ [ [ []|e]|] w3]; [|done|done]. intros existing [= <-]. by apply Hend. }
    eapply wp_mono; [exact Hrest|]. intros res w' [Hbl Hr] Hok. destruct (Hr Hok) as (Hs2 & Hk2 & Hf2). cbn zeta.
    assert (set_blobs (<[(ds_blobs store, id):=data]> (w_blobs w)) w' = w') as ->.
    { change (<[(ds_blobs store, id):=data]> (w_blobs w)) with (w_blobs w1). rewrite <-Hbl. by destruct w'. }
    split; [done|]. split; [done|]. by eexists.
Qed.

(** What a client sees of a repository is a matter of the records and the
    blobs. *)
Lemma file_at_same self path r data w w' : w_kv w' = w_kv w → w_blobs w' = w_blobs w → file_at self path r data w → file_at self path r data w'.
Proof.
  intros Hk Hb [(b & v & id & acc & Hm & Hv) (bid & d & Hbid & Hne & Hd & Hh)]. split.
  - exists b, v, id, acc. by rewrite Hk.
  - exists bid, d. by rewrite Hb.
Qed.

Definition chunk_keys (blobs : string) (ids : list string) : list (string * string) := (λ id, (blobs, id)) <$> ids.

(** The store without the chunks of an upload. *)
Definition without_chunks (blobs : string) (ids : list string) w : world kvmap :=
  set_blobs (delete_blobs (chunk_keys blobs ids) (w_blobs w)) w.

Lemma delete_blobs_insert (l : list (string * string)) (k : string * string) (d : bytes) (b : gmap (string * string) bytes) : k ∉ l → delete_blobs l (<[k := d]> b) = <[k := d]> (delete_blobs l b).
Proof.
  intros Hk. apply map_eq. intros x. rewrite delete_blobs_lookup. destruct (decide (k = x)) as [<-|Hne].
  - by rewrite decide_False, !lookup_insert_eq.
  - by rewrite !lookup_insert_ne, delete_blobs_lookup.
Qed.

Lemma new_id_outside store ids id w : new_id (ds_files store) (without_chunks (ds_blobs store) ids w) id → id ∉ ids →
  w_blobs w !! (ds_blobs store, id) = None.
Proof.
  intros (Hf & _ & _) Hni. unfold fresh_id in Hf. cbn in Hf. rewrite delete_blobs_lookup in Hf.
  rewrite decide_False in Hf; [done|]. unfold chunk_keys. intros (x & [= <-] & Hx)%list_elem_of_fmap. done.
Qed.

(** The end of a completion: what is left is the layer, without the chunks. *)
Lemma wp_commit_upload session repos ids prefix image expected data size w :
  let blobs := us_store session in let bid := us_blob_id session in
  let store := mkDockerStore (us_repo session) match us_image session with Some i => Some i | None => image end blobs blobs true in
  sound blobs blobs repos (without_chunks blobs ids w) → new_id (ds_files store) (without_chunks blobs ids w) bid → bid ∉ ids →
  wp (commit_upload session blobs ids prefix image expected data size) (add_blob (ds_files store) bid data w) (λ res w',
    if decide (expected = sha256_digest data) then
      ∀ reply, res = inr reply → reply = DCreated (blob_location prefix expected) expected ∧
        sound blobs blobs repos w' ∧ w_kv w' !! upload_session_key (us_uuid session) = None ∧
        (∀ id, id ∈ ids → w_blobs w' !! (blobs, id) = None) ∧
        ∃ blob_id now, file_at (ds_files store) (blob_ref_path_for expected) (layer_record expected size blob_id (blake3_hex data) now) data w'
    else res = inl (docker_error "DIGEST_INVALID" ("expected " +:+ expected +:+ ", got " +:+ sha256_digest data) 400) ∧
      w_kv w' = w_kv w ∧ w_blobs w' = w_blobs w).
Proof using ar_exact br_exact.
  intros blobs bid store Hs Hnew Hni. unfold commit_upload. fold blobs bid store.
  pose proof (new_id_outside store ids bid w Hnew Hni) as Hfree. cbn [ds_blobs store] in Hfree.
  destruct (decide (expected = sha256_digest data)) as [->|Hne].
  2:{ rewrite decide_True by congruence. apply wp_bind. eapply wp_intro; [done|]. apply wp_ret. split; [done|]. cbn. split; [done|].
      by rewrite delete_insert_eq, delete_id. }
  rewrite decide_False by (intros Hx; by apply Hx). apply wp_bind. eapply wp_intro; [done|]. cbn [handle fst snd].
  set (w0 := without_chunks blobs ids w) in *. set (uuid := us_uuid session).
  pose proof (wp_commit_layer store repos bid (sha256_digest data) data size (w_now w) uuid w0 Hs Hnew) as Hcommit.
  pose proof (run_not_blob _ (<[(blobs, bid) := data]> (w_blobs w)) (add_blob (ds_files store) bid data w0)
    (commit_layer_not_blob store bid (sha256_digest data) (blake3_hex data) size (w_now w) uuid)) as Hrun.
  apply wp_bind. unfold wp at 1. unfold wp in Hcommit.
  assert (set_blobs (<[(blobs, bid) := data]> (w_blobs w)) (add_blob (ds_files store) bid data w0) = add_blob (ds_files store) bid data w) as Hsame
    by (by destruct w).
  rewrite Hsame in Hrun. cbn [add_blob w_now set_blobs]. rewrite Hrun.
  destruct (run (commit_layer _ _ _ _ _ _ _) (add_blob (ds_files store) bid data w0)) as [ [ [existing|e]|] w1]; cbn [fst snd]; [|by apply wp_ret|done].
  specialize (Hcommit existing eq_refl). cbn zeta in Hcommit.
  set (kept := match existing with Some _ => w_blobs w0 | None => _ end) in Hcommit. destruct Hcommit as (Hs1 & Hk1 & blob_id & Hf1).
  apply wp_bind. set (dropped := match existing with Some _ => w_blobs w | None => <[(blobs, bid) := data]> (w_blobs w) end).
  apply (wp_mono _ _ (λ _ w', w' = set_blobs dropped w1)).
  { unfold dropped. destruct existing; [|by apply wp_ret]. apply wp_bind. eapply wp_intro; [done|]. apply wp_ret. cbn.
    by rewrite delete_insert_eq, delete_id. }
  intros _ ? ->. apply wp_bind. unfold wp at 1. rewrite run_drop_blobs. cbn [w_blobs set_blobs].
  assert (delete_blobs ((λ id, (blobs, id)) <$> ids) dropped = kept) as Hkept.
  { unfold dropped, kept. destruct existing; [done|]. unfold w0, without_chunks. cbn [w_blobs set_blobs]. apply delete_blobs_insert.
    by intros (x & [= <-] & Hx)%list_elem_of_fmap. }
  apply wp_bind. eapply wp_intro; [done|]. apply wp_ret. intros reply [= <-]. split; [done|].
  assert (∀ A B, set_blobs A (set_blobs B w1) = set_blobs A w1) as Hset by done. rewrite Hkept, Hset.
  split; [by apply (sound_frame _ _ _ (set_blobs kept w1))|]. split; [done|]. split.
  - intros id Hin. cbn. rewrite <-Hkept, delete_blobs_lookup, decide_True; [done|]. apply list_elem_of_fmap. by exists id.
  - exists blob_id, (w_now w). by eapply file_at_same; [| |exact Hf1].
Qed.

Definition join_data (ds : list bytes) : bytes := foldr String.append "" ds.

Definition chunks_at (blobs : string) (ids : list string) (ds : list bytes) w : Prop :=
  Forall2 (λ id d, w_blobs w !! (blobs, id) = Some d) ids ds.

Lemma run_assemble blobs ids ds acc w : chunks_at blobs ids ds w → run (assemble blobs ids acc) w = (Some (inr (acc +:+ join_data ds)), w).
Proof.
  intros Hc. revert acc. induction Hc as [|id d ids ds Hd _ IH]; intros acc; cbn [assemble join_data foldr].
  - cbn. by rewrite str_app_nil_r.
  - rewrite run_bind. cbn [blob call run handle blob_step]. rewrite Hd. rewrite IH. cbn [join_data]. by rewrite str_app_assoc.
Qed.

Lemma chunks_app blobs ids id ds (d : bytes) w : chunks_at blobs ids ds w → w_blobs w !! (blobs, id) = None →
  chunks_at blobs (ids ++ [id]) (ds ++ [d]) (add_blob (mkFormatStore "" blobs "") id d w).
Proof.
  intros Hc Hid. apply Forall2_app; [|constructor; [by cbn; rewrite lookup_insert_eq|done] ].
  eapply Forall2_impl; [exact Hc|]. intros i x Hx. cbn. rewrite lookup_insert_ne; [done|]. intros [= ->]. congruence.
Qed.

Lemma join_data_snoc ds d : join_data (ds ++ [d]) = join_data ds +:+ d.
Proof. induction ds as [|x ds IH]; cbn; [by rewrite str_app_nil_r|]. unfold join_data in IH. rewrite IH. by rewrite str_app_assoc. Qed.

Lemma run_effective_repo repo_name w : ∃ e, run (effective_repo repo_name) w = (Some e, w).
Proof.
  unfold effective_repo, validate_docker_repo. rewrite run_bind, run_bind, run_bind_ok, run_get_repo.
  destruct (repo_of (w_kv w) repo_name) as [ [c|]|e]; cbn; [|by eexists|by destruct e; eexists].
  case_decide; cbn; [by eexists|]. destruct (rc_kind c); [by eexists..|]. rewrite run_bind.
  destruct (run_write_target FDocker c w) as (r & -> & _). destruct r as [ [? ?]|?]; by eexists.
Qed.

(** The session is stored, open for requests to its repository. *)
Definition session_at (uuid : string) s w : Prop :=
  us_uuid s = uuid ∧ ∃ (b : bytes) v, w_kv w !! upload_session_key uuid = Some (b, v) ∧ from_slice b = inr s.

Lemma run_get_session uuid s w : session_at uuid s w → run (get_upload_session uuid) w = (Some (Ok (Some s)), w).
Proof. intros (_ & b & v & Hm & Hv). unfold get_upload_session, upload_session_key in *. rewrite run_typed_get. unfold record_of. rewrite Hm. cbn. by rewrite Hv. Qed.

(** The chunks of a session, with what the last request adds. *)
Definition all_chunks s (fid : string) (final : bytes) : list string :=
  if decide (final = "") then us_chunk_blob_ids s else us_chunk_blob_ids s ++ [fid].

Definition last_chunk s (fid : string) (final : bytes) w : world kvmap :=
  if decide (final = "") then bump_uuid w else add_blob (mkFormatStore "" (us_store s) "") fid final (bump_uuid w).

(** A completion gathers the data, writes it under the blob id of the session
    and commits it. *)
Lemma wp_gather image uuid expected s body final ds w Q :
  let data := join_data ds +:+ final in let fid := new_v4 (w_uuids w) in
  read_body body = inr final → session_at uuid s w → us_store s ∈ w_stores w → chunks_at (us_store s) (us_chunk_blob_ids s) ds w →
  w_blobs w !! (us_store s, fid) = None →
  (∀ size, wp (commit_upload s (us_store s) (all_chunks s fid final) (location_prefix (us_repo s) image) image expected data size)
    (add_blob (mkFormatStore "" (us_store s) "") (us_blob_id s) data (last_chunk s fid final w)) Q) →
  wp (complete_upload (us_repo s) image uuid expected body) w Q.
Proof.
  intros data fid Hbody Hsess Hst Hchunks Hfree Hcommit. unfold complete_upload.
  destruct (run_effective_repo (us_repo s) w) as (e & He). apply wp_bind. eapply wp_intro; [exact He|].
  apply wp_bind. eapply wp_intro; [by apply run_get_session|].
  cbv beta iota. assert (session_matches s (us_repo s) e image = true) as ->.
  { unfold session_matches. destruct image; apply bool_decide_eq_true; by left. }
  apply wp_bind. eapply wp_intro; [rewrite run_resolve_blob_store, decide_True by done; done|]. cbv beta iota.
  apply wp_bind. eapply wp_intro; [done|]. cbv beta iota. rewrite Hbody. cbn [handle fst snd]. fold fid.
  apply wp_bind. apply (wp_mono _ _ (λ r w', r = Ok (all_chunks s fid final) ∧ w' = last_chunk s fid final w)).
  { unfold all_chunks, last_chunk. case_decide; [by apply wp_ret|]. apply wp_bind_ok. eapply wp_intro; [done|]. by apply wp_ret. }
  intros ? ? [-> ->]. cbv beta iota.
  assert (∃ ds', chunks_at (us_store s) (all_chunks s fid final) ds' (last_chunk s fid final w) ∧ join_data ds' = data) as (ds' & Hc' & Hj').
  { unfold all_chunks, last_chunk, data. case_decide as Hf.
    - exists ds. subst final. by rewrite str_app_nil_r.
    - exists (ds ++ [final]). split; [by apply chunks_app|apply join_data_snoc]. }
  apply wp_bind. eapply wp_intro; [by apply run_assemble|]. cbn [String.append]. rewrite Hj'. cbv beta iota.
  apply wp_bind. eapply wp_intro; [done|]. apply Hcommit.
Qed.

(** C12: A layer that is uploaded in chunks is what is pulled.  Take a session
    whose chunks are in its store, in a repository that is sound without them,
    and a final request with the rest of the data.  The blob id of the session
    is assumed to be its own: no blob and no record has it yet (for a session
    that is completed a second time this fails, and the layer is lost), and the
    id that is drawn for the last chunk is new.  If the digest of the request is
    not that of the chunks and the rest together, the upload is refused, no
    record changes, and of the blobs only the last chunk is added.  Otherwise
    the request ends; if it succeeds, the repository is sound, the session and
    its chunks are gone, and a pull of the digest returns contents with the
    hash of what was uploaded. *)
Theorem completed_upload_served (image : option string) (uuid expected : string) (session : UploadSessionRecord) (body : Body)
    (final : bytes) (ds : list bytes) (repos : gset string) (w : world kvmap) :
  let blobs := us_store session in let repo := us_repo session in
  let store := mkDockerStore repo match us_image session with Some i => Some i | None => image end blobs blobs true in
  let data := join_data ds +:+ final in
  read_body body = inr final → session_at uuid session w → blobs ∈ w_stores w →
  chunks_at blobs (us_chunk_blob_ids session) ds w →
  sound blobs blobs repos (without_chunks blobs (us_chunk_blob_ids session) w) →
  new_id (ds_files store) (without_chunks blobs (us_chunk_blob_ids session) w) (us_blob_id session) →
  us_blob_id session ∉ new_v4 (w_uuids w) :: us_chunk_blob_ids session → w_blobs w !! (blobs, new_v4 (w_uuids w)) = None →
  ∃ res w', run (complete_upload repo image uuid expected body) w = (Some res, w') ∧
    if decide (expected = sha256_digest data) then
      ∀ reply, res = inr reply → reply = DCreated (blob_location (location_prefix repo image) expected) expected ∧
        sound blobs blobs repos w' ∧ w_kv w' !! upload_session_key uuid = None ∧
        (∀ id, id ∈ us_chunk_blob_ids session → w_blobs w' !! (blobs, id) = None) ∧
        ∃ (d : bytes) size w'', run (get_blob full store expected) w' = (Some (Ok (Some (d, size))), w'') ∧
          same_store w' w'' ∧ blake3_hex d = blake3_hex data
    else res = inl (docker_error "DIGEST_INVALID" ("expected " +:+ expected +:+ ", got " +:+ sha256_digest data) 400) ∧
      w_kv w' = w_kv w ∧
      w_blobs w' = if decide (final = "") then w_blobs w else <[(blobs, new_v4 (w_uuids w)) := final]> (w_blobs w).
Proof using ar_exact br_exact.
  intros blobs repo store data Hbody Hsess Hst Hchunks Hs Hnew Hni Hfree. apply wp_run.
  apply (wp_gather image uuid expected session body final ds w); [done..|]. intros size. fold blobs repo data.
  set (fid := new_v4 (w_uuids w)) in *. set (ids := all_chunks session fid final). set (w1 := last_chunk session fid final w).
  assert (us_blob_id session ∉ ids) as Hni'.
  { apply not_elem_of_cons in Hni as [Hne Hni]. unfold ids, all_chunks. case_decide; [done|]. rewrite elem_of_app. intros [?|?%list_elem_of_singleton]; done. }
  assert (w_blobs (without_chunks blobs ids w1) = w_blobs (without_chunks blobs (us_chunk_blob_ids session) w)) as Hwithout.
  { unfold ids, w1, all_chunks, last_chunk. case_decide; [done|]. unfold without_chunks, chunk_keys. cbn [w_blobs set_blobs add_blob bump_uuid fs_blobs]. fold blobs.
    apply map_eq. intros k. rewrite !delete_blobs_lookup, fmap_app. destruct (decide (k = (blobs, fid))) as [->|Hne].
    - rewrite decide_True; [by case_decide; rewrite ?Hfree|]. apply elem_of_app. right. by left.
    - rewrite lookup_insert_ne by congruence. apply decide_ext. rewrite elem_of_app. cbn. rewrite elem_of_cons, elem_of_nil. tauto. }
  assert (w_kv w1 = w_kv w) as Hk1 by (unfold w1, last_chunk; by case_decide).
  eapply wp_mono; [apply (wp_commit_upload session repos ids (location_prefix repo image) image expected data _ w1)|].
  - by apply (sound_frame _ _ _ (without_chunks blobs (us_chunk_blob_ids session) w)); [|intros; cbn; by rewrite Hk1|].
  - destruct Hnew as (Hf & Hne & Hem). unfold new_id, fresh_id. cbn [fs_blobs ds_files ds_blobs store] in *. fold blobs. by rewrite Hwithout.
  - done.
  - intros res w'. destruct Hsess as [Huuid _]. fold repo. case_decide as Hexp.
    + intros Hr reply ->. destruct (Hr reply eq_refl) as (-> & Hs' & Hk' & Hb' & bid & now & Hf). rewrite Huuid in Hk'. split; [done|].
      split; [done|]. split; [done|]. split.
      * intros id Hid. apply Hb'. unfold ids, all_chunks. case_decide; [done|]. apply elem_of_app. by left.
      * pose proof (layer_pulled full store expected _ data w' Hf) as Hwp. apply wp_run in Hwp as (r' & w'' & Hrun & Hsame & d & -> & Hd).
        exists d. eexists _, w''. split; [exact Hrun|]. by split.
    + intros (-> & Hkv & Hbl). split; [done|]. rewrite Hkv, Hbl, Hk1. split; [done|]. unfold w1, last_chunk. by case_decide.
Qed.

(** *** Two completions of one session *)

(** The hash is recorded with the blob of the session, as it is when another
    completion has come that far. *)
Definition recorded_by s (data : bytes) w : Prop :=
  ∃ (b : bytes) v old, w_kv w !! blob_key (us_store s) (blake3_hex data) = Some (b, v) ∧ from_slice b = inr old ∧ br_blob_id old = us_blob_id s.

Lemma wp_commit_again s ids prefix image data size w :
  let store := mkDockerStore (us_repo s) match us_image s with Some i => Some i | None => image end (us_store s) (us_store s) true in
  recorded_by s data w →
  wp (commit_upload s (us_store s) ids prefix image (sha256_digest data) data size) w (λ res w', ∀ reply, res = inr reply →
    reply = DCreated (blob_location prefix (sha256_digest data)) (sha256_digest data) ∧
    broken_layer store (sha256_digest data) (blake3_hex data) (us_blob_id s) w').
Proof using ar_exact.
  intros store (b & v & old & Hm & Hv & Hold). unfold commit_upload. rewrite decide_False by (intros Hx; by apply Hx). fold store.
  apply wp_bind. eapply wp_intro; [done|]. cbn [handle fst snd]. apply wp_bind. unfold commit_layer, put_dedup_record_counted.
  apply wp_bind_ok, wp_bind_ok. unfold wp at 1. rewrite run_put_dedup. cbn [br_hash blob_record ds_store store].
  destruct (to_vec _) as [e|b']; [by apply wp_ret|]. rewrite Hm, Hv. apply wp_bind, wp_ret, wp_ret. rewrite Hold. cbn [default].
  apply wp_bind_ok. eapply wp_mono; [apply (wp_put_artifact (ds_files store))|]. intros res w1 (_ & Hb1 & Hk1 & Hr1).
  destruct res as [o|e]; [|by apply wp_ret]. cbn [is_ok] in Hr1. apply wp_bind_ok. eapply wp_mono; [apply wp_delete_session|].
  intros res w2 ->. destruct res as [ []|e]; [|by apply wp_ret]. apply wp_ret. cbv beta iota.
  apply wp_bind, wp_bind. eapply wp_intro; [done|]. apply wp_ret. apply wp_bind. unfold wp at 1. rewrite run_drop_blobs.
  apply wp_bind. eapply wp_intro; [done|]. apply wp_ret. intros reply [= <-]. split; [done|].
  cbn [push_sent w_kv w_blobs set_blobs set_kv ds_repo ds_store ds_blobs store handle fst snd blob_step]. split; [|split].
  - destruct Hr1 as (b1 & v1 & id & acc & Hm1 & Hv1). exists b1, v1. eexists. split; [|split; [exact Hv1|done] ].
    cbn. rewrite lookup_delete_ne by done. exact Hm1.
  - exists b, v, old. split; [|done]. cbn. rewrite lookup_delete_ne by done. by rewrite Hk1.
  - cbn. rewrite delete_blobs_lookup. case_decide; [done|]. by rewrite lookup_delete_eq.
Qed.

(** C14: A session that is completed twice loses its layer.  When the hash of the
    data is recorded already with the blob of the session itself, as it is
    after another completion of the session has recorded it and before that one has
    removed the session, a completion writes the blob again, takes it for a duplicate of
    itself and deletes it: if it succeeds, the client is told that the layer
    is there, and a pull finds its blob missing. *)
Theorem second_completion_loses_layer (image : option string) (uuid : string) (session : UploadSessionRecord) (body : Body)
    (final : bytes) (ds : list bytes) (w : world kvmap) :
  let blobs := us_store session in let repo := us_repo session in
  let store := mkDockerStore repo match us_image session with Some i => Some i | None => image end blobs blobs true in
  let data := join_data ds +:+ final in let digest := sha256_digest data in
  read_body body = inr final → session_at uuid session w → blobs ∈ w_stores w →
  chunks_at blobs (us_chunk_blob_ids session) ds w → w_blobs w !! (blobs, new_v4 (w_uuids w)) = None →
  recorded_by session data w →
  ∃ res w', run (complete_upload repo image uuid digest body) w = (Some res, w') ∧
    ∀ reply, res = inr reply → reply = DCreated (blob_location (location_prefix repo image) digest) digest ∧
      ∃ w'', run (get_blob full store digest) w' =
        (Some (Err (DataIntegrity ("blob missing for blob_id " +:+ us_blob_id session))), w'').
Proof using ar_exact br_exact.
  intros blobs repo store data digest Hbody Hsess Hst Hchunks Hfree Hrec. apply wp_run.
  apply (wp_gather image uuid digest session body final ds w); [done..|]. intros size.
  eapply wp_mono; [apply wp_commit_again|].
  { destruct Hrec as (b & v & old & Hm & Hrec). exists b, v, old. split; [|done]. unfold last_chunk. by case_decide. }
  intros res w' Hr reply Hrep. destruct (Hr reply Hrep) as [-> Hbroken]. split; [done|].
  pose proof (broken_pull full store _ _ _ _ Hbroken) as Hwp. apply wp_run in Hwp as (r & w'' & Hrun & _ & ->). by exists w''.
Qed.
End completed.

(** ** Witnesses *)

Definition toy_upload : UploadSessionRecord := mkUploadSessionRecord "u" "r" (Some "img") "bid" "s" 3 ["c1"] 0%Z 0%Z.
Definition toy_upload_blobs : list BlobRecord := let _ := toy_blake3 in [blob_record toy_files "bid" (blake3_hex "abcde") 5 0%Z].

Definition toy_uploading (recorded : bool) : world kvmap :=
  let _ := toy_blake3 in
  let kv := {[upload_session_key "u" := ("0", 1%Z)]} in
  mkWorld (if recorded then <[blob_key "s" (blake3_hex "abcde") := ("0", 1%Z)]> kv else kv) {[("s", "c1") := "abc"]} {["s"]} 0%Z 0 [] false.

Definition toy_upload_layer : ArtifactRecord :=
  let _ := toy_blake3 in
  ar_prepared (layer_record (toy_sha "abcde") 5 "bid" (blake3_hex "abcde") 0%Z) "uuid-1" 0%Z (blob_ref_path_for (toy_sha "abcde")).

Definition toy_upload_store : DockerStore := mkDockerStore "r" (Some "img") "s" "s" true.

Lemma completed_upload_served_witness :
  let _ := toy_blake3 in let _ := table_serde [toy_upload_layer] in let _ := toy_te_serde in let _ := table_serde toy_upload_blobs in
  let _ := toy_files_serde in let _ := table_serde [toy_upload] in let _ := toy_digests in let _ := toy_uuid in
  ∃ w', run (complete_upload "r" None "u" (toy_sha "abcde") [inr "d"; inr "e"]) (toy_uploading false) =
      (Some (inr (DCreated ("/v2/r/blobs/" +:+ toy_sha "abcde") (toy_sha "abcde"))), w') ∧
    ∃ (d : bytes) size w'', run (get_blob false toy_upload_store (toy_sha "abcde")) w' = (Some (Ok (Some (d, size))), w'') ∧
      same_store w' w'' ∧ blake3_hex d = blake3_hex "abcde".
Proof.
  intros ? ? ? ? ? ? ? ?.
  destruct (@completed_upload_served toy_blake3 (table_serde [toy_upload_layer]) toy_te_serde (table_serde toy_upload_blobs) toy_files_serde
    (table_serde [toy_upload]) toy_digests toy_uuid (table_serde_exact _) (table_serde_exact _) false None "u" (toy_sha "abcde") toy_upload
    [inr "d"; inr "e"] "de" ["abc"] {["r"]} (toy_uploading false)) as (res & w' & Hrun & Hres).
  - reflexivity.
  - split; [reflexivity|]. exists "0", 1%Z. split; reflexivity.
  - by_decide.
  - repeat constructor.
  - split.
    + intros hash b v r Hk. cbn in Hk. apply lookup_singleton_Some in Hk as [Hkey _]. discriminate Hkey.
    + intros repo path b v r id _ Hk. cbn in Hk. apply lookup_singleton_Some in Hk as [Hkey _]. discriminate Hkey.
  - split_and!; [reflexivity|by_decide|reflexivity].
  - by_decide.
  - reflexivity.
  - rewrite decide_True in Hres by reflexivity.
    pose proof (f_equal (λ x, match x.1 with Some (inr _) => true | _ => false end) Hrun) as Hok. vm_compute in Hok.
    destruct res as [r|reply]; [discriminate Hok|]. destruct (Hres reply eq_refl) as (-> & _ & _ & _ & Hpull).
    exists w'. split; [exact Hrun|exact Hpull].
Defined.

Lemma second_completion_loses_layer_witness :
  let _ := toy_blake3 in let _ := table_serde [toy_upload_layer] in let _ := toy_te_serde in let _ := table_serde toy_upload_blobs in
  let _ := toy_files_serde in let _ := table_serde [toy_upload] in let _ := toy_digests in let _ := toy_uuid in
  ∃ reply w' w'', run (complete_upload "r" None "u" (toy_sha "abcde") [inr "de"]) (toy_uploading true) = (Some (inr reply), w') ∧
    run (get_blob false toy_upload_store (toy_sha "abcde")) w' = (Some (Err (DataIntegrity "blob missing for blob_id bid")), w'').
Proof.
  intros ? ? ? ? ? ? ? ?.
  destruct (@second_completion_loses_layer toy_blake3 (table_serde [toy_upload_layer]) toy_te_serde (table_serde toy_upload_blobs) toy_files_serde
    (table_serde [toy_upload]) toy_digests toy_uuid (table_serde_exact _) (table_serde_exact _) false None "u" toy_upload
    [inr "de"] "de" ["abc"] (toy_uploading true)) as (res & w' & Hrun & Hres).
  - reflexivity.
  - split; [reflexivity|]. exists "0", 1%Z. split; reflexivity.
  - by_decide.
  - repeat constructor.
  - reflexivity.
  - exists "0", 1%Z. eexists. split; [reflexivity|]. split; reflexivity.
  - pose proof (f_equal (λ x, match x.1 with Some (inr _) => true | _ => false end) Hrun) as Hok. vm_compute in Hok.
    destruct res as [r|reply]; [discriminate Hok|]. destruct (Hres reply eq_refl) as (_ & w'' & Hpull).
    exists reply, w', w''. split; [exact Hrun|exact Hpull].
Defined.

(** The state arises: a client whose request takes long tries again, and both
    completions are told that the layer is there. *)
Example two_completions_race :
  let _ := toy_blake3 in let _ := table_serde [toy_upload_layer; ar_prepared (layer_record (toy_sha "abc") 3 "bid" (blake3_hex "abc") 0%Z) "uuid-2" 0%Z
    (blob_ref_path_for (toy_sha "abc")); ar_prepared (layer_record (toy_sha "abc") 3 "bid" (blake3_hex "abc") 0%Z) "uuid-3" 0%Z
    (blob_ref_path_for (toy_sha "abc"))] in
  let _ := toy_te_serde in let _ := table_serde [blob_record toy_files "bid" (blake3_hex "abc") 3 0%Z] in
  let _ := toy_files_serde in let _ := table_serde [toy_upload] in let _ := toy_digests in let _ := toy_uuid in
  let request := complete_upload "r" None "u" (toy_sha "abc") [] in
  let c := pool_run (replicate 6 0 ++ replicate 6 1 ++ replicate 9 0 ++ replicate 20 1 ++ replicate 20 0) ([request; request], toy_uploading false) in
  omap (λ p : prog (DockerReply + DockerReply), match p with Ret (inr (DCreated l d)) => Some (l, d) | _ => None end) c.1 = 
    [("/v2/r/blobs/" +:+ toy_sha "abc", toy_sha "abc"); ("/v2/r/blobs/" +:+ toy_sha "abc", toy_sha "abc")] ∧
  w_blobs c.2 !! ("s", "bid") = None ∧
  is_Some (w_kv c.2 !! artifact_key "r" (blob_ref_path_for (toy_sha "abc"))).
Proof. intros. vm_compute. split; [reflexivity|]. split; [reflexivity|]. by eexists. Qed.
