(* ===== verification/Promote.v ===== *)
(** * Copying an image between repositories (format/docker/src/promote.rs)

    A tag is copied with the manifests it reaches and the layers these name,
    and removed from the source if it is to be moved.  Between repositories on
    one blob store only records are copied; otherwise the contents as well.
    The theorems say that a copy is complete, and what a move of a tag onto
    itself does. *)

From S2P Require Import Prelude Bytes Text Errors Keys Records Kv Prog Wp Effects Scan Pagination Update Artifact Blob Repo Directory Ingest BulkDelete TreeRebuild.
From S2P Require Import BloomFilter UpdateWorker Batches Check CheckScan DockerGc Cache Package Docker.

(** format/docker/src/promote.rs:40-46 *)
Record PromoteOutcome : Type := mkPromoteOutcome {
  po_digest : string;
  po_copied_records : Z;
}.

(** format/docker/src/promote.rs:55-64 *)
Record CopyTarget : Type := mkCopyTarget {
  ct_source_repo : string;
  ct_source_store : string;
  ct_source_blobs : string;
  ct_dest_repo : string;
  ct_dest_store : string;
  ct_dest_blobs : string;
}.

(** format/docker/src/promote.rs:68-70 *)
Definition same_blob_store (t : CopyTarget) : bool := bool_decide (ct_source_store t = ct_dest_store t).

(** format/docker/src/promote.rs:299-304 *)
Definition delta (new_size : Z) (old_size : option Z) : Z * Z :=
  match old_size with
  | Some old => (0%Z, i64_add (i64_wrap new_size) (i64_neg (i64_wrap old)))
  | None => (1%Z, i64_wrap new_size)
  end.

Section promote.
Context `{Blake3} `{Serde ArtifactRecord} `{Serde TreeEntry} `{Serde BlobRecord} `{SerdeJson}.

(** *** Manifests *)

(** [parsed.get(key)?.as_array()]: the digests that the objects of the array have. *)
Definition digests_of (parsed : json_value) (key : string) : option (list string) :=
  match json_get parsed key ≫= json_as_array with
  | Some l => Some (omap json_digest l)
  | None => None
  end.

(** The children of a manifest list, or the layers of a manifest. *)
(** format/docker/src/promote.rs:331-361 *)
Definition classify_manifest (json : bytes) : list string * list string :=
  match from_utf8 json ≫= json_from_str with
  | None => ([], [])
  | Some parsed =>
      match digests_of parsed "manifests" with
      | Some children => (children, [])
      | None =>
          ([], match json_get parsed "config" ≫= json_digest with Some digest => [digest] | None => [] end
               ++ default [] (digests_of parsed "layers"))
      end
  end.

(** format/docker/src/promote.rs:308-323 *)
Definition read_manifest_json (blobs repo manifest_path : string) : prog (result (option bytes)) :=
  let*? o := get_artifact repo manifest_path in
  match o with
  | None => Ret (Ok None)
  | Some rec =>
      match ar_blob_id rec with
      | Some blob_id => if decide (blob_id = "") then Ret (Ok None) else blob blobs (BGet blob_id)
      | None => Ret (Ok None)
      end
  end.

(** The manifests that the stack reaches, in the order in which they are read,
    and the layers they name. *)
(** format/docker/src/promote.rs:222-252 *)
Fixpoint closure (fuel : nat) (t : CopyTarget) (image : option string) (tag : string) (stack : list string) (seen : gset string)
    (manifest_digests : list string) (blob_digests : gset string) : prog (result (list string * gset string)) :=
  match fuel with
  | O => Spin
  | S fuel =>
      match stack with
      | [] => Ret (Ok (manifest_digests, blob_digests))
      | digest :: stack =>
          if decide (digest ∈ seen) then closure fuel t image tag stack seen manifest_digests blob_digests
          else
            let*? o := read_manifest_json (ct_source_blobs t) (ct_source_repo t) (manifest_path_for image digest) in
            match o with
            | None =>
                Ret (Err (DataIntegrity ("manifest '" +:+ digest +:+ "' referenced by tag '" +:+ tag +:+ "' is missing in '" +:+
                  ct_source_repo t +:+ "'")))
            | Some json =>
                closure fuel t image tag (reverse (classify_manifest json).1 ++ stack) ({[digest]} ∪ seen)
                  (manifest_digests ++ [digest]) (list_to_set (classify_manifest json).2 ∪ blob_digests)
            end
      end
  end.

(** *** Records *)

(** The record with its blob in the other store, and the bytes that are new
    there. *)
(** format/docker/src/promote.rs:111-151 *)
Definition rehome_blob (t : CopyTarget) (rec : ArtifactRecord) : prog (result (ArtifactRecord * Z)) :=
  let blob_id := default "" (ar_blob_id rec) in
  if decide (blob_id = "") then Ret (Ok (rec, 0%Z))
  else
    let*? o := blob (ct_source_blobs t) (BGet blob_id) in
    match o with
    | None => Ret (Err (DataIntegrity ("blob " +:+ blob_id +:+ " missing in source store '" +:+ ct_source_store t +:+ "'")))
    | Some data =>
        let hash := default (blake3_hex data) (ar_content_hash rec) in
        let* new_blob_id := call EUuid in
        let*? _ := blob (ct_dest_blobs t) (BPut new_blob_id data) in
        let* now := call ENow in
        let blob_rec := mkBlobRecord CURRENT_RECORD_VERSION new_blob_id hash (byte_size data) now (ct_dest_store t) in
        let*? existing := put_dedup_record (ct_dest_store t) blob_rec in
        let* x :=
          match existing with
          | Some existing_id => let* _ := blob (ct_dest_blobs t) (BDelete new_blob_id) in Ret (existing_id, 0%Z)
          | None => Ret (new_blob_id, byte_size data)
          end in
        let '(effective, added) := x in
        Ret (Ok (mkArtifactRecord (ar_schema_version rec) (ar_id rec) (ar_size rec) (ar_content_type rec) (ar_created_at rec)
          (ar_updated_at rec) (ar_last_accessed_at rec) (ar_path rec) (ar_kind rec) (ar_internal rec) (Some effective)
          (ar_content_hash rec) (ar_etag rec), added))
    end.

(** format/docker/src/promote.rs:75-103 *)
Definition copy_record (t : CopyTarget) (path : string) : prog (result Z) :=
  let*? o := get_artifact (ct_source_repo t) path in
  match o with
  | None => Ret (Ok 0%Z)
  | Some rec =>
      let*? x := if same_blob_store t then Ret (Ok (rec, 0%Z)) else rehome_blob t rec in
      let '(dest_rec, store_bytes_added) := x in
      let*? old := put_artifact (ct_dest_repo t) path dest_rec in
      let '(cd, bd) := delta (ar_size dest_rec) (ar_size <$> old) in
      let* _ := dir_changed (ct_dest_repo t) path cd bd in
      let* _ := if decide (store_bytes_added > 0)%Z then store_changed (ct_dest_store t) 1 (i64_wrap store_bytes_added) else Ret tt in
      Ret (Ok 1%Z)
  end.

Fixpoint copy_records (t : CopyTarget) (paths : list string) (copied : Z) : prog (result Z) :=
  match paths with
  | [] => Ret (Ok copied)
  | path :: paths =>
      let*? n := copy_record t path in
      copy_records t paths (u64_add copied n)
  end.

(** format/docker/src/promote.rs:275-295 *)
Definition delete_tag (repo : string) (image : option string) (tag : string) : prog (result bool) :=
  let tag_path := tag_path_for image tag in
  let*? o := delete_artifact repo tag_path in
  match o with
  | Some old =>
      let* _ := dir_changed repo tag_path (-1) (i64_neg (i64_wrap (ar_size old))) in
      Ret (Ok true)
  | None => Ret (Ok false)
  end.

(** The walk and the copies: the layers and manifests first, then the tag. *)
(** format/docker/src/promote.rs:219-270 *)
Definition copy_image (fuel : nat) (t : CopyTarget) (image : option string) (tag root_digest : string) (delete_source : bool) :
    prog (result PromoteOutcome) :=
  let*? found := closure fuel t image tag [root_digest] ∅ [] ∅ in
  let '(manifest_digests, blob_digests) := found in
  let*? copied := copy_records t ((blob_ref_path_for <$> sorted_vec blob_digests) ++
    (manifest_path_for image <$> manifest_digests) ++ [tag_path_for image tag]) 0 in
  let*? _ := if delete_source then let*? _ := delete_tag (ct_source_repo t) image tag in Ret (Ok tt) else Ret (Ok tt) in
  Ret (Ok (mkPromoteOutcome root_digest copied)).

(** format/docker/src/promote.rs:176-268 *)
Definition copy_tag (fuel : nat) (t : CopyTarget) (image : option string) (tag : string) (delete_source overwrite : bool) :
    prog (result PromoteOutcome) :=
  let tag_path := tag_path_for image tag in
  let*? o := get_artifact (ct_source_repo t) tag_path in
  match o with
  | None => Ret (Err (NotFound ("tag '" +:+ tag +:+ "' not found in repository '" +:+ ct_source_repo t +:+ "'")))
  | Some tag_rec =>
      match ar_kind tag_rec with
      | KDockerTag root_digest _ =>
          let*? there := if overwrite then Ret (Ok None) else get_artifact (ct_dest_repo t) tag_path in
          match there with
          | Some _ =>
              Ret (Err (Conflict ("tag '" +:+ tag +:+ "' already exists in repository '" +:+ ct_dest_repo t +:+ "' (set overwrite to replace)")))
          | None =>
              copy_image fuel t image tag root_digest delete_source
          end
      | _ => Ret (Err (DataIntegrity ("record at '" +:+ tag_path +:+ "' in '" +:+ ct_source_repo t +:+ "' is not a Docker tag")))
      end
  end.
End promote.

(** ** A copy is complete *)

Section copied.
Context `{Blake3} `{Serde ArtifactRecord} `{Serde TreeEntry} `{Serde BlobRecord} `{SerdeJson} `{UuidGen}
  {ar_exact : SerdeExact ArtifactRecord}.
Context (t : CopyTarget) (image : option string).
Implicit Types (w : world kvmap) (m : kvmap).

Local Abbreviation source_key path := (artifact_key (ct_source_repo t) path).
Local Abbreviation dest_key path := (artifact_key (ct_dest_repo t) path).

(** The manifest with the digest, in the source. *)
Definition reads w (digest : string) (json : bytes) : Prop :=
  ∃ (b : bytes) v r id, w_kv w !! source_key (manifest_path_for image digest) = Some (b, v) ∧ from_slice b = inr r ∧
    ar_blob_id r = Some id ∧ id ≠ "" ∧ w_blobs w !! (ct_source_blobs t, id) = Some json.

(** The manifests of an image. *)
Inductive reaches w (root : string) : string → Prop :=
| reaches_root : reaches w root root
| reaches_child d json c : reaches w root d → reads w d json → c ∈ (classify_manifest json).1 → reaches w root c.

(** What the walk has gathered. *)
Record gathered w (seen : gset string) (stack manifests : list string) (blobs : gset string) : Prop := {
  ga_manifests : ∀ d, d ∈ seen ↔ d ∈ manifests;
  ga_children : ∀ d json c, d ∈ seen → reads w d json → c ∈ (classify_manifest json).1 → c ∈ seen ∨ c ∈ stack;
  ga_blobs : ∀ d json l, d ∈ seen → reads w d json → l ∈ (classify_manifest json).2 → l ∈ blobs;
}.

Lemma reads_fun w d json json' : reads w d json → reads w d json' → json = json'.
Proof. intros (b & v & r & id & Hm & Hr & Hi & _ & Hb) (b' & v' & r' & id' & Hm' & Hr' & Hi' & _ & Hb'). simplify_eq. congruence. Qed.

Lemma run_read_copied_manifest w digest :
  ∃ res, run (read_manifest_json (ct_source_blobs t) (ct_source_repo t) (manifest_path_for image digest)) w = (Some res, w) ∧
    ∀ json, res = Ok (Some json) → reads w digest json.
Proof.
  unfold read_manifest_json. rewrite run_bind_ok, run_get_artifact. unfold old_of.
  destruct (w_kv w !! source_key (manifest_path_for image digest)) as [ [b v]|] eqn:Hm; [|by eexists].
  destruct (from_slice b) as [e|r] eqn:Hr; [by eexists|]. destruct (ar_blob_id r) as [id|] eqn:Hi; [|by eexists].
  case_decide as Hne; [by eexists|]. eexists. split; [done|]. cbn. intros json [= Hj]. by exists b, v, r, id.
Qed.

Lemma run_closure_step w digest stack seen manifests blobs tag (P : result (list string * gset string) → Prop) :
  digest ∉ seen → (∀ e, P (Err e)) →
  (∀ json, reads w digest json → ∃ N, ∀ fuel, N ≤ fuel → ∃ res,
    run (closure fuel t image tag (reverse (classify_manifest json).1 ++ stack) ({[digest]} ∪ seen) (manifests ++ [digest])
      (list_to_set (classify_manifest json).2 ∪ blobs)) w = (Some res, w) ∧ P res) →
  ∃ N, ∀ fuel, N ≤ fuel → ∃ res, run (closure fuel t image tag (digest :: stack) seen manifests blobs) w = (Some res, w) ∧ P res.
Proof.
  intros Hd Herr Hok. destruct (run_read_copied_manifest w digest) as (r & Hr & Hreads).
  destruct r as [ [json|]|e].
  - destruct (Hok json (Hreads json eq_refl)) as (N & HN). exists (S N). intros [|fuel] Hf; [lia|]. cbn [closure].
    rewrite decide_False, run_bind_ok, Hr by done. apply HN. lia.
  - exists 1. intros [|fuel] Hf; [lia|]. cbn [closure]. rewrite decide_False, run_bind_ok, Hr by done. by eexists.
  - exists 1. intros [|fuel] Hf; [lia|]. cbn [closure]. rewrite decide_False, run_bind_ok, Hr by done. by eexists.
Qed.

(** All digests that a manifest in the source can name. *)
Definition named w : gset string :=
  list_to_set (concat ((λ x : string * string * bytes, (classify_manifest x.2).1) <$> map_to_list (w_blobs w))).

Lemma reads_named w d json c : reads w d json → c ∈ (classify_manifest json).1 → c ∈ named w.
Proof.
  intros (b & v & r & id & _ & _ & _ & _ & Hb) Hc. apply elem_of_list_to_set, list_elem_of_In, in_concat.
  exists (classify_manifest json).1. split; [|by apply list_elem_of_In]. apply list_elem_of_In, list_elem_of_fmap.
  exists ((ct_source_blobs t, id), json). split; [done|]. by apply elem_of_map_to_list.
Qed.

(** The walk ends, with what the stack reaches: every digest is expanded once,
    and there are no more than the manifests in the store name. *)
Lemma run_closure tag w (U : gset string) n : named w ⊆ U →
  ∀ seen stack manifests blobs, size (U ∖ seen) ≤ n → (∀ d, d ∈ stack → d ∈ U) → gathered w seen stack manifests blobs →
  ∃ N, ∀ fuel, N ≤ fuel → ∃ res, run (closure fuel t image tag stack seen manifests blobs) w = (Some res, w) ∧
    ∀ ms bs, res = Ok (ms, bs) → ∃ seen', gathered w seen' [] ms bs ∧ seen ⊆ seen' ∧ ∀ d, d ∈ stack → d ∈ seen'.
Proof.
  clear ar_exact. intros HU. induction n as [n IHn] using lt_wf_ind. intros seen stack. revert seen.
  induction stack as [|d stack IHs]; intros seen manifests blobs Hn Hst Hg.
  { exists 1. intros [|fuel] Hf; [lia|]. eexists. split; [done|]. intros ms bs [= <- <-]. exists seen. split; [done|]. split; [done|]. by intros d ?%elem_of_nil. }
  destruct (decide (d ∈ seen)) as [Hd|Hd].
  - destruct (IHs seen manifests blobs Hn) as (N & HN); [by intros; apply Hst; right| |].
    { destruct Hg as [Hm Hc Hb]. split; [done| |done]. intros d' json c Hd' Hr Hin. destruct (Hc d' json c Hd' Hr Hin) as [?|[->|?]%elem_of_cons]; auto. }
    exists (S N). intros [|fuel] Hf; [lia|]. cbn [closure]. rewrite decide_True by done. destruct (HN fuel) as (res & Hr & Hres); [lia|].
    exists res. split; [done|]. intros ms bs ->. destruct (Hres ms bs eq_refl) as (seen' & ? & Hsub & Hin). exists seen'. split; [done|]. split; [done|].
    intros x [->|Hx]%elem_of_cons; [by apply Hsub|auto].
  - apply run_closure_step; [done|by intros|]. intros json Hreads.
    destruct (IHn (size (U ∖ ({[d]} ∪ seen)))) with (seen := {[d]} ∪ seen) (stack := reverse (classify_manifest json).1 ++ stack)
      (manifests := manifests ++ [d]) (blobs := list_to_set (classify_manifest json).2 ∪ blobs : gset string) as (N & HN).
    + eapply Nat.lt_le_trans; [|exact Hn]. apply subset_size. apply strict_spec. split; [set_solver|].
      intros Hsub. assert (d ∈ U) by (apply Hst; by left). set_solver.
    + done.
    + intros x [Hx|Hx]%elem_of_app; [|apply Hst; by right]. rewrite elem_of_reverse in Hx. by apply HU, (reads_named w d json).
    + destruct Hg as [Hm Hc Hb]. split.
      * intros x. rewrite elem_of_union, elem_of_singleton, elem_of_app, list_elem_of_singleton, Hm. tauto.
      * intros x json' c [->%elem_of_singleton|Hx]%elem_of_union Hr Hin.
        -- rewrite (reads_fun w d json' json Hr Hreads) in Hin. right. apply elem_of_app. left. by apply elem_of_reverse.
        -- destruct (Hc x json' c Hx Hr Hin) as [?|[->|?]%elem_of_cons]; [left; set_solver|left; set_solver|right; apply elem_of_app; auto].
      * intros x json' l [->%elem_of_singleton|Hx]%elem_of_union Hr Hin.
        -- rewrite (reads_fun w d json' json Hr Hreads) in Hin. apply elem_of_union_l. by apply elem_of_list_to_set.
        -- apply elem_of_union_r. by apply (Hb x json').
    + exists N. intros fuel Hf. destruct (HN fuel Hf) as (res & Hr & Hres). exists res. split; [done|]. intros ms bs ->.
      destruct (Hres ms bs eq_refl) as (seen' & ? & Hsub & Hin). exists seen'. split; [done|]. split; [set_solver|].
      intros x [->|Hx]%elem_of_cons; [set_solver|]. apply Hin, elem_of_app. by right.
Qed.

Lemma gathered_reaches w seen ms bs root d : gathered w seen [] ms bs → root ∈ seen → reaches w root d → d ∈ seen.
Proof.
  intros [_ Hc _] Hroot Hd. induction Hd as [|d json c _ IH Hr Hin]; [done|]. destruct (Hc d json c IH Hr Hin) as [?|?%elem_of_nil]; done.
Qed.

(** The record of the source under a path is in the destination, up to its id,
    its access time and the spelling of its path; or the source has none. *)
Definition copied m path w : Prop :=
  m !! source_key path = None ∨
  ∃ (b b' : bytes) v v' r id accessed path', m !! source_key path = Some (b, v) ∧ from_slice b = inr r ∧
    w_kv w !! dest_key path = Some (b', v') ∧ from_slice b' = inr (ar_prepared r id accessed path').

Definition same_source m w : Prop := ∀ path, w_kv w !! source_key path = m !! source_key path.

Hypotheses (same : ct_source_store t = ct_dest_store t) (apart : ct_source_repo t ≠ ct_dest_repo t).

Lemma source_not_dest path path' : source_key path ≠ dest_key path'.
Proof using apart. intros [? _]%artifact_key_inj. done. Qed.

Lemma dest_eq_source path path' : dest_key path = dest_key path' → source_key path = source_key path'.
Proof. intros [_ Hs]%artifact_key_inj. by apply artifact_key_inj. Qed.

(** One record: it is copied, what has been copied before stays, and the source
    and the blobs are as they were. *)
Lemma wp_copy_record m path w : same_source m w →
  wp (copy_record t path) w (λ (res : result Z) w', same_source m w' ∧ w_blobs w' = w_blobs w ∧
    (is_ok res = true → copied m path w') ∧ (∀ path', copied m path' w → is_ok res = true → copied m path' w')).
Proof using ar_exact same apart.
  intros Hsame. unfold copy_record. apply wp_bind_ok. unfold wp at 1. rewrite run_get_artifact. unfold old_of. rewrite (Hsame path).
  destruct (m !! source_key path) as [ [b v]|] eqn:Hm; [|apply wp_ret; split_and!; [done|done|by left|done] ].
  destruct (from_slice b) as [e|r] eqn:Hr; [done|]. unfold same_blob_store. rewrite bool_decide_true by done.
  apply wp_bind_ok, wp_ret, wp_bind_ok. pose proof (wp_put_artifact (mkFormatStore (ct_dest_repo t) "" "") path r w) as Hput.
  eapply wp_mono; [exact Hput|]. intros res w1 (Ho & Hb & _ & Hrec).
  assert (∀ p, dest_key p ≠ dest_key path → w_kv w1 !! dest_key p = w_kv w !! dest_key p) as Hother.
  { intros p Hp. apply (oa_artifacts _ _ _ _ _ Ho); [done|]. by intros ? ->%list_elem_of_singleton. }
  assert (same_source m w1) as Hsame1.
  { intros p. rewrite <-Hsame. apply (oa_artifacts _ _ _ _ _ Ho); [done|]. intros ? ->%list_elem_of_singleton. apply source_not_dest. }
  destruct res as [old|e]; [|by split_and!]. cbn [is_ok] in Hrec. destruct (delta _ _) as [cd bd].
  apply wp_bind. eapply wp_intro; [done|]. apply wp_bind. rewrite decide_False by lia. apply wp_ret, wp_ret.
  destruct Hrec as (b' & v' & id & acc & Hm' & Hv'). cbn [fs_repo] in Hm'.
  split_and!; [done|done| |].
  - intros _. right. by exists b, b', v, v', r, id, acc, path.
  - intros p [Hn|(b1 & b1' & v1 & v1' & r1 & id1 & acc1 & path1 & Hm1 & Hr1 & Hm1' & Hr1')] _; [by left|].
    right. destruct (decide (dest_key p = dest_key path)) as [Heq|Hne].
    + pose proof (dest_eq_source _ _ Heq) as Hsrc. rewrite Hsrc, Hm in Hm1. injection Hm1 as <- <-. rewrite Hr in Hr1. injection Hr1 as <-.
      exists b, b', v, v', r, id, acc, path. rewrite Hsrc, Heq. by split_and!.
    + exists b1, b1', v1, v1', r1, id1, acc1, path1. split_and!; [done|done| |done]. cbn. by rewrite Hother.
Qed.

Lemma wp_copy_records m paths n w : same_source m w →
  wp (copy_records t paths n) w (λ (res : result Z) w', same_source m w' ∧ w_blobs w' = w_blobs w ∧
    (is_ok res = true → ∀ path, path ∈ paths ∨ copied m path w → copied m path w')).
Proof using ar_exact same apart.
  revert n w. induction paths as [|path paths IH]; intros n w Hsame; cbn [copy_records].
  { apply wp_ret. split_and!; [done..|]. intros _ path [?%elem_of_nil|?]; done. }
  apply wp_bind_ok. eapply wp_mono; [by apply (wp_copy_record m)|]. intros res w1 (Hs1 & Hb1 & Hc1 & Hk1).
  destruct res as [c|e]; [|by split_and!]. eapply wp_mono; [by apply (IH _ w1)|]. intros res w2 (Hs2 & Hb2 & Hk2).
  split_and!; [done|congruence|]. intros Hok p Hp. apply Hk2; [done|].
  destruct Hp as [ [->|Hp]%elem_of_cons|Hp]; [right; by apply Hc1|by left|right; by apply Hk1].
Qed.

(** Removing the tag from the source leaves the copies. *)
Lemma wp_delete_source m tag w : same_source m w →
  wp (delete_tag (ct_source_repo t) image tag) w (λ (res : result bool) w', w_blobs w' = w_blobs w ∧
    (∀ path, source_key path ≠ source_key (tag_path_for image tag) → w_kv w' !! source_key path = m !! source_key path) ∧
    w_kv w' !! source_key (tag_path_for image tag) = None ∧
    (∀ path, copied m path w → copied m path w')).
Proof using apart.
  intros Hsame. unfold delete_tag. apply wp_bind_ok. unfold wp at 1. rewrite run_delete_artifact.
  set (w1 := match w_kv w !! _ with Some _ => _ | None => w end).
  assert (w_blobs w1 = w_blobs w) as Hb by (unfold w1; by case_match).
  assert (∀ k, k.1.1 = TABLE_ARTIFACTS → k ≠ source_key (tag_path_for image tag) → w_kv w1 !! k = w_kv w !! k) as Hk.
  { intros k Hk Hne. unfold w1. case_match; [|done]. cbn. rewrite lookup_delete_ne by (intros <-; done). by rewrite lookup_delete_ne. }
  assert (w_kv w1 !! source_key (tag_path_for image tag) = None) as Hgone.
  { unfold w1. case_match; [|done]. cbn. rewrite lookup_delete_ne by (intros Heq; discriminate Heq). by rewrite lookup_delete_eq. }
  assert (∀ path, copied m path w → copied m path w1) as Hcop.
  { intros p [Hn|(b1 & b1' & v1 & v1' & r1 & id1 & acc1 & path1 & Hm1 & Hr1 & Hm1' & Hr1')]; [by left|]. right.
    exists b1, b1', v1, v1', r1, id1, acc1, path1. split_and!; [done|done| |done]. rewrite Hk; [done|done|]. intros Heq.
    by apply (source_not_dest (tag_path_for image tag) p). }
  assert (∀ path, source_key path ≠ source_key (tag_path_for image tag) → w_kv w1 !! source_key path = m !! source_key path) as Hsrc
    by (intros; by rewrite Hk, Hsame).
  destruct (old_of _ _) as [e|o]; [by split_and!|]. destruct o as [old|]; [|by apply wp_ret; split_and!].
  apply wp_bind. eapply wp_intro; [done|]. apply wp_ret. by split_and!.
Qed.

(** The paths of an image. *)
Inductive image_path w (tag root : string) : string → Prop :=
| image_tag : image_path w tag root (tag_path_for image tag)
| image_manifest d : reaches w root d → image_path w tag root (manifest_path_for image d)
| image_layer d json l : reaches w root d → reads w d json → l ∈ (classify_manifest json).2 → image_path w tag root (blob_ref_path_for l).

Lemma gathered_image w tag root seen ms bs path : gathered w seen [] ms bs → root ∈ seen → image_path w tag root path →
  path ∈ (blob_ref_path_for <$> sorted_vec bs) ++ (manifest_path_for image <$> ms) ++ [tag_path_for image tag].
Proof.
  intros Hg Hroot Hp. rewrite !elem_of_app. destruct Hp as [|d Hd|d json l Hd Hr Hl].
  - right; right. by left.
  - right; left. apply list_elem_of_fmap. exists d. split; [done|]. apply (ga_manifests _ _ _ _ _ Hg). by eapply gathered_reaches.
  - left. apply list_elem_of_fmap. exists l. split; [done|]. apply elem_of_sorted_vec, (ga_blobs _ _ _ _ _ Hg d json); [|done..].
    by eapply gathered_reaches.
Qed.

(** What a copy may do, and what it has done when it succeeds. *)
Definition copy_spec w (tag : string) (delete_source : bool) (res : result PromoteOutcome) w' : Prop :=
  w_blobs w' = w_blobs w ∧
  (∀ path, delete_source = false ∨ source_key path ≠ source_key (tag_path_for image tag) → w_kv w' !! source_key path = w_kv w !! source_key path) ∧
  ∀ outcome, res = Ok outcome →
    (∃ (b : bytes) v r name, w_kv w !! source_key (tag_path_for image tag) = Some (b, v) ∧ from_slice b = inr r ∧
      ar_kind r = KDockerTag (po_digest outcome) name) ∧
    (∀ path, image_path w tag (po_digest outcome) path → copied (w_kv w) path w') ∧
    (delete_source = true → w_kv w' !! source_key (tag_path_for image tag) = None).

Lemma copy_refused w tag delete_source e : copy_spec w tag delete_source (Err e) w.
Proof. by split_and!. Qed.

(** The walk and the copies of a tag that has been found. *)
Lemma copy_image_spec (tag root : string) (delete_source : bool) w b v r name :
  w_kv w !! source_key (tag_path_for image tag) = Some (b, v) → from_slice b = inr r → ar_kind r = KDockerTag root name →
  ∃ N, ∀ fuel, N ≤ fuel → ∃ res w', run (copy_image fuel t image tag root delete_source) w = (Some res, w') ∧
    copy_spec w tag delete_source res w'.
Proof using ar_exact same apart.
  intros Hm Hr Hkind.
  destruct (run_closure tag w ({[root]} ∪ named w) (size (({[root]} ∪ named w) ∖ ∅))) with (seen := ∅ : gset string) (stack := [root])
    (manifests := [] : list string) (blobs := ∅ : gset string) as (N & HN); [apply union_subseteq_r|done| |..].
  { intros d ->%list_elem_of_singleton. by apply elem_of_union_l, elem_of_singleton. }
  { split; [|by intros d json c ?%elem_of_empty..]. intros d. split; [by intros ?%elem_of_empty|by intros ?%elem_of_nil]. }
  exists N. intros fuel Hf. destruct (HN fuel Hf) as (res & Hrun & Hres). apply wp_run. unfold copy_image.
  apply wp_bind_ok. eapply wp_intro; [exact Hrun|]. destruct res as [ [ms bs]|e]; [|apply copy_refused].
  destruct (Hres ms bs eq_refl) as (seen & Hg & _ & Hroot). specialize (Hroot root (list_elem_of_here _ _)).
  apply wp_bind_ok. eapply wp_mono; [by apply (wp_copy_records (w_kv w))|]. intros res w1 (Hs1 & Hb1 & Hc1).
  destruct res as [n|e]; [|split_and!; [done|by intros|done] ].
  assert (∀ path, image_path w tag root path → copied (w_kv w) path w1) as Hall.
  { intros path Hp. apply Hc1; [done|]. left. by eapply gathered_image. }
  destruct delete_source.
  - apply wp_bind_ok, wp_bind_ok. eapply wp_mono; [by apply (wp_delete_source (w_kv w))|]. intros res w2 (Hb2 & Hs2 & Hgone & Hc2).
    assert (∀ path, true = false ∨ source_key path ≠ source_key (tag_path_for image tag) → w_kv w2 !! source_key path = w_kv w !! source_key path) as Hsrc.
    { intros path [?|Hne]; [done|]. by apply Hs2. }
    destruct res as [del|e]; [apply wp_ret, wp_ret|split_and!; [congruence|exact Hsrc|done] ].
    split_and!; [congruence|exact Hsrc|]. intros outcome [= <-]. split_and!; [by exists b, v, r, name| |done].
    intros path Hp. by apply Hc2, Hall.
  - apply wp_bind_ok, wp_ret, wp_ret. split_and!; [done|by intros|]. intros outcome [= <-]. split_and!; [by exists b, v, r, name|exact Hall|done].
Qed.

Lemma run_copy_tag fuel tag delete_source overwrite w :
  run (copy_tag fuel t image tag delete_source overwrite) w =
    match w_kv w !! source_key (tag_path_for image tag) with
    | None => (Some (Err (NotFound ("tag '" +:+ tag +:+ "' not found in repository '" +:+ ct_source_repo t +:+ "'"))), w)
    | Some (b, _) =>
        match from_slice (A:=ArtifactRecord) b with
        | inl e => (Some (Err (from_storage_error e)), w)
        | inr r =>
            match ar_kind r with
            | KDockerTag root _ =>
                run (let*? there := if overwrite then Ret (Ok None) else get_artifact (ct_dest_repo t) (tag_path_for image tag) in
                  match there with
                  | Some _ => Ret (Err (Conflict ("tag '" +:+ tag +:+ "' already exists in repository '" +:+ ct_dest_repo t +:+
                      "' (set overwrite to replace)")))
                  | None => copy_image fuel t image tag root delete_source
                  end) w
            | _ => (Some (Err (DataIntegrity ("record at '" +:+ tag_path_for image tag +:+ "' in '" +:+ ct_source_repo t +:+ "' is not a Docker tag"))), w)
            end
        end
    end.
Proof.
  unfold copy_tag. rewrite run_bind_ok, run_get_artifact. unfold old_of. destruct (w_kv w !! _) as [ [b v]|]; [|done].
  destruct (from_slice b) as [e|r]; [done|]. by destruct (ar_kind r).
Qed.

(** C15: A copied image is complete.  Between two repositories on one blob
    store, a copy of a tag ends, changes no blob and, in the source, nothing
    but the tag, and that only if it is a move.  If it succeeds, the digest it
    returns is that of the tag in the source, and of the tag, of every manifest that it
    reaches through manifest lists, however nested or circular, and of every layer
    and configuration that these name, the destination has the record of the
    source, as far as the source has one; a move has removed the tag from the source. *)
Theorem copied_image_complete (tag : string) (delete_source overwrite : bool) (w : world kvmap) :
  ∃ N, ∀ fuel, N ≤ fuel → ∃ res w', run (copy_tag fuel t image tag delete_source overwrite) w = (Some res, w') ∧
    copy_spec w tag delete_source res w'.
Proof using ar_exact same apart.
  assert (∀ (p : nat → prog (result PromoteOutcome)) e, (∀ fuel, run (p fuel) w = (Some (Err e), w)) →
    ∃ N, ∀ fuel, N ≤ fuel → ∃ res w', run (p fuel) w = (Some res, w') ∧ copy_spec w tag delete_source res w') as Hrefused.
  { intros p e Hp. exists 0. intros fuel _. exists (Err e), w. split; [apply Hp|apply copy_refused]. }
  destruct (w_kv w !! source_key (tag_path_for image tag)) as [ [b v]|] eqn:Hm; [|eapply Hrefused; intros fuel; by rewrite run_copy_tag, Hm].
  destruct (from_slice (A:=ArtifactRecord) b) as [e|r] eqn:Hr; [eapply Hrefused; intros fuel; by rewrite run_copy_tag, Hm, Hr|].
  destruct (ar_kind r) eqn:Hkind; try (eapply Hrefused; intros fuel; by rewrite run_copy_tag, Hm, Hr, Hkind).
  assert (∃ x, run (if overwrite then Ret (Ok None) else get_artifact (ct_dest_repo t) (tag_path_for image tag)) w = (Some x, w)) as (x & Hx).
  { destruct overwrite; [by eexists|]. rewrite run_get_artifact. by eexists. }
  destruct x as [ [old|]|e]; [eapply Hrefused; intros fuel; by rewrite run_copy_tag, Hm, Hr, Hkind, run_bind_ok, Hx| |
    eapply Hrefused; intros fuel; by rewrite run_copy_tag, Hm, Hr, Hkind, run_bind_ok, Hx].
  destruct (copy_image_spec tag digest delete_source w b v r tag0 Hm Hr Hkind) as (N & HN). exists N. intros fuel Hf.
  destruct (HN fuel Hf) as (res & w' & Hres & Hspec). exists res, w'. split; [|done]. by rewrite run_copy_tag, Hm, Hr, Hkind, run_bind_ok, Hx.
Qed.
End copied.

(** ** A move onto itself *)

Section itself.
Context `{Blake3} `{Serde ArtifactRecord} `{Serde TreeEntry} `{Serde BlobRecord} `{SerdeJson} `{UuidGen}.

Lemma deleted_tag_gone (repo : string) (image : option string) (tag : string) (w : world kvmap) (res : bool) (w' : world kvmap) : run (delete_tag repo image tag) w = (Some (Ok res), w') →
  w_kv w' !! artifact_key repo (tag_path_for image tag) = None.
Proof.
  unfold delete_tag. rewrite run_bind_ok, run_delete_artifact. set (w1 := match w_kv w !! _ with Some _ => _ | None => w end).
  assert (w_kv w1 !! artifact_key repo (tag_path_for image tag) = None) as Hgone.
  { unfold w1. case_match; [|done]. cbn. rewrite lookup_delete_ne by (intros Heq; discriminate Heq). by rewrite lookup_delete_eq. }
  destruct (old_of _ _) as [e|[old|] ]; [done| |by intros [= <- <-] ]. rewrite run_bind. cbn. intros [= <- <-]. exact Hgone.
Qed.

(** A tag that is moved onto itself is lost.  Source and destination of a
    move may be the same repository, and with the permission to overwrite the
    tag is written over itself and then removed as the source: when the move
    succeeds, the repository no longer has the tag. *)
Theorem move_onto_itself_loses_tag (fuel : nat) (t : CopyTarget) (image : option string) (tag : string) (w : world kvmap)
    (outcome : PromoteOutcome) (w' : world kvmap) :
  ct_dest_repo t = ct_source_repo t →
  run (copy_tag fuel t image tag true true) w = (Some (Ok outcome), w') →
  w_kv w' !! artifact_key (ct_dest_repo t) (tag_path_for image tag) = None.
Proof.
  intros Hsame. unfold copy_tag. rewrite run_bind_ok, run_get_artifact. destruct (old_of _ _) as [e|[r|] ]; [done| |done].
  destruct (ar_kind r); try done. rewrite run_bind_ok. cbn [run]. unfold copy_image. rewrite run_bind_ok.
  destruct (run (closure _ _ _ _ _ _ _ _) w) as [ [ [ [ms bs]|e]|] w1]; [|done..]. rewrite run_bind_ok.
  destruct (run (copy_records _ _ _) w1) as [ [ [n|e]|] w2]; [|done..]. rewrite run_bind_ok, run_bind_ok.
  destruct (run (delete_tag _ _ _) w2) as [ [ [del|e]|] w3] eqn:Hdel; [|done..]. cbn [run]. intros [= _ <-].
  rewrite Hsame. by eapply deleted_tag_gone.
Qed.
End itself.

(** ** Witnesses *)

Definition toy_image_record (path : string) (kind : ArtifactKind) (blob_id : option string) : ArtifactRecord :=
  mkArtifactRecord 5 "id" 1 "ct" 0%Z 0%Z 0%Z path kind false blob_id None None.

(** A tag of a manifest with the layers [a] and [b]. *)
Definition toy_image : list ArtifactRecord :=
  [toy_image_record "img/_tags/latest" (KDockerTag "m" "latest") None;
   toy_image_record "img/_manifests/m" (KDockerManifest "m") (Some "mb");
   toy_image_record "_blobs/a" (KDockerBlob "a") (Some "la")].

Definition toy_image_world : world kvmap :=
  let _ := toy_blake3 in
  mkWorld (list_to_map [(artifact_key "r" "img/_tags/latest", ("0", 1%Z)); (artifact_key "r" "img/_manifests/m", ("1", 1%Z));
    (artifact_key "r" "_blobs/a", ("2", 1%Z))]) {[("s", "mb") := "ab"; ("s", "la") := "x"]} {["s"]} 0%Z 0 [] false.

Lemma copied_image_complete_witness :
  let _ := toy_blake3 in let _ := table_serde toy_image in let _ := toy_te_serde in let _ := table_serde ([] : list BlobRecord) in
  let _ := toy_json in let _ := toy_uuid in
  ∃ N, ∀ fuel, N ≤ fuel → ∃ res w', run (copy_tag fuel (mkCopyTarget "r" "s" "s" "q" "s" "s") (Some "img") "latest" true false) toy_image_world =
      (Some res, w') ∧
    copy_spec (mkCopyTarget "r" "s" "s" "q" "s" "s") (Some "img") toy_image_world "latest" true res w'.
Proof.
  intros ? ? ? ? ? ?.
  apply (@copied_image_complete toy_blake3 (table_serde toy_image) toy_te_serde (table_serde []) toy_json toy_uuid (table_serde_exact _)
    (mkCopyTarget "r" "s" "s" "q" "s" "s") (Some "img")); [reflexivity|discriminate].
Defined.

Example copied_image_example :
  let _ := toy_blake3 in let _ := table_serde toy_image in let _ := toy_te_serde in let _ := table_serde ([] : list BlobRecord) in
  let _ := toy_json in let _ := toy_uuid in
  let '(res, w') := run (copy_tag 5 (mkCopyTarget "r" "s" "s" "q" "s" "s") (Some "img") "latest" true false) toy_image_world in
  res = Some (Ok (mkPromoteOutcome "m" 3)) ∧ w_kv w' !! artifact_key "q" "_blobs/a" = Some ("2", 1%Z) ∧
  w_kv w' !! artifact_key "q" "img/_tags/latest" = Some ("0", 1%Z) ∧ w_kv w' !! artifact_key "r" "img/_tags/latest" = None.
Proof. intros. vm_compute. by split_and!. Qed.

Lemma move_onto_itself_loses_tag_witness :
  let _ := toy_blake3 in let _ := table_serde toy_image in let _ := toy_te_serde in let _ := table_serde ([] : list BlobRecord) in
  let _ := toy_json in let _ := toy_uuid in
  let t := mkCopyTarget "r" "s" "s" "r" "s" "s" in
  (run (copy_tag 5 t (Some "img") "latest" true true) toy_image_world).1 = Some (Ok (mkPromoteOutcome "m" 3)) ∧
  w_kv (run (copy_tag 5 t (Some "img") "latest" true true) toy_image_world).2 !! artifact_key "r" (tag_path_for (Some "img") "latest") = None.
Proof.
  intros ? ? ? ? ? ? t.
  assert ((run (copy_tag 5 t (Some "img") "latest" true true) toy_image_world).1 = Some (Ok (mkPromoteOutcome "m" 3))) as Hok
    by (vm_compute; reflexivity).
  split; [exact Hok|].
  refine (@move_onto_itself_loses_tag toy_blake3 (table_serde toy_image) toy_te_serde (table_serde []) toy_json toy_uuid 5 t (Some "img") "latest"
    toy_image_world (mkPromoteOutcome "m" 3) _ eq_refl _).
  rewrite (surjective_pairing (run _ _)). apply (f_equal (λ x, (x, _))). exact Hok.
Defined.
