(* ===== verification/DockerPull.v ===== *)
(** * Docker pulls (format/docker/src/api/manifests.rs, blobs.rs, tags.rs, the client in store.rs)

    The handlers that read: manifests and layers from a hosted repository, from
    an upstream registry through a cache, or from the members of a proxy, and
    the listings of tags and images.  The theorems say when a cache checks what it downloads,
    and what a client sees that follows the pages of a listing. *)

From S2P Require Import Prelude Bytes Text Errors Keys Records Kv Prog Wp Effects Scan Pagination Update Artifact Blob Repo Directory Ingest Accounts BulkDelete TreeRebuild.
From S2P Require Import BloomFilter UpdateWorker Batches Check CheckScan DockerGc Cache Proxy Auth ApiHelpers Package Docker DockerUpload.

(** ** The client of an upstream registry *)

(** The requests that the client makes: a GET with a header and either basic
    credentials or a token, a GET of a token with its parameters, and what a
    URL is. *)
Class RegistryClient := {
  registry_get : string → option (string * string) → option UpstreamAuth → string + Response;
  registry_get_bearer : string → option (string * string) → string → string + Response;
  token_get : string → list (string * string) → option UpstreamAuth → string + Response;
  url_parses : string → bool;
}.

(** The realm and the other parameters of a challenge. *)
(** format/docker/src/store.rs:696-708 *)
Definition parse_challenge (bearer : string) : option string * list (string * string) :=
  foldl (λ acc part,
    match split_once "=" (trim part) with
    | Some (key, val) =>
        let val := trim_matches (ascii_of_nat 34) val in
        if decide (key = "realm") then (Some val, acc.2) else (acc.1, acc.2 ++ [(key, val)])
    | None => acc
    end) (None, []) (split_char "," bearer).

(** format/docker/src/store.rs:61-64 *)
Definition MANIFEST_ACCEPT : string :=
  DOCKER_MANIFEST_V2 +:+ ", " +:+ DOCKER_MANIFEST_LIST +:+ ", " +:+ OCI_MANIFEST_V1 +:+ ", " +:+ OCI_INDEX_V1.

Section client.
Context `{RegistryClient} `{SerdeJson} `{Digests} `{Blake3}.

(** format/docker/src/store.rs:688-728 *)
Definition fetch_bearer_token (www_auth : string) (upstream_auth : option UpstreamAuth) : option string :=
  match strip_prefix www_auth "Bearer " with
  | None => None
  | Some bearer =>
      match parse_challenge bearer with
      | (Some realm, params) =>
          if url_parses realm then
            match token_get realm params upstream_auth with
            | inl _ => None
            | inr resp =>
                if is_success resp then
                  match collect_body (rs_body resp) with
                  | Err _ => None
                  | Ok data =>
                      match from_utf8 data ≫= json_from_str with
                      | None => None
                      | Some body =>
                          match json_get body "token" with
                          | Some v => json_as_str v
                          | None => json_get body "access_token" ≫= json_as_str
                          end
                      end
                  end
                else None
            end
          else None
      | (None, _) => None
      end
  end.

(** format/docker/src/store.rs:732-766 *)
Definition upstream_get_with_bearer_retry (url : string) (extra_headers : option (string * string)) (upstream_auth : option UpstreamAuth) :
    string + Response :=
  match registry_get url extra_headers upstream_auth with
  | inl e => inl e
  | inr resp =>
      if decide (rs_status resp = 401%Z) then
        match rs_header resp "www-authenticate" with
        | Some www_auth =>
            if starts_with www_auth "Bearer " then
              match fetch_bearer_token www_auth upstream_auth with
              | Some token => registry_get_bearer url extra_headers token
              | None => inr resp
              end
            else inr resp
        | None => inr resp
        end
      else inr resp
  end.

(** format/docker/src/store.rs:769-833 *)
Definition fetch_upstream_manifest (upstream_url image reference : string) (upstream_auth : option UpstreamAuth) :
    result (option (bytes * string * string)) :=
  let url := trim_end SLASH upstream_url +:+ "/v2/" +:+ image +:+ "/manifests/" +:+ reference in
  match upstream_get_with_bearer_retry url (Some ("Accept", MANIFEST_ACCEPT)) upstream_auth with
  | inl e => Err (Errors.upstream e)
  | inr resp =>
      if is_not_found resp then Ok None
      else if negb (is_success resp) then
        Err (Errors.upstream ("upstream manifest fetch returned " +:+ rs_status_text resp +:+ ": " +:+ url))
      else
        let content_type := default OCI_MANIFEST_V1 (rs_header resp "content-type") in
        let? data := collect_body (rs_body resp) in
        Ok (Some (data, content_type, default (sha256_digest data) (rs_header resp "docker-content-digest")))
  end.

(** What has been written to the writer, with its digests and size. *)
(** format/docker/src/store.rs:882-942 *)
Definition fetch_upstream_blob_to_writer (upstream_url image digest : string) (upstream_auth : option UpstreamAuth) :
    result (option (bytes * (string * string * Z))) :=
  let url := trim_end SLASH upstream_url +:+ "/v2/" +:+ image +:+ "/blobs/" +:+ digest in
  match upstream_get_with_bearer_retry url None upstream_auth with
  | inl e => Err (Errors.upstream e)
  | inr resp =>
      if is_not_found resp then Ok None
      else if negb (is_success resp) then
        Err (Errors.upstream ("upstream blob fetch returned " +:+ rs_status_text resp +:+ ": " +:+ url))
      else
        let? data := collect_body (rs_body resp) in
        Ok (Some (data, (sha256_digest data, blake3_hex data, byte_size data)))
  end.
End client.

(** ** Answers *)

(** Contents with their type, digest and size; the body is missing in answers
    to HEAD. *)
Inductive PullReply : Type :=
| PContent (content_type digest : string) (size : Z) (body : option bytes)
| PError (r : DockerReply).

Definition docker_status (r : DockerReply) : nat :=
  match r with
  | DCreated _ _ => 201
  | DUpload _ _ _ | DAccepted => 202
  | DUnauthorized _ => 401
  | DError _ _ status => status
  end.

Definition pull_status (r : PullReply) : nat := match r with PContent _ _ _ _ => 200 | PError r => docker_status r end.

Definition blob_not_found : PullReply := PError (docker_error "BLOB_UNKNOWN" "blob not found" 404).
Definition manifest_not_found : PullReply := PError (docker_error "MANIFEST_UNKNOWN" "manifest not found" 404).
Definition pull_error (e : DepotError) : PullReply := PError (unknown_error e).

(** format/docker/src/api/blobs.rs:116-130 *)
Definition blob_stream_response (r : result (option (bytes * Z))) (digest : string) : PullReply :=
  match r with
  | Ok (Some (reader, size)) => PContent "application/octet-stream" digest size (Some reader)
  | Ok None => blob_not_found
  | Err e => pull_error e
  end.

(** format/docker/src/api/blobs.rs:132-144 *)
Definition blob_head_response (r : result (option (Z * string * string))) (digest : string) : PullReply :=
  match r with
  | Ok (Some (size, _, _)) => PContent "application/octet-stream" digest size None
  | Ok None => blob_not_found
  | Err e => pull_error e
  end.

(** format/docker/src/api/manifests.rs:230-233 *)
Definition manifest_data_response (data : bytes) (content_type digest : string) : PullReply :=
  PContent content_type digest (byte_size data) (Some data).

(** format/docker/src/api/manifests.rs:196-211 *)
Definition manifest_response (r : result (option (bytes * string * string))) : PullReply :=
  match r with
  | Ok (Some (data, content_type, digest)) => manifest_data_response data content_type digest
  | Ok None => manifest_not_found
  | Err e => pull_error e
  end.

(** The answer without its body. *)
Definition head_of (r : PullReply) : PullReply :=
  match r with PContent ct digest size _ => PContent ct digest size None | r => r end.

(** The values of the [Accept] headers that are visible ASCII are compared, and
    the others only counted. *)
(** format/docker/src/api/manifests.rs:33-44 *)
Definition is_manifest_acceptable (accepts : list (option string)) (content_type : string) : bool :=
  existsb (λ v, match v with Some s => contains s "*/*" || contains s content_type | None => false end) accepts ||
  bool_decide (accepts = []).

(** format/docker/src/api/manifests.rs:47-61 *)
Definition manifest_response_with_accept (r : result (option (bytes * string * string))) (accepts : list (option string)) : PullReply :=
  match r with
  | Ok (Some (_, content_type, _)) =>
      if is_manifest_acceptable accepts content_type then manifest_response r
      else PError (docker_error "MANIFEST_UNKNOWN" "manifest content type not acceptable" 404)
  | _ => manifest_response r
  end.

(** format/docker/src/api/helpers.rs:21-23 *)
Definition wants_atime (env : RequestEnv) : bool := bool_decide (re_headers env "x-depot-no-atime" = None).

Section pulls.
Context `{Blake3} `{Serde ArtifactRecord} `{Serde TreeEntry} `{Serde BlobRecord} `{Serde RepoConfig}.
Context `{Digests} `{RegistryClient} `{SerdeJson} `{Scheduler} {B : Type} `{AuthBackend B}.
Context (fuel : nat) (full : bool) (env : RequestEnv).

(** A pull store, with or without access times. *)
Definition pull_store (name : string) (image : option string) (blobs store : string) (track_access : bool) : DockerStore :=
  mkDockerStore name image blobs store track_access.

(** ** Caches *)

(** A cached manifest is too old when it was asked for by a tag and the record
    of the tag has been written long enough ago. *)
(** format/docker/src/api/manifests.rs:285-305 *)
Definition manifest_expired (config_name : string) (image : option string) (reference : string) (cache_ttl_secs : Z) : prog bool :=
  if decide (cache_ttl_secs > 0)%Z then
    if is_digest reference then Ret false
    else
      let* r := get_artifact config_name (tag_path_for image reference) in
      match r with
      | Ok (Some tag_rec) =>
          let* now := call ENow in
          Ret (bool_decide (num_seconds_between now (ar_updated_at tag_rec) >= i64_wrap cache_ttl_secs)%Z)
      | _ => Ret false
      end
  else Ret false.

(** format/docker/src/api/manifests.rs:237-331 *)
Definition cache_get_manifest (config : RepoConfig) (image : option string) (reference : string) (track_access : bool) : prog PullReply :=
  match rc_kind config with
  | Cache upstream_url cache_ttl_secs upstream_auth =>
      let image_name := default (rc_name config) image in
      let* b := docker_blob_store config in
      match b with
      | inl reply => Ret (PError reply)
      | inr blobs =>
          let store := pull_store (rc_name config) image blobs (rc_store config) track_access in
          let* r := get_manifest full store reference in
          let cached := match r with Ok o => o | Err _ => None end in
          let* expired := match cached with
            | Some _ => manifest_expired (rc_name config) image reference cache_ttl_secs
            | None => Ret true
            end in
          match cached, expired with
          | Some (data, ct, digest), false => Ret (manifest_data_response data ct digest)
          | _, _ =>
              match fetch_upstream_manifest upstream_url image_name reference upstream_auth with
              | Ok (Some (data, ct, digest)) =>
                  let* _ := put_manifest store reference ct data in
                  Ret (manifest_data_response data ct digest)
              | Ok None => Ret manifest_not_found
              | Err e =>
                  Ret match cached with
                      | Some (data, ct, digest) => manifest_data_response data ct digest
                      | None => pull_error e
                      end
              end
          end
      end
  | _ => Ret (PError (docker_error "UNSUPPORTED" "expected cache repo kind" 500))
  end.

(** A probe takes the local copy, however old it is. *)
(** format/docker/src/api/manifests.rs:333-391 *)
Definition cache_head_manifest (config : RepoConfig) (image : option string) (reference : string) : prog PullReply :=
  match rc_kind config with
  | Cache upstream_url _ upstream_auth =>
      let image_name := default (rc_name config) image in
      let* b := docker_blob_store config in
      match b with
      | inl reply => Ret (PError reply)
      | inr blobs =>
          let store := pull_store (rc_name config) image blobs (rc_store config) false in
          let* r := get_manifest full store reference in
          match r with
          | Ok (Some (data, ct, digest)) => Ret (PContent ct digest (byte_size data) None)
          | _ =>
              match fetch_upstream_manifest upstream_url image_name reference upstream_auth with
              | Ok (Some (data, ct, digest)) =>
                  let* _ := put_manifest store reference ct data in
                  Ret (PContent ct digest (byte_size data) None)
              | Ok None => Ret manifest_not_found
              | Err e => Ret (pull_error e)
              end
          end
      end
  | _ => Ret (PError (docker_error "UNSUPPORTED" "expected cache repo kind" 500))
  end.

(** format/docker/src/api/blobs.rs:148-239 *)
Definition cache_get_blob (config : RepoConfig) (image : option string) (digest : string) (track_access : bool) : prog PullReply :=
  let* b := docker_blob_store config in
  match b with
  | inl reply => Ret (PError reply)
  | inr blobs =>
      let store := pull_store (rc_name config) image blobs (rc_store config) track_access in
      let* r := blob_exists store digest in
      match r with
      | Ok (Some _) => let* r := open_blob full store digest in Ret (blob_stream_response r digest)
      | _ =>
          match rc_kind config with
          | Cache upstream_url _ upstream_auth =>
              let* blob_id := call EUuid in
              match fetch_upstream_blob_to_writer upstream_url (default (rc_name config) image) digest upstream_auth with
              | Ok (Some (data, (computed_digest, blake3_hash, size))) =>
                  if decide (computed_digest ≠ digest) then
                    Ret (PError (docker_error "BLOB_UNKNOWN" "upstream blob digest mismatch" 502))
                  else
                    let* r := blob blobs (BPut blob_id data) in
                    match r with
                    | Err e => Ret (pull_error e)
                    | Ok _ =>
                        let* _ := put_cached_blob store blob_id digest blake3_hash size in
                        let* r := open_blob full store digest in
                        Ret (blob_stream_response r digest)
                    end
              | Ok None => Ret blob_not_found
              | Err e => Ret (pull_error e)
              end
          | _ => Ret (PError (docker_error "UNSUPPORTED" "expected cache repo kind" 500))
          end
      end
  end.

(** The download is kept under the digest of the request, whatever its own is. *)
(** format/docker/src/api/blobs.rs:241-315 *)
Definition cache_head_blob (config : RepoConfig) (image : option string) (digest : string) : prog PullReply :=
  let* b := docker_blob_store config in
  match b with
  | inl reply => Ret (PError reply)
  | inr blobs =>
      let store := pull_store (rc_name config) image blobs (rc_store config) true in
      let* r := blob_exists store digest in
      match r with
      | Ok (Some (size, _, _)) => Ret (blob_head_response (Ok (Some (size, "", ""))) digest)
      | _ =>
          match rc_kind config with
          | Cache upstream_url _ upstream_auth =>
              let* blob_id := call EUuid in
              match fetch_upstream_blob_to_writer upstream_url (default (rc_name config) image) digest upstream_auth with
              | Ok (Some (data, (_, blake3_hash, size))) =>
                  let* r := blob blobs (BPut blob_id data) in
                  match r with
                  | Err e => Ret (pull_error e)
                  | Ok _ =>
                      let* _ := put_cached_blob store blob_id digest blake3_hash size in
                      Ret (blob_head_response (Ok (Some (size, "", ""))) digest)
                  end
              | Ok None => Ret blob_not_found
              | Err e => Ret (pull_error e)
              end
          | _ => Ret (PError (docker_error "UNSUPPORTED" "expected cache repo kind" 500))
          end
      end
  end.

(** ** Proxies *)

(** What a member that is hosted or a cache answers: none when the search goes
    on, and whether the reply ends it. *)
Definition Member : Type := RepoConfig → prog (option PullReply).

(** Members are asked in their order; a member that cannot be read or has
    another format is passed over; the first answer that is no 404 is given.
    A nested proxy is one level deeper. *)
Fixpoint ask_members (nested : RepoConfig → prog PullReply) (hosted cached : string → Member) (not_found : PullReply)
    (members : list string) : prog PullReply :=
  match members with
  | [] => Ret not_found
  | member_name :: members =>
      let* r := get_repo member_name in
      match r with
      | Ok (Some c) =>
          if decide (repo_format c = FDocker) then
            let* o := match kind_repo_type (rc_kind c) with
              | RTHosted => hosted member_name c
              | RTCache => cached member_name c
              | RTProxy => let* resp := nested c in Ret (if decide (pull_status resp = 404) then None else Some resp)
              end in
            match o with
            | Some resp => Ret resp
            | None => ask_members nested hosted cached not_found members
            end
          else ask_members nested hosted cached not_found members
      | _ => ask_members nested hosted cached not_found members
      end
  end.

Definition unless_not_found (p : prog PullReply) : prog (option PullReply) :=
  let* resp := p in Ret (if decide (pull_status resp = 404) then None else Some resp).

(** The recursion over nested proxies; [depth] counts the levels that are left. *)
Fixpoint ask_proxy (depth : nat) (hosted cached : string → Member) (not_found : PullReply) (config : RepoConfig) : prog PullReply :=
  match depth with
  | O => Ret not_found
  | S depth =>
      match rc_kind config with
      | Proxy members _ => ask_members (ask_proxy depth hosted cached not_found) hosted cached not_found members
      | _ => Ret (PError (docker_error "UNSUPPORTED" "expected proxy repo kind" 500))
      end
  end.

(** [depth > MAX_PROXY_DEPTH] fails for the depths 0 to 8. *)
Definition PROXY_LEVELS : nat := S (Z.to_nat MAX_PROXY_DEPTH).

(** A hosted member: its blob store must be known, or the search fails. *)
Definition hosted_member (ask : DockerStore → prog (option PullReply)) (image : option string) (track_access : bool)
    (member_name : string) (c : RepoConfig) : prog (option PullReply) :=
  let* b := docker_blob_store c in
  match b with
  | inl reply => Ret (Some (PError reply))
  | inr blobs => ask (pull_store member_name image blobs (rc_store c) track_access)
  end.

(** format/docker/src/api/manifests.rs:395-477 *)
Definition proxy_get_manifest (config : RepoConfig) (image : option string) (reference : string) (track_access : bool) : prog PullReply :=
  ask_proxy PROXY_LEVELS
    (hosted_member (λ store,
       let* r := get_manifest full store reference in
       Ret match r with Ok (Some (data, ct, digest)) => Some (manifest_data_response data ct digest) | _ => None end) image track_access)
    (λ _ c, unless_not_found (cache_get_manifest c image reference track_access)) manifest_not_found config.

(** format/docker/src/api/manifests.rs:479-558 *)
Definition proxy_head_manifest (config : RepoConfig) (image : option string) (reference : string) : prog PullReply :=
  ask_proxy PROXY_LEVELS
    (hosted_member (λ store,
       let* r := get_manifest full store reference in
       Ret match r with Ok (Some (data, ct, digest)) => Some (PContent ct digest (byte_size data) None) | _ => None end) image false)
    (λ _ c, unless_not_found (cache_head_manifest c image reference)) manifest_not_found config.

(** format/docker/src/api/blobs.rs:319-393 *)
Definition proxy_get_blob (config : RepoConfig) (image : option string) (digest : string) (track_access : bool) : prog PullReply :=
  ask_proxy PROXY_LEVELS
    (hosted_member (λ store,
       let* r := blob_exists store digest in
       match r with
       | Ok (Some _) => let* r := open_blob full store digest in Ret (Some (blob_stream_response r digest))
       | _ => Ret None
       end) image track_access)
    (λ _ c, unless_not_found (cache_get_blob c image digest track_access)) blob_not_found config.

(** format/docker/src/api/blobs.rs:395-464 *)
Definition proxy_head_blob (config : RepoConfig) (image : option string) (digest : string) : prog PullReply :=
  ask_proxy PROXY_LEVELS
    (hosted_member (λ store,
       let* r := blob_exists store digest in
       Ret match r with Ok (Some (size, _, _)) => Some (PContent "application/octet-stream" digest size None) | _ => None end) image true)
    (λ _ c, unless_not_found (cache_head_blob c image digest)) blob_not_found config.

(** ** The handlers *)

(** A pull: permission to read, a Docker repository, and what its type says. *)
Definition pull (auth : B) (username repo_name : string) (ask : RepoConfig → prog PullReply) : prog (PullReply * B) :=
  let* a := check_docker_permission env auth username repo_name CapRead in
  let '(r, auth) := a in
  match r with
  | inl reply => Ret (PError reply, auth)
  | inr _ =>
      let* r := validate_docker_repo repo_name in
      let* reply := match r with inl reply => Ret (PError reply) | inr config => ask config end in
      Ret (reply, auth)
  end.

Definition from_hosted (repo_name : string) (image : option string) (track_access : bool) (config : RepoConfig)
    (ask : DockerStore → prog PullReply) : prog PullReply :=
  let* b := docker_blob_store config in
  match b with
  | inl reply => Ret (PError reply)
  | inr blobs => ask (pull_store repo_name image blobs (rc_store config) track_access)
  end.

(** format/docker/src/api/manifests.rs:63-123 *)
Definition do_get_manifest (auth : B) (username repo_name : string) (image : option string) (reference : string)
    (accepts : list (option string)) : prog (PullReply * B) :=
  pull auth username repo_name (λ config,
    match kind_repo_type (rc_kind config) with
    | RTHosted => from_hosted repo_name image (wants_atime env) config (λ store,
        let* r := get_manifest full store reference in
        Ret (if is_digest reference then manifest_response r else manifest_response_with_accept r accepts))
    | RTCache => cache_get_manifest config image reference (wants_atime env)
    | RTProxy => proxy_get_manifest config image reference (wants_atime env)
    end).

(** format/docker/src/api/manifests.rs:125-170 *)
Definition do_head_manifest (auth : B) (username repo_name : string) (image : option string) (reference : string) : prog (PullReply * B) :=
  pull auth username repo_name (λ config,
    match kind_repo_type (rc_kind config) with
    | RTHosted => from_hosted repo_name image false config (λ store,
        let* r := get_manifest full store reference in Ret (head_of (manifest_response r)))
    | RTCache => cache_head_manifest config image reference
    | RTProxy => proxy_head_manifest config image reference
    end).

(** format/docker/src/api/blobs.rs:24-71 *)
Definition do_get_blob (auth : B) (username repo_name : string) (image : option string) (digest : string) : prog (PullReply * B) :=
  pull auth username repo_name (λ config,
    match kind_repo_type (rc_kind config) with
    | RTHosted => from_hosted repo_name image (wants_atime env) config (λ store,
        let* r := open_blob full store digest in Ret (blob_stream_response r digest))
    | RTCache => cache_get_blob config image digest (wants_atime env)
    | RTProxy => proxy_get_blob config image digest (wants_atime env)
    end).

(** format/docker/src/api/blobs.rs:73-111 *)
Definition do_head_blob (auth : B) (username repo_name : string) (image : option string) (digest : string) : prog (PullReply * B) :=
  pull auth username repo_name (λ config,
    match kind_repo_type (rc_kind config) with
    | RTHosted => from_hosted repo_name image true config (λ store,
        let* r := blob_exists store digest in Ret (blob_head_response r digest))
    | RTCache => cache_head_blob config image digest
    | RTProxy => proxy_head_blob config image digest
    end).

(** ** Listings *)

(** format/docker/src/api/types.rs:48-51 *)
Record DockerPaginationParams : Type := mkDockerPaginationParams {
  dp_n : option nat;
  dp_last : option string;
}.

(** The names after the cursor. *)
Definition after (names : list string) (last : option string) : list string :=
  match last with Some l => filter (λ t, str_lt l t) names | None => names end.

(** A page of names, and the cursor of the next one if there is more. *)
(** format/docker/src/api/tags.rs:191-222 *)
Definition paginate_catalog (names : list string) (pagination : DockerPaginationParams) : list string * option (nat * string) :=
  let filtered := after names (dp_last pagination) in
  let n := default (length filtered) (dp_n pagination) in
  let page := take n filtered in
  (page, if decide (n < length filtered) then (λ l, (n, l)) <$> last page else None).

Fixpoint member_tags (image : option string) (members : list string) (tag_set : gset string) : prog (gset string) :=
  match members with
  | [] => Ret tag_set
  | member_name :: members =>
      let* r := get_repo member_name in
      match r with
      | Ok (Some c) =>
          let* b := docker_blob_store c in
          match b with
          | inl _ => member_tags image members tag_set
          | inr blobs =>
              let* r := list_tags fuel (hosted_store member_name image blobs (rc_store c)) in
              match r with
              | Ok tags => member_tags image members (list_to_set tags ∪ tag_set)
              | Err _ => member_tags image members tag_set
              end
          end
      | _ => member_tags image members tag_set
      end
  end.

(** The tags of an image: those of a repository in the order in which its
    shards are read, those of a proxy sorted. *)
(** format/docker/src/api/tags.rs:52-96 *)
Definition all_tags (config : RepoConfig) (image : option string) : prog (DockerReply + list string) :=
  match rc_kind config with
  | Proxy members _ =>
      let* tag_set := member_tags image members ∅ in
      Ret (inr (sorted_vec tag_set))
  | _ =>
      let*^ blobs := docker_blob_store config in
      let*! tags := list_tags fuel (hosted_store (rc_name config) image blobs (rc_store config)) else unknown_error in
      Ret (inr tags)
  end.

(** The name of the list, its page and the next cursor. *)
(** format/docker/src/api/tags.rs:22-131 *)
Definition do_list_tags (auth : B) (username repo_name : string) (image : option string) (pagination : DockerPaginationParams) :
    prog ((DockerReply + (string * (list string * option (nat * string)))) * B) :=
  let* a := check_docker_permission env auth username repo_name CapRead in
  let '(r, auth) := a in
  match r with
  | inl reply => Ret (inl reply, auth)
  | inr _ =>
      let* r :=
        let*^ config := validate_docker_repo repo_name in
        let display_name := match image with Some img => repo_name +:+ "/" +:+ img | None => repo_name end in
        let*^ tags := all_tags config image in
        Ret (inr (display_name, paginate_catalog tags pagination)) in
      Ret (r, auth)
  end.

Fixpoint scan_images (repos : list string) (images : gset string) : prog (result (gset string)) :=
  match repos with
  | [] => Ret (Ok images)
  | name :: repos =>
      let*? names := list_image_names fuel name in
      scan_images repos (list_to_set names ∪ images)
  end.

(** format/docker/src/api/tags.rs:138-186 *)
Definition catalog (auth : B) (username : string) (pagination : DockerPaginationParams) :
    prog ((DockerReply + (list string * option (nat * string))) * B) :=
  let* a := resolve_user_roles auth username in
  let '(r, auth) := a in
  match r with
  | Err _ => Ret (inl (docker_error "UNKNOWN" "auth error" 500), auth)
  | Ok None => Ret (inr ([], None), auth)
  | Ok (Some (_, roles)) =>
      let* r :=
        let*! repos := list_repos else unknown_error in
        let docker_repos := filter (λ r, repo_format r = FDocker ∧ is_ok (check_grants roles (rc_name r) CapRead) = true) repos in
        let*! images := scan_images (rc_name <$> docker_repos) ∅ else unknown_error in
        Ret (inr (paginate_catalog (sorted_vec images) pagination)) in
      Ret (r, auth)
  end.
End pulls.

(** ** Programs that end *)

Fixpoint ends {A : Type} (p : prog A) : Prop :=
  match p with
  | Ret _ => True
  | Vis e k => ∀ r, ends (k r)
  | Spin => False
  end.

Lemma ends_bind {A C} (p : prog A) (f : A → prog C) : ends p → (∀ a, ends (f a)) → ends (bind p f).
Proof. intros Hp Hf. induction p as [a|e k IH|]; cbn in *; [apply Hf|auto|done]. Qed.

Lemma ends_bind_ok {A C} (p : prog (result A)) (f : A → prog (result C)) : ends p → (∀ a, ends (f a)) → ends (bind_ok p f).
Proof. intros Hp Hf. apply ends_bind; [done|]. by intros [a|e]. Qed.

Lemma ends_try {A C} (r : result A) (f : A → prog (result C)) : (∀ a, ends (f a)) → ends (try_ r f).
Proof. destruct r; cbn; auto. Qed.

Lemma ends_run `{UuidGen} {A} (p : prog A) (w : world kvmap) : ends p → ∃ a w', run p w = (Some a, w').
Proof.
  revert w. induction p as [a|e k IH|]; intros w Hp; cbn [run] in *; [by eexists _, _| |done].
  destruct (handle e w) as [r w']. apply IH, Hp.
Qed.

Ltac ends_step :=
  lazymatch goal with
  | |- ends (Ret _) => exact Logic.I
  | |- ends (bind _ _) => apply ends_bind; [|intros ?]
  | |- ends (bind_ok _ _) => apply ends_bind_ok; [|intros ?]
  | |- ends (try_ _ _) => apply ends_try; intros ?
  | |- ends (call _) => intros ?; exact Logic.I
  | |- ends (kv _) => intros ?; exact Logic.I
  | |- ends (blob _ _) => intros ?; exact Logic.I
  | |- ends (match ?x with _ => _ end) => destruct x
  | |- ends (let '_ := ?x in _) => destruct x
  end.

Ltac ends_tac := repeat (first [ends_step | solve [auto] ]).

Section ends.
Context `{Blake3} `{Serde ArtifactRecord} `{Serde TreeEntry} `{Serde BlobRecord} `{Digests}.

Lemma put_counted_ends repo path r : ends (put_counted repo path r).
Proof.
  unfold put_counted. apply ends_bind_ok; [|intros o; unfold dir_changed; ends_tac].
  unfold put_artifact. case_decide; [done|]. generalize PUT_ARTIFACT_MAX_RETRIES. intros n.
  induction n as [|n IH]; [done|]. cbn [put_artifact_loop]. destruct (artifact_key repo path) as [ [t pk] sk].
  unfold typed_get_versioned, prepare_record, upsert_tree_file. ends_tac.
Qed.

Lemma put_manifest_ends store reference ct data : ends (put_manifest store reference ct data).
Proof.
  unfold put_manifest, claim_file, claim_or_reuse_blob_counted, put_dedup_record_counted, put_dedup_record, store_changed, typed_get, reuse_existing.
  pose proof put_counted_ends. ends_tac.
Qed.
End ends.

(** ** What a cache checks *)

Section cached.
Context `{Blake3} `{Serde ArtifactRecord} `{Serde TreeEntry} `{Serde BlobRecord} `{Digests} `{RegistryClient} `{SerdeJson} `{UuidGen}
  {ar_exact : SerdeExact ArtifactRecord} {br_exact : SerdeExact BlobRecord}.
Context (full : bool).
Implicit Types (w : world kvmap) (m : kvmap) (config : RepoConfig).

Definition cache_store config (image : option string) (track_access : bool) : DockerStore :=
  pull_store (rc_name config) image (rc_store config) (rc_store config) track_access.

(** No program opens or closes a store. *)
Lemma run_stores {A} (p : prog A) w : w_stores (run p w).2 = w_stores w.
Proof.
  revert w. induction p as [a|e k IH|]; intros w; cbn [run]; [done| |done]. destruct (handle e w) as [r w'] eqn:He. rewrite IH.
  destruct e as [o|store o|n| | |ev|]; cbn [handle] in He; try (by injection He as <- <-).
  - destruct (kv_step o (w_kv w)). by injection He as <- <-.
  - destruct o; cbn in He; by injection He as <- <-.
Qed.

Lemma run_docker_blob_store config w : rc_store config ∈ w_stores w →
  run (docker_blob_store config) w = (Some (inr (rc_store config)), w).
Proof. intros Hst. unfold docker_blob_store. rewrite run_bind, run_resolve_blob_store, decide_True by done. done. Qed.

Lemma run_blob_exists self digest w :
  run (blob_exists self digest) w =
    (Some match old_of (w_kv w) (artifact_key (ds_repo self) (blob_ref_path_for digest)) with
          | inr o => Ok ((λ r, (ar_size r, default "" (ar_blob_id r), default "" (ar_content_hash r))) <$> o)
          | inl e => Err (from_storage_error e)
          end, w).
Proof. unfold blob_exists. rewrite run_bind_ok, run_get_artifact. by destruct (old_of _ _). Qed.

(** A layer in place is known, and opened. *)
Lemma layer_known self digest r data w : file_at (ds_files self) (blob_ref_path_for digest) r data w →
  ∃ x, run (blob_exists self digest) w = (Some (Ok (Some x)), w) ∧ x.1.1 = ar_size r.
Proof.
  intros [(b & v & id & acc & Hm & Hv) _]. rewrite run_blob_exists. unfold old_of. cbn [ds_files fs_repo] in Hm. rewrite Hm, Hv.
  by eexists.
Qed.

Lemma layer_opened self digest r data w : file_at (ds_files self) (blob_ref_path_for digest) r data w →
  wp (open_blob full self digest) w (λ (res : result (option (bytes * Z))) w', same_store w w' ∧
    ∃ d : bytes, res = Ok (Some (d, byte_size d)) ∧ blake3_hex d = blake3_hex data).
Proof.
  intros [(b & v & id & acc & Hm & Hv) (bid & d & Hb & Hne & Hd & Hh)]. unfold open_blob.
  apply wp_bind_ok. unfold wp at 1. rewrite run_get_artifact. unfold old_of. cbn [ds_files fs_repo] in Hm. rewrite Hm, Hv.
  apply wp_bind. eapply wp_mono; [apply wp_track|]. intros _ w' [Hk Hbl]. cbn [ar_prepared ar_blob_id]. rewrite Hb. cbn [default].
  unfold open_read. apply wp_bind_ok. apply (wp_intro _ _ (Ok (Some d)) w').
  - cbn. cbn [ds_files fs_blobs] in Hd. by rewrite Hbl, Hd.
  - apply wp_ret. split; [done|]. by exists d.
Qed.

(** C16: A probe of a layer fills the cache without a check.  Take a cache that
    does not have a layer, and an upstream that answers a request for it with
    some data.  If the data has not the digest of the request, a pull is
    refused and nothing is kept.  A probe answers that the layer is there,
    whatever the data is; and once the probe has recorded it, every pull of the
    digest is answered with that data (contents with its hash), which is not checked again. *)
Theorem probe_fills_cache_unchecked (config : RepoConfig) (image : option string) (digest upstream_url : string) (ttl : Z)
    (upstream_auth : option UpstreamAuth) (data : bytes) (track_access : bool) (repos : gset string) (w : world kvmap) :
  let store := cache_store config image track_access in
  let k := artifact_key (rc_name config) (blob_ref_path_for digest) in
  rc_kind config = Cache upstream_url ttl upstream_auth → rc_store config ∈ w_stores w →
  w_kv w !! k = None →
  fetch_upstream_blob_to_writer upstream_url (default (rc_name config) image) digest upstream_auth =
    Ok (Some (data, (sha256_digest data, blake3_hex data, byte_size data))) →
  sound (ds_blobs store) (ds_store store) repos w → new_id (ds_files store) w (new_v4 (w_uuids w)) →
  (sha256_digest data ≠ digest → ∃ w', run (cache_get_blob full config image digest track_access) w =
     (Some (PError (docker_error "BLOB_UNKNOWN" "upstream blob digest mismatch" 502)), w') ∧ same_store w w') ∧
  ∃ w1, run (cache_head_blob config image digest) w = (Some (PContent "application/octet-stream" digest (byte_size data) None), w1) ∧
    (w_kv w1 !! k ≠ None → ∃ (d : bytes) w2, run (cache_get_blob full config image digest track_access) w1 =
       (Some (PContent "application/octet-stream" digest (byte_size d) (Some d)), w2) ∧ blake3_hex d = blake3_hex data).
Proof using ar_exact br_exact.
  intros store k Hkind Hst Hk Hfetch Hs Hid.
  assert (∀ t, run (blob_exists (cache_store config image t) digest) w = (Some (Ok None), w)) as Hmiss.
  { intros t. rewrite run_blob_exists. unfold old_of. cbn [cache_store pull_store ds_repo]. fold k. by rewrite Hk. }
  split.
  - intros Hne. exists (bump_uuid w). split; [|done]. unfold cache_get_blob.
    rewrite run_bind, run_docker_blob_store by done. fold (cache_store config image track_access). rewrite run_bind, Hmiss, Hkind.
    rewrite run_bind. cbn [call run handle]. rewrite Hfetch. by rewrite decide_True.
  - pose proof (wp_record_blob (cache_store config image true) repos (new_v4 (w_uuids w)) digest data (byte_size data) (w_now w) (bump_uuid w) Hs Hid) as Hput.
    assert (wp (cache_head_blob config image digest) w (λ res w1, res = PContent "application/octet-stream" digest (byte_size data) None ∧
      (w_kv w1 !! k ≠ None → ∃ r, file_at (ds_files store) (blob_ref_path_for digest) r data w1))) as Hhead.
    { unfold cache_head_blob. apply wp_bind. eapply wp_intro; [by apply run_docker_blob_store|]. apply wp_bind.
      eapply wp_intro; [exact (Hmiss true)|]. cbv beta iota. rewrite Hkind. apply wp_bind. eapply wp_intro; [done|]. rewrite Hfetch. cbv beta iota.
      apply wp_bind. eapply wp_intro; [done|]. apply wp_bind. unfold put_cached_blob. apply wp_bind. eapply wp_intro; [done|].
      eapply wp_mono; [exact Hput|]. intros res w1 Hr. apply wp_ret. split; [done|]. intros Hsome.
      destruct res as [ []|e]; [|destruct Hsome; exact (eq_trans Hr Hk)].
      destruct Hr as (_ & bid & Hf). by eexists. }
    apply wp_run in Hhead as (res & w1 & Hrun & -> & Hf). exists w1. split; [done|]. intros Hsome. destruct (Hf Hsome) as (r & Hfile).
    pose proof (run_stores (cache_head_blob config image digest) w) as Hst1. rewrite Hrun in Hst1. cbn [snd] in Hst1.
    enough (wp (cache_get_blob full config image digest track_access) w1 (λ res w2, ∃ d : bytes,
      res = PContent "application/octet-stream" digest (byte_size d) (Some d) ∧ blake3_hex d = blake3_hex data)) as Hget.
    { apply wp_run in Hget as (res & w2 & Hrun2 & d & -> & Hd). by exists d, w2. }
    unfold cache_get_blob. apply wp_bind. eapply wp_intro; [apply run_docker_blob_store; by rewrite Hst1|]. cbv beta iota. fold store.
    destruct (layer_known store digest r data w1 Hfile) as (x & Hx & _). apply wp_bind. eapply wp_intro; [exact Hx|]. cbv beta iota.
    apply wp_bind. eapply wp_mono; [by apply (layer_opened store digest r data)|]. intros res w2 (_ & d & -> & Hd). apply wp_ret. by exists d.
Qed.

(** A tag is in place with its manifest. *)
Definition tag_at self (tag digest ct : string) (updated : DateTime) (r : ArtifactRecord) (data : bytes) w : Prop :=
  record_at (ds_files self) (tag_path_for (ds_image self) tag) (tag_record digest tag ct updated) w ∧
  file_at (ds_files self) (manifest_path_for (ds_image self) digest) r data w.

Lemma tag_at_kept self tag digest ct updated r data w w' : same_store w w' → tag_at self tag digest ct updated r data w → tag_at self tag digest ct updated r data w'.
Proof.
  intros [Hk Hb] [(b & v & id & acc & Hm & Hv) Hf]. split; [|by eapply file_at_same]. exists b, v, id, acc. by rewrite Hk.
Qed.

(** The access time of the artifacts is no part of their age. *)
Lemma run_manifest_expired config image tag digest ct updated r data ttl w :
  tag_at (cache_store config image true) tag digest ct updated r data w → is_digest tag = false →
  run (manifest_expired (rc_name config) image tag ttl) w =
    (Some (bool_decide (ttl > 0 ∧ num_seconds_between (w_now w) updated >= i64_wrap ttl)%Z), w).
Proof.
  intros [(b & v & id & acc & Hm & Hv) _] Hd. unfold manifest_expired. rewrite Hd. case_decide as Ht.
  - rewrite run_bind, run_get_artifact. unfold old_of. cbn [cache_store pull_store ds_files fs_repo ds_repo ds_image] in Hm. rewrite Hm, Hv.
    rewrite run_bind. cbn. do 2 f_equal. apply bool_decide_ext. tauto.
  - cbn. do 2 f_equal. symmetry. apply bool_decide_eq_false. tauto.
Qed.

(** No program moves the clock. *)
Lemma run_now {A} (p : prog A) w : w_now (run p w).2 = w_now w.
Proof.
  revert w. induction p as [a|e k IH|]; intros w; cbn [run]; [done| |done]. destruct (handle e w) as [r w'] eqn:He. rewrite IH.
  destruct e as [o|store o|n| | |ev|]; cbn [handle] in He; try (by injection He as <- <-).
  - destruct (kv_step o (w_kv w)). by injection He as <- <-.
  - destruct o; cbn in He; by injection He as <- <-.
Qed.

(** A probe never finds a cached tag too old.  When a cache has a tag with
    its manifest, a HEAD of the tag answers with the digest it has, however
    old the tag is and whatever the upstream says; a GET asks the upstream when the time to
    live has passed, and answers with what it says.  A client that resolves tags by
    HEAD, and then pulls by digest, never sees a tag move. *)
Theorem probe_ignores_ttl (config : RepoConfig) (image : option string) (tag digest ct upstream_url : string) (ttl : Z)
    (upstream_auth : option UpstreamAuth) (updated : DateTime) (r : ArtifactRecord) (data : bytes) (track_access : bool) (w : world kvmap) :
  rc_kind config = Cache upstream_url ttl upstream_auth → rc_store config ∈ w_stores w → is_digest tag = false →
  tag_at (cache_store config image track_access) tag digest ct updated r data w →
  (∃ size w', run (cache_head_manifest full config image tag) w = (Some (PContent (ar_content_type r) digest size None), w')) ∧
  ∃ res w', run (cache_get_manifest full config image tag track_access) w = (Some res, w') ∧
    if decide (ttl > 0 ∧ num_seconds_between (w_now w) updated >= i64_wrap ttl)%Z then
      ∀ data' ct' digest', fetch_upstream_manifest upstream_url (default (rc_name config) image) tag upstream_auth = Ok (Some (data', ct', digest')) →
        res = manifest_data_response data' ct' digest'
    else ∃ d : bytes, res = manifest_data_response d (ar_content_type r) digest ∧ blake3_hex d = blake3_hex data.
Proof.
  intros Hkind Hst Hdig Hat.
  assert (∀ t, wp (get_manifest full (cache_store config image t) tag) w (λ (res : result (option (bytes * string * string))) w', same_store w w' ∧
    ∃ d : bytes, res = Ok (Some (d, ar_content_type r, digest)) ∧ blake3_hex d = blake3_hex data)) as Hpull.
  { intros t. unfold get_manifest. rewrite Hdig. destruct Hat as [Ht Hf]. by eapply (tag_pulled full (cache_store config image t)). }
  split.
  - enough (wp (cache_head_manifest full config image tag) w (λ res _, ∃ size, res = PContent (ar_content_type r) digest size None)) as Hwp.
    { apply wp_run in Hwp as (res & w' & Hrun & size & ->). by exists size, w'. }
    unfold cache_head_manifest. rewrite Hkind. apply wp_bind. eapply wp_intro; [by apply run_docker_blob_store|]. cbv beta iota.
    apply wp_bind. eapply wp_mono; [exact (Hpull false)|]. intros res w' (_ & d & -> & _). apply wp_ret. by eexists.
  - apply wp_run. unfold cache_get_manifest. rewrite Hkind. apply wp_bind. eapply wp_intro; [by apply run_docker_blob_store|]. cbv beta iota.
    fold (cache_store config image track_access). apply wp_bind.
    destruct (wp_run _ _ _ (Hpull track_access)) as (res & w1 & Hrun & Hsame & d & -> & Hd). eapply wp_intro; [exact Hrun|].
    pose proof (run_now (get_manifest full (cache_store config image track_access) tag) w) as Hnow. rewrite Hrun in Hnow. cbn [snd] in Hnow.
    apply wp_bind. eapply wp_intro.
    { refine (run_manifest_expired config image tag digest ct updated r data ttl w1 _ Hdig).
      apply (tag_at_kept _ _ _ _ _ _ _ w); [done|exact Hat]. }
    rewrite Hnow. case_decide as Hold.
    + rewrite bool_decide_true by done. destruct (fetch_upstream_manifest _ _ _ _) as [ [ [ [data' ct'] digest']|]|e]; [| |]; try (by apply wp_ret).
      destruct (ends_run _ w1 (put_manifest_ends (cache_store config image track_access) tag ct' data')) as (x & w2 & Hput).
      apply wp_bind. eapply wp_intro; [exact Hput|]. apply wp_ret. by intros ? ? ? [= <- <- <-].
    + rewrite bool_decide_false by done. apply wp_ret. by exists d.
Qed.
End cached.

(** ** Pages *)

(** A client that follows the cursors from [last] on; [None] when the fuel runs
    out before the last page. *)
Fixpoint follow (fuel : nat) (names : list string) (n : nat) (last : option string) : option (list (list string)) :=
  match fuel with
  | O => None
  | S fuel =>
      let '(page, next) := paginate_catalog names (mkDockerPaginationParams (Some n) last) in
      match next with
      | Some (_, l) => (λ pages, page :: pages) <$> follow fuel names n (Some l)
      | None => Some [page]
      end
  end.

Lemma none_filtered (P : string → Prop) `{∀ x, Decision (P x)} (l : list string) : (∀ x, x ∈ l → ¬ P x) → filter P l = [].
Proof.
  induction l as [|x l IH]; intros Hn; [done|]. rewrite filter_cons_False by (apply Hn; by left). apply IH. intros y Hy. apply Hn. by right.
Qed.

Lemma all_filtered (P : string → Prop) `{∀ x, Decision (P x)} (l : list string) : (∀ x, x ∈ l → P x) → filter P l = l.
Proof.
  induction l as [|x l IH]; intros Hy; [done|]. rewrite filter_cons_True by (apply Hy; by left). f_equal. apply IH. intros y Hin. apply Hy. by right.
Qed.

Lemma sorted_after (a b : list string) l : StronglySorted str_lt (a ++ b) → last a = Some l → filter (λ t, str_lt l t) (a ++ b) = b.
Proof.
  intros Hs Hl. apply last_Some in Hl as [a' ->]. rewrite filter_app.
  assert (∀ x y, x ∈ a' ++ [l] → y ∈ b → str_lt x y) as Hab.
  { revert Hs. generalize (a' ++ [l]). clear. intros a. induction a as [|z a IH]; intros Hs x y Hx Hy; [by apply elem_of_nil in Hx|].
    apply StronglySorted_inv in Hs as [Hs Hz]. apply elem_of_cons in Hx as [->|Hx]; [|by apply IH].
    rewrite Forall_forall in Hz. apply Hz, elem_of_app. by right. }
  assert (∀ x, x ∈ a' → str_lt x l) as Ha.
  { rewrite <-app_assoc in Hs. cbn in Hs. revert Hs. clear. induction a' as [|z a IH]; intros Hs x Hx; [by apply elem_of_nil in Hx|].
    apply StronglySorted_inv in Hs as [Hs Hz]. apply elem_of_cons in Hx as [->|Hx]; [|by apply IH].
    rewrite Forall_forall in Hz. apply Hz, elem_of_app. right. by left. }
  assert (filter (λ t, str_lt l t) (a' ++ [l]) = []) as ->.
  { apply none_filtered. intros x [Hx| ->%list_elem_of_singleton]%elem_of_app Hlx; [|by apply str_lt_irrefl in Hlx].
    apply (str_lt_irrefl x). etrans; [by apply Ha|done]. }
  cbn. apply all_filtered. intros x Hx. apply Hab; [|done]. apply elem_of_app. right. by left.
Qed.

Lemma follow_sorted names n : 0 < n → StronglySorted str_lt names →
  ∀ fuel pre last_, length (after names last_) < fuel → names = pre ++ after names last_ →
  ∃ pages, follow fuel names n last_ = Some pages ∧ concat pages = after names last_.
Proof.
  intros Hn Hs. induction fuel as [|fuel IH]; intros pre last_ Hlen Hpre; [lia|]. cbn [follow].
  unfold paginate_catalog. cbn [dp_last dp_n default id]. set (rest := after names last_) in *.
  case_decide as Hmore; [|exists [take n rest]; split; [done|]; cbn; rewrite app_nil_r; apply take_ge; lia].
  destruct (last (take n rest)) as [l|] eqn:Hl.
  2:{ apply last_None in Hl. apply (f_equal length) in Hl. rewrite length_take in Hl. cbn in Hl. lia. }
  cbn [fmap option_fmap option_map].
  assert (after names (Some l) = drop n rest) as Hafter.
  { assert ((pre ++ take n rest) ++ drop n rest = names) as Heq by (by rewrite <-app_assoc, take_drop).
    pose proof (sorted_after (pre ++ take n rest) (drop n rest) l) as Hafter. rewrite Heq in Hafter. apply Hafter; [done|].
    by rewrite last_app, Hl. }
  destruct (IH (pre ++ take n rest) (Some l)) as (pages & -> & Hpages).
  - rewrite Hafter, length_drop. lia.
  - by rewrite Hafter, <-app_assoc, take_drop.
  - exists (take n rest :: pages). split; [done|]. cbn. by rewrite Hpages, Hafter, take_drop.
Qed.

Lemma follow_skips names n u fuel l pages : str_le u l → follow fuel names n (Some l) = Some pages → u ∉ concat pages.
Proof.
  revert l pages. induction fuel as [|fuel IH]; intros l pages Hu; cbn [follow]; [done|].
  unfold paginate_catalog. cbn [dp_last dp_n default id after]. set (rest := filter _ names).
  assert (∀ x, x ∈ take n rest → str_lt l x) as Hgt.
  { intros x Hx. apply subseteq_take in Hx. unfold rest in Hx. by apply list_elem_of_filter in Hx as [? _]. }
  assert (u ∉ take n rest) as Hni.
  { intros Hx%Hgt. apply (str_lt_irrefl u). by eapply str_le_lt_trans. }
  case_decide.
  - destruct (last (take n rest)) as [l'|] eqn:Hl; cbn.
    + destruct (follow fuel names n (Some l')) as [pages'|] eqn:Hf; [|done]. intros [= <-]. cbn. rewrite elem_of_app. intros [?|Hin]; [done|].
      revert Hin. apply (IH l'); [|done]. apply str_lt_le. eapply str_le_lt_trans; [exact Hu|]. apply Hgt. by apply last_Some_elem_of.
    + intros [= <-]. cbn. by rewrite app_nil_r.
  - intros [= <-]. cbn. by rewrite app_nil_r.
Qed.

(** What a client sees that follows the pages of a listing.  Of a sorted
    list without repetition, such as the catalog of images, it sees every name
    exactly once, in order, and the pages end.  Of a list in any other order, such as the
    tags of a repository, which come in the order of the shards, it never sees
    a name that is before the last name of the first page and not on that
    page. *)
Theorem pages_need_order (names : list string) (n : nat) :
  (0 < n → StronglySorted str_lt names → ∃ pages, follow (S (length names)) names n None = Some pages ∧ concat pages = names) ∧
  ∀ l fuel pages u, (paginate_catalog names (mkDockerPaginationParams (Some n) None)).2 = Some (n, l) →
    follow fuel names n None = Some pages →
    u ∉ (paginate_catalog names (mkDockerPaginationParams (Some n) None)).1 → str_le u l → u ∉ concat pages.
Proof.
  split.
  - intros Hn Hs. apply (follow_sorted names n Hn Hs (S (length names)) [] None); [cbn; lia|done].
  - intros l [|fuel] pages u Hnext; [done|]. cbn [follow]. destruct (paginate_catalog _ _) as [page next]. cbn [fst snd] in *. rewrite Hnext.
    destruct (follow fuel names n (Some l)) as [pages'|] eqn:Hf; [|done]. intros [= <-] Hpage Hu. cbn. rewrite elem_of_app.
    intros [?|Hin]; [done|]. by eapply follow_skips.
Qed.

(** The tags of a repository come in the order of its shards: here a client
    that asks for one at a time never sees the first. *)
Example tag_lost_between_pages : follow 5 ["latest"; "1.0"] 1 None = Some [["latest"]; []] ∧ follow 5 ["1.0"; "latest"] 1 None = Some [["1.0"]; ["latest"]].
Proof. split; vm_compute; reflexivity. Qed.

(** ** Witnesses *)

(** An upstream that answers every request with the same data. *)
Definition toy_registry : RegistryClient :=
  let answer := inr (mkResponse 200 "200 OK" (λ _, None) None [inr "abc"]) in
  {| registry_get := λ _ _ _, answer; registry_get_bearer := λ _ _ _, answer; token_get := λ _ _ _, answer; url_parses := λ _, true |}.

Definition toy_cache : RepoConfig := toy_repo "r" (Cache "http://up" 60 None) false.
Definition toy_probed : ArtifactRecord :=
  let _ := toy_blake3 in ar_prepared (layer_record "sha256:00" 3 "uuid-0" (blake3_hex "abc") 0%Z) "uuid-1" 0%Z (blob_ref_path_for "sha256:00").

Lemma probe_fills_cache_unchecked_witness :
  let _ := toy_blake3 in let _ := table_serde [toy_probed] in let _ := toy_te_serde in let _ := table_serde [toy_first_blob "abc"] in
  let _ := toy_digests in let _ := toy_registry in let _ := toy_json in let _ := toy_uuid in
  sha256_digest "abc" ≠ "sha256:00" ∧
  (∃ w', run (cache_get_blob false toy_cache None "sha256:00" false) toy_files_world =
     (Some (PError (docker_error "BLOB_UNKNOWN" "upstream blob digest mismatch" 502)), w')) ∧
  ∃ w1 (d : bytes) w2, run (cache_head_blob toy_cache None "sha256:00") toy_files_world =
      (Some (PContent "application/octet-stream" "sha256:00" 3 None), w1) ∧
    run (cache_get_blob false toy_cache None "sha256:00" false) w1 =
      (Some (PContent "application/octet-stream" "sha256:00" (byte_size d) (Some d)), w2) ∧ blake3_hex d = blake3_hex "abc".
Proof.
  intros ? ? ? ? ? ? ? ?.
  destruct (@probe_fills_cache_unchecked toy_blake3 (table_serde [toy_probed]) toy_te_serde (table_serde [toy_first_blob "abc"]) toy_digests
    toy_registry toy_json toy_uuid (table_serde_exact _) (table_serde_exact _) false toy_cache None "sha256:00" "http://up" 60%Z None "abc" false
    {["r"]} toy_files_world) as (Hrefused & w1 & Hrun & Hpull);
    [reflexivity|by_decide|vm_compute; reflexivity|vm_compute; reflexivity|apply toy_files_sound|apply toy_files_new|].
  assert (sha256_digest "abc" ≠ "sha256:00") as Hne by (vm_compute; discriminate).
  split; [exact Hne|]. split; [destruct (Hrefused Hne) as (w' & Hget & _); exists w'; exact Hget|].
  pose proof (f_equal snd Hrun) as Hw. cbn [snd] in Hw. destruct Hpull as (d & w2 & Hget & Hd).
  - rewrite <-Hw. vm_compute. discriminate.
  - exists w1, d, w2. split; [exact Hrun|]. split; [exact Hget|exact Hd].
Defined.

(** A cached tag, and a clock that is an hour later. *)
Definition toy_cached_manifest : ArtifactRecord :=
  mkArtifactRecord 5 "" 2 "ct" 0%Z 0%Z 0%Z "" (KDockerManifest "sha256:00") false (Some "mb") None None.
Definition toy_cached_tag : ArtifactRecord := tag_record "sha256:00" "latest" "ct" 0%Z.
Definition toy_cached : list ArtifactRecord :=
  [ar_prepared toy_cached_tag "id" 0%Z (tag_path_for (Some "img") "latest");
   ar_prepared toy_cached_manifest "id" 0%Z (manifest_path_for (Some "img") "sha256:00")].
Definition toy_cached_world : world kvmap :=
  let _ := toy_blake3 in
  mkWorld (list_to_map [(artifact_key "r" (tag_path_for (Some "img") "latest"), ("0", 1%Z));
    (artifact_key "r" (manifest_path_for (Some "img") "sha256:00"), ("1", 1%Z))]) {[("s", "mb") := "ab"]} {["s"]} 3600000000000%Z 0 [] false.

Lemma probe_ignores_ttl_witness :
  let _ := toy_blake3 in let _ := table_serde toy_cached in let _ := toy_te_serde in let _ := table_serde ([] : list BlobRecord) in
  let _ := toy_digests in let _ := toy_registry in let _ := toy_json in let _ := toy_uuid in
  (∃ size w', run (cache_head_manifest false toy_cache (Some "img") "latest") toy_cached_world = (Some (PContent "ct" "sha256:00" size None), w')) ∧
  ∃ w', run (cache_get_manifest false toy_cache (Some "img") "latest" true) toy_cached_world =
    (Some (manifest_data_response "abc" OCI_MANIFEST_V1 (toy_sha "abc")), w').
Proof.
  intros ? ? ? ? ? ? ? ?.
  destruct (@probe_ignores_ttl toy_blake3 (table_serde toy_cached) toy_te_serde (table_serde []) toy_digests toy_registry toy_json toy_uuid
    false toy_cache (Some "img") "latest" "sha256:00" "ct" "http://up" 60%Z None 0%Z toy_cached_manifest "ab" true toy_cached_world)
    as (Hhead & res & w' & Hrun & Hold); [reflexivity|by_decide|reflexivity| |].
  - split.
    + exists "0", 1%Z, "id", 0%Z. split; vm_compute; reflexivity.
    + split; [exists "1", 1%Z, "id", 0%Z; split; vm_compute; reflexivity|].
      exists "mb", "ab". split_and!; [reflexivity|discriminate|vm_compute; reflexivity|reflexivity].
  - split; [exact Hhead|]. exists w'. rewrite decide_True in Hold by by_decide.
    rewrite <-(Hold "abc" OCI_MANIFEST_V1 (toy_sha "abc")) by (vm_compute; reflexivity). exact Hrun.
Defined.
