(* ===== verification/Json.v ===== *)
(** * JSON documents

    The values of the [serde_json] crate, which the handlers of Cargo and npm
    build and take apart.  The text of a value, and the value of a text, are
    those of the crate, which is a parameter, as is [urlencoding]. *)

From S2P Require Import Prelude Bytes.

(** A number is kept as its text; the fields of an object are sorted by name
    and have different names. *)
Inductive Json : Type :=
| JNull
| JBool (b : bool)
| JNumber (text : string)
| JString (s : string)
| JArray (l : list Json)
| JObject (fields : list (string * Json)).

(** [serde_json::to_string] of a value, which does not fail and writes no line
    break, and [serde_json::from_str], with the text of its error; what has
    been written is read back. *)
Class JsonText := {
  json_to_string : Json → string;
  json_parse : string → option Json;
  json_error : string → string;
  json_one_line : ∀ v, has_char (ascii_of_N 10) (json_to_string v) = false;
}.

(** [urlencoding::decode]. *)
Class UrlEncoding := url_decode : string → option string.

(** [json!] of an optional and of a list of values. *)
Definition json_option {A : Type} (f : A → Json) (o : option A) : Json := match o with Some a => f a | None => JNull end.
Definition json_list {A : Type} (f : A → Json) (l : list A) : Json := JArray (f <$> l).

Definition Fields : Type := list (string * Json).

(** [map.get(name)]. *)
Fixpoint field_get (name : string) (l : Fields) : option Json :=
  match l with
  | [] => None
  | (k, x) :: l => if decide (k = name) then Some x else field_get name l
  end.

(** [map.insert(name, v)]. *)
Fixpoint field_insert (name : string) (v : Json) (l : Fields) : Fields :=
  match l with
  | [] => [(name, v)]
  | (k, x) :: l =>
      if decide (k = name) then (name, v) :: l
      else if String.ltb name k then (name, v) :: (k, x) :: l
      else (k, x) :: field_insert name v l
  end.

(** [v.as_object()], [v.as_str()] and [v.get(name)]. *)
Definition json_object (v : Json) : option Fields := match v with JObject l => Some l | _ => None end.
Definition json_str (v : Json) : option string := match v with JString s => Some s | _ => None end.
Definition json_field (name : string) (v : Json) : option Json := json_object v ≫= field_get name.
Definition json_str_field (name : string) (v : Json) : option string := json_field name v ≫= json_str.

(** An object from fields in any order, the last one of a name winning. *)
Definition json_from_list (l : Fields) : Json := JObject (foldl (λ acc f, field_insert f.1 f.2 acc) [] l).

Lemma field_get_insert name name' v l :
  field_get name (field_insert name' v l) = if decide (name = name') then Some v else field_get name l.
Proof.
  induction l as [|[k x] l IH]; cbn [field_insert field_get]; [repeat case_decide; naive_solver|].
  destruct (decide (k = name')) as [->|Hk]; [cbn [field_get]; repeat case_decide; naive_solver|].
  destruct (String.ltb name' k); cbn [field_get]; [repeat case_decide; naive_solver|].
  rewrite IH. repeat case_decide; naive_solver.
Qed.
