(* ===== verification/Cargo.v ===== *)
(** * Cargo registries (format/cargo/src/store.rs, api.rs)

    Crates are artifacts with the metadata of their version; the sparse index
    of a crate is built from them on every request.  The theorems say that a
    published crate is downloaded and indexed, and what a yank changes. *)

From S2P Require Import Prelude Bytes Text Errors Keys Records Kv Prog Wp Effects Scan Pagination Update Artifact Blob Repo Directory Ingest Accounts BulkDelete TreeRebuild.
From S2P Require Import BloomFilter UpdateWorker Batches Check CheckScan DockerGc Cache Auth ApiHelpers Package Json.

(** ** Answers *)

(** What a handler answers: success, an error of the protocol with its status,
    an error of the server, a document, or an index file with its tag. *)
Inductive CargoReply : Type :=
| CargoOk
| CargoError (status : nat) (msg : string)
| CargoFail (e : DepotError)
| CargoJson (body : Json)
| CargoIndex (etag : string) (body : bytes)
| CargoFile (content_type : string) (size : Z) (body : bytes).

(** format/cargo/src/api.rs:32-42 *)
Definition cargo_error (status : nat) (msg : string) : CargoReply := CargoError status msg.
(** format/cargo/src/api.rs:45-53 *)
Definition cargo_ok : CargoReply := CargoOk.

(** Whether the status is 200. *)
Definition cargo_status_ok (r : CargoReply) : bool :=
  match r with CargoError _ _ | CargoFail _ => false | _ => true end.

(** ** Paths *)

Section paths.
Context `{Unicode}.

(** format/cargo/src/store.rs:25-27 *)
Definition normalize_crate_name (name : string) : string := replace_char "-" "_" (to_lowercase name).

(** format/cargo/src/store.rs:30-43 *)
Definition index_prefix (name : string) : string :=
  let lower := to_lowercase name in
  match String.length lower with
  | 0 | 1 => "1"
  | 2 => "2"
  | 3 => "3/" +:+ default "" (str_get 0 1 lower)
  | _ => default "" (str_get 0 2 lower) +:+ "/" +:+ default "" (str_get 2 4 lower)
  end.

(** format/cargo/src/store.rs:46-49 *)
Definition crate_path (name version : string) : string :=
  let norm := normalize_crate_name name in
  "_crates/" +:+ norm +:+ "/" +:+ version +:+ "/" +:+ name +:+ "-" +:+ version +:+ ".crate".
End paths.

(** ** The metadata of a publication *)

(** format/cargo/src/api.rs:309-326 *)
Record PublishDep : Type := mkPublishDep {
  pd_name : string;
  pd_version_req : string;
  pd_features : list string;
  pd_optional : bool;
  pd_default_features : bool;
  pd_target : option string;
  pd_kind : string;
  pd_registry : option string;
  pd_explicit_name_in_toml : option string;
}.

(** format/cargo/src/api.rs:293-306 *)
Record PublishMeta : Type := mkPublishMeta {
  pm_name : string;
  pm_vers : string;
  pm_deps : list PublishDep;
  pm_features : Json;
  pm_features2 : option Json;
  pm_links : option string;
  pm_rust_version : option string;
}.

(** The metadata of a text, or the message of the error. *)
Class PublishJson := publish_from_slice : bytes → string + PublishMeta.

(** A dependency that is renamed in the manifest keeps its name as the package. *)
(** format/cargo/src/api.rs:453-470 *)
Definition crate_dep (d : PublishDep) : CrateDep :=
  mkCrateDep (default (pd_name d) (pd_explicit_name_in_toml d)) (pd_version_req d) (pd_features d) (pd_optional d)
    (pd_default_features d) (pd_target d) (pd_kind d) (pd_registry d) ((λ _, pd_name d) <$> pd_explicit_name_in_toml d).

Section meta.
Context `{JsonText}.

(** format/cargo/src/api.rs:472-491 *)
Definition version_meta (meta : PublishMeta) (sha256 : string) : CrateVersionMeta :=
  let features_str := match pm_features meta with JNull => "{}" | v => json_to_string v end in
  let features2_str := json_to_string <$> pm_features2 meta in
  mkCrateVersionMeta (pm_name meta) (pm_vers meta) (crate_dep <$> pm_deps meta) sha256 features_str features2_str false
    (pm_links meta) (pm_rust_version meta).

(** [serde_json] of a dependency. *)
Definition dep_json (d : CrateDep) : Json :=
  JObject [("name", JString (dep_name d)); ("req", JString (dep_req d)); ("features", json_list JString (dep_features d));
    ("optional", JBool (dep_optional d)); ("default_features", JBool (dep_default_features d));
    ("target", json_option JString (dep_target d)); ("kind", JString (dep_kind d)); ("registry", json_option JString (dep_registry d));
    ("package", json_option JString (dep_package d))].

(** The line of a version in the index. *)
(** format/cargo/src/store.rs:260-277 *)
Definition index_entry (cargo : CrateVersionMeta) : Json :=
  let features := default (JObject []) (json_parse (crate_features cargo)) in
  let features2 := crate_features2 cargo ≫= json_parse in
  JObject [("name", JString (crate_name cargo)); ("vers", JString (crate_vers cargo)); ("deps", json_list dep_json (crate_deps cargo));
    ("cksum", JString (crate_cksum cargo)); ("features", features); ("features2", json_option id features2);
    ("yanked", JBool (crate_yanked cargo)); ("links", json_option JString (crate_links cargo));
    ("rust_version", json_option JString (crate_rust_version cargo)); ("v", JNumber "2")].

Definition NEWLINE : string := singleton_str (ascii_of_N 10).

Definition index_line (r : ArtifactRecord) : string :=
  match ar_kind r with
  | KCargoCrate cargo => json_to_string (index_entry cargo) +:+ NEWLINE
  | _ => ""
  end.
End meta.

(** ** The store *)

Section cargo.
Context `{Unicode} `{JsonText} `{PublishJson} `{UrlEncoding}.
Context `{Blake3} `{Serde ArtifactRecord} `{Serde TreeEntry} `{Serde BlobRecord} `{Serde RepoConfig} `{Digests} `{Scheduler} {B : Type} `{AuthBackend B}.
Context (fuel : nat).

(** format/cargo/src/store.rs:62-130 *)
Definition publish_crate (self : FormatStore) (meta : CrateVersionMeta) (crate_bytes : bytes) : prog (result ArtifactRecord) :=
  let sha256_hash := sha256_hex crate_bytes in
  if decide (crate_cksum meta ≠ sha256_hash) then
    Ret (Err (BadRequest ("SHA-256 mismatch: metadata says " +:+ crate_cksum meta +:+ ", computed " +:+ sha256_hash)))
  else put_file self (crate_path (crate_name meta) (crate_vers meta)) (KCargoCrate meta) false "application/x-tar" crate_bytes.

(** format/cargo/src/store.rs:133-189 *)
Definition commit_crate (self : FormatStore) (meta : CrateVersionMeta) (blob_id blake3_hash : string) (size : Z) :
    prog (result ArtifactRecord) :=
  commit_file self (crate_path (crate_name meta) (crate_vers meta)) (KCargoCrate meta) false "application/x-tar" blob_id blake3_hash size.

(** format/cargo/src/store.rs:192-212 *)
Definition get_crate (self : FormatStore) (name version : string) : prog (result (option (bytes * Z * ArtifactRecord))) :=
  get_file self (crate_path name version).

Definition yanked_record (r : ArtifactRecord) (cargo : CrateVersionMeta) (yanked : bool) (now : DateTime) : ArtifactRecord :=
  mkArtifactRecord (ar_schema_version r) (ar_id r) (ar_size r) (ar_content_type r) (ar_created_at r) now (ar_last_accessed_at r) (ar_path r)
    (KCargoCrate (mkCrateVersionMeta (crate_name cargo) (crate_vers cargo) (crate_deps cargo) (crate_cksum cargo) (crate_features cargo)
      (crate_features2 cargo) yanked (crate_links cargo) (crate_rust_version cargo)))
    (ar_internal r) (ar_blob_id r) (ar_content_hash r) (ar_etag r).

(** format/cargo/src/store.rs:215-246 *)
Definition set_yanked (self : FormatStore) (name version : string) (yanked : bool) : prog (result bool) :=
  let path := crate_path name version in
  let*? record := get_artifact (fs_repo self) path in
  match record with
  | None => Ret (Ok false)
  | Some record =>
      match ar_kind record with
      | KCargoCrate cargo =>
          let* now := call ENow in
          let*? _ := put_counted (fs_repo self) path (yanked_record record cargo yanked now) in
          Ret (Ok true)
      | _ => Ret (Ok false)
      end
  end.

(** format/cargo/src/store.rs:249-290 *)
Definition build_index_entry (self : FormatStore) (name : string) : prog (result string) :=
  let norm := normalize_crate_name name in
  let prefix := "_crates/" +:+ norm +:+ "/" in
  fold_all_artifacts (arrange 93 shard_range) fuel (fs_repo self) prefix ""
    (λ acc _ record, Ok (acc +:+ index_line record)) (λ a b, a +:+ b).

(** The second of at most four segments. *)
Definition crate_of_path (sk : string) : option string := splitn 4 SLASH sk !! 1.

(** format/cargo/src/store.rs:293-316 *)
Definition list_crates (self : FormatStore) : prog (result (list string)) :=
  let*? seen := fold_all_artifacts (arrange 94 shard_range) fuel (fs_repo self) "_crates/" (∅ : gset string)
    (λ acc sk _, Ok match crate_of_path sk with Some name => {[name]} ∪ acc | None => acc end) (∪) in
  Ret (Ok (sorted_vec seen)).

(** ** Reading *)

Definition QUOTE : string := singleton_str (ascii_of_nat 34).

(** format/cargo/src/api.rs:232-261 *)
Definition hosted_index_entry (config : RepoConfig) (name : string) : prog CargoReply :=
  let* r := resolve_blob_store (rc_store config) in
  match r with
  | Err e => Ret (CargoFail e)
  | Ok blobs =>
      let* r := build_index_entry (mkFormatStore (rc_name config) blobs (rc_store config)) name in
      Ret match r with
          | Ok body => if decide (body = "") then cargo_error 404 "crate not found" else CargoIndex (QUOTE +:+ blake3_hex body +:+ QUOTE) body
          | Err e => CargoFail e
          end
  end.

(** format/cargo/src/api.rs:513-547 *)
Definition hosted_download (config : RepoConfig) (name version : string) : prog CargoReply :=
  let* r := resolve_blob_store (rc_store config) in
  match r with
  | Err e => Ret (CargoFail e)
  | Ok blobs =>
      let* r := get_crate (mkFormatStore (rc_name config) blobs (rc_store config)) name version in
      Ret match r with
          | Ok (Some (reader, size, _)) => CargoFile "application/x-tar" size reader
          | Ok None => cargo_error 404 "crate not found"
          | Err e => cargo_error 500 (display_error e)
          end
  end.

(** The members are asked for what they have themselves, one after the other. *)
Fixpoint try_cargo_members (ask : RepoConfig → prog CargoReply) (members : list string) : prog CargoReply :=
  match members with
  | [] => Ret (cargo_error 404 "crate not found in any member")
  | member_name :: members =>
      let* r := get_repo member_name in
      match r with
      | Ok (Some c) =>
          if decide (repo_format c = FCargo) then
            let* resp := ask c in
            if cargo_status_ok resp then Ret resp else try_cargo_members ask members
          else try_cargo_members ask members
      | _ => try_cargo_members ask members
      end
  end.

Definition from_members (ask : RepoConfig → prog CargoReply) (config : RepoConfig) : prog CargoReply :=
  match rc_kind config with
  | Proxy members _ => try_cargo_members ask members
  | _ => Ret (cargo_error 500 "expected proxy repo kind")
  end.

(** format/cargo/src/api.rs:263-285 *)
Definition proxy_index_entry (config : RepoConfig) (name : string) : prog CargoReply :=
  from_members (λ c, hosted_index_entry c name) config.

(** format/cargo/src/api.rs:549-576 *)
Definition proxy_download (config : RepoConfig) (name version : string) : prog CargoReply :=
  from_members (λ c, hosted_download c name version) config.

Definition config_json (config : RepoConfig) : Json :=
  JObject [("dl", JString ("/repository/" +:+ rc_name config +:+ "/api/v1/crates/{crate}/{version}/download"));
    ("api", JString ("/repository/" +:+ rc_name config))].

(** The value of the first parameter [q=]. *)
Definition search_filter (query : option string) : string :=
  default "" (query ≫= λ q, head (omap (λ p, default "" ∘ url_decode <$> strip_prefix p "q=") (split_char "&" q))).

(** format/cargo/src/api.rs:112-161 *)
Definition search_crates (config : RepoConfig) (query : option string) : prog CargoReply :=
  let* r := resolve_blob_store (rc_store config) in
  match r with
  | Err e => Ret (CargoFail e)
  | Ok blobs =>
      let* r := list_crates (mkFormatStore (rc_name config) blobs (rc_store config)) in
      Ret match r with
          | Err e => CargoFail e
          | Ok crates =>
              let filter_lc := to_lowercase (search_filter query) in
              let results := filter (λ name, search_filter query = "" ∨ contains (to_lowercase name) filter_lc = true) crates in
              CargoJson (JObject [
                ("crates", json_list (λ name, JObject [("name", JString name); ("max_version", JString "0.0.0"); ("description", JString "")]) results);
                ("meta", JObject [("total", JNumber (show_nat (length results)))])])
          end
  end.

(** The name and the version of a download. *)
(** format/cargo/src/api.rs:96-110 *)
Definition parse_download (path : string) : option (string * string) :=
  match strip_prefix path "api/v1/crates/" ≫= λ rest, strip_suffix rest "/download" with
  | Some tail =>
      match rsplit_once SLASH tail with
      | Some (crate_name, version) => if decide (crate_name ≠ "" ∧ version ≠ "") then Some (crate_name, version) else None
      | None => None
      end
  | None => None
  end.

(** The crate of an index file: the last segment. *)
(** format/cargo/src/api.rs:80-94 *)
Definition parse_index (path : string) : option string :=
  match strip_prefix path "index/" with
  | Some rest => let crate_name := rsplit_last SLASH rest in if decide (rest ≠ "" ∧ crate_name ≠ "") then Some crate_name else None
  | None => None
  end.

(** [None]: the path is none of the protocol. *)
(** format/cargo/src/api.rs:59-166 *)
Definition try_handle_repository_path (config : RepoConfig) (path : string) (query : option string) : prog (option CargoReply) :=
  if decide (path = "index/config.json") then Ret (Some (CargoJson (config_json config)))
  else
    match parse_index path with
    | Some crate_name =>
        let* reply := match kind_repo_type (rc_kind config) with
          | RTProxy => proxy_index_entry config crate_name
          | _ => hosted_index_entry config crate_name
          end in
        Ret (Some reply)
    | None =>
        match parse_download path with
        | Some (crate_name, version) =>
            let* reply := match kind_repo_type (rc_kind config) with
              | RTProxy => proxy_download config crate_name version
              | _ => hosted_download config crate_name version
              end in
            Ret (Some reply)
        | None =>
            if decide (path = "api/v1/crates") then let* reply := search_crates config query in Ret (Some reply)
            else Ret None
        end
    end.

(** ** Writing *)

(** The metadata and the crate of the body of a publication. *)
(** format/cargo/src/api.rs:365-420 *)
Definition parse_publish (buf : bytes) : CargoReply + (PublishMeta * bytes) :=
  let len := String.length buf in
  if decide (len < 4) then inl (cargo_error 400 "request body too short")
  else
    let json_len := Z.to_nat (from_le_bytes (str_take 4 buf)) in
    let offset := 4 in
    if decide (len < offset + json_len) then inl (cargo_error 400 "request body too short for metadata")
    else
      let json_bytes := str_take json_len (str_drop offset buf) in
      let offset := offset + json_len in
      match publish_from_slice json_bytes with
      | inl e => inl (cargo_error 400 ("invalid metadata JSON: " +:+ e))
      | inr meta =>
          if decide (len < offset + 4) then inl (cargo_error 400 "request body too short for crate length")
          else
            let crate_len := Z.to_nat (from_le_bytes (str_take 4 (str_drop offset buf))) in
            let offset := offset + 4 in
            if decide (len < offset + crate_len) then
              inl (cargo_error 400 ("request body too short for crate data: expected " +:+ show_nat crate_len +:+ " bytes, got " +:+
                show_nat (len - offset)))
            else inr (meta, str_take crate_len (str_drop offset buf))
      end.

(** What a write does once it is permitted, on the store of the repository it
    goes to. *)
Definition cargo_write (auth : B) (user : string) (config : RepoConfig) (f : FormatStore → prog CargoReply) : prog (CargoReply * B) :=
  let* a := check_permission auth user (rc_name config) CapWrite in
  let '(r, auth) := a in
  match r with
  | Err e => Ret (CargoFail e, auth)
  | Ok _ =>
      let* r :=
        let*! t := resolve_format_write_target config FCargo else (λ e, cargo_error 400 (display_error e)) in
        let*! blobs := resolve_blob_store (rc_store config) else CargoFail in
        let* reply := f (mkFormatStore t.1 blobs (rc_store config)) in
        Ret (inr reply) in
      Ret (finished r, auth)
  end.

(** The body is written before the metadata is recorded. *)
Definition publish (store : FormatStore) (body_bytes : bytes) : prog CargoReply :=
  match parse_publish body_bytes with
  | inl reply => Ret reply
  | inr (meta, crate_bytes) =>
      let* blob_id := call EUuid in
      let* r := blob (fs_blobs store) (BPut blob_id crate_bytes) in
      match r with
      | Err e => Ret (cargo_error 500 ("blob write failed: " +:+ display_error e))
      | Ok _ =>
          let* r := commit_crate store (version_meta meta (sha256_hex crate_bytes)) blob_id (blake3_hex crate_bytes) (byte_size crate_bytes) in
          Ret match r with Ok _ => cargo_ok | Err e => cargo_error 500 (display_error e) end
      end
  end.

(** format/cargo/src/api.rs:338-511 *)
Definition handle_publish (auth : B) (user : string) (config : RepoConfig) (body_bytes : bytes) : prog (CargoReply * B) :=
  cargo_write auth user config (λ store, publish store body_bytes).

(** format/cargo/src/api.rs:579-620 *)
Definition handle_set_yanked (auth : B) (user : string) (config : RepoConfig) (crate_name version : string) (yanked : bool) :
    prog (CargoReply * B) :=
  cargo_write auth user config (λ store,
    let* r := set_yanked store crate_name version yanked in
    Ret match r with
        | Ok true => cargo_ok
        | Ok false => cargo_error 404 "crate version not found"
        | Err e => cargo_error 500 (display_error e)
        end).

(** The crate and the version of a path that ends in [verb]. *)
Definition parse_yank (verb path : string) : option (string * string) :=
  match strip_prefix path "api/v1/crates/" ≫= λ rest, strip_suffix rest verb with
  | Some rest =>
      match split_slash rest with
      | [crate_name; version] => if decide (crate_name ≠ "" ∧ version ≠ "") then Some (crate_name, version) else None
      | _ => None
      end
  | None => None
  end.

(** format/cargo/src/api.rs:174-230 *)
Definition try_handle_repository_write (auth : B) (user : string) (config : RepoConfig) (method path : string) (body : bytes) :
    prog (option CargoReply * B) :=
  let some (p : prog (CargoReply * B)) := let* r := p in let '(reply, auth) := r in Ret (Some reply, auth) in
  if decide (method = "PUT" ∧ path = "api/v1/crates/new") then some (handle_publish auth user config body)
  else if decide (method = "DELETE") then
    match parse_yank "/yank" path with
    | Some (crate_name, version) => some (handle_set_yanked auth user config crate_name version true)
    | None => Ret (None, auth)
    end
  else if decide (method = "PUT") then
    match parse_yank "/unyank" path with
    | Some (crate_name, version) => some (handle_set_yanked auth user config crate_name version false)
    | None => Ret (None, auth)
    end
  else Ret (None, auth).
End cargo.

(** ** The wire format of a publication *)

Lemma take_le n z (rest : bytes) : str_take n (to_le_bytes n z +:+ rest) = to_le_bytes n z.
Proof. rewrite <-(to_le_bytes_length n z) at 1. apply str_take_app. Qed.

Lemma drop_le n z (rest : bytes) : str_drop n (to_le_bytes n z +:+ rest) = rest.
Proof. rewrite <-(to_le_bytes_length n z) at 1. apply str_drop_app. Qed.

Lemma str_drop_drop (a b : nat) (s : string) : str_drop b (str_drop a s) = str_drop (a + b) s.
Proof. revert a. induction s as [|c s IH]; intros [|a]; cbn; [by destruct b|by destruct b|done|apply IH]. Qed.

(** The body that cargo sends. *)
Definition publish_body (json crate_bytes : bytes) : bytes :=
  to_le_bytes 4 (byte_size json) +:+ (json +:+ (to_le_bytes 4 (byte_size crate_bytes) +:+ crate_bytes)).

(** What is sent is what is read. *)
Lemma parse_publish_body `{PublishJson} (json crate_bytes : bytes) : (byte_size json < 2 ^ 32)%Z → (byte_size crate_bytes < 2 ^ 32)%Z →
  parse_publish (publish_body json crate_bytes) =
    match publish_from_slice json with
    | inl e => inl (cargo_error 400 ("invalid metadata JSON: " +:+ e))
    | inr meta => inr (meta, crate_bytes)
    end.
Proof.
  intros Hj Hc. unfold parse_publish, publish_body.
  set (j4 := to_le_bytes 4 (byte_size json)). set (c4 := to_le_bytes 4 (byte_size crate_bytes)). set (body := j4 +:+ _).
  assert (String.length body = 4 + String.length json + 4 + String.length crate_bytes) as Hlen.
  { unfold body. rewrite !str_length_app. unfold j4, c4. rewrite !to_le_bytes_length. lia. }
  assert (∀ z, (z < 2 ^ 32)%Z → (0 ≤ z)%Z → from_le_bytes (to_le_bytes 4 z) = z) as Hle.
  { intros z Hz H0'. apply from_to_le_bytes. change (256 ^ Z.of_nat 4)%Z with (2 ^ 32)%Z. lia. }
  rewrite Hlen, decide_False by lia.
  assert (str_take 4 body = j4) as -> by apply take_le. assert (str_drop 4 body = json +:+ (c4 +:+ crate_bytes)) as Hd by apply drop_le.
  unfold j4. rewrite (Hle (byte_size json)) by (unfold byte_size in *; lia).
  assert (Z.to_nat (byte_size json) = String.length json) as -> by (unfold byte_size; lia).
  rewrite decide_False by lia. rewrite Hd, str_take_app. destruct (publish_from_slice json) as [e|meta]; [done|].
  rewrite decide_False by lia.
  assert (str_drop (4 + String.length json) body = c4 +:+ crate_bytes) as Hd2 by (by rewrite <-str_drop_drop, Hd, str_drop_app).
  assert (str_drop (4 + String.length json + 4) body = crate_bytes) as Hd3 by (rewrite <-str_drop_drop, Hd2; apply drop_le).
  rewrite Hd2, Hd3. assert (str_take 4 (c4 +:+ crate_bytes) = c4) as -> by apply take_le.
  unfold c4. rewrite (Hle (byte_size crate_bytes)) by (unfold byte_size in *; lia).
  assert (Z.to_nat (byte_size crate_bytes) = String.length crate_bytes) as -> by (unfold byte_size; lia).
  rewrite decide_False by lia. do 2 f_equal. rewrite <-(str_app_nil_r crate_bytes) at 2. apply str_take_app.
Qed.

(** ** Published crates *)

Definition str_concat (l : list string) : string := foldr String.append "" l.

Lemma list_ascii_concat (l : list string) : String.list_ascii_of_string (str_concat l) = concat (String.list_ascii_of_string <$> l).
Proof.
  induction l as [|s l IH]; [done|]. cbn [str_concat foldr fmap list_fmap concat]. rewrite <-IH. clear IH.
  induction s as [|c s IH]; [done|]. cbn. by rewrite <-IH.
Qed.

Lemma list_ascii_app (a b : string) : String.list_ascii_of_string (a +:+ b) = String.list_ascii_of_string a ++ String.list_ascii_of_string b.
Proof. induction a as [|c a IH]; [done|]. cbn. by rewrite <-IH. Qed.

Lemma str_concat_elem x l : x ∈ l → ∃ a b, str_concat l = a +:+ x +:+ b.
Proof.
  intros Hx. apply list_elem_of_split in Hx as (l1 & l2 & ->). exists (str_concat l1), (str_concat l2).
  induction l1 as [|y l1 IH]; [done|]. cbn [app str_concat foldr]. unfold str_concat in IH. by rewrite IH, str_app_assoc.
Qed.

Section index.
Context `{Unicode} `{JsonText} `{Blake3} `{Serde ArtifactRecord} `{Scheduler} `{UuidGen} (fuel : nat).
Implicit Types (w : world kvmap) (m : kvmap).

(** The index of a crate is the lines of its records, in some order. *)
Lemma run_build_index self name w : all_readable (w_kv w) (fs_repo self) → enough (w_kv w) fuel (fs_repo self) →
  ∃ records, run (build_index_entry fuel self name) w = (Some (Ok (str_concat (index_line <$> records))), w) ∧
    ∀ r, r ∈ records ↔ ∃ sk, starts_with sk ("_crates/" +:+ normalize_crate_name name +:+ "/") = true ∧ stored (w_kv w) (fs_repo self) sk r.
Proof.
  intros Hread He. unfold build_index_entry. set (prefix := "_crates/" +:+ _).
  pose proof (arrange_perm _ 93 shard_range) as Hperm.
  destruct (run_fold_all 93 fuel (fs_repo self) prefix (λ acc _ r, acc +:+ index_line r) "" String.append w) as [ (r & Hrun & Hok & _ & Hview)|[_ Hno] ]; [|done].
  specialize (Hok Hread). destruct r as [st|e]; [|done].
  exists (snd <$> all_records (w_kv w) (fs_repo self) prefix (arrange 93 shard_range)). split.
  - refine (eq_trans Hrun _). do 3 f_equal.
    specialize (Hview st eq_refl ascii String.list_ascii_of_string (λ x, String.list_ascii_of_string (index_line x.2))).
    rewrite <-(String.string_of_list_ascii_of_string st), <-(String.string_of_list_ascii_of_string (str_concat _)), list_ascii_concat.
    f_equal. rewrite <-!list_fmap_compose. apply Hview; [intros; apply list_ascii_app|intros; apply list_ascii_app|done].
  - intros r. rewrite list_elem_of_fmap. split.
    + intros ([sk r'] & -> & Hx). apply elem_of_all_records in Hx; [|done]. by exists sk.
    + intros (sk & Hp & Hs). exists (sk, r). split; [done|]. by apply elem_of_all_records.
Qed.
End index.

Section published.
Context `{Unicode} `{JsonText} `{PublishJson} `{Digests} `{Scheduler}.
Context `{Blake3} `{Serde ArtifactRecord} `{Serde TreeEntry} `{Serde BlobRecord} `{Serde RepoConfig} `{Serde UserRecord} `{Serde RoleRecord} `{Argon2} `{UuidGen}
  {ar_exact : SerdeExact ArtifactRecord} {br_exact : SerdeExact BlobRecord} {B : Type} `{AuthBackend B}
  (same : string → string → Prop) (I : B → kvmap → Prop) `{laws : !StoredAccounts B same I}.
Implicit Types (w : world kvmap) (m : kvmap).

(** The write on a hosted repository, for a user who may write. *)
Lemma run_cargo_write b user config f w : I b (w_kv w) → hosted_on w config →
  ∃ r b', run (cargo_write b user config f) w =
      match r with
      | Ok _ => (match (run (f (store_of config)) w).1 with Some reply => Some (reply, b') | None => None end, (run (f (store_of config)) w).2)
      | Err e => (Some (CargoFail e, b'), w)
      end ∧
    (r = Ok tt → ∃ u, user_of (w_kv w) user = Ok (Some u) ∧ allowed (w_kv w) u (rc_name config) CapWrite).
Proof using laws.
  intros Hi (_ & Hk & Hst). destruct (check_permission_law b w user (rc_name config) CapWrite Hi) as (r & b' & Hrun & Hspec & _).
  exists r, b'. unfold cargo_write. rewrite run_bind, Hrun. destruct r as [ []|e]; [|by split].
  split.
  - rewrite run_bind, run_bind. unfold resolve_format_write_target. rewrite Hk. cbn [run fst].
    rewrite run_bind, run_resolve_blob_store, decide_True by done. rewrite run_bind. fold (store_of config).
    by destruct (run (f (store_of config)) w) as [ [reply|] w'].
  - intros _. unfold permission_spec in Hspec. destruct (user_of (w_kv w) user) as [ [u|]|e] eqn:Hu; cbn in Hspec; [|done..].
    destruct Hspec as [Hok _]. exists u. split; [done|]. by apply Hok.
Qed.

(** What a publication leaves: the file is in place with its metadata. *)
Lemma wp_publish self repos body meta (crate_bytes : bytes) w :
  parse_publish body = inr (meta, crate_bytes) → sound (fs_blobs self) (fs_store self) repos w → new_id self w (new_v4 (w_uuids w)) →
  let cargo := version_meta meta (sha256_hex crate_bytes) in
  let path := crate_path (pm_name meta) (pm_vers meta) in
  wp (publish self body) w (λ reply w', sound (fs_blobs self) (fs_store self) repos w' ∧ only_adds self [new_v4 (w_uuids w)] [path] w w' ∧
    (reply = cargo_ok ∧ (∃ r, uploaded self path (KCargoCrate cargo) false "application/x-tar" (byte_size crate_bytes) crate_bytes r w') ∨
     reply ≠ cargo_ok ∧ w_kv w' !! artifact_key (fs_repo self) path = w_kv w !! artifact_key (fs_repo self) path)).
Proof using ar_exact br_exact.
  intros Hp Hs Hid cargo path. unfold publish. rewrite Hp. apply wp_bind. eapply wp_intro; [done|]. apply wp_bind. eapply wp_intro; [done|].
  apply wp_bind. unfold commit_crate, commit_file. apply wp_bind. eapply wp_intro; [done|].
  eapply wp_mono; [exact (wp_record_file self repos path (KCargoCrate cargo) false "application/x-tar" (new_v4 (w_uuids w)) crate_bytes
    (byte_size crate_bytes) (w_now w) (bump_uuid w) Hs Hid)|].
  intros res w' (Hs' & [Hk Hn Ha Ho Hst Hu] & Hr). apply wp_ret. split; [done|]. split; [split; [done..|cbn in Hu; lia]|].
  destruct res as [r|e]; [left|by right]. split; [done|]. by exists r.
Qed.

Lemma crate_path_index name version name' : normalize_crate_name name' = normalize_crate_name name →
  starts_with (crate_path name version) ("_crates/" +:+ normalize_crate_name name' +:+ "/") = true.
Proof.
  intros ->. apply starts_with_spec. unfold crate_path. exists (version +:+ "/" +:+ name +:+ "-" +:+ version +:+ ".crate").
  by rewrite !str_app_assoc.
Qed.

(** A crate in place is downloaded. *)
Lemma download_served config name version r (data : bytes) w : hosted_on w config →
  file_at (store_of config) (crate_path name version) r data w →
  ∃ d : bytes, run (hosted_download config name version) w = (Some (CargoFile "application/x-tar" (byte_size d) d), w) ∧
    blake3_hex d = blake3_hex data.
Proof.
  intros (_ & _ & Hst) Hf. destruct (file_at_served _ _ _ _ _ Hf) as (d & id & acc & Hget & Hd). exists d. split; [|done].
  unfold hosted_download. rewrite run_bind, run_resolve_blob_store, decide_True by done. fold (store_of config).
  unfold get_crate. by rewrite run_bind, Hget.
Qed.

(** A crate in place is in the index. *)
Lemma index_served fuel config name version name' r w : hosted_on w config →
  record_at (store_of config) (crate_path name version) r w → index_line r ≠ "" →
  normalize_path (crate_path name version) = crate_path name version → normalize_crate_name name' = normalize_crate_name name →
  all_readable (w_kv w) (rc_name config) → enough (w_kv w) fuel (rc_name config) →
  ∃ etag records, run (hosted_index_entry fuel config name') w = (Some (CargoIndex etag (str_concat (index_line <$> records))), w) ∧
    (∃ r', r' ∈ records ∧ index_line r' = index_line r) ∧
    ∀ r', r' ∈ records ↔ ∃ sk, starts_with sk ("_crates/" +:+ normalize_crate_name name +:+ "/") = true ∧ stored (w_kv w) (rc_name config) sk r'.
Proof.
  intros (_ & _ & Hst) Hr Hline Hn Hname Hread He.
  destruct (run_build_index fuel (store_of config) name' w Hread He) as (records & Hrun & Hrec). rewrite Hname in Hrec.
  destruct (record_at_stored _ _ _ _ Hn Hr) as (id & acc & Hstored).
  assert (ar_prepared r id acc (crate_path name version) ∈ records) as Hin.
  { apply Hrec. exists (crate_path name version). split; [by apply crate_path_index|exact Hstored]. }
  assert (index_line (ar_prepared r id acc (crate_path name version)) = index_line r) as Heq by done.
  eexists _, records. split; [|split; [by eexists|exact Hrec] ].
  unfold hosted_index_entry. rewrite run_bind, run_resolve_blob_store, decide_True by done. fold (store_of config).
  rewrite run_bind, Hrun. rewrite decide_False; [done|]. intros Hempty.
  destruct (str_concat_elem (index_line r) (index_line <$> records)) as (a & b & Hab).
  { apply list_elem_of_fmap. exists (ar_prepared r id acc (crate_path name version)). by split. }
  rewrite Hempty in Hab. apply (f_equal String.length) in Hab. rewrite !str_length_app in Hab. destruct (index_line r); [done|cbn in Hab; lia].
Qed.

Lemma crate_line_full (r : ArtifactRecord) cargo : ar_kind r = KCargoCrate cargo → index_line r ≠ "".
Proof. intros Hk. unfold index_line. rewrite Hk. by destruct (json_to_string _). Qed.

(** C23: A crate that has been published is downloaded and indexed.  In a hosted
    repository that is sound, a publication in the wire format of cargo ends
    and keeps the repository sound.  If it is accepted, the user may write to
    the repository, a download of the version gets contents with the hash of
    the crate, and the index of the crate, under any spelling of its name, has
    the line of the metadata with the SHA-256 of the crate next to those of the
    other records; if it is refused, the record of the version is as before. *)
Theorem crate_published (b : B) (user : string) (config : RepoConfig) (repos : gset string) (json crate_bytes : bytes)
    (meta : PublishMeta) (w : world kvmap) :
  let self := store_of config in
  let path := crate_path (pm_name meta) (pm_vers meta) in
  I b (w_kv w) → sound (fs_blobs self) (fs_store self) repos w → new_id self w (new_v4 (w_uuids w)) → hosted_on w config →
  publish_from_slice json = inr meta → (byte_size json < 2 ^ 32)%Z → (byte_size crate_bytes < 2 ^ 32)%Z → normalize_path path = path →
  ∃ reply b' w', run (handle_publish b user config (publish_body json crate_bytes)) w = (Some (reply, b'), w') ∧
    sound (fs_blobs self) (fs_store self) repos w' ∧
    (reply = cargo_ok →
      (∃ u, user_of (w_kv w) user = Ok (Some u) ∧ allowed (w_kv w) u (rc_name config) CapWrite) ∧
      (∃ d : bytes, run (hosted_download config (pm_name meta) (pm_vers meta)) w' = (Some (CargoFile "application/x-tar" (byte_size d) d), w') ∧
        blake3_hex d = blake3_hex crate_bytes) ∧
      ∀ fuel name, normalize_crate_name name = normalize_crate_name (pm_name meta) →
        all_readable (w_kv w') (rc_name config) → enough (w_kv w') fuel (rc_name config) →
        ∃ etag before after, run (hosted_index_entry fuel config name) w' =
          (Some (CargoIndex etag (before +:+ (json_to_string (index_entry (version_meta meta (sha256_hex crate_bytes))) +:+ NEWLINE) +:+ after)), w')) ∧
    (reply ≠ cargo_ok → w_kv w' !! artifact_key (rc_name config) path = w_kv w !! artifact_key (rc_name config) path).
Proof using ar_exact br_exact laws.
  intros self path Hi Hs Hid Hh Hmeta Hj Hc Hpath. unfold handle_publish.
  destruct (run_cargo_write b user config (λ store, publish store (publish_body json crate_bytes)) w Hi Hh) as (r & b' & Hrun & Hu).
  rewrite Hrun. destruct r as [ []|e]; [|by exists (CargoFail e), b', w].
  destruct (wp_run _ _ _ (wp_publish self repos (publish_body json crate_bytes) meta crate_bytes w
    ltac:(by rewrite parse_publish_body, Hmeta) Hs Hid)) as (reply & w' & Hp & Hs' & Ho & Hres).
  fold self. rewrite Hp. exists reply, b', w'. split; [done|]. split; [done|].
  pose proof (hosted_on_kept _ _ _ _ _ _ Ho Hh) as Hh'.
  destruct Hres as [ [-> (r & bid & now & -> & Hf)]|[Hne Hk] ]; [|by split].
  split; [|done]. intros _. split; [by apply Hu|]. split; [by apply (download_served _ _ _ _ _ _ Hh' Hf)|].
  intros fuel name Hname Hread He. set (r := file_record _ _ _ _ _ _ _) in Hf.
  destruct (index_served fuel config _ _ name r w' Hh' (proj1 Hf) (crate_line_full r _ eq_refl) Hpath Hname Hread He)
    as (etag & records & Hix & (r' & Hin & Heq) & _).
  destruct (str_concat_elem (index_line r) (index_line <$> records)) as (before & after & Hba).
  { apply list_elem_of_fmap. exists r'. by split. }
  exists etag, before, after. rewrite Hix. by rewrite Hba.
Qed.

(** A yank changes the flag of the version and nothing else: the index shows
    it, and the crate is downloaded as before. *)
Theorem yanked_crate_served (config : RepoConfig) (name version : string) (yanked : bool) (r : ArtifactRecord)
    (cargo : CrateVersionMeta) (data : bytes) (w : world kvmap) :
  let self := store_of config in
  hosted_on w config → ar_kind r = KCargoCrate cargo → file_at self (crate_path name version) r data w →
  ∃ res w', run (set_yanked self name version yanked) w = (Some res, w') ∧
    (∃ d : bytes, run (hosted_download config name version) w' = (Some (CargoFile "application/x-tar" (byte_size d) d), w') ∧
      blake3_hex d = blake3_hex data) ∧
    match res with
    | Ok done => done = true ∧ ∃ r', file_at self (crate_path name version) r' data w' ∧ ar_updated_at r' = w_now w ∧
        ar_created_at r' = ar_created_at r ∧ ∃ cargo', ar_kind r' = KCargoCrate cargo' ∧ crate_yanked cargo' = yanked ∧
          crate_cksum cargo' = crate_cksum cargo ∧ crate_vers cargo' = crate_vers cargo ∧ crate_deps cargo' = crate_deps cargo
    | Err _ => file_at self (crate_path name version) r data w'
    end.
Proof using ar_exact.
  intros self Hh Hkind Hf. pose proof Hf as [ (b & v & id & acc & Hm & Hv) (bid & d & Hb & Hne & Hd & Hhash)].
  set (r1 := yanked_record (ar_prepared r id acc (crate_path name version)) cargo yanked (w_now w)).
  assert (run (set_yanked self name version yanked) w =
    run (let*? _ := put_counted (fs_repo self) (crate_path name version) r1 in Ret (Ok true)) w) as ->.
  { unfold set_yanked. rewrite run_bind_ok, run_get_artifact. unfold old_of. rewrite Hm, Hv.
    unfold self in *. cbn [ar_prepared ar_kind]. rewrite Hkind. by rewrite run_bind. }
  eapply wp_run, wp_bind_ok, wp_mono; [apply wp_put_any|]. intros res w' (Ho & Hbl & _ & Hr).
  pose proof (hosted_on_kept _ _ _ _ _ _ Ho Hh) as Hh'.
  assert (∀ r', record_at self (crate_path name version) r' w' → ar_blob_id r' = Some bid → file_at self (crate_path name version) r' data w') as Hfile.
  { intros r' Hr' Hb'. split; [done|]. exists bid, d. by rewrite Hbl. }
  destruct res as [old|e]; cbn [is_ok] in Hr.
  - apply wp_ret. assert (file_at self (crate_path name version) r1 data w') as Hf1 by (apply Hfile; [done|exact Hb]).
    split; [by apply (download_served _ _ _ _ _ _ Hh' Hf1)|]. split; [done|]. exists r1. split_and!; [done|done|done|]. by eexists.
  - assert (file_at self (crate_path name version) r data w') as Hf1 by (apply Hfile; [|done]; exists b, v, id, acc; by rewrite Hr).
    split; [by apply (download_served _ _ _ _ _ _ Hh' Hf1)|done].
Qed.
End published.

(** ** Witnesses *)

Definition toy_json_text : JsonText := {| json_to_string := λ _, "{}"; json_parse := λ _, None; json_error := λ _, "error"; json_one_line := λ _, eq_refl |}.
Definition toy_publish : PublishMeta := mkPublishMeta "my-crate" "1.0.0" [] JNull None None None.
Definition toy_publish_json : PublishJson := λ _, inr toy_publish.

Definition toy_crate_meta : CrateVersionMeta := let _ := toy_json_text in version_meta toy_publish (to_hex "abc").
Definition toy_crate_path : string := let _ := toy_unicode in crate_path "my-crate" "1.0.0".
Definition toy_crate : ArtifactRecord := toy_first_file toy_crate_path (KCargoCrate toy_crate_meta) "application/x-tar" "abc".

Lemma crate_published_witness :
  let _ := toy_unicode in let _ := toy_json_text in let _ := toy_publish_json in let _ := toy_digests in let _ := Prog.in_order in
  let _ := toy_blake3 in let _ := table_serde [toy_crate] in let _ := toy_te_serde in let _ := table_serde [toy_first_blob "abc"] in
  let _ := toy_upload_rc in let _ := toy_ur_serde in let _ := toy_upload_rr in let _ := toy_argon2 in let _ := toy_uuid in
  let config := toy_repo "r" Hosted false in
  ∃ w', run (handle_publish tt "alice" config (publish_body "{}" "abc")) toy_upload_world = (Some (CargoOk, tt), w') ∧
    (∃ d : bytes, run (hosted_download config "my-crate" "1.0.0") w' = (Some (CargoFile "application/x-tar" (byte_size d) d), w') ∧
      blake3_hex d = blake3_hex "abc") ∧
    ∃ etag, run (hosted_index_entry 5 config "my_crate") w' = (Some (CargoIndex etag ("{}" +:+ NEWLINE)), w').
Proof.
  intros ? ? ? ? ? ? ? ? ? ? ? ? ? ? config.
  destruct (@crate_published toy_unicode toy_json_text toy_publish_json toy_digests Prog.in_order toy_blake3 (table_serde [toy_crate]) toy_te_serde
    (table_serde [toy_first_blob "abc"]) toy_upload_rc toy_ur_serde toy_upload_rr toy_argon2 toy_uuid (table_serde_exact _) (table_serde_exact _)
    unit _ eq (λ _ _, True) (@builtin_laws toy_ur_serde toy_upload_rr toy_argon2 toy_uuid) tt "alice" config {["r"]} "{}" "abc" toy_publish
    toy_upload_world) as (reply & b' & w' & Hrun & _ & Hok & _); [exact Logic.I|apply sound_without_files; by_decide| | |reflexivity|reflexivity|reflexivity|reflexivity|].
  - split_and!; [reflexivity|by_decide|reflexivity].
  - split_and!; [vm_compute; reflexivity|reflexivity|by_decide].
  - pose proof (f_equal fst Hrun) as Hreply. vm_compute in Hreply. injection Hreply as <- <-.
    pose proof (f_equal snd Hrun) as Hw. cbn [snd] in Hw.
    destruct (Hok eq_refl) as (_ & Hdown & Hindex). exists w'. split; [exact Hrun|]. split; [exact Hdown|].
    destruct (Hindex 5 "my_crate" eq_refl) as (etag & before & after & Hix).
    + subst w'. apply closed_readable. by_decide.
    + subst w'. apply closed_enough. by_decide.
    + exists etag. refine (eq_trans Hix _). pose proof Hix as Hbody. subst w'. apply (f_equal fst) in Hbody. vm_compute in Hbody. injection Hbody as _ Hbody.
      assert (before = "" ∧ after = "") as [-> ->]; [|reflexivity].
      apply (f_equal String.length) in Hbody as Hl. rewrite !str_length_app in Hl. cbn in Hl.
      destruct before, after; cbn in Hl; try lia. by split.
Defined.

(** ** Publications through a proxy

    The crate is written to the blob store of the proxy and recorded for the
    member, which looks for it in its own store: when these differ the
    publication is answered with success and no download finds the crate. *)

Definition toy_cargo_repo (name : string) (kind : RepoKind) (store : string) : RepoConfig :=
  mkRepoConfig 5 name kind CCargo store 0%Z None None false.
Definition toy_cargo_proxy : RepoConfig := toy_cargo_repo "p" (Proxy ["r"] None) "t".
Definition toy_cargo_rc : Serde RepoConfig := table_serde [toy_cargo_repo "r" Hosted "s"; toy_cargo_proxy].
Definition toy_cargo_rr : Serde RoleRecord := table_serde [mkRoleRecord 1 "dev" "developers" [mkCapabilityGrant CapWrite "p"] 0%Z 0%Z].
Definition toy_cargo_world : world kvmap :=
  mkWorld (<[repo_key "p" := ("1", 1%Z)]> (<[repo_key "r" := ("0", 1%Z)]> (toy_accounts "0"))) ∅ {["s"; "t"]} 0%Z 0 [] false.
Definition toy_proxy_blob : BlobRecord :=
  let _ := toy_blake3 in blob_record (mkFormatStore "r" "t" "t") "uuid-0" (blake3_hex "abc") 3 0%Z.

Example proxy_publication_lost :
  let _ := toy_unicode in let _ := toy_json_text in let _ := toy_publish_json in let _ := toy_digests in let _ := Prog.in_order in
  let _ := toy_blake3 in let _ := table_serde [toy_crate] in let _ := toy_te_serde in let _ := table_serde [toy_proxy_blob] in
  let _ := toy_cargo_rc in let _ := toy_ur_serde in let _ := toy_cargo_rr in let _ := toy_argon2 in let _ := toy_uuid in
  let '(reply, w') := run (handle_publish tt "alice" toy_cargo_proxy (publish_body "{}" "abc")) toy_cargo_world in
  reply = Some (CargoOk, tt) ∧
  (run (proxy_download toy_cargo_proxy "my-crate" "1.0.0") w').1 = Some (CargoError 404 "crate not found in any member") ∧
  (run (hosted_download (toy_cargo_repo "r" Hosted "s") "my-crate" "1.0.0") w').1 =
    Some (CargoError 500 (display_error (DataIntegrity "blob missing for blob_id uuid-0"))).
Proof. intros. vm_compute. by split_and!. Qed.
