(* ===== verification/Npm.v ===== *)
(** * npm registries (format/npm/src/store.rs, api.rs)

    A package has tarballs, the metadata of each version and its dist-tags,
    all artifacts; the document of a package is assembled from them on every
    request, and a proxy keeps the merged document of its members until a flag
    says that they have changed.  The theorems say that a published version is
    served, and that the flag of a proxy works only once. *)

From S2P Require Import Prelude Bytes Text Errors Keys Records Kv Prog Wp Effects Scan Pagination Update Artifact Blob Repo Directory Ingest Accounts BulkDelete TreeRebuild.
From S2P Require Import BloomFilter UpdateWorker Batches Check CheckScan DockerGc Cache Auth ApiHelpers Package Json.

(** ** Answers *)

(** What a handler answers: a document, a file with its name, 200 without a
    body, 201 with a document, 401, or the response of an error. *)
Inductive NpmReply : Type :=
| NpmJson (body : string)
| NpmFile (filename : string) (size : Z) (body : bytes)
| NpmOk
| NpmCreated (body : Json)
| NpmUnauthorized
| NpmFail (e : DepotError).

(** Whether the status is 200. *)
Definition npm_status_ok (r : NpmReply) : bool :=
  match r with NpmJson _ | NpmFile _ _ _ | NpmOk => true | _ => false end.

(** ** Paths *)

Section paths.
Context `{Unicode}.

(** format/npm/src/store.rs:29-31 *)
Definition normalize_name (name : string) : string := to_lowercase name.

(** format/npm/src/store.rs:34-37 *)
Definition tarball_path (name version filename : string) : string :=
  let norm := normalize_name name in "_tarballs/" +:+ norm +:+ "/" +:+ version +:+ "/" +:+ filename.

(** format/npm/src/store.rs:40-43 *)
Definition version_path (name version : string) : string :=
  let norm := normalize_name name in "_versions/" +:+ norm +:+ "/" +:+ version.

(** format/npm/src/store.rs:46-49 *)
Definition dist_tags_path (name : string) : string :=
  let norm := normalize_name name in "_dist-tags/" +:+ norm.

(** The part of a scoped name after the scope. *)
Definition bare_name (name : string) : string := rsplit_last SLASH name.

(** The name of the tarball of a version. *)
Definition tarball_name (name version : string) : string := normalize_name (bare_name name) +:+ "-" +:+ version +:+ ".tgz".

(** The part after the last dash that a digit follows. *)
Fixpoint after_dash (stem : string) : option string :=
  match stem with
  | EmptyString => None
  | String c stem =>
      match after_dash stem with
      | Some version => Some version
      | None =>
          match stem with
          | String d _ => if decide (c = "-"%char ∧ in_bytes 48 57 d = true) then Some stem else None
          | EmptyString => None
          end
      end
  end.

(** format/npm/src/api.rs:611-634 *)
Definition extract_version_from_filename (filename package_name : string) : option string :=
  match strip_suffix filename ".tgz" with
  | None => None
  | Some stem =>
      match strip_prefix stem (normalize_name (bare_name package_name) +:+ "-") with
      | Some version => if decide (version ≠ "") then Some version else after_dash stem
      | None => after_dash stem
      end
  end.
End paths.

(** format/npm/src/api.rs:638-646 *)
Definition split_absolute_url (url : string) : option (string * string * string) :=
  match split_once_str "://" url with
  | Some (scheme, rest) =>
      if decide (scheme ≠ "http" ∧ scheme ≠ "https") then None
      else
        let authority := match split_once SLASH rest with Some (a, _) => a | None => rest end in
        Some (scheme, authority, str_drop (String.length scheme + 3 + String.length authority) url)
  | None => None
  end.

(** format/npm/src/api.rs:659-677 *)
Definition resolve_upstream_tarball_url (tarball_url upstream_url : string) : string :=
  match split_absolute_url upstream_url with
  | None => tarball_url
  | Some (scheme, upstream_authority, _) =>
      let upstream_origin := scheme +:+ "://" +:+ upstream_authority in
      match split_absolute_url tarball_url with
      | Some (_, authority, path) =>
          if decide (snd <$> split_once_str "://" upstream_origin = Some authority) then upstream_origin +:+ path
          else tarball_url
      | None => upstream_origin +:+ tarball_url
      end
  end.

(** ** Dist-tags *)

(** [serde_json] of a [HashMap] of strings, whose order is arbitrary; what has
    been written is read back. *)
Class TagsText := {
  tags_to_string : gmap string string → string;
  tags_from_slice : bytes → option (gmap string string);
  tags_round_trip : ∀ tags, tags_from_slice (tags_to_string tags) = Some tags;
}.

(** The same as a value. *)
Definition tags_json (tags : gmap string string) : Json := json_from_list (prod_map id JString <$> map_to_list tags).

(** The tags of a document whose values are strings. *)
Definition tags_of_fields (l : Fields) : gmap string string :=
  foldl (λ acc f, match json_str f.2 with Some s => <[f.1 := s]> acc | None => acc end) ∅ l.

(** [DateTime::to_rfc3339]. *)
Class Rfc3339 := to_rfc3339 : DateTime → string.

(** ** Documents *)

(** Changes to the [dist] object of a version, which is added if there is none
    and left alone if it is no object. *)
Definition with_dist (f : Fields → Fields) (ver_obj : Json) : Json :=
  match ver_obj with
  | JObject l =>
      match field_get "dist" l with
      | Some (JObject d) => JObject (field_insert "dist" (JObject (f d)) l)
      | Some _ => ver_obj
      | None => JObject (field_insert "dist" (JObject (f [])) l)
      end
  | _ => ver_obj
  end.

Section documents.
Context `{Unicode}.

Definition tarball_url (base_url pkg_name version : string) : string :=
  trim_end SLASH base_url +:+ "/" +:+ pkg_name +:+ "/-/" +:+ tarball_name pkg_name version.

(** The hashes that are known. *)
Definition insert_hashes (meta : option NpmPackageMeta) (d : Fields) : Fields :=
  match meta with
  | None => d
  | Some meta =>
      let d := if decide (npm_sha1 meta ≠ "") then field_insert "shasum" (JString (npm_sha1 meta)) d else d in
      if decide (npm_sha512 meta ≠ "") then field_insert "integrity" (JString ("sha512-" +:+ npm_sha512 meta)) d else d
  end.

(** The version object that is served, with the URL of its tarball. *)
(** format/npm/src/store.rs:607-650 *)
Definition served_version (name base_url version : string) (meta : option NpmPackageMeta) (ver_obj : Json) : Json :=
  let pkg_name := default name (json_str_field "name" ver_obj) in
  with_dist (λ d, insert_hashes meta (field_insert "tarball" (JString (tarball_url base_url pkg_name version)) d)) ver_obj.

(** format/npm/src/api.rs:452-477 *)
Definition rewrite_packument_urls (packument : Json) (base_url : string) : Json :=
  match packument with
  | JObject l =>
      match field_get "versions" l with
      | Some (JObject versions) =>
          let versions := (λ '(version, ver_obj),
            let name := default "" (json_str_field "name" ver_obj) in
            (version, match ver_obj with
                      | JObject o =>
                          match field_get "dist" o with
                          | Some (JObject dist) =>
                              JObject (field_insert "dist" (JObject (field_insert "tarball" (JString (tarball_url base_url name version)) dist)) o)
                          | _ => ver_obj
                          end
                      | _ => ver_obj
                      end)) <$> versions in
          JObject (field_insert "versions" (JObject versions) l)
      | _ => packument
      end
  | _ => packument
  end.
End documents.

(** ** The store *)

Section npm.
Context `{Unicode} `{JsonText} `{TagsText} `{Rfc3339} `{Base64} `{UrlEncoding} `{Upstream}.
Context `{Blake3} `{Serde ArtifactRecord} `{Serde TreeEntry} `{Serde BlobRecord} `{Serde RepoConfig} `{Digests} `{Scheduler} {B : Type} `{AuthBackend B}.
Context (fuel : nat).

(** Data written under a fresh id, whose hash is then claimed. *)
Definition store_blob (self : FormatStore) (blob_id : string) (data : bytes) (now : DateTime) : prog (result string) :=
  let*? _ := blob (fs_blobs self) (BPut blob_id data) in
  claim_file self blob_id (blake3_hex data) (byte_size data) now.

Definition metadata_record (data : bytes) (blob_id : string) (now : DateTime) : ArtifactRecord :=
  file_record KNpmMetadata true "application/json" (byte_size data) blob_id (blake3_hex data) now.

(** The blob of a record, if it can be read. *)
Definition record_blob (self : FormatStore) (record : option ArtifactRecord) : prog (result (option bytes)) :=
  match record ≫= ar_blob_id with
  | Some blob_id => blob (fs_blobs self) (BGet blob_id)
  | None => Ret (Ok None)
  end.

(** format/npm/src/store.rs:383-401 *)
Definition get_dist_tags (self : FormatStore) (name : string) : prog (result (gmap string string)) :=
  let*? record := get_artifact (fs_repo self) (dist_tags_path name) in
  let*? data := record_blob self record in
  Ret (Ok match data with Some data => default ∅ (tags_from_slice data) | None => ∅ end).

(** The tarball, the metadata of the version and the merged tags, each with its
    blob, are written before the three records are put. *)
(** format/npm/src/store.rs:62-233 *)
Definition put_package (self : FormatStore) (name version filename : string) (data : bytes) (version_metadata_json : string)
    (dist_tags : gmap string string) : prog (result ArtifactRecord) :=
  let* blob_id := call EUuid in
  let* now := call ENow in
  let*? blob_id := store_blob self blob_id data now in
  let record := file_record (KNpmPackage (mkNpmPackageMeta name version filename (sha1_hex data) (sha512_base64 data) None)) false
    "application/octet-stream" (byte_size data) blob_id (blake3_hex data) now in
  let* ver_blob_id := call EUuid in
  let*? ver_blob_id := store_blob self ver_blob_id version_metadata_json now in
  let version_record := metadata_record version_metadata_json ver_blob_id now in
  let* existing := get_dist_tags self name in
  let existing_tags := match existing with Ok tags => tags | Err _ => ∅ end in
  let tags_text := tags_to_string (dist_tags ∪ existing_tags) in
  let* tags_blob_id := call EUuid in
  let*? tags_blob_id := store_blob self tags_blob_id tags_text now in
  let tags_record := metadata_record tags_text tags_blob_id now in
  let*? _ := put_counted (fs_repo self) (tarball_path name version filename) record in
  let*? _ := put_counted (fs_repo self) (version_path name version) version_record in
  let*? _ := put_counted (fs_repo self) (dist_tags_path name) tags_record in
  Ret (Ok record).

(** format/npm/src/store.rs:237-356 *)
Definition put_package_from_upstream (self : FormatStore) (name version filename : string) (data : bytes) (sha1_hash sha512_hash : string)
    (version_metadata_json upstream_url : string) : prog (result ArtifactRecord) :=
  let* blob_id := call EUuid in
  let* now := call ENow in
  let*? blob_id := store_blob self blob_id data now in
  let record := file_record (KNpmPackage (mkNpmPackageMeta name version filename sha1_hash sha512_hash (Some upstream_url))) false
    "application/octet-stream" (byte_size data) blob_id (blake3_hex data) now in
  let* ver_blob_id := call EUuid in
  let*? ver_blob_id := store_blob self ver_blob_id version_metadata_json now in
  let version_record := metadata_record version_metadata_json ver_blob_id now in
  let*? _ := put_counted (fs_repo self) (tarball_path name version filename) record in
  let*? _ := put_counted (fs_repo self) (version_path name version) version_record in
  Ret (Ok record).

(** format/npm/src/store.rs:359-380 *)
Definition get_tarball (self : FormatStore) (name version filename : string) : prog (result (option (bytes * Z * ArtifactRecord))) :=
  get_file self (tarball_path name version filename).

(** format/npm/src/store.rs:404-458 *)
Definition put_dist_tags (self : FormatStore) (name : string) (tags : gmap string string) : prog (result unit) :=
  let* now := call ENow in
  let tags_text := tags_to_string tags in
  let* tags_blob_id := call EUuid in
  let*? tags_blob_id := store_blob self tags_blob_id tags_text now in
  let*? _ := put_counted (fs_repo self) (dist_tags_path name) (metadata_record tags_text tags_blob_id now) in
  Ret (Ok tt).

(** format/npm/src/store.rs:461-483 *)
Definition get_version_metadata (self : FormatStore) (name version : string) : prog (result (option string)) :=
  let*? record := get_artifact (fs_repo self) (version_path name version) in
  let*? data := record_blob self record in
  Ret (Ok (from_utf8_lossy <$> data)).

(** The second of at most four segments. *)
Definition package_of_path (sk : string) : option string := splitn 4 SLASH sk !! 1.

(** format/npm/src/store.rs:486-509 *)
Definition list_packages (self : FormatStore) : prog (result (list string)) :=
  let*? seen := fold_all_artifacts (arrange 95 shard_range) fuel (fs_repo self) "_tarballs/" (∅ : gset string)
    (λ acc sk _, Ok match package_of_path sk with Some name => {[name]} ∪ acc | None => acc end) (∪) in
  Ret (Ok (sorted_vec seen)).

(** format/npm/src/store.rs:512-534 *)
Definition list_package_versions (self : FormatStore) (name : string) : prog (result (list (string * ArtifactRecord))) :=
  list_under fuel 96 self ("_tarballs/" +:+ normalize_name name +:+ "/").

(** The versions and their times, from the artifacts that can be read. *)
Fixpoint collect_versions (self : FormatStore) (name base_url : string) (tarball_meta : gmap string NpmPackageMeta)
    (records : list ArtifactRecord) (versions time_map : Fields) : prog (Fields * Fields) :=
  match records with
  | [] => Ret (versions, time_map)
  | record :: records =>
      let* r := record_blob self (Some record) in
      let content := match r with Ok data => from_utf8_lossy <$> data | Err _ => None end in
      match content ≫= json_parse with
      | Some ver_obj =>
          match json_str_field "version" ver_obj with
          | Some version =>
              collect_versions self name base_url tarball_meta records
                (field_insert version (served_version name base_url version (tarball_meta !! version) ver_obj) versions)
                (field_insert version (JString (to_rfc3339 (ar_created_at record))) time_map)
          | None => collect_versions self name base_url tarball_meta records versions time_map
          end
      | None => collect_versions self name base_url tarball_meta records versions time_map
      end
  end.

Definition packument_json (name : string) (dist_tags : gmap string string) (versions time_map : Fields) : Json :=
  json_from_list [("name", JString name); ("dist-tags", tags_json dist_tags); ("versions", JObject versions); ("time", JObject time_map)].

(** format/npm/src/store.rs:538-673 *)
Definition get_packument (self : FormatStore) (name base_url : string) : prog (result (option Json)) :=
  let norm := normalize_name name in
  let*? ver_artifacts := list_under fuel 97 self ("_versions/" +:+ norm +:+ "/") in
  if decide (ver_artifacts = []) then Ret (Ok None)
  else
    let*? tarball_meta := fold_all_artifacts (arrange 98 shard_range) fuel (fs_repo self) ("_tarballs/" +:+ norm +:+ "/") (∅ : gmap string NpmPackageMeta)
      (λ acc _ record, Ok match ar_kind record with KNpmPackage npm => <[npm_version npm := npm]> acc | _ => acc end) (λ a b, b ∪ a) in
    let*? dist_tags := get_dist_tags self name in
    let* c := collect_versions self name base_url tarball_meta (snd <$> ver_artifacts) [] [] in
    let '(versions, time_map) := c in
    Ret (Ok (if decide (versions = []) then None else Some (packument_json name dist_tags versions time_map))).

(** format/npm/src/store.rs:676-688 *)
Definition delete_package (self : FormatStore) (name version filename : string) : prog (result bool) :=
  delete_files (fs_repo self) [tarball_path name version filename] false.

(** ** The flag and the document of a proxy *)

Definition STALE_PATH : string := "_npm/metadata_stale".

Definition npm_flag (now : DateTime) : ArtifactRecord :=
  mkArtifactRecord CURRENT_RECORD_VERSION "" 0 "text/plain" now now now "" KNpmMetadata true None None None.

(** format/npm/src/store.rs:696-716 *)
Definition set_metadata_stale (self : FormatStore) : prog (result unit) :=
  let* now := call ENow in
  let*? _ := put_artifact (fs_repo self) STALE_PATH (npm_flag now) in
  Ret (Ok tt).

(** format/npm/src/store.rs:719-739 *)
Definition set_stale_flag (self : FormatStore) : prog (result unit) :=
  let* now := call ENow in
  let*? _ := put_artifact_if_absent (fs_repo self) STALE_PATH (npm_flag now) in
  Ret (Ok tt).

(** format/npm/src/store.rs:742-745 *)
Definition get_stale_flag (self : FormatStore) : prog (result (option ArtifactRecord)) := get_artifact (fs_repo self) STALE_PATH.

Definition packument_path (package : string) : string := "_npm/packument/" +:+ normalize_name package.

(** format/npm/src/store.rs:748-792 *)
Definition store_cached_packument (self : FormatStore) (package json : string) : prog (result unit) :=
  let* blob_id := call EUuid in
  let*? _ := blob (fs_blobs self) (BPut blob_id json) in
  let* now := call ENow in
  let*? blob_id := claim_file self blob_id (blake3_hex json) (byte_size json) now in
  let*? _ := put_artifact (fs_repo self) (packument_path package) (metadata_record json blob_id now) in
  Ret (Ok tt).

(** format/npm/src/store.rs:796-816 *)
Definition get_cached_packument (self : FormatStore) (package : string) : prog (result (option (string * ArtifactRecord))) :=
  let*? record := get_artifact (fs_repo self) (packument_path package) in
  match record with
  | None => Ret (Ok None)
  | Some record =>
      let blob_id := default "" (ar_blob_id record) in
      if decide (blob_id = "") then Ret (Ok None)
      else
        let*? data := blob (fs_blobs self) (BGet blob_id) in
        Ret (Ok ((λ d, (from_utf8_lossy d, record)) <$> data))
  end.

(** ** The upstream *)

(** format/npm/src/store.rs:834-874 *)
Definition fetch_upstream_packument (upstream_url package : string) (upstream_auth : option UpstreamAuth) : result (option Json) :=
  let url := trim_end SLASH upstream_url +:+ "/" +:+ package in
  match http_get url upstream_auth with
  | inl e => Err (Errors.upstream e)
  | inr resp =>
      if decide (rs_status resp = 404%Z) then Ok None
      else if negb (is_success resp) then Err (upstream_status_error resp url)
      else
        let? data := collect_body (rs_body resp) in
        match json_parse data with
        | Some body => Ok (Some body)
        | None => Err (Errors.upstream (json_error data))
        end
  end.

(** format/npm/src/store.rs:877-904 *)
Definition fetch_upstream_tarball (url : string) (upstream_auth : option UpstreamAuth) : result Response :=
  match http_get url upstream_auth with
  | inl e => Err (Errors.upstream e)
  | inr resp => if negb (is_success resp) then Err (upstream_status_error resp url) else Ok resp
  end.
End npm.

(** ** The handlers *)

Section handlers.
Context `{Unicode} `{JsonText} `{TagsText} `{Rfc3339} `{Base64} `{UrlEncoding} `{Upstream}.
Context `{Blake3} `{Serde ArtifactRecord} `{Serde TreeEntry} `{Serde BlobRecord} `{Serde RepoConfig} `{Digests} `{Scheduler} {B : Type} `{AuthBackend B}.
Context (fuel : nat).

Definition repo_base (origin repo_name : string) : string := origin +:+ "/repository/" +:+ repo_name.

Definition packument_reply (r : result (option Json)) : NpmReply :=
  match r with
  | Ok (Some packument) => NpmJson (json_to_string packument)
  | Ok None => NpmFail (NotFound "package not found")
  | Err e => NpmFail e
  end.

(** format/npm/src/api.rs:233-264 *)
Definition hosted_packument (repo_name package origin : string) : prog NpmReply :=
  let* r :=
    let*! b := resolve_repo_blob_store repo_name else NpmFail in
    let store := mkFormatStore repo_name b.1 (rc_store b.2) in
    let* r := get_packument fuel store package (repo_base origin repo_name) in
    Ret (inr (packument_reply r)) in
  Ret (finished r).

(** The record is put without a delta for the directory; when the claim fails
    the id just written is kept. *)
Definition cache_metadata (self : FormatStore) (path : string) (text : string) (now : DateTime) : prog unit :=
  let* blob_id := call EUuid in
  let* r := blob (fs_blobs self) (BPut blob_id text) in
  match r with
  | Err _ => Ret tt
  | Ok _ =>
      let* r := claim_file self blob_id (blake3_hex text) (byte_size text) now in
      let blob_id := match r with Ok id => id | Err _ => blob_id end in
      let* _ := put_artifact (fs_repo self) path (metadata_record text blob_id now) in
      Ret tt
  end.

Fixpoint cache_versions (self : FormatStore) (package : string) (versions : Fields) (now : DateTime) : prog unit :=
  match versions with
  | [] => Ret tt
  | (version, ver_obj) :: versions =>
      let* _ := cache_metadata self (version_path package version) (json_to_string ver_obj) now in
      cache_versions self package versions now
  end.

(** format/npm/src/api.rs:336-449 *)
Definition cache_upstream_packument (config : RepoConfig) (package : string) (packument : Json) : prog unit :=
  let* r := resolve_blob_store (rc_store config) in
  match r with
  | Err _ => Ret tt
  | Ok blobs =>
      let self := mkFormatStore (rc_name config) blobs (rc_store config) in
      let* now := call ENow in
      let* _ := match json_field "dist-tags" packument ≫= json_object with
        | Some tags_obj => cache_metadata self (dist_tags_path package) (tags_to_string (tags_of_fields tags_obj)) now
        | None => Ret tt
        end in
      match json_field "versions" packument ≫= json_object with
      | Some versions => cache_versions self package versions now
      | None => Ret tt
      end
  end.

(** The upstream is asked every time; the local document is for failures. *)
(** format/npm/src/api.rs:266-333 *)
Definition cache_packument (config : RepoConfig) (package origin : string) : prog NpmReply :=
  match rc_kind config with
  | Cache upstream_url _ upstream_auth =>
      let* r := resolve_blob_store (rc_store config) in
      match r with
      | Err e => Ret (NpmFail e)
      | Ok blobs =>
          let store := mkFormatStore (rc_name config) blobs (rc_store config) in
          let base_url := repo_base origin (rc_name config) in
          match fetch_upstream_packument upstream_url package upstream_auth with
          | Ok (Some upstream_packument) =>
              let* _ := cache_upstream_packument config package upstream_packument in
              Ret (NpmJson (json_to_string (rewrite_packument_urls upstream_packument base_url)))
          | Ok None => Ret (NpmFail (NotFound "package not found upstream"))
          | Err e =>
              let* r := get_packument fuel store package base_url in
              Ret match r with
                  | Ok (Some packument) => NpmJson (json_to_string packument)
                  | _ => NpmFail (Errors.upstream ("upstream error: " +:+ display_error e))
                  end
          end
      end
  | _ => Ret (NpmFail (Internal "expected cache repo kind"))
  end.

(** The fields of another object that are not there yet. *)
Definition merge_fields (more acc : Fields) : Fields :=
  foldl (λ acc f, match field_get f.1 acc with Some _ => acc | None => field_insert f.1 f.2 acc end) acc more.

Definition merge_packument (packument : Json) (acc : Fields * gmap string string * Fields) : Fields * gmap string string * Fields :=
  let '(versions, tags, time) := acc in
  let part name := default [] (json_field name packument ≫= json_object) in
  (merge_fields (part "versions") versions, tags ∪ tags_of_fields (part "dist-tags"), merge_fields (part "time") time).

(** What the members have themselves; one that fails is passed over. *)
Fixpoint merge_members (package base_url : string) (members : list string) (acc : Fields * gmap string string * Fields) :
    prog (Fields * gmap string string * Fields) :=
  match members with
  | [] => Ret acc
  | member_name :: members =>
      let* r := get_repo member_name in
      match r with
      | Ok (Some c) =>
          if decide (repo_format c = FNpm) then
            let* b := resolve_blob_store (rc_store c) in
            match b with
            | Err _ => merge_members package base_url members acc
            | Ok blobs =>
                let* r := get_packument fuel (mkFormatStore member_name blobs (rc_store c)) package base_url in
                match r with
                | Ok (Some packument) => merge_members package base_url members (merge_packument packument acc)
                | _ => merge_members package base_url members acc
                end
            end
          else merge_members package base_url members acc
      | _ => merge_members package base_url members acc
      end
  end.

(** The stored document with the URLs of the request. *)
Definition serve_rewritten (json absolute_base : string) : string :=
  match json_parse json with Some value => json_to_string (rewrite_packument_urls value absolute_base) | None => json end.

(** The document that is kept, unless the flag is newer. *)
(** format/npm/src/api.rs:505-526 *)
Definition fresh_packument (self : FormatStore) (package : string) : prog (option string) :=
  let* r := get_stale_flag self in
  let stale_ts := match r with Ok (Some flag) => Some (ar_updated_at flag) | _ => None end in
  let* r := get_cached_packument self package in
  Ret match r with
      | Ok (Some (json, record)) =>
          match stale_ts with
          | Some ts => if decide (ar_updated_at record >= ts)%Z then Some json else None
          | None => Some json
          end
      | _ => None
      end.

(** format/npm/src/api.rs:479-604 *)
Definition proxy_packument (config : RepoConfig) (package origin : string) : prog NpmReply :=
  match rc_kind config with
  | Proxy members _ =>
      let absolute_base := repo_base origin (rc_name config) in
      let* r := resolve_blob_store (rc_store config) in
      match r with
      | Err e => Ret (NpmFail e)
      | Ok blobs =>
          let proxy_store := mkFormatStore (rc_name config) blobs (rc_store config) in
          let* cached := fresh_packument proxy_store package in
          match cached with
          | Some json => Ret (NpmJson (serve_rewritten json absolute_base))
          | None =>
              let base_url := "/repository/" +:+ rc_name config in
              let* m := merge_members package base_url members ([], ∅, []) in
              let '(versions, tags, time) := m in
              if decide (versions = []) then Ret (NpmFail (NotFound "package not found in any member"))
              else
                let json := json_to_string (packument_json package tags versions time) in
                let* _ := store_cached_packument proxy_store package json in
                Ret (NpmJson (serve_rewritten json absolute_base))
          end
      end
  | _ => Ret (NpmFail (Internal "expected proxy repo kind"))
  end.

(** format/npm/src/api.rs:93-104 *)
Definition get_packument_inner_from_config (config : RepoConfig) (package origin : string) : prog NpmReply :=
  match kind_repo_type (rc_kind config) with
  | RTHosted => hosted_packument (rc_name config) package origin
  | RTCache => cache_packument config package origin
  | RTProxy => proxy_packument config package origin
  end.

(** ** Tarballs *)

(** format/npm/src/api.rs:679-697 *)
Definition npm_stream_response (reader : bytes) (size : Z) (filename : string) : NpmReply := NpmFile filename size reader.

Definition tarball_reply (r : result (option (bytes * Z * ArtifactRecord))) (filename : string) : NpmReply :=
  match r with
  | Ok (Some (reader, size, _)) => npm_stream_response reader size filename
  | Ok None => NpmFail (NotFound "tarball not found")
  | Err e => NpmFail e
  end.

(** format/npm/src/api.rs:699-725 *)
Definition hosted_download (repo_name name version filename : string) : prog NpmReply :=
  let* r :=
    let*! b := resolve_repo_blob_store repo_name else NpmFail in
    let* r := get_tarball (mkFormatStore repo_name b.1 (rc_store b.2)) name version filename in
    Ret (inr (tarball_reply r filename)) in
  Ret (finished r).

(** What a cache records of a version whose tarball it has downloaded. *)
Definition minimal_metadata (name version : string) : string :=
  json_to_string (json_from_list [("name", JString name); ("version", JString version)]).

(** The URL that the cached metadata gives, or one made from the base. *)
Definition upstream_tarball (upstream_url name filename : string) (ver_meta : option string) : string :=
  let reported := obj ← ver_meta ≫= json_parse; dist ← json_field "dist" obj; json_str_field "tarball" dist in
  resolve_upstream_tarball_url (default (trim_end SLASH upstream_url +:+ "/" +:+ name +:+ "/-/" +:+ filename) reported) upstream_url.

(** format/npm/src/api.rs:727-819 *)
Definition cache_download (config : RepoConfig) (name version filename : string) : prog NpmReply :=
  match rc_kind config with
  | Cache upstream_url _ upstream_auth =>
      let* r := resolve_blob_store (rc_store config) in
      match r with
      | Err e => Ret (NpmFail e)
      | Ok blobs =>
          let store := mkFormatStore (rc_name config) blobs (rc_store config) in
          let* r := get_tarball store name version filename in
          match r with
          | Ok (Some (reader, size, _)) => Ret (npm_stream_response reader size filename)
          | _ =>
              let* m := get_version_metadata store name version in
              let url := upstream_tarball upstream_url name filename (match m with Ok o => o | Err _ => None end) in
              match fetch_upstream_tarball url upstream_auth with
              | Ok resp =>
                  match collect_body (rs_body resp) with
                  | Err e => Ret (NpmFail e)
                  | Ok data =>
                      let* _ := put_package_from_upstream store name version filename data "" "" (minimal_metadata name version) url in
                      let* r := get_tarball store name version filename in
                      Ret match r with
                          | Ok (Some (reader, size, _)) => npm_stream_response reader size filename
                          | _ => NpmFail (NotFound "tarball not found")
                          end
                  end
              | Err _ => Ret (NpmFail (NotFound "tarball not found"))
              end
          end
      end
  | _ => Ret (NpmFail (Internal "expected cache repo kind"))
  end.

(** A nested proxy is asked as if it were hosted. *)
Fixpoint try_download_members (name version filename : string) (members : list string) : prog NpmReply :=
  match members with
  | [] => Ret (NpmFail (NotFound "tarball not found in any member"))
  | member_name :: members =>
      let* r := get_repo member_name in
      match r with
      | Ok (Some c) =>
          if decide (repo_format c = FNpm) then
            let* resp := match kind_repo_type (rc_kind c) with
              | RTCache => cache_download c name version filename
              | _ => hosted_download member_name name version filename
              end in
            if npm_status_ok resp then Ret resp else try_download_members name version filename members
          else try_download_members name version filename members
      | _ => try_download_members name version filename members
      end
  end.

(** format/npm/src/api.rs:821-862 *)
Definition proxy_download (config : RepoConfig) (name version filename : string) : prog NpmReply :=
  match rc_kind config with
  | Proxy members _ => try_download_members name version filename members
  | _ => Ret (NpmFail (Internal "expected proxy repo kind"))
  end.

(** format/npm/src/api.rs:213-231 *)
Definition download_tarball_inner_from_config (config : RepoConfig) (package filename : string) : prog NpmReply :=
  match extract_version_from_filename filename package with
  | None => Ret (NpmFail (BadRequest "invalid tarball filename"))
  | Some version =>
      match kind_repo_type (rc_kind config) with
      | RTHosted => hosted_download (rc_name config) package version filename
      | RTCache => cache_download config package version filename
      | RTProxy => proxy_download config package version filename
      end
  end.

(** ** Search *)

(** The parameters [text] and [size] of a query; the last ones win. *)
Definition search_params (query : option string) : string * nat :=
  match query with
  | None => ("", 20)
  | Some q => foldl (λ acc part,
      match strip_prefix part "text=" with
      | Some v => (default "" (url_decode v), acc.2)
      | None =>
          match strip_prefix part "size=" ≫= parse_u64 with
          | Some n => (acc.1, Z.to_nat n)
          | None => acc
          end
      end) ("", 20) (split_char "&" q)
  end.

Fixpoint search_objects (store : FormatStore) (names : list string) : prog (list Json) :=
  match names with
  | [] => Ret []
  | name :: names =>
      let* r := get_dist_tags store name in
      let version := match r with Ok tags => default "0.0.0" (tags !! "latest") | Err _ => "0.0.0" end in
      let* objects := search_objects store names in
      Ret (JObject [("package", json_from_list [("name", JString name); ("version", JString version); ("description", JString "")])] :: objects)
  end.

(** format/npm/src/api.rs:1033-1090 *)
Definition search_packages (config : RepoConfig) (text : string) (size : nat) : prog NpmReply :=
  let* r := resolve_blob_store (rc_store config) in
  match r with
  | Err e => Ret (NpmFail e)
  | Ok blobs =>
      let store := mkFormatStore (rc_name config) blobs (rc_store config) in
      let* r := list_packages fuel store in
      match r with
      | Err e => Ret (NpmFail e)
      | Ok packages =>
          let text_lower := to_lowercase text in
          let filtered := take size (filter (λ name, text_lower = "" ∨ contains name text_lower = true) packages) in
          let* objects := search_objects store filtered in
          Ret (NpmJson (json_to_string (JObject [("objects", JArray objects)])))
      end
  end.

(** [None]: the path is none of the protocol. *)
(** format/npm/src/api.rs:35-91 *)
Definition try_handle_repository_path (config : RepoConfig) (path : string) (query : option string) (origin : string) : prog (option NpmReply) :=
  let some (p : prog NpmReply) := let* r := p in Ret (Some r) in
  if decide (path = "-/v1/search") then let '(text, size) := search_params query in some (search_packages config text size)
  else
    match strip_prefix path "@" with
    | Some rest =>
        match splitn 4 SLASH rest with
        | [scope; pkg] => some (get_packument_inner_from_config config ("@" +:+ scope +:+ "/" +:+ pkg) origin)
        | [scope; pkg; "-"; filename] => some (download_tarball_inner_from_config config ("@" +:+ scope +:+ "/" +:+ pkg) filename)
        | _ => Ret None
        end
    | None =>
        let packument := if decide (path ≠ "" ∧ has_char SLASH path = false) then some (get_packument_inner_from_config config path origin) else Ret None in
        match split_once_str "/-/" path with
        | Some (package, rest) =>
            if decide (package ≠ "" ∧ has_char SLASH package = false ∧ rest ≠ "") then some (download_tarball_inner_from_config config package rest)
            else packument
        | None => packument
        end
    end.

(** ** Publication *)

(** The tags of the payload, with the last of the versions as the latest if it
    names none. *)
(** format/npm/src/api.rs:899-916 *)
Definition publish_tags (payload : Json) (versions : Fields) : gmap string string :=
  let dist_tags := default ∅ (tags_of_fields <$> (json_field "dist-tags" payload ≫= json_object)) in
  match dist_tags !! "latest" with
  | Some _ => dist_tags
  | None => match last versions with Some (last_version, _) => <["latest" := last_version]> dist_tags | None => dist_tags end
  end.

(** The attachment of a version: by its file name, by that of the normalised
    name, or else the first one. *)
(** format/npm/src/api.rs:930-949 *)
Definition attachment_key (package version : string) (attachments : Fields) : option string :=
  let expected_filename := package +:+ "-" +:+ version +:+ ".tgz" in
  let norm_filename := normalize_name package +:+ "-" +:+ version +:+ ".tgz" in
  match field_get expected_filename attachments with
  | Some _ => Some expected_filename
  | None =>
      match field_get norm_filename attachments with
      | Some _ => Some norm_filename
      | None => fst <$> head attachments
      end
  end.

(** The text of the decoder's error is left out. *)
(** format/npm/src/api.rs:955-971 *)
Definition tarball_data (package version : string) (attachments : Fields) : NpmReply + bytes :=
  match attachment_key package version attachments with
  | None => inl (NpmFail (BadRequest ("no attachment found for version " +:+ version)))
  | Some key =>
      match field_get key attachments ≫= json_str_field "data" with
      | None => inl (NpmFail (BadRequest "attachment missing 'data' field"))
      | Some data_b64 =>
          match b64_decode data_b64 with
          | Some data => inr data
          | None => inl (NpmFail (BadRequest "invalid base64 in attachment"))
          end
      end
  end.

(** The versions of a payload, one after the other, up to the first error. *)
Fixpoint publish_versions (store : FormatStore) (package : string) (dist_tags : gmap string string) (attachments versions : Fields) :
    prog (NpmReply + unit) :=
  match versions with
  | [] => Ret (inr tt)
  | (version, ver_obj) :: versions =>
      match tarball_data package version attachments with
      | inl reply => Ret (inl reply)
      | inr data =>
          let*! _ := put_package store package version (tarball_name package version) data (json_to_string ver_obj) dist_tags else NpmFail in
          publish_versions store package dist_tags attachments versions
      end
  end.

(** The versions, the tags and the attachments of a body. *)
Definition parse_npm_publish (body : bytes) : NpmReply + (Fields * gmap string string * Fields) :=
  match json_parse body with
  | None => inl (NpmFail (BadRequest ("invalid JSON: " +:+ json_error body)))
  | Some payload =>
      match json_field "versions" payload ≫= json_object with
      | None => inl (NpmFail (BadRequest "missing 'versions' field"))
      | Some versions =>
          match json_field "_attachments" payload ≫= json_object with
          | None => inl (NpmFail (BadRequest "missing '_attachments' field"))
          | Some attachments => inr (versions, publish_tags payload versions, attachments)
          end
      end
  end.

(** What is done with a body on the store of the target. *)
Definition publish_body_to (store : FormatStore) (repo_name package : string) (body : bytes) : prog NpmReply :=
  match parse_npm_publish body with
  | inl reply => Ret reply
  | inr (versions, dist_tags, attachments) =>
      let* r := publish_versions store package dist_tags attachments versions in
      match r with
      | inl reply => Ret reply
      | inr _ =>
          let* _ := set_stale_flag store in
          let* _ := propagate_staleness repo_name FNpm STALE_PATH in
          Ret NpmOk
      end
  end.

(** format/npm/src/api.rs:864-1018 *)
Definition publish_inner (auth : B) (user repo_name package : string) (body : bytes) : prog (NpmReply * B) :=
  let* a := upload_preamble auth user repo_name FNpm in
  let '(r, auth) := a in
  match r with
  | Err e => Ret (NpmFail e, auth)
  | Ok (target_repo, target_config, blobs) =>
      let* reply := publish_body_to (mkFormatStore target_repo blobs (rc_store target_config)) repo_name package body in
      Ret (reply, auth)
  end.

(** The name and the password of a login. *)
Definition parse_login (body : bytes) : NpmReply + (string * string) :=
  match json_parse body with
  | None => inl (NpmFail (BadRequest ("invalid JSON: " +:+ json_error body)))
  | Some payload =>
      match json_str_field "name" payload with
      | None => inl (NpmFail (BadRequest "missing 'name' field"))
      | Some name =>
          match json_str_field "password" payload with
          | None => inl (NpmFail (BadRequest "missing 'password' field"))
          | Some password => inr (name, password)
          end
      end
  end.

(** The tokens that the server issues. *)
Context (issue_token : UserRecord → prog (result string)).

Definition login (auth : B) (body : bytes) : prog (NpmReply * B) :=
  match parse_login body with
  | inl reply => Ret (reply, auth)
  | inr (name, password) =>
      let* a := authenticate auth name password in
      let '(r, auth) := a in
      match r with
      | Err e => Ret (NpmFail e, auth)
      | Ok None => Ret (NpmUnauthorized, auth)
      | Ok (Some u) =>
          let* t := issue_token u in
          Ret (match t with
               | Err e => NpmFail e
               | Ok token => NpmCreated (JObject [("ok", JBool true); ("token", JString token)])
               end, auth)
      end
  end.

(** format/npm/src/api.rs:112-211 *)
Definition try_handle_repository_write (auth : B) (user : string) (config : RepoConfig) (method path : string) (body : bytes) :
    prog (option NpmReply * B) :=
  let some (p : prog (NpmReply * B)) := let* r := p in let '(reply, auth) := r in Ret (Some reply, auth) in
  if decide (method = "GET" ∧ path = "-/whoami") then Ret (Some (NpmJson (json_to_string (JObject [("username", JString user)]))), auth)
  else if decide (method = "PUT" ∧ starts_with path "-/user/" = true) then some (login auth body)
  else if decide (method = "PUT") then
    match strip_prefix path "@" with
    | Some rest =>
        match splitn 2 SLASH rest with
        | [scope; pkg] =>
            if decide (scope ≠ "" ∧ pkg ≠ "" ∧ has_char SLASH pkg = false) then
              some (publish_inner auth user (rc_name config) ("@" +:+ scope +:+ "/" +:+ pkg) body)
            else Ret (None, auth)
        | _ => Ret (None, auth)
        end
    | None =>
        if decide (path ≠ "" ∧ has_char SLASH path = false) then some (publish_inner auth user (rc_name config) path body)
        else Ret (None, auth)
    end
  else Ret (None, auth).
End handlers.

(** ** What a publication leaves alone *)

Section spares.
Context `{Blake3} `{UuidGen} (p : string) (c : string).
Implicit Types (w : world kvmap) (m : kvmap).

(** The effect keeps the artifacts of [p] that are there, and the blobs with
    the id [c]. *)
Definition spare_eff (e : eff) : Prop :=
  match e with
  | EKv (PutIfAbsent _ _ _ _) => True
  | EKv o => ∀ path, ¬ may_change o (artifact_key p path)
  | EBlob _ (BPut id _) | EBlob _ (BDelete id) => id ≠ c
  | _ => True
  end.

(** The program ends, and all its effects are such, when [c] is not drawn. *)
Fixpoint spares {A : Type} (q : prog A) : Prop :=
  match q with
  | Ret _ => True
  | Spin => False
  | Vis e k => spare_eff e ∧ ∀ r, match e return eff_ret e → Prop with EUuid => λ id, id ≠ c | _ => λ _, True end r → spares (k r)
  end.

Lemma spares_bind {A C} (q : prog A) (f : A → prog C) : spares q → (∀ a, spares (f a)) → spares (bind q f).
Proof.
  intros Hq Hf. induction q as [a|e k IH|]; cbn in *; [apply Hf| |done]. destruct Hq as [He Hk]. split; [done|]. intros r Hr. by apply IH, Hk.
Qed.

Lemma spares_bind_ok {A C} (q : prog (result A)) (f : A → prog (result C)) : spares q → (∀ a, spares (f a)) → spares (bind_ok q f).
Proof. intros Hq Hf. apply spares_bind; [done|]. by intros [a|e]. Qed.

Lemma spares_uuid {C} (f : string → prog C) : (∀ id, id ≠ c → spares (f id)) → spares (bind (call EUuid) f).
Proof. intros Hf. split; [done|]. intros id Hid. by apply Hf. Qed.

Lemma spares_kv o : spare_eff (EKv o) → spares (kv o).
Proof. by split. Qed.

Lemma spares_blob store o : spare_eff (EBlob store o) → spares (blob store o).
Proof. by split. Qed.

Lemma spares_call e : spare_eff e → spares (call e).
Proof. by split. Qed.

(** What the program leaves in place. *)
Definition kept w w' : Prop :=
  w_uuids w ≤ w_uuids w' ∧ w_stores w' = w_stores w ∧
  (∀ path x, w_kv w !! artifact_key p path = Some x → w_kv w' !! artifact_key p path = Some x) ∧
  ∀ store (d : bytes), w_blobs w !! (store, c) = Some d → w_blobs w' !! (store, c) = Some d.

Lemma kept_trans w1 w2 w3 : kept w1 w2 → kept w2 w3 → kept w1 w3.
Proof. intros (Hu1 & Hs1 & Hk1 & Hb1) (Hu2 & Hs2 & Hk2 & Hb2). split_and!; [lia|congruence|auto|auto]. Qed.

Lemma spare_step e w : spare_eff e → kept w (handle e w).2.
Proof.
  intros He. destruct e as [o|store o|n| | |ev|]; cbn [handle].
  - destruct (kv_step o (w_kv w)) as [r m'] eqn:Ho. change (spec_store o (w_kv w) = (r, m')) in Ho. cbn [snd].
    split_and!; [done|done| |done]. intros path x Hx. cbn [w_kv set_kv]. pose proof (f_equal snd Ho) as Hm. cbn [snd] in Hm. rewrite <-Hm.
    destruct o; try (rewrite spec_store_unchanged; [done|exact (He path)]). by apply spec_put_if_absent_present.
  - destruct o; cbn; split_and!; try done; intros st d Hd; cbn in He |- *;
      [by rewrite lookup_insert_ne by congruence|by rewrite lookup_delete_ne by congruence].
  - done.
  - done.
  - cbn. split_and!; [cbn; lia|done|done|done].
  - done.
  - done.
Qed.

(** A run of such a program. *)
Lemma spares_run {A} (q : prog A) w : spares q → (∀ n, w_uuids w ≤ n → new_v4 n ≠ c) → ∃ a w', run q w = (Some a, w') ∧ kept w w'.
Proof.
  revert w. induction q as [a|e k IH|]; intros w Hq Hc; [|destruct Hq as [He Hk]|done].
  - exists a, w. split; [done|]. by split_and!.
  - pose proof (spare_step e w He) as Hstep. cbn [run]. destruct (handle e w) as [r w1] eqn:Hw. cbn [snd] in Hstep.
    destruct (IH r w1) as (a & w' & Hrun & Hkept).
    + apply Hk. destruct e; try done. cbn [handle] in Hw. injection Hw as <- _. by apply Hc.
    + destruct Hstep as [Hu _]. intros n Hn. apply Hc. lia.
    + exists a, w'. split; [done|]. by eapply kept_trans.
Qed.
End spares.

Section published.
Context `{Unicode} `{JsonText} `{TagsText} `{Rfc3339} `{Base64}.
Context `{Blake3} `{Serde ArtifactRecord} `{Serde TreeEntry} `{Serde BlobRecord} `{Serde RepoConfig} `{Digests} `{UuidGen} (p c : string).
Implicit Types (w : world kvmap) (m : kvmap).

Lemma other_repo_key repo path path' : repo ≠ p → artifact_key repo path ≠ artifact_key p path'.
Proof. intros Hne Hk. apply Hne. unfold artifact_key, sharded_pk in Hk. injection Hk as Hpk _. by apply scoped_pk_inj in Hpk as [? _]. Qed.

Ltac spares_step :=
  lazymatch goal with
  | |- spares _ _ (Ret _) => exact Logic.I
  | |- spares _ _ (bind (call EUuid) _) => apply spares_uuid; intros ? ?
  | |- spares _ _ (bind _ _) => apply spares_bind; [|intros ?]
  | |- spares _ _ (bind_ok _ _) => apply spares_bind_ok; [|intros ?]
  | |- spares _ _ (try_ ?r _) => destruct r; cbn [try_]
  | |- spares _ _ (call _) => apply spares_call
  | |- spares _ _ (kv _) => apply spares_kv
  | |- spares _ _ (blob _ _) => apply spares_blob
  | |- spares _ _ (match ?x with _ => _ end) => destruct x eqn:?
  | |- spares _ _ (let '_ := ?x in _) => destruct x eqn:?
  end.

(** The key that is written is none of an artifact of [p]. *)
Ltac spares_key :=
  match goal with
  | |- spare_eff _ _ (EKv _) =>
      let Hk := fresh in intros ? Hk; cbn in Hk;
      solve [ done
            | match goal with
              | Ha : artifact_key ?r ?q = _, Hne : ?r ≠ p, Hk' : artifact_key p ?q' = _ |- _ =>
                  apply (other_repo_key r q q' Hne); congruence
              end
            | unfold artifact_key, blob_key, tree_entry_key in *; exfalso; simplify_eq ]
  end.

Ltac spares_tac := repeat (first [spares_step | solve [auto] | spares_key]); try done.

Lemma spares_store_blob self id data now : id ≠ c → spares p c (store_blob self id data now).
Proof.
  intros Hid. unfold store_blob, claim_file, claim_or_reuse_blob_counted, put_dedup_record_counted, put_dedup_record, store_changed, typed_get,
    reuse_existing. spares_tac.
Qed.

Lemma spares_put_counted repo path r : repo ≠ p → spares p c (put_counted repo path r).
Proof.
  intros Hne. unfold put_counted, dir_changed. apply spares_bind_ok; [|intros o; spares_tac].
  unfold put_artifact. case_decide; [done|]. generalize PUT_ARTIFACT_MAX_RETRIES. intros n.
  induction n as [|n IH]; [done|]. cbn [put_artifact_loop]. destruct (artifact_key repo path) as [ [t pk] sk] eqn:Hkey.
  unfold typed_get_versioned, prepare_record, upsert_tree_file. spares_tac.
Qed.

Lemma spares_if_absent repo path r : spares p c (put_artifact_if_absent repo path r).
Proof. unfold put_artifact_if_absent, prepare_record, upsert_tree_file. spares_tac. Qed.

Lemma spares_get_artifact repo path : spares p c (get_artifact repo path).
Proof. unfold get_artifact, typed_get. spares_tac. Qed.

Lemma spares_propagate repo format path : spares p c (propagate_staleness repo format path).
Proof.
  unfold propagate_staleness, list_repos, typed_list. spares_tac. generalize 8.
  assert (∀ parents proxies (visited : gset string) queue, spares p c (visit_parents path proxies parents visited queue)) as Hp.
  { intros parents flag. induction parents as [|x parents IH]; intros visited queue; cbn [visit_parents]; [done|].
    case_decide; [apply IH|]. apply spares_bind; [apply spares_if_absent|intros _; apply IH]. }
  assert (∀ n proxies flag (visited : gset string) queue, spares p c (visit_level n proxies path flag visited queue)) as Hl.
  { intros n proxies flag. induction n as [|n IH]; intros visited queue; cbn [visit_level]; [done|]. destruct queue; [done|].
    apply spares_bind; [destruct (proxies !! _); [apply Hp|done]|intros [v q]; apply IH]. }
  intros n. generalize (∅ : gset string), [repo]. induction n as [|n IH]; intros visited queue; cbn [visit_levels]; [done|].
  destruct queue; [done|]. apply spares_bind; [apply Hl|intros [v q]; apply IH].
Qed.

Lemma spares_put_package self name version filename data meta (tags : gmap string string) : fs_repo self ≠ p →
  spares p c (put_package self name version filename data meta tags).
Proof.
  intros Hne. pose proof (λ path r, spares_put_counted (fs_repo self) path r Hne). pose proof (spares_store_blob self).
  pose proof spares_get_artifact. unfold put_package, get_dist_tags, record_blob. spares_tac.
Qed.

Lemma spares_publish self repo_name package body : fs_repo self ≠ p → spares p c (publish_body_to self repo_name package body).
Proof.
  intros Hne. unfold publish_body_to. destruct (parse_npm_publish body) as [reply|[ [versions tags] attachments] ]; [done|].
  apply spares_bind.
  - induction versions as [|[version ver_obj] versions IH]; cbn [publish_versions]; [done|].
    destruct (tarball_data package version attachments); [done|]. apply spares_bind; [by apply spares_put_package|]. by intros [r|e].
  - intros [reply|_]; [done|]. pose proof spares_if_absent. pose proof spares_propagate. unfold set_stale_flag. spares_tac.
Qed.
End published.

(** ** The flag works once *)

Section flagged.
Context `{Unicode} `{JsonText} `{TagsText} `{Rfc3339} `{Base64}.
Context `{Blake3} `{Serde ArtifactRecord} `{Serde TreeEntry} `{Serde BlobRecord} `{Serde RepoConfig} `{Serde UserRecord} `{Serde RoleRecord} `{Argon2}
  `{Digests} `{Scheduler} `{UuidGen} {B : Type} `{AuthBackend B}
  (same : string → string → Prop) (I : B → kvmap → Prop) `{laws : !StoredAccounts B same I}.
Implicit Types (w : world kvmap) (m : kvmap).

(** The proxy keeps a document of the package, in a blob that is no id to come,
    and has a flag that is not newer. *)
Definition keeps_document (proxy : RepoConfig) (package c : string) (data : bytes) w : Prop :=
  (∃ (b : bytes) v r, w_kv w !! artifact_key (rc_name proxy) (packument_path package) = Some (b, v) ∧ from_slice b = inr r ∧
    ar_blob_id r = Some c ∧
    ∃ (fb : bytes) fv f, w_kv w !! artifact_key (rc_name proxy) STALE_PATH = Some (fb, fv) ∧ from_slice fb = inr f ∧
      (ar_updated_at f ≤ ar_updated_at r)%Z) ∧
  c ≠ "" ∧ w_blobs w !! (rc_store proxy, c) = Some data ∧ rc_store proxy ∈ w_stores w ∧ ∀ n, w_uuids w ≤ n → new_v4 n ≠ c.

Lemma keeps_document_kept proxy package c data w w' : kept (rc_name proxy) c w w' →
  keeps_document proxy package c data w → keeps_document proxy package c data w'.
Proof.
  intros (Hu & Hst & Hk & Hb) ((b & v & r & Hm & Hv & Hid & fb & fv & f & Hfm & Hfv & Hle) & Hc & Hd & Hs & Hfresh).
  split_and!; [|done|by apply Hb|by rewrite Hst|intros n Hn; apply Hfresh; lia].
  exists b, v, r. split_and!; [by apply Hk|done|done|]. exists fb, fv, f. split_and!; [by apply Hk|done|done].
Qed.

Lemma keeps_document_served fuel proxy members wm package origin c data w : rc_kind proxy = Proxy members wm →
  keeps_document proxy package c data w →
  run (proxy_packument fuel proxy package origin) w =
    (Some (NpmJson (serve_rewritten (from_utf8_lossy data) (repo_base origin (rc_name proxy)))), w).
Proof.
  intros Hkind ((b & v & r & Hm & Hv & Hid & fb & fv & f & Hfm & Hfv & Hle) & Hc & Hd & Hs & _).
  unfold proxy_packument. rewrite Hkind, run_bind, run_resolve_blob_store, decide_True by done. rewrite run_bind.
  assert (∀ self, fs_repo self = rc_name proxy → fs_blobs self = rc_store proxy →
    run (fresh_packument self package) w = (Some (Some (from_utf8_lossy data)), w)) as ->; [|done..].
  intros self Hrepo Hblobs. unfold fresh_packument. rewrite run_bind. unfold get_stale_flag. rewrite run_get_artifact. unfold old_of.
  rewrite Hrepo, Hfm, Hfv. rewrite run_bind. unfold get_cached_packument. rewrite run_bind_ok, run_get_artifact. unfold old_of.
  rewrite Hrepo, Hm, Hv, Hid. cbn [default id]. rewrite decide_False by done. rewrite Hblobs. cbn. rewrite Hd. cbn. by rewrite decide_True by lia.
Qed.

(** C17: The document of a proxy is never brought up to date a second time.
    Publications mark a proxy as changed by a flag that is written only if it
    is absent, and that no handler of the format deletes; the proxy takes the document that it
    keeps for current when it is not older than the flag.  So when a proxy
    keeps a document and has a flag that is not newer, which is how every merge
    after the first publication leaves it, then any publication of any package
    to any other repository leaves that as it is, and the proxy goes on
    answering with the same document. *)
Theorem npm_flag_works_once (fuel : nat) (proxy : RepoConfig) (members : list string) (wm : option string) (package c origin : string)
    (data : bytes) (b : B) (user repo_name published : string) (body : bytes) (w : world kvmap) :
  rc_kind proxy = Proxy members wm → keeps_document proxy package c data w → I b (w_kv w) →
  (∀ config target cfg, repo_of (w_kv w) repo_name = Ok (Some config) → write_target (w_kv w) FNpm config target cfg → target ≠ rc_name proxy) →
  ∃ reply b' w', run (publish_inner b user repo_name published body) w = (Some (reply, b'), w') ∧
    keeps_document proxy package c data w' ∧
    ∀ v, (v = w ∨ v = w') → run (proxy_packument fuel proxy package origin) v =
      (Some (NpmJson (serve_rewritten (from_utf8_lossy data) (repo_base origin (rc_name proxy)))), v).
Proof using laws.
  intros Hkind Hdoc Hi Htarget.
  assert (∃ reply b' w', run (publish_inner b user repo_name published body) w = (Some (reply, b'), w') ∧ keeps_document proxy package c data w')
    as (reply & b' & w' & Hrun & Hdoc').
  { unfold publish_inner. destruct (run_upload_preamble same I b user repo_name FNpm w Hi) as (r & b' & Hpre & Hspec). rewrite run_bind, Hpre.
    destruct r as [ [ [target cfg] blobs]|e]; [|by eexists _, _, _]. destruct (Hspec _ _ _ eq_refl) as (config & Hrepo & _ & _ & Hwt & _).
    specialize (Htarget config target cfg Hrepo Hwt).
    destruct (spares_run (rc_name proxy) c (publish_body_to (mkFormatStore target blobs (rc_store cfg)) repo_name published body) w)
      as (reply & w' & Hrun & Hkept); [by apply spares_publish|apply Hdoc|].
    rewrite run_bind, Hrun. exists reply, b', w'. split; [done|]. by eapply keeps_document_kept. }
  exists reply, b', w'. split; [done|]. split; [done|]. intros v [->| ->]; by eapply keeps_document_served.
Qed.
End flagged.

(** ** What has been published is served *)

Section served.
Context `{Unicode}.

(** A package name that the protocol accepts: without a slash, or with a scope. *)
Definition npm_package (package : string) : Prop :=
  (package ≠ "" ∧ has_char SLASH package = false ∧ starts_with package "@" = false) ∨
  ∃ scope pkg, package = "@" +:+ scope +:+ "/" +:+ pkg ∧ has_char SLASH scope = false ∧ has_char SLASH pkg = false.

Definition tarball_request (package version : string) : string := package +:+ "/-/" +:+ tarball_name package version.

Lemma extract_tarball_name package version : version ≠ "" → extract_version_from_filename (tarball_name package version) package = Some version.
Proof.
  intros Hv. unfold extract_version_from_filename, tarball_name. set (norm := normalize_name (bare_name package)).
  assert (norm +:+ "-" +:+ version +:+ ".tgz" = ((norm +:+ "-") +:+ version) +:+ ".tgz") as -> by by rewrite !str_app_assoc.
  rewrite strip_suffix_app.
  assert (strip_prefix ((norm +:+ "-") +:+ version) (norm +:+ "-") = Some version) as -> by by apply strip_prefix_spec.
  by rewrite decide_True.
Qed.

Lemma split_at_dash a rest : has_char SLASH a = false → split_once_str "/-/" (a +:+ "/-/" +:+ rest) = Some (a, rest).
Proof.
  induction a as [|d a IH]; intros Ha.
  { assert (strip_prefix ("/-/" +:+ rest) "/-/" = Some rest) as Hs by by apply strip_prefix_spec. cbn [String.append] in Hs |- *. cbn [split_once_str]. by rewrite Hs. }
  cbn [has_char] in Ha. apply orb_false_iff in Ha as [Hd Ha]. apply bool_decide_eq_false in Hd.
  change (String d a +:+ ?t) with (String d (a +:+ t)). cbn [split_once_str]. rewrite (IH Ha).
  destruct (strip_prefix _ _) as [t|] eqn:Hs; [|done]. apply strip_prefix_spec in Hs. cbn in Hs. by injection Hs as -> _.
Qed.

(** The request for a tarball is recognised. *)
Lemma parse_tarball_request `{JsonText} `{TagsText} `{Rfc3339} `{UrlEncoding} `{Upstream} `{Blake3} `{Serde ArtifactRecord} `{Serde TreeEntry}
    `{Serde BlobRecord} `{Serde RepoConfig} `{Digests} `{Scheduler} fuel config package version query origin :
  npm_package package → tarball_name package version ≠ "" →
  try_handle_repository_path fuel config (tarball_request package version) query origin =
    let* r := download_tarball_inner_from_config config package (tarball_name package version) in Ret (Some r).
Proof.
  intros Hp Hne. unfold try_handle_repository_path, tarball_request.
  assert (package +:+ "/-/" +:+ tarball_name package version ≠ "-/v1/search") as Hsearch.
  { intros Heq. destruct Hp as [(_ & Hs & _)|(scope & pkg & -> & _)]; [|done].
    pose proof (split_at_dash package (tarball_name package version) Hs) as Hsplit. by rewrite Heq in Hsplit. }
  rewrite decide_False by done. destruct Hp as [(Hne' & Hs & Hat)|(scope & pkg & -> & Hscope & Hpkg)].
  - destruct (strip_prefix (package +:+ _) "@") as [t|] eqn:Hstrip.
    { apply strip_prefix_spec in Hstrip. destruct package as [|d package]; [done|]. cbn in Hstrip. injection Hstrip as -> _. apply not_true_iff_false in Hat. destruct Hat. apply starts_with_spec. by exists package. }
    rewrite split_at_dash by done. by rewrite decide_True.
  - set (file := tarball_name _ _) in *. change (("@" +:+ scope +:+ "/" +:+ pkg) +:+ "/-/" +:+ file) with ("@" +:+ (scope +:+ "/" +:+ pkg) +:+ "/-/" +:+ file).
    assert (strip_prefix ("@" +:+ (scope +:+ "/" +:+ pkg) +:+ "/-/" +:+ file) "@" = Some ((scope +:+ "/" +:+ pkg) +:+ "/-/" +:+ file)) as -> by by apply strip_prefix_spec.
    assert ((scope +:+ "/" +:+ pkg) +:+ "/-/" +:+ file = scope +:+ "/" +:+ (pkg +:+ "/" +:+ ("-" +:+ "/" +:+ file))) as -> by by rewrite !str_app_assoc.
    unfold splitn. rewrite !split_at_slash by done. done.
Qed.
End served.

Section uploads.
Context `{Unicode} `{JsonText} `{TagsText} `{Rfc3339} `{Base64} `{UrlEncoding} `{Upstream}.
Context `{Blake3} `{Serde ArtifactRecord} `{Serde TreeEntry} `{Serde BlobRecord} `{Serde RepoConfig} `{Serde UserRecord} `{Serde RoleRecord} `{Argon2}
  `{Digests} `{Scheduler} `{UuidGen} {ar_exact : SerdeExact ArtifactRecord} {br_exact : SerdeExact BlobRecord}.
Implicit Types (w : world kvmap) (m : kvmap) (self : FormatStore).

(** Paths below different directories are different keys. *)
Lemma dir_segments dir x : has_char SLASH dir = false → dir ≠ "" → segments (dir +:+ "/" +:+ x) = dir :: segments x.
Proof.
  intros Hd Hne. change ("/" +:+ x) with (String SLASH x). rewrite segments_app. unfold segments at 1. by rewrite split_slash_no_slash, filter_cons_True.
Qed.

Lemma dirs_differ repo repo' dir dir' x y : has_char SLASH dir = false → has_char SLASH dir' = false → dir ≠ "" → dir' ≠ "" → dir ≠ dir' →
  artifact_key repo (dir +:+ "/" +:+ x) ≠ artifact_key repo' (dir' +:+ "/" +:+ y).
Proof. intros H1' H2' H3' H4' Hne [_ Hs]%artifact_key_inj. rewrite !dir_segments in Hs by done. by injection Hs. Qed.

Lemma tarball_not_version repo name version file repo' name' version' : artifact_key repo (tarball_path name version file) ≠ artifact_key repo' (version_path name' version').
Proof. by apply (dirs_differ _ _ "_tarballs" "_versions"). Qed.
Lemma tarball_not_tags repo name version file repo' name' : artifact_key repo (tarball_path name version file) ≠ artifact_key repo' (dist_tags_path name').
Proof. by apply (dirs_differ _ _ "_tarballs" "_dist-tags"). Qed.
Lemma version_not_tags repo name version repo' name' : artifact_key repo (version_path name version) ≠ artifact_key repo' (dist_tags_path name').
Proof. by apply (dirs_differ _ _ "_versions" "_dist-tags"). Qed.

Lemma wp_store_blob self (repos : gset string) (id : string) (data : bytes) (now : DateTime) (w : world kvmap) : sound (fs_blobs self) (fs_store self) repos w → new_id self w id →
  wp (store_blob self id data now) w (λ (res : result string) w', sound (fs_blobs self) (fs_store self) repos w' ∧ only_adds self [id] [] w w' ∧
    w_uuids w' = w_uuids w ∧ match res with Ok id' => blob_at self data id' w' | Err _ => True end).
Proof using ar_exact br_exact.
  intros Hs Hid. unfold store_blob. apply wp_bind_ok. eapply wp_intro; [done|].
  eapply wp_mono; [by apply (wp_claim_file self repos)|]. intros res w' (Hs' & Ho & Hu & _ & Hr). by split_and!.
Qed.

Lemma run_dist_tags self name w : ∃ r, run (get_dist_tags self name) w = (Some r, w).
Proof.
  unfold get_dist_tags. rewrite run_bind_ok, run_get_artifact. destruct (old_of _ _) as [e|o]; [by eexists|].
  rewrite run_bind_ok. unfold record_blob. destruct (o ≫= ar_blob_id); [|by eexists].
  cbn. by eexists.
Qed.

(** The three ids that are drawn next are new and different. *)
Definition three_new_ids self w : Prop :=
  (∀ i, i < 3 → new_id self w (new_v4 (w_uuids w + i))) ∧ NoDup ((λ i, new_v4 (w_uuids w + i)) <$> [0; 1; 2]).

(** The tarball and the metadata of a version are in place. *)
Definition version_at self (name version filename : string) (data : bytes) (metadata : string) w : Prop :=
  (∃ r, uploaded self (tarball_path name version filename)
     (KNpmPackage (mkNpmPackageMeta name version filename (sha1_hex data) (sha512_base64 data) None)) false "application/octet-stream"
     (byte_size data) data r w) ∧
  ∃ r, uploaded self (version_path name version) KNpmMetadata true "application/json" (byte_size metadata) metadata r w.

(** A blob that is written under an id that has just been drawn. *)
Lemma wp_stored {A} self (repos : gset string) (f : string → prog (result A)) (data : bytes) (now : DateTime) (w : world kvmap) (Q : result A → world kvmap → Prop) :
  sound (fs_blobs self) (fs_store self) repos w → new_id self w (new_v4 (w_uuids w)) →
  (∀ res w', sound (fs_blobs self) (fs_store self) repos w' → only_adds self [new_v4 (w_uuids w)] [] w w' → w_uuids w' = S (w_uuids w) →
    match res with Ok id => blob_at self data id w' → wp (f id) w' Q | Err e => Q (Err e) w' end) →
  wp (let*? id := store_blob self (new_v4 (w_uuids w)) data now in f id) (bump_uuid w) Q.
Proof using ar_exact br_exact.
  intros Hs Hid Hf. apply wp_bind_ok. eapply wp_mono; [exact (wp_store_blob self repos _ data now (bump_uuid w) Hs Hid)|].
  intros res w' (Hs' & [Hk Hn Ha Ho Hst Hu] & Huu & Hr). specialize (Hf res w' Hs'). cbn in Huu, Hu.
  assert (only_adds self [new_v4 (w_uuids w)] [] w w') as Hadds by (split; [done..|lia]).
  specialize (Hf Hadds Huu). destruct res; [by apply Hf|done].
Qed.

(** The three records, when their blobs are in place. *)
Lemma wp_put_three self (repos : gset string) (name version filename : string) (data : bytes) (metadata tags_text id1 id2 id3 : string) (now : DateTime)
    (w : world kvmap) :
  sound (fs_blobs self) (fs_store self) repos w → blob_at self data id1 w → blob_at self metadata id2 w → blob_at self tags_text id3 w →
  let record := file_record (KNpmPackage (mkNpmPackageMeta name version filename (sha1_hex data) (sha512_base64 data) None)) false
    "application/octet-stream" (byte_size data) id1 (blake3_hex data) now in
  wp (let*? _ := put_counted (fs_repo self) (tarball_path name version filename) record in
      let*? _ := put_counted (fs_repo self) (version_path name version) (metadata_record metadata id2 now) in
      let*? _ := put_counted (fs_repo self) (dist_tags_path name) (metadata_record tags_text id3 now) in
      Ret (Ok record)) w (λ (res : result ArtifactRecord) w',
    sound (fs_blobs self) (fs_store self) repos w' ∧ (∃ ids paths, only_adds self ids paths w w') ∧
    match res with Ok _ => version_at self name version filename data metadata w' | Err _ => True end).
Proof using ar_exact br_exact.
  intros Hs Hb1 Hb2 Hb3 record.
  apply wp_bind_ok. eapply wp_mono; [by apply (wp_put_counted self repos _ _ data id1)|].
  intros [o1|e] w1 (Hs1 & Ho1 & _ & Hr1); [|split; [done|]; split; [by eexists _, _|done] ].
  apply wp_bind_ok. eapply wp_mono; [apply (wp_put_counted self repos _ _ metadata id2); [done|done|done|by eapply blob_at_kept]|].
  intros [o2|e] w2 (Hs2 & Ho2 & _ & Hr2); pose proof (only_adds_trans _ _ _ _ _ _ _ _ Ho1 Ho2) as Ho12;
    [|split; [done|]; split; [by eexists _, _|done] ].
  apply wp_bind_ok. eapply wp_mono; [apply (wp_put_counted self repos _ _ tags_text id3); [done|done|done|by eapply blob_at_kept]|].
  intros [o3|e] w3 (Hs3 & Ho3 & _ & Hr3); pose proof (only_adds_trans _ _ _ _ _ _ _ _ Ho12 Ho3) as Ho13;
    [|split; [done|]; split; [by eexists _, _|done] ].
  apply wp_ret. split; [done|]. split; [by eexists _, _|]. split.
  - exists record, id1, now. split; [done|]. eapply file_at_kept; [exact (only_adds_trans _ _ _ _ _ _ _ _ Ho2 Ho3)| |exact Hr1].
    intros path' [->| ->%list_elem_of_singleton]%elem_of_cons; [apply tarball_not_version|apply tarball_not_tags].
  - eexists _, id2, now. split; [done|]. eapply file_at_kept; [exact Ho3| |exact Hr2].
    intros path' ->%list_elem_of_singleton. apply version_not_tags.
Qed.

Lemma wp_put_package self (repos : gset string) (name version filename : string) (data : bytes) (metadata : string) (tags : gmap string string)
    (w : world kvmap) :
  sound (fs_blobs self) (fs_store self) repos w → three_new_ids self w →
  wp (put_package self name version filename data metadata tags) w (λ (res : result ArtifactRecord) w',
    sound (fs_blobs self) (fs_store self) repos w' ∧ w_stores w' = w_stores w ∧
    (∀ k, k.1.1 ≠ TABLE_ARTIFACTS → k.1.1 ≠ TABLE_DIR_ENTRIES → k.1.1 ≠ TABLE_BLOBS → w_kv w' !! k = w_kv w !! k) ∧
    match res with Ok _ => version_at self name version filename data metadata w' | Err _ => True end).
Proof using ar_exact br_exact.
  intros Hs (Hnew & Hdup). set (n := w_uuids w) in *.
  pose proof (Hnew 0 ltac:(lia)) as H0'. pose proof (Hnew 1 ltac:(lia)) as H1'. pose proof (Hnew 2 ltac:(lia)) as H2'. clear Hnew.
  rewrite Nat.add_0_r in H0'. cbn in Hdup. rewrite Nat.add_0_r in Hdup.
  apply NoDup_cons in Hdup as [Hd0 Hdup]. apply NoDup_cons in Hdup as [Hd1 _].
  assert (new_v4 n ≠ "" ∧ new_v4 (n + 1) ≠ "" ∧ new_v4 (n + 2) ≠ "") as (Hne0 & Hne1 & Hne2) by (by split_and!; [apply H0'|apply H1'|apply H2']).
  unfold put_package. apply wp_bind. eapply wp_intro; [done|]. apply wp_bind. eapply wp_intro; [done|].
  apply (wp_stored self repos); [done|done|]. intros [id1|e] w1 Hs1 Ho1 Hu1; [intros Hb1|by split_and!; [|apply Ho1|apply Ho1|] ].
  assert (new_id self w1 (new_v4 (w_uuids w1))) as Hid1.
  { rewrite Hu1. replace (S (w_uuids w)) with (n + 1) by lia. eapply new_id_kept; [exact Ho1|done|set_solver|set_solver]. }
  apply wp_bind. eapply wp_intro; [done|].
  apply (wp_stored self repos); [done|done|]. intros [id2|e] w2 Hs2 Ho2 Hu2;
    pose proof (only_adds_trans _ _ _ _ _ _ _ _ Ho1 Ho2) as Ho12; [intros Hb2|by split_and!; [|apply Ho12|apply Ho12|] ].
  cbv zeta. destruct (run_dist_tags self name w2) as [r Hr]. apply wp_bind. eapply wp_intro; [exact Hr|].
  assert (new_id self w2 (new_v4 (w_uuids w2))) as Hid2.
  { rewrite Hu2, Hu1. replace (S (S (w_uuids w))) with (n + 2) by lia. eapply new_id_kept; [exact Ho12|done| |]; rewrite Hu1;
      replace (S (w_uuids w)) with (n + 1) by lia; set_solver. }
  apply wp_bind. eapply wp_intro; [done|].
  apply (wp_stored self repos); [done|done|]. intros [id3|e] w3 Hs3 Ho3 Hu3;
    pose proof (only_adds_trans _ _ _ _ _ _ _ _ Ho12 Ho3) as Ho13; [intros Hb3|by split_and!; [|apply Ho13|apply Ho13|] ].
  eapply wp_mono; [exact (wp_put_three self repos name version filename data metadata _ id1 id2 id3 (w_now w) w3 Hs3
    (blob_at_kept _ _ _ _ _ _ _ (only_adds_trans _ _ _ _ _ _ _ _ Ho2 Ho3) Hb1) (blob_at_kept _ _ _ _ _ _ _ Ho3 Hb2) Hb3)|].
  intros res w' (Hs' & (ids & paths & Ho) & Hr'). pose proof (only_adds_trans _ _ _ _ _ _ _ _ Ho13 Ho) as Hall.
  by split_and!; [|apply Hall|apply Hall|].
Qed.

Lemma within_publish_flags self repo_name : within flags_only (let* _ := set_stale_flag self in let* _ := propagate_staleness repo_name FNpm STALE_PATH in Ret NpmOk).
Proof using ar_exact.
  apply within_bind; [apply flags_only_preorder| |intros _; apply within_bind; [apply flags_only_preorder|apply within_propagate|intros _; apply within_ret, flags_only_preorder] ].
  unfold set_stale_flag. apply within_bind; [apply flags_only_preorder|apply within_now|]. intros now. apply within_bind_ok; [apply flags_only_preorder|by apply within_flag|].
  intros o. apply within_ret, flags_only_preorder.
Qed.

Context {B : Type} `{AuthBackend B} (same : string → string → Prop) (I : B → kvmap → Prop) `{laws : !StoredAccounts B same I}.

(** A publication of one version on the store of a hosted repository. *)
Lemma wp_publish_one self (repos : gset string) (repo_name package : string) (body : bytes) (version : string) (ver_obj : Json)
    (tags : gmap string string) (attachments : Fields) (data : bytes) (w : world kvmap) :
  parse_npm_publish body = inr ([(version, ver_obj)], tags, attachments) → tarball_data package version attachments = inr data →
  sound (fs_blobs self) (fs_store self) repos w → three_new_ids self w →
  wp (publish_body_to self repo_name package body) w (λ (reply : NpmReply) w',
    sound (fs_blobs self) (fs_store self) repos w' ∧ (∀ config, hosted_on w config → hosted_on w' config) ∧
    (reply = NpmOk → version_at self package version (tarball_name package version) data (json_to_string ver_obj) w')).
Proof using ar_exact br_exact.
  intros Hp Hd Hs Hn. unfold publish_body_to. rewrite Hp. cbn [publish_versions]. rewrite Hd.
  apply wp_bind, wp_bind. eapply wp_mono; [by apply (wp_put_package self repos)|]. intros res w1 (Hs1 & Hst & Hk & Hv).
  assert (∀ config, hosted_on w config → hosted_on w1 config) as Hhosted.
  { intros config (Hr & Hkind & Hstore). split_and!; [|done|by rewrite Hst]. rewrite <-Hr. unfold repo_of. by rewrite Hk. }
  destruct res as [r|e]; apply wp_ret; [|by apply wp_ret].
  eapply wp_mono; [apply within_publish_flags|]. intros reply w2 Hf.
  split; [by apply (sound_flags _ _ _ w1)|]. split; [intros config Hc; by eapply hosted_on_flagged, Hhosted|].
  intros _. destruct Hv as [ (r1 & bid1 & now1 & He1 & Hf1) (r2 & bid2 & now2 & He2 & Hf2)].
  split; [exists r1, bid1, now1|exists r2, bid2, now2]; (split; [done|eapply file_at_flagged; [exact Hf|assumption]]).
Qed.

(** C18: A version that has been published is served.  In a hosted repository
    that is sound, a publication of one version, which is what npm sends, ends
    and keeps the repository sound.  If it is answered with 200, the user may
    write to the repository; a request for the tarball, under the URL that the
    document of the package gives it, with a scope or without, is answered with
    contents of the hash of the attachment; and the metadata of the version is
    stored with the hash of the one that was sent. *)
Theorem npm_published_served (b : B) (user : string) (config : RepoConfig) (repos : gset string) (package : string) (body : bytes)
    (version : string) (ver_obj : Json) (tags : gmap string string) (attachments : Fields) (data : bytes) (w : world kvmap) :
  let self := store_of config in
  I b (w_kv w) → sound (fs_blobs self) (fs_store self) repos w → three_new_ids self w → hosted_on w config →
  parse_npm_publish body = inr ([(version, ver_obj)], tags, attachments) → tarball_data package version attachments = inr data →
  npm_package package → version ≠ "" →
  ∃ reply b' w', run (publish_inner b user (rc_name config) package body) w = (Some (reply, b'), w') ∧
    sound (fs_blobs self) (fs_store self) repos w' ∧
    (reply = NpmOk →
      (∃ u, user_of (w_kv w) user = Ok (Some u) ∧ allowed (w_kv w) u (rc_name config) CapWrite) ∧
      (∃ d : bytes, blake3_hex d = blake3_hex data ∧ ∀ fuel query origin,
        run (try_handle_repository_path fuel config (tarball_request package version) query origin) w' =
          (Some (Some (NpmFile (tarball_name package version) (byte_size d) d)), w')) ∧
      ∃ r, file_at self (version_path package version) r (json_to_string ver_obj) w').
Proof using ar_exact br_exact laws.
  intros self Hi Hs Hn Hh Hp Hd Hpkg Hv. unfold publish_inner.
  destruct (run_upload_preamble same I b user (rc_name config) FNpm w Hi) as (r & b' & Hpre & Hspec). rewrite run_bind, Hpre.
  destruct r as [ [ [target cfg] blobs]|e]; [|by eexists _, _, _].
  destruct (Hspec _ _ _ eq_refl) as (config' & Hrepo & _ & Hperm & Hwt & -> & _).
  destruct Hh as (Hrepo' & Hkind & Hst). rewrite Hrepo' in Hrepo. injection Hrepo as <-. unfold write_target in Hwt. rewrite Hkind in Hwt.
  destruct Hwt as [-> ->]. fold (store_of config). fold self.
  destruct (wp_run _ _ _ (wp_publish_one self repos (rc_name config) package body version ver_obj tags attachments data w Hp Hd Hs Hn))
    as (reply & w' & Hrun & Hs' & Hhost & Hok).
  rewrite run_bind, Hrun. exists reply, b', w'. split; [done|]. split; [done|]. intros Hreply.
  destruct (Hok Hreply) as [ (r1 & bid1 & now1 & He1 & Hf1) (r2 & bid2 & now2 & He2 & Hf2)]. split; [|split; [|by exists r2] ].
  - unfold permission_spec in Hperm. destruct (user_of (w_kv w) user) as [ [u|]|e] eqn:Hu; cbn in Hperm; [|done..].
    destruct Hperm as [Hallowed _]. exists u. split; [done|]. by apply Hallowed.
  - destruct (file_at_served _ _ _ _ _ Hf1) as (d & id & acc & Hget & Hd'). exists d. split; [done|]. intros fuel query origin.
    destruct (Hhost config ltac:(done)) as (Hr & _ & Hst').
    rewrite parse_tarball_request; [|done|unfold tarball_name; by destruct (normalize_name _)]. rewrite run_bind.
    unfold download_tarball_inner_from_config. rewrite extract_tarball_name, Hkind by done. cbn [kind_repo_type].
    unfold hosted_download, resolve_repo_blob_store. rewrite run_bind, run_bind, run_bind_ok, run_get_repo, Hr.
    rewrite run_bind_ok, run_resolve_blob_store, decide_True by done. cbn [run]. fold (store_of config). fold self.
    rewrite run_bind. unfold get_tarball. cbn [fst snd]. fold (store_of config). fold self. by rewrite Hget.
Qed.
End uploads.

(** ** Witnesses *)

(** Tags as the digits of their code. *)
Fixpoint toy_digits (n : positive) : string :=
  match n with xH => "" | xO n => String "0" (toy_digits n) | xI n => String "1" (toy_digits n) end.
Fixpoint toy_number (s : string) : positive :=
  match s with EmptyString => xH | String d s => if decide (d = "0"%char) then xO (toy_number s) else xI (toy_number s) end.

Lemma toy_number_digits n : toy_number (toy_digits n) = n.
Proof. induction n; cbn [toy_digits toy_number]; [rewrite decide_False by done|rewrite decide_True by done|]; congruence. Qed.

Definition toy_tags_text : TagsText.
Proof.
  refine {| tags_to_string := λ tags, toy_digits (encode tags); tags_from_slice := λ b, decode (toy_number b) |}.
  intros tags. by rewrite toy_number_digits, decode_encode.
Defined.

Definition toy_payload : Json :=
  JObject [("_attachments", JObject [("p-1.0.0.tgz", JObject [("data", JString "abc")])]); ("versions", JObject [("1.0.0", JObject [])])].
Definition toy_npm_json : JsonText :=
  {| json_to_string := λ _, "{}"; json_parse := λ _, Some toy_payload; json_error := λ _, "error"; json_one_line := λ _, eq_refl |}.
Definition toy_rfc3339 : Rfc3339 := λ _, "1970-01-01T00:00:00Z".

Definition toy_npm_tags : gmap string string := {["latest" := "1.0.0"]}.
Definition toy_tags_bytes : bytes := let _ := toy_tags_text in tags_to_string toy_npm_tags.

Definition toy_npm_records : list ArtifactRecord :=
  let _ := toy_blake3 in let _ := toy_unicode in let _ := toy_digests in
  [ar_prepared (file_record (KNpmPackage (mkNpmPackageMeta "p" "1.0.0" "p-1.0.0.tgz" (sha1_hex "abc") (sha512_base64 "abc") None)) false
     "application/octet-stream" 3 "uuid-0" (blake3_hex "abc") 0%Z) "uuid-3" 0%Z (tarball_path "p" "1.0.0" "p-1.0.0.tgz");
   ar_prepared (metadata_record "{}" "uuid-1" 0%Z) "uuid-4" 0%Z (version_path "p" "1.0.0");
   ar_prepared (metadata_record toy_tags_bytes "uuid-2" 0%Z) "uuid-5" 0%Z (dist_tags_path "p")].

Definition toy_npm_blobs : list BlobRecord :=
  let _ := toy_blake3 in
  [toy_first_blob "abc"; blob_record toy_files "uuid-1" (blake3_hex "{}") 2 0%Z;
   blob_record toy_files "uuid-2" (blake3_hex toy_tags_bytes) (byte_size toy_tags_bytes) 0%Z].

Definition toy_npm_repo : RepoConfig := mkRepoConfig 5 "r" Hosted CNpm "s" 0%Z None None false.
Definition toy_npm_rc : Serde RepoConfig := table_serde [toy_npm_repo].

Lemma npm_published_served_witness :
  let _ := toy_unicode in let _ := toy_npm_json in let _ := toy_tags_text in let _ := toy_rfc3339 in let _ := toy_base64 in
  let _ : UrlEncoding := Some in let _ := toy_upstream in
  let _ := toy_blake3 in let _ := table_serde toy_npm_records in let _ := toy_te_serde in let _ := table_serde toy_npm_blobs in
  let _ := toy_npm_rc in let _ := toy_ur_serde in let _ := toy_upload_rr in let _ := toy_argon2 in let _ := toy_digests in let _ := Prog.in_order in
  let _ := toy_uuid in
  ∃ w' (d : bytes), run (publish_inner tt "alice" "r" "p" "{}") toy_upload_world = (Some (NpmOk, tt), w') ∧ blake3_hex d = blake3_hex "abc" ∧
    run (try_handle_repository_path 5 toy_npm_repo "p/-/p-1.0.0.tgz" None "http://h") w' = (Some (Some (NpmFile "p-1.0.0.tgz" (byte_size d) d)), w').
Proof.
  intros ? ? ? ? ? ? ? ? ? ? ? ? ? ? ? ? ? ?.
  destruct (@npm_published_served toy_unicode toy_npm_json toy_tags_text toy_rfc3339 toy_base64 Some toy_upstream toy_blake3 (table_serde toy_npm_records)
    toy_te_serde (table_serde toy_npm_blobs) toy_npm_rc toy_ur_serde toy_upload_rr toy_argon2 toy_digests Prog.in_order toy_uuid (table_serde_exact _)
    (table_serde_exact _) unit _ eq (λ _ _, True) (@builtin_laws toy_ur_serde toy_upload_rr toy_argon2 toy_uuid) tt "alice" toy_npm_repo {["r"]} "p" "{}"
    "1.0.0" (JObject []) toy_npm_tags [("p-1.0.0.tgz", JObject [("data", JString "abc")])] "abc" toy_upload_world)
    as (reply & b' & w' & Hrun & _ & Hok); [exact Logic.I|apply sound_without_files; by_decide| | |vm_compute; reflexivity|vm_compute; reflexivity| |discriminate|].
  - split; [|by_decide]. intros k Hk. destruct k as [|[|[|k] ] ]; [| | |lia]; (split_and!; [reflexivity|by_decide|reflexivity]).
  - split_and!; [vm_compute; reflexivity|reflexivity|by_decide].
  - left. split_and!; [discriminate|reflexivity|reflexivity].
  - pose proof (f_equal fst Hrun) as Hreply. vm_compute in Hreply. injection Hreply as <- <-.
    destruct (Hok eq_refl) as (_ & (d & Hd & Hget) & _). exists w', d. split; [exact Hrun|]. split; [exact Hd|]. exact (Hget 5 None "http://h").
Defined.

(** A proxy that has merged a document once. *)
Definition toy_npm_proxy : RepoConfig := mkRepoConfig 5 "x" (Proxy ["r"] None) CNpm "s" 0%Z None None false.
Definition toy_proxy_rc : Serde RepoConfig := table_serde [toy_npm_repo; toy_npm_proxy].
Definition toy_merged : list ArtifactRecord :=
  let _ := toy_blake3 in
  toy_npm_records ++ [npm_flag 0%Z; metadata_record "doc" "merged" 0%Z].
Definition toy_merged_world : world kvmap :=
  let _ := toy_blake3 in let _ := toy_unicode in
  mkWorld (<[artifact_key "x" STALE_PATH := ("3", 1%Z)]> (<[artifact_key "x" (packument_path "p") := ("4", 1%Z)]>
    (<[repo_key "r" := ("0", 1%Z)]> (<[repo_key "x" := ("1", 1%Z)]> (toy_accounts "0"))))) {[("s", "merged") := "doc"]} {["s"]} 0%Z 0 [] false.

Lemma npm_flag_works_once_witness :
  let _ := toy_unicode in let _ := toy_npm_json in let _ := toy_tags_text in let _ := toy_rfc3339 in let _ := toy_base64 in
  let _ := toy_blake3 in let _ := table_serde toy_merged in let _ := toy_te_serde in let _ := table_serde toy_npm_blobs in
  let _ := toy_proxy_rc in let _ := toy_ur_serde in let _ := toy_upload_rr in let _ := toy_argon2 in let _ := toy_digests in let _ := Prog.in_order in
  let _ := toy_uuid in
  ∃ w', run (publish_inner tt "alice" "r" "p" "{}") toy_merged_world = (Some (NpmOk, tt), w') ∧
    run (proxy_packument 5 toy_npm_proxy "p" "http://h") w' =
      (Some (NpmJson (serve_rewritten "doc" "http://h/repository/x")), w').
Proof.
  intros ? ? ? ? ? ? ? ? ? ? ? ? ? ? ? ?.
  destruct (@npm_flag_works_once toy_unicode toy_npm_json toy_tags_text toy_rfc3339 toy_base64 toy_blake3 (table_serde toy_merged)
    toy_te_serde (table_serde toy_npm_blobs) toy_proxy_rc toy_ur_serde toy_upload_rr toy_argon2 toy_digests Prog.in_order toy_uuid
    unit _ eq (λ _ _, True) (@builtin_laws toy_ur_serde toy_upload_rr toy_argon2 toy_uuid) 5 toy_npm_proxy ["r"] None "p" "merged" "http://h" "doc" tt "alice"
    "r" "p" "{}" toy_merged_world) as (reply & b' & w' & Hrun & _ & Hserve); [reflexivity| |exact Logic.I| |].
  - split_and!; [|discriminate|reflexivity|by_decide|intros n _; discriminate].
    exists "4", 1%Z, (metadata_record "doc" "merged" 0%Z). split_and!; [vm_compute; reflexivity|vm_compute; reflexivity|reflexivity|].
    exists "3", 1%Z, (npm_flag 0%Z). split_and!; [vm_compute; reflexivity|vm_compute; reflexivity|by_decide].
  - intros config target cfg Hrepo Ht. vm_compute in Hrepo. injection Hrepo as <-. destruct Ht as [-> _]. discriminate.
  - pose proof (f_equal fst Hrun) as Hreply. vm_compute in Hreply. injection Hreply as <- <-.
    exists w'. split; [exact Hrun|]. exact (Hserve w' (or_intror eq_refl)).
Defined.

(** ** What a download does to the metadata

    A cache records the versions of the document that it fetches.  When the
    tarball of a version is then downloaded, its metadata is replaced by one
    with the name and the version only, so that the document that the cache
    serves while its upstream cannot be reached has lost the dependencies. *)

Definition toy_npm_upstream : Upstream :=
  {| http_head := λ _ _, inl "connection refused"; http_get := λ _ _, inr (mkResponse 200 "200 OK" (λ _, None) None [inr "abc"]) |}.
Definition toy_npm_cache : RepoConfig := mkRepoConfig 5 "r" (Cache "http://up" 60 None) CNpm "s" 0%Z None None false.
Definition toy_cached_records : list ArtifactRecord :=
  let _ := toy_blake3 in let _ := toy_unicode in
  [metadata_record "{dependencies}" "full" 0%Z;
   ar_prepared (file_record (KNpmPackage (mkNpmPackageMeta "p" "1.0.0" "p-1.0.0.tgz" "" "" (Some "http://up/p/-/p-1.0.0.tgz"))) false
     "application/octet-stream" 3 "uuid-0" (blake3_hex "abc") 0%Z) "uuid-2" 0%Z (tarball_path "p" "1.0.0" "p-1.0.0.tgz");
   ar_prepared (metadata_record "{}" "uuid-1" 0%Z) "uuid-3" 0%Z (version_path "p" "1.0.0")].
Definition toy_npm_cache_world : world kvmap :=
  let _ := toy_blake3 in let _ := toy_unicode in
  mkWorld {[artifact_key "r" (version_path "p" "1.0.0") := ("0", 1%Z)]} {[("s", "full") := "{dependencies}"]} {["s"]} 0%Z 0 [] false.

Example npm_download_forgets_metadata :
  let _ := toy_unicode in let _ := toy_npm_json in let _ := toy_npm_upstream in let _ := toy_digests in let _ := toy_blake3 in
  let _ := table_serde toy_cached_records in let _ := toy_te_serde in let _ := table_serde toy_npm_blobs in let _ := toy_uuid in
  let '(reply, w') := run (cache_download toy_npm_cache "p" "1.0.0" "p-1.0.0.tgz") toy_npm_cache_world in
  reply = Some (NpmFile "p-1.0.0.tgz" 3 "abc") ∧
  (run (get_version_metadata toy_files "p" "1.0.0") toy_npm_cache_world).1 = Some (Ok (Some "{dependencies}")) ∧
  (run (get_version_metadata toy_files "p" "1.0.0") w').1 = Some (Ok (Some (minimal_metadata "p" "1.0.0"))).
Proof. intros. vm_compute. by split_and!. Qed.
