(* ===== verification/Pypi.v ===== *)
(** * Python packages (format/pypi/src/store.rs, api.rs)

    A repository of Python packages is an index of HTML pages and the files
    they link to.  The theorems say that an uploaded file is listed and served
    under every spelling of its name, that the pages can be read back by the
    parser of a cache, and when the index of a proxy is built again. *)

From S2P Require Import Prelude Bytes Text Errors Keys Records Kv Prog Wp Effects Scan Pagination Update Artifact Blob Repo Directory Ingest Accounts BulkDelete TreeRebuild.
From S2P Require Import BloomFilter UpdateWorker Batches Check CheckScan DockerGc Cache Auth ApiHelpers Package.

(** ** Names *)

(** Runs of separators become one dash. *)
Fixpoint collapse_seps (prev_sep : bool) (s : string) : string :=
  match s with
  | EmptyString => EmptyString
  | String c s =>
      if decide (c = "-"%char ∨ c = "_"%char ∨ c = "."%char) then
        if prev_sep then collapse_seps true s else String "-" (collapse_seps true s)
      else String c (collapse_seps false s)
  end.

Section names.
Context `{Unicode}.

(** format/pypi/src/store.rs:81-97 *)
Definition normalize_name (name : string) : string := collapse_seps false (to_lowercase name).

(** format/pypi/src/store.rs:100-103 *)
Definition package_path (name version filename : string) : string :=
  "_packages/" +:+ normalize_name name +:+ "/" +:+ version +:+ "/" +:+ filename.

Definition index_path (project : string) : string := "_index/" +:+ normalize_name project.

(** The file name without the extension of an archive. *)
Definition archive_stem (filename : string) : string :=
  match strip_suffix filename ".whl" with
  | Some s => s
  | None => match strip_suffix filename ".tar.gz" with
            | Some s => s
            | None => default filename (strip_suffix filename ".zip")
            end
  end.

(** The version is cut from the file name after it has been normalized like a
    project name, so its dots are dashes. *)
(** format/pypi/src/store.rs:753-781 *)
Definition extract_version_from_filename (project filename : string) : string :=
  let norm := normalize_name project in
  let norm_fn := normalize_name (archive_stem filename) in
  match strip_prefix norm_fn norm ≫= λ rest, strip_prefix rest "-" with
  | Some ver_str =>
      if ends_with filename ".whl" then match split_once "-" ver_str with Some (v, _) => v | None => ver_str end
      else ver_str
  | None => "unknown"
  end.
End names.

(** format/pypi/src/store.rs:741-749 *)
Definition guess_filetype (filename : string) : string :=
  if ends_with filename ".whl" then "bdist_wheel"
  else if ends_with filename ".tar.gz" || ends_with filename ".zip" then "sdist"
  else "unknown".

(** ** Pages *)

Definition DQUOTE : string := singleton_str (ascii_of_nat 34).
Definition SQUOTE : ascii := ascii_of_nat 39.
Definition NEWLINE : string := singleton_str (ascii_of_N 10).

(** [str::trim], whose white space is that of Unicode. *)
Class TrimSpace := str_trim : string → string.

(** [resp.text()]: the body in the character set of its content type. *)
Class ResponseText := decode_text : Response → bytes → string.

(** format/pypi/src/store.rs:785-790 *)
Record PackageLink : Type := mkPackageLink {
  pl_filename : string;
  pl_url : string;
  pl_sha256 : option string;
  pl_requires_python : option string;
}.

Definition decode_entities (val : string) : string :=
  replace_str "&#39;" (singleton_str SQUOTE) (replace_str "&quot;" DQUOTE (replace_str "&gt;" ">" (replace_str "&lt;" "<"
    (replace_str "&amp;" "&" val)))).

Definition quoted_value (tag attr : string) (quote : ascii) : option string :=
  match split_once_str (attr +:+ "=" +:+ singleton_str quote) tag with
  | Some (_, rest) => match split_once quote rest with Some (val, _) => Some (decode_entities val) | None => None end
  | None => None
  end.

(** format/pypi/src/store.rs:857-879 *)
Definition extract_attr (tag attr : string) : option string :=
  match quoted_value tag attr (ascii_of_nat 34) with
  | Some v => Some v
  | None => quoted_value tag attr SQUOTE
  end.

(** The slice [s[a..b]], which panics when [b] is before [a]. *)
Definition str_slice (a b : nat) (s : string) : option string :=
  if decide (a ≤ b) then Some (str_take (b - a) (str_drop a s)) else None.

Section pages.
Context `{Unicode} `{TrimSpace}.

(** The text between the first [>] of the tag and its end. *)
Definition link_text (tag : string) (end_ : nat) : option string :=
  match split_once ">" tag with
  | Some (before, _) => str_trim <$> str_slice (String.length before + 1) end_ tag
  | None => Some ""
  end.

Definition read_link (tag filename : string) : list PackageLink :=
  match extract_attr tag "href" with
  | Some href =>
      let '(url, sha256) := match split_once_str "#sha256=" href with
                            | Some (url, sha256) => (url, Some sha256)
                            | None => (href, None)
                            end in
      if decide (filename ≠ "") then [mkPackageLink filename url sha256 (extract_attr tag "data-requires-python")] else []
  | None => []
  end.

(** [None]: a panic, or no fuel. *)
Fixpoint parse_links (fuel : nat) (remaining : string) : option (list PackageLink) :=
  match fuel with
  | O => None
  | S fuel =>
      match split_once_str "<a " remaining with
      | None => Some []
      | Some (_, after) =>
          match split_once_str "</a>" ("<a " +:+ after) with
          | None => Some []
          | Some (inner, rest) =>
              let tag := inner +:+ "</a>" in
              filename ← link_text tag (String.length inner);
              links ← parse_links fuel rest;
              Some (read_link tag filename ++ links)
          end
      end
  end.

(** format/pypi/src/store.rs:794-854 *)
Definition parse_simple_html (html : string) : option (list PackageLink) := parse_links (S (String.length html)) html.

(** format/pypi/src/api.rs:579-599 *)
Definition resolve_link_url (upstream_base link_url : string) : string :=
  if starts_with link_url "http://" || starts_with link_url "https://" then link_url
  else
    let base := trim_end SLASH upstream_base in
    if starts_with link_url "/" then
      match split_once_str "://" base with
      | Some (scheme, after_scheme) =>
          let host := match split_once SLASH after_scheme with Some (h, _) => h | None => after_scheme end in
          scheme +:+ "://" +:+ host +:+ link_url
      | None => base +:+ link_url
      end
    else base +:+ "/" +:+ link_url.

(** format/pypi/src/api.rs:513-532 *)
Definition build_project_links (upstream_base norm_name : string) (links : list PackageLink) : list PypiProjectLink :=
  (λ link, mkPypiProjectLink (pl_filename link) (extract_version_from_filename norm_name (pl_filename link))
    (resolve_link_url upstream_base (pl_url link)) (pl_sha256 link) (pl_requires_python link)) <$> links.

Definition escape_attr (rp : string) : string :=
  replace_with (ascii_of_nat 34) "&quot;" (replace_with ">" "&gt;" (replace_with "<" "&lt;" (replace_with "&" "&amp;" rp))).

Definition requires_attr (rp : string) : string := " data-requires-python=" +:+ DQUOTE +:+ escape_attr rp +:+ DQUOTE.

Definition HTML_HEAD : string := "<!DOCTYPE html>" +:+ NEWLINE +:+ "<html><body>" +:+ NEWLINE.
Definition HTML_TAIL : string := "</body></html>" +:+ NEWLINE.

Fixpoint concat_lines {A : Type} (line : A → string) (l : list A) : string :=
  match l with
  | [] => ""
  | x :: l => line x +:+ concat_lines line l
  end.

Definition html_page {A : Type} (line : A → string) (l : list A) : string := HTML_HEAD +:+ concat_lines line l +:+ HTML_TAIL.

(** The line of a file; [href] is written as it is. *)
Definition anchor (href attr filename : string) : string :=
  "<a href=" +:+ DQUOTE +:+ href +:+ DQUOTE +:+ attr +:+ ">" +:+ filename +:+ "</a>" +:+ NEWLINE.

Definition file_href (name version filename : string) : string := "../../packages/" +:+ name +:+ "/" +:+ version +:+ "/" +:+ filename.

Definition index_line (norm_name : string) (link : PypiProjectLink) : string :=
  anchor (file_href norm_name (plink_version link) (plink_filename link) +:+
      match plink_sha256 link with Some s => "#sha256=" +:+ s | None => "" end)
    match plink_requires_python link with Some rp => requires_attr rp | None => "" end
    (plink_filename link).

(** format/pypi/src/api.rs:545-576 *)
Definition render_index_links (norm_name : string) (links : list PypiProjectLink) : string := html_page (index_line norm_name) links.

Definition file_line (file : string * ArtifactRecord) : string :=
  let '(path, record) := file in
  let '(filename, sha256, name, version, requires_python) :=
    match ar_kind record with
    | KPypiPackage pypi => (pypi_filename pypi, pypi_sha256 pypi, pypi_name pypi, pypi_version pypi, pypi_requires_python pypi)
    | _ => (rsplit_last SLASH path, "", "", "", None)
    end in
  anchor (file_href name version filename +:+ "#sha256=" +:+ sha256)
    match requires_python with Some rp => if decide (rp ≠ "") then requires_attr rp else "" | None => "" end
    filename.

(** format/pypi/src/api.rs:371-403 *)
Definition render_project_files (files : list (string * ArtifactRecord)) : string := html_page file_line files.

Definition project_line (p : string) : string := "<a href=" +:+ DQUOTE +:+ p +:+ "/" +:+ DQUOTE +:+ ">" +:+ p +:+ "</a>" +:+ NEWLINE.

Definition render_projects (projects : list string) : string := html_page project_line projects.
End pages.

(** ** The store *)

(** The text of an index and the index of a text, or the error. *)
Class IndexJson := {
  index_to_vec : PypiProjectIndex → string + bytes;
  index_from_slice : bytes → string + PypiProjectIndex;
}.

(** format/pypi/src/store.rs:70-78 *)
Record PypiUploadMeta : Type := mkPypiUploadMeta {
  um_name : string;
  um_version : string;
  um_filename : string;
  um_filetype : string;
  um_expected_sha256 : option string;
  um_requires_python : option string;
  um_summary : option string;
}.

Definition sha256_mismatch (expected computed : string) : DepotError :=
  BadRequest ("SHA-256 mismatch: expected " +:+ expected +:+ ", computed " +:+ computed).

Definition STALE_PATH : string := "_pypi/metadata_stale".
Definition SIMPLE_PATH : string := "_pypi/simple_index".

Definition pypi_flag (now : DateTime) : ArtifactRecord :=
  mkArtifactRecord CURRENT_RECORD_VERSION "" 0 "text/plain" now now now "" KRaw true None None None.

Section store.
Context `{Unicode} `{IndexJson}.
Context `{Blake3} `{Serde ArtifactRecord} `{Serde TreeEntry} `{Serde BlobRecord} `{Digests} `{Scheduler}.
Context (fuel : nat).

(** format/pypi/src/store.rs:118-204 *)
Definition put_package (self : FormatStore) (name version filename filetype : string) (data : bytes)
    (expected_sha256 requires_python summary : option string) : prog (result ArtifactRecord) :=
  let sha256_hash := sha256_hex data in
  let kind := KPypiPackage (mkPypiPackageMeta name version filename filetype sha256_hash requires_python summary None) in
  let put := put_file self (package_path name version filename) kind false "application/octet-stream" data in
  match expected_sha256 with
  | Some expected => if decide (expected ≠ sha256_hash) then Ret (Err (sha256_mismatch expected sha256_hash)) else put
  | None => put
  end.

(** format/pypi/src/store.rs:208-281 *)
Definition commit_package (self : FormatStore) (meta : PypiUploadMeta) (info : BlobInfo) : prog (result ArtifactRecord) :=
  let kind := KPypiPackage (mkPypiPackageMeta (um_name meta) (um_version meta) (um_filename meta) (um_filetype meta)
    (bi_sha256_hash info) (um_requires_python meta) (um_summary meta) None) in
  let commit := commit_file self (package_path (um_name meta) (um_version meta) (um_filename meta)) kind false "application/octet-stream"
    (bi_blob_id info) (bi_blake3_hash info) (bi_size info) in
  match um_expected_sha256 meta with
  | Some expected =>
      if decide (expected ≠ bi_sha256_hash info) then Ret (Err (sha256_mismatch expected (bi_sha256_hash info))) else commit
  | None => commit
  end.

(** format/pypi/src/store.rs:284-358 *)
Definition put_package_from_upstream (self : FormatStore) (name version filename : string) (data : bytes) (sha256_hash upstream_url : string) :
    prog (result ArtifactRecord) :=
  put_file self (package_path name version filename)
    (KPypiPackage (mkPypiPackageMeta name version filename (guess_filetype filename) sha256_hash None None (Some upstream_url)))
    false "application/octet-stream" data.

(** format/pypi/src/store.rs:363-435 *)
Definition put_cached_package (self : FormatStore) (blob_id blake3_hash sha256_hash : string) (size : Z) (name version filename upstream_url : string)
    (requires_python : option string) : prog (result ArtifactRecord) :=
  commit_file self (package_path name version filename)
    (KPypiPackage (mkPypiPackageMeta name version filename (guess_filetype filename) sha256_hash requires_python None (Some upstream_url)))
    false "application/octet-stream" blob_id blake3_hash size.

(** format/pypi/src/store.rs:438-456 *)
Definition get_package (self : FormatStore) (name version filename : string) : prog (result (option (bytes * Z * ArtifactRecord))) :=
  let*? record := get_artifact (fs_repo self) (package_path name version filename) in
  match record with
  | None => Ret (Ok None)
  | Some record => open_file self record
  end.

(** The second of at most four segments. *)
Definition project_of_path (sk : string) : option string := splitn 4 SLASH sk !! 1.

(** format/pypi/src/store.rs:459-483 *)
Definition list_projects (self : FormatStore) : prog (result (list string)) :=
  let*? seen := fold_all_artifacts (arrange 99 shard_range) fuel (fs_repo self) "_packages/" (∅ : gset string)
    (λ acc sk _, Ok match project_of_path sk with Some name => {[name]} ∪ acc | None => acc end) (∪) in
  Ret (Ok (sorted_vec seen)).

(** format/pypi/src/store.rs:486-508 *)
Definition list_project_files (self : FormatStore) (name : string) : prog (result (list (string * ArtifactRecord))) :=
  list_under fuel 100 self ("_packages/" +:+ normalize_name name +:+ "/").

(** A document of the repository is written, without a delta for the
    directory. *)
Definition put_document (self : FormatStore) (path content_type : string) (internal : bool) (data : bytes) (blob_id : string) (now : DateTime) :
    prog (result unit) :=
  let hash := blake3_hex data in
  let*? blob_id := claim_file self blob_id hash (byte_size data) now in
  let*? _ := put_artifact (fs_repo self) path (file_record KRaw internal content_type (byte_size data) blob_id hash now) in
  Ret (Ok tt).

(** format/pypi/src/store.rs:515-564 *)
Definition store_project_index (self : FormatStore) (project : string) (index : PypiProjectIndex) : prog (result unit) :=
  match index_to_vec index with
  | inl e => Ret (Err (Internal ("failed to serialize project index: " +:+ e)))
  | inr json =>
      let* blob_id := call EUuid in
      let* now := call ENow in
      let*? _ := blob (fs_blobs self) (BPut blob_id json) in
      put_document self (index_path project) "application/json" false json blob_id now
  end.

(** format/pypi/src/store.rs:567-590 *)
Definition get_project_index (self : FormatStore) (project : string) : prog (result (option PypiProjectIndex)) :=
  let*? record := get_artifact (fs_repo self) (index_path project) in
  match record ≫= ar_blob_id with
  | None => Ret (Ok None)
  | Some blob_id =>
      if decide (blob_id = "") then Ret (Ok None)
      else
        let*? data := blob (fs_blobs self) (BGet blob_id) in
        match data with
        | None => Ret (Ok None)
        | Some data =>
            Ret match index_from_slice data with
                | inl e => Err (DataIntegrity ("failed to deserialize project index: " +:+ e))
                | inr index => Ok (Some index)
                end
        end
  end.

(** format/pypi/src/store.rs:593-605 *)
Definition delete_package (self : FormatStore) (name version filename : string) : prog (result bool) :=
  let*? old := delete_artifact (fs_repo self) (package_path name version filename) in
  Ret (Ok (bool_decide (is_Some old))).

(** format/pypi/src/store.rs:612-632 *)
Definition set_metadata_stale (self : FormatStore) : prog (result unit) :=
  let* now := call ENow in
  let*? _ := put_artifact (fs_repo self) STALE_PATH (pypi_flag now) in
  Ret (Ok tt).

(** format/pypi/src/store.rs:635-655 *)
Definition set_stale_flag (self : FormatStore) : prog (result unit) :=
  let* now := call ENow in
  let*? _ := put_artifact_if_absent (fs_repo self) STALE_PATH (pypi_flag now) in
  Ret (Ok tt).

(** format/pypi/src/store.rs:658-665 *)
Definition is_metadata_stale (self : FormatStore) : prog (result bool) :=
  let*? o := get_artifact (fs_repo self) STALE_PATH in
  Ret (Ok (bool_decide (is_Some o))).

(** format/pypi/src/store.rs:668-672 *)
Definition clear_stale_flag (self : FormatStore) : prog (result unit) :=
  let*? _ := delete_artifact (fs_repo self) STALE_PATH in
  Ret (Ok tt).

(** format/pypi/src/store.rs:675-717 *)
Definition store_simple_index (self : FormatStore) (html : string) : prog (result unit) :=
  let* blob_id := call EUuid in
  let*? _ := blob (fs_blobs self) (BPut blob_id html) in
  let* now := call ENow in
  put_document self SIMPLE_PATH "text/html" true html blob_id now.

(** format/pypi/src/store.rs:720-732 *)
Definition get_simple_index (self : FormatStore) : prog (result (option string)) :=
  let*? record := get_artifact (fs_repo self) SIMPLE_PATH in
  match record with
  | None => Ret (Ok None)
  | Some record =>
      let blob_id := default "" (ar_blob_id record) in
      if decide (blob_id = "") then Ret (Ok None)
      else
        let*? data := blob (fs_blobs self) (BGet blob_id) in
        Ret (Ok (from_utf8_lossy <$> data))
  end.
End store.

(** ** The handlers *)

(** What a handler answers: 200 without a body, a page, a file, or an error. *)
Inductive PypiReply : Type :=
| PyOk
| PyHtml (html : string)
| PyFile (content_type filename : string) (size : Z) (body : bytes)
| PyError (e : DepotError).

Definition pypi_status_ok (r : PypiReply) : bool := match r with PyError _ => false | _ => true end.

(** A field of a multipart form: its name, the name of its file, its text when
    it can be read as one, and its data. *)
Record FormField : Type := mkFormField {
  ff_name : option string;
  ff_file_name : option string;
  ff_text : option string;
  ff_data : Body;
}.

(** The fields of the form that are used, so far. *)
Record UploadForm : Type := mkUploadForm {
  uf_name : option string;
  uf_version : option string;
  uf_filetype : option string;
  uf_sha256_digest : option string;
  uf_requires_python : option string;
  uf_summary : option string;
  uf_content : option (string * BlobInfo);
}.

Definition empty_form : UploadForm := mkUploadForm None None None None None None None.



Section handlers.
Context `{Unicode} `{TrimSpace} `{ResponseText} `{IndexJson} `{Upstream}.
Context `{Blake3} `{Serde ArtifactRecord} `{Serde TreeEntry} `{Serde BlobRecord} `{Serde RepoConfig} `{Digests} `{Scheduler} {B : Type} `{AuthBackend B}.
Context (fuel : nat).

(** *** The upstream *)

(** format/pypi/src/store.rs:889-926 *)
Definition fetch_upstream_project_page (upstream_url project : string) (upstream_auth : option UpstreamAuth) : result (option string) :=
  let url := trim_end SLASH upstream_url +:+ "/" +:+ normalize_name project +:+ "/" in
  match http_get url upstream_auth with
  | inl e => Err (Errors.upstream e)
  | inr resp =>
      if decide (rs_status resp = 404%Z) then Ok None
      else if negb (is_success resp) then Err (upstream_status_error resp url)
      else let? data := collect_body (rs_body resp) in Ok (Some (decode_text resp data))
  end.

(** format/pypi/src/store.rs:929-956 *)
Definition fetch_upstream_response (url : string) (upstream_auth : option UpstreamAuth) : result Response :=
  match http_get url upstream_auth with
  | inl e => Err (Errors.upstream e)
  | inr resp => if negb (is_success resp) then Err (upstream_status_error resp url) else Ok resp
  end.

(** *** Uploads *)

(** core/src/api_helpers.rs:308-363 *)
Definition stream_multipart_field_to_blob (blobs : string) (field : FormField) : prog (result (BlobInfo * option string)) :=
  let* blob_id := call EUuid in
  match read_body (ff_data field) with
  | inl err => Ret (Err (Storage err Transient))
  | inr data =>
      let* r := blob blobs (BPut blob_id data) in
      Ret match r with
          | Err e => Err (Storage (display_error e) Transient)
          | Ok _ => Ok (mkBlobInfo blob_id (blake3_hex data) (sha256_hex data) (byte_size data), ff_file_name field)
          end
  end.

(** A field that has been read; those that are not used are skipped. *)
Definition form_field (f : UploadForm) (name : string) (text : option string) : UploadForm :=
  let '(mkUploadForm n v t s r m c) := f in
  if decide (name = "name") then mkUploadForm text v t s r m c
  else if decide (name = "version") then mkUploadForm n text t s r m c
  else if decide (name = "filetype") then mkUploadForm n v text s r m c
  else if decide (name = "sha256_digest") then mkUploadForm n v t text r m c
  else if decide (name = "requires_python") then mkUploadForm n v t s text m c
  else if decide (name = "summary") then mkUploadForm n v t s r text c
  else f.

Definition form_content (f : UploadForm) (content : string * BlobInfo) : UploadForm :=
  mkUploadForm (uf_name f) (uf_version f) (uf_filetype f) (uf_sha256_digest f) (uf_requires_python f) (uf_summary f) (Some content).

Fixpoint read_form (blobs : string) (fields : list FormField) (f : UploadForm) : prog (result UploadForm) :=
  match fields with
  | [] => Ret (Ok f)
  | field :: fields =>
      let name := default "" (ff_name field) in
      if decide (name = "content") then
        let*? r := stream_multipart_field_to_blob blobs field in
        let '(info, file_name) := r in
        read_form blobs fields (form_content f (default "unknown" file_name, info))
      else read_form blobs fields (form_field f name (ff_text field))
  end.

(** What a complete form says of the file. *)
Definition form_package (f : UploadForm) : result (PypiUploadMeta * BlobInfo) :=
  match uf_name f, uf_version f, uf_content f with
  | None, _, _ => Err (BadRequest "missing 'name' field")
  | _, None, _ => Err (BadRequest "missing 'version' field")
  | _, _, None => Err (BadRequest "missing 'content' field")
  | Some name, Some version, Some (filename, info) =>
      Ok (mkPypiUploadMeta name version filename (default (normalize_name "unknown") (uf_filetype f)) (uf_sha256_digest f)
        (uf_requires_python f) (uf_summary f), info)
  end.

(** What is done with the form on the store of the target. *)
Definition upload_to (store : FormatStore) (repo_name : string) (fields : list FormField) : prog (result unit) :=
  let*? f := read_form (fs_blobs store) fields empty_form in
  match form_package f with
  | Err e => Ret (Err e)
  | Ok (meta, info) =>
      let*? _ := commit_package store meta info in
      let* _ := set_stale_flag store in
      let* _ := propagate_staleness repo_name FPyPI STALE_PATH in
      Ret (Ok tt)
  end.

(** format/pypi/src/api.rs:37-141 *)
Definition process_upload (auth : B) (user_str repo_name : string) (multipart : list FormField) : prog (result unit * B) :=
  let* a := upload_preamble auth user_str repo_name FPyPI in
  let '(r, auth) := a in
  match r with
  | Err e => Ret (Err e, auth)
  | Ok (target_repo, target_config, blobs) =>
      let* r := upload_to (mkFormatStore target_repo blobs (rc_store target_config)) repo_name multipart in
      Ret (r, auth)
  end.

(** The form of the body is an argument, or the reply when there is none. *)
(** format/pypi/src/api.rs:164-182 *)
Definition handle_upload (auth : B) (user : string) (config : RepoConfig) (multipart : PypiReply + list FormField) : prog (PypiReply * B) :=
  match multipart with
  | inl e => Ret (e, auth)
  | inr m =>
      let* a := process_upload auth user (rc_name config) m in
      let '(r, auth) := a in
      Ret (match r with Ok _ => PyOk | Err e => PyError e end, auth)
  end.

(** format/pypi/src/api.rs:149-162 *)
Definition try_handle_repository_write (auth : B) (user : string) (config : RepoConfig) (method path : string)
    (multipart : PypiReply + list FormField) : prog (option PypiReply * B) :=
  if decide (method = "POST" ∧ (path = "" ∨ path = "/")) then
    let* a := handle_upload auth user config multipart in
    let '(reply, auth) := a in
    Ret (Some reply, auth)
  else Ret (None, auth).

(** *** The list of projects *)

(** format/pypi/src/api.rs:234-260 *)
Definition hosted_simple_index (repo_name : string) : prog PypiReply :=
  let* r :=
    let*! b := resolve_repo_blob_store repo_name else PyError in
    let*! projects := list_projects fuel (mkFormatStore repo_name b.1 (rc_store b.2)) else PyError in
    Ret (inr (PyHtml (render_projects projects))) in
  Ret (finished r).

(** format/pypi/src/api.rs:262-305 *)
Definition cache_simple_index (config : RepoConfig) : prog PypiReply :=
  match rc_kind config with
  | Cache upstream_url _ upstream_auth =>
      match http_get (trim_end SLASH upstream_url +:+ "/") upstream_auth with
      | inr resp =>
          if is_success resp then
            match collect_body (rs_body resp) with
            | Ok data => Ret (PyHtml (decode_text resp data))
            | Err _ => hosted_simple_index (rc_name config)
            end
          else hosted_simple_index (rc_name config)
      | inl _ => hosted_simple_index (rc_name config)
      end
  | _ => Ret (PyError (Internal "expected cache repo kind"))
  end.

(** The projects of the members, of any kind and format, that can be read. *)
Fixpoint member_projects (members : list string) (all_projects : gset string) : prog (gset string) :=
  match members with
  | [] => Ret all_projects
  | member_name :: members =>
      let* b := resolve_repo_blob_store member_name in
      match b with
      | Err _ => member_projects members all_projects
      | Ok (blobs, member_blob_config) =>
          let* r := list_projects fuel (mkFormatStore member_name blobs (rc_store member_blob_config)) in
          member_projects members (match r with Ok projects => all_projects ∪ list_to_set projects | Err _ => all_projects end)
      end
  end.

(** The index that is kept, when it may be served. *)
Definition kept_index (proxy_store : FormatStore) : prog bool :=
  let* r := is_metadata_stale proxy_store in
  if match r with Ok stale => stale | Err _ => true end then Ret false
  else
    let* r := get_simple_index proxy_store in
    Ret match r with Ok (Some _) => true | _ => false end.

Definition rebuild_index (proxy_store : FormatStore) (members : list string) : prog PypiReply :=
  let* _ := clear_stale_flag proxy_store in
  let* all_projects := member_projects members ∅ in
  let html := render_projects (sorted_vec all_projects) in
  let* _ := store_simple_index proxy_store html in
  Ret (PyHtml html).

(** format/pypi/src/api.rs:307-369 *)
Definition proxy_simple_index (config : RepoConfig) : prog PypiReply :=
  match rc_kind config with
  | Proxy members _ =>
      let* r := resolve_blob_store (rc_store config) in
      match r with
      | Err e => Ret (PyError e)
      | Ok proxy_blobs =>
          let proxy_store := mkFormatStore (rc_name config) proxy_blobs (rc_store config) in
          let* kept := kept_index proxy_store in
          if negb kept then rebuild_index proxy_store members
          else
            let* r := get_simple_index proxy_store in
            Ret match r with
                | Ok (Some html) => PyHtml html
                | _ => PyError (NotFound "index not found")
                end
      end
  | _ => Ret (PyError (Internal "expected proxy repo kind"))
  end.

(** *** The files of a project *)

(** format/pypi/src/api.rs:405-429 *)
Definition hosted_simple_project (repo_name project : string) : prog PypiReply :=
  let* r :=
    let*! b := resolve_repo_blob_store repo_name else PyError in
    let*! files := list_project_files fuel (mkFormatStore repo_name b.1 (rc_store b.2)) project else PyError in
    Ret (inr match files with
             | [] => PyError (NotFound "project not found")
             | _ => PyHtml (render_project_files files)
             end) in
  Ret (finished r).

(** Whether the record of an index is younger than the time to live. *)
Definition index_fresh (now : DateTime) (ttl : Z) (record : ArtifactRecord) : bool :=
  bool_decide (ttl = 0%Z ∨ (Z.max 0 (num_seconds_between now (ar_updated_at record)) < ttl)%Z).

(** format/pypi/src/api.rs:535-542 *)
Definition cache_project_links (store : FormatStore) (norm_name : string) (links : list PypiProjectLink) : prog unit :=
  let* _ := store_project_index store norm_name (mkPypiProjectIndex links) in
  Ret tt.

(** The kept index of a project, as a page. *)
Definition kept_project (store : FormatStore) (project : string) : prog (option PypiReply) :=
  let* r := get_project_index store project in
  Ret match r with
      | Ok (Some index) => Some (PyHtml (render_index_links (normalize_name project) (pindex_links index)))
      | _ => None
      end.

(** format/pypi/src/api.rs:431-510 *)
Definition cache_simple_project (config : RepoConfig) (project : string) : prog PypiReply :=
  match rc_kind config with
  | Cache upstream_url ttl upstream_auth =>
      let* r := resolve_blob_store (rc_store config) in
      match r with
      | Err e => Ret (PyError e)
      | Ok blobs =>
          let store := mkFormatStore (rc_name config) blobs (rc_store config) in
          let norm := normalize_name project in
          let* cached_index := get_artifact (rc_name config) (index_path project) in
          let* cache_fresh := match cached_index with
            | Ok (Some record) => if decide (ttl = 0%Z) then Ret true else let* now := call ENow in Ret (index_fresh now ttl record)
            | _ => Ret false
            end in
          let* fresh := if cache_fresh : bool then kept_project store project else Ret None in
          match fresh with
          | Some page => Ret page
          | None =>
              match fetch_upstream_project_page upstream_url project upstream_auth with
              | Ok (Some html) =>
                  match parse_simple_html html with
                  | None => Spin
                  | Some links =>
                      let project_links := build_project_links upstream_url norm links in
                      let* _ := cache_project_links store norm project_links in
                      Ret (PyHtml (render_index_links norm project_links))
                  end
              | Ok None => Ret (PyError (NotFound "project not found upstream"))
              | Err e =>
                  let* stale := kept_project store project in
                  Ret (default (PyError (Errors.upstream ("upstream error: " +:+ display_error e))) stale)
              end
          end
      end
  | _ => Ret (PyError (Internal "expected cache repo kind"))
  end.

(** The files that are added to a merged page: the first of each name. *)
Definition Merged : Type := list (string * ArtifactRecord) * gset string.

Definition add_file (fname : string) (file : string * ArtifactRecord) (acc : Merged) : Merged :=
  let '(all_files, seen_filenames) := acc in
  if decide (fname ∈ seen_filenames) then acc else (all_files ++ [file], {[fname]} ∪ seen_filenames).

Definition file_name_of (record : ArtifactRecord) : string :=
  match ar_kind record with KPypiPackage pypi => pypi_filename pypi | _ => "" end.

Definition add_files (files : list (string * ArtifactRecord)) (acc : Merged) : Merged :=
  foldl (λ acc file, add_file (file_name_of file.2) file acc) acc files.

(** A record made up from a link. *)
Definition link_record (norm : string) (link : PypiProjectLink) (now : DateTime) : ArtifactRecord :=
  mkArtifactRecord CURRENT_RECORD_VERSION "" 0 "application/octet-stream" now now now ""
    (KPypiPackage (mkPypiPackageMeta norm (plink_version link) (plink_filename link) "" (default "" (plink_sha256 link))
      (plink_requires_python link) None (Some (plink_upstream_url link)))) false None None None.

Fixpoint add_links (norm : string) (links : list PypiProjectLink) (acc : Merged) : prog Merged :=
  match links with
  | [] => Ret acc
  | link :: links =>
      if decide (plink_filename link ∈ acc.2) then add_links norm links acc
      else
        let* now := call ENow in
        add_links norm links (add_file (plink_filename link)
          (package_path norm (plink_version link) (plink_filename link), link_record norm link now) acc)
  end.

Definition merge_local (member_name blobs store project : string) (acc : Merged) : prog Merged :=
  let* r := list_project_files fuel (mkFormatStore member_name blobs store) project in
  Ret match r with Ok files => add_files files acc | Err _ => acc end.

(** A cache is asked for the page of its upstream every time. *)
Definition merge_cache (upstream_url : string) (upstream_auth : option UpstreamAuth) (cache_store : FormatStore) (project : string) (acc : Merged) :
    prog Merged :=
  let norm := normalize_name project in
  let* _ := match fetch_upstream_project_page upstream_url project upstream_auth with
    | Ok (Some html) =>
        match parse_simple_html html with
        | None => Spin
        | Some links => cache_project_links cache_store norm (build_project_links upstream_url norm links)
        end
    | _ => Ret tt
    end in
  let* r := get_project_index cache_store norm in
  match r with
  | Ok (Some index) => add_links norm (pindex_links index) acc
  | _ => Ret acc
  end.

Fixpoint merge_members (members : list string) (project : string) (acc : Merged) : prog Merged :=
  match members with
  | [] => Ret acc
  | member_name :: members =>
      let* r := get_repo member_name in
      match r with
      | Ok (Some c) =>
          if decide (repo_format c = FPyPI) then
            let* b := resolve_blob_store (rc_store c) in
            match b with
            | Err _ => merge_members members project acc
            | Ok blobs =>
                let* acc := match rc_kind c with
                  | Cache upstream_url _ upstream_auth =>
                      merge_cache upstream_url upstream_auth (mkFormatStore member_name blobs (rc_store c)) project acc
                  | _ => merge_local member_name blobs (rc_store c) project acc
                  end in
                merge_members members project acc
            end
          else merge_members members project acc
      | _ => merge_members members project acc
      end
  end.

(** format/pypi/src/api.rs:601-744 *)
Definition proxy_simple_project (config : RepoConfig) (project : string) : prog PypiReply :=
  match rc_kind config with
  | Proxy members _ =>
      let* merged := merge_members members project ([], ∅) in
      Ret match merged.1 with
          | [] => PyError (NotFound "project not found")
          | files => PyHtml (render_project_files files)
          end
  | _ => Ret (PyError (Internal "expected proxy repo kind"))
  end.

(** *** Downloads *)

(** format/pypi/src/api.rs:747-772 *)
Definition pypi_stream_response (reader : bytes) (size : Z) (filename : string) : PypiReply :=
  let content_type := if ends_with filename ".whl" then "application/zip"
                      else if ends_with filename ".tar.gz" then "application/gzip"
                      else "application/octet-stream" in
  PyFile content_type filename size reader.

(** format/pypi/src/api.rs:774-800 *)
Definition hosted_download (repo_name name version filename : string) : prog PypiReply :=
  let* r :=
    let*! b := resolve_repo_blob_store repo_name else PyError in
    let*! o := get_package (mkFormatStore repo_name b.1 (rc_store b.2)) name version filename else PyError in
    Ret (inr match o with
             | Some (reader, size, _) => pypi_stream_response reader size filename
             | None => PyError (NotFound "package not found")
             end) in
  Ret (finished r).

(** The file that is in the cache, when it can be read. *)
Definition cached_file (self : FormatStore) (path : string) : prog (option (bytes * Z)) :=
  let* r := get_artifact (fs_repo self) path in
  match r with
  | Ok (Some record) =>
      match ar_blob_id record with
      | Some bid =>
          if decide (bid = "") then Ret None
          else let* r := open_read self bid in Ret match r with Ok o => o | Err _ => None end
      | None => Ret None
      end
  | _ => Ret None
  end.

(** The link of a file in the kept index, or in the page of the upstream. *)
Definition find_link (store : FormatStore) (upstream_url : string) (upstream_auth : option UpstreamAuth) (norm filename : string) :
    prog (option PypiProjectLink) :=
  let named (links : list PypiProjectLink) := snd <$> list_find (λ l, plink_filename l = filename) links in
  let* r := get_project_index store norm in
  match match r with Ok (Some index) => named (pindex_links index) | _ => None end with
  | Some link => Ret (Some link)
  | None =>
      match fetch_upstream_project_page upstream_url norm upstream_auth with
      | Ok (Some html) =>
          match parse_simple_html html with
          | None => Spin
          | Some parsed =>
              let project_links := build_project_links upstream_url norm parsed in
              let* _ := cache_project_links store norm project_links in
              Ret (named project_links)
          end
      | _ => Ret None
      end
  end.

(** What the request that has the claim does: the SHA-256 of the link is
    recorded, the bytes are not compared with it. *)
Definition download_package (store : FormatStore) (link : PypiProjectLink) (upstream_auth : option UpstreamAuth) (name version filename : string) :
    prog PypiReply :=
  match fetch_upstream_response (plink_upstream_url link) upstream_auth with
  | Err e => Ret (PyError (Errors.upstream ("upstream error: " +:+ display_error e)))
  | Ok resp =>
      let* blob_id := call EUuid in
      match read_body (rs_body resp) with
      | inl e => Ret (PyError (Errors.upstream ("upstream error: " +:+ e)))
      | inr data =>
          let* r := blob (fs_blobs store) (BPut blob_id data) in
          match r with
          | Err e => Ret (PyError (Storage (display_error e) Transient))
          | Ok _ =>
              let* r := put_cached_package store blob_id (blake3_hex data) (default "" (plink_sha256 link)) (byte_size data) name version filename
                (plink_upstream_url link) (plink_requires_python link) in
              match r with
              | Err e => Ret (PyError (Storage (display_error e) Transient))
              | Ok cached_record =>
                  let* r := open_read store (default "" (ar_blob_id cached_record)) in
                  Ret match r with
                      | Ok (Some (reader, size)) => pypi_stream_response reader size filename
                      | _ => PyError (DataIntegrity "blob read failed")
                      end
              end
          end
      end
  end.

(** [waits] is the number of rounds in which another request has the claim. *)
Fixpoint download_loop (waits : nat) (store : FormatStore) (upstream_url : string) (upstream_auth : option UpstreamAuth)
    (name version filename : string) : prog PypiReply :=
  let path := package_path name version filename in
  let* o := cached_file store path in
  match o with
  | Some (reader, size) => Ret (pypi_stream_response reader size filename)
  | None =>
      let* link := find_link store upstream_url upstream_auth (normalize_name name) filename in
      match link with
      | None => Ret (PyError (NotFound "package not found"))
      | Some link =>
          match waits with
          | S waits => download_loop waits store upstream_url upstream_auth name version filename
          | O =>
              let* o := cached_file store path in
              match o with
              | Some (reader, size) => Ret (pypi_stream_response reader size filename)
              | None => download_package store link upstream_auth name version filename
              end
          end
      end
  end.

(** format/pypi/src/api.rs:802-990 *)
Definition cache_download (waits : nat) (config : RepoConfig) (name version filename : string) : prog PypiReply :=
  match rc_kind config with
  | Cache upstream_url _ upstream_auth =>
      let* r := resolve_blob_store (rc_store config) in
      match r with
      | Err e => Ret (PyError e)
      | Ok blobs => download_loop waits (mkFormatStore (rc_name config) blobs (rc_store config)) upstream_url upstream_auth name version filename
      end
  | _ => Ret (PyError (Internal "expected cache repo kind"))
  end.

(** A nested proxy is asked as if it were hosted. *)
Fixpoint try_download_members (waits : nat) (name version filename : string) (members : list string) : prog PypiReply :=
  match members with
  | [] => Ret (PyError (NotFound "package not found in any member"))
  | member_name :: members =>
      let* r := get_repo member_name in
      match r with
      | Ok (Some c) =>
          if decide (repo_format c = FPyPI) then
            let* resp := match kind_repo_type (rc_kind c) with
              | RTCache => cache_download waits c name version filename
              | _ => hosted_download member_name name version filename
              end in
            if pypi_status_ok resp then Ret resp else try_download_members waits name version filename members
          else try_download_members waits name version filename members
      | _ => try_download_members waits name version filename members
      end
  end.

(** format/pypi/src/api.rs:992-1034 *)
Definition proxy_download (waits : nat) (config : RepoConfig) (name version filename : string) : prog PypiReply :=
  match rc_kind config with
  | Proxy members _ => try_download_members waits name version filename members
  | _ => Ret (PyError (Internal "expected proxy repo kind"))
  end.

(** *** Requests *)

Inductive PypiRequest : Type :=
| SimpleIndex
| SimpleProject (project : string)
| PackageFile (name version filename : string).

(** [None]: the path is none of the protocol. *)
Definition parse_request (path : string) : option PypiRequest :=
  if decide (path = "simple" ∨ path = "simple/") then Some SimpleIndex
  else
    let project := trim_end SLASH <$> strip_prefix path "simple/" in
    match project with
    | Some p => if decide (p ≠ "" ∧ has_char SLASH p = false) then Some (SimpleProject p) else None
    | None =>
        rest ← strip_prefix path "packages/";
        nr ← split_once SLASH rest;
        vf ← split_once SLASH nr.2;
        Some (PackageFile nr.1 vf.1 vf.2)
    end.

(** format/pypi/src/api.rs:188-232 *)
Definition try_handle_repository_path (waits : nat) (config : RepoConfig) (path : string) : prog (option PypiReply) :=
  match parse_request path with
  | None => Ret None
  | Some request =>
      let* reply := match request, kind_repo_type (rc_kind config) with
        | SimpleIndex, RTHosted => hosted_simple_index (rc_name config)
        | SimpleIndex, RTCache => cache_simple_index config
        | SimpleIndex, RTProxy => proxy_simple_index config
        | SimpleProject project, RTHosted => hosted_simple_project (rc_name config) project
        | SimpleProject project, RTCache => cache_simple_project config project
        | SimpleProject project, RTProxy => proxy_simple_project config project
        | PackageFile name version filename, RTHosted => hosted_download (rc_name config) name version filename
        | PackageFile name version filename, RTCache => cache_download waits config name version filename
        | PackageFile name version filename, RTProxy => proxy_download waits config name version filename
        end in
      Ret (Some reply)
  end.
End handlers.

(** ** Reading back the pages *)

(** A name without the characters that have a meaning in the pages. *)
Definition plain_char (c : ascii) : bool :=
  negb (bool_decide (c ∈ [ascii_of_nat 34; "<"%char; ">"%char; "#"%char; "="%char; "&"%char])).
Definition plain : string → bool := all_bytes plain_char.

Lemma plain_no_char c s : plain s = true → plain_char c = false → has_char c s = false.
Proof.
  unfold plain. induction s as [|d s IH]; [done|]. cbn [all_bytes has_char]. intros [Hd Hs]%andb_true_iff Hc. rewrite IH by done.
  rewrite orb_false_r. apply bool_decide_eq_false. congruence.
Qed.

(** Side conditions on characters. *)
Ltac no_char :=
  repeat first [rewrite has_char_app | progress cbn [has_char String.append]];
  repeat match goal with
  | |- context [has_char ?c ?s] => rewrite (plain_no_char c s) by (assumption || reflexivity)
  end; reflexivity.

(** Constant text that the pattern does not match. *)
Ltac skip_text :=
  match goal with |- skips ?p ?x ?t => let x := eval vm_compute in x in change (skips p x t) end;
  repeat (apply skips_cons; [reflexivity|]); apply skips_nil.

(** The escaped value of an attribute. *)
Lemma escape_no_char c rp : c ∈ [ascii_of_nat 34; "<"%char; ">"%char] → has_char c (escape_attr rp) = false.
Proof.
  intros Hc. destruct (has_char c (escape_attr rp)) eqn:He; [|done]. exfalso. unfold escape_attr in He.
  assert (∀ r, r ∈ ["&quot;"; "&gt;"; "&lt;"; "&amp;"] → has_char c r = false) as Hr.
  { intros r Hr. repeat (apply elem_of_cons in Hc as [->|Hc]; [repeat (apply elem_of_cons in Hr as [->|Hr]; [reflexivity|]); by apply elem_of_nil in Hr|]).
    by apply elem_of_nil in Hc. }
  apply has_char_replace in He as [He H1']; [|apply Hr; set_solver]. apply has_char_replace in He as [He H2']; [|apply Hr; set_solver].
  apply has_char_replace in He as [He H3']; [|apply Hr; set_solver]. set_solver.
Qed.

(** The steps of the decoding, one character at a time. *)
Fixpoint escaped (f : ascii → option string) (s : string) : string :=
  match s with
  | EmptyString => EmptyString
  | String c s => match f c with Some r => r | None => singleton_str c end +:+ escaped f s
  end.

Definition esc_quote (c : ascii) : option string := if decide (c = ascii_of_nat 34) then Some "&quot;" else None.
Definition esc_gt (c : ascii) : option string := if decide (c = ">"%char) then Some "&gt;" else esc_quote c.
Definition esc_lt (c : ascii) : option string := if decide (c = "<"%char) then Some "&lt;" else esc_gt c.

Lemma escape_attr_escaped rp : has_char "&" rp = false → escape_attr rp = escaped esc_lt rp.
Proof.
  unfold escape_attr. induction rp as [|c rp IH]; [done|]. cbn [has_char]. intros [Hc Hs]%orb_false_iff. apply bool_decide_eq_false in Hc.
  cbn [escaped replace_with]. rewrite <-IH by done. rewrite decide_False by congruence. unfold esc_lt, esc_gt, esc_quote. cbn [replace_with].
  destruct (decide (c = "<"%char)) as [->|H1']; [done|]. cbn [replace_with]. destruct (decide (c = ">"%char)) as [->|H2']; [done|].
  cbn [replace_with]. by destruct (decide (c = ascii_of_nat 34)) as [->|H3'].
Qed.

Lemma replace_str_app p r t : p ≠ "" → replace_str p r (p +:+ t) = r +:+ replace_str p r t.
Proof.
  intros Hp. unfold replace_str. destruct p as [|c p]; [done|]. change (String c p +:+ t) with (String c (p +:+ t)). cbn [replace_from].
  assert (starts_with (String c (p +:+ t)) (String c p) = true) as -> by (apply starts_with_spec; by exists t).
  f_equal. cbn [String.length]. replace (S (String.length p) - 1) with (String.length p) by lia.
  clear Hp. generalize (String c p). intros q. induction p as [|d p IH]; [done|]. cbn [String.length String.append replace_from]. apply IH.
Qed.

Lemma replace_str_skip a p r c t : c ≠ a → replace_str (String a p) r (String c t) = String c (replace_str (String a p) r t).
Proof. intros Hc. unfold replace_str. cbn [replace_from starts_with]. by rewrite bool_decide_false by congruence. Qed.

Lemma decode_escape rp : has_char "&" rp = false → decode_entities (escape_attr rp) = rp.
Proof.
  intros Hrp. rewrite escape_attr_escaped by done. unfold decode_entities.
  assert (∀ c, has_char c rp = true → c ≠ "&"%char) as Hamp by (intros c Hc ->; congruence). clear Hrp.
  assert (∀ p r (f g : ascii → option string), p ≠ "" →
    (∀ c t, c ≠ "&"%char → replace_str (String "&" p) r (match f c with Some x => x | None => singleton_str c end +:+ t) =
      match g c with Some x => x | None => singleton_str c end +:+ replace_str (String "&" p) r t) →
    replace_str (String "&" p) r (escaped f rp) = escaped g rp) as Hstep.
  { intros p r f g _ Hfg. induction rp as [|c s IH]; [done|]. cbn [escaped].
    rewrite Hfg by (apply Hamp; cbn; by rewrite bool_decide_true). f_equal. apply IH. intros d Hd. apply Hamp. cbn. by rewrite Hd, orb_true_r. }
  rewrite (Hstep "amp;" "&" esc_lt esc_lt); [|done|]; cycle 1.
  { intros c t Hc. unfold esc_lt, esc_gt, esc_quote. repeat case_decide; [reflexivity..|]. exact (replace_str_skip "&" _ _ c t Hc). }
  rewrite (Hstep "lt;" "<" esc_lt esc_gt); [|done|]; cycle 1.
  { intros c t Hc. unfold esc_lt, esc_gt, esc_quote. destruct (decide (c = "<"%char)) as [->|]; [apply (replace_str_app "&lt;" "<"); done|].
    repeat case_decide; [reflexivity..|]. exact (replace_str_skip "&" _ _ c t Hc). }
  rewrite (Hstep "gt;" ">" esc_gt esc_quote); [|done|]; cycle 1.
  { intros c t Hc. unfold esc_gt, esc_quote. destruct (decide (c = ">"%char)) as [->|]; [apply (replace_str_app "&gt;" ">"); done|].
    repeat case_decide; [reflexivity..|]. exact (replace_str_skip "&" _ _ c t Hc). }
  rewrite (Hstep "quot;" DQUOTE esc_quote (λ _, None)); [|done|]; cycle 1.
  { intros c t Hc. unfold esc_quote. case_decide as Hq; [subst; apply (replace_str_app "&quot;" DQUOTE); done|]. exact (replace_str_skip "&" _ _ c t Hc). }
  rewrite (Hstep "#39;" (singleton_str SQUOTE) (λ _, None) (λ _, None)); [|done|intros c t Hc; exact (replace_str_skip "&" _ _ c t Hc)].
  clear. induction rp as [|c s IH]; [done|]. cbn [escaped]. by rewrite IH.
Qed.

Lemma decode_plain s : has_char "&" s = false → decode_entities s = s.
Proof. intros Hs. unfold decode_entities. by rewrite !(replace_str_id "&" _ _ s) by done. Qed.

Section roundtrip.
Context `{Unicode} `{TrimSpace}.

Lemma split_at_quote x t : has_char (ascii_of_nat 34) x = false → split_once (ascii_of_nat 34) (x +:+ DQUOTE +:+ t) = Some (x, t).
Proof. intros Hx. by apply (split_at_char _ _ t). Qed.

Definition opt_plain (o : option string) : Prop := match o with Some s => plain s = true | None => True end.
Definition opt_amp (o : option string) : Prop := match o with Some s => has_char "&" s = false | None => True end.

Definition hash_part (sha256 : option string) : string := match sha256 with Some s => "#sha256=" +:+ s | None => "" end.
Definition attr_part (rp : option string) : string := match rp with Some rp => requires_attr rp | None => "" end.

(** The tag of a line, between its brackets. *)
Definition tag_of (href attr filename : string) : string := "<a href=" +:+ DQUOTE +:+ href +:+ DQUOTE +:+ attr +:+ ">" +:+ filename.

Lemma attr_no_char c rp : c ∈ ["<"%char; ">"%char] → has_char c (attr_part rp) = false.
Proof.
  intros Hc. destruct rp as [rp|]; [|done]. unfold attr_part, requires_attr. rewrite !has_char_app, escape_no_char by set_solver.
  repeat (apply elem_of_cons in Hc as [->|Hc]; [reflexivity|]). by apply elem_of_nil in Hc.
Qed.

Lemma read_href url sha256 attr filename : plain url = true → opt_plain sha256 →
  extract_attr (tag_of (url +:+ hash_part sha256) attr filename +:+ "</a>") "href" = Some (url +:+ hash_part sha256).
Proof.
  intros Hu Hs. set (href := url +:+ hash_part sha256).
  assert (has_char (ascii_of_nat 34) href = false ∧ has_char "&" href = false) as [Hq Ha].
  { unfold href. destruct sha256 as [s|]; cbn [hash_part opt_plain] in *; split; no_char. }
  unfold extract_attr, quoted_value, tag_of. rewrite !str_app_assoc.
  change ("href" +:+ "=" +:+ singleton_str (ascii_of_nat 34)) with ("href=" +:+ DQUOTE).
  change ("<a href=" +:+ DQUOTE +:+ ?t) with ("<a " +:+ ("href=" +:+ DQUOTE) +:+ t).
  rewrite split_at_str by (done || skip_text). rewrite split_at_quote by done. by rewrite decode_plain.
Qed.

(** The attribute is not taken for another one. *)
Lemma skips_href quote url sha256 t : quote ≠ "="%char → has_char quote "data-requires-python" = false → plain url = true → opt_plain sha256 →
  skips ("data-requires-python=" +:+ singleton_str quote) ("<a href=" +:+ DQUOTE +:+ (url +:+ hash_part sha256) +:+ DQUOTE) t.
Proof.
  intros Hq Hq' Hu Hs. change ("data-requires-python=" +:+ ?q) with ("data-requires-python" +:+ String "=" q).
  assert (∀ x q t, plain x = true → q ≠ "="%char → has_char q "data-requires-python" = false →
    skips ("data-requires-python" +:+ String "=" (singleton_str quote)) (x +:+ singleton_str q) t) as Hval.
  { intros x q t' Hx Hne Hno. apply skips_before; [by apply plain_no_char|done|done|done]. }
  change ("<a href=" +:+ DQUOTE +:+ ?t) with (("<a href=" +:+ DQUOTE) +:+ t). apply skips_app; [skip_text|].
  destruct sha256 as [s|]; cbn [hash_part opt_plain] in *.
  - change ("#sha256=" +:+ s) with ("#" +:+ "sha256=" +:+ s). rewrite !str_app_assoc.
    rewrite <-(str_app_assoc url "#"). apply skips_app; [by apply (Hval url "#"%char)|]. apply skips_app; [skip_text|]. by apply (Hval s).
  - rewrite str_app_nil_r. by apply Hval.
Qed.

Definition opening (url : string) (sha256 : option string) : string := "<a href=" +:+ DQUOTE +:+ (url +:+ hash_part sha256) +:+ DQUOTE.

Lemma tag_of_opening url sha256 attr filename t :
  tag_of (url +:+ hash_part sha256) attr filename +:+ t = opening url sha256 +:+ (attr +:+ ">" +:+ filename +:+ t).
Proof. unfold tag_of, opening. by rewrite !str_app_assoc. Qed.

Lemma read_requires url sha256 rp filename : plain url = true → opt_plain sha256 → opt_amp rp → plain filename = true →
  extract_attr (tag_of (url +:+ hash_part sha256) (attr_part rp) filename +:+ "</a>") "data-requires-python" = rp.
Proof.
  intros Hu Hs Hrp Hf. unfold extract_attr, quoted_value. rewrite tag_of_opening.
  change ("data-requires-python" +:+ "=" +:+ ?q) with ("data-requires-python=" +:+ q).
  destruct rp as [rp|]; cbn [attr_part opt_amp] in *.
  - unfold requires_attr.
    assert (∀ t, opening url sha256 +:+ ((" data-requires-python=" +:+ DQUOTE +:+ escape_attr rp +:+ DQUOTE) +:+ t) =
      (opening url sha256 +:+ " ") +:+ ("data-requires-python=" +:+ DQUOTE) +:+ (escape_attr rp +:+ DQUOTE +:+ t)) as ->.
    { intros t. by rewrite !str_app_assoc. }
    rewrite (split_at_str ("data-requires-python=" +:+ DQUOTE)); [|done|apply skips_app; [by apply skips_href|skip_text] ].
    rewrite split_at_quote by (apply escape_no_char; set_solver). by rewrite decode_escape.
  - assert (∀ q, q ≠ "="%char → has_char q "data-requires-python" = false → split_once_str ("data-requires-python=" +:+ singleton_str q)
      (opening url sha256 +:+ ("" +:+ ">" +:+ filename +:+ "</a>")) = None) as Hnone.
    { intros q Hq Hq'. apply skips_none; [|done]. apply skips_app; [by apply skips_href|].
      change ("" +:+ ">" +:+ filename +:+ "</a>") with (">" +:+ (filename +:+ (singleton_str "<" +:+ "/a>"))). apply skips_app; [skip_text|].
      rewrite <-str_app_assoc. apply skips_app; [|skip_text]. change ("data-requires-python=" +:+ ?q) with ("data-requires-python" +:+ String "=" q).
      apply skips_before; [by apply plain_no_char|done..]. }
    by rewrite !Hnone.
Qed.

(** The text of a tag. *)
Lemma read_text href attr filename : has_char ">" href = false → has_char ">" attr = false → str_trim filename = filename →
  link_text (tag_of href attr filename +:+ "</a>") (String.length (tag_of href attr filename)) = Some filename.
Proof.
  intros Hh Ha Ht. unfold link_text, tag_of. set (before := "<a href=" +:+ DQUOTE +:+ href +:+ DQUOTE +:+ attr).
  assert ("<a href=" +:+ DQUOTE +:+ href +:+ DQUOTE +:+ attr +:+ ">" +:+ filename = before +:+ String ">" filename) as ->.
  { unfold before. rewrite !str_app_assoc. done. }
  rewrite str_app_assoc. change (String ">" filename +:+ "</a>") with (String ">" (filename +:+ "</a>")).
  rewrite split_at_char by (unfold before; rewrite !has_char_app, Hh, Ha; reflexivity).
  unfold str_slice. rewrite str_length_app. cbn [String.length]. rewrite decide_True by lia.
  replace (String.length before + S (String.length filename) - (String.length before + 1)) with (String.length filename) by lia.
  replace (str_drop (String.length before + 1) (before +:+ String ">" (filename +:+ "</a>"))) with (filename +:+ "</a>").
  - cbn. by rewrite str_take_app, Ht.
  - pose proof (str_drop_app (before +:+ ">") (filename +:+ "</a>")) as Hd. rewrite str_length_app, str_app_assoc in Hd. symmetry. exact Hd.
Qed.

(** One line, after text in which no link begins. *)
Lemma parse_anchor fuel pre rest url sha256 rp filename : (∀ t, skips "<a " pre t) →
  plain url = true → opt_plain sha256 → opt_amp rp → plain filename = true → str_trim filename = filename → filename ≠ "" →
  parse_links (S fuel) (pre +:+ anchor (url +:+ hash_part sha256) (attr_part rp) filename +:+ rest) =
    cons (mkPackageLink filename url sha256 rp) <$> parse_links fuel (NEWLINE +:+ rest).
Proof.
  intros Hpre Hu Hs Hrp Hf Ht Hne. set (tag := tag_of (url +:+ hash_part sha256) (attr_part rp) filename).
  assert (∃ inside, tag = "<a " +:+ inside ∧ has_char "<" inside = false) as (inside & Hin & Hno).
  { exists ("href=" +:+ DQUOTE +:+ (url +:+ hash_part sha256) +:+ DQUOTE +:+ attr_part rp +:+ ">" +:+ filename). split; [done|].
    rewrite !has_char_app, attr_no_char, (plain_no_char "<" url), (plain_no_char "<" filename) by (done || set_solver).
    destruct sha256 as [s|]; cbn [hash_part opt_plain] in *; [|done]. by rewrite has_char_app, (plain_no_char "<" s). }
  assert (anchor (url +:+ hash_part sha256) (attr_part rp) filename +:+ rest = "<a " +:+ (inside +:+ "</a>" +:+ NEWLINE +:+ rest)) as ->.
  { rewrite <-(str_app_assoc "<a "), <-Hin. unfold anchor, tag, tag_of. by rewrite !str_app_assoc. }
  cbn [parse_links]. rewrite (split_at_str "<a ") by done. rewrite <-(str_app_assoc "<a "), <-Hin.
  rewrite (split_at_str "</a>").
  2: done. 2:{ rewrite Hin. apply skips_app; [skip_text|]. by apply skips_head. }
  unfold tag. rewrite read_text; [|rewrite has_char_app, (plain_no_char ">" url) by done;
    destruct sha256 as [s|]; cbn [hash_part opt_plain] in *; [by rewrite has_char_app, (plain_no_char ">" s)|done]|by apply attr_no_char; set_solver|done].
  cbn [mbind option_bind]. unfold read_link. rewrite read_href, read_requires by done. fold tag.
  assert (match split_once_str "#sha256=" (url +:+ hash_part sha256) with Some (url, sha256) => (url, Some sha256)
          | None => (url +:+ hash_part sha256, None) end = (url, sha256)) as ->.
  { destruct sha256 as [s|]; cbn [hash_part].
    - rewrite (split_at_str "#sha256="); [done|done|]. apply skips_head, (plain_no_char _ _ Hu). reflexivity.
    - rewrite str_app_nil_r, skips_none; [done| |done]. apply skips_head, (plain_no_char _ _ Hu). reflexivity. }
  rewrite decide_True by done. by destruct (parse_links fuel (NEWLINE +:+ rest)).
Qed.

(** A link that can be written: no character of its address, its hash and its
    file name has a meaning in a page, the file name is neither empty nor
    surrounded by white space, and the required versions have no ampersand. *)
Definition writable (link : PackageLink) : Prop :=
  plain (pl_url link) = true ∧ opt_plain (pl_sha256 link) ∧ opt_amp (pl_requires_python link) ∧ plain (pl_filename link) = true ∧
  str_trim (pl_filename link) = pl_filename link ∧ pl_filename link ≠ "".

Definition written (link : PackageLink) : string :=
  anchor (pl_url link +:+ hash_part (pl_sha256 link)) (attr_part (pl_requires_python link)) (pl_filename link).

Lemma skips_head_line t : skips "<a " HTML_HEAD t.
Proof. skip_text. Qed.

Lemma skips_new_line t : skips "<a " NEWLINE t.
Proof. skip_text. Qed.

Section page.
Context {A : Type} (line : A → string) (f : A → PackageLink).

Definition writes (x : A) : Prop := line x = written (f x) ∧ writable (f x).

Lemma parse_lines l fuel pre : Forall writes l → (∀ t, skips "<a " pre t) → length l < fuel →
  parse_links fuel (pre +:+ concat_lines line l +:+ HTML_TAIL) = Some (f <$> l).
Proof.
  revert fuel pre. induction l as [|x l IH]; intros [|fuel] pre Hall Hpre Hlen; cbn [length] in Hlen; [lia| |lia|].
  - cbn [concat_lines String.append parse_links]. rewrite skips_none; [done| |done].
    apply skips_app; [done|]. skip_text.
  - apply Forall_cons in Hall as [ (Hx & Hu & Hs & Hrp & Hf & Ht & Hne) Hall]. cbn [concat_lines]. rewrite Hx. unfold written.
    rewrite str_app_assoc, parse_anchor by done. rewrite IH; [|done|apply skips_new_line|lia]. cbn. by destruct (f x).
Qed.

Lemma concat_lines_length l : Forall writes l → length l ≤ String.length (concat_lines line l).
Proof.
  induction 1 as [|x l (Hx & _) _ IH]; [done|]. cbn [length concat_lines]. rewrite str_length_app, Hx. unfold written, anchor.
  rewrite str_length_app. cbn [String.length]. lia.
Qed.

Lemma parse_page l : Forall writes l → parse_simple_html (html_page line l) = Some (f <$> l).
Proof.
  intros Hall. unfold parse_simple_html, html_page. apply parse_lines; [done|apply skips_head_line|].
  rewrite !str_length_app. pose proof (concat_lines_length l Hall). lia.
Qed.
End page.

(** What a page says of a link and of a file. *)
Definition link_of_index (norm_name : string) (link : PypiProjectLink) : PackageLink :=
  mkPackageLink (plink_filename link) (file_href norm_name (plink_version link) (plink_filename link)) (plink_sha256 link)
    (plink_requires_python link).

Definition not_empty (o : option string) : option string := o ≫= λ s, if decide (s ≠ "") then Some s else None.

Definition link_of_meta (pypi : PypiPackageMeta) : PackageLink :=
  mkPackageLink (pypi_filename pypi) (file_href (pypi_name pypi) (pypi_version pypi) (pypi_filename pypi)) (Some (pypi_sha256 pypi))
    (not_empty (pypi_requires_python pypi)).

(** C20: The pages of the index can be read back.  When the links are writable,
    the parser that a cache uses on the pages of its upstream reads, from the
    page that another cache serves for a project and from the page of a hosted
    repository, exactly the links in their order: the file names, the relative
    addresses, the hashes, and the required versions of Python, whose escapes
    are undone. *)
Theorem pages_read_back :
  (∀ norm_name links, Forall writable (link_of_index norm_name <$> links) →
     parse_simple_html (render_index_links norm_name links) = Some (link_of_index norm_name <$> links)) ∧
  (∀ (files : list (string * PypiPackageMeta)) (record : PypiPackageMeta → ArtifactRecord),
     (∀ pypi, ar_kind (record pypi) = KPypiPackage pypi) → Forall (λ file, writable (link_of_meta file.2)) files →
     parse_simple_html (render_project_files (prod_map id record <$> files)) = Some ((λ file, link_of_meta file.2) <$> files)).
Proof.
  split.
  - intros norm_name links Hall. apply parse_page. rewrite Forall_fmap in Hall. eapply Forall_impl; [exact Hall|].
    intros link Hl. split; [|done]. done.
  - intros files record Hk Hall. unfold render_project_files.
    assert (html_page file_line (prod_map id record <$> files) = html_page (λ file, file_line (file.1, record file.2)) files) as ->.
    { unfold html_page. do 2 f_equal. induction files as [|[p m] files IH]; [done|]. cbn [fmap list_fmap concat_lines].
      rewrite IH; [done|]. by apply Forall_cons in Hall as [_ ?]. }
    apply parse_page. eapply Forall_impl; [exact Hall|]. intros [path pypi] Hw. split; [|done]. unfold file_line. cbn [fst snd]. rewrite Hk.
    unfold written, link_of_meta, not_empty. cbn. destruct (pypi_requires_python pypi) as [rp|]; [|done]. cbn. by destruct (decide (rp ≠ "")).
Qed.
End roundtrip.

(** An ampersand that was escaped is unescaped twice. *)
Example entities_unescaped_twice : decode_entities (escape_attr "&lt;") = "<".
Proof. reflexivity. Qed.

(** A link without a bracket before its end makes the parser panic. *)
Example unclosed_link_panics : let _ := (trim : TrimSpace) in parse_simple_html "<a href=x</a>" = None.
Proof. reflexivity. Qed.

(** The dots of a version are lost, and of the version of a wheel all but the
    first part. *)
Example version_of_file : let _ := toy_unicode in
  extract_version_from_filename "my-pkg" "my_pkg-1.2.0.tar.gz" = "1-2-0" ∧ extract_version_from_filename "my-pkg" "my_pkg-1.2.0-py3-none-any.whl" = "1".
Proof. split; reflexivity. Qed.

(** ** Uploads *)

Section uploads.
Context `{Unicode} `{TrimSpace} `{ResponseText} `{IndexJson} `{Upstream} `{Digests} `{Scheduler}.
Context `{Blake3} `{Serde ArtifactRecord} `{Serde TreeEntry} `{Serde BlobRecord} `{Serde RepoConfig} `{Serde UserRecord} `{Serde RoleRecord} `{Argon2} `{UuidGen}
  {ar_exact : SerdeExact ArtifactRecord} {br_exact : SerdeExact BlobRecord} {B : Type} `{AuthBackend B}
  (same : string → string → Prop) (I : B → kvmap → Prop) `{laws : !StoredAccounts B same I}.
Implicit Types (w : world kvmap) (m : kvmap).

(** The fields of a form besides its file. *)
Definition read_texts (fields : list FormField) (f : UploadForm) : UploadForm :=
  foldl (λ f x, form_field f (default "" (ff_name x)) (ff_text x)) f fields.

Definition no_content (fields : list FormField) : Prop := Forall (λ x, default "" (ff_name x) ≠ "content") fields.

Lemma read_form_texts blobs fields more f : no_content fields → read_form blobs (fields ++ more) f = read_form blobs more (read_texts fields f).
Proof.
  intros Hno. revert f. induction Hno as [|x fields Hx Hno IH]; intros f; [done|]. cbn [app read_form read_texts foldl].
  rewrite decide_False by done. apply IH.
Qed.

Lemma form_field_content f name text c : form_field (form_content f c) name text = form_content (form_field f name text) c.
Proof. destruct f. unfold form_field, form_content. cbn. by repeat case_decide. Qed.

Lemma read_texts_content fields f c : read_texts fields (form_content f c) = form_content (read_texts fields f) c.
Proof.
  revert f. induction fields as [|x fields IH]; intros f; [done|]. cbn [read_texts foldl] in *. rewrite form_field_content. apply IH.
Qed.

(** A form with one file: what the handler makes of it. *)
Definition form_of (fields fields' : list FormField) : UploadForm := read_texts fields' (read_texts fields empty_form).

Definition blob_info (blob_id : string) (data : bytes) : BlobInfo := mkBlobInfo blob_id (blake3_hex data) (sha256_hex data) (byte_size data).

Lemma run_read_form blobs fields content fields' (data : bytes) w :
  no_content fields → no_content fields' → default "" (ff_name content) = "content" → read_body (ff_data content) = inr data →
  run (read_form blobs (fields ++ content :: fields') empty_form) w =
    (Some (Ok (form_content (form_of fields fields') (default "unknown" (ff_file_name content), blob_info (new_v4 (w_uuids w)) data))),
     set_blobs (<[(blobs, new_v4 (w_uuids w)) := data]> (w_blobs w)) (bump_uuid w)).
Proof.
  intros Hf Hf' Hn Hd. rewrite read_form_texts by done. cbn [read_form]. rewrite decide_True by done.
  unfold stream_multipart_field_to_blob. rewrite run_bind_ok. rewrite Hd. cbn.
  rewrite <-(app_nil_r fields'), read_form_texts, read_texts_content, app_nil_r by done. done.
Qed.

(** What is recorded of an upload. *)
Definition meta_of (um : PypiUploadMeta) (sha256 : string) : PypiPackageMeta :=
  mkPypiPackageMeta (um_name um) (um_version um) (um_filename um) (um_filetype um) sha256 (um_requires_python um) (um_summary um) None.

Lemma within_set_flag self : within flags_only (set_stale_flag self).
Proof using ar_exact.
  unfold set_stale_flag. apply within_bind; [apply flags_only_preorder|apply within_now|]. intros now.
  apply within_bind_ok; [apply flags_only_preorder|by apply within_flag|]. intros o. apply within_ret, flags_only_preorder.
Qed.

(** What an accepted upload leaves. *)
Definition package_at self (um : PypiUploadMeta) (data : bytes) w : Prop :=
  ∃ r, uploaded self (package_path (um_name um) (um_version um) (um_filename um)) (KPypiPackage (meta_of um (sha256_hex data)))
    false "application/octet-stream" (byte_size data) data r w.

Definition mismatch (um : PypiUploadMeta) (data : bytes) (e : DepotError) : Prop :=
  ∃ expected, um_expected_sha256 um = Some expected ∧ expected ≠ sha256_hex data ∧ e = sha256_mismatch expected (sha256_hex data).

Lemma wp_commit_package self (repos : gset string) um (data : bytes) id w : sound (fs_blobs self) (fs_store self) repos w → new_id self w id →
  wp (commit_package self um (blob_info id data)) (add_blob self id data w) (λ (res : result ArtifactRecord) w',
    sound (fs_blobs self) (fs_store self) repos w' ∧ (∀ config, hosted_on w config → hosted_on w' config) ∧
    match res with
    | Ok _ => package_at self um data w' ∧ ∀ e, ¬ mismatch um data e
    | Err e => (∀ e', mismatch um data e' → e = e')
    end).
Proof using ar_exact br_exact.
  intros Hs Hid. unfold commit_package. cbn [blob_info bi_sha256_hash bi_blob_id bi_blake3_hash bi_size]. fold (meta_of um (sha256_hex data)).
  assert ((∀ e, ¬ mismatch um data e) → wp (commit_file self (package_path (um_name um) (um_version um) (um_filename um))
      (KPypiPackage (meta_of um (sha256_hex data))) false "application/octet-stream" id (blake3_hex data) (byte_size data)) (add_blob self id data w)
    (λ (res : result ArtifactRecord) w', sound (fs_blobs self) (fs_store self) repos w' ∧ (∀ config, hosted_on w config → hosted_on w' config) ∧
      match res with Ok _ => package_at self um data w' ∧ ∀ e, ¬ mismatch um data e | Err e => (∀ e', mismatch um data e' → e = e') end)) as Hcommit.
  { intros Hno. unfold commit_file. apply wp_bind. eapply wp_intro; [done|].
    eapply wp_mono; [exact (wp_record_file self repos _ _ false "application/octet-stream" id data (byte_size data) _ w Hs Hid)|].
    intros res w' (Hs' & Ho & Hr). split; [done|]. split; [intros config Hc; by eapply hosted_on_kept|].
    destruct res as [r|e]; [split; [by exists r|done]|]. by intros e' ?%Hno. }
  destruct (um_expected_sha256 um) as [expected|] eqn:He.
  2:{ apply Hcommit. intros e (x & Hx & _). congruence. }
  case_decide as Hne; [|apply Hcommit; intros e (x & Hx & Hx' & _); congruence]. apply wp_ret.
  split; [exact (sound_blob_added _ _ _ _ _ data (proj1 Hid) Hs)|].
  split; [intros config Hc; eapply hosted_on_kept; [|exact Hc]; exact (add_blob_only self _ data w (proj1 Hid))|].
  intros e' (x & Hx & _ & ->). congruence.
Qed.

Lemma package_at_flagged self um data w w' : flags_only w w' → package_at self um data w → package_at self um data w'.
Proof. intros Hf (r & bid & now & He & Hfile). exists r, bid, now. split; [done|]. by eapply file_at_flagged. Qed.

(** A form with one file, whose fields are those of [um]. *)
Definition form_with fields content fields' (data : bytes) um : Prop :=
  no_content fields ∧ no_content fields' ∧ default "" (ff_name content) = "content" ∧ read_body (ff_data content) = inr data ∧
  ∀ info, form_package (form_content (form_of fields fields') (default "unknown" (ff_file_name content), info)) = Ok (um, info).

Lemma wp_upload self (repos : gset string) (repo_name : string) fields content fields' (data : bytes) um w :
  form_with fields content fields' data um → sound (fs_blobs self) (fs_store self) repos w → new_id self w (new_v4 (w_uuids w)) →
  wp (upload_to self repo_name (fields ++ content :: fields')) w (λ (res : result unit) w',
    sound (fs_blobs self) (fs_store self) repos w' ∧ (∀ config, hosted_on w config → hosted_on w' config) ∧
    match res with
    | Ok _ => package_at self um data w' ∧ ∀ e, ¬ mismatch um data e
    | Err e => (∀ e', mismatch um data e' → e = e')
    end).
Proof using ar_exact br_exact.
  intros (Hf & Hf' & Hn & Hd & Hp) Hs Hid. unfold upload_to. apply wp_bind_ok. eapply wp_intro; [by apply run_read_form|]. cbv beta iota.
  rewrite Hp. apply wp_bind_ok. eapply wp_mono; [exact (wp_commit_package self repos um data (new_v4 (w_uuids w)) (bump_uuid w) Hs Hid)|].
  intros [r|e] w1 (Hs1 & Hh1 & Hr); [|done]. destruct Hr as [Hr Hno].
  assert (∀ w2 w3, flags_only w2 w3 → sound (fs_blobs self) (fs_store self) repos w2 ∧ (∀ config, hosted_on w config → hosted_on w2 config) ∧
      package_at self um data w2 → sound (fs_blobs self) (fs_store self) repos w3 ∧ (∀ config, hosted_on w config → hosted_on w3 config) ∧
      package_at self um data w3) as Hfl.
  { intros w2 w3 Hf2 (Hs2 & Hh2 & Hp2). split; [by apply (sound_flags _ _ _ w2)|].
    split; [intros config Hc; by eapply hosted_on_flagged, Hh2|by eapply package_at_flagged]. }
  apply wp_bind. eapply wp_mono; [apply within_set_flag|]. intros o w2 Hf2. apply wp_bind. eapply wp_mono; [apply within_propagate|]. intros o3 w3 Hf3.
  apply wp_ret. destruct (Hfl w2 w3 Hf3 (Hfl w1 w2 Hf2 (conj Hs1 (conj Hh1 Hr)))) as (? & ? & ?). by split_and!.
Qed.

(** A package in place is downloaded, under any name with the same normal form. *)
Lemma package_served config um (data : bytes) name w : hosted_on w config → package_at (store_of config) um data w →
  normalize_name name = normalize_name (um_name um) →
  ∃ d : bytes, run (hosted_download (rc_name config) name (um_version um) (um_filename um)) w =
      (Some (pypi_stream_response d (byte_size d) (um_filename um)), w) ∧ blake3_hex d = blake3_hex data.
Proof.
  intros (Hr & _ & Hst) (r & bid & now & -> & [ (b & v & id & acc & Hm & Hv) (bid' & d & Hb & Hne & Hd & Hh)]) Hname. exists d. split; [|done].
  injection Hb as <-. unfold hosted_download, resolve_repo_blob_store, get_package. rewrite run_bind, run_bind, run_bind_ok, run_get_repo, Hr.
  rewrite run_bind_ok, run_resolve_blob_store, decide_True by done. cbn [run fst snd]. fold (store_of config).
  rewrite run_bind, run_bind_ok, run_get_artifact. unfold old_of. unfold package_path in Hm |- *. rewrite Hname, Hm, Hv.
  unfold open_file. cbn in Hd |- *. by rewrite Hd.
Qed.

Lemma concat_lines_elem {A : Type} (line : A → string) x l : x ∈ l → ∃ a b, concat_lines line l = a +:+ line x +:+ b.
Proof.
  induction 1 as [x l|x y l _ (a & b & IH)]; cbn [concat_lines]; [by exists "", (concat_lines line l)|].
  exists (line y +:+ a), b. by rewrite IH, str_app_assoc.
Qed.

Lemma file_line_written path r pypi : ar_kind r = KPypiPackage pypi → file_line (path, r) = written (link_of_meta pypi).
Proof.
  intros Hk. unfold file_line. rewrite Hk. unfold written, link_of_meta, not_empty. cbn.
  destruct (pypi_requires_python pypi) as [rp|]; [|done]. cbn. by destruct (decide (rp ≠ "")).
Qed.

(** A package in place is listed. *)
Lemma package_listed fuel config um (data : bytes) name w : hosted_on w config → package_at (store_of config) um data w →
  normalize_name name = normalize_name (um_name um) →
  normalize_path (package_path (um_name um) (um_version um) (um_filename um)) = package_path (um_name um) (um_version um) (um_filename um) →
  all_readable (w_kv w) (rc_name config) → enough (w_kv w) fuel (rc_name config) →
  ∃ before after, run (hosted_simple_project fuel (rc_name config) name) w =
    (Some (PyHtml (before +:+ written (link_of_meta (meta_of um (sha256_hex data))) +:+ after)), w).
Proof.
  intros (Hr & _ & Hst) (r & bid & now & -> & [Hrec _]) Hname Hn Hread He.
  destruct (record_at_stored _ _ _ _ Hn Hrec) as (id & acc & Hstored).
  destruct (run_list_under fuel 100 (store_of config) ("_packages/" +:+ normalize_name name +:+ "/") w Hread He) as (files & Hrun & Hfiles).
  match type of Hstored with stored _ _ ?p ?r => assert ((p, r) ∈ files) as Hin end.
  { apply Hfiles. split; [|exact Hstored]. apply starts_with_spec. unfold package_path. rewrite Hname.
    exists (um_version um +:+ "/" +:+ um_filename um). by rewrite !str_app_assoc. }
  destruct (concat_lines_elem file_line _ _ Hin) as (a & b & Hlines). exists (HTML_HEAD +:+ a), (b +:+ HTML_TAIL).
  unfold hosted_simple_project, resolve_repo_blob_store. rewrite run_bind, run_bind, run_bind_ok, run_get_repo, Hr.
  rewrite run_bind_ok, run_resolve_blob_store, decide_True by done. cbn [run fst snd]. fold (store_of config).
  unfold list_project_files. rewrite run_bind, Hrun. destruct files as [|f files]; [by apply elem_of_nil in Hin|].
  cbn [run]. unfold render_project_files, html_page. rewrite Hlines, (file_line_written _ _ (meta_of um (sha256_hex data))) by done.
  by rewrite !str_app_assoc.
Qed.

(** *** Requests *)

Definition files_request (project : string) : string := "simple/" +:+ project +:+ "/".
Definition package_request (name version filename : string) : string := "packages/" +:+ name +:+ "/" +:+ version +:+ "/" +:+ filename.

Lemma trim_end_slash p : has_char SLASH p = false → trim_end SLASH (p +:+ "/") = p.
Proof.
  induction p as [|c p IH]; [done|]. cbn [has_char]. intros [Hc Hp]%orb_false_iff. apply bool_decide_eq_false in Hc.
  change (String c p +:+ "/") with (String c (p +:+ "/")). cbn [trim_end]. rewrite IH by done. destruct p; [|done]. by rewrite decide_False.
Qed.

Lemma parse_files_request project : has_char SLASH project = false → project ≠ "" →
  parse_request (files_request project) = Some (SimpleProject project).
Proof.
  intros Hp Hne. unfold parse_request, files_request. rewrite decide_False.
  2:{ destruct project as [|c project]; [done|]. cbn. by intros [?|?]. }
  assert (strip_prefix ("simple/" +:+ project +:+ "/") "simple/" = Some (project +:+ "/")) as -> by (by apply strip_prefix_spec).
  cbn [fmap option_fmap option_map]. rewrite trim_end_slash by done. by rewrite decide_True.
Qed.

Lemma parse_package_request name version filename : has_char SLASH name = false → has_char SLASH version = false →
  parse_request (package_request name version filename) = Some (PackageFile name version filename).
Proof.
  intros Hn Hv. unfold parse_request, package_request. rewrite decide_False by (cbn; by intros [?|?]).
  assert (strip_prefix ("packages/" +:+ name +:+ "/" +:+ version +:+ "/" +:+ filename) "packages/" =
    Some (name +:+ "/" +:+ version +:+ "/" +:+ filename)) as Hs by (by apply strip_prefix_spec).
  assert (strip_prefix ("packages/" +:+ name +:+ "/" +:+ version +:+ "/" +:+ filename) "simple/" = None) as -> by done.
  cbn [fmap option_fmap option_map]. rewrite Hs. cbn [mbind option_bind].
  rewrite split_at_slash by done. cbn [snd mbind option_bind]. by rewrite split_at_slash.
Qed.

(** C19: An uploaded file is served and listed.  In a hosted repository that is
    sound, an upload of a form with one file ends and keeps the repository
    sound.  If it is accepted, the user may write to the repository, and under
    every spelling of the project with the same normal form a request for the
    file gets contents with the hash of what was uploaded, and the page of the
    project has the link to the file with its SHA-256; if the form states a
    SHA-256 that is not that of the file, the upload is refused. *)
Theorem pypi_upload_served (b : B) (user : string) (config : RepoConfig) (repos : gset string) (fields fields' : list FormField)
    (content : FormField) (data : bytes) (um : PypiUploadMeta) (w : world kvmap) :
  let self := store_of config in
  let path := package_path (um_name um) (um_version um) (um_filename um) in
  I b (w_kv w) → sound (fs_blobs self) (fs_store self) repos w → new_id self w (new_v4 (w_uuids w)) → hosted_on w config →
  form_with fields content fields' data um → normalize_path path = path →
  ∃ r b' w', run (process_upload b user (rc_name config) (fields ++ content :: fields')) w = (Some (r, b'), w') ∧
    sound (fs_blobs self) (fs_store self) repos w' ∧
    (r = Ok tt →
      (∃ u, user_of (w_kv w) user = Ok (Some u) ∧ allowed (w_kv w) u (rc_name config) CapWrite) ∧
      ∀ name, normalize_name name = normalize_name (um_name um) → has_char SLASH name = false → name ≠ "" →
        (has_char SLASH (um_version um) = false → ∃ d : bytes, blake3_hex d = blake3_hex data ∧ ∀ fuel waits,
          run (try_handle_repository_path fuel waits config (package_request name (um_version um) (um_filename um))) w' =
            (Some (Some (pypi_stream_response d (byte_size d) (um_filename um))), w')) ∧
        ∀ fuel waits, all_readable (w_kv w') (rc_name config) → enough (w_kv w') fuel (rc_name config) →
          ∃ before after, run (try_handle_repository_path fuel waits config (files_request name)) w' =
            (Some (Some (PyHtml (before +:+ written (link_of_meta (meta_of um (sha256_hex data))) +:+ after))), w')) ∧
    (∀ e, mismatch um data e → r ≠ Ok tt).
Proof using ar_exact br_exact laws.
  intros self path Hi Hs Hid Hh Hform Hpath. unfold process_upload.
  destruct (run_upload_preamble same I b user (rc_name config) FPyPI w Hi) as (r & b' & Hpre & Hspec). rewrite run_bind, Hpre.
  destruct r as [ [ [target cfg] blobs]|e]; [|by eexists _, _, _].
  destruct (Hspec _ _ _ eq_refl) as (config' & Hrepo & _ & Hperm & Hwt & -> & _).
  pose proof Hh as (Hrepo' & Hkind & Hst). rewrite Hrepo' in Hrepo. injection Hrepo as <-. unfold write_target in Hwt. rewrite Hkind in Hwt.
  destruct Hwt as [-> ->]. fold (store_of config). fold self.
  destruct (wp_run _ _ _ (wp_upload self repos (rc_name config) fields content fields' data um w Hform Hs Hid)) as (res & w' & Hrun & Hs' & Hhost & Hres).
  rewrite run_bind, Hrun. exists res, b', w'. split; [done|]. split; [done|]. specialize (Hhost config Hh).
  destruct res as [ []|e]; [|by split]. destruct Hres as [Hat Hno]. split; [|by intros e ?%Hno]. intros _. split.
  - unfold permission_spec in Hperm. destruct (user_of (w_kv w) user) as [ [u|]|e] eqn:Hu; cbn in Hperm; [|done..].
    destruct Hperm as [Hallowed _]. exists u. split; [done|]. by apply Hallowed.
  - intros name Hname Hslash Hne. split.
    + intros Hv. destruct (package_served config um data name w' Hhost Hat Hname) as (d & Hget & Hd). exists d. split; [done|]. intros fuel waits.
      unfold try_handle_repository_path. rewrite parse_package_request, Hkind by done. cbn [kind_repo_type]. by rewrite run_bind, Hget.
    + intros fuel waits Hread He. destruct (package_listed fuel config um data name w' Hhost Hat Hname Hpath Hread He) as (before & after & Hpage).
      exists before, after. unfold try_handle_repository_path. rewrite parse_files_request, Hkind by done. cbn [kind_repo_type]. by rewrite run_bind, Hpage.
Qed.
End uploads.

(** ** Witnesses *)

Definition toy_index_json : IndexJson := {| index_to_vec := λ _, inl ""; index_from_slice := λ _, inl "" |}.
Definition toy_pypi_repo : RepoConfig := mkRepoConfig 5 "r" Hosted CPyPI "s" 0%Z None None false.
Definition toy_pypi_rc : Serde RepoConfig := table_serde [toy_pypi_repo].
Definition text_field (name value : string) : FormField := mkFormField (Some name) None (Some value) [].
Definition toy_pypi_um : PypiUploadMeta :=
  let _ := toy_unicode in mkPypiUploadMeta "my.pkg" "1.0" "my_pkg-1.0.zip" (normalize_name "unknown") None None None.
Definition toy_pypi_file : ArtifactRecord :=
  let _ := toy_unicode in let _ := toy_digests in
  toy_first_file (package_path "my.pkg" "1.0" "my_pkg-1.0.zip") (KPypiPackage (meta_of toy_pypi_um (sha256_hex "abc"))) "application/octet-stream" "abc".

Definition toy_trim : TrimSpace := trim.
Definition toy_text : ResponseText := λ _ data, data.

Lemma pypi_upload_served_witness :
  let _ := toy_unicode in let _ := toy_trim in let _ := toy_text in let _ := toy_index_json in let _ := toy_upstream in
  let _ := toy_digests in let _ := Prog.in_order in let _ := toy_blake3 in let _ := table_serde [toy_pypi_file] in let _ := toy_te_serde in
  let _ := table_serde [toy_first_blob "abc"] in let _ := toy_pypi_rc in let _ := toy_ur_serde in let _ := toy_upload_rr in let _ := toy_argon2 in
  let _ := toy_uuid in
  let fields := [text_field "name" "my.pkg"; text_field "version" "1.0"] in
  let content := mkFormField (Some "content") (Some "my_pkg-1.0.zip") None [inr "ab"; inr "c"] in
  ∃ w' (d : bytes), run (process_upload tt "alice" "r" (fields ++ [content])) toy_upload_world = (Some (Ok tt, tt), w') ∧ blake3_hex d = blake3_hex "abc" ∧
    run (try_handle_repository_path 5 0 toy_pypi_repo "packages/my_pkg/1.0/my_pkg-1.0.zip") w' =
      (Some (Some (PyFile "application/octet-stream" "my_pkg-1.0.zip" (byte_size d) d)), w') ∧
    ∃ before after, run (try_handle_repository_path 5 0 toy_pypi_repo "simple/my_pkg/") w' =
      (Some (Some (PyHtml (before +:+ written (link_of_meta (meta_of toy_pypi_um (sha256_hex "abc"))) +:+ after))), w').
Proof.
  intros ? ? ? ? ? ? ? ? ? ? ? ? ? ? ? ? fields content.
  destruct (@pypi_upload_served toy_unicode toy_trim toy_text toy_index_json toy_upstream toy_digests Prog.in_order toy_blake3 (table_serde [toy_pypi_file])
    toy_te_serde (table_serde [toy_first_blob "abc"]) toy_pypi_rc toy_ur_serde toy_upload_rr toy_argon2 toy_uuid (table_serde_exact _)
    (table_serde_exact _) unit _ eq (λ _ _, True) (@builtin_laws toy_ur_serde toy_upload_rr toy_argon2 toy_uuid) tt "alice" toy_pypi_repo {["r"]}
    fields [] content "abc" toy_pypi_um toy_upload_world)
    as (reply & b' & w' & Hrun & _ & Hok & _); [exact Logic.I|apply sound_without_files; by_decide| | | |reflexivity|].
  - split_and!; [reflexivity|by_decide|reflexivity].
  - split_and!; [vm_compute; reflexivity|reflexivity|by_decide].
  - split_and!; [repeat constructor; discriminate|constructor|reflexivity|reflexivity|intros info; reflexivity].
  - pose proof (f_equal fst Hrun) as Hreply. vm_compute in Hreply. injection Hreply as <- <-.
    pose proof (f_equal snd Hrun) as Hw. cbn [snd] in Hw.
    destruct (Hok eq_refl) as (_ & Hname). destruct (Hname "my_pkg" eq_refl eq_refl ltac:(discriminate)) as [Hfile Hpage].
    destruct (Hfile eq_refl) as (d & Hd & Hget). exists w', d. split; [exact Hrun|]. split; [exact Hd|]. split; [exact (Hget 5 0)|].
    apply (Hpage 5 0).
    + subst w'. apply closed_readable. by_decide.
    + subst w'. apply closed_enough. by_decide.
Defined.

(** ** The index of a proxy *)

Section index.
Context `{Unicode} `{TrimSpace} `{ResponseText} `{IndexJson} `{Upstream} `{Digests} `{Scheduler}.
Context `{Blake3} `{Serde ArtifactRecord} `{Serde TreeEntry} `{Serde BlobRecord} `{Serde RepoConfig} `{UuidGen}
  {ar_exact : SerdeExact ArtifactRecord} {br_exact : SerdeExact BlobRecord} (fuel : nat).
Implicit Types (w : world kvmap) (m : kvmap).

(** A member that can be resolved has a file of the project. *)
Definition listed w (members : list string) (project : string) : Prop :=
  ∃ member c sk r, member ∈ members ∧ repo_of (w_kv w) member = Ok (Some c) ∧ rc_store c ∈ w_stores w ∧
    starts_with sk "_packages/" = true ∧ stored (w_kv w) member sk r ∧ project_of_path sk = Some project.

(** The members can be scanned. *)
Definition scannable w (members : list string) : Prop :=
  ∀ member, member ∈ members → all_readable (w_kv w) member ∧ enough (w_kv w) fuel member.

Lemma run_list_projects self w : all_readable (w_kv w) (fs_repo self) → enough (w_kv w) fuel (fs_repo self) →
  ∃ projects, run (list_projects fuel self) w = (Some (Ok projects), w) ∧
    ∀ x, x ∈ projects ↔ ∃ sk r, starts_with sk "_packages/" = true ∧ stored (w_kv w) (fs_repo self) sk r ∧ project_of_path sk = Some x.
Proof.
  intros Hread He. destruct (run_collect_set (λ sk _, project_of_path sk) 99 fuel (fs_repo self) "_packages/" w Hread He) as (s & Hrun & Hs).
  exists (sorted_vec s). split; [|intros x; by rewrite elem_of_sorted_vec]. unfold list_projects. by rewrite run_bind_ok, Hrun.
Qed.

Lemma run_member_projects members acc w : scannable w members →
  ∃ projects, run (member_projects fuel members acc) w = (Some projects, w) ∧ ∀ x, x ∈ projects ↔ x ∈ acc ∨ listed w members x.
Proof.
  revert acc. induction members as [|member members IH]; intros acc Hall; cbn [member_projects].
  { exists acc. split; [done|]. intros x. split; [by left|]. intros [?|(? & ? & ? & ? & ?%elem_of_nil & _)]; done. }
  assert (scannable w members) as Hall' by (intros x Hx; apply Hall; by right).
  assert (∀ x, listed w (member :: members) x ↔ listed w [member] x ∨ listed w members x) as Hsplit.
  { intros x. unfold listed. setoid_rewrite elem_of_cons. setoid_rewrite elem_of_nil. naive_solver. }
  unfold resolve_repo_blob_store. rewrite run_bind, run_bind_ok, run_get_repo.
  assert (∀ acc', (∀ x, x ∈ acc' ↔ x ∈ acc ∨ listed w [member] x) →
    ∃ projects, run (member_projects fuel members acc') w = (Some projects, w) ∧ ∀ x, x ∈ projects ↔ x ∈ acc ∨ listed w (member :: members) x) as Hgo.
  { intros acc' Hacc. destruct (IH acc' Hall') as (projects & Hrun & Hp). exists projects. split; [done|]. intros x. rewrite Hp, Hacc, Hsplit. tauto. }
  assert (∀ Q : Prop, (∀ c, repo_of (w_kv w) member = Ok (Some c) → rc_store c ∈ w_stores w → False) → ∀ x, x ∈ acc ↔ x ∈ acc ∨ listed w [member] x) as Hnone.
  { intros _ Hno x. split; [by left|]. intros [?|(? & c & sk & r & ->%list_elem_of_singleton & Hc & Hs & _)]; [done|]. by destruct (Hno c Hc Hs). }
  destruct (repo_of (w_kv w) member) as [ [c|]|e] eqn:Hrepo; [|by apply Hgo, (Hnone True)..].
  rewrite run_bind_ok, run_resolve_blob_store. case_decide as Hst; [|apply Hgo, (Hnone True); intros c' [= <-]; done].
  cbn [run]. rewrite run_bind. destruct (Hall member ltac:(by left)) as [Hread He].
  destruct (run_list_projects (mkFormatStore member (rc_store c) (rc_store c)) w Hread He) as (projects & Hrun & Hp). cbn [fs_repo] in Hp.
  rewrite Hrun. apply Hgo. intros x. rewrite elem_of_union, elem_of_list_to_set, Hp. split; [intros [?|(sk & r & Hx)]; [by left|]|].
  - right. exists member, c, sk, r. destruct Hx as (? & ? & ?). split_and!; [by apply list_elem_of_singleton|done..].
  - intros [?|(? & c' & sk & r & ->%list_elem_of_singleton & Hc & _ & ? & ? & ?)]; [by left|]. right. by exists sk, r.
Qed.

(** *** The kept page *)

Definition stale_key (config : RepoConfig) : string * string * string := artifact_key (rc_name config) STALE_PATH.
Definition simple_key (config : RepoConfig) : string * string * string := artifact_key (rc_name config) SIMPLE_PATH.

(** The page that the proxy keeps. *)
Definition keeps_index (config : RepoConfig) (html : string) w : Prop :=
  ∃ r id (d : bytes), old_of (w_kv w) (simple_key config) = inr (Some r) ∧ ar_blob_id r = Some id ∧ id ≠ "" ∧
    w_blobs w !! (rc_store config, id) = Some d ∧ html = from_utf8_lossy d.

Lemma run_get_simple config html w : keeps_index config html w → run (get_simple_index (store_of config)) w = (Some (Ok (Some html)), w).
Proof.
  intros (r & id & d & Hr & Hid & Hne & Hd & ->). unfold get_simple_index. rewrite run_bind_ok, run_get_artifact.
  cbn [store_of fs_repo]. fold (simple_key config). rewrite Hr, Hid. cbn [default]. rewrite decide_False by done. cbn. by rewrite Hd.
Qed.

Lemma simple_not_stale (config : RepoConfig) : simple_key config ≠ stale_key config.
Proof. intros Heq. apply (f_equal snd) in Heq. vm_compute in Heq. discriminate. Qed.

(** Clearing a mark. *)
Definition unmarked (config : RepoConfig) w : world kvmap :=
  set_kv (delete (tree_entry_key (rc_name config) STALE_PATH) (delete (stale_key config) (w_kv w))) w.

Lemma unmarked_lookup (config : RepoConfig) w (k : string * string * string) : k.1.1 ≠ TABLE_DIR_ENTRIES → w_kv (unmarked config w) !! k = if decide (k = stale_key config) then None else w_kv w !! k.
Proof.
  intros Hk. unfold unmarked. cbn [w_kv set_kv]. rewrite lookup_delete_ne by (intros <-; by apply Hk).
  case_decide as Hkey; [subst; apply lookup_delete_eq|by apply lookup_delete_ne].
Qed.

Lemma run_clear (config : RepoConfig) w (r : ArtifactRecord) : old_of (w_kv w) (stale_key config) = inr (Some r) →
  run (clear_stale_flag (store_of config)) w = (Some (Ok tt), unmarked config w).
Proof.
  intros Hr. unfold clear_stale_flag. rewrite run_bind_ok, run_delete_artifact. cbn [store_of fs_repo]. fold (stale_key config). rewrite Hr.
  unfold old_of in Hr. destruct (w_kv w !! stale_key config) as [ [b v]|] eqn:Hk; [|done]. done.
Qed.

Lemma unmarked_none (config : RepoConfig) w : old_of (w_kv (unmarked config w)) (stale_key config) = inr None.
Proof. unfold old_of. by rewrite unmarked_lookup, decide_True. Qed.

(** A page that is kept and not marked is served. *)
Lemma kept_served (fuel' : nat) config members wm html w : rc_kind config = Proxy members wm → rc_store config ∈ w_stores w →
  old_of (w_kv w) (stale_key config) = inr None → keeps_index config html w →
  run (proxy_simple_index fuel' config) w = (Some (PyHtml html), w).
Proof.
  intros Hk Hst Hstale Hkeep. unfold proxy_simple_index. rewrite Hk, run_bind, run_resolve_blob_store, decide_True by done.
  fold (store_of config). unfold kept_index, is_metadata_stale. rewrite run_bind, run_bind, run_bind_ok, run_get_artifact.
  cbn [store_of fs_repo]. fold (stale_key config) (store_of config). rewrite Hstale. cbn [run]. rewrite bool_decide_false by (by intros []).
  rewrite run_bind, (run_get_simple _ _ _ Hkeep). cbn [run negb]. by rewrite run_bind, (run_get_simple _ _ _ Hkeep).
Qed.

(** A marked page is built again. *)
Lemma marked_rebuilds config members wm r w : rc_kind config = Proxy members wm → rc_store config ∈ w_stores w →
  old_of (w_kv w) (stale_key config) = inr (Some r) →
  run (proxy_simple_index fuel config) w = run (rebuild_index fuel (store_of config) members) w.
Proof.
  intros Hk Hst Hstale. unfold proxy_simple_index. rewrite Hk, run_bind, run_resolve_blob_store, decide_True by done.
  fold (store_of config). unfold kept_index, is_metadata_stale. rewrite run_bind, run_bind, run_bind_ok, run_get_artifact.
  cbn [store_of fs_repo]. fold (stale_key config) (store_of config). rewrite Hstale. cbn [run]. by rewrite bool_decide_true by eauto.
Qed.

Lemma unmarked_frame config w member : rc_name config ≠ member →
  ∀ shard sk, w_kv (unmarked config w) !! (TABLE_ARTIFACTS, artifact_shard_pk member shard, sk) = w_kv w !! (TABLE_ARTIFACTS, artifact_shard_pk member shard, sk).
Proof.
  intros Hne shard sk. rewrite unmarked_lookup by done. rewrite decide_False; [done|]. unfold stale_key. rewrite artifact_key_shard.
  intros [= Heq _]. symmetry in Heq. by apply (shard_pk_ne _ _ _ _ Hne) in Heq.
Qed.

Lemma unmarked_scannable config w members : rc_name config ∉ members → scannable w members → scannable (unmarked config w) members.
Proof.
  intros Hno Hall member Hin. assert (rc_name config ≠ member) as Hne by (intros <-; done). destruct (Hall member Hin) as [Hread He]. split.
  - intros shard sk v n Hs. rewrite unmarked_frame by done. by apply Hread.
  - intros shard Hs. specialize (He shard Hs). erewrite part_ext; [exact He|]. intros sk. by apply unmarked_frame.
Qed.

Lemma unmarked_listed config w members x : rc_name config ∉ members → listed (unmarked config w) members x ↔ listed w members x.
Proof.
  intros Hno. unfold listed, stored. split; intros (member & c & sk & r & Hin & Hc & Hs & Hp & (shard & v & n & Hsh & Hm & Hv) & Hx);
    exists member, c, sk, r; (assert (rc_name config ≠ member) as Hne by (intros <-; done)); split_and!; try done.
  - rewrite <-Hc. unfold repo_of. by rewrite unmarked_lookup, decide_False by done.
  - exists shard, v, n. by rewrite unmarked_frame in Hm by done.
  - rewrite <-Hc. unfold repo_of. by rewrite unmarked_lookup, decide_False by done.
  - exists shard, v, n. by rewrite unmarked_frame by done.
Qed.

Lemma unmarked_sound config blobs store (repos : gset string) w : sound blobs store repos w → sound blobs store repos (unmarked config w).
Proof.
  intros [Hd Ha]. split.
  - intros hash b v r Hk. rewrite unmarked_lookup, decide_False in Hk by done. by apply Hd with v.
  - intros repo path b v r id Hr Hk. rewrite unmarked_lookup in Hk by done. case_decide; [done|]. by apply Ha with repo path v.
Qed.

(** What storing the page leaves. *)
Lemma wp_store_simple config (repos : gset string) (html : string) w :
  sound (rc_store config) (rc_store config) repos w → new_id (store_of config) w (new_v4 (w_uuids w)) →
  wp (store_simple_index (store_of config) html) w (λ (res : result unit) w',
    w_stores w' = w_stores w ∧ w_kv w' !! stale_key config = w_kv w !! stale_key config ∧
    if is_ok res then ∃ d : bytes, keeps_index config (from_utf8_lossy d) w' ∧ blake3_hex d = blake3_hex html
    else w_kv w' !! simple_key config = w_kv w !! simple_key config).
Proof using ar_exact br_exact.
  intros Hs Hid. unfold store_simple_index. apply wp_bind. eapply wp_intro; [done|]. apply wp_bind_ok. eapply wp_intro; [done|].
  apply wp_bind. eapply wp_intro; [done|]. unfold put_document. apply wp_bind_ok.
  eapply wp_mono; [exact (wp_claim_file (store_of config) repos (new_v4 (w_uuids w)) html (byte_size html) _ (bump_uuid w) Hs Hid)|].
  intros [id|e] w1 (_ & Ho1 & _ & _ & Hb).
  2:{ split_and!; [apply Ho1|apply (oa_artifacts _ _ _ _ _ Ho1); [done|by intros ? ?%elem_of_nil]..]. }
  apply wp_bind_ok. eapply wp_mono; [apply (wp_put_artifact (store_of config))|]. intros res w2 (Ho2 & Hbl & _ & Hr).
  assert (w_stores w2 = w_stores w) as Hst by (etransitivity; [apply Ho2|apply Ho1]).
  assert (w_kv w2 !! stale_key config = w_kv w !! stale_key config) as Hstale.
  { etransitivity; [apply (oa_artifacts _ _ _ _ _ Ho2); [done|]|apply (oa_artifacts _ _ _ _ _ Ho1); [done|by intros ? ?%elem_of_nil] ].
    intros path ->%list_elem_of_singleton Heq. symmetry in Heq. by apply simple_not_stale in Heq. }
  destruct res as [old|e]; cbn [is_ok] in Hr.
  - apply wp_ret. split_and!; [done|done|]. destruct Hr as (b & v & i & acc & Hm & Hv). destruct Hb as (Hne & d & Hd & Hh).
    exists d. split; [|done]. match type of Hv with _ = inr ?x => exists x, id, d end. split_and!; [|done|done| |done].
    + unfold old_of, simple_key. cbn [store_of fs_repo] in Hm. by rewrite Hm, Hv.
    + by rewrite Hbl.
  - split_and!; [done|done|]. cbn [is_ok]. refine (eq_trans Hr _). apply (oa_artifacts _ _ _ _ _ Ho1); [done|]. by intros ? ?%elem_of_nil.
Qed.

(** C21: A proxy that has been told of a change builds its index again.  When
    the mark is there and the members can be scanned, a request for the index
    ends, answers with the sorted page of exactly the projects that the members
    have, removes the mark, and keeps a page of the same hash for the requests
    that follow; only when it cannot be stored, which the client is not told,
    the page from before is kept without the mark. *)
Theorem proxy_index_rebuilt (config : RepoConfig) (members : list string) (wm : option string) (repos : gset string) (r : ArtifactRecord)
    (w : world kvmap) :
  rc_kind config = Proxy members wm → rc_store config ∈ w_stores w → rc_name config ∉ members →
  sound (rc_store config) (rc_store config) repos w → new_id (store_of config) w (new_v4 (w_uuids w)) →
  old_of (w_kv w) (artifact_key (rc_name config) STALE_PATH) = inr (Some r) → scannable w members →
  ∃ (projects : gset string) w',
    let html := render_projects (sorted_vec projects) in
    run (proxy_simple_index fuel config) w = (Some (PyHtml html), w') ∧ (∀ x, x ∈ projects ↔ listed w members x) ∧
    w_kv w' !! artifact_key (rc_name config) STALE_PATH = None ∧
    ((∃ d : bytes, blake3_hex d = blake3_hex html ∧ ∀ fuel', run (proxy_simple_index fuel' config) w' = (Some (PyHtml (from_utf8_lossy d)), w')) ∨
     w_kv w' !! artifact_key (rc_name config) SIMPLE_PATH = w_kv w !! artifact_key (rc_name config) SIMPLE_PATH).
Proof using ar_exact br_exact.
  intros Hk Hst Hno Hs Hid Hstale Hscan. rewrite (marked_rebuilds config members wm r w Hk Hst Hstale). unfold rebuild_index.
  rewrite run_bind, (run_clear config w r Hstale). set (w1 := unmarked config w).
  destruct (run_member_projects members ∅ w1 (unmarked_scannable _ _ _ Hno Hscan)) as (projects & Hrun & Hp).
  exists projects. rewrite run_bind, Hrun.
  destruct (wp_run _ _ _ (wp_store_simple config repos (render_projects (sorted_vec projects)) w1 (unmarked_sound _ _ _ _ _ Hs) Hid))
    as (res & w' & Hrun' & Hst' & Hflag & Hkept).
  exists w'. rewrite run_bind, Hrun'. split; [done|]. split.
  { intros x. pose proof (unmarked_listed config w members x Hno) as Hl. fold w1 in Hl. rewrite Hp, Hl. split; [by intros [?%elem_of_empty|?]|by right]. }
  assert (w_kv w' !! stale_key config = None) as Hnone by (by rewrite Hflag; unfold w1; rewrite unmarked_lookup, decide_True).
  split; [exact Hnone|]. destruct (is_ok res).
  - left. destruct Hkept as (d & Hkeep & Hd). exists d. split; [done|]. intros fuel'.
    assert (old_of (w_kv w') (stale_key config) = inr None) as Hold by (unfold old_of; by rewrite Hnone).
    exact (kept_served fuel' config members wm _ w' Hk ltac:(rewrite Hst'; exact Hst) Hold Hkeep).
  - right. refine (eq_trans Hkept _). unfold w1. rewrite unmarked_lookup by done. rewrite decide_False; [done|apply simple_not_stale].
Qed.

(** C22: While the index of a proxy is built, the page from before counts as
    current.  As soon as the mark is removed, which the rebuilding request does
    first, the page that was kept is served without a mark, whatever the members
    have by then; so it stays when the request does not come to its end. *)
Theorem interrupted_rebuild_keeps_old (config : RepoConfig) (members : list string) (wm : option string) (r : ArtifactRecord) (html : string)
    (w : world kvmap) :
  rc_kind config = Proxy members wm → rc_store config ∈ w_stores w →
  old_of (w_kv w) (artifact_key (rc_name config) STALE_PATH) = inr (Some r) → keeps_index config html w →
  ∃ w1, run (clear_stale_flag (store_of config)) w = (Some (Ok tt), w1) ∧
    (∃ rest : result unit → prog PypiReply, rebuild_index fuel (store_of config) members = bind (clear_stale_flag (store_of config)) rest) ∧
    ∀ fuel', run (proxy_simple_index fuel' config) w1 = (Some (PyHtml html), w1).
Proof.
  intros Hk Hst Hstale (r' & id & d & Hr & Hrest). exists (unmarked config w). split; [by apply (run_clear config w r)|]. split; [by eexists|].
  intros fuel'. apply (kept_served fuel' config members wm html (unmarked config w) Hk Hst (unmarked_none config w)).
  exists r', id, d. split; [|exact Hrest]. rewrite <-Hr. unfold old_of. rewrite unmarked_lookup by done.
  rewrite decide_False; [done|apply simple_not_stale].
Qed.
End index.

(** A proxy of a repository with one package, marked, with a page from before. *)
Definition toy_pypi_proxy : RepoConfig := mkRepoConfig 5 "x" (Proxy ["r"] None) CPyPI "s" 0%Z None None false.
Definition toy_proxy_rc : Serde RepoConfig := table_serde [toy_pypi_repo; toy_pypi_proxy].
Definition toy_old_page : string := render_projects [].
Definition toy_new_page : string := render_projects ["my-pkg"].
Definition page_record (html id : string) : ArtifactRecord :=
  let _ := toy_blake3 in file_record KRaw true "text/html" (byte_size html) id (blake3_hex html) 0%Z.
Definition toy_index_records : list ArtifactRecord :=
  [toy_pypi_file; ar_prepared (pypi_flag 0%Z) "f" 0%Z STALE_PATH; ar_prepared (page_record toy_old_page "b") "i" 0%Z SIMPLE_PATH;
   ar_prepared (page_record toy_new_page "uuid-0") "i" 0%Z SIMPLE_PATH; ar_prepared (page_record toy_new_page "uuid-0") "uuid-1" 0%Z SIMPLE_PATH].
Definition toy_index_blobs : list BlobRecord := [toy_first_blob toy_new_page].
Definition toy_marked_world : world kvmap :=
  let _ := toy_unicode in let _ := toy_blake3 in
  mkWorld (<[repo_key "r" := ("0", 1%Z)]> (<[repo_key "x" := ("1", 1%Z)]>
      (<[artifact_key "r" (package_path "my.pkg" "1.0" "my_pkg-1.0.zip") := ("0", 1%Z)]>
      (<[artifact_key "x" STALE_PATH := ("1", 1%Z)]> {[artifact_key "x" SIMPLE_PATH := ("2", 1%Z)]}))))
    {[("s", "b") := toy_old_page]} {["s"]} 0%Z 0 [] false.

Lemma proxy_index_rebuilt_witness :
  let _ := toy_unicode in let _ := Prog.in_order in let _ := toy_blake3 in let _ := table_serde toy_index_records in let _ := toy_te_serde in
  let _ := table_serde toy_index_blobs in let _ := toy_proxy_rc in let _ := toy_uuid in
  ∃ w', run (proxy_simple_index 5 toy_pypi_proxy) toy_marked_world = (Some (PyHtml toy_new_page), w') ∧
    w_kv w' !! artifact_key "x" STALE_PATH = None ∧ ∃ html, run (proxy_simple_index 5 toy_pypi_proxy) w' = (Some (PyHtml html), w').
Proof.
  intros ? ? ? ? ? ? ? ?.
  destruct (@proxy_index_rebuilt toy_unicode Prog.in_order toy_blake3 (table_serde toy_index_records) toy_te_serde (table_serde toy_index_blobs)
    toy_proxy_rc toy_uuid (table_serde_exact _) (table_serde_exact _) 5 toy_pypi_proxy ["r"] None ∅
    (ar_prepared (pypi_flag 0%Z) "f" 0%Z STALE_PATH) toy_marked_world) as (projects & w' & Hrun & _ & Hflag & Hkept);
    [reflexivity|by_decide|by_decide| | |vm_compute; reflexivity| |].
  - split; [|intros repo path b v r id Hr; by apply elem_of_empty in Hr]. intros hash b v r Hk. exfalso.
    assert (map_Forall (λ (k : string * string * string) (_ : bytes * Z), k.1.1 ≠ TABLE_BLOBS) (w_kv toy_marked_world)) as Hall by by_decide.
    by apply (Hall _ _ Hk).
  - split_and!; [reflexivity|by_decide|reflexivity].
  - intros member Hm. apply list_elem_of_singleton in Hm as ->. split; [apply closed_readable; by_decide|apply closed_enough; by_decide].
  - assert ((run (proxy_simple_index 5 toy_pypi_proxy) toy_marked_world).1 = Some (PyHtml toy_new_page)) as Hfst by (vm_compute; reflexivity).
    pose proof (eq_trans (eq_sym (f_equal fst Hrun)) Hfst) as Hpage. cbn [fst] in Hpage.
    apply (f_equal (λ o, match o with Some (PyHtml h) => h | _ => "" end)) in Hpage. exists w'.
    rewrite <-Hpage. split; [exact Hrun|]. split; [exact Hflag|]. destruct Hkept as [ (d & _ & Hd)|Hold]; [exact (ex_intro _ _ (Hd 5))|].
    exfalso. pose proof (f_equal snd Hrun : (run (proxy_simple_index 5 toy_pypi_proxy) toy_marked_world).2 = w') as Hw.
    assert (w_kv (run (proxy_simple_index 5 toy_pypi_proxy) toy_marked_world).2 !! artifact_key "x" SIMPLE_PATH ≠
      w_kv toy_marked_world !! artifact_key "x" SIMPLE_PATH) as Hne by (vm_compute; discriminate).
    apply Hne. exact (eq_trans (f_equal (λ w0 : world kvmap, w_kv w0 !! _) Hw) Hold).
Defined.

Lemma interrupted_rebuild_keeps_old_witness :
  let _ := toy_unicode in let _ := Prog.in_order in let _ := toy_blake3 in let _ := table_serde toy_index_records in let _ := toy_te_serde in
  let _ := table_serde toy_index_blobs in let _ := toy_proxy_rc in let _ := toy_uuid in
  ∃ w1, run (clear_stale_flag (store_of toy_pypi_proxy)) toy_marked_world = (Some (Ok tt), w1) ∧
    run (proxy_simple_index 5 toy_pypi_proxy) w1 = (Some (PyHtml toy_old_page), w1).
Proof.
  intros ? ? ? ? ? ? ? ?.
  destruct (@interrupted_rebuild_keeps_old toy_unicode Prog.in_order toy_blake3 (table_serde toy_index_records) toy_te_serde
    (table_serde toy_index_blobs) toy_proxy_rc toy_uuid 5 toy_pypi_proxy ["r"] None (ar_prepared (pypi_flag 0%Z) "f" 0%Z STALE_PATH) toy_old_page toy_marked_world)
    as (w1 & Hclear & _ & Hserve); [reflexivity|by_decide|vm_compute; reflexivity| |].
  - exists (ar_prepared (page_record toy_old_page "b") "i" 0%Z SIMPLE_PATH), "b", toy_old_page. split_and!; [vm_compute; reflexivity|reflexivity|by_decide|reflexivity|reflexivity].
  - exists w1. split; [exact Hclear|]. exact (Hserve 5).
Defined.

Lemma pages_read_back_witness :
  let _ := toy_trim in
  let link := mkPypiProjectLink "my_pkg-1.0.zip" "1-0" "https://up/my_pkg-1.0.zip" (Some "ab12") (Some ">=3.8,<4") in
  writable (link_of_index "my-pkg" link) ∧
  parse_simple_html (render_index_links "my-pkg" [link]) = Some [link_of_index "my-pkg" link].
Proof.
  intros ? link. assert (writable (link_of_index "my-pkg" link)) as Hw by (split_and!; [reflexivity..|discriminate]).
  split; [exact Hw|]. exact (proj1 (@pages_read_back toy_trim) "my-pkg" [link] (Forall_cons_2 _ _ _ Hw (Forall_nil_2 _))).
Defined.

(** An upload through a proxy marks the repository that it goes to and the
    proxies of the proxy, but not the proxy itself, whose index goes on without
    the project; an upload to the member marks it. *)
Definition toy_both_rr : Serde RoleRecord :=
  table_serde [mkRoleRecord 1 "dev" "developers" [mkCapabilityGrant CapWrite "x"; mkCapabilityGrant CapWrite "r"] 0%Z 0%Z].
Definition toy_proxied_world : world kvmap :=
  let _ := toy_blake3 in
  mkWorld (<[repo_key "r" := ("0", 1%Z)]> (<[repo_key "x" := ("1", 1%Z)]> (<[artifact_key "x" SIMPLE_PATH := ("1", 1%Z)]> (toy_accounts "0"))))
    {[("s", "b") := toy_old_page]} {["s"]} 0%Z 0 [] false.
Definition toy_proxied_records : list ArtifactRecord :=
  [toy_pypi_file; ar_prepared (page_record toy_old_page "b") "i" 0%Z SIMPLE_PATH; ar_prepared (pypi_flag 0%Z) "uuid-2" 0%Z STALE_PATH;
   ar_prepared (stale_flag FPyPI 0%Z) "uuid-3" 0%Z STALE_PATH].

Example proxy_upload_not_listed :
  let _ := toy_unicode in let _ := toy_trim in let _ := toy_text in let _ := toy_index_json in let _ := toy_upstream in
  let _ := toy_digests in let _ := Prog.in_order in let _ := toy_blake3 in let _ := table_serde toy_proxied_records in let _ := toy_te_serde in
  let _ := table_serde [toy_first_blob "abc"] in let _ := toy_proxy_rc in let _ := toy_ur_serde in let _ := toy_both_rr in let _ := toy_argon2 in
  let _ := toy_uuid in
  let form := [text_field "name" "my.pkg"; text_field "version" "1.0"; mkFormField (Some "content") (Some "my_pkg-1.0.zip") None [inr "abc"] ] in
  let index repo := let '(reply, w') := run (process_upload tt "alice" repo form) toy_proxied_world in
    (reply, (run (proxy_simple_index 5 toy_pypi_proxy) w').1) in
  index "x" = (Some (Ok tt, tt), Some (PyHtml toy_old_page)) ∧ index "r" = (Some (Ok tt, tt), Some (PyHtml toy_new_page)).
Proof. intros. split; vm_compute; reflexivity. Qed.
